(* ===== verification/_CoqProject ===== *)
-Q . S2P
Prelude.v
Common.v
MemoryBlock.v
OrderedTree.v
MemoryBlockManager.v
MemoryBlockManagerLemmas.v
MemoryBlockManagerUpdate.v
MemoryBlockManagerTheorems.v
MemoryBlockManagerExamples.v
PageBitmap.v
PageBitmapLemmas.v
PageBitmapTheorems.v
PageHeap.v
PageHeapLemmas.v
PageHeapTheorems.v
PageHeapInitialize.v
PageHeapExamples.v
MemoryRegionType.v
MemoryRegion.v
MemoryLayout.v
MemoryRegionTheorems.v
PageGroup.v
MemoryManager.v
PageGroupTheorems.v
MemoryManagerLemmas.v
MemoryManagerPages.v
MemoryManagerAllocate.v
MemoryManagerOperations.v
MemoryManagerProperties.v
MemoryManagerCreate.v
MemoryManagerReady.v
MemoryManagerExamples.v
AutoObject.v
HandleTable.v
HandleTableTheorems.v
HandleTableExamples.v
ResourceLimit.v
ResourceLimitTheorems.v
PageTable.v
PageTableOperations.v
PageTableCheck.v
PageTablePermission.v
PageTableTranslation.v
PageTableOperate.v
PageTableHeap.v
PageTableRequests.v
PageTableRequestLemmas.v
PageTableLocks.v
PageTableFreeArea.v
PageTableProperties.v
PageTableExamples.v
Capabilities.v
CapabilitiesTheorems.v
Thread.v
PriorityQueue.v
PriorityQueueLemmas.v
PriorityQueueTheorems.v
PriorityQueueRefinement.v
Scheduler.v
SchedulerLemmas.v
SchedulerSelect.v
SchedulerOperations.v
SchedulerTheorems.v
SchedulerProperties.v
Locks.v
LocksLemmas.v
LocksOperations.v
LocksTransfer.v
LocksTheorems.v
LocksProperties.v
SynchronizationObject.v
Waiting.v
ConditionVariable.v
Synchronization.v
SynchronizationLemmas.v
WaitingLemmas.v
AddressArbiterLemmas.v
ConditionVariableLemmas.v
SynchronizationTheorems.v
WaitingProperties.v
