(* ===== verification/Prelude.v ===== *)
(** * drippu: a verification development of the HLE kernel

    drippu is an emulator of a game console.  Guest code runs on recompilers;
    the operating system it calls is reimplemented ("high-level emulated") in
    C++, and its kernel, src/src/core/hle/kernel/, is the part with the most
    logic of its own: it keeps the address space of a process, the physical
    pages, the handles and the resource accounts that every system call goes
    through, and it decides which thread runs on which core.  This library
    models that kernel and proves its data structures and operations correct.

    ** How the code is modelled

    A C++ function becomes a Rocq function of the same name (a method
    [K::f] is [K_f]), with the object it changes as an argument and a result.
    Integers are [Z], and every place where a machine word can wrap writes the
    wrap-around out ([u64], [u16], [s64]...).  Fallible functions return the
    [Result] code as the code does.  Functions that assert or that can reach
    undefined behaviour are in the monad [prog] of this file: [Done ok a] is a
    run to the end with result [a], [ok] telling whether every [ASSERT] held
    (a failed assertion is logged and the code carries on); [Stuck] is
    undefined behaviour or exhausted fuel.  [wp m Q] says that [m] runs to the
    end, fails no assertion and returns a value satisfying [Q], so each
    theorem stated with [wp] includes termination and absence of undefined
    behaviour.  Loops that are not structural take fuel; the fuel is computed
    from the state (the length of the list walked, the number of bits of a
    word) and the [wp] theorems show that it is enough.

    Locks (KScopedLightLock, KScopedSpinLock, KScopedDisableDispatch) make the
    operations of the objects below atomic, so an operation is one function.
    Where a thread gives the lock up in the middle, in KResourceLimit::Reserve,
    the interference of the other threads is an argument: a list of arbitrary
    invariant-preserving state changes, one per wait.

    ** The parts, and the files that model them

    - Prelude.v: the monad, machine integers, arrays, lists of neighbours, the
      tactics [pstep], [wp_go], [prog_inv] and the hint databases.
    - Common.v: common/alignment.h, common/bit_field.h, core/hle/result.h.
    - OrderedTree.v: the interface of common/intrusive_red_black_tree.h, a list
      of elements in order and positions in it.
    - MemoryBlock.v: k_memory_block.h, one block of an address space.
    - MemoryBlockManager.v: k_memory_block_manager.h/.cpp, the blocks that tile
      an address space and the update allocator.  The slab that the blocks come
      from is the class [SlabManager].  MemoryBlockManagerLemmas.v has the
      view of a block list as a function from pages to properties, the
      well-formedness invariant and the coalescing pass;
      MemoryBlockManagerUpdate.v the walk that the four update operations
      share; MemoryBlockManagerTheorems.v the theorems: each update changes
      exactly the pages of its range and keeps the tiling, lock and unlock
      are inverse, FindFreeArea is sound and complete, CheckState holds in
      every reachable state.  MemoryBlockManagerExamples.v evaluates them.
    - PageBitmap.v: k_page_bitmap.h, a tree of 64-bit words over the free
      blocks, with the random bit generator; the TinyMT generator is the class
      [Rng].  PageBitmapLemmas.v has the invariant that a bit of a level is set
      exactly when the word below it is not zero; PageBitmapTheorems.v the
      theorems on setting, clearing and searching.
    - PageHeap.v: k_page_heap.h/.cpp, the buddy allocator of physical pages
      over seven bitmaps.  PageHeapLemmas.v, PageHeapTheorems.v and
      PageHeapInitialize.v show that allocation takes free aligned pages,
      that freeing gives exactly the range back and coalesces, and that
      the management memory computed is enough; PageHeapExamples.v evaluates
      them.
    - AutoObject.v: k_auto_object.h/.cpp and k_class_token.h, class tokens and
      reference counts.  The virtual Destroy of an object is a parameter.
    - HandleTable.v, HandleTableTheorems.v, HandleTableExamples.v:
      k_handle_table.h/.cpp, handles as
      index and linear id, the free list threaded through the entries, and
      the references the table holds.
    - ResourceLimit.v, ResourceLimitTheorems.v: k_resource_limit.h/.cpp and
      k_scoped_resource_reservation.h.
    - Capabilities.v, CapabilitiesTheorems.v: k_capabilities.h/.cpp, the rights
      of a process from its capability words; the page table is the class
      [PageTable].
    - MemoryRegionType.v: k_memory_region_type.h with its two lists of devices,
      the bit patterns of region types and how they are derived.
      MemoryRegion.v: k_memory_region.h and k_memory_layout.h/.cpp, the trees of
      memory regions; the random placement uses the class [RandomRange].
      MemoryLayout.v: the layout derived at boot by kernel.cpp and
      board/nintendo/nx, with the sizes of k_system_control.cpp; the size of the
      slab heaps is a parameter.  MemoryRegionTheorems.v shows what a tree says
      of every address after an insertion and after the linear trees are copied.
    - PageGroup.v: k_page_group.h/.cpp and the device memory (bytes by physical
      address).  MemoryManager.v: k_memory_manager.h/.cpp, the managers of
      physical memory: reference counts, allocation of page groups and of
      contiguous pages, the map of the pages of an optimized process, and
      initialisation from the layout.  The light locks of the pools are not part
      of the state: each operation is atomic.
      PageGroupTheorems.v relates a group to the sequence of its pages.
      MemoryManagerLemmas.v treats one manager: every operation does one action
      to each page of a range.  MemoryManagerPages.v lifts the actions to all
      managers, MemoryManagerAllocate.v has the bits of the map, the lists of
      managers of a pool and the nested loops of
      AllocatePageGroupImpl and its failure guard, MemoryManagerOperations.v
      opening, closing and contiguous allocation and what the pages of a
      process contain.  MemoryManagerCreate.v and MemoryManagerReady.v follow
      Initialize: the state of a new manager, the chains of managers made from
      the layout, one region given to its heap, and the state at the end, in
      which every page is free but the image of the initial processes.
      MemoryManagerProperties.v has the theorems: an allocation gives distinct
      free pages of the pool and fails only when there are too few of them or too
      few block infos, closing it restores every page, closing a range frees exactly the
      pages without references, and a process never sees what another process
      left in its pages.  MemoryManagerExamples.v has two managers of four pages
      and shows a failed allocation that loses pages.
    - PageTable.v: the page table of a process: the entries of
      common/page_table.h/.cpp, the functions of core/memory.cpp that change
      them, and of k_page_table_base.h/.cpp the data, the checks of memory, page
      groups of mapped memory and Operate.  PageTableOperations.v: permissions,
      attributes, the heap and the queries.  The loops over pages are given as
      many turns as there are pages.  PageTableCheck.v shows what a check
      of memory means and, with PageTablePermission.v, the invariant, updates of
      blocks and the change of permissions and attributes,
      PageTableTranslation.v that page groups are the translation of a range and
      what mapping does to the entries, PageTableOperate.v the counting of
      references for groups with repeated pages, the invariant that every
      mapping holds a reference and that Operate keeps it, PageTableHeap.v
      memory that is allocated for a process and the size of its heap.
      PageTableRequests.v has the requests of processes and of the kernel: areas
      found at random, pages and page groups mapped and unmapped, aliases of
      memory and of code, locks for IPC buffers, transfer and code memory, and
      memory shared with devices.  PageTableRequestLemmas.v shows what mapping
      and unmapping do on every branch, PageTableLocks.v that a page group is
      recognised exactly when it is the translation of a range, and what locks
      and the groups that hold locked pages do, PageTableFreeArea.v that an area
      found at random is free, aligned and inside its region.
      PageTableProperties.v has SetHeapSize and the theorems about any sequence
      of operations (SetHeapSize is one function: the source holds the lock of the
      table in two sections and lets other operations in between them, which is not
      modelled), PageTableExamples.v a small table and two things that go
      wrong.
    - Thread.v: what the scheduler sees of k_thread.h, k_process.h and
      k_affinity_mask.h.
    - PriorityQueue.v: k_priority_queue.h, the queues of runnable threads:
      circular lists linked through entries that each thread has for each core,
      one for each priority and core, in a scheduled and a suggested half, with
      bit sets of the priorities in use.  PriorityQueueLemmas.v relates a
      linked queue to a list, PriorityQueueTheorems.v the whole structure to a
      family of lists, PriorityQueueRefinement.v states the abstract queues and
      shows that every operation refines them and that fronts and successors
      walk in order of priority.
    - Scheduler.v: the decisions of k_scheduler.h/.cpp and
      global_scheduler_context.h/.cpp under the scheduler lock.
      SchedulerLemmas.v has the invariant (the queues hold exactly the runnable
      threads, where their priority, core and affinity say), SchedulerSelect.v
      the selection for one core, migrations and the two loops of
      UpdateHighestPriorityThreadsImpl,
      SchedulerOperations.v and SchedulerTheorems.v state, priority and
      affinity changes, rotation and yields, SchedulerProperties.v the
      theorems: all operations keep the invariant and fail no assertion, and
      the threads selected are runnable, at the front of their queues and never
      selected twice.  The clock is the class [Clock].
    - Locks.v: the locks with priority inheritance of k_thread.h/.cpp: the lock
      infos and their slab, waiters added and removed, RestorePriority,
      RemoveWaiterByKey and base priorities.  LocksLemmas.v has the invariant
      (who waits for whom, the order of the trees, the counts),
      LocksOperations.v that it is kept when a waiter comes or goes and that
      RestorePriority gives every thread the best of its
      base priority and those of its waiters and that it ends, whatever the
      shape of the graph of owners, LocksTransfer.v and LocksTheorems.v the
      handing over of a lock and the other operations, LocksProperties.v the
      theorems and an example.
      There are as many lock infos as threads, which is what
      init/init_slab_setup.cpp reserves, and so AddWaiter always finds one.
    - Waiting.v: threads that wait: the queues of k_thread_queue.h/.cpp, the
      waits of k_thread.cpp, and the hardware timer of k_timer_task.h,
      k_hardware_timer_base.h and k_hardware_timer.h/.cpp with the scoped sleep
      lock.  ConditionVariable.v: k_condition_variable.cpp and
      k_address_arbiter.cpp.  The memory of the guest with its exclusive monitor
      is the class [GuestMemory].  The source repeats an exclusive store until it
      succeeds; the law [GuestMemoryLaws] assumes a bound on how often it fails in
      a row, and without it the theorems about waits do not hold; threads by handle are the class [ThreadHandles].  A call
      that waits is one function up to the point where the thread stops
      running; what it returns later is the thread's wait result.
      LocksTheorems.v has threads that enter and leave the tree of a condition
      variable, WaitingLemmas.v the tree of timer tasks, the invariant of waits,
      how waits begin and end and the timer interrupt, AddressArbiterLemmas.v the
      arbiter, ConditionVariableLemmas.v locks and condition variables of the
      guest.
      SynchronizationObject.v: the lists of waiting threads of
      k_synchronization_object.h/.cpp, linked through nodes that a waiting thread
      has on its stack, one for each object it waits for.  Synchronization.v:
      waiting for several objects, NotifyAvailable, cancelled waits and the events
      of k_event.h/.cpp and k_readable_event.h/.cpp.  SynchronizationLemmas.v
      relates the links to lists, SynchronizationTheorems.v follows the walk over
      a list that the woken threads change, and the waits.  WaitingProperties.v has the theorems: any sequence of calls keeps
      the invariant, an interrupt ends exactly the waits that are due, signals
      take exactly the first waiters, a lock goes to the best waiter, and a
      signal to all misses a waiter.

    ** Bounds

    Page numbers and addresses are below 2 ^ 64 and an address space ends
    below 2 ^ 64, as its manager is initialised; lock counts of a block are
    16-bit and a lock theorem asks that they do not wrap.  A bitmap has at most
    four levels (MaxDepth), so at most 64 ^ 4 blocks.  There are four cores and
    priorities 0 to 63 (64 for idle threads, which are in no queue); a loop that
    walks along a queue has the number of threads as fuel, since a queue has no
    thread twice.

    ** Not modelled

    Balancing in common/tree.h (the order of the elements does not depend on
    it), the memory barriers and compare-and-exchange loops of the reference
    counts (one atomic step each), and what is outside the kernel: the system
    services, the recompilers, graphics and audio, file formats and front ends,
    which are glue around third-party code or device formats.

    Of the scheduler, the switch between host fibers (Schedule, ScheduleImpl,
    SwitchThread, Unload, Reload), the interrupts sent to other cores and the
    end of the lock (EnableScheduling) are not modelled: they hand over to host
    threads.  Of KThread and KProcess only
    what the scheduler, the locks and the waits use is modelled.  A thread that
    waits for a lock it holds itself is excluded by the hypotheses, though a guest
    can ask for it, as are values of the arbiter that would overflow.  Of the page table the host mappings of
    fastmem, the watch of recompiled code and the reads and writes of guest
    memory are not modelled, nor are the copies of memory between processes, the
    buffers of IPC messages, physical memory, I/O memory and the layout of the
    address space.  The memory of devices, the locks for IPC buffers and
    SetProcessMemoryPermission are executable definitions that the examples run; the
    theorems are about the other requests.  Suspension and core masks of KThread are left out too. *)

From stdpp Require Export base tactics list numbers option sets gmap.
From Stdlib Require Export ZArith Lia.

Declare Scope kernel_scope.
Delimit Scope kernel_scope with kernel.
#[global] Open Scope Z_scope.

(** ** Effects

    The kernel code is straight-line C++ with soft assertions: [ASSERT] logs a
    failure and carries on (src/src/common/assert.h, [AssertFailSoftImpl] only
    traps when [use_debug_asserts] is set).  A program is therefore a value
    [Done ok a]: the result [a] of running to the end, together with the flag
    [ok] that is [true] exactly when no [ASSERT] on the way failed.  [Stuck] is
    what the C++ leaves undefined (dereferencing an end iterator, indexing out
    of an array) and a loop that ran out of the fuel it was given. *)
Inductive prog (A : Type) : Type :=
| Stuck : prog A
| Done : bool → A → prog A.
Arguments Stuck {A}.
Arguments Done {A} ok a : rename.

#[export] Instance prog_ret : MRet prog := λ A a, Done true a.
#[export] Instance prog_bind : MBind prog := λ A B f m,
  match m with
  | Stuck => Stuck
  | Done ok a =>
      match f a with
      | Stuck => Stuck
      | Done ok' b => Done (ok && ok') b
      end
  end.

(** [ASSERT(c)]: execution continues whatever [c] is. *)
Definition ASSERT (c : bool) : prog unit := Done c ().

(** Reading through an optional pointer, iterator or array slot: a null
    pointer, an end iterator and an index out of range are undefined. *)
Definition deref {A} (o : option A) : prog A :=
  match o with Some a => mret a | None => Stuck end.

(** ** Total correctness

    [wp m Q]: [m] runs to the end, no assertion fails, and the result satisfies
    [Q]. *)
Definition wp {A} (m : prog A) (Q : A → Prop) : Prop :=
  match m with Done true a => Q a | _ => False end.

Section wp.
Context {A B : Type}.

Lemma wp_ret (a : A) Q : wp (mret a) Q ↔ Q a.
Proof. done. Qed.

Lemma wp_bind (m : prog A) (f : A → prog B) Q :
  wp (m ≫= f) Q ↔ wp m (λ a, wp (f a) Q).
Proof.
  destruct m as [|[] a]; simpl; try done.
  - unfold mbind, prog_bind. by destruct (f a) as [|[]].
  - unfold mbind, prog_bind. by destruct (f a) as [|[]].
Qed.

Lemma wp_mono (m : prog A) (P Q : A → Prop) :
  wp m P → (∀ a, P a → Q a) → wp m Q.
Proof. destruct m as [|[] a]; simpl; eauto. Qed.

Lemma wp_deref (o : option A) Q : wp (deref o) Q ↔ ∃ a, o = Some a ∧ Q a.
Proof. destruct o; simpl; naive_solver. Qed.

Lemma wp_exists (m : prog A) Q : wp m Q ↔ ∃ a, m = Done true a ∧ Q a.
Proof. destruct m as [|[] a]; simpl; naive_solver. Qed.

Lemma wp_Done (a : A) Q : Q a → wp (Done true a) Q.
Proof. done. Qed.
End wp.

Lemma wp_ASSERT c Q : wp (ASSERT c) Q ↔ c = true ∧ Q ().
Proof. destruct c; simpl; naive_solver. Qed.

Lemma wp_if {A} (b : bool) (m n : prog A) Q :
  wp (if b then m else n) Q ↔ (b = true → wp m Q) ∧ (b = false → wp n Q).
Proof. destruct b; naive_solver. Qed.

(** The equations the model runs by, for evaluating a program whose
    sub-programs are known. *)
Lemma bind_Done_true {A B} (a : A) (f : A → prog B) : Done true a ≫= f = f a.
Proof. unfold mbind, prog_bind. by destruct (f a) as [|[]]. Qed.

Lemma bind_ret_l {A B} (a : A) (f : A → prog B) : mret a ≫= f = f a.
Proof. apply bind_Done_true. Qed.

Lemma bind_deref {A B} (a : A) (f : A → prog B) : deref (Some a) ≫= f = f a.
Proof. apply bind_Done_true. Qed.

Lemma bind_assoc {A B C} (m : prog A) (f : A → prog B) (g : B → prog C) :
  (m ≫= f) ≫= g = m ≫= (λ a, f a ≫= g).
Proof.
  unfold mbind, prog_bind. destruct m as [|b a]; [done|].
  destruct (f a) as [|b' c]; [done|]. destruct (g c); [done|]. by rewrite andb_assoc.
Qed.

Lemma bind_ext {A B} (m : prog A) (f g : A → prog B) : (∀ a, f a = g a) → m ≫= f = m ≫= g.
Proof. intros Hfg. unfold mbind, prog_bind. destruct m; [done|]. by rewrite Hfg. Qed.

Lemma bind_Done_inv {A B} (m : prog A) (f : A → prog B) ok b :
  m ≫= f = Done ok b → ∃ ok1 a ok2, m = Done ok1 a ∧ f a = Done ok2 b.
Proof.
  unfold mbind, prog_bind. destruct m as [|ok1 a]; [done|].
  destruct (f a) as [|ok2 c] eqn:E; [done|]. intros [= _ <-]. eauto 10.
Qed.

(** [prog_inv] takes apart a run that is known to end. *)
Ltac prog_inv :=
  repeat match goal with
  | H : _ ≫= _ = Done _ _ |- _ => apply bind_Done_inv in H as (? & ? & ? & ? & H)
  | H : mret _ = Done _ _ |- _ => injection H; clear H; intros; subst
  | H : (if ?b then _ else _) = Done _ _ |- _ => destruct b eqn:?
  | H : (let '(_, _) := ?x in _) = Done _ _ |- _ => destruct x eqn:?
  end.

(** The result of a run, for examples; [d] when there is none. *)
Definition result {A} (d : A) (m : prog A) : A := match m with Done _ a => a | Stuck => d end.

Lemma wp_result {A} (d : A) (m : prog A) Q : wp m Q → Q (result d m).
Proof. by destruct m as [|[] a]. Qed.

(** [pstep] runs the program by the equations above as far as they go. *)
Ltac pstep :=
  repeat (first [rewrite bind_ret_l | rewrite bind_Done_true | rewrite bind_deref];
          cbv beta iota zeta).

Create HintDb kernel discriminated.
Create Rewrite HintDb kprog.
#[export] Hint Rewrite @wp_ret @wp_bind @wp_deref wp_ASSERT @wp_if : kprog.

(** [wp_go] pushes [wp] through the program text. *)
Ltac wp_go := autorewrite with kprog.

(** ** Machine integers

    A [w]-bit integer is a [Z] in range; every operation of the C++ that can
    leave the range is followed by the wrap-around of its type. *)
Definition u8 (z : Z) : Z := z mod 2 ^ 8.
Definition u16 (z : Z) : Z := z mod 2 ^ 16.
Definition u32 (z : Z) : Z := z mod 2 ^ 32.
Definition u64 (z : Z) : Z := z mod 2 ^ 64.
Definition s16 (z : Z) : Z := (z + 2 ^ 15) mod 2 ^ 16 - 2 ^ 15.
Definition s32 (z : Z) : Z := (z + 2 ^ 31) mod 2 ^ 32 - 2 ^ 31.
Definition s64 (z : Z) : Z := (z + 2 ^ 63) mod 2 ^ 64 - 2 ^ 63.

Definition is_u8 (z : Z) : Prop := 0 ≤ z < 2 ^ 8.
Definition is_u16 (z : Z) : Prop := 0 ≤ z < 2 ^ 16.
Definition is_u32 (z : Z) : Prop := 0 ≤ z < 2 ^ 32.
Definition is_u64 (z : Z) : Prop := 0 ≤ z < 2 ^ 64.
Definition is_s64 (z : Z) : Prop := - 2 ^ 63 ≤ z < 2 ^ 63.

Lemma u8_id z : is_u8 z → u8 z = z.
Proof. apply Z.mod_small. Qed.
Lemma u16_id z : is_u16 z → u16 z = z.
Proof. apply Z.mod_small. Qed.
Lemma u32_id z : is_u32 z → u32 z = z.
Proof. apply Z.mod_small. Qed.
Lemma u64_id z : is_u64 z → u64 z = z.
Proof. apply Z.mod_small. Qed.
Lemma s64_id z : is_s64 z → s64 z = z.
Proof. unfold is_s64, s64. intros. rewrite Z.mod_small; lia. Qed.

Lemma u16_range z : is_u16 (u16 z).
Proof. apply Z.mod_pos_bound. lia. Qed.
Lemma u64_range z : is_u64 (u64 z).
Proof. apply Z.mod_pos_bound. lia. Qed.
#[export] Hint Resolve u16_range u64_range : kernel.

(** [u_simpl] removes the wrap-arounds that [lia] can see do not happen. *)
Ltac u_simpl :=
  repeat match goal with
  | |- context [u64 ?z] => rewrite (u64_id z) by (unfold is_u64; lia)
  | |- context [u32 ?z] => rewrite (u32_id z) by (unfold is_u32; lia)
  | |- context [u16 ?z] => rewrite (u16_id z) by (unfold is_u16; lia)
  | |- context [u8 ?z] => rewrite (u8_id z) by (unfold is_u8; lia)
  end.

(** Booleans of the code as propositions. *)
Ltac bool_prop :=
  repeat match goal with
  | H : (_ && _) = true |- _ => apply andb_true_iff in H; destruct H
  | H : (_ || _) = false |- _ => apply orb_false_iff in H; destruct H
  | H : (_ =? _) = true |- _ => apply Z.eqb_eq in H
  | H : (_ =? _) = false |- _ => apply Z.eqb_neq in H
  | H : (_ <? _) = true |- _ => apply Z.ltb_lt in H
  | H : (_ <? _) = false |- _ => apply Z.ltb_ge in H
  | H : (_ <=? _) = true |- _ => apply Z.leb_le in H
  | H : (_ <=? _) = false |- _ => apply Z.leb_gt in H
  | H : negb _ = true |- _ => apply negb_true_iff in H
  | H : negb _ = false |- _ => apply negb_false_iff in H
  end.

(** ** Bits

    Flag sets are compared bit by bit: [bitwise] reads an equation between
    [Z.land], [Z.lor], [Z.ldiff] and [Z.lxor] terms, and the equations among the
    hypotheses it is given, at an arbitrary bit, and splits on the bits of the
    atoms. *)
Lemma testbit_eq (x y : Z) (i : Z) : x = y → Z.testbit x i = Z.testbit y i.
Proof. congruence. Qed.

Create Rewrite HintDb kbits.
#[export] Hint Rewrite Z.land_spec Z.lor_spec Z.ldiff_spec Z.lxor_spec Z.testbit_0_l : kbits.

Ltac bit_case x i :=
  let b := fresh "b" in set (b := Z.testbit x i) in *; clearbody b; destruct b.

Ltac bits_split :=
  repeat match goal with
  | |- context [Z.testbit ?x ?i] => bit_case x i
  | H : context [Z.testbit ?x ?i] |- _ => bit_case x i
  end.

Ltac bitwise :=
  apply Z.bits_inj';
  let i := fresh "i" in let Hi := fresh "Hi" in intros i Hi;
  repeat match goal with
  | H : @eq Z ?x ?y |- _ =>
      lazymatch goal with
      | H' : Z.testbit x i = Z.testbit y i |- _ => fail
      | _ => idtac
      end;
      apply (testbit_eq _ _ i) in H
  end;
  autorewrite with kbits in *; bits_split; simpl in *; congruence.

Lemma land_lor_disjoint x k d : Z.land k d = 0 → Z.land (Z.lor x k) d = Z.land x d.
Proof. intros E. bitwise. Qed.

Lemma land_ldiff_disjoint x k d : Z.land k d = 0 → Z.land (Z.ldiff x k) d = Z.land x d.
Proof. intros E. bitwise. Qed.

(** The bits of an [n]-bit value stop below [n]. *)
Lemma testbit_above (x n i : Z) : 0 ≤ x < 2 ^ n → n ≤ i → Z.testbit x i = false.
Proof.
  intros Hx Hi. destruct (decide (0 ≤ n)).
  - rewrite <- (Z.mod_small x (2 ^ n)) by done. by apply Z.mod_pow2_bits_high.
  - rewrite Z.pow_neg_r in Hx by lia. lia.
Qed.

Lemma bits_lt (x n : Z) :
  0 ≤ n → 0 ≤ x → (∀ i, n ≤ i → Z.testbit x i = false) → x < 2 ^ n.
Proof.
  intros Hn Hx Hb. destruct (decide (x = 0)) as [->|]; [by apply Z.pow_pos_nonneg; lia|].
  apply Z.log2_lt_pow2; [lia|]. destruct (decide (Z.log2 x < n)); [done|].
  specialize (Hb (Z.log2 x) ltac:(lia)). rewrite Z.bit_log2 in Hb by lia. done.
Qed.

Lemma lor_bound n x y : 0 ≤ n → 0 ≤ x < 2 ^ n → 0 ≤ y < 2 ^ n → 0 ≤ Z.lor x y < 2 ^ n.
Proof.
  intros Hn Hx Hy. assert (0 ≤ Z.lor x y) by (apply Z.lor_nonneg; lia). split; [done|].
  apply bits_lt; [done..|]. intros i Hi.
  rewrite Z.lor_spec, (testbit_above x n), (testbit_above y n) by done. done.
Qed.

Lemma land_bound n x y : 0 ≤ n → 0 ≤ x < 2 ^ n → 0 ≤ y → 0 ≤ Z.land x y < 2 ^ n.
Proof.
  intros Hn Hx Hy. assert (0 ≤ Z.land x y) by (apply Z.land_nonneg; lia). split; [done|].
  apply bits_lt; [done..|]. intros i Hi. rewrite Z.land_spec, (testbit_above x n) by done. done.
Qed.

Lemma ldiff_bound n x y : 0 ≤ n → 0 ≤ x < 2 ^ n → 0 ≤ Z.ldiff x y < 2 ^ n.
Proof.
  intros Hn Hx. assert (0 ≤ Z.ldiff x y) by (apply Z.ldiff_nonneg; lia). split; [done|].
  apply bits_lt; [done..|]. intros i Hi. rewrite Z.ldiff_spec, (testbit_above x n) by done. done.
Qed.

(** ** Arrays

    [std::array] and pointer indexing with a [size_t] index: out of range is
    undefined. *)
Definition arr_get {A} (l : list A) (i : Z) : prog A :=
  if 0 <=? i then deref (l !! Z.to_nat i) else Stuck.

Definition arr_set {A} (l : list A) (i : Z) (x : A) : prog (list A) :=
  if (0 <=? i) && (i <? Z.of_nat (length l)) then mret (<[Z.to_nat i := x]> l) else Stuck.

Lemma wp_arr_get {A} (l : list A) i Q :
  wp (arr_get l i) Q ↔ 0 ≤ i ∧ ∃ a, l !! Z.to_nat i = Some a ∧ Q a.
Proof. unfold arr_get. destruct (0 <=? i) eqn:E; bool_prop; wp_go; simpl; naive_solver lia. Qed.

Lemma wp_arr_set {A} (l : list A) i x Q :
  wp (arr_set l i x) Q ↔ 0 ≤ i < Z.of_nat (length l) ∧ Q (<[Z.to_nat i := x]> l).
Proof.
  unfold arr_set. destruct (_ && _) eqn:E; bool_prop; simpl.
  - split; [|naive_solver]. intros HQ. split; [lia|done].
  - split; [done|]. intros [? _]. lia.
Qed.

Lemma arr_set_run {A} (l : list A) i x :
  0 ≤ i < Z.of_nat (length l) → arr_set l i x = Done true (<[Z.to_nat i := x]> l).
Proof.
  intros Hi. unfold arr_set. by rewrite (proj2 (Z.leb_le 0 i)), (proj2 (Z.ltb_lt i _)) by lia.
Qed.

(** ** Lists *)
Lemma Forall_weaken {A} (P Q : A → Prop) l :
  Forall P l → (∀ x, P x → Q x) → Forall Q l.
Proof. intros Hl HPQ. by eapply Forall_impl. Qed.

(** [adj R l]: [R] holds between every element of [l] and the next. *)
Section adj.
Context {A : Type} (R : A → A → Prop).

Fixpoint adj (l : list A) : Prop :=
  match l with
  | [] => True
  | x :: l => (∀ y, head l = Some y → R x y) ∧ adj l
  end.

Lemma adj_app l1 l2 :
  adj (l1 ++ l2) ↔
  adj l1 ∧ adj l2 ∧ (∀ x y, last l1 = Some x → head l2 = Some y → R x y).
Proof.
  induction l1 as [|a l1 IH]; simpl; [naive_solver|].
  rewrite IH. destruct l1 as [|b l1]; simpl; [naive_solver|].
  split; [intros (? & ? & ? & ?) | intros ((? & ?) & ? & ?)]; split_and!; naive_solver.
Qed.

End adj.

Lemma adj_and {A} (P Q : A → A → Prop) l :
  adj P l → adj Q l → adj (λ x y, P x y ∧ Q x y) l.
Proof. induction l as [|a l IH]; simpl; naive_solver. Qed.

Lemma adj_impl {A} (P Q : A → A → Prop) l :
  (∀ x y, x ∈ l → y ∈ l → P x y → Q x y) → adj P l → adj Q l.
Proof.
  induction l as [|a l IH]; intros HPQ; [done|]. intros [Ha Hl]. split.
  - intros y Hy. apply HPQ; [set_solver| |by apply Ha].
    destruct l; [done|]. simpl in Hy. set_solver.
  - apply IH; [|done]. intros. apply HPQ; [by right..|done].
Qed.

Lemma adj_bind {A B} (R : A → A → Prop) (S : B → B → Prop) (f : B → list A) (l : list B) :
  (∀ b, b ∈ l → adj R (f b) ∧ f b ≠ []) →
  (∀ b c x y, S b c → b ∈ l → c ∈ l → last (f b) = Some x → head (f c) = Some y → R x y) →
  adj S l → adj R (l ≫= f).
Proof.
  intros Hf HR. induction l as [|b l IH]; [done|]. intros [Hb Hl]. csimpl.
  apply adj_app. split_and!.
  - apply Hf. left.
  - apply IH; [| |done].
    + intros c Hc. apply Hf. by right.
    + intros. eapply HR; [done|by right..|done|done].
  - intros x y Hx Hy. destruct l as [|c l]; [done|]. csimpl in Hy.
    destruct (Hf c) as [_ Hne]; [set_solver|]. destruct (f c) as [|y' r] eqn:E; [done|].
    simpl in Hy. simplify_eq. apply (HR b c); [by apply Hb|set_solver..|done|by rewrite E].
Qed.
