(* ===== verification/Common.v ===== *)
(** * The helpers of src/src/common the kernel is written with

    Alignment (common/alignment.h), bit fields (common/bit_field.h), the result
    codes (core/hle/result.h, core/hle/kernel/svc_results.h) and the page size
    (core/hle/kernel/memory_types.h), each with the arithmetic facts the
    components use. *)

From S2P Require Import Prelude.

(** ** memory_types.h *)
Definition PageBits : Z := 12.
Definition PageSize : Z := Z.shiftl 1 PageBits.

(** ** alignment.h, at [u64] / [size_t] *)
Definition AlignUp (value size : Z) : Z :=
  let m := value mod size in
  let value := value - m in
  u64 (if m =? 0 then value else value + size).

Definition AlignDown (value size : Z) : Z := value - value mod size.

Definition IsAligned (value alignment : Z) : bool :=
  Z.land value (u64 (alignment - 1)) =? 0.

Lemma PageSize_eq : PageSize = 4096.
Proof. reflexivity. Qed.
#[global] Opaque PageSize.

Lemma IsAligned_pow2 (v n : Z) : 0 ≤ n < 64 → IsAligned v (2 ^ n) = (v mod 2 ^ n =? 0).
Proof.
  intros Hn. unfold IsAligned.
  assert (2 ^ n < 2 ^ 64) by (apply Z.pow_lt_mono_r; lia).
  assert (0 < 2 ^ n) by (apply Z.pow_pos_nonneg; lia).
  rewrite u64_id by (unfold is_u64; lia).
  replace (2 ^ n - 1) with (Z.ones n) by (rewrite Z.ones_equiv; lia).
  by rewrite Z.land_ones by lia.
Qed.

Lemma IsAligned_page v : IsAligned v PageSize = true ↔ v mod PageSize = 0.
Proof.
  rewrite PageSize_eq. change 4096 with (2 ^ 12). rewrite IsAligned_pow2 by lia. apply Z.eqb_eq.
Qed.

Lemma AlignDown_spec (v s : Z) :
  0 < s → AlignDown v s mod s = 0 ∧ AlignDown v s ≤ v < AlignDown v s + s.
Proof.
  intros Hs. unfold AlignDown. pose proof (Z.mod_pos_bound v s Hs).
  split; [|lia]. rewrite Zminus_mod_idemp_r, Z.sub_diag. apply Z.mod_0_l. lia.
Qed.

Lemma AlignDown_nonneg (v s : Z) : 0 < s → 0 ≤ v → 0 ≤ AlignDown v s.
Proof. intros Hs Hv. unfold AlignDown. pose proof (Z.mod_le v s Hv Hs). lia. Qed.

Lemma AlignUp_spec (v s : Z) :
  0 < s → 0 ≤ v → v + s ≤ 2 ^ 64 →
  AlignUp v s mod s = 0 ∧ v ≤ AlignUp v s < v + s.
Proof.
  intros Hs Hv Hb. unfold AlignUp. pose proof (Z.mod_pos_bound v s Hs).
  pose proof (Z.mod_le v s Hv Hs).
  assert (Hm : (v - v mod s) mod s = 0).
  { rewrite Zminus_mod_idemp_r, Z.sub_diag. apply Z.mod_0_l. lia. }
  case_bool_decide || destruct (v mod s =? 0) eqn:E; bool_prop; u_simpl; [lia|].
  split; [|lia]. rewrite <- Zplus_mod_idemp_l, Hm, Z.add_0_l. apply Z.mod_same. lia.
Qed.

(** ** bit_field.h, on a [u32] storage *)
Definition BitField_mask (position bits : Z) : Z :=
  u32 (Z.shiftl (Z.shiftr (u32 (Z.lnot 0)) (32 - bits)) position).

Definition BitField_FormatValue (position bits value : Z) : Z :=
  Z.land (u32 (Z.shiftl value position)) (BitField_mask position bits).

Definition BitField_ExtractValue (position bits storage : Z) : Z :=
  Z.shiftr (Z.land storage (BitField_mask position bits)) position.

Definition BitField_Assign (position bits storage value : Z) : Z :=
  Z.lor (Z.ldiff storage (BitField_mask position bits))
        (BitField_FormatValue position bits value).

Lemma BitField_mask_bits p b i :
  0 ≤ p → 0 < b → p + b ≤ 32 → 0 ≤ i →
  Z.testbit (BitField_mask p b) i = (p <=? i) && (i <? p + b).
Proof.
  intros Hp Hb Hs Hi. unfold BitField_mask, u32.
  change ((Z.lnot 0) mod 2 ^ 32) with (Z.ones 32).
  rewrite Z.shiftr_div_pow2 by lia.
  replace (Z.ones 32 / 2 ^ (32 - b)) with (Z.ones b).
  2:{ rewrite <- Z.shiftr_div_pow2 by lia. apply Z.bits_inj'. intros j Hj.
      rewrite Z.shiftr_spec, !Z.testbit_ones_nonneg by lia. lia. }
  destruct (decide (i < 32)).
  - rewrite Z.mod_pow2_bits_low, Z.shiftl_spec by lia.
    destruct (decide (p ≤ i)).
    + rewrite Z.testbit_ones_nonneg by lia. lia.
    + rewrite Z.testbit_neg_r by lia. lia.
  - rewrite Z.mod_pow2_bits_high by lia. lia.
Qed.

(** A field reads back as the plain slice of the storage. *)
Lemma BitField_ExtractValue_slice p b x :
  0 ≤ p → 0 < b → p + b ≤ 32 →
  BitField_ExtractValue p b x = (x / 2 ^ p) mod 2 ^ b.
Proof.
  intros Hp Hb Hs. unfold BitField_ExtractValue.
  rewrite <- Z.shiftr_div_pow2, <- Z.land_ones by lia.
  apply Z.bits_inj'. intros i Hi.
  rewrite Z.shiftr_spec, !Z.land_spec, Z.shiftr_spec, BitField_mask_bits by lia.
  rewrite Z.testbit_ones_nonneg by lia. destruct (Z.testbit x (i + p)); simpl; lia.
Qed.

Lemma BitField_ExtractValue_bound p b x :
  0 ≤ p → 0 < b → p + b ≤ 32 → 0 ≤ BitField_ExtractValue p b x < 2 ^ b.
Proof.
  intros. rewrite BitField_ExtractValue_slice by done.
  apply Z.mod_pos_bound, Z.pow_pos_nonneg; lia.
Qed.

Lemma BitField_Assign_bits p b x v i :
  0 ≤ p → 0 < b → p + b ≤ 32 → 0 ≤ i →
  Z.testbit (BitField_Assign p b x v) i =
    if (p <=? i) && (i <? p + b) then Z.testbit v (i - p) else Z.testbit x i.
Proof.
  intros Hp Hb Hs Hi. unfold BitField_Assign, BitField_FormatValue, u32.
  rewrite Z.lor_spec, Z.ldiff_spec, Z.land_spec, BitField_mask_bits by lia.
  destruct (p <=? i) eqn:E1, (i <? p + b) eqn:E2; simpl;
    rewrite ?andb_false_r, ?andb_true_r, ?orb_false_r; try done.
  bool_prop. rewrite Z.mod_pow2_bits_low, Z.shiftl_spec by lia. done.
Qed.

(** What is assigned to a field is what the field then holds, and assigning a
    field leaves every disjoint field alone. *)
Lemma BitField_Extract_Assign p b x v :
  0 ≤ p → 0 < b → p + b ≤ 32 → 0 ≤ v < 2 ^ b →
  BitField_ExtractValue p b (BitField_Assign p b x v) = v.
Proof.
  intros Hp Hb Hs Hv. unfold BitField_ExtractValue. apply Z.bits_inj'. intros i Hi.
  rewrite Z.shiftr_spec, Z.land_spec, BitField_Assign_bits, BitField_mask_bits by lia.
  replace (p <=? i + p) with true by lia. simpl.
  destruct (i + p <? p + b) eqn:E; rewrite ?andb_true_r, ?andb_false_r.
  - f_equal. lia.
  - bool_prop. symmetry. apply (testbit_above _ b); lia.
Qed.

Lemma BitField_Extract_Assign_ne p b p' b' x v :
  0 ≤ p → 0 < b → p + b ≤ 32 → 0 ≤ p' → 0 < b' → p' + b' ≤ 32 →
  p + b ≤ p' ∨ p' + b' ≤ p →
  BitField_ExtractValue p b (BitField_Assign p' b' x v) = BitField_ExtractValue p b x.
Proof.
  intros. unfold BitField_ExtractValue. apply Z.bits_inj'. intros i Hi.
  rewrite !Z.shiftr_spec, !Z.land_spec, BitField_Assign_bits, BitField_mask_bits by lia.
  destruct ((p <=? i + p) && (i + p <? p + b)) eqn:E; rewrite ?andb_false_r; [|done].
  bool_prop. replace ((p' <=? i + p) && (i + p <? p' + b')) with false by lia. done.
Qed.

(** ** result.h and svc_results.h *)
Definition ErrorModule_Kernel : Z := 1.
Definition MakeResult (module description : Z) : Z :=
  Z.lor (BitField_FormatValue 0 9 module) (BitField_FormatValue 9 13 description).
Definition ResultSuccess : Z := 0.
Definition Result_IsSuccess (r : Z) : bool := r =? 0.

Definition ResultOutOfSessions : Z := MakeResult ErrorModule_Kernel 7.
Definition ResultInvalidArgument : Z := MakeResult ErrorModule_Kernel 14.
Definition ResultTerminationRequested : Z := MakeResult ErrorModule_Kernel 59.
Definition ResultInvalidSize : Z := MakeResult ErrorModule_Kernel 101.
Definition ResultInvalidAddress : Z := MakeResult ErrorModule_Kernel 102.
Definition ResultOutOfResource : Z := MakeResult ErrorModule_Kernel 103.
Definition ResultOutOfMemory : Z := MakeResult ErrorModule_Kernel 104.
Definition ResultOutOfHandles : Z := MakeResult ErrorModule_Kernel 105.
Definition ResultInvalidCurrentMemory : Z := MakeResult ErrorModule_Kernel 106.
Definition ResultInvalidCoreId : Z := MakeResult ErrorModule_Kernel 113.
Definition ResultInvalidHandle : Z := MakeResult ErrorModule_Kernel 114.
Definition ResultInvalidCombination : Z := MakeResult ErrorModule_Kernel 116.
Definition ResultTimedOut : Z := MakeResult ErrorModule_Kernel 117.
Definition ResultCancelled : Z := MakeResult ErrorModule_Kernel 118.
Definition ResultOutOfRange : Z := MakeResult ErrorModule_Kernel 119.
Definition ResultInvalidEnumValue : Z := MakeResult ErrorModule_Kernel 120.
Definition ResultNotFound : Z := MakeResult ErrorModule_Kernel 121.
Definition ResultBusy : Z := MakeResult ErrorModule_Kernel 122.
Definition ResultInvalidState : Z := MakeResult ErrorModule_Kernel 125.
Definition ResultReservedUsed : Z := MakeResult ErrorModule_Kernel 126.
Definition ResultLimitReached : Z := MakeResult ErrorModule_Kernel 132.

(** Horizon's published code for an invalid handle, 0xE401. *)
Example ResultInvalidHandle_raw : ResultInvalidHandle = 0xE401.
Proof. reflexivity. Qed.

(** ** Constants of the build and of the hardware *)
Definition IsKTraceEnabled : bool := false.
Definition NUM_CPU_CORES : Z := 4.
