(* ===== verification/MemoryBlock.v ===== *)
(** * KMemoryBlock (src/src/core/hle/kernel/k_memory_block.h)

    The memory states, permissions and attributes as the flag words of the
    header, the block record with one definition per method, and what the
    methods do to the properties of the pages a block stands for. *)

From S2P Require Import Prelude Common.

(** ** Svc enumerations (svc_types.h) *)
Definition Svc_MemoryPermission_None : Z := 0.
Definition Svc_MemoryPermission_Read : Z := Z.shiftl 1 0.
Definition Svc_MemoryPermission_Write : Z := Z.shiftl 1 1.
Definition Svc_MemoryPermission_Execute : Z := Z.shiftl 1 2.
Definition Svc_MemoryAttribute_Locked : Z := Z.shiftl 1 0.
Definition Svc_MemoryAttribute_IpcLocked : Z := Z.shiftl 1 1.
Definition Svc_MemoryAttribute_DeviceShared : Z := Z.shiftl 1 2.
Definition Svc_MemoryAttribute_Uncached : Z := Z.shiftl 1 3.
Definition Svc_MemoryAttribute_PermissionLocked : Z := Z.shiftl 1 4.

(** ** KMemoryState *)
Definition KMemoryState_None : Z := 0.
Definition KMemoryState_Mask : Z := 0xFF.
Definition KMemoryState_FlagCanReprotect : Z := Z.shiftl 1 8.
Definition KMemoryState_FlagCanDebug : Z := Z.shiftl 1 9.
Definition KMemoryState_FlagCanUseIpc : Z := Z.shiftl 1 10.
Definition KMemoryState_FlagCanUseNonDeviceIpc : Z := Z.shiftl 1 11.
Definition KMemoryState_FlagCanUseNonSecureIpc : Z := Z.shiftl 1 12.
Definition KMemoryState_FlagMapped : Z := Z.shiftl 1 13.
Definition KMemoryState_FlagCode : Z := Z.shiftl 1 14.
Definition KMemoryState_FlagCanAlias : Z := Z.shiftl 1 15.
Definition KMemoryState_FlagCanCodeAlias : Z := Z.shiftl 1 16.
Definition KMemoryState_FlagCanTransfer : Z := Z.shiftl 1 17.
Definition KMemoryState_FlagCanQueryPhysical : Z := Z.shiftl 1 18.
Definition KMemoryState_FlagCanDeviceMap : Z := Z.shiftl 1 19.
Definition KMemoryState_FlagCanAlignedDeviceMap : Z := Z.shiftl 1 20.
Definition KMemoryState_FlagCanIpcUserBuffer : Z := Z.shiftl 1 21.
Definition KMemoryState_FlagReferenceCounted : Z := Z.shiftl 1 22.
Definition KMemoryState_FlagCanMapProcess : Z := Z.shiftl 1 23.
Definition KMemoryState_FlagCanChangeAttribute : Z := Z.shiftl 1 24.
Definition KMemoryState_FlagCanCodeMemory : Z := Z.shiftl 1 25.
Definition KMemoryState_FlagLinearMapped : Z := Z.shiftl 1 26.
Definition KMemoryState_FlagCanPermissionLock : Z := Z.shiftl 1 27.

(** [flags [a; b; ...]] is [a | b | ...]. *)
Definition flags (l : list Z) : Z := foldr Z.lor 0 l.

Definition KMemoryState_FlagsData : Z := flags
  [KMemoryState_FlagCanReprotect; KMemoryState_FlagCanUseIpc;
   KMemoryState_FlagCanUseNonDeviceIpc; KMemoryState_FlagCanUseNonSecureIpc;
   KMemoryState_FlagMapped; KMemoryState_FlagCanAlias; KMemoryState_FlagCanTransfer;
   KMemoryState_FlagCanQueryPhysical; KMemoryState_FlagCanDeviceMap;
   KMemoryState_FlagCanAlignedDeviceMap; KMemoryState_FlagCanIpcUserBuffer;
   KMemoryState_FlagReferenceCounted; KMemoryState_FlagCanChangeAttribute;
   KMemoryState_FlagLinearMapped].

Definition KMemoryState_FlagsCode : Z := flags
  [KMemoryState_FlagCanDebug; KMemoryState_FlagCanUseIpc;
   KMemoryState_FlagCanUseNonDeviceIpc; KMemoryState_FlagCanUseNonSecureIpc;
   KMemoryState_FlagMapped; KMemoryState_FlagCode; KMemoryState_FlagCanQueryPhysical;
   KMemoryState_FlagCanDeviceMap; KMemoryState_FlagCanAlignedDeviceMap;
   KMemoryState_FlagReferenceCounted; KMemoryState_FlagLinearMapped].

Definition KMemoryState_FlagsMisc : Z := flags
  [KMemoryState_FlagMapped; KMemoryState_FlagReferenceCounted;
   KMemoryState_FlagCanQueryPhysical; KMemoryState_FlagCanDeviceMap;
   KMemoryState_FlagLinearMapped].

(** The states proper: the [Svc::MemoryState] number in the low byte, the
    capabilities of the state above it. *)
Definition KMemoryState_Free : Z := 0x00.
Definition KMemoryState_IoMemory : Z := flags
  [0x01; KMemoryState_FlagMapped; KMemoryState_FlagCanDeviceMap;
   KMemoryState_FlagCanAlignedDeviceMap].
Definition KMemoryState_IoRegister : Z := flags
  [0x01; KMemoryState_FlagCanDeviceMap; KMemoryState_FlagCanAlignedDeviceMap].
Definition KMemoryState_Static : Z := flags
  [0x02; KMemoryState_FlagMapped; KMemoryState_FlagCanQueryPhysical].
Definition KMemoryState_Code : Z := flags
  [0x03; KMemoryState_FlagsCode; KMemoryState_FlagCanMapProcess].
Definition KMemoryState_CodeData : Z := flags
  [0x04; KMemoryState_FlagsData; KMemoryState_FlagCanMapProcess;
   KMemoryState_FlagCanCodeMemory; KMemoryState_FlagCanPermissionLock].
Definition KMemoryState_Normal : Z := flags
  [0x05; KMemoryState_FlagsData; KMemoryState_FlagCanCodeMemory].
Definition KMemoryState_Shared : Z := flags
  [0x06; KMemoryState_FlagMapped; KMemoryState_FlagReferenceCounted;
   KMemoryState_FlagLinearMapped].
Definition KMemoryState_AliasCode : Z := flags
  [0x08; KMemoryState_FlagsCode; KMemoryState_FlagCanMapProcess;
   KMemoryState_FlagCanCodeAlias].
Definition KMemoryState_AliasCodeData : Z := flags
  [0x09; KMemoryState_FlagsData; KMemoryState_FlagCanMapProcess;
   KMemoryState_FlagCanCodeAlias; KMemoryState_FlagCanCodeMemory;
   KMemoryState_FlagCanPermissionLock].
Definition KMemoryState_Ipc : Z := flags
  [0x0A; KMemoryState_FlagsMisc; KMemoryState_FlagCanAlignedDeviceMap;
   KMemoryState_FlagCanUseIpc; KMemoryState_FlagCanUseNonSecureIpc;
   KMemoryState_FlagCanUseNonDeviceIpc].
Definition KMemoryState_Stack : Z := flags
  [0x0B; KMemoryState_FlagsMisc; KMemoryState_FlagCanAlignedDeviceMap;
   KMemoryState_FlagCanUseIpc; KMemoryState_FlagCanUseNonSecureIpc;
   KMemoryState_FlagCanUseNonDeviceIpc].
Definition KMemoryState_ThreadLocal : Z := flags [0x0C; KMemoryState_FlagLinearMapped].
Definition KMemoryState_Transferred : Z := flags
  [0x0D; KMemoryState_FlagsMisc; KMemoryState_FlagCanAlignedDeviceMap;
   KMemoryState_FlagCanChangeAttribute; KMemoryState_FlagCanUseIpc;
   KMemoryState_FlagCanUseNonSecureIpc; KMemoryState_FlagCanUseNonDeviceIpc].
Definition KMemoryState_SharedTransferred : Z := flags
  [0x0E; KMemoryState_FlagsMisc; KMemoryState_FlagCanAlignedDeviceMap;
   KMemoryState_FlagCanUseNonSecureIpc; KMemoryState_FlagCanUseNonDeviceIpc].
Definition KMemoryState_SharedCode : Z := flags
  [0x0F; KMemoryState_FlagMapped; KMemoryState_FlagReferenceCounted;
   KMemoryState_FlagLinearMapped; KMemoryState_FlagCanUseNonSecureIpc;
   KMemoryState_FlagCanUseNonDeviceIpc].
Definition KMemoryState_Inaccessible : Z := 0x10.
Definition KMemoryState_NonSecureIpc : Z := flags
  [0x11; KMemoryState_FlagsMisc; KMemoryState_FlagCanAlignedDeviceMap;
   KMemoryState_FlagCanUseNonSecureIpc; KMemoryState_FlagCanUseNonDeviceIpc].
Definition KMemoryState_NonDeviceIpc : Z := flags
  [0x12; KMemoryState_FlagsMisc; KMemoryState_FlagCanUseNonDeviceIpc].
Definition KMemoryState_Kernel : Z := 0x13.
Definition KMemoryState_GeneratedCode : Z := flags
  [0x14; KMemoryState_FlagMapped; KMemoryState_FlagReferenceCounted;
   KMemoryState_FlagCanDebug; KMemoryState_FlagLinearMapped].
Definition KMemoryState_CodeOut : Z := flags
  [0x15; KMemoryState_FlagMapped; KMemoryState_FlagReferenceCounted;
   KMemoryState_FlagLinearMapped].
Definition KMemoryState_Coverage : Z := flags [0x16; KMemoryState_FlagMapped].
Definition KMemoryState_Insecure : Z := flags
  [0x17; KMemoryState_FlagMapped; KMemoryState_FlagReferenceCounted;
   KMemoryState_FlagLinearMapped; KMemoryState_FlagCanChangeAttribute;
   KMemoryState_FlagCanDeviceMap; KMemoryState_FlagCanAlignedDeviceMap;
   KMemoryState_FlagCanQueryPhysical; KMemoryState_FlagCanUseNonSecureIpc;
   KMemoryState_FlagCanUseNonDeviceIpc].

(** The table of [static_assert]s that follows the enumeration in the header. *)
Definition KMemoryState_table : list (Z * Z) :=
  [(KMemoryState_Free, 0x00000000); (KMemoryState_IoMemory, 0x00182001);
   (KMemoryState_IoRegister, 0x00180001); (KMemoryState_Static, 0x00042002);
   (KMemoryState_Code, 0x04DC7E03); (KMemoryState_CodeData, 0x0FFEBD04);
   (KMemoryState_Normal, 0x077EBD05); (KMemoryState_Shared, 0x04402006);
   (KMemoryState_AliasCode, 0x04DD7E08); (KMemoryState_AliasCodeData, 0x0FFFBD09);
   (KMemoryState_Ipc, 0x045C3C0A); (KMemoryState_Stack, 0x045C3C0B);
   (KMemoryState_ThreadLocal, 0x0400000C); (KMemoryState_Transferred, 0x055C3C0D);
   (KMemoryState_SharedTransferred, 0x045C380E); (KMemoryState_SharedCode, 0x0440380F);
   (KMemoryState_Inaccessible, 0x00000010); (KMemoryState_NonSecureIpc, 0x045C3811);
   (KMemoryState_NonDeviceIpc, 0x044C2812); (KMemoryState_Kernel, 0x00000013);
   (KMemoryState_GeneratedCode, 0x04402214); (KMemoryState_CodeOut, 0x04402015);
   (KMemoryState_Coverage, 0x00002016); (KMemoryState_Insecure, 0x055C3817)].

(** ** KMemoryPermission *)
Definition KMemoryPermission_None : Z := 0.
Definition KMemoryPermission_KernelShift : Z := 3.
Definition KMemoryPermission_KernelRead : Z :=
  Z.shiftl Svc_MemoryPermission_Read KMemoryPermission_KernelShift.
Definition KMemoryPermission_KernelWrite : Z :=
  Z.shiftl Svc_MemoryPermission_Write KMemoryPermission_KernelShift.
Definition KMemoryPermission_KernelExecute : Z :=
  Z.shiftl Svc_MemoryPermission_Execute KMemoryPermission_KernelShift.
Definition KMemoryPermission_NotMapped : Z :=
  Z.shiftl 1 (2 * KMemoryPermission_KernelShift).
Definition KMemoryPermission_KernelReadWrite : Z :=
  Z.lor KMemoryPermission_KernelRead KMemoryPermission_KernelWrite.
Definition KMemoryPermission_KernelReadExecute : Z :=
  Z.lor KMemoryPermission_KernelRead KMemoryPermission_KernelExecute.
Definition KMemoryPermission_UserRead : Z :=
  Z.lor Svc_MemoryPermission_Read KMemoryPermission_KernelRead.
Definition KMemoryPermission_UserWrite : Z :=
  Z.lor Svc_MemoryPermission_Write KMemoryPermission_KernelWrite.
Definition KMemoryPermission_UserExecute : Z := Svc_MemoryPermission_Execute.
Definition KMemoryPermission_UserReadWrite : Z :=
  Z.lor KMemoryPermission_UserRead KMemoryPermission_UserWrite.
Definition KMemoryPermission_UserReadExecute : Z :=
  Z.lor KMemoryPermission_UserRead KMemoryPermission_UserExecute.
Definition KMemoryPermission_UserMask : Z := flags
  [Svc_MemoryPermission_Read; Svc_MemoryPermission_Write; Svc_MemoryPermission_Execute].
Definition KMemoryPermission_IpcLockChangeMask : Z :=
  Z.lor KMemoryPermission_NotMapped KMemoryPermission_UserReadWrite.

(** The casts to the [u8] enumeration truncate the [u32] of the Svc side. *)
Definition ConvertToKMemoryPermission (perm : Z) : Z :=
  flags
    [Z.land (u8 perm) KMemoryPermission_UserMask;
     KMemoryPermission_KernelRead;
     u8 (Z.shiftl (Z.land (u8 perm) KMemoryPermission_UserWrite)
                  KMemoryPermission_KernelShift);
     if perm =? Svc_MemoryPermission_None then KMemoryPermission_NotMapped
     else KMemoryPermission_None].

(** ** KMemoryAttribute and KMemoryBlockDisableMergeAttribute *)
Definition KMemoryAttribute_None : Z := 0x00.
Definition KMemoryAttribute_All : Z := 0xFF.
Definition KMemoryAttribute_UserMask : Z := KMemoryAttribute_All.
Definition KMemoryAttribute_Locked : Z := Svc_MemoryAttribute_Locked.
Definition KMemoryAttribute_IpcLocked : Z := Svc_MemoryAttribute_IpcLocked.
Definition KMemoryAttribute_DeviceShared : Z := Svc_MemoryAttribute_DeviceShared.
Definition KMemoryAttribute_Uncached : Z := Svc_MemoryAttribute_Uncached.
Definition KMemoryAttribute_PermissionLocked : Z := Svc_MemoryAttribute_PermissionLocked.
Definition KMemoryAttribute_SetMask : Z :=
  Z.lor KMemoryAttribute_Uncached KMemoryAttribute_PermissionLocked.

Definition DisableMerge_None : Z := 0.
Definition DisableMerge_Normal : Z := Z.shiftl 1 0.
Definition DisableMerge_DeviceLeft : Z := Z.shiftl 1 1.
Definition DisableMerge_IpcLeft : Z := Z.shiftl 1 2.
Definition DisableMerge_Locked : Z := Z.shiftl 1 3.
Definition DisableMerge_DeviceRight : Z := Z.shiftl 1 4.
Definition DisableMerge_AllLeft : Z := flags
  [DisableMerge_Normal; DisableMerge_DeviceLeft; DisableMerge_IpcLeft; DisableMerge_Locked].
Definition DisableMerge_AllRight : Z := DisableMerge_DeviceRight.

(** ** KMemoryBlock *)
Record KMemoryBlock : Type := MkBlock {
  m_device_disable_merge_left_count : Z;
  m_device_disable_merge_right_count : Z;
  m_address : Z;
  m_num_pages : Z;
  m_memory_state : Z;
  m_ipc_lock_count : Z;
  m_device_use_count : Z;
  m_ipc_disable_merge_count : Z;
  m_permission : Z;
  m_original_permission : Z;
  m_attribute : Z;
  m_disable_merge_attribute : Z
}.

#[export] Instance KMemoryBlock_eq_dec : EqDecision KMemoryBlock.
Proof. solve_decision. Defined.

(** Assignments to the members. *)
Definition set_left_count (v : Z) (b : KMemoryBlock) : KMemoryBlock :=
  MkBlock v (m_device_disable_merge_right_count b) (m_address b) (m_num_pages b)
    (m_memory_state b) (m_ipc_lock_count b) (m_device_use_count b) (m_ipc_disable_merge_count b)
    (m_permission b) (m_original_permission b) (m_attribute b) (m_disable_merge_attribute b).
Definition set_right_count (v : Z) (b : KMemoryBlock) : KMemoryBlock :=
  MkBlock (m_device_disable_merge_left_count b) v (m_address b) (m_num_pages b)
    (m_memory_state b) (m_ipc_lock_count b) (m_device_use_count b) (m_ipc_disable_merge_count b)
    (m_permission b) (m_original_permission b) (m_attribute b) (m_disable_merge_attribute b).
Definition set_address (v : Z) (b : KMemoryBlock) : KMemoryBlock :=
  MkBlock (m_device_disable_merge_left_count b) (m_device_disable_merge_right_count b) v (m_num_pages b)
    (m_memory_state b) (m_ipc_lock_count b) (m_device_use_count b) (m_ipc_disable_merge_count b)
    (m_permission b) (m_original_permission b) (m_attribute b) (m_disable_merge_attribute b).
Definition set_num_pages (v : Z) (b : KMemoryBlock) : KMemoryBlock :=
  MkBlock (m_device_disable_merge_left_count b) (m_device_disable_merge_right_count b) (m_address b) v
    (m_memory_state b) (m_ipc_lock_count b) (m_device_use_count b) (m_ipc_disable_merge_count b)
    (m_permission b) (m_original_permission b) (m_attribute b) (m_disable_merge_attribute b).
Definition set_memory_state (v : Z) (b : KMemoryBlock) : KMemoryBlock :=
  MkBlock (m_device_disable_merge_left_count b) (m_device_disable_merge_right_count b) (m_address b) (m_num_pages b)
    v (m_ipc_lock_count b) (m_device_use_count b) (m_ipc_disable_merge_count b)
    (m_permission b) (m_original_permission b) (m_attribute b) (m_disable_merge_attribute b).
Definition set_ipc_lock_count (v : Z) (b : KMemoryBlock) : KMemoryBlock :=
  MkBlock (m_device_disable_merge_left_count b) (m_device_disable_merge_right_count b) (m_address b) (m_num_pages b)
    (m_memory_state b) v (m_device_use_count b) (m_ipc_disable_merge_count b)
    (m_permission b) (m_original_permission b) (m_attribute b) (m_disable_merge_attribute b).
Definition set_device_use_count (v : Z) (b : KMemoryBlock) : KMemoryBlock :=
  MkBlock (m_device_disable_merge_left_count b) (m_device_disable_merge_right_count b) (m_address b) (m_num_pages b)
    (m_memory_state b) (m_ipc_lock_count b) v (m_ipc_disable_merge_count b)
    (m_permission b) (m_original_permission b) (m_attribute b) (m_disable_merge_attribute b).
Definition set_ipc_disable_merge_count (v : Z) (b : KMemoryBlock) : KMemoryBlock :=
  MkBlock (m_device_disable_merge_left_count b) (m_device_disable_merge_right_count b) (m_address b) (m_num_pages b)
    (m_memory_state b) (m_ipc_lock_count b) (m_device_use_count b) v
    (m_permission b) (m_original_permission b) (m_attribute b) (m_disable_merge_attribute b).
Definition set_permission (v : Z) (b : KMemoryBlock) : KMemoryBlock :=
  MkBlock (m_device_disable_merge_left_count b) (m_device_disable_merge_right_count b) (m_address b) (m_num_pages b)
    (m_memory_state b) (m_ipc_lock_count b) (m_device_use_count b) (m_ipc_disable_merge_count b)
    v (m_original_permission b) (m_attribute b) (m_disable_merge_attribute b).
Definition set_original_permission (v : Z) (b : KMemoryBlock) : KMemoryBlock :=
  MkBlock (m_device_disable_merge_left_count b) (m_device_disable_merge_right_count b) (m_address b) (m_num_pages b)
    (m_memory_state b) (m_ipc_lock_count b) (m_device_use_count b) (m_ipc_disable_merge_count b)
    (m_permission b) v (m_attribute b) (m_disable_merge_attribute b).
Definition set_attribute (v : Z) (b : KMemoryBlock) : KMemoryBlock :=
  MkBlock (m_device_disable_merge_left_count b) (m_device_disable_merge_right_count b) (m_address b) (m_num_pages b)
    (m_memory_state b) (m_ipc_lock_count b) (m_device_use_count b) (m_ipc_disable_merge_count b)
    (m_permission b) (m_original_permission b) v (m_disable_merge_attribute b).
Definition set_disable_merge (v : Z) (b : KMemoryBlock) : KMemoryBlock :=
  MkBlock (m_device_disable_merge_left_count b) (m_device_disable_merge_right_count b) (m_address b) (m_num_pages b)
    (m_memory_state b) (m_ipc_lock_count b) (m_device_use_count b) (m_ipc_disable_merge_count b)
    (m_permission b) (m_original_permission b) (m_attribute b) v.

Definition KMemoryBlock_GetSize (b : KMemoryBlock) : Z := u64 (m_num_pages b * PageSize).
Definition KMemoryBlock_GetEndAddress (b : KMemoryBlock) : Z :=
  u64 (m_address b + KMemoryBlock_GetSize b).
Definition KMemoryBlock_GetLastAddress (b : KMemoryBlock) : Z :=
  u64 (KMemoryBlock_GetEndAddress b - 1).

Definition KMemoryBlock_Compare (lhs rhs : KMemoryBlock) : Z :=
  if m_address lhs <? m_address rhs then -1
  else if m_address lhs <=? KMemoryBlock_GetLastAddress rhs then 0
  else 1.

(** The constructor, and [Initialize] on an existing object (which leaves
    [m_ipc_disable_merge_count] as it was). *)
Definition KMemoryBlock_new (addr np ms p attr : Z) : KMemoryBlock :=
  MkBlock 0 0 addr np ms 0 0 0 p KMemoryPermission_None attr DisableMerge_None.

Definition KMemoryBlock_Initialize (addr np ms p attr : Z) (b : KMemoryBlock) : KMemoryBlock :=
  MkBlock 0 0 addr np ms 0 0 (m_ipc_disable_merge_count b) p KMemoryPermission_None attr
    DisableMerge_None.

(** KMemoryInfo: the copy of a block the manager and the SVCs read. *)
Record KMemoryInfo : Type := MkInfo {
  info_address : Z;
  info_size : Z;
  info_state : Z;
  info_device_disable_merge_left_count : Z;
  info_device_disable_merge_right_count : Z;
  info_ipc_lock_count : Z;
  info_device_use_count : Z;
  info_ipc_disable_merge_count : Z;
  info_permission : Z;
  info_attribute : Z;
  info_original_permission : Z;
  info_disable_merge_attribute : Z
}.

Definition KMemoryBlock_GetMemoryInfo (b : KMemoryBlock) : KMemoryInfo :=
  {| info_address := m_address b;
     info_size := KMemoryBlock_GetSize b;
     info_state := m_memory_state b;
     info_device_disable_merge_left_count := m_device_disable_merge_left_count b;
     info_device_disable_merge_right_count := m_device_disable_merge_right_count b;
     info_ipc_lock_count := m_ipc_lock_count b;
     info_device_use_count := m_device_use_count b;
     info_ipc_disable_merge_count := m_ipc_disable_merge_count b;
     info_permission := m_permission b;
     info_attribute := m_attribute b;
     info_original_permission := m_original_permission b;
     info_disable_merge_attribute := m_disable_merge_attribute b |}.

Definition KMemoryInfo_GetNumPages (i : KMemoryInfo) : Z := info_size i / PageSize.
Definition KMemoryInfo_GetEndAddress (i : KMemoryInfo) : Z := u64 (info_address i + info_size i).
Definition KMemoryInfo_GetLastAddress (i : KMemoryInfo) : Z :=
  u64 (KMemoryInfo_GetEndAddress i - 1).

(** [Svc::MemoryInfo], what [svcQueryMemory] copies out. *)
Record Svc_MemoryInfo : Type := MkSvcInfo {
  svc_base_address : Z;
  svc_size : Z;
  svc_state : Z;
  svc_attribute : Z;
  svc_permission : Z;
  svc_ipc_count : Z;
  svc_device_count : Z
}.

Definition KMemoryInfo_GetSvcMemoryInfo (i : KMemoryInfo) : Svc_MemoryInfo :=
  {| svc_base_address := info_address i;
     svc_size := info_size i;
     svc_state := Z.land (info_state i) KMemoryState_Mask;
     svc_attribute := Z.land (info_attribute i) KMemoryAttribute_UserMask;
     svc_permission := Z.land (info_permission i) KMemoryPermission_UserMask;
     svc_ipc_count := info_ipc_lock_count i;
     svc_device_count := info_device_use_count i |}.

(** *** Queries *)
Definition AttributeIgnoreMask : Z :=
  Z.lor KMemoryAttribute_IpcLocked KMemoryAttribute_DeviceShared.

Definition KMemoryBlock_HasProperties (b : KMemoryBlock) (s p a : Z) : bool :=
  (m_memory_state b =? s) && (m_permission b =? p) &&
  (Z.lor (m_attribute b) AttributeIgnoreMask =? Z.lor a AttributeIgnoreMask).

Definition KMemoryBlock_HasSameProperties (b rhs : KMemoryBlock) : bool :=
  (m_memory_state b =? m_memory_state rhs) && (m_permission b =? m_permission rhs) &&
  (m_original_permission b =? m_original_permission rhs) &&
  (m_attribute b =? m_attribute rhs) && (m_ipc_lock_count b =? m_ipc_lock_count rhs) &&
  (m_device_use_count b =? m_device_use_count rhs).

Definition KMemoryBlock_CanMergeWith (b rhs : KMemoryBlock) : bool :=
  KMemoryBlock_HasSameProperties b rhs &&
  (Z.land (m_disable_merge_attribute b) DisableMerge_AllRight =? DisableMerge_None) &&
  (Z.land (m_disable_merge_attribute rhs) DisableMerge_AllLeft =? DisableMerge_None).

Definition KMemoryBlock_Contains (b : KMemoryBlock) (addr : Z) : bool :=
  (m_address b <=? addr) && (addr <=? KMemoryBlock_GetEndAddress b).

(** *** Mutators.  [x & ~y] on a [u8] is [Z.ldiff x y]. *)
Definition KMemoryBlock_Add (b added_block : KMemoryBlock) : prog KMemoryBlock :=
  _ ← ASSERT (0 <? m_num_pages added_block);
  _ ← ASSERT (u64 (u64 (m_address b + KMemoryBlock_GetSize added_block) - 1) <?
              u64 (u64 (KMemoryBlock_GetEndAddress b + KMemoryBlock_GetSize added_block) - 1));
  mret (set_num_pages (u64 (m_num_pages b + m_num_pages added_block))
       (set_disable_merge (Z.lor (m_disable_merge_attribute b)
                                 (m_disable_merge_attribute added_block))
       (set_right_count (m_device_disable_merge_right_count added_block) b))).

Definition KMemoryBlock_Update (s p a : Z) (set_disable_merge_attr : bool)
    (set_mask clear_mask : Z) (b : KMemoryBlock) : prog KMemoryBlock :=
  _ ← ASSERT (m_original_permission b =? KMemoryPermission_None);
  _ ← ASSERT (Z.land (m_attribute b) KMemoryAttribute_IpcLocked =? KMemoryAttribute_None);
  let b := set_memory_state s b in
  let b := set_permission p b in
  let b := set_attribute (Z.lor a (Z.land (m_attribute b)
             (Z.lor KMemoryAttribute_IpcLocked KMemoryAttribute_DeviceShared))) b in
  let b := if set_disable_merge_attr && negb (set_mask =? 0)
           then set_disable_merge (Z.lor (m_disable_merge_attribute b) set_mask) b else b in
  let b := if negb (clear_mask =? 0)
           then set_disable_merge (Z.ldiff (m_disable_merge_attribute b) clear_mask) b else b in
  mret b.

Definition KMemoryBlock_UpdateAttribute (mask attr : Z) (b : KMemoryBlock) : prog KMemoryBlock :=
  _ ← ASSERT (Z.land mask KMemoryAttribute_IpcLocked =? 0);
  _ ← ASSERT (Z.land mask KMemoryAttribute_DeviceShared =? 0);
  mret (set_attribute (Z.lor (Z.ldiff (m_attribute b) mask) attr) b).

(** [Split] fills the new block with the part before [addr] and keeps the rest
    in this block; the pair is (new block, this block). *)
Definition KMemoryBlock_Split (b : KMemoryBlock) (addr : Z) : prog (KMemoryBlock * KMemoryBlock) :=
  _ ← ASSERT (m_address b <? addr);
  _ ← ASSERT (KMemoryBlock_Contains b addr);
  _ ← ASSERT (IsAligned addr PageSize);
  let block :=
    {| m_address := m_address b;
       m_num_pages := u64 (addr - m_address b) / PageSize;
       m_memory_state := m_memory_state b;
       m_ipc_lock_count := m_ipc_lock_count b;
       m_device_use_count := m_device_use_count b;
       m_permission := m_permission b;
       m_original_permission := m_original_permission b;
       m_attribute := m_attribute b;
       m_disable_merge_attribute :=
         Z.land (m_disable_merge_attribute b) DisableMerge_AllLeft;
       m_ipc_disable_merge_count := m_ipc_disable_merge_count b;
       m_device_disable_merge_left_count := m_device_disable_merge_left_count b;
       m_device_disable_merge_right_count := 0 |} in
  let b := set_address addr b in
  let b := set_num_pages (u64 (m_num_pages b - m_num_pages block)) b in
  let b := set_ipc_disable_merge_count 0 b in
  let b := set_left_count 0 b in
  let b := set_disable_merge (Z.land (m_disable_merge_attribute b) DisableMerge_AllRight) b in
  mret (block, b).

Definition KMemoryBlock_UpdateDeviceDisableMergeStateForShareLeft
    (new_perm : Z) (left right : bool) (b : KMemoryBlock) : prog KMemoryBlock :=
  if left then
    let b := set_disable_merge
               (Z.lor (m_disable_merge_attribute b) DisableMerge_DeviceLeft) b in
    let n := u16 (m_device_disable_merge_left_count b + 1) in
    let b := set_left_count n b in
    _ ← ASSERT (0 <? n);
    mret b
  else mret b.

Definition KMemoryBlock_UpdateDeviceDisableMergeStateForShareRight
    (new_perm : Z) (left right : bool) (b : KMemoryBlock) : prog KMemoryBlock :=
  if right then
    let b := set_disable_merge
               (Z.lor (m_disable_merge_attribute b) DisableMerge_DeviceRight) b in
    let n := u16 (m_device_disable_merge_right_count b + 1) in
    let b := set_right_count n b in
    _ ← ASSERT (0 <? n);
    mret b
  else mret b.

Definition KMemoryBlock_UpdateDeviceDisableMergeStateForShare
    (new_perm : Z) (left right : bool) (b : KMemoryBlock) : prog KMemoryBlock :=
  b ← KMemoryBlock_UpdateDeviceDisableMergeStateForShareLeft new_perm left right b;
  KMemoryBlock_UpdateDeviceDisableMergeStateForShareRight new_perm left right b.

Definition KMemoryBlock_ShareToDevice
    (new_perm : Z) (left right : bool) (b : KMemoryBlock) : prog KMemoryBlock :=
  _ ← ASSERT ((Z.land (m_attribute b) KMemoryAttribute_DeviceShared =?
                 KMemoryAttribute_DeviceShared) || (m_device_use_count b =? 0));
  let new_count := u16 (m_device_use_count b + 1) in
  let b := set_device_use_count new_count b in
  _ ← ASSERT (0 <? new_count);
  let b := set_attribute (Z.lor (m_attribute b) KMemoryAttribute_DeviceShared) b in
  KMemoryBlock_UpdateDeviceDisableMergeStateForShare new_perm left right b.

Definition KMemoryBlock_UpdateDeviceDisableMergeStateForUnshareLeft
    (new_perm : Z) (left right : bool) (b : KMemoryBlock) : prog KMemoryBlock :=
  let finish (b : KMemoryBlock) :=
    let b := set_left_count
               (Z.min (m_device_disable_merge_left_count b) (m_device_use_count b)) b in
    if m_device_disable_merge_left_count b =? 0
    then set_disable_merge (Z.ldiff (m_disable_merge_attribute b) DisableMerge_DeviceLeft) b
    else b in
  if left then
    if m_device_disable_merge_left_count b =? 0 then mret b
    else mret (finish (set_left_count (u16 (m_device_disable_merge_left_count b - 1)) b))
  else mret (finish b).

Definition KMemoryBlock_UpdateDeviceDisableMergeStateForUnshareRight
    (new_perm : Z) (left right : bool) (b : KMemoryBlock) : prog KMemoryBlock :=
  if right then
    let old := m_device_disable_merge_right_count b in
    let b := set_right_count (u16 (old - 1)) b in
    _ ← ASSERT (0 <? old);
    mret (if old =? 1
          then set_disable_merge (Z.ldiff (m_disable_merge_attribute b) DisableMerge_DeviceRight) b
          else b)
  else mret b.

Definition KMemoryBlock_UpdateDeviceDisableMergeStateForUnshare
    (new_perm : Z) (left right : bool) (b : KMemoryBlock) : prog KMemoryBlock :=
  b ← KMemoryBlock_UpdateDeviceDisableMergeStateForUnshareLeft new_perm left right b;
  KMemoryBlock_UpdateDeviceDisableMergeStateForUnshareRight new_perm left right b.

(** The count and the attribute, the part [UnshareToDevice] and
    [UnshareToDeviceRight] share. *)
Definition unshare_count (b : KMemoryBlock) : prog KMemoryBlock :=
  _ ← ASSERT (Z.land (m_attribute b) KMemoryAttribute_DeviceShared =?
                KMemoryAttribute_DeviceShared);
  let old_count := m_device_use_count b in
  let b := set_device_use_count (u16 (old_count - 1)) b in
  _ ← ASSERT (0 <? old_count);
  mret (if old_count =? 1
        then set_attribute (Z.ldiff (m_attribute b) KMemoryAttribute_DeviceShared) b
        else b).

Definition KMemoryBlock_UnshareToDevice
    (new_perm : Z) (left right : bool) (b : KMemoryBlock) : prog KMemoryBlock :=
  b ← unshare_count b;
  KMemoryBlock_UpdateDeviceDisableMergeStateForUnshare new_perm left right b.

Definition KMemoryBlock_UnshareToDeviceRight
    (new_perm : Z) (left right : bool) (b : KMemoryBlock) : prog KMemoryBlock :=
  b ← unshare_count b;
  KMemoryBlock_UpdateDeviceDisableMergeStateForUnshareRight new_perm left right b.

Definition KMemoryBlock_LockForIpc
    (new_perm : Z) (left right : bool) (b : KMemoryBlock) : prog KMemoryBlock :=
  _ ← ASSERT ((Z.land (m_attribute b) KMemoryAttribute_IpcLocked =?
                 KMemoryAttribute_IpcLocked) || (m_ipc_lock_count b =? 0));
  let new_lock_count := u16 (m_ipc_lock_count b + 1) in
  let b := set_ipc_lock_count new_lock_count b in
  _ ← ASSERT (0 <? new_lock_count);
  b ← (if new_lock_count =? 1 then
         _ ← ASSERT (m_original_permission b =? KMemoryPermission_None);
         _ ← ASSERT (flags [m_permission b; new_perm; KMemoryPermission_NotMapped] =?
                     flags [m_permission b; KMemoryPermission_NotMapped]);
         _ ← ASSERT (negb (Z.land (m_permission b) KMemoryPermission_UserExecute =?
                             KMemoryPermission_UserExecute) ||
                     (new_perm =? KMemoryPermission_UserRead));
         let b := set_original_permission (m_permission b) b in
         mret (set_permission
                 (Z.lor (Z.land new_perm KMemoryPermission_IpcLockChangeMask)
                        (Z.ldiff (m_original_permission b) KMemoryPermission_IpcLockChangeMask))
                 b)
       else mret b);
  let b := set_attribute (Z.lor (m_attribute b) KMemoryAttribute_IpcLocked) b in
  if (left : bool) then
    let b := set_disable_merge (Z.lor (m_disable_merge_attribute b) DisableMerge_IpcLeft) b in
    let n := u16 (m_ipc_disable_merge_count b + 1) in
    let b := set_ipc_disable_merge_count n b in
    _ ← ASSERT (0 <? n);
    mret b
  else mret b.

Definition KMemoryBlock_UnlockForIpc
    (new_perm : Z) (left right : bool) (b : KMemoryBlock) : prog KMemoryBlock :=
  _ ← ASSERT (Z.land (m_attribute b) KMemoryAttribute_IpcLocked =? KMemoryAttribute_IpcLocked);
  let old_lock_count := m_ipc_lock_count b in
  let b := set_ipc_lock_count (u16 (old_lock_count - 1)) b in
  _ ← ASSERT (0 <? old_lock_count);
  b ← (if old_lock_count =? 1 then
         _ ← ASSERT (negb (m_original_permission b =? KMemoryPermission_None));
         let b := set_permission (m_original_permission b) b in
         let b := set_original_permission KMemoryPermission_None b in
         mret (set_attribute (Z.ldiff (m_attribute b) KMemoryAttribute_IpcLocked) b)
       else mret b);
  if (left : bool) then
    let old := m_ipc_disable_merge_count b in
    let b := set_ipc_disable_merge_count (u16 (old - 1)) b in
    _ ← ASSERT (0 <? old);
    mret (if old =? 1
          then set_disable_merge (Z.ldiff (m_disable_merge_attribute b) DisableMerge_IpcLeft) b
          else b)
  else mret b.
