(* ===== verification/OrderedTree.v ===== *)
(** * The intrusive red-black tree as an ordered container
    (src/src/common/intrusive_red_black_tree.h)

    A tree is the list of its elements in iteration order and an iterator is a
    position in it, [length l] being [end()] (the null node).  A search
    compares its key with the elements from the smallest on: the comparison is
    negative before an element, zero on it and positive after it.  Balancing
    (common/tree.h) does not change the order and is not part of this
    interface. *)

From S2P Require Import Prelude.

Section OrderedTree.
Context {A : Type}.

(** [find] / [find_key]: the element that compares equal, else [end()]. *)
Fixpoint tree_find (cmp : A → Z) (l : list A) : nat :=
  match l with
  | [] => 0
  | x :: l => if cmp x =? 0 then 0 else S (tree_find cmp l)
  end.

(** [nfind] / [nfind_key]: the first element not before the key, else [end()]. *)
Fixpoint tree_nfind (cmp : A → Z) (l : list A) : nat :=
  match l with
  | [] => 0
  | x :: l => if cmp x <=? 0 then 0 else S (tree_nfind cmp l)
  end.

(** [insert]: the element goes before the first element it compares less than;
    the iterator returned is at the new element.  An equal element makes the
    tree refuse the node, and the iterator to an unlinked node is undefined. *)
Fixpoint tree_insert (cmp : A → Z) (x : A) (l : list A) : prog (list A * nat) :=
  match l with
  | [] => mret ([x], 0%nat)
  | y :: l' =>
      if cmp y =? 0 then Stuck
      else if cmp y <? 0 then mret (x :: y :: l', 0%nat)
      else '(r, i) ← tree_insert cmp x l'; mret (y :: r, S i)
  end.

(** [erase(it)]: the iterator returned is at the element after it. *)
Definition tree_erase (l : list A) (it : nat) : prog (list A * nat) :=
  if decide (it < length l)%nat then mret (delete it l, it) else Stuck.

(** [++it] and [--it]; stepping an end iterator dereferences the null node, and
    stepping back from the first element gives the null node. *)
Definition tree_next (l : list A) (it : nat) : prog nat :=
  if decide (it < length l)%nat then mret (S it) else Stuck.

Definition tree_prev (l : list A) (it : nat) : prog nat :=
  if decide (it < length l)%nat then
    mret (match it with O => length l | S i => i end)
  else Stuck.

Lemma wp_tree_next l it Q : wp (tree_next l it) Q ↔ (it < length l)%nat ∧ Q (S it).
Proof. unfold tree_next. case_decide; simpl; naive_solver. Qed.

Lemma wp_tree_prev l it Q :
  wp (tree_prev l (S it)) Q ↔ (S it < length l)%nat ∧ Q it.
Proof. unfold tree_prev. case_decide; simpl; naive_solver. Qed.

Lemma wp_tree_erase l it Q :
  wp (tree_erase l it) Q ↔ (it < length l)%nat ∧ Q (delete it l, it).
Proof. unfold tree_erase. case_decide; simpl; naive_solver. Qed.

(** [find] returns the only element that compares equal when the elements in
    front of it compare before the key. *)
Lemma tree_find_app cmp l1 x l2 :
  Forall (λ y, cmp y ≠ 0) l1 → cmp x = 0 → tree_find cmp (l1 ++ x :: l2) = length l1.
Proof.
  induction 1 as [|y l1 Hy _ IH]; intros Hx; simpl.
  - by rewrite (proj2 (Z.eqb_eq _ _)) by done.
  - rewrite (proj2 (Z.eqb_neq _ _)) by done. by rewrite IH.
Qed.

Lemma tree_find_None cmp l : Forall (λ y, cmp y ≠ 0) l → tree_find cmp l = length l.
Proof.
  induction 1 as [|y l Hy _ IH]; simpl; [done|].
  rewrite (proj2 (Z.eqb_neq _ _)) by done. by rewrite IH.
Qed.

Lemma tree_find_le cmp l : (tree_find cmp l ≤ length l)%nat.
Proof. induction l as [|x l IH]; simpl; [lia|]. destruct (_ =? _); lia. Qed.

Lemma tree_insert_app cmp x l1 l2 :
  Forall (λ y, 0 < cmp y) l1 →
  (∀ y l, l2 = y :: l → cmp y < 0) →
  tree_insert cmp x (l1 ++ l2) = Done true (l1 ++ x :: l2, length l1).
Proof.
  intros H1 H2. induction H1 as [|y l1 Hy _ IH]; simpl.
  - destruct l2 as [|z l2]; [done|]. specialize (H2 z l2 eq_refl). simpl.
    rewrite (proj2 (Z.eqb_neq _ _)), (proj2 (Z.ltb_lt _ _)) by lia. done.
  - rewrite (proj2 (Z.eqb_neq _ _)), (proj2 (Z.ltb_ge _ _)) by lia.
    rewrite IH, bind_Done_true. done.
Qed.
End OrderedTree.
