(* ===== verification/MemoryBlockManager.v ===== *)
(** * KMemoryBlockManager (src/src/core/hle/kernel/k_memory_block_manager.cpp/.h)

    The update allocator, the manager's state and its operations: the four
    update loops with the splitting at the ends of the range, the coalescing
    pass, the free-area search and the debug check.  The lemmas about them are
    in [MemoryBlockManagerLemmas] and [MemoryBlockManagerTheorems]. *)

From S2P Require Import Prelude Common MemoryBlock OrderedTree.

(** ** The slab the blocks come from

    [KMemoryBlockSlabManager::Allocate] returns null when the slab and the page
    allocator behind it are exhausted; [Free] always succeeds.  The blocks are
    interchangeable: [KMemoryBlock_Split] overwrites every member. *)
Class SlabManager (S : Type) : Type := {
  slab_Allocate : S → option S;
  slab_Free : S → S
}.

(** What the manager relies on: the slab counts its free objects. *)
Class SlabLaws (S : Type) `{SlabManager S} : Type := {
  slab_size : S → nat;
  slab_size_Free s : slab_size (slab_Free s) = Datatypes.S (slab_size s);
  slab_size_Allocate s s' :
    slab_Allocate s = Some s' → slab_size s = Datatypes.S (slab_size s')
}.

(** The plain slab: a number of free objects. *)
#[export] Instance counting_slab : SlabManager nat := {|
  slab_Allocate := λ n, match n with O => None | S n => Some n end;
  slab_Free := S
|}.

#[export] Instance counting_slab_laws : SlabLaws nat.
Proof. refine {| slab_size := λ n, n |}; [done|]. intros [|n] s'; simpl; congruence. Defined.

(** A slab that fails only when it is empty. *)
Class SlabExact (S : Type) `{SlabLaws S} : Prop := {
  slab_none s : slab_Allocate s = None → slab_size s = 0%nat
}.
#[export] Instance counting_slab_exact : SlabExact nat.
Proof. split. by intros []. Qed.

(** ** KMemoryBlockManagerUpdateAllocator

    [ua_blocks !! i] says whether [m_blocks[i]] holds a block (is not null). *)
Definition MaxBlocks : Z := 2.

Record UpdateAllocator (S : Type) : Type := MkAllocator {
  ua_blocks : list bool;
  ua_index : Z;
  ua_slab : S
}.
Arguments MkAllocator {S}.
Arguments ua_blocks {S}.
Arguments ua_index {S}.
Arguments ua_slab {S}.

(** ** The manager *)
Record KMemoryBlockManager : Type := MkManager {
  m_memory_block_tree : list KMemoryBlock;
  m_start_address : Z;
  m_end_address : Z
}.

Definition set_tree (t : list KMemoryBlock) (m : KMemoryBlockManager) : KMemoryBlockManager :=
  MkManager t (m_start_address m) (m_end_address m).

Section Manager.
Context {S : Type} `{SlabManager S}.

(** The allocation loop of [Initialize]: one block per slot from [m_index]. *)
Fixpoint UpdateAllocator_fill (n : nat) (i : Z) (a : UpdateAllocator S)
    : prog (Z * UpdateAllocator S) :=
  match n with
  | O => mret (ResultSuccess, a)
  | Datatypes.S n =>
      match slab_Allocate (ua_slab a) with
      | None =>
          bs ← arr_set (ua_blocks a) (u64 (ua_index a + i)) false;
          mret (ResultOutOfResource, MkAllocator bs (ua_index a) (ua_slab a))
      | Some s =>
          bs ← arr_set (ua_blocks a) (u64 (ua_index a + i)) true;
          UpdateAllocator_fill n (i + 1) (MkAllocator bs (ua_index a) s)
      end
  end.

Definition UpdateAllocator_Initialize (s : S) (num_blocks : Z) : prog (Z * UpdateAllocator S) :=
  _ ← ASSERT (num_blocks <=? MaxBlocks);
  UpdateAllocator_fill (Z.to_nat (Z.min num_blocks MaxBlocks)) 0
    (MkAllocator [false; false] (u64 (MaxBlocks - num_blocks)) s).

(** The destructor: every block still held goes back to the slab. *)
Definition UpdateAllocator_destroy (a : UpdateAllocator S) : S :=
  foldl (λ s (b : bool), if b then slab_Free s else s) (ua_slab a) (ua_blocks a).

Definition UpdateAllocator_Allocate (a : UpdateAllocator S) : prog (UpdateAllocator S) :=
  _ ← ASSERT (ua_index a <? MaxBlocks);
  held ← arr_get (ua_blocks a) (ua_index a);
  _ ← ASSERT held;
  bs ← arr_set (ua_blocks a) (ua_index a) false;
  if held : bool then mret (MkAllocator bs (u64 (ua_index a + 1)) (ua_slab a)) else Stuck.

Definition UpdateAllocator_Free (a : UpdateAllocator S) : prog (UpdateAllocator S) :=
  _ ← ASSERT (ua_index a <=? MaxBlocks);
  if ua_index a =? 0 then
    mret (MkAllocator (ua_blocks a) (ua_index a) (slab_Free (ua_slab a)))
  else
    bs ← arr_set (ua_blocks a) (ua_index a - 1) true;
    mret (MkAllocator bs (ua_index a - 1) (ua_slab a)).

(** *** Initialize and Finalize *)
Definition KMemoryBlockManager_Initialize (st nd : Z) (s : S) (m : KMemoryBlockManager)
    : prog (Z * S * KMemoryBlockManager) :=
  match slab_Allocate s with
  | None => mret (ResultOutOfResource, s, m)
  | Some s =>
      _ ← ASSERT (IsAligned st PageSize);
      _ ← ASSERT (IsAligned nd PageSize);
      let start_block :=
        KMemoryBlock_Initialize st (u64 (nd - st) / PageSize) KMemoryState_Free
          KMemoryPermission_None KMemoryAttribute_None (KMemoryBlock_new 0 0 0 0 0) in
      '(t, _) ← tree_insert (KMemoryBlock_Compare start_block) start_block
                  (m_memory_block_tree m);
      mret (ResultSuccess, s, MkManager t st nd)
  end.

(** [Finalize] calls back with the address and size of every block, in order,
    and frees it. *)
Definition KMemoryBlockManager_Finalize (s : S) (m : KMemoryBlockManager)
    : list (Z * Z) * S * KMemoryBlockManager :=
  (map (λ b, (m_address b, KMemoryBlock_GetSize b)) (m_memory_block_tree m),
   foldl (λ s _, slab_Free s) s (m_memory_block_tree m),
   set_tree [] m).

(** *** Searching *)
Definition find_key (address : Z) : KMemoryBlock :=
  KMemoryBlock_new address 1 KMemoryState_Free KMemoryPermission_None KMemoryAttribute_None.

Definition KMemoryBlockManager_FindIterator (t : list KMemoryBlock) (address : Z) : nat :=
  tree_find (KMemoryBlock_Compare (find_key address)) t.

Definition KMemoryBlockManager_FindBlock (m : KMemoryBlockManager) (address : Z)
    : option KMemoryBlock :=
  m_memory_block_tree m !! KMemoryBlockManager_FindIterator (m_memory_block_tree m) address.

(** The body of the search loop: the area a block offers, or nothing. *)
Definition free_area_in (info : KMemoryInfo)
    (region_start region_last num_pages alignment offset guard_pages : Z) : option Z :=
  let area := if info_address info <=? region_start then region_start else info_address info in
  let area := u64 (area + u64 (guard_pages * PageSize)) in
  let offset_area := u64 (AlignDown area alignment + offset) in
  let area := if area <=? offset_area then offset_area else u64 (offset_area + alignment) in
  let area_end := u64 (u64 (area + u64 (num_pages * PageSize)) + u64 (guard_pages * PageSize)) in
  let area_last := u64 (area_end - 1) in
  if (info_address info <=? area) && (area <? area_last) && (area_last <=? region_last) &&
     (area_last <=? KMemoryInfo_GetLastAddress info)
  then Some area else None.

Fixpoint find_free_area (blocks : list KMemoryBlock)
    (region_start region_last num_pages alignment offset guard_pages : Z) : Z :=
  match blocks with
  | [] => 0
  | b :: blocks =>
      let info := KMemoryBlock_GetMemoryInfo b in
      if region_last <? info_address info then 0
      else if negb (info_state info =? KMemoryState_Free) then
        find_free_area blocks region_start region_last num_pages alignment offset guard_pages
      else
        match free_area_in info region_start region_last num_pages alignment offset
                guard_pages with
        | Some area => area
        | None =>
            find_free_area blocks region_start region_last num_pages alignment offset guard_pages
        end
  end.

Definition KMemoryBlockManager_FindFreeArea (m : KMemoryBlockManager)
    (region_start region_num_pages num_pages alignment offset guard_pages : Z) : Z :=
  if 0 <? num_pages then
    let region_end := u64 (region_start + u64 (region_num_pages * PageSize)) in
    let region_last := u64 (region_end - 1) in
    find_free_area
      (drop (KMemoryBlockManager_FindIterator (m_memory_block_tree m) region_start)
            (m_memory_block_tree m))
      region_start region_last num_pages alignment offset guard_pages
  else 0.

(** *** Coalescing *)
Fixpoint coalesce_loop (fuel : nat) (last : Z) (a : UpdateAllocator S)
    (t : list KMemoryBlock) (it : nat) : prog (UpdateAllocator S * list KMemoryBlock) :=
  match fuel with
  | O => Stuck
  | Datatypes.S fuel =>
      let prev := it in
      it ← tree_next t it;
      if decide (it = length t) then mret (a, t)
      else
        p ← deref (t !! prev);
        b ← deref (t !! it);
        '(a, t, it) ←
          (if KMemoryBlock_CanMergeWith p b then
             '(t, _) ← tree_erase t it;
             p ← KMemoryBlock_Add p b;
             a ← UpdateAllocator_Free a;
             mret (a, <[prev := p]> t, prev)
           else mret (a, t, it));
        b ← deref (t !! it);
        if last <? KMemoryInfo_GetEndAddress (KMemoryBlock_GetMemoryInfo b)
        then mret (a, t)
        else coalesce_loop fuel last a t it
  end.

Definition KMemoryBlockManager_CoalesceForUpdate (m : KMemoryBlockManager)
    (a : UpdateAllocator S) (address num_pages : Z)
    : prog (UpdateAllocator S * KMemoryBlockManager) :=
  let t := m_memory_block_tree m in
  let it := KMemoryBlockManager_FindIterator t address in
  it ← (if negb (address =? m_start_address m) then tree_prev t it else mret it);
  '(a, t) ← coalesce_loop (length t) (u64 (address + u64 (num_pages * PageSize))) a t it;
  mret (a, set_tree t m).

(** *** The update loops

    [Update], [UpdateIfMatch], [UpdateLock] and [UpdateAttribute] walk the
    blocks of the range in the same way: a block that needs the change is split
    at the ends of the range and changed, any other block is stepped over.
    [split_for_update] is the splitting all four contain. *)
Definition split_for_update (a : UpdateAllocator S) (t : list KMemoryBlock) (it : nat)
    (cur_address remaining_size : Z)
    : prog (UpdateAllocator S * list KMemoryBlock * nat * Z) :=
  b ← deref (t !! it);
  '(a, t, it, cur_address) ←
    (if negb (m_address b =? cur_address) then
       a ← UpdateAllocator_Allocate a;
       '(new_block, b) ← KMemoryBlock_Split b cur_address;
       '(t, it) ← tree_insert (KMemoryBlock_Compare new_block) new_block (<[it := b]> t);
       it ← tree_next t it;
       b ← deref (t !! it);
       mret (a, t, it, m_address b)
     else mret (a, t, it, cur_address));
  b ← deref (t !! it);
  (if remaining_size <? KMemoryBlock_GetSize b then
     a ← UpdateAllocator_Allocate a;
     '(new_block, b) ← KMemoryBlock_Split b (u64 (cur_address + remaining_size));
     '(t, it) ← tree_insert (KMemoryBlock_Compare new_block) new_block (<[it := b]> t);
     mret (a, t, it, cur_address)
   else mret (a, t, it, cur_address)).

(** [needs] is the condition under which a block is changed and [apply] the
    change. *)
Fixpoint update_loop (fuel : nat) (needs : KMemoryBlock → bool)
    (apply : KMemoryBlock → prog KMemoryBlock)
    (a : UpdateAllocator S) (t : list KMemoryBlock) (it : nat)
    (cur_address remaining_pages : Z) : prog (UpdateAllocator S * list KMemoryBlock) :=
  if remaining_pages =? 0 then mret (a, t)
  else
    match fuel with
    | O => Stuck
    | Datatypes.S fuel =>
        let remaining_size := u64 (remaining_pages * PageSize) in
        b ← deref (t !! it);
        '(a, t, it, cur_address, remaining_pages) ←
          (if needs b then
             '(a, t, it, cur_address) ← split_for_update a t it cur_address remaining_size;
             b ← deref (t !! it);
             let cur_info := KMemoryBlock_GetMemoryInfo b in
             b ← apply b;
             mret (a, <[it := b]> t, it,
                   u64 (cur_address + info_size cur_info),
                   u64 (remaining_pages - KMemoryInfo_GetNumPages cur_info))
           else
             let cur_end := KMemoryInfo_GetEndAddress (KMemoryBlock_GetMemoryInfo b) in
             if u64 (cur_address + remaining_size) <? cur_end then
               mret (a, t, it, u64 (cur_address + remaining_size), 0)
             else
               mret (a, t, it, cur_end,
                     u64 (u64 (cur_address + remaining_size) - cur_end) / PageSize));
        it ← tree_next t it;
        update_loop fuel needs apply a t it cur_address remaining_pages
    end.

(** The walk from the block that contains [address], then the coalescing pass.
    Every iteration leaves one block of the original tree behind, so the length
    of the tree is fuel enough. *)
Definition update_range (needs : KMemoryBlock → bool) (apply : KMemoryBlock → prog KMemoryBlock)
    (m : KMemoryBlockManager) (a : UpdateAllocator S) (address num_pages : Z)
    : prog (UpdateAllocator S * KMemoryBlockManager) :=
  let t := m_memory_block_tree m in
  '(a, t) ← update_loop (length t) needs apply a t (KMemoryBlockManager_FindIterator t address)
              address num_pages;
  KMemoryBlockManager_CoalesceForUpdate (set_tree t m) a address num_pages.

Definition KMemoryBlockManager_Update (m : KMemoryBlockManager) (a : UpdateAllocator S)
    (address num_pages state perm attr set_disable_attr clear_disable_attr : Z)
    : prog (UpdateAllocator S * KMemoryBlockManager) :=
  _ ← ASSERT (IsAligned address PageSize);
  _ ← ASSERT (Z.land attr (Z.lor KMemoryAttribute_IpcLocked KMemoryAttribute_DeviceShared) =?
                KMemoryAttribute_None);
  update_range
    (λ b, negb (KMemoryBlock_HasProperties b state perm attr))
    (λ b, KMemoryBlock_Update state perm attr (m_address b =? address)
            set_disable_attr clear_disable_attr b)
    m a address num_pages.

Definition KMemoryBlockManager_UpdateIfMatch (m : KMemoryBlockManager) (a : UpdateAllocator S)
    (address num_pages test_state test_perm test_attr state perm attr
     set_disable_attr clear_disable_attr : Z)
    : prog (UpdateAllocator S * KMemoryBlockManager) :=
  _ ← ASSERT (IsAligned address PageSize);
  _ ← ASSERT (Z.land attr (Z.lor KMemoryAttribute_IpcLocked KMemoryAttribute_DeviceShared) =?
                KMemoryAttribute_None);
  update_range
    (λ b, KMemoryBlock_HasProperties b test_state test_perm test_attr &&
          negb (KMemoryBlock_HasProperties b state perm attr))
    (λ b, KMemoryBlock_Update state perm attr false set_disable_attr clear_disable_attr b)
    m a address num_pages.

(** [lock_func] is one of the methods of [KMemoryBlock] that take the new
    permission and whether the block is the first and the last of the range. *)
Definition KMemoryBlockManager_UpdateLock (m : KMemoryBlockManager) (a : UpdateAllocator S)
    (address num_pages : Z)
    (lock_func : Z → bool → bool → KMemoryBlock → prog KMemoryBlock) (perm : Z)
    : prog (UpdateAllocator S * KMemoryBlockManager) :=
  _ ← ASSERT (IsAligned address PageSize);
  let end_address := u64 (address + u64 (num_pages * PageSize)) in
  update_range
    (λ _, true)
    (λ b, lock_func perm (m_address b =? address)
            (KMemoryBlock_GetEndAddress b =? end_address) b)
    m a address num_pages.

Definition KMemoryBlockManager_UpdateAttribute (m : KMemoryBlockManager) (a : UpdateAllocator S)
    (address num_pages mask attr : Z) : prog (UpdateAllocator S * KMemoryBlockManager) :=
  _ ← ASSERT (IsAligned address PageSize);
  update_range
    (λ b, negb (Z.land (m_attribute b) mask =? attr))
    (KMemoryBlock_UpdateAttribute mask attr)
    m a address num_pages.
End Manager.

(** *** CheckState *)
Definition locks_ok (b : KMemoryBlock) : bool :=
  negb (negb (Z.land (m_attribute b) KMemoryAttribute_IpcLocked =? KMemoryAttribute_None) &&
        (m_ipc_lock_count b =? 0)) &&
  negb (negb (Z.land (m_attribute b) KMemoryAttribute_DeviceShared =? KMemoryAttribute_None) &&
        (m_device_use_count b =? 0)).

Fixpoint check_state (prev : KMemoryBlock) (l : list KMemoryBlock) : bool :=
  match l with
  | [] => locks_ok prev
  | b :: l =>
      if KMemoryBlock_CanMergeWith prev b then false
      else if negb (KMemoryBlock_GetEndAddress prev =? m_address b) then false
      else if locks_ok b then check_state b l else false
  end.

(** [auto prev = it++] on an empty tree steps the null node. *)
Definition KMemoryBlockManager_CheckState (m : KMemoryBlockManager) : prog bool :=
  match m_memory_block_tree m with
  | [] => Stuck
  | b :: l => mret (check_state b l)
  end.
