(* ===== verification/MemoryBlockManagerLemmas.v ===== *)
(** * Lists of memory blocks: tilings, splitting, coalescing

    The pure functions the loops of [MemoryBlockManager] compute, the proof
    that they do, and the invariants of the block list: the blocks tile the
    address space, no two neighbours can be merged, and the lock counts agree
    with the attributes. *)

From S2P Require Import Prelude Common MemoryBlock OrderedTree MemoryBlockManager.

(** ** What a block says about each of its pages *)
Record PageProps : Type := MkProps {
  pp_state : Z;
  pp_permission : Z;
  pp_original_permission : Z;
  pp_attribute : Z;
  pp_ipc_lock_count : Z;
  pp_device_use_count : Z
}.

Definition props (b : KMemoryBlock) : PageProps :=
  MkProps (m_memory_state b) (m_permission b) (m_original_permission b) (m_attribute b)
          (m_ipc_lock_count b) (m_device_use_count b).

(** The end of a block, without wrap-around. *)
Definition bend (b : KMemoryBlock) : Z := m_address b + m_num_pages b * PageSize.

Definition fits (b : KMemoryBlock) : Prop :=
  0 ≤ m_address b ∧ 0 < m_num_pages b ∧ bend b < 2 ^ 64 ∧ m_address b mod PageSize = 0.

Lemma fits_size b : fits b → KMemoryBlock_GetSize b = m_num_pages b * PageSize.
Proof.
  intros (? & ? & ?). unfold KMemoryBlock_GetSize, bend in *. rewrite PageSize_eq in *.
  by u_simpl.
Qed.

Lemma fits_end b : fits b → KMemoryBlock_GetEndAddress b = bend b.
Proof.
  intros Hf. unfold KMemoryBlock_GetEndAddress. rewrite fits_size by done.
  destruct Hf as (? & ? & ?). unfold bend in *. rewrite PageSize_eq in *. by u_simpl.
Qed.

Lemma fits_last b : fits b → KMemoryBlock_GetLastAddress b = bend b - 1.
Proof.
  intros Hf. unfold KMemoryBlock_GetLastAddress. rewrite fits_end by done.
  destruct Hf as (? & ? & ?). unfold bend in *. rewrite PageSize_eq in *. by u_simpl.
Qed.

Lemma fits_info_end b :
  fits b → KMemoryInfo_GetEndAddress (KMemoryBlock_GetMemoryInfo b) = bend b.
Proof. apply fits_end. Qed.

Lemma fits_info_pages b :
  fits b → KMemoryInfo_GetNumPages (KMemoryBlock_GetMemoryInfo b) = m_num_pages b.
Proof.
  intros Hf. unfold KMemoryInfo_GetNumPages. simpl. rewrite fits_size by done.
  apply Z.div_mul. rewrite PageSize_eq. lia.
Qed.

Lemma fits_lt b : fits b → m_address b < bend b.
Proof. intros (? & ? & ?). unfold bend. rewrite PageSize_eq. lia. Qed.

(** Comparing the key of a lookup, or a new block, with a block of the tree. *)
Lemma Compare_spec k b :
  fits b →
  (KMemoryBlock_Compare k b = 0 ↔ m_address b ≤ m_address k < bend b) ∧
  (0 < KMemoryBlock_Compare k b ↔ bend b ≤ m_address k) ∧
  (KMemoryBlock_Compare k b < 0 ↔ m_address k < m_address b).
Proof.
  intros Hf. unfold KMemoryBlock_Compare. rewrite fits_last by done.
  pose proof (fits_lt b Hf).
  destruct (m_address k <? m_address b) eqn:E1; [|destruct (_ <=? _) eqn:E2]; bool_prop; lia.
Qed.

(** ** Tilings *)
Fixpoint tiles (st : Z) (l : list KMemoryBlock) (nd : Z) : Prop :=
  match l with
  | [] => st = nd
  | b :: l => m_address b = st ∧ fits b ∧ tiles (bend b) l nd
  end.

Lemma tiles_app st l1 l2 nd :
  tiles st (l1 ++ l2) nd ↔ ∃ mid, tiles st l1 mid ∧ tiles mid l2 nd.
Proof.
  revert st. induction l1 as [|b l1 IH]; intros st; simpl; [naive_solver|].
  rewrite IH. naive_solver.
Qed.

Lemma tiles_le st l nd : tiles st l nd → st ≤ nd.
Proof.
  revert st. induction l as [|b l IH]; intros st; simpl; [lia|].
  intros (<- & Hf & Ht%IH). pose proof (fits_lt b Hf). lia.
Qed.

Lemma tiles_bounds st l nd :
  tiles st l nd → Forall (λ b, fits b ∧ st ≤ m_address b ∧ bend b ≤ nd) l.
Proof.
  revert st. induction l as [|b l IH]; intros st; simpl; [constructor|].
  intros (<- & Hf & Ht). pose proof (tiles_le _ _ _ Ht). pose proof (fits_lt b Hf).
  constructor; [done|]. eapply Forall_weaken; [by eapply IH|]. intros c (? & ? & ?).
  split_and!; [done|lia..].
Qed.

Lemma tiles_adj st l nd : tiles st l nd → adj (λ b c, m_address c = bend b) l.
Proof.
  revert st. induction l as [|b l IH]; intros st; [done|]. intros (<- & Hf & Ht).
  split; [|by eapply IH]. intros c Hc. destruct l as [|d l]; [done|].
  simpl in Hc. simplify_eq. apply Ht.
Qed.

(** The block that contains an address splits the list. *)
Lemma tiles_split st l nd a :
  tiles st l nd → st ≤ a < nd →
  ∃ l1 b l2, l = l1 ++ b :: l2 ∧ m_address b ≤ a < bend b ∧
    tiles st l1 (m_address b) ∧ fits b ∧ tiles (bend b) l2 nd.
Proof.
  revert st. induction l as [|b l IH]; intros st; simpl; [lia|].
  intros (<- & Hf & Ht) Ha. destruct (decide (a < bend b)).
  - exists [], b, l. split_and!; simpl; naive_solver lia.
  - destruct (IH _ Ht) as (l1 & c & l2 & -> & ? & ? & ? & ?); [lia|].
    exists (b :: l1), c, l2. split_and!; naive_solver.
Qed.

Lemma FindIterator_app st l1 b l2 nd a :
  tiles st (l1 ++ b :: l2) nd → m_address b ≤ a < bend b →
  KMemoryBlockManager_FindIterator (l1 ++ b :: l2) a = length l1.
Proof.
  intros (mid & Ht1 & Ht2)%tiles_app Ha. apply tree_find_app.
  - apply tiles_bounds in Ht1. destruct Ht2 as (<- & Hf & _).
    eapply Forall_weaken; [exact Ht1|]. intros c (Hc & _ & ?).
    destruct (Compare_spec (find_key a) c Hc) as (E & _ & _). simpl in E. rewrite E. lia.
  - destruct Ht2 as (_ & Hf & _). by apply (Compare_spec (find_key a) b Hf).
Qed.

(** [at_addr l a b]: [b] is the block of [l] that holds the page at [a]. *)
Definition at_addr (l : list KMemoryBlock) (a : Z) (b : KMemoryBlock) : Prop :=
  b ∈ l ∧ m_address b ≤ a < bend b.

Lemma FindBlock_spec st nd m a b :
  tiles st (m_memory_block_tree m) nd →
  KMemoryBlockManager_FindBlock m a = Some b ↔ at_addr (m_memory_block_tree m) a b.
Proof.
  intros Ht. unfold KMemoryBlockManager_FindBlock, at_addr. split.
  - intros Hl. destruct (decide (st ≤ a < nd)) as [Ha|Ha].
    + destruct (tiles_split _ _ _ _ Ht Ha) as (l1 & c & l2 & E & Hc & _).
      rewrite E in *. rewrite (FindIterator_app _ _ _ _ _ _ Ht Hc) in Hl.
      rewrite list_lookup_middle in Hl by done. simplify_eq. split; [|done].
      set_solver.
    + unfold KMemoryBlockManager_FindIterator in Hl. rewrite tree_find_None in Hl.
      * by rewrite lookup_ge_None_2 in Hl.
      * eapply Forall_weaken; [by apply tiles_bounds|]. intros c (Hc & ? & ?).
        destruct (Compare_spec (find_key a) c Hc) as (E & _ & _). simpl in E. rewrite E. lia.
  - intros [Hin Hb]. apply list_elem_of_split in Hin as (l1 & l2 & E). rewrite E in *.
    rewrite (FindIterator_app _ _ _ _ _ _ Ht Hb). by apply list_lookup_middle.
Qed.

Lemma at_addr_app l1 l2 a b : at_addr (l1 ++ l2) a b ↔ at_addr l1 a b ∨ at_addr l2 a b.
Proof. unfold at_addr. rewrite elem_of_app. naive_solver. Qed.

Lemma at_addr_cons c l a b :
  at_addr (c :: l) a b ↔ (b = c ∧ m_address c ≤ a < bend c) ∨ at_addr l a b.
Proof. unfold at_addr. rewrite elem_of_cons. naive_solver. Qed.

Lemma at_addr_nil a b : ¬ at_addr [] a b.
Proof. intros [H _]. by apply elem_of_nil in H. Qed.

(** ** Splitting *)
Definition left_part (b : KMemoryBlock) (addr : Z) : KMemoryBlock :=
  set_num_pages ((addr - m_address b) / PageSize)
  (set_right_count 0
  (set_disable_merge (Z.land (m_disable_merge_attribute b) DisableMerge_AllLeft) b)).

Definition right_part (b : KMemoryBlock) (addr : Z) : KMemoryBlock :=
  set_address addr
  (set_num_pages ((bend b - addr) / PageSize)
  (set_ipc_disable_merge_count 0
  (set_left_count 0
  (set_disable_merge (Z.land (m_disable_merge_attribute b) DisableMerge_AllRight) b)))).

(** [b] may be split at [addr]. *)
Definition splittable (b : KMemoryBlock) (addr : Z) : Prop :=
  m_address b < addr < bend b ∧ addr mod PageSize = 0.

Lemma page_quot x y :
  x mod PageSize = 0 → y mod PageSize = 0 → x < y →
  0 < (y - x) / PageSize ∧ (y - x) / PageSize * PageSize = y - x.
Proof.
  rewrite PageSize_eq. intros Hx Hy Hxy.
  assert ((y - x) mod 4096 = 0) as Hm by (rewrite Zminus_mod, Hx, Hy; done).
  pose proof (Z.div_mod (y - x) 4096 ltac:(lia)). nia.
Qed.

Lemma bend_aligned b : m_address b mod PageSize = 0 → bend b mod PageSize = 0.
Proof. intros E. unfold bend. rewrite Z.mod_add by (rewrite PageSize_eq; lia). done. Qed.

Lemma splittable_left b addr :
  fits b → splittable b addr →
  m_address (left_part b addr) = m_address b ∧ bend (left_part b addr) = addr ∧
  fits (left_part b addr).
Proof.
  intros (? & ? & ? & Ha) ((? & ?) & Hx).
  pose proof (page_quot _ _ Ha Hx ltac:(lia)) as [? E].
  assert (bend (left_part b addr) = addr) as Hb.
  { unfold bend, left_part; simpl. rewrite E. lia. }
  unfold fits. rewrite Hb. simpl. split_and!; done || lia.
Qed.

Lemma splittable_right b addr :
  fits b → splittable b addr →
  m_address (right_part b addr) = addr ∧ bend (right_part b addr) = bend b ∧
  fits (right_part b addr).
Proof.
  intros (? & ? & ? & Ha) ((? & ?) & Hx).
  pose proof (page_quot _ _ Hx (bend_aligned _ Ha) ltac:(lia)) as [? E].
  assert (bend (right_part b addr) = bend b) as Hb.
  { unfold bend at 1; unfold right_part; simpl. rewrite E. lia. }
  unfold fits. rewrite Hb. simpl. split_and!; done || lia.
Qed.

Lemma props_left b addr : props (left_part b addr) = props b.
Proof. done. Qed.
Lemma props_right b addr : props (right_part b addr) = props b.
Proof. done. Qed.

Lemma Split_run b addr :
  fits b → splittable b addr →
  KMemoryBlock_Split b addr = Done true (left_part b addr, right_part b addr).
Proof.
  intros Hf Hs. destruct (Hf) as (? & ? & ? & Ha). destruct (Hs) as ((? & ?) & Hx).
  unfold KMemoryBlock_Split, KMemoryBlock_Contains. rewrite fits_end by done.
  rewrite (proj2 (IsAligned_page addr)) by done.
  rewrite (proj2 (Z.ltb_lt (m_address b) addr)) by lia.
  rewrite (proj2 (Z.leb_le (m_address b) addr)), (proj2 (Z.leb_le addr (bend b))) by lia.
  unfold ASSERT. rewrite !bind_Done_true. simpl.
  pose proof (page_quot _ _ Ha Hx ltac:(lia)) as [? E].
  pose proof (page_quot _ _ Hx (bend_aligned _ Ha) ltac:(lia)) as [? E'].
  rewrite (u64_id (addr - _)) by (unfold is_u64; lia).
  unfold left_part, right_part, bend in *; simpl in *.
  replace (u64 (m_num_pages b - (addr - m_address b) / PageSize))
    with ((m_address b + m_num_pages b * PageSize - addr) / PageSize); [done|].
  rewrite PageSize_eq in *. u_simpl. lia.
Qed.

(** A left part still cannot be merged with what the block could not be merged
    with on its left, a right part with what it could not on its right. *)
Lemma CanMerge_left_part q b addr :
  KMemoryBlock_CanMergeWith q (left_part b addr) = KMemoryBlock_CanMergeWith q b.
Proof.
  unfold KMemoryBlock_CanMergeWith, KMemoryBlock_HasSameProperties, left_part.
  simpl. rewrite <- Z.land_assoc, Z.land_diag. done.
Qed.

Lemma CanMerge_right_part b addr q :
  KMemoryBlock_CanMergeWith (right_part b addr) q = KMemoryBlock_CanMergeWith b q.
Proof.
  unfold KMemoryBlock_CanMergeWith, KMemoryBlock_HasSameProperties, right_part.
  simpl. rewrite <- Z.land_assoc, Z.land_diag. done.
Qed.

(** ** Merging *)
Definition merge (p b : KMemoryBlock) : KMemoryBlock :=
  set_num_pages (m_num_pages p + m_num_pages b)
  (set_disable_merge (Z.lor (m_disable_merge_attribute p) (m_disable_merge_attribute b))
  (set_right_count (m_device_disable_merge_right_count b) p)).

Lemma bend_merge p b :
  m_address b = bend p → bend (merge p b) = bend b ∧ m_address (merge p b) = m_address p.
Proof. unfold bend, merge. simpl. intros ->. rewrite PageSize_eq. lia. Qed.

Lemma fits_merge p b : fits p → fits b → m_address b = bend p → fits (merge p b).
Proof.
  intros (? & ? & ?) (? & ? & ?) E. destruct (bend_merge _ _ E) as [Eb Ea].
  unfold fits. rewrite Eb, Ea. unfold merge; simpl. lia.
Qed.

Lemma Add_run p b :
  fits p → fits b → m_address b = bend p →
  KMemoryBlock_Add p b = Done true (merge p b).
Proof.
  intros Hp Hb E. unfold KMemoryBlock_Add.
  rewrite !fits_size, fits_end by done.
  destruct Hp as (? & ? & ?), Hb as (? & ? & ?). unfold bend in *. rewrite PageSize_eq in *.
  u_simpl. rewrite !(proj2 (Z.ltb_lt _ _)) by lia.
  unfold ASSERT. rewrite !bind_Done_true. done.
Qed.

Lemma CanMerge_props p b : KMemoryBlock_CanMergeWith p b = true → props p = props b.
Proof.
  unfold KMemoryBlock_CanMergeWith, KMemoryBlock_HasSameProperties, props.
  intros Hm. bool_prop. by f_equal.
Qed.

Lemma props_merge p b : props (merge p b) = props p.
Proof. done. Qed.

Lemma land_none_l x m y : Z.land x m = DisableMerge_None → Z.lor (Z.land x m) y = y.
Proof. by intros ->. Qed.
Lemma land_none_r x m y : Z.land x m = DisableMerge_None → Z.lor y (Z.land x m) = y.
Proof. intros ->. apply Z.lor_0_r. Qed.

Lemma CanMerge_merge_r p b c :
  KMemoryBlock_CanMergeWith p b = true →
  KMemoryBlock_CanMergeWith (merge p b) c = KMemoryBlock_CanMergeWith b c.
Proof.
  intros Hm. pose proof (CanMerge_props _ _ Hm) as [= Hs Hp Ho Ha Hi Hd].
  unfold KMemoryBlock_CanMergeWith, KMemoryBlock_HasSameProperties, merge in *.
  bool_prop. simpl in *. rewrite Hs, Hp, Ho, Ha, Hi, Hd.
  by rewrite Z.land_lor_distr_l, (land_none_l _ _ _ H1).
Qed.

Lemma CanMerge_merge_l q p b :
  KMemoryBlock_CanMergeWith p b = true →
  KMemoryBlock_CanMergeWith q (merge p b) = KMemoryBlock_CanMergeWith q p.
Proof.
  intros Hm.
  unfold KMemoryBlock_CanMergeWith, KMemoryBlock_HasSameProperties, merge in *.
  bool_prop. simpl in *.
  by rewrite Z.land_lor_distr_l, (land_none_r _ _ _ H0).
Qed.

(** ** The update allocator

    [alloc n s] holds [n] preallocated blocks. *)
Section Allocator.
Context {S : Type} `{SlabLaws S}.

Definition alloc (n : nat) (s : S) : UpdateAllocator S :=
  MkAllocator (replicate (2 - n) false ++ replicate n true) (2 - Z.of_nat n) s.

Definition alloc_ok (a : UpdateAllocator S) : Prop := ∃ n s, (n ≤ 2)%nat ∧ a = alloc n s.

(** The blocks at hand: those the allocator holds and those left in the slab. *)
Definition blocks_left (a : UpdateAllocator S) : nat :=
  length (filter (λ b : bool, b = true) (ua_blocks a)) + slab_size (ua_slab a).

Lemma alloc_Allocate n s :
  (n < 2)%nat → UpdateAllocator_Allocate (alloc (1 + n) s) = Done true (alloc n s).
Proof. intros Hn. destruct n as [|[|n]]; [reflexivity..|lia]. Qed.

Lemma alloc_Free a :
  alloc_ok a → ∃ a', UpdateAllocator_Free a = Done true a' ∧ alloc_ok a' ∧
    blocks_left a' = Datatypes.S (blocks_left a).
Proof.
  intros (n & s & Hn & ->). destruct n as [|[|[|n]]]; [..|lia].
  - exists (alloc 1 s). split_and!; [done|by exists 1%nat, s; split; [lia|]|done].
  - exists (alloc 2 s). split_and!; [done|by exists 2%nat, s; split; [lia|]|done].
  - exists (alloc 2 (slab_Free s)). split_and!; [done|by eexists 2%nat, _; split; [lia|]|].
    unfold blocks_left. simpl. rewrite slab_size_Free. done.
Qed.

Lemma blocks_left_alloc n s : (n ≤ 2)%nat → blocks_left (alloc n s) = (n + slab_size s)%nat.
Proof. intros Hn. destruct n as [|[|[|n]]]; [done..|lia]. Qed.

(** ** Coalescing as a list function *)
Fixpoint co (last : Z) (p : KMemoryBlock) (l : list KMemoryBlock) : list KMemoryBlock :=
  match l with
  | [] => [p]
  | b :: l =>
      if KMemoryBlock_CanMergeWith p b then
        if last <? bend b then merge p b :: l else co last (merge p b) l
      else p :: (if last <? bend b then b :: l else co last b l)
  end.

Lemma coalesce_loop_run last nd l : ∀ fuel pre p a,
  (length l < fuel)%nat → alloc_ok a → fits p → tiles (bend p) l nd →
  ∃ a', coalesce_loop fuel last a (pre ++ p :: l) (length pre)
        = Done true (a', pre ++ co last p l) ∧
    alloc_ok a' ∧ (blocks_left a' + length (co last p l) =
                   blocks_left a + Datatypes.S (length l))%nat.
Proof.
  induction l as [|b l IH]; intros fuel pre p a Hfuel Ha Hp Ht;
    (destruct fuel as [|fuel]; [simpl in Hfuel; lia|]); cbn [coalesce_loop co]; cbv zeta.
  - unfold tree_next. rewrite decide_True by (rewrite length_app; simpl; lia).
    pstep. rewrite decide_True by (rewrite length_app; simpl; lia). by exists a.
  - destruct Ht as (Hba & Hb & Ht). simpl in Hfuel.
    unfold tree_next. rewrite decide_True by (rewrite length_app; simpl; lia).
    pstep. rewrite decide_False by (rewrite length_app; simpl; lia).
    rewrite (list_lookup_middle pre (b :: l) p (length pre)) by done. pstep.
    replace (pre ++ p :: b :: l) with ((pre ++ [p]) ++ b :: l) by by rewrite <- app_assoc.
    replace (Datatypes.S (length pre)) with (length (pre ++ [p]))
      by (rewrite length_app; simpl; lia).
    rewrite list_lookup_middle by done. pstep.
    destruct (KMemoryBlock_CanMergeWith p b).
    + unfold tree_erase. rewrite decide_True by (rewrite !length_app; simpl; lia).
      pstep. rewrite Add_run by done. pstep.
      destruct (alloc_Free a Ha) as (a1 & -> & Ha1 & Hl1). pstep.
      rewrite delete_middle, <- app_assoc. simpl app. rewrite insert_app_r_alt, Nat.sub_diag by done.
      cbn [insert list_insert]. rewrite (list_lookup_middle pre l) by done. pstep.
      destruct (bend_merge p b Hba) as [Eb _].
      pose proof (fits_merge p b Hp Hb Hba) as Hm. rewrite fits_info_end, Eb by done.
      destruct (last <? bend b).
      * exists a1. split_and!; [done..|]. simpl. lia.
      * destruct (IH fuel pre (merge p b) a1) as (a2 & -> & ? & ?); [lia|done|done|by rewrite Eb|].
        exists a2. split_and!; [done..|]. simpl. lia.
    + pstep. rewrite list_lookup_middle by done. pstep.
      rewrite fits_info_end by done. destruct (last <? bend b).
      * exists a. rewrite <- app_assoc. done.
      * destruct (IH fuel (pre ++ [p]) b a) as (a2 & -> & ? & ?); [lia|done|done|done|].
        exists a2. rewrite <- app_assoc. split_and!; [done..|]. simpl. lia.
Qed.
End Allocator.

Definition unmergeable (b c : KMemoryBlock) : Prop := KMemoryBlock_CanMergeWith b c = false.

Lemma co_tiles last nd l : ∀ p,
  fits p → tiles (bend p) l nd → tiles (m_address p) (co last p l) nd.
Proof.
  induction l as [|b l IH]; intros p Hp; [done|].
  intros (Hba & Hb & Ht). destruct (bend_merge p b Hba) as [Eb Ea]. simpl.
  destruct (KMemoryBlock_CanMergeWith p b), (last <? bend b);
    rewrite <- ?Ea at 1; simpl; rewrite ?Ea; split_and?; rewrite ?Eb; auto using fits_merge.
  - rewrite <- Ea. apply IH; [by apply fits_merge|by rewrite Eb].
  - rewrite <- Hba. auto.
Qed.

(** The first block of the result meets its left neighbour as [p] did. *)
Lemma co_head last l : ∀ p, ∃ p' l', co last p l = p' :: l' ∧
  ∀ q, KMemoryBlock_CanMergeWith q p' = KMemoryBlock_CanMergeWith q p.
Proof.
  induction l as [|b l IH]; intros p; simpl; [eauto|].
  destruct (KMemoryBlock_CanMergeWith p b) eqn:Hm; [|by eauto].
  destruct (last <? bend b); [by eauto using CanMerge_merge_l|].
  destruct (IH (merge p b)) as (p' & l' & -> & Hp'). eexists _, _. split; [done|].
  intros q. by rewrite Hp', CanMerge_merge_l.
Qed.

(** Every seam up to [last] is looked at. *)
Lemma co_adj last nd l : ∀ p,
  fits p → tiles (bend p) l nd → adj (λ b c, last < m_address c → unmergeable b c) (p :: l) →
  adj unmergeable (co last p l).
Proof.
  assert (Hfar : ∀ c l, last < bend c → tiles (bend c) l nd →
    adj (λ b c, last < m_address c → unmergeable b c) (c :: l) → adj unmergeable (c :: l)).
  { intros c r Hc Ht. revert c Hc Ht. induction r as [|d r IHr]; intros c Hc Ht [Hh Hr].
    - split; [intros ? [=]|done].
    - destruct Ht as (Hd & Hf & Ht). pose proof (fits_lt _ Hf). split.
      + intros ? [= <-]. apply Hh; [done|lia].
      + apply IHr; [lia|done..]. }
  induction l as [|b l IH]; intros p Hp Ht Hadj.
  - split; [intros ? [=]|done].
  - destruct Ht as (Hba & Hb & Ht). destruct Hadj as [Hh Hadj].
    destruct (bend_merge p b Hba) as [Eb Ea]. pose proof (fits_merge p b Hp Hb Hba) as Hf.
    cbn [co]. destruct (KMemoryBlock_CanMergeWith p b) eqn:Hm.
    + assert (adj (λ b c, last < m_address c → unmergeable b c) (merge p b :: l)).
      { destruct Hadj as [Hhb Hadj]. split; [|done]. intros c Hc Hlt.
        unfold unmergeable. rewrite CanMerge_merge_r by done. by apply Hhb. }
      destruct (last <? bend b) eqn:E; bool_prop.
      * apply Hfar; [lia|by rewrite Eb|done].
      * apply IH; [done|by rewrite Eb|done].
    + destruct (last <? bend b) eqn:E; bool_prop.
      * split; [|by apply Hfar]. intros c [= <-]. done.
      * split; [|by apply IH]. intros c Hc.
        destruct (co_head last l b) as (p' & l' & Eq & Hp'). rewrite Eq in Hc.
        simpl in Hc. simplify_eq. unfold unmergeable. by rewrite Hp'.
Qed.

(** Coalescing keeps the start of the first block and the seams where nothing can
    be merged. *)
Lemma co_bounds (P : Z → Prop) last nd l : ∀ p c,
  fits p → tiles (bend p) l nd → adj (λ b c, P (m_address c) → unmergeable b c) (p :: l) →
  c ∈ p :: l → m_address c = m_address p ∨ P (m_address c) →
  ∃ c', c' ∈ co last p l ∧ m_address c' = m_address c.
Proof.
  induction l as [|b l IH]; intros p c Hp Ht Hadj Hc Hx; [by exists c|].
  destruct Ht as (Hba & Hb & Ht). destruct Hadj as [Hh Hadj].
  destruct (bend_merge p b Hba) as [Eb Ea]. pose proof (fits_merge p b Hp Hb Hba) as Hf.
  pose proof (fits_lt p Hp) as Hlt. cbn [co]. destruct (KMemoryBlock_CanMergeWith p b) eqn:Hm.
  - assert (Hc1 : ∃ c1, c1 ∈ merge p b :: l ∧ m_address c1 = m_address c).
    { apply elem_of_cons in Hc as [->|[->|Hc]%elem_of_cons].
      - exists (merge p b). split; [by left|done].
      - destruct Hx as [Hx|Hx]; [lia|]. specialize (Hh b eq_refl Hx). unfold unmergeable in Hh. congruence.
      - exists c. split; [by right|done]. }
    destruct Hc1 as (c1 & Hc1 & E1). destruct (last <? bend b); [by exists c1|].
    destruct (IH (merge p b) c1) as (c' & ? & ?); [done|by rewrite Eb| |done|rewrite E1, Ea; done|].
    { destruct Hadj as [Hhb Hadj]. split; [|done]. intros d Hd Hl.
      unfold unmergeable. rewrite CanMerge_merge_r by done. by apply Hhb. }
    exists c'. split; [done|congruence].
  - apply elem_of_cons in Hc as [->|Hc]; [exists p; split; [by left|done]|].
    destruct (last <? bend b) eqn:E; bool_prop; [exists c; split; [by right|done]|].
    destruct (IH b c) as (c' & ? & ?); [done..| |exists c'; split; [by right|done]].
    right. destruct Hx as [Hx|Hx]; [|done]. exfalso.
    assert (HB : tiles (bend p) (b :: l) nd) by done. apply tiles_bounds in HB.
    rewrite Forall_forall in HB. destruct (HB c Hc) as (_ & ? & _). lia.
Qed.

(** Coalescing does not change what the pages are. *)
Lemma co_props last nd l : ∀ p a c,
  fits p → tiles (bend p) l nd → at_addr (co last p l) a c →
  ∃ b, at_addr (p :: l) a b ∧ props c = props b.
Proof.
  induction l as [|b l IH]; intros p a c Hp Ht Hc; [by exists c|].
  destruct Ht as (Hba & Hb & Ht). pose proof (fits_merge p b Hp Hb Hba) as Hf.
  destruct (bend_merge p b Hba) as [Eb Ea]. pose proof (fits_lt p Hp).
  assert (Hmp : ∀ d, KMemoryBlock_CanMergeWith p b = true → at_addr (merge p b :: l) a d →
    ∃ e, at_addr (p :: b :: l) a e ∧ props d = props e).
  { intros d Hm%CanMerge_props [[-> Ha]|Hd]%at_addr_cons.
    - rewrite Ea, Eb in Ha. rewrite props_merge. destruct (decide (a < bend p)).
      + exists p. rewrite at_addr_cons. split; [left; split; [done|lia]|done].
      + exists b. rewrite !at_addr_cons. split; [right; left; split; [done|lia]|done].
    - exists d. rewrite !at_addr_cons. auto. }
  cbn [co] in Hc. destruct (KMemoryBlock_CanMergeWith p b) eqn:Hm.
  - destruct (last <? bend b); [by apply Hmp|].
    destruct (IH (merge p b) a c) as (d & Hd & ->); [done|by rewrite Eb|done|].
    by apply Hmp.
  - apply at_addr_cons in Hc as [[-> Ha]|Hc]; [exists p; rewrite at_addr_cons; auto|].
    destruct (last <? bend b); [exists c; rewrite at_addr_cons; auto|].
    destruct (IH b a c) as (d & Hd & Ed); [done..|]. exists d. rewrite at_addr_cons. auto.
Qed.

(** A property of blocks that refuse to be merged with their left neighbour and
    that merging on the right does not destroy: the block stays where it is. *)
Record anchored (K : KMemoryBlock → Prop) : Prop := {
  anchored_left c q : K c → KMemoryBlock_CanMergeWith q c = false;
  anchored_merge c d : K c → K (merge c d)
}.

Lemma co_anchored K last nd l : anchored K → ∀ p c,
  fits p → tiles (bend p) l nd → c ∈ p :: l → K c →
  ∃ c', c' ∈ co last p l ∧ m_address c' = m_address c ∧ K c'.
Proof.
  intros HK. induction l as [|b l IH]; intros p c Hp Ht Hc HKc; [by exists c|].
  destruct Ht as (Hba & Hb & Ht). destruct (bend_merge p b Hba) as [Eb Ea].
  cbn [co]. destruct (KMemoryBlock_CanMergeWith p b) eqn:Hm.
  - assert (Hmc : ∃ c', c' ∈ merge p b :: l ∧ m_address c' = m_address c ∧ K c').
    { apply elem_of_cons in Hc as [->|[->|Hc]%elem_of_cons].
      - exists (merge p b). split_and!; [left|done|by apply anchored_merge].
      - rewrite (anchored_left _ HK b p HKc) in Hm. done.
      - exists c. split_and!; [by right|done..]. }
    destruct Hmc as (c' & Hc' & E & HKc'). destruct (last <? bend b); [by exists c'|].
    destruct (IH (merge p b) c') as (c'' & ? & ? & ?);
      [by apply fits_merge|by rewrite Eb|done|done|]. exists c''. split_and!; [done|congruence|done].
  - apply elem_of_cons in Hc as [->|Hc]; [exists p; split_and!; [left|done..]|].
    destruct (last <? bend b); [exists c; split_and!; [by right|done..]|].
    destruct (IH b c) as (c' & ? & ? & ?); [done..|]. exists c'. split_and!; [by right|done..].
Qed.

(** ** The invariant of the manager *)
Definition props_locks_ok (p : PageProps) : bool :=
  negb (negb (Z.land (pp_attribute p) KMemoryAttribute_IpcLocked =? KMemoryAttribute_None) &&
        (pp_ipc_lock_count p =? 0)) &&
  negb (negb (Z.land (pp_attribute p) KMemoryAttribute_DeviceShared =? KMemoryAttribute_None) &&
        (pp_device_use_count p =? 0)).

Lemma locks_ok_props b : locks_ok b = props_locks_ok (props b).
Proof. done. Qed.

Record mgr_wf (m : KMemoryBlockManager) : Prop := {
  wf_start : 0 ≤ m_start_address m < m_end_address m;
  wf_end : m_end_address m < 2 ^ 64;
  wf_tiles : tiles (m_start_address m) (m_memory_block_tree m) (m_end_address m);
  wf_adj : adj unmergeable (m_memory_block_tree m);
  wf_locks : Forall (λ b, locks_ok b = true) (m_memory_block_tree m)
}.

(** The properties of the page that holds an address, as [FindBlock] reports
    them. *)
Definition pages (m : KMemoryBlockManager) (a : Z) : option PageProps :=
  props <$> KMemoryBlockManager_FindBlock m a.

Lemma pages_Some m st nd a p :
  tiles st (m_memory_block_tree m) nd →
  pages m a = Some p ↔ ∃ b, at_addr (m_memory_block_tree m) a b ∧ props b = p.
Proof.
  intros Ht. unfold pages. rewrite fmap_Some.
  split; intros (b & Hb & Hp); exists b; (split; [by eapply FindBlock_spec|done]).
Qed.

Lemma pages_None m st nd a :
  tiles st (m_memory_block_tree m) nd → pages m a = None ↔ ¬ st ≤ a < nd.
Proof.
  intros Ht. unfold pages. rewrite fmap_None. split.
  - intros Hn Ha. destruct (tiles_split _ _ _ _ Ht Ha) as (l1 & b & l2 & E & Hb & _).
    assert (KMemoryBlockManager_FindBlock m a = Some b); [|congruence].
    eapply FindBlock_spec; [done|]. split; [rewrite E; set_solver|done].
  - intros Ha. destruct (KMemoryBlockManager_FindBlock m a) as [b|] eqn:E; [|done].
    apply (FindBlock_spec _ _ _ _ _ Ht) in E as [Hin Hb]. apply tiles_bounds in Ht.
    rewrite Forall_forall in Ht. destruct (Ht b Hin) as (_ & ? & ?). lia.
Qed.

(** [m'] has the pages of [m], with [g] applied inside [lo, hi). *)
Record range_updated (lo hi : Z) (g : PageProps → PageProps) (m m' : KMemoryBlockManager)
    : Prop := {
  ru_start : m_start_address m' = m_start_address m;
  ru_end : m_end_address m' = m_end_address m;
  ru_pages x : pages m' x = if decide (lo ≤ x < hi) then g <$> pages m x else pages m x
}.

(** Blocks that start outside of [lo, hi] still start where they did. *)
Definition bounds_kept (lo hi : Z) (m m' : KMemoryBlockManager) : Prop :=
  ∀ b, b ∈ m_memory_block_tree m → m_address b < lo ∨ hi < m_address b →
    ∃ c, c ∈ m_memory_block_tree m' ∧ m_address c = m_address b.

Lemma wf_CheckState m : mgr_wf m → KMemoryBlockManager_CheckState m = Done true true.
Proof.
  intros [Hs He Ht Ha Hl]. unfold KMemoryBlockManager_CheckState.
  destruct (m_memory_block_tree m) as [|b l]; [simpl in Ht; lia|]. unfold mret, prog_ret. f_equal.
  clear Hs. revert b Ha Hl Ht. generalize (m_start_address m) as st. intros st b Ha Hl Ht.
  revert b Ha Hl st Ht.
  induction l as [|c l IH]; intros b Ha Hl st Ht; simpl.
  - by apply Forall_cons in Hl as [? _].
  - destruct Ha as [Hbc Ha], Ht as (_ & Hf & Ht). apply Forall_cons in Hl as [_ Hl].
    rewrite (Hbc c eq_refl), fits_end by done. pose proof Ht as (-> & _).
    rewrite Z.eqb_refl. simpl. rewrite (Forall_inv Hl). eauto.
Qed.
