(* ===== verification/MemoryBlockManagerUpdate.v ===== *)
(** * The update walk of KMemoryBlockManager as a list function

    [update_loop] is shown to replace every block of the range that needs the
    change by its pieces ([upd]), and [update_range] to keep the manager
    well-formed and to change exactly the pages of the range. *)

From S2P Require Import Prelude Common MemoryBlock OrderedTree MemoryBlockManager MemoryBlockManagerLemmas.

Section Update.
Context {S : Type} `{SlabLaws S}.

(** The range [lo, hi), the condition and the change of one of the four
    operations; [pre] is what the change asserts of a block, [f] the block it
    makes, [g] its effect on the properties of a page. *)
Context (lo hi : Z).
Context (needs : KMemoryBlock → bool) (apply : KMemoryBlock → prog KMemoryBlock).
Context (pre : KMemoryBlock → Prop) (f : KMemoryBlock → KMemoryBlock)
        (g : PageProps → PageProps).

Class Applies : Prop := {
  ap_run b : needs b = true → pre b → apply b = Done true (f b);
  ap_address b : m_address (f b) = m_address b;
  ap_pages b : m_num_pages (f b) = m_num_pages b;
  ap_left b : fits b → m_address b < hi < bend b → needs b = true → pre b →
    needs (left_part b hi) = true ∧ pre (left_part b hi);
  ap_right b : fits b → m_address b < lo < bend b → needs b = true → pre b →
    needs (right_part b lo) = true ∧ pre (right_part b lo);
  ap_props b : needs b = true → pre b → props (f b) = g (props b);
  ap_same b : needs b = false → g (props b) = props b
}.

Definition overlaps (b : KMemoryBlock) : Prop := m_address b < hi ∧ lo < bend b.
#[local] Instance overlaps_dec b : Decision (overlaps b) := _.

(** The part of [b] inside the range. *)
Definition from_lo (b : KMemoryBlock) : KMemoryBlock :=
  if m_address b <? lo then right_part b lo else b.
Definition upto_hi (b : KMemoryBlock) : KMemoryBlock :=
  if hi <? bend b then left_part b hi else b.

Definition before (b : KMemoryBlock) : list KMemoryBlock :=
  if m_address b <? lo then [left_part b lo] else [].
Definition after (b : KMemoryBlock) : list KMemoryBlock :=
  if hi <? bend b then [right_part (from_lo b) hi] else [].

Definition upd (b : KMemoryBlock) : list KMemoryBlock :=
  if decide (overlaps b) then
    if needs b then before b ++ f (upto_hi (from_lo b)) :: after b else [b]
  else [b].

(** The splits the walk may need: one per end of the range that is inside a
    block. *)
Definition cuts (b : KMemoryBlock) : nat :=
  (if decide (m_address b < lo < bend b) then 1 else 0) +
  (if decide (m_address b < hi < bend b) then 1 else 0).

Context `{!Applies}.
Hypothesis (Hlohi : lo < hi) (Hlo : lo mod PageSize = 0) (Hhi : hi mod PageSize = 0).

Lemma from_lo_spec b :
  fits b → overlaps b →
  fits (from_lo b) ∧ m_address (from_lo b) = Z.max lo (m_address b) ∧
  bend (from_lo b) = bend b ∧ props (from_lo b) = props b.
Proof.
  intros Hf [? ?]. unfold from_lo. destruct (_ <? _) eqn:E; bool_prop.
  - destruct (splittable_right b lo Hf) as (-> & -> & ?); [done|].
    split_and!; [done|lia|done..].
  - split_and!; [done|lia|done..].
Qed.

Lemma upto_hi_spec b :
  fits b → m_address b < hi →
  fits (upto_hi b) ∧ m_address (upto_hi b) = m_address b ∧
  bend (upto_hi b) = Z.min hi (bend b) ∧ props (upto_hi b) = props b.
Proof.
  intros Hf ?. unfold upto_hi. destruct (_ <? _) eqn:E; bool_prop.
  - destruct (splittable_left b hi Hf) as (-> & -> & ?); [done|].
    split_and!; [done..|lia|done].
  - split_and!; [done..|lia|done].
Qed.

Lemma f_bend b : bend (f b) = bend b.
Proof. unfold bend. by rewrite ap_address, ap_pages. Qed.
Lemma f_fits b : fits b → fits (f b).
Proof. unfold fits. by rewrite f_bend, ap_address, ap_pages. Qed.

(** The middle piece. *)
Lemma upd_mid b :
  fits b → overlaps b →
  let c := f (upto_hi (from_lo b)) in
  fits c ∧ m_address c = Z.max lo (m_address b) ∧ bend c = Z.min hi (bend b).
Proof.
  intros Hf Ho. destruct (from_lo_spec b Hf Ho) as (Hf1 & Ea & Eb & _).
  destruct Ho as [Ho1 Ho2]. destruct (upto_hi_spec _ Hf1) as (Hf2 & Ea2 & Eb2 & _); [lia|].
  cbv zeta. rewrite ap_address, f_bend, Ea2, Eb2, Ea, Eb. auto using f_fits.
Qed.

(** The condition and the precondition survive the splits. *)
Lemma mid_needs b :
  fits b → overlaps b → needs b = true → pre b →
  needs (upto_hi (from_lo b)) = true ∧ pre (upto_hi (from_lo b)).
Proof.
  intros Hf Ho Hn Hp. destruct (from_lo_spec b Hf Ho) as (Hf1 & Ea1 & Eb1 & _).
  destruct Ho as [Ho1 Ho2].
  assert (needs (from_lo b) = true ∧ pre (from_lo b)) as [Hn1 Hp1].
  { unfold from_lo. destruct (_ <? _) eqn:E; bool_prop; [|done]. by apply ap_right. }
  unfold upto_hi. destruct (_ <? _) eqn:E; bool_prop; [|done]. apply ap_left; [done| |done..].
  rewrite Ea1, Eb1 in *. lia.
Qed.

Lemma upd_tiles b : fits b → tiles (m_address b) (upd b) (bend b).
Proof.
  intros Hf. unfold upd. destruct (decide _) as [Ho|]; [|by simpl].
  destruct (needs b); [|by simpl].
  destruct (from_lo_spec b Hf Ho) as (Hf1 & Ea1 & Eb1 & _).
  destruct (upd_mid b Hf Ho) as (Hm & Ea & Eb). destruct Ho as [Ho1 Ho2].
  unfold before, after. destruct (_ <? lo) eqn:E1, (hi <? bend b) eqn:E2; bool_prop; cbn [app tiles];
    rewrite ?Ea, ?Eb.
  - destruct (splittable_left b lo Hf) as (-> & -> & ?); [done|].
    destruct (splittable_right (from_lo b) hi Hf1) as (-> & -> & ?);
      [unfold splittable; rewrite Ea1, Eb1; split; [lia|done]|].
    split_and!; done || lia.
  - destruct (splittable_left b lo Hf) as (-> & -> & ?); [done|]. split_and!; done || lia.
  - destruct (splittable_right (from_lo b) hi Hf1) as (-> & -> & ?);
      [unfold splittable; rewrite Ea1, Eb1; split; [lia|done]|].
    split_and!; done || lia.
  - split_and!; done || lia.
Qed.

Lemma upd_list_tiles st l nd : tiles st l nd → tiles st (l ≫= upd) nd.
Proof.
  revert st. induction l as [|b l IH]; intros st; [done|]. intros (<- & Hf & Ht). csimpl.
  apply tiles_app. eexists. split; [by apply upd_tiles|auto].
Qed.

(** The first and the last piece meet their neighbours outside of the range as
    the block did. *)
Lemma upd_head b x :
  fits b → head (upd b) = Some x →
  m_address x = m_address b ∧
  (lo ≤ m_address b ≤ hi ∨ ∀ q, KMemoryBlock_CanMergeWith q x = KMemoryBlock_CanMergeWith q b).
Proof.
  intros Hf. unfold upd. destruct (decide _) as [Ho|]; [|intros [= <-]; auto].
  destruct (needs b); [|intros [= <-]; auto].
  destruct (upd_mid b Hf Ho) as (_ & Ea & _). destruct Ho as [Ho1 Ho2].
  unfold before. destruct (_ <? lo) eqn:E; bool_prop; intros [= <-].
  - split; [done|]. right. intros q. apply CanMerge_left_part.
  - split; [lia|]. left. lia.
Qed.

Lemma upd_last b y :
  fits b → last (upd b) = Some y →
  lo ≤ bend b ≤ hi ∨ ∀ q, KMemoryBlock_CanMergeWith y q = KMemoryBlock_CanMergeWith b q.
Proof.
  intros Hf. unfold upd. destruct (decide _) as [Ho|]; [|intros [= <-]; auto].
  destruct (needs b); [|intros [= <-]; auto]. destruct Ho as [Ho1 Ho2].
  unfold after. destruct (hi <? bend b) eqn:E; bool_prop; [|intros; left; lia].
  rewrite last_app. simpl. intros [= <-]. right. intros q. rewrite CanMerge_right_part.
  unfold from_lo. destruct (_ <? lo); [apply CanMerge_right_part|done].
Qed.

Lemma upd_inner b : fits b → adj (λ c d, lo ≤ m_address d ≤ hi ∨ unmergeable c d) (upd b).
Proof.
  intros Hf. unfold upd. destruct (decide _) as [Ho|]; [|by simpl].
  destruct (needs b); [|by simpl].
  destruct (upd_mid b Hf Ho) as (_ & Ea & _). destruct Ho as [Ho1 Ho2].
  unfold before, after. destruct (_ <? lo) eqn:E1, (hi <? bend b) eqn:E2; bool_prop;
    cbn [app adj head]; split_and!; try done; intros y [= <-]; left; try (rewrite Ea; lia);
    simpl; lia.
Qed.

Lemma upd_list_adj st l nd :
  tiles st l nd → adj unmergeable l →
  adj (λ c d, lo ≤ m_address d ≤ hi ∨ unmergeable c d) (l ≫= upd).
Proof.
  intros Ht Hl. pose proof (tiles_bounds _ _ _ Ht) as Hb. rewrite Forall_forall in Hb.
  eapply (adj_bind _ (λ b c, unmergeable b c ∧ m_address c = bend b)).
  - intros b Hin. destruct (Hb b Hin) as [Hf _]. split; [by apply upd_inner|].
    intros E. pose proof (upd_tiles b Hf) as Hu. rewrite E in Hu. simpl in Hu.
    pose proof (fits_lt b Hf). lia.
  - intros b c x y [Hm Hc] Hinb Hinc Hx Hy.
    destruct (Hb b Hinb) as [Hfb _], (Hb c Hinc) as [Hfc _].
    destruct (upd_head c y Hfc Hy) as [-> [?|Hy']]; [by left|].
    destruct (upd_last b x Hfb Hx) as [?|Hx']; [left; lia|].
    right. unfold unmergeable. by rewrite Hy', Hx'.
  - apply adj_and; [done|by eapply tiles_adj].
Qed.

(** What the pages of a block become. *)
Lemma upd_props b a c :
  fits b → (overlaps b → needs b = true → pre b) → at_addr (upd b) a c →
  m_address b ≤ a < bend b ∧
  props c = if decide (lo ≤ a < hi) then g (props b) else props b.
Proof.
  intros Hf Hpre. unfold upd. destruct (decide _) as [Ho|Ho].
  - destruct (needs b) eqn:Hn.
    + destruct (upd_mid b Hf Ho) as (_ & Ea & Eb).
      destruct (from_lo_spec b Hf Ho) as (Hf1 & Ea1 & Eb1 & Ep1).
      assert (Ep : props (f (upto_hi (from_lo b))) = g (props b)).
      { destruct (mid_needs b Hf Ho Hn (Hpre Ho eq_refl)) as [Hn2 Hp2]. rewrite ap_props by done.
        destruct Ho as [Ho1 Ho2]. destruct (upto_hi_spec _ Hf1) as (_ & _ & _ & ->); [lia|].
        by rewrite Ep1. }
      destruct Ho as [Ho1 Ho2]. rewrite at_addr_app, at_addr_cons.
      unfold before, after. intros [Hc|[[-> Hc]|Hc]].
      * destruct (_ <? lo) eqn:E1; bool_prop; [|by apply at_addr_nil in Hc].
        destruct (splittable_left b lo Hf) as (Ea' & Eb' & _); [done|].
        apply at_addr_cons in Hc as [[-> Hc]|Hc]; [|by apply at_addr_nil in Hc].
        rewrite Ea', Eb' in Hc. rewrite decide_False by lia. split; [lia|done].
      * rewrite Ea, Eb in Hc. rewrite decide_True by lia. split; [lia|done].
      * destruct (hi <? bend b) eqn:E2; bool_prop; [|by apply at_addr_nil in Hc].
        destruct (splittable_right (from_lo b) hi Hf1) as (Ea' & Eb' & _);
          [unfold splittable; rewrite Ea1, Eb1; split; [lia|done]|].
        apply at_addr_cons in Hc as [[-> Hc]|Hc]; [|by apply at_addr_nil in Hc].
        rewrite Ea', Eb', Eb1 in Hc. rewrite decide_False by lia.
        split; [lia|]. by rewrite props_right.
    + intros [[-> Hc]|Hc%at_addr_nil]%at_addr_cons; [|done].
      split; [done|]. rewrite ap_same by done. by case_decide.
  - intros [[-> Hc]|Hc%at_addr_nil]%at_addr_cons; [|done]. split; [done|].
    rewrite decide_False; [done|]. unfold overlaps in Ho. lia.
Qed.

Lemma upd_list_props st l nd a c :
  tiles st l nd → (∀ b, b ∈ l → overlaps b → needs b = true → pre b) →
  at_addr (l ≫= upd) a c →
  ∃ b, at_addr l a b ∧ props c = if decide (lo ≤ a < hi) then g (props b) else props b.
Proof.
  intros Ht%tiles_bounds Hpre [Hin Ha]. rewrite Forall_forall in Ht.
  apply list_elem_of_bind in Hin as (b & Hc & Hb). destruct (Ht b Hb) as [Hf _].
  destruct (upd_props b a c Hf (Hpre b Hb)) as [? ?]; [done|]. exists b. done.
Qed.

(** ** The loop computes [upd] *)
Lemma tree_insert_block st l1 x c l2 :
  tiles st l1 (m_address x) → fits c → m_address x < m_address c →
  tree_insert (KMemoryBlock_Compare x) x (l1 ++ c :: l2)
  = Done true (l1 ++ x :: c :: l2, length l1).
Proof.
  intros Ht Hc Hlt. apply tree_insert_app.
  - eapply Forall_weaken; [by apply tiles_bounds|]. intros d (Hd & ? & ?).
    by apply Compare_spec.
  - intros ? ? [= <- <-]. by apply Compare_spec.
Qed.

Lemma insert_middle (l1 l2 : list KMemoryBlock) b c :
  <[length l1 := c]> (l1 ++ b :: l2) = l1 ++ c :: l2.
Proof. by rewrite insert_app_r_alt, Nat.sub_diag. Qed.

Lemma lookup_middle (l1 l2 : list KMemoryBlock) b : (l1 ++ b :: l2) !! length l1 = Some b.
Proof. by apply list_lookup_middle. Qed.

(** The splits at the end of the range. *)
Definition nhi (b : KMemoryBlock) : nat := if hi <? bend b then 1%nat else 0%nat.

Lemma cut_hi_run st l1 b l2 n (s : S) cur :
  tiles st l1 (m_address b) → fits b → m_address b = cur → cur < hi →
  (nhi b ≤ n ≤ 2)%nat →
  (if hi - cur <? KMemoryBlock_GetSize b then
     a ← UpdateAllocator_Allocate (alloc n s);
     '(new_block, b') ← KMemoryBlock_Split b (u64 (cur + (hi - cur)));
     '(t, it) ← tree_insert (KMemoryBlock_Compare new_block) new_block
                  (<[length l1 := b']> (l1 ++ b :: l2));
     mret (a, t, it, cur)
   else mret (alloc n s, l1 ++ b :: l2, length l1, cur))
  = Done true (alloc (n - nhi b) s,
      l1 ++ upto_hi b :: (if hi <? bend b then [right_part b hi] else []) ++ l2,
      length l1, cur).
Proof.
  intros Ht Hf <- Hlt Hn. rewrite fits_size by done. unfold upto_hi, nhi in *.
  replace (hi - m_address b <? m_num_pages b * PageSize) with (hi <? bend b)
    by (unfold bend; lia).
  destruct (hi <? bend b) eqn:E; bool_prop.
  - destruct n as [|n]; [lia|]. rewrite alloc_Allocate by lia. pstep.
    assert (splittable b hi) as Hs by done.
    replace (m_address b + (hi - m_address b)) with hi by lia.
    rewrite (u64_id hi) by (unfold is_u64; destruct Hf as (? & ? & ? & _); lia).
    rewrite Split_run by done. pstep.
    destruct (splittable_left b hi Hf Hs) as (Ea & Eb & Hl).
    destruct (splittable_right b hi Hf Hs) as (Ea' & Eb' & Hr).
    rewrite insert_middle, (tree_insert_block st);
      [pstep; replace (Datatypes.S n - 1)%nat with n by lia; done|by rewrite Ea|done|].
    rewrite Ea, Ea'. lia.
  - rewrite Nat.sub_0_r. done.
Qed.

Lemma split_for_update_run st l1 b l2 n (s : S) :
  tiles st l1 (m_address b) → fits b → overlaps b → 0 ≤ lo → (cuts b ≤ n ≤ 2)%nat →
  split_for_update (alloc n s) (l1 ++ b :: l2) (length l1)
    (Z.max lo (m_address b)) (hi - Z.max lo (m_address b))
  = Done true (alloc (n - cuts b) s,
      (l1 ++ before b) ++ upto_hi (from_lo b) :: after b ++ l2,
      length (l1 ++ before b), Z.max lo (m_address b)).
Proof.
  intros Ht Hf Ho Hpos Hn. unfold split_for_update. rewrite lookup_middle. pstep.
  destruct (from_lo_spec b Hf Ho) as (Hf1 & Ea1 & Eb1 & _).
  destruct Ho as [Ho1 Ho2].
  assert (Ehi : (if decide (m_address b < hi < bend b) then 1%nat else 0%nat) = nhi b).
  { clear Hn. unfold nhi. destruct (hi <? bend b) eqn:?; bool_prop; case_decide; lia. }
  unfold cuts in *. unfold before, after, from_lo in *.
  rewrite Ehi in *. destruct (m_address b <? lo) eqn:E; bool_prop.
  - rewrite decide_True in * by lia. rewrite Z.max_l in * by lia.
    rewrite (proj2 (Z.eqb_neq _ _)) by lia. cbn [negb].
    destruct n as [|n]; [lia|]. rewrite alloc_Allocate by lia. pstep.
    assert (splittable b lo) as Hs by done. rewrite Split_run by done. pstep.
    destruct (splittable_left b lo Hf Hs) as (Ea & Eb & Hl).
    rewrite insert_middle, (tree_insert_block st); [|by rewrite Ea|done|rewrite Ea, Ea1; lia].
    pstep. unfold tree_next. rewrite decide_True by (rewrite length_app; simpl; lia). pstep.
    replace (l1 ++ left_part b lo :: right_part b lo :: l2)
      with ((l1 ++ [left_part b lo]) ++ right_part b lo :: l2) by by rewrite <- app_assoc.
    replace (Datatypes.S (length l1)) with (length (l1 ++ [left_part b lo]))
      by (rewrite length_app; simpl; lia).
    rewrite lookup_middle. pstep. rewrite lookup_middle. pstep. rewrite Ea1.
    erewrite (cut_hi_run st); [|rewrite Ea1; apply tiles_app; eexists; split; [done|]|done|done|lia|].
    + unfold nhi. rewrite Eb1. fold (nhi b). replace (Datatypes.S n - _)%nat with (n - nhi b)%nat by lia.
      done.
    + simpl tiles. rewrite <- Ea at 1. done.
    + unfold nhi in *. rewrite Eb1. lia.
  - rewrite decide_False in * by lia. rewrite Z.max_r in * by lia.
    rewrite Z.eqb_refl. cbn [negb]. pstep. rewrite lookup_middle. pstep.
    rewrite (cut_hi_run st) by done || lia. rewrite app_nil_r. done.
Qed.

Lemma upd_beyond st l nd : hi ≤ st → tiles st l nd → l ≫= upd = l.
Proof.
  revert st. induction l as [|b l IH]; intros st Hst; [done|]. intros (<- & Hf & Ht).
  pose proof (fits_lt b Hf). csimpl. rewrite (IH (bend b)) by done || lia.
  unfold upd. rewrite decide_False; [done|]. unfold overlaps. lia.
Qed.

Lemma update_loop_0 fuel (a : UpdateAllocator S) t it cur :
  update_loop fuel needs apply a t it cur 0 = Done true (a, t).
Proof. by destruct fuel. Qed.

Definition list_cuts (l : list KMemoryBlock) : nat := sum_list_with cuts l.

(** What is left of the loop after the block [b]: [aft] is the piece of [b]
    behind the range. *)
Definition loop_from (fuel : nat) (b : KMemoryBlock) (l : list KMemoryBlock) (nd : Z) : Prop :=
  ∀ st n (s : S) l1 aft rem,
    tiles st l1 (Z.min hi (bend b)) → (bend b < hi → aft = []) →
    rem * PageSize = hi - Z.min hi (bend b) → (list_cuts l ≤ n ≤ 2)%nat →
    ∃ n', update_loop fuel needs apply (alloc n s) (l1 ++ aft ++ l) (length l1)
            (Z.min hi (bend b)) rem = Done true (alloc n' s, l1 ++ aft ++ (l ≫= upd)) ∧
      (n' ≤ 2)%nat ∧ (n' + length (l ≫= upd) = n + length l)%nat.

Lemma rem_pages x rem : rem * PageSize = hi - x → rem = (hi - x) / PageSize.
Proof. intros <-. rewrite Z.div_mul; [done|]. rewrite PageSize_eq. lia. Qed.

Lemma fits_pages b : fits b → bend b - m_address b = m_num_pages b * PageSize.
Proof. unfold bend. lia. Qed.

Lemma length_upd b :
  overlaps b → needs b = true → length (upd b) = Datatypes.S (cuts b).
Proof.
  intros Ho Hn. unfold upd. rewrite decide_True, Hn by done. rewrite length_app.
  destruct Ho as [Ho1 Ho2]. unfold before, after, cuts.
  destruct (_ <? lo) eqn:E1, (hi <? bend b) eqn:E2; bool_prop; repeat case_decide; simpl; lia.
Qed.

Lemma update_loop_apply st fuel l1 b l nd n (s : S) rem :
  tiles st l1 (m_address b) → fits b → tiles (bend b) l nd → overlaps b → 0 ≤ lo → hi < 2 ^ 64 →
  needs b = true → pre b → rem * PageSize = hi - Z.max lo (m_address b) →
  (list_cuts (b :: l) ≤ n ≤ 2)%nat → loop_from fuel b l nd →
  ∃ n', update_loop (Datatypes.S fuel) needs apply (alloc n s) (l1 ++ b :: l) (length l1)
          (Z.max lo (m_address b)) rem = Done true (alloc n' s, l1 ++ ((b :: l) ≫= upd)) ∧
    (n' ≤ 2)%nat ∧ (n' + length ((b :: l) ≫= upd) = n + Datatypes.S (length l))%nat.
Proof.
  intros Ht1 Hf Ht Ho Hpos H64 Hnb Hpre Hrem Hn Hrest. pose proof Ho as [Ho1 Ho2].
  pose proof (fits_lt b Hf). cbn [update_loop].
  rewrite (proj2 (Z.eqb_neq rem 0)) by (rewrite PageSize_eq in Hrem; lia).
  rewrite lookup_middle. pstep. rewrite Hrem, (u64_id (hi - _)) by (unfold is_u64; lia).
  unfold list_cuts in Hn. csimpl in Hn. fold (list_cuts l) in Hn.
  csimpl. rewrite length_app. rewrite Hnb.
  rewrite (split_for_update_run st) by done || lia. pstep. rewrite lookup_middle. pstep.
  destruct (mid_needs b Hf Ho Hnb Hpre) as [Hn2 Hp2].
  destruct (from_lo_spec b Hf Ho) as (Hf1 & Ea1 & Eb1 & _).
  destruct (upto_hi_spec (from_lo b) Hf1) as (Hf2 & Ea2 & Eb2 & _); [lia|].
  rewrite ap_run by done. pstep. rewrite fits_info_pages by done.
  cbn [info_size KMemoryBlock_GetMemoryInfo]. rewrite fits_size by done.
  pose proof (fits_pages _ Hf2) as Hpg. rewrite Ea2, Eb2, Ea1, Eb1 in Hpg.
  rewrite insert_middle. unfold tree_next.
  rewrite decide_True by (rewrite !length_app; simpl; lia). pstep.
  destruct (upd_mid b Hf Ho) as (Hfm & Eam & Ebm).
  set (mid := upto_hi (from_lo b)) in *.
  replace (u64 (Z.max lo (m_address b) + m_num_pages mid * PageSize))
    with (Z.min hi (bend b)) by (rewrite <- Hpg; u_simpl; lia).
  replace (Datatypes.S (length (l1 ++ before b))) with (length ((l1 ++ before b) ++ [f mid]))
    by (rewrite !length_app; simpl; lia).
  replace ((l1 ++ before b) ++ f mid :: after b ++ l)
    with (((l1 ++ before b) ++ [f mid]) ++ after b ++ l) by by rewrite <- !app_assoc.
  edestruct (Hrest st (n - cuts b)%nat s ((l1 ++ before b) ++ [f mid]) (after b)
              (u64 (rem - m_num_pages mid))) as (n' & -> & Hn' & Hlen).
  + rewrite <- app_assoc. apply tiles_app. exists (m_address b). split; [done|].
    pose proof (upd_tiles b Hf) as Hu. unfold upd in Hu.
    rewrite decide_True, Hnb in Hu by done. fold mid in Hu.
    replace (before b ++ f mid :: after b) with ((before b ++ [f mid]) ++ after b) in Hu
      by by rewrite <- app_assoc.
    apply tiles_app in Hu as (x & Hu1 & _). apply tiles_app in Hu1 as (y & Hu1 & Hu2).
    apply tiles_app. exists y. split; [done|]. destruct Hu2 as (<- & _ & _).
    simpl. by rewrite Ebm.
  + intros Hlt. unfold after. by rewrite (proj2 (Z.ltb_ge _ _)) by lia.
  + rewrite PageSize_eq in *. u_simpl. lia.
  + lia.
  + exists n'. split_and!; [|done|].
    * do 2 f_equal. unfold upd. rewrite decide_True, Hnb by done.
      by rewrite <- !app_assoc.
    * rewrite length_upd by done. lia.
Qed.

Lemma update_loop_skip st fuel l1 b l nd n (s : S) rem :
  tiles st l1 (m_address b) → fits b → tiles (bend b) l nd → overlaps b → 0 ≤ lo → hi < 2 ^ 64 →
  needs b = false → rem * PageSize = hi - Z.max lo (m_address b) →
  (list_cuts (b :: l) ≤ n ≤ 2)%nat → loop_from fuel b l nd →
  ∃ n', update_loop (Datatypes.S fuel) needs apply (alloc n s) (l1 ++ b :: l) (length l1)
          (Z.max lo (m_address b)) rem = Done true (alloc n' s, l1 ++ ((b :: l) ≫= upd)) ∧
    (n' ≤ 2)%nat ∧ (n' + length ((b :: l) ≫= upd) = n + Datatypes.S (length l))%nat.
Proof.
  intros Ht1 Hf Ht Ho Hpos H64 Hnb Hrem Hn Hrest. pose proof Ho as [Ho1 Ho2].
  pose proof (fits_lt b Hf). cbn [update_loop].
  rewrite (proj2 (Z.eqb_neq rem 0)) by (rewrite PageSize_eq in Hrem; lia).
  rewrite lookup_middle. pstep. rewrite Hrem, (u64_id (hi - _)) by (unfold is_u64; lia).
  unfold list_cuts in Hn. csimpl in Hn. fold (list_cuts l) in Hn.
  csimpl. rewrite length_app. rewrite Hnb.
  assert (Hub : upd b = [b]) by (unfold upd; rewrite Hnb; by case_decide).
  rewrite fits_info_end by done. replace (Z.max lo (m_address b) + (hi - Z.max lo (m_address b))) with hi by lia.
  rewrite (u64_id hi) by (unfold is_u64; lia). rewrite Hub.
  assert (Hit : ∀ x : nat * Z * Z, tree_next (l1 ++ b :: l) (length l1) =
    Done true (length (l1 ++ [b]))).
  { intros _. unfold tree_next. rewrite decide_True by (rewrite length_app; simpl; lia).
    rewrite length_app. simpl. by rewrite Nat.add_1_r. }
  replace (l1 ++ b :: l) with ((l1 ++ [b]) ++ [] ++ l) in * by by rewrite <- !app_assoc.
  replace (l1 ++ [b] ++ (l ≫= upd)) with ((l1 ++ [b]) ++ [] ++ (l ≫= upd))
    by by rewrite <- !app_assoc.
  destruct (hi <? bend b) eqn:E; bool_prop; pstep; rewrite (Hit (0%nat, 0, 0)); pstep.
  + rewrite update_loop_0. exists n. rewrite (upd_beyond (bend b) l nd) by done || lia.
    split_and!; [done|lia|]. simpl. lia.
  + edestruct (Hrest st n s (l1 ++ [b]) [] (u64 (hi - bend b) / PageSize))
      as (n' & Hrun & Hn' & Hlen).
    * apply tiles_app. exists (m_address b). split; [done|]. simpl. split_and!; done || lia.
    * done.
    * rewrite Z.min_r by lia. rewrite u64_id by (unfold is_u64; lia).
      destruct (decide (bend b = hi)) as [->|]; [by rewrite Z.sub_diag|].
      apply page_quot; [|done|lia]. destruct Hf as (? & ? & ? & ?). by apply bend_aligned.
    * lia.
    * rewrite Z.min_r in Hrun by lia. rewrite Hrun. exists n'. split_and!; [done..|].
      simpl. lia.
Qed.

Lemma loop_from_holds nd l : ∀ fuel b,
  (length l ≤ fuel)%nat → hi ≤ nd → 0 ≤ lo < bend b → hi < 2 ^ 64 → tiles (bend b) l nd →
  (∀ c, c ∈ l → overlaps c → needs c = true → pre c) → loop_from fuel b l nd.
Proof.
  induction l as [|c l IH]; intros fuel b Hfuel Hnd Hb H64 Ht Hpre st n s l1 aft rem Ht1 Haft Hrem Hn.
  - simpl in Ht. replace rem with 0 by (rewrite PageSize_eq in Hrem; lia).
    rewrite update_loop_0. exists n. split_and!; [done|lia|done].
  - destruct (decide (hi ≤ bend b)).
    + replace rem with 0 by (rewrite PageSize_eq in Hrem; lia).
      rewrite update_loop_0, (upd_beyond (bend b) (c :: l) nd) by done.
      exists n. split_and!; [done|lia|done].
    + rewrite Haft by lia. rewrite Z.min_r in * by lia. destruct Ht as (Hc & Hf & Ht).
      pose proof (fits_lt c Hf). destruct fuel as [|fuel]; [simpl in Hfuel; lia|].
      assert (overlaps c) by (split; lia).
      replace (bend b) with (Z.max lo (m_address c)) in * by lia.
      assert (loop_from fuel c l nd).
      { apply IH; [simpl in Hfuel; lia|done|lia|done|done|]. intros. apply Hpre; [by right|done..]. }
      rewrite Z.max_r in Ht1 by lia. cbn [app].
      destruct (needs c) eqn:Hnc.
      * eapply (update_loop_apply st); eauto; [lia|]. by apply Hpre; [left|..].
      * eapply (update_loop_skip st); eauto. lia.
Qed.


Lemma upd_before st l x : x ≤ lo → tiles st l x → l ≫= upd = l.
Proof.
  intros Hx Ht%tiles_bounds. induction Ht as [|b l (Hf & ? & ?) _ IH]; [done|].
  csimpl. rewrite IH. unfold upd. rewrite decide_False; [done|]. unfold overlaps. lia.
Qed.

(** The walk over the whole list. *)
Lemma update_loop_run st l nd n (s : S) rem :
  tiles st l nd → 0 ≤ st ≤ lo → hi ≤ nd → nd < 2 ^ 64 → rem * PageSize = hi - lo →
  (∀ c, c ∈ l → overlaps c → needs c = true → pre c) → (list_cuts l ≤ n ≤ 2)%nat →
  ∃ n', update_loop (length l) needs apply (alloc n s) l
          (KMemoryBlockManager_FindIterator l lo) lo rem = Done true (alloc n' s, l ≫= upd) ∧
    (n' ≤ 2)%nat ∧ (n' + length (l ≫= upd) = n + length l)%nat.
Proof.
  intros Ht Hst Hnd H64 Hrem Hpre Hn.
  destruct (tiles_split st l nd lo Ht) as (l1 & b & l2 & -> & Hb & Ht1 & Hf & Ht2); [lia|].
  rewrite (FindIterator_app _ _ _ _ _ _ Ht Hb).
  assert (Ho : overlaps b) by (split; lia).
  replace (length (l1 ++ b :: l2)) with (Datatypes.S (length l1 + length l2))
    by (rewrite length_app; simpl; lia).
  assert (Hrest : loop_from (length l1 + length l2) b l2 nd).
  { apply loop_from_holds; [lia|done|lia|lia|done|].
    intros. apply Hpre; [set_solver|done..]. }
  rewrite bind_app, (upd_before st l1 (m_address b)), !length_app by done || lia.
  assert (Hn' : (list_cuts (b :: l2) ≤ n ≤ 2)%nat).
  { unfold list_cuts in *. rewrite sum_list_with_app in Hn. lia. }
  assert (Hmax : Z.max lo (m_address b) = lo) by lia. rewrite <- Hmax in Hrem.
  destruct (needs b) eqn:Hnb.
  - destruct (update_loop_apply st (length l1 + length l2) l1 b l2 nd n s rem)
      as (n' & Hrun & ? & Hlen); [done..|lia|lia|done| |done|done|done|].
    + apply Hpre; [set_solver|done..].
    + rewrite Hmax in Hrun. exists n'. split_and!; [exact Hrun|done|]. simpl in *. lia.
  - destruct (update_loop_skip st (length l1 + length l2) l1 b l2 nd n s rem)
      as (n' & Hrun & ? & Hlen); [done..|lia|lia|done|done|done|done|].
    rewrite Hmax in Hrun. exists n'. split_and!; [exact Hrun|done|]. simpl in *. lia.
Qed.

(** ** The coalescing pass *)

(** [t'] is [t] with some neighbours merged and none left to merge. *)
Record merged (st : Z) (t t' : list KMemoryBlock) (nd : Z) : Prop := {
  merged_tiles : tiles st t' nd;
  merged_adj : adj unmergeable t';
  merged_props x c : at_addr t' x c → ∃ b, at_addr t x b ∧ props c = props b;
  merged_anchored K c : anchored K → c ∈ t → K c →
    ∃ c', c' ∈ t' ∧ m_address c' = m_address c ∧ K c';
  merged_bounds c : c ∈ t → m_address c < lo ∨ hi < m_address c →
    ∃ c', c' ∈ t' ∧ m_address c' = m_address c
}.

Lemma coalesce_from st l1 q l2 nd :
  tiles st (l1 ++ q :: l2) nd → m_address q < lo ∨ l1 = [] →
  adj (λ c d, lo ≤ m_address d ≤ hi ∨ unmergeable c d) (l1 ++ q :: l2) →
  merged st (l1 ++ q :: l2) (l1 ++ co hi q l2) nd.
Proof.
  intros Ht Hq Hadj. pose proof Ht as (x & Ht1 & Htq & Hf & Ht2)%tiles_app. subst x.
  apply adj_app in Hadj as (Ha1 & Ha2 & Ha3). split.
  - apply tiles_app. exists (m_address q). split; [done|by apply co_tiles].
  - apply adj_app. split_and!.
    + destruct Hq as [Hq| ->]; [|done]. eapply adj_impl; [|exact Ha1].
      intros c d Hc Hd [?|?]; [|done]. apply tiles_bounds in Ht1.
      rewrite Forall_forall in Ht1. destruct (Ht1 d Hd) as (Hfd & ? & ?).
      pose proof (fits_lt d Hfd). lia.
    + eapply co_adj; [done..|]. eapply adj_impl; [|exact Ha2].
      intros c d _ _ [?|?] ?; [lia|done].
    + intros c d Hc Hd. destruct (co_head hi l2 q) as (p' & l' & E & Hp'). rewrite E in Hd.
      simpl in Hd. simplify_eq. unfold unmergeable. rewrite Hp'.
      destruct Hq as [Hq| ->]; [|done]. destruct (Ha3 c q Hc eq_refl); [lia|done].
  - intros x c [Hc|Hc]%at_addr_app.
    + exists c. rewrite at_addr_app. auto.
    + destruct (co_props hi nd l2 q x c Hf Ht2 Hc) as (b & Hb & ?).
      exists b. rewrite at_addr_app. auto.
  - intros K c HK [Hc|Hc]%elem_of_app HKc; [exists c; set_solver|].
    destruct (co_anchored K hi nd l2 HK q c Hf Ht2 Hc HKc) as (c' & ? & ? & ?).
    exists c'. set_solver.
  - intros c [Hc|Hc]%elem_of_app Hx; [exists c; set_solver|].
    assert (Hadj2 : adj (λ b c, m_address c < lo ∨ hi < m_address c → unmergeable b c) (q :: l2)).
    { eapply adj_impl; [|exact Ha2]. intros b d _ _ [?|?] ?; [lia|done]. }
    destruct (co_bounds (λ x, x < lo ∨ hi < x) hi nd l2 q c Hf Ht2 Hadj2 Hc) as (c' & ? & ?); [by right|].
    exists c'. set_solver.
Qed.

Lemma CoalesceForUpdate_run m (a : UpdateAllocator S) nd np :
  let st := m_start_address m in let t := m_memory_block_tree m in
  tiles st t nd → 0 ≤ st ≤ lo → hi ≤ nd → nd < 2 ^ 64 → np * PageSize = hi - lo →
  (∀ d, head t = Some d → lo = st ∨ bend d ≤ lo) → alloc_ok a →
  adj (λ c d, lo ≤ m_address d ≤ hi ∨ unmergeable c d) t →
  ∃ a' t', KMemoryBlockManager_CoalesceForUpdate m a lo np = Done true (a', set_tree t' m) ∧
    alloc_ok a' ∧ (blocks_left a' + length t' = blocks_left a + length t)%nat ∧
    merged st t t' nd.
Proof.
  intros st t Ht Hst Hnd H64 Hnp Hhead Ha Hadj. unfold KMemoryBlockManager_CoalesceForUpdate.
  fold t. fold st. rewrite Hnp. rewrite (u64_id (hi - lo)) by (unfold is_u64; lia).
  replace (lo + (hi - lo)) with hi by lia. rewrite (u64_id hi) by (unfold is_u64; lia).
  destruct (tiles_split st t nd lo Ht) as (l1 & c & l2 & E & Hc & Ht1 & Hf & Ht2); [lia|].
  rewrite E in *. rewrite (FindIterator_app _ _ _ _ _ _ Ht Hc).
  destruct (lo =? st) eqn:Elo; bool_prop; cbn [negb].
  - assert (l1 = []) as ->.
    { destruct l1 as [|d l1]; [done|]. apply tiles_bounds in Ht1.
      apply Forall_cons in Ht1 as [(Hd & ? & ?) _]. pose proof (fits_lt d Hd). lia. }
    pstep. destruct (coalesce_loop_run hi nd l2 (length ([] ++ c :: l2)) [] c a)
      as (a' & -> & Ha' & Hl); [simpl; lia|done..|].
    pstep. eexists a', _. split_and!; [done..|].
    apply (coalesce_from st [] c l2 nd); [done|by right|done].
  - destruct l1 as [|q l1 _] using rev_ind.
    { destruct (Hhead c eq_refl); [done|lia]. }
    replace (length (l1 ++ [q])) with (Datatypes.S (length l1))
      by (rewrite length_app; simpl; lia). unfold tree_prev.
    rewrite decide_True by (rewrite !length_app; simpl; lia). pstep.
    rewrite <- app_assoc in *. cbn [app] in *.
    apply tiles_app in Ht1 as (x & Ht1 & Htq & Hfq & Eq). simpl in Eq. subst x.
    destruct (coalesce_loop_run hi nd (c :: l2) (length (l1 ++ q :: c :: l2)) l1 q a)
      as (a' & -> & Ha' & Hl); [rewrite length_app; simpl; lia|done|done|by rewrite Eq|].
    pstep. eexists a', _. split_and!; [done..|rewrite !length_app; simpl in *; lia|].
    apply coalesce_from; [done| |done]. pose proof (fits_lt q Hfq). lia.
Qed.

(** ** The whole update *)
Hypothesis locks_kept : ∀ b, needs b = true → pre b → locks_ok b = true →
  props_locks_ok (g (props b)) = true.

Lemma update_range_pages st t t' nd x :
  tiles st t nd → (∀ c, c ∈ t → overlaps c → needs c = true → pre c) →
  merged st (t ≫= upd) t' nd →
  ∀ c, at_addr t' x c → ∃ b, at_addr t x b ∧
    props c = if decide (lo ≤ x < hi) then g (props b) else props b.
Proof.
  intros Ht Hpre [_ _ Hm _ _] c Hc. destruct (Hm x c Hc) as (b & Hb & ->).
  by eapply upd_list_props.
Qed.

Lemma update_range_wf m t' :
  mgr_wf m →
  (∀ c, c ∈ m_memory_block_tree m → overlaps c → needs c = true → pre c) →
  merged (m_start_address m) (m_memory_block_tree m ≫= upd) t' (m_end_address m) →
  mgr_wf (set_tree t' m) ∧ range_updated lo hi g m (set_tree t' m).
Proof.
  intros [Hs He Ht Ha Hl] Hpre Hm. 
  pose proof (λ x, update_range_pages _ _ _ _ x Ht Hpre Hm) as Hp'. destruct Hm as [Ht' Ha' _ _ _].
  split; split; simpl; try done.
  - apply Forall_forall. intros c Hc. pose proof (tiles_bounds _ _ _ Ht') as Hb.
    rewrite Forall_forall in Hb. destruct (Hb c Hc) as [Hf _]. pose proof (fits_lt c Hf).
    destruct (Hp' (m_address c) c) as (b & [Hb1 Hb2] & E); [split; [done|lia]|].
    rewrite Forall_forall in Hl. specialize (Hl b Hb1). rewrite locks_ok_props, E.
    case_decide as Hr; [|by rewrite <- locks_ok_props].
    destruct (needs b) eqn:Hn.
    + apply locks_kept; [done| |done]. apply Hpre; [done| |done]. split; lia.
    + by rewrite ap_same, <- locks_ok_props.
  - intros x. destruct (pages (set_tree t' m) x) as [p|] eqn:E.
    + apply (pages_Some _ (m_start_address m) (m_end_address m)) in E as (c & Hc & <-); [|done].
      destruct (Hp' x c Hc) as (b & Hb & ->).
      assert (pages m x = Some (props b)) as -> by (eapply pages_Some; eauto).
      by case_decide.
    + apply (pages_None _ (m_start_address m) (m_end_address m)) in E; [|done].
      assert (pages m x = None) as -> by (by eapply pages_None). by case_decide.
Qed.

(** The piece at the start of the range. *)
Lemma upd_anchor st t nd K :
  tiles st t nd → st ≤ lo < nd →
  (∀ c, c ∈ t → overlaps c → needs c = true ∧ pre c) →
  (∀ b, needs b = true → pre b → m_address b = lo → K (f b)) →
  ∃ c, c ∈ t ≫= upd ∧ m_address c = lo ∧ K c.
Proof.
  intros Ht Hin Hall HK. destruct (tiles_split st t nd lo Ht Hin)
    as (l1 & b & l2 & -> & Hb & Ht1 & Hf & Ht2).
  assert (Ho : overlaps b) by (split; lia). destruct (Hall b ltac:(set_solver) Ho) as [Hn Hp].
  destruct (mid_needs b Hf Ho Hn Hp) as [Hn' Hp'].
  destruct (from_lo_spec b Hf Ho) as (Hf1 & Ea1 & _).
  destruct (upto_hi_spec _ Hf1) as (_ & Ea2 & _); [lia|].
  exists (f (upto_hi (from_lo b))). split_and!.
  - apply list_elem_of_bind. exists b. split; [|set_solver].
    unfold upd. rewrite decide_True, Hn by done. set_solver.
  - rewrite ap_address, Ea2, Ea1. lia.
  - apply HK; [done|done|]. rewrite Ea2, Ea1. lia.
Qed.

Lemma upd_first d :
  fits d → overlaps d ∧ needs d = true ∨ ¬ m_address d < lo < bend d → m_address d ≤ lo →
  ∀ d', head (upd d) = Some d' → lo = m_address d ∨ bend d' ≤ lo.
Proof.
  intros Hf Hd Hle d'. unfold upd. destruct Hd as [[Ho Hn]|Hd].
  - rewrite decide_True, Hn by done. unfold before.
    destruct (_ <? lo) eqn:E; bool_prop; [|left; lia]. intros [= <-]. right.
    destruct Ho. destruct (splittable_left d lo Hf) as (_ & -> & _); [done|]. lia.
  - destruct (decide (lo = m_address d)); [by left|]. rewrite decide_False.
    + intros [= <-]. right. lia.
    + intros [? ?]. lia.
Qed.

Lemma update_range_run m n (s : S) np :
  mgr_wf m → m_start_address m ≤ lo → hi ≤ m_end_address m → np * PageSize = hi - lo →
  (∀ c, c ∈ m_memory_block_tree m → overlaps c → needs c = true → pre c) →
  (∀ d, head (m_memory_block_tree m) = Some d → m_address d < lo < bend d → needs d = true) →
  (list_cuts (m_memory_block_tree m) ≤ n ≤ 2)%nat →
  wp (update_range needs apply m (alloc n s) lo np) (λ '(a', m'),
    mgr_wf m' ∧ range_updated lo hi g m m' ∧ alloc_ok a' ∧
    (blocks_left a' + length (m_memory_block_tree m') =
     n + slab_size s + length (m_memory_block_tree m))%nat ∧
    (∀ K, anchored K →
       (∀ c, c ∈ m_memory_block_tree m → overlaps c → needs c = true ∧ pre c) →
       (∀ b, needs b = true → pre b → m_address b = lo → K (f b)) →
       ∃ c, c ∈ m_memory_block_tree m' ∧ m_address c = lo ∧ K c) ∧
    bounds_kept lo hi m m').
Proof.
  intros Hwf Hlo' Hhi' Hnp Hpre Hfirst Hn. pose proof Hwf as [Hs He Ht Ha Hl].
  unfold update_range.
  destruct (update_loop_run (m_start_address m) (m_memory_block_tree m) (m_end_address m) n s np)
    as (n' & -> & Hn' & Hlen); [done|lia|done|done|done|done|done|]. pstep.
  assert (Hau : alloc_ok (alloc n' s)) by (by exists n', s).
  destruct (CoalesceForUpdate_run (set_tree (m_memory_block_tree m ≫= upd) m) (alloc n' s)
    (m_end_address m) np) as (a' & t' & -> & Ha' & Hbl & Hmg); simpl.
  - by apply upd_list_tiles.
  - lia.
  - done.
  - done.
  - done.
  - intros d' Hd'. destruct (m_memory_block_tree m) as [|d l]; [done|].
    destruct Ht as (Ed & Hf & Ht). csimpl in Hd'. rewrite <- Ed.
    apply (upd_first d Hf); [|lia|].
    + destruct (decide (m_address d < lo < bend d)); [left|by right].
      split; [split; lia|by apply Hfirst].
    + pose proof (upd_tiles d Hf) as Hu. pose proof (fits_lt d Hf).
      destruct (upd d); [simpl in Hu; lia|done].
  - done.
  - by eapply upd_list_adj.
  - destruct (update_range_wf m t' Hwf Hpre Hmg) as [Hwf' Hru].
    split_and!; [done|done|done| | |].
    + rewrite blocks_left_alloc in Hbl by done. simpl in *. lia.
    + intros K HK Hall HKf.
      destruct (upd_anchor _ _ _ K Ht ltac:(lia) Hall HKf) as (c & Hc & <- & HKc).
      by apply (merged_anchored _ _ _ _ Hmg).
    + intros b Hb Hx. pose proof (tiles_bounds _ _ _ Ht) as HB. rewrite Forall_forall in HB.
      destruct (HB b Hb) as (Hf & _). destruct (head (upd b)) as [c|] eqn:Ec.
      2:{ pose proof (upd_tiles b Hf) as Hu. pose proof (fits_lt b Hf). destruct (upd b); [simpl in Hu; lia|done]. }
      destruct (upd_head b c Hf Ec) as [Ea _]. rewrite <- Ea in Hx |- *.
      apply (merged_bounds _ _ _ _ Hmg); [|done]. apply list_elem_of_bind. exists b.
      split; [|done]. destruct (upd b); [done|]. simpl in Ec. injection Ec as ->. by left.
Qed.
End Update.

(** At most one block is cut at each end, so two preallocated blocks are always
    enough. *)
Lemma cut_at_most_once x st l nd :
  tiles st l nd →
  (sum_list_with (λ b, if decide (m_address b < x < bend b)%Z then 1 else 0) l
   ≤ if decide (st < x)%Z then 1 else 0)%nat.
Proof.
  revert st. induction l as [|b l IH]; intros st; [simpl; lia|]. intros (<- & Hf & Ht).
  specialize (IH _ Ht). pose proof (fits_lt b Hf). simpl. repeat case_decide; lia.
Qed.

(** The cuts at one address. *)
Definition cut_count (x : Z) (l : list KMemoryBlock) : nat :=
  sum_list_with (λ b, if decide (m_address b < x < bend b)%Z then 1%nat else 0%nat) l.

Lemma list_cuts_split lo hi l : list_cuts lo hi l = (cut_count lo l + cut_count hi l)%nat.
Proof.
  unfold list_cuts, cut_count. induction l as [|b l IH]; simpl; [done|]. rewrite IH. unfold cuts. lia.
Qed.

Lemma list_cuts_le lo hi st l nd : tiles st l nd → (list_cuts lo hi l ≤ 2)%nat.
Proof.
  intros Ht. pose proof (cut_at_most_once lo _ _ _ Ht). pose proof (cut_at_most_once hi _ _ _ Ht).
  rewrite list_cuts_split. unfold cut_count. repeat case_decide; lia.
Qed.

Lemma cut_count_0 x l : cut_count x l = 0%nat ↔ ∀ b, b ∈ l → ¬ m_address b < x < bend b.
Proof.
  unfold cut_count. induction l as [|b l IH]; simpl; [split; [intros _ b Hb; by apply elem_of_nil in Hb|done]|].
  case_decide as E.
  - split; [lia|]. intros Hb. destruct (Hb b); [by left|done].
  - rewrite Nat.add_0_l, IH. split; [|intros Hb c Hc; apply Hb; by right].
    intros Hb c [->|Hc]%elem_of_cons; [done|by apply Hb].
Qed.

Lemma uncut_bound x st l nd : tiles st l nd → st ≤ x < nd → cut_count x l = 0%nat →
  ∃ b, b ∈ l ∧ m_address b = x.
Proof.
  intros Ht Hx H0. destruct (tiles_split _ _ _ _ Ht Hx) as (l1 & b & l2 & E & Hb & _).
  exists b. assert (Hin : b ∈ l) by (rewrite E; set_solver). split; [done|].
  pose proof (proj1 (cut_count_0 x l) H0 b Hin). lia.
Qed.

Lemma bound_uncut x st l nd b : tiles st l nd → b ∈ l → m_address b = x → cut_count x l = 0%nat.
Proof.
  intros Ht Hb <-. apply cut_count_0. intros c Hc Hx.
  apply list_elem_of_split in Hb as (l1 & l2 & ->).
  apply tiles_app in Ht as (mid & Ht1 & (<- & Hf & Ht2)). pose proof (fits_lt b Hf).
  apply tiles_bounds in Ht1, Ht2. rewrite Forall_forall in Ht1, Ht2.
  apply elem_of_app in Hc as [Hc|[->|Hc]%elem_of_cons]; [|lia|].
  - destruct (Ht1 c Hc) as (_ & ? & ?). lia.
  - destruct (Ht2 c Hc) as (_ & ? & ?). lia.
Qed.

(** An update of another range does not make an end of a range fall inside a
    block: blocks that start outside of the other range stay, and two pages that
    differ are in two blocks. *)
Lemma cut_count_after lo hi m m' x : mgr_wf m → mgr_wf m' →
  m_start_address m' = m_start_address m → m_end_address m' = m_end_address m →
  bounds_kept lo hi m m' → x < lo ∨ hi < x ∨ pages m' (x - 1) ≠ pages m' x →
  (cut_count x (m_memory_block_tree m') ≤ cut_count x (m_memory_block_tree m))%nat.
Proof.
  intros Hm Hm' Es Ee Hk Hx. pose proof (wf_tiles _ Hm) as Ht. pose proof (wf_tiles _ Hm') as Ht'.
  destruct (decide (cut_count x (m_memory_block_tree m) = 0%nat)) as [E0|Hne].
  2:{ pose proof (cut_at_most_once x _ _ _ Ht') as Hc. unfold cut_count in *. case_decide; lia. }
  destruct (decide (m_start_address m ≤ x < m_end_address m)) as [Hr|Hr].
  - assert (cut_count x (m_memory_block_tree m') = 0%nat) as ->; [|lia].
    assert (Hout : x < lo ∨ hi < x → cut_count x (m_memory_block_tree m') = 0%nat).
    { intros Ho. destruct (uncut_bound _ _ _ _ Ht Hr E0) as (b & Hb & <-).
      destruct (Hk b Hb Ho) as (c & Hc & Ec). by eapply bound_uncut. }
    destruct Hx as [?|[?|Hne]]; [apply Hout; lia..|]. apply cut_count_0. intros b Hb Hbx. apply Hne.
    assert (Hp : ∀ y, m_address b ≤ y < bend b → pages m' y = Some (props b)).
    { intros y Hy. eapply pages_Some; [done|]. by exists b. }
    rewrite !Hp by lia. done.
  - assert (cut_count x (m_memory_block_tree m') = 0%nat) as ->; [|lia].
    apply cut_count_0. intros b Hb Hbx. apply tiles_bounds in Ht'. rewrite Forall_forall in Ht'.
    destruct (Ht' b Hb) as (_ & ? & ?). lia.
Qed.
