(* ===== verification/MemoryBlockManagerTheorems.v ===== *)
(** * Correctness of KMemoryBlockManager

    What every operation of the manager does to the pages, that it keeps the
    invariant [mgr_wf] and loses no block, and what the searches return. *)

From S2P Require Import Prelude Common MemoryBlock OrderedTree MemoryBlockManager MemoryBlockManagerLemmas MemoryBlockManagerUpdate.

(** The block a change leaves behind. *)
Definition outcome (m : prog KMemoryBlock) (b : KMemoryBlock) : KMemoryBlock :=
  match m with Done _ c => c | Stuck => b end.

Definition lock_mask : Z := Z.lor KMemoryAttribute_IpcLocked KMemoryAttribute_DeviceShared.

(** ** Update and UpdateIfMatch *)
Definition set_props (s p a : Z) (q : PageProps) : PageProps :=
  MkProps s p (pp_original_permission q) (Z.lor a (Z.land (pp_attribute q) lock_mask))
    (pp_ipc_lock_count q) (pp_device_use_count q).

(** What [KMemoryBlock::Update] asserts: the block is not locked for IPC. *)
Definition updatable (b : KMemoryBlock) : Prop :=
  m_original_permission b = KMemoryPermission_None ∧
  Z.land (m_attribute b) KMemoryAttribute_IpcLocked = 0.

Lemma HasProperties_same s p a b :
  Z.land a lock_mask = 0 → KMemoryBlock_HasProperties b s p a = true →
  set_props s p a (props b) = props b.
Proof.
  intros Ha Hb. unfold KMemoryBlock_HasProperties, AttributeIgnoreMask in Hb. bool_prop.
  unfold set_props, props. simpl. f_equal; try done.
  fold lock_mask in *. clear -Ha H0. bitwise.
Qed.

Lemma set_props_locks s p a q :
  Z.land a lock_mask = 0 → props_locks_ok q = true → props_locks_ok (set_props s p a q) = true.
Proof.
  intros Ha. unfold props_locks_ok, set_props. simpl.
  assert (E : ∀ k, Z.land k lock_mask = k →
    Z.land (Z.lor a (Z.land (pp_attribute q) lock_mask)) k = Z.land (pp_attribute q) k).
  { clear -Ha. intros k Hk. bitwise. }
  by rewrite !E.
Qed.

Section BlockUpdate.
Context (lo hi s p a dset dclear : Z) (Ha : Z.land a lock_mask = 0).

Lemma Update_run first b :
  updatable b → KMemoryBlock_Update s p a first dset dclear b =
    Done true (outcome (KMemoryBlock_Update s p a first dset dclear b) b).
Proof.
  intros [Ho Hi]. unfold KMemoryBlock_Update. rewrite Ho, Hi. done.
Qed.

Lemma Update_shape first b :
  let c := outcome (KMemoryBlock_Update s p a first dset dclear b) b in
  m_address c = m_address b ∧ m_num_pages c = m_num_pages b ∧
  props c = set_props s p a (props b).
Proof.
  unfold KMemoryBlock_Update. simpl.
  destruct (first && negb (dset =? 0)), (negb (dclear =? 0)); done.
Qed.

Lemma Update_applies :
  Applies lo hi (λ b, negb (KMemoryBlock_HasProperties b s p a))
    (λ b, KMemoryBlock_Update s p a (m_address b =? lo) dset dclear b) updatable
    (λ b, outcome (KMemoryBlock_Update s p a (m_address b =? lo) dset dclear b) b)
    (set_props s p a).
Proof.
  split; try done.
  - intros b _ Hb. by apply Update_run.
  - intros b. apply Update_shape.
  - intros b. apply Update_shape.
  - intros b _ _. apply Update_shape.
  - intros b Hb%negb_false_iff. by apply HasProperties_same.
Qed.

Lemma UpdateIfMatch_applies ts tp ta :
  Applies lo hi
    (λ b, KMemoryBlock_HasProperties b ts tp ta && negb (KMemoryBlock_HasProperties b s p a))
    (λ b, KMemoryBlock_Update s p a false dset dclear b) updatable
    (λ b, outcome (KMemoryBlock_Update s p a false dset dclear b) b)
    (λ q, if (pp_state q =? ts) && (pp_permission q =? tp) &&
             (Z.lor (pp_attribute q) lock_mask =? Z.lor ta lock_mask)
          then set_props s p a q else q).
Proof.
  split; try done.
  - intros b _ Hb. by apply Update_run.
  - intros b. apply Update_shape.
  - intros b. apply Update_shape.
  - intros b [Hb _]%andb_true_iff _. rewrite (proj2 (proj2 (Update_shape false b))).
    change (_ && _ && _) with (KMemoryBlock_HasProperties b ts tp ta). by rewrite Hb.
  - intros b Hb. change (_ && _ && _) with (KMemoryBlock_HasProperties b ts tp ta).
    destruct (KMemoryBlock_HasProperties b ts tp ta); [|done].
    apply HasProperties_same; [done|]. by apply negb_false_iff.
Qed.
End BlockUpdate.

(** ** UpdateAttribute *)
Definition set_attr (mask attr : Z) (q : PageProps) : PageProps :=
  MkProps (pp_state q) (pp_permission q) (pp_original_permission q)
    (Z.lor (Z.ldiff (pp_attribute q) mask) attr) (pp_ipc_lock_count q) (pp_device_use_count q).

Lemma UpdateAttribute_applies lo hi mask attr :
  Z.land mask lock_mask = 0 →
  Applies lo hi (λ b, negb (Z.land (m_attribute b) mask =? attr))
    (KMemoryBlock_UpdateAttribute mask attr) (λ _, True)
    (λ b, outcome (KMemoryBlock_UpdateAttribute mask attr b) b) (set_attr mask attr).
Proof.
  intros Hm. split; try done.
  - intros b _ _. unfold KMemoryBlock_UpdateAttribute.
    replace (Z.land mask KMemoryAttribute_IpcLocked) with 0; [|clear -Hm].
    + replace (Z.land mask KMemoryAttribute_DeviceShared) with 0; [done|].
      clear -Hm. assert (E : Z.land KMemoryAttribute_DeviceShared lock_mask =
        KMemoryAttribute_DeviceShared) by done. bitwise.
    + assert (E : Z.land KMemoryAttribute_IpcLocked lock_mask = KMemoryAttribute_IpcLocked)
        by done. bitwise.
  - intros b Hb%negb_false_iff%Z.eqb_eq. unfold set_attr, props. simpl. f_equal.
    rewrite <- Hb. clear. bitwise.
Qed.

(** ** UpdateLock: locking for IPC *)
Definition ipc_permission (new_perm old_perm : Z) : Z :=
  Z.lor (Z.land new_perm KMemoryPermission_IpcLockChangeMask)
        (Z.ldiff old_perm KMemoryPermission_IpcLockChangeMask).

Definition lock_props (new_perm : Z) (q : PageProps) : PageProps :=
  let first := pp_ipc_lock_count q =? 0 in
  MkProps (pp_state q)
    (if first then ipc_permission new_perm (pp_permission q) else pp_permission q)
    (if first then pp_permission q else pp_original_permission q)
    (Z.lor (pp_attribute q) KMemoryAttribute_IpcLocked)
    (pp_ipc_lock_count q + 1) (pp_device_use_count q).

(** The assertions of [LockForIpc] that do not depend on the caller: the first
    lock of a page takes away at most what the page had, and the counters have
    room. *)
Record ipc_lockable (new_perm : Z) (b : KMemoryBlock) : Prop := {
  il_count : 0 ≤ m_ipc_lock_count b < 2 ^ 16 - 1;
  il_merge : 0 ≤ m_ipc_disable_merge_count b < 2 ^ 16 - 1;
  il_locked : m_ipc_lock_count b ≠ 0 →
    Z.land (m_attribute b) KMemoryAttribute_IpcLocked = KMemoryAttribute_IpcLocked;
  il_original : m_ipc_lock_count b = 0 → m_original_permission b = KMemoryPermission_None;
  il_perm : m_ipc_lock_count b = 0 →
    flags [m_permission b; new_perm; KMemoryPermission_NotMapped] =
    flags [m_permission b; KMemoryPermission_NotMapped];
  il_exec : m_ipc_lock_count b = 0 →
    Z.land (m_permission b) KMemoryPermission_UserExecute = KMemoryPermission_UserExecute →
    new_perm = KMemoryPermission_UserRead
}.

Section LockForIpc.
Context (lo hi new_perm : Z).

Definition lock_at (b : KMemoryBlock) : prog KMemoryBlock :=
  KMemoryBlock_LockForIpc new_perm (m_address b =? lo) (KMemoryBlock_GetEndAddress b =? hi) b.

Lemma LockForIpc_run left right b :
  ipc_lockable new_perm b →
  ∃ c, KMemoryBlock_LockForIpc new_perm left right b = Done true c ∧
    m_address c = m_address b ∧ m_num_pages c = m_num_pages b ∧
    props c = lock_props new_perm (props b) ∧
    m_ipc_disable_merge_count c = m_ipc_disable_merge_count b + Z.b2z left ∧
    m_disable_merge_attribute c = Z.lor (m_disable_merge_attribute b)
      (if left then DisableMerge_IpcLeft else 0).
Proof.
  intros [Hc Hm Hl Ho Hp Hx]. unfold KMemoryBlock_LockForIpc.
  rewrite (u16_id (m_ipc_lock_count b + 1)) by (unfold is_u16; lia).
  replace ((_ =? KMemoryAttribute_IpcLocked) || (m_ipc_lock_count b =? 0)) with true.
  2:{ destruct (m_ipc_lock_count b =? 0) eqn:E; bool_prop; [by rewrite orb_true_r|].
      by rewrite Hl. }
  rewrite (proj2 (Z.ltb_lt 0 (m_ipc_lock_count b + 1))) by lia. unfold ASSERT. pstep.
  unfold lock_props, props; simpl pp_ipc_lock_count.
  destruct (m_ipc_lock_count b =? 0) eqn:E; bool_prop.
  - rewrite E. change (0 + 1 =? 1) with true. cbv iota. simpl m_original_permission.
    rewrite Ho by done. simpl m_permission. rewrite Hp by done. rewrite !Z.eqb_refl.
    replace (negb _ || _) with true.
    2:{ destruct (Z.land _ _ =? _) eqn:E'; bool_prop; [|done]. by rewrite Hx. }
    pstep. destruct left; pstep; simpl.
    + rewrite u16_id by (unfold is_u16; lia).
      rewrite (proj2 (Z.ltb_lt 0 (m_ipc_disable_merge_count b + 1))) by lia.
      eexists. split_and!; done.
    + eexists. split_and!; [done..| |]; simpl; [lia|]. by rewrite Z.lor_0_r.
  - rewrite (proj2 (Z.eqb_neq _ 1)) by lia. pstep. destruct left; pstep; simpl.
    + rewrite u16_id by (unfold is_u16; lia).
      rewrite (proj2 (Z.ltb_lt 0 (m_ipc_disable_merge_count b + 1))) by lia.
      eexists. split_and!; done.
    + eexists. split_and!; [done..| |]; simpl; [lia|]. by rewrite Z.lor_0_r.
Qed.

Lemma LockForIpc_shape left right b :
  let c := outcome (KMemoryBlock_LockForIpc new_perm left right b) b in
  m_address c = m_address b ∧ m_num_pages c = m_num_pages b.
Proof.
  unfold KMemoryBlock_LockForIpc. simpl.
  destruct (u16 (m_ipc_lock_count b + 1) =? 1), left; done.
Qed.

Lemma LockForIpc_applies :
  Applies lo hi (λ _, true) lock_at (ipc_lockable new_perm) (λ b, outcome (lock_at b) b)
    (lock_props new_perm).
Proof.
  split; try done.
  - intros b _ Hb. unfold lock_at.
    destruct (LockForIpc_run (m_address b =? lo) (KMemoryBlock_GetEndAddress b =? hi) b Hb)
      as (c & E & _). by rewrite E.
  - intros b. apply LockForIpc_shape.
  - intros b. apply LockForIpc_shape.
  - intros b _ _ _ [? ? ? ? ? ?]. done.
  - intros b _ _ _ [? ? ? ? ? ?]. by split.
  - intros b _ Hb. unfold lock_at.
    destruct (LockForIpc_run (m_address b =? lo) (KMemoryBlock_GetEndAddress b =? hi) b Hb)
      as (c & E & _ & _ & Hp & _). by rewrite E.
Qed.
End LockForIpc.

Definition unlock_props (q : PageProps) : PageProps :=
  let lastlock := pp_ipc_lock_count q =? 1 in
  MkProps (pp_state q)
    (if lastlock then pp_original_permission q else pp_permission q)
    (if lastlock then KMemoryPermission_None else pp_original_permission q)
    (if lastlock then Z.ldiff (pp_attribute q) KMemoryAttribute_IpcLocked else pp_attribute q)
    (pp_ipc_lock_count q - 1) (pp_device_use_count q).

(** What [UnlockForIpc] asserts of the blocks of the range: they are locked,
    and the range starts at the block an earlier lock started at. *)
Record ipc_unlockable (lo : Z) (b : KMemoryBlock) : Prop := {
  iu_count : 0 < m_ipc_lock_count b < 2 ^ 16;
  iu_locked : Z.land (m_attribute b) KMemoryAttribute_IpcLocked = KMemoryAttribute_IpcLocked;
  iu_original : m_ipc_lock_count b = 1 → m_original_permission b ≠ KMemoryPermission_None;
  iu_first : m_address b ≤ lo → m_address b = lo ∧ 0 < m_ipc_disable_merge_count b < 2 ^ 16
}.

Section UnlockForIpc.
Context (lo hi new_perm : Z).

Definition unlock_at (b : KMemoryBlock) : prog KMemoryBlock :=
  KMemoryBlock_UnlockForIpc new_perm (m_address b =? lo) (KMemoryBlock_GetEndAddress b =? hi) b.

Lemma UnlockForIpc_run b :
  ipc_unlockable lo b →
  ∃ c, unlock_at b = Done true c ∧ props c = unlock_props (props b).
Proof.
  intros [Hc Hl Ho Hf]. unfold unlock_at, KMemoryBlock_UnlockForIpc.
  rewrite Hl, Z.eqb_refl, (proj2 (Z.ltb_lt 0 (m_ipc_lock_count b))) by lia.
  rewrite (u16_id (m_ipc_lock_count b - 1)) by (unfold is_u16; lia). unfold ASSERT. pstep.
  unfold unlock_props, props; simpl pp_ipc_lock_count.
  assert (Hdm : (m_address b =? lo) = true → (0 <? m_ipc_disable_merge_count b) = true).
  { intros E. bool_prop. destruct (Hf ltac:(lia)) as [_ ?]. apply Z.ltb_lt. lia. }
  destruct (m_ipc_lock_count b =? 1) eqn:E; bool_prop; simpl m_original_permission.
  - rewrite (proj2 (Z.eqb_neq (m_original_permission b) _)) by auto. pstep. simpl.
    destruct (m_address b =? lo); pstep; simpl; [rewrite Hdm by done|]; eexists;
      (split; [done|]); [destruct (m_ipc_disable_merge_count b =? 1)|]; done.
  - pstep. simpl. destruct (m_address b =? lo); pstep; simpl; [rewrite Hdm by done|]; eexists;
      (split; [done|]); [destruct (m_ipc_disable_merge_count b =? 1)|]; done.
Qed.

Lemma UnlockForIpc_shape b :
  let c := outcome (unlock_at b) b in
  m_address c = m_address b ∧ m_num_pages c = m_num_pages b.
Proof.
  unfold unlock_at, KMemoryBlock_UnlockForIpc. simpl.
  destruct (m_ipc_lock_count b =? 1), (m_address b =? lo); simpl;
    destruct (m_ipc_disable_merge_count b =? 1); done.
Qed.

Lemma UnlockForIpc_applies :
  Applies lo hi (λ _, true) unlock_at (ipc_unlockable lo) (λ b, outcome (unlock_at b) b)
    unlock_props.
Proof.
  split; try done.
  - intros b _ Hb. destruct (UnlockForIpc_run b Hb) as (c & E & _). by rewrite E.
  - intros b. apply UnlockForIpc_shape.
  - intros b. apply UnlockForIpc_shape.
  - intros b _ _ _ [? ? ? ?]. done.
  - intros b _ ? _ [? ? ? Hf]. destruct Hf; lia.
  - intros b _ Hb. destruct (UnlockForIpc_run b Hb) as (c & E & Hp). by rewrite E.
Qed.
End UnlockForIpc.

(** The mark a lock leaves on the first block of its range. *)
Definition ipc_first (c : KMemoryBlock) : Prop :=
  Z.land (m_disable_merge_attribute c) DisableMerge_IpcLeft = DisableMerge_IpcLeft ∧
  0 < m_ipc_disable_merge_count c < 2 ^ 16.

Lemma ipc_first_anchored : anchored ipc_first.
Proof.
  split.
  - intros c q [Hc _]. unfold KMemoryBlock_CanMergeWith.
    destruct (Z.land (m_disable_merge_attribute c) DisableMerge_AllLeft =? _) eqn:E;
      [|by rewrite andb_false_r]. bool_prop.
    assert (E' : Z.land DisableMerge_AllLeft DisableMerge_IpcLeft = DisableMerge_IpcLeft) by done.
    exfalso. assert (H : DisableMerge_IpcLeft = 0); [|done].
    unfold DisableMerge_None in E. clear -Hc E E'. bitwise.
  - intros c d [Hc Hn]. split; [|done]. simpl. clear -Hc. bitwise.
Qed.

(** Unlocking what was locked gives every page back. *)
Lemma unlock_lock_props new_perm q :
  0 ≤ pp_ipc_lock_count q →
  (pp_ipc_lock_count q = 0 → pp_original_permission q = KMemoryPermission_None ∧
     Z.land (pp_attribute q) KMemoryAttribute_IpcLocked = 0) →
  (pp_ipc_lock_count q ≠ 0 →
     Z.land (pp_attribute q) KMemoryAttribute_IpcLocked = KMemoryAttribute_IpcLocked) →
  unlock_props (lock_props new_perm q) = q.
Proof.
  destruct q as [st pm op at' ic dc]. unfold unlock_props, lock_props. simpl. intros Hc H0 H1.
  replace (ic + 1 - 1) with ic by lia.
  destruct (ic =? 0) eqn:E; bool_prop.
  - destruct H0 as [-> Ha]; [done|]. subst ic. simpl. f_equal.
    clear -Ha. bitwise.
  - rewrite (proj2 (Z.eqb_neq (ic + 1) 1)) by lia. f_equal. clear H0.
    specialize (H1 E). clear -H1. bitwise.
Qed.

(** ** UpdateLock: sharing with devices *)
Definition share_props (q : PageProps) : PageProps :=
  MkProps (pp_state q) (pp_permission q) (pp_original_permission q)
    (Z.lor (pp_attribute q) KMemoryAttribute_DeviceShared) (pp_ipc_lock_count q)
    (pp_device_use_count q + 1).

Definition unshare_props (q : PageProps) : PageProps :=
  MkProps (pp_state q) (pp_permission q) (pp_original_permission q)
    (if pp_device_use_count q =? 1 then Z.ldiff (pp_attribute q) KMemoryAttribute_DeviceShared
     else pp_attribute q) (pp_ipc_lock_count q) (pp_device_use_count q - 1).

(** The counts of the ends of shared ranges have room. *)
Definition ends_room (b : KMemoryBlock) : Prop :=
  0 ≤ m_device_disable_merge_left_count b < 2 ^ 16 - 1 ∧
  0 ≤ m_device_disable_merge_right_count b < 2 ^ 16 - 1.

(** The count of devices has room, and a page that a device uses is shared. *)
Definition device_shareable (b : KMemoryBlock) : Prop :=
  ends_room b ∧ 0 ≤ m_device_use_count b < 2 ^ 16 - 1 ∧
  (m_device_use_count b ≠ 0 →
   Z.land (m_attribute b) KMemoryAttribute_DeviceShared = KMemoryAttribute_DeviceShared).

(** The range ends where a shared range ended. *)
Definition ends_shared (hi : Z) (b : KMemoryBlock) : Prop :=
  bend b ≤ hi ∧ (bend b = hi → 0 < m_device_disable_merge_right_count b < 2 ^ 16) ∧ fits b.

Definition device_unshareable (hi : Z) (b : KMemoryBlock) : Prop :=
  ends_shared hi b ∧ 0 < m_device_use_count b < 2 ^ 16 ∧
  Z.land (m_attribute b) KMemoryAttribute_DeviceShared = KMemoryAttribute_DeviceShared.

Abbreviation lock_function := (Z → bool → bool → KMemoryBlock → prog KMemoryBlock).

(** The functions that the page table passes for devices, with what they assert and
    what they do to a page. *)
Inductive device_function (hi : Z) :
  lock_function → (KMemoryBlock → Prop) → (PageProps → PageProps) → Prop :=
| df_share : device_function hi KMemoryBlock_ShareToDevice device_shareable share_props
| df_share_ends :
    device_function hi KMemoryBlock_UpdateDeviceDisableMergeStateForShare ends_room id
| df_share_right :
    device_function hi KMemoryBlock_UpdateDeviceDisableMergeStateForShareRight ends_room id
| df_unshare :
    device_function hi KMemoryBlock_UnshareToDevice (device_unshareable hi) unshare_props
| df_unshare_ends :
    device_function hi KMemoryBlock_UpdateDeviceDisableMergeStateForUnshare (ends_shared hi) id
| df_unshare_right :
    device_function hi KMemoryBlock_UpdateDeviceDisableMergeStateForUnshareRight (ends_shared hi) id.

(** The block keeps its place, and its pages change by [g]. *)
Definition same_place (g : PageProps → PageProps) (b c : KMemoryBlock) : Prop :=
  m_address c = m_address b ∧ m_num_pages c = m_num_pages b ∧ props c = g (props b).

Section Devices.
Context (lo hi perm : Z) (Hlo : lo mod PageSize = 0).

Lemma share_ends_run left right b : ends_room b →
  (∃ c, KMemoryBlock_UpdateDeviceDisableMergeStateForShare perm left right b = Done true c ∧ same_place id b c) ∧
  (∃ c, KMemoryBlock_UpdateDeviceDisableMergeStateForShareRight perm left right b = Done true c ∧ same_place id b c).
Proof.
  intros [Hl Hr]. unfold KMemoryBlock_UpdateDeviceDisableMergeStateForShare,
    KMemoryBlock_UpdateDeviceDisableMergeStateForShareLeft,
    KMemoryBlock_UpdateDeviceDisableMergeStateForShareRight.
  destruct left, right; simpl; rewrite ?(u16_id (_ + 1)), ?(proj2 (Z.ltb_lt 0 (_ + 1))) by (unfold is_u16; simpl; lia);
    simpl; rewrite ?(u16_id (_ + 1)), ?(proj2 (Z.ltb_lt 0 (_ + 1))) by (unfold is_u16; simpl; lia);
    split; eexists; split; done.
Qed.

Lemma unshare_ends_run left right b :
  (right = true → 0 < m_device_disable_merge_right_count b) →
  (∃ c, KMemoryBlock_UpdateDeviceDisableMergeStateForUnshare perm left right b = Done true c ∧ same_place id b c) ∧
  (∃ c, KMemoryBlock_UpdateDeviceDisableMergeStateForUnshareRight perm left right b = Done true c ∧ same_place id b c).
Proof.
  intros Hr.
  assert (Hright : ∀ b, (right = true → 0 < m_device_disable_merge_right_count b) → ∃ c,
    KMemoryBlock_UpdateDeviceDisableMergeStateForUnshareRight perm left right b = Done true c ∧ same_place id b c).
  { clear b Hr. intros b Hr. unfold KMemoryBlock_UpdateDeviceDisableMergeStateForUnshareRight.
    destruct right; [|by eexists]. rewrite (proj2 (Z.ltb_lt 0 _)) by auto. eexists. split; [done|].
    by destruct (_ =? 1). }
  split; [|by apply Hright].
  assert (Hleft : ∃ c, KMemoryBlock_UpdateDeviceDisableMergeStateForUnshareLeft perm left right b = Done true c ∧
    same_place id b c ∧ m_device_disable_merge_right_count c = m_device_disable_merge_right_count b).
  { unfold KMemoryBlock_UpdateDeviceDisableMergeStateForUnshareLeft. destruct left.
    - destruct (m_device_disable_merge_left_count b =? 0); [by eexists|]. eexists. split; [done|].
      by destruct (_ =? 0).
    - eexists. split; [done|]. by destruct (_ =? 0). }
  destruct Hleft as (c & E & (E1 & E2 & E3) & Er).
  destruct (Hright c) as (d & Ed & F1 & F2 & F3); [by rewrite Er|].
  unfold KMemoryBlock_UpdateDeviceDisableMergeStateForUnshare. rewrite E, bind_Done_true. exists d.
  split; [exact Ed|]. unfold id in *. split_and!; congruence.
Qed.

Lemma share_run left right b : device_shareable b → ∃ c,
  KMemoryBlock_ShareToDevice perm left right b = Done true c ∧ same_place share_props b c.
Proof.
  intros (Hr & Hc & Hs). unfold KMemoryBlock_ShareToDevice.
  replace (_ || _) with true.
  2:{ destruct (m_device_use_count b =? 0) eqn:E; bool_prop; [by rewrite orb_true_r|]. by rewrite Hs. }
  rewrite (u16_id (_ + 1)), (proj2 (Z.ltb_lt 0 (_ + 1))) by (unfold is_u16; lia).
  unfold ASSERT. pstep.
  match goal with |- context [KMemoryBlock_UpdateDeviceDisableMergeStateForShare _ _ _ ?x] =>
    destruct (share_ends_run left right x) as [(c & E & E1 & E2 & E3) _]; [done|] end.
  exists c. split; [exact E|]. split_and!; [exact E1|exact E2|exact E3].
Qed.

Lemma unshare_run left right b : 0 < m_device_use_count b < 2 ^ 16 →
  Z.land (m_attribute b) KMemoryAttribute_DeviceShared = KMemoryAttribute_DeviceShared →
  (right = true → 0 < m_device_disable_merge_right_count b) → ∃ c,
  KMemoryBlock_UnshareToDevice perm left right b = Done true c ∧ same_place unshare_props b c.
Proof.
  intros Hc Hs Hr. unfold KMemoryBlock_UnshareToDevice, unshare_count.
  rewrite Hs, Z.eqb_refl, (proj2 (Z.ltb_lt 0 _)), (u16_id (_ - 1)) by (unfold is_u16; lia).
  unfold ASSERT. pstep. unfold same_place, unshare_props, props. cbn [pp_device_use_count pp_attribute].
  destruct (m_device_use_count b =? 1); pstep;
    match goal with |- context [KMemoryBlock_UpdateDeviceDisableMergeStateForUnshare _ _ _ ?x] =>
      destruct (unshare_ends_run left right x) as [(c & E & E1 & E2 & E3) _]; [exact Hr|] end;
    exists c; (split; [exact E|]); (split; [exact E1|]); (split; [exact E2|exact E3]).
Qed.

(** The blocks of a range keep what is asserted when they are cut. *)
Lemma ends_shared_right b : m_address b < lo < bend b → ends_shared hi b → ends_shared hi (right_part b lo).
Proof.
  intros Hx (He & Hr & Hf). destruct (splittable_right b lo Hf) as (_ & Eb & Hf'); [done|].
  split; [by rewrite Eb|]. split; [by rewrite Eb|done].
Qed.

Lemma device_run fn pre g b : device_function hi fn pre g → pre b →
  ∃ c, fn perm (m_address b =? lo) (KMemoryBlock_GetEndAddress b =? hi) b = Done true c ∧ same_place g b c.
Proof.
  intros [] Hb.
  - by apply share_run.
  - by apply share_ends_run.
  - by apply share_ends_run.
  - destruct Hb as ((He & Hr & Hf) & Hc & Hs). apply unshare_run; [done..|].
    rewrite fits_end by done. intros E. bool_prop. by apply Hr.
  - destruct Hb as (He & Hr & Hf). apply unshare_ends_run. rewrite fits_end by done. intros E. bool_prop. by apply Hr.
  - destruct Hb as (He & Hr & Hf). apply unshare_ends_run. rewrite fits_end by done. intros E. bool_prop. by apply Hr.
Qed.

(** The changed block, at the place of the old one. *)
Definition device_block (fn : lock_function) (b : KMemoryBlock) : KMemoryBlock :=
  set_address (m_address b) (set_num_pages (m_num_pages b)
    (outcome (fn perm (m_address b =? lo) (KMemoryBlock_GetEndAddress b =? hi) b) b)).

Lemma device_block_run fn pre g b : device_function hi fn pre g → pre b →
  fn perm (m_address b =? lo) (KMemoryBlock_GetEndAddress b =? hi) b = Done true (device_block fn b) ∧
  props (device_block fn b) = g (props b).
Proof.
  intros Hfn Hb. destruct (device_run fn pre g b Hfn Hb) as (c & E & E1 & E2 & E3).
  unfold device_block. rewrite E. simpl. rewrite <- E1, <- E2. by destruct c.
Qed.

Lemma device_applies fn pre g : device_function hi fn pre g →
  Applies lo hi (λ _, true)
    (λ b, fn perm (m_address b =? lo) (KMemoryBlock_GetEndAddress b =? hi) b) pre (device_block fn) g.
Proof.
  intros Hfn. split; try done.
  - intros b _ Hb. by apply (device_block_run fn pre g).
  - intros b Hf Hx _ Hb. split; [done|]. destruct Hfn.
    + destruct Hb as [[? ?] ?]. split; [split; [done|simpl; lia]|done].
    + destruct Hb as [? ?]. split; [done|simpl; lia].
    + destruct Hb as [? ?]. split; [done|simpl; lia].
    + destruct Hb as ((? & _) & _). lia.
    + destruct Hb as (? & _). lia.
    + destruct Hb as (? & _). lia.
  - intros b Hf Hx _ Hb. split; [done|]. destruct Hfn.
    + destruct Hb as [[? ?] ?]. split; [split; [simpl; lia|done]|done].
    + destruct Hb as [? ?]. split; [simpl; lia|done].
    + destruct Hb as [? ?]. split; [simpl; lia|done].
    + destruct Hb as [? ?]. split; [by apply ends_shared_right|done].
    + by apply ends_shared_right.
    + by apply ends_shared_right.
  - intros b _ Hb. by apply (device_block_run fn pre g).
Qed.

Lemma device_locks fn pre g b : device_function hi fn pre g → pre b →
  props_locks_ok (props b) = true → props_locks_ok (g (props b)) = true.
Proof.
  assert (Hone : ∀ a, Z.land (Z.lor a KMemoryAttribute_DeviceShared) KMemoryAttribute_IpcLocked =
    Z.land a KMemoryAttribute_IpcLocked) by (intros; by apply land_lor_disjoint).
  assert (Htwo : ∀ a, Z.land (Z.ldiff a KMemoryAttribute_DeviceShared) KMemoryAttribute_IpcLocked =
    Z.land a KMemoryAttribute_IpcLocked) by (intros; by apply land_ldiff_disjoint).
  intros [] Hb; try done; unfold props_locks_ok, share_props, unshare_props; simpl; intros [H1 H2]%andb_true_iff.
  - destruct Hb as (_ & ? & _). rewrite Hone, H1, (proj2 (Z.eqb_neq (_ + 1) 0)) by lia. by rewrite andb_false_r.
  - destruct Hb as (_ & ? & _). destruct (m_device_use_count b =? 1) eqn:E; bool_prop.
    + rewrite Htwo, H1. replace (Z.land (Z.ldiff _ _) _) with 0; [done|]. clear. bitwise.
    + rewrite H1, (proj2 (Z.eqb_neq (_ - 1) 0)) by lia. by rewrite andb_false_r.
Qed.
End Devices.

(** ** The operations *)

(** A page-aligned range inside the manager's address space, with enough blocks
    preallocated for the ends of the range that fall inside a block. *)
Record update_args (m : KMemoryBlockManager) (address num_pages : Z) (n : nat) : Prop := {
  ar_wf : mgr_wf m;
  ar_pages : 0 < num_pages;
  ar_aligned : address mod PageSize = 0;
  ar_start : m_start_address m ≤ address;
  ar_end : address + num_pages * PageSize ≤ m_end_address m;
  ar_blocks : (list_cuts address (address + num_pages * PageSize) (m_memory_block_tree m)
               ≤ n ≤ 2)%nat
}.

Section Operations.
Context {S : Type} `{SlabLaws S}.

(** The manager is well-formed again, the pages of the range changed by [g] and
    no other page changed, and no block was lost: the blocks in the tree, in the
    update allocator and in the slab add up to what they were.  Blocks that start
    outside of the range and its ends still start where they did. *)
Definition updated (address num_pages : Z) (g : PageProps → PageProps)
    (m : KMemoryBlockManager) (n : nat) (s : S)
    (r : UpdateAllocator S * KMemoryBlockManager) : Prop :=
  mgr_wf r.2 ∧ range_updated address (address + num_pages * PageSize) g m r.2 ∧
  alloc_ok r.1 ∧
  (blocks_left r.1 + length (m_memory_block_tree r.2) =
   n + slab_size s + length (m_memory_block_tree m))%nat ∧
  bounds_kept address (address + num_pages * PageSize) m r.2.

Lemma update_range_anchors address num_pages needs apply pre f g m n s :
  update_args m address num_pages n →
  Applies address (address + num_pages * PageSize) needs apply pre f g →
  (∀ b, needs b = true → pre b → locks_ok b = true → props_locks_ok (g (props b)) = true) →
  (∀ c, c ∈ m_memory_block_tree m → overlaps address (address + num_pages * PageSize) c →
     needs c = true → pre c) →
  (∀ d, head (m_memory_block_tree m) = Some d → m_address d < address < bend d →
     needs d = true) →
  wp (update_range needs apply m (alloc n s) address num_pages)
     (λ r, updated address num_pages g m n s r ∧ ∀ K, anchored K →
       (∀ c, c ∈ m_memory_block_tree m → overlaps address (address + num_pages * PageSize) c →
          needs c = true ∧ pre c) →
       (∀ b, needs b = true → pre b → m_address b = address → K (f b)) →
       ∃ c, c ∈ m_memory_block_tree r.2 ∧ m_address c = address ∧ K c).
Proof.
  intros [Hwf Hp Hal Hst Hnd Hb] Hap Hlk Hpre Hfirst.
  eapply wp_mono.
  - apply (update_range_run address (address + num_pages * PageSize) needs apply pre f g);
      try done; rewrite ?PageSize_eq in *; try lia. rewrite Z.mod_add by lia. done.
  - intros [a' m'] (? & ? & ? & ? & ? & ?). done.
Qed.

Lemma update_range_updated address num_pages needs apply pre f g m n s :
  update_args m address num_pages n →
  Applies address (address + num_pages * PageSize) needs apply pre f g →
  (∀ b, needs b = true → pre b → locks_ok b = true → props_locks_ok (g (props b)) = true) →
  (∀ c, c ∈ m_memory_block_tree m → overlaps address (address + num_pages * PageSize) c →
     needs c = true → pre c) →
  (∀ d, head (m_memory_block_tree m) = Some d → m_address d < address < bend d →
     needs d = true) →
  wp (update_range needs apply m (alloc n s) address num_pages)
     (updated address num_pages g m n s).
Proof. intros. eapply wp_mono; [by eapply update_range_anchors|naive_solver]. Qed.

Lemma update_args_range m address num_pages n :
  update_args m address num_pages n →
  0 ≤ address ∧ 0 < num_pages * PageSize ∧ address + num_pages * PageSize < 2 ^ 64.
Proof.
  intros [[? ? _ _ _] ? ? ? ? _]. rewrite PageSize_eq in *. lia.
Qed.

Lemma Update_updated m address num_pages n s st pm at' dset dclear :
  update_args m address num_pages n →
  Z.land at' lock_mask = 0 →
  (∀ b, b ∈ m_memory_block_tree m → overlaps address (address + num_pages * PageSize) b →
     KMemoryBlock_HasProperties b st pm at' = false → updatable b) →
  (∀ d, head (m_memory_block_tree m) = Some d → m_address d < address < bend d →
     KMemoryBlock_HasProperties d st pm at' = false) →
  wp (KMemoryBlockManager_Update m (alloc n s) address num_pages st pm at' dset dclear)
     (updated address num_pages (set_props st pm at') m n s).
Proof.
  intros Har Ha Hpre Hfirst. unfold KMemoryBlockManager_Update.
  rewrite (proj2 (IsAligned_page address)) by apply Har. fold lock_mask. rewrite Ha.
  unfold ASSERT. pstep. change (0 =? KMemoryAttribute_None) with true. pstep.
  eapply update_range_updated; [done|by apply Update_applies|..].
  - intros. by apply set_props_locks.
  - intros c Hc Ho Hn%negb_true_iff. by apply Hpre.
  - intros d Hd Hin. apply negb_true_iff. by apply Hfirst.
Qed.

(** C8: [Update] on a well-formed manager, for a range of whole pages of its address
    space, runs to the end with no assertion failing, sets state, permission and
    attribute on exactly the pages of the range, keeps the lock attributes of each
    page, and leaves the block list well-formed (a tiling with no mergeable
    neighbours) with no block lost.  This holds when the allocator has a block for
    each end of the range that is inside a block (and at most two), the new
    attribute has no lock bit, no block of the range that is changed is locked for
    IPC or has an original permission, and, if the range starts inside the first
    block of the manager, that block does not have the new properties already
    (otherwise the coalescing pass steps back from the first block). *)
Theorem KMemoryBlockManager_Update_correct m address num_pages n s st pm at' dset dclear :
  update_args m address num_pages n →
  Z.land at' lock_mask = 0 →
  (∀ b, b ∈ m_memory_block_tree m → overlaps address (address + num_pages * PageSize) b →
     KMemoryBlock_HasProperties b st pm at' = false → updatable b) →
  (∀ d, head (m_memory_block_tree m) = Some d → m_address d < address < bend d →
     KMemoryBlock_HasProperties d st pm at' = false) →
  wp (KMemoryBlockManager_Update m (alloc n s) address num_pages st pm at' dset dclear)
     (updated address num_pages (set_props st pm at') m n s).
Proof. apply Update_updated. Qed.

(** [UpdateIfMatch] changes the pages of the range that have the tested
    state, permission and attribute, and only those. *)
Theorem KMemoryBlockManager_UpdateIfMatch_correct
    m address num_pages n s ts tp ta st pm at' dset dclear :
  update_args m address num_pages n →
  Z.land at' lock_mask = 0 →
  (∀ b, b ∈ m_memory_block_tree m → overlaps address (address + num_pages * PageSize) b →
     KMemoryBlock_HasProperties b ts tp ta = true → updatable b) →
  (∀ d, head (m_memory_block_tree m) = Some d → m_address d < address < bend d →
     KMemoryBlock_HasProperties d ts tp ta = true ∧
     KMemoryBlock_HasProperties d st pm at' = false) →
  wp (KMemoryBlockManager_UpdateIfMatch m (alloc n s) address num_pages ts tp ta st pm at'
        dset dclear)
     (updated address num_pages
        (λ q, if (pp_state q =? ts) && (pp_permission q =? tp) &&
                 (Z.lor (pp_attribute q) lock_mask =? Z.lor ta lock_mask)
              then set_props st pm at' q else q) m n s).
Proof.
  intros Har Ha Hpre Hfirst. unfold KMemoryBlockManager_UpdateIfMatch.
  rewrite (proj2 (IsAligned_page address)) by apply Har. fold lock_mask. rewrite Ha.
  unfold ASSERT. pstep. change (0 =? KMemoryAttribute_None) with true. pstep.
  eapply update_range_updated; [done|by apply UpdateIfMatch_applies|..].
  - intros b _ _ Hl. rewrite locks_ok_props in Hl.
    destruct (_ && _ && _); [by apply set_props_locks|done].
  - intros c Hc Ho [Hn _]%andb_true_iff. by apply Hpre.
  - intros d Hd Hin. destruct (Hfirst d Hd Hin) as [-> ->]. done.
Qed.

(** [UpdateAttribute] replaces the bits of the mask in the attribute of every
    page of the range and changes nothing else. *)
Theorem KMemoryBlockManager_UpdateAttribute_correct m address num_pages n s mask attr :
  update_args m address num_pages n →
  Z.land mask lock_mask = 0 → Z.land attr lock_mask = 0 →
  (∀ d, head (m_memory_block_tree m) = Some d → m_address d < address < bend d →
     Z.land (m_attribute d) mask ≠ attr) →
  wp (KMemoryBlockManager_UpdateAttribute m (alloc n s) address num_pages mask attr)
     (updated address num_pages (set_attr mask attr) m n s).
Proof.
  intros Har Hm Ha Hfirst. unfold KMemoryBlockManager_UpdateAttribute.
  rewrite (proj2 (IsAligned_page address)) by apply Har. unfold ASSERT. pstep.
  eapply update_range_updated; [done|by apply UpdateAttribute_applies|..].
  - intros b _ _. rewrite locks_ok_props. unfold props_locks_ok, set_attr. simpl.
    assert (E : ∀ k, Z.land k lock_mask = k →
      Z.land (Z.lor (Z.ldiff (m_attribute b) mask) attr) k = Z.land (m_attribute b) k).
    { clear -Ha Hm. intros k Hk. bitwise. }
    by rewrite !E.
  - done.
  - intros d Hd Hin. apply negb_true_iff, Z.eqb_neq. by apply Hfirst.
Qed.

Lemma lock_props_locks new_perm q :
  0 ≤ pp_ipc_lock_count q → props_locks_ok q = true →
  props_locks_ok (lock_props new_perm q) = true.
Proof.
  intros Hc. unfold props_locks_ok, lock_props. simpl.
  rewrite (proj2 (Z.eqb_neq (pp_ipc_lock_count q + 1) 0)) by lia. rewrite andb_false_r.
  rewrite (land_lor_disjoint _ _ KMemoryAttribute_DeviceShared) by done.
  simpl. by intros [_ ?]%andb_true_iff.
Qed.

Lemma UpdateLock_unfold m (a : UpdateAllocator S) address num_pages n lock_func perm :
  update_args m address num_pages n →
  KMemoryBlockManager_UpdateLock m a address num_pages lock_func perm =
  update_range (λ _, true)
    (λ b, lock_func perm (m_address b =? address)
       (KMemoryBlock_GetEndAddress b =? address + num_pages * PageSize) b) m a address num_pages.
Proof.
  intros Har. pose proof (update_args_range _ _ _ _ Har) as (? & ? & ?).
  unfold KMemoryBlockManager_UpdateLock.
  rewrite (proj2 (IsAligned_page address)) by apply Har.
  unfold ASSERT. pstep. by u_simpl.
Qed.

Lemma Lock_run m address num_pages n s new_perm :
  update_args m address num_pages n →
  (∀ b, b ∈ m_memory_block_tree m → overlaps address (address + num_pages * PageSize) b →
     ipc_lockable new_perm b) →
  wp (KMemoryBlockManager_UpdateLock m (alloc n s) address num_pages
        KMemoryBlock_LockForIpc new_perm)
     (λ r, updated address num_pages (lock_props new_perm) m n s r ∧
           ∃ c, c ∈ m_memory_block_tree r.2 ∧ m_address c = address ∧ ipc_first c).
Proof.
  intros Har Hpre. rewrite (UpdateLock_unfold _ _ _ _ n) by done. eapply wp_mono.
  - eapply update_range_anchors; [done|apply LockForIpc_applies|..].
    + intros b _ [? _ _ _ _ _] Hl. apply lock_props_locks; [simpl; lia|done].
    + intros c Hc Ho _. by apply Hpre.
    + done.
  - intros r [Hr HK]. split; [done|]. apply HK; [apply ipc_first_anchored|by eauto|].
    intros b _ Hb Eb. unfold lock_at. rewrite Eb, Z.eqb_refl.
    destruct (LockForIpc_run new_perm true
      (KMemoryBlock_GetEndAddress b =? address + num_pages * PageSize) b Hb)
      as (c & -> & _ & _ & _ & Hn & Hd). simpl. destruct Hb as [_ Hm _ _ _ _]. split.
    + rewrite Hd. clear. bitwise.
    + rewrite Hn. simpl. lia.
Qed.

(** C9: locking a range for IPC raises the lock count of exactly its pages by
    one; the first lock of a page also narrows its permission and remembers the
    old one.  The manager stays well-formed and loses no block. *)
Theorem KMemoryBlockManager_LockForIpc_correct m address num_pages n s new_perm :
  update_args m address num_pages n →
  (∀ b, b ∈ m_memory_block_tree m → overlaps address (address + num_pages * PageSize) b →
     ipc_lockable new_perm b) →
  wp (KMemoryBlockManager_UpdateLock m (alloc n s) address num_pages
        KMemoryBlock_LockForIpc new_perm)
     (updated address num_pages (lock_props new_perm) m n s).
Proof. intros. eapply wp_mono; [by apply Lock_run|naive_solver]. Qed.

Lemma unlock_props_locks q :
  0 < pp_ipc_lock_count q → props_locks_ok q = true → props_locks_ok (unlock_props q) = true.
Proof.
  intros Hc. unfold props_locks_ok, unlock_props. simpl. intros [H1 H2]%andb_true_iff.
  destruct (pp_ipc_lock_count q =? 1) eqn:E; bool_prop.
  - rewrite (land_ldiff_disjoint _ _ KMemoryAttribute_DeviceShared) by done.
    rewrite H2, andb_true_r. replace (Z.land (Z.ldiff _ _) _) with 0; [done|].
    clear. bitwise.
  - rewrite (proj2 (Z.eqb_neq (pp_ipc_lock_count q - 1) 0)) by lia. by rewrite andb_false_r, H2.
Qed.

(** A block of the range after the update and the block its pages come from. *)
Lemma updated_block m m' address num_pages g b :
  mgr_wf m → mgr_wf m' → 0 < num_pages * PageSize →
  range_updated address (address + num_pages * PageSize) g m m' →
  b ∈ m_memory_block_tree m' → overlaps address (address + num_pages * PageSize) b →
  ∃ b0, b0 ∈ m_memory_block_tree m ∧ overlaps address (address + num_pages * PageSize) b0 ∧
    props b = g (props b0).
Proof.
  intros Hwf Hwf' Hnp [Hs He Hpg] Hb [Ho1 Ho2].
  pose proof (tiles_bounds _ _ _ (wf_tiles _ Hwf')) as Hbd. rewrite Forall_forall in Hbd.
  destruct (Hbd b Hb) as [Hf _]. pose proof (fits_lt b Hf).
  specialize (Hpg (Z.max address (m_address b))).
  rewrite decide_True in Hpg by lia.
  assert (pages m' (Z.max address (m_address b)) = Some (props b)) as E.
  { eapply pages_Some; [by apply wf_tiles|]. exists b. split; [split; [done|lia]|done]. }
  rewrite E in Hpg. symmetry in Hpg. apply fmap_Some in Hpg as (q & Hq & ->).
  eapply pages_Some in Hq as (b0 & [Hb0 ?] & <-); [|by apply wf_tiles].
  exists b0. split_and!; [done| |done]. split; lia.
Qed.

Lemma unlockable_after_lock m m' address num_pages new_perm c b :
  mgr_wf m → mgr_wf m' → 0 < num_pages * PageSize →
  range_updated address (address + num_pages * PageSize) (lock_props new_perm) m m' →
  (∀ b, b ∈ m_memory_block_tree m → overlaps address (address + num_pages * PageSize) b →
     ipc_lockable new_perm b ∧ m_permission b ≠ KMemoryPermission_None) →
  c ∈ m_memory_block_tree m' → m_address c = address → ipc_first c →
  b ∈ m_memory_block_tree m' → overlaps address (address + num_pages * PageSize) b →
  ipc_unlockable address b.
Proof.
  intros Hwf Hwf' Hnp Hru Hpre Hc Ec Hfc Hb Ho.
  destruct (updated_block _ _ _ _ _ b Hwf Hwf' Hnp Hru Hb Ho) as (b0 & Hb0 & Ho0 & E).
  destruct (Hpre b0 Hb0 Ho0) as [[Hcnt _ _ Ho' _ _] Hperm]. unfold props, lock_props in E.
  simpl in E. injection E as Es Ep Eo Ea El Ed. destruct Ho as [_ Ho]. split.
  - lia.
  - rewrite Ea. clear. bitwise.
  - intros E1. rewrite Eo. rewrite (proj2 (Z.eqb_eq (m_ipc_lock_count b0) 0)) by lia. done.
  - intros Hle. assert (b = c) as ->; [|split; [done|apply Hfc]].
    assert (Ht := wf_tiles _ Hwf'). pose proof (tiles_bounds _ _ _ Ht) as Hbd.
    rewrite Forall_forall in Hbd. destruct (Hbd c Hc) as [Hf _]. pose proof (fits_lt c Hf).
    assert (KMemoryBlockManager_FindBlock m' address = Some b) as E1.
    { eapply FindBlock_spec; [done|]. split; [done|lia]. }
    assert (KMemoryBlockManager_FindBlock m' address = Some c) as E2.
    { eapply FindBlock_spec; [done|]. split; [done|lia]. }
    congruence.
Qed.

Lemma Unlock_run m address num_pages n s new_perm :
  update_args m address num_pages n →
  (∀ b, b ∈ m_memory_block_tree m → overlaps address (address + num_pages * PageSize) b →
     ipc_unlockable address b) →
  wp (KMemoryBlockManager_UpdateLock m (alloc n s) address num_pages
        KMemoryBlock_UnlockForIpc new_perm)
     (updated address num_pages unlock_props m n s).
Proof.
  intros Har Hpre. rewrite (UpdateLock_unfold _ _ _ _ n) by done.
  eapply update_range_updated; [done|apply (UnlockForIpc_applies _ _ new_perm)|..].
  - intros b _ [? _ _ _] Hl. apply unlock_props_locks; [simpl; lia|done].
  - intros b Hb Ho _. by apply Hpre.
  - done.
Qed.

Lemma Device_run m address num_pages n s fn pre g perm :
  device_function (address + num_pages * PageSize) fn pre g → update_args m address num_pages n →
  (∀ b, b ∈ m_memory_block_tree m → overlaps address (address + num_pages * PageSize) b → pre b) →
  wp (KMemoryBlockManager_UpdateLock m (alloc n s) address num_pages fn perm)
     (updated address num_pages g m n s).
Proof.
  intros Hfn Har Hpre. rewrite (UpdateLock_unfold _ _ _ _ n) by done.
  eapply update_range_updated; [done|by apply (device_applies address _ perm (ar_aligned _ _ _ _ Har))|..].
  - intros b _ Hb Hl. rewrite locks_ok_props in Hl. by eapply device_locks.
  - intros b Hb Ho _. by apply Hpre.
  - done.
Qed.

(** unlocking a range that was just locked for IPC succeeds, with any fresh
    pair of preallocated blocks, and gives every page of the address space the
    properties it had before the lock. *)
Theorem KMemoryBlockManager_lock_unlock_roundtrip m address num_pages n s new_perm :
  update_args m address num_pages n →
  (∀ b, b ∈ m_memory_block_tree m → overlaps address (address + num_pages * PageSize) b →
     ipc_lockable new_perm b ∧ m_permission b ≠ KMemoryPermission_None) →
  wp (KMemoryBlockManager_UpdateLock m (alloc n s) address num_pages
        KMemoryBlock_LockForIpc new_perm)
     (λ r, ∀ s2 perm2,
        wp (KMemoryBlockManager_UpdateLock r.2 (alloc 2 s2) address num_pages
              KMemoryBlock_UnlockForIpc perm2)
           (λ r2, mgr_wf r2.2 ∧ ∀ x, pages r2.2 x = pages m x)).
Proof.
  intros Har Hpre. eapply wp_mono; [apply Lock_run; [done|naive_solver]|].
  intros [a1 m1] [(Hwf1 & Hru1 & _) (c & Hc & Ec & Hfc)] s2 perm2. simpl in *.
  pose proof Har as [Hwf Hp Hal Hst Hnd _]. pose proof Hru1 as [Es1 Ee1 Hpg1].
  assert (Har1 : update_args m1 address num_pages 2).
  { split; try done; rewrite ?Es1, ?Ee1; try done. split; [|done].
    eapply list_cuts_le, wf_tiles, Hwf1. }
  eapply wp_mono.
  - apply Unlock_run; [done|]. intros b Hb Ho.
    apply (unlockable_after_lock m m1 address num_pages new_perm c b); try done.
    apply (update_args_range _ _ _ _ Har).
  - intros r2 (Hwf2 & [_ _ Hpg2] & _). split; [done|]. intros x. rewrite Hpg2, Hpg1.
    case_decide as Hx; [|done]. destruct (pages m x) as [q|] eqn:Eq; [|done]. simpl. f_equal.
    eapply pages_Some in Eq as (b & [Hb ?] & <-); [|by apply wf_tiles].
    destruct (Hpre b Hb) as [[Hcnt _ Hlk Hor _ _] _]; [split; lia|].
    apply unlock_lock_props; simpl; [lia| |done]. intros E0. split; [by apply Hor|].
    pose proof (wf_locks _ Hwf) as Hl. rewrite Forall_forall in Hl. specialize (Hl b Hb).
    unfold locks_ok in Hl. rewrite E0, andb_true_r in Hl. bool_prop. done.
Qed.
End Operations.

(** ** FindFreeArea *)
Record area_args (m : KMemoryBlockManager)
    (region_start region_num_pages num_pages alignment offset guard_pages : Z) : Prop := {
  aa_region : 0 ≤ region_start ∧ 0 < region_num_pages;
  aa_pages : 0 ≤ num_pages;
  aa_align : 0 < alignment ∧ 0 ≤ offset < alignment;
  aa_guard : 0 ≤ guard_pages;
  aa_bound : Z.max (m_end_address m) (region_start + region_num_pages * PageSize) +
             2 * alignment + (num_pages + 2 * guard_pages) * PageSize < 2 ^ 64
}.

(** The candidate of a block is the least address with the wanted alignment and
    offset behind the guard pages, and it is taken when it fits. *)
Lemma free_area_in_eq b region_start region_last num_pages alignment offset guard_pages :
  fits b → 0 ≤ region_start → 0 < num_pages → 0 < alignment → 0 ≤ offset < alignment →
  0 ≤ guard_pages →
  Z.max (bend b) region_start + 2 * alignment + (num_pages + 2 * guard_pages) * PageSize
    < 2 ^ 64 →
  let base := Z.max region_start (m_address b) + guard_pages * PageSize in
  ∃ area, base ≤ area < base + alignment ∧ (area - offset) mod alignment = 0 ∧
  free_area_in (KMemoryBlock_GetMemoryInfo b) region_start region_last num_pages alignment
    offset guard_pages =
  if area + (num_pages + guard_pages) * PageSize <=? Z.min (region_last + 1) (bend b)
  then Some area else None.
Proof.
  intros Hf Hrs Hnp Hal Hof Hg Hbd. unfold free_area_in.
  replace (KMemoryInfo_GetLastAddress _) with (bend b - 1) by (symmetry; by apply fits_last).
  cbn [info_address KMemoryBlock_GetMemoryInfo].
  pose proof (fits_lt b Hf). destruct Hf as (? & ? & ? & _).
  replace (if m_address b <=? region_start then region_start else m_address b)
    with (Z.max region_start (m_address b))
    by (destruct (_ <=? _) eqn:E; bool_prop; lia).
  rewrite PageSize_eq in *. set (base := Z.max region_start (m_address b)) in *.
  rewrite (u64_id (guard_pages * 4096)), (u64_id (num_pages * 4096)) by (unfold is_u64; lia).
  rewrite (u64_id (base + _)) by (unfold is_u64; lia).
  destruct (AlignDown_spec (base + guard_pages * 4096) alignment Hal) as [Hm Hr].
  pose proof (AlignDown_nonneg (base + guard_pages * 4096) alignment Hal ltac:(lia)).
  set (ad := AlignDown (base + guard_pages * 4096) alignment) in *.
  rewrite (u64_id (ad + offset)) by (unfold is_u64; lia).
  rewrite (u64_id (ad + offset + alignment)) by (unfold is_u64; lia).
  set (ar := if base + guard_pages * 4096 <=? ad + offset then ad + offset
             else ad + offset + alignment).
  exists ar. assert (base + guard_pages * 4096 ≤ ar < base + guard_pages * 4096 + alignment ∧
          (ar - offset) mod alignment = 0) as (Har1 & Har2).
  { unfold ar. destruct (_ <=? _) eqn:E; bool_prop.
    - replace (ad + offset - offset) with ad by lia. split_and!; [lia..|done].
    - replace (ad + offset + alignment - offset) with (ad + 1 * alignment) by lia.
      rewrite Z.mod_add by lia. split_and!; [lia..|done]. }
  clearbody ar ad. rewrite (u64_id (ar + _)) by (unfold is_u64; lia).
  rewrite (u64_id (ar + _ + _)) by (unfold is_u64; lia).
  rewrite (u64_id (_ - 1)) by (unfold is_u64; lia).
  split_and!; [lia..|done|].
  destruct (_ && _ && _ && _) eqn:E, (_ <=? Z.min _ _) eqn:E'; bool_prop; try done; exfalso; [lia|].
  rewrite !andb_false_iff, !Z.leb_gt, Z.ltb_ge in E. lia.
Qed.

(** Two values with the same remainder are a multiple apart. *)
Lemma aligned_least area x base offset alignment :
  0 < alignment → base ≤ area < base + alignment → base ≤ x →
  (area - offset) mod alignment = 0 → (x - offset) mod alignment = 0 → area ≤ x.
Proof.
  intros Ha Hr Hx H1 H2. apply Z.div_exact in H1, H2; [|lia..].
  set (q1 := (area - offset) / alignment) in *. set (q2 := (x - offset) / alignment) in *.
  clearbody q1 q2. destruct (Z.le_gt_cases area x); [done|].
  assert (q1 ≤ q2); [|nia]. assert (alignment * (q1 - q2) < alignment * 1) by lia.
  apply Z.mul_lt_mono_pos_l in H0; lia.
Qed.

Section FreeArea.
Context (m : KMemoryBlockManager).
Context (region_start region_num_pages num_pages alignment offset guard_pages : Z).
Hypothesis Hwf : mgr_wf m.
Hypothesis Hargs :
  area_args m region_start region_num_pages num_pages alignment offset guard_pages.

(** The area with its guard pages. *)
Definition area_lo (area : Z) : Z := area - guard_pages * PageSize.
Definition area_hi (area : Z) : Z := area + (num_pages + guard_pages) * PageSize.
Definition region_end : Z := region_start + region_num_pages * PageSize.

Lemma block_area_eq b : b ∈ m_memory_block_tree m → 0 < num_pages →
  let base := Z.max region_start (m_address b) + guard_pages * PageSize in
  ∃ area, base ≤ area < base + alignment ∧ (area - offset) mod alignment = 0 ∧
  free_area_in (KMemoryBlock_GetMemoryInfo b) region_start (region_end - 1) num_pages
    alignment offset guard_pages =
  if area_hi area <=? Z.min region_end (bend b) then Some area else None.
Proof.
  intros Hb Hnp. destruct Hargs as [[? ?] ? [? ?] ? Hbound].
  pose proof (tiles_bounds _ _ _ (wf_tiles _ Hwf)) as Hbd. rewrite Forall_forall in Hbd.
  destruct (Hbd b Hb) as (Hf & ? & ?).
  destruct (free_area_in_eq b region_start (region_end - 1) num_pages alignment offset guard_pages)
    as (area & ? & ? & E); try done; [rewrite PageSize_eq in *; lia|].
  exists area. replace (region_end - 1 + 1) with region_end in E by lia. done.
Qed.

Lemma find_free_area_sound l area :
  0 < num_pages → (∀ b, b ∈ l → b ∈ m_memory_block_tree m) →
  find_free_area l region_start (region_end - 1) num_pages alignment offset guard_pages = area →
  area ≠ 0 →
  (area - offset) mod alignment = 0 ∧ region_start ≤ area_lo area ∧ area_hi area ≤ region_end ∧
  ∃ b, b ∈ m_memory_block_tree m ∧ m_memory_state b = KMemoryState_Free ∧
    m_address b ≤ area_lo area ∧ area_hi area ≤ bend b.
Proof.
  intros Hnp Hl <-. induction l as [|b l IH]; [done|]. cbn [find_free_area].
  destruct (region_end - 1 <? _); [done|]. cbn [info_state KMemoryBlock_GetMemoryInfo].
  destruct (m_memory_state b =? KMemoryState_Free) eqn:E; bool_prop; cbn [negb];
    [|apply IH; set_solver].
  destruct (block_area_eq b (Hl b ltac:(left)) Hnp) as (ar & ? & ? & Eq). rewrite Eq.
  destruct (_ <=? Z.min _ _) eqn:E'; bool_prop; [|apply IH; set_solver].
  intros _. unfold area_lo. split_and!; [done|lia|lia|]. exists b.
  split_and!; [apply Hl; left|done|lia|lia].
Qed.

Lemma find_free_area_complete l st b x :
  0 < num_pages → 0 < region_start → tiles st l (m_end_address m) →
  (∀ b, b ∈ l → b ∈ m_memory_block_tree m) →
  b ∈ l → m_memory_state b = KMemoryState_Free →
  Z.max region_start (m_address b) ≤ area_lo x → area_hi x ≤ Z.min region_end (bend b) →
  (x - offset) mod alignment = 0 →
  find_free_area l region_start (region_end - 1) num_pages alignment offset guard_pages ≠ 0.
Proof.
  intros Hnp Hrs Ht Hl Hb Hst Hlo Hhi Hx. revert st Ht.
  induction l as [|c l IH]; [by apply elem_of_nil in Hb|]. intros st (Ec & Hf & Ht).
  destruct Hargs as [[? ?] ? [? ?] ? _]. unfold area_lo, area_hi in *.
  cbn [find_free_area info_address info_state KMemoryBlock_GetMemoryInfo].
  assert (m_address c ≤ m_address b).
  { apply elem_of_cons in Hb as [->|Hb]; [lia|]. apply tiles_bounds in Ht.
    rewrite Forall_forall in Ht. destruct (Ht b Hb) as (_ & ? & _). pose proof (fits_lt c Hf). lia. }
  rewrite (proj2 (Z.ltb_ge _ (m_address c))) by (rewrite PageSize_eq in *; lia).
  assert (Hrest : b ∈ l → find_free_area l region_start (region_end - 1) num_pages alignment
    offset guard_pages ≠ 0) by (intros Hin; eapply IH; eauto; set_solver).
  destruct (block_area_eq c (Hl c ltac:(left)) Hnp) as (ar & Har & Hm & Eq).
  apply elem_of_cons in Hb as [->|Hb].
  - rewrite Hst, Z.eqb_refl. cbn [negb]. rewrite Eq.
    pose proof (aligned_least ar x _ offset alignment ltac:(lia) Har ltac:(lia) Hm Hx).
    unfold area_hi. rewrite (proj2 (Z.leb_le _ _)) by lia. rewrite PageSize_eq in *. lia.
  - destruct (_ =? KMemoryState_Free); cbn [negb]; [|by apply Hrest].
    rewrite Eq. destruct (_ <=? Z.min _ _); [|by apply Hrest]. rewrite PageSize_eq in *. lia.
Qed.
End FreeArea.

Lemma FindFreeArea_unfold m region_start region_num_pages num_pages alignment offset guard_pages :
  area_args m region_start region_num_pages num_pages alignment offset guard_pages →
  0 < num_pages →
  KMemoryBlockManager_FindFreeArea m region_start region_num_pages num_pages alignment offset
    guard_pages =
  find_free_area
    (drop (KMemoryBlockManager_FindIterator (m_memory_block_tree m) region_start)
          (m_memory_block_tree m))
    region_start (region_end region_start region_num_pages - 1) num_pages alignment offset
    guard_pages.
Proof.
  intros [[? ?] ? [? ?] ? Hb] Hnp. unfold KMemoryBlockManager_FindFreeArea, region_end.
  rewrite (proj2 (Z.ltb_lt 0 num_pages)) by done. rewrite PageSize_eq in *. by u_simpl.
Qed.

(** a non-null result of [FindFreeArea] has the wanted alignment and offset,
    and it lies, guard pages on both sides included, inside the region and on
    free pages only. *)
Theorem FindFreeArea_sound m region_start region_num_pages num_pages alignment offset
    guard_pages area :
  mgr_wf m →
  area_args m region_start region_num_pages num_pages alignment offset guard_pages →
  KMemoryBlockManager_FindFreeArea m region_start region_num_pages num_pages alignment offset
    guard_pages = area →
  area ≠ 0 →
  (area - offset) mod alignment = 0 ∧
  region_start + guard_pages * PageSize ≤ area ∧
  area + (num_pages + guard_pages) * PageSize ≤ region_start + region_num_pages * PageSize ∧
  ∀ x, area - guard_pages * PageSize ≤ x < area + (num_pages + guard_pages) * PageSize →
    pp_state <$> pages m x = Some KMemoryState_Free.
Proof.
  intros Hwf Hargs E Hne. destruct (decide (0 < num_pages)) as [Hnp|Hnp].
  - rewrite FindFreeArea_unfold in E by done.
    eapply find_free_area_sound in E as (Hm & Hlo & Hhi & b & Hb & Hst & Hbl & Hbh); try done.
    + unfold area_lo, area_hi, region_end in *. split_and!; [done|lia|lia|].
      intros x Hx. assert (pages m x = Some (props b)) as ->; [|simpl; by f_equal].
      eapply pages_Some; [by apply wf_tiles|]. exists b. split; [split; [done|lia]|done].
    + intros b Hb. rewrite <- (take_drop (KMemoryBlockManager_FindIterator
        (m_memory_block_tree m) region_start) (m_memory_block_tree m)). set_solver.
  - unfold KMemoryBlockManager_FindFreeArea in E.
    rewrite (proj2 (Z.ltb_ge 0 num_pages)) in E by lia. done.
Qed.

(** C10: [FindFreeArea] finds an area whenever one free block holds an aligned
    area with its guard pages inside the region. *)
Theorem FindFreeArea_complete m region_start region_num_pages num_pages alignment offset
    guard_pages b x :
  mgr_wf m →
  area_args m region_start region_num_pages num_pages alignment offset guard_pages →
  0 < num_pages → m_start_address m ≤ region_start → 0 < region_start →
  KMemoryBlockManager_FindBlock m x = Some b → m_memory_state b = KMemoryState_Free →
  (x - offset) mod alignment = 0 →
  Z.max region_start (m_address b) + guard_pages * PageSize ≤ x →
  x + (num_pages + guard_pages) * PageSize ≤
    Z.min (region_start + region_num_pages * PageSize) (bend b) →
  KMemoryBlockManager_FindFreeArea m region_start region_num_pages num_pages alignment offset
    guard_pages ≠ 0.
Proof.
  intros Hwf Hargs Hnp Hst Hrs Hx Hf Hm Hlo Hhi. rewrite FindFreeArea_unfold by done.
  pose proof (wf_tiles _ Hwf) as Ht. eapply FindBlock_spec in Hx as [Hb Hbx]; [|done].
  pose proof (tiles_bounds _ _ _ Ht) as Hbd. rewrite Forall_forall in Hbd.
  destruct (Hbd b Hb) as (_ & _ & ?). destruct Hargs as [? ? ? Hg ?] eqn:EH; clear EH.
  destruct (tiles_split _ _ _ region_start Ht) as (l1 & c & l2 & E & Hc & Ht1 & Hfc & Ht2).
  { rewrite PageSize_eq in *. lia. }
  rewrite E in *. rewrite (FindIterator_app _ _ _ _ _ _ Ht Hc), drop_app_length.
  eapply (find_free_area_complete m _ _ _ _ _ _ Hwf Hargs _ (m_address c) b x); try done.
  - intros d Hd. rewrite E. set_solver.
  - apply elem_of_app in Hb as [Hb|Hb]; [|done]. apply tiles_bounds in Ht1.
    rewrite Forall_forall in Ht1. destruct (Ht1 b Hb) as (_ & ? & ?).
    rewrite PageSize_eq in *. lia.
  - unfold area_lo. lia.
Qed.

(** ** Initialize and the update allocator *)
Definition free_props : PageProps :=
  MkProps KMemoryState_Free KMemoryPermission_None KMemoryPermission_None
    KMemoryAttribute_None 0 0.

Lemma page_div x y : x mod PageSize = 0 → y mod PageSize = 0 → x < y →
  x + (y - x) / PageSize * PageSize = y.
Proof. intros Hx Hy Hlt. destruct (page_quot _ _ Hx Hy Hlt) as [_ ->]. lia. Qed.

Section Initialize.
Context {S : Type} `{SlabLaws S}.

Lemma Initialize_run st nd (s s' : S) m :
  0 ≤ st < nd → nd < 2 ^ 64 → st mod PageSize = 0 → nd mod PageSize = 0 →
  m_memory_block_tree m = [] → slab_Allocate s = Some s' →
  ∃ m', KMemoryBlockManager_Initialize st nd s m = Done true (ResultSuccess, s', m') ∧
    mgr_wf m' ∧ m_start_address m' = st ∧ m_end_address m' = nd ∧
    ∀ x, st ≤ x < nd → pages m' x = Some free_props.
Proof.
  intros Hst Hnd Hs He Ht Hs'. unfold KMemoryBlockManager_Initialize. rewrite Hs'.
  rewrite (proj2 (IsAligned_page st)), (proj2 (IsAligned_page nd)) by done.
  unfold ASSERT. pstep. rewrite Ht. cbn [tree_insert]. pstep.
  eexists. split; [done|].
  rewrite (u64_id (nd - st)) by (unfold is_u64; lia).
  set (b := KMemoryBlock_Initialize _ _ _ _ _ _).
  assert (Eb : bend b = nd) by (apply page_div; [done..|lia]).
  assert (Hf : fits b).
  { unfold fits. rewrite Eb. simpl. split_and!; [lia| |done..]. by apply page_quot; [..|lia]. }
  assert (Hw : mgr_wf (MkManager [b] st nd)).
  { split; simpl; [lia|done|done|split; [intros ? [=]|done]|].
    constructor; [done|constructor]. }
  split_and!; [done..|]. intros x Hx. eapply pages_Some; [by apply (wf_tiles _ Hw)|].
  exists b. split; [|done]. split; [left|]. rewrite Eb. simpl. lia.
Qed.

(** [Initialize] leaves a well-formed manager in which every page of the
    address space is free, and reports exhaustion of the slab as
    [ResultOutOfResource] without touching anything. *)
Theorem KMemoryBlockManager_Initialize_correct st nd (s : S) m :
  0 ≤ st < nd → nd < 2 ^ 64 → st mod PageSize = 0 → nd mod PageSize = 0 →
  m_memory_block_tree m = [] →
  match slab_Allocate s with
  | Some s' =>
      wp (KMemoryBlockManager_Initialize st nd s m) (λ '(r, s1, m'),
        r = ResultSuccess ∧ s1 = s' ∧ mgr_wf m' ∧ m_start_address m' = st ∧
        m_end_address m' = nd ∧ ∀ x, st ≤ x < nd → pages m' x = Some free_props)
  | None => KMemoryBlockManager_Initialize st nd s m = Done true (ResultOutOfResource, s, m)
  end.
Proof.
  intros. destruct (slab_Allocate s) as [s'|] eqn:Es.
  - edestruct Initialize_run as (m' & -> & ?); eauto. simpl. naive_solver.
  - unfold KMemoryBlockManager_Initialize. by rewrite Es.
Qed.

Lemma UpdateAllocator_Initialize_1 (s : S) :
  UpdateAllocator_Initialize s 1 =
  match slab_Allocate s with
  | None => Done true (ResultOutOfResource, MkAllocator [false; false] 1 s)
  | Some s1 => Done true (ResultSuccess, alloc 1 s1)
  end.
Proof.
  unfold UpdateAllocator_Initialize, ASSERT. change (1 <=? MaxBlocks) with true. pstep.
  change (Z.to_nat (Z.min 1 MaxBlocks)) with 1%nat. change (u64 (MaxBlocks - 1)) with 1.
  cbn [UpdateAllocator_fill ua_slab ua_blocks ua_index]. by destruct (slab_Allocate s).
Qed.

Lemma UpdateAllocator_Initialize_2 (s : S) :
  UpdateAllocator_Initialize s 2 =
  match slab_Allocate s with
  | None => Done true (ResultOutOfResource, MkAllocator [false; false] 0 s)
  | Some s1 =>
      match slab_Allocate s1 with
      | None => Done true (ResultOutOfResource, MkAllocator [true; false] 0 s1)
      | Some s2 => Done true (ResultSuccess, alloc 2 s2)
      end
  end.
Proof.
  unfold UpdateAllocator_Initialize, ASSERT. change (2 <=? MaxBlocks) with true. pstep.
  change (Z.to_nat (Z.min 2 MaxBlocks)) with 2%nat. change (u64 (MaxBlocks - 2)) with 0.
  cbn [UpdateAllocator_fill ua_slab ua_blocks ua_index].
  destruct (slab_Allocate s) as [s1|]; [|done].
  change (arr_set [false; false] (u64 (0 + 0)) true) with (Done true [true; false]). pstep. cbn [ua_slab ua_blocks ua_index].
  by destruct (slab_Allocate s1).
Qed.

Lemma alloc_destroy n (s : S) :
  (n ≤ 2)%nat → slab_size (UpdateAllocator_destroy (alloc n s)) = (n + slab_size s)%nat.
Proof.
  intros Hn. destruct n as [|[|[|n]]]; [..|lia]; unfold UpdateAllocator_destroy; simpl;
    rewrite ?slab_size_Free; done.
Qed.

Lemma allocated (n : nat) (s s' : S) :
  (n ≤ 2)%nat → (slab_size s' + n = slab_size s)%nat →
  (if decide (n ≤ slab_size s)%nat
   then ResultSuccess = ResultSuccess ∧
        ∃ s1, alloc n s' = alloc n s1 ∧ (slab_size s1 + n = slab_size s)%nat
   else ResultSuccess = ResultOutOfResource) ∧
  blocks_left (alloc n s') = slab_size s ∧
  slab_size (UpdateAllocator_destroy (alloc n s')) = slab_size s.
Proof.
  intros Hn Hs. rewrite alloc_destroy, blocks_left_alloc by done. case_decide; [|lia].
  split_and!; [done|by exists s'|lia|lia].
Qed.

(** The update allocator hands out exactly the blocks it was initialised
    with: initialising takes [n] blocks from the slab, or fails with
    [ResultOutOfResource] when the slab has fewer, and destroying it afterwards
    gives every block back in both cases. *)
Theorem UpdateAllocator_Initialize_correct (s : S) (n : nat) :
  (n ≤ 2)%nat → (∀ s, slab_Allocate s = None → slab_size s = 0%nat) →
  wp (UpdateAllocator_Initialize s (Z.of_nat n)) (λ '(r, a),
    (if decide (n ≤ slab_size s)%nat
     then r = ResultSuccess ∧ ∃ s', a = alloc n s' ∧ (slab_size s' + n = slab_size s)%nat
     else r = ResultOutOfResource) ∧
    blocks_left a = slab_size s ∧
    slab_size (UpdateAllocator_destroy a) = slab_size s).
Proof.
  intros Hn Hnone. destruct n as [|[|[|n]]]; [..|lia].
  - split_and!; [|done..]. case_decide; [|lia]. split; [done|]. exists s. split; [done|lia].
  - rewrite UpdateAllocator_Initialize_1. destruct (slab_Allocate s) as [s1|] eqn:E1.
    + apply slab_size_Allocate in E1. apply allocated; lia.
    + apply Hnone in E1. split_and!; [|done..]. case_decide; [lia|done].
  - rewrite UpdateAllocator_Initialize_2. destruct (slab_Allocate s) as [s1|] eqn:E1.
    + apply slab_size_Allocate in E1. destruct (slab_Allocate s1) as [s2|] eqn:E2.
      * apply slab_size_Allocate in E2. apply allocated; lia.
      * apply Hnone in E2. split_and!; [case_decide; [lia|done]|unfold blocks_left; simpl; lia|].
        unfold UpdateAllocator_destroy. simpl. rewrite slab_size_Free. lia.
    + apply Hnone in E1. split_and!; [|done..]. case_decide; [lia|done].
Qed.
End Initialize.

(** ** Reachable managers

    The states of a manager that is initialised once and then changed by its
    operations, each called within its contract: [Update], [UpdateIfMatch],
    [UpdateAttribute], and [UpdateLock] with the functions for IPC and for
    devices.  The contracts are what the assertions of the code ask of the blocks
    of the range, enough preallocated blocks, and, for a range inside the first
    block, that this block needs the change. *)
Section Reachable.
Context {S : Type} `{SlabLaws S}.

Inductive mgr_reachable : KMemoryBlockManager → Prop :=
| reach_Initialize st nd (s s' : S) m m' :
    0 ≤ st < nd → nd < 2 ^ 64 → st mod PageSize = 0 → nd mod PageSize = 0 →
    m_memory_block_tree m = [] → slab_Allocate s = Some s' →
    KMemoryBlockManager_Initialize st nd s m = Done true (ResultSuccess, s', m') →
    mgr_reachable m'
| reach_Update m m' n (s : S) a' address num_pages st pm at' dset dclear :
    mgr_reachable m → update_args m address num_pages n → Z.land at' lock_mask = 0 →
    (∀ b, b ∈ m_memory_block_tree m → overlaps address (address + num_pages * PageSize) b →
       KMemoryBlock_HasProperties b st pm at' = false → updatable b) →
    (∀ d, head (m_memory_block_tree m) = Some d → m_address d < address < bend d →
       KMemoryBlock_HasProperties d st pm at' = false) →
    KMemoryBlockManager_Update m (alloc n s) address num_pages st pm at' dset dclear
      = Done true (a', m') →
    mgr_reachable m'
| reach_UpdateIfMatch m m' n (s : S) a' address num_pages ts tp ta st pm at' dset dclear :
    mgr_reachable m → update_args m address num_pages n → Z.land at' lock_mask = 0 →
    (∀ b, b ∈ m_memory_block_tree m → overlaps address (address + num_pages * PageSize) b →
       KMemoryBlock_HasProperties b ts tp ta = true → updatable b) →
    (∀ d, head (m_memory_block_tree m) = Some d → m_address d < address < bend d →
       KMemoryBlock_HasProperties d ts tp ta = true ∧ KMemoryBlock_HasProperties d st pm at' = false) →
    KMemoryBlockManager_UpdateIfMatch m (alloc n s) address num_pages ts tp ta st pm at' dset dclear
      = Done true (a', m') →
    mgr_reachable m'
| reach_UpdateAttribute m m' n (s : S) a' address num_pages mask attr :
    mgr_reachable m → update_args m address num_pages n →
    Z.land mask lock_mask = 0 → Z.land attr lock_mask = 0 →
    (∀ d, head (m_memory_block_tree m) = Some d → m_address d < address < bend d →
       Z.land (m_attribute d) mask ≠ attr) →
    KMemoryBlockManager_UpdateAttribute m (alloc n s) address num_pages mask attr = Done true (a', m') →
    mgr_reachable m'
| reach_Device m m' n (s : S) a' address num_pages fn pre g perm :
    mgr_reachable m → update_args m address num_pages n →
    device_function (address + num_pages * PageSize) fn pre g →
    (∀ b, b ∈ m_memory_block_tree m → overlaps address (address + num_pages * PageSize) b → pre b) →
    KMemoryBlockManager_UpdateLock m (alloc n s) address num_pages fn perm = Done true (a', m') →
    mgr_reachable m'
| reach_LockForIpc m m' n (s : S) a' address num_pages new_perm :
    mgr_reachable m → update_args m address num_pages n →
    (∀ b, b ∈ m_memory_block_tree m → overlaps address (address + num_pages * PageSize) b →
       ipc_lockable new_perm b) →
    KMemoryBlockManager_UpdateLock m (alloc n s) address num_pages KMemoryBlock_LockForIpc
      new_perm = Done true (a', m') →
    mgr_reachable m'
| reach_UnlockForIpc m m' n (s : S) a' address num_pages new_perm :
    mgr_reachable m → update_args m address num_pages n →
    (∀ b, b ∈ m_memory_block_tree m → overlaps address (address + num_pages * PageSize) b →
       ipc_unlockable address b) →
    KMemoryBlockManager_UpdateLock m (alloc n s) address num_pages KMemoryBlock_UnlockForIpc
      new_perm = Done true (a', m') →
    mgr_reachable m'.

Lemma wp_Done_inv {A} (p : prog A) (Q : A → Prop) r : wp p Q → p = Done true r → Q r.
Proof. by intros Hw ->. Qed.


Lemma reachable_wf m : mgr_reachable m → mgr_wf m.
Proof.
  induction 1 as [st nd s s' m m' ? ? ? ? ? ? E|m m' n s a' address np st pm at' ds dc ? _ ? ? ? ? E
    |m m' n s a' address np ts tp ta st pm at' ds dc ? _ ? ? ? ? E|m m' n s a' address np mask attr ? _ ? ? ? ? E
    |m m' n s a' address np fn pre g perm ? _ ? ? ? E
    |m m' n s a' address np perm ? _ ? ? E|m m' n s a' address np perm ? _ ? ? E].
  - edestruct Initialize_run as (m1 & E1 & Hwf & _); [done..|]. congruence.
  - eapply wp_Done_inv in E; [|by apply Update_updated]. apply E.
  - eapply wp_Done_inv in E; [|by apply KMemoryBlockManager_UpdateIfMatch_correct]. apply E.
  - eapply wp_Done_inv in E; [|by apply KMemoryBlockManager_UpdateAttribute_correct]. apply E.
  - eapply wp_Done_inv in E; [|by eapply Device_run]. apply E.
  - eapply wp_Done_inv in E; [|by apply Lock_run]. apply E.
  - eapply wp_Done_inv in E; [|by apply Unlock_run]. apply E.
Qed.

(** C21: in every manager reached from [Initialize] by [Update], [UpdateIfMatch],
    [UpdateAttribute], and [UpdateLock] with the functions that lock and unlock for
    IPC and share with devices, the debug check [CheckState] succeeds: the blocks
    are contiguous, no two neighbours could be merged, and the lock counts agree
    with the attributes.  Each operation is called on a range of pages with as many
    preallocated blocks as the range has ends inside a block, on blocks that pass
    the assertions of the change, and, if the range starts inside the first block of
    the manager, with a change that this block needs. *)
Theorem reachable_CheckState m :
  mgr_reachable m → KMemoryBlockManager_CheckState m = Done true true.
Proof. intros Hm. by apply wf_CheckState, reachable_wf. Qed.
End Reachable.
