(* ===== verification/MemoryBlockManagerExamples.v ===== *)
(** * KMemoryBlockManager on concrete address spaces

    A small manager, the operations run on it, and the theorems of
    [MemoryBlockManagerTheorems] at these inputs. *)

From S2P Require Import Prelude Common MemoryBlock OrderedTree MemoryBlockManager MemoryBlockManagerLemmas MemoryBlockManagerUpdate MemoryBlockManagerTheorems.

Definition ex_block (address pages state perm : Z) : KMemoryBlock :=
  KMemoryBlock_new address pages state perm KMemoryAttribute_None.

(** 512 free pages, and the same space with 16 pages of heap in it. *)
Definition ex_empty : KMemoryBlockManager := MkManager [] 0 0.
Definition ex_free : KMemoryBlockManager :=
  MkManager [ex_block 0x200000 512 KMemoryState_Free KMemoryPermission_None] 0x200000 0x400000.
Definition ex_heap : KMemoryBlockManager :=
  MkManager
    [ex_block 0x200000 16 KMemoryState_Free KMemoryPermission_None;
     ex_block 0x210000 16 KMemoryState_Normal KMemoryPermission_UserReadWrite;
     ex_block 0x220000 480 KMemoryState_Free KMemoryPermission_None] 0x200000 0x400000.

Ltac mgr_wf_compute :=
  split; simpl;
  [split; vm_compute; congruence
  |vm_compute; congruence
  |unfold fits; repeat split; vm_compute; congruence
  |repeat split; intros ? [=]; subst; reflexivity
  |repeat constructor].

Lemma ex_free_wf : mgr_wf ex_free.
Proof. mgr_wf_compute. Qed.
Lemma ex_heap_wf : mgr_wf ex_heap.
Proof. mgr_wf_compute. Qed.

Ltac each_block H :=
  repeat (apply elem_of_cons in H as [->|H]); [..|by apply elem_of_nil in H].

(** Sixteen pages from the middle of the heap and its right neighbour. *)
Lemma ex_heap_args : update_args ex_heap 0x218000 16 2.
Proof.
  split; [apply ex_heap_wf|lia|reflexivity|vm_compute; congruence|vm_compute; congruence|].
  vm_compute. lia.
Qed.
Lemma ex_free_args : update_args ex_free 0x300000 16 2.
Proof.
  split; [apply ex_free_wf|lia|reflexivity|vm_compute; congruence|vm_compute; congruence|].
  vm_compute. lia.
Qed.
(** The last half of the heap. *)
Lemma ex_heap_lock_args : update_args ex_heap 0x218000 8 2.
Proof.
  split; [apply ex_heap_wf|lia|reflexivity|vm_compute; congruence|vm_compute; congruence|].
  vm_compute. lia.
Qed.

Lemma ex_heap_updatable b : b ∈ m_memory_block_tree ex_heap → updatable b.
Proof. intros Hb. each_block Hb; done. Qed.

Lemma ex_heap_lockable b :
  b ∈ m_memory_block_tree ex_heap → overlaps 0x218000 (0x218000 + 8 * PageSize) b →
  ipc_lockable KMemoryPermission_UserRead b ∧ m_permission b ≠ KMemoryPermission_None.
Proof.
  intros Hb Ho. each_block Hb.
  - destruct Ho as [_ Ho]. by vm_compute in Ho.
  - split; [|done]. split; simpl; try done; lia.
  - destruct Ho as [Ho _]. by vm_compute in Ho.
Qed.

Lemma KMemoryBlockManager_Update_correct_witness :
  wp (KMemoryBlockManager_Update ex_heap (alloc 2 (0%nat)) 0x218000 16 KMemoryState_Code
        KMemoryPermission_UserReadExecute 0 DisableMerge_Normal 0)
     (updated 0x218000 16 (set_props KMemoryState_Code KMemoryPermission_UserReadExecute 0)
        ex_heap 2 0%nat).
Proof.
  apply KMemoryBlockManager_Update_correct; [apply ex_heap_args|reflexivity|..].
  - intros b Hb _ _. by apply ex_heap_updatable.
  - intros d [= <-] _. reflexivity.
Defined.

Lemma KMemoryBlockManager_UpdateIfMatch_correct_witness :
  wp (KMemoryBlockManager_UpdateIfMatch ex_heap (alloc 2 (0%nat)) 0x218000 16
        KMemoryState_Normal KMemoryPermission_UserReadWrite 0
        KMemoryState_Code KMemoryPermission_UserReadExecute 0 0 0)
     (updated 0x218000 16
        (λ q, if (pp_state q =? KMemoryState_Normal) &&
                 (pp_permission q =? KMemoryPermission_UserReadWrite) &&
                 (Z.lor (pp_attribute q) lock_mask =? Z.lor 0 lock_mask)
              then set_props KMemoryState_Code KMemoryPermission_UserReadExecute 0 q else q)
        ex_heap 2 0%nat).
Proof.
  apply KMemoryBlockManager_UpdateIfMatch_correct; [apply ex_heap_args|reflexivity|..].
  - intros b Hb _ _. by apply ex_heap_updatable.
  - intros d [= <-] [_ Hd]. by vm_compute in Hd.
Defined.

Lemma KMemoryBlockManager_UpdateAttribute_correct_witness :
  wp (KMemoryBlockManager_UpdateAttribute ex_free (alloc 2 (0%nat)) 0x300000 16
        KMemoryAttribute_Uncached KMemoryAttribute_Uncached)
     (updated 0x300000 16 (set_attr KMemoryAttribute_Uncached KMemoryAttribute_Uncached)
        ex_free 2 0%nat).
Proof.
  apply KMemoryBlockManager_UpdateAttribute_correct; [apply ex_free_args|reflexivity..|].
  intros d [= <-] _. vm_compute. congruence.
Defined.

Lemma KMemoryBlockManager_LockForIpc_correct_witness :
  wp (KMemoryBlockManager_UpdateLock ex_heap (alloc 2 (0%nat)) 0x218000 8
        KMemoryBlock_LockForIpc KMemoryPermission_UserRead)
     (updated 0x218000 8 (lock_props KMemoryPermission_UserRead) ex_heap 2 0%nat).
Proof.
  apply KMemoryBlockManager_LockForIpc_correct; [apply ex_heap_lock_args|].
  intros b Hb Ho. by apply ex_heap_lockable.
Defined.

Lemma KMemoryBlockManager_lock_unlock_roundtrip_witness :
  wp (KMemoryBlockManager_UpdateLock ex_heap (alloc 2 (0%nat)) 0x218000 8
        KMemoryBlock_LockForIpc KMemoryPermission_UserRead)
     (λ r, ∀ s2 perm2,
        wp (KMemoryBlockManager_UpdateLock r.2 (alloc 2 s2) 0x218000 8
              KMemoryBlock_UnlockForIpc perm2)
           (λ r2, mgr_wf r2.2 ∧ ∀ x, pages r2.2 x = pages ex_heap x)).
Proof.
  apply KMemoryBlockManager_lock_unlock_roundtrip; [apply ex_heap_lock_args|].
  intros b Hb Ho. by apply ex_heap_lockable.
Defined.

Lemma ex_heap_area : area_args ex_heap 0x200000 512 32 0x10000 0x1000 4.
Proof. split; vm_compute; split_and?; congruence. Qed.

(** The heap is in the way of the first candidate. *)
Example ex_heap_FindFreeArea :
  KMemoryBlockManager_FindFreeArea ex_heap 0x200000 512 32 0x10000 0x1000 4 = 0x231000.
Proof. vm_compute. reflexivity. Qed.

Lemma FindFreeArea_sound_witness :
  (0x231000 - 0x1000) mod 0x10000 = 0 ∧
  0x200000 + 4 * PageSize ≤ 0x231000 ∧
  0x231000 + (32 + 4) * PageSize ≤ 0x200000 + 512 * PageSize ∧
  ∀ x, 0x231000 - 4 * PageSize ≤ x < 0x231000 + (32 + 4) * PageSize →
    pp_state <$> pages ex_heap x = Some KMemoryState_Free.
Proof.
  apply FindFreeArea_sound; [apply ex_heap_wf|apply ex_heap_area|reflexivity|lia].
Defined.

Lemma FindFreeArea_complete_witness :
  KMemoryBlockManager_FindFreeArea ex_heap 0x200000 512 32 0x10000 0x1000 4 ≠ 0.
Proof.
  apply (FindFreeArea_complete _ _ _ _ _ _ _
    (ex_block 0x220000 480 KMemoryState_Free KMemoryPermission_None) 0x241000);
    [apply ex_heap_wf|apply ex_heap_area|lia|vm_compute; congruence|lia|reflexivity..| |];
    vm_compute; congruence.
Defined.

Lemma KMemoryBlockManager_Initialize_correct_witness :
  wp (KMemoryBlockManager_Initialize 0x200000 0x400000 (1%nat) ex_empty) (λ '(r, s1, m'),
    r = ResultSuccess ∧ s1 = 0%nat ∧ mgr_wf m' ∧ m_start_address m' = 0x200000 ∧
    m_end_address m' = 0x400000 ∧
    ∀ x, 0x200000 ≤ x < 0x400000 → pages m' x = Some free_props).
Proof.
  assert (Hi := KMemoryBlockManager_Initialize_correct 0x200000 0x400000 (1%nat) ex_empty
    ltac:(lia) ltac:(lia) eq_refl eq_refl eq_refl).
  cbn [slab_Allocate counting_slab] in Hi. exact Hi.
Defined.

Lemma UpdateAllocator_Initialize_correct_witness :
  wp (UpdateAllocator_Initialize (1%nat) (Z.of_nat 2)) (λ '(r, a),
    r = ResultOutOfResource ∧ blocks_left a = 1%nat ∧
    slab_size (UpdateAllocator_destroy a) = 1%nat).
Proof.
  assert (Hi : ∀ s : nat, slab_Allocate s = None → slab_size s = 0%nat) by (by intros [|n]).
  exact (UpdateAllocator_Initialize_correct (1%nat) 2 ltac:(lia) Hi).
Defined.

(** A heap is made in the free space, half of it is made uncached, and the other half
    is shared with a device. *)
Definition manager_of (r : prog (UpdateAllocator nat * KMemoryBlockManager)) : KMemoryBlockManager :=
  match r with Done _ (_, m) => m | Stuck => ex_empty end.
Definition allocator_of (r : prog (UpdateAllocator nat * KMemoryBlockManager)) : UpdateAllocator nat :=
  match r with Done _ (a, _) => a | Stuck => alloc 2 0%nat end.

Definition ex_make_heap := KMemoryBlockManager_Update ex_free (alloc 2 0%nat) 0x210000 16
  KMemoryState_Normal KMemoryPermission_UserReadWrite 0 0 0.
Definition ex_make_uncached := KMemoryBlockManager_UpdateAttribute ex_heap (alloc 2 0%nat) 0x210000 8
  KMemoryAttribute_Uncached KMemoryAttribute_Uncached.
Definition ex_uncached : KMemoryBlockManager := manager_of ex_make_uncached.
Definition ex_share := KMemoryBlockManager_UpdateLock ex_uncached (alloc 2 0%nat) 0x218000 8
  KMemoryBlock_ShareToDevice 0.
Definition ex_shared : KMemoryBlockManager := manager_of ex_share.

Lemma ex_free_reachable : mgr_reachable (S := nat) ex_free.
Proof. apply (reach_Initialize 0x200000 0x400000 1%nat 0%nat ex_empty); try reflexivity; lia. Qed.

Lemma ex_heap_reachable : mgr_reachable (S := nat) ex_heap.
Proof.
  eapply (reach_Update ex_free ex_heap 2 0%nat (allocator_of ex_make_heap) 0x210000 16 KMemoryState_Normal
    KMemoryPermission_UserReadWrite 0 0 0); [apply ex_free_reachable| |reflexivity|..|vm_compute; reflexivity].
  - split; [apply ex_free_wf|lia|reflexivity|vm_compute; congruence|vm_compute; congruence|vm_compute; lia].
  - intros b Hb _ _. each_block Hb; done.
  - intros d [= <-] _. reflexivity.
Qed.

Lemma ex_uncached_reachable : mgr_reachable (S := nat) ex_uncached.
Proof.
  eapply (reach_UpdateAttribute ex_heap ex_uncached 2 0%nat (allocator_of ex_make_uncached) 0x210000 8
    KMemoryAttribute_Uncached KMemoryAttribute_Uncached); [apply ex_heap_reachable| |reflexivity|reflexivity|..|vm_compute; reflexivity].
  - split; [apply ex_heap_wf|lia|reflexivity|vm_compute; congruence|vm_compute; congruence|vm_compute; lia].
  - intros d [= <-] Hd. by vm_compute in Hd.
Qed.

Lemma reachable_CheckState_witness :
  KMemoryBlockManager_CheckState ex_shared = Done true true ∧
  pp_device_use_count <$> pages ex_shared 0x218000 = Some 1.
Proof.
  split; [|vm_compute; reflexivity]. apply (reachable_CheckState (S := nat)).
  eapply (reach_Device ex_uncached ex_shared 2 0%nat (allocator_of ex_share) 0x218000 8
    KMemoryBlock_ShareToDevice device_shareable share_props 0);
    [apply ex_uncached_reachable| |apply df_share| |vm_compute; reflexivity].
  - split; [apply (reachable_wf (S := nat)), ex_uncached_reachable|lia|reflexivity|vm_compute; congruence|vm_compute; congruence
      |vm_compute; lia].
  - intros b Hb _. vm_compute in Hb. each_block Hb; repeat split; vm_compute; congruence.
Defined.

(** setting pages in the middle of the first block to the properties they
    already have steps the coalescing iterator back from the first block, to the
    null node, and then dereferences it. *)
Theorem Update_noop_in_first_block_stuck :
  KMemoryBlockManager_Update ex_free (alloc 2 (0%nat)) 0x300000 16 KMemoryState_Free
    KMemoryPermission_None 0 0 0 = Stuck.
Proof. vm_compute. reflexivity. Qed.
