(* ===== verification/PageBitmap.v ===== *)
(** * KPageBitmap (src/src/core/hle/kernel/k_page_bitmap.h)

    The random bit generator and the multi-level bitmap: level 0 is one word,
    the last level holds one bit per block, and a bit of a level says whether
    the word below it has any bit set. *)

From stdpp Require Import gmap.
From S2P Require Import Prelude Common.

(** ** Counting zeros, as [std::countr_zero] and [std::countl_zero] on [u64] *)
Fixpoint countr_zero_pos (p : positive) : Z :=
  match p with xO p => 1 + countr_zero_pos p | _ => 0 end.
Definition countr_zero (v : Z) : Z :=
  match v with Zpos p => countr_zero_pos p | _ => 64 end.
Definition countl_zero (v : Z) : Z := if v =? 0 then 64 else 63 - Z.log2 v.

(** ** The generator behind [m_rng] (common/tiny_mt.h) *)
Class Rng (R : Type) : Type := {
  GenerateRandomU32 : R → Z * R
}.
Class RngLaws (R : Type) `{Rng R} : Prop := {
  GenerateRandomU32_range r : is_u32 (GenerateRandomU32 r).1
}.

(** A generator that repeats one word. *)
#[export] Instance constant_rng : Rng Z := {| GenerateRandomU32 r := (u32 r, r) |}.
#[export] Instance constant_rng_laws : RngLaws Z.
Proof. split. intros r. apply Z.mod_pos_bound. lia. Qed.

Definition BitSize_u64 : Z := 64.

Record RandomBitGenerator (R : Type) : Type := MkRandom {
  m_rng : R;
  m_entropy : Z;
  m_bits_available : Z
}.
Arguments MkRandom {R}.
Arguments m_rng {R}.
Arguments m_entropy {R}.
Arguments m_bits_available {R}.

(** ** KPageBitmap

    [m_bit_storages !! depth] is the level of that depth. *)
Record KPageBitmap (R : Type) : Type := MkBitmap {
  m_bit_storages : list (list Z);
  bm_rng : RandomBitGenerator R;
  m_num_bits : Z;
  m_used_depths : Z
}.
Arguments MkBitmap {R}.
Arguments m_bit_storages {R}.
Arguments bm_rng {R}.
Arguments m_num_bits {R}.
Arguments m_used_depths {R}.

Section Generator.
Context {R : Type} `{Rng R}.

Definition RefreshEntropy (g : RandomBitGenerator R) : RandomBitGenerator R :=
  let '(w, r) := GenerateRandomU32 (m_rng g) in MkRandom r w 32.

Definition GenerateRandomBit (g : RandomBitGenerator R) : bool * RandomBitGenerator R :=
  let g := if m_bits_available g =? 0 then RefreshEntropy g else g in
  (negb (Z.land (m_entropy g) 1 =? 0),
   MkRandom (m_rng g) (Z.shiftr (m_entropy g) 1) (u32 (m_bits_available g - 1))).

(** Shifting the 32-bit entropy by 32 is undefined. *)
Fixpoint GenerateRandomBits_loop (fuel : nat) (num_bits result : Z) (g : RandomBitGenerator R)
    : prog (Z * RandomBitGenerator R) :=
  if 0 <? num_bits then
    match fuel with
    | O => Stuck
    | S fuel =>
        let g := if m_bits_available g =? 0 then RefreshEntropy g else g in
        let cur_bits := Z.min num_bits (m_bits_available g) in
        let mask := u64 (Z.shiftl 1 cur_bits - 1) in
        let result := u64 (Z.shiftl result cur_bits) in
        let result := Z.lor result (Z.land (m_entropy g) mask) in
        if 32 <=? cur_bits then Stuck
        else
          GenerateRandomBits_loop fuel (num_bits - cur_bits) result
            (MkRandom (m_rng g) (Z.shiftr (m_entropy g) cur_bits)
               (m_bits_available g - cur_bits))
    end
  else mret (result, g).

Definition GenerateRandomBits (num_bits : Z) (g : RandomBitGenerator R)
    : prog (Z * RandomBitGenerator R) :=
  GenerateRandomBits_loop (Z.to_nat num_bits) num_bits 0 g.

Definition GenerateRandom (max : Z) (g : RandomBitGenerator R)
    : prog (Z * RandomBitGenerator R) :=
  let bits_needed := 1 + (BitSize_u64 - countl_zero max) in
  '(rnd, g) ← GenerateRandomBits (u32 bits_needed) g;
  if max =? 0 then Stuck else mret (u64 (rnd - u64 (rnd / max * max)), g).

Fixpoint SelectRandomBit_loop (fuel : nat) (cur_num_bits bitmap selected : Z)
    (g : RandomBitGenerator R) : prog (Z * RandomBitGenerator R) :=
  if cur_num_bits =? 0 then mret (selected, g)
  else
    match fuel with
    | O => Stuck
    | S fuel =>
        let high := Z.shiftr bitmap cur_num_bits in
        let low := Z.land bitmap
          (u64 (Z.lnot (u64 (Z.shiftl 0xFFFFFFFFFFFFFFFF cur_num_bits)))) in
        let '(choose_high, g) :=
          if high =? 0 then (false, g)
          else if low =? 0 then (true, g) else GenerateRandomBit g in
        if choose_high : bool then
          SelectRandomBit_loop fuel (cur_num_bits / 2) high (u64 (selected + cur_num_bits)) g
        else SelectRandomBit_loop fuel (cur_num_bits / 2) low selected g
    end.

Definition SelectRandomBit (bitmap : Z) (g : RandomBitGenerator R)
    : prog (Z * RandomBitGenerator R) :=
  SelectRandomBit_loop 6 (BitSize_u64 / 2) bitmap 0 g.

(** ** Initialize *)
Definition MaxDepth : Z := 4.

(** Eleven divisions by 64 bring every [size_t] to zero. *)
Fixpoint GetRequiredDepth_loop (fuel : nat) (region_size depth : Z) : Z :=
  match fuel with
  | O => depth
  | S fuel =>
      let region_size := region_size / BitSize_u64 in
      let depth := depth + 1 in
      if region_size =? 0 then depth else GetRequiredDepth_loop fuel region_size depth
  end.
Definition GetRequiredDepth (region_size : Z) : Z := GetRequiredDepth_loop 11 region_size 0.

(** The levels are cut from the storage from the last one up; the result is the
    list of levels by depth and the storage behind them. *)
Fixpoint Initialize_levels (n : nat) (storage : list Z) (size : Z) (levels : list (list Z))
    : list (list Z) * list Z :=
  match n with
  | O => (levels, storage)
  | S n =>
      let size := AlignUp size BitSize_u64 / BitSize_u64 in
      Initialize_levels n (drop (Z.to_nat size) storage) size
        (take (Z.to_nat size) storage :: levels)
  end.

Definition KPageBitmap_Initialize (b : KPageBitmap R) (storage : list Z) (size : Z)
    : prog (KPageBitmap R * list Z) :=
  let used_depths := GetRequiredDepth size in
  _ ← ASSERT (used_depths <=? MaxDepth);
  let '(levels, storage) := Initialize_levels (Z.to_nat used_depths) storage size [] in
  mret (MkBitmap levels (bm_rng b) 0 used_depths, storage).

Definition KPageBitmap_CalculateManagementOverheadSize (region_size : Z) : Z :=
  let fix loop (n : nat) (region_size overhead_bits : Z) : Z :=
    match n with
    | O => overhead_bits
    | S n =>
        let region_size := AlignUp region_size BitSize_u64 / BitSize_u64 in
        loop n region_size (u64 (overhead_bits + region_size))
    end in
  u64 (loop (Z.to_nat (GetRequiredDepth region_size)) region_size 0 * 8).

(** ** Setting and clearing one bit; [n] is [depth + 1] *)
Fixpoint SetBit_loop (n : nat) (levels : list (list Z)) (offset : Z) : prog (list (list Z)) :=
  match n with
  | O => mret levels
  | S depth =>
      let ind := offset / BitSize_u64 in
      let which := offset mod BitSize_u64 in
      let mask := u64 (Z.shiftl 1 which) in
      bits ← deref (levels !! depth);
      v ← arr_get bits ind;
      _ ← ASSERT (Z.land v mask =? 0);
      bits ← arr_set bits ind (Z.lor v mask);
      let levels := <[depth := bits]> levels in
      if negb (v =? 0) then mret levels else SetBit_loop depth levels ind
  end.

Fixpoint ClearBit_loop (n : nat) (levels : list (list Z)) (offset : Z) : prog (list (list Z)) :=
  match n with
  | O => mret levels
  | S depth =>
      let ind := offset / BitSize_u64 in
      let which := offset mod BitSize_u64 in
      let mask := u64 (Z.shiftl 1 which) in
      bits ← deref (levels !! depth);
      v ← arr_get bits ind;
      _ ← ASSERT (negb (Z.land v mask =? 0));
      let v := Z.ldiff v mask in
      bits ← arr_set bits ind v;
      let levels := <[depth := bits]> levels in
      if negb (v =? 0) then mret levels else ClearBit_loop depth levels ind
  end.

Definition KPageBitmap_SetBit (b : KPageBitmap R) (offset : Z) : prog (KPageBitmap R) :=
  levels ← SetBit_loop (Z.to_nat (m_used_depths b)) (m_bit_storages b) offset;
  mret (MkBitmap levels (bm_rng b) (u64 (m_num_bits b + 1)) (m_used_depths b)).

Definition KPageBitmap_ClearBit (b : KPageBitmap R) (offset : Z) : prog (KPageBitmap R) :=
  levels ← ClearBit_loop (Z.to_nat (m_used_depths b)) (m_bit_storages b) offset;
  mret (MkBitmap levels (bm_rng b) (u64 (m_num_bits b - 1)) (m_used_depths b)).

(** ** ClearRange: a range inside one word, or a number of whole words *)
Fixpoint check_full_words (n : nat) (bits : list Z) (i : Z) : prog bool :=
  match n with
  | O => mret true
  | S n =>
      w ← arr_get bits i;
      if negb (w =? u64 (Z.lnot 0)) then mret false else check_full_words n bits (i + 1)
  end.

Fixpoint clear_words (n : nat) (depth : nat) (levels : list (list Z)) (i : Z)
    : prog (list (list Z)) :=
  match n with
  | O => mret levels
  | S n =>
      bits ← deref (levels !! depth);
      bits ← arr_set bits i 0;
      levels ← ClearBit_loop depth (<[depth := bits]> levels) i;
      clear_words n depth levels (i + 1)
  end.

(** The [do ... while (remaining > 0)] loops of the code run once per 64 bits of
    [count]; when [count] is not a multiple of 64 the unsigned [remaining] wraps
    and they run out of the storage. *)
Definition KPageBitmap_ClearRange (b : KPageBitmap R) (offset count : Z)
    : prog (bool * KPageBitmap R) :=
  let depth := Z.to_nat (m_used_depths b - 1) in
  let bit_ind := offset / BitSize_u64 in
  bits ← deref (m_bit_storages b !! depth);
  '(ok, levels) ←
    (if count <? BitSize_u64 then
       let shift := offset mod BitSize_u64 in
       _ ← ASSERT (shift + count <=? BitSize_u64);
       let mask := u64 (Z.shiftl (u64 (Z.shiftl 1 count) - 1) shift) in
       v ← arr_get bits bit_ind;
       if negb (Z.land v mask =? mask) then mret (false, m_bit_storages b)
       else
         let v := Z.ldiff v mask in
         bits ← arr_set bits bit_ind v;
         let levels := <[depth := bits]> (m_bit_storages b) in
         levels ← (if v =? 0 then ClearBit_loop depth levels bit_ind else mret levels);
         mret (true, levels)
     else
       _ ← ASSERT (offset mod BitSize_u64 =? 0);
       _ ← ASSERT (count mod BitSize_u64 =? 0);
       let words := Z.to_nat (count / BitSize_u64) in
       full ← check_full_words words bits bit_ind;
       if negb full then mret (false, m_bit_storages b)
       else if negb (count mod BitSize_u64 =? 0) then Stuck
       else
         levels ← clear_words words depth (m_bit_storages b) bit_ind;
         mret (true, levels));
  if ok : bool
  then mret (true, MkBitmap levels (bm_rng b) (u64 (m_num_bits b - count)) (m_used_depths b))
  else mret (false, b).

(** ** FindFreeBlock; [n] levels are left *)
Fixpoint FindFreeBlock_loop (n : nat) (random : bool) (levels : list (list Z)) (depth : nat)
    (offset : Z) (g : RandomBitGenerator R) : prog (Z * RandomBitGenerator R) :=
  match n with
  | O => mret (offset, g)
  | S n =>
      bits ← deref (levels !! depth);
      v ← arr_get bits offset;
      if v =? 0 then
        _ ← ASSERT (bool_decide (depth = 0%nat));
        mret (-1, g)
      else
        '(which, g) ← (if random then SelectRandomBit v g else mret (countr_zero v, g));
        FindFreeBlock_loop n random levels (S depth)
          (u64 (offset * BitSize_u64 + which)) g
  end.

(** The [do ... while] body runs at least once. *)
Definition KPageBitmap_FindFreeBlock (b : KPageBitmap R) (random : bool)
    : prog (Z * KPageBitmap R) :=
  '(r, g) ← FindFreeBlock_loop (Z.to_nat (Z.max 1 (m_used_depths b))) random
              (m_bit_storages b) 0 0 (bm_rng b);
  mret (r, MkBitmap (m_bit_storages b) g (m_num_bits b) (m_used_depths b)).

(** ** FindFreeRange

    The valid options are counted over all words; the [K]th one replaces the
    choice with probability [1/K]. *)
Record range_choice : Type := MkChoice {
  num_valid_options : Z;
  chosen_offset : Z;
  choice_rng : RandomBitGenerator R
}.

Fixpoint find_range_in_word (n : nat) (count free_mask storage_index option storage : Z)
    (c : range_choice) : prog range_choice :=
  match n with
  | O => mret c
  | S n =>
      c ← (if Z.land storage free_mask =? free_mask then
             let num := u64 (num_valid_options c + 1) in
             '(choose, g) ←
               (if num =? 1 then mret (true, choice_rng c)
                else
                  '(r, g) ← GenerateRandom num (choice_rng c);
                  mret (r =? 0, g));
             mret (MkChoice num
                     (if choose : bool
                      then s64 (storage_index * BitSize_u64 + option * count)
                      else chosen_offset c) g)
           else mret c);
      find_range_in_word n count free_mask storage_index (option + 1)
        (Z.shiftr storage count) c
  end.

Fixpoint find_range_words (words : list Z) (options_per_storage : nat)
    (count free_mask storage_index : Z) (c : range_choice) : prog range_choice :=
  match words with
  | [] => mret c
  | w :: words =>
      c ← find_range_in_word options_per_storage count free_mask storage_index 0 w c;
      find_range_words words options_per_storage count free_mask (storage_index + 1) c
  end.

(** Shifting by the full width of the word ([count = 64]) and dividing by zero
    ([count = 0]) are undefined. *)
Definition KPageBitmap_FindFreeRange (b : KPageBitmap R) (count : Z)
    : prog (Z * KPageBitmap R) :=
  words ← deref (m_bit_storages b !! Z.to_nat (m_used_depths b - 1));
  if negb ((0 <? Z.of_nat (length words)) && (count <=? BitSize_u64)) then mret (-1, b)
  else if (count =? 0) || (count =? BitSize_u64) then Stuck
  else
    let options_per_storage := Z.max (BitSize_u64 / count) 1 in
    let free_mask := Z.shiftl 1 count - 1 in
    c ← find_range_words words (Z.to_nat options_per_storage) count free_mask 0
          (MkChoice 0 (-1) (bm_rng b));
    mret (chosen_offset c,
          MkBitmap (m_bit_storages b) (choice_rng c) (m_num_bits b) (m_used_depths b)).
End Generator.
