(* ===== verification/PageBitmapLemmas.v ===== *)
(** * Facts about KPageBitmap

    The arithmetic of the generator and of the words, the invariant that links
    the levels, and the set of blocks a bitmap stands for. *)

From stdpp Require Import gmap.
From S2P Require Import Prelude Common PageBitmap.

(** ** Bits of a word *)
Lemma countr_zero_pos_spec p :
  0 ≤ countr_zero_pos p ∧ Z.testbit (Zpos p) (countr_zero_pos p) = true ∧
  ∀ i, 0 ≤ i < countr_zero_pos p → Z.testbit (Zpos p) i = false.
Proof.
  induction p as [p IH|p IH|]; simpl countr_zero_pos.
  - split_and!; [done|done|lia].
  - destruct IH as (H1 & H2 & H3). split_and!; [lia| |].
    + rewrite Pos2Z.inj_xO. replace (1 + _) with (Z.succ (countr_zero_pos p)) by lia.
      by rewrite Z.testbit_even_succ.
    + intros i Hi. rewrite Pos2Z.inj_xO. destruct (decide (i = 0)) as [->|].
      * apply Z.testbit_even_0.
      * replace i with (Z.succ (i - 1)) by lia. rewrite Z.testbit_even_succ by lia.
        apply H3. lia.
  - split_and!; [done|done|lia].
Qed.

Lemma countr_zero_spec v :
  is_u64 v → v ≠ 0 →
  0 ≤ countr_zero v < 64 ∧ Z.testbit v (countr_zero v) = true ∧
  ∀ i, 0 ≤ i < countr_zero v → Z.testbit v i = false.
Proof.
  intros Hv Hne. destruct v as [|p|p]; [done| |destruct Hv; lia].
  destruct (countr_zero_pos_spec p) as (H1 & H2 & H3). simpl. split_and!; [done| |done..].
  destruct (decide (countr_zero_pos p < 64)); [done|].
  rewrite (testbit_above _ 64) in H2; [done|done|lia].
Qed.

(** The mask of the low [n] bits, as the code builds it. *)
Lemma low_mask n : 0 ≤ n ≤ 64 →
  u64 (Z.lnot (u64 (Z.shiftl 0xFFFFFFFFFFFFFFFF n))) = Z.ones n.
Proof.
  intros Hn. change 0xFFFFFFFFFFFFFFFF with (Z.ones 64). apply Z.bits_inj'. intros i Hi.
  unfold u64. rewrite Z.testbit_ones_nonneg by lia.
  destruct (decide (i < 64)).
  - rewrite Z.mod_pow2_bits_low, Z.lnot_spec, Z.mod_pow2_bits_low by lia.
    destruct (decide (n ≤ i)).
    + rewrite Z.shiftl_spec, Z.testbit_ones_nonneg by lia. lia.
    + rewrite Z.shiftl_spec, Z.testbit_neg_r by lia. lia.
  - rewrite Z.mod_pow2_bits_high by lia. lia.
Qed.

Section Generator.
Context {R : Type} `{RngLaws R}.

(** The state of the generator: the unread bits of the last word. *)
Definition rng_wf (g : RandomBitGenerator R) : Prop :=
  0 ≤ m_bits_available g ≤ 32 ∧ is_u32 (m_entropy g).

Lemma RefreshEntropy_wf g : rng_wf (RefreshEntropy g) ∧ m_bits_available (RefreshEntropy g) = 32.
Proof.
  unfold RefreshEntropy. pose proof (GenerateRandomU32_range (m_rng g)) as Hr.
  destruct (GenerateRandomU32 _) as [w r]. split; [split; [simpl; lia|done]|done].
Qed.

Lemma shiftr_u32 x n : 0 ≤ n → is_u32 x → is_u32 (Z.shiftr x n).
Proof.
  intros Hn [H1 H2]. unfold is_u32. rewrite Z.shiftr_div_pow2 by done.
  assert (1 ≤ 2 ^ n) by (pose proof (Z.pow_pos_nonneg 2 n); lia).
  split; [apply Z.div_pos; lia|]. apply Z.div_lt_upper_bound; nia.
Qed.

Lemma refreshed g : rng_wf g →
  let g' := if m_bits_available g =? 0 then RefreshEntropy g else g in
  rng_wf g' ∧ 0 < m_bits_available g'.
Proof.
  intros [Hb He]. cbv zeta. destruct (_ =? 0) eqn:E; bool_prop.
  - destruct (RefreshEntropy_wf g) as [? ->]. split; [done|lia].
  - split; [done|lia].
Qed.

Lemma GenerateRandomBit_wf g : rng_wf g → rng_wf (GenerateRandomBit g).2.
Proof.
  intros Hg. unfold GenerateRandomBit. destruct (refreshed g Hg) as [[Hb He] Hp].
  split; simpl; [|by apply shiftr_u32]. rewrite u32_id by (unfold is_u32; lia). lia.
Qed.

(** [SelectRandomBit]: whatever the random bits are, the bit selected is set. *)
Lemma SelectRandomBit_loop_run k : ∀ fuel bitmap selected g orig,
  (k < 7)%nat → (k ≤ fuel)%nat → rng_wf g → 0 < bitmap < 2 ^ (2 ^ Z.of_nat k) →
  0 ≤ selected → selected + 2 ^ Z.of_nat k ≤ 64 →
  (∀ j, 0 ≤ j < 2 ^ Z.of_nat k → Z.testbit orig (selected + j) = Z.testbit bitmap j) →
  wp (SelectRandomBit_loop fuel (2 ^ Z.of_nat k / 2) bitmap selected g) (λ '(r, g'),
    rng_wf g' ∧ 0 ≤ r < 64 ∧ Z.testbit orig r = true).
Proof.
  induction k as [|k IH]; intros fuel bitmap selected g orig Hk Hfuel Hg Hbm Hs Hs' Horig.
  - replace (SelectRandomBit_loop _ _ _ _ _) with (Done true (selected, g)) by by destruct fuel.
    simpl in *. assert (bitmap = 1) as -> by lia. specialize (Horig 0 ltac:(lia)).
    rewrite Z.add_0_r in Horig. split_and!; [done|lia|lia|done].
  - destruct fuel as [|fuel]; [lia|]. rewrite Nat2Z.inj_succ, Z.pow_succ_r in * by lia.
    rewrite Z.mul_comm, Z.div_mul by lia. set (w := 2 ^ Z.of_nat k) in *.
    assert (Hw : 0 < w ≤ 32).
    { unfold w. split; [apply Z.pow_pos_nonneg; lia|]. change 32 with (2 ^ 5).
      apply Z.pow_le_mono_r; lia. }
    cbn [SelectRandomBit_loop]. rewrite (proj2 (Z.eqb_neq w 0)) by lia.
    rewrite low_mask, Z.land_ones by lia.
    assert (Hhigh : ∀ g', rng_wf g' → Z.shiftr bitmap w ≠ 0 →
      wp (SelectRandomBit_loop fuel (w / 2) (Z.shiftr bitmap w) (u64 (selected + w)) g')
         (λ '(r, g'), rng_wf g' ∧ 0 ≤ r < 64 ∧ Z.testbit orig r = true)).
    { intros g' Hg' Hne. rewrite u64_id by (unfold is_u64; lia).
      apply IH; [lia|lia|done| |lia|lia|].
      - rewrite Z.shiftr_div_pow2 in * by lia. split.
        + pose proof (Z.div_pos bitmap (2 ^ w)). lia.
        + apply Z.div_lt_upper_bound; [lia|]. rewrite <- Z.pow_add_r by lia.
          replace (w + w) with (2 * w) by lia. apply Hbm.
      - intros j Hj. rewrite Z.shiftr_spec by lia. rewrite <- Horig by lia. f_equal. lia. }
    assert (Hlow : ∀ g', rng_wf g' → bitmap mod 2 ^ w ≠ 0 →
      wp (SelectRandomBit_loop fuel (w / 2) (bitmap mod 2 ^ w) selected g')
         (λ '(r, g'), rng_wf g' ∧ 0 ≤ r < 64 ∧ Z.testbit orig r = true)).
    { intros g' Hg' Hne. apply IH; [lia|lia|done| |lia|lia|].
      - pose proof (Z.mod_pos_bound bitmap (2 ^ w)). lia.
      - intros j Hj. rewrite Z.mod_pow2_bits_low by lia. apply Horig. lia. }
    destruct (Z.shiftr bitmap w =? 0) eqn:Eh; bool_prop.
    + apply Hlow; [done|]. rewrite Z.shiftr_div_pow2 in Eh by lia.
      intros E. pose proof (Z.div_mod bitmap (2 ^ w)). lia.
    + destruct (bitmap mod 2 ^ w =? 0) eqn:El; bool_prop; [by apply Hhigh|].
      pose proof (GenerateRandomBit_wf g Hg). destruct (GenerateRandomBit g) as [[] g'];
        [by apply Hhigh|by apply Hlow].
Qed.

Lemma SelectRandomBit_run v g :
  rng_wf g → is_u64 v → v ≠ 0 →
  wp (SelectRandomBit v g) (λ '(r, g'), rng_wf g' ∧ 0 ≤ r < 64 ∧ Z.testbit v r = true).
Proof.
  intros Hg Hv Hne. change (SelectRandomBit v g)
    with (SelectRandomBit_loop 6 (2 ^ Z.of_nat 6 / 2) v 0 g).
  apply SelectRandomBit_loop_run; simpl; try done; try lia.
  unfold is_u64 in Hv. change (2 ^ Z.pow_pos 2 6) with (2 ^ 64). lia.
Qed.

Lemma GenerateRandomBits_loop_run fuel : ∀ num_bits result g,
  0 ≤ num_bits ≤ 31 → num_bits ≤ Z.of_nat fuel → rng_wf g → is_u64 result →
  wp (GenerateRandomBits_loop fuel num_bits result g) (λ '(r, g'), rng_wf g' ∧ is_u64 r).
Proof.
  induction fuel as [|fuel IH]; intros num_bits result g Hn Hf Hg Hr; cbn [GenerateRandomBits_loop];
    (destruct (0 <? num_bits) eqn:E; bool_prop; [|done]); [lia|].
  destruct (refreshed g Hg) as [[Hb He] Hp]. cbv zeta in *.
  set (g1 := if m_bits_available g =? 0 then RefreshEntropy g else g) in *. clearbody g1.
  rewrite (proj2 (Z.leb_gt 32 _)) by lia. apply IH; [lia|lia| |].
  - split; simpl; [lia|]. apply shiftr_u32; [lia|done].
  - apply lor_bound; [lia|apply u64_range|]. destruct He as [He1 He2].
    assert (is_u64 (Z.land (m_entropy g1) (u64 (Z.shiftl 1 (Z.min num_bits (m_bits_available g1)) - 1))));
      [|done].
    apply land_bound; [lia|lia|apply u64_range].
Qed.

Lemma GenerateRandom_run max g :
  rng_wf g → 0 < max < 2 ^ 30 →
  wp (GenerateRandom max g) (λ '(r, g'), rng_wf g' ∧ 0 ≤ r < max).
Proof.
  intros Hg Hm. unfold GenerateRandom, GenerateRandomBits, countl_zero, BitSize_u64.
  rewrite (proj2 (Z.eqb_neq max 0)) by lia.
  assert (0 ≤ Z.log2 max < 30) by (split; [apply Z.log2_nonneg|apply Z.log2_lt_pow2; lia]).
  rewrite u32_id by (unfold is_u32; lia). apply wp_bind. eapply wp_mono.
  - apply GenerateRandomBits_loop_run; [lia|lia|done|done].
  - intros [r g'] [Hg' Hr]. simpl.
    pose proof (Z.mul_div_le r max ltac:(lia)). pose proof (Z.mod_pos_bound r max ltac:(lia)).
    pose proof (Z.div_mod r max ltac:(lia)). pose proof (Z.div_pos r max ltac:(apply Hr) ltac:(lia)).
    destruct Hr as [Hr1 Hr2].
    rewrite (u64_id (r / max * max)) by (unfold is_u64; nia).
    rewrite u64_id by (unfold is_u64; lia). split; [done|lia].
Qed.
End Generator.

(** ** Levels *)
Definition word (L : list Z) (i : Z) : Z := default 0 (L !! Z.to_nat i).
Definition bit (L : list Z) (i : Z) : bool := Z.testbit (word L (i / 64)) (i mod 64).
Definition level (s : list (list Z)) (k : nat) : list Z := default [] (s !! k).

Definition words_ok (L : list Z) : Prop := Forall is_u64 L.

(** A word with one bit written. *)
Definition write_bit (v : bool) (w i : Z) : Z :=
  if v then Z.lor w (u64 (Z.shiftl 1 i)) else Z.ldiff w (u64 (Z.shiftl 1 i)).

Definition write (v : bool) (L : list Z) (o : Z) : list Z :=
  <[Z.to_nat (o / 64) := write_bit v (word L (o / 64)) (o mod 64)]> L.

Lemma mask_bits i j : 0 ≤ i < 64 → 0 ≤ j → Z.testbit (u64 (Z.shiftl 1 i)) j = (j =? i).
Proof.
  intros Hi Hj. rewrite Z.shiftl_1_l. rewrite u64_id.
  - rewrite Z.pow2_bits_eqb by lia. apply Z.eqb_sym.
  - split; [apply Z.pow_nonneg; lia|]. apply Z.pow_lt_mono_r; lia.
Qed.

Lemma write_bit_spec v w i j :
  0 ≤ i < 64 → 0 ≤ j →
  Z.testbit (write_bit v w i) j = if j =? i then v else Z.testbit w j.
Proof.
  intros Hi Hj. unfold write_bit. destruct v.
  - rewrite Z.lor_spec, mask_bits by done. destruct (j =? i); [by rewrite orb_true_r|].
    by rewrite orb_false_r.
  - rewrite Z.ldiff_spec, mask_bits by done. destruct (j =? i); [by rewrite andb_false_r|].
    by rewrite andb_true_r.
Qed.

Lemma write_bit_u64 v w i : is_u64 w → is_u64 (write_bit v w i).
Proof.
  intros Hw. unfold write_bit. destruct v.
  - apply lor_bound; [lia|done|apply u64_range].
  - apply ldiff_bound; [lia|done].
Qed.

Lemma word_range L i : words_ok L → is_u64 (word L i).
Proof.
  intros HL. unfold word. destruct (L !! _) as [w|] eqn:E; [|done].
  by eapply Forall_lookup in E; [|exact HL].
Qed.

Lemma word_beyond L i : Z.of_nat (length L) ≤ i → word L i = 0.
Proof. intros Hi. unfold word. rewrite lookup_ge_None_2 by lia. done. Qed.

Lemma bit_mask L o :
  0 ≤ o → (Z.land (word L (o / 64)) (u64 (Z.shiftl 1 (o mod 64))) =? 0) = negb (bit L o).
Proof.
  intros Ho. pose proof (Z.mod_pos_bound o 64 ltac:(lia)). unfold bit.
  set (w := word L (o / 64)). set (i := o mod 64) in *.
  assert (E : Z.land w (u64 (Z.shiftl 1 i)) = if Z.testbit w i then u64 (Z.shiftl 1 i) else 0).
  { apply Z.bits_inj'. intros j Hj. rewrite Z.land_spec, mask_bits by lia.
    destruct (Z.testbit w i) eqn:Ew.
    - rewrite mask_bits by lia. destruct (j =? i) eqn:Ej; bool_prop; [subst j; by rewrite Ew|].
      by rewrite andb_false_r.
    - rewrite Z.testbit_0_l. destruct (j =? i) eqn:Ej; bool_prop; [subst j; by rewrite Ew|].
      by rewrite andb_false_r. }
  rewrite E. destruct (Z.testbit w i); [|done]. simpl.
  apply Z.eqb_neq. intros E0. apply (f_equal (λ z, Z.testbit z i)) in E0.
  rewrite mask_bits, Z.eqb_refl, Z.testbit_0_l in E0 by lia. done.
Qed.

Lemma write_word v L o i :
  0 ≤ o / 64 < Z.of_nat (length L) → 0 ≤ i →
  word (write v L o) i = if i =? o / 64 then write_bit v (word L (o / 64)) (o mod 64)
                         else word L i.
Proof.
  intros Ho Hi. unfold word at 1, write. destruct (i =? o / 64) eqn:E; bool_prop.
  - subst i. rewrite list_lookup_insert_eq by lia. done.
  - rewrite list_lookup_insert_ne by lia. done.
Qed.

Lemma write_spec v L o i :
  0 ≤ o < 64 * Z.of_nat (length L) → 0 ≤ i →
  bit (write v L o) i = if i =? o then v else bit L i.
Proof.
  intros Ho Hi. pose proof (Z.mod_pos_bound o 64 ltac:(lia)).
  pose proof (Z.mod_pos_bound i 64 ltac:(lia)). pose proof (Z.div_pos i 64 Hi ltac:(lia)).
  assert (0 ≤ o / 64 < Z.of_nat (length L)).
  { split; [apply Z.div_pos; lia|]. apply Z.div_lt_upper_bound; lia. }
  unfold bit at 1. rewrite write_word by lia.
  pose proof (Z.div_mod i 64 ltac:(lia)). pose proof (Z.div_mod o 64 ltac:(lia)).
  destruct (i / 64 =? o / 64) eqn:E; bool_prop.
  - rewrite write_bit_spec by lia. destruct (i mod 64 =? o mod 64) eqn:E'; bool_prop.
    + by rewrite (proj2 (Z.eqb_eq i o)) by lia.
    + rewrite (proj2 (Z.eqb_neq i o)) by lia. unfold bit. by rewrite E.
  - rewrite (proj2 (Z.eqb_neq i o)); [done|]. intros ->. done.
Qed.

Lemma write_length v L o : length (write v L o) = length L.
Proof. apply length_insert. Qed.

Lemma write_words_ok v L o : words_ok L → words_ok (write v L o).
Proof.
  intros HL. unfold write. apply Forall_insert; [done|]. apply write_bit_u64, word_range, HL.
Qed.

Lemma bit_word L o : bit L o = true → word L (o / 64) ≠ 0.
Proof. unfold bit. intros Hb E. rewrite E, Z.testbit_0_l in Hb. done. Qed.

Lemma word_bit L i : words_ok L → 0 ≤ i → word L i ≠ 0 →
  ∃ o, 0 ≤ o ∧ o / 64 = i ∧ bit L o = true.
Proof.
  intros HL Hi Hne. destruct (countr_zero_spec (word L i) (word_range L i HL) Hne) as (Hc & Hb & _).
  exists (64 * i + countr_zero (word L i)).
  assert (Ed : (64 * i + countr_zero (word L i)) / 64 = i).
  { rewrite Z.add_comm, Z.mul_comm, Z.div_add, Z.div_small by lia. lia. }
  split_and!; [lia|done|]. unfold bit. rewrite Ed.
  replace ((64 * i + countr_zero (word L i)) mod 64) with (countr_zero (word L i)); [done|].
  rewrite Z.add_comm, Z.mul_comm, Z.mod_add, Z.mod_small by lia. done.
Qed.

Lemma div64_lt o n : 0 ≤ o < 64 * n → 0 ≤ o / 64 < n.
Proof. intros Ho. split; [apply Z.div_pos; lia|]. apply Z.div_lt_upper_bound; lia. Qed.

Lemma arr_get_word L i : 0 ≤ i < Z.of_nat (length L) → arr_get L i = Done true (word L i).
Proof.
  intros Hi. unfold arr_get, word. rewrite (proj2 (Z.leb_le 0 i)) by lia.
  destruct (lookup_lt_is_Some_2 L (Z.to_nat i)) as [w ->]; [lia|done].
Qed.

Lemma arr_set_ok {A} (L : list A) i x :
  0 ≤ i < Z.of_nat (length L) → arr_set L i x = Done true (<[Z.to_nat i := x]> L).
Proof.
  intros Hi. unfold arr_set. by rewrite (proj2 (Z.leb_le 0 i)), (proj2 (Z.ltb_lt _ _)) by lia.
Qed.

(** ** The loops of [SetBit] and [ClearBit] as one

    One turn writes the bit of the level; the loop goes up when the word became
    non-empty (setting) or empty (clearing). *)
Definition goes_up (v : bool) (L : list Z) (o : Z) : bool :=
  (if v then word L (o / 64) else word (write v L o) (o / 64)) =? 0.

Lemma SetBit_step k s o L :
  s !! k = Some L → 0 ≤ o < 64 * Z.of_nat (length L) → bit L o = false →
  SetBit_loop (S k) s o =
    if goes_up true L o then SetBit_loop k (<[k := write true L o]> s) (o / 64)
    else Done true (<[k := write true L o]> s).
Proof.
  intros HL Ho Hb. pose proof (div64_lt o _ Ho). cbn [SetBit_loop]. unfold BitSize_u64.
  rewrite HL. pstep. rewrite arr_get_word by done. pstep.
  rewrite bit_mask, Hb by lia. unfold ASSERT. pstep. rewrite arr_set_ok by done. pstep.
  unfold goes_up. fold (write_bit true (word L (o / 64)) (o mod 64)). fold (write true L o).
  by destruct (word L (o / 64) =? 0).
Qed.

Lemma ClearBit_step k s o L :
  s !! k = Some L → 0 ≤ o < 64 * Z.of_nat (length L) → bit L o = true →
  ClearBit_loop (S k) s o =
    if goes_up false L o then ClearBit_loop k (<[k := write false L o]> s) (o / 64)
    else Done true (<[k := write false L o]> s).
Proof.
  intros HL Ho Hb. pose proof (div64_lt o _ Ho). cbn [ClearBit_loop]. unfold BitSize_u64.
  rewrite HL. pstep. rewrite arr_get_word by done. pstep.
  rewrite bit_mask, Hb by lia. unfold ASSERT. pstep. rewrite arr_set_ok by done. pstep.
  unfold goes_up. rewrite write_word, Z.eqb_refl by lia.
  fold (write_bit false (word L (o / 64)) (o mod 64)). fold (write false L o).
  by destruct (write_bit _ _ _ =? 0).
Qed.

(** ** The invariant of the levels *)
Record levels_wf (s : list (list Z)) : Prop := {
  lw_words : Forall words_ok s;
  lw_capacity k : (S k < length s)%nat →
    Z.of_nat (length (level s (S k))) ≤ 64 * Z.of_nat (length (level s k));
  lw_small k : 64 * Z.of_nat (length (level s k)) < 2 ^ 62
}.

(** The bit [i] of level [k] summarises the word [i] of level [k + 1]. *)
Definition link (s : list (list Z)) (k : nat) (i : Z) : Prop :=
  bit (level s k) i = negb (word (level s (S k)) i =? 0).

Definition linked (s : list (list Z)) : Prop :=
  ∀ k i, (S k < length s)%nat → 0 ≤ i → link s k i.

(** All links hold but the one from bit [o] of level [k], where the word below
    has just become [v] (non-empty or empty) and the bit does not say so yet. *)
Definition linked_except (s : list (list Z)) (k : nat) (o : Z) (v : bool) : Prop :=
  (∀ j i, (S j < length s)%nat → 0 ≤ i → j ≠ k ∨ i ≠ o → link s j i) ∧
  ((S k < length s)%nat → negb (word (level s (S k)) o =? 0) = v).

Lemma level_insert s k L j :
  (k < length s)%nat → level (<[k := L]> s) j = if decide (j = k) then L else level s j.
Proof.
  intros Hk. unfold level. case_decide; [subst; by rewrite list_lookup_insert_eq|].
  by rewrite list_lookup_insert_ne.
Qed.

Lemma level_lookup s k : (k < length s)%nat → s !! k = Some (level s k).
Proof. intros Hk. unfold level. destruct (lookup_lt_is_Some_2 s k Hk) as [L ->]. done. Qed.

Lemma levels_wf_level s k : levels_wf s → words_ok (level s k).
Proof.
  intros [Hw _ _]. unfold level. destruct (s !! k) as [L|] eqn:E; [|constructor].
  by eapply Forall_lookup in E; [|exact Hw].
Qed.

(** Replacing a level by one of the same length. *)
Lemma levels_wf_insert s k L :
  levels_wf s → (k < length s)%nat → words_ok L → length L = length (level s k) →
  levels_wf (<[k := L]> s).
Proof.
  intros [Hw Hc Hs] Hk HL Hlen. split; [by apply Forall_insert| |].
  - intros j Hj. rewrite length_insert in Hj. rewrite !level_insert by done.
    specialize (Hc j Hj). repeat case_decide; subst; rewrite ?Hlen; done || lia.
  - intros j. rewrite level_insert by done. specialize (Hs j).
    case_decide; subst; rewrite ?Hlen; done.
Qed.

(** When the word of the written bit is non-empty as before, the invariant is
    restored; when not, only the link one level up is missing. *)
Lemma write_links s k o v :
  levels_wf s → (k < length s)%nat → 0 ≤ o < 64 * Z.of_nat (length (level s k)) →
  bit (level s k) o = negb v → linked_except s k o v →
  let L := level s k in
  let s' := <[k := write v L o]> s in
  (goes_up v L o = false → linked s') ∧
  (goes_up v L o = true → ∀ k', k = S k' →
     linked_except s' k' (o / 64) v ∧ bit (level s' k') (o / 64) = negb v) ∧
  (goes_up v L o = true → k = 0%nat → linked s').
Proof.
  intros Hwf Hk Ho Hb [Hl Hx] L s'. pose proof (div64_lt o _ Ho) as Hd. fold L in Ho, Hb, Hd.
  assert (Hlen : length s' = length s) by apply length_insert.
  assert (HLk : level s' k = write v L o).
  { unfold s'. rewrite level_insert by done. by rewrite decide_True. }
  assert (HLj : ∀ j, j ≠ k → level s' j = level s j).
  { intros j Hj. unfold s'. rewrite level_insert by done. by rewrite decide_False. }
  (* Links that do not involve the word above the written bit. *)
  assert (Hkeep : ∀ j i, (S j < length s)%nat → 0 ≤ i → (S j = k → i ≠ o / 64) → link s' j i).
  { intros j i Hj Hi Hne. unfold link. destruct (decide (j = k)) as [->|Hjk].
    - rewrite HLk, HLj, write_spec by lia || done. destruct (i =? o) eqn:E; bool_prop.
      + subst i. symmetry. by apply Hx.
      + apply Hl; [done|done|by right].
    - rewrite (HLj j) by done. destruct (decide (S j = k)) as [<-|HSj].
      + rewrite HLk, write_word by done. rewrite (proj2 (Z.eqb_neq i _)) by auto.
        apply Hl; [done|done|by left].
      + rewrite HLj by done. apply Hl; [done|done|by left]. }
  assert (Hup : ∀ k', k = S k' → bit (level s' k') (o / 64) = negb (word L (o / 64) =? 0)).
  { intros k' ->. rewrite HLj by lia. apply Hl; [done|lia|left; lia]. }
  assert (Hnew : v = true → word (write v L o) (o / 64) ≠ 0).
  { intros ->. apply bit_word. rewrite write_spec, Z.eqb_refl by lia. done. }
  assert (Hold : v = false → word L (o / 64) ≠ 0).
  { intros ->. by apply bit_word. }
  split_and!.
  - intros Hg j i Hj Hi. rewrite Hlen in Hj.
    destruct (decide (S j = k ∧ i = o / 64)) as [[<- ->]|Hne]; [|apply Hkeep; naive_solver].
    unfold link. rewrite (Hup j eq_refl), HLk. f_equal. unfold goes_up in Hg. bool_prop.
    destruct v; [specialize (Hnew eq_refl)|specialize (Hold eq_refl)];
      rewrite !(proj2 (Z.eqb_neq _ 0)) by done; done.
  - intros Hg k' ->. unfold goes_up in Hg. bool_prop. split; [split|].
    + intros j i Hj Hi Hne. rewrite Hlen in Hj. apply Hkeep; [done|done|]. naive_solver.
    + intros _. rewrite HLk. destruct v; [by rewrite (proj2 (Z.eqb_neq _ 0)) by auto|].
      by rewrite Hg.
    + rewrite (Hup k' eq_refl). destruct v; [by rewrite Hg|].
      by rewrite (proj2 (Z.eqb_neq _ 0)) by auto.
  - intros _ -> j i Hj Hi. rewrite Hlen in Hj. apply Hkeep; [done|done|lia].
Qed.

(** What a write through level [k] leaves: the invariant, and every level from
    [k] on as it was but for the one bit. *)
Record written (v : bool) (s : list (list Z)) (k : nat) (o : Z) (s' : list (list Z)) : Prop := {
  wr_wf : levels_wf s';
  wr_linked : linked s';
  wr_length : length s' = length s;
  wr_lengths j : length (level s' j) = length (level s j);
  wr_level : level s' k = write v (level s k) o;
  wr_below j : (k < j)%nat → level s' j = level s j
}.

Section Loop.
Context (v : bool) (F : nat → list (list Z) → Z → prog (list (list Z))).
Hypothesis F_0 : ∀ s o, F 0 s o = Done true s.
Hypothesis F_S : ∀ k s o L,
  s !! k = Some L → 0 ≤ o < 64 * Z.of_nat (length L) → bit L o = negb v →
  F (S k) s o = if goes_up v L o then F k (<[k := write v L o]> s) (o / 64)
                else Done true (<[k := write v L o]> s).

Lemma loop_run k : ∀ s o,
  levels_wf s → (k < length s)%nat → 0 ≤ o < 64 * Z.of_nat (length (level s k)) →
  bit (level s k) o = negb v → linked_except s k o v →
  ∃ s', F (S k) s o = Done true s' ∧ written v s k o s'.
Proof.
  induction k as [|k IH]; intros s o Hwf Hk Ho Hb Hl.
  - destruct (write_links s 0 o v Hwf Hk Ho Hb Hl) as (H1 & _ & H3).
    assert (Hw : written v s 0 o (<[0%nat := write v (level s 0) o]> s)).
    { split.
      - apply levels_wf_insert; [done|done| |by rewrite write_length].
        by apply write_words_ok, levels_wf_level.
      - destruct (goes_up v (level s 0) o); auto.
      - apply length_insert.
      - intros j. rewrite level_insert by done. case_decide; [subst|done]. apply write_length.
      - by rewrite level_insert, decide_True by done.
      - intros j Hj. rewrite level_insert by done. by rewrite decide_False by lia. }
    rewrite (F_S 0 s o (level s 0)) by (done || by apply level_lookup). rewrite F_0.
    eexists. split; [by destruct (goes_up _ _ _)|done].
  - destruct (write_links s (S k) o v Hwf Hk Ho Hb Hl) as (H1 & H2 & _).
    rewrite (F_S (S k) s o (level s (S k))) by (done || by apply level_lookup).
    set (s1 := <[S k := write v (level s (S k)) o]> s) in *.
    assert (Hwf1 : levels_wf s1).
    { apply levels_wf_insert; [done|done| |by rewrite write_length].
      by apply write_words_ok, levels_wf_level. }
    assert (Hlev : ∀ j, level s1 j = if decide (j = S k) then write v (level s (S k)) o
                                     else level s j).
    { intros j. unfold s1. by rewrite level_insert. }
    assert (Hlens : ∀ j, length (level s1 j) = length (level s j)).
    { intros j. rewrite Hlev. case_decide; [subst; apply write_length|done]. }
    assert (Hlen : length s1 = length s) by apply length_insert.
    destruct (goes_up v (level s (S k)) o) eqn:Hg.
    + destruct (H2 eq_refl k eq_refl) as [Hl1 Hb1].
      destruct (IH s1 (o / 64)) as (s' & E & [W1 W2 W3 W4 W5 W6]); [done|lia| |done|done|].
      { rewrite Hlens. pose proof (div64_lt o _ Ho). pose proof (lw_capacity s Hwf k Hk). lia. }
      exists s'. split; [done|]. split; [done|done|lia|congruence| |].
      * rewrite W6, Hlev, decide_True by lia || done. done.
      * intros j Hj. rewrite W6, Hlev, decide_False by lia. done.
    + exists s1. split; [done|]. split; [done|by apply H1|done|done| |].
      * by rewrite Hlev, decide_True.
      * intros j Hj. by rewrite Hlev, decide_False by lia.
Qed.
End Loop.

Lemma SetBit_loop_run k s o :
  levels_wf s → (k < length s)%nat → 0 ≤ o < 64 * Z.of_nat (length (level s k)) →
  bit (level s k) o = false → linked_except s k o true →
  ∃ s', SetBit_loop (S k) s o = Done true s' ∧ written true s k o s'.
Proof. intros. apply loop_run; try done. intros. by apply SetBit_step. Qed.

Lemma ClearBit_loop_run k s o :
  levels_wf s → (k < length s)%nat → 0 ≤ o < 64 * Z.of_nat (length (level s k)) →
  bit (level s k) o = true → linked_except s k o false →
  ∃ s', ClearBit_loop (S k) s o = Done true s' ∧ written false s k o s'.
Proof. intros. apply loop_run; try done. intros. by apply ClearBit_step. Qed.

(** ** The set of blocks a bitmap stands for *)
Section Bitmap.
Context {R : Type} `{RngLaws R}.

Definition leaf (b : KPageBitmap R) : list Z :=
  level (m_bit_storages b) (pred (length (m_bit_storages b))).

Definition num_blocks (b : KPageBitmap R) : Z := 64 * Z.of_nat (length (leaf b)).

Definition free_blocks (b : KPageBitmap R) : gset Z :=
  list_to_set (filter (λ i, bit (leaf b) i = true) (seqZ 0 (num_blocks b))).

Record bitmap_wf (b : KPageBitmap R) : Prop := {
  bw_levels : levels_wf (m_bit_storages b);
  bw_linked : linked (m_bit_storages b);
  bw_depths : m_used_depths b = Z.of_nat (length (m_bit_storages b));
  bw_nonempty : (0 < length (m_bit_storages b))%nat;
  bw_root : length (level (m_bit_storages b) 0) = 1%nat;
  bw_count : m_num_bits b = Z.of_nat (size (free_blocks b));
  bw_rng : rng_wf (bm_rng b)
}.

Lemma bit_beyond L i : 64 * Z.of_nat (length L) ≤ i → bit L i = false.
Proof.
  intros Hi. unfold bit. rewrite word_beyond; [apply Z.testbit_0_l|].
  apply Z.div_le_lower_bound; lia.
Qed.

Lemma elem_of_free b i : i ∈ free_blocks b ↔ 0 ≤ i ∧ bit (leaf b) i = true.
Proof.
  unfold free_blocks. rewrite elem_of_list_to_set, list_elem_of_filter, elem_of_seqZ. split.
  - intros (? & ? & ?). split; [lia|done].
  - intros [? Hb]. split; [done|]. split; [lia|].
    destruct (decide (i < num_blocks b)); [lia|].
    rewrite bit_beyond in Hb; [done|]. unfold num_blocks in *. lia.
Qed.

Lemma free_bound b i : i ∈ free_blocks b → 0 ≤ i < num_blocks b.
Proof.
  intros [Hi Hb]%elem_of_free. split; [done|]. destruct (decide (i < num_blocks b)); [done|].
  rewrite bit_beyond in Hb; [done|]. unfold num_blocks in *. lia.
Qed.
End Bitmap.
