(* ===== verification/PageBitmapTheorems.v ===== *)
(** * Correctness of KPageBitmap

    Every operation against the set of free blocks the bitmap stands for. *)

From stdpp Require Import gmap.
From S2P Require Import Prelude Common PageBitmap PageBitmapLemmas.

Section Bitmap.
Context {R : Type} `{RngLaws R}.
Implicit Types b : KPageBitmap R.

(** Same geometry: depths, lengths of the levels. *)
Definition same_shape (s s' : list (list Z)) : Prop :=
  length s' = length s ∧ ∀ j, length (level s' j) = length (level s j).

Lemma bitmap_wf_intro b s' (g : RandomBitGenerator R) n :
  bitmap_wf b → levels_wf s' → linked s' → same_shape (m_bit_storages b) s' → rng_wf g →
  let b' := MkBitmap s' g n (m_used_depths b) in
  n = Z.of_nat (size (free_blocks b')) → bitmap_wf b' ∧ num_blocks b' = num_blocks b.
Proof.
  intros [W1 W2 W3 W4 W5 W7 W8] Hwf Hl [Hn Hls] Hg b' Hc.
  assert (E : num_blocks b' = num_blocks b).
  { unfold num_blocks, leaf, b'. simpl. by rewrite Hn, Hls. }
  split; [|done]. split; simpl; try done.
  - by rewrite Hn.
  - by rewrite Hn.
  - by rewrite Hls.
Qed.

Lemma size_free_bound b : bitmap_wf b → 0 ≤ m_num_bits b ≤ num_blocks b ∧ num_blocks b < 2 ^ 62.
Proof.
  intros Hwf. split; [|apply (lw_small _ (bw_levels b Hwf))]. rewrite (bw_count b Hwf).
  assert (Hs : free_blocks b ⊆ list_to_set (seqZ 0 (num_blocks b))).
  { intros i Hi. apply elem_of_list_to_set, elem_of_seqZ. apply free_bound in Hi. lia. }
  apply subseteq_size in Hs. rewrite size_list_to_set, length_seqZ in Hs by apply NoDup_seqZ.
  unfold num_blocks in *. lia.
Qed.

Lemma linked_except_leaf s o v :
  (0 < length s)%nat → linked s → linked_except s (pred (length s)) o v.
Proof. intros Hn Hl. split; [|lia]. intros j i Hj Hi _. by apply Hl. Qed.

Lemma SetBit_run b o :
  bitmap_wf b → 0 ≤ o < num_blocks b → o ∉ free_blocks b →
  ∃ b', KPageBitmap_SetBit b o = Done true b' ∧ bitmap_wf b' ∧
    num_blocks b' = num_blocks b ∧ free_blocks b' = {[o]} ∪ free_blocks b.
Proof.
  intros Hwf Ho Hin. pose proof (size_free_bound b Hwf). pose proof Hwf as [W1 W2 W3 W4 W5 W7 W8].
  unfold KPageBitmap_SetBit. rewrite W3, Nat2Z.id.
  destruct (length (m_bit_storages b)) as [|d] eqn:Ed; [lia|].
  assert (Hleaf : leaf b = level (m_bit_storages b) d) by (unfold leaf; by rewrite Ed).
  destruct (SetBit_loop_run d (m_bit_storages b) o) as (s' & -> & [X1 X2 X3 X4 X5 X6]).
  { done. } { lia. } { rewrite <- Hleaf. done. }
  { rewrite <- Hleaf. destruct (bit (leaf b) o) eqn:E; [|done].
    exfalso. apply Hin, elem_of_free. split; [lia|done]. }
  { replace d with (pred (length (m_bit_storages b))) by lia. apply linked_except_leaf; [lia|done]. }
  pstep. set (b' := MkBitmap s' _ _ _).
  assert (Hfree : free_blocks b' = {[o]} ∪ free_blocks b).
  { apply set_eq. intros i. rewrite elem_of_union, elem_of_singleton, !elem_of_free.
    unfold leaf at 1, b'. simpl. rewrite X3, Ed. cbn [pred]. rewrite X5, <- Hleaf. split.
    - intros [Hi Hb]. rewrite write_spec in Hb by done. destruct (i =? o) eqn:E; bool_prop; auto.
    - intros [->|[Hi Hb]]; (split; [lia|]); rewrite write_spec by lia || done;
        rewrite ?Z.eqb_refl; [done|]. by destruct (i =? o). }
  assert (Hsz : u64 (m_num_bits b + 1) = Z.of_nat (size (free_blocks b'))).
  { rewrite Hfree, size_union, size_singleton by set_solver. rewrite u64_id; [lia|].
    unfold is_u64. lia. }
  destruct (bitmap_wf_intro b s' (bm_rng b) (u64 (m_num_bits b + 1)) Hwf X1 X2
    ltac:(split; [by rewrite X3, Ed|done]) W8) as [Hwf' Hnb].
  { rewrite W3. exact Hsz. }
  rewrite W3 in Hwf', Hnb. by exists b'.
Qed.

Lemma ClearBit_run b o :
  bitmap_wf b → o ∈ free_blocks b →
  ∃ b', KPageBitmap_ClearBit b o = Done true b' ∧ bitmap_wf b' ∧
    num_blocks b' = num_blocks b ∧ free_blocks b' = free_blocks b ∖ {[o]}.
Proof.
  intros Hwf Hin. pose proof (free_bound b o Hin) as Ho. pose proof (size_free_bound b Hwf).
  pose proof Hwf as [W1 W2 W3 W4 W5 W7 W8].
  unfold KPageBitmap_ClearBit. rewrite W3, Nat2Z.id.
  destruct (length (m_bit_storages b)) as [|d] eqn:Ed; [lia|].
  assert (Hleaf : leaf b = level (m_bit_storages b) d) by (unfold leaf; by rewrite Ed).
  destruct (ClearBit_loop_run d (m_bit_storages b) o) as (s' & -> & [X1 X2 X3 X4 X5 X6]).
  { done. } { lia. } { rewrite <- Hleaf. done. }
  { rewrite <- Hleaf. by apply elem_of_free in Hin as [_ ?]. }
  { replace d with (pred (length (m_bit_storages b))) by lia. apply linked_except_leaf; [lia|done]. }
  pstep. set (b' := MkBitmap s' _ _ _).
  assert (Hfree : free_blocks b' = free_blocks b ∖ {[o]}).
  { apply set_eq. intros i. rewrite elem_of_difference, elem_of_singleton, !elem_of_free.
    unfold leaf at 1, b'. simpl. rewrite X3, Ed. cbn [pred]. rewrite X5, <- Hleaf. split.
    - intros [Hi Hb]. rewrite write_spec in Hb by done. destruct (i =? o) eqn:E; bool_prop; done.
    - intros [[Hi Hb] Hne]. split; [done|]. rewrite write_spec by done.
      by rewrite (proj2 (Z.eqb_neq i o)). }
  assert (Hsz : u64 (m_num_bits b - 1) = Z.of_nat (size (free_blocks b'))).
  { rewrite Hfree, size_difference, size_singleton by set_solver.
    assert (size (free_blocks b) ≠ 0)%nat by (apply size_non_empty_iff; set_solver).
    rewrite u64_id; [lia|]. unfold is_u64. lia. }
  destruct (bitmap_wf_intro b s' (bm_rng b) (u64 (m_num_bits b - 1)) Hwf X1 X2
    ltac:(split; [by rewrite X3, Ed|done]) W8) as [Hwf' Hnb].
  { rewrite W3. exact Hsz. }
  rewrite W3 in Hwf', Hnb. by exists b'.
Qed.

(** ** FindFreeBlock *)
Lemma index_parts o w : 0 ≤ o → 0 ≤ w < 64 → (o * 64 + w) / 64 = o ∧ (o * 64 + w) mod 64 = w.
Proof.
  intros Ho Hw. rewrite Z.add_comm, Z.div_add, Z.mod_add by lia.
  rewrite Z.div_small, Z.mod_small by lia. lia.
Qed.

Lemma bit_at L o w : 0 ≤ o → 0 ≤ w < 64 → bit L (o * 64 + w) = Z.testbit (word L o) w.
Proof. intros Ho Hw. unfold bit. by destruct (index_parts o w Ho Hw) as [-> ->]. Qed.

Lemma lower_bits_clear L o w :
  0 ≤ w < 64 → (∀ i, 0 ≤ i < o → word L i = 0) → (∀ i, 0 ≤ i < w → Z.testbit (word L o) i = false) →
  ∀ j, 0 ≤ j < o * 64 + w → bit L j = false.
Proof.
  intros Hw64 Hz Hw j Hj. unfold bit. pose proof (Z.div_mod j 64 ltac:(lia)).
  pose proof (Z.mod_pos_bound j 64 ltac:(lia)). pose proof (Z.div_pos j 64 ltac:(lia) ltac:(lia)).
  destruct (decide (j / 64 = o)) as [E|E].
  - rewrite E. apply Hw. lia.
  - rewrite Hz by lia. apply Z.testbit_0_l.
Qed.

(** The bit chosen in a non-empty word; without randomness, the lowest one. *)
Lemma choose_bit_run (random : bool) v (g : RandomBitGenerator R) :
  is_u64 v → v ≠ 0 → rng_wf g →
  wp (if random then SelectRandomBit v g else mret (countr_zero v, g)) (λ '(w, g'),
    rng_wf g' ∧ 0 ≤ w < 64 ∧ Z.testbit v w = true ∧
    (random = false → ∀ i, 0 ≤ i < w → Z.testbit v i = false)).
Proof.
  intros Hv Hne Hg. destruct random.
  - eapply wp_mono; [by apply SelectRandomBit_run|]. intros [w g'] (? & ? & ?). done.
  - destruct (countr_zero_spec v Hv Hne) as (? & ? & ?). simpl. done.
Qed.

Lemma FindFreeBlock_loop_run s random n : ∀ k o (g : RandomBitGenerator R),
  levels_wf s → linked s → (S n + k = length s)%nat → rng_wf g →
  0 ≤ o < Z.of_nat (length (level s k)) → word (level s k) o ≠ 0 →
  wp (FindFreeBlock_loop (S n) random s k o g) (λ '(r, g'),
    rng_wf g' ∧ 0 ≤ r ∧ bit (level s (pred (length s))) r = true ∧
    (random = false → (∀ i, 0 ≤ i < o → word (level s k) i = 0) →
     ∀ j, 0 ≤ j < r → bit (level s (pred (length s))) j = false)).
Proof.
  induction n as [|n IH]; intros k o g Hwf Hl Hn Hg Ho Hne; cbn [FindFreeBlock_loop];
    unfold BitSize_u64; rewrite (level_lookup s k) by lia; pstep;
    rewrite arr_get_word by done; pstep; rewrite (proj2 (Z.eqb_neq _ 0)) by done;
    apply wp_bind; (eapply wp_mono;
      [apply choose_bit_run; [by apply word_range, levels_wf_level|done|done]|]);
    intros [w g'] (Hg' & Hw & Hb & Hmin);
    pose proof (lw_small s Hwf k); rewrite u64_id by (unfold is_u64; lia);
    rewrite <- bit_at in Hb by lia.
  - replace (pred (length s)) with k by lia. simpl. split_and!; [done|lia|done|].
    intros Hr Hz. apply lower_bits_clear; auto.
  - assert (Hlk : link s k (o * 64 + w)) by (apply Hl; lia).
    unfold link in Hlk. rewrite Hb in Hlk. symmetry in Hlk. bool_prop.
    eapply wp_mono; [apply IH; [done|done|lia|done| |done]|].
    + split; [lia|]. destruct (decide (o * 64 + w < Z.of_nat (length (level s (S k))))); [done|].
      rewrite word_beyond in Hlk by lia. done.
    + intros [r g''] (? & ? & ? & Hm). split_and!; [done..|]. intros Hr Hz. apply Hm; [done|].
      intros i Hi. specialize (Hl k i ltac:(lia) ltac:(lia)). unfold link in Hl.
      rewrite (lower_bits_clear _ o w) in Hl by auto. symmetry in Hl. bool_prop. done.
Qed.

(** Every leaf bit is announced by the root. *)
Lemma root_empty s : levels_wf s → linked s → length (level s 0) = 1%nat →
  word (level s 0) 0 = 0 → ∀ k, (k < length s)%nat → ∀ i, 0 ≤ i → bit (level s k) i = false.
Proof.
  intros Hwf Hl Hlen Hz k. induction k as [|k IH]; intros Hk i Hi.
  - destruct (decide (i < 64)).
    + unfold bit. rewrite Z.div_small, Hz by lia. apply Z.testbit_0_l.
    + apply bit_beyond. rewrite Hlen. lia.
  - destruct (bit (level s (S k)) i) eqn:E; [|done]. apply bit_word in E.
    pose proof (Z.div_pos i 64 Hi ltac:(lia)).
    specialize (Hl k (i / 64) Hk ltac:(lia)). unfold link in Hl.
    rewrite IH, (proj2 (Z.eqb_neq _ 0)) in Hl by lia || done. done.
Qed.

Lemma FindFreeBlock_run b random :
  bitmap_wf b →
  wp (KPageBitmap_FindFreeBlock b random) (λ '(r, b'),
    bitmap_wf b' ∧ m_bit_storages b' = m_bit_storages b ∧
    (if decide (free_blocks b = ∅) then r = -1
     else r ∈ free_blocks b ∧
          (random = false → ∀ j, j ∈ free_blocks b → r ≤ j))).
Proof.
  intros Hwf. pose proof Hwf as [W1 W2 W3 W4 W5 W7 W8]. unfold KPageBitmap_FindFreeBlock.
  rewrite W3. replace (Z.to_nat _) with (length (m_bit_storages b)) by lia.
  destruct (length (m_bit_storages b)) as [|n] eqn:En; [lia|].
  assert (Hkeep : ∀ g : RandomBitGenerator R, rng_wf g →
    bitmap_wf (MkBitmap (m_bit_storages b) g (m_num_bits b) (m_used_depths b))).
  { intros g Hg. by apply bitmap_wf_intro. }
  apply wp_bind. destruct (decide (word (level (m_bit_storages b) 0) 0 = 0)) as [E0|E0].
  - cbn [FindFreeBlock_loop]. rewrite level_lookup by lia. pstep.
    rewrite arr_get_word by lia. pstep. rewrite E0. simpl. rewrite <- W3.
    split_and!; [by apply Hkeep|done|]. rewrite decide_True; [done|].
    apply set_eq. intros i. rewrite elem_of_free. split; [|set_solver]. intros [Hi Hb].
    unfold leaf in Hb. rewrite root_empty in Hb by done || lia. done.
  - eapply wp_mono; [apply FindFreeBlock_loop_run; [done|done|lia|done|lia|done]|].
    intros [r g'] (Hg' & Hr & Hb & Hm). simpl. rewrite <- W3.
    split_and!; [by apply Hkeep|done|].
    assert (Hin : r ∈ free_blocks b) by (by apply elem_of_free).
    rewrite decide_False by set_solver. split; [done|].
    intros Hrnd j [Hj Hbj]%elem_of_free. destruct (decide (r ≤ j)); [done|].
    unfold leaf in Hbj. rewrite Hm in Hbj; [done|done|lia|lia].
Qed.

(** ** ClearRange *)
Definition range (offset count : Z) : gset Z := list_to_set (seqZ offset count).

Lemma elem_of_range offset count i : i ∈ range offset count ↔ offset ≤ i < offset + count.
Proof. unfold range. rewrite elem_of_list_to_set, elem_of_seqZ. lia. Qed.

Lemma size_range offset count : 0 ≤ count → Z.of_nat (size (range offset count)) = count.
Proof.
  intros Hc. unfold range. rewrite size_list_to_set, length_seqZ by apply NoDup_seqZ. lia.
Qed.

Definition set_word (L : list Z) (i w : Z) : list Z := <[Z.to_nat i := w]> L.

Lemma word_set_word L i w j :
  0 ≤ i < Z.of_nat (length L) → 0 ≤ j → word (set_word L i w) j = if j =? i then w else word L j.
Proof.
  intros Hi Hj. unfold word at 1, set_word. destruct (j =? i) eqn:E; bool_prop.
  - subst j. by rewrite list_lookup_insert_eq by lia.
  - by rewrite list_lookup_insert_ne by lia.
Qed.

(** Replacing a non-empty word of the last level, and clearing the bits above it
    when the new word is empty. *)
Lemma clear_word_run s k i w :
  levels_wf s → linked s → length s = S k → 0 ≤ i < Z.of_nat (length (level s k)) →
  word (level s k) i ≠ 0 → is_u64 w →
  ∃ s', (if w =? 0 then ClearBit_loop k (<[k := set_word (level s k) i w]> s) i
         else mret (<[k := set_word (level s k) i w]> s)) = Done true s' ∧
    levels_wf s' ∧ linked s' ∧ same_shape s s' ∧ level s' k = set_word (level s k) i w.
Proof.
  intros Hwf Hl Hs Hi Hne Hw. set (L := level s k) in *. set (s1 := <[k := set_word L i w]> s).
  assert (Hlen : length s1 = length s) by apply length_insert.
  assert (Hlev : ∀ j, level s1 j = if decide (j = k) then set_word L i w else level s j).
  { intros j. unfold s1. rewrite level_insert by lia. done. }
  assert (Hwf1 : levels_wf s1).
  { apply levels_wf_insert; [done|lia| |apply length_insert].
    apply Forall_insert; [by apply levels_wf_level|done]. }
  assert (Hsh : same_shape s s1).
  { split; [done|]. intros j. rewrite Hlev. case_decide; [subst|done]. apply length_insert. }
  assert (Hkeep : ∀ j o, (S j < length s)%nat → 0 ≤ o → (S j = k → o ≠ i) → link s1 j o).
  { intros j o Hj Ho Hji. unfold link. rewrite !Hlev, (decide_False (P := j = k)) by lia.
    case_decide as Ek; [|by apply Hl]. rewrite word_set_word by done.
    rewrite (proj2 (Z.eqb_neq o i)) by auto. unfold L. rewrite <- Ek. by apply Hl. }
  assert (Hk1 : level s1 k = set_word L i w) by (by rewrite Hlev, decide_True).
  destruct (w =? 0) eqn:E; bool_prop.
  - destruct k as [|k].
    { exists s1. split_and!; try done. intros j o Hj Ho. apply Hkeep; lia. }
    assert (Hold : bit (level s k) i = true).
    { rewrite (Hl k i) by lia. fold L. by rewrite (proj2 (Z.eqb_neq _ 0)). }
    assert (Hsk : level s1 k = level s k) by (rewrite Hlev, decide_False; [done|lia]).
    destruct (ClearBit_loop_run k s1 i) as (s' & -> & [X1 X2 X3 X4 X5 X6]).
    + done.
    + lia.
    + rewrite Hsk. pose proof (lw_capacity s Hwf k ltac:(lia)). unfold L in *. lia.
    + by rewrite Hsk.
    + split.
      * intros j o Hj Ho Hne'. apply Hkeep; [lia|done|]. intros [= ->]. naive_solver.
      * intros _. rewrite Hk1, word_set_word, Z.eqb_refl by lia. by rewrite E.
    + exists s'. split_and!; [done..| |].
      * split; [lia|]. intros j. rewrite X4. apply Hsh.
      * rewrite X6 by lia. done.
  - exists s1. split_and!; try done. intros j o Hj Ho. rewrite Hlen in Hj.
    destruct (decide (S j = k ∧ o = i)) as [[<- ->]|Hji]; [|apply Hkeep; naive_solver].
    unfold link. rewrite Hk1, Hlev, decide_False, word_set_word, Z.eqb_refl by lia.
    rewrite (Hl j i) by lia. fold L. by rewrite !(proj2 (Z.eqb_neq _ 0)).
Qed.

Lemma range_mask_bits count shift j :
  0 < count < 64 → 0 ≤ shift → shift + count ≤ 64 → 0 ≤ j →
  Z.testbit (u64 (Z.shiftl (u64 (Z.shiftl 1 count) - 1) shift)) j =
  (shift <=? j) && (j <? shift + count).
Proof.
  intros Hc Hs Hsc Hj. rewrite Z.shiftl_1_l.
  assert (2 ^ count < 2 ^ 64) by (apply Z.pow_lt_mono_r; lia).
  rewrite (u64_id (2 ^ count)) by (split; [apply Z.pow_nonneg; lia|lia]).
  replace (2 ^ count - 1) with (Z.ones count) by (rewrite Z.ones_equiv; lia).
  unfold u64. destruct (decide (j < 64)).
  - rewrite Z.mod_pow2_bits_low, Z.shiftl_spec by lia. destruct (decide (shift ≤ j)).
    + rewrite Z.testbit_ones_nonneg by lia. lia.
    + rewrite Z.testbit_neg_r by lia. lia.
  - rewrite Z.mod_pow2_bits_high by lia. lia.
Qed.

(** Cutting the bits of a mask out of one word. *)
Lemma bit_set_word_ldiff L ind m i :
  0 ≤ ind < Z.of_nat (length L) → 0 ≤ i →
  bit (set_word L ind (Z.ldiff (word L ind) m)) i =
  bit L i && negb ((i / 64 =? ind) && Z.testbit m (i mod 64)).
Proof.
  intros Hind Hi. pose proof (Z.div_pos i 64 Hi ltac:(lia)). unfold bit.
  rewrite word_set_word by done. destruct (i / 64 =? ind) eqn:E; bool_prop; simpl.
  - rewrite Z.ldiff_spec, E. done.
  - by rewrite andb_true_r.
Qed.

Lemma word_has_mask L ind m :
  0 ≤ ind → words_ok L → is_u64 m →
  (Z.land (word L ind) m =? m) = true ↔
  ∀ i, 0 ≤ i → i / 64 = ind → Z.testbit m (i mod 64) = true → bit L i = true.
Proof.
  intros Hind HL Hm. rewrite Z.eqb_eq. split.
  - intros E i Hi <- Hb. unfold bit. rewrite <- E, Z.land_spec in Hb. by bool_prop.
  - intros Hall. apply Z.bits_inj'. intros j Hj. rewrite Z.land_spec.
    destruct (Z.testbit m j) eqn:E; [|by rewrite andb_false_r]. rewrite andb_true_r.
    destruct (decide (j < 64)); [|rewrite (testbit_above m 64) in E by done || lia; done].
    destruct (index_parts ind j Hind ltac:(lia)) as [E1 E2].
    specialize (Hall (ind * 64 + j) ltac:(lia) E1). rewrite E2 in Hall.
    specialize (Hall E). by rewrite bit_at in Hall by lia.
Qed.

(** The blocks of the bitmap after the leaf level has changed. *)
Lemma free_blocks_cleared b s' (g : RandomBitGenerator R) n X :
  bitmap_wf b → levels_wf s' → linked s' → same_shape (m_bit_storages b) s' →
  (∀ i, 0 ≤ i → bit (level s' (pred (length s'))) i = bit (leaf b) i && bool_decide (i ∉ X)) →
  X ⊆ free_blocks b → n = Z.of_nat (size X) → rng_wf g →
  let b' := MkBitmap s' g (u64 (m_num_bits b - n)) (m_used_depths b) in
  bitmap_wf b' ∧ num_blocks b' = num_blocks b ∧ free_blocks b' = free_blocks b ∖ X.
Proof.
  intros Hwf Hwf' Hl Hsh Hbits HX Hn Hg b'.
  assert (Hfree : free_blocks b' = free_blocks b ∖ X).
  { apply set_eq. intros i. rewrite elem_of_difference, !elem_of_free. unfold leaf at 1, b'. simpl.
    split.
    - intros [Hi Hb]. rewrite Hbits in Hb by done. bool_prop. by case_bool_decide.
    - intros [[Hi Hb] Hx]. rewrite Hbits, Hb by done. by rewrite bool_decide_true. }
  assert (Hc : u64 (m_num_bits b - n) = Z.of_nat (size (free_blocks b'))).
  { pose proof (subseteq_size _ _ HX). pose proof (size_free_bound b Hwf).
    rewrite Hfree, size_difference, (bw_count b Hwf) by done.
    rewrite (bw_count b Hwf) in *. rewrite u64_id; [lia|]. unfold is_u64. lia. }
  destruct (bitmap_wf_intro b s' g (u64 (m_num_bits b - n)) Hwf Hwf' Hl Hsh Hg Hc) as [? ?]. done.
Qed.

Lemma in_range_parts offset count i :
  0 ≤ offset → 0 ≤ i → offset mod 64 + count ≤ 64 →
  bool_decide (i ∉ range offset count) =
  negb ((i / 64 =? offset / 64) &&
        ((offset mod 64 <=? i mod 64) && (i mod 64 <? offset mod 64 + count))).
Proof.
  intros Ho Hi Hc. pose proof (Z.div_mod i 64 ltac:(lia)). pose proof (Z.div_mod offset 64 ltac:(lia)).
  pose proof (Z.mod_pos_bound i 64 ltac:(lia)). pose proof (Z.mod_pos_bound offset 64 ltac:(lia)).
  case_bool_decide as Hr; rewrite elem_of_range in Hr.
  - symmetry. apply negb_true_iff. rewrite !andb_false_iff, Z.eqb_neq, Z.leb_gt, Z.ltb_ge. lia.
  - symmetry. apply negb_false_iff. rewrite !andb_true_iff, Z.eqb_eq, Z.leb_le, Z.ltb_lt. lia.
Qed.

Definition range_args b (offset count : Z) : Prop :=
  0 ≤ offset ∧ 0 < count ∧ offset + count ≤ num_blocks b ∧
  (if count <? 64 then offset mod 64 + count ≤ 64 else offset mod 64 = 0 ∧ count mod 64 = 0).

Definition cleared b offset count (r : bool * KPageBitmap R) : Prop :=
  bitmap_wf r.2 ∧ num_blocks r.2 = num_blocks b ∧
  r.1 = bool_decide (range offset count ⊆ free_blocks b) ∧
  free_blocks r.2 = if r.1 then free_blocks b ∖ range offset count else free_blocks b.

Lemma ClearRange_small b offset count :
  bitmap_wf b → range_args b offset count → count < 64 →
  wp (KPageBitmap_ClearRange b offset count) (cleared b offset count).
Proof.
  intros Hwf (Ho & Hc & Hb & Hsm) Hc64. rewrite (proj2 (Z.ltb_lt count 64)) in Hsm by done.
  pose proof Hwf as [W1 W2 W3 W4 W5 W7 W8]. pose proof (Z.mod_pos_bound offset 64 ltac:(lia)).
  unfold KPageBitmap_ClearRange, BitSize_u64.
  replace (Z.to_nat (m_used_depths b - 1)) with (pred (length (m_bit_storages b))) by lia.
  destruct (length (m_bit_storages b)) as [|k] eqn:Ek; [lia|]. cbn [pred].
  rewrite (level_lookup _ k) by lia. pstep.
  rewrite (proj2 (Z.ltb_lt count 64)), (proj2 (Z.leb_le (_ + _) 64)) by lia. unfold ASSERT. pstep.
  assert (Hleaf : leaf b = level (m_bit_storages b) k) by (unfold leaf; by rewrite Ek).
  rewrite <- Hleaf. assert (Hind : 0 ≤ offset / 64 < Z.of_nat (length (leaf b))).
  { apply div64_lt. unfold num_blocks in Hb. lia. }
  rewrite arr_get_word by done. pstep.
  set (m := u64 (Z.shiftl (u64 (Z.shiftl 1 count) - 1) (offset mod 64))).
  assert (Hm : ∀ j, 0 ≤ j → Z.testbit m j =
    (offset mod 64 <=? j) && (j <? offset mod 64 + count))
    by (intros; apply range_mask_bits; lia).
  assert (Hsub : (Z.land (word (leaf b) (offset / 64)) m =? m)
                 = bool_decide (range offset count ⊆ free_blocks b)).
  { apply eq_true_iff_eq. rewrite bool_decide_eq_true, word_has_mask; [|lia| |apply u64_range].
    2: rewrite Hleaf; by apply levels_wf_level.
    split.
    - intros Hall i Hi. apply elem_of_free. apply elem_of_range in Hi as Hi'.
      split; [lia|]. pose proof (in_range_parts offset count i Ho ltac:(lia) Hsm) as E.
      rewrite bool_decide_eq_false_2 in E by (by intros Hx; apply Hx).
      symmetry in E. bool_prop. pose proof (Z.mod_pos_bound i 64 ltac:(lia)).
      apply Hall; [lia|done|]. rewrite Hm by lia. lia.
    - intros Hs i Hi Ei Hmi. apply (elem_of_free b i), Hs, elem_of_range.
      pose proof (Z.mod_pos_bound i 64 ltac:(lia)). rewrite Hm in Hmi by lia. bool_prop.
      pose proof (Z.div_mod i 64 ltac:(lia)). pose proof (Z.div_mod offset 64 ltac:(lia)). lia. }
  rewrite Hsub. case_bool_decide as Hin; cbn [negb].
  - pstep. rewrite arr_set_ok by done. pstep. fold (set_word (leaf b) (offset / 64)
      (Z.ldiff (word (leaf b) (offset / 64)) m)). rewrite Hleaf.
    destruct (clear_word_run (m_bit_storages b) k (offset / 64)
      (Z.ldiff (word (leaf b) (offset / 64)) m)) as (s' & E & X1 & X2 & X3 & X4).
    + done. + done. + done. + by rewrite <- Hleaf.
    + rewrite <- Hleaf. apply bit_word. apply (elem_of_free b offset), Hin, elem_of_range. lia.
    + apply ldiff_bound; [lia|]. rewrite Hleaf. by apply word_range, levels_wf_level.
    + rewrite Hleaf in E. rewrite E. pstep.
      destruct (free_blocks_cleared b s' (bm_rng b) count (range offset count))
        as (Y1 & Y2 & Y3); try done.
      * intros i Hi. destruct X3 as [-> _]. rewrite Ek. cbn [pred]. rewrite X4, <- Hleaf.
        rewrite bit_set_word_ldiff by done. f_equal. rewrite in_range_parts by done.
        pose proof (Z.mod_pos_bound i 64 ltac:(lia)). by rewrite Hm by lia.
      * rewrite size_range by lia. done.
      * split_and!; [done|done| |done]. by rewrite bool_decide_true.
  - pstep. split_and!; [done|done| |done]. by rewrite bool_decide_false.
Qed.

(** The whole-word case. *)
Lemma check_full_words_run L n : ∀ i,
  0 ≤ i → i + Z.of_nat n ≤ Z.of_nat (length L) →
  ∃ r, check_full_words n L i = Done true r ∧
    (r = true ↔ ∀ j, i ≤ j < i + Z.of_nat n → word L j = Z.ones 64).
Proof.
  induction n as [|n IH]; intros i Hi Hn; cbn [check_full_words].
  - exists true. split; [done|]. split; [intros _ j; lia|done].
  - rewrite arr_get_word by lia. pstep. change (u64 (Z.lnot 0)) with (Z.ones 64).
    destruct (word L i =? Z.ones 64) eqn:E; bool_prop; cbn [negb].
    + destruct (IH (i + 1)) as (r & Er & Hr); [lia|lia|]. exists r. split; [done|].
      rewrite Hr. split; intros Hall j Hj.
      * destruct (decide (j = i)) as [->|]; [done|]. apply Hall. lia.
      * apply Hall. lia.
    + exists false. split; [done|]. split; [done|]. intros Hall. exfalso. apply E, Hall. lia.
Qed.

Lemma clear_words_run k n : ∀ s i,
  levels_wf s → linked s → length s = S k → 0 ≤ i →
  i + Z.of_nat n ≤ Z.of_nat (length (level s k)) →
  (∀ j, i ≤ j < i + Z.of_nat n → word (level s k) j ≠ 0) →
  ∃ s', clear_words n k s i = Done true s' ∧ levels_wf s' ∧ linked s' ∧ same_shape s s' ∧
    ∀ j, 0 ≤ j → word (level s' k) j =
      if (i <=? j) && (j <? i + Z.of_nat n) then 0 else word (level s k) j.
Proof.
  induction n as [|n IH]; intros s i Hwf Hl Hs Hi Hn Hne; cbn [clear_words].
  - exists s. split_and!; try done. intros j Hj.
    destruct (_ && _) eqn:E; [|done]. bool_prop. lia.
  - rewrite (level_lookup s k) by lia. pstep. rewrite arr_set_ok by lia. pstep.
    destruct (clear_word_run s k i 0) as (s1 & E & X1 & X2 & [X3 X3'] & X4);
      [done|done|done|lia|apply Hne; lia|done|].
    unfold set_word in E. simpl in E. rewrite E. pstep.
    assert (Hw1 : ∀ j, 0 ≤ j → word (level s1 k) j = if j =? i then 0 else word (level s k) j).
    { intros j Hj. rewrite X4. apply word_set_word; lia. }
    destruct (IH s1 (i + 1)) as (s' & -> & Y1 & Y2 & [Y3 Y3'] & Y4).
    + done. + done. + lia. + lia. + rewrite X3'. lia.
    + intros j Hj. rewrite Hw1 by lia. rewrite (proj2 (Z.eqb_neq j i)) by lia. apply Hne. lia.
    + exists s'. split_and!; [done..| |].
      * split; [lia|]. intros j. by rewrite Y3'.
      * intros j Hj. rewrite Y4, Hw1 by done.
        destruct (j =? i) eqn:Eji; bool_prop.
        -- subst j. rewrite (proj2 (Z.leb_le i i)), (proj2 (Z.ltb_lt i (i + Z.of_nat (S n)))) by lia.
           by destruct (_ && _).
        -- destruct ((i + 1 <=? j) && _) eqn:E1, ((i <=? j) && _) eqn:E2; try done;
             exfalso; bool_prop;
             [rewrite andb_false_iff, Z.leb_gt, Z.ltb_ge in E2; lia|
              rewrite andb_false_iff, Z.leb_gt, Z.ltb_ge in E1; lia].
Qed.

Lemma full_word_bits L j :
  0 ≤ j → words_ok L → word L j = Z.ones 64 ↔ ∀ i, 0 ≤ i → i / 64 = j → bit L i = true.
Proof.
  intros Hj HL. assert (Hm : is_u64 (Z.ones 64)) by (split; vm_compute; congruence).
  pose proof (word_has_mask L j (Z.ones 64) Hj HL Hm) as E.
  rewrite Z.eqb_eq, Z.land_ones, Z.mod_small in E by (lia || by apply word_range).
  rewrite E. split; intros Hall i Hi Ei; [|intros _; by apply Hall].
  apply Hall; [done|done|]. pose proof (Z.mod_pos_bound i 64 ltac:(lia)).
  rewrite Z.testbit_ones_nonneg by lia. lia.
Qed.

Lemma in_words offset count i :
  offset mod 64 = 0 → count mod 64 = 0 → offset ≤ i < offset + count ↔
  offset / 64 ≤ i / 64 < offset / 64 + count / 64.
Proof.
  intros Ho Hc. pose proof (Z.div_mod i 64 ltac:(lia)). pose proof (Z.mod_pos_bound i 64 ltac:(lia)).
  pose proof (Z.div_mod offset 64 ltac:(lia)). pose proof (Z.div_mod count 64 ltac:(lia)). lia.
Qed.

Lemma ClearRange_large b offset count :
  bitmap_wf b → range_args b offset count → 64 ≤ count →
  wp (KPageBitmap_ClearRange b offset count) (cleared b offset count).
Proof.
  intros Hwf (Ho & Hc & Hb & Hsm) Hc64. rewrite (proj2 (Z.ltb_ge count 64)) in Hsm by done.
  destruct Hsm as [Hom Hcm]. pose proof Hwf as [W1 W2 W3 W4 W5 W7 W8].
  unfold KPageBitmap_ClearRange, BitSize_u64.
  replace (Z.to_nat (m_used_depths b - 1)) with (pred (length (m_bit_storages b))) by lia.
  destruct (length (m_bit_storages b)) as [|k] eqn:Ek; [lia|]. cbn [pred].
  rewrite (level_lookup _ k) by lia. pstep.
  rewrite (proj2 (Z.ltb_ge count 64)), Hom, Hcm by lia. unfold ASSERT. pstep.
  change (0 =? 0) with true. pstep. cbn [negb].
  assert (Hleaf : leaf b = level (m_bit_storages b) k) by (unfold leaf; by rewrite Ek).
  pose proof (Z.div_pos offset 64 ltac:(lia) ltac:(lia)).
  pose proof (Z.div_mod offset 64 ltac:(lia)). pose proof (Z.div_mod count 64 ltac:(lia)).
  assert (Hcd : Z.of_nat (Z.to_nat (count / 64)) = count / 64) by lia.
  assert (Hroom : offset / 64 + count / 64 ≤ Z.of_nat (length (leaf b))).
  { unfold num_blocks in Hb. lia. }
  rewrite <- Hleaf in *.
  destruct (check_full_words_run (leaf b) (Z.to_nat (count / 64)) (offset / 64)) as (r & -> & Hr);
    [lia|lia|]. rewrite Hcd in Hr. pstep.
  assert (Hok : words_ok (leaf b)) by (rewrite Hleaf; by apply levels_wf_level).
  assert (Hsub : r = bool_decide (range offset count ⊆ free_blocks b)).
  { apply eq_true_iff_eq. rewrite bool_decide_eq_true, Hr. split.
    - intros Hall i Hi. apply elem_of_range in Hi. apply elem_of_free.
      assert (0 ≤ i) by lia. split; [done|].
      rewrite in_words in Hi by done. apply (full_word_bits _ (i / 64)); [lia|done| |lia|done].
      by apply Hall.
    - intros Hs j Hj. apply full_word_bits; [lia|done|]. intros i Hi Ei.
      apply (elem_of_free b i), Hs, elem_of_range. apply in_words; [done|done|]. by rewrite Ei. }
  destruct r; cbn [negb].
  - symmetry in Hsub. apply bool_decide_eq_true in Hsub.
    destruct (clear_words_run k (Z.to_nat (count / 64)) (m_bit_storages b) (offset / 64))
      as (s' & -> & X1 & X2 & X3 & X4).
    + done. + done. + done. + lia. + rewrite <- Hleaf. lia.
    + intros j Hj. rewrite <- Hleaf. rewrite (proj1 Hr) by lia. done.
    + pstep. destruct (free_blocks_cleared b s' (bm_rng b) count (range offset count))
        as (Y1 & Y2 & Y3); try done.
      * intros i Hi. pose proof X3 as [-> _]. rewrite Ek. cbn [pred].
        pose proof (Z.div_pos i 64 Hi ltac:(lia)). unfold bit.
        rewrite X4, Hcd, <- Hleaf by done.
        case_bool_decide as Hin; rewrite elem_of_range, in_words in Hin by done.
        -- rewrite andb_true_r. destruct (_ && _) eqn:E; [|done]. bool_prop. lia.
        -- rewrite andb_false_r, (proj2 (Z.leb_le _ _)), (proj2 (Z.ltb_lt _ _)) by lia.
           apply Z.testbit_0_l.
      * rewrite size_range by lia. done.
      * split_and!; [done|done| |done]. by rewrite bool_decide_true.
  - pstep. by split_and!.
Qed.

(** C22: [ClearRange] clears the range and returns true exactly when all of its
    blocks are free, and changes nothing otherwise; a range is inside one word
    or made of whole words. *)
Theorem KPageBitmap_ClearRange_correct b offset count :
  bitmap_wf b → range_args b offset count →
  wp (KPageBitmap_ClearRange b offset count) (cleared b offset count).
Proof.
  intros Hwf Ha. destruct (decide (count < 64)).
  - by apply ClearRange_small.
  - apply ClearRange_large; [done|done|lia].
Qed.

(** freeing a block and allocating it again: [SetBit] adds exactly its
    block to the free set, [ClearBit] removes exactly its block, the summary
    levels follow, and no assertion of the loops fails. *)
Theorem KPageBitmap_SetBit_ClearBit_correct b o :
  bitmap_wf b → 0 ≤ o < num_blocks b →
  (o ∉ free_blocks b →
     wp (KPageBitmap_SetBit b o) (λ b', bitmap_wf b' ∧ free_blocks b' = {[o]} ∪ free_blocks b)) ∧
  (o ∈ free_blocks b →
     wp (KPageBitmap_ClearBit b o) (λ b', bitmap_wf b' ∧ free_blocks b' = free_blocks b ∖ {[o]})).
Proof.
  intros Hwf Ho. split; intros Hin.
  - destruct (SetBit_run b o) as (b' & -> & ? & ? & ?); done.
  - destruct (ClearBit_run b o) as (b' & -> & ? & ? & ?); done.
Qed.

(** [FindFreeBlock] returns -1 exactly when no block is free; otherwise it
    returns a free block, whatever the random bits are, and the lowest one when
    not asked for a random choice. *)
Theorem KPageBitmap_FindFreeBlock_correct b random :
  bitmap_wf b →
  wp (KPageBitmap_FindFreeBlock b random) (λ '(r, b'),
    bitmap_wf b' ∧ m_bit_storages b' = m_bit_storages b ∧
    (if decide (free_blocks b = ∅) then r = -1
     else r ∈ free_blocks b ∧ (random = false → ∀ j, j ∈ free_blocks b → r ≤ j))).
Proof. apply FindFreeBlock_run. Qed.

(** ** Initialize *)
Lemma GetRequiredDepth_loop_spec fuel : ∀ size depth,
  0 ≤ size < 64 ^ Z.of_nat fuel → (0 < fuel)%nat →
  ∃ d, (0 < d)%nat ∧ GetRequiredDepth_loop fuel size depth = depth + Z.of_nat d ∧
    size < 64 ^ Z.of_nat d ∧ (d ≠ 1%nat → 64 ^ Z.of_nat (pred d) ≤ size).
Proof.
  induction fuel as [|fuel IH]; intros size depth Hs Hf; [lia|].
  cbn [GetRequiredDepth_loop]. unfold BitSize_u64. pose proof (Z.div_mod size 64 ltac:(lia)).
  pose proof (Z.mod_pos_bound size 64 ltac:(lia)). pose proof (Z.div_pos size 64 ltac:(lia) ltac:(lia)).
  destruct (size / 64 =? 0) eqn:E; bool_prop.
  - exists 1%nat. split_and!; [lia|lia| |done]. change (64 ^ Z.of_nat 1) with 64. lia.
  - rewrite Nat2Z.inj_succ, Z.pow_succ_r in Hs by lia.
    assert (size / 64 < 64 ^ Z.of_nat fuel) by (apply Z.div_lt_upper_bound; lia).
    destruct fuel as [|fuel]; [simpl in *; lia|].
    destruct (IH (size / 64) (depth + 1)) as (d & Hd & -> & Hd1 & Hd2); [lia|lia|].
    exists (S d). split_and!; [lia|lia| |].
    + rewrite Nat2Z.inj_succ, Z.pow_succ_r by lia. lia.
    + intros _. cbn [pred]. destruct d as [|d]; [lia|].
      destruct (decide (d = 0%nat)) as [->|Hd0]; [change (64 ^ Z.of_nat 1) with 64; lia|].
      specialize (Hd2 ltac:(lia)). cbn [pred] in Hd2.
      rewrite Nat2Z.inj_succ, Z.pow_succ_r by lia. lia.
Qed.

Definition ceil64 (n : Z) : Z := (n + 63) / 64.

Lemma AlignUp_ceil n : 0 ≤ n < 2 ^ 63 → AlignUp n BitSize_u64 / BitSize_u64 = ceil64 n.
Proof.
  intros Hn. destruct (AlignUp_spec n 64) as [Hm Hr]; [lia|lia|lia|].
  unfold BitSize_u64, ceil64. pose proof (Z.div_mod (AlignUp n 64) 64 ltac:(lia)).
  pose proof (Z.div_mod (n + 63) 64 ltac:(lia)). pose proof (Z.mod_pos_bound (n + 63) 64 ltac:(lia)).
  lia.
Qed.

Lemma ceil64_spec n : 0 ≤ n → n ≤ 64 * ceil64 n < n + 64 ∧ 0 ≤ ceil64 n ≤ n.
Proof.
  intros Hn. unfold ceil64. pose proof (Z.div_mod (n + 63) 64 ltac:(lia)).
  pose proof (Z.mod_pos_bound (n + 63) 64 ltac:(lia)). lia.
Qed.

(** The lengths of the levels, the root first. *)
Fixpoint level_sizes (n : nat) (size : Z) : list Z :=
  match n with O => [] | S n => level_sizes n (ceil64 size) ++ [ceil64 size] end.

Lemma level_sizes_length n size : length (level_sizes n size) = n.
Proof. revert size. induction n; intros; simpl; [done|]. rewrite length_app, IHn. simpl. lia. Qed.

Lemma level_sizes_bound n size : 0 ≤ size → Forall (λ c, 0 ≤ c ≤ size) (level_sizes n size).
Proof.
  revert size. induction n as [|n IH]; intros size Hs; simpl; [constructor|].
  pose proof (ceil64_spec size Hs) as [_ ?]. apply Forall_app. split; [|apply Forall_singleton; lia].
  eapply Forall_weaken; [apply IH; lia|]. simpl. lia.
Qed.

Lemma level_sizes_capacity n : ∀ size k a c,
  0 ≤ size → level_sizes n size !! k = Some a → level_sizes n size !! S k = Some c → c ≤ 64 * a.
Proof.
  induction n as [|n IH]; intros size k a c Hs Ha Hc; simpl in *; [done|].
  pose proof (ceil64_spec size Hs) as [_ ?].
  destruct (decide (S k < n)%nat).
  - rewrite lookup_app_l in Ha, Hc by (rewrite level_sizes_length; lia).
    eapply IH; [|done..]. lia.
  - apply lookup_lt_Some in Hc as Hlt. rewrite length_app, level_sizes_length in Hlt. simpl in Hlt.
    rewrite lookup_app_r in Hc by (rewrite level_sizes_length; lia).
    rewrite level_sizes_length in Hc. replace (S k - n)%nat with 0%nat in Hc by lia.
    simpl in Hc. simplify_eq. destruct n as [|n]; [lia|]. simpl in Ha.
    rewrite lookup_app_l in Ha by (rewrite length_app, level_sizes_length; simpl; lia).
    rewrite lookup_app_r in Ha by (rewrite level_sizes_length; lia).
    rewrite level_sizes_length in Ha. replace (k - n)%nat with 0%nat in Ha by lia.
    simpl in Ha. simplify_eq. pose proof (ceil64_spec (ceil64 size)). lia.
Qed.

Lemma level_sizes_root n : ∀ size, (0 < n)%nat → 0 < size ≤ 64 ^ Z.of_nat n →
  level_sizes n size !! 0%nat = Some 1.
Proof.
  induction n as [|n IH]; intros size Hn Hs; [lia|]. cbn [level_sizes].
  rewrite Nat2Z.inj_succ, Z.pow_succ_r in Hs by lia. pose proof (ceil64_spec size ltac:(lia)).
  destruct n as [|n].
  - simpl in *. f_equal. lia.
  - rewrite lookup_app_l by (rewrite level_sizes_length; lia). apply IH; [lia|]. lia.
Qed.

Definition zeros (c : Z) : list Z := replicate (Z.to_nat c) 0.

Lemma Initialize_levels_zeros n : ∀ size N levels,
  0 ≤ size < 2 ^ 63 → (sum_list_with Z.to_nat (level_sizes n size) ≤ N)%nat →
  Initialize_levels n (replicate N 0) size levels =
  (map zeros (level_sizes n size) ++ levels,
   replicate (N - sum_list_with Z.to_nat (level_sizes n size)) 0).
Proof.
  induction n as [|n IH]; intros size N levels Hs HN; cbn [Initialize_levels level_sizes].
  - simpl. by rewrite Nat.sub_0_r.
  - rewrite AlignUp_ceil by done. cbn [level_sizes] in HN.
    rewrite sum_list_with_app in *. simpl in HN |- *. pose proof (ceil64_spec size).
    assert (Et : take (Z.to_nat (ceil64 size)) (replicate N 0) = zeros (ceil64 size)).
    { unfold zeros. rewrite take_replicate. f_equal. lia. }
    rewrite Et, drop_replicate, IH by lia. rewrite map_app, <- app_assoc. simpl.
    f_equal. f_equal. lia.
Qed.

Lemma word_zeros c i : word (zeros c) i = 0.
Proof.
  unfold word, zeros. destruct (_ !! _) as [w|] eqn:E; [|done].
  by apply lookup_replicate in E as [-> _].
Qed.

Lemma bit_zeros c i : bit (zeros c) i = false.
Proof. unfold bit. rewrite word_zeros. apply Z.testbit_0_l. Qed.

Lemma level_zeros l k : level (map zeros l) k = zeros (default 0 (l !! k)).
Proof.
  unfold level. rewrite list_lookup_fmap. by destruct (l !! k).
Qed.

Lemma length_zeros c : 0 ≤ c → Z.of_nat (length (zeros c)) = c.
Proof. intros Hc. unfold zeros. rewrite length_replicate. lia. Qed.

Lemma zero_levels_wf n size :
  0 ≤ size < 2 ^ 56 → levels_wf (map zeros (level_sizes n size)) ∧
  linked (map zeros (level_sizes n size)).
Proof.
  intros Hs. pose proof (level_sizes_bound n size ltac:(lia)) as Hb.
  assert (Hd : ∀ k, 0 ≤ default 0 (level_sizes n size !! k) ≤ size).
  { intros k. destruct (_ !! k) as [c|] eqn:E; simpl; [|lia].
    by eapply Forall_lookup in E; [|exact Hb]. }
  split; [split|].
  - apply Forall_map, Forall_forall. intros c _. apply Forall_replicate. done.
  - intros k Hk. rewrite length_map in Hk. rewrite !level_zeros, !length_zeros by apply Hd.
    destruct (lookup_lt_is_Some_2 _ _ Hk) as [c Ec].
    destruct (lookup_lt_is_Some_2 (level_sizes n size) k ltac:(lia)) as [a Ea].
    rewrite Ea, Ec. simpl. eapply level_sizes_capacity; [|done..]. lia.
  - intros k. rewrite level_zeros, length_zeros by apply Hd. specialize (Hd k). lia.
  - intros k i _ _. unfold link. rewrite !level_zeros, bit_zeros, word_zeros. done.
Qed.

Lemma overhead_loop n : ∀ size acc,
  0 ≤ size < 2 ^ 50 → 0 ≤ acc → acc + Z.of_nat n * size < 2 ^ 60 →
  (fix loop (n : nat) (region_size overhead_bits : Z) : Z :=
    match n with
    | O => overhead_bits
    | S n => loop n (AlignUp region_size BitSize_u64 / BitSize_u64)
               (u64 (overhead_bits + AlignUp region_size BitSize_u64 / BitSize_u64))
    end) n size acc = acc + Z.of_nat (sum_list_with Z.to_nat (level_sizes n size)).
Proof.
  induction n as [|n IH]; intros size acc Hs Ha Hb; cbn [level_sizes]; [simpl; lia|].
  rewrite AlignUp_ceil by lia. pose proof (ceil64_spec size ltac:(lia)).
  rewrite u64_id by (unfold is_u64; nia). rewrite IH by nia.
  rewrite sum_list_with_app. simpl. lia.
Qed.

Lemma GetRequiredDepth_spec size :
  0 ≤ size < 2 ^ 64 → ∃ d, (0 < d)%nat ∧ GetRequiredDepth size = Z.of_nat d ∧
    size < 64 ^ Z.of_nat d ∧ (d ≠ 1%nat → 64 ^ Z.of_nat (pred d) ≤ size).
Proof.
  intros Hs. destruct (GetRequiredDepth_loop_spec 11 size 0) as (d & ? & E & ? & ?); [|lia|].
  - change (64 ^ Z.of_nat 11) with (2 ^ 66). lia.
  - exists d. by split_and!.
Qed.

Lemma overhead_eq size d :
  0 ≤ size < 2 ^ 24 → GetRequiredDepth size = Z.of_nat d → (d ≤ 4)%nat →
  KPageBitmap_CalculateManagementOverheadSize size =
  8 * Z.of_nat (sum_list_with Z.to_nat (level_sizes d size)).
Proof.
  intros Hs Ed Hd. unfold KPageBitmap_CalculateManagementOverheadSize.
  rewrite Ed, Nat2Z.id, overhead_loop by nia. rewrite Z.add_0_l, Z.mul_comm. apply u64_id.
  assert (Hsum : Z.of_nat (sum_list_with Z.to_nat (level_sizes d size)) ≤ Z.of_nat d * size).
  { clear Ed Hd. revert size Hs. induction d as [|d IH]; intros size Hs; simpl; [lia|].
    pose proof (ceil64_spec size ltac:(lia)). rewrite sum_list_with_app. simpl.
    specialize (IH (ceil64 size) ltac:(lia)). nia. }
  unfold is_u64. nia.
Qed.

Lemma bitmap_Initialize_run b size N :
  0 < size < 2 ^ 24 → rng_wf (bm_rng b) →
  KPageBitmap_CalculateManagementOverheadSize size ≤ 8 * Z.of_nat N →
  ∃ b' N', KPageBitmap_Initialize b (replicate N 0) size = Done true (b', replicate N' 0) ∧
    8 * Z.of_nat N = 8 * Z.of_nat N' + KPageBitmap_CalculateManagementOverheadSize size ∧
    bitmap_wf b' ∧ free_blocks b' = ∅ ∧ size ≤ num_blocks b' < size + 64.
Proof.
  intros Hs Hg HN. destruct (GetRequiredDepth_spec size) as (d & Hd & Ed & Hd1 & Hd2); [lia|].
  assert (Hd4 : (d ≤ 4)%nat).
  { destruct (decide (d ≤ 4)%nat); [done|]. specialize (Hd2 ltac:(lia)).
    assert (64 ^ 4 ≤ 64 ^ Z.of_nat (pred d)) by (apply Z.pow_le_mono_r; lia). lia. }
  rewrite (overhead_eq size d) in HN |- * by done || lia.
  unfold KPageBitmap_Initialize. rewrite Ed, Nat2Z.id.
  rewrite (proj2 (Z.leb_le _ MaxDepth)) by (unfold MaxDepth; lia). unfold ASSERT. pstep.
  rewrite Initialize_levels_zeros, app_nil_r by lia. eexists _, _. split; [done|].
  split; [lia|]. destruct (zero_levels_wf d size ltac:(lia)) as [Hwf Hl].
  set (b' := MkBitmap _ _ _ _).
  assert (Hleaf : leaf b' = zeros (ceil64 size)).
  { unfold leaf, b'. simpl. rewrite length_map, level_sizes_length, level_zeros.
    destruct d as [|d]; [lia|]. simpl.
    rewrite lookup_app_r by (rewrite level_sizes_length; lia).
    by rewrite level_sizes_length, Nat.sub_diag. }
  assert (Hfree : free_blocks b' = ∅).
  { apply set_eq. intros i. rewrite elem_of_free, Hleaf, bit_zeros. set_solver. }
  pose proof (ceil64_spec size ltac:(lia)).
  split_and!; [|done|unfold num_blocks; rewrite Hleaf, length_zeros; lia..].
  split; simpl; try done.
  - by rewrite length_map, level_sizes_length.
  - by rewrite length_map, level_sizes_length.
  - rewrite level_zeros, level_sizes_root by lia. done.
  - by rewrite Hfree, size_empty.
Qed.

(** [Initialize] on cleared storage takes exactly the storage that
    [CalculateManagementOverheadSize] computed, and gives a well-formed bitmap
    with a bit for every block and no block free. *)
Theorem KPageBitmap_Initialize_correct b size N :
  0 < size < 2 ^ 24 → rng_wf (bm_rng b) →
  KPageBitmap_CalculateManagementOverheadSize size ≤ 8 * Z.of_nat N →
  wp (KPageBitmap_Initialize b (replicate N 0) size) (λ '(b', rest),
    bitmap_wf b' ∧ free_blocks b' = ∅ ∧ size ≤ num_blocks b' < size + 64 ∧
    8 * Z.of_nat (length rest) + KPageBitmap_CalculateManagementOverheadSize size =
      8 * Z.of_nat N).
Proof.
  intros Hs Hg HN. destruct (bitmap_Initialize_run b size N Hs Hg HN) as (b' & N' & -> & ? & ? & ? & ?).
  simpl. rewrite length_replicate. split_and!; [done|done|lia|lia|lia].
Qed.

(** ** FindFreeRange *)
Section FindFreeRange.
Context (b : KPageBitmap R) (count : Z).
Hypothesis Hcount : 0 < count < 64.
Hypothesis Hsmall : num_blocks b < 2 ^ 30.

(** The option number [o] of word [w]. *)
Definition option_offset (w o : Z) : Z := w * 64 + o * count.
Definition is_option (w o : Z) : Prop :=
  0 ≤ w < Z.of_nat (length (leaf b)) ∧ 0 ≤ o < 64 / count.
Definition free_range (p : Z) : Prop := range p count ⊆ free_blocks b.

Definition choice_ok (c : @range_choice R) : Prop :=
  rng_wf (choice_rng c) ∧
  ((num_valid_options c = 0 ∧ chosen_offset c = -1) ∨
   (0 < num_valid_options c ∧
    ∃ w o, is_option w o ∧ chosen_offset c = option_offset w o ∧ free_range (option_offset w o))).

Lemma option_room w o : is_option w o → 0 ≤ o * count ∧ o * count + count ≤ 64.
Proof.
  intros [_ Ho]. pose proof (Z.mul_div_le 64 count ltac:(lia)). nia.
Qed.

Lemma option_test w o :
  is_option w o →
  (Z.land (Z.shiftr (word (leaf b) w) (o * count)) (Z.shiftl 1 count - 1) =?
     Z.shiftl 1 count - 1) = bool_decide (free_range (option_offset w o)).
Proof.
  intros Hop. pose proof (option_room w o Hop) as [Hr1 Hr2]. destruct Hop as [Hw Ho].
  rewrite Z.shiftl_1_l. replace (2 ^ count - 1) with (Z.ones count) by (rewrite Z.ones_equiv; lia).
  apply eq_true_iff_eq. rewrite Z.eqb_eq, bool_decide_eq_true. split.
  - intros E p Hp. apply elem_of_range in Hp. unfold option_offset in Hp.
    apply elem_of_free. split; [lia|].
    replace p with (w * 64 + (p - w * 64)) by lia. rewrite bit_at by lia.
    apply (f_equal (λ z, Z.testbit z (p - w * 64 - o * count))) in E.
    rewrite Z.land_spec, Z.shiftr_spec, Z.testbit_ones_nonneg in E by lia.
    rewrite (proj2 (Z.ltb_lt _ count)), andb_true_r in E by lia. rewrite <- E. f_equal. lia.
  - intros Hs. apply Z.bits_inj'. intros j Hj. rewrite Z.land_spec, Z.testbit_ones_nonneg by lia.
    destruct (j <? count) eqn:E; [|by rewrite andb_false_r]. bool_prop. rewrite andb_true_r.
    rewrite Z.shiftr_spec by lia. rewrite <- bit_at by lia.
    apply (elem_of_free b), Hs, elem_of_range. unfold option_offset. lia.
Qed.

Lemma find_range_in_word_run w n : ∀ o c,
  (n = 0%nat ∨ is_option w (o + Z.of_nat n - 1)) → 0 ≤ o → choice_ok c →
  0 ≤ num_valid_options c → num_valid_options c + Z.of_nat n < 2 ^ 30 →
  wp (find_range_in_word n count (Z.shiftl 1 count - 1) w o
        (Z.shiftr (word (leaf b) w) (o * count)) c) (λ c',
    choice_ok c' ∧ num_valid_options c ≤ num_valid_options c' ≤ num_valid_options c + Z.of_nat n ∧
    (num_valid_options c' = num_valid_options c →
     ∀ o', o ≤ o' < o + Z.of_nat n → ¬ free_range (option_offset w o'))).
Proof.
  induction n as [|n IH]; intros o c Hn Ho Hc Hnum Hb; cbn [find_range_in_word].
  - simpl. split_and!; [done|lia|lia|]. intros; lia.
  - destruct Hn as [?|[Hw Hon]]; [done|]. assert (Hop : is_option w o) by (split; [done|lia]).
    pose proof (option_room w o Hop) as [Hr1 Hr2].
    rewrite option_test by done. apply wp_bind. rewrite Z.shiftr_shiftr by lia.
    replace (o * count + count) with ((o + 1) * count) by lia.
    assert (Hnext : ∀ c1, choice_ok c1 → num_valid_options c ≤ num_valid_options c1 →
      num_valid_options c1 ≤ num_valid_options c + 1 →
      (num_valid_options c1 = num_valid_options c → ¬ free_range (option_offset w o)) →
      wp (find_range_in_word n count (Z.shiftl 1 count - 1) w (o + 1)
            (Z.shiftr (word (leaf b) w) ((o + 1) * count)) c1) (λ c',
        choice_ok c' ∧ num_valid_options c ≤ num_valid_options c'
          ≤ num_valid_options c + Z.of_nat (S n) ∧
        (num_valid_options c' = num_valid_options c →
         ∀ o', o ≤ o' < o + Z.of_nat (S n) → ¬ free_range (option_offset w o')))).
    { intros c1 Hc1 Hn1 Hn2 Hnone. eapply wp_mono; [apply IH; [|lia|done|lia|lia]|].
      - destruct n; [by left|right]. split; [done|lia].
      - intros c' (H1 & H2 & H3). split_and!; [done|lia|lia|]. intros E o' Ho'.
        destruct (decide (o' = o)) as [->|]; [apply Hnone; lia|]. apply H3; lia. }
    case_bool_decide as Hfree.
    + rewrite (u64_id (_ + 1)) by (unfold is_u64; lia).
      assert (Hwl : num_blocks b = 64 * Z.of_nat (length (leaf b))) by done.
      assert (Es : s64 (w * BitSize_u64 + o * count) = option_offset w o).
      { apply s64_id. unfold is_s64, option_offset, BitSize_u64. lia. }
      apply wp_bind. destruct Hc as [Hg Hc]. destruct (num_valid_options c + 1 =? 1) eqn:E1; bool_prop.
      * simpl. rewrite Es. apply Hnext; simpl.
        -- split; [done|]. right. split; [simpl; lia|]. by exists w, o.
        -- lia.
        -- lia.
        -- intros E. exfalso. lia.
      * apply wp_bind. eapply wp_mono; [apply GenerateRandom_run; [done|lia]|].
        intros [r g] [Hg' _]. simpl. rewrite Es. apply Hnext; simpl.
        -- split; [done|]. right. split; [simpl; lia|]. simpl. destruct (r =? 0); [by exists w, o|].
           destruct Hc as [[? ?]|[_ Hc]]; [lia|done].
        -- lia.
        -- lia.
        -- intros E. exfalso. lia.
    + simpl. apply Hnext; [done|lia|lia|done].
Qed.

Lemma find_range_words_run l : ∀ w0 c,
  (∀ i, word l (Z.of_nat i) = word (leaf b) (w0 + Z.of_nat i)) → 0 ≤ w0 →
  w0 + Z.of_nat (length l) ≤ Z.of_nat (length (leaf b)) → choice_ok c →
  0 ≤ num_valid_options c → num_valid_options c ≤ 64 * w0 →
  wp (find_range_words l (Z.to_nat (Z.max (64 / count) 1)) count (Z.shiftl 1 count - 1) w0 c)
     (λ c', choice_ok c' ∧ num_valid_options c ≤ num_valid_options c' ∧
      (num_valid_options c' = num_valid_options c →
       ∀ w o, w0 ≤ w < w0 + Z.of_nat (length l) → is_option w o →
         ¬ free_range (option_offset w o))).
Proof.
  assert (Hd : 1 ≤ 64 / count ≤ 64).
  { split; [apply Z.div_le_lower_bound; lia|]. apply Z.div_le_upper_bound; nia. }
  assert (Hwl : num_blocks b = 64 * Z.of_nat (length (leaf b))) by done.
  induction l as [|x l IH]; intros w0 c Hl Hw0 Hlen Hc Hnum Hb; cbn [find_range_words length].
  - simpl. split_and!; [done|lia|]. intros; simpl in *; lia.
  - assert (Ex : x = word (leaf b) w0).
    { specialize (Hl 0%nat). unfold word in Hl at 1. simpl in Hl. rewrite Z.add_0_r in Hl. done. }
    assert (Hl' : ∀ i, word l (Z.of_nat i) = word (leaf b) (w0 + 1 + Z.of_nat i)).
    { intros i. specialize (Hl (S i)). unfold word in Hl at 1 |- * at 1. rewrite Nat2Z.id in *.
      simpl in Hl. rewrite Hl. f_equal. lia. }
    simpl in Hlen. apply wp_bind. eapply wp_mono.
    + replace x with (Z.shiftr (word (leaf b) w0) (0 * count)) by (rewrite Z.shiftr_0_r; done).
      apply find_range_in_word_run; [right; split; lia|lia|done|done|lia].
    + intros c1 (Hc1 & Hn1 & Hnone1). eapply wp_mono; [apply IH; [done|lia|lia|done|lia|lia]|].
      intros c' (Hc' & Hn' & Hnone'). split_and!; [done|lia|]. intros E w o Hw Hop.
      destruct (decide (w = w0)) as [->|].
      * apply Hnone1; [lia|]. destruct Hop as [_ Hop]. lia.
      * apply Hnone'; [lia|lia|done].
Qed.
End FindFreeRange.

(** [FindFreeRange] returns the offset of a free range of [count] blocks
    that does not straddle a word, or -1 exactly when there is none at a
    multiple of [count] in any word. *)
Theorem KPageBitmap_FindFreeRange_correct b count :
  bitmap_wf b → 0 < count < 64 → num_blocks b < 2 ^ 30 →
  wp (KPageBitmap_FindFreeRange b count) (λ '(r, b'),
    bitmap_wf b' ∧ m_bit_storages b' = m_bit_storages b ∧
    ((r = -1 ∧ ∀ w o, is_option b count w o →
        ¬ range (option_offset count w o) count ⊆ free_blocks b) ∨
     (0 ≤ r ∧ r mod 64 + count ≤ 64 ∧ range r count ⊆ free_blocks b))).
Proof.
  intros Hwf Hc Hs. pose proof Hwf as [W1 W2 W3 W4 W5 W7 W8]. unfold KPageBitmap_FindFreeRange.
  replace (Z.to_nat (m_used_depths b - 1)) with (pred (length (m_bit_storages b))) by lia.
  rewrite level_lookup by lia. pstep. fold (leaf b).
  destruct (decide (leaf b = [])) as [El|El].
  - rewrite El. simpl. split_and!; [done|done|]. left. split; [done|].
    intros w o [Hw _]. rewrite El in Hw. simpl in Hw. lia.
  - assert (0 < length (leaf b))%nat by (by destruct (leaf b); [|simpl; lia]).
    rewrite (proj2 (Z.ltb_lt 0 _)), (proj2 (Z.leb_le count BitSize_u64)) by (unfold BitSize_u64; lia).
    rewrite (proj2 (Z.eqb_neq count 0)), (proj2 (Z.eqb_neq count BitSize_u64))
      by (unfold BitSize_u64; lia). cbn [negb andb orb].
    apply wp_bind. eapply wp_mono.
    + apply (find_range_words_run b count Hc Hs (leaf b) 0); simpl; try lia.
      * intros i. done.
      * split; [done|]. by left.
    + intros c ([Hg Hch] & Hn & Hnone). simpl in *. split_and!; [by apply bitmap_wf_intro|done|].
      destruct Hch as [[E ->]|(Hpos & w & o & Hop & -> & Hfr)].
      * left. split; [done|]. intros w o Hop. apply Hnone; [done| |done].
        destruct Hop as [? _]. lia.
      * right. pose proof (option_room b count Hc w o Hop) as [? ?]. destruct Hop as [? ?].
        unfold option_offset. split_and!; [lia| |done].
        destruct (decide (o * count < 64)); [|lia].
        destruct (index_parts w (o * count)) as [_ ->]; lia.
Qed.
End Bitmap.
