(* ===== verification/PageHeap.v ===== *)
(** * KPageHeap (src/src/core/hle/kernel/k_page_heap.h, k_page_heap.cpp)

    The physical page heap: one bitmap per block size, blocks that coalesce into
    the next size when all their neighbours are free, and the two allocation
    strategies. *)

From stdpp Require Import gmap.
From S2P Require Import Prelude Common PageBitmap.

Definition NumMemoryBlockPageShifts : Z := 7.
Definition MemoryBlockPageShifts : list Z := [0xC; 0x10; 0x15; 0x16; 0x19; 0x1D; 0x1E].

(** ** KPageHeap::Block *)
Record Block (R : Type) : Type := MkHeapBlock {
  m_bitmap : KPageBitmap R;
  blk_heap_address : Z;
  m_end_offset : Z;
  m_block_shift : Z;
  m_next_block_shift : Z
}.
Arguments MkHeapBlock {R}.
Arguments m_bitmap {R}.
Arguments blk_heap_address {R}.
Arguments m_end_offset {R}.
Arguments m_block_shift {R}.
Arguments m_next_block_shift {R}.

(** ** KPageHeap *)
Record KPageHeap (R : Type) : Type := MkHeap {
  m_heap_address : Z;
  m_heap_size : Z;
  m_initial_used_size : Z;
  m_num_blocks : Z;
  m_blocks : list (Block R);
  heap_rng : RandomBitGenerator R
}.
Arguments MkHeap {R}.
Arguments m_heap_address {R}.
Arguments m_heap_size {R}.
Arguments m_initial_used_size {R}.
Arguments m_num_blocks {R}.
Arguments m_blocks {R}.
Arguments heap_rng {R}.

Section Heap.
Context {R : Type} `{Rng R}.

Definition Block_GetSize (b : Block R) : Z := u64 (Z.shiftl 1 (m_block_shift b)).
Definition Block_GetNumPages (b : Block R) : Z := Block_GetSize b / PageSize.
Definition Block_GetNumFreeBlocks (b : Block R) : Z := m_num_bits (m_bitmap b).
Definition Block_GetNumFreePages (b : Block R) : Z :=
  u64 (Block_GetNumFreeBlocks b * Block_GetNumPages b).

Definition set_bitmap (bm : KPageBitmap R) (b : Block R) : Block R :=
  MkHeapBlock bm (blk_heap_address b) (m_end_offset b) (m_block_shift b) (m_next_block_shift b).

Definition Block_Initialize (b : Block R) (addr size bs nbs : Z) (bit_storage : list Z)
    : prog (Block R * list Z) :=
  let nd := u64 (addr + size) in
  let align := if negb (nbs =? 0) then u64 (Z.shiftl 1 nbs) else u64 (Z.shiftl 1 bs) in
  let addr := AlignDown addr align in
  let nd := AlignUp nd align in
  let end_offset := u64 (nd - addr) / u64 (Z.shiftl 1 bs) in
  '(bm, storage) ← KPageBitmap_Initialize (m_bitmap b) bit_storage end_offset;
  mret (MkHeapBlock bm addr end_offset bs nbs, storage).

(** A null address is 0. *)
Definition Block_PushBlock (b : Block R) (address : Z) : prog (Z * Block R) :=
  let offset := Z.shiftr (u64 (address - blk_heap_address b)) (m_block_shift b) in
  bm ← KPageBitmap_SetBit (m_bitmap b) offset;
  let b := set_bitmap bm b in
  if negb (m_next_block_shift b =? 0) then
    let diff := u64 (Z.shiftl 1 (m_next_block_shift b - m_block_shift b)) in
    let offset := AlignDown offset diff in
    '(coalesced, bm) ← KPageBitmap_ClearRange (m_bitmap b) offset diff;
    let b := set_bitmap bm b in
    if coalesced : bool
    then mret (u64 (blk_heap_address b + u64 (Z.shiftl offset (m_block_shift b))), b)
    else mret (0, b)
  else mret (0, b).

Definition Block_PopBlock (b : Block R) (random : bool) : prog (Z * Block R) :=
  '(soffset, bm) ← KPageBitmap_FindFreeBlock (m_bitmap b) random;
  let b := set_bitmap bm b in
  if soffset <? 0 then mret (0, b)
  else
    bm ← KPageBitmap_ClearBit (m_bitmap b) soffset;
    let b := set_bitmap bm b in
    mret (u64 (blk_heap_address b + u64 (Z.shiftl soffset (m_block_shift b))), b).

Definition Block_CalculateManagementOverheadSize
    (region_size cur_block_shift next_block_shift : Z) : Z :=
  let cur_block_size := u64 (Z.shiftl 1 cur_block_shift) in
  let next_block_size := u64 (Z.shiftl 1 next_block_shift) in
  let align := if negb (next_block_shift =? 0) then next_block_size else cur_block_size in
  KPageBitmap_CalculateManagementOverheadSize
    (u64 (u64 (align * 2) + AlignUp region_size align) / cur_block_size).

(** ** Static helpers *)
Definition GetBlockSize (index : Z) : prog Z :=
  shift ← arr_get MemoryBlockPageShifts index; mret (u64 (Z.shiftl 1 shift)).

Definition GetBlockNumPages (index : Z) : prog Z :=
  size ← GetBlockSize index; mret (size / PageSize).

Fixpoint aligned_index_loop (shifts : list Z) (i target_pages : Z) : Z :=
  match shifts with
  | [] => -1
  | shift :: shifts =>
      if target_pages <=? u64 (Z.shiftl 1 shift) / PageSize then i
      else aligned_index_loop shifts (i + 1) target_pages
  end.
Definition GetAlignedBlockIndex (num_pages align_pages : Z) : Z :=
  aligned_index_loop MemoryBlockPageShifts 0 (Z.max num_pages align_pages).

(** The loop goes from the last shift down; [n] shifts are left. *)
Fixpoint block_index_loop (n : nat) (num_pages : Z) : prog Z :=
  match n with
  | O => mret (-1)
  | S n =>
      shift ← deref (MemoryBlockPageShifts !! n);
      if u64 (Z.shiftl 1 shift) / PageSize <=? num_pages then mret (Z.of_nat n)
      else block_index_loop n num_pages
  end.
Definition GetBlockIndex (num_pages : Z) : prog Z :=
  block_index_loop (Z.to_nat NumMemoryBlockPageShifts) num_pages.

Definition overhead_size (region_size : Z) (block_shifts : list Z) : Z :=
  let fix loop (shifts : list Z) (acc : Z) : Z :=
    match shifts with
    | [] => acc
    | cur :: shifts =>
        loop shifts (u64 (acc + Block_CalculateManagementOverheadSize region_size cur
                                 (default 0 (head shifts))))
    end in
  loop block_shifts 0.
Definition KPageHeap_CalculateManagementOverheadSize (region_size : Z) : Z :=
  AlignUp (overhead_size region_size MemoryBlockPageShifts) PageSize.

(** ** Initialize

    The shift after the last one is 0. *)
Fixpoint initialize_blocks (blocks : list (Block R)) (shifts : list Z) (address size : Z)
    (storage : list Z) : prog (list (Block R) * list Z) :=
  match shifts, blocks with
  | [], _ => mret (blocks, storage)
  | cur :: shifts, [] => Stuck
  | cur :: shifts, b :: blocks =>
      '(b, storage) ← Block_Initialize b address size cur (default 0 (head shifts)) storage;
      '(blocks, storage) ← initialize_blocks blocks shifts address size storage;
      mret (b :: blocks, storage)
  end.

(** The management data is a vector of [management_size / 8] zero words at the
    host address [data]; the final assertion compares the end of the words handed
    out with the end of the management region. *)
Definition KPageHeap_Initialize (h : KPageHeap R)
    (heap_address heap_size management_address management_size data : Z) : prog (KPageHeap R) :=
  _ ← ASSERT (IsAligned heap_address PageSize);
  _ ← ASSERT (IsAligned heap_size PageSize);
  _ ← ASSERT (0 <? NumMemoryBlockPageShifts);
  let management_end := u64 (management_address + management_size) in
  let words := Z.to_nat (management_size / 8) in
  '(blocks, rest) ← initialize_blocks (m_blocks h) MemoryBlockPageShifts heap_address heap_size
                      (replicate words 0);
  _ ← ASSERT (u64 (data + 8 * Z.of_nat (words - length rest)) <=? management_end);
  mret (MkHeap heap_address heap_size (m_initial_used_size h) NumMemoryBlockPageShifts blocks
          (heap_rng h)).

Definition KPageHeap_GetNumFreePages (h : KPageHeap R) : Z :=
  foldl (λ num_free b, u64 (num_free + Block_GetNumFreePages b)) 0
    (take (Z.to_nat (m_num_blocks h)) (m_blocks h)).

Definition KPageHeap_GetFreeSize (h : KPageHeap R) : Z :=
  u64 (KPageHeap_GetNumFreePages h * PageSize).

Definition KPageHeap_SetInitialUsedSize (h : KPageHeap R) (reserved_size : Z)
    : prog (KPageHeap R) :=
  let free_size := u64 (KPageHeap_GetNumFreePages h * PageSize) in
  _ ← ASSERT (u64 (free_size + reserved_size) <=? m_heap_size h);
  mret (MkHeap (m_heap_address h) (m_heap_size h)
          (u64 (u64 (m_heap_size h - free_size) - reserved_size))
          (m_num_blocks h) (m_blocks h) (heap_rng h)).

Definition set_blocks (blocks : list (Block R)) (h : KPageHeap R) : KPageHeap R :=
  MkHeap (m_heap_address h) (m_heap_size h) (m_initial_used_size h) (m_num_blocks h) blocks
    (heap_rng h).
Definition set_heap_rng (g : RandomBitGenerator R) (h : KPageHeap R) : KPageHeap R :=
  MkHeap (m_heap_address h) (m_heap_size h) (m_initial_used_size h) (m_num_blocks h)
    (m_blocks h) g.

(** ** Freeing *)
Fixpoint FreeBlock_loop (fuel : nat) (h : KPageHeap R) (block : Z) (index : nat)
    : prog (KPageHeap R) :=
  match fuel with
  | O => Stuck
  | S fuel =>
      b ← deref (m_blocks h !! index);
      '(block, b) ← Block_PushBlock b block;
      let h := set_blocks (<[index := b]> (m_blocks h)) h in
      if block =? 0 then mret h else FreeBlock_loop fuel h block (S index)
  end.

(** The index goes up with every turn and runs out of blocks after the last. *)
Definition KPageHeap_FreeBlock (h : KPageHeap R) (block : Z) (index : nat) : prog (KPageHeap R) :=
  FreeBlock_loop (length (m_blocks h)) h block index.

(** [for (block = big_start; block < big_end; block += block_size)] *)
Fixpoint free_big_loop (fuel : nat) (h : KPageHeap R) (block big_end block_size : Z)
    (index : nat) : prog (KPageHeap R) :=
  if block <? big_end then
    match fuel with
    | O => Stuck
    | S fuel =>
        h ← KPageHeap_FreeBlock h block index;
        free_big_loop fuel h (u64 (block + block_size)) big_end block_size index
    end
  else mret h.

(** The largest block size that fits, [n = big_index + 1] sizes are left to try.
    The result is the index found, and the bounds of the part freed. *)
Fixpoint free_big (n : nat) (h : KPageHeap R) (start nd : Z)
    : prog (KPageHeap R * Z * Z * Z) :=
  match n with
  | O => mret (h, -1, start, nd)
  | S index =>
      b ← deref (m_blocks h !! index);
      let block_size := Block_GetSize b in
      let big_start := AlignUp start block_size in
      let big_end := AlignDown nd block_size in
      if big_start <? big_end then
        h ← free_big_loop (Z.to_nat ((big_end - big_start) / block_size + 1)) h big_start
              big_end block_size index;
        mret (h, Z.of_nat index, big_start, big_end)
      else free_big index h start nd
  end.

(** [while (before_start + block_size <= before_end)] *)
Fixpoint free_before_loop (fuel : nat) (h : KPageHeap R) (before_start before_end block_size : Z)
    (index : nat) : prog (KPageHeap R * Z) :=
  if u64 (before_start + block_size) <=? before_end then
    match fuel with
    | O => Stuck
    | S fuel =>
        let before_end := u64 (before_end - block_size) in
        h ← KPageHeap_FreeBlock h before_end index;
        free_before_loop fuel h before_start before_end block_size index
    end
  else mret (h, before_end).

Fixpoint free_before (n : nat) (h : KPageHeap R) (before_start before_end : Z)
    : prog (KPageHeap R) :=
  match n with
  | O => mret h
  | S index =>
      b ← deref (m_blocks h !! index);
      '(h, before_end) ←
        free_before_loop (Z.to_nat ((before_end - before_start) / Block_GetSize b + 1)) h
          before_start before_end (Block_GetSize b) index;
      free_before index h before_start before_end
  end.

(** [while (after_start + block_size <= after_end)] *)
Fixpoint free_after_loop (fuel : nat) (h : KPageHeap R) (after_start after_end block_size : Z)
    (index : nat) : prog (KPageHeap R * Z) :=
  if u64 (after_start + block_size) <=? after_end then
    match fuel with
    | O => Stuck
    | S fuel =>
        h ← KPageHeap_FreeBlock h after_start index;
        free_after_loop fuel h (u64 (after_start + block_size)) after_end block_size index
    end
  else mret (h, after_start).

Fixpoint free_after (n : nat) (h : KPageHeap R) (after_start after_end : Z)
    : prog (KPageHeap R) :=
  match n with
  | O => mret h
  | S index =>
      b ← deref (m_blocks h !! index);
      '(h, after_start) ←
        free_after_loop (Z.to_nat ((after_end - after_start) / Block_GetSize b + 1)) h
          after_start after_end (Block_GetSize b) index;
      free_after index h after_start after_end
  end.

Definition KPageHeap_Free (h : KPageHeap R) (addr num_pages : Z) : prog (KPageHeap R) :=
  if num_pages =? 0 then mret h
  else
    let start := addr in
    let nd := u64 (addr + u64 (num_pages * PageSize)) in
    '(h, big_index, big_start, big_end) ← free_big (Z.to_nat (m_num_blocks h)) h start nd;
    let '(before_end, after_start) :=
      if 0 <=? big_index then (big_start, big_end) else (start, nd) in
    _ ← ASSERT (0 <=? big_index);
    h ← free_before (Z.to_nat big_index) h start before_end;
    free_after (Z.to_nat big_index) h after_start nd.

(** ** Allocating *)
Fixpoint linear_search_loop (n : nat) (h : KPageHeap R) (i : nat) (needed_size : Z)
    : prog (Z * KPageHeap R) :=
  match n with
  | O => mret (0, h)
  | S n =>
      b ← deref (m_blocks h !! i);
      '(addr, b) ← Block_PopBlock b false;
      let h := set_blocks (<[i := b]> (m_blocks h)) h in
      if negb (addr =? 0) then
        let allocated_size := Block_GetSize b in
        h ← (if needed_size <? allocated_size then
               KPageHeap_Free h (u64 (addr + needed_size))
                 ((allocated_size - needed_size) / PageSize)
             else mret h);
        mret (addr, h)
      else linear_search_loop n h (S i) needed_size
  end.

Definition KPageHeap_AllocateByLinearSearch (h : KPageHeap R) (index : nat)
    : prog (Z * KPageHeap R) :=
  b ← deref (m_blocks h !! index);
  linear_search_loop (Z.to_nat (m_num_blocks h) - index) h index (Block_GetSize b).

(** The alignments a block size offers, added up until there are four. *)
Definition alignments_of (b : Block R) (needed_size align_shift : Z) : Z :=
  u64 (u64 (1 + Z.shiftr (u64 (Block_GetSize b - needed_size)) align_shift) *
       Block_GetNumFreeBlocks b).

Fixpoint count_alignments (n : nat) (h : KPageHeap R) (i : nat)
    (needed_size align_shift possible_alignments : Z) : prog (Z * nat) :=
  match n with
  | O => mret (possible_alignments, i)
  | S n =>
      b ← deref (m_blocks h !! i);
      let possible_alignments :=
        u64 (possible_alignments + alignments_of b needed_size align_shift) in
      if 4 <=? possible_alignments then mret (possible_alignments, S i)
      else count_alignments n h (S i) needed_size align_shift possible_alignments
  end.

Fixpoint choose_index (n : nat) (h : KPageHeap R) (i index : nat)
    (needed_size align_shift possible_alignments rnd : Z) : prog nat :=
  match n with
  | O => mret index
  | S n =>
      b ← deref (m_blocks h !! i);
      let possible_alignments :=
        u64 (possible_alignments + alignments_of b needed_size align_shift) in
      if rnd <? possible_alignments then mret i
      else choose_index n h (S i) index needed_size align_shift possible_alignments rnd
  end.

(** The first half of [AllocateByRandom]: the level to take a block from. *)
Definition random_level (h : KPageHeap R) (index : nat) (needed_size align_shift : Z)
    : prog (nat * KPageHeap R) :=
  '(possible_alignments, max_blocks) ←
    count_alignments (Z.to_nat (m_num_blocks h) - index) h index needed_size align_shift 0;
  if (0 <? possible_alignments) && (Z.of_nat index + 1 <? Z.of_nat max_blocks) then
    '(rnd, g) ← GenerateRandom possible_alignments (heap_rng h);
    index ← choose_index (max_blocks - index) h index index needed_size align_shift 0 rnd;
    mret (index, set_heap_rng g h)
  else mret (index, h).

(** The second half: a block of that level, cut down to the part wanted. *)
Definition random_take (h : KPageHeap R) (index : nat) (needed_size align_shift : Z)
    : prog (Z * KPageHeap R) :=
  b ← deref (m_blocks h !! index);
  '(addr, b) ← Block_PopBlock b true;
  let h := set_blocks (<[index := b]> (m_blocks h)) h in
  if negb (addr =? 0) then
    let leftover_size := u64 (Block_GetSize b - needed_size) in
    if 0 <? leftover_size then
      let possible_alignments := 1 + Z.shiftr leftover_size align_shift in
      '(rnd, g) ← GenerateRandom possible_alignments (heap_rng h);
      let h := set_heap_rng g h in
      let random_offset := u64 (Z.shiftl rnd align_shift) in
      h ← (if negb (random_offset =? 0)
           then KPageHeap_Free h addr (random_offset / PageSize) else mret h);
      let addr := u64 (addr + random_offset) in
      h ← (if negb (random_offset =? leftover_size)
           then KPageHeap_Free h (u64 (addr + needed_size))
                  (u64 (leftover_size - random_offset) / PageSize)
           else mret h);
      mret (addr, h)
    else mret (addr, h)
  else mret (0, h).

Definition KPageHeap_AllocateByRandom (h : KPageHeap R) (index : nat) (num_pages align_pages : Z)
    : prog (Z * KPageHeap R) :=
  let needed_size := u64 (num_pages * PageSize) in
  let align_size := u64 (align_pages * PageSize) in
  let align_shift := countr_zero align_size in
  '(index, h) ← random_level h index needed_size align_shift;
  random_take h index needed_size align_shift.

Definition KPageHeap_AllocateBlock (h : KPageHeap R) (index : nat) (random : bool)
    : prog (Z * KPageHeap R) :=
  if random then
    b ← deref (m_blocks h !! index);
    KPageHeap_AllocateByRandom h index (Block_GetNumPages b) (Block_GetNumPages b)
  else KPageHeap_AllocateByLinearSearch h index.

Definition KPageHeap_AllocateAligned (h : KPageHeap R) (index : nat) (num_pages align_pages : Z)
    : prog (Z * KPageHeap R) :=
  KPageHeap_AllocateByRandom h index num_pages align_pages.
End Heap.
