(* ===== verification/PageHeapLemmas.v ===== *)
(** * Facts about KPageHeap

    The geometry of the blocks, the invariant, and what pushing, popping and
    freeing do to the set of free addresses. *)

From stdpp Require Import gmap.
From S2P Require Import Prelude Common PageBitmap PageBitmapLemmas PageBitmapTheorems PageHeap.

(** ** Block sizes *)
Lemma shift_cases i s :
  MemoryBlockPageShifts !! i = Some s →
  (i < 7)%nat ∧ 12 ≤ s ≤ 30 ∧
  (default 0 (MemoryBlockPageShifts !! S i) = 0 ∧ i = 6%nat ∨
   s < default 0 (MemoryBlockPageShifts !! S i) ≤ 30 ∧
   default 0 (MemoryBlockPageShifts !! S i) ≤ s + 5 ∧ (i < 6)%nat).
Proof.
  intros Hs. do 7 (destruct i as [|i]; [simpl in *; simplify_eq; lia|]). done.
Qed.

Lemma pow2_pos s : 0 ≤ s → 0 < 2 ^ s.
Proof. intros. apply Z.pow_pos_nonneg; lia. Qed.

Lemma pow2_split s t : 0 ≤ s ≤ t → 2 ^ t = 2 ^ (t - s) * 2 ^ s.
Proof. intros. rewrite <- Z.pow_add_r by lia. f_equal. lia. Qed.

Lemma u64_pow2 s : 0 ≤ s < 64 → u64 (Z.shiftl 1 s) = 2 ^ s.
Proof.
  intros Hs. rewrite Z.shiftl_1_l. apply u64_id. split; [apply Z.pow_nonneg; lia|].
  apply Z.pow_lt_mono_r; lia.
Qed.

(** A multiple of a power of two is a multiple of the smaller ones. *)
Lemma mod_pow2_smaller x s t : 0 ≤ s ≤ t → x mod 2 ^ t = 0 → x mod 2 ^ s = 0.
Proof.
  intros Hst Hx. apply Z.mod_divide in Hx; [|pose proof (pow2_pos t); lia].
  apply Z.mod_divide; [pose proof (pow2_pos s); lia|].
  rewrite (pow2_split s t Hst) in Hx. etrans; [|exact Hx]. apply Z.divide_factor_r.
Qed.

Lemma mod_sub_0 x y m : 0 < m → x mod m = 0 → y mod m = 0 → (x - y) mod m = 0.
Proof. intros Hm Hx Hy. rewrite Zminus_mod, Hx, Hy. apply Z.mod_0_l. lia. Qed.
Lemma mod_add_0 x y m : 0 < m → x mod m = 0 → y mod m = 0 → (x + y) mod m = 0.
Proof. intros Hm Hx Hy. rewrite Zplus_mod, Hx, Hy. apply Z.mod_0_l. lia. Qed.

Lemma aligned_gap x y m :
  0 < m → x mod m = 0 → y mod m = 0 → x < y → x + m ≤ y ∧ 0 < (y - x) / m.
Proof.
  intros Hm Hx Hy Hlt. pose proof (mod_sub_0 _ _ _ Hm Hy Hx) as H0.
  pose proof (Z.div_mod (y - x) m ltac:(lia)) as E. set (q := (y - x) / m) in *.
  assert (0 < q) by (destruct (decide (0 < q)); [done|nia]). nia.
Qed.

Section Heap.
Context {R : Type} `{RngLaws R}.
Implicit Types (B : Block R) (h : KPageHeap R).

Definition sz B : Z := 2 ^ m_block_shift B.

(** The block sizes the bitmap of a level is aligned to. *)
Definition align_shift_of B : Z :=
  if m_next_block_shift B =? 0 then m_block_shift B else m_next_block_shift B.

Definition heap_end h : Z := m_heap_address h + m_heap_size h.

Definition block_addr B (o : Z) : Z := blk_heap_address B + o * sz B.

Record blk_wf (lo hi : Z) (i : nat) (B : Block R) : Prop := {
  bk_shift : MemoryBlockPageShifts !! i = Some (m_block_shift B);
  bk_next : m_next_block_shift B = default 0 (MemoryBlockPageShifts !! S i);
  bk_bitmap : bitmap_wf (m_bitmap B);
  bk_start : 0 ≤ blk_heap_address B ≤ lo;
  bk_aligned : blk_heap_address B mod 2 ^ align_shift_of B = 0;
  bk_room : hi ≤ blk_heap_address B + m_end_offset B * sz B;
  bk_offsets : m_end_offset B ≤ num_blocks (m_bitmap B);
  bk_whole : (m_end_offset B * sz B) mod 2 ^ align_shift_of B = 0;
  bk_inside o : o ∈ free_blocks (m_bitmap B) →
    lo ≤ block_addr B o ∧ block_addr B o + sz B ≤ hi
}.

(** The address [x] is in a free block of [B]. *)
Definition free_in B (x : Z) : Prop := (x - blk_heap_address B) / sz B ∈ free_blocks (m_bitmap B).
Definition heap_free h (x : Z) : Prop := ∃ i B, m_blocks h !! i = Some B ∧ free_in B x.

Record heap_wf h : Prop := {
  hw_length : length (m_blocks h) = 7%nat;
  hw_num : m_num_blocks h = 7;
  hw_address : 0 < m_heap_address h ∧ m_heap_address h mod PageSize = 0;
  hw_size : 0 < m_heap_size h < 2 ^ 36 ∧ m_heap_size h mod PageSize = 0;
  hw_end : heap_end h < 2 ^ 60;
  hw_blocks i B : m_blocks h !! i = Some B → blk_wf (m_heap_address h) (heap_end h) i B;
  hw_disjoint i j B C x :
    m_blocks h !! i = Some B → m_blocks h !! j = Some C → free_in B x → free_in C x → i = j;
  hw_rng : rng_wf (heap_rng h)
}.

Lemma sz_pos lo hi i B : blk_wf lo hi i B → 0 < sz B.
Proof.
  intros Hb. pose proof (shift_cases _ _ (bk_shift _ _ _ _ Hb)) as (_ & ? & _).
  apply pow2_pos. lia.
Qed.

Lemma GetSize_sz lo hi i B : blk_wf lo hi i B → Block_GetSize B = sz B.
Proof.
  intros Hb. pose proof (shift_cases _ _ (bk_shift _ _ _ _ Hb)) as (_ & ? & _).
  apply u64_pow2. lia.
Qed.

(** The block an address is in. *)
Lemma block_index B o x : 0 < sz B →
  (x - blk_heap_address B) / sz B = o ↔ block_addr B o ≤ x < block_addr B o + sz B.
Proof.
  intros Hs. unfold block_addr. split.
  - intros <-. pose proof (Z.div_mod (x - blk_heap_address B) (sz B) ltac:(lia)).
    pose proof (Z.mod_pos_bound (x - blk_heap_address B) (sz B) Hs). lia.
  - intros Hx. symmetry. apply (Z.div_unique _ _ _ (x - blk_heap_address B - o * sz B)); lia.
Qed.

Lemma free_in_iff B x : 0 < sz B →
  free_in B x ↔ ∃ o, o ∈ free_blocks (m_bitmap B) ∧ block_addr B o ≤ x < block_addr B o + sz B.
Proof.
  intros Hs. unfold free_in. split.
  - intros Hf. eexists. split; [exact Hf|]. by apply block_index.
  - intros (o & Ho & Hx). by rewrite (proj2 (block_index B o x Hs)).
Qed.

Lemma free_inside lo hi i B x : blk_wf lo hi i B → free_in B x → lo ≤ x < hi.
Proof.
  intros Hb (o & Ho & Hx)%free_in_iff; [|by eapply sz_pos].
  destruct (bk_inside _ _ _ _ Hb o Ho). lia.
Qed.

Lemma base_aligned lo hi i B : blk_wf lo hi i B → blk_heap_address B mod sz B = 0.
Proof.
  intros Hb. pose proof (shift_cases _ _ (bk_shift _ _ _ _ Hb)) as (_ & ? & Hn).
  pose proof (bk_aligned _ _ _ _ Hb) as Ha. unfold align_shift_of in Ha.
  rewrite (bk_next _ _ _ _ Hb) in Ha. destruct (_ =? 0) eqn:E; bool_prop; [done|].
  eapply mod_pow2_smaller; [|exact Ha]. lia.
Qed.

(** The bitmap offset of an aligned address. *)
Lemma offset_of lo hi i B a :
  blk_wf lo hi i B → lo ≤ a → a + sz B ≤ hi → a < 2 ^ 60 → a mod sz B = 0 →
  let o := Z.shiftr (u64 (a - blk_heap_address B)) (m_block_shift B) in
  block_addr B o = a ∧ 0 ≤ o < m_end_offset B.
Proof.
  intros Hb Hlo Hhi H60 Ha. pose proof (shift_cases _ _ (bk_shift _ _ _ _ Hb)) as (_ & ? & _).
  pose proof (sz_pos _ _ _ _ Hb) as Hs. pose proof (bk_start _ _ _ _ Hb).
  cbv zeta. rewrite u64_id by (unfold is_u64; lia). rewrite Z.shiftr_div_pow2 by lia. fold (sz B).
  pose proof (base_aligned _ _ _ _ Hb) as Hba.
  pose proof (mod_sub_0 _ _ _ Hs Ha Hba) as Hm.
  pose proof (Z.div_mod (a - blk_heap_address B) (sz B) ltac:(lia)) as E. rewrite Hm in E.
  split; [unfold block_addr; lia|]. split; [apply Z.div_pos; lia|].
  pose proof (bk_room _ _ _ _ Hb). nia.
Qed.

Lemma blk_wf_set lo hi i B bm :
  blk_wf lo hi i B → bitmap_wf bm → num_blocks bm = num_blocks (m_bitmap B) →
  (∀ o, o ∈ free_blocks bm → lo ≤ block_addr B o ∧ block_addr B o + sz B ≤ hi) →
  blk_wf lo hi i (set_bitmap bm B).
Proof. intros [? ? ? ? ? ? ? ? ?] Hbm Hn Hin. split; try done. simpl. by rewrite Hn. Qed.

Lemma free_in_set B bm x :
  free_in (set_bitmap bm B) x ↔ (x - blk_heap_address B) / sz B ∈ free_blocks bm.
Proof. done. Qed.

(** Adding one block. *)
Lemma free_in_add B bm o x : 0 < sz B →
  free_blocks bm = {[o]} ∪ free_blocks (m_bitmap B) →
  free_in (set_bitmap bm B) x ↔
  free_in B x ∨ block_addr B o ≤ x < block_addr B o + sz B.
Proof.
  intros Hs E. rewrite free_in_set, E, elem_of_union, elem_of_singleton, block_index by done.
  unfold free_in. tauto.
Qed.

Lemma free_in_sub B bm o x : 0 < sz B →
  free_blocks bm = free_blocks (m_bitmap B) ∖ {[o]} →
  free_in (set_bitmap bm B) x ↔
  free_in B x ∧ ¬ block_addr B o ≤ x < block_addr B o + sz B.
Proof.
  intros Hs E. rewrite free_in_set, E, elem_of_difference, elem_of_singleton, block_index by done.
  unfold free_in. tauto.
Qed.

(** Removing the [diff] blocks of one block of the next size. *)
Lemma free_in_sub_range B bm o diff x : 0 < sz B → 0 < diff →
  free_blocks bm = free_blocks (m_bitmap B) ∖ range o diff →
  free_in (set_bitmap bm B) x ↔
  free_in B x ∧ ¬ block_addr B o ≤ x < block_addr B o + diff * sz B.
Proof.
  intros Hs Hd E. rewrite free_in_set, E, elem_of_difference, elem_of_range. unfold free_in.
  pose proof (proj1 (block_index B _ x Hs) eq_refl) as Hx. unfold block_addr in *.
  set (q := (x - blk_heap_address B) / sz B) in *.
  assert (o ≤ q < o + diff ↔ blk_heap_address B + o * sz B ≤ x <
          blk_heap_address B + o * sz B + diff * sz B) as ->; [|done].
  split; intros Hq; split; nia.
Qed.

(** ** PushBlock *)
Definition block_bytes B : Z := m_num_bits (m_bitmap B) * sz B.

Record push_ok (lo hi : Z) (i : nat) B (a : Z) (r : Z * Block R) : Prop := {
  po_wf : blk_wf lo hi i r.2;
  po_same : ∃ bm, r.2 = set_bitmap bm B;
  po_result :
    (r.1 = 0 ∧ (∀ x, free_in r.2 x ↔ free_in B x ∨ a ≤ x < a + sz B) ∧
     block_bytes r.2 = block_bytes B + sz B) ∨
    (∃ S', MemoryBlockPageShifts !! S i = Some S' ∧ r.1 mod 2 ^ S' = 0 ∧
     lo ≤ r.1 ∧ r.1 + 2 ^ S' ≤ hi ∧
     (∀ x, free_in r.2 x ↔
        (free_in B x ∨ a ≤ x < a + sz B) ∧ ¬ r.1 ≤ x < r.1 + 2 ^ S') ∧
     (∀ x, r.1 ≤ x < r.1 + 2 ^ S' → free_in B x ∨ a ≤ x < a + sz B) ∧
     r.1 ≤ a ∧ a + sz B ≤ r.1 + 2 ^ S' ∧
     block_bytes r.2 + 2 ^ S' = block_bytes B + sz B)
}.

(** The geometry of the block of the next size that [o] lies in. *)
Lemma next_block lo hi i B o S' :
  blk_wf lo hi i B → MemoryBlockPageShifts !! S i = Some S' → 0 ≤ o < m_end_offset B →
  let diff := u64 (Z.shiftl 1 (m_next_block_shift B - m_block_shift B)) in
  let o' := AlignDown o diff in
  m_next_block_shift B = S' ∧ 2 ^ S' = diff * sz B ∧ 0 < diff < 64 ∧
  0 ≤ o' ∧ o' ≤ o < o' + diff ∧ o' + diff ≤ m_end_offset B ∧ o' mod 64 + diff ≤ 64 ∧
  block_addr B o' mod 2 ^ S' = 0.
Proof.
  intros Hb HS' Ho. pose proof (shift_cases _ _ (bk_shift _ _ _ _ Hb)) as (_ & Hs & Hn).
  pose proof (bk_next _ _ _ _ Hb) as En. rewrite HS' in Hn, En. simpl in Hn, En. cbv zeta.
  pose proof (shift_cases _ _ HS') as (_ & Hs' & _).
  destruct Hn as [[? ?]|(Hn1 & Hn2 & _)]; [lia|]. rewrite En, u64_pow2 by lia.
  set (d := S' - m_block_shift B) in *. assert (Hd : 1 ≤ d ≤ 5) by lia.
  assert (E2 : 2 ^ S' = 2 ^ d * sz B) by (apply pow2_split; lia).
  pose proof (sz_pos _ _ _ _ Hb) as Hsz. pose proof (pow2_pos d ltac:(lia)) as Hdp.
  assert (Hd32 : 2 ^ d ≤ 32) by (change 32 with (2 ^ 5); apply Z.pow_le_mono_r; lia).
  destruct (AlignDown_spec o (2 ^ d) Hdp) as [Hm Hr].
  pose proof (AlignDown_nonneg o (2 ^ d) Hdp ltac:(lia)).
  set (o' := AlignDown o (2 ^ d)) in *. clearbody o'.
  assert (Hal : align_shift_of B = S').
  { unfold align_shift_of. rewrite En. by rewrite (proj2 (Z.eqb_neq S' 0)) by lia. }
  assert (Hend : m_end_offset B mod 2 ^ d = 0).
  { pose proof (bk_whole _ _ _ _ Hb) as Hw. rewrite Hal, E2 in Hw.
    rewrite Z.mul_mod_distr_r in Hw by lia. nia. }
  apply Z.mod_divide in Hm as [q Hq]; [|lia]. apply Z.mod_divide in Hend as [e He]; [|lia].
  split_and!; [done|done|lia|lia|lia|lia|lia| | |].
  - assert (q < e) by nia. nia.
  - assert (E64 : 64 = 2 ^ (6 - d) * 2 ^ d) by (rewrite <- Z.pow_add_r by lia; by replace (6 - d + d) with 6 by lia).
    rewrite Hq. rewrite E64 at 1. rewrite Z.mul_mod_distr_r by (pose proof (pow2_pos (6 - d)); lia).
    pose proof (Z.mod_pos_bound q (2 ^ (6 - d)) ltac:(apply pow2_pos; lia)). nia.
  - unfold block_addr. apply mod_add_0; [apply pow2_pos; lia| |].
    + rewrite <- Hal. apply (bk_aligned _ _ _ _ Hb).
    + rewrite E2, Hq. rewrite <- Z.mul_assoc. apply Z.mod_mul. nia.
Qed.

Lemma ClearRange_run bm o count :
  bitmap_wf bm → range_args bm o count →
  ∃ r bm', KPageBitmap_ClearRange bm o count = Done true (r, bm') ∧
    cleared (R := R) bm o count (r, bm').
Proof.
  intros Hwf Ha. assert (Hw : wp (KPageBitmap_ClearRange bm o count) (cleared bm o count)).
  { destruct (decide (count < 64)); [by apply ClearRange_small|].
    apply ClearRange_large; [done|done|lia]. }
  apply wp_exists in Hw as ([r bm'] & E & Hc). eauto.
Qed.

(** The first half: the bit of the block is set. *)
Lemma push_set lo hi i B a :
  0 < lo → hi < 2 ^ 60 → blk_wf lo hi i B → lo ≤ a → a + sz B ≤ hi → a mod sz B = 0 →
  (∀ x, a ≤ x < a + sz B → ¬ free_in B x) →
  let o := Z.shiftr (u64 (a - blk_heap_address B)) (m_block_shift B) in
  ∃ bm, KPageBitmap_SetBit (m_bitmap B) o = Done true bm ∧ block_addr B o = a ∧
    0 ≤ o < m_end_offset B ∧ blk_wf lo hi i (set_bitmap bm B) ∧
    (∀ x, free_in (set_bitmap bm B) x ↔ free_in B x ∨ a ≤ x < a + sz B) ∧
    block_bytes (set_bitmap bm B) = block_bytes B + sz B.
Proof.
  intros Hlo0 Hhi0 Hb Hlo Hhi Ha Hfr. pose proof (sz_pos _ _ _ _ Hb) as Hs.
  destruct (offset_of _ _ _ _ a Hb Hlo Hhi ltac:(lia) Ha) as [Ea Ho]. cbv zeta.
  set (o := Z.shiftr _ _) in *. clearbody o.
  assert (Hno : o ∉ free_blocks (m_bitmap B)).
  { intros Hin. apply (Hfr a); [lia|]. apply free_in_iff; [done|]. exists o. rewrite Ea.
    split; [done|lia]. }
  pose proof (bk_offsets _ _ _ _ Hb). pose proof (bk_bitmap _ _ _ _ Hb) as Hbw.
  destruct (SetBit_run (m_bitmap B) o Hbw ltac:(lia) Hno) as (bm & -> & Hbm & Hnb & Hf).
  exists bm. split_and!; [done|done|lia|lia| | |].
  - apply blk_wf_set; [done..|]. intros o' Ho'. rewrite Hf in Ho'.
    apply elem_of_union in Ho' as [->%elem_of_singleton|Ho']; [rewrite Ea; lia|].
    by apply (bk_inside _ _ _ _ Hb).
  - intros x. rewrite (free_in_add B bm o x), Ea by done. done.
  - unfold block_bytes. simpl. change (sz (set_bitmap bm B)) with (sz B).
    rewrite (bw_count bm Hbm), (bw_count _ Hbw), Hf.
    rewrite size_union, size_singleton by set_solver. lia.
Qed.

(** The second half, when the block of the next size is free as a whole. *)
Lemma push_clear lo hi i B o S' bm :
  hi < 2 ^ 60 → blk_wf lo hi i B → MemoryBlockPageShifts !! S i = Some S' →
  0 ≤ o < m_end_offset B →
  let diff := u64 (Z.shiftl 1 (m_next_block_shift B - m_block_shift B)) in
  let o' := AlignDown o diff in
  let r := block_addr B o' in
  range o' diff ⊆ free_blocks (m_bitmap B) →
  bitmap_wf bm → num_blocks bm = num_blocks (m_bitmap B) →
  free_blocks bm = free_blocks (m_bitmap B) ∖ range o' diff →
  blk_wf lo hi i (set_bitmap bm B) ∧ lo ≤ r ∧ r + 2 ^ S' ≤ hi ∧
  u64 (blk_heap_address B + u64 (Z.shiftl o' (m_block_shift B))) = r ∧
  (∀ x, free_in (set_bitmap bm B) x ↔ free_in B x ∧ ¬ r ≤ x < r + 2 ^ S') ∧
  (∀ x, r ≤ x < r + 2 ^ S' → free_in B x) ∧
  block_bytes (set_bitmap bm B) + 2 ^ S' = block_bytes B.
Proof.
  intros Hhi0 Hb HS' Ho diff o' r Hsub Hbm Hnb Hf.
  destruct (next_block _ _ _ _ o S' Hb HS' Ho) as (En & E2 & Hd & Ho0 & Ho1 & Ho2 & Ho3 & Hm).
  fold diff in E2, Hd, Ho1, Ho2, Ho3. fold o' in Ho0, Ho1, Ho2, Ho3, Hm.
  pose proof (sz_pos _ _ _ _ Hb) as Hs. pose proof (bk_start _ _ _ _ Hb).
  pose proof (shift_cases _ _ (bk_shift _ _ _ _ Hb)) as (_ & Hsh & _).
  assert (Hr : lo ≤ r ∧ r + 2 ^ S' ≤ hi).
  { destruct (bk_inside _ _ _ _ Hb o') as [? _]; [apply Hsub, elem_of_range; lia|].
    destruct (bk_inside _ _ _ _ Hb (o' + diff - 1)) as [_ ?]; [apply Hsub, elem_of_range; lia|].
    unfold r, block_addr in *. nia. }
  split_and!; [|lia|lia| | | |].
  - apply blk_wf_set; [done..|]. intros q Hq. rewrite Hf in Hq.
    apply (bk_inside _ _ _ _ Hb). set_solver.
  - rewrite Z.shiftl_mul_pow2 by lia. fold (sz B). unfold r, block_addr in *.
    rewrite (u64_id (o' * sz B)) by (unfold is_u64; nia). apply u64_id. unfold is_u64. nia.
  - intros x. rewrite (free_in_sub_range B bm o' diff x), E2 by lia || done. done.
  - intros x Hx. unfold free_in. apply Hsub, elem_of_range.
    pose proof (proj1 (block_index B _ x Hs) eq_refl) as Hb'. unfold r, block_addr in *. nia.
  - unfold block_bytes. simpl. change (sz (set_bitmap bm B)) with (sz B).
    rewrite (bw_count bm Hbm), (bw_count _ (bk_bitmap _ _ _ _ Hb)), Hf.
    rewrite size_difference by done. pose proof (subseteq_size _ _ Hsub).
    pose proof (size_range o' diff ltac:(lia)). nia.
Qed.

Lemma PushBlock_run lo hi i B a :
  0 < lo → hi < 2 ^ 60 → blk_wf lo hi i B → lo ≤ a → a + sz B ≤ hi → a mod sz B = 0 →
  (∀ x, a ≤ x < a + sz B → ¬ free_in B x) →
  ∃ r, Block_PushBlock B a = Done true r ∧ push_ok lo hi i B a r.
Proof.
  intros Hlo0 Hhi0 Hb Hlo Hhi Ha Hfr. unfold Block_PushBlock.
  destruct (push_set _ _ _ _ a Hlo0 Hhi0 Hb Hlo Hhi Ha Hfr) as (bm & -> & Ea & Ho & Hwf1 & Hf1 & Hb1).
  set (o := Z.shiftr _ _) in *. clearbody o. pstep.
  change (m_next_block_shift (set_bitmap bm B)) with (m_next_block_shift B).
  change (m_block_shift (set_bitmap bm B)) with (m_block_shift B).
  assert (Hplain : ∀ bm2, bm2 = bm → push_ok lo hi i B a (0, set_bitmap bm2 B)).
  { intros ? ->. split; [done|by exists bm|]. left. done. }
  destruct (m_next_block_shift B =? 0) eqn:En; bool_prop; cbn [negb];
    [eexists; split; [done|by apply Hplain]|].
  assert (∃ S', MemoryBlockPageShifts !! S i = Some S') as [S' HS'].
  { rewrite (bk_next _ _ _ _ Hb) in En. destruct (_ !! S i); [by eexists|done]. }
  destruct (next_block _ _ _ _ o S' Hb HS' Ho) as (Es & E2 & Hd & Ho0 & Ho1 & Ho2 & Ho3 & Hm).
  set (diff := u64 (Z.shiftl 1 _)) in *. set (o' := AlignDown o diff) in *.
  change (m_bitmap (set_bitmap bm B)) with bm.
  assert (Hbw : bitmap_wf bm) by apply (bk_bitmap _ _ _ _ Hwf1).
  destruct (ClearRange_run bm o' diff Hbw) as (r & bm2 & -> & Hc1 & Hc2 & Hc3 & Hc4).
  { pose proof (bk_offsets _ _ _ _ Hwf1) as Hof. simpl in Hof.
    split_and!; [lia..|]. by rewrite (proj2 (Z.ltb_lt diff 64)) by lia. }
  simpl in Hc1, Hc2, Hc3, Hc4. pstep. destruct r.
  - symmetry in Hc3. apply bool_decide_eq_true in Hc3.
    destruct (push_clear lo hi i (set_bitmap bm B) o S' bm2 Hhi0 Hwf1 HS' Ho Hc3 Hc1 Hc2 Hc4)
      as (X1 & X2 & X3 & X4 & X5 & X6 & X7).
    change (set_bitmap bm2 (set_bitmap bm B)) with (set_bitmap bm2 B) in *.
    eexists. split; [done|]. split; [done|by exists bm2|]. right. exists S'.
    change (blk_heap_address (set_bitmap bm2 B)) with (blk_heap_address (set_bitmap bm B)).
    cbn [fst snd]. change (m_block_shift (set_bitmap bm2 B)) with (m_block_shift B).
    change (m_block_shift (set_bitmap bm B)) with (m_block_shift B) in X4.
    change (m_next_block_shift (set_bitmap bm B)) with (m_next_block_shift B) in *.
    fold diff in X2, X3, X4, X5, X6. fold o' in X2, X3, X4, X5, X6. rewrite X4.
    change (block_addr (set_bitmap bm B) o') with (block_addr B o') in *.
    pose proof (sz_pos _ _ _ _ Hb). split_and!; [done|done|done|done| | | | |].
    + intros x. rewrite X5, Hf1. done.
    + intros x Hx. apply Hf1, X6, Hx.
    + rewrite <- Ea. unfold block_addr. nia.
    + rewrite <- Ea, E2. unfold block_addr. nia.
    + lia.
  - eexists. split; [done|]. split; [|by exists bm2|].
    + apply (blk_wf_set lo hi i (set_bitmap bm B) bm2 Hwf1 Hc1 Hc2). rewrite Hc4.
      apply (bk_inside _ _ _ _ Hwf1).
    + left. cbn [fst snd]. split; [done|].
      assert (Hsame : free_blocks bm2 = free_blocks (m_bitmap (set_bitmap bm B))) by done.
      split.
      * intros x. rewrite <- Hf1. unfold free_in. simpl. by rewrite Hc4.
      * rewrite <- Hb1. unfold block_bytes. simpl.
        by rewrite (bw_count _ Hc1), (bw_count _ Hbw), Hc4.
Qed.

(** ** Freeing one block *)
Definition heap_bytes h : Z := foldr (λ B acc, block_bytes B + acc) 0 (m_blocks h).

Lemma foldr_bytes_insert (l : list (Block R)) i B B' :
  l !! i = Some B →
  foldr (λ B acc, block_bytes B + acc) 0 (<[i := B']> l) =
  foldr (λ B acc, block_bytes B + acc) 0 l - block_bytes B + block_bytes B'.
Proof.
  revert i. induction l as [|C l IH]; intros [|i] Hi; simplify_eq/=; [lia|].
  rewrite IH by done. lia.
Qed.

(** [h'] is [h] with the addresses from [lo] to [hi] freed. *)
Record freed h (lo hi : Z) h' : Prop := {
  fd_wf : heap_wf h';
  fd_address : m_heap_address h' = m_heap_address h;
  fd_size : m_heap_size h' = m_heap_size h;
  fd_free x : heap_free h' x ↔ heap_free h x ∨ lo ≤ x < hi;
  fd_bytes : heap_bytes h' = heap_bytes h + (hi - lo)
}.

Lemma freed_refl h lo : heap_wf h → freed h lo lo h.
Proof. intros Hw. split; try done; [|lia]. intros x. split; [auto|]. intros [?|?]; [done|lia]. Qed.

Lemma freed_trans h h1 h2 a b c :
  a ≤ b ≤ c → freed h a b h1 → freed h1 b c h2 → freed h a c h2.
Proof.
  intros Hab [_ A1 S1 F1 T1] [W2 A2 S2 F2 T2].
  split; [done|congruence|congruence| |lia]. intros x. rewrite F2, F1.
  split; [intros [[?|?]|?]; auto; right; lia|]. intros [?|?]; [auto|].
  destruct (decide (x < b)); [left; right; lia|right; lia].
Qed.

Lemma freed_trans_down h h1 h2 a b c :
  a ≤ b ≤ c → freed h b c h1 → freed h1 a b h2 → freed h a c h2.
Proof.
  intros Hab [_ A1 S1 F1 T1] [W2 A2 S2 F2 T2].
  split; [done|congruence|congruence| |lia]. intros x. rewrite F2, F1.
  split; [intros [[?|?]|?]; auto; right; lia|]. intros [?|?]; [auto|].
  destruct (decide (x < b)); [right; lia|left; right; lia].
Qed.

Lemma replace_block h i B B' :
  heap_wf h → m_blocks h !! i = Some B → blk_wf (m_heap_address h) (heap_end h) i B' →
  (∀ j C x, j ≠ i → m_blocks h !! j = Some C → free_in B' x → free_in C x → False) →
  heap_wf (set_blocks (<[i := B']> (m_blocks h)) h).
Proof.
  intros [H1 H2 H3 H4 H5 H6 H7 H8] Hi Hb' Hd. split; simpl; try done.
  - by rewrite length_insert.
  - intros j C Hj. apply list_lookup_insert_Some in Hj as [(-> & -> & _)|[_ Hj]]; [done|].
    by apply H6.
  - intros j k C D x Hj Hk HC HD.
    apply list_lookup_insert_Some in Hj as [(-> & -> & _)|[? Hj]];
      apply list_lookup_insert_Some in Hk as [(-> & -> & _)|[? Hk]]; try done.
    + exfalso. by eapply Hd.
    + exfalso. by eapply Hd.
    + by eapply H7.
Qed.

Lemma heap_free_replace h i B B' x :
  m_blocks h !! i = Some B →
  heap_free (set_blocks (<[i := B']> (m_blocks h)) h) x ↔
  free_in B' x ∨ ∃ j C, j ≠ i ∧ m_blocks h !! j = Some C ∧ free_in C x.
Proof.
  intros Hi. unfold heap_free. simpl. split.
  - intros (j & C & Hj & HC). apply list_lookup_insert_Some in Hj as [(-> & -> & _)|[? Hj]]; eauto 10.
  - intros [HB|(j & C & Hne & Hj & HC)].
    + exists i, B'. split; [|done]. apply list_lookup_insert_eq. by eapply lookup_lt_Some.
    + exists j, C. split; [|done]. by rewrite list_lookup_insert_ne.
Qed.

Lemma heap_free_split h i B x :
  m_blocks h !! i = Some B →
  heap_free h x ↔ free_in B x ∨ ∃ j C, j ≠ i ∧ m_blocks h !! j = Some C ∧ free_in C x.
Proof.
  intros Hi. split.
  - intros (j & C & Hj & HC). destruct (decide (j = i)) as [->|]; [simplify_eq; auto|eauto 10].
  - intros [HB|(j & C & _ & Hj & HC)]; [by exists i, B|by exists j, C].
Qed.

Lemma heap_block h i s :
  heap_wf h → MemoryBlockPageShifts !! i = Some s →
  ∃ B, m_blocks h !! i = Some B ∧ blk_wf (m_heap_address h) (heap_end h) i B ∧ sz B = 2 ^ s.
Proof.
  intros Hw Hs. destruct (shift_cases i s Hs) as (Hi & _).
  destruct (lookup_lt_is_Some_2 (m_blocks h) i) as [B HB]; [rewrite (hw_length h Hw); lia|].
  pose proof (hw_blocks h Hw i B HB) as Hb. exists B. split_and!; [done..|].
  pose proof (bk_shift _ _ _ _ Hb) as E. unfold sz. congruence.
Qed.

Lemma FreeBlock_loop_run fuel : ∀ h a i s,
  MemoryBlockPageShifts !! i = Some s → (7 ≤ fuel + i)%nat → heap_wf h →
  m_heap_address h ≤ a → a + 2 ^ s ≤ heap_end h → a mod 2 ^ s = 0 →
  (∀ x, a ≤ x < a + 2 ^ s → ¬ heap_free h x) →
  ∃ h', FreeBlock_loop fuel h a i = Done true h' ∧ freed h a (a + 2 ^ s) h'.
Proof.
  induction fuel as [|fuel IH]; intros h a i s Hs Hf Hw Hlo Hhi Ha Hd;
    [destruct (shift_cases i s Hs) as (? & _); lia|].
  cbn [FreeBlock_loop]. destruct (heap_block h i s Hw Hs) as (B & HB & Hb & Esz).
  rewrite HB. pstep. pose proof (hw_address h Hw) as [Hpos _]. pose proof (hw_end h Hw) as Hend.
  rewrite <- Esz in *.
  destruct (PushBlock_run _ _ i B a Hpos Hend Hb Hlo Hhi Ha) as ([r B'] & -> & [P1 (bm & P2) P3]).
  { intros x Hx Hfx. apply (Hd x Hx). by exists i, B. }
  cbn [fst snd] in *. pstep.
  assert (Hdis : ∀ j C x, j ≠ i → m_blocks h !! j = Some C →
    free_in B x ∨ a ≤ x < a + sz B → free_in C x → False).
  { intros j C x Hj HC [HBx|Hx] HCx; [|by apply (Hd x Hx); exists j, C].
    apply Hj. by eapply (hw_disjoint h Hw). }
  set (h1 := set_blocks (<[i := B']> (m_blocks h)) h).
  destruct P3 as [(-> & P4 & P5)|(S' & HS' & P3 & P4 & P5 & P6 & P7 & P8 & P9 & P10)].
  - rewrite Z.eqb_refl. exists h1. split; [done|]. split; [|done|done| |].
    + eapply replace_block; [done..|]. intros j C x Hj HC Hx. by eapply Hdis, P4.
    + intros x. unfold h1. rewrite (heap_free_replace h i B), (heap_free_split h i B), P4 by done.
      tauto.
    + unfold heap_bytes, h1. simpl. rewrite (foldr_bytes_insert _ i B) by done. lia.
  - rewrite (proj2 (Z.eqb_neq r 0)) by lia.
    assert (Hw1 : heap_wf h1).
    { eapply replace_block; [done..|]. intros j C x Hj HC [Hx _]%P6. by eapply Hdis. }
    destruct (IH h1 r (S i) S') as (h' & -> & [F1 F2 F3 F4 F5]); try done.
    + lia.
    + intros x Hx Hfx. unfold h1 in Hfx. rewrite (heap_free_replace h i B) in Hfx by done.
      destruct Hfx as [[_ Hne]%P6|(j & C & Hj & HC & HCx)]; [done|]. by eapply Hdis; [..|apply P7|].
    + exists h'. split; [done|]. split; [done|done|done| |].
      * intros x. rewrite F4. unfold h1.
        rewrite (heap_free_replace h i B), (heap_free_split h i B), P6 by done.
        specialize (P7 x). destruct (decide (r ≤ x < r + 2 ^ S')); tauto.
      * rewrite F5. unfold heap_bytes, h1. simpl. rewrite (foldr_bytes_insert _ i B) by done. lia.
Qed.

Lemma FreeBlock_run h a i s :
  MemoryBlockPageShifts !! i = Some s → heap_wf h →
  m_heap_address h ≤ a → a + 2 ^ s ≤ heap_end h → a mod 2 ^ s = 0 →
  (∀ x, a ≤ x < a + 2 ^ s → ¬ heap_free h x) →
  ∃ h', KPageHeap_FreeBlock h a i = Done true h' ∧ freed h a (a + 2 ^ s) h'.
Proof.
  intros Hs Hw. unfold KPageHeap_FreeBlock. rewrite (hw_length h Hw).
  apply FreeBlock_loop_run; [done|lia|done].
Qed.

(** ** The loops of Free *)

(** The addresses from [lo] to [hi] are in the heap and none of them is free. *)
Definition in_use h (lo hi : Z) : Prop :=
  m_heap_address h ≤ lo ∧ hi ≤ heap_end h ∧ ∀ x, lo ≤ x < hi → ¬ heap_free h x.

(** Freeing a disjoint part leaves a part in use. *)
Lemma in_use_after h h' a b lo hi :
  freed h a b h' → in_use h lo hi → b ≤ lo ∨ hi ≤ a → in_use h' lo hi.
Proof.
  intros [_ A1 S1 F1 _] (U1 & U2 & U3) Hd. unfold in_use, heap_end in *. rewrite A1, S1.
  split_and!; [done..|]. intros x Hx [Hf|Hf]%F1; [by apply (U3 x)|lia].
Qed.

Lemma in_use_sub h lo hi lo' hi' : lo ≤ lo' → hi' ≤ hi → in_use h lo hi → in_use h lo' hi'.
Proof. intros ? ? (U1 & U2 & U3). split_and!; [lia|lia|]. intros x Hx. apply U3. lia. Qed.

Lemma in_use_bound h lo hi : heap_wf h → in_use h lo hi → 0 < lo ∧ hi < 2 ^ 60.
Proof. intros Hw (U1 & U2 & _). pose proof (hw_address h Hw). pose proof (hw_end h Hw). lia. Qed.

Lemma free_big_loop_run s i fuel : MemoryBlockPageShifts !! i = Some s → ∀ h a b,
  heap_wf h → in_use h a b → a ≤ b → a mod 2 ^ s = 0 → b mod 2 ^ s = 0 →
  (b - a) / 2 ^ s ≤ Z.of_nat fuel →
  ∃ h', free_big_loop fuel h a b (2 ^ s) i = Done true h' ∧ freed h a b h'.
Proof.
  intros Hs. destruct (shift_cases i s Hs) as (_ & Hs12 & _).
  pose proof (pow2_pos s ltac:(lia)) as Hp.
  assert (Hp30 : 2 ^ s ≤ 2 ^ 30) by (apply Z.pow_le_mono_r; lia).
  induction fuel as [|fuel IH]; intros h a b Hw Hu Hab Ha Hb Hf; cbn [free_big_loop];
    destruct (a <? b) eqn:E; bool_prop;
    try (assert (a = b) as -> by lia; exists h; split; [done|by apply freed_refl]).
  - destruct (aligned_gap a b (2 ^ s)) as [_ ?]; try done. exfalso. lia.
  - pose proof (in_use_bound h a b Hw Hu).
    destruct (aligned_gap a b (2 ^ s)) as [Hroom _]; try done. pose proof Hu as (U1 & U2 & U3).
    destruct (FreeBlock_run h a i s Hs Hw U1 ltac:(lia) Ha) as (h1 & -> & F1).
    { intros x Hx. apply U3. lia. }
    pstep. rewrite u64_id by (unfold is_u64; lia).
    destruct (IH h1 (a + 2 ^ s) b) as (h' & -> & F2).
    + apply F1.
    + eapply in_use_after; [done| |by left]. eapply (in_use_sub h a b); [lia|lia|done].
    + lia.
    + apply mod_add_0; [done|done|]. apply Z.mod_same. lia.
    + done.
    + replace (b - (a + 2 ^ s)) with (b - a + (-1) * 2 ^ s) by lia.
      rewrite Z.div_add by lia. lia.
    + exists h'. split; [done|]. eapply freed_trans; [|done|done]. lia.
Qed.

Lemma free_before_loop_run s i fuel : MemoryBlockPageShifts !! i = Some s → ∀ h a b,
  heap_wf h → in_use h a b → a ≤ b → b mod 2 ^ s = 0 → (b - a) / 2 ^ s ≤ Z.of_nat fuel →
  ∃ h' c, free_before_loop fuel h a b (2 ^ s) i = Done true (h', c) ∧ freed h c b h' ∧
    c mod 2 ^ s = 0 ∧ a ≤ c ≤ b ∧ c < a + 2 ^ s.
Proof.
  intros Hs. destruct (shift_cases i s Hs) as (_ & Hs12 & _).
  pose proof (pow2_pos s ltac:(lia)) as Hp.
  assert (Hp30 : 2 ^ s ≤ 2 ^ 30) by (apply Z.pow_le_mono_r; lia).
  induction fuel as [|fuel IH]; intros h a b Hw Hu Hab Hb Hf; cbn [free_before_loop];
    pose proof (in_use_bound h a b Hw Hu); rewrite (u64_id (a + _)) by (unfold is_u64; lia);
    destruct (a + 2 ^ s <=? b) eqn:E; bool_prop;
    try (exists h, b; split_and!; [done|by apply freed_refl|done|lia..]).
  - assert (0 < (b - a) / 2 ^ s); [|exfalso; lia]. apply Z.div_str_pos. lia.
  - pose proof Hu as (U1 & U2 & U3). rewrite (u64_id (b - _)) by (unfold is_u64; lia).
    assert (Hb' : (b - 2 ^ s) mod 2 ^ s = 0) by (apply mod_sub_0; [done|done|apply Z.mod_same; lia]).
    destruct (FreeBlock_run h (b - 2 ^ s) i s Hs Hw ltac:(lia) ltac:(lia) Hb') as (h1 & -> & F1).
    { intros x Hx. apply U3. lia. }
    replace (b - 2 ^ s + 2 ^ s) with b in F1 by lia. pstep.
    destruct (IH h1 a (b - 2 ^ s)) as (h' & c & -> & F2 & Hc & Hr & Hr').
    + apply F1.
    + eapply in_use_after; [done| |by right]. eapply in_use_sub; [| |exact Hu]; lia.
    + lia.
    + done.
    + replace (b - 2 ^ s - a) with (b - a + (-1) * 2 ^ s) by lia. rewrite Z.div_add by lia. lia.
    + exists h', c. split_and!; [done| |done|lia..]. eapply freed_trans_down; [|done|done]. lia.
Qed.

Lemma free_after_loop_run s i fuel : MemoryBlockPageShifts !! i = Some s → ∀ h a b,
  heap_wf h → in_use h a b → a ≤ b → a mod 2 ^ s = 0 → (b - a) / 2 ^ s ≤ Z.of_nat fuel →
  ∃ h' c, free_after_loop fuel h a b (2 ^ s) i = Done true (h', c) ∧ freed h a c h' ∧
    c mod 2 ^ s = 0 ∧ a ≤ c ≤ b ∧ b < c + 2 ^ s.
Proof.
  intros Hs. destruct (shift_cases i s Hs) as (_ & Hs12 & _).
  pose proof (pow2_pos s ltac:(lia)) as Hp.
  assert (Hp30 : 2 ^ s ≤ 2 ^ 30) by (apply Z.pow_le_mono_r; lia).
  induction fuel as [|fuel IH]; intros h a b Hw Hu Hab Hb Hf; cbn [free_after_loop];
    pose proof (in_use_bound h a b Hw Hu); rewrite (u64_id (a + _)) by (unfold is_u64; lia);
    destruct (a + 2 ^ s <=? b) eqn:E; bool_prop;
    try (exists h, a; split_and!; [done|by apply freed_refl|done|lia..]).
  - assert (0 < (b - a) / 2 ^ s); [|exfalso; lia]. apply Z.div_str_pos. lia.
  - pose proof Hu as (U1 & U2 & U3).
    destruct (FreeBlock_run h a i s Hs Hw ltac:(lia) ltac:(lia) Hb) as (h1 & -> & F1).
    { intros x Hx. apply U3. lia. }
    pstep. destruct (IH h1 (a + 2 ^ s) b) as (h' & c & -> & F2 & Hc & Hr & Hr').
    + apply F1.
    + eapply in_use_after; [done| |by left]. eapply in_use_sub; [| |exact Hu]; lia.
    + lia.
    + apply mod_add_0; [done|done|]. apply Z.mod_same. lia.
    + replace (b - (a + 2 ^ s)) with (b - a + (-1) * 2 ^ s) by lia. rewrite Z.div_add by lia. lia.
    + exists h', c. split_and!; [done| |done|lia..]. eapply freed_trans; [|done|done]. lia.
Qed.

(** What is left to free is aligned to the block size tried last; below the
    smallest size nothing is left. *)
Definition left_aligned (n : nat) (aligned other : Z) : Prop :=
  match n with
  | O => aligned = other
  | S k => ∃ s, MemoryBlockPageShifts !! k = Some s ∧ aligned mod 2 ^ s = 0
  end.

Lemma left_aligned_down n s c a :
  MemoryBlockPageShifts !! n = Some s → c mod 2 ^ s = 0 → a mod PageSize = 0 →
  a - 2 ^ s < c < a + 2 ^ s → left_aligned n c a.
Proof.
  intros Hs Hc Ha Hr. destruct (shift_cases n s Hs) as (Hn & Hs12 & _). destruct n as [|k]; simpl.
  - simpl in Hs. simplify_eq. rewrite PageSize_eq in Ha. change (2 ^ 12) with 4096 in *.
    destruct (decide (a < c)).
    + destruct (aligned_gap a c 4096); try done. lia.
    + destruct (decide (c < a)); [|lia]. destruct (aligned_gap c a 4096); try done. lia.
  - destruct (lookup_lt_is_Some_2 MemoryBlockPageShifts k) as [s' Hs']; [simpl; lia|].
    exists s'. split; [done|]. destruct (shift_cases k s' Hs') as (_ & ? & Hd).
    rewrite Hs in Hd. simpl in Hd. eapply mod_pow2_smaller; [|exact Hc]. lia.
Qed.

Lemma GetSize_at h n s B :
  heap_wf h → MemoryBlockPageShifts !! n = Some s → m_blocks h !! n = Some B →
  Block_GetSize B = 2 ^ s.
Proof.
  intros Hw Hs HB. destruct (heap_block h n s Hw Hs) as (C & HC & Hb & <-).
  simplify_eq. by eapply GetSize_sz.
Qed.

Lemma free_before_run n : ∀ h a b,
  (n ≤ 7)%nat → heap_wf h → in_use h a b → a ≤ b → a mod PageSize = 0 → left_aligned n b a →
  ∃ h', free_before n h a b = Done true h' ∧ freed h a b h'.
Proof.
  induction n as [|n IH]; intros h a b Hn Hw Hu Hab Ha Hal; cbn [free_before].
  - simpl in Hal. subst b. exists h. split; [done|by apply freed_refl].
  - destruct Hal as (s & Hs & Hb). destruct (shift_cases n s Hs) as (_ & Hs12 & _).
    pose proof (pow2_pos s ltac:(lia)). destruct (heap_block h n s Hw Hs) as (B & HB & _ & _).
    rewrite HB. pstep. rewrite (GetSize_at h n s B) by done.
    pose proof (Z.div_pos (b - a) (2 ^ s) ltac:(lia) ltac:(lia)).
    destruct (free_before_loop_run s n (Z.to_nat ((b - a) / 2 ^ s + 1)) Hs h a b Hw Hu Hab Hb)
      as (h1 & c & -> & F1 & Hc & Hr & Hr'); [lia|]. pstep.
    destruct (IH h1 a c) as (h' & -> & F2).
    + lia.
    + apply F1.
    + eapply in_use_after; [done| |by right]. eapply (in_use_sub h a b); [lia|lia|done].
    + lia.
    + done.
    + eapply left_aligned_down; [done|done|done|lia].
    + exists h'. split; [done|]. eapply freed_trans_down; [|done|done]. lia.
Qed.

Lemma free_after_run n : ∀ h a b,
  (n ≤ 7)%nat → heap_wf h → in_use h a b → a ≤ b → b mod PageSize = 0 → left_aligned n a b →
  ∃ h', free_after n h a b = Done true h' ∧ freed h a b h'.
Proof.
  induction n as [|n IH]; intros h a b Hn Hw Hu Hab Hb Hal; cbn [free_after].
  - simpl in Hal. subst b. exists h. split; [done|by apply freed_refl].
  - destruct Hal as (s & Hs & Ha). destruct (shift_cases n s Hs) as (_ & Hs12 & _).
    pose proof (pow2_pos s ltac:(lia)). destruct (heap_block h n s Hw Hs) as (B & HB & _ & _).
    rewrite HB. pstep. rewrite (GetSize_at h n s B) by done.
    pose proof (Z.div_pos (b - a) (2 ^ s) ltac:(lia) ltac:(lia)).
    destruct (free_after_loop_run s n (Z.to_nat ((b - a) / 2 ^ s + 1)) Hs h a b Hw Hu Hab Ha)
      as (h1 & c & -> & F1 & Hc & Hr & Hr'); [lia|]. pstep.
    destruct (IH h1 c b) as (h' & -> & F2).
    + lia.
    + apply F1.
    + eapply in_use_after; [done| |by left]. eapply (in_use_sub h a b); [lia|lia|done].
    + lia.
    + done.
    + eapply left_aligned_down; [done|done|done|lia].
    + exists h'. split; [done|]. eapply freed_trans; [|done|done]. lia.
Qed.

(** One size: the aligned part is freed when there is one. *)
Lemma free_big_step n s h a b :
  MemoryBlockPageShifts !! n = Some s → heap_wf h → in_use h a b → a < b →
  a mod PageSize = 0 → b mod PageSize = 0 →
  let c := AlignUp a (2 ^ s) in let d := AlignDown b (2 ^ s) in
  if c <? d then
    ∃ h', free_big (S n) h a b = Done true (h', Z.of_nat n, c, d) ∧ freed h c d h' ∧
      a ≤ c ∧ d ≤ b ∧ left_aligned n c a ∧ left_aligned n d b
  else free_big (S n) h a b = free_big n h a b.
Proof.
  intros Hs Hw Hu Hab Ha Hb. destruct (shift_cases _ s Hs) as (_ & Hs12 & _).
  pose proof (pow2_pos s ltac:(lia)) as Hp.
  assert (Hp30 : 2 ^ s ≤ 2 ^ 30) by (apply Z.pow_le_mono_r; lia).
  pose proof (in_use_bound h a b Hw Hu). destruct (heap_block h _ s Hw Hs) as (B & HB & _ & _).
  cbn [free_big]. rewrite HB. pstep. rewrite (GetSize_at h _ s B) by done.
  destruct (AlignUp_spec a (2 ^ s) Hp) as [Hu1 Hu2]; [lia|lia|].
  destruct (AlignDown_spec b (2 ^ s) Hp) as [Hd1 Hd2].
  set (c := AlignUp a (2 ^ s)) in *. set (d := AlignDown b (2 ^ s)) in *. clearbody c d. cbv zeta.
  destruct (c <? d) eqn:E; bool_prop; [|done].
  pose proof (Z.div_pos (d - c) (2 ^ s) ltac:(lia) ltac:(lia)).
  destruct (free_big_loop_run s n (Z.to_nat ((d - c) / 2 ^ s + 1)) Hs h c d) as (h' & -> & F1);
    [done|by eapply (in_use_sub h a b); [lia|lia|]|lia|done|done|lia|].
  pstep. exists h'. split_and!; [done|done|lia|lia| |].
  - eapply left_aligned_down; [done|done|done|lia].
  - eapply left_aligned_down; [done|done|done|lia].
Qed.

Lemma free_big_run n : ∀ h a b,
  (n < 7)%nat → heap_wf h → in_use h a b → a < b → a mod PageSize = 0 → b mod PageSize = 0 →
  ∃ h' i c d, free_big (S n) h a b = Done true (h', Z.of_nat i, c, d) ∧ freed h c d h' ∧
    (i ≤ n)%nat ∧ a ≤ c ∧ c < d ∧ d ≤ b ∧ left_aligned i c a ∧ left_aligned i d b.
Proof.
  induction n as [|n IH]; intros h a b Hn Hw Hu Hab Ha Hb.
  - pose proof (free_big_step 0 12 h a b eq_refl Hw Hu Hab Ha Hb) as Hst. cbv zeta in Hst.
    destruct (_ <? _) eqn:E; bool_prop.
    + destruct Hst as (h' & ? & ? & ? & ? & ? & ?). eexists h', 0%nat, _, _. by split_and!.
    + exfalso. rewrite PageSize_eq in *. change (2 ^ 12) with 4096 in E.
      pose proof (in_use_bound h a b Hw Hu).
      destruct (AlignUp_spec a 4096) as [Hu1 Hu2]; [lia..|].
      destruct (AlignDown_spec b 4096) as [Hd1 Hd2]; [lia|].
      destruct (decide (a < AlignUp a 4096)).
      * destruct (aligned_gap a (AlignUp a 4096) 4096); try done; lia.
      * destruct (decide (AlignDown b 4096 < b)); [|lia].
        destruct (aligned_gap (AlignDown b 4096) b 4096); try done; lia.
  - destruct (lookup_lt_is_Some_2 MemoryBlockPageShifts (S n)) as [s Hs]; [simpl; lia|].
    pose proof (free_big_step (S n) s h a b Hs Hw Hu Hab Ha Hb) as Hst. cbv zeta in Hst.
    destruct (_ <? _) eqn:E; bool_prop.
    + destruct Hst as (h' & ? & ? & ? & ? & ? & ?). eexists h', (S n), _, _. by split_and!.
    + rewrite Hst. destruct (IH h a b) as (h' & i & c & d & ? & ? & ? & ? & ? & ? & ? & ?); [lia|done..|].
      exists h', i, c, d. split_and!; done || lia.
Qed.

Lemma Free_run h addr num_pages :
  heap_wf h → 0 ≤ num_pages → addr mod PageSize = 0 →
  in_use h addr (addr + num_pages * PageSize) →
  ∃ h', KPageHeap_Free h addr num_pages = Done true h' ∧
    freed h addr (addr + num_pages * PageSize) h'.
Proof.
  intros Hw Hn Ha Hu. unfold KPageHeap_Free. destruct (num_pages =? 0) eqn:E; bool_prop.
  { subst. rewrite Z.mul_0_l, Z.add_0_r. exists h. split; [done|by apply freed_refl]. }
  pose proof (in_use_bound h _ _ Hw Hu). set (b := addr + num_pages * PageSize) in *.
  assert (Hab : addr < b) by (unfold b; rewrite PageSize_eq; lia).
  rewrite (u64_id (num_pages * PageSize)) by (unfold is_u64, b in *; rewrite PageSize_eq in *; lia).
  fold b. rewrite (u64_id b) by (unfold is_u64; lia).
  assert (Hb : b mod PageSize = 0).
  { unfold b. rewrite Z.mod_add by (rewrite PageSize_eq; lia). done. }
  rewrite (hw_num h Hw). change (Z.to_nat 7) with 7%nat.
  destruct (free_big_run 6 h addr b) as (h1 & i & c & d & -> & F1 & Hi & Hc & Hcd & Hd & L1 & L2);
    [lia|done..|]. pstep.
  rewrite (proj2 (Z.leb_le 0 _)), Nat2Z.id by lia. unfold ASSERT. pstep.
  destruct (free_before_run i h1 addr c) as (h2 & -> & F2).
  { lia. } { apply F1. } { eapply in_use_after; [done| |by right].
    eapply (in_use_sub h addr b); [lia|lia|done]. } { lia. } { done. } { done. }
  pstep. pose proof (freed_trans_down _ _ _ addr c d ltac:(lia) F1 F2) as F12.
  destruct (free_after_run i h2 d b) as (h3 & -> & F3).
  { lia. } { apply F2. } { eapply in_use_after; [exact F12| |by left].
    eapply (in_use_sub h addr b); [lia|lia|done]. } { lia. } { done. } { done. }
  exists h3. split; [done|]. eapply freed_trans; [|done|done]. lia.
Qed.
End Heap.
