(* ===== verification/PageHeapTheorems.v ===== *)
(** * Correctness of KPageHeap

    Allocation and freeing against the set of free addresses. *)

From stdpp Require Import gmap.
From S2P Require Import Prelude Common PageBitmap PageBitmapLemmas PageBitmapTheorems PageHeap PageHeapLemmas.

Section Heap.
Context {R : Type} `{RngLaws R}.
Implicit Types (B : Block R) (h : KPageHeap R).

(** ** PopBlock *)
Lemma free_blocks_storages (b b' : KPageBitmap R) :
  m_bit_storages b' = m_bit_storages b →
  free_blocks b' = free_blocks b ∧ num_blocks b' = num_blocks b.
Proof. intros E. unfold free_blocks, num_blocks, leaf. by rewrite E. Qed.

Record pop_ok (lo hi : Z) (i : nat) B (r : Z * Block R) : Prop := {
  pp_wf : blk_wf lo hi i r.2;
  pp_result :
    (r.1 = 0 ∧ free_blocks (m_bitmap B) = ∅ ∧ (∀ x, free_in r.2 x ↔ free_in B x) ∧
     block_bytes r.2 = block_bytes B) ∨
    (r.1 mod sz B = 0 ∧ lo ≤ r.1 ∧ r.1 + sz B ≤ hi ∧
     (∀ x, r.1 ≤ x < r.1 + sz B → free_in B x) ∧
     (∀ x, free_in r.2 x ↔ free_in B x ∧ ¬ r.1 ≤ x < r.1 + sz B) ∧
     block_bytes r.2 + sz B = block_bytes B)
}.

Lemma PopBlock_run lo hi i B random :
  0 < lo → hi < 2 ^ 60 → blk_wf lo hi i B →
  wp (Block_PopBlock B random) (pop_ok lo hi i B).
Proof.
  intros Hlo Hhi Hb. unfold Block_PopBlock. pose proof (bk_bitmap _ _ _ _ Hb) as Hbw.
  pose proof (sz_pos _ _ _ _ Hb) as Hs.
  apply wp_bind. eapply wp_mono; [by apply FindFreeBlock_run|].
  intros [o bm1] (Hw1 & Est & Hres). destruct (free_blocks_storages _ _ Est) as [Ef En].
  assert (Hb1 : blk_wf lo hi i (set_bitmap bm1 B)).
  { apply blk_wf_set; [done..|]. rewrite Ef. apply (bk_inside _ _ _ _ Hb). }
  case_decide as Hemp.
  - subst o. simpl. split; [done|]. left. simpl. split_and!; [done|done| |].
    + intros x. rewrite free_in_set, Ef. done.
    + unfold block_bytes. simpl. by rewrite (bw_count _ Hw1), (bw_count _ Hbw), Ef.
  - destruct Hres as [Hin _]. destruct (free_bound _ _ Hin) as [Ho _].
    rewrite (proj2 (Z.ltb_ge o 0)) by lia. change (m_bitmap (set_bitmap bm1 B)) with bm1.
    destruct (ClearBit_run bm1 o Hw1) as (bm2 & -> & Hw2 & En2 & Ef2); [by rewrite Ef|].
    rewrite Ef in Ef2. pstep. destruct (bk_inside _ _ _ _ Hb o Hin) as [Hi1 Hi2].
    pose proof (shift_cases _ _ (bk_shift _ _ _ _ Hb)) as (_ & Hsh & _).
    pose proof (bk_start _ _ _ _ Hb).
    assert (Ea : u64 (blk_heap_address B + u64 (Z.shiftl o (m_block_shift B))) = block_addr B o).
    { rewrite Z.shiftl_mul_pow2 by lia. fold (sz B). unfold block_addr in *.
      rewrite (u64_id (o * sz B)) by (unfold is_u64; nia). apply u64_id. unfold is_u64. nia. }
    change (set_bitmap bm2 (set_bitmap bm1 B)) with (set_bitmap bm2 B).
    change (blk_heap_address (set_bitmap bm2 B)) with (blk_heap_address B).
    change (m_block_shift (set_bitmap bm2 B)) with (m_block_shift B). rewrite Ea.
    split; simpl.
    + apply blk_wf_set; [done|done|congruence|]. intros q Hq. rewrite Ef2 in Hq.
      apply (bk_inside _ _ _ _ Hb). set_solver.
    + right. split_and!; [| done | done | | |].
      * unfold block_addr. apply mod_add_0; [done|by eapply base_aligned|]. apply Z.mod_mul. lia.
      * intros x Hx. apply free_in_iff; [done|]. by exists o.
      * intros x. by apply free_in_sub.
      * unfold block_bytes. simpl. change (sz (set_bitmap bm2 B)) with (sz B).
        rewrite (bw_count _ Hw2), (bw_count _ Hbw), Ef2, size_difference, size_singleton
          by set_solver.
        assert (size (free_blocks (m_bitmap B)) ≠ 0)%nat by (apply size_non_empty_iff; set_solver).
        rewrite Nat2Z.inj_sub by lia. lia.
Qed.

(** ** Taking memory from the heap *)
Record taken h (lo hi : Z) h' : Prop := {
  tk_wf : heap_wf h';
  tk_address : m_heap_address h' = m_heap_address h;
  tk_size : m_heap_size h' = m_heap_size h;
  tk_inside : m_heap_address h ≤ lo ∧ hi ≤ heap_end h;
  tk_was_free x : lo ≤ x < hi → heap_free h x;
  tk_free x : heap_free h' x ↔ heap_free h x ∧ ¬ lo ≤ x < hi;
  tk_bytes : heap_bytes h' + (hi - lo) = heap_bytes h
}.

(** Giving back the end, or the start, of what was taken. *)
Lemma taken_in_use h a b h' c d : taken h a b h' → a ≤ c → d ≤ b → in_use h' c d.
Proof.
  intros [W A Sz [I1 I2] _ F _] Hc Hd. unfold in_use, heap_end in *. rewrite A, Sz.
  split_and!; [lia|lia|]. intros x Hx [_ Hn]%F. lia.
Qed.

Lemma taken_freed_end h a b c h1 h2 :
  a ≤ c ≤ b → taken h a b h1 → freed h1 c b h2 → taken h a c h2.
Proof.
  intros Hc [W A Sz [I1 I2] Fr F T] [W2 A2 S2 F2 T2].
  split; [done|congruence|congruence|lia| | |lia].
  - intros x Hx. apply Fr. lia.
  - intros x. rewrite F2, F. specialize (Fr x). destruct (decide (c ≤ x < b)); [|].
    + split; [intros _; split; [apply Fr; lia|lia]|auto].
    + split; [intros [[? ?]|?]; [split; [done|lia]|done]|]. intros [? ?]. left. split; [done|lia].
Qed.

Lemma taken_freed_start h a b c h1 h2 :
  a ≤ c ≤ b → taken h a b h1 → freed h1 a c h2 → taken h c b h2.
Proof.
  intros Hc [W A Sz [I1 I2] Fr F T] [W2 A2 S2 F2 T2].
  split; [done|congruence|congruence|lia| | |lia].
  - intros x Hx. apply Fr. lia.
  - intros x. rewrite F2, F. specialize (Fr x). destruct (decide (a ≤ x < c)); [|].
    + split; [intros _; split; [apply Fr; lia|lia]|auto].
    + split; [intros [[? ?]|?]; [split; [done|lia]|done]|]. intros [? ?]. left. split; [done|lia].
Qed.

(** Popping from the level [i] of a heap. *)
Lemma heap_pop_run h i s random :
  heap_wf h → MemoryBlockPageShifts !! i = Some s →
  ∃ B, m_blocks h !! i = Some B ∧ Block_GetSize B = 2 ^ s ∧
  wp (Block_PopBlock B random) (λ '(a, B'),
    let h' := set_blocks (<[i := B']> (m_blocks h)) h in
    Block_GetSize B' = 2 ^ s ∧
    ((a = 0 ∧ freed h 0 0 h' ∧ ∀ x, ¬ free_in B x) ∨
     (a ≠ 0 ∧ a mod 2 ^ s = 0 ∧ free_in B a ∧ taken h a (a + 2 ^ s) h'))).
Proof.
  intros Hw Hs. destruct (heap_block h i s Hw Hs) as (B & HB & Hb & Esz). exists B.
  rewrite (GetSize_at h i s B) by done. split_and!; [done..|].
  pose proof (hw_address h Hw) as [Hpos _]. pose proof (hw_end h Hw) as Hend.
  eapply wp_mono; [by eapply PopBlock_run|]. intros [a B'] [P1 P2]. cbn [fst snd] in *.
  assert (Es' : Block_GetSize B' = 2 ^ s).
  { rewrite (GetSize_sz _ _ _ _ P1). pose proof (bk_shift _ _ _ _ P1) as E1. unfold sz. congruence. }
  split; [done|].
  assert (Hdis : ∀ j C x, j ≠ i → m_blocks h !! j = Some C → free_in B x → free_in C x → False).
  { intros j C x Hj HC HBx HCx. apply Hj. by eapply (hw_disjoint h Hw). }
  destruct P2 as [(-> & P3 & P4 & P5)|(P3 & P4 & P5 & P6 & P7 & P8)].
  - left. split; [done|]. split; [split; [|done|done| |]|].
    + eapply replace_block; [done..|]. intros j C x Hj HC Hx%P4. by eapply Hdis.
    + intros x. rewrite (heap_free_replace h i B), (heap_free_split h i B), P4 by done.
      split; [auto|]. intros [?|?]; [done|lia].
    + unfold heap_bytes. simpl. rewrite (foldr_bytes_insert _ i B) by done. lia.
    + intros x Hx. unfold free_in in Hx. rewrite P3 in Hx. set_solver.
  - right. rewrite Esz in *. split; [lia|]. split; [done|]. split; [apply P6; pose proof (pow2_pos s); destruct (shift_cases i s Hs); lia|].
    split; [|done|done|done| | |].
    + eapply replace_block; [done..|]. intros j C x Hj HC [Hx _]%P7. by eapply Hdis.
    + intros x Hx. exists i, B. split; [done|by apply P6].
    + intros x. rewrite (heap_free_replace h i B), (heap_free_split h i B), P7 by done.
      split; [|tauto]. intros [[? ?]|(j & C & Hj & HC & HCx)]; [tauto|]. split; [eauto 10|].
      intros Hx. eapply Hdis; [done|done|by apply P6|done].
    + unfold heap_bytes. simpl. rewrite (foldr_bytes_insert _ i B) by done. lia.
Qed.

Lemma taken_after_noop h h1 h2 c a b : freed h c c h1 → taken h1 a b h2 → taken h a b h2.
Proof.
  intros [W1 A1 S1 F1 T1] [W A Sz I Fr F T]. unfold heap_end in *.
  assert (Hf : ∀ x, heap_free h1 x ↔ heap_free h x).
  { intros x. rewrite F1. split; [intros [?|?]; [done|lia]|auto]. }
  split; [done|congruence|congruence| | | |lia].
  - unfold heap_end. rewrite <- A1, <- S1. done.
  - intros x Hx. by apply Hf, Fr.
  - intros x. by rewrite F, Hf.
Qed.

Lemma page_multiple x : x mod PageSize = 0 → x / PageSize * PageSize = x.
Proof.
  intros Hx. rewrite PageSize_eq in *. pose proof (Z.div_mod x 4096 ltac:(lia)). lia.
Qed.

Lemma pow2_page s : 12 ≤ s → 2 ^ s mod PageSize = 0.
Proof.
  intros Hs. rewrite PageSize_eq. change 4096 with (2 ^ 12).
  rewrite (pow2_split 12 s) by lia. apply Z.mod_mul. pose proof (pow2_pos 12). lia.
Qed.

Lemma page_pos : 0 < PageSize.
Proof. rewrite PageSize_eq. lia. Qed.

(** Giving back everything behind [c] of what was taken. *)
Lemma Free_end h h1 a b c :
  taken h a b h1 → a ≤ c ≤ b → c mod PageSize = 0 → (b - c) mod PageSize = 0 →
  ∃ h2, KPageHeap_Free h1 c ((b - c) / PageSize) = Done true h2 ∧ taken h a c h2.
Proof.
  intros Ht Hc Hcm Hbm. pose proof page_pos.
  destruct (Free_run h1 c ((b - c) / PageSize)) as (h2 & E & F).
  - apply Ht.
  - apply Z.div_pos; lia.
  - done.
  - rewrite page_multiple by done. eapply taken_in_use; [done|lia|lia].
  - rewrite page_multiple in F by done. replace (c + (b - c)) with b in F by lia.
    exists h2. split; [done|]. by eapply taken_freed_end.
Qed.

Lemma Free_start h h1 a b c :
  taken h a b h1 → a ≤ c ≤ b → a mod PageSize = 0 → (c - a) mod PageSize = 0 →
  ∃ h2, KPageHeap_Free h1 a ((c - a) / PageSize) = Done true h2 ∧ taken h c b h2.
Proof.
  intros Ht Hc Ham Hcm. pose proof page_pos.
  destruct (Free_run h1 a ((c - a) / PageSize)) as (h2 & E & F).
  - apply Ht.
  - apply Z.div_pos; lia.
  - done.
  - rewrite page_multiple by done. eapply taken_in_use; [done|lia|lia].
  - rewrite page_multiple in F by done. replace (a + (c - a)) with c in F by lia.
    exists h2. split; [done|]. by eapply taken_freed_start.
Qed.

Lemma shifts_mono i j s t :
  (i ≤ j)%nat → MemoryBlockPageShifts !! i = Some s → MemoryBlockPageShifts !! j = Some t → s ≤ t.
Proof.
  intros Hij Hs Ht. destruct (shift_cases i s Hs) as (Hi & _), (shift_cases j t Ht) as (Hj & _).
  do 7 (destruct i as [|i]; [do 7 (destruct j as [|j]; [simpl in *; simplify_eq; lia|]); done|]). done.
Qed.

Definition level_empty h (j : nat) : Prop :=
  ∀ B, m_blocks h !! j = Some B → ∀ x, ¬ free_in B x.

(** The address is in a free block of the level [j], and no smaller level from
    [index] on has one. *)
Definition in_first_level h (index j : nat) (a : Z) : Prop :=
  (index ≤ j)%nat ∧ (∃ B, m_blocks h !! j = Some B ∧ free_in B a) ∧
  ∀ k, (index ≤ k < j)%nat → level_empty h k.

Lemma linear_search_run n : ∀ h i s0,
  (n + i = 7)%nat → heap_wf h → 12 ≤ s0 →
  (∀ j t, (i ≤ j)%nat → MemoryBlockPageShifts !! j = Some t → s0 ≤ t) →
  wp (linear_search_loop n h i (2 ^ s0)) (λ '(a, h'),
    (a = 0 ∧ freed h 0 0 h' ∧ ∀ j, (i ≤ j)%nat → level_empty h j) ∨
    (a ≠ 0 ∧ a mod 2 ^ s0 = 0 ∧ taken h a (a + 2 ^ s0) h' ∧ ∃ j, in_first_level h i j a)).
Proof.
  induction n as [|n IH]; intros h i s0 Hn Hw Hs0 Hmono; cbn [linear_search_loop].
  - left. split; [done|]. split; [by apply freed_refl|]. intros j Hj B HB.
    apply lookup_lt_Some in HB. rewrite (hw_length h Hw) in HB. lia.
  - destruct (lookup_lt_is_Some_2 MemoryBlockPageShifts i) as [s Hs]; [simpl; lia|].
    destruct (heap_pop_run h i s false Hw Hs) as (B & HB & Esz & Hpop). rewrite HB. pstep.
    pose proof (Hmono i s ltac:(lia) Hs) as Hle. pose proof (pow2_pos s0 ltac:(lia)).
    assert (Hpp : 2 ^ s0 ≤ 2 ^ s) by (apply Z.pow_le_mono_r; lia).
    apply wp_bind. eapply wp_mono; [exact Hpop|]. intros [a B'] [Es' Hr]. cbv zeta in Hr.
    destruct Hr as [(-> & F & Hno)|(Ha & Ham & Hfree & Ht)].
    + rewrite Z.eqb_refl. cbn [negb]. eapply wp_mono.
      * apply IH; [lia|apply F|done|]. intros j t Hj. apply Hmono. lia.
      * intros [a h'] [(-> & F' & Hall)|(Ha & Ham & Ht & j & Hj & (C & HC & HCa) & Hk)]; [left|right].
        -- split; [done|]. split; [eapply freed_trans; [|done|done]; lia|].
           intros j Hj C HC. destruct (decide (j = i)) as [->|]; [by simplify_eq|].
           apply (Hall j); [lia|]. simpl. by rewrite list_lookup_insert_ne.
        -- split_and!; [done|done|by eapply taken_after_noop|]. exists j. cbn in HC. rewrite list_lookup_insert_ne in HC by lia.
           split; [lia|]. split; [by exists C|]. intros k Hik D HD.
           destruct (decide (k = i)) as [->|]; [by simplify_eq|].
           apply (Hk k); [lia|]. simpl. by rewrite list_lookup_insert_ne.
    + assert (in_first_level h i i a) as Hfirst by (split; [lia|]; split; [by exists B|intros k Hk; lia]).
      rewrite (proj2 (Z.eqb_neq a 0)) by done. cbn [negb]. rewrite Es'.
      assert (Hb60 : 0 < a ∧ a + 2 ^ s < 2 ^ 60).
      { pose proof (tk_inside _ _ _ _ Ht) as [? ?]. pose proof (hw_address h Hw).
        pose proof (hw_end h Hw). lia. }
      assert (Ham0 : a mod 2 ^ s0 = 0) by (eapply mod_pow2_smaller; [|exact Ham]; lia).
      destruct (2 ^ s0 <? 2 ^ s) eqn:E; bool_prop.
      * rewrite u64_id by (unfold is_u64; lia).
        replace (2 ^ s - 2 ^ s0) with (a + 2 ^ s - (a + 2 ^ s0)) by lia.
        destruct (Free_end h _ a (a + 2 ^ s) (a + 2 ^ s0) Ht) as (h2 & -> & Ht2); [lia| | |].
        -- apply mod_add_0; [apply page_pos| |by apply pow2_page].
           rewrite PageSize_eq. change 4096 with (2 ^ 12). eapply mod_pow2_smaller; [|exact Ham0]. lia.
        -- replace (a + 2 ^ s - (a + 2 ^ s0)) with (2 ^ s - 2 ^ s0) by lia.
           apply mod_sub_0; [apply page_pos|apply pow2_page; lia..].
        -- pstep. right. split_and!; [done..|by exists i].
      * pstep. right. replace (2 ^ s0) with (2 ^ s) at 2 by lia. split_and!; [done..|by exists i].
Qed.

Lemma linear_search_correct h index s :
  heap_wf h → MemoryBlockPageShifts !! index = Some s →
  wp (KPageHeap_AllocateBlock h index false) (λ '(a, h'),
    (a = 0 ∧ freed h 0 0 h' ∧ ∀ j, (index ≤ j)%nat → level_empty h j) ∨
    (a ≠ 0 ∧ a mod 2 ^ s = 0 ∧ taken h a (a + 2 ^ s) h' ∧ ∃ j, in_first_level h index j a)).
Proof.
  intros Hw Hs. destruct (shift_cases index s Hs) as (Hi & Hs12 & _).
  unfold KPageHeap_AllocateBlock, KPageHeap_AllocateByLinearSearch.
  destruct (heap_block h index s Hw Hs) as (B & HB & _ & _). rewrite HB. pstep.
  rewrite (GetSize_at h index s B), (hw_num h Hw) by done.
  apply linear_search_run; [lia|done|lia|]. intros j t Hj. by apply (shifts_mono index).
Qed.

(** C23: allocating one block by linear search returns a block of the wanted
    size, aligned to its size, that was free as a whole and is free no more,
    while every other address stays as it was.  It lies in a free block of the
    least level from the wanted one on that has any, and null is returned exactly
    when none of these levels has a free block. *)
Theorem AllocateByLinearSearch_correct h index s :
  heap_wf h → MemoryBlockPageShifts !! index = Some s →
  wp (KPageHeap_AllocateBlock h index false) (λ '(a, h'),
    (a = 0 ↔ ∀ j, (index ≤ j)%nat → level_empty h j) ∧
    if decide (a = 0) then freed h 0 0 h'
    else a mod 2 ^ s = 0 ∧ taken h a (a + 2 ^ s) h' ∧ ∃ j, in_first_level h index j a).
Proof.
  intros Hw Hs. eapply wp_mono; [by apply (linear_search_correct h index s)|].
  intros [a h'] [(-> & F & Hall)|(Ha & Hm & T & j & Hl)]; [done|]. rewrite decide_False by done.
  split; [|by split_and!; [..|exists j]]. split; [done|]. intros Hall.
  destruct Hl as (Hj & (B & HB & Hf) & _). by destruct (Hall j Hj B HB a).
Qed.

(** freeing a range of pages that is in use makes exactly these pages free:
    the heap stays well-formed, blocks that complete a larger block are
    coalesced into it, and the free size grows by the size of the range. *)
Theorem KPageHeap_Free_correct h addr num_pages :
  heap_wf h → 0 ≤ num_pages → addr mod PageSize = 0 →
  in_use h addr (addr + num_pages * PageSize) →
  wp (KPageHeap_Free h addr num_pages) (freed h addr (addr + num_pages * PageSize)).
Proof. intros. destruct (Free_run h addr num_pages) as (h' & -> & F); done. Qed.

(** ** AllocateByRandom *)
Lemma block_bytes_bound lo hi i B : lo ≤ hi → blk_wf lo hi i B → 0 ≤ block_bytes B ≤ hi - lo.
Proof.
  intros Hlh Hb. pose proof (sz_pos _ _ _ _ Hb) as Hs. unfold block_bytes.
  rewrite (bw_count _ (bk_bitmap _ _ _ _ Hb)). split; [nia|].
  set (q := - ((blk_heap_address B - lo) / sz B)). set (e := (hi - blk_heap_address B) / sz B).
  assert (Hq : lo - blk_heap_address B ≤ q * sz B).
  { unfold q. pose proof (Z.mul_div_le (blk_heap_address B - lo) (sz B) Hs). lia. }
  assert (He : e * sz B ≤ hi - blk_heap_address B).
  { unfold e. pose proof (Z.mul_div_le (hi - blk_heap_address B) (sz B) Hs). lia. }
  assert (Hsub : free_blocks (m_bitmap B) ⊆ range q (e - q)).
  { intros o Ho. apply elem_of_range. destruct (bk_inside _ _ _ _ Hb o Ho) as [H1 H2].
    unfold block_addr in *. split.
    - unfold q. assert (- o ≤ (blk_heap_address B - lo) / sz B); [|lia].
      apply Z.div_le_lower_bound; lia.
    - assert (o + 1 ≤ e); [|lia]. unfold e. apply Z.div_le_lower_bound; lia. }
  apply subseteq_size in Hsub. destruct (decide (0 ≤ e - q)) as [Heq|Heq].
  - pose proof (size_range q (e - q) Heq). nia.
  - assert (range q (e - q) = ∅) as Hemp by (apply set_eq; intros x; rewrite elem_of_range; set_solver by lia).
    rewrite Hemp, size_empty in Hsub. nia.
Qed.

Section Random.
Context (num_pages align_pages : Z).
Let needed := num_pages * PageSize.
Let ashift := countr_zero (u64 (align_pages * PageSize)).

(** The alignments the level [j] offers, without wrap-around. *)
Definition level_alignments h (j : nat) : Z :=
  match m_blocks h !! j with
  | Some B => (1 + (sz B - needed) / 2 ^ ashift) * m_num_bits (m_bitmap B)
  | None => 0
  end.

Definition random_args (s : Z) : Prop :=
  0 < num_pages ∧ 0 < align_pages ∧ num_pages * PageSize ≤ 2 ^ s ∧
  align_pages * PageSize ≤ 2 ^ s ∧ s ≤ 30.

Lemma ashift_spec s : random_args s → 12 ≤ ashift ≤ s ∧ (align_pages * PageSize) mod 2 ^ ashift = 0.
Proof.
  intros (Hn & Ha & Hns & Has & Hs). assert (2 ^ s ≤ 2 ^ 30).
  { destruct (decide (0 ≤ s)); [apply Z.pow_le_mono_r; lia|]. rewrite Z.pow_neg_r by lia. lia. }
  unfold ashift. rewrite PageSize_eq in *. set (x := align_pages * 4096) in *.
  rewrite u64_id by (unfold is_u64; lia).
  destruct (countr_zero_spec x) as (Hc & Hb & Hlow); [unfold is_u64; lia|lia|].
  set (c := countr_zero x) in *. clearbody c.
  assert (Hdiv : x mod 2 ^ c = 0).
  { apply Z.bits_inj'. intros i Hi. rewrite Z.testbit_0_l. destruct (decide (i < c)).
    - rewrite Z.mod_pow2_bits_low by lia. apply Hlow. lia.
    - apply Z.mod_pow2_bits_high. lia. }
  split; [|done]. split.
  - destruct (decide (12 ≤ c)); [done|]. exfalso.
    assert (Hz : Z.testbit x c = false); [|congruence]. unfold x.
    change 4096 with (2 ^ 12). rewrite <- Z.shiftl_mul_pow2 by lia. apply Z.shiftl_spec_low. lia.
  - assert (2 ^ c ≤ x).
    { apply Z.mod_divide in Hdiv as [q Hq]; [|pose proof (pow2_pos c); lia].
      pose proof (pow2_pos c ltac:(lia)). assert (0 < q) by nia. nia. }
    destruct (decide (c ≤ s)); [done|]. exfalso.
    assert (0 ≤ s). { destruct (decide (0 ≤ s)); [done|]. rewrite Z.pow_neg_r in Has by lia. lia. }
    assert (2 ^ s < 2 ^ c) by (apply Z.pow_lt_mono_r; lia). lia.
Qed.

(** Below, [index] is the smallest level that fits, with the shift [s]. *)
Context (s : Z) (index : nat) (Hindex : MemoryBlockPageShifts !! index = Some s)
        (Hargs : random_args s).

Lemma needed_eq : u64 (num_pages * PageSize) = needed ∧ 4096 ≤ needed ≤ 2 ^ s ∧ 2 ^ s ≤ 2 ^ 30.
Proof.
  destruct Hargs as (? & _ & ? & _ & ?). destruct (shift_cases _ _ Hindex) as (_ & ? & _).
  assert (2 ^ s ≤ 2 ^ 30) by (apply Z.pow_le_mono_r; lia). unfold needed in *. rewrite PageSize_eq in *.
  split; [apply u64_id; unfold is_u64|]; lia.
Qed.

(** No level wraps around: what it offers is bounded by its pages. *)
Lemma alignments_of_level h j B :
  heap_wf h → (index ≤ j)%nat → m_blocks h !! j = Some B →
  alignments_of B needed ashift = level_alignments h j ∧
  0 ≤ level_alignments h j ≤ 2 ^ 24 ∧
  (level_alignments h j = 0 ↔ free_blocks (m_bitmap B) = ∅).
Proof.
  intros Hw Hj HB. pose proof (hw_blocks h Hw j B HB) as Hb.
  destruct needed_eq as (_ & Hn & Hs30). destruct (ashift_spec s Hargs) as [Ha _].
  destruct (shift_cases _ _ (bk_shift _ _ _ _ Hb)) as (_ & Hsh & _).
  pose proof (shifts_mono index j s _ Hj Hindex (bk_shift _ _ _ _ Hb)) as Hle.
  assert (Hsz : 2 ^ s ≤ sz B ≤ 2 ^ 30) by (unfold sz; split; apply Z.pow_le_mono_r; lia).
  pose proof (hw_size h Hw) as [Hhs _].
  assert (Hbytes : 0 ≤ block_bytes B ≤ heap_end h - m_heap_address h)
    by (eapply block_bytes_bound; [unfold heap_end; lia|done]).
  unfold block_bytes, heap_end in Hbytes. unfold level_alignments. rewrite HB.
  pose proof (bw_count _ (bk_bitmap _ _ _ _ Hb)) as Hc.
  assert (Hp12 : 4096 ≤ 2 ^ ashift) by (change 4096 with (2 ^ 12); apply Z.pow_le_mono_r; lia).
  set (nb := m_num_bits (m_bitmap B)) in *. set (q := (sz B - needed) / 2 ^ ashift).
  assert (Hq : 0 ≤ q ∧ 4096 * (1 + q) ≤ sz B).
  { unfold q. split; [apply Z.div_pos; lia|].
    pose proof (Z.mul_div_le (sz B - needed) (2 ^ ashift) ltac:(lia)).
    pose proof (Z.div_pos (sz B - needed) (2 ^ ashift) ltac:(lia) ltac:(lia)). nia. }
  assert (Hall : 0 ≤ (1 + q) * nb ≤ 2 ^ 24) by (change (2 ^ 36) with (4096 * 2 ^ 24) in Hhs; nia).
  split_and!; [|lia|lia|].
  - unfold alignments_of, Block_GetNumFreeBlocks. rewrite (GetSize_sz _ _ _ _ Hb).
    rewrite (u64_id (sz B - needed)) by (unfold is_u64; lia). rewrite Z.shiftr_div_pow2 by lia.
    fold q nb. rewrite (u64_id (1 + q)) by (unfold is_u64; lia). apply u64_id. unfold is_u64. lia.
  - rewrite <- leibniz_equiv_iff, <- size_empty_iff. split; [intros; assert (nb = 0) by nia; lia|intros ?; nia].
Qed.

Lemma level_alignments_range h j : heap_wf h → (index ≤ j)%nat → 0 ≤ level_alignments h j ≤ 2 ^ 24.
Proof.
  intros Hw Hj. destruct (m_blocks h !! j) as [B|] eqn:HB; [by apply (alignments_of_level h j B)|].
  unfold level_alignments. rewrite HB. lia.
Qed.

(** The alignments of [n] levels from [i] on. *)
Fixpoint offered h (i n : nat) : Z :=
  match n with O => 0 | S n => level_alignments h i + offered h (S i) n end.

Lemma offered_range h n : ∀ i, heap_wf h → (index ≤ i)%nat → 0 ≤ offered h i n ≤ Z.of_nat n * 2 ^ 24.
Proof.
  induction n as [|n IH]; intros i Hw Hi; cbn [offered]; [lia|].
  pose proof (level_alignments_range h i Hw Hi). pose proof (IH (S i) Hw ltac:(lia)). lia.
Qed.

Lemma offered_zero h n : ∀ i j, heap_wf h → (index ≤ i)%nat → offered h i n = 0 →
  (i ≤ j < i + n)%nat → level_alignments h j = 0.
Proof.
  induction n as [|n IH]; intros i j Hw Hi E Hj; [lia|]. cbn [offered] in E.
  pose proof (level_alignments_range h i Hw Hi). pose proof (offered_range h n (S i) Hw ltac:(lia)).
  destruct (decide (j = i)) as [->|]; [lia|]. apply (IH (S i)); [done|lia..].
Qed.

Lemma count_alignments_run h n : ∀ i p, heap_wf h → (index ≤ i)%nat → (i + n = 7)%nat →
  0 ≤ p → p + offered h i n < 2 ^ 30 →
  ∃ k, count_alignments n h i needed ashift p = Done true (p + offered h i k, (i + k)%nat) ∧
    (k ≤ n)%nat ∧ (k = n ∨ 4 ≤ p + offered h i k ∧ (0 < k)%nat).
Proof.
  induction n as [|n IH]; intros i p Hw Hi Hn Hp Hb; cbn [count_alignments].
  - exists 0%nat. rewrite Nat.add_0_r. cbn [offered]. rewrite Z.add_0_r. split_and!; [done|lia|auto].
  - destruct (lookup_lt_is_Some_2 (m_blocks h) i) as [B HB]; [rewrite (hw_length h Hw); lia|].
    rewrite HB. pstep. destruct (alignments_of_level h i B Hw Hi HB) as (-> & Hr & _).
    cbn [offered] in Hb. pose proof (offered_range h n (S i) Hw ltac:(lia)).
    rewrite u64_id by (unfold is_u64; lia). destruct (4 <=? _) eqn:E; bool_prop.
    + exists 1%nat. cbn [offered]. rewrite Z.add_0_r, Nat.add_1_r. split_and!; [done|lia|]. right. lia.
    + destruct (IH (S i) (p + level_alignments h i)) as (k & -> & Hk & Hc); [done|lia..|].
      exists (S k). cbn [offered]. rewrite <- Nat.add_succ_comm, Z.add_assoc in *.
      split_and!; [done|lia|]. destruct Hc as [->|[? ?]]; [auto|right; lia].
Qed.

Lemma choose_index_run h n dflt rnd : ∀ i p, heap_wf h → (index ≤ i)%nat → (i + n ≤ 7)%nat →
  0 ≤ p → p + offered h i n < 2 ^ 30 → p ≤ rnd < p + offered h i n →
  ∃ j, choose_index n h i dflt needed ashift p rnd = Done true j ∧
    (i ≤ j < i + n)%nat ∧ 0 < level_alignments h j.
Proof.
  induction n as [|n IH]; intros i p Hw Hi Hn Hp Hb Hr; cbn [choose_index offered] in *; [lia|].
  destruct (lookup_lt_is_Some_2 (m_blocks h) i) as [B HB]; [rewrite (hw_length h Hw); lia|].
  rewrite HB. pstep. destruct (alignments_of_level h i B Hw Hi HB) as (-> & Hl & _).
  pose proof (offered_range h n (S i) Hw ltac:(lia)).
  rewrite u64_id by (unfold is_u64; lia). destruct (rnd <? _) eqn:E; bool_prop.
  - exists i. split_and!; [done|lia..].
  - destruct (IH (S i) (p + level_alignments h i)) as (j & -> & ? & ?); [done|lia..|].
    exists j. split_and!; [done|lia..].
Qed.

Lemma freed_rng h g : heap_wf h → rng_wf g → freed h 0 0 (set_heap_rng g h).
Proof.
  intros Hw Hg. destruct Hw. split; try done; [|unfold heap_bytes; simpl; lia].
  intros x. unfold heap_free. simpl. split; [auto|]. intros [?|?]; [done|lia].
Qed.

(** The level chosen has a free block, unless no level has. *)
Lemma random_level_run h : heap_wf h →
  wp (random_level h index needed ashift) (λ '(j, h'),
    (index ≤ j < 7)%nat ∧ freed h 0 0 h' ∧ m_blocks h' = m_blocks h ∧
    (0 < level_alignments h j ∨ ∀ k, (index ≤ k)%nat → level_empty h k)).
Proof.
  intros Hw. destruct (shift_cases _ _ Hindex) as (Hi7 & _). unfold random_level.
  rewrite (hw_num h Hw). change (Z.to_nat 7) with 7%nat.
  pose proof (offered_range h (7 - index) index Hw ltac:(lia)) as Hr7.
  destruct (count_alignments_run h (7 - index) index 0) as (k & -> & Hk & Hc); [done|lia..|].
  pstep. rewrite Z.add_0_l in *. pose proof (offered_range h k index Hw ltac:(lia)) as Hrk.
  destruct (_ && _) eqn:E; bool_prop.
  - apply wp_bind. eapply wp_mono; [apply GenerateRandom_run; [apply Hw|lia]|].
    intros [rnd g] [Hg Hrnd]. replace (index + k - index)%nat with k by lia.
    destruct (choose_index_run h k index rnd index 0) as (j & -> & Hj & Hl); [done|lia..|].
    pstep. split_and!; [lia|lia|by apply freed_rng|done|by left].
  - pstep. split_and!; [lia|lia|by apply freed_refl|done|].
    destruct (decide (0 < level_alignments h index)) as [|Hz]; [by left|right].
    pose proof (level_alignments_range h index Hw ltac:(lia)).
    assert (Hk7 : offered h index k = 0 ∧ k = (7 - index)%nat).
    { apply andb_false_iff in E as [E|E]; bool_prop.
      - split; [lia|]. destruct Hc as [|[? ?]]; [done|lia].
      - destruct k as [|[|k]]; cbn [offered] in *; [|rewrite Z.add_0_r in *|lia].
        + split; [done|]. destruct Hc; lia.
        + split; [lia|]. destruct Hc as [|[? ?]]; lia. }
    destruct Hk7 as [Hz7 ->]. intros j Hj B HB x Hx.
    assert (j < 7)%nat by (apply lookup_lt_Some in HB; rewrite (hw_length h Hw) in HB; lia).
    destruct (alignments_of_level h j B Hw Hj HB) as (_ & _ & Hemp).
    rewrite (offered_zero h (7 - index) index j Hw ltac:(lia) Hz7 ltac:(lia)) in Hemp.
    unfold free_in in Hx. rewrite (proj1 Hemp eq_refl) in Hx. set_solver.
Qed.

(** What is cut off in front is a multiple of the alignment. *)
Lemma cut_offset t rnd :
  s ≤ t ≤ 30 → 0 ≤ rnd < 1 + Z.shiftr (2 ^ t - needed) ashift →
  let off := u64 (Z.shiftl rnd ashift) in
  0 ≤ off ≤ 2 ^ t - needed ∧ off mod 2 ^ ashift = 0 ∧ off mod PageSize = 0.
Proof.
  intros Ht Hr. destruct needed_eq as (_ & Hn & _). destruct (ashift_spec s Hargs) as [Ha _].
  assert (2 ^ s ≤ 2 ^ t ≤ 2 ^ 30) by (split; apply Z.pow_le_mono_r; lia).
  pose proof (pow2_pos ashift ltac:(lia)) as Hp. rewrite Z.shiftr_div_pow2 in Hr by lia.
  pose proof (Z.mul_div_le (2 ^ t - needed) (2 ^ ashift) Hp).
  assert (Hoff : 0 ≤ rnd * 2 ^ ashift ≤ 2 ^ t - needed) by nia.
  cbv zeta. rewrite Z.shiftl_mul_pow2 by lia. rewrite u64_id by (unfold is_u64; lia).
  assert (Hm : (rnd * 2 ^ ashift) mod 2 ^ ashift = 0) by (apply Z.mod_mul; lia).
  split_and!; [lia|lia|done|]. rewrite PageSize_eq. change 4096 with (2 ^ 12).
  eapply mod_pow2_smaller; [|exact Hm]. lia.
Qed.

Lemma taken_rng h a b h1 g : taken h a b h1 → rng_wf g → taken h a b (set_heap_rng g h1).
Proof. intros [W A Sz I Fr F T] Hg. split; try done. by destruct W. Qed.

(** Cutting the wanted part out of a block of size [2 ^ t]. *)
Lemma random_cut_run h h1 a t off :
  s ≤ t ≤ 30 → heap_wf h → taken h a (a + 2 ^ t) h1 → a mod 2 ^ t = 0 →
  0 ≤ off ≤ 2 ^ t - needed → off mod PageSize = 0 →
  ∃ h2, (if negb (off =? 0) then KPageHeap_Free h1 a (off / PageSize) else mret h1)
          = Done true h2 ∧
  ∃ h3, (if negb (off =? 2 ^ t - needed)
         then KPageHeap_Free h2 (u64 (u64 (a + off) + needed))
                (u64 (2 ^ t - needed - off) / PageSize)
         else mret h2) = Done true h3 ∧
    0 < a ∧ u64 (a + off) = a + off ∧ taken h (a + off) (a + off + needed) h3.
Proof.
  intros Ht Hw Htk Ham Hoff Hom. destruct needed_eq as (_ & Hn & _).
  assert (H30 : 2 ^ t ≤ 2 ^ 30) by (apply Z.pow_le_mono_r; lia).
  assert (Hb60 : 0 < a ∧ a + 2 ^ t < 2 ^ 60).
  { pose proof (tk_inside _ _ _ _ Htk) as [? ?]. pose proof (hw_address h Hw).
    pose proof (hw_end h Hw). lia. }
  destruct (shift_cases _ _ Hindex) as (_ & Hs12 & _). pose proof page_pos.
  assert (Hap : a mod PageSize = 0).
  { rewrite PageSize_eq. change 4096 with (2 ^ 12). eapply mod_pow2_smaller; [|exact Ham]. lia. }
  assert (Htp : 2 ^ t mod PageSize = 0) by (apply pow2_page; lia).
  assert (Hnp : needed mod PageSize = 0) by (apply Z.mod_mul; lia).
  assert (H2 : ∃ h2, (if negb (off =? 0) then KPageHeap_Free h1 a (off / PageSize) else mret h1)
                     = Done true h2 ∧ taken h (a + off) (a + 2 ^ t) h2).
  { destruct (off =? 0) eqn:E; bool_prop; cbn [negb].
    - subst off. rewrite Z.add_0_r. by exists h1.
    - assert (Eo : off / PageSize = (a + off - a) / PageSize) by (f_equal; lia). rewrite Eo.
      apply Free_start; [done|lia|done|]. by replace (a + off - a) with off by lia. }
  destruct H2 as (h2 & E2 & Htk2). exists h2. split; [done|].
  rewrite (u64_id (a + off)) by (unfold is_u64; lia).
  rewrite (u64_id (a + off + _)) by (unfold is_u64; lia).
  rewrite (u64_id (2 ^ t - needed - off)) by (unfold is_u64; lia).
  destruct (off =? 2 ^ t - needed) eqn:E; bool_prop; cbn [negb].
  - exists h2. split_and!; [done|lia|done|]. by replace (a + off + needed) with (a + 2 ^ t) by lia.
  - replace (2 ^ t - needed - off) with (a + 2 ^ t - (a + off + needed)) by lia.
    destruct (Free_end h h2 (a + off) (a + 2 ^ t) (a + off + needed)) as (h3 & -> & Htk3);
      [done|lia| | |by exists h3; split_and!; [|lia| |]].
    + by repeat (apply mod_add_0; [done| |]).
    + replace (a + 2 ^ t - (a + off + needed)) with (2 ^ t - needed - off) by lia.
      by repeat (apply mod_sub_0; [done| |]).
Qed.

Lemma random_take_run h j t :
  heap_wf h → (index ≤ j)%nat → MemoryBlockPageShifts !! j = Some t →
  wp (random_take h j needed ashift) (λ '(a, h'),
    (a = 0 ∧ freed h 0 0 h' ∧ level_empty h j) ∨
    (a ≠ 0 ∧ a mod 2 ^ ashift = 0 ∧ taken h a (a + needed) h')).
Proof.
  intros Hw Hj Ht. destruct needed_eq as (_ & Hn & _). destruct (ashift_spec s Hargs) as [Hsh _].
  pose proof (shifts_mono index j s t Hj Hindex Ht) as Hst.
  destruct (shift_cases _ _ Ht) as (_ & Ht30 & _).
  assert (Hp : 2 ^ s ≤ 2 ^ t ≤ 2 ^ 30) by (split; apply Z.pow_le_mono_r; lia).
  destruct (heap_pop_run h j t true Hw Ht) as (B & HB & _ & Hpop). unfold random_take.
  rewrite HB. pstep. apply wp_bind. eapply wp_mono; [exact Hpop|].
  intros [a B'] [Es' [(-> & F & Hno)|(Ha & Ham & _ & Htk)]].
  - left. split_and!; [done|done|]. intros C HC. by simplify_eq.
  - rewrite (proj2 (Z.eqb_neq a 0)) by done. cbn [negb]. rewrite Es'.
    rewrite (u64_id (2 ^ t - needed)) by (unfold is_u64; lia).
    assert (Haa : a mod 2 ^ ashift = 0) by (eapply mod_pow2_smaller; [|exact Ham]; lia).
    destruct (0 <? _) eqn:E; bool_prop.
    + assert (0 ≤ Z.shiftr (2 ^ t - needed) ashift < 2 ^ 29).
      { rewrite Z.shiftr_div_pow2 by lia. split; [apply Z.div_pos; [lia|apply pow2_pos; lia]|].
        apply Z.div_lt_upper_bound; [apply pow2_pos; lia|].
        assert (2 ^ 12 ≤ 2 ^ ashift) by (apply Z.pow_le_mono_r; lia). nia. }
      apply wp_bind. eapply wp_mono; [apply GenerateRandom_run; [apply Htk|lia]|].
      intros [rnd g] [Hg Hrnd]. destruct (cut_offset t rnd) as (Ho1 & Ho2 & Ho3); [lia|done|].
      set (off := u64 (Z.shiftl rnd ashift)) in *. clearbody off.
      destruct (random_cut_run h _ a t off ltac:(lia) Hw (taken_rng _ _ _ _ g Htk Hg) Ham Ho1 Ho3)
        as (h2 & -> & h3 & E3 & Hpos & Eu & Htk3).
      pstep. rewrite E3. pstep. right. rewrite Eu. split_and!; [lia| |done].
      apply mod_add_0; [apply pow2_pos; lia|done|done].
    + pstep. right. split_and!; [done|done|]. by replace needed with (2 ^ t) by lia.
Qed.
End Random.

Lemma random_search_correct h index s num_pages align_pages :
  heap_wf h → MemoryBlockPageShifts !! index = Some s → random_args num_pages align_pages s →
  wp (KPageHeap_AllocateAligned h index num_pages align_pages) (λ '(a, h'),
    (a = 0 ∧ freed h 0 0 h' ∧ ∀ j, (index ≤ j)%nat → level_empty h j) ∨
    (a ≠ 0 ∧ a mod 2 ^ countr_zero (align_pages * PageSize) = 0 ∧
     taken h a (a + num_pages * PageSize) h')).
Proof.
  intros Hw Hs Hargs. unfold KPageHeap_AllocateAligned, KPageHeap_AllocateByRandom.
  destruct (needed_eq num_pages align_pages s index Hs Hargs) as (-> & _ & H30).
  assert (Ea : countr_zero (align_pages * PageSize) = countr_zero (u64 (align_pages * PageSize))).
  { destruct Hargs as (_ & ? & _ & ? & _). pose proof page_pos.
    rewrite u64_id by (unfold is_u64; nia). done. }
  rewrite Ea. apply wp_bind. eapply wp_mono; [by eapply (random_level_run _ _ s)|].
  intros [j h1] (Hj & F1 & Ebl & Hlev).
  destruct (lookup_lt_is_Some_2 MemoryBlockPageShifts j) as [t Ht]; [simpl; lia|].
  eapply wp_mono; [eapply (random_take_run _ _ s index Hs Hargs); [apply F1|lia|done]|].
  intros [a h2] [(-> & F2 & Hemp)|(Ha & Ham & Htk)]; [left|right].
  - split_and!; [done|eapply freed_trans; [|done|done]; lia|]. destruct Hlev as [Hpos|]; [|done].
    exfalso. destruct (heap_block h j t Hw Ht) as (B & HB & Hb & _).
    destruct (alignments_of_level _ _ s index Hs Hargs h j B Hw ltac:(lia) HB) as (_ & _ & Hz).
    assert (Hfb : free_blocks (m_bitmap B) = ∅); [|apply Hz in Hfb; lia].
    apply set_eq. intros o. split; [|set_solver]. intros Ho. exfalso.
    apply (Hemp B ltac:(by rewrite Ebl) (block_addr B o)). pose proof (sz_pos _ _ _ _ Hb).
    apply free_in_iff; [done|]. exists o. split; [done|lia].
  - split_and!; [done|done|]. by eapply taken_after_noop.
Qed.

(** allocating [num_pages] pages from the blocks of level [index] or larger,
    at a random place with a given alignment, succeeds unless all these levels
    are empty, whatever the random numbers are: the pages returned are aligned,
    were free, and are the only ones that are free no more. *)
Theorem AllocateByRandom_correct h index s num_pages align_pages :
  heap_wf h → MemoryBlockPageShifts !! index = Some s → random_args num_pages align_pages s →
  wp (KPageHeap_AllocateAligned h index num_pages align_pages) (λ '(a, h'),
    (a = 0 ∧ freed h 0 0 h' ∧ ∀ j, (index ≤ j)%nat → level_empty h j) ∨
    (a ≠ 0 ∧ a mod 2 ^ countr_zero (align_pages * PageSize) = 0 ∧
     taken h a (a + num_pages * PageSize) h')).
Proof. apply random_search_correct. Qed.
End Heap.
