(* ===== verification/PageHeapInitialize.v ===== *)
(** * KPageHeap::Initialize and the free page count

    The management overhead that is computed beforehand is enough for the
    bitmaps of every level, whatever the alignment of the heap is. *)

From stdpp Require Import gmap.
From S2P Require Import Prelude Common PageBitmap PageBitmapLemmas PageBitmapTheorems PageHeap PageHeapLemmas PageHeapTheorems.

(** ** The overhead of a bitmap grows with its size *)
Lemma ceil64_mono m n : m ≤ n → ceil64 m ≤ ceil64 n.
Proof. intros. apply Z.div_le_mono; lia. Qed.

Lemma level_sizes_mono d : ∀ e m n, (d ≤ e)%nat → 0 ≤ m ≤ n →
  (sum_list_with Z.to_nat (level_sizes d m) ≤ sum_list_with Z.to_nat (level_sizes e n))%nat.
Proof.
  induction d as [|d IH]; intros [|e] m n Hde Hmn; simpl; try lia.
  rewrite !sum_list_with_app. simpl. pose proof (ceil64_mono m n ltac:(lia)).
  pose proof (ceil64_spec m ltac:(lia)). pose proof (IH e (ceil64 m) (ceil64 n)). lia.
Qed.

Lemma overhead_mono m n : 0 < m ≤ n → n < 2 ^ 24 →
  KPageBitmap_CalculateManagementOverheadSize m ≤ KPageBitmap_CalculateManagementOverheadSize n
  ∧ 0 ≤ KPageBitmap_CalculateManagementOverheadSize n ≤ 2 ^ 30.
Proof.
  intros Hmn Hn. destruct (GetRequiredDepth_spec m) as (d & Hd & Ed & Hd1 & Hd2); [lia|].
  destruct (GetRequiredDepth_spec n) as (e & He & Ee & He1 & He2); [lia|].
  assert (He4 : (e ≤ 4)%nat).
  { destruct (decide (e ≤ 4)%nat); [done|]. specialize (He2 ltac:(lia)).
    assert (64 ^ 4 ≤ 64 ^ Z.of_nat (pred e)) by (apply Z.pow_le_mono_r; lia). lia. }
  assert (Hde : (d ≤ e)%nat).
  { destruct (decide (d ≤ e)%nat); [done|]. specialize (Hd2 ltac:(lia)).
    assert (64 ^ Z.of_nat e ≤ 64 ^ Z.of_nat (pred d)) by (apply Z.pow_le_mono_r; lia). lia. }
  rewrite (overhead_eq m d), (overhead_eq n e) by done || lia.
  pose proof (level_sizes_mono d e m n Hde ltac:(lia)).
  assert (∀ k x, 0 ≤ x → Z.of_nat (sum_list_with Z.to_nat (level_sizes k x)) ≤ Z.of_nat k * x) as Hs.
  { induction k as [|k IH]; intros x Hx; simpl; [lia|]. pose proof (ceil64_spec x Hx).
    rewrite sum_list_with_app. simpl. specialize (IH (ceil64 x) ltac:(lia)). nia. }
  specialize (Hs e n ltac:(lia)). nia.
Qed.

Section Heap.
Context {R : Type} `{RngLaws R}.
Implicit Types (B : Block R) (h : KPageHeap R).

(** ** One level *)
Definition level_align (bs nbs : Z) : Z := 2 ^ (if nbs =? 0 then bs else nbs).

Lemma level_align_eq bs nbs : 0 ≤ bs < 64 → 0 ≤ nbs < 64 →
  (if negb (nbs =? 0) then u64 (Z.shiftl 1 nbs) else u64 (Z.shiftl 1 bs)) = level_align bs nbs.
Proof. intros. unfold level_align. destruct (nbs =? 0); cbn [negb]; by apply u64_pow2. Qed.

(** The blocks of a level, and those the overhead was computed for. *)
Lemma level_geometry i s addr size :
  MemoryBlockPageShifts !! i = Some s → 0 < addr → 0 < size ≤ 2 ^ 35 → addr + size < 2 ^ 60 →
  let nbs := default 0 (MemoryBlockPageShifts !! S i) in
  let al := level_align s nbs in
  let a := AlignDown addr al in let e := AlignUp (addr + size) al in
  0 < al ≤ 2 ^ 30 ∧ 0 ≤ a ≤ addr ∧ a mod al = 0 ∧ addr + size ≤ e < 2 ^ 61 ∧ e mod al = 0 ∧
  (e - a) / 2 ^ s * 2 ^ s = e - a ∧ 0 < (e - a) / 2 ^ s ∧
  (e - a) / 2 ^ s ≤ u64 (u64 (al * 2) + AlignUp size al) / 2 ^ s < 2 ^ 24.
Proof.
  intros Hs Ha Hsz Hend nbs al a e. destruct (shift_cases i s Hs) as (_ & Hs12 & Hn).
  fold nbs in Hn. assert (Has : s ≤ (if nbs =? 0 then s else nbs) ≤ 30 ∧
    (if nbs =? 0 then s else nbs) ≤ s + 5) by (destruct (nbs =? 0) eqn:E; bool_prop; lia).
  unfold al, level_align in *. set (t := if nbs =? 0 then s else nbs) in *. clearbody t.
  pose proof (pow2_pos t ltac:(lia)) as Hp. pose proof (pow2_pos s ltac:(lia)) as Hps.
  assert (H30 : 2 ^ t ≤ 2 ^ 30) by (apply Z.pow_le_mono_r; lia).
  destruct (AlignDown_spec addr (2 ^ t) Hp) as [A1 A2].
  pose proof (AlignDown_nonneg addr (2 ^ t) Hp ltac:(lia)) as A3.
  destruct (AlignUp_spec (addr + size) (2 ^ t) Hp) as [E1 E2]; [lia|lia|].
  destruct (AlignUp_spec size (2 ^ t) Hp) as [Z1 Z2]; [lia|lia|].
  fold a in A1, A2, A3. fold e in E1, E2. set (z := AlignUp size (2 ^ t)) in *. clearbody a e z.
  assert (Hm : (e - a) mod 2 ^ s = 0).
  { eapply mod_pow2_smaller; [|apply mod_sub_0; [exact Hp|exact E1|exact A1]]. lia. }
  pose proof (Z.div_mod (e - a) (2 ^ s) ltac:(lia)) as Hdm. rewrite Hm in Hdm.
  assert (H32 : 2 ^ t ≤ 32 * 2 ^ s).
  { change 32 with (2 ^ 5). rewrite <- Z.pow_add_r by lia. apply Z.pow_le_mono_r; lia. }
  assert (H12 : 4096 ≤ 2 ^ s) by (change 4096 with (2 ^ 12); apply Z.pow_le_mono_r; lia).
  rewrite (u64_id (2 ^ t * 2)) by (unfold is_u64; lia). rewrite u64_id by (unfold is_u64; lia).
  split_and!; try done; try lia.
  - apply Z.div_le_mono; lia.
  - apply Z.div_lt_upper_bound; [lia|]. change (2 ^ 35) with (4096 * 2 ^ 23) in Hsz. lia.
Qed.

Lemma Block_Initialize_run i s B addr size N :
  MemoryBlockPageShifts !! i = Some s → 0 < addr → 0 < size ≤ 2 ^ 35 → addr + size < 2 ^ 60 →
  rng_wf (bm_rng (m_bitmap B)) →
  let nbs := default 0 (MemoryBlockPageShifts !! S i) in
  let need := Block_CalculateManagementOverheadSize size s nbs in
  need ≤ 8 * Z.of_nat N →
  ∃ B' N', Block_Initialize B addr size s nbs (replicate N 0) = Done true (B', replicate N' 0) ∧
    8 * Z.of_nat N' ≤ 8 * Z.of_nat N ≤ 8 * Z.of_nat N' + need ∧
    blk_wf addr (addr + size) i B' ∧ (∀ x, ¬ free_in B' x) ∧ block_bytes B' = 0.
Proof.
  intros Hs Ha Hsz Hend Hg nbs need HN. destruct (shift_cases i s Hs) as (_ & Hs12 & Hn).
  fold nbs in Hn. destruct (level_geometry i s addr size Hs Ha Hsz Hend)
    as (G1 & G2 & G3 & G4 & G5 & G6 & G7 & G8 & G9). fold nbs in G1, G2, G3, G4, G5, G6, G7, G8, G9.
  unfold Block_Initialize, Block_CalculateManagementOverheadSize in *. cbv zeta in *.
  unfold need in *. rewrite level_align_eq in HN |- * by lia. rewrite (u64_pow2 s) in HN |- * by lia.
  rewrite (u64_id (addr + size)) by (unfold is_u64; lia).
  set (a := AlignDown addr _) in *. set (e := AlignUp (addr + size) _) in *.
  rewrite (u64_id (e - a)) by (unfold is_u64; lia). set (n := (e - a) / 2 ^ s) in *.
  destruct (overhead_mono n _ ltac:(split; [exact G7|exact G8]) G9) as [Hmono _].
  destruct (bitmap_Initialize_run (m_bitmap B) n N) as (bm & N' & -> & HN' & Hbw & Hfr & Hnb); [lia|done|lia|].
  pstep. eexists _, N'. split; [done|].
  assert (Hemp : ∀ o, o ∉ free_blocks bm) by (rewrite Hfr; set_solver).
  pose proof (overhead_mono n n ltac:(lia) ltac:(lia)) as [_ Hpos].
  split; [lia|]. split_and!; [split; simpl; try done| |].
  - unfold sz. simpl. fold n in G6. rewrite G6. lia.
  - lia.
  - unfold sz, align_shift_of. simpl. fold (level_align s nbs). fold n in G6. rewrite G6.
    by apply mod_sub_0; [lia| |].
  - intros o Ho. by destruct (Hemp o).
  - intros x. apply Hemp.
  - unfold block_bytes. simpl. rewrite (bw_count _ Hbw), Hfr, size_empty. lia.
Qed.

(** ** All levels *)
Fixpoint overheads (size : Z) (shifts : list Z) : Z :=
  match shifts with
  | [] => 0
  | s :: shifts =>
      Block_CalculateManagementOverheadSize size s (default 0 (head shifts)) + overheads size shifts
  end.

Lemma head_drop_next {A} (l : list A) i x l' : drop i l = x :: l' → head l' = l !! S i ∧ l !! i = Some x ∧ drop (S i) l = l'.
Proof.
  intros E. assert (Hi : l !! i = Some x) by (rewrite <- (Nat.add_0_r i), <- lookup_drop, E; done).
  rewrite (drop_S l x i Hi) in E. injection E as E. split_and!; [|done|done].
  rewrite <- E. by rewrite head_lookup, lookup_drop, Nat.add_0_r.
Qed.

Lemma level_overhead_range i s addr size :
  MemoryBlockPageShifts !! i = Some s → 0 < addr → 0 < size ≤ 2 ^ 35 → addr + size < 2 ^ 60 →
  0 ≤ Block_CalculateManagementOverheadSize size s (default 0 (MemoryBlockPageShifts !! S i)) ≤ 2 ^ 30.
Proof.
  intros Hs Ha Hsz Hend. destruct (shift_cases i s Hs) as (_ & Hs12 & Hn).
  destruct (level_geometry i s addr size Hs Ha Hsz Hend) as (_ & _ & _ & _ & _ & _ & G7 & G8 & G9).
  unfold Block_CalculateManagementOverheadSize. rewrite level_align_eq, (u64_pow2 s) by lia.
  by destruct (overhead_mono _ _ ltac:(split; [exact G7|exact G8]) G9) as [_ ?].
Qed.

Lemma overheads_range size addr shifts : ∀ i,
  drop i MemoryBlockPageShifts = shifts →
  0 < addr → 0 < size ≤ 2 ^ 35 → addr + size < 2 ^ 60 →
  0 ≤ overheads size shifts ≤ Z.of_nat (length shifts) * 2 ^ 30.
Proof.
  induction shifts as [|s l IH]; intros i E Ha Hsz Hend; cbn [overheads]; [simpl; lia|].
  destruct (head_drop_next _ _ _ _ E) as (-> & Hs & El).
  pose proof (level_overhead_range i s addr size Hs Ha Hsz Hend).
  pose proof (IH (S i) El Ha Hsz Hend). simpl length. lia.
Qed.

Lemma overhead_size_eq size : 0 < size ≤ 2 ^ 35 →
  overhead_size size MemoryBlockPageShifts = overheads size MemoryBlockPageShifts ∧
  overheads size MemoryBlockPageShifts ≤ 2 ^ 34.
Proof.
  intros Hsz. pose proof (overheads_range size 4096 MemoryBlockPageShifts 0 eq_refl ltac:(lia) Hsz ltac:(lia)) as Hall.
  change (Z.of_nat (length MemoryBlockPageShifts)) with 7 in Hall.
  split; [|lia]. unfold overhead_size.
  assert (Hloop : ∀ l i acc, drop i MemoryBlockPageShifts = l → 0 ≤ acc → acc + overheads size l < 2 ^ 60 →
    (fix loop (shifts : list Z) (acc : Z) : Z :=
       match shifts with
       | [] => acc
       | cur :: shifts =>
           loop shifts (u64 (acc + Block_CalculateManagementOverheadSize size cur
                                    (default 0 (head shifts))))
       end) l acc = acc + overheads size l).
  { induction l as [|s l IH]; intros i acc E Ha Hb; cbn [overheads] in *; [lia|].
    destruct (head_drop_next _ _ _ _ E) as (Eh & Hs & El).
    pose proof (level_overhead_range i s 4096 size Hs ltac:(lia) Hsz ltac:(lia)) as Hr.
    rewrite <- Eh in Hr. pose proof (overheads_range size 4096 l (S i) El ltac:(lia) Hsz ltac:(lia)).
    rewrite u64_id by (unfold is_u64; lia). rewrite (IH (S i)); [lia|done|lia|lia]. }
  rewrite (Hloop _ 0%nat) by done || lia. lia.
Qed.

(** The state of the levels from [i] on after initialisation. *)
Definition levels_fresh (addr size : Z) (i : nat) (blocks : list (Block R)) : Prop :=
  ∀ k B, blocks !! k = Some B →
    blk_wf addr (addr + size) (i + k) B ∧ (∀ x, ¬ free_in B x) ∧ block_bytes B = 0.

Lemma initialize_blocks_run addr size shifts : ∀ i blocks N,
  drop i MemoryBlockPageShifts = shifts → length blocks = length shifts →
  0 < addr → 0 < size ≤ 2 ^ 35 → addr + size < 2 ^ 60 →
  Forall (λ B, rng_wf (bm_rng (m_bitmap B))) blocks →
  overheads size shifts ≤ 8 * Z.of_nat N →
  ∃ blocks' N', initialize_blocks blocks shifts addr size (replicate N 0)
                = Done true (blocks', replicate N' 0) ∧
    (N' ≤ N)%nat ∧ length blocks' = length blocks ∧ levels_fresh addr size i blocks'.
Proof.
  induction shifts as [|s l IH]; intros i blocks N E Hlen Ha Hsz Hend Hg HN.
  - apply nil_length_inv in Hlen as ->. exists [], N. split_and!; [done|lia|done|]. intros k B. done.
  - destruct blocks as [|B blocks]; [done|]. cbn [initialize_blocks overheads] in *.
    destruct (head_drop_next _ _ _ _ E) as (Eh & Hs & El). rewrite Eh in *.
    apply Forall_cons in Hg as [Hg1 Hg2]. injection Hlen as Hlen.
    pose proof (overheads_range size addr l (S i) El Ha Hsz Hend) as Hrest.
    destruct (Block_Initialize_run i s B addr size N Hs Ha Hsz Hend Hg1)
      as (B' & N1 & -> & HN1 & Hwf); [lia|]. pstep.
    destruct (IH (S i) blocks N1 El Hlen Ha Hsz Hend Hg2) as (bs & N2 & -> & HN2 & Hl2 & Hf); [lia|].
    pstep. exists (B' :: bs), N2. split_and!; [done|lia|simpl; lia|].
    intros [|k] C HC; simpl in HC; [simplify_eq; by rewrite Nat.add_0_r|].
    rewrite <- Nat.add_succ_comm. by apply Hf.
Qed.

Lemma heap_bytes_zero (l : list (Block R)) :
  (∀ B, B ∈ l → block_bytes B = 0) → foldr (λ B acc, block_bytes B + acc) 0 l = 0.
Proof. induction l as [|B l IH]; intros Hl; simpl; [done|]. rewrite Hl, IH by set_solver. done. Qed.

#[local] Opaque AlignUp overhead_size.

(** The management memory, in words, is enough for all levels. *)
Lemma management_words size management_size :
  0 < size ≤ 2 ^ 35 → KPageHeap_CalculateManagementOverheadSize size ≤ management_size →
  let words := Z.to_nat (management_size / 8) in
  overheads size MemoryBlockPageShifts ≤ 8 * Z.of_nat words ∧ 8 * Z.of_nat words ≤ management_size.
Proof.
  intros Hsz Hms. destruct (overhead_size_eq size Hsz) as [Eo Ho].
  pose proof (overheads_range size 4096 MemoryBlockPageShifts 0 eq_refl ltac:(lia) Hsz ltac:(lia)) as [Hpos _].
  unfold KPageHeap_CalculateManagementOverheadSize in Hms. rewrite Eo, PageSize_eq in Hms.
  set (o := overheads _ _) in *. clearbody o.
  destruct (AlignUp_spec o 4096) as [Hupm Hup]; [lia..|]. set (al := AlignUp o 4096) in *. clearbody al.
  pose proof (Z.div_mod al 4096 ltac:(lia)) as Hdm.
  assert (512 * (al / 4096) ≤ management_size / 8) by (apply Z.div_le_lower_bound; lia).
  pose proof (Z.mul_div_le management_size 8 ltac:(lia)). cbv zeta. rewrite Z2Nat.id; lia.
Qed.

Lemma fresh_heap_wf addr size used blocks (g : RandomBitGenerator R) :
  0 < addr → addr mod PageSize = 0 → 0 < size ≤ 2 ^ 35 → size mod PageSize = 0 →
  addr + size < 2 ^ 60 → length blocks = 7%nat → rng_wf g → levels_fresh addr size 0 blocks →
  let h' := MkHeap addr size used NumMemoryBlockPageShifts blocks g in
  heap_wf h' ∧ (∀ x, ¬ heap_free h' x) ∧ heap_bytes h' = 0.
Proof.
  intros Ha Ham Hsz Hszm Hend Hlen Hg Hf h'.
  assert (Hno : ∀ i B x, blocks !! i = Some B → ¬ free_in B x)
    by (intros i B x HB; by apply (Hf i B HB)).
  split_and!; [|intros x (i & B & HB & Hx); by eapply Hno|].
  - split; [done|done|done|split; [simpl; lia|done]|exact Hend| | |done].
    + intros i B HB. apply (Hf i B HB).
    + intros i j B C x HB _ Hx. by destruct (Hno i B x HB).
  - apply heap_bytes_zero. intros B [i HB]%list_elem_of_lookup. by apply (Hf i B HB).
Qed.

(** What [Initialize] is called with. *)
Record init_args h (heap_address heap_size management_address management_size data : Z) : Prop := {
  ia_address : 0 < heap_address ∧ heap_address mod PageSize = 0;
  ia_size : 0 < heap_size ≤ 2 ^ 35 ∧ heap_size mod PageSize = 0;
  ia_end : heap_address + heap_size < 2 ^ 60;
  ia_length : length (m_blocks h) = 7%nat;
  ia_rng : rng_wf (heap_rng h);
  ia_rngs : Forall (λ B, rng_wf (bm_rng (m_bitmap B))) (m_blocks h);
  ia_overhead : KPageHeap_CalculateManagementOverheadSize heap_size ≤ management_size < 2 ^ 40;
  ia_data : 0 ≤ data ≤ management_address ∧ management_address + management_size < 2 ^ 64
}.

Lemma heap_Initialize_run h heap_address heap_size management_address management_size data :
  init_args h heap_address heap_size management_address management_size data →
  wp (KPageHeap_Initialize h heap_address heap_size management_address management_size data)
     (λ h', heap_wf h' ∧ (∀ x, ¬ heap_free h' x) ∧ heap_bytes h' = 0 ∧
            m_heap_address h' = heap_address ∧ m_heap_size h' = heap_size).
Proof.
  intros [[Ha Ham] [Hsz Hszm] Hend Hlen Hg Hgs [Hms Hms40] [Hdata Hmg]].
  destruct (management_words heap_size management_size Hsz Hms) as [Hw1 Hw2].
  unfold KPageHeap_Initialize. rewrite !(proj2 (IsAligned_page _)) by done.
  set (words := Z.to_nat (management_size / 8)) in *. clearbody words.
  destruct (initialize_blocks_run heap_address heap_size MemoryBlockPageShifts 0 (m_blocks h)
              words eq_refl Hlen Ha Hsz Hend Hgs Hw1) as (blocks & N' & E & HN' & Hl & Hf).
  change (ASSERT (0 <? NumMemoryBlockPageShifts)) with (Done true ()).
  change (ASSERT true) with (Done true ()). pstep. rewrite E. pstep.
  rewrite length_replicate.
  rewrite (u64_id (data + _)), (u64_id (management_address + _)) by (unfold is_u64; lia).
  rewrite (proj2 (Z.leb_le _ _)) by lia. change (ASSERT true) with (Done true ()). pstep.
  destruct (fresh_heap_wf heap_address heap_size (m_initial_used_size h) blocks (heap_rng h))
    as (W & F & B); [done..|congruence|done|done|]. by split_and!.
Qed.

(** a heap initialised with at least the management memory that
    [CalculateManagementOverheadSize] asks for is well-formed, has no free page,
    and every level covers the whole region: no assertion fails and no bitmap
    runs over the management memory, however the region is aligned. *)
Theorem KPageHeap_Initialize_correct h heap_address heap_size management_address
    management_size data :
  init_args h heap_address heap_size management_address management_size data →
  wp (KPageHeap_Initialize h heap_address heap_size management_address management_size data)
     (λ h', heap_wf h' ∧ (∀ x, ¬ heap_free h' x) ∧ heap_bytes h' = 0 ∧
            m_heap_address h' = heap_address ∧ m_heap_size h' = heap_size).
Proof. apply heap_Initialize_run. Qed.

(** ** Counting free pages *)
Lemma Block_pages h i B :
  heap_wf h → m_blocks h !! i = Some B →
  Block_GetNumFreePages B * PageSize = block_bytes B ∧ 0 ≤ Block_GetNumFreePages B ≤ 2 ^ 24.
Proof.
  intros Hw HB. pose proof (hw_blocks h Hw i B HB) as Hb. pose proof (hw_size h Hw) as [Hs _].
  assert (Hby : 0 ≤ block_bytes B ≤ heap_end h - m_heap_address h)
    by (eapply block_bytes_bound; [unfold heap_end; lia|done]).
  unfold heap_end in Hby. unfold Block_GetNumFreePages, Block_GetNumFreeBlocks, Block_GetNumPages.
  rewrite (GetSize_sz _ _ _ _ Hb). destruct (shift_cases _ _ (bk_shift _ _ _ _ Hb)) as (_ & Hs12 & _).
  unfold block_bytes, sz in *. rewrite PageSize_eq. set (n := m_num_bits (m_bitmap B)) in *.
  rewrite (pow2_split 12 (m_block_shift B)) in * by lia. change 4096 with (2 ^ 12).
  rewrite Z.div_mul by lia. pose proof (pow2_pos (m_block_shift B - 12) ltac:(lia)).
  set (q := 2 ^ (m_block_shift B - 12)) in *. clearbody q n. change (2 ^ 12) with 4096 in *.
  assert (0 ≤ n * q ≤ 2 ^ 24) by nia. rewrite u64_id by (unfold is_u64; lia). lia.
Qed.

Lemma pages_fold h l : ∀ acc n,
  heap_wf h → (∀ B, B ∈ l → ∃ i, m_blocks h !! i = Some B) →
  (length l ≤ n)%nat → (n ≤ 7)%nat → 0 ≤ acc ≤ Z.of_nat (7 - n) * 2 ^ 24 →
  let r := foldl (λ num_free B, u64 (num_free + Block_GetNumFreePages B)) acc l in
  r * PageSize = acc * PageSize + foldr (λ B acc, block_bytes B + acc) 0 l ∧ 0 ≤ r ≤ 7 * 2 ^ 24.
Proof.
  induction l as [|B l IH]; intros acc n Hw Hl Hn Hn7 Ha; simpl; [lia|].
  destruct n as [|n]; [simpl in Hn; lia|]. destruct (Hl B) as [i HB]; [left|].
  destruct (Block_pages h i B Hw HB) as [Ep Hp]. rewrite u64_id by (unfold is_u64; lia).
  destruct (IH (acc + Block_GetNumFreePages B) n Hw) as [E Hr]; [|simpl in Hn; lia|lia|lia|].
  - intros C HC. apply Hl. by right.
  - rewrite E. split; [lia|done].
Qed.

(** The number of free pages the heap reports is the number of pages in
    its free blocks, and the free size is their size in bytes; neither overflows. *)
Theorem KPageHeap_GetNumFreePages_correct h :
  heap_wf h →
  KPageHeap_GetNumFreePages h * PageSize = heap_bytes h ∧ KPageHeap_GetFreeSize h = heap_bytes h.
Proof.
  intros Hw. unfold KPageHeap_GetFreeSize, KPageHeap_GetNumFreePages.
  rewrite (hw_num h Hw), take_ge by (rewrite (hw_length h Hw); done).
  destruct (pages_fold h (m_blocks h) 0 7 Hw) as [E Hr]; [|by rewrite (hw_length h Hw)|lia|lia|].
  - intros B [i HB]%list_elem_of_lookup. by exists i.
  - fold (heap_bytes h) in E. rewrite Z.mul_0_l, Z.add_0_l in E. rewrite E.
    split; [done|]. apply u64_id. rewrite <- E, PageSize_eq. unfold is_u64. lia.
Qed.
End Heap.
