(* ===== verification/PageHeapExamples.v ===== *)
(** * KPageBitmap and KPageHeap on concrete memory

    A bitmap of 200 blocks and a heap of 16 pages, built by their own
    [Initialize], and the theorems of the page heap at these inputs. *)

From stdpp Require Import gmap.
From S2P Require Import Prelude Common PageBitmap PageBitmapLemmas PageBitmapTheorems PageHeap PageHeapLemmas PageHeapTheorems PageHeapInitialize.

(** ** A bitmap *)
Definition ex_rng : RandomBitGenerator Z := MkRandom 0xDEADBEEF 0 0.
Definition ex_raw : KPageBitmap Z := MkBitmap [] ex_rng 0 0.

Lemma ex_rng_wf : rng_wf ex_rng.
Proof. done. Qed.

Definition ex_bitmap : KPageBitmap Z :=
  (result (ex_raw, []) (KPageBitmap_Initialize ex_raw (replicate 5 0) 200)).1.
(** The blocks 3 to 6 are freed. *)
Definition free_four (b : KPageBitmap Z) : prog (KPageBitmap Z) :=
  b ← KPageBitmap_SetBit b 3; b ← KPageBitmap_SetBit b 4;
  b ← KPageBitmap_SetBit b 5; KPageBitmap_SetBit b 6.
Definition ex_bitmap4 : KPageBitmap Z := result ex_raw (free_four ex_bitmap).

Lemma KPageBitmap_Initialize_correct_witness :
  wp (KPageBitmap_Initialize ex_raw (replicate 5 0) 200) (λ '(b', rest),
    bitmap_wf b' ∧ free_blocks b' = ∅ ∧ 200 ≤ num_blocks b' < 200 + 64 ∧
    8 * Z.of_nat (length rest) + KPageBitmap_CalculateManagementOverheadSize 200 = 8 * 5).
Proof.
  apply (KPageBitmap_Initialize_correct ex_raw 200 5);
    [lia|apply ex_rng_wf|vm_compute; congruence].
Defined.

Lemma ex_bitmap_wf : bitmap_wf ex_bitmap ∧ free_blocks ex_bitmap = ∅.
Proof.
  destruct (bitmap_Initialize_run ex_raw 200 5) as (b & N & E & _ & ? & ? & _);
    [lia|apply ex_rng_wf|vm_compute; congruence|].
  unfold ex_bitmap. by rewrite E.
Qed.

Lemma free_four_run b :
  bitmap_wf b → free_blocks b = ∅ → 6 < num_blocks b →
  ∃ b', free_four b = Done true b' ∧ bitmap_wf b' ∧ free_blocks b' = {[3; 4; 5; 6]}.
Proof.
  intros W0 F0 N0. unfold free_four.
  destruct (SetBit_run b 3 W0) as (b1 & -> & W1 & N1 & F1); [lia|rewrite F0; set_solver|]. pstep.
  destruct (SetBit_run b1 4 W1) as (b2 & -> & W2 & N2 & F2);
    [lia|rewrite F1, F0; set_solver by lia|]. pstep.
  destruct (SetBit_run b2 5 W2) as (b3 & -> & W3 & N3 & F3);
    [lia|rewrite F2, F1, F0; set_solver by lia|]. pstep.
  destruct (SetBit_run b3 6 W3) as (b4 & -> & W4 & N4 & F4);
    [lia|rewrite F3, F2, F1, F0; set_solver by lia|].
  exists b4. split_and!; [done|done|]. rewrite F4, F3, F2, F1, F0. set_solver.
Qed.

Lemma ex_bitmap4_wf : bitmap_wf ex_bitmap4 ∧ free_blocks ex_bitmap4 = {[3; 4; 5; 6]}.
Proof.
  destruct ex_bitmap_wf as [W0 F0].
  destruct (free_four_run ex_bitmap W0 F0) as (b & E & W); [vm_compute; reflexivity|].
  unfold ex_bitmap4. by rewrite E.
Qed.

Lemma KPageBitmap_ClearRange_correct_witness :
  wp (KPageBitmap_ClearRange ex_bitmap4 3 4) (cleared ex_bitmap4 3 4).
Proof.
  apply KPageBitmap_ClearRange_correct; [apply ex_bitmap4_wf|].
  split_and!; [lia|lia|vm_compute; congruence|vm_compute; congruence].
Defined.

Lemma KPageBitmap_SetBit_ClearBit_correct_witness :
  (130 ∉ free_blocks ex_bitmap4 →
     wp (KPageBitmap_SetBit ex_bitmap4 130) (λ b',
       bitmap_wf b' ∧ free_blocks b' = {[130]} ∪ free_blocks ex_bitmap4)) ∧
  (130 ∈ free_blocks ex_bitmap4 →
     wp (KPageBitmap_ClearBit ex_bitmap4 130) (λ b',
       bitmap_wf b' ∧ free_blocks b' = free_blocks ex_bitmap4 ∖ {[130]})).
Proof.
  apply KPageBitmap_SetBit_ClearBit_correct; [apply ex_bitmap4_wf|].
  split; [lia|vm_compute; congruence].
Defined.

Lemma KPageBitmap_FindFreeBlock_correct_witness :
  wp (KPageBitmap_FindFreeBlock ex_bitmap4 true) (λ '(r, b'),
    bitmap_wf b' ∧ m_bit_storages b' = m_bit_storages ex_bitmap4 ∧
    (if decide (free_blocks ex_bitmap4 = ∅) then r = -1
     else r ∈ free_blocks ex_bitmap4 ∧
          (true = false → ∀ j, j ∈ free_blocks ex_bitmap4 → r ≤ j))).
Proof. apply KPageBitmap_FindFreeBlock_correct. apply ex_bitmap4_wf. Defined.

Lemma KPageBitmap_FindFreeRange_correct_witness :
  wp (KPageBitmap_FindFreeRange ex_bitmap4 2) (λ '(r, b'),
    bitmap_wf b' ∧ m_bit_storages b' = m_bit_storages ex_bitmap4 ∧
    ((r = -1 ∧ ∀ w o, is_option ex_bitmap4 2 w o →
        ¬ range (option_offset 2 w o) 2 ⊆ free_blocks ex_bitmap4) ∨
     (0 ≤ r ∧ r mod 64 + 2 ≤ 64 ∧ range r 2 ⊆ free_blocks ex_bitmap4))).
Proof.
  apply KPageBitmap_FindFreeRange_correct; [apply ex_bitmap4_wf|lia|vm_compute; congruence].
Defined.

(** The code on these bitmaps, evaluated. *)
Example ex_bitmap4_find_range :
  (result (0, ex_raw) (KPageBitmap_FindFreeRange ex_bitmap4 2)).1 = 4.
Proof. vm_compute. reflexivity. Qed.
Example ex_bitmap4_find_lowest :
  (result (0, ex_raw) (KPageBitmap_FindFreeBlock ex_bitmap4 false)).1 = 3.
Proof. vm_compute. reflexivity. Qed.

(** ** A heap *)
Definition ex_heap_raw : KPageHeap Z :=
  MkHeap 0 0 0 0 (replicate 7 (MkHeapBlock ex_raw 0 0 0 0)) ex_rng.
Definition ex_heap_address : Z := 0x80003000.
Definition ex_heap_size : Z := 0x24000.

Lemma ex_init_args :
  init_args ex_heap_raw ex_heap_address ex_heap_size 0x80100000 0x1000 0x80100000.
Proof.
  split; [split; reflexivity|split; [split; vm_compute; congruence|reflexivity]|reflexivity
         |reflexivity|apply ex_rng_wf|repeat (constructor; [apply ex_rng_wf|]); constructor
         |split; vm_compute; congruence|split; [split; vm_compute; congruence|reflexivity]].
Qed.

Lemma KPageHeap_Initialize_correct_witness :
  wp (KPageHeap_Initialize ex_heap_raw ex_heap_address ex_heap_size 0x80100000 0x1000 0x80100000)
     (λ h', heap_wf h' ∧ (∀ x, ¬ heap_free h' x) ∧ heap_bytes h' = 0 ∧
            m_heap_address h' = ex_heap_address ∧ m_heap_size h' = ex_heap_size).
Proof. apply KPageHeap_Initialize_correct, ex_init_args. Defined.

(** The heap of 36 pages, none of them free, and with all of them freed. *)
Definition ex_heap_used : KPageHeap Z :=
  result ex_heap_raw
    (KPageHeap_Initialize ex_heap_raw ex_heap_address ex_heap_size 0x80100000 0x1000 0x80100000).
Definition ex_heap_freed : KPageHeap Z :=
  result ex_heap_raw (KPageHeap_Free ex_heap_used ex_heap_address 36).

Lemma ex_heap_used_wf :
  heap_wf ex_heap_used ∧
  in_use ex_heap_used ex_heap_address (ex_heap_address + 36 * PageSize).
Proof.
  pose proof (heap_Initialize_run _ _ _ _ _ _ ex_init_args) as Hw.
  apply (wp_result ex_heap_raw) in Hw. fold ex_heap_used in Hw.
  revert Hw. generalize ex_heap_used as h. intros h (W & F & _ & E1 & E2). split; [done|].
  unfold in_use, heap_end. rewrite E1, E2. split_and!; [lia|vm_compute; congruence|].
  intros x _. apply F.
Qed.

Lemma ex_heap_freed_wf : heap_wf ex_heap_freed.
Proof.
  destruct ex_heap_used_wf as [W U]. unfold ex_heap_freed.
  destruct (Free_run ex_heap_used ex_heap_address 36 W ltac:(lia) ltac:(reflexivity) U)
    as (h & E & F). rewrite E. apply F.
Qed.

Lemma KPageHeap_Free_correct_witness :
  wp (KPageHeap_Free ex_heap_used ex_heap_address 36)
     (freed ex_heap_used ex_heap_address (ex_heap_address + 36 * PageSize)).
Proof.
  destruct ex_heap_used_wf as [W U].
  apply KPageHeap_Free_correct; [exact W|lia|reflexivity|exact U].
Defined.

Lemma AllocateByLinearSearch_correct_witness :
  wp (KPageHeap_AllocateBlock ex_heap_freed 1 false) (λ '(a, h'),
    (a = 0 ↔ ∀ j, (1 ≤ j)%nat → level_empty ex_heap_freed j) ∧
    if decide (a = 0) then freed ex_heap_freed 0 0 h'
    else a mod 2 ^ 16 = 0 ∧ taken ex_heap_freed a (a + 2 ^ 16) h' ∧ ∃ j, in_first_level ex_heap_freed 1 j a).
Proof. apply AllocateByLinearSearch_correct; [apply ex_heap_freed_wf|reflexivity]. Defined.

Lemma AllocateByRandom_correct_witness :
  wp (KPageHeap_AllocateAligned ex_heap_freed 1 3 2) (λ '(a, h'),
    (a = 0 ∧ freed ex_heap_freed 0 0 h' ∧ ∀ j, (1 ≤ j)%nat → level_empty ex_heap_freed j) ∨
    (a ≠ 0 ∧ a mod 2 ^ countr_zero (2 * PageSize) = 0 ∧
     taken ex_heap_freed a (a + 3 * PageSize) h')).
Proof.
  apply (AllocateByRandom_correct ex_heap_freed 1 16); [apply ex_heap_freed_wf|reflexivity|].
  unfold random_args. rewrite PageSize_eq. lia.
Defined.

Lemma KPageHeap_GetNumFreePages_correct_witness :
  KPageHeap_GetNumFreePages ex_heap_freed * PageSize = heap_bytes ex_heap_freed ∧
  KPageHeap_GetFreeSize ex_heap_freed = heap_bytes ex_heap_freed.
Proof. apply KPageHeap_GetNumFreePages_correct, ex_heap_freed_wf. Defined.

(** The heap evaluated: the one aligned block of 64 KiB is coalesced, and is
    handed out. *)
Example ex_heap_freed_pages : KPageHeap_GetNumFreePages ex_heap_freed = 36.
Proof. vm_compute. reflexivity. Qed.
Example ex_heap_levels :
  map Block_GetNumFreeBlocks (m_blocks ex_heap_freed) = [20; 1; 0; 0; 0; 0; 0].
Proof. vm_compute. reflexivity. Qed.
Example ex_heap_allocate :
  (result (0, ex_heap_raw) (KPageHeap_AllocateBlock ex_heap_freed 1 false)).1 = 0x80010000.
Proof. vm_compute. reflexivity. Qed.
