(* ===== verification/MemoryRegionType.v ===== *)
(** * The types of memory regions
    (src/src/core/hle/kernel/k_memory_region_type.h and the two lists of device
    types it includes)

    A type is a set of bits; a type derived from another one has all of its bits
    and some more, so that [(type | base) == type] asks whether [type] derives
    from [base].  The values that the source asserts at compile time are proved
    at the end. *)

From S2P Require Import Prelude Common.

Definition KMemoryRegionAttr_CarveoutProtected : Z := 0x02000000.
Definition KMemoryRegionAttr_Uncached : Z := 0x04000000.
Definition KMemoryRegionAttr_DidKernelMap : Z := 0x08000000.
Definition KMemoryRegionAttr_ShouldKernelMap : Z := 0x10000000.
Definition KMemoryRegionAttr_UserReadOnly : Z := 0x20000000.
Definition KMemoryRegionAttr_NoUserMap : Z := 0x40000000.
Definition KMemoryRegionAttr_LinearMapped : Z := 0x80000000.

(** ** Deriving types *)
Definition BitsForDeriveSparse (n : Z) : Z := u64 (n + 1).

(** [k] turns of the loop that counts through the pairs [low < high]. *)
Fixpoint derive_pair (k : nat) (low high : Z) : Z * Z :=
  match k with
  | O => (low, high)
  | S k =>
      let low := u64 (low + 1) in
      if low =? high then derive_pair k 0 (u64 (high + 1)) else derive_pair k low high
  end.

Definition BitsForDeriveDense (n : Z) : Z :=
  u64 ((derive_pair (Z.to_nat (n - 1)) 0 1).2 + 1).

Record KMemoryRegionTypeValue : Type := MkTypeValue {
  tv_value : Z;
  tv_next_bit : Z;
  tv_finalized : bool;
  tv_sparse_only : bool;
  tv_dense_only : bool
}.

Definition tv_set (value next_bit : Z) (t : KMemoryRegionTypeValue) : KMemoryRegionTypeValue :=
  MkTypeValue value next_bit (tv_finalized t) (tv_sparse_only t) (tv_dense_only t).

Definition GetValue (t : KMemoryRegionTypeValue) : Z := tv_value t.

Definition TypeValue_Finalize (t : KMemoryRegionTypeValue) : KMemoryRegionTypeValue :=
  MkTypeValue (tv_value t) (tv_next_bit t) true (tv_sparse_only t) (tv_dense_only t).

Definition SetSparseOnly (t : KMemoryRegionTypeValue) : KMemoryRegionTypeValue :=
  MkTypeValue (tv_value t) (tv_next_bit t) (tv_finalized t) true (tv_dense_only t).

Definition SetDenseOnly (t : KMemoryRegionTypeValue) : KMemoryRegionTypeValue :=
  MkTypeValue (tv_value t) (tv_next_bit t) (tv_finalized t) (tv_sparse_only t) true.

Definition SetAttribute (attr : Z) (t : KMemoryRegionTypeValue) : KMemoryRegionTypeValue :=
  tv_set (Z.lor (tv_value t) attr) (tv_next_bit t) t.

Definition bit32 (i : Z) : Z := u32 (Z.shiftl 1 i).

Definition DeriveInitial (i next : Z) (t : KMemoryRegionTypeValue) : KMemoryRegionTypeValue :=
  tv_set (bit32 i) next t.

Definition DeriveAttribute (attr : Z) (t : KMemoryRegionTypeValue) : KMemoryRegionTypeValue :=
  tv_set (Z.lor (tv_value t) attr) (tv_next_bit t) t.

Definition DeriveTransition (ofs adv : Z) (t : KMemoryRegionTypeValue)
    : KMemoryRegionTypeValue :=
  tv_set (Z.lor (tv_value t) (bit32 (tv_next_bit t + ofs))) (u64 (tv_next_bit t + adv)) t.

Definition DeriveSparse (ofs n i : Z) (t : KMemoryRegionTypeValue) : KMemoryRegionTypeValue :=
  tv_set (Z.lor (Z.lor (tv_value t) (bit32 (tv_next_bit t + ofs)))
            (bit32 (tv_next_bit t + ofs + 1 + i)))
    (u64 (tv_next_bit t + (ofs + n + 1))) t.

Definition Derive (n i : Z) (t : KMemoryRegionTypeValue) : KMemoryRegionTypeValue :=
  let '(low, high) := derive_pair (Z.to_nat i) 0 1 in
  tv_set (Z.lor (Z.lor (tv_value t) (bit32 (tv_next_bit t + low)))
            (bit32 (tv_next_bit t + high)))
    (u64 (tv_next_bit t + BitsForDeriveDense n)) t.

Definition Advance (n : Z) (t : KMemoryRegionTypeValue) : KMemoryRegionTypeValue :=
  tv_set (tv_value t) (u64 (tv_next_bit t + n)) t.

Definition IsAncestorOf (t : KMemoryRegionTypeValue) (v : Z) : bool :=
  Z.lor (tv_value t) v =? v.

(** ** The types *)
Definition KMemoryRegionType_None : KMemoryRegionTypeValue := MkTypeValue 0 0 false false false.
Definition KMemoryRegionType_Kernel := DeriveInitial 0 2 KMemoryRegionType_None.
Definition KMemoryRegionType_Dram := DeriveInitial 1 2 KMemoryRegionType_None.

Definition KMemoryRegionType_DramKernelBase :=
  SetAttribute KMemoryRegionAttr_CarveoutProtected
    (SetAttribute KMemoryRegionAttr_NoUserMap (DeriveSparse 0 3 0 KMemoryRegionType_Dram)).
Definition KMemoryRegionType_DramReservedBase := DeriveSparse 0 3 1 KMemoryRegionType_Dram.
Definition KMemoryRegionType_DramHeapBase :=
  SetAttribute KMemoryRegionAttr_LinearMapped (DeriveSparse 0 3 2 KMemoryRegionType_Dram).

Definition KMemoryRegionType_DramKernelCode :=
  DeriveSparse 0 4 0 KMemoryRegionType_DramKernelBase.
Definition KMemoryRegionType_DramKernelSlab :=
  DeriveSparse 0 4 1 KMemoryRegionType_DramKernelBase.
Definition KMemoryRegionType_DramKernelPtHeap :=
  SetAttribute KMemoryRegionAttr_LinearMapped
    (DeriveSparse 0 4 2 KMemoryRegionType_DramKernelBase).
Definition KMemoryRegionType_DramKernelInitPt :=
  SetAttribute KMemoryRegionAttr_LinearMapped
    (DeriveSparse 0 4 3 KMemoryRegionType_DramKernelBase).

Definition KMemoryRegionType_DramKernelSecureAppletMemory :=
  SetAttribute KMemoryRegionAttr_LinearMapped
    (DeriveSparse 1 3 0 KMemoryRegionType_DramKernelBase).
Definition KMemoryRegionType_DramKernelSecureUnknown :=
  SetAttribute KMemoryRegionAttr_LinearMapped
    (DeriveSparse 1 3 1 KMemoryRegionType_DramKernelBase).

Definition KMemoryRegionType_DramReservedEarly :=
  DeriveAttribute KMemoryRegionAttr_NoUserMap KMemoryRegionType_DramReservedBase.

Definition KMemoryRegionType_KernelTraceBuffer :=
  SetAttribute KMemoryRegionAttr_UserReadOnly
    (SetAttribute KMemoryRegionAttr_LinearMapped
       (DeriveSparse 0 3 0 KMemoryRegionType_DramReservedBase)).
Definition KMemoryRegionType_OnMemoryBootImage :=
  DeriveSparse 0 3 1 KMemoryRegionType_DramReservedBase.
Definition KMemoryRegionType_DTB := DeriveSparse 0 3 2 KMemoryRegionType_DramReservedBase.

Definition KMemoryRegionType_DramPoolPartition :=
  DeriveAttribute KMemoryRegionAttr_NoUserMap KMemoryRegionType_DramHeapBase.
Definition KMemoryRegionType_DramPoolManagement :=
  SetAttribute KMemoryRegionAttr_CarveoutProtected
    (Derive 4 0 KMemoryRegionType_DramPoolPartition).
Definition KMemoryRegionType_DramUserPool := Derive 4 3 KMemoryRegionType_DramPoolPartition.

Definition KMemoryRegionType_DramApplicationPool := Derive 4 0 KMemoryRegionType_DramUserPool.
Definition KMemoryRegionType_DramAppletPool := Derive 4 1 KMemoryRegionType_DramUserPool.
Definition KMemoryRegionType_DramSystemNonSecurePool := Derive 4 2 KMemoryRegionType_DramUserPool.
Definition KMemoryRegionType_DramSystemPool :=
  SetAttribute KMemoryRegionAttr_CarveoutProtected (Derive 4 3 KMemoryRegionType_DramUserPool).

Definition KMemoryRegionType_VirtualDramHeapBase := DeriveSparse 1 4 0 KMemoryRegionType_Dram.
Definition KMemoryRegionType_VirtualDramKernelPtHeap := DeriveSparse 1 4 1 KMemoryRegionType_Dram.
Definition KMemoryRegionType_VirtualDramKernelTraceBuffer :=
  DeriveSparse 1 4 2 KMemoryRegionType_Dram.

Definition KMemoryRegionType_VirtualDramUnknownDebug :=
  Derive 4 0 (Advance 2 KMemoryRegionType_Dram).
Definition KMemoryRegionType_VirtualDramKernelSecureAppletMemory :=
  Derive 4 1 (Advance 2 KMemoryRegionType_Dram).
Definition KMemoryRegionType_VirtualDramKernelSecureUnknown :=
  Derive 4 3 (Advance 2 KMemoryRegionType_Dram).

Definition KMemoryRegionType_VirtualDramKernelInitPt :=
  Derive 4 0 KMemoryRegionType_VirtualDramHeapBase.
Definition KMemoryRegionType_VirtualDramPoolManagement :=
  Derive 4 1 KMemoryRegionType_VirtualDramHeapBase.
Definition KMemoryRegionType_VirtualDramUserPool :=
  Derive 4 2 KMemoryRegionType_VirtualDramHeapBase.

Definition KMemoryRegionType_VirtualDramApplicationPool :=
  Derive 4 0 KMemoryRegionType_VirtualDramUserPool.
Definition KMemoryRegionType_VirtualDramAppletPool :=
  Derive 4 1 KMemoryRegionType_VirtualDramUserPool.
Definition KMemoryRegionType_VirtualDramSystemNonSecurePool :=
  Derive 4 2 KMemoryRegionType_VirtualDramUserPool.
Definition KMemoryRegionType_VirtualDramSystemPool :=
  Derive 4 3 KMemoryRegionType_VirtualDramUserPool.

Definition KMemoryRegionType_ArchDeviceBase :=
  SetSparseOnly (DeriveTransition 0 1 KMemoryRegionType_Kernel).
Definition KMemoryRegionType_BoardDeviceBase :=
  SetDenseOnly (DeriveTransition 0 2 KMemoryRegionType_Kernel).

(** arch/arm64/k_memory_region_device_types.inc *)
Definition NumArchitectureDeviceRegions : Z := 3.
Definition KMemoryRegionType_Uart :=
  DeriveSparse 0 NumArchitectureDeviceRegions 0 KMemoryRegionType_ArchDeviceBase.
Definition KMemoryRegionType_InterruptCpuInterface :=
  SetAttribute KMemoryRegionAttr_NoUserMap
    (DeriveSparse 0 NumArchitectureDeviceRegions 1 KMemoryRegionType_ArchDeviceBase).
Definition KMemoryRegionType_InterruptDistributor :=
  SetAttribute KMemoryRegionAttr_NoUserMap
    (DeriveSparse 0 NumArchitectureDeviceRegions 2 KMemoryRegionType_ArchDeviceBase).

(** board/nintendo/nx/k_memory_region_device_types.inc *)
Definition NumBoardDeviceRegions : Z := 6.
Definition KMemoryRegionType_MemoryController :=
  SetAttribute KMemoryRegionAttr_NoUserMap
    (Derive NumBoardDeviceRegions 1 KMemoryRegionType_BoardDeviceBase).
Definition KMemoryRegionType_MemoryController1 :=
  SetAttribute KMemoryRegionAttr_NoUserMap
    (Derive NumBoardDeviceRegions 2 KMemoryRegionType_BoardDeviceBase).
Definition KMemoryRegionType_MemoryController0 :=
  SetAttribute KMemoryRegionAttr_NoUserMap
    (Derive NumBoardDeviceRegions 3 KMemoryRegionType_BoardDeviceBase).
Definition KMemoryRegionType_PowerManagementController :=
  DeriveTransition 0 1 (Derive NumBoardDeviceRegions 4 KMemoryRegionType_BoardDeviceBase).
Definition KMemoryRegionType_LegacyLpsDevices :=
  Derive NumBoardDeviceRegions 5 KMemoryRegionType_BoardDeviceBase.
Definition NumLegacyLpsDevices : Z := 7.
Definition KMemoryRegionType_LegacyLpsIram :=
  Derive NumLegacyLpsDevices 1 KMemoryRegionType_LegacyLpsDevices.

Definition KMemoryRegionType_KernelCode := DeriveSparse 1 4 0 KMemoryRegionType_Kernel.
Definition KMemoryRegionType_KernelStack := DeriveSparse 1 4 1 KMemoryRegionType_Kernel.
Definition KMemoryRegionType_KernelMisc := DeriveSparse 1 4 2 KMemoryRegionType_Kernel.
Definition KMemoryRegionType_KernelSlab := DeriveSparse 1 4 3 KMemoryRegionType_Kernel.

Definition KMemoryRegionType_KernelMiscDerivedBase :=
  DeriveTransition 0 1 KMemoryRegionType_KernelMisc.
Definition KMemoryRegionType_KernelMiscMainStack :=
  Derive 7 1 KMemoryRegionType_KernelMiscDerivedBase.
Definition KMemoryRegionType_KernelMiscMappedDevice :=
  Derive 7 2 KMemoryRegionType_KernelMiscDerivedBase.
Definition KMemoryRegionType_KernelMiscExceptionStack :=
  Derive 7 3 KMemoryRegionType_KernelMiscDerivedBase.
Definition KMemoryRegionType_KernelMiscUnknownDebug :=
  Derive 7 4 KMemoryRegionType_KernelMiscDerivedBase.
Definition KMemoryRegionType_KernelMiscIdleStack :=
  Derive 7 6 KMemoryRegionType_KernelMiscDerivedBase.

Definition KMemoryRegionType_KernelTemp := Derive 2 0 (Advance 2 KMemoryRegionType_Kernel).

Definition GetTypeForVirtualLinearMapping (type_id : Z) : Z :=
  if IsAncestorOf KMemoryRegionType_DramKernelPtHeap type_id then
    GetValue KMemoryRegionType_VirtualDramKernelPtHeap
  else if IsAncestorOf KMemoryRegionType_DramKernelSecureAppletMemory type_id then
    GetValue KMemoryRegionType_VirtualDramKernelSecureAppletMemory
  else if IsAncestorOf KMemoryRegionType_DramKernelSecureUnknown type_id then
    GetValue KMemoryRegionType_VirtualDramKernelSecureUnknown
  else if IsAncestorOf KMemoryRegionType_KernelTraceBuffer type_id then
    GetValue KMemoryRegionType_VirtualDramKernelTraceBuffer
  else if Z.lor type_id KMemoryRegionAttr_ShouldKernelMap =? type_id then
    GetValue KMemoryRegionType_VirtualDramUnknownDebug
  else GetValue KMemoryRegionType_Dram.

(** ** The assertions of the header, evaluated *)
Example static_asserts :
  map GetValue
    [KMemoryRegionType_Kernel; KMemoryRegionType_Dram; KMemoryRegionType_DramKernelBase;
     KMemoryRegionType_DramReservedBase; KMemoryRegionType_DramHeapBase;
     KMemoryRegionType_DramKernelCode; KMemoryRegionType_DramKernelSlab;
     KMemoryRegionType_DramKernelPtHeap; KMemoryRegionType_DramKernelInitPt;
     KMemoryRegionType_DramKernelSecureAppletMemory; KMemoryRegionType_DramKernelSecureUnknown;
     KMemoryRegionType_DramReservedEarly; KMemoryRegionType_KernelTraceBuffer;
     KMemoryRegionType_OnMemoryBootImage; KMemoryRegionType_DTB;
     KMemoryRegionType_DramPoolPartition; KMemoryRegionType_DramPoolManagement;
     KMemoryRegionType_DramUserPool; KMemoryRegionType_DramApplicationPool;
     KMemoryRegionType_DramAppletPool; KMemoryRegionType_DramSystemNonSecurePool;
     KMemoryRegionType_DramSystemPool]
  = [0x1; 0x2; Z.lor 0xE 0x42000000; 0x16; Z.lor 0x26 0x80000000; Z.lor 0xCE 0x42000000;
     Z.lor 0x14E 0x42000000; Z.lor 0x24E 0xC2000000; Z.lor 0x44E 0xC2000000;
     Z.lor 0x18E 0xC2000000; Z.lor 0x28E 0xC2000000; Z.lor 0x16 0x40000000;
     Z.lor 0xD6 0xA0000000; 0x156; 0x256; Z.lor 0x26 0xC0000000; Z.lor 0xE6 0xC2000000;
     Z.lor 0x266 0xC0000000; Z.lor 0xE66 0xC0000000; Z.lor 0x1666 0xC0000000;
     Z.lor 0x1A66 0xC0000000; Z.lor 0x2666 0xC2000000].
Proof. vm_compute. reflexivity. Qed.

Example static_asserts_virtual :
  map GetValue
    [KMemoryRegionType_VirtualDramHeapBase; KMemoryRegionType_VirtualDramKernelPtHeap;
     KMemoryRegionType_VirtualDramKernelTraceBuffer; KMemoryRegionType_VirtualDramUnknownDebug;
     KMemoryRegionType_VirtualDramKernelSecureAppletMemory;
     KMemoryRegionType_VirtualDramKernelSecureUnknown; KMemoryRegionType_VirtualDramKernelInitPt;
     KMemoryRegionType_VirtualDramPoolManagement; KMemoryRegionType_VirtualDramUserPool;
     KMemoryRegionType_VirtualDramApplicationPool; KMemoryRegionType_VirtualDramAppletPool;
     KMemoryRegionType_VirtualDramSystemNonSecurePool; KMemoryRegionType_VirtualDramSystemPool;
     KMemoryRegionType_ArchDeviceBase; KMemoryRegionType_BoardDeviceBase;
     KMemoryRegionType_Uart; KMemoryRegionType_InterruptCpuInterface;
     KMemoryRegionType_InterruptDistributor; KMemoryRegionType_MemoryController;
     KMemoryRegionType_MemoryController1; KMemoryRegionType_MemoryController0;
     KMemoryRegionType_PowerManagementController; KMemoryRegionType_LegacyLpsDevices;
     KMemoryRegionType_LegacyLpsIram; KMemoryRegionType_KernelCode; KMemoryRegionType_KernelStack;
     KMemoryRegionType_KernelMisc; KMemoryRegionType_KernelSlab;
     KMemoryRegionType_KernelMiscDerivedBase; KMemoryRegionType_KernelMiscMainStack;
     KMemoryRegionType_KernelMiscMappedDevice; KMemoryRegionType_KernelMiscExceptionStack;
     KMemoryRegionType_KernelMiscUnknownDebug; KMemoryRegionType_KernelMiscIdleStack;
     KMemoryRegionType_KernelTemp]
  = [0x1A; 0x2A; 0x4A; 0x32; 0x52; 0x92; 0x31A; 0x51A; 0x61A; 0x361A; 0x561A; 0x661A; 0x961A;
     0x5; 0x5; 0x1D; Z.lor 0x2D 0x40000000; Z.lor 0x4D 0x40000000; Z.lor 0x55 0x40000000;
     Z.lor 0x65 0x40000000; Z.lor 0x95 0x40000000; 0x1A5; 0xC5; 0x5C5; 0x19; 0x29; 0x49; 0x89;
     0x149; 0xB49; 0xD49; 0x1349; 0x1549; 0x2349; 0x31].
Proof. vm_compute. reflexivity. Qed.
