(* ===== verification/MemoryRegion.v ===== *)
(** * Memory regions and the memory layout
    (src/src/core/hle/kernel/k_memory_region.h, k_memory_layout.h,
    k_memory_layout.cpp)

    A tree of regions is the list of its regions in the order of their
    addresses ([OrderedTree]); the regions come from one array of 200, which all
    four trees of the layout share, and never go back to it. *)

From S2P Require Import Prelude Common OrderedTree MemoryRegionType.

Definition u64_max : Z := 2 ^ 64 - 1.

(** ** KMemoryRegion *)
Record KMemoryRegion : Type := MkRegion {
  mr_address : Z;
  mr_last_address : Z;
  mr_pair_address : Z;
  mr_attributes : Z;
  mr_type_id : Z
}.

(** The constructor without a pair address. *)
Definition region (address last_address attributes type_id : Z) : KMemoryRegion :=
  MkRegion address last_address u64_max attributes type_id.

Definition KMemoryRegion_Compare (lhs rhs : KMemoryRegion) : Z :=
  if mr_address lhs <? mr_address rhs then -1
  else if mr_address lhs <=? mr_last_address rhs then 0
  else 1.

Definition KMemoryRegion_GetEndAddress (r : KMemoryRegion) : Z := u64 (mr_last_address r + 1).
Definition KMemoryRegion_GetSize (r : KMemoryRegion) : Z :=
  u64 (KMemoryRegion_GetEndAddress r - mr_address r).
Definition KMemoryRegion_IsDerivedFrom (r : KMemoryRegion) (type : Z) : bool :=
  Z.lor (mr_type_id r) type =? mr_type_id r.
Definition KMemoryRegion_HasTypeAttribute (r : KMemoryRegion) (attr : Z) : bool :=
  Z.lor (mr_type_id r) attr =? mr_type_id r.
Definition KMemoryRegion_CanDerive (r : KMemoryRegion) (type : Z) : bool :=
  Z.lor (mr_type_id r) type =? type.

Definition KMemoryRegion_Contains (r : KMemoryRegion) (addr : Z) : prog bool :=
  _ ← ASSERT (negb (KMemoryRegion_GetEndAddress r =? 0));
  mret ((mr_address r <=? addr) && (addr <=? mr_last_address r)).

Definition KMemoryRegion_SetType (r : KMemoryRegion) (type : Z) : prog KMemoryRegion :=
  _ ← ASSERT (KMemoryRegion_CanDerive r type);
  mret (MkRegion (mr_address r) (mr_last_address r) (mr_pair_address r) (mr_attributes r) type).

Definition KMemoryRegion_SetPairAddress (r : KMemoryRegion) (a : Z) : KMemoryRegion :=
  MkRegion (mr_address r) (mr_last_address r) a (mr_attributes r) (mr_type_id r).

Definition KMemoryRegion_SetTypeAttribute (r : KMemoryRegion) (attr : Z) : KMemoryRegion :=
  MkRegion (mr_address r) (mr_last_address r) (mr_pair_address r) (mr_attributes r)
    (Z.lor (mr_type_id r) attr).

(** ** KMemoryRegionAllocator: the number of regions handed out *)
Definition MaxMemoryRegions : Z := 200.

Definition KMemoryRegionAllocator_Allocate (num_regions : Z) : prog Z :=
  _ ← ASSERT (num_regions <? MaxMemoryRegions);
  if num_regions <? MaxMemoryRegions then mret (num_regions + 1) else Stuck.

(** ** KMemoryRegionTree

    An operation that allocates takes and returns the number of regions handed
    out by the allocator next to the tree. *)
Definition KMemoryRegionTree : Type := list KMemoryRegion.

Definition FindIterator (t : KMemoryRegionTree) (address : Z) : nat :=
  tree_find (KMemoryRegion_Compare (region address address 0 0)) t.

Definition KMemoryRegionTree_Find (t : KMemoryRegionTree) (address : Z) : option KMemoryRegion :=
  t !! FindIterator t address.

Definition region_insert (r : KMemoryRegion) (t : KMemoryRegionTree) : prog KMemoryRegionTree :=
  '(t, _) ← tree_insert (KMemoryRegion_Compare r) r t; mret t.

Definition InsertDirectly (n : Z) (t : KMemoryRegionTree) (address last_address attr type_id : Z)
    : prog (Z * KMemoryRegionTree) :=
  n ← KMemoryRegionAllocator_Allocate n;
  t ← region_insert (region address last_address attr type_id) t;
  mret (n, t).

(** The pair address of the part of a region that starts [offset] bytes in. *)
Definition pair_after (old_pair offset : Z) : Z :=
  if negb (old_pair =? u64_max) then u64 (old_pair + offset) else old_pair.

(** The three early returns of [Insert] leave the tree as it is; the found
    region is null when no region has the address. *)
Definition KMemoryRegionTree_Insert (n : Z) (t : KMemoryRegionTree)
    (address size type_id new_attr old_attr : Z) : prog (bool * Z * KMemoryRegionTree) :=
  let it := FindIterator t address in
  found ← deref (t !! it);
  if negb (mr_attributes found =? old_attr) then mret (false, n, t)
  else
    let inserted_region_end := u64 (address + size) in
    let inserted_region_last := u64 (inserted_region_end - 1) in
    if mr_last_address found <? inserted_region_last then mret (false, n, t)
    else if negb (KMemoryRegion_CanDerive found type_id) then mret (false, n, t)
    else
      let old_address := mr_address found in
      let old_last := mr_last_address found in
      let old_pair := mr_pair_address found in
      let old_type := mr_type_id found in
      '(t, _) ← tree_erase t it;
      '(n, t) ←
        (if old_address =? address then
           t ← region_insert
                 (MkRegion address inserted_region_last old_pair new_attr type_id) t;
           mret (n, t)
         else
           t ← region_insert
                 (MkRegion old_address (u64 (address - 1)) old_pair old_attr old_type) t;
           n ← KMemoryRegionAllocator_Allocate n;
           t ← region_insert
                 (MkRegion address inserted_region_last
                    (pair_after old_pair (u64 (address - old_address))) new_attr type_id) t;
           mret (n, t));
      if negb (old_last =? inserted_region_last) then
        n ← KMemoryRegionAllocator_Allocate n;
        t ← region_insert
              (MkRegion inserted_region_end old_last
                 (pair_after old_pair (u64 (inserted_region_end - old_address))) old_attr
                 old_type) t;
        mret (true, n, t)
      else mret (true, n, t).

(** ** Searching by type *)
Definition FindByType (t : KMemoryRegionTree) (type_id : Z) : option KMemoryRegion :=
  head (filter (λ r, mr_type_id r = type_id) t).

Definition FindByTypeAndAttribute (t : KMemoryRegionTree) (type_id attr : Z)
    : option KMemoryRegion :=
  head (filter (λ r, mr_type_id r = type_id ∧ mr_attributes r = attr) t).

Definition FindFirstDerived (t : KMemoryRegionTree) (type_id : Z) : option KMemoryRegion :=
  head (filter (λ r, KMemoryRegion_IsDerivedFrom r type_id = true) t).

Definition FindLastDerived (t : KMemoryRegionTree) (type_id : Z) : option KMemoryRegion :=
  last (filter (λ r, KMemoryRegion_IsDerivedFrom r type_id = true) t).

(** The loop of [GetDerivedRegionExtents], with its two pointers. *)
Fixpoint extents_loop (t : KMemoryRegionTree) (type_id : Z)
    (first_region last_region : option KMemoryRegion)
    : option KMemoryRegion * option KMemoryRegion :=
  match t with
  | [] => (first_region, last_region)
  | r :: t =>
      if KMemoryRegion_IsDerivedFrom r type_id then
        extents_loop t type_id
          (match first_region with None => Some r | Some _ => first_region end) (Some r)
      else extents_loop t type_id first_region last_region
  end.

Record DerivedRegionExtents : Type := MkExtents {
  first_region : option KMemoryRegion;
  last_region : option KMemoryRegion
}.

Definition GetDerivedRegionExtents (t : KMemoryRegionTree) (type_id : Z)
    : prog DerivedRegionExtents :=
  let '(first, last) := extents_loop t type_id None None in
  _ ← ASSERT (bool_decide (is_Some first));
  _ ← ASSERT (bool_decide (is_Some last));
  mret (MkExtents first last).

Definition Extents_GetAddress (e : DerivedRegionExtents) : prog Z :=
  r ← deref (first_region e); mret (mr_address r).
Definition Extents_GetLastAddress (e : DerivedRegionExtents) : prog Z :=
  r ← deref (last_region e); mret (mr_last_address r).
Definition Extents_GetEndAddress (e : DerivedRegionExtents) : prog Z :=
  last ← Extents_GetLastAddress e; mret (u64 (last + 1)).

(** ** Random placement

    [KSystemControl::GenerateRandomRange] draws from a generator of the standard
    library: a class.  The loop goes on until a candidate fits, and how many it
    takes is up to the generator: [fuel] bounds the number drawn. *)
Class RandomRange (G : Type) : Type := {
  GenerateRandomRange : Z → Z → G → Z * G
}.

(** What the layout relies on: the numbers are in the range asked for. *)
Class RandomRangeLaws (G : Type) `{RandomRange G} : Prop := {
  random_range_bounds lo hi g : lo ≤ hi → lo ≤ (GenerateRandomRange lo hi g).1 ≤ hi
}.

Section RandomRegion.
Context {G : Type} `{RandomRange G}.

Fixpoint random_region_loop (fuel : nat) (t : KMemoryRegionTree)
    (size alignment type_id last_address first_index last_index : Z) (g : G) : prog (Z * G) :=
  match fuel with
  | O => Stuck
  | S fuel =>
      let '(rnd, g) := GenerateRandomRange first_index last_index g in
      let candidate := u64 (rnd * alignment) in
      let candidate_last := u64 (u64 (candidate + size) - 1) in
      fits ← (if negb (candidate <? u64 (candidate + size)) then mret false
              else if last_address <? candidate_last then mret false
              else
                candidate_region ← deref (KMemoryRegionTree_Find t candidate);
                mret ((candidate_last <=? mr_last_address candidate_region) &&
                      (mr_type_id candidate_region =? type_id)));
      if fits : bool then mret (candidate, g)
      else random_region_loop fuel t size alignment type_id last_address first_index last_index g
  end.

Definition GetRandomAlignedRegion (fuel : nat) (t : KMemoryRegionTree)
    (size alignment type_id : Z) (g : G) : prog (Z * G) :=
  extents ← GetDerivedRegionExtents t type_id;
  first_address ← Extents_GetAddress extents;
  _ ← ASSERT (IsAligned first_address alignment);
  last_address ← Extents_GetLastAddress extents;
  random_region_loop fuel t size alignment type_id last_address
    (first_address / alignment) (last_address / alignment) g.

Definition GetRandomAlignedRegionWithGuard (fuel : nat) (t : KMemoryRegionTree)
    (size alignment type_id guard_size : Z) (g : G) : prog (Z * G) :=
  '(a, g) ← GetRandomAlignedRegion fuel t (u64 (size + u64 (2 * guard_size))) alignment type_id g;
  mret (u64 (a + guard_size), g).
End RandomRegion.

(** ** KMemoryLayout *)
Record KMemoryLayout : Type := MkLayout {
  m_linear_phys_to_virt_diff : Z;
  m_linear_virt_to_phys_diff : Z;
  m_num_regions : Z;
  m_virtual_tree : KMemoryRegionTree;
  m_physical_tree : KMemoryRegionTree;
  m_virtual_linear_tree : KMemoryRegionTree;
  m_physical_linear_tree : KMemoryRegionTree
}.

Definition set_virtual (n : Z) (t : KMemoryRegionTree) (l : KMemoryLayout) : KMemoryLayout :=
  MkLayout (m_linear_phys_to_virt_diff l) (m_linear_virt_to_phys_diff l) n t (m_physical_tree l)
    (m_virtual_linear_tree l) (m_physical_linear_tree l).
Definition set_physical (n : Z) (t : KMemoryRegionTree) (l : KMemoryLayout) : KMemoryLayout :=
  MkLayout (m_linear_phys_to_virt_diff l) (m_linear_virt_to_phys_diff l) n (m_virtual_tree l) t
    (m_virtual_linear_tree l) (m_physical_linear_tree l).

Definition GetLinearVirtualAddress (l : KMemoryLayout) (address : Z) : Z :=
  u64 (address + m_linear_phys_to_virt_diff l).
Definition GetLinearPhysicalAddress (l : KMemoryLayout) (address : Z) : Z :=
  u64 (address + m_linear_virt_to_phys_diff l).

Definition FindPhysicalLinear (l : KMemoryLayout) (address : Z) : option KMemoryRegion :=
  KMemoryRegionTree_Find (m_physical_linear_tree l) address.

Definition Dereference (r : option KMemoryRegion) : prog KMemoryRegion :=
  _ ← ASSERT (bool_decide (is_Some r)); deref r.

Definition GetPhysicalLinearRegion (l : KMemoryLayout) (address : Z) : prog KMemoryRegion :=
  Dereference (FindPhysicalLinear l address).

Definition GetPoolManagementRegion (l : KMemoryLayout) : prog KMemoryRegion :=
  Dereference (FindByType (m_virtual_tree l)
                 (GetValue KMemoryRegionType_VirtualDramPoolManagement)).

Definition GetPageTableHeapRegion (l : KMemoryLayout) : prog KMemoryRegion :=
  Dereference (FindByType (m_virtual_tree l)
                 (GetValue KMemoryRegionType_VirtualDramKernelPtHeap)).

Definition GetSlabRegion (l : KMemoryLayout) : prog KMemoryRegion :=
  Dereference (FindByType (m_virtual_tree l) (GetValue KMemoryRegionType_KernelSlab)).

Definition GetMainMemoryPhysicalExtents (l : KMemoryLayout) : prog DerivedRegionExtents :=
  GetDerivedRegionExtents (m_physical_tree l) (GetValue KMemoryRegionType_Dram).

(** [IsTypedAddress]: the cached region, null at first, and whether the address
    is in a region derived from the type. *)
Definition IsTypedAddress (cached : option KMemoryRegion) (address : Z) (t : KMemoryRegionTree)
    (type : Z) : prog (bool * option KMemoryRegion) :=
  hit ← match cached with Some r => KMemoryRegion_Contains r address | None => mret false end;
  if hit : bool then mret (true, cached)
  else match KMemoryRegionTree_Find t address with
       | Some found =>
           if KMemoryRegion_IsDerivedFrom found type then mret (true, Some found)
           else mret (false, cached)
       | None => mret (false, cached)
       end.

(** The same for a range: the regions from the one with the address on. *)
Fixpoint typed_range_loop (rest : list KMemoryRegion) (last_address type : Z)
    (cached : option KMemoryRegion) : bool * option KMemoryRegion :=
  match rest with
  | [] => (false, cached)
  | cur :: rest =>
      if KMemoryRegion_IsDerivedFrom cur type then
        if last_address <=? mr_last_address cur then (true, Some cur)
        else typed_range_loop rest last_address type cached
      else (false, cached)
  end.

Definition IsTypedAddressRange (cached : option KMemoryRegion) (address size : Z)
    (t : KMemoryRegionTree) (type : Z) : prog (bool * option KMemoryRegion) :=
  let last_address := u64 (u64 (address + size) - 1) in
  hit ← match cached with Some r => KMemoryRegion_Contains r address | None => mret false end;
  let key := if hit : bool then default 0 (mr_address <$> cached) else address in
  mret (typed_range_loop (drop (FindIterator t key) t) last_address type cached).

Definition IsHeapPhysicalAddress (l : KMemoryLayout) (cached : option KMemoryRegion)
    (address : Z) : prog (bool * option KMemoryRegion) :=
  IsTypedAddress cached address (m_physical_linear_tree l)
    (GetValue KMemoryRegionType_DramUserPool).

Definition IsLinearMappedPhysicalAddress (l : KMemoryLayout) (cached : option KMemoryRegion)
    (address : Z) : prog (bool * option KMemoryRegion) :=
  IsTypedAddress cached address (m_physical_linear_tree l) KMemoryRegionAttr_LinearMapped.

Definition GetTotalAndKernelMemorySizes (l : KMemoryLayout) : Z * Z :=
  foldl (λ '(total_size, kernel_size) r,
           if KMemoryRegion_IsDerivedFrom r (GetValue KMemoryRegionType_Dram) then
             (u64 (total_size + KMemoryRegion_GetSize r),
              if negb (KMemoryRegion_IsDerivedFrom r (GetValue KMemoryRegionType_DramUserPool))
              then u64 (kernel_size + KMemoryRegion_GetSize r) else kernel_size)
           else (total_size, kernel_size))
    (0, 0) (m_physical_tree l).

(** The regions of [from] that satisfy [sel] are copied to a tree of their own,
    without their pair addresses. *)
Fixpoint copy_regions (sel : KMemoryRegion → bool) (from : list KMemoryRegion) (n : Z)
    (t : KMemoryRegionTree) : prog (Z * KMemoryRegionTree) :=
  match from with
  | [] => mret (n, t)
  | r :: from =>
      if sel r then
        '(n, t) ← InsertDirectly n t (mr_address r) (mr_last_address r) (mr_attributes r)
                    (mr_type_id r);
        copy_regions sel from n t
      else copy_regions sel from n t
  end.

Definition InitializeLinearMemoryRegionTrees (l : KMemoryLayout)
    (aligned_linear_phys_start linear_virtual_start : Z) : prog KMemoryLayout :=
  let phys_to_virt := u64 (linear_virtual_start - aligned_linear_phys_start) in
  let virt_to_phys := u64 (aligned_linear_phys_start - linear_virtual_start) in
  '(n, phys) ←
    copy_regions (λ r, KMemoryRegion_HasTypeAttribute r KMemoryRegionAttr_LinearMapped)
      (m_physical_tree l) (m_num_regions l) (m_physical_linear_tree l);
  '(n, virt) ←
    copy_regions (λ r, KMemoryRegion_IsDerivedFrom r (GetValue KMemoryRegionType_Dram))
      (m_virtual_tree l) n (m_virtual_linear_tree l);
  mret (MkLayout phys_to_virt virt_to_phys n (m_virtual_tree l) (m_physical_tree l) virt phys).
