(* ===== verification/MemoryLayout.v ===== *)
(** * The memory layout of the kernel at boot
    (src/src/core/hle/kernel/kernel.cpp, [DeriveInitialMemoryLayout];
    board/nintendo/nx/k_memory_layout.cpp; the sizes of
    board/nintendo/nx/k_system_control.cpp, k_memory_layout.h, k_trace.h and of
    the management area, k_memory_manager.cpp)

    The setting that selects the size of the memory is an argument, as is the
    size of the slab heaps, which depends on the sizes of the host's objects. *)

From S2P Require Import Prelude Common OrderedTree PageHeap MemoryRegionType MemoryRegion.

Definition KiB : Z := 2 ^ 10.
Definition MiB : Z := 2 ^ 20.
Definition GiB : Z := 2 ^ 30.

(** ** k_memory_layout.h and k_trace.h *)
Definition L1BlockSize : Z := 1 * GiB.
Definition L2BlockSize : Z := 2 * MiB.
Definition DivideUp (x y : Z) : Z := u64 (x + (y - 1)) / y.
Definition GetMaximumOverheadSize (size : Z) : Z :=
  u64 (u64 (DivideUp size L1BlockSize + DivideUp size L2BlockSize) * PageSize).

Definition MainMemorySizeMax : Z := 8 * GiB.
Definition ReservedEarlyDramSize : Z := 384 * KiB.
Definition DramPhysicalAddress : Z := 0x80000000.
Definition KernelAslrAlignment : Z := 2 * MiB.
Definition KernelVirtualAddressSpaceWidth : Z := Z.shiftl 1 39.
Definition KernelPhysicalAddressSpaceWidth : Z := Z.shiftl 1 48.
Definition KernelVirtualAddressSpaceBase : Z := u64 (0 - KernelVirtualAddressSpaceWidth).
Definition KernelVirtualAddressSpaceEnd : Z :=
  u64 (KernelVirtualAddressSpaceBase + (KernelVirtualAddressSpaceWidth - KernelAslrAlignment)).
Definition KernelVirtualAddressSpaceLast : Z := KernelVirtualAddressSpaceEnd - 1.
Definition KernelVirtualAddressSpaceSize : Z :=
  KernelVirtualAddressSpaceEnd - KernelVirtualAddressSpaceBase.
Definition KernelVirtualAddressCodeBase : Z := KernelVirtualAddressSpaceBase.
Definition KernelVirtualAddressCodeSize : Z := 392 * KiB.
Definition KernelVirtualAddressCodeEnd : Z :=
  KernelVirtualAddressCodeBase + KernelVirtualAddressCodeSize.
Definition KernelPhysicalAddressSpaceBase : Z := 0.
Definition KernelPhysicalAddressSpaceSize : Z := KernelPhysicalAddressSpaceWidth.
Definition KernelPhysicalAddressCodeBase : Z := DramPhysicalAddress + ReservedEarlyDramSize.
Definition KernelPageTableHeapSize : Z := GetMaximumOverheadSize MainMemorySizeMax.
Definition KernelInitialPageHeapSize : Z := 128 * KiB.
Definition KernelSlabHeapDataSize : Z := 5 * MiB.
Definition KernelSlabHeapGapsSizeMax : Z := 2 * MiB - 64 * KiB.
Definition KernelSlabHeapSize : Z := KernelSlabHeapDataSize + KernelSlabHeapGapsSizeMax.
Definition KernelPageBufferHeapSize : Z := 0x3E0000.
Definition KernelSlabHeapAdditionalSize : Z := 0x148000.
Definition KernelPageBufferAdditionalSize : Z := 0x33C000.
Definition KernelResourceSize : Z :=
  KernelPageTableHeapSize + KernelInitialPageHeapSize + KernelSlabHeapSize +
  KernelPageBufferHeapSize.
Definition KTraceBufferSize : Z := if IsKTraceEnabled then 16 * MiB else 0.

(** ** KSystemControl *)
Inductive MemoryLayoutMode : Type := Memory_4Gb | Memory_6Gb | Memory_8Gb | Memory_10Gb | Memory_12Gb.

Definition SecureAppletMemorySize : Z := 4 * 1024 * 1024.

Definition GetIntendedMemorySize (mode : MemoryLayoutMode) : Z :=
  match mode with
  | Memory_4Gb => 4 * GiB
  | Memory_6Gb => 6 * GiB
  | Memory_8Gb => 8 * GiB
  | Memory_10Gb => 10 * GiB
  | Memory_12Gb => 12 * GiB
  end.
Definition GetRealMemorySize (mode : MemoryLayoutMode) : Z := GetIntendedMemorySize mode.

Definition GetKernelPhysicalBaseAddress (mode : MemoryLayoutMode) (base_address : Z) : Z :=
  let real_dram_size := GetRealMemorySize mode in
  let intended_dram_size := GetIntendedMemorySize mode in
  if u64 (intended_dram_size * 2) <? real_dram_size then base_address
  else u64 (base_address + u64 (real_dram_size - intended_dram_size) / 2).

Definition GetApplicationPoolSize (mode : MemoryLayoutMode) : Z :=
  match mode with
  | Memory_4Gb => 3285 * MiB
  | Memory_6Gb => 4916 * MiB
  | Memory_8Gb => 6547 * MiB
  | Memory_10Gb => 8178 * MiB
  | Memory_12Gb => 9809 * MiB
  end.

Definition ExtraSystemMemoryForAtmosphere : Z := 33 * MiB.
Definition GetAppletPoolSize (mode : MemoryLayoutMode) : Z :=
  let base_pool_size := match mode with Memory_4Gb => 507 * MiB | _ => 562 * MiB end in
  u64 (u64 (base_pool_size - ExtraSystemMemoryForAtmosphere) - KTraceBufferSize).

Definition RequiredNonSecureSystemMemorySizeVi : Z := 0x2280 * (4 * KiB).
Definition RequiredNonSecureSystemMemorySizeViFatal : Z := 0x200 * (4 * KiB).
Definition RequiredNonSecureSystemMemorySizeNvservices : Z := 0x704 * (4 * KiB).
Definition RequiredNonSecureSystemMemorySizeMisc : Z := 0x80 * (4 * KiB).
Definition RequiredNonSecureSystemMemorySize : Z :=
  RequiredNonSecureSystemMemorySizeVi + RequiredNonSecureSystemMemorySizeNvservices +
  RequiredNonSecureSystemMemorySizeMisc.
Definition RequiredNonSecureSystemMemorySizeWithFatal : Z :=
  RequiredNonSecureSystemMemorySize + RequiredNonSecureSystemMemorySizeViFatal.
Definition GetMinimumNonSecureSystemPoolSize : Z := RequiredNonSecureSystemMemorySizeWithFatal.
Definition ShouldIncreaseThreadResourceLimit : bool := true.

Definition GetResourceRegionSizeForInit (use_extra_resource : bool) : Z :=
  KernelResourceSize + SecureAppletMemorySize +
  (if use_extra_resource then KernelSlabHeapAdditionalSize + KernelPageBufferAdditionalSize
   else 0).

(** ** The management area of a memory manager *)
Definition CalculateOptimizedProcessOverheadSize (region_size : Z) : Z :=
  AlignUp (region_size / PageSize) 64 / 64 * 8.

Definition Impl_CalculateManagementOverheadSize (region_size : Z) : Z :=
  let ref_count_size := region_size / PageSize * 2 in
  let optimize_map_size := AlignUp (region_size / PageSize) 64 / 64 * 8 in
  let manager_meta_size := AlignUp (u64 (optimize_map_size + ref_count_size)) PageSize in
  let page_heap_size := KPageHeap_CalculateManagementOverheadSize region_size in
  u64 (manager_meta_size + page_heap_size).

(** ** Inserting into the trees of the layout *)

(** [ASSERT(tree.Insert(...))]: the insertion is done whatever it returns. *)
Definition assert_physical (l : KMemoryLayout) (address size type_id attr : Z)
    : prog KMemoryLayout :=
  '(ok, n, t) ← KMemoryRegionTree_Insert (m_num_regions l) (m_physical_tree l) address size
                  type_id attr 0;
  _ ← ASSERT ok; mret (set_physical n t l).

Definition assert_virtual (l : KMemoryLayout) (address size type_id attr : Z)
    : prog KMemoryLayout :=
  '(ok, n, t) ← KMemoryRegionTree_Insert (m_num_regions l) (m_virtual_tree l) address size
                  type_id attr 0;
  _ ← ASSERT ok; mret (set_virtual n t l).

Fixpoint assert_physicals (l : KMemoryLayout) (regions : list (Z * Z * Z)) : prog KMemoryLayout :=
  match regions with
  | [] => mret l
  | (address, size, type_id) :: regions =>
      l ← assert_physical l address size type_id 0; assert_physicals l regions
  end.

(** ** board/nintendo/nx/k_memory_layout.cpp *)
Definition CarveoutAlignment : Z := 0x20000.
Definition CarveoutSizeMax : Z := 512 * MiB - CarveoutAlignment.

Definition SetupPowerManagementControllerMemoryRegion (l : KMemoryLayout)
    : prog (bool * KMemoryLayout) :=
  '(ok, n, t) ← KMemoryRegionTree_Insert (m_num_regions l) (m_physical_tree l) 0x7000E000 0x400
                  (Z.lor (GetValue KMemoryRegionType_None) KMemoryRegionAttr_NoUserMap) 0 0;
  let l := set_physical n t l in
  if ok : bool then
    '(ok, n, t) ← KMemoryRegionTree_Insert (m_num_regions l) (m_physical_tree l) 0x7000E400 0xC00
                    (Z.lor (GetValue KMemoryRegionType_PowerManagementController)
                       KMemoryRegionAttr_NoUserMap) 0 0;
    mret (ok, set_physical n t l)
  else mret (false, l).

Definition InsertPoolPartitionRegionIntoBothTrees (l : KMemoryLayout)
    (start size phys_type virt_type cur_attr : Z) : prog (KMemoryLayout * Z) :=
  let attr := cur_attr in
  l ← assert_physical l start size phys_type attr;
  let phys := FindByTypeAndAttribute (m_physical_tree l) phys_type attr in
  _ ← ASSERT (bool_decide (is_Some phys));
  phys ← deref phys;
  _ ← ASSERT (negb (KMemoryRegion_GetEndAddress phys =? 0));
  l ← assert_virtual l (mr_pair_address phys) size virt_type attr;
  mret (l, u32 (cur_attr + 1)).

Definition SetupDevicePhysicalMemoryRegions (l : KMemoryLayout) : prog KMemoryLayout :=
  '(ok, l) ← SetupPowerManagementControllerMemoryRegion l;
  _ ← ASSERT ok;
  assert_physicals l
    [(0x70019000, 0x1000,
      Z.lor (GetValue KMemoryRegionType_MemoryController) KMemoryRegionAttr_NoUserMap);
     (0x7001C000, 0x1000,
      Z.lor (GetValue KMemoryRegionType_MemoryController0) KMemoryRegionAttr_NoUserMap);
     (0x7001D000, 0x1000,
      Z.lor (GetValue KMemoryRegionType_MemoryController1) KMemoryRegionAttr_NoUserMap);
     (0x50040000, 0x1000, Z.lor (GetValue KMemoryRegionType_None) KMemoryRegionAttr_NoUserMap);
     (0x50041000, 0x1000,
      Z.lor (GetValue KMemoryRegionType_InterruptDistributor) KMemoryRegionAttr_ShouldKernelMap);
     (0x50042000, 0x1000,
      Z.lor (GetValue KMemoryRegionType_InterruptCpuInterface) KMemoryRegionAttr_ShouldKernelMap);
     (0x50043000, 0x1D000, Z.lor (GetValue KMemoryRegionType_None) KMemoryRegionAttr_NoUserMap);
     (0x40000000, 0x40000,
      Z.lor (GetValue KMemoryRegionType_LegacyLpsIram) KMemoryRegionAttr_ShouldKernelMap);
     (0x6000F000, 0x1000, Z.lor (GetValue KMemoryRegionType_None) KMemoryRegionAttr_NoUserMap);
     (0x6001DC00, 0x400, Z.lor (GetValue KMemoryRegionType_None) KMemoryRegionAttr_NoUserMap)].

Definition SetupDramPhysicalMemoryRegions (mode : MemoryLayoutMode) (l : KMemoryLayout)
    : prog KMemoryLayout :=
  let intended_memory_size := GetIntendedMemorySize mode in
  let physical_memory_base_address := GetKernelPhysicalBaseAddress mode DramPhysicalAddress in
  l ← assert_physicals l
        [(physical_memory_base_address, intended_memory_size, GetValue KMemoryRegionType_Dram);
         (physical_memory_base_address, ReservedEarlyDramSize,
          GetValue KMemoryRegionType_DramReservedEarly)];
  if IsKTraceEnabled then
    assert_physical l
      (u64 (u64 (physical_memory_base_address + intended_memory_size) - KTraceBufferSize))
      KTraceBufferSize (GetValue KMemoryRegionType_KernelTraceBuffer) 0
  else mret l.

(** The application pool is split where it crosses the middle of the memory. *)
Definition insert_application_pool (l : KMemoryLayout)
    (dram_address dram_end application_pool_start application_pool_size cur_pool_attr : Z)
    : prog (KMemoryLayout * Z * Z) :=
  let dram_midpoint := u64 (dram_address + dram_end) / 2 in
  let phys := GetValue KMemoryRegionType_DramApplicationPool in
  let virt := GetValue KMemoryRegionType_VirtualDramApplicationPool in
  if (dram_end <=? dram_midpoint) || (dram_midpoint <=? application_pool_start) then
    '(l, attr) ← InsertPoolPartitionRegionIntoBothTrees l application_pool_start
                   application_pool_size phys virt cur_pool_attr;
    mret (l, attr, Impl_CalculateManagementOverheadSize application_pool_size)
  else
    let first_application_pool_size := u64 (dram_midpoint - application_pool_start) in
    let second_application_pool_size :=
      u64 (u64 (application_pool_start + application_pool_size) - dram_midpoint) in
    '(l, attr) ← InsertPoolPartitionRegionIntoBothTrees l application_pool_start
                   first_application_pool_size phys virt cur_pool_attr;
    '(l, attr) ← InsertPoolPartitionRegionIntoBothTrees l dram_midpoint
                   second_application_pool_size phys virt attr;
    mret (l, attr, u64 (Impl_CalculateManagementOverheadSize first_application_pool_size +
                        Impl_CalculateManagementOverheadSize second_application_pool_size)).

Definition SetupPoolPartitionMemoryRegions (mode : MemoryLayoutMode) (l : KMemoryLayout)
    : prog KMemoryLayout :=
  dram_extents ← GetMainMemoryPhysicalExtents l;
  dram_address ← Extents_GetAddress dram_extents;
  dram_end ← Extents_GetEndAddress dram_extents;
  _ ← ASSERT (negb (dram_end =? 0));
  let pool_end := u64 (dram_end - KTraceBufferSize) in
  let kernel_dram_region :=
    FindFirstDerived (m_physical_tree l) (GetValue KMemoryRegionType_DramKernelBase) in
  _ ← ASSERT (bool_decide (is_Some kernel_dram_region));
  kernel_dram_region ← deref kernel_dram_region;
  let kernel_dram_start := mr_address kernel_dram_region in
  _ ← ASSERT (IsAligned kernel_dram_start CarveoutAlignment);
  let pool_partitions_region :=
    FindByTypeAndAttribute (m_physical_tree l) (GetValue KMemoryRegionType_DramPoolPartition) 0 in
  _ ← ASSERT (bool_decide (is_Some pool_partitions_region));
  pool_partitions_region ← deref pool_partitions_region;
  let pool_partitions_start := mr_address pool_partitions_region in
  let application_pool_size := GetApplicationPoolSize mode in
  let applet_pool_size := GetAppletPoolSize mode in
  let unsafe_system_pool_min_size := GetMinimumNonSecureSystemPoolSize in
  let application_pool_start := u64 (pool_end - application_pool_size) in
  let applet_pool_start := u64 (application_pool_start - applet_pool_size) in
  let unsafe_system_pool_start :=
    Z.min (u64 (kernel_dram_start + CarveoutSizeMax))
      (AlignDown (u64 (applet_pool_start - unsafe_system_pool_min_size)) CarveoutAlignment) in
  let unsafe_system_pool_size := u64 (applet_pool_start - unsafe_system_pool_start) in
  '(l, attr, total) ← insert_application_pool l dram_address dram_end application_pool_start
                        application_pool_size 0;
  '(l, attr) ← InsertPoolPartitionRegionIntoBothTrees l applet_pool_start applet_pool_size
                 (GetValue KMemoryRegionType_DramAppletPool)
                 (GetValue KMemoryRegionType_VirtualDramAppletPool) attr;
  let total := u64 (total + Impl_CalculateManagementOverheadSize applet_pool_size) in
  '(l, attr) ← InsertPoolPartitionRegionIntoBothTrees l unsafe_system_pool_start
                 unsafe_system_pool_size (GetValue KMemoryRegionType_DramSystemNonSecurePool)
                 (GetValue KMemoryRegionType_VirtualDramSystemNonSecurePool) attr;
  let total := u64 (total + Impl_CalculateManagementOverheadSize unsafe_system_pool_size) in
  let total :=
    u64 (total + Impl_CalculateManagementOverheadSize
                   (u64 (u64 (unsafe_system_pool_start - pool_partitions_start) - total))) in
  let pool_management_start := u64 (unsafe_system_pool_start - total) in
  '(l, _) ← InsertPoolPartitionRegionIntoBothTrees l pool_management_start total
              (GetValue KMemoryRegionType_DramPoolManagement)
              (GetValue KMemoryRegionType_VirtualDramPoolManagement) 0;
  let system_pool_size := u64 (pool_management_start - pool_partitions_start) in
  '(l, _) ← InsertPoolPartitionRegionIntoBothTrees l pool_partitions_start system_pool_size
              (GetValue KMemoryRegionType_DramSystemPool)
              (GetValue KMemoryRegionType_VirtualDramSystemPool) attr;
  mret l.

(** ** DeriveInitialMemoryLayout *)

(** The loop that adds up the space of the devices to map. *)
Fixpoint misc_region_loop (regions : list KMemoryRegion) (size : Z) : prog Z :=
  match regions with
  | [] => mret size
  | r :: regions =>
      if KMemoryRegion_HasTypeAttribute r KMemoryRegionAttr_ShouldKernelMap then
        _ ← ASSERT (negb (KMemoryRegion_GetEndAddress r =? 0));
        misc_region_loop regions
          (u64 (size + u64 (PageSize + u64 (AlignUp (mr_last_address r) PageSize -
                                            AlignDown (mr_address r) PageSize))))
      else misc_region_loop regions size
  end.

(** [region.SetTypeAttribute] on the regions selected. *)
Definition tag_regions (sel : KMemoryRegion → bool) (attr : Z) (regions : list KMemoryRegion)
    : prog (list KMemoryRegion) :=
  let fix loop (regions : list KMemoryRegion) : prog (list KMemoryRegion) :=
    match regions with
    | [] => mret []
    | r :: regions =>
        if sel r then
          _ ← ASSERT (negb (KMemoryRegion_GetEndAddress r =? 0));
          regions ← loop regions;
          mret (KMemoryRegion_SetTypeAttribute r attr :: regions)
        else
          regions ← loop regions; mret (r :: regions)
    end in
  loop regions.

Section Boot.
Context {G : Type} `{RandomRange G} (fuel : nat) (mode : MemoryLayoutMode) (slab_heap_size : Z).

(** The devices that are mapped automatically, each at a random place of the
    misc region; the physical tree is rebuilt with the attributes and pair
    addresses set. *)
Fixpoint map_devices (regions : list KMemoryRegion) (l : KMemoryLayout) (g : G)
    : prog (list KMemoryRegion * KMemoryLayout * G) :=
  match regions with
  | [] => mret ([], l, g)
  | r :: regions =>
      if KMemoryRegion_IsDerivedFrom r (GetValue KMemoryRegionType_Kernel) &&
         KMemoryRegion_HasTypeAttribute r KMemoryRegionAttr_ShouldKernelMap &&
         negb (KMemoryRegion_HasTypeAttribute r KMemoryRegionAttr_DidKernelMap) then
        _ ← ASSERT (negb (KMemoryRegion_GetEndAddress r =? 0));
        let r := KMemoryRegion_SetTypeAttribute r KMemoryRegionAttr_DidKernelMap in
        let map_phys_addr := AlignDown (mr_address r) PageSize in
        let map_size := u64 (AlignUp (KMemoryRegion_GetEndAddress r) PageSize - map_phys_addr) in
        '(map_virt_addr, g) ←
          GetRandomAlignedRegionWithGuard fuel (m_virtual_tree l) map_size PageSize
            (GetValue KMemoryRegionType_KernelMisc) PageSize g;
        l ← assert_virtual l map_virt_addr map_size
              (GetValue KMemoryRegionType_KernelMiscMappedDevice) 0;
        let r := KMemoryRegion_SetPairAddress r
                   (u64 (u64 (map_virt_addr + mr_address r) - map_phys_addr)) in
        '(regions, l, g) ← map_devices regions l g;
        mret (r :: regions, l, g)
      else
        '(regions, l, g) ← map_devices regions l g;
        mret (r :: regions, l, g)
  end.

(** The regions of the linear mapping, inserted into the virtual tree and paired
    in both directions. *)
Fixpoint map_linear (regions : list KMemoryRegion) (l : KMemoryLayout) (diff : Z)
    : prog (list KMemoryRegion * KMemoryLayout) :=
  match regions with
  | [] => mret ([], l)
  | r :: regions =>
      if negb (KMemoryRegion_HasTypeAttribute r KMemoryRegionAttr_LinearMapped) then
        '(regions, l) ← map_linear regions l diff; mret (r :: regions, l)
      else
        _ ← ASSERT (negb (KMemoryRegion_GetEndAddress r =? 0));
        let region_virt_addr := u64 (mr_address r + diff) in
        l ← assert_virtual l region_virt_addr (KMemoryRegion_GetSize r)
              (GetTypeForVirtualLinearMapping (mr_type_id r)) 0;
        let r := KMemoryRegion_SetPairAddress r region_virt_addr in
        let it := FindIterator (m_virtual_tree l) region_virt_addr in
        _ ← ASSERT (bool_decide (is_Some (m_virtual_tree l !! it)));
        virt_region ← deref (m_virtual_tree l !! it);
        let virt_region := KMemoryRegion_SetPairAddress virt_region (mr_address r) in
        let l := set_virtual (m_num_regions l) (<[it := virt_region]> (m_virtual_tree l)) l in
        '(regions, l) ← map_linear regions l diff;
        mret (r :: regions, l)
  end.

(** [region.SetType] on the regions selected. *)
Fixpoint set_types (old_type new_type : Z) (regions : list KMemoryRegion)
    : prog (list KMemoryRegion) :=
  match regions with
  | [] => mret []
  | r :: regions =>
      r ← (if mr_type_id r =? old_type then KMemoryRegion_SetType r new_type else mret r);
      regions ← set_types old_type new_type regions;
      mret (r :: regions)
  end.

(** A random place of the given size in the kernel region, and the region
    inserted there, [offset] bytes into the place. *)
Definition place_kernel_region (l : KMemoryLayout) (needed size offset type_id : Z) (g : G)
    : prog (KMemoryLayout * G) :=
  '(start, g) ← GetRandomAlignedRegion fuel (m_virtual_tree l) needed KernelAslrAlignment
                  (GetValue KMemoryRegionType_Kernel) g;
  l ← assert_virtual l (u64 (start + offset)) size type_id 0;
  mret (l, g).

(** The kernel's regions of the virtual tree, up to the mapped devices. *)
Definition setup_kernel_regions (g : G) : prog (KMemoryLayout * G) :=
  let l := MkLayout 0 0 0 [] [] [] [] in
  '(n, t) ← InsertDirectly (m_num_regions l) (m_virtual_tree l) KernelVirtualAddressSpaceBase
              (KernelVirtualAddressSpaceBase + KernelVirtualAddressSpaceSize - 1) 0 0;
  let l := set_virtual n t l in
  '(n, t) ← InsertDirectly (m_num_regions l) (m_physical_tree l) KernelPhysicalAddressSpaceBase
              (KernelPhysicalAddressSpaceBase + KernelPhysicalAddressSpaceSize - 1) 0 0;
  let l := set_physical n t l in
  let kernel_region_start := AlignDown KernelVirtualAddressCodeBase (1 * GiB) in
  let kernel_region_size :=
    if negb (u64 (u64 (kernel_region_start + 1 * GiB) - 1) <=? KernelVirtualAddressSpaceLast)
    then KernelVirtualAddressSpaceEnd - kernel_region_start else 1 * GiB in
  l ← assert_virtual l kernel_region_start kernel_region_size
        (GetValue KMemoryRegionType_Kernel) 0;
  let code_region_start := AlignDown KernelVirtualAddressCodeBase PageSize in
  let code_region_end := AlignUp KernelVirtualAddressCodeEnd PageSize in
  let code_region_size := u64 (code_region_end - code_region_start) in
  l ← assert_virtual l code_region_start code_region_size
        (GetValue KMemoryRegionType_KernelCode) 0;
  l ← SetupDevicePhysicalMemoryRegions l;
  needed ← misc_region_loop (m_physical_tree l) (u64 (NUM_CPU_CORES * (3 * (PageSize + PageSize))));
  let needed := u64 (needed * 3) in
  let misc_region_size := AlignUp (Z.max needed (32 * MiB)) KernelAslrAlignment in
  _ ← ASSERT (0 <? misc_region_size);
  '(l, g) ← place_kernel_region l misc_region_size misc_region_size 0
              (GetValue KMemoryRegionType_KernelMisc) g;
  place_kernel_region l (14 * MiB) (14 * MiB) 0 (GetValue KMemoryRegionType_KernelStack) g.

(** The slab, the temporary region and the devices, and the kernel's part of the
    physical memory. *)
Definition setup_slab_and_devices (l : KMemoryLayout) (code_region_size slab_region_size : Z)
    (g : G) : prog (KMemoryLayout * G) :=
  let code_end_phys_addr := u64 (KernelPhysicalAddressCodeBase + code_region_size) in
  let slab_region_needed_size :=
    u64 (AlignUp (u64 (code_end_phys_addr + slab_region_size)) KernelAslrAlignment -
         AlignDown code_end_phys_addr KernelAslrAlignment) in
  '(l, g) ← place_kernel_region l slab_region_needed_size slab_region_size
              (code_end_phys_addr mod KernelAslrAlignment)
              (GetValue KMemoryRegionType_KernelSlab) g;
  '(l, g) ← place_kernel_region l (128 * MiB) (128 * MiB) 0
              (GetValue KMemoryRegionType_KernelTemp) g;
  '(phys, l, g) ← map_devices (m_physical_tree l) l g;
  let l := set_physical (m_num_regions l) phys l in
  l ← SetupDramPhysicalMemoryRegions mode l;
  mret (l, g).

Definition setup_kernel_dram (l : KMemoryLayout)
    (code_region_size slab_region_size resource_region_size : Z) : prog KMemoryLayout :=
  let code_start_phys_addr := KernelPhysicalAddressCodeBase in
  let slab_start_phys_addr := u64 (code_start_phys_addr + code_region_size) in
  let slab_end_phys_addr := u64 (slab_start_phys_addr + slab_region_size) in
  l ← assert_physicals l
        [(code_start_phys_addr, code_region_size, GetValue KMemoryRegionType_DramKernelCode);
         (slab_start_phys_addr, slab_region_size, GetValue KMemoryRegionType_DramKernelSlab)];
  let secure_applet_end_phys_addr := u64 (slab_end_phys_addr + SecureAppletMemorySize) in
  l ← (if 0 <? SecureAppletMemorySize then
         assert_physical l slab_end_phys_addr SecureAppletMemorySize
           (GetValue KMemoryRegionType_DramKernelSecureAppletMemory) 0
       else mret l);
  let secure_unknown_end_phys_addr := secure_applet_end_phys_addr in
  let resource_end_phys_addr := u64 (slab_start_phys_addr + resource_region_size) in
  let page_table_heap_size := u64 (resource_end_phys_addr - secure_unknown_end_phys_addr) in
  _ ← ASSERT (2 <? page_table_heap_size / (4 * MiB));
  assert_physical l secure_unknown_end_phys_addr page_table_heap_size
    (GetValue KMemoryRegionType_DramKernelPtHeap) 0.

Definition setup_linear_region (l : KMemoryLayout) (resource_end_phys_addr : Z) (g : G)
    : prog (KMemoryLayout * G) :=
  phys ← tag_regions (λ r, mr_type_id r =? GetValue KMemoryRegionType_Dram)
           KMemoryRegionAttr_LinearMapped (m_physical_tree l);
  let l := set_physical (m_num_regions l) phys l in
  linear_extents ← GetDerivedRegionExtents (m_physical_tree l) KMemoryRegionAttr_LinearMapped;
  linear_address ← Extents_GetAddress linear_extents;
  linear_end ← Extents_GetEndAddress linear_extents;
  _ ← ASSERT (negb (linear_end =? 0));
  let aligned_linear_phys_start := AlignDown linear_address (1 * GiB) in
  let linear_region_size := u64 (AlignUp linear_end (1 * GiB) - aligned_linear_phys_start) in
  '(linear_region_start, g) ←
    GetRandomAlignedRegionWithGuard fuel (m_virtual_tree l) linear_region_size (1 * GiB)
      (GetValue KMemoryRegionType_None) (1 * GiB) g;
  let diff := u64 (linear_region_start - aligned_linear_phys_start) in
  '(phys, l) ← map_linear (m_physical_tree l) l diff;
  let l := set_physical (m_num_regions l) phys l in
  l ← assert_physical l resource_end_phys_addr KernelPageTableHeapSize
        (GetValue KMemoryRegionType_DramKernelInitPt) 0;
  l ← assert_virtual l (u64 (resource_end_phys_addr + diff)) KernelPageTableHeapSize
        (GetValue KMemoryRegionType_VirtualDramKernelInitPt) 0;
  phys ← set_types (Z.lor (GetValue KMemoryRegionType_Dram) KMemoryRegionAttr_LinearMapped)
           (GetValue KMemoryRegionType_DramPoolPartition) (m_physical_tree l);
  let l := set_physical (m_num_regions l) phys l in
  l ← SetupPoolPartitionMemoryRegions mode l;
  l ← InitializeLinearMemoryRegionTrees l aligned_linear_phys_start linear_region_start;
  mret (l, g).

Definition DeriveInitialMemoryLayout (g : G) : prog (KMemoryLayout * G) :=
  '(l, g) ← setup_kernel_regions g;
  let code_region_size :=
    u64 (AlignUp KernelVirtualAddressCodeEnd PageSize -
         AlignDown KernelVirtualAddressCodeBase PageSize) in
  let resource_region_size := GetResourceRegionSizeForInit ShouldIncreaseThreadResourceLimit in
  let slab_region_size := AlignUp slab_heap_size PageSize in
  _ ← ASSERT (slab_region_size <=? resource_region_size);
  '(l, g) ← setup_slab_and_devices l code_region_size slab_region_size g;
  l ← setup_kernel_dram l code_region_size slab_region_size resource_region_size;
  let resource_end_phys_addr :=
    u64 (u64 (KernelPhysicalAddressCodeBase + code_region_size) + resource_region_size) in
  setup_linear_region l resource_end_phys_addr g.
End Boot.
