(* ===== verification/MemoryRegionTheorems.v ===== *)
(** * Region trees: searching, splitting and copying

    What a tree says of an address (its type, its attributes and the address it
    is paired with) is the specification: [Insert] changes it exactly in the
    range inserted. *)

From Stdlib Require Import Sorted.
From S2P Require Import Prelude Common OrderedTree MemoryRegionType MemoryRegion.

Definition region_ok (r : KMemoryRegion) : Prop :=
  0 ≤ mr_address r ≤ mr_last_address r ∧ mr_last_address r < 2 ^ 64 ∧
  (mr_pair_address r = u64_max ∨
   0 ≤ mr_pair_address r ∧
   mr_pair_address r + (mr_last_address r - mr_address r) < u64_max).

Definition region_before (a b : KMemoryRegion) : Prop := mr_last_address a < mr_address b.

Definition in_region (r : KMemoryRegion) (x : Z) : Prop := mr_address r ≤ x ≤ mr_last_address r.

(** The regions of a tree are in order and do not overlap. *)
Definition regions_wf (t : KMemoryRegionTree) : Prop :=
  Forall region_ok t ∧ StronglySorted region_before t.

Lemma StronglySorted_app_inv {A} (R : A → A → Prop) l1 l2 :
  StronglySorted R (l1 ++ l2) ↔
  StronglySorted R l1 ∧ StronglySorted R l2 ∧ ∀ x y, x ∈ l1 → y ∈ l2 → R x y.
Proof.
  induction l1 as [|a l1 IH]; simpl.
  { split; [|tauto]. intros. split_and!; [constructor|done|]. by intros ?? ?%elem_of_nil. }
  split.
  - inversion 1 as [|? ? Hs Hf]; subst. apply IH in Hs as (H1 & H2 & H3).
    apply Forall_app in Hf as [F1 F2]. rewrite Forall_forall in F2.
    split_and!; [by constructor|done|]. intros x y [->|Hx]%elem_of_cons Hy; auto.
  - intros (H1 & H2 & H3). inversion H1 as [|? ? Hs Hf]; subst. constructor.
    + apply IH. split_and!; [done..|]. intros x y Hx. apply H3. by right.
    + apply Forall_app. split; [done|]. apply Forall_forall. intros y Hy. apply H3; [by left|done].
Qed.

Lemma regions_wf_app l1 l2 :
  regions_wf (l1 ++ l2) ↔
  regions_wf l1 ∧ regions_wf l2 ∧ ∀ a b, a ∈ l1 → b ∈ l2 → region_before a b.
Proof. unfold regions_wf. rewrite Forall_app, StronglySorted_app_inv. tauto. Qed.

Lemma regions_wf_single r : regions_wf [r] ↔ region_ok r.
Proof.
  unfold regions_wf. rewrite Forall_singleton. split; [tauto|]. intros. split; [done|].
  repeat constructor.
Qed.

Lemma Forall_sublist {A} (P : A → Prop) (l k : list A) : k `sublist_of` l → Forall P l → Forall P k.
Proof.
  rewrite !Forall_forall. intros Hs Hf x Hx. apply Hf. by eapply elem_of_submseteq, sublist_submseteq.
Qed.

Lemma regions_wf_sublist t t' : t' `sublist_of` t → regions_wf t → regions_wf t'.
Proof.
  intros Hs [Hf Hs']. split; [by eapply Forall_sublist|].
  induction Hs as [|r t' t Hs IH|r t' t Hs IH]; [done| |].
  - inversion Hs' as [|? ? Hs2 Hf2]; subst. inversion Hf; subst. constructor; [by apply IH|].
    by eapply Forall_sublist.
  - inversion Hs'; subst. inversion Hf; subst. by apply IH.
Qed.

Lemma regions_wf_ok t r : regions_wf t → r ∈ t → region_ok r.
Proof. intros [Hf _] Hr. by apply (proj1 (Forall_forall _ _) Hf). Qed.

(** ** Searching *)
Lemma Compare_key x r : region_ok r →
  (KMemoryRegion_Compare (region x x 0 0) r = 0 ↔ in_region r x) ∧
  (KMemoryRegion_Compare (region x x 0 0) r = -1 ↔ x < mr_address r) ∧
  (KMemoryRegion_Compare (region x x 0 0) r = 1 ↔ mr_last_address r < x).
Proof.
  intros (? & _). unfold KMemoryRegion_Compare, in_region. simpl.
  destruct (x <? mr_address r) eqn:E1; bool_prop; [lia|].
  destruct (x <=? mr_last_address r) eqn:E2; bool_prop; lia.
Qed.

Lemma Find_at l1 r l2 x :
  regions_wf (l1 ++ r :: l2) → in_region r x → FindIterator (l1 ++ r :: l2) x = length l1.
Proof.
  intros Hw Hx. apply regions_wf_app in Hw as (H1 & H2 & H12). unfold FindIterator.
  apply tree_find_app.
  - apply Forall_forall. intros a Ha. pose proof (regions_wf_ok _ _ H1 Ha) as Hok.
    destruct (Compare_key x a Hok) as (C0 & _). rewrite C0. unfold in_region in *.
    pose proof (H12 a r Ha ltac:(by left)) as Hb. unfold region_before in Hb. lia.
  - apply (Compare_key x r); [|done]. eapply regions_wf_ok; [exact H2|by left].
Qed.

Lemma Find_iff t x r :
  regions_wf t → KMemoryRegionTree_Find t x = Some r ↔ r ∈ t ∧ in_region r x.
Proof.
  intros Hw. unfold KMemoryRegionTree_Find. split.
  - intros Hr. split; [by eapply list_elem_of_lookup_2|].
    destruct Hw as [Hf _]. clear -Hr Hf. unfold FindIterator in Hr.
    induction Hf as [|a t Ha Hf IH]; [done|]. simpl in Hr.
    destruct (_ =? 0) eqn:E in Hr; [|by apply IH]. simpl in Hr. simplify_eq. bool_prop.
    by apply (Compare_key x r).
  - intros [Hr Hx]. apply list_elem_of_split in Hr as (l1 & l2 & ->).
    rewrite (Find_at l1 r l2 x) by done. by apply list_lookup_middle.
Qed.

Lemma Find_split t x r :
  KMemoryRegionTree_Find t x = Some r →
  ∃ l1 l2, t = l1 ++ r :: l2 ∧ FindIterator t x = length l1.
Proof.
  unfold KMemoryRegionTree_Find. intros Hr. exists (take (FindIterator t x) t),
    (drop (S (FindIterator t x)) t). split.
  - symmetry. by apply take_drop_middle.
  - rewrite length_take. apply lookup_lt_Some in Hr. lia.
Qed.

(** ** What a tree says of an address *)
Definition describe_region (x : Z) (r : KMemoryRegion) : Z * Z * Z :=
  (mr_type_id r, mr_attributes r, pair_after (mr_pair_address r) (x - mr_address r)).

Definition describe (t : KMemoryRegionTree) (x : Z) : option (Z * Z * Z) :=
  describe_region x <$> KMemoryRegionTree_Find t x.

(** Replacing a region by regions inside it. *)
Lemma regions_replace l1 found mid l2 :
  regions_wf (l1 ++ found :: l2) → regions_wf mid →
  (∀ r, r ∈ mid → mr_address found ≤ mr_address r ∧ mr_last_address r ≤ mr_last_address found) →
  regions_wf (l1 ++ mid ++ l2).
Proof.
  rewrite !regions_wf_app. setoid_rewrite elem_of_app. setoid_rewrite elem_of_cons.
  rewrite (regions_wf_app [found] l2). setoid_rewrite list_elem_of_singleton.
  unfold region_before. intros (H1 & (_ & H2 & Hf) & H12) Hm Hin. split_and!; try done.
  - intros a b Ha Hb. destruct (Hin a Ha) as [_ ?]. pose proof (Hf found b eq_refl Hb). lia.
  - intros a b Ha [Hb|Hb]; [|by auto]. destruct (Hin b Hb) as [? _].
    pose proof (H12 a found Ha ltac:(by left)). lia.
Qed.

Lemma describe_replace l1 found mid l2 x :
  regions_wf (l1 ++ found :: l2) → regions_wf (l1 ++ mid ++ l2) →
  (∀ r, r ∈ mid → mr_address found ≤ mr_address r ∧ mr_last_address r ≤ mr_last_address found) →
  ¬ in_region found x →
  describe (l1 ++ mid ++ l2) x = describe (l1 ++ found :: l2) x.
Proof.
  intros Hw Hw' Hin Hx. unfold describe. f_equal. apply option_eq. intros r.
  rewrite !Find_iff by done. rewrite !elem_of_app, elem_of_cons. unfold in_region in *.
  split; intros [Hr Hxr]; (split; [|done]).
  - destruct Hr as [?|[Hr|?]]; [tauto| |tauto]. destruct (Hin r Hr). lia.
  - destruct Hr as [?|[->|?]]; [tauto|lia|tauto].
Qed.

Lemma describe_in t r x :
  regions_wf t → r ∈ t → in_region r x → describe t x = Some (describe_region x r).
Proof. intros Hw Hr Hx. unfold describe. by rewrite (proj2 (Find_iff t x r Hw)). Qed.

(** ** Inserting a node *)
Lemma region_insert_run r l1 l2 :
  regions_wf (l1 ++ r :: l2) → region_insert r (l1 ++ l2) = Done true (l1 ++ r :: l2).
Proof.
  intros Hw. pose proof (proj1 (regions_wf_app _ _) Hw) as (H1 & H2 & H12).
  apply (regions_wf_app [r] l2) in H2 as (Hr & H2 & Hr2). apply regions_wf_single in Hr.
  unfold region_insert. rewrite tree_insert_app, bind_Done_true; [done| |].
  - apply Forall_forall. intros a Ha. pose proof (H12 a r Ha ltac:(by left)) as Hb.
    pose proof (regions_wf_ok _ _ H1 Ha) as (? & _). destruct Hr as (? & _).
    unfold region_before in Hb. unfold KMemoryRegion_Compare.
    rewrite (proj2 (Z.ltb_ge _ _)), (proj2 (Z.leb_gt _ _)) by lia. lia.
  - intros b l ->. pose proof (Hr2 r b ltac:(by left) ltac:(by left)) as Hb.
    unfold region_before in Hb. destruct Hr as (? & _). unfold KMemoryRegion_Compare.
    rewrite (proj2 (Z.ltb_lt _ _)) by lia. lia.
Qed.

Lemma Allocate_region n :
  n < MaxMemoryRegions → KMemoryRegionAllocator_Allocate n = Done true (n + 1).
Proof.
  intros Hn. unfold KMemoryRegionAllocator_Allocate. by rewrite (proj2 (Z.ltb_lt _ _)) by done.
Qed.

Lemma pair_after_add p a b size :
  0 ≤ a → 0 ≤ b → a + b ≤ size →
  p = u64_max ∨ 0 ≤ p ∧ p + size < u64_max →
  pair_after (pair_after p a) b = pair_after p (a + b) ∧
  (pair_after p a = u64_max ∨ pair_after p a = p + a ∧ p + size < u64_max ∧ 0 ≤ p).
Proof.
  intros Ha Hb Hs Hp. unfold pair_after. unfold u64_max in *.
  destruct Hp as [->|Hp].
  - rewrite Z.eqb_refl. cbn [negb]. rewrite Z.eqb_refl. cbn [negb]. auto.
  - rewrite (proj2 (Z.eqb_neq p _)) by lia. cbn [negb]. u_simpl.
    rewrite (proj2 (Z.eqb_neq (p + a) _)) by lia. cbn [negb]. u_simpl. split; [lia|].
    right. split; [done|lia].
Qed.

(** ** Insert *)
Section Insert.
Context (n : Z) (t : KMemoryRegionTree) (address size type_id new_attr old_attr : Z)
  (found : KMemoryRegion).
Context (Hw : regions_wf t) (Hfound : KMemoryRegionTree_Find t address = Some found)
  (Hn : n + 2 ≤ MaxMemoryRegions) (Hsize : 0 < size) (Hend : address + size ≤ 2 ^ 64).

(** When the region found can be split. *)
Definition insert_accepts : Prop :=
  mr_attributes found = old_attr ∧ address + size - 1 ≤ mr_last_address found ∧
  KMemoryRegion_CanDerive found type_id = true.

#[export] Instance insert_accepts_dec : Decision insert_accepts.
Proof. unfold insert_accepts. apply _. Defined.

(** The regions that take the place of the one found. *)
Let left_part : list KMemoryRegion :=
  if decide (mr_address found = address) then []
  else [MkRegion (mr_address found) (address - 1) (mr_pair_address found) old_attr
          (mr_type_id found)].
Let new_part : KMemoryRegion :=
  MkRegion address (address + size - 1)
    (pair_after (mr_pair_address found) (address - mr_address found)) new_attr type_id.
Let right_part : list KMemoryRegion :=
  if decide (mr_last_address found = address + size - 1) then []
  else [MkRegion (address + size) (mr_last_address found)
          (pair_after (mr_pair_address found) (address + size - mr_address found)) old_attr
          (mr_type_id found)].

Lemma found_in : found ∈ t ∧ in_region found address ∧ region_ok found.
Proof.
  apply Find_iff in Hfound as [? ?]; [|done]. split_and!; [done..|]. by eapply regions_wf_ok.
Qed.

Lemma pair_after_0 p : p = u64_max ∨ 0 ≤ p ∧ p < u64_max → pair_after p 0 = p.
Proof.
  unfold pair_after, u64_max. intros [->|Hp]; [by rewrite Z.eqb_refl|].
  rewrite (proj2 (Z.eqb_neq p _)) by lia. cbn [negb]. rewrite Z.add_0_r. apply u64_id.
  unfold is_u64. lia.
Qed.

Lemma part_ok a b p0 attr type :
  mr_address found ≤ a ≤ b → b ≤ mr_last_address found →
  p0 = pair_after (mr_pair_address found) (a - mr_address found) →
  region_ok (MkRegion a b p0 attr type) ∧
  ∀ x, a ≤ x ≤ b →
    describe_region x (MkRegion a b p0 attr type) =
    (type, attr, (describe_region x found).2).
Proof.
  intros Hab Hb ->. destruct found_in as (_ & _ & (Hr & Hl & Hp)).
  unfold region_ok, describe_region. simpl. split.
  - destruct (pair_after_add (mr_pair_address found) (a - mr_address found) 0
      (mr_last_address found - mr_address found)) as [_ [E|(E & ? & ?)]]; [lia..|done| |].
    + rewrite E. split_and!; [lia..|by left].
    + rewrite E. split_and!; [lia..|right; lia].
  - intros x Hx. f_equal.
    destruct (pair_after_add (mr_pair_address found) (a - mr_address found) (x - a)
      (mr_last_address found - mr_address found)) as [-> _]; [lia..|done|].
    f_equal. lia.
Qed.

Context (Hacc : insert_accepts).

Lemma parts_wf :
  regions_wf (left_part ++ new_part :: right_part) ∧
  ∀ r, r ∈ left_part ++ new_part :: right_part →
    mr_address found ≤ mr_address r ∧ mr_last_address r ≤ mr_last_address found.
Proof.
  destruct found_in as (_ & Hx & (Hr & Hl & Hp)). unfold in_region in Hx.
  destruct Hacc as (_ & Hlast & _).
  assert (Hleft : regions_wf left_part ∧ ∀ r, r ∈ left_part →
    mr_address found ≤ mr_address r ∧ mr_last_address r = address - 1).
  { unfold left_part. case_decide as E; [split; [split; constructor|by intros ? ?%elem_of_nil]|].
    split; [apply regions_wf_single, part_ok; [lia|lia|]|by intros r ->%list_elem_of_singleton].
    rewrite Z.sub_diag, pair_after_0; [done|]. unfold u64_max in *. lia. }
  assert (Hright : regions_wf right_part ∧ ∀ r, r ∈ right_part →
    mr_address r = address + size ∧ mr_last_address r = mr_last_address found).
  { unfold right_part. case_decide as E; [split; [split; constructor|by intros ? ?%elem_of_nil]|].
    split; [apply regions_wf_single, part_ok; [lia|lia|done]|by intros r ->%list_elem_of_singleton]. }
  assert (Hnew : region_ok new_part) by (apply part_ok; [lia|lia|done]).
  destruct Hleft as [L1 L2], Hright as [R1 R2]. split.
  - apply regions_wf_app. split; [done|]. split.
    + apply (regions_wf_app [new_part]). rewrite regions_wf_single. split_and!; [done..|].
      intros a b ->%list_elem_of_singleton Hb. destruct (R2 b Hb). unfold region_before. simpl. lia.
    + intros a b Ha [->|Hb]%elem_of_cons; destruct (L2 a Ha); unfold region_before; simpl; [lia|].
      destruct (R2 b Hb). lia.
  - intros r [Hl'|[->|Hr']%elem_of_cons]%elem_of_app.
    + destruct (L2 r Hl'). lia.
    + simpl. lia.
    + destruct (R2 r Hr'). lia.
Qed.

(** The insertion itself, in terms of the parts: what comes after the new
    region, and what comes before it. *)
Lemma insert_right k l1 l2 :
  k + 1 ≤ MaxMemoryRegions → regions_wf (l1 ++ right_part ++ l2) →
  (if negb (mr_last_address found =? address + size - 1) then
     k ← KMemoryRegionAllocator_Allocate k;
     t ← region_insert
           (MkRegion (u64 (address + size)) (mr_last_address found)
              (pair_after (mr_pair_address found)
                 (u64 (u64 (address + size) - mr_address found))) old_attr
              (mr_type_id found)) (l1 ++ l2);
     mret (true, k, t)
   else mret (true, k, l1 ++ l2)) =
  Done true (true, k + Z.of_nat (length right_part), l1 ++ right_part ++ l2).
Proof.
  destruct found_in as (_ & Hx & (Hr & Hl & Hp)). unfold in_region in Hx.
  destruct Hacc as (_ & Hlast & _). intros Hk Hwk. unfold right_part in *.
  destruct (decide (mr_last_address found = address + size - 1)) as [E|E].
  - rewrite (proj2 (Z.eqb_eq _ _) E). cbn [negb]. simpl. by rewrite Z.add_0_r.
  - rewrite (proj2 (Z.eqb_neq _ _) E). cbn [negb]. rewrite Allocate_region by lia. pstep.
    rewrite (u64_id (address + size)) by (unfold is_u64; lia).
    rewrite (u64_id (address + size - mr_address found)) by (unfold is_u64; lia).
    by rewrite region_insert_run, bind_Done_true by done.
Qed.

Lemma insert_left l1 l2 :
  regions_wf (l1 ++ left_part ++ new_part :: l2) →
  (if mr_address found =? address then
     t ← region_insert
           (MkRegion address (address + size - 1) (mr_pair_address found) new_attr type_id)
           (l1 ++ l2);
     mret (n, t)
   else
     t ← region_insert
           (MkRegion (mr_address found) (u64 (address - 1)) (mr_pair_address found) old_attr
              (mr_type_id found)) (l1 ++ l2);
     n ← KMemoryRegionAllocator_Allocate n;
     t ← region_insert
           (MkRegion address (address + size - 1)
              (pair_after (mr_pair_address found) (u64 (address - mr_address found))) new_attr
              type_id) t;
     mret (n, t)) =
  Done true (n + Z.of_nat (length left_part), (l1 ++ left_part ++ [new_part]) ++ l2).
Proof.
  destruct found_in as (_ & Hx & (Hr & Hl & Hp)). unfold in_region in Hx.
  destruct Hacc as (_ & Hlast & _). intros Hwk. unfold left_part in *.
  destruct (decide (mr_address found = address)) as [E|E].
  - rewrite (proj2 (Z.eqb_eq _ _) E). simpl in *. rewrite Z.add_0_r, <- app_assoc.
    assert (Enew : MkRegion address (address + size - 1) (mr_pair_address found) new_attr type_id
                   = new_part).
    { unfold new_part. f_equal. rewrite E, Z.sub_diag, pair_after_0; [done|].
      unfold u64_max in *. lia. }
    by rewrite Enew, region_insert_run, bind_Done_true by done.
  - rewrite (proj2 (Z.eqb_neq _ _) E).
    rewrite (u64_id (address - 1)), (u64_id (address - mr_address found))
      by (unfold is_u64; lia).
    fold new_part. rewrite region_insert_run.
    + pstep. rewrite Allocate_region by lia. pstep. rewrite (cons_middle _ l1 l2), (app_assoc l1).
      rewrite region_insert_run, bind_Done_true by (by rewrite <- app_assoc).
      by rewrite <- !app_assoc.
    + eapply regions_wf_sublist; [|exact Hwk]. simpl.
      apply sublist_app; [done|]. by do 2 constructor.
Qed.

Lemma Insert_accepted_run :
  ∃ l1 l2, t = l1 ++ found :: l2 ∧
    regions_wf (l1 ++ (left_part ++ new_part :: right_part) ++ l2) ∧
    KMemoryRegionTree_Insert n t address size type_id new_attr old_attr =
      Done true (true, n + Z.of_nat (length left_part + length right_part),
                 l1 ++ (left_part ++ new_part :: right_part) ++ l2).
Proof.
  destruct found_in as (_ & Hx & (Hr & Hl & Hp)). unfold in_region in Hx.
  destruct parts_wf as [Hpw Hpi].
  destruct (Find_split _ _ _ Hfound) as (l1 & l2 & Et & Eit). exists l1, l2.
  assert (Hw2 : regions_wf (l1 ++ (left_part ++ new_part :: right_part) ++ l2)).
  { eapply regions_replace; [by rewrite <- Et|done|done]. }
  split_and!; [done..|]. pose proof Hacc as (Ha & Hlast & Hd).
  assert (Hlr : u64 (u64 (address + size) - 1) = address + size - 1).
  { destruct (decide (address + size = 2 ^ 64)) as [->|]; [reflexivity|]. by u_simpl. }
  unfold KMemoryRegionTree_Insert. fold (KMemoryRegionTree_Find t address). rewrite Hfound. pstep.
  rewrite Hlr, Ha, Z.eqb_refl, (proj2 (Z.ltb_ge _ _)), Hd by lia. cbn [negb].
  assert (Her : tree_erase t (FindIterator t address) = Done true (l1 ++ l2, length l1)).
  { rewrite Eit, Et. unfold tree_erase. rewrite decide_True by (rewrite length_app; simpl; lia).
    by rewrite delete_middle. }
  rewrite Her, bind_Done_true, insert_left, bind_Done_true.
  - rewrite insert_right.
    + rewrite <- !app_assoc. simpl. do 3 f_equal. lia.
    + unfold left_part. case_decide; simpl; lia.
    + rewrite <- !app_assoc in *. simpl in *. done.
  - eapply regions_wf_sublist; [|exact Hw2]. rewrite <- !app_assoc. simpl.
    do 2 (apply sublist_app; [done|]). constructor. by apply sublist_inserts_l.
Qed.

Lemma parts_few : (length left_part + length right_part ≤ 2)%nat.
Proof. unfold left_part, right_part. repeat case_decide; simpl; lia. Qed.

Lemma describe_parts t' x :
  regions_wf t' → (∀ r, r ∈ left_part ++ new_part :: right_part → r ∈ t') → in_region found x →
  describe t' x =
    Some (if decide (address ≤ x < address + size)
          then (type_id, new_attr, (describe_region x found).2)
          else describe_region x found).
Proof.
  clear Hn Hend. destruct found_in as (_ & Hx & (Hr & Hl & Hp)). intros Hw' Hin Hxf.
  unfold in_region in *. destruct Hacc as (Ha & Hlast & _).
  assert (Hself : describe_region x found = (mr_type_id found, old_attr, (describe_region x found).2)).
  { unfold describe_region. simpl. congruence. }
  case_decide as E.
  - rewrite (describe_in t' new_part x Hw'); [|apply Hin; set_solver|unfold in_region; simpl; lia].
    f_equal. apply part_ok; [lia|lia|done|lia].
  - rewrite Hself. destruct (decide (x < address)).
    + rewrite (describe_in t' (MkRegion (mr_address found) (address - 1) (mr_pair_address found)
                 old_attr (mr_type_id found))); [|done| |unfold in_region; simpl; lia].
      * done.
      * apply Hin. unfold left_part. rewrite decide_False by lia. set_solver.
    + rewrite (describe_in t' (MkRegion (address + size) (mr_last_address found)
                 (pair_after (mr_pair_address found) (address + size - mr_address found))
                 old_attr (mr_type_id found))); [|done| |unfold in_region; simpl; lia].
      * f_equal. apply part_ok; [lia|lia|done|lia].
      * apply Hin. unfold right_part. rewrite (decide_False (P := mr_last_address found = _)) by lia.
        set_solver.
Qed.
End Insert.

(** C24: inserting a region into a tree of regions succeeds exactly when the
    region found at its address has the old attributes, reaches to its end and
    has a type that the new type derives from.  A failure changes nothing; a
    success gives the range its new type and attributes and leaves the type and
    attributes of all other addresses, and the address that any address is paired
    with, as they were, whether the region is cut at its start, at its end, at
    both or not at all. *)
Theorem KMemoryRegionTree_Insert_correct n t address size type_id new_attr old_attr found :
  regions_wf t → KMemoryRegionTree_Find t address = Some found → n + 2 ≤ MaxMemoryRegions →
  0 < size → address + size ≤ 2 ^ 64 →
  wp (KMemoryRegionTree_Insert n t address size type_id new_attr old_attr) (λ '(ok, n', t'),
    regions_wf t' ∧ n ≤ n' ≤ n + 2 ∧
    (ok = true ↔ insert_accepts address size type_id old_attr found) ∧
    (ok = false → n' = n ∧ t' = t) ∧
    (ok = true → ∀ x, describe t' x =
       if decide (address ≤ x < address + size)
       then (λ '(_, _, p), (type_id, new_attr, p)) <$> describe t x
       else describe t x)).
Proof.
  intros Hw Hfound Hn Hsize Hend.
  pose proof (found_in t address found Hw Hfound) as (Hin & Hx & Hok).
  destruct (decide (insert_accepts address size type_id old_attr found)) as [Hacc|Hacc].
  - destruct (Insert_accepted_run n t address size type_id new_attr old_attr found Hw Hfound Hn
                Hsize Hend Hacc) as (l1 & l2 & Et & Hw' & ->).
    pose proof (parts_few address size old_attr found) as Hfew.
    destruct (parts_wf t address size type_id new_attr old_attr found Hw Hfound Hsize Hacc)
      as [_ Hpi].
    apply wp_Done. split_and!; [done|lia|lia|done|done|]. intros _ x.
    destruct (decide (in_region found x)) as [Hxf|Hxf].
    + rewrite (describe_parts t address size type_id new_attr old_attr found Hw Hfound Hsize Hacc);
        [|done|set_solver|done].
      rewrite (describe_in t found x Hw Hin Hxf). by destruct (decide (address ≤ x < address + size)).
    + rewrite Et in Hw |- *. rewrite (describe_replace l1 found) by done.
      rewrite decide_False; [done|]. unfold in_region in *. destruct Hacc as (_ & ? & _). lia.
  - unfold KMemoryRegionTree_Insert. fold (KMemoryRegionTree_Find t address). rewrite Hfound. pstep.
    assert (Hlr : u64 (u64 (address + size) - 1) = address + size - 1).
    { destruct Hok as (? & _). unfold in_region in Hx.
      destruct (decide (address + size = 2 ^ 64)) as [->|]; [reflexivity|]. by u_simpl. }
    rewrite Hlr. unfold insert_accepts in *.
    destruct (mr_attributes found =? old_attr) eqn:E1; cbn [negb]; bool_prop;
      [|split_and!; naive_solver lia].
    destruct (mr_last_address found <? _) eqn:E2; bool_prop; [split_and!; naive_solver lia|].
    destruct (KMemoryRegion_CanDerive found type_id) eqn:E3; cbn [negb]; [|split_and!; naive_solver lia].
    exfalso. apply Hacc. split_and!; [done|lia|done].
Qed.

(** ** Copying regions *)
Definition strip_pair (r : KMemoryRegion) : KMemoryRegion :=
  region (mr_address r) (mr_last_address r) (mr_attributes r) (mr_type_id r).

Lemma strip_pair_ok r : region_ok r → region_ok (strip_pair r).
Proof. intros (? & ? & _). unfold region_ok. simpl. split_and!; [lia..|by left]. Qed.

Lemma regions_wf_strip t : regions_wf t → regions_wf (strip_pair <$> t).
Proof.
  intros [Hf Hs]. split.
  - apply Forall_fmap. eapply Forall_impl; [exact Hf|]. apply strip_pair_ok.
  - clear Hf. induction Hs as [|r t Hs IH Hf]; constructor; [done|].
    apply Forall_fmap. eapply Forall_impl; [exact Hf|]. done.
Qed.

Lemma copy_regions_run sel from : ∀ n t,
  regions_wf (t ++ from) →
  n + Z.of_nat (length (filter (λ r, sel r = true) from)) ≤ MaxMemoryRegions →
  copy_regions sel from n t =
    Done true (n + Z.of_nat (length (filter (λ r, sel r = true) from)),
               t ++ (strip_pair <$> filter (λ r, sel r = true) from)).
Proof.
  induction from as [|r from IH]; intros n t Hw Hn.
  { simpl. by rewrite app_nil_r, Z.add_0_r. }
  assert (Hwr : regions_wf ((t ++ [strip_pair r]) ++ from)).
  { rewrite <- app_assoc. simpl. eapply (regions_replace t r [strip_pair r] from); [done| |].
    - apply regions_wf_single, strip_pair_ok. eapply regions_wf_ok; [exact Hw|].
      apply elem_of_app. right. by left.
    - intros a ->%list_elem_of_singleton. simpl. lia. }
  rewrite filter_cons in *. cbn [copy_regions]. destruct (sel r) eqn:E.
  - rewrite decide_True in * by done. cbn [length fmap list_fmap] in *.
    unfold InsertDirectly. rewrite Allocate_region by lia. pstep.
    fold (strip_pair r). rewrite <- (app_nil_r t) at 1. rewrite region_insert_run.
    + pstep. rewrite IH by (done || lia). rewrite <- app_assoc. simpl. do 2 f_equal. lia.
    + eapply regions_wf_sublist; [|exact Hwr]. rewrite <- app_assoc. simpl.
      apply sublist_app; [done|]. constructor. apply sublist_nil_l.
  - rewrite decide_False in * by congruence. apply IH; [|done].
    eapply regions_wf_sublist; [|exact Hw]. apply sublist_app; [done|]. by constructor.
Qed.

(** Searching the copy finds the copy of the region found. *)
Lemma Find_copy sel t x :
  regions_wf t →
  KMemoryRegionTree_Find (strip_pair <$> filter (λ r, sel r = true) t) x =
    match KMemoryRegionTree_Find t x with
    | Some r => if sel r then Some (strip_pair r) else None
    | None => None
    end.
Proof.
  intros Hw. set (t' := filter (λ r, sel r = true) t).
  assert (Hw' : regions_wf t').
  { eapply regions_wf_sublist; [|exact Hw]. apply sublist_filter. }
  apply option_eq. intros r. rewrite Find_iff by (by apply regions_wf_strip).
  rewrite list_elem_of_fmap. unfold t'. setoid_rewrite list_elem_of_filter. split.
  - intros [(q & -> & Hs & Hq) Hx]. rewrite (proj2 (Find_iff t x q Hw)) by done. by rewrite Hs.
  - destruct (KMemoryRegionTree_Find t x) as [q|] eqn:E; [|done].
    apply (Find_iff t x q Hw) in E as [Hq Hx]. destruct (sel q) eqn:Es; [|done].
    intros [= <-]. split; [by exists q|done].
Qed.

(** Once the linear trees are made, the region that the linear tree has for an
    address is the one of the physical tree, if that is linear-mapped. *)
Lemma InitializeLinearMemoryRegionTrees_run l phys_start virt_start :
  regions_wf (m_physical_tree l) → regions_wf (m_virtual_tree l) →
  m_physical_linear_tree l = [] → m_virtual_linear_tree l = [] →
  m_num_regions l + Z.of_nat (length (m_physical_tree l) + length (m_virtual_tree l))
    ≤ MaxMemoryRegions →
  wp (InitializeLinearMemoryRegionTrees l phys_start virt_start) (λ l',
    m_physical_tree l' = m_physical_tree l ∧
    m_linear_phys_to_virt_diff l' = u64 (virt_start - phys_start) ∧
    m_linear_virt_to_phys_diff l' = u64 (phys_start - virt_start) ∧
    ∀ x, FindPhysicalLinear l' x =
      match KMemoryRegionTree_Find (m_physical_tree l) x with
      | Some r => if KMemoryRegion_HasTypeAttribute r KMemoryRegionAttr_LinearMapped
                  then Some (strip_pair r) else None
      | None => None
      end).
Proof.
  intros Hp Hv Ep Ev Hn. unfold InitializeLinearMemoryRegionTrees. rewrite Ep, Ev.
  assert (Hlen : ∀ (P : KMemoryRegion → Prop) `{∀ r, Decision (P r)} t,
    (length (filter P t) ≤ length t)%nat) by (intros; apply length_filter).
  pose proof (Hlen (λ r, KMemoryRegion_HasTypeAttribute r KMemoryRegionAttr_LinearMapped = true) _
    (m_physical_tree l)).
  pose proof (Hlen (λ r, KMemoryRegion_IsDerivedFrom r (GetValue KMemoryRegionType_Dram) = true) _
    (m_virtual_tree l)).
  rewrite copy_regions_run by (done || lia). pstep.
  rewrite copy_regions_run by (done || lia). pstep. apply wp_Done. simpl. split_and!; [done..|].
  intros x. apply (Find_copy (λ r, KMemoryRegion_HasTypeAttribute r KMemoryRegionAttr_LinearMapped)).
  done.
Qed.
