(* ===== verification/PageGroup.v ===== *)
(** * Device memory and page groups
    (src/src/core/device_memory.h, src/src/common/host_memory.cpp,
    src/src/core/hle/kernel/k_page_group.h, k_page_group.cpp)

    A page group is the list of its blocks in order; the block infos come from a
    slab of their own ([KBlockInfoManager], a [KDynamicResourceManager] as for
    memory blocks). *)

From S2P Require Import Prelude Common MemoryBlockManager.

(** ** Device memory

    The bytes of the guest's DRAM by their physical address; a byte that was
    never written is 0.  [GetPointer] is the identity on addresses. *)
Abbreviation DeviceMemory := (gmap Z Z).

Definition mem_byte (m : DeviceMemory) (a : Z) : Z := u8 (default 0 (m !! a)).

(** The [n] bytes from [a] on as a little-endian number. *)
Fixpoint mem_load (n : nat) (m : DeviceMemory) (a : Z) : Z :=
  match n with
  | O => 0
  | S n => mem_byte m a + 2 ^ 8 * mem_load n m (a + 1)
  end.

Fixpoint mem_store (n : nat) (m : DeviceMemory) (a v : Z) : DeviceMemory :=
  match n with
  | O => m
  | S n => <[a := u8 v]> (mem_store n m (a + 1) (v / 2 ^ 8))
  end.

Definition load_u64 (m : DeviceMemory) (a : Z) : Z := mem_load 8 m a.
Definition store_u64 (m : DeviceMemory) (a v : Z) : DeviceMemory := mem_store 8 m a v.

(** [std::memset] of [n] bytes. *)
Fixpoint memset (n : nat) (m : DeviceMemory) (a v : Z) : DeviceMemory :=
  match n with
  | O => m
  | S n => memset n (<[a := u8 v]> m) (a + 1) v
  end.

Definition ClearBackingRegion (m : DeviceMemory) (address length fill_value : Z) : DeviceMemory :=
  memset (Z.to_nat length) m address fill_value.

(** ** KBlockInfo *)
Record KBlockInfo : Type := MkBlockInfo {
  bi_page_index : Z;
  bi_num_pages : Z
}.

#[export] Instance KBlockInfo_eq_dec : EqDecision KBlockInfo.
Proof. solve_decision. Defined.

Definition KBlockInfo_Initialize (addr np : Z) : prog KBlockInfo :=
  _ ← ASSERT (IsAligned addr PageSize);
  _ ← ASSERT (u32 np =? np);
  mret (MkBlockInfo (u32 (addr / PageSize)) (u32 np)).

Definition KBlockInfo_GetAddress (b : KBlockInfo) : Z := u64 (bi_page_index b * PageSize).
Definition KBlockInfo_GetNumPages (b : KBlockInfo) : Z := bi_num_pages b.
Definition KBlockInfo_GetSize (b : KBlockInfo) : Z := u64 (KBlockInfo_GetNumPages b * PageSize).

(** The sum of the two 32-bit members wraps at 32 bits. *)
Definition KBlockInfo_GetEndAddress (b : KBlockInfo) : Z :=
  u64 (u32 (bi_page_index b + bi_num_pages b) * PageSize).
Definition KBlockInfo_GetLastAddress (b : KBlockInfo) : Z := u64 (KBlockInfo_GetEndAddress b - 1).

Definition KBlockInfo_IsEquivalentTo (b rhs : KBlockInfo) : bool :=
  (bi_page_index b =? bi_page_index rhs) && (bi_num_pages b =? bi_num_pages rhs).

Definition KBlockInfo_IsStrictlyBefore (b : KBlockInfo) (addr : Z) : bool :=
  let nd := KBlockInfo_GetEndAddress b in
  if negb (bi_page_index b =? 0) && (nd =? 0) then false else nd <? addr.

(** The block extended, if the pages follow it. *)
Definition KBlockInfo_TryConcatenate (b : KBlockInfo) (addr np : Z) : option KBlockInfo :=
  if negb (addr =? 0) && (addr =? KBlockInfo_GetEndAddress b)
  then Some (MkBlockInfo (bi_page_index b) (u32 (bi_num_pages b + u32 np)))
  else None.

(** ** KPageGroup *)
Abbreviation KPageGroup := (list KBlockInfo).

Definition KPageGroup_empty (g : KPageGroup) : bool := match g with [] => true | _ => false end.

Definition KPageGroup_GetNumPages (g : KPageGroup) : Z :=
  foldl (λ num_pages b, u64 (num_pages + KBlockInfo_GetNumPages b)) 0 g.

Fixpoint KPageGroup_IsEquivalentTo (g rhs : KPageGroup) : bool :=
  match g, rhs with
  | b :: g, c :: rhs =>
      if negb (KBlockInfo_IsEquivalentTo b c) then false else KPageGroup_IsEquivalentTo g rhs
  | [], [] => true
  | _, _ => false
  end.

Section Group.
Context {S : Type} `{SlabManager S}.

Definition KPageGroup_Finalize (s : S) (g : KPageGroup) : S * KPageGroup :=
  (foldl (λ s _, slab_Free s) s g, []).

(** A block info allocated, initialised and linked behind the last block. *)
Definition append_block (s : S) (g : KPageGroup) (addr num_pages : Z)
    : prog (Z * S * KPageGroup) :=
  match slab_Allocate s with
  | None => mret (ResultOutOfResource, s, g)
  | Some s =>
      new_block ← KBlockInfo_Initialize addr num_pages;
      mret (ResultSuccess, s, g ++ [new_block])
  end.

Definition KPageGroup_AddBlock (s : S) (g : KPageGroup) (addr num_pages : Z)
    : prog (Z * S * KPageGroup) :=
  if num_pages =? 0 then mret (ResultSuccess, s, g)
  else
    _ ← ASSERT (addr <? u64 (addr + u64 (num_pages * PageSize)));
    match last g with
    | Some last_block =>
        match KBlockInfo_TryConcatenate last_block addr num_pages with
        | Some b => mret (ResultSuccess, s, <[pred (length g) := b]> g)
        | None => append_block s g addr num_pages
        end
    | None => append_block s g addr num_pages
    end.
End Group.
