(* ===== verification/MemoryManager.v ===== *)
(** * KMemoryManager
    (src/src/core/hle/kernel/k_memory_manager.h, k_memory_manager.cpp,
    initial_process.h, and the functions of k_page_group.cpp that use it)

    The managers of the regions of physical memory, each a page heap with a
    reference count for every page, linked into a list for each pool.  Every
    operation runs under the lock of its pool ([KLightLock]): the locks are not
    part of the state, only that the pool has one. *)

From S2P Require Import Prelude Common MemoryBlockManager PageBitmap PageHeap MemoryRegionType MemoryRegion MemoryLayout PageGroup.

(** ** Pools and options *)
Definition Pool_Application : Z := 0.
Definition Pool_Applet : Z := 1.
Definition Pool_System : Z := 2.
Definition Pool_SystemNonSecure : Z := 3.
Definition Pool_Count : Z := 4.
Definition Pool_Shift : Z := 4.
Definition Pool_Mask : Z := 0xF0.

Definition Direction_FromFront : Z := 0.
Definition Direction_FromBack : Z := 1.
Definition Direction_Shift : Z := 0.
Definition Direction_Mask : Z := 0xF.

Definition MaxManagerCount : Z := 10.

Definition EncodeOption (pool dir : Z) : Z :=
  Z.lor (u32 (Z.shiftl pool Pool_Shift)) (u32 (Z.shiftl dir Direction_Shift)).
Definition GetPool (option : Z) : Z := Z.shiftr (Z.land option Pool_Mask) Pool_Shift.
Definition GetDirection (option : Z) : Z :=
  Z.shiftr (Z.land option Direction_Mask) Direction_Shift.
Definition DecodeOption (option : Z) : Z * Z := (GetPool option, GetDirection option).

(** There is a lock for each of the four pools. *)
Definition lock_pool (pool : Z) : prog unit :=
  if (0 <=? pool) && (pool <? Pool_Count) then mret () else Stuck.

(** ** KPageHeap: the accessors *)
Section HeapAddress.
Context {R : Type}.
Definition KPageHeap_GetEndAddress (h : KPageHeap R) : Z :=
  u64 (m_heap_address h + m_heap_size h).
Definition KPageHeap_GetPageOffset (h : KPageHeap R) (block : Z) : Z :=
  u64 (block - m_heap_address h) / PageSize.
Definition KPageHeap_GetPageOffsetToEnd (h : KPageHeap R) (block : Z) : Z :=
  u64 (KPageHeap_GetEndAddress h - block) / PageSize.
End HeapAddress.

(** ** KMemoryManager::Impl

    A pointer to another manager is its index. *)
Record Impl (R : Type) : Type := MkImpl {
  m_heap : KPageHeap R;
  m_page_reference_counts : list Z;
  m_management_region : Z;
  m_pool : Z;
  m_next : option nat;
  m_prev : option nat
}.
Arguments MkImpl {R}.
Arguments m_heap {R}.
Arguments m_page_reference_counts {R}.
Arguments m_management_region {R}.
Arguments m_pool {R}.
Arguments m_next {R}.
Arguments m_prev {R}.

(** ** KMemoryManager

    [mm_memory] is the device memory, which the managers reach through the
    system. *)
Record KMemoryManager (R : Type) : Type := MkMemoryManager {
  m_memory_layout : KMemoryLayout;
  m_pool_managers_head : list (option nat);
  m_pool_managers_tail : list (option nat);
  m_managers : list (Impl R);
  m_num_managers : Z;
  m_optimized_process_ids : list Z;
  m_has_optimized_process : list bool;
  mm_memory : DeviceMemory
}.
Arguments MkMemoryManager {R}.
Arguments m_memory_layout {R}.
Arguments m_pool_managers_head {R}.
Arguments m_pool_managers_tail {R}.
Arguments m_managers {R}.
Arguments m_num_managers {R}.
Arguments m_optimized_process_ids {R}.
Arguments m_has_optimized_process {R}.
Arguments mm_memory {R}.

Section Manager.
Context {R : Type} `{Rng R}.
Implicit Types (im : Impl R) (mm : KMemoryManager R).

Definition set_heap (h : KPageHeap R) im : Impl R :=
  MkImpl h (m_page_reference_counts im) (m_management_region im) (m_pool im) (m_next im) (m_prev im).
Definition set_counts (counts : list Z) im : Impl R :=
  MkImpl (m_heap im) counts (m_management_region im) (m_pool im) (m_next im) (m_prev im).
Definition SetNext (n : option nat) im : Impl R :=
  MkImpl (m_heap im) (m_page_reference_counts im) (m_management_region im) (m_pool im) n (m_prev im).
Definition SetPrev (n : option nat) im : Impl R :=
  MkImpl (m_heap im) (m_page_reference_counts im) (m_management_region im) (m_pool im) (m_next im) n.

(** The block index of the heap is an [s32]; [m_blocks[-1]] is undefined. *)
Definition Impl_AllocateBlock im (index : Z) (random : bool) : prog (Z * Impl R) :=
  if index <? 0 then Stuck
  else '(a, h) ← KPageHeap_AllocateBlock (m_heap im) (Z.to_nat index) random;
       mret (a, set_heap h im).

Definition Impl_AllocateAligned im (index num_pages align_pages : Z) : prog (Z * Impl R) :=
  if index <? 0 then Stuck
  else '(a, h) ← KPageHeap_AllocateAligned (m_heap im) (Z.to_nat index) num_pages align_pages;
       mret (a, set_heap h im).

Definition Impl_Free im (addr num_pages : Z) : prog (Impl R) :=
  h ← KPageHeap_Free (m_heap im) addr num_pages; mret (set_heap h im).

Definition SetInitialUsedHeapSize im (reserved_size : Z) : prog (Impl R) :=
  h ← KPageHeap_SetInitialUsedSize (m_heap im) reserved_size; mret (set_heap h im).

Definition Impl_GetPageOffset im (address : Z) : Z := KPageHeap_GetPageOffset (m_heap im) address.
Definition Impl_GetPageOffsetToEnd im (address : Z) : Z :=
  KPageHeap_GetPageOffsetToEnd (m_heap im) address.

(** *** References

    The loop of [Open] and [OpenFirst]: [check] is what is asserted of the new
    count. *)
Fixpoint open_loop (check : Z → bool) (fuel : nat) (counts : list Z) (index nd : Z)
    : prog (list Z) :=
  if index <? nd then
    match fuel with
    | O => Stuck
    | S fuel =>
        c ← arr_get counts index;
        let ref_count := u16 (c + 1) in
        counts ← arr_set counts index ref_count;
        _ ← ASSERT (check ref_count);
        open_loop check fuel counts (u64 (index + 1)) nd
    end
  else mret counts.

Definition Impl_OpenFirst im (address num_pages : Z) : prog (Impl R) :=
  let index := Impl_GetPageOffset im address in
  let nd := u64 (index + num_pages) in
  counts ← open_loop (λ c, c =? 1) (Z.to_nat num_pages) (m_page_reference_counts im) index nd;
  mret (set_counts counts im).

Definition Impl_Open im (address num_pages : Z) : prog (Impl R) :=
  let index := Impl_GetPageOffset im address in
  let nd := u64 (index + num_pages) in
  counts ← open_loop (λ c, 1 <? c) (Z.to_nat num_pages) (m_page_reference_counts im) index nd;
  mret (set_counts counts im).

(** The run of pages without references seen last is freed as one. *)
Definition free_run im (free_start free_count : Z) : prog (Impl R) :=
  if 0 <? free_count then
    Impl_Free im (u64 (m_heap_address (m_heap im) + u64 (free_start * PageSize))) free_count
  else mret im.

Fixpoint close_loop (fuel : nat) im (index nd free_start free_count : Z) : prog (Impl R * Z * Z) :=
  if index <? nd then
    match fuel with
    | O => Stuck
    | S fuel =>
        c ← arr_get (m_page_reference_counts im) index;
        _ ← ASSERT (0 <? c);
        let ref_count := u16 (c - 1) in
        counts ← arr_set (m_page_reference_counts im) index ref_count;
        let im := set_counts counts im in
        if ref_count =? 0 then
          if 0 <? free_count then
            close_loop fuel im (u64 (index + 1)) nd free_start (u64 (free_count + 1))
          else close_loop fuel im (u64 (index + 1)) nd index 1
        else
          im ← free_run im free_start free_count;
          close_loop fuel im (u64 (index + 1)) nd free_start 0
    end
  else mret (im, free_start, free_count).

Definition Impl_Close im (address num_pages : Z) : prog (Impl R) :=
  let index := Impl_GetPageOffset im address in
  let nd := u64 (index + num_pages) in
  '(im, free_start, free_count) ← close_loop (Z.to_nat num_pages) im index nd 0 0;
  free_run im free_start free_count.

(** *** The map of the pages of an optimized process

    An array of 64-bit words in the device memory, at the physical address of the
    management region; a bit is set when its page was handed to the optimized
    process and to no other one since. *)
Definition optimize_map (l : KMemoryLayout) im : Z :=
  GetLinearPhysicalAddress l (m_management_region im).

Definition Impl_InitializeOptimizedMemory (l : KMemoryLayout) im (m : DeviceMemory)
    : DeviceMemory :=
  memset (Z.to_nat (CalculateOptimizedProcessOverheadSize (m_heap_size (m_heap im)))) m
    (optimize_map l im) 0.

Definition optimize_word (pa offset : Z) : Z := pa + 8 * (offset / 64).
Definition optimize_bit (offset : Z) : Z := u64 (Z.shiftl 1 (offset mod 64)).

(** [while (offset <= last)]: the words between are changed by [f]. *)
Fixpoint track_loop (f : Z → Z → Z) (fuel : nat) (m : DeviceMemory) (pa offset last : Z)
    : prog DeviceMemory :=
  if offset <=? last then
    match fuel with
    | O => Stuck
    | S fuel =>
        let w := optimize_word pa offset in
        let m := store_u64 m w (f (load_u64 m w) (optimize_bit offset)) in
        track_loop f fuel m pa (u64 (offset + 1)) last
    end
  else mret m.

Definition TrackUnoptimizedAllocation (l : KMemoryLayout) im (m : DeviceMemory)
    (block num_pages : Z) : prog DeviceMemory :=
  let offset := Impl_GetPageOffset im block in
  let last := u64 (u64 (offset + num_pages) - 1) in
  track_loop (λ w b, Z.land w (u64 (Z.lnot b))) (Z.to_nat num_pages) m (optimize_map l im) offset
    last.

Definition TrackOptimizedAllocation (l : KMemoryLayout) im (m : DeviceMemory)
    (block num_pages : Z) : prog DeviceMemory :=
  let offset := Impl_GetPageOffset im block in
  let last := u64 (u64 (offset + num_pages) - 1) in
  track_loop (λ w b, Z.lor w b) (Z.to_nat num_pages) m (optimize_map l im) offset last.

Fixpoint process_loop (fuel : nat) (m : DeviceMemory) (pa heap_address offset last fill : Z)
    (any_new : bool) : prog (bool * DeviceMemory) :=
  if offset <=? last then
    match fuel with
    | O => Stuck
    | S fuel =>
        if Z.land (load_u64 m (optimize_word pa offset)) (optimize_bit offset) =? 0 then
          let m := memset (Z.to_nat PageSize) m (u64 (heap_address + u64 (offset * PageSize))) fill in
          process_loop fuel m pa heap_address (u64 (offset + 1)) last fill true
        else process_loop fuel m pa heap_address (u64 (offset + 1)) last fill any_new
    end
  else mret (any_new, m).

Definition ProcessOptimizedAllocation (l : KMemoryLayout) im (m : DeviceMemory)
    (block num_pages fill_pattern : Z) : prog (bool * DeviceMemory) :=
  let offset := Impl_GetPageOffset im block in
  let last := u64 (u64 (offset + num_pages) - 1) in
  process_loop (Z.to_nat num_pages) m (optimize_map l im) (m_heap_address (m_heap im)) offset last
    fill_pattern false.

(** *** Initialize

    [data] is where the host puts the bitmaps of the heap; the vector of
    reference counts has a count for every page of the system's memory. *)
Definition vector_resize (n : nat) (l : list Z) : list Z := take n l ++ replicate (n - length l) 0.

Definition Impl_Initialize (mode : MemoryLayoutMode) im
    (address size management management_end p data : Z) : prog (Z * Impl R) :=
  let ref_count_size := size / PageSize * 2 in
  let optimize_map_size := CalculateOptimizedProcessOverheadSize size in
  let manager_size := AlignUp (u64 (optimize_map_size + ref_count_size)) PageSize in
  let page_heap_size := KPageHeap_CalculateManagementOverheadSize size in
  let total_management_size := u64 (manager_size + page_heap_size) in
  _ ← ASSERT (manager_size <=? total_management_size);
  _ ← ASSERT (u64 (management + total_management_size) <=? management_end);
  _ ← ASSERT (IsAligned total_management_size PageSize);
  let counts := vector_resize (Z.to_nat (GetIntendedMemorySize mode / PageSize))
                  (m_page_reference_counts im) in
  _ ← ASSERT (IsAligned management PageSize);
  h ← KPageHeap_Initialize (m_heap im) address size (u64 (management + manager_size))
        page_heap_size data;
  mret (total_management_size, MkImpl h counts management p (m_next im) (m_prev im)).

(** ** The managers *)
Definition set_managers (l : list (Impl R)) mm : KMemoryManager R :=
  MkMemoryManager (m_memory_layout mm) (m_pool_managers_head mm) (m_pool_managers_tail mm) l
    (m_num_managers mm) (m_optimized_process_ids mm) (m_has_optimized_process mm) (mm_memory mm).
Definition set_manager (i : nat) im mm : KMemoryManager R := set_managers (<[i := im]> (m_managers mm)) mm.
Definition set_memory (m : DeviceMemory) mm : KMemoryManager R :=
  MkMemoryManager (m_memory_layout mm) (m_pool_managers_head mm) (m_pool_managers_tail mm)
    (m_managers mm) (m_num_managers mm) (m_optimized_process_ids mm) (m_has_optimized_process mm) m.

(** The index of the manager of an address, and the manager. *)
Definition GetManager mm (address : Z) : prog (nat * Impl R) :=
  r ← GetPhysicalLinearRegion (m_memory_layout mm) address;
  im ← arr_get (m_managers mm) (mr_attributes r);
  mret (Z.to_nat (mr_attributes r), im).

Definition KMemoryManager_GetPool mm (address : Z) : prog Z :=
  '(_, im) ← GetManager mm address; mret (m_pool im).

Definition GetFirstManager mm (pool dir : Z) : prog (option nat) :=
  if dir =? Direction_FromBack then arr_get (m_pool_managers_tail mm) pool
  else arr_get (m_pool_managers_head mm) pool.

Definition GetNextManager mm (cur : nat) (dir : Z) : prog (option nat) :=
  im ← deref (m_managers mm !! cur);
  mret (if dir =? Direction_FromBack then m_prev im else m_next im).

(** The loops of [Open], [OpenFirst] and [Close]: a part for each manager that
    the range reaches. *)
Fixpoint split_loop (f : Impl R → Z → Z → prog (Impl R)) (fuel : nat) mm (address num_pages : Z)
    : prog (KMemoryManager R) :=
  if num_pages =? 0 then mret mm
  else
    match fuel with
    | O => Stuck
    | S fuel =>
        '(i, im) ← GetManager mm address;
        let cur_pages := Z.min num_pages (Impl_GetPageOffsetToEnd im address) in
        _ ← lock_pool (m_pool im);
        im ← f im address cur_pages;
        split_loop f fuel (set_manager i im mm) (u64 (address + u64 (cur_pages * PageSize)))
          (u64 (num_pages - cur_pages))
    end.

Definition KMemoryManager_Open mm (address num_pages : Z) : prog (KMemoryManager R) :=
  split_loop Impl_Open (Z.to_nat num_pages) mm address num_pages.
Definition KMemoryManager_OpenFirst mm (address num_pages : Z) : prog (KMemoryManager R) :=
  split_loop Impl_OpenFirst (Z.to_nat num_pages) mm address num_pages.
Definition KMemoryManager_Close mm (address num_pages : Z) : prog (KMemoryManager R) :=
  split_loop Impl_Close (Z.to_nat num_pages) mm address num_pages.

(** *** Sizes *)
Definition KMemoryManager_GetSize mm : Z :=
  foldl (λ total im, u64 (total + m_heap_size (m_heap im))) 0
    (take (Z.to_nat (m_num_managers mm)) (m_managers mm)).

(** The managers of a pool from [cur] on, [f] of each added up. *)
Fixpoint pool_sum (f : Impl R → Z) (fuel : nat) mm (cur : option nat) (total : Z) : prog Z :=
  match cur with
  | None => mret total
  | Some i =>
      match fuel with
      | O => Stuck
      | S fuel =>
          im ← deref (m_managers mm !! i);
          next ← GetNextManager mm i Direction_FromFront;
          pool_sum f fuel mm next (u64 (total + f im))
      end
  end.

Definition GetSize_pool mm (pool : Z) : prog Z :=
  first ← GetFirstManager mm pool Direction_FromFront;
  pool_sum (λ im, m_heap_size (m_heap im)) (Z.to_nat MaxManagerCount) mm first 0.

Definition KMemoryManager_GetFreeSize mm : Z :=
  foldl (λ total im, u64 (total + KPageHeap_GetFreeSize (m_heap im))) 0
    (take (Z.to_nat (m_num_managers mm)) (m_managers mm)).

Definition GetFreeSize_pool mm (pool : Z) : prog Z :=
  _ ← lock_pool pool;
  first ← GetFirstManager mm pool Direction_FromFront;
  pool_sum (λ im, KPageHeap_GetFreeSize (m_heap im)) (Z.to_nat MaxManagerCount) mm first 0.

(** *** Optimized processes *)
Fixpoint clear_optimized_loop (fuel : nat) mm (cur : option nat) : prog (KMemoryManager R) :=
  match cur with
  | None => mret mm
  | Some i =>
      match fuel with
      | O => Stuck
      | S fuel =>
          im ← deref (m_managers mm !! i);
          let mm := set_memory (Impl_InitializeOptimizedMemory (m_memory_layout mm) im
                                  (mm_memory mm)) mm in
          next ← GetNextManager mm i Direction_FromFront;
          clear_optimized_loop fuel mm next
      end
  end.

Definition set_optimized (ids : list Z) (has : list bool) mm : KMemoryManager R :=
  MkMemoryManager (m_memory_layout mm) (m_pool_managers_head mm) (m_pool_managers_tail mm)
    (m_managers mm) (m_num_managers mm) ids has (mm_memory mm).

Definition InitializeOptimizedMemory mm (process_id pool : Z) : prog (Z * KMemoryManager R) :=
  _ ← lock_pool pool;
  has ← arr_get (m_has_optimized_process mm) pool;
  if has : bool then mret (ResultBusy, mm)
  else
    ids ← arr_set (m_optimized_process_ids mm) pool process_id;
    has ← arr_set (m_has_optimized_process mm) pool true;
    let mm := set_optimized ids has mm in
    first ← GetFirstManager mm pool Direction_FromFront;
    mm ← clear_optimized_loop (Z.to_nat MaxManagerCount) mm first;
    mret (ResultSuccess, mm).

Definition FinalizeOptimizedMemory mm (process_id pool : Z) : prog (KMemoryManager R) :=
  _ ← lock_pool pool;
  has ← arr_get (m_has_optimized_process mm) pool;
  id ← arr_get (m_optimized_process_ids mm) pool;
  if has && (id =? process_id) then
    has ← arr_set (m_has_optimized_process mm) pool false;
    mret (set_optimized (m_optimized_process_ids mm) has mm)
  else mret mm.

(** *** Contiguous allocation *)
Fixpoint continuous_loop (fuel : nat) mm (cur : option nat)
    (dir heap_index num_pages align_pages : Z) : prog (Z * option nat * KMemoryManager R) :=
  match cur with
  | None => mret (0, None, mm)
  | Some i =>
      match fuel with
      | O => Stuck
      | S fuel =>
          im ← deref (m_managers mm !! i);
          '(block, im) ← Impl_AllocateAligned im heap_index num_pages align_pages;
          let mm := set_manager i im mm in
          if negb (block =? 0) then mret (block, Some i, mm)
          else
            next ← GetNextManager mm i dir;
            continuous_loop fuel mm next dir heap_index num_pages align_pages
      end
  end.

Definition AllocateAndOpenContinuous mm (num_pages align_pages option : Z)
    : prog (Z * KMemoryManager R) :=
  if num_pages =? 0 then mret (0, mm)
  else
    let '(pool, dir) := DecodeOption option in
    _ ← lock_pool pool;
    let heap_index := GetAlignedBlockIndex num_pages align_pages in
    first ← GetFirstManager mm pool dir;
    '(allocated_block, chosen_manager, mm) ←
      continuous_loop (Z.to_nat MaxManagerCount) mm first dir heap_index num_pages align_pages;
    if allocated_block =? 0 then mret (0, mm)
    else
      chosen ← deref chosen_manager;
      im ← deref (m_managers mm !! chosen);
      has ← arr_get (m_has_optimized_process mm) pool;
      m ← (if has : bool then
             TrackUnoptimizedAllocation (m_memory_layout mm) im (mm_memory mm) allocated_block
               num_pages
           else mret (mm_memory mm));
      let mm := set_memory m mm in
      im ← Impl_OpenFirst im allocated_block num_pages;
      mret (allocated_block, set_manager chosen im mm).

(** *** Page groups *)
Section Groups.
Context {S : Type} `{SlabManager S}.

Definition ret_group : Type := Z * KMemoryManager R * S * KPageGroup * Z.

(** [while (num_pages >= pages_per_alloc)] on one manager; the failure guard of
    the block is the [Impl_Free] of the failing branch. *)
Fixpoint block_loop (fuel : nat) mm (s : S) (g : KPageGroup) (i : nat) (index : Z)
    (unoptimized random : bool) (pages_per_alloc num_pages : Z) : prog ret_group :=
  if pages_per_alloc <=? num_pages then
    match fuel with
    | O => Stuck
    | Datatypes.S fuel =>
        im ← deref (m_managers mm !! i);
        '(allocated_block, im) ← Impl_AllocateBlock im index random;
        let mm := set_manager i im mm in
        if allocated_block =? 0 then mret (ResultSuccess, mm, s, g, num_pages)
        else
          '(r, s, g) ← KPageGroup_AddBlock s g allocated_block pages_per_alloc;
          if negb (Result_IsSuccess r) then
            im ← Impl_Free im allocated_block pages_per_alloc;
            mret (r, set_manager i im mm, s, g, num_pages)
          else
            m ← (if unoptimized then
                   TrackUnoptimizedAllocation (m_memory_layout mm) im (mm_memory mm)
                     allocated_block pages_per_alloc
                 else mret (mm_memory mm));
            block_loop fuel (set_memory m mm) s g i index unoptimized random pages_per_alloc
              (u64 (num_pages - pages_per_alloc))
    end
  else mret (ResultSuccess, mm, s, g, num_pages).

Fixpoint manager_loop (fuel : nat) mm (s : S) (g : KPageGroup) (cur : option nat) (dir index : Z)
    (unoptimized random : bool) (pages_per_alloc num_pages : Z) : prog ret_group :=
  match cur with
  | None => mret (ResultSuccess, mm, s, g, num_pages)
  | Some i =>
      match fuel with
      | O => Stuck
      | Datatypes.S fuel =>
          '(r, mm, s, g, num_pages) ←
            block_loop (Z.to_nat num_pages) mm s g i index unoptimized random pages_per_alloc
              num_pages;
          if negb (Result_IsSuccess r) then mret (r, mm, s, g, num_pages)
          else
            next ← GetNextManager mm i dir;
            manager_loop fuel mm s g next dir index unoptimized random pages_per_alloc num_pages
      end
  end.

(** [for (index = heap_index; index >= 0 && num_pages > 0; index--)], with [n]
    sizes left. *)
Fixpoint index_loop (n : nat) mm (s : S) (g : KPageGroup) (pool dir : Z)
    (unoptimized random : bool) (num_pages : Z) : prog ret_group :=
  match n with
  | O => mret (ResultSuccess, mm, s, g, num_pages)
  | Datatypes.S n =>
      if 0 <? num_pages then
        pages_per_alloc ← GetBlockNumPages (Z.of_nat n);
        first ← GetFirstManager mm pool dir;
        '(r, mm, s, g, num_pages) ←
          manager_loop (Z.to_nat MaxManagerCount) mm s g first dir (Z.of_nat n) unoptimized random
            pages_per_alloc num_pages;
        if negb (Result_IsSuccess r) then mret (r, mm, s, g, num_pages)
        else index_loop n mm s g pool dir unoptimized random num_pages
      else mret (ResultSuccess, mm, s, g, num_pages)
  end.

(** The failure guard: the blocks of the group are freed, each in the manager of
    its first page. *)
Fixpoint free_blocks_loop mm (blocks : list KBlockInfo) : prog (KMemoryManager R) :=
  match blocks with
  | [] => mret mm
  | it :: blocks =>
      '(i, im) ← GetManager mm (KBlockInfo_GetAddress it);
      let node_num_pages :=
        Z.min (KBlockInfo_GetNumPages it)
          (u64 (KPageHeap_GetEndAddress (m_heap im) - KBlockInfo_GetAddress it) / PageSize) in
      im ← Impl_Free im (KBlockInfo_GetAddress it) node_num_pages;
      free_blocks_loop (set_manager i im mm) blocks
  end.

Definition AllocatePageGroupImpl mm (s : S) (out : KPageGroup) (num_pages pool dir : Z)
    (unoptimized random : bool) : prog (Z * KMemoryManager R * S * KPageGroup) :=
  heap_index ← GetBlockIndex num_pages;
  if negb (0 <=? heap_index) then mret (ResultOutOfMemory, mm, s, out)
  else
    '(r, mm, s, out, num_pages) ←
      index_loop (Z.to_nat (heap_index + 1)) mm s out pool dir unoptimized random num_pages;
    let r := if Result_IsSuccess r && negb (num_pages =? 0) then ResultOutOfMemory else r in
    if negb (Result_IsSuccess r) then
      mm ← free_blocks_loop mm out;
      let '(s, out) := KPageGroup_Finalize s out in
      mret (r, mm, s, out)
    else mret (ResultSuccess, mm, s, out).

(** [mm.f(block.GetAddress(), block.GetNumPages())] for each block of a group. *)
Fixpoint group_loop (f : KMemoryManager R → Z → Z → prog (KMemoryManager R)) mm
    (blocks : list KBlockInfo) : prog (KMemoryManager R) :=
  match blocks with
  | [] => mret mm
  | b :: blocks =>
      mm ← f mm (KBlockInfo_GetAddress b) (KBlockInfo_GetNumPages b); group_loop f mm blocks
  end.

Definition AllocateAndOpen mm (s : S) (out : KPageGroup) (num_pages option : Z)
    : prog (Z * KMemoryManager R * S * KPageGroup) :=
  _ ← ASSERT (KPageGroup_GetNumPages out =? 0);
  if num_pages =? 0 then mret (ResultSuccess, mm, s, out)
  else
    let '(pool, dir) := DecodeOption option in
    _ ← lock_pool pool;
    has ← arr_get (m_has_optimized_process mm) pool;
    '(r, mm, s, out) ← AllocatePageGroupImpl mm s out num_pages pool dir has true;
    if negb (Result_IsSuccess r) then mret (r, mm, s, out)
    else
      mm ← group_loop KMemoryManager_OpenFirst mm out;
      mret (ResultSuccess, mm, s, out).

(** The two passes over a block of an optimized allocation.  [any_new] is what
    the last manager returned. *)
Fixpoint process_block (fuel : nat) mm (cur_address remaining_pages fill_pattern : Z)
    (any_new : bool) : prog (bool * KMemoryManager R) :=
  if 0 <? remaining_pages then
    match fuel with
    | O => Stuck
    | Datatypes.S fuel =>
        '(_, im) ← GetManager mm cur_address;
        let cur_pages := Z.min remaining_pages (Impl_GetPageOffsetToEnd im cur_address) in
        '(any_new, m) ← ProcessOptimizedAllocation (m_memory_layout mm) im (mm_memory mm)
                          cur_address cur_pages fill_pattern;
        process_block fuel (set_memory m mm) (u64 (cur_address + u64 (cur_pages * PageSize)))
          (u64 (remaining_pages - cur_pages)) fill_pattern any_new
    end
  else mret (any_new, mm).

Fixpoint track_block (fuel : nat) mm (cur_address remaining_pages : Z)
    : prog (KMemoryManager R) :=
  if 0 <? remaining_pages then
    match fuel with
    | O => Stuck
    | Datatypes.S fuel =>
        '(_, im) ← GetManager mm cur_address;
        _ ← lock_pool (m_pool im);
        let cur_pages := Z.min remaining_pages (Impl_GetPageOffsetToEnd im cur_address) in
        m ← TrackOptimizedAllocation (m_memory_layout mm) im (mm_memory mm) cur_address cur_pages;
        track_block fuel (set_memory m mm) (u64 (cur_address + u64 (cur_pages * PageSize)))
          (u64 (remaining_pages - cur_pages))
    end
  else mret mm.

Fixpoint optimized_loop mm (blocks : list KBlockInfo) (fill_pattern : Z)
    : prog (KMemoryManager R) :=
  match blocks with
  | [] => mret mm
  | b :: blocks =>
      let block_address := KBlockInfo_GetAddress b in
      let block_pages := KBlockInfo_GetNumPages b in
      if block_pages =? 0 then optimized_loop mm blocks fill_pattern
      else
        '(any_new, mm) ← process_block (Z.to_nat block_pages) mm block_address block_pages
                           fill_pattern false;
        mm ← (if any_new : bool then
                track_block (Z.to_nat block_pages) mm block_address block_pages
              else mret mm);
        optimized_loop mm blocks fill_pattern
  end.

Definition AllocateForProcess mm (s : S) (out : KPageGroup)
    (num_pages option process_id fill_pattern : Z)
    : prog (Z * KMemoryManager R * S * KPageGroup) :=
  _ ← ASSERT (KPageGroup_GetNumPages out =? 0);
  let '(pool, dir) := DecodeOption option in
  _ ← lock_pool pool;
  has_optimized ← arr_get (m_has_optimized_process mm) pool;
  id ← arr_get (m_optimized_process_ids mm) pool;
  let is_optimized := id =? process_id in
  '(r, mm, s, out) ← AllocatePageGroupImpl mm s out num_pages pool dir
                       (has_optimized && negb is_optimized) false;
  if negb (Result_IsSuccess r) then mret (r, mm, s, out)
  else
    let optimized := has_optimized && is_optimized in
    if optimized : bool then
      mm ← optimized_loop mm out fill_pattern;
      mret (ResultSuccess, mm, s, out)
    else
      let m := foldl (λ m b, ClearBackingRegion m (KBlockInfo_GetAddress b) (KBlockInfo_GetSize b)
                               fill_pattern) (mm_memory mm) out in
      mret (ResultSuccess, set_memory m mm, s, out).

(** ** KPageGroup *)
Definition KPageGroup_Open mm (g : KPageGroup) : prog (KMemoryManager R) :=
  group_loop KMemoryManager_Open mm g.
Definition KPageGroup_OpenFirst mm (g : KPageGroup) : prog (KMemoryManager R) :=
  group_loop KMemoryManager_OpenFirst mm g.
Definition KPageGroup_Close mm (g : KPageGroup) : prog (KMemoryManager R) :=
  group_loop KMemoryManager_Close mm g.

Fixpoint KPageGroup_CloseAndReset mm (s : S) (g : KPageGroup)
    : prog (KMemoryManager R * S * KPageGroup) :=
  match g with
  | [] => mret (mm, s, [])
  | cur :: g =>
      mm ← KMemoryManager_Close mm (KBlockInfo_GetAddress cur) (KBlockInfo_GetNumPages cur);
      KPageGroup_CloseAndReset mm (slab_Free s) g
  end.

(** [KScopedPageGroup]: the constructor and the destructor; [CancelClose] makes
    the pointer null. *)
Definition KScopedPageGroup_construct mm (pg : option KPageGroup) (not_first : bool)
    : prog (KMemoryManager R) :=
  match pg with
  | Some g => if not_first then KPageGroup_Open mm g else KPageGroup_OpenFirst mm g
  | None => mret mm
  end.
Definition KScopedPageGroup_destruct mm (pg : option KPageGroup) : prog (KMemoryManager R) :=
  match pg with Some g => KPageGroup_Close mm g | None => mret mm end.
End Groups.

(** ** Initialize *)
Definition GetPoolFromMemoryRegionType (type : Z) : prog Z :=
  if Z.lor type (GetValue KMemoryRegionType_DramApplicationPool) =? type then
    mret Pool_Application
  else if Z.lor type (GetValue KMemoryRegionType_DramAppletPool) =? type then mret Pool_Applet
  else if Z.lor type (GetValue KMemoryRegionType_DramSystemPool) =? type then mret Pool_System
  else if Z.lor type (GetValue KMemoryRegionType_DramSystemNonSecurePool) =? type then
    mret Pool_SystemNonSecure
  else Stuck.

Definition is_user_pool (r : KMemoryRegion) : bool :=
  KMemoryRegion_IsDerivedFrom r (GetValue KMemoryRegionType_DramUserPool).

(** The extents of the regions of one manager. *)
Fixpoint extents_of_manager (regions : list KMemoryRegion) (num_managers : Z)
    (region_address region_size region_pool : Z) : prog (Z * Z * Z) :=
  match regions with
  | [] => mret (region_address, region_size, region_pool)
  | it :: regions =>
      if negb (is_user_pool it) || negb (mr_attributes it =? num_managers) then
        extents_of_manager regions num_managers region_address region_size region_pool
      else
        let cur_start := mr_address it in
        let cur_end := KMemoryRegion_GetEndAddress it in
        _ ← ASSERT (negb (cur_end =? 0));
        _ ← ASSERT (negb (cur_start =? 0));
        _ ← ASSERT (0 <? KMemoryRegion_GetSize it);
        if region_address =? 0 then
          pool ← GetPoolFromMemoryRegionType (mr_type_id it);
          extents_of_manager regions num_managers cur_start (KMemoryRegion_GetSize it) pool
        else
          _ ← ASSERT (cur_start =? u64 (region_address + region_size));
          pool ← GetPoolFromMemoryRegionType (mr_type_id it);
          _ ← ASSERT (pool =? region_pool);
          extents_of_manager regions num_managers region_address (u64 (cur_end - region_address))
            region_pool
  end.

Definition set_pools (head tail : list (option nat)) (managers : list (Impl R)) (n : Z) mm
    : KMemoryManager R :=
  MkMemoryManager (m_memory_layout mm) head tail managers n (m_optimized_process_ids mm)
    (m_has_optimized_process mm) (mm_memory mm).

(** A manager initialised and linked behind the last one of its pool. *)
Definition add_manager (mode : MemoryLayoutMode) mm
    (region_address region_size region_pool management_region management_region_end data : Z)
    : prog (Z * KMemoryManager R) :=
  let index := m_num_managers mm in
  im ← arr_get (m_managers mm) index;
  _ ← ASSERT (index + 1 <=? Z.of_nat (length (m_managers mm)));
  '(cur_size, im) ← Impl_Initialize mode im region_address region_size management_region
                     management_region_end region_pool data;
  let management_region := u64 (management_region + cur_size) in
  _ ← ASSERT (management_region <=? management_region_end);
  let i := Z.to_nat index in
  let managers := <[i := im]> (m_managers mm) in
  tail ← arr_get (m_pool_managers_tail mm) region_pool;
  '(head, managers) ←
    match tail with
    | None =>
        head ← arr_set (m_pool_managers_head mm) region_pool (Some i);
        mret (head, managers)
    | Some t =>
        T ← deref (managers !! t);
        let managers := <[t := SetNext (Some i) T]> managers in
        im ← deref (managers !! i);
        mret (m_pool_managers_head mm, <[i := SetPrev (Some t) im]> managers)
    end;
  tails ← arr_set (m_pool_managers_tail mm) region_pool (Some i);
  mret (management_region, set_pools head tails managers (index + 1) mm).

(** [n] managers can still be added. *)
Fixpoint create_managers (n : nat) (mode : MemoryLayoutMode) mm
    (management_region management_region_end : Z) (data : Z → Z) : prog (KMemoryManager R) :=
  match n with
  | O => mret mm
  | S n =>
      '(region_address, region_size, region_pool) ←
        extents_of_manager (m_physical_tree (m_memory_layout mm)) (m_num_managers mm) 0 0
          Pool_Count;
      if region_size =? 0 then mret mm
      else
        '(management_region, mm) ←
          add_manager mode mm region_address region_size region_pool management_region
            management_region_end (data (m_num_managers mm));
        create_managers n mode mm management_region management_region_end data
  end.

Definition InitialProcessBinarySizeMax : Z := 12 * MiB.
Definition MainMemoryAddress : Z := 0x80000000.
Definition GetInitialProcessBinaryPhysicalAddress (mode : MemoryLayoutMode) : Z :=
  GetKernelPhysicalBaseAddress mode MainMemoryAddress.
Definition GetInitialProcessBinarySize : Z := InitialProcessBinarySizeMax.

(** The memory of one region given to its heap, apart from the image of the
    initial processes; [reserved] has the reserved size of each manager. *)
Definition free_region (mode : MemoryLayoutMode) mm (reserved : list Z) (it : KMemoryRegion)
    : prog (KMemoryManager R * list Z) :=
  let ini_start := GetInitialProcessBinaryPhysicalAddress mode in
  let ini_size := GetInitialProcessBinarySize in
  let ini_end := u64 (ini_start + ini_size) in
  let ini_last := u64 (ini_end - 1) in
  im ← arr_get (m_managers mm) (mr_attributes it);
  let i := Z.to_nat (mr_attributes it) in
  let cur_start := mr_address it in
  let cur_last := mr_last_address it in
  let cur_end := KMemoryRegion_GetEndAddress it in
  if (cur_start <=? ini_start) && (ini_last <=? cur_last) then
    im ← (if negb (cur_start =? ini_start) then
           Impl_Free im cur_start (u64 (ini_start - cur_start) / PageSize)
         else mret im);
    im ← Impl_OpenFirst im ini_start (ini_size / PageSize);
    old ← arr_get reserved (mr_attributes it);
    reserved ← arr_set reserved (mr_attributes it) (u64 (old + ini_size));
    im ← (if negb (ini_last =? cur_last) then
           _ ← ASSERT (negb (cur_end =? 0));
           Impl_Free im ini_end (u64 (cur_end - ini_end) / PageSize)
         else mret im);
    mret (set_manager i im mm, reserved)
  else
    _ ← (if cur_start <=? ini_last then ASSERT (cur_last <? ini_start)
         else ASSERT (negb (cur_end =? 0)));
    im ← Impl_Free im cur_start (KMemoryRegion_GetSize it / PageSize);
    mret (set_manager i im mm, reserved).

Fixpoint free_regions (mode : MemoryLayoutMode) mm (reserved : list Z)
    (regions : list KMemoryRegion) : prog (KMemoryManager R * list Z) :=
  match regions with
  | [] => mret (mm, reserved)
  | it :: regions =>
      if is_user_pool it then
        '(mm, reserved) ← free_region mode mm reserved it;
        free_regions mode mm reserved regions
      else free_regions mode mm reserved regions
  end.

Fixpoint set_used_sizes (n i : nat) mm (reserved : list Z) : prog (KMemoryManager R) :=
  match n with
  | O => mret mm
  | S n =>
      im ← deref (m_managers mm !! i);
      size ← deref (reserved !! i);
      im ← SetInitialUsedHeapSize im size;
      set_used_sizes n (S i) (set_manager i im mm) reserved
  end.

Definition KMemoryManager_Initialize (mode : MemoryLayoutMode) mm
    (management_region management_region_size : Z) (data : Z → Z) : prog (KMemoryManager R) :=
  let management_region_end := u64 (management_region + management_region_size) in
  let mm := set_pools (m_pool_managers_head mm) (m_pool_managers_tail mm) (m_managers mm) 0 mm in
  mm ← create_managers (Z.to_nat MaxManagerCount) mode mm management_region management_region_end
         data;
  '(mm, reserved) ← free_regions mode mm (replicate (Z.to_nat MaxManagerCount) 0)
                      (m_physical_tree (m_memory_layout mm));
  set_used_sizes (Z.to_nat (m_num_managers mm)) 0 mm reserved.

(** [InitializeMemoryLayout] of kernel.cpp: the manager of a booted kernel. *)
Definition InitializeMemoryLayout (mode : MemoryLayoutMode) mm (data : Z → Z)
    : prog (KMemoryManager R) :=
  management_region ← GetPoolManagementRegion (m_memory_layout mm);
  _ ← ASSERT (negb (KMemoryRegion_GetEndAddress management_region =? 0));
  KMemoryManager_Initialize mode mm (mr_address management_region)
    (KMemoryRegion_GetSize management_region) data.
End Manager.
