(* ===== verification/PageGroupTheorems.v ===== *)
(** * Device memory and page groups: the theorems

    A page group stands for the sequence of its pages; blocks are kept merged,
    so that two groups have equal blocks exactly when they have the same pages in
    the same order. *)

From S2P Require Import Prelude Common MemoryBlockManager PageGroup.

(** ** Device memory *)
Lemma u8_range z : is_u8 (u8 z).
Proof. apply Z.mod_pos_bound. lia. Qed.

Lemma mem_byte_insert m a v x :
  mem_byte (<[a := v]> m) x = if decide (x = a) then u8 v else mem_byte m x.
Proof.
  unfold mem_byte. case_decide as E; [subst; by rewrite lookup_insert_eq|].
  by rewrite lookup_insert_ne by done.
Qed.

Lemma mem_byte_memset n : ∀ m a v x,
  mem_byte (memset n m a v) x = if decide (a ≤ x < a + Z.of_nat n) then u8 v else mem_byte m x.
Proof.
  induction n as [|n IH]; intros m a v x; simpl.
  { by rewrite decide_False by lia. }
  rewrite IH, mem_byte_insert. repeat case_decide; try lia; try done.
  unfold u8. by rewrite Z.mod_mod by lia.
Qed.

Lemma mem_load_ext n : ∀ m m' a,
  (∀ x, a ≤ x < a + Z.of_nat n → mem_byte m' x = mem_byte m x) → mem_load n m' a = mem_load n m a.
Proof.
  induction n as [|n IH]; intros m m' a Hx; simpl; [done|]. rewrite Hx by lia. f_equal. f_equal.
  apply IH. intros x Hr. apply Hx. lia.
Qed.

Lemma mem_byte_store n : ∀ m a v x,
  ¬ a ≤ x < a + Z.of_nat n → mem_byte (mem_store n m a v) x = mem_byte m x.
Proof.
  induction n as [|n IH]; intros m a v x Hx; simpl; [done|].
  rewrite mem_byte_insert, decide_False, IH by lia. done.
Qed.

Lemma mem_load_range n : ∀ m a, 0 ≤ mem_load n m a < 2 ^ (8 * Z.of_nat n).
Proof.
  induction n as [|n IH]; intros m a; simpl mem_load; [simpl; lia|].
  specialize (IH m (a + 1)). pose proof (u8_range (default 0 (m !! a))) as Hb.
  unfold is_u8 in Hb. fold (mem_byte m a) in Hb.
  replace (8 * Z.of_nat (S n)) with (8 + 8 * Z.of_nat n) by lia. rewrite Z.pow_add_r by lia. nia.
Qed.

Lemma mem_load_store n : ∀ m a v, mem_load n (mem_store n m a v) a = v mod 2 ^ (8 * Z.of_nat n).
Proof.
  induction n as [|n IH]; intros m a v; [simpl; by rewrite Z.mod_1_r|].
  cbn [mem_store mem_load]. rewrite mem_byte_insert, decide_True by done.
  rewrite (mem_load_ext n (mem_store n m (a + 1) (v / 2 ^ 8))).
  2:{ intros x Hx. rewrite mem_byte_insert, decide_False by lia. done. }
  rewrite IH. replace (8 * Z.of_nat (S n)) with (8 + 8 * Z.of_nat n) by lia.
  rewrite Z.pow_add_r by lia. rewrite Z.rem_mul_r by (try apply Z.pow_nonzero; lia).
  unfold u8. rewrite Z.mod_mod by lia. done.
Qed.

Lemma load_store_u64 m a v : is_u64 v → load_u64 (store_u64 m a v) a = v.
Proof. intros Hv. unfold load_u64, store_u64. rewrite mem_load_store. by apply Z.mod_small. Qed.

Lemma load_store_u64_ne m a b v :
  b + 8 ≤ a ∨ a + 8 ≤ b → load_u64 (store_u64 m a v) b = load_u64 m b.
Proof.
  intros Hab. apply mem_load_ext. intros x Hx. apply mem_byte_store. simpl in *. lia.
Qed.

Lemma load_u64_range m a : is_u64 (load_u64 m a).
Proof. apply (mem_load_range 8). Qed.

Lemma mem_byte_store_u64 m a v x : ¬ a ≤ x < a + 8 → mem_byte (store_u64 m a v) x = mem_byte m x.
Proof. apply (mem_byte_store 8). Qed.

(** ** The pages of a group *)
Definition block_pages (b : KBlockInfo) : list Z := seqZ (bi_page_index b) (bi_num_pages b).
Definition group_pages (g : KPageGroup) : list Z := concat (block_pages <$> g).

(** Page numbers fit the 32-bit members. *)
Definition block_ok (b : KBlockInfo) : Prop :=
  0 ≤ bi_page_index b ∧ 0 < bi_num_pages b ∧ bi_page_index b + bi_num_pages b < 2 ^ 32.

(** No block continues the block before it. *)
Fixpoint separate (g : KPageGroup) : Prop :=
  match g with
  | b :: ((c :: _) as g) => bi_page_index b + bi_num_pages b ≠ bi_page_index c ∧ separate g
  | _ => True
  end.

Definition group_wf (g : KPageGroup) : Prop := Forall block_ok g ∧ separate g.

Lemma block_address b : block_ok b →
  KBlockInfo_GetAddress b = bi_page_index b * PageSize ∧
  KBlockInfo_GetEndAddress b = (bi_page_index b + bi_num_pages b) * PageSize ∧
  KBlockInfo_GetSize b = bi_num_pages b * PageSize.
Proof.
  intros (? & ? & ?). unfold KBlockInfo_GetAddress, KBlockInfo_GetEndAddress, KBlockInfo_GetSize,
    KBlockInfo_GetNumPages.
  rewrite (u32_id (_ + _)) by (unfold is_u32; lia). rewrite PageSize_eq.
  rewrite !u64_id by (unfold is_u64; lia). done.
Qed.

Lemma group_pages_app g g' : group_pages (g ++ g') = group_pages g ++ group_pages g'.
Proof. unfold group_pages. by rewrite fmap_app, concat_app. Qed.

Lemma group_pages_cons b g : group_pages (b :: g) = block_pages b ++ group_pages g.
Proof. done. Qed.

Lemma separate_snoc g b c :
  separate (g ++ [b]) → bi_page_index b + bi_num_pages b ≠ bi_page_index c →
  separate (g ++ [b; c]).
Proof.
  induction g as [|d g IH]; intros Hs Hbc; [done|]. destruct g as [|e g]; simpl in *; naive_solver.
Qed.

Lemma separate_last g b b' :
  separate (g ++ [b]) → bi_page_index b' = bi_page_index b → separate (g ++ [b']).
Proof.
  induction g as [|d g IH]; intros Hs E; [done|].
  destruct g as [|e g]; simpl in *; [by rewrite E|naive_solver].
Qed.

Section Group.
Context {S : Type} `{SlabLaws S}.

(** What adding [n] pages from [p] on to a group gives: the pages appended, or,
    when a new block info is needed and the slab has none, nothing changed. *)
Definition added (s : S) (g : KPageGroup) (p n : Z) : Z * S * KPageGroup → Prop := λ '(r, s', g'),
  (r = ResultSuccess ∧ group_wf g' ∧ group_pages g' = group_pages g ++ seqZ p n ∧
   slab_size s' + length g' = slab_size s + length g)%nat ∨
  (r = ResultOutOfResource ∧ slab_Allocate s = None ∧ s' = s ∧ g' = g).

Lemma append_block_run (s : S) g p n :
  group_wf g → 0 < p → 0 < n → p + n < 2 ^ 32 →
  (∀ g0 b, g = g0 ++ [b] → bi_page_index b + bi_num_pages b ≠ p) →
  wp (append_block s g (p * PageSize) n) (added s g p n).
Proof.
  intros [Hok Hsep] Hp Hn Hb Hnew. unfold append_block.
  destruct (slab_Allocate s) as [s'|] eqn:Es; [|by right]. unfold KBlockInfo_Initialize.
  rewrite (proj2 (IsAligned_page _)) by (apply Z.mod_mul; rewrite PageSize_eq; lia).
  rewrite (u32_id n), Z.eqb_refl by (unfold is_u32; lia).
  change (ASSERT true) with (Done true ()). pstep.
  rewrite Z.div_mul by (rewrite PageSize_eq; lia). rewrite u32_id by (unfold is_u32; lia).
  left. split; [done|]. split; [split|].
  - apply Forall_app. split; [done|]. rewrite Forall_singleton. unfold block_ok. simpl. lia.
  - destruct (last g) as [b|] eqn:El; [|by apply last_None in El as ->].
    apply last_Some in El as [g0 ->]. rewrite <- app_assoc. by apply separate_snoc, (Hnew g0).
  - rewrite group_pages_app, length_app. unfold group_pages at 2. simpl. rewrite app_nil_r.
    split; [done|]. apply slab_size_Allocate in Es. lia.
Qed.

Lemma AddBlock_run (s : S) g p n :
  group_wf g → 0 < p → 0 < n → p + n < 2 ^ 32 →
  wp (KPageGroup_AddBlock s g (p * PageSize) n) (added s g p n).
Proof.
  intros Hg Hp Hn Hb. pose proof (append_block_run s g p n Hg Hp Hn Hb) as Happ.
  destruct Hg as [Hok Hsep]. unfold KPageGroup_AddBlock. rewrite (proj2 (Z.eqb_neq n 0)) by lia.
  assert (Ha : u64 (p * PageSize + u64 (n * PageSize)) = (p + n) * PageSize).
  { rewrite PageSize_eq. rewrite (u64_id (n * _)), u64_id by (unfold is_u64; lia). lia. }
  rewrite Ha, (proj2 (Z.ltb_lt _ _)) by (rewrite PageSize_eq; lia).
  change (ASSERT true) with (Done true ()). pstep.
  destruct (last g) as [b|] eqn:El; [|apply last_None in El as ->; by apply Happ; intros [] ?].
  apply last_Some in El as [g0 ->]. apply Forall_app in Hok as [Hok0 Hokb].
  rewrite Forall_singleton in Hokb. destruct (block_address b Hokb) as (_ & Ee & _).
  unfold KBlockInfo_TryConcatenate. rewrite Ee.
  rewrite (proj2 (Z.eqb_neq (p * PageSize) 0)) by (rewrite PageSize_eq; lia). cbn [negb andb].
  destruct (p * PageSize =? _) eqn:E; bool_prop; rewrite PageSize_eq in E.
  - destruct Hokb as (? & ? & ?). rewrite (u32_id n), u32_id by (unfold is_u32; lia).
    set (b' := MkBlockInfo (bi_page_index b) (bi_num_pages b + n)).
    assert (El : <[pred (length (g0 ++ [b])) := b']> (g0 ++ [b]) = g0 ++ [b']).
    { rewrite length_app, Nat.add_1_r. simpl pred.
      rewrite insert_app_r_alt, Nat.sub_diag by lia. done. }
    rewrite El. left. split; [done|]. split; [split|].
    + apply Forall_app. split; [done|]. rewrite Forall_singleton. unfold block_ok. simpl. lia.
    + by eapply separate_last.
    + rewrite !length_app. split; [|simpl; lia].
      rewrite !group_pages_app, <- app_assoc. f_equal. unfold group_pages. simpl.
      rewrite !app_nil_r. unfold block_pages. simpl. rewrite seqZ_app by lia. do 2 f_equal. lia.
  - apply Happ. intros g1 c [-> ->]%app_inj_tail Epn. apply E. lia.
Qed.

Lemma Finalize_slab (s : S) g :
  slab_size (KPageGroup_Finalize s g).1 = (slab_size s + length g)%nat.
Proof.
  unfold KPageGroup_Finalize. simpl. revert s. induction g as [|b g IH]; intros s; simpl; [lia|].
  rewrite IH, slab_size_Free. lia.
Qed.
End Group.

Lemma length_block_pages b : 0 ≤ bi_num_pages b → Z.of_nat (length (block_pages b)) = bi_num_pages b.
Proof. intros. unfold block_pages. rewrite length_seqZ. lia. Qed.

(** [GetNumPages] counts the pages, unless there are 2 ^ 64 of them. *)
Lemma GetNumPages_pages g :
  Forall block_ok g → Z.of_nat (length (group_pages g)) < 2 ^ 64 →
  KPageGroup_GetNumPages g = Z.of_nat (length (group_pages g)).
Proof.
  intros Hok. unfold KPageGroup_GetNumPages.
  assert (Hgen : ∀ acc, 0 ≤ acc → acc + Z.of_nat (length (group_pages g)) < 2 ^ 64 →
    foldl (λ n b, u64 (n + KBlockInfo_GetNumPages b)) acc g =
    acc + Z.of_nat (length (group_pages g))); [|intros; rewrite Hgen; lia].
  induction Hok as [|b g Hb Hok IH]; intros acc Ha Hlt; simpl; [lia|].
  rewrite group_pages_cons, length_app in *. rewrite Nat2Z.inj_add in *.
  rewrite length_block_pages in * by (destruct Hb as (? & ? & ?); lia).
  destruct Hb as (? & ? & ?). unfold KBlockInfo_GetNumPages at 2.
  rewrite u64_id by (unfold is_u64; lia). rewrite IH by lia. lia.
Qed.

(** ** Equivalence *)
Lemma first_page b g : 0 < bi_num_pages b → head (group_pages (b :: g)) = Some (bi_page_index b).
Proof. intros Hb. rewrite group_pages_cons. unfold block_pages. by rewrite seqZ_cons. Qed.

(** Where two groups with the same pages start, neither block can be longer. *)
Lemma same_pages_not_longer b g c g' :
  group_wf (b :: g) → group_wf (c :: g') → group_pages (b :: g) = group_pages (c :: g') →
  ¬ bi_num_pages b < bi_num_pages c.
Proof.
  intros [Hb Hsb] [Hc _] E Hlt. pose proof (f_equal head E) as Eh.
  inversion Hb as [|? ? (? & ? & ?) Hg]; subst. inversion Hc as [|? ? (? & ? & ?) _]; subst.
  rewrite !first_page in Eh by done. simplify_eq.
  rewrite !group_pages_cons in E. unfold block_pages in E.
  replace (bi_num_pages c) with (bi_num_pages b + (bi_num_pages c - bi_num_pages b)) in E by lia.
  rewrite seqZ_app, <- app_assoc in E by lia. rewrite <- Eh in E. apply app_inv_head in E.
  rewrite (seqZ_cons (bi_page_index b + bi_num_pages b)) in E by lia.
  destruct g as [|d g]; [done|]. destruct Hsb as [Hne _].
  inversion Hg as [|? ? (? & ? & ?) _]; subst.
  pose proof (f_equal head E) as Eh2. rewrite first_page in Eh2 by done. simpl in Eh2. congruence.
Qed.

(** two page groups, each built by adding blocks, compare equal exactly when
    they have the same pages in the same order: merging a block into the last one
    whenever it continues it makes the list of blocks unique. *)
Theorem KPageGroup_IsEquivalentTo_correct g g' :
  group_wf g → group_wf g' →
  KPageGroup_IsEquivalentTo g g' = true ↔ group_pages g = group_pages g'.
Proof.
  revert g'. induction g as [|b g IH]; intros [|c g'] Hg Hg'; [done| | |].
  - split; [done|]. intros E. pose proof (f_equal head E) as Eh.
    destruct Hg' as [Hc _]. inversion Hc as [|? ? (? & ? & ?) _]; subst.
    by rewrite first_page in Eh by done.
  - split; [done|]. intros E. pose proof (f_equal head E) as Eh.
    destruct Hg as [Hc _]. inversion Hc as [|? ? (? & ? & ?) _]; subst.
    by rewrite first_page in Eh by done.
  - assert (Htl : ∀ d h, group_wf (d :: h) → group_wf h).
    { intros d h [Hf Hs]. inversion Hf; subst. split; [done|]. by destruct h, Hs. }
    cbn [KPageGroup_IsEquivalentTo]. specialize (IH g' (Htl _ _ Hg) (Htl _ _ Hg')).
    unfold KBlockInfo_IsEquivalentTo. split.
    + destruct (_ && _) eqn:E; cbn [negb]; [|done]. bool_prop. intros Eg%IH.
      destruct b, c; simpl in *; subst. by rewrite !group_pages_cons, Eg.
    + intros E. pose proof (same_pages_not_longer _ _ _ _ Hg Hg' E).
      pose proof (same_pages_not_longer _ _ _ _ Hg' Hg (eq_sym E)).
      assert (En : bi_num_pages b = bi_num_pages c) by lia.
      pose proof (f_equal head E) as Eh.
      rewrite !first_page in Eh by
        (destruct Hg as [Hf _], Hg' as [Hf' _]; inversion Hf as [|? ? (? & ? & ?)];
         inversion Hf' as [|? ? (? & ? & ?)]; subst; done).
      simplify_eq. rewrite Eh, En, !Z.eqb_refl. cbn [andb negb]. apply IH.
      rewrite !group_pages_cons in E. unfold block_pages in E. rewrite Eh, En in E.
      by apply app_inv_head in E.
Qed.
