(* ===== verification/MemoryManagerLemmas.v ===== *)
(** Lemmas about one memory manager: its invariant, its operations as actions on
    pages, and the batches of [Close]. *)

From S2P Require Import Prelude Common MemoryBlockManager PageBitmap PageBitmapLemmas PageBitmapTheorems PageHeap PageHeapLemmas PageHeapTheorems MemoryRegionType MemoryRegion MemoryLayout PageGroup MemoryManager PageGroupTheorems.

(** * One memory manager: pages, references and actions on them

    The pages of a manager are numbered by their address, so that the number of
    the page at [a] is [a / PageSize].  Every operation of a manager acts on each
    page of a range in the same way: an [action] says what it asks of the page's
    reference count and of whether the page is free, and what it makes of
    them. *)

Record action : Type := MkAction {
  a_pre : Z → Prop → Prop;
  a_ref : Z → Z;
  a_free : Z → Prop → Prop
}.

(** A reference more to pages that have one, the first reference to pages just
    taken from the heap, and a reference less, which frees pages without any;
    pages taken from the heap and given back without a reference. *)
Definition act_open : action := MkAction (λ r _, 0 < r ∧ r + 1 < 2 ^ 16) (λ r, r + 1) (λ _ F, F).
Definition act_first : action := MkAction (λ r F, r = 0 ∧ ¬ F) (λ r, 1) (λ _ F, F).
Definition act_close : action := MkAction (λ r _, 0 < r) (λ r, r - 1) (λ r F, F ∨ r = 1).
Definition act_take : action := MkAction (λ _ F, F) (λ r, r) (λ _ _, False).
Definition act_release : action := MkAction (λ r F, r = 0 ∧ ¬ F) (λ r, r) (λ _ _, True).

(** What is asked and done depends on whether the page is free, not on how that
    is stated. *)
Class ActionLaws (A : action) : Prop := {
  #[global] a_pre_proper r :: Proper (iff ==> iff) (a_pre A r);
  #[global] a_free_proper r :: Proper (iff ==> iff) (a_free A r)
}.

Ltac solve_action := split; intros r F F' E; simpl; tauto.
#[export] Instance act_open_laws : ActionLaws act_open.
Proof. solve_action. Qed.
#[export] Instance act_first_laws : ActionLaws act_first.
Proof. solve_action. Qed.
#[export] Instance act_close_laws : ActionLaws act_close.
Proof. solve_action. Qed.
#[export] Instance act_take_laws : ActionLaws act_take.
Proof. solve_action. Qed.
#[export] Instance act_release_laws : ActionLaws act_release.
Proof. solve_action. Qed.

Section Impl.
Context {R : Type} `{RngLaws R}.
Implicit Types (im : Impl R) (h : KPageHeap R).

Definition first_page_of im : Z := m_heap_address (m_heap im) / PageSize.
Definition num_pages_of im : Z := m_heap_size (m_heap im) / PageSize.
Definition in_impl im (p : Z) : Prop := first_page_of im ≤ p < first_page_of im + num_pages_of im.
Definition impl_ref im (p : Z) : Z :=
  default 0 (m_page_reference_counts im !! Z.to_nat (p - first_page_of im)).
Definition impl_free im (p : Z) : Prop := heap_free (m_heap im) (p * PageSize).

(** No free page has a reference; physical addresses have 44 bits, so that page
    numbers fit the 32-bit members of the block infos. *)
Record impl_wf im : Prop := {
  iw_heap : heap_wf (m_heap im);
  iw_end : heap_end (m_heap im) < 2 ^ 44;
  iw_counts : num_pages_of im ≤ Z.of_nat (length (m_page_reference_counts im));
  iw_u16 : Forall is_u16 (m_page_reference_counts im);
  iw_free p : in_impl im p → impl_free im p → impl_ref im p = 0;
  iw_pool : 0 ≤ m_pool im < Pool_Count
}.

Lemma impl_geometry im : impl_wf im →
  m_heap_address (m_heap im) = first_page_of im * PageSize ∧
  m_heap_size (m_heap im) = num_pages_of im * PageSize ∧
  0 < first_page_of im ∧ 0 < num_pages_of im ∧ first_page_of im + num_pages_of im < 2 ^ 32.
Proof.
  intros [Hh He _ _ _ _]. destruct (hw_address _ Hh) as [? Ha], (hw_size _ Hh) as [? Hs].
  unfold heap_end in He. rewrite PageSize_eq in *.
  pose proof (Z.div_mod (m_heap_address (m_heap im)) 4096 ltac:(lia)).
  pose proof (Z.div_mod (m_heap_size (m_heap im)) 4096 ltac:(lia)).
  unfold first_page_of, num_pages_of. rewrite PageSize_eq. lia.
Qed.

(** ** Free pages are free as a whole *)
Lemma free_in_page lo hi i (B : Block R) x :
  blk_wf lo hi i B → free_in B x ↔ free_in B (x / PageSize * PageSize).
Proof.
  intros Hb. destruct (shift_cases i _ (bk_shift _ _ _ _ Hb)) as (_ & Hs & _).
  pose proof (sz_pos _ _ _ _ Hb). pose proof (base_aligned _ _ _ _ Hb) as Hba. unfold free_in.
  replace ((x / PageSize * PageSize - blk_heap_address B) / sz B)
    with ((x - blk_heap_address B) / sz B); [done|].
  assert (Hsz : ∃ k, sz B = k * PageSize ∧ 0 < k).
  { exists (2 ^ (m_block_shift B - 12)). rewrite PageSize_eq. change 4096 with (2 ^ 12).
    unfold sz. rewrite <- Z.pow_add_r by lia. split; [f_equal; lia|]. apply pow2_pos. lia. }
  destruct Hsz as (k & Ek & Hk). apply Z.mod_divide in Hba as [q Eq]; [|lia].
  rewrite Eq. pose proof page_pos. rewrite Ek, Z.mul_assoc.
  replace (x - q * k * PageSize) with (x + (- (q * k)) * PageSize) by lia.
  replace (x / PageSize * PageSize - q * k * PageSize)
    with ((x / PageSize + - (q * k)) * PageSize) by lia.
  rewrite (Z.mul_comm k), <- !Z.div_div by lia. rewrite Z.div_add, Z.div_mul by lia. done.
Qed.

Lemma heap_free_page h x : heap_wf h → heap_free h x ↔ heap_free h (x / PageSize * PageSize).
Proof.
  intros Hw. unfold heap_free. split; intros (i & B & HB & Hx); exists i, B; (split; [done|]);
    by apply (free_in_page _ _ i B x (hw_blocks h Hw i B HB)).
Qed.

Lemma page_in_range a n x :
  a * PageSize ≤ x < (a + n) * PageSize ↔ a ≤ x / PageSize < a + n.
Proof.
  pose proof page_pos. pose proof (Z.div_mod x PageSize ltac:(lia)).
  pose proof (Z.mod_pos_bound x PageSize ltac:(lia)). nia.
Qed.

(** A range of pages, given back and taken, by page. *)
Lemma freed_pages h a n h' p :
  freed h (a * PageSize) ((a + n) * PageSize) h' →
  heap_free h' (p * PageSize) ↔ heap_free h (p * PageSize) ∨ a ≤ p < a + n.
Proof.
  intros F. rewrite (fd_free _ _ _ _ F), page_in_range.
  by rewrite Z.div_mul by (pose proof page_pos; lia).
Qed.

Lemma taken_pages h a n h' p :
  taken h (a * PageSize) ((a + n) * PageSize) h' →
  heap_free h' (p * PageSize) ↔ heap_free h (p * PageSize) ∧ ¬ a ≤ p < a + n.
Proof.
  intros T. rewrite (tk_free _ _ _ _ T), page_in_range.
  by rewrite Z.div_mul by (pose proof page_pos; lia).
Qed.

Lemma in_use_pages h a n :
  heap_wf h → m_heap_address h ≤ a * PageSize → (a + n) * PageSize ≤ heap_end h →
  (∀ p, a ≤ p < a + n → ¬ heap_free h (p * PageSize)) →
  in_use h (a * PageSize) ((a + n) * PageSize).
Proof.
  intros Hw Hlo Hhi Hno. unfold in_use. split_and!; [done..|]. intros x Hx%page_in_range Hf.
  apply (Hno _ Hx). by apply (heap_free_page h x Hw).
Qed.

(** ** What an action leaves alone *)
Record same_impl im im' : Prop := {
  si_address : m_heap_address (m_heap im') = m_heap_address (m_heap im);
  si_size : m_heap_size (m_heap im') = m_heap_size (m_heap im);
  si_length : length (m_page_reference_counts im') = length (m_page_reference_counts im);
  si_management : m_management_region im' = m_management_region im;
  si_pool : m_pool im' = m_pool im;
  si_next : m_next im' = m_next im;
  si_prev : m_prev im' = m_prev im
}.

Lemma same_impl_refl im : same_impl im im.
Proof. done. Qed.
Lemma same_impl_trans im im1 im2 : same_impl im im1 → same_impl im1 im2 → same_impl im im2.
Proof. intros [] []. split; congruence. Qed.

Lemma same_impl_pages im im' : same_impl im im' →
  first_page_of im' = first_page_of im ∧ num_pages_of im' = num_pages_of im ∧
  ∀ p, in_impl im' p ↔ in_impl im p.
Proof.
  intros []. unfold in_impl, first_page_of, num_pages_of.
  rewrite si_address0, si_size0. split_and!; done.
Qed.

(** [im'] is [im] with [A] done to the [n] pages from [a] on. *)
Record impl_acted (A : action) im (a n : Z) im' : Prop := {
  ia_wf : impl_wf im';
  ia_same : same_impl im im';
  ia_ref p : in_impl im p → impl_ref im' p =
    if decide (a ≤ p < a + n) then a_ref A (impl_ref im p) else impl_ref im p;
  ia_free p : in_impl im p → impl_free im' p ↔
    if decide (a ≤ p < a + n) then a_free A (impl_ref im p) (impl_free im p) else impl_free im p
}.

(** When [A] can be done. *)
Definition impl_can (A : action) im (a n : Z) : Prop :=
  first_page_of im ≤ a ∧ 0 < n ∧ a + n ≤ first_page_of im + num_pages_of im ∧
  ∀ p, a ≤ p < a + n → a_pre A (impl_ref im p) (impl_free im p).

Definition impl_does (f : Impl R → Z → Z → prog (Impl R)) (A : action) : Prop :=
  ∀ im a n, impl_wf im → impl_can A im a n → wp (f im (a * PageSize) n) (impl_acted A im a n).

(** ** Open and OpenFirst *)
Lemma open_loop_run check n : ∀ counts i,
  0 ≤ i → i + Z.of_nat n ≤ Z.of_nat (length counts) → i + Z.of_nat n < 2 ^ 60 →
  (∀ k c, i ≤ Z.of_nat k < i + Z.of_nat n → counts !! k = Some c → check (u16 (c + 1)) = true) →
  ∃ counts', open_loop check n counts i (i + Z.of_nat n) = Done true counts' ∧
    length counts' = length counts ∧
    ∀ k, counts' !! k =
      if decide (i ≤ Z.of_nat k < i + Z.of_nat n) then (λ c, u16 (c + 1)) <$> counts !! k
      else counts !! k.
Proof.
  induction n as [|n IH]; intros counts i Hi Hl Hb Hc; cbn [open_loop].
  { rewrite (proj2 (Z.ltb_ge _ _)) by lia. exists counts. split_and!; [done..|].
    intros k. by rewrite decide_False by lia. }
  rewrite (proj2 (Z.ltb_lt _ _)) by lia.
  destruct (lookup_lt_is_Some_2 counts (Z.to_nat i)) as [c Hci]; [lia|].
  unfold arr_get. rewrite (proj2 (Z.leb_le _ _)) by lia. rewrite Hci. pstep.
  rewrite arr_set_run by lia. pstep.
  rewrite (Hc (Z.to_nat i) c) by (done || lia). change (ASSERT true) with (Done true ()). pstep.
  rewrite u64_id by (unfold is_u64; lia).
  replace (i + Z.of_nat (S n)) with (i + 1 + Z.of_nat n) by lia.
  destruct (IH (<[Z.to_nat i := u16 (c + 1)]> counts) (i + 1)) as (counts' & -> & El & Hk).
  - lia.
  - rewrite length_insert. lia.
  - lia.
  - intros k d Hk Hd. rewrite list_lookup_insert_ne in Hd by lia. apply (Hc k); [lia|done].
  - exists counts'. rewrite length_insert in El. split_and!; [done..|]. intros k. rewrite Hk.
    destruct (decide (k = Z.to_nat i)) as [->|Hne].
    + rewrite list_lookup_insert_eq by (by eapply lookup_lt_Some).
      rewrite decide_False, decide_True by lia. by rewrite Hci.
    + rewrite list_lookup_insert_ne by done. repeat case_decide; done || lia.
Qed.

Lemma impl_ref_lookup im p c : in_impl im p →
  m_page_reference_counts im !! Z.to_nat (p - first_page_of im) = Some c → impl_ref im p = c.
Proof. intros _ E. unfold impl_ref. by rewrite E. Qed.

Lemma impl_offset im p : impl_wf im → in_impl im p →
  Impl_GetPageOffset im (p * PageSize) = p - first_page_of im.
Proof.
  intros Hw Hp. destruct (impl_geometry im Hw) as (Ea & _ & ? & ? & ?).
  unfold Impl_GetPageOffset, KPageHeap_GetPageOffset. rewrite Ea. unfold in_impl in Hp.
  rewrite PageSize_eq. rewrite u64_id by (unfold is_u64; lia).
  rewrite <- Z.mul_sub_distr_r. apply Z.div_mul. lia.
Qed.

(** The two loops with the action they do. *)
Lemma open_run (check : Z → bool) A im a n :
  impl_wf im → impl_can A im a n →
  (∀ r F, is_u16 r → a_pre A r F → check (u16 (r + 1)) = true ∧ u16 (r + 1) = a_ref A r) →
  (∀ r F, a_pre A r F → (a_free A r F ↔ F) ∧ (F → r = 0 → False)) →
  ∃ counts,
    open_loop check (Z.to_nat n) (m_page_reference_counts im) (Impl_GetPageOffset im (a * PageSize))
      (u64 (Impl_GetPageOffset im (a * PageSize) + n)) = Done true counts ∧
    impl_acted A im a n (set_counts counts im).
Proof.
  intros Hw (Hlo & Hn & Hhi & Hpre) Hcheck Hfree.
  destruct (impl_geometry im Hw) as (_ & _ & ? & ? & ?).
  pose proof (iw_counts im Hw) as Hlen.
  rewrite impl_offset by (done || (unfold in_impl; lia)). set (i := a - first_page_of im).
  rewrite u64_id by (unfold is_u64; lia).
  assert (Hu : ∀ k c, m_page_reference_counts im !! k = Some c → is_u16 c).
  { intros k c Hk. by eapply (proj1 (Forall_lookup _ _) (iw_u16 im Hw)). }
  replace (i + n) with (i + Z.of_nat (Z.to_nat n)) by lia.
  destruct (open_loop_run check (Z.to_nat n) (m_page_reference_counts im) i)
    as (counts & -> & El & Hk); [lia..| |].
  { intros k c Hk Hc. apply (Hcheck c (impl_free im (first_page_of im + Z.of_nat k))); [by eapply Hu|].
    rewrite <- (impl_ref_lookup im (first_page_of im + Z.of_nat k) c);
      [apply Hpre; lia|unfold in_impl; lia|]. by replace (Z.to_nat _) with k by lia. }
  exists counts. split; [done|]. rewrite Z2Nat.id in Hk by lia.
  assert (Href : ∀ p, in_impl im p → impl_ref (set_counts counts im) p =
    if decide (a ≤ p < a + n) then a_ref A (impl_ref im p) else impl_ref im p).
  { intros p Hp. unfold in_impl in Hp. unfold impl_ref at 1. simpl. change (first_page_of (set_counts counts im))
      with (first_page_of im). rewrite Hk.
    destruct (lookup_lt_is_Some_2 (m_page_reference_counts im) (Z.to_nat (p - first_page_of im)))
      as [c Hc]; [lia|].
    rewrite (impl_ref_lookup im p c Hp Hc). rewrite Hc. unfold i.
    destruct (decide (a ≤ p < a + n)) as [E|E].
    - rewrite decide_True by lia. simpl. specialize (Hpre p E).
      rewrite (impl_ref_lookup im p c Hp Hc) in Hpre. by eapply Hcheck; [eapply Hu|].
    - by rewrite decide_False by lia. }
  split; [|by split|done|].
  - destruct Hw as [W1 W2 W3 W4 W5 W6]. split; try done.
    + simpl. change (num_pages_of (set_counts counts im)) with (num_pages_of im). lia.
    + simpl. apply Forall_lookup. intros k c. rewrite Hk. case_decide; [|by apply Hu].
      intros (d & _ & ->)%fmap_Some. apply u16_range.
    + intros p Hp Hf. rewrite Href by done. specialize (W5 p Hp Hf).
      case_decide as E; [|done]. exfalso. eapply Hfree; [by apply Hpre|exact Hf|done].
  - intros p Hp. case_decide as E; [|done]. symmetry. apply (Hfree _ _ (Hpre p E)).
Qed.

Lemma Impl_Open_does : impl_does Impl_Open act_open.
Proof.
  intros im a n Hw Hcan. unfold Impl_Open.
  destruct (open_run (λ c, 1 <? c) act_open im a n Hw Hcan) as (counts & -> & Ha).
  - intros r F Hr [? ?]. unfold is_u16 in Hr. rewrite u16_id by (unfold is_u16; lia). simpl. lia.
  - intros r F [? ?]. split; [done|lia].
  - by pstep.
Qed.

Lemma Impl_OpenFirst_does : impl_does Impl_OpenFirst act_first.
Proof.
  intros im a n Hw Hcan. unfold Impl_OpenFirst.
  destruct (open_run (λ c, c =? 1) act_first im a n Hw Hcan) as (counts & -> & Ha).
  - by intros r F Hr [-> ?].
  - intros r F [-> ?]. split; [done|]. by intros.
  - by pstep.
Qed.
(** ** Free, and taking blocks *)
Lemma heap_range im a n : impl_wf im →
  first_page_of im ≤ a → a + n ≤ first_page_of im + num_pages_of im →
  m_heap_address (m_heap im) ≤ a * PageSize ∧ (a + n) * PageSize ≤ heap_end (m_heap im).
Proof.
  intros Hw Hlo Hhi. destruct (impl_geometry im Hw) as (Ea & Es & _). unfold heap_end.
  rewrite Ea, Es. pose proof page_pos. nia.
Qed.

(** Giving pages in use to the heap, with the counts of any manager that has the
    same heap. *)
Lemma Impl_Free_pages im a n :
  heap_wf (m_heap im) → 0 ≤ n → m_heap_address (m_heap im) ≤ a * PageSize →
  (a + n) * PageSize ≤ heap_end (m_heap im) → (∀ p, a ≤ p < a + n → ¬ impl_free im p) →
  ∃ h', Impl_Free im (a * PageSize) n = Done true (set_heap h' im) ∧ heap_wf h' ∧
    same_impl im (set_heap h' im) ∧
    ∀ p, heap_free h' (p * PageSize) ↔ impl_free im p ∨ a ≤ p < a + n.
Proof.
  intros Hh Hn Hlo Hhi Hno. unfold Impl_Free.
  destruct (Free_run (m_heap im) (a * PageSize) n Hh Hn) as (h' & -> & F).
  - apply Z.mod_mul. pose proof page_pos. lia.
  - replace (a * PageSize + n * PageSize) with ((a + n) * PageSize) by lia. by apply in_use_pages.
  - pstep. replace (a * PageSize + n * PageSize) with ((a + n) * PageSize) in F by lia.
    exists h'. split_and!; [done|apply F|split; try done; apply F|]. intros p. by apply freed_pages.
Qed.

Lemma Impl_Free_does : impl_does Impl_Free act_release.
Proof.
  intros im a n Hw (Hlo & Hn & Hhi & Hpre).
  destruct (heap_range im a n Hw Hlo Hhi) as [Hl Hh].
  destruct (Impl_Free_pages im a n (iw_heap im Hw)) as (h' & -> & Wh & Hs & Hf); [lia|done|done| |].
  { intros p Hp. apply (Hpre p Hp). }
  destruct (same_impl_pages _ _ Hs) as (E1 & E2 & E3).
  assert (Hfree : ∀ p, impl_free (set_heap h' im) p ↔
    if decide (a ≤ p < a + n) then True else impl_free im p).
  { intros p. unfold impl_free at 1. simpl. rewrite Hf. case_decide; tauto. }
  assert (Href : ∀ p, impl_ref (set_heap h' im) p = impl_ref im p).
  { intros p. unfold impl_ref. rewrite E1. done. }
  apply wp_Done. split; [|done| |by intros p _; apply Hfree].
  - destruct Hw as [W1 W2 W3 W4 W5 W6]. split; [done| |by rewrite E2|done| |done].
    + destruct Hs. unfold heap_end in *. lia.
    + intros p Hp Hpf. rewrite Href. apply Hfree in Hpf. case_decide as E; [apply (Hpre p E)|].
      apply W5; [by apply E3|done].
  - intros p _. rewrite Href. by case_decide.
Qed.

(** A manager whose heap lost exactly some free pages. *)
Lemma take_acted im h' a n :
  impl_wf im → taken (m_heap im) (a * PageSize) ((a + n) * PageSize) h' → 0 < n →
  impl_can act_take im a n ∧ impl_acted act_take im a n (set_heap h' im).
Proof.
  intros Hw T Hn. destruct (impl_geometry im Hw) as (Ea & Es & _).
  destruct (tk_inside _ _ _ _ T) as [I1 I2]. unfold heap_end in I2. rewrite Ea, Es in *.
  pose proof page_pos.
  assert (Hs : same_impl im (set_heap h' im)) by (split; try done; apply T).
  destruct (same_impl_pages _ _ Hs) as (E1 & E2 & E3).
  assert (Href : ∀ p, impl_ref (set_heap h' im) p = impl_ref im p).
  { intros p. unfold impl_ref. rewrite E1. done. }
  split.
  - unfold impl_can. split_and!; [nia|done|nia|]. intros p Hp. simpl. unfold impl_free.
    apply (tk_was_free _ _ _ _ T). nia.
  - split; [|done| |].
    + destruct Hw as [W1 W2 W3 W4 W5 W6]. split; [apply T| |by rewrite E2|done| |done].
      * destruct Hs. unfold heap_end in *. lia.
      * intros p Hp Hf. rewrite Href. unfold impl_free in Hf. simpl in Hf.
        rewrite (taken_pages _ _ _ _ _ T) in Hf. apply W5; [by apply E3|tauto].
    + intros p _. rewrite Href. by case_decide.
    + intros p _. unfold impl_free at 1. simpl. rewrite (taken_pages _ _ _ _ _ T).
      unfold impl_free. case_decide; tauto.
Qed.

Lemma noop_acted A im h' c : impl_wf im → freed (m_heap im) c c h' →
  impl_acted A im 0 0 (set_heap h' im).
Proof.
  intros Hw F. assert (Hs : same_impl im (set_heap h' im)) by (split; try done; apply F).
  destruct (same_impl_pages _ _ Hs) as (E1 & E2 & E3).
  assert (Href : ∀ p, impl_ref (set_heap h' im) p = impl_ref im p).
  { intros p. unfold impl_ref. rewrite E1. done. }
  assert (Hfree : ∀ p, impl_free (set_heap h' im) p ↔ impl_free im p).
  { intros p. unfold impl_free. simpl. rewrite (fd_free _ _ _ _ F).
    split; [intros [?|?]; [done|lia]|auto]. }
  split; [|done| |].
  - destruct Hw as [W1 W2 W3 W4 W5 W6]. split; [apply F| |by rewrite E2|done| |done].
    + destruct Hs. unfold heap_end in *. lia.
    + intros p Hp Hf%Hfree. rewrite Href. apply W5; [by apply E3|done].
  - intros p _. by rewrite Href, decide_False by lia.
  - intros p _. by rewrite Hfree, decide_False by lia.
Qed.

(** No block of the level [index] or a larger one is free. *)
Definition no_block im (index : nat) : Prop :=
  ∀ j, (index ≤ j)%nat → level_empty (m_heap im) j.

Lemma no_block_0 im p : no_block im 0 → ¬ impl_free im p.
Proof. intros Hno (j & B & HB & Hx). by apply (Hno j ltac:(lia) B HB (p * PageSize)). Qed.

(** What an allocation returns: null and the manager as it was, because there is
    no block, or the address of pages that are now taken. *)
Definition allocated im (index : nat) (n : Z) : Z * Impl R → Prop := λ '(a, im'),
  (a = 0 ∧ impl_acted act_take im 0 0 im' ∧ no_block im index) ∨
  (∃ p, a = p * PageSize ∧ 0 < p ∧ impl_can act_take im p n ∧ impl_acted act_take im p n im').

Lemma allocated_heap im index n a h' :
  impl_wf im → 0 < n →
  (a = 0 ∧ freed (m_heap im) 0 0 h' ∧ ∀ j, (index ≤ j)%nat → level_empty (m_heap im) j) ∨
  (a ≠ 0 ∧ a mod PageSize = 0 ∧ taken (m_heap im) a (a + n * PageSize) h') →
  allocated im index n (a, set_heap h' im).
Proof.
  intros Hw Hn [(-> & F & Hno)|(Ha & Ham & T)]; [left|right].
  - split_and!; [done|by eapply noop_acted|done].
  - pose proof (page_multiple a Ham) as Ea. exists (a / PageSize). rewrite Ea.
    replace (a + n * PageSize) with ((a / PageSize + n) * PageSize) in T by lia.
    rewrite <- Ea in T at 1. destruct (take_acted im h' (a / PageSize) n Hw T Hn) as [Hc Hta].
    split_and!; [done| |done|done]. destruct (impl_geometry im Hw) as (_ & _ & ? & _).
    destruct Hc as (? & _). lia.
Qed.

Lemma random_aligned n align s a :
  random_args n align s → a mod 2 ^ countr_zero (align * PageSize) = 0 → a mod PageSize = 0.
Proof.
  intros Hargs Ha. destruct (ashift_spec n align s Hargs) as [Hc _].
  destruct Hargs as (? & ? & ? & ? & ?). pose proof page_pos.
  assert (2 ^ s ≤ 2 ^ 30).
  { destruct (decide (0 ≤ s)); [apply Z.pow_le_mono_r; lia|]. rewrite Z.pow_neg_r by lia. lia. }
  rewrite u64_id in Hc by (unfold is_u64; nia). rewrite PageSize_eq. change 4096 with (2 ^ 12).
  eapply mod_pow2_smaller; [|exact Ha]. lia.
Qed.

Lemma Impl_AllocateBlock_run im index s random :
  impl_wf im → MemoryBlockPageShifts !! index = Some s →
  wp (Impl_AllocateBlock im (Z.of_nat index) random) (allocated im index (2 ^ (s - 12))).
Proof.
  intros Hw Hs. destruct (shift_cases index s Hs) as (_ & Hs12 & _).
  assert (Es : 2 ^ s = 2 ^ (s - 12) * PageSize).
  { rewrite PageSize_eq. change 4096 with (2 ^ 12). rewrite <- Z.pow_add_r by lia. f_equal. lia. }
  pose proof (pow2_pos (s - 12) ltac:(lia)). pose proof page_pos.
  unfold Impl_AllocateBlock. rewrite (proj2 (Z.ltb_ge _ _)) by lia. rewrite Nat2Z.id.
  apply wp_bind. destruct random.
  - destruct (heap_block (m_heap im) index s (iw_heap im Hw) Hs) as (B & HB & Hb & Esz).
    unfold KPageHeap_AllocateBlock. rewrite HB. pstep.
    assert (En : Block_GetNumPages B = 2 ^ (s - 12)).
    { unfold Block_GetNumPages. rewrite (GetSize_sz _ _ _ _ Hb), Esz, Es. apply Z.div_mul. lia. }
    assert (Hargs : random_args (2 ^ (s - 12)) (2 ^ (s - 12)) s).
    { unfold random_args. rewrite <- Es. split_and!; lia. }
    rewrite En. eapply wp_mono.
    + apply (random_search_correct (m_heap im) index s); [apply Hw|done|].
      done.
    + intros [a h'] Hr. pstep. apply allocated_heap; [done|done|].
      destruct Hr as [?|(Ha & Ham & T)]; [by left|right]. split_and!; [done| |done].
      by eapply random_aligned.
  - eapply wp_mono; [by apply (linear_search_correct (m_heap im) index s); [apply Hw|]|].
    intros [a h'] Hr. pstep. apply allocated_heap; [done|done|].
    destruct Hr as [?|(Ha & Ham & T & _)]; [by left|right]. split_and!; [done| |by rewrite <- Es].
    rewrite PageSize_eq. change 4096 with (2 ^ 12). eapply mod_pow2_smaller; [|exact Ham]. lia.
Qed.
End Impl.

(** * One memory manager: closing references, aligned allocation

    [Close] batches the pages whose count drops to zero into runs and gives each
    run to the heap with one call; the result is the one of closing page by page
    ([act_close]). *)

Section Close.
Context {R : Type} `{RngLaws R}.
Implicit Types (im : Impl R) (h : KPageHeap R).

(** After the pages from [a] to [q] are closed, with the run of [count] pages
    from page [start] on still to be given to the heap. *)
Record closing im0 (a q start count : Z) im : Prop := {
  cg_heap : heap_wf (m_heap im);
  cg_same : same_impl im0 im;
  cg_counts k : m_page_reference_counts im !! k =
    if decide (a ≤ first_page_of im0 + Z.of_nat k < q)
    then (λ c, c - 1) <$> m_page_reference_counts im0 !! k
    else m_page_reference_counts im0 !! k;
  cg_free p : in_impl im0 p → impl_free im p ↔
    impl_free im0 p ∨ (a ≤ p < q ∧ impl_ref im0 p = 1 ∧ ¬ start ≤ p < start + count);
  cg_run : 0 ≤ count ∧ (0 < count → start + count ≤ q ∧ a ≤ start) ∧
    ∀ p, start ≤ p < start + count → impl_ref im0 p = 1
}.

Section Range.
Context (im0 : Impl R) (a n : Z).
Context (Hw : impl_wf im0) (Hcan : impl_can act_close im0 a n).

Lemma close_bounds :
  0 < first_page_of im0 ∧ first_page_of im0 ≤ a ∧ 0 < n ∧
  a + n ≤ first_page_of im0 + num_pages_of im0 ∧ a + n < 2 ^ 32.
Proof. destruct (impl_geometry im0 Hw) as (_ & _ & ?). destruct Hcan as (? & ? & ? & _). lia. Qed.

Lemma close_pre p : a ≤ p < a + n → in_impl im0 p ∧ 0 < impl_ref im0 p ∧ ¬ impl_free im0 p.
Proof.
  intros Hp. pose proof close_bounds. assert (Hin : in_impl im0 p) by (unfold in_impl; lia).
  assert (Hr : 0 < impl_ref im0 p) by (by apply Hcan). split_and!; [done..|].
  intros Hf%(iw_free im0 Hw p Hin). lia.
Qed.

(** The run is given to the heap. *)
Lemma free_run_step im q start count :
  q ≤ a + n → closing im0 a q start count im →
  ∃ im', free_run im (start - first_page_of im0) count = Done true im' ∧
    closing im0 a q start 0 im'.
Proof.
  intros Hq [Hh Hs Hc Hf (Hr0 & Hr1 & Hr2)]. pose proof close_bounds as Hb. unfold free_run.
  destruct (same_impl_pages _ _ Hs) as (E1 & E2 & E3).
  destruct (impl_geometry im0 Hw) as (Ea & Esz & _).
  destruct (0 <? count) eqn:E; bool_prop.
  2:{ exists im. split; [done|]. assert (count = 0) as -> by lia. split; try done. }
  destruct (Hr1 E) as [Hq2 Has]. rewrite (si_address _ _ Hs), Ea. pose proof page_pos as Hpp.
  assert (Haddr : u64 (first_page_of im0 * PageSize + u64 ((start - first_page_of im0) * PageSize))
                  = start * PageSize).
  { rewrite PageSize_eq. rewrite (u64_id (_ * 4096)), u64_id by (unfold is_u64; lia). lia. }
  rewrite Haddr.
  destruct (Impl_Free_pages im start count Hh) as (h' & -> & Wh & Hs' & Hf'); [lia| | | |].
  - rewrite (si_address _ _ Hs), Ea. nia.
  - unfold heap_end. rewrite (si_address _ _ Hs), (si_size _ _ Hs), Ea, Esz. nia.
  - intros p Hp Hfp. apply Hf in Hfp; [|apply close_pre; lia].
    destruct Hfp as [Hfp|(_ & _ & ?)]; [|done]. by apply (close_pre p); [lia|].
  - exists (set_heap h' im). split; [done|]. split; [done|by eapply same_impl_trans|done| |].
    + intros p Hp. unfold impl_free at 1. simpl. rewrite Hf', Hf by done. split.
      * intros [[?|(? & ? & _)]|?]; [by left|right; split_and!; [lia|lia|done|lia]|].
        right. split_and!; [lia|lia|by apply Hr2|lia].
      * intros [?|(? & ? & _)]; [by left; left|].
        destruct (decide (start ≤ p < start + count)); [by right|]. left. right. done.
    + split_and!; [lia|lia|]. intros p Hp. lia.
Qed.

(** One page closed. *)
Lemma close_count im q start count :
  a ≤ q < a + n → closing im0 a q start count im →
  m_page_reference_counts im !! Z.to_nat (q - first_page_of im0) = Some (impl_ref im0 q) ∧
  is_u16 (impl_ref im0 q) ∧
  (∀ k, <[Z.to_nat (q - first_page_of im0) := impl_ref im0 q - 1]> (m_page_reference_counts im) !! k =
    if decide (a ≤ first_page_of im0 + Z.of_nat k < q + 1)
    then (λ c, c - 1) <$> m_page_reference_counts im0 !! k
    else m_page_reference_counts im0 !! k).
Proof.
  intros Hq [Hh Hs Hc Hf Hr]. pose proof close_bounds as Hb. pose proof (iw_counts im0 Hw) as Hlen.
  destruct (lookup_lt_is_Some_2 (m_page_reference_counts im0) (Z.to_nat (q - first_page_of im0)))
    as [c Ec]; [lia|].
  destruct (close_pre q Hq) as (Hin & _). rewrite (impl_ref_lookup im0 q c Hin Ec).
  assert (Ec' : m_page_reference_counts im !! Z.to_nat (q - first_page_of im0) = Some c).
  { rewrite Hc, decide_False by lia. done. }
  split_and!; [done|by eapply (proj1 (Forall_lookup _ _) (iw_u16 im0 Hw))|].
  intros k. destruct (decide (k = Z.to_nat (q - first_page_of im0))) as [->|Hne].
  - rewrite list_lookup_insert_eq by (by eapply lookup_lt_Some). rewrite decide_True by lia.
    by rewrite Ec.
  - rewrite list_lookup_insert_ne by done. rewrite Hc. repeat case_decide; done || lia.
Qed.

Lemma close_loop_run fuel : ∀ im q start count,
  q + Z.of_nat fuel = a + n → a ≤ q → (0 < count → start + count = q) →
  closing im0 a q start count im →
  ∃ im' start' count',
    close_loop fuel im (q - first_page_of im0) (a + n - first_page_of im0)
      (start - first_page_of im0) count =
      Done true (im', start' - first_page_of im0, count') ∧
    closing im0 a (a + n) start' count' im'.
Proof.
  pose proof close_bounds as Hb.
  induction fuel as [|fuel IH]; intros im q start count Hq Haq Hadj Hcl; cbn [close_loop].
  { rewrite (proj2 (Z.ltb_ge _ _)) by lia. replace (a + n) with q by lia. eauto. }
  rewrite (proj2 (Z.ltb_lt _ _)) by lia.
  destruct (close_count im q start count ltac:(lia) Hcl) as (Ec & Hu & Hk).
  destruct (close_pre q ltac:(lia)) as (Hin & Hpos & Hnf).
  unfold arr_get. rewrite (proj2 (Z.leb_le _ _)) by lia. rewrite Ec. pstep.
  rewrite (proj2 (Z.ltb_lt 0 (impl_ref im0 q))) by done. change (ASSERT true) with (Done true ()). pstep.
  unfold is_u16 in Hu. rewrite (u16_id (_ - 1)) by (unfold is_u16; lia).
  rewrite arr_set_run by (apply lookup_lt_Some in Ec; lia). pstep.
  rewrite (u64_id (q - _ + 1)) by (unfold is_u64; lia).
  replace (q - first_page_of im0 + 1) with (q + 1 - first_page_of im0) by lia.
  set (im1 := set_counts _ im).
  assert (Hs1 : same_impl im0 im1).
  { destruct Hcl as [_ [] _ _ _]. split; try done. simpl. by rewrite length_insert. }
  destruct Hcl as [Hh Hs Hc Hf (Hr0 & Hr1 & Hr2)].
  destruct (impl_ref im0 q - 1 =? 0) eqn:E; bool_prop.
  - destruct (0 <? count) eqn:E2; bool_prop.
    + destruct (Hr1 E2) as [? ?]. specialize (Hadj E2).
      rewrite (u64_id (count + 1)) by (unfold is_u64; lia). apply IH; [lia|lia|lia|]. split; [done|done|done| |].
      * intros p Hp. change (impl_free im1 p) with (impl_free im p). rewrite Hf by done.
        split; (intros [?|(? & ? & ?)]; [by left|right; split_and!; lia]).
      * split_and!; [lia|lia|]. intros p Hp. destruct (decide (p = q)) as [->|]; [lia|].
        apply Hr2. lia.
    + apply IH; [lia|lia|lia|]. split; [done|done|done| |].
      * intros p Hp. change (impl_free im1 p) with (impl_free im p). rewrite Hf by done.
        split; (intros [?|(? & ? & ?)]; [by left|right; split_and!; lia]).
      * split_and!; [lia|lia|]. intros p Hp. assert (p = q) as -> by lia. lia.
  - destruct (free_run_step im1 (q + 1) start count) as (im2 & -> & Hcl2); [lia| |].
    + split; [done|done|done| |split_and!; [lia|lia|done]].
      intros p Hp. change (impl_free im1 p) with (impl_free im p). rewrite Hf by done.
      destruct (decide (p = q)) as [->|]; split;
        (intros [?|(? & ? & ?)]; [by left|lia || (right; split_and!; [lia|lia|lia|done])]).
    + pstep. apply IH; [lia|lia|lia|done].
Qed.
End Range.

Lemma Impl_Close_does : impl_does (R := R) Impl_Close act_close.
Proof.
  intros im a n Hw Hcan. pose proof (close_bounds im a n Hw Hcan) as Hb. unfold Impl_Close.
  rewrite impl_offset by (done || (unfold in_impl; lia)).
  rewrite u64_id by (unfold is_u64; lia).
  replace (a - first_page_of im + n) with (a + n - first_page_of im) by lia.
  destruct (close_loop_run im a n Hw Hcan (Z.to_nat n) im a (first_page_of im) 0)
    as (im1 & start & count & E & Hcl); [lia|lia|lia| |].
  { split; [apply Hw|done| | |split_and!; lia].
    - intros k. by rewrite decide_False by lia.
    - intros p Hp. split; [by left|]. intros [?|?]; [done|lia]. }
  rewrite Z.sub_diag in E. rewrite E. pstep.
  destruct (free_run_step im a n Hw Hcan im1 (a + n) start count) as (im2 & -> & Hcl2); [lia|done|].
  apply wp_Done. destruct Hcl2 as [Hh Hs Hc Hf _].
  destruct (same_impl_pages _ _ Hs) as (E1 & E2 & E3).
  assert (Href : ∀ p, in_impl im p → impl_ref im2 p =
    if decide (a ≤ p < a + n) then impl_ref im p - 1 else impl_ref im p).
  { intros p Hp. unfold impl_ref at 1. rewrite E1, Hc. unfold in_impl in Hp.
    destruct (lookup_lt_is_Some_2 (m_page_reference_counts im) (Z.to_nat (p - first_page_of im)))
      as [c Ec]; [pose proof (iw_counts im Hw); lia|].
    rewrite (impl_ref_lookup im p c Hp Ec), Ec. repeat case_decide; done || lia. }
  split; [|done|done|].
  - destruct Hw as [W1 W2 W3 W4 W5 W6]. split; [done| | | | |by rewrite (si_pool _ _ Hs)].
    + unfold heap_end in *. destruct Hs. lia.
    + rewrite E2, (si_length _ _ Hs). done.
    + apply Forall_lookup. intros k c Hk. rewrite Hc in Hk. case_decide as E4.
      * apply fmap_Some in Hk as (d & Hd & ->). pose proof (proj1 (Forall_lookup _ _) W4 k d Hd) as Hu.
        assert (0 < d); [|unfold is_u16 in *; lia].
        rewrite <- (impl_ref_lookup im (first_page_of im + Z.of_nat k) d);
          [by apply Hcan|unfold in_impl; lia|]. by replace (Z.to_nat _) with k by lia.
      * by apply (proj1 (Forall_lookup _ _) W4 k).
    + intros p Hp%E3 Hfp. rewrite Href by done. apply Hf in Hfp; [|done].
      destruct Hfp as [Hfp|(Hin & Hr1 & _)]; [|rewrite decide_True by done; lia].
      pose proof (W5 p Hp Hfp) as Hr0. rewrite decide_False; [done|].
      intros Hin. assert (0 < impl_ref im p) by (by apply Hcan). lia.
  - intros p Hp. rewrite Hf by done. case_decide as E4; simpl.
    + split; [intros [?|(? & ? & ?)]; [by left|by right]|]. intros [?|?]; [by left|].
      right. split_and!; [lia|lia|done|lia].
    + split; [intros [?|?]; [done|lia]|by left].
Qed.

(** ** Aligned allocation *)
Lemma aligned_index_spec num_pages align_pages :
  0 < num_pages → 0 < align_pages →
  (GetAlignedBlockIndex num_pages align_pages = -1 ∧ 2 ^ 18 < Z.max num_pages align_pages) ∨
  ∃ index s, GetAlignedBlockIndex num_pages align_pages = Z.of_nat index ∧
    MemoryBlockPageShifts !! index = Some s ∧ random_args num_pages align_pages s.
Proof.
  intros Hn Ha. unfold GetAlignedBlockIndex, random_args.
  set (t := Z.max num_pages align_pages). rewrite PageSize_eq.
  assert (Hnt : num_pages ≤ t ∧ align_pages ≤ t) by lia. clearbody t.
  cbn [aligned_index_loop MemoryBlockPageShifts]. rewrite PageSize_eq.
  repeat match goal with
  | |- context [if t <=? ?e then _ else _] =>
      let v := eval vm_compute in e in change e with v;
      destruct (t <=? v) eqn:?; bool_prop;
      [right; eexists (Z.to_nat _), _; (split; [symmetry; apply Z2Nat.id; lia|]);
       split; [reflexivity|]; cbn; lia|]
  end.
  left. split; [done|lia].
Qed.

Lemma Impl_AllocateAligned_run im index s num_pages align_pages :
  impl_wf im → MemoryBlockPageShifts !! index = Some s → random_args num_pages align_pages s →
  wp (Impl_AllocateAligned im (Z.of_nat index) num_pages align_pages)
    (λ '(a, im'), allocated im index num_pages (a, im') ∧
       a mod 2 ^ countr_zero (align_pages * PageSize) = 0).
Proof.
  intros Hw Hs Hargs. unfold Impl_AllocateAligned. rewrite (proj2 (Z.ltb_ge _ _)) by lia.
  rewrite Nat2Z.id. apply wp_bind. eapply wp_mono.
  { apply (random_search_correct (m_heap im) index s); [apply Hw|done|done]. }
  intros [a h'] Hr. pstep. split.
  - apply allocated_heap; [done|apply Hargs|].
    destruct Hr as [?|(Ha & Ham & T)]; [by left|right]. split_and!; [done| |done].
    by eapply random_aligned.
  - destruct Hr as [(-> & _)|(_ & ? & _)]; [|done]. apply Z.mod_0_l.
    destruct (ashift_spec _ _ _ Hargs) as [Hc _]. destruct Hargs as (? & ? & ? & ? & ?).
    pose proof page_pos. assert (2 ^ s ≤ 2 ^ 30).
    { destruct (decide (0 ≤ s)); [apply Z.pow_le_mono_r; lia|]. rewrite Z.pow_neg_r by lia. lia. }
    rewrite u64_id in Hc by (unfold is_u64; nia). apply Z.pow_nonzero; lia.
Qed.
End Close.
