(* ===== verification/MemoryManagerPages.v ===== *)
(** * All memory managers: actions on lists of pages

    The managers cover disjoint ranges of pages, and the layout finds the manager
    of each of its pages; the managers of a pool are linked in both directions.
    The loops that split a range of pages, or the blocks of a group, among the
    managers do an action to each page once. *)

From S2P Require Import Prelude Common MemoryBlockManager PageBitmap PageBitmapLemmas PageBitmapTheorems PageHeap PageHeapLemmas PageHeapTheorems MemoryRegionType MemoryRegion MemoryLayout PageGroup MemoryManager PageGroupTheorems MemoryManagerLemmas.

Section Pages.
Context {R : Type} `{RngLaws R}.
Implicit Types (im : Impl R) (mm : KMemoryManager R).

Definition manager mm (i : nat) im : Prop :=
  m_managers mm !! i = Some im ∧ Z.of_nat i < m_num_managers mm.

(** The managers of a pool in order. *)
Record pool_chain mm (pool : Z) (l : list nat) : Prop := {
  pc_nodup : NoDup l;
  pc_head : m_pool_managers_head mm !! Z.to_nat pool = Some (head l);
  pc_tail : m_pool_managers_tail mm !! Z.to_nat pool = Some (last l);
  pc_link k i : l !! k = Some i → ∃ im, manager mm i im ∧ m_pool im = pool ∧
    m_next im = l !! S k ∧ m_prev im = match k with O => None | S k => l !! k end;
  pc_all i im : manager mm i im → m_pool im = pool → i ∈ l
}.

(** Where the map of the optimized process of a manager is. *)
Definition map_start mm im : Z := optimize_map (m_memory_layout mm) im.
Definition map_end mm im : Z :=
  map_start mm im + CalculateOptimizedProcessOverheadSize (m_heap_size (m_heap im)).

Record mm_wf mm : Prop := {
  mw_count : length (m_managers mm) = 10%nat ∧ 0 ≤ m_num_managers mm ≤ MaxManagerCount;
  mw_impl i im : manager mm i im → impl_wf im;
  mw_layout i im p : manager mm i im → in_impl im p →
    ∃ r, FindPhysicalLinear (m_memory_layout mm) (p * PageSize) = Some r ∧
      mr_attributes r = Z.of_nat i;
  mw_pool pool : 0 ≤ pool < Pool_Count → ∃ l, pool_chain mm pool l;
  mw_arrays : length (m_optimized_process_ids mm) = 4%nat ∧
    length (m_has_optimized_process mm) = 4%nat;
  mw_maps i j im jm : manager mm i im → manager mm j jm → i ≠ j →
    map_end mm im ≤ map_start mm jm ∨ map_end mm jm ≤ map_start mm im;
  mw_map_heap i j im jm : manager mm i im → manager mm j jm →
    map_end mm im ≤ m_heap_address (m_heap jm) ∨ heap_end (m_heap jm) ≤ map_start mm im
}.

(** ** What is known of a page *)
Definition page_manager mm (p : Z) : option (Impl R) :=
  match FindPhysicalLinear (m_memory_layout mm) (p * PageSize) with
  | Some r => m_managers mm !! Z.to_nat (mr_attributes r)
  | None => None
  end.
Definition page_ref mm (p : Z) : Z :=
  match page_manager mm p with Some im => impl_ref im p | None => 0 end.
Definition page_free mm (p : Z) : Prop :=
  match page_manager mm p with Some im => impl_free im p | None => False end.
Definition in_mm mm (p : Z) : Prop := ∃ i im, manager mm i im ∧ in_impl im p.

Lemma page_manager_eq mm i im p :
  mm_wf mm → manager mm i im → in_impl im p → page_manager mm p = Some im.
Proof.
  intros Hw Hm Hp. destruct (mw_layout mm Hw i im p Hm Hp) as (r & Hr & Ea).
  unfold page_manager. rewrite Hr, Ea, Nat2Z.id. apply Hm.
Qed.

Lemma page_of_impl mm i im p :
  mm_wf mm → manager mm i im → in_impl im p →
  page_ref mm p = impl_ref im p ∧ (page_free mm p ↔ impl_free im p).
Proof.
  intros Hw Hm Hp. unfold page_ref, page_free. by rewrite (page_manager_eq mm i im p Hw Hm Hp).
Qed.

Lemma manager_unique mm i j im jm p :
  mm_wf mm → manager mm i im → manager mm j jm → in_impl im p → in_impl jm p → i = j.
Proof.
  intros Hw Hi Hj Hpi Hpj. destruct (mw_layout mm Hw i im p Hi Hpi) as (r & Hr & E1).
  destruct (mw_layout mm Hw j jm p Hj Hpj) as (r' & Hr' & E2). simplify_eq. lia.
Qed.

(** ** States with the same managers *)
Record same_mm mm mm' : Prop := {
  sm_layout : m_memory_layout mm' = m_memory_layout mm;
  sm_head : m_pool_managers_head mm' = m_pool_managers_head mm;
  sm_tail : m_pool_managers_tail mm' = m_pool_managers_tail mm;
  sm_num : m_num_managers mm' = m_num_managers mm;
  sm_ids : m_optimized_process_ids mm' = m_optimized_process_ids mm;
  sm_has : m_has_optimized_process mm' = m_has_optimized_process mm;
  sm_managers i im : m_managers mm !! i = Some im →
    ∃ im', m_managers mm' !! i = Some im' ∧ same_impl im im';
  sm_managers' i im' : m_managers mm' !! i = Some im' →
    ∃ im, m_managers mm !! i = Some im ∧ same_impl im im'
}.

Lemma same_mm_refl mm : same_mm mm mm.
Proof. split; try done; intros i im Hi; exists im; by split. Qed.

Lemma same_mm_trans mm m1 m2 : same_mm mm m1 → same_mm m1 m2 → same_mm mm m2.
Proof.
  intros [A1 A2 A3 A4 A5 A6 A7 A8] [B1 B2 B3 B4 B5 B6 B7 B8]. split; try congruence.
  - intros i im (im1 & H1 & S1)%A7. destruct (B7 i im1 H1) as (im2 & H2 & S2).
    exists im2. split; [done|by eapply same_impl_trans].
  - intros i im (im1 & H1 & S1)%B8. destruct (A8 i im1 H1) as (im2 & H2 & S2).
    exists im2. split; [done|by eapply same_impl_trans].
Qed.

Lemma same_mm_manager mm mm' i im' :
  same_mm mm mm' → manager mm' i im' → ∃ im, manager mm i im ∧ same_impl im im'.
Proof.
  intros Hs [Hi Hn]. destruct (sm_managers' _ _ Hs i im' Hi) as (im & Him & Hsi).
  exists im. rewrite (sm_num _ _ Hs) in Hn. done.
Qed.

Lemma same_mm_manager_l mm mm' i im :
  same_mm mm mm' → manager mm i im → ∃ im', manager mm' i im' ∧ same_impl im im'.
Proof.
  intros Hs [Hi Hn]. destruct (sm_managers _ _ Hs i im Hi) as (im' & Him & Hsi).
  exists im'. unfold manager. rewrite (sm_num _ _ Hs). done.
Qed.

Lemma same_mm_in mm mm' p : same_mm mm mm' → in_mm mm' p ↔ in_mm mm p.
Proof.
  intros Hs. split; intros (i & im & Hm & Hp).
  - destruct (same_mm_manager mm mm' i im Hs Hm) as (im1 & Hm1 & Hsi). exists i, im1.
    split; [done|]. by apply (same_impl_pages _ _ Hsi).
  - destruct (same_mm_manager_l mm mm' i im Hs Hm) as (im1 & Hm1 & Hsi). exists i, im1.
    split; [done|]. by apply (same_impl_pages _ _ Hsi).
Qed.

Lemma same_mm_chain mm mm' pool l : same_mm mm mm' → pool_chain mm pool l → pool_chain mm' pool l.
Proof.
  intros Hs [C1 C2 C3 C4 C5]. split; [done| | | |].
  - by rewrite (sm_head _ _ Hs).
  - by rewrite (sm_tail _ _ Hs).
  - intros k i Hk. destruct (C4 k i Hk) as (im & Hm & Ep & En & Ev).
    destruct (same_mm_manager_l mm mm' i im Hs Hm) as (im1 & Hm1 & []). exists im1.
    split_and!; [done|congruence..].
  - intros i im' Hm Ep. destruct (same_mm_manager mm mm' i im' Hs Hm) as (im & Hm1 & []).
    apply (C5 i im); [done|congruence].
Qed.

(** The managers stay well-formed when each of them does. *)
Lemma same_mm_wf mm mm' :
  mm_wf mm → same_mm mm mm' → (∀ i im', manager mm' i im' → impl_wf im') →
  length (m_managers mm') = length (m_managers mm) → mm_wf mm'.
Proof.
  intros [W1 W2 W3 W4 W5 W6 W7] Hs Hi Hl.
  assert (Hmap : ∀ i im', manager mm' i im' → ∃ im, manager mm i im ∧
    map_start mm' im' = map_start mm im ∧ map_end mm' im' = map_end mm im ∧
    m_heap_address (m_heap im') = m_heap_address (m_heap im) ∧
    heap_end (m_heap im') = heap_end (m_heap im)).
  { intros i im' Hm. destruct (same_mm_manager mm mm' i im' Hs Hm) as (im & Hm1 & []). exists im.
    unfold map_end, map_start, optimize_map, heap_end. rewrite (sm_layout _ _ Hs).
    split_and!; congruence. }
  split.
  - rewrite Hl, (sm_num _ _ Hs). done.
  - done.
  - intros i im' p Hm Hp. destruct (same_mm_manager mm mm' i im' Hs Hm) as (im & Hm1 & Hsi).
    rewrite (sm_layout _ _ Hs). apply (W3 i im p Hm1). by apply (same_impl_pages _ _ Hsi).
  - intros pool (l & Hl')%W4. exists l. by eapply same_mm_chain.
  - rewrite (sm_ids _ _ Hs), (sm_has _ _ Hs). done.
  - intros i j im jm (im1 & Hm1 & -> & -> & _)%Hmap (jm1 & Hj1 & -> & -> & _)%Hmap. by apply W6.
  - intros i j im jm (im1 & Hm1 & -> & -> & _)%Hmap (jm1 & Hj1 & _ & _ & -> & ->)%Hmap.
    by apply (W7 i j).
Qed.

(** ** Actions on lists of pages *)
Record mm_acted (A : action) (L : list Z) mm mm' : Prop := {
  ma_wf : mm_wf mm';
  ma_same : same_mm mm mm';
  ma_memory : mm_memory mm' = mm_memory mm;
  ma_ref p : in_mm mm p →
    page_ref mm' p = if decide (p ∈ L) then a_ref A (page_ref mm p) else page_ref mm p;
  ma_free p : in_mm mm p → page_free mm' p ↔
    if decide (p ∈ L) then a_free A (page_ref mm p) (page_free mm p) else page_free mm p
}.

Definition mm_can (A : action) mm (L : list Z) : Prop :=
  NoDup L ∧ ∀ p, p ∈ L → in_mm mm p ∧ a_pre A (page_ref mm p) (page_free mm p).

Lemma mm_acted_refl A mm : mm_wf mm → mm_acted A [] mm mm.
Proof. intros Hw. split; [done|apply same_mm_refl|done..]. Qed.

Lemma mm_acted_app A `{!ActionLaws A} L1 L2 mm m1 m2 :
  mm_acted A L1 mm m1 → mm_acted A L2 m1 m2 → L1 ## L2 → mm_acted A (L1 ++ L2) mm m2.
Proof.
  intros [W1 S1 M1 R1 F1] [W2 S2 M2 R2 F2] Hd.
  split; [done|by eapply same_mm_trans|congruence| |].
  - intros p Hp. rewrite R2 by (by apply (same_mm_in _ _ p S1)). rewrite R1 by done.
    specialize (Hd p). destruct (decide (p ∈ L1)), (decide (p ∈ L2)),
      (decide (p ∈ L1 ++ L2)); set_solver.
  - intros p Hp. specialize (F1 p Hp). specialize (R1 p Hp).
    rewrite F2 by (by apply (same_mm_in _ _ p S1)). rewrite R1. specialize (Hd p).
    destruct (decide (p ∈ L1)), (decide (p ∈ L2)), (decide (p ∈ L1 ++ L2)); rewrite ?F1;
      set_solver.
Qed.

(** The pages of the second part can still be acted on after the first. *)
Lemma mm_can_app A `{!ActionLaws A} L1 L2 mm :
  mm_can A mm (L1 ++ L2) → mm_can A mm L1 ∧ L1 ## L2 ∧
  ∀ m1, mm_acted A L1 mm m1 → mm_can A m1 L2.
Proof.
  intros [Hn Hp]. apply NoDup_app in Hn as (Hn1 & Hd & Hn2). split_and!.
  - split; [done|]. intros p Hp1. apply Hp. set_solver.
  - intros p H1 H2. by apply (Hd p).
  - intros m1 [W1 S1 M1 R1 F1]. split; [done|]. intros p Hp2.
    destruct (Hp p) as [Hin Hpre]; [set_solver|]. split; [by apply (same_mm_in _ _ p S1)|].
    assert (p ∉ L1) by (intros H1; by apply (Hd p)).
    rewrite R1 by done. specialize (F1 p Hin). rewrite decide_False by done.
    rewrite decide_False in F1 by done.
    by rewrite F1.
Qed.

(** ** One manager replaced *)
Lemma manager_lt mm i im : mm_wf mm → manager mm i im → (i < length (m_managers mm))%nat.
Proof. intros _ [Hi _]. by eapply lookup_lt_Some. Qed.

Lemma set_manager_same mm i im im' :
  m_managers mm !! i = Some im → same_impl im im' → same_mm mm (set_manager i im' mm).
Proof.
  intros Hi Hs. pose proof (lookup_lt_Some _ _ _ Hi). split; try done; simpl.
  - intros j jm Hj. destruct (decide (j = i)) as [->|].
    + exists im'. rewrite list_lookup_insert_eq by done. by simplify_eq.
    + exists jm. by rewrite list_lookup_insert_ne.
  - intros j jm Hj. destruct (decide (j = i)) as [->|].
    + rewrite list_lookup_insert_eq in Hj by done. simplify_eq. eauto.
    + rewrite list_lookup_insert_ne in Hj by done. exists jm. done.
Qed.

Lemma set_manager_at mm i im im' :
  manager mm i im → manager (set_manager i im' mm) i im'.
Proof.
  intros [Hi Hn]. split; [|done]. simpl. apply list_lookup_insert_eq. by eapply lookup_lt_Some.
Qed.

Lemma set_manager_wf mm i im im' :
  mm_wf mm → manager mm i im → same_impl im im' → impl_wf im' → mm_wf (set_manager i im' mm).
Proof.
  intros Hw Hm Hs Hi. apply (same_mm_wf mm); [done|by eapply set_manager_same; [apply Hm|]| |].
  - intros j jm [Hj Hn]. simpl in *. destruct (decide (j = i)) as [->|].
    + rewrite list_lookup_insert_eq in Hj by (by eapply lookup_lt_Some, Hm). by simplify_eq.
    + rewrite list_lookup_insert_ne in Hj by done. by apply (mw_impl mm Hw j).
  - simpl. by rewrite length_insert.
Qed.

(** What one manager does to a range of its pages, seen from all managers. *)
Lemma set_manager_acted A mm i im a n im' :
  mm_wf mm → manager mm i im → impl_acted A im a n im' →
  (∀ p, a ≤ p < a + n → in_impl im p) →
  mm_acted A (seqZ a n) mm (set_manager i im' mm).
Proof.
  intros Hw Hm [Iw Is Ir If] Hin.
  assert (Hw' : mm_wf (set_manager i im' mm)) by (by eapply set_manager_wf).
  assert (Hpage : ∀ p j jm, manager mm j jm → in_impl jm p →
    page_manager (set_manager i im' mm) p = Some (if decide (j = i) then im' else jm)).
  { intros p j jm Hj Hp. eapply (page_manager_eq _ j); [done| |].
    - case_decide as E; [subst; by eapply set_manager_at|].
      split; [|apply Hj]. simpl. rewrite list_lookup_insert_ne by done. apply Hj.
    - case_decide as E; [|done]. subst. destruct Hj as [Hj _], Hm as [Hm _]. simplify_eq.
      by apply (same_impl_pages _ _ Is). }
  assert (Hdec : ∀ p j jm, manager mm j jm → in_impl jm p → j ≠ i → p ∉ seqZ a n).
  { intros p j jm Hj Hp Hne Hs. apply elem_of_seqZ in Hs. apply Hne.
    eapply (manager_unique mm j i); [done..|by apply Hin]. }
  split; [done|by eapply set_manager_same; [apply Hm|]|done| |].
  - intros p (j & jm & Hj & Hp). destruct (page_of_impl mm j jm p Hw Hj Hp) as [-> _].
    unfold page_ref. rewrite (Hpage p j jm Hj Hp).
    destruct (decide (j = i)) as [->|Hne].
    + destruct Hj as [Hj _], Hm as [Hm _]. simplify_eq. rewrite Ir by done.
      destruct (decide (a ≤ p < a + n)), (decide (p ∈ seqZ a n)) as [E|E]; try done;
        rewrite elem_of_seqZ in E; tauto.
    + by rewrite decide_False by (by eapply Hdec).
  - intros p (j & jm & Hj & Hp). unfold page_free at 1, page_ref, page_free.
    rewrite (Hpage p j jm Hj Hp), (page_manager_eq mm j jm p) by done.
    destruct (decide (j = i)) as [->|Hne].
    + destruct Hj as [Hj _], Hm as [Hm _]. simplify_eq. rewrite If by done.
      destruct (decide (a ≤ p < a + n)), (decide (p ∈ seqZ a n)) as [E|E]; try done;
        rewrite elem_of_seqZ in E; tauto.
    + by rewrite decide_False by (by eapply Hdec).
Qed.

(** ** Finding managers *)
Lemma GetManager_run mm i im p :
  mm_wf mm → manager mm i im → in_impl im p →
  GetManager mm (p * PageSize) = Done true (i, im).
Proof.
  intros Hw Hm Hp. destruct (mw_layout mm Hw i im p Hm Hp) as (r & Hr & Ea).
  unfold GetManager, GetPhysicalLinearRegion, Dereference. rewrite Hr.
  rewrite bool_decide_eq_true_2 by done. change (ASSERT true) with (Done true ()). pstep.
  unfold arr_get. rewrite Ea, (proj2 (Z.leb_le _ _)), Nat2Z.id by lia.
  rewrite (proj1 Hm). by pstep.
Qed.

Lemma lock_pool_run pool : 0 ≤ pool < Pool_Count → lock_pool pool = Done true ().
Proof.
  intros. unfold lock_pool. by rewrite (proj2 (Z.leb_le _ _)), (proj2 (Z.ltb_lt _ _)) by lia.
Qed.

Lemma offset_to_end im p : impl_wf im → in_impl im p →
  Impl_GetPageOffsetToEnd im (p * PageSize) = first_page_of im + num_pages_of im - p.
Proof.
  intros Hw Hp. destruct (impl_geometry im Hw) as (Ea & Es & ? & ? & ?). unfold in_impl in Hp.
  unfold Impl_GetPageOffsetToEnd, KPageHeap_GetPageOffsetToEnd, KPageHeap_GetEndAddress.
  rewrite Ea, Es, PageSize_eq.
  rewrite (u64_id (_ + _)), u64_id by (unfold is_u64; lia).
  replace (first_page_of im * 4096 + num_pages_of im * 4096 - p * 4096)
    with ((first_page_of im + num_pages_of im - p) * 4096) by lia.
  apply Z.div_mul. lia.
Qed.

(** ** Ranges and groups *)
Lemma mm_page_bound mm p : mm_wf mm → in_mm mm p → 0 < p < 2 ^ 32.
Proof.
  intros Hw (i & im & Hm & Hp). destruct (impl_geometry im (mw_impl mm Hw i im Hm)) as (_ & _ & ?).
  unfold in_impl in Hp. lia.
Qed.

(** The first [c] of [n] pages are those of the manager of the first page. *)
Lemma split_step mm a n :
  mm_wf mm → 0 < n → (∀ p, a ≤ p < a + n → in_mm mm p) → ∃ i im c,
  manager mm i im ∧ GetManager mm (a * PageSize) = Done true (i, im) ∧
  Z.min n (Impl_GetPageOffsetToEnd im (a * PageSize)) = c ∧ 0 < c ≤ n ∧
  (∀ p, a ≤ p < a + c → in_impl im p) ∧ (c < n → ¬ in_impl im (a + c)) ∧
  seqZ a n = seqZ a c ++ seqZ (a + c) (n - c) ∧
  u64 (a * PageSize + u64 (c * PageSize)) = (a + c) * PageSize ∧ u64 (n - c) = n - c.
Proof.
  intros Hw Hn Hin. destruct (Hin a ltac:(lia)) as (i & im & Hm & Ha).
  pose proof (mw_impl mm Hw i im Hm) as Hi. rewrite (GetManager_run mm i im a) by done.
  exists i, im. rewrite (offset_to_end im a) by done.
  set (c := Z.min n (first_page_of im + num_pages_of im - a)).
  assert (Emin : c = Z.min n (first_page_of im + num_pages_of im - a)) by done.
  assert (Hc : 0 < c ≤ n ∧ a + c ≤ first_page_of im + num_pages_of im) by (unfold in_impl in Ha; lia).
  destruct (mm_page_bound mm (a + n - 1) Hw (Hin (a + n - 1) ltac:(lia))) as [_ ?].
  destruct (mm_page_bound mm a Hw (Hin a ltac:(lia))) as [? _].
  clearbody c. exists c. split_and!; [done|done|done|lia|lia| | | | |].
  - intros p Hp. unfold in_impl in *. lia.
  - unfold in_impl. lia.
  - rewrite <- seqZ_app by lia. f_equal. lia.
  - rewrite PageSize_eq, (u64_id (c * _)), u64_id by (unfold is_u64; lia). lia.
  - apply u64_id. unfold is_u64. lia.
Qed.

Section Action.
Context (A : action) `{!ActionLaws A}.

Lemma mm_can_impl mm i im a n :
  mm_wf mm → manager mm i im → 0 < n → in_impl im a → in_impl im (a + n - 1) →
  (∀ p, a ≤ p < a + n → a_pre A (page_ref mm p) (page_free mm p)) → impl_can A im a n.
Proof.
  intros Hw Hm Hn Ha Hb Hpre. unfold in_impl in *. unfold impl_can. split_and!; [lia..|].
  intros p Hp. destruct (page_of_impl mm i im p Hw Hm) as [Er Ef]; [unfold in_impl; lia|].
  rewrite <- Er, <- Ef. by apply Hpre.
Qed.

Lemma split_loop_run f fuel : impl_does f A → ∀ mm a n,
  mm_wf mm → 0 ≤ n ≤ Z.of_nat fuel → mm_can A mm (seqZ a n) →
  wp (split_loop f fuel mm (a * PageSize) n) (mm_acted A (seqZ a n) mm).
Proof.
  intros Hf. induction fuel as [|fuel IH]; intros mm a n Hw Hn Hcan; cbn [split_loop].
  { assert (n = 0) as -> by lia. by apply mm_acted_refl. }
  destruct (n =? 0) eqn:E; bool_prop; [subst; by apply mm_acted_refl|].
  assert (Hpre : ∀ p, a ≤ p < a + n → in_mm mm p ∧ a_pre A (page_ref mm p) (page_free mm p)).
  { intros p Hp. apply Hcan. by apply elem_of_seqZ. }
  destruct (split_step mm a n Hw ltac:(lia)) as (i & im & c & Hm & -> & Ec & Hc & Hin & _ & Eseq & Ea & En).
  { intros p Hp. by apply Hpre. }
  pstep. rewrite Ec, (lock_pool_run _ (iw_pool im (mw_impl mm Hw i im Hm))). pstep.
  apply wp_bind. eapply wp_mono.
  { apply Hf; [by apply (mw_impl mm Hw i)|].
    eapply mm_can_impl; [done|done|lia|apply Hin; lia|apply Hin; lia|].
    intros p Hp. apply Hpre. lia. }
  intros im' Hact.
  pose proof (set_manager_acted A mm i im a c im' Hw Hm Hact Hin) as Hmm.
  rewrite Eseq in Hcan |- *. destruct (mm_can_app A _ _ mm Hcan) as (_ & Hdis & Hrest).
  rewrite Ea, En.
  eapply wp_mono; [apply IH; [apply Hmm|lia|by apply Hrest]|].
  intros m2 H2. by eapply mm_acted_app.
Qed.

Definition mm_does (f : KMemoryManager R → Z → Z → prog (KMemoryManager R)) : Prop :=
  ∀ mm a n, mm_wf mm → 0 ≤ n → mm_can A mm (seqZ a n) →
    wp (f mm (a * PageSize) n) (mm_acted A (seqZ a n) mm).

Lemma split_does f : impl_does f A →
  mm_does (λ mm address num_pages, split_loop f (Z.to_nat num_pages) mm address num_pages).
Proof. intros Hf mm a n Hw Hn Hcan. apply split_loop_run; [done|done|lia|done]. Qed.

Lemma group_loop_run f g : mm_does f → Forall block_ok g → ∀ mm,
  mm_wf mm → mm_can A mm (group_pages g) →
  wp (group_loop f mm g) (mm_acted A (group_pages g) mm).
Proof.
  intros Hf. induction 1 as [|b g Hb Hg IH]; intros mm Hw Hcan; cbn [group_loop].
  { by apply mm_acted_refl. }
  rewrite group_pages_cons in Hcan |- *. destruct (mm_can_app A _ _ mm Hcan) as (H1 & Hdis & H2).
  destruct (block_address b Hb) as (-> & _). destruct Hb as (? & ? & ?).
  apply wp_bind. eapply wp_mono; [apply Hf; [done|unfold KBlockInfo_GetNumPages; lia|done]|].
  intros m1 Hm1. eapply wp_mono; [apply IH; [apply Hm1|by apply H2]|].
  intros m2 Hm2. by eapply mm_acted_app.
Qed.
End Action.
End Pages.
