(* ===== verification/MemoryManagerAllocate.v ===== *)
(** Lemmas about allocation: the map of optimized pages, the managers of a pool,
    and blocks taken from them. *)

From S2P Require Import Prelude Common MemoryBlockManager PageBitmap PageBitmapLemmas PageBitmapTheorems PageHeap PageHeapLemmas PageHeapTheorems MemoryRegionType MemoryRegion MemoryLayout PageGroup MemoryManager PageGroupTheorems MemoryManagerLemmas MemoryManagerPages.

(** * The map of optimized pages

    The bit of a page in the map of its manager, how the loops of
    [TrackOptimizedAllocation], [TrackUnoptimizedAllocation] and
    [ProcessOptimizedAllocation] change the device memory. *)

(** The bit [o] of the map at [pa]. *)
Definition map_bit (m : DeviceMemory) (pa o : Z) : bool :=
  Z.testbit (load_u64 m (optimize_word pa o)) (o mod 64).

(** What the two trackers do to a word: they give one bit the value [v]. *)
Definition sets_bit (f : Z → Z → Z) (v : bool) : Prop :=
  ∀ w k, is_u64 w → 0 ≤ k < 64 →
    is_u64 (f w (u64 (Z.shiftl 1 k))) ∧
    ∀ j, 0 ≤ j < 64 → Z.testbit (f w (u64 (Z.shiftl 1 k))) j = if decide (j = k) then v else Z.testbit w j.

Lemma word_mask k j : 0 ≤ k < 64 → 0 ≤ j → Z.testbit (u64 (Z.shiftl 1 k)) j = bool_decide (j = k).
Proof.
  intros Hk Hj. rewrite Z.shiftl_1_l, u64_id.
  - rewrite Z.pow2_bits_eqb by lia. case_bool_decide; [by apply Z.eqb_eq|apply Z.eqb_neq; lia].
  - unfold is_u64. split; [apply Z.pow_nonneg; lia|]. apply Z.pow_lt_mono_r; lia.
Qed.

Lemma u64_bits w : 0 ≤ w → (∀ i, 64 ≤ i → Z.testbit w i = false) → is_u64 w.
Proof. intros Hw Hb. split; [done|]. by apply bits_lt. Qed.

Lemma lor_sets_bit : sets_bit (λ w b, Z.lor w b) true.
Proof.
  intros w k Hw Hk. pose proof (u64_range (Z.shiftl 1 k)) as Hr. unfold is_u64 in Hw, Hr. split.
  - apply u64_bits; [apply Z.lor_nonneg; lia|]. intros i Hi.
    rewrite Z.lor_spec, !(testbit_above _ 64) by lia. done.
  - intros j Hj. rewrite Z.lor_spec, word_mask by lia. case_decide as E.
    + rewrite bool_decide_eq_true_2 by done. apply orb_true_r.
    + rewrite bool_decide_eq_false_2 by done. apply orb_false_r.
Qed.

Lemma land_sets_bit : sets_bit (λ w b, Z.land w (u64 (Z.lnot b))) false.
Proof.
  intros w k Hw Hk. pose proof (u64_range (Z.lnot (u64 (Z.shiftl 1 k)))) as Hr.
  unfold is_u64 in Hw, Hr. split.
  - apply u64_bits; [apply Z.land_nonneg; lia|]. intros i Hi.
    rewrite Z.land_spec, (testbit_above w 64) by lia. done.
  - intros j Hj. rewrite Z.land_spec. unfold u64 at 1.
    rewrite Z.mod_pow2_bits_low, Z.lnot_spec, word_mask by lia. case_decide as E.
    + rewrite bool_decide_eq_true_2 by done. apply andb_false_r.
    + rewrite bool_decide_eq_false_2 by done. apply andb_true_r.
Qed.

Lemma map_bit_store f v m pa o o' :
  sets_bit f v → 0 ≤ o → 0 ≤ o' →
  map_bit (store_u64 m (optimize_word pa o)
             (f (load_u64 m (optimize_word pa o)) (optimize_bit o))) pa o' =
  if decide (o' = o) then v else map_bit m pa o'.
Proof.
  intros Hf Ho Ho'. unfold map_bit, optimize_bit. pose proof (Z.mod_pos_bound o 64 ltac:(lia)).
  pose proof (Z.mod_pos_bound o' 64 ltac:(lia)).
  destruct (Hf (load_u64 m (optimize_word pa o)) (o mod 64) (load_u64_range _ _) ltac:(lia))
    as [Hu Hb].
  destruct (decide (o' / 64 = o / 64)) as [E|E].
  - unfold optimize_word in *. rewrite E, load_store_u64 by done. rewrite Hb by done.
    pose proof (Z.div_mod o 64 ltac:(lia)). pose proof (Z.div_mod o' 64 ltac:(lia)).
    repeat case_decide; done || lia.
  - rewrite decide_False by congruence. unfold optimize_word. rewrite load_store_u64_ne; [done|]. lia.
Qed.

(** The words of [n] bits. *)
Lemma map_room n o : 0 ≤ o < n → n + 64 ≤ 2 ^ 64 → 8 * (o / 64) + 8 ≤ AlignUp n 64 / 64 * 8.
Proof.
  intros Ho Hn. destruct (AlignUp_spec n 64) as (Hm & Hle & _); [lia..|].
  assert (o / 64 < AlignUp n 64 / 64); [|lia].
  apply Z.mod_divide in Hm as [q Hq]; [|lia]. rewrite Hq, Z.div_mul by lia.
  apply Z.div_lt_upper_bound; lia.
Qed.

Section Tracking.
Context {R : Type} `{RngLaws R}.
Implicit Types (im : Impl R) (mm : KMemoryManager R) (m : DeviceMemory).

(** Setting the bits of a range of pages to [v]. *)
Lemma track_loop_run f v n : sets_bit f v → ∀ m pa o last,
  0 ≤ o → last = o + Z.of_nat n - 1 → o + Z.of_nat n < 2 ^ 60 →
  ∃ m', track_loop f n m pa o last = Done true m' ∧
    (∀ o', 0 ≤ o' → map_bit m' pa o' =
       if decide (o ≤ o' < o + Z.of_nat n) then v else map_bit m pa o') ∧
    (∀ x, (∀ o', o ≤ o' < o + Z.of_nat n → ¬ optimize_word pa o' ≤ x < optimize_word pa o' + 8) →
       mem_byte m' x = mem_byte m x).
Proof.
  intros Hf. induction n as [|n IH]; intros m pa o last Ho -> Hb; cbn [track_loop].
  { rewrite (proj2 (Z.leb_gt _ _)) by lia. exists m. split_and!; [done| |done].
    intros o' _. by rewrite decide_False by lia. }
  rewrite (proj2 (Z.leb_le _ _)) by lia. rewrite (u64_id (o + 1)) by (unfold is_u64; lia).
  set (m1 := store_u64 _ _ _).
  destruct (IH m1 pa (o + 1) (o + Z.of_nat (S n) - 1)) as (m' & -> & Hbit & Hbyte); [lia..|].
  exists m'. split_and!; [done| |].
  - intros o' Ho'. rewrite Hbit by done. unfold m1. rewrite (map_bit_store f v) by done.
    repeat case_decide; done || lia.
  - intros x Hx. rewrite Hbyte by (intros o' Ho'; apply Hx; lia). unfold m1.
    apply mem_byte_store_u64. apply Hx. lia.
Qed.

(** ** Pages *)
Definition tracked mm m (p : Z) : bool :=
  match page_manager mm p with
  | Some im => map_bit m (map_start mm im) (p - first_page_of im)
  | None => false
  end.

Definition in_map mm (x : Z) : Prop :=
  ∃ i im, manager mm i im ∧ map_start mm im ≤ x < map_end mm im.

(** The bits of the pages in [L] are [v] now, and nothing else has changed. *)
Definition track_rel (v : bool) mm (L : list Z) m m' : Prop :=
  (∀ p, in_mm mm p → tracked mm m' p = if decide (p ∈ L) then v else tracked mm m p) ∧
  (∀ x, ¬ in_map mm x → mem_byte m' x = mem_byte m x).

Lemma track_rel_refl v mm m : track_rel v mm [] m m.
Proof. done. Qed.

Lemma track_rel_app v mm L1 L2 m m1 m2 :
  track_rel v mm L1 m m1 → track_rel v mm L2 m1 m2 → track_rel v mm (L1 ++ L2) m m2.
Proof.
  intros [A1 A2] [B1 B2]. split.
  - intros p Hp. rewrite B1, A1 by done.
    destruct (decide (p ∈ L1)), (decide (p ∈ L2)), (decide (p ∈ L1 ++ L2)); set_solver.
  - intros x Hx. by rewrite B2, A2.
Qed.

Lemma map_word_inside mm im p :
  impl_wf im → in_impl im p →
  map_start mm im ≤ optimize_word (map_start mm im) (p - first_page_of im) ∧
  optimize_word (map_start mm im) (p - first_page_of im) + 8 ≤ map_end mm im.
Proof.
  intros Hw Hp. destruct (impl_geometry im Hw) as (_ & Es & ? & ? & ?). unfold in_impl in Hp.
  unfold map_end, optimize_word, CalculateOptimizedProcessOverheadSize.
  fold (num_pages_of im). pose proof (Z.div_pos (p - first_page_of im) 64 ltac:(lia) ltac:(lia)).
  pose proof (map_room (num_pages_of im) (p - first_page_of im) ltac:(lia) ltac:(lia)). lia.
Qed.

Lemma track_run f v mm i im m a n :
  sets_bit f v → mm_wf mm → manager mm i im → 0 < n →
  in_impl im a → in_impl im (a + n - 1) →
  wp (track_loop f (Z.to_nat n) m (optimize_map (m_memory_layout mm) im)
        (Impl_GetPageOffset im (a * PageSize))
        (u64 (u64 (Impl_GetPageOffset im (a * PageSize) + n) - 1)))
     (track_rel v mm (seqZ a n) m).
Proof.
  intros Hf Hw Hm Hn Ha Hb. pose proof (mw_impl mm Hw i im Hm) as Hi.
  destruct (impl_geometry im Hi) as (_ & _ & ? & ? & ?).
  rewrite impl_offset by done. unfold in_impl in *.
  rewrite (u64_id (_ + n)), u64_id by (unfold is_u64; lia).
  fold (map_start mm im).
  destruct (track_loop_run f v (Z.to_nat n) Hf m (map_start mm im) (a - first_page_of im)
              (a - first_page_of im + n - 1)) as (m' & -> & Hbit & Hbyte); [lia..|].
  apply wp_Done. split.
  - intros p (j & jm & Hj & Hp). unfold tracked. rewrite (page_manager_eq mm j jm p) by done.
    destruct (decide (j = i)) as [->|Hne].
    + destruct Hj as [Hj _], Hm as [Hm _]. simplify_eq. rewrite Hbit by (unfold in_impl in Hp; lia).
      destruct (decide (p ∈ seqZ a n)) as [E|E]; rewrite elem_of_seqZ in E.
      * by rewrite decide_True by lia.
      * by rewrite decide_False by lia.
    + rewrite decide_False.
      2:{ rewrite elem_of_seqZ. intros Hpa. apply Hne.
          eapply (manager_unique mm j i jm im p); [done..|]. unfold in_impl. lia. }
      unfold map_bit. f_equal. apply mem_load_ext. intros x Hx. apply Hbyte. intros o Ho.
      pose proof (map_word_inside mm jm p (mw_impl mm Hw j jm Hj) Hp).
      pose proof (map_word_inside mm im (first_page_of im + o) Hi ltac:(unfold in_impl; lia)) as Hwi.
      replace (first_page_of im + o - first_page_of im) with o in Hwi by lia.
      destruct (mw_maps mm Hw i j im jm Hm Hj ltac:(done)); simpl in Hx; lia.
  - intros x Hx. apply Hbyte. intros o Ho Hxo. apply Hx. exists i, im. split; [done|].
    pose proof (map_word_inside mm im (first_page_of im + o) Hi ltac:(unfold in_impl; lia)) as Hwi.
    replace (first_page_of im + o - first_page_of im) with o in Hwi by lia. lia.
Qed.

Lemma TrackUnoptimizedAllocation_run mm i im m a n :
  mm_wf mm → manager mm i im → 0 < n → in_impl im a → in_impl im (a + n - 1) →
  wp (TrackUnoptimizedAllocation (m_memory_layout mm) im m (a * PageSize) n)
     (track_rel false mm (seqZ a n) m).
Proof. intros. apply (track_run _ false mm i im); [apply land_sets_bit|done..]. Qed.

Lemma TrackOptimizedAllocation_run mm i im m a n :
  mm_wf mm → manager mm i im → 0 < n → in_impl im a → in_impl im (a + n - 1) →
  wp (TrackOptimizedAllocation (m_memory_layout mm) im m (a * PageSize) n)
     (track_rel true mm (seqZ a n) m).
Proof. intros. apply (track_run _ true mm i im); [apply lor_sets_bit|done..]. Qed.
End Tracking.

(** * Walking the managers of a pool

    The links of a pool give, in either direction, a list of all its managers;
    and what it means that blocks were taken from them into a page group. *)

Section Walk.
Context {R : Type} `{RngLaws R}.
Implicit Types (im : Impl R) (mm : KMemoryManager R).

(** The managers of [pool] that are still to be visited in direction [dir]. *)
Definition pool_walk mm (pool dir : Z) (ws : list nat) : Prop :=
  NoDup ws ∧ ∀ k i, ws !! k = Some i → ∃ im, manager mm i im ∧ m_pool im = pool ∧
    (if dir =? Direction_FromBack then m_prev im else m_next im) = ws !! S k.

Lemma walk_same mm mm' pool dir ws : same_mm mm mm' → pool_walk mm pool dir ws → pool_walk mm' pool dir ws.
Proof.
  intros Hs [Hn Hw]. split; [done|]. intros k i Hk. destruct (Hw k i Hk) as (im & Hm & Hp & Hx).
  destruct (same_mm_manager_l mm mm' i im Hs Hm) as (im' & Hm' & []). exists im'.
  rewrite si_next, si_prev. split_and!; [done|congruence|done].
Qed.

Lemma walk_cons mm pool dir i ws :
  pool_walk mm pool dir (i :: ws) →
  pool_walk mm pool dir ws ∧ (i ∉ ws) ∧
  ∃ im, manager mm i im ∧ m_pool im = pool ∧ GetNextManager mm i dir = Done true (head ws).
Proof.
  intros [Hn Hw]. inversion Hn as [|? ? Hi Hn']; subst. split_and!; [|done|].
  - split; [done|]. intros k j Hk. apply (Hw (S k) j Hk).
  - destruct (Hw 0%nat i eq_refl) as (im & Hm & Hp & Hx). exists im. split_and!; [done..|].
    unfold GetNextManager. rewrite (proj1 Hm). pstep. rewrite Hx. simpl.
    by rewrite <- head_lookup.
Qed.

Lemma walk_length mm pool dir ws : mm_wf mm → pool_walk mm pool dir ws → (length ws ≤ 10)%nat.
Proof.
  intros Hw [Hn Hk]. destruct (mw_count mm Hw) as [_ [_ Hc]].
  assert (Hsub : ws ⊆+ seq 0 10).
  { apply NoDup_submseteq; [done|]. intros i Hi. apply list_elem_of_lookup in Hi as [k Hi].
    destruct (Hk k i Hi) as (im & [_ Hlt] & _). apply elem_of_seq. unfold MaxManagerCount in Hc. lia. }
  apply submseteq_length in Hsub. by rewrite length_seq in Hsub.
Qed.

Lemma chain_walk mm pool dir : mm_wf mm → 0 ≤ pool < Pool_Count →
  ∃ ws, pool_walk mm pool dir ws ∧ GetFirstManager mm pool dir = Done true (head ws) ∧
    ∀ i im, manager mm i im → m_pool im = pool → i ∈ ws.
Proof.
  intros Hw Hp. destruct (mw_pool mm Hw pool Hp) as (l & [C1 C2 C3 C4 C5]).
  unfold GetFirstManager, pool_walk, arr_get. rewrite (proj2 (Z.leb_le _ _)) by lia.
  destruct (dir =? Direction_FromBack).
  - exists (reverse l). rewrite C3. split_and!.
    + by rewrite reverse_Permutation.
    + intros k i Hk. assert (Hkl : (k < length l)%nat).
      { apply lookup_lt_Some in Hk. by rewrite length_reverse in Hk. }
      rewrite reverse_lookup in Hk by done. destruct (C4 _ i Hk) as (im & Hm & Ep & _ & Ev).
      exists im. split_and!; [done..|]. rewrite Ev.
      destruct (length l - S k)%nat as [|k'] eqn:E.
      * symmetry. apply lookup_ge_None. rewrite length_reverse. lia.
      * rewrite reverse_lookup by lia. f_equal. lia.
    + by rewrite head_reverse.
    + intros i im Hm Ep. apply elem_of_reverse. by eapply C5.
  - exists l. rewrite C2. split_and!; [done| |done|done].
    intros k i Hk. destruct (C4 k i Hk) as (im & Hm & Ep & En & _). by exists im.
Qed.

(** ** States that differ in the memory only *)
Lemma set_memory_same mm m : same_mm mm (set_memory m mm).
Proof. split; try done; intros i im Hi; exists im; by split. Qed.

Lemma set_memory_same_l mm m : same_mm (set_memory m mm) mm.
Proof. split; try done; intros i im Hi; exists im; by split. Qed.

Lemma set_memory_wf mm m : mm_wf mm → mm_wf (set_memory m mm).
Proof.
  intros [W1 W2 W3 W4 W5 W6 W7]. split; [exact W1|exact W2|exact W3| |exact W5|exact W6|exact W7].
  intros pool Hp. destruct (W4 pool Hp) as (l & [C1 C2 C3 C4 C5]). exists l.
  split; [exact C1|exact C2|exact C3|exact C4|exact C5].
Qed.

Lemma set_memory_manager mm m i im : manager (set_memory m mm) i im ↔ manager mm i im.
Proof. done. Qed.

(** ** Pages taken from a pool *)
Definition page_pool mm (p : Z) : option Z := m_pool <$> page_manager mm p.

Lemma page_pool_of mm i im p :
  mm_wf mm → manager mm i im → in_impl im p → page_pool mm p = Some (m_pool im).
Proof. intros. unfold page_pool. by rewrite (page_manager_eq mm i im p). Qed.

(** The same managers say the same of where a page is. *)
Lemma same_mm_page mm mm' p :
  mm_wf mm → mm_wf mm' → same_mm mm mm' → in_mm mm p →
  page_pool mm' p = page_pool mm p ∧ ∀ m, tracked mm' m p = tracked mm m p.
Proof.
  intros Hw Hw' Hs (i & im & Hm & Hp).
  destruct (same_mm_manager_l mm mm' i im Hs Hm) as (im' & Hm' & Hi).
  destruct (same_impl_pages _ _ Hi) as (E1 & _ & E3).
  assert (Hp' : in_impl im' p) by (by apply E3).
  unfold page_pool, tracked. rewrite (page_manager_eq mm i im p), (page_manager_eq mm' i im' p) by done.
  simpl. rewrite (si_pool _ _ Hi). split; [done|]. intros m. unfold map_start, optimize_map.
  by rewrite (sm_layout _ _ Hs), (si_management _ _ Hi), E1.
Qed.

Lemma same_mm_track v mm mm' L m m' :
  mm_wf mm → mm_wf mm' → same_mm mm mm' → track_rel v mm' L m m' → track_rel v mm L m m'.
Proof.
  intros Hw Hw' Hs [T1 T2]. split.
  - intros p Hp. destruct (same_mm_page mm mm' p Hw Hw' Hs Hp) as [_ Et]. rewrite <- !Et.
    apply T1. by apply (same_mm_in _ _ p Hs).
  - intros x Hx. apply T2. intros (i & im' & Hm & Hr). apply Hx.
    destruct (same_mm_manager mm mm' i im' Hs Hm) as (im & Hm1 & Hsi). exists i, im.
    split; [done|]. unfold map_end, map_start, optimize_map in *.
    by rewrite <- (sm_layout _ _ Hs), <- (si_management _ _ Hsi), <- (si_size _ _ Hsi).
Qed.

(** The pages [L] of the pool were free and are taken; when a process is tracked
    that they are not for, their bits are cleared. *)
Record took (pool : Z) (unoptimized : bool) (L : list Z) mm mm' : Prop := {
  to_acted : mm_acted act_take L (set_memory (mm_memory mm') mm) mm';
  to_can : mm_can act_take mm L;
  to_pool p : p ∈ L → page_pool mm p = Some pool;
  to_memory : if unoptimized then track_rel false mm L (mm_memory mm) (mm_memory mm')
              else mm_memory mm' = mm_memory mm
}.

Lemma took_same pool u L mm mm' : took pool u L mm mm' → same_mm mm mm' ∧ mm_wf mm'.
Proof.
  intros [[W S _ _ _] _ _ _]. split; [|done]. eapply same_mm_trans; [|exact S].
  apply set_memory_same.
Qed.

Lemma took_refl pool u mm : mm_wf mm → took pool u [] mm mm.
Proof.
  intros Hw. split.
  - split; [done|apply set_memory_same_l|done..].
  - split; [constructor|set_solver].
  - set_solver.
  - destruct u; [apply track_rel_refl|done].
Qed.

Lemma took_free pool u L mm mm' p : took pool u L mm mm' → in_mm mm p →
  page_ref mm' p = page_ref mm p ∧ (page_free mm' p ↔ page_free mm p ∧ p ∉ L).
Proof.
  intros [[_ _ _ Hr Hf] _ _ _] Hp. specialize (Hr p Hp). specialize (Hf p Hp).
  change (page_ref (set_memory _ mm) p) with (page_ref mm p) in Hr.
  change (page_free (set_memory _ mm) p) with (page_free mm p) in Hf. simpl in *.
  split; [rewrite Hr; by destruct (decide (p ∈ L))|].
  rewrite Hf. destruct (decide (p ∈ L)); tauto.
Qed.

Lemma took_trans pool u L1 L2 mm m1 m2 :
  mm_wf mm → took pool u L1 mm m1 → took pool u L2 m1 m2 → took pool u (L1 ++ L2) mm m2.
Proof.
  intros Hw T1 T2. destruct (took_same _ _ _ _ _ T1) as [S1 W1].
  assert (Hin : ∀ p, p ∈ L2 → in_mm mm p ∧ page_free m1 p).
  { intros p Hp. destruct (to_can _ _ _ _ _ T2) as [_ Hc]. destruct (Hc p Hp) as [Hi Hf].
    split; [by apply (same_mm_in _ _ p S1)|done]. }
  assert (Hdis : L1 ## L2).
  { intros p Hp1 Hp2. destruct (Hin p Hp2) as [Hi Hf].
    apply (took_free _ _ _ _ _ p T1 Hi) in Hf as [_ Hf]. done. }
  split.
  - eapply (mm_acted_app act_take L1 L2 _ (set_memory (mm_memory m2) m1)); [| |done].
    + destruct T1 as [[W S M Hr Hf] _ _ _]. split; [by apply set_memory_wf| |done|done|done].
      destruct S1. by split.
    + destruct T2 as [T2 _ _ _]. done.
  - destruct (to_can _ _ _ _ _ T1) as [N1 C1], (to_can _ _ _ _ _ T2) as [N2 C2]. split.
    + apply NoDup_app. split_and!; [done| |done]. intros p Hp1 Hp2. by apply (Hdis p).
    + intros p [Hp|Hp]%elem_of_app; [by apply C1|]. destruct (Hin p Hp) as [Hi Hf].
      split; [done|]. by apply (took_free _ _ _ _ _ p T1 Hi) in Hf as [? _].
  - intros p [Hp|Hp]%elem_of_app; [by apply (to_pool _ _ _ _ _ T1)|].
    destruct (Hin p Hp) as [Hi _]. destruct (same_mm_page mm m1 p Hw W1 S1 Hi) as [<- _].
    by apply (to_pool _ _ _ _ _ T2).
  - destruct u.
    + eapply track_rel_app; [apply T1|]. eapply same_mm_track; [done|exact W1|done|apply T2].
    + transitivity (mm_memory m1); [apply T2|apply T1].
Qed.

(** Pages taken and given back. *)
Lemma took_release pool u L L' mm m1 m2 :
  mm_wf mm → took pool u L mm m1 → mm_acted act_release L' m1 m2 → L' ⊆ L →
  same_mm mm m2 ∧ mm_wf m2 ∧ mm_memory m2 = mm_memory m1 ∧
  ∀ p, in_mm mm p → page_ref m2 p = page_ref mm p ∧
    (page_free m2 p ↔ page_free mm p ∧ (p ∉ L ∨ p ∈ L')).
Proof.
  intros Hw T [W S M Hr Hf] Hsub. destruct (took_same _ _ _ _ _ T) as [S1 W1].
  split_and!; [by eapply same_mm_trans|done|done|]. intros p Hp.
  destruct (took_free _ _ _ _ _ p T Hp) as [Er Ef].
  assert (Hp1 : in_mm m1 p) by (by apply (same_mm_in _ _ p S1)).
  specialize (Hr p Hp1). specialize (Hf p Hp1). simpl in *.
  assert (Hwas : p ∈ L' → page_free mm p).
  { intros HL. destruct (to_can _ _ _ _ _ T) as [_ Hc]. by apply (Hc p), Hsub. }
  destruct (decide (p ∈ L')); rewrite Hr, Hf, ?Er, ?Ef; naive_solver.
Qed.
End Walk.

(** * Allocating page groups

    The three nested loops of [AllocatePageGroupImpl] take free pages of the pool
    into the group, and leave the pool without a free page when they end with
    pages still wanted. *)

Section Allocate.
Context {R : Type} `{RngLaws R}.
Implicit Types (im : Impl R) (mm : KMemoryManager R).

(** ** One block *)
Lemma mm_acted_memory A L mm mm' m :
  mm_acted A L mm mm' → m = mm_memory mm' → mm_acted A L (set_memory m mm) mm'.
Proof.
  intros [W S M Hr Hf] ->. split; [done| |done|done|done].
  eapply same_mm_trans; [apply set_memory_same_l|done].
Qed.

Lemma took_manager mm i im a n im' :
  mm_wf mm → manager mm i im → impl_acted act_take im a n im' →
  impl_can act_take im a n ∨ n = 0 →
  took (m_pool im) false (seqZ a n) mm (set_manager i im' mm).
Proof.
  intros Hw Hm Ha Hc.
  assert (Hin : ∀ p, a ≤ p < a + n → in_impl im p ∧ impl_free im p).
  { intros p Hp. destruct Hc as [(? & ? & ? & Hpre)| ->]; [|lia]. split; [unfold in_impl; lia|].
    by apply Hpre. }
  split.
  - apply mm_acted_memory; [|done]. apply (set_manager_acted act_take mm i im); [done..|].
    intros p Hp. by apply Hin.
  - split; [apply NoDup_seqZ|]. intros p [Hi Hf]%elem_of_seqZ%Hin. split; [by exists i, im|].
    by apply (page_of_impl mm i im p).
  - intros p [Hi _]%elem_of_seqZ%Hin. by apply (page_pool_of mm i).
  - done.
Qed.

Lemma took_memory pool (u : bool) L mm m1 m :
  mm_wf mm → took pool false L mm m1 →
  (if u then track_rel false m1 L (mm_memory m1) m else m = mm_memory m1) →
  took pool u L mm (set_memory m m1).
Proof.
  intros Hw T Hm. destruct (took_same _ _ _ _ _ T) as [S1 W1].
  destruct T as [[W S M Hr Hf] Hc Hp Hmem]. split; [|done|done|].
  - split; [by apply set_memory_wf| |done|done|done].
    destruct S1. by split.
  - simpl in *. destruct u; [|congruence]. rewrite <- Hmem.
    by eapply same_mm_track; [done|exact W1|done|].
Qed.

Lemma took_back pool u L mm m1 m2 :
  mm_wf mm → took pool false L mm m1 → mm_acted act_release L m1 m2 → took pool u [] mm m2.
Proof.
  intros Hw T Ha. pose proof (to_memory _ _ _ _ _ T) as Hmem. simpl in Hmem.
  destruct (took_release pool false L L mm m1 m2 Hw T Ha ltac:(done)) as (S & W & M & Hp).
  split.
  - split; [done|by eapply same_mm_trans; [apply set_memory_same_l|]|done| |].
    + intros p Hi. by apply Hp.
    + intros p Hi. rewrite (proj2 (Hp p Hi)). simpl. split; [tauto|]. intros Hf. split; [done|].
      destruct (decide (p ∈ L)); tauto.
  - split; [constructor|set_solver].
  - set_solver.
  - destruct u; [|congruence]. rewrite M, Hmem. apply track_rel_refl.
Qed.

Lemma took_nil pool u mm m1 : took pool false [] mm m1 → took pool u [] mm m1.
Proof.
  intros [Ha Hc Hp Hm]. split; [done..|]. simpl in Hm. destruct u; [|done]. rewrite Hm.
  apply track_rel_refl.
Qed.

(** Nothing of the manager [i] is free. *)
Definition exhausted mm (i : nat) : Prop :=
  ∀ im p, manager mm i im → in_impl im p → ¬ page_free mm p.

Lemma exhausted_took pool u L mm mm' i :
  mm_wf mm → took pool u L mm mm' → exhausted mm i → exhausted mm' i.
Proof.
  intros Hw T He im' p Hm' Hp' Hf. destruct (took_same _ _ _ _ _ T) as [S1 _].
  destruct (same_mm_manager mm mm' i im' S1 Hm') as (im & Hm & Hs).
  assert (Hp : in_impl im p) by (by apply (same_impl_pages _ _ Hs)).
  apply (took_free _ _ _ _ _ p T ltac:(by exists i, im)) in Hf as [Hf _]. by apply (He im p).
Qed.

(** ** The loops *)
Section Group.
Context {S : Type} `{SlabLaws S}.
Context (pool : Z) (u random : bool).

Definition alloc_post mm (s : S) (g : KPageGroup) (num : Z) : ret_group → Prop :=
  λ '(r, mm', s', g', num'), ∃ L,
    took pool u L mm mm' ∧ group_wf g' ∧ group_pages g' = group_pages g ++ L ∧
    num' = num - Z.of_nat (length L) ∧ 0 ≤ num' ∧
    (slab_size s' + length g' = slab_size s + length g)%nat ∧
    (r = ResultSuccess ∨ r = ResultOutOfResource ∧ slab_Allocate s' = None ∧ 0 < num').

Lemma alloc_post_refl mm s g num :
  mm_wf mm → group_wf g → 0 ≤ num → alloc_post mm s g num (ResultSuccess, mm, s, g, num).
Proof.
  intros Hw Hg Hn. exists []. split_and!; [by apply took_refl|done|by rewrite app_nil_r|simpl; lia
    |done|done|by left].
Qed.

Lemma alloc_post_trans mm s g num r m1 s1 g1 n1 ret :
  mm_wf mm → alloc_post mm s g num (r, m1, s1, g1, n1) → alloc_post m1 s1 g1 n1 ret →
  alloc_post mm s g num ret.
Proof.
  destruct ret as [[[[r2 m2] s2] g2] n2].
  intros Hw (L1 & T1 & Hg1 & E1 & -> & Hn1 & Hs1 & _) (L2 & T2 & Hg2 & E2 & -> & Hn2 & Hs2 & Hr).
  exists (L1 ++ L2). rewrite length_app.
  split_and!; [by eapply took_trans|done|by rewrite E2, E1, app_assoc|lia|lia|lia|done].
Qed.

Lemma alloc_post_wf mm s g num r m1 s1 g1 n1 :
  alloc_post mm s g num (r, m1, s1, g1, n1) → mm_wf m1 ∧ same_mm mm m1 ∧ group_wf g1 ∧ 0 ≤ n1.
Proof. intros (L & [T1 T2]%took_same & ? & _ & _ & ? & _). done. Qed.

Lemma OutOfResource_fails : Result_IsSuccess ResultOutOfResource = false.
Proof. reflexivity. Qed.

(** No block was found. *)
Lemma block_null mm s g i im num im1 index :
  mm_wf mm → group_wf g → manager mm i im → m_pool im = pool → 0 ≤ num →
  impl_acted act_take im 0 0 im1 → no_block im index →
  alloc_post mm s g num (ResultSuccess, set_manager i im1 mm, s, g, num) ∧
  (index = 0%nat → exhausted (set_manager i im1 mm) i).
Proof.
  intros Hw Hg Hm Hp Hn Ha Hno.
  pose proof (took_manager mm i im 0 0 im1 Hw Hm Ha ltac:(by right)) as T. rewrite Hp in T. split.
  - exists []. split_and!; [by apply took_nil|done|by rewrite app_nil_r|simpl; lia|lia|done|by left].
  - intros -> jm q Hj Hq Hf. destruct (took_same _ _ _ _ _ T) as [S1 _].
    destruct (same_mm_manager mm _ i jm S1 Hj) as (im2 & Hj2 & Hsi).
    assert (im2 = im) as -> by (destruct Hj2, Hm; congruence).
    assert (Hq' : in_impl im q) by (by apply (same_impl_pages _ _ Hsi)).
    apply (took_free _ _ _ _ _ q T) in Hf as [Hf _]; [|by exists i, im].
    apply (page_of_impl mm i im q Hw Hm Hq') in Hf. by apply (no_block_0 im q Hno).
Qed.

(** A block was found but there is no block info for it: it goes back. *)
Lemma block_failed mm s g i im num p per im1 :
  mm_wf mm → group_wf g → manager mm i im → m_pool im = pool → 0 < num →
  impl_can act_take im p per → impl_acted act_take im p per im1 → slab_Allocate s = None →
  wp (Impl_Free im1 (p * PageSize) per) (λ im2,
    alloc_post mm s g num
      (ResultOutOfResource, set_manager i im2 (set_manager i im1 mm), s, g, num)).
Proof.
  intros Hw Hg Hm Hp Hn Hcan Ha Hnone. pose proof (mw_impl mm Hw i im Hm) as Hi.
  pose proof (took_manager mm i im p per im1 Hw Hm Ha ltac:(by left)) as T. rewrite Hp in T.
  destruct Hcan as (Hlo & Hper & Hhi & Hpre).
  destruct (same_impl_pages _ _ (ia_same _ _ _ _ _ Ha)) as (E1 & E2 & E3). eapply wp_mono.
  - apply Impl_Free_does; [apply Ha|]. unfold impl_can. rewrite E1, E2. split_and!; [lia..|].
    intros q Hq. assert (Hqi : in_impl im q) by (unfold in_impl; lia).
    pose proof (ia_ref _ _ _ _ _ Ha q Hqi) as Er. pose proof (ia_free _ _ _ _ _ Ha q Hqi) as Ef.
    rewrite decide_True in Er by lia. rewrite decide_True in Ef by lia. simpl in *.
    rewrite Er, Ef. split; [|tauto]. apply (iw_free im Hi q Hqi). by apply Hpre.
  - intros im2 Hrel. exists [].
    split_and!; [|done|by rewrite app_nil_r|simpl; lia|lia|done|by right].
    eapply (took_back pool u (seqZ p per)); [done|exact T|].
    apply (set_manager_acted act_release (set_manager i im1 mm) i im1);
      [apply (took_same _ _ _ _ _ T)|by eapply set_manager_at|done|].
    intros q Hq. apply E3. unfold in_impl. lia.
Qed.

(** A block was found and added, and its pages are tracked. *)
Lemma block_added mm s g i im num p per im1 s1 g1 :
  mm_wf mm → manager mm i im → m_pool im = pool → per ≤ num →
  impl_can act_take im p per → impl_acted act_take im p per im1 →
  group_wf g1 → group_pages g1 = group_pages g ++ seqZ p per →
  (slab_size s1 + length g1 = slab_size s + length g)%nat →
  let m1 := set_manager i im1 mm in
  wp (if u then TrackUnoptimizedAllocation (m_memory_layout m1) im1 (mm_memory m1) (p * PageSize) per
      else mret (mm_memory m1)) (λ m,
    alloc_post mm s g num (ResultSuccess, set_memory m m1, s1, g1, num - per) ∧
    manager (set_memory m m1) i im1).
Proof.
  intros Hw Hm Hp Hn Hcan Ha Hg1 Eg1 Hs1 m1.
  pose proof (took_manager mm i im p per im1 Hw Hm Ha ltac:(by left)) as T. rewrite Hp in T.
  pose proof (set_manager_at mm i im im1 Hm) as Hm1. fold m1 in T, Hm1.
  destruct (took_same _ _ _ _ _ T) as [S1 W1]. destruct Hcan as (Hlo & Hper & Hhi & Hpre).
  assert (Hin1 : in_impl im1 p ∧ in_impl im1 (p + per - 1)).
  { destruct (same_impl_pages _ _ (ia_same _ _ _ _ _ Ha)) as (_ & _ & Ein).
    rewrite !Ein. unfold in_impl. lia. }
  apply (wp_mono _ (λ m, if u then track_rel false m1 (seqZ p per) (mm_memory m1) m
                         else m = mm_memory m1)).
  { destruct u; [|done].
    apply (TrackUnoptimizedAllocation_run m1 i im1); [done..|apply Hin1|apply Hin1]. }
  intros m Hmem. split; [|done]. exists (seqZ p per).
  split_and!; [by apply took_memory|done|done|rewrite length_seqZ; lia|lia|done|by left].
Qed.

Lemma block_loop_run index sh per fuel : ∀ mm s g i im num,
  MemoryBlockPageShifts !! index = Some sh → per = 2 ^ (sh - 12) →
  mm_wf mm → group_wf g → manager mm i im → m_pool im = pool → 0 ≤ num ≤ Z.of_nat fuel →
  num < 2 ^ 64 →
  wp (block_loop fuel mm s g i (Z.of_nat index) u random per num) (λ ret,
    alloc_post mm s g num ret ∧
    let '(r, mm', _, _, num') := ret in
    r = ResultSuccess → index = 0%nat → 0 < num' → exhausted mm' i).
Proof.
  intros mm s g i im num Hs Eper. revert mm s g im num.
  destruct (shift_cases index sh Hs) as (_ & Hs12 & _).
  assert (Hper : 0 < per) by (subst; apply pow2_pos; lia).
  induction fuel as [|fuel IH]; intros mm s g im num Hw Hg Hm Hp Hn H64; cbn [block_loop].
  { rewrite (proj2 (Z.leb_gt _ _)) by lia. assert (num = 0) as -> by lia.
    split; [by apply alloc_post_refl|]. lia. }
  destruct (per <=? num) eqn:E; bool_prop.
  2:{ split; [apply alloc_post_refl; [done|done|lia]|]. intros _ -> Hpos.
      simpl in Hs. simplify_eq. simpl in E. lia. }
  pose proof (mw_impl mm Hw i im Hm) as Hi. rewrite (proj1 Hm). pstep.
  apply wp_bind. eapply wp_mono; [by eapply (Impl_AllocateBlock_run im index sh)|].
  intros [a im1] [(-> & Ha & Hno)|(p & -> & Hp0 & Hcan & Ha)].
  { rewrite Z.eqb_refl. apply wp_ret.
    destruct (block_null mm s g i im num im1 index) as [HA He]; [done..|lia|done|done|].
    split; [done|]. intros _ ? _. by apply He. }
  rewrite <- Eper in Hcan, Ha. destruct (impl_geometry im Hi) as (_ & _ & ? & ? & ?).
  rewrite (proj2 (Z.eqb_neq _ _)) by (rewrite PageSize_eq; lia).
  apply wp_bind. eapply wp_mono; [apply AddBlock_run; [done|lia|done|destruct Hcan; lia]|].
  intros [[r s1] g1] [(-> & Hg1 & Eg1 & Hs1)|(-> & Hnone & -> & ->)].
  - change (Result_IsSuccess ResultSuccess) with true. cbn [negb]. apply wp_bind.
    eapply wp_mono; [by eapply (block_added mm s g i im num p per)|].
    intros m [HA Hm2]. destruct (alloc_post_wf _ _ _ _ _ _ _ _ _ HA) as (W2 & _ & _ & _).
    rewrite (u64_id (num - per)) by (unfold is_u64; lia).
    eapply wp_mono; [apply (IH _ s1 g1 im1 (num - per)); [done|done|done| |lia|lia]|].
    { rewrite <- Hp. apply (si_pool _ _ (ia_same _ _ _ _ _ Ha)). }
    intros [[[[r2 m2] s2] g2] n2] [HB He]. split; [|done]. by eapply alloc_post_trans.
  - rewrite OutOfResource_fails. cbn [negb]. apply wp_bind.
    eapply wp_mono; [eapply (block_failed mm s g i im num); done || lia|].
    intros im2 HA. apply wp_ret. split; [done|]. by intros [=].
Qed.
End Group.
End Allocate.

(** * Allocating page groups: the whole allocation

    The loops over the managers of the pool and over the block sizes, the failure
    guard that gives the blocks back, and [AllocatePageGroupImpl]. *)

(** ** Block sizes *)
Lemma GetBlockNumPages_run index s :
  MemoryBlockPageShifts !! index = Some s →
  GetBlockNumPages (Z.of_nat index) = Done true (2 ^ (s - 12)).
Proof.
  intros Hs. destruct (shift_cases index s Hs) as (_ & Hr & _).
  unfold GetBlockNumPages, GetBlockSize, arr_get.
  rewrite (proj2 (Z.leb_le _ _)), Nat2Z.id, Hs by lia. pstep.
  rewrite u64_pow2 by lia. rewrite PageSize_eq. change 4096 with (2 ^ 12).
  rewrite <- Z.pow_sub_r by lia. done.
Qed.

(** There is a block size not above any positive number of pages. *)
Lemma GetBlockIndex_run num :
  0 ≤ num → ∃ index, GetBlockIndex num = Done true index ∧ -1 ≤ index < 7 ∧ (index = -1 ↔ num = 0).
Proof.
  intros Hn. unfold GetBlockIndex. change (Z.to_nat NumMemoryBlockPageShifts) with 7%nat.
  cbn [block_index_loop MemoryBlockPageShifts lookup list_lookup deref]. pstep.
  repeat match goal with
  | |- context [if ?e <=? num then _ else _] =>
      let v := eval vm_compute in e in change e with v;
      destruct (v <=? num) eqn:?; bool_prop;
      [eexists; split; [reflexivity|]; lia|]; pstep
  end.
  eexists. split; [reflexivity|]. lia.
Qed.

Section Groups.
Context {R : Type} `{RngLaws R}.
Context {S : Type} `{SlabLaws S}.
Implicit Types (im : Impl R) (mm : KMemoryManager R).

Section Loops.
Context (pool dir : Z) (u random : bool).
Local Abbreviation alloc_post := (alloc_post (R := R) (S := S) pool u).

Lemma alloc_post_exhausted mm s g num r m1 s1 g1 n1 i :
  mm_wf mm → alloc_post mm s g num (r, m1, s1, g1, n1) → exhausted mm i → exhausted m1 i.
Proof. intros Hw (L & T & _) He. by eapply exhausted_took. Qed.

Lemma manager_loop_run index sh per fuel :
  MemoryBlockPageShifts !! index = Some sh → per = 2 ^ (sh - 12) → ∀ ws mm s g num,
  mm_wf mm → group_wf g → pool_walk mm pool dir ws → (length ws ≤ fuel)%nat → 0 ≤ num < 2 ^ 64 →
  wp (manager_loop fuel mm s g (head ws) dir (Z.of_nat index) u random per num) (λ ret,
    alloc_post mm s g num ret ∧
    let '(r, mm', _, _, num') := ret in
    r = ResultSuccess → index = 0%nat → 0 < num' → ∀ i, i ∈ ws → exhausted mm' i).
Proof.
  intros Hs Eper. induction fuel as [|fuel IH]; intros [|i ws] mm s g num Hw Hg Hws Hl Hn;
    cbn [manager_loop head]; simpl in Hl; try lia.
  1,2: split; [apply alloc_post_refl; [done|done|lia]|set_solver].
  destruct (walk_cons mm pool dir i ws Hws) as (Hws' & Hi & im & Hm & Hp & _).
  apply wp_bind. eapply wp_mono; [eapply (block_loop_run pool u random index sh per); done || lia|].
  intros [[[[r m1] s1] g1] n1] [HA He].
  destruct (alloc_post_wf _ _ _ _ _ _ _ _ _ _ _ HA) as (W1 & S1 & Hg1 & Hn1).
  pose proof HA as (L & _ & _ & _ & En1 & _ & _ & Hr).
  destruct Hr as [->|[-> _]].
  - change (Result_IsSuccess ResultSuccess) with true. cbn [negb].
    destruct (walk_cons m1 pool dir i ws) as (Hws1 & _ & im1 & _ & _ & ->);
      [by eapply walk_same|]. pstep.
    eapply wp_mono; [apply (IH ws m1 s1 g1 n1); done || lia|].
    intros [[[[r2 m2] s2] g2] n2] [HB He2]. split; [by eapply alloc_post_trans|].
    intros E0 Ei Hn2 j [->|Hj]%elem_of_cons; [|by apply He2].
    eapply alloc_post_exhausted; [exact W1|exact HB|]. apply He; [done|done|].
    destruct HB as (L2 & _ & _ & _ & En2 & _). lia.
  - rewrite OutOfResource_fails. cbn [negb]. apply wp_ret. split; [done|]. by intros [=].
Qed.

Lemma index_loop_run n : (n ≤ 7)%nat → ∀ mm s g num,
  mm_wf mm → group_wf g → 0 ≤ pool < Pool_Count → 0 ≤ num < 2 ^ 64 →
  wp (index_loop n mm s g pool dir u random num) (λ ret,
    alloc_post mm s g num ret ∧
    let '(r, mm', _, _, num') := ret in
    r = ResultSuccess → (0 < n)%nat → 0 < num' →
    ∀ i im, manager mm i im → m_pool im = pool → exhausted mm' i).
Proof.
  intros Hn7. induction n as [|n IH]; intros mm s g num Hw Hg Hp Hn; cbn [index_loop].
  { split; [apply alloc_post_refl; [done|done|lia]|lia]. }
  destruct (0 <? num) eqn:E; bool_prop;
    [|split; [apply alloc_post_refl; [done|done|lia]|lia]].
  destruct (lookup_lt_is_Some_2 MemoryBlockPageShifts n) as [sh Hs]; [simpl; lia|].
  rewrite (GetBlockNumPages_run n sh Hs). pstep.
  destruct (chain_walk mm pool dir Hw Hp) as (ws & Hws & -> & Hall). pstep.
  apply wp_bind. eapply wp_mono.
  { eapply (manager_loop_run n sh _ _ Hs eq_refl ws); [done..| |lia].
    change (Z.to_nat MaxManagerCount) with 10%nat. by eapply walk_length. }
  intros [[[[r m1] s1] g1] n1] [HA He].
  destruct (alloc_post_wf _ _ _ _ _ _ _ _ _ _ _ HA) as (W1 & S1 & Hg1 & Hn1).
  pose proof HA as (L & _ & _ & _ & En1 & _ & _ & Hr).
  destruct Hr as [->|[-> _]].
  - change (Result_IsSuccess ResultSuccess) with true. cbn [negb].
    eapply wp_mono; [apply (IH ltac:(lia) m1 s1 g1 n1); done || lia|].
    intros [[[[r2 m2] s2] g2] n2] [HB He2]. split; [by eapply alloc_post_trans|].
    intros E0 _ Hn2 i im Hm Ep. destruct n as [|n].
    + eapply alloc_post_exhausted; [exact W1|exact HB|]. apply He; [done|done| |by eapply Hall].
      destruct HB as (L2 & _ & _ & _ & En2 & _). lia.
    + destruct (same_mm_manager_l mm m1 i im S1 Hm) as (im1 & Hm1 & Hs1).
      apply (He2 E0 ltac:(lia) Hn2 i im1 Hm1). rewrite <- Ep. apply Hs1.
  - rewrite OutOfResource_fails. cbn [negb]. apply wp_ret. split; [done|]. by intros [=].
Qed.
End Loops.

(** ** The failure guard *)

(** The pages of a block that the guard frees: those of its first manager. *)
Definition head_pages mm (b : KBlockInfo) : list Z :=
  match page_manager mm (bi_page_index b) with
  | Some im => seqZ (bi_page_index b)
      (Z.min (bi_num_pages b) (first_page_of im + num_pages_of im - bi_page_index b))
  | None => []
  end.
Definition returned_pages mm (g : KPageGroup) : list Z := concat (head_pages mm <$> g).

Lemma head_pages_split mm i im b :
  mm_wf mm → manager mm i im → block_ok b → in_impl im (bi_page_index b) → ∃ c,
  0 < c ∧ bi_page_index b + c ≤ first_page_of im + num_pages_of im ∧
  c = Z.min (bi_num_pages b) (first_page_of im + num_pages_of im - bi_page_index b) ∧
  head_pages mm b = seqZ (bi_page_index b) c ∧
  block_pages b = seqZ (bi_page_index b) c ++ seqZ (bi_page_index b + c) (bi_num_pages b - c).
Proof.
  intros Hw Hm (? & ? & ?) Hi.
  unfold head_pages, block_pages. rewrite (page_manager_eq mm i im _ Hw Hm Hi).
  unfold in_impl in Hi.
  set (c := Z.min (bi_num_pages b) (first_page_of im + num_pages_of im - bi_page_index b)).
  assert (0 < c ≤ bi_num_pages b ∧ bi_page_index b + c ≤ first_page_of im + num_pages_of im) by lia.
  exists c. clearbody c. split_and!; [lia|lia| |done|].
  2:{ rewrite <- seqZ_app by lia. f_equal. lia. }
  done.
Qed.

Lemma head_pages_same mm mm' b :
  mm_wf mm → mm_wf mm' → same_mm mm mm' → in_mm mm (bi_page_index b) →
  head_pages mm' b = head_pages mm b.
Proof.
  intros Hw Hw' Hs (i & im & Hm & Hi).
  destruct (same_mm_manager_l mm mm' i im Hs Hm) as (im' & Hm' & Hsi).
  destruct (same_impl_pages _ _ Hsi) as (E1 & E2 & E3). unfold head_pages.
  rewrite (page_manager_eq mm i im), (page_manager_eq mm' i im') by (done || by apply E3).
  by rewrite E1, E2.
Qed.

(** Nothing but pages of the block. *)
Lemma head_pages_sub mm b : head_pages mm b ⊆ block_pages b.
Proof.
  intros p. unfold head_pages, block_pages. destruct (page_manager mm _); [|set_solver].
  rewrite !elem_of_seqZ. lia.
Qed.

Lemma elem_of_group p g : p ∈ group_pages g ↔ ∃ b, b ∈ g ∧ p ∈ block_pages b.
Proof.
  unfold group_pages. rewrite list_elem_of_In, in_concat. split.
  - intros (l & Hl & Hp). apply list_elem_of_In, list_elem_of_fmap in Hl as (b & -> & Hb).
    exists b. split; [done|by apply list_elem_of_In].
  - intros (b & Hb & Hp). exists (block_pages b).
    rewrite <- !list_elem_of_In, list_elem_of_fmap. eauto.
Qed.

Lemma returned_pages_sub mm g : returned_pages mm g ⊆ group_pages g.
Proof.
  induction g as [|b g IH]; [done|]. unfold returned_pages in *. simpl.
  rewrite group_pages_cons. pose proof (head_pages_sub mm b). set_solver.
Qed.

Lemma block_page_in b g : block_ok b → b ∈ g → bi_page_index b ∈ group_pages g.
Proof.
  intros (? & ? & ?) Hb. apply elem_of_group. exists b. split; [done|]. apply elem_of_seqZ. lia.
Qed.

Lemma mm_can_sub A mm L L' : mm_can A mm (L ++ L') → mm_can A mm L'.
Proof.
  intros [Hn Hp]. apply NoDup_app in Hn as (_ & _ & Hn). split; [done|]. intros p Hi.
  apply Hp. set_solver.
Qed.

Lemma free_blocks_loop_run g : Forall block_ok g → ∀ mm,
  mm_wf mm → mm_can act_release mm (group_pages g) →
  wp (free_blocks_loop mm g) (mm_acted act_release (returned_pages mm g) mm).
Proof.
  induction 1 as [|b g Hb Hg IH]; intros mm Hw Hcan; cbn [free_blocks_loop].
  { by apply mm_acted_refl. }
  destruct (block_address b Hb) as (-> & _). rewrite group_pages_cons in Hcan.
  destruct (mm_page_bound mm (bi_page_index b) Hw) as [Hlo _].
  { apply Hcan. destruct Hb as (? & ? & ?). unfold block_pages.
    rewrite elem_of_app, elem_of_seqZ. lia. }
  assert (Hin : ∀ p, p ∈ block_pages b → in_mm mm p ∧ page_ref mm p = 0 ∧ ¬ page_free mm p).
  { intros p Hp. apply Hcan. set_solver. }
  assert (Hb0 : bi_page_index b ∈ block_pages b).
  { destruct Hb as (? & ? & ?). apply elem_of_seqZ. lia. }
  destruct (Hin _ Hb0) as [(i & im & Hm & Hi) _]. pose proof (mw_impl mm Hw i im Hm) as Hwi.
  rewrite (GetManager_run mm i im) by done. pstep.
  change (u64 (KPageHeap_GetEndAddress (m_heap im) - bi_page_index b * PageSize) / PageSize)
    with (Impl_GetPageOffsetToEnd im (bi_page_index b * PageSize)).
  rewrite (offset_to_end im) by done. unfold KBlockInfo_GetNumPages.
  destruct (head_pages_split mm i im b Hw Hm Hb Hi) as (c & Hc & Hce & Ec & Eh & Es).
  rewrite <- Ec. rewrite Es, <- app_assoc in Hcan.
  destruct (mm_can_app act_release _ _ mm Hcan) as (Hcan1 & Hdis & Hrest).
  apply wp_bind. eapply wp_mono.
  { apply Impl_Free_does; [done|]. apply (mm_can_impl act_release mm i im); [done|done|done|done| |].
    - unfold in_impl in *. lia.
    - intros p Hp. apply Hcan1. by apply elem_of_seqZ. }
  intros im' Hact.
  pose proof (set_manager_acted act_release mm i im (bi_page_index b) c im' Hw Hm Hact) as Hmm.
  specialize (Hmm ltac:(intros p Hp; unfold in_impl in *; lia)).
  pose proof (Hrest _ Hmm) as Hcan2. apply mm_can_sub in Hcan2.
  eapply wp_mono; [apply IH; [apply Hmm|done]|]. intros m2 Hm2.
  assert (Er : returned_pages (set_manager i im' mm) g = returned_pages mm g).
  { unfold returned_pages. f_equal. apply list_fmap_ext. intros k d Hd.
    apply head_pages_same; [done|apply Hmm|apply Hmm|].
    destruct Hcan as [_ Hc2]. apply Hc2. rewrite !elem_of_app. right. right.
    apply list_elem_of_lookup_2 in Hd. rewrite Forall_forall in Hg. by apply block_page_in; [apply Hg|]. }
  rewrite Er in Hm2. unfold returned_pages at 1. simpl. rewrite Eh.
  eapply mm_acted_app; [apply _|done|done|]. pose proof (returned_pages_sub mm g). set_solver.
Qed.

(** No manager of the pool starts where another one ends. *)
Definition pool_apart mm (pool : Z) : Prop :=
  ∀ i j im jm, manager mm i im → manager mm j jm → m_pool im = pool → m_pool jm = pool →
    first_page_of jm ≠ first_page_of im + num_pages_of im.

Lemma page_pool_inv mm p pool : mm_wf mm → in_mm mm p → page_pool mm p = Some pool →
  ∃ i im, manager mm i im ∧ in_impl im p ∧ m_pool im = pool.
Proof.
  intros Hw (i & im & Hm & Hp) E. exists i, im. split_and!; [done..|].
  rewrite (page_pool_of mm i im p Hw Hm Hp) in E. congruence.
Qed.

Lemma head_pages_all mm pool b :
  mm_wf mm → pool_apart mm pool → block_ok b →
  (∀ p, p ∈ block_pages b → in_mm mm p ∧ page_pool mm p = Some pool) →
  head_pages mm b = block_pages b.
Proof.
  intros Hw Hapart Hb Hin.
  assert (Hb0 : bi_page_index b ∈ block_pages b).
  { destruct Hb as (? & ? & ?). apply elem_of_seqZ. lia. }
  destruct (Hin _ Hb0) as [Hi Ep].
  destruct (page_pool_inv mm _ pool Hw Hi Ep) as (i & im & Hm & Hp & Epool).
  destruct (head_pages_split mm i im b Hw Hm Hb Hp) as (c & Hc & Hce & Ec & Eh & Es).
  rewrite Eh. unfold block_pages. f_equal. destruct (decide (bi_num_pages b ≤ c)); [lia|].
  set (e := first_page_of im + num_pages_of im) in *. assert (Ece : bi_page_index b + c = e) by lia.
  destruct (Hin e) as [He Epe]; [apply elem_of_seqZ; destruct Hb as (? & ? & ?); lia|].
  destruct (page_pool_inv mm _ pool Hw He Epe) as (j & jm & Hj & Hpj & Epj).
  destruct (decide (first_page_of jm = e)) as [E|Hne]; [by destruct (Hapart i j im jm)|].
  assert (i = j) as ->.
  { apply (manager_unique mm i j im jm (e - 1) Hw Hm Hj); unfold in_impl in *; lia. }
  assert (im = jm) as -> by (destruct Hm, Hj; congruence). unfold in_impl in *. lia.
Qed.

Lemma returned_pages_all mm pool g :
  mm_wf mm → pool_apart mm pool → Forall block_ok g →
  (∀ p, p ∈ group_pages g → in_mm mm p ∧ page_pool mm p = Some pool) →
  returned_pages mm g = group_pages g.
Proof.
  intros Hw Ha. induction 1 as [|b g Hb Hg IH]; intros Hin; [done|].
  rewrite group_pages_cons in *. unfold returned_pages in *. simpl. f_equal.
  - eapply head_pages_all; [done..|]. set_solver.
  - apply IH. set_solver.
Qed.

(** ** AllocatePageGroupImpl *)

(** Fewer than [num] pages of the pool are free: they are all in a list of fewer. *)
Definition few_free mm (pool num : Z) : Prop := ∃ L,
  Z.of_nat (length L) < num ∧
  ∀ p, in_mm mm p → page_pool mm p = Some pool → page_free mm p → p ∈ L.

(** What a failed allocation leaves: [g] is the group it had when it failed. *)
Record alloc_undone (pool : Z) (u : bool) (g : KPageGroup) mm mm' : Prop := {
  au_wf : mm_wf mm';
  au_same : same_mm mm mm';
  au_nodup : NoDup (group_pages g);
  au_pages p : p ∈ group_pages g → in_mm mm p ∧ page_free mm p ∧ page_pool mm p = Some pool;
  au_ref p : in_mm mm p → page_ref mm' p = page_ref mm p;
  au_free p : in_mm mm p →
    page_free mm' p ↔ page_free mm p ∧ (p ∉ group_pages g ∨ p ∈ returned_pages mm g);
  au_memory : if u then track_rel false mm (group_pages g) (mm_memory mm) (mm_memory mm')
              else mm_memory mm' = mm_memory mm
}.

Lemma alloc_undone_apart pool u g mm mm' p :
  mm_wf mm → Forall block_ok g → pool_apart mm pool → alloc_undone pool u g mm mm' → in_mm mm p →
  page_free mm' p ↔ page_free mm p.
Proof.
  intros Hw Hg Ha U Hp. rewrite (au_free _ _ _ _ _ U p Hp).
  rewrite (returned_pages_all mm pool g Hw Ha Hg).
  - destruct (decide (p ∈ group_pages g)); tauto.
  - intros q (? & _ & ?)%(au_pages _ _ _ _ _ U). done.
Qed.

Definition alloc_result (pool : Z) (u : bool) (num : Z) mm (s : S)
    : Z * KMemoryManager R * S * KPageGroup → Prop := λ '(r, mm', s', g'),
  (r = ResultSuccess ∧ took pool u (group_pages g') mm mm' ∧ group_wf g' ∧
   Z.of_nat (length (group_pages g')) = num ∧
   (slab_size s' + length g' = slab_size s)%nat) ∨
  (g' = [] ∧ slab_size s' = slab_size s ∧ ∃ g, group_wf g ∧ alloc_undone pool u g mm mm' ∧
   (r = ResultOutOfMemory ∧ (num = 0 ∨ few_free mm pool num) ∨
    r = ResultOutOfResource ∧ Z.of_nat (length (group_pages g)) < num ∧
      ∃ s1, slab_Allocate s1 = None ∧ (slab_size s1 + length g = slab_size s)%nat)).

(** The block infos do not last: all of them hold a block of free pages of the
    pool, no two of which could share one, and pages are still missing. *)
Definition infos_short mm (pool num : Z) (s : S) : Prop := ∃ g : KPageGroup,
  group_wf g ∧ NoDup (group_pages g) ∧
  (∀ p, p ∈ group_pages g → in_mm mm p ∧ page_free mm p ∧ page_pool mm p = Some pool) ∧
  length g = slab_size s ∧ Z.of_nat (length (group_pages g)) < num.

(** There are then fewer of them than pages. *)
Lemma infos_short_bound mm pool num s : infos_short mm pool num s → Z.of_nat (slab_size s) < num.
Proof.
  intros (g & [Hok _] & _ & _ & <- & Hlt). eapply Z.le_lt_trans; [|exact Hlt]. clear Hlt.
  induction Hok as [|b g Hb Hok IH]; [done|].
  rewrite group_pages_cons, length_app, Nat2Z.inj_add.
  destruct Hb as (? & ? & ?). rewrite length_block_pages by lia. simpl length. lia.
Qed.

Lemma undone_infos_short `{!SlabExact S} pool u num mm mm' (s s1 : S) g :
  group_wf g → alloc_undone pool u g mm mm' → Z.of_nat (length (group_pages g)) < num →
  slab_Allocate s1 = None → (slab_size s1 + length g = slab_size s)%nat → infos_short mm pool num s.
Proof.
  intros Hg U Hl ->%slab_none Es. exists g. split_and!; [done|apply U|apply U|lia|done].
Qed.

Lemma took_undone pool u g mm m1 m2 :
  mm_wf mm → took pool u (group_pages g) mm m1 →
  mm_acted act_release (returned_pages m1 g) m1 m2 → Forall block_ok g →
  alloc_undone pool u g mm m2.
Proof.
  intros Hw T Ha Hg. destruct (took_same _ _ _ _ _ T) as [S1 W1].
  assert (Hin : ∀ p, p ∈ group_pages g → in_mm mm p ∧ page_free mm p).
  { intros p Hp. by apply (to_can _ _ _ _ _ T). }
  assert (Er : returned_pages m1 g = returned_pages mm g).
  { unfold returned_pages. f_equal. apply list_fmap_ext. intros k d Hd%list_elem_of_lookup_2.
    rewrite Forall_forall in Hg. apply head_pages_same; [done..|].
    apply Hin, block_page_in; [by apply Hg|done]. }
  rewrite Er in Ha.
  destruct (took_release pool u _ _ mm m1 m2 Hw T Ha (returned_pages_sub mm g)) as (S2 & W2 & M & Hp).
  split; [done|done|apply (to_can _ _ _ _ _ T)| |intros p Hi; by apply Hp|intros p Hi; by apply Hp|].
  - intros p Hi. destruct (Hin p Hi). split_and!; [done..|]. by apply (to_pool _ _ _ _ _ T).
  - rewrite M. apply (to_memory _ _ _ _ _ T).
Qed.

(** After pages were taken, they can be given back. *)
Lemma took_can_release pool u L mm m1 : mm_wf mm → took pool u L mm m1 → mm_can act_release m1 L.
Proof.
  intros Hw T. destruct (took_same _ _ _ _ _ T) as [S1 W1].
  destruct (to_can _ _ _ _ _ T) as [Hn Hc]. split; [done|]. intros p Hp.
  destruct (Hc p Hp) as [Hi Hf]. destruct (took_free _ _ _ _ _ p T Hi) as [Er Ef].
  split; [by apply (same_mm_in _ _ p S1)|]. rewrite Er. split; [|tauto].
  destruct Hi as (i & im & Hm & Hi). destruct (page_of_impl mm i im p Hw Hm Hi) as [-> E].
  apply (iw_free im (mw_impl mm Hw i im Hm) p Hi). by apply E.
Qed.

(** All managers of the pool exhausted: what was free before was taken. *)
Lemma exhausted_few pool u L num mm m1 :
  mm_wf mm → took pool u L mm m1 → Z.of_nat (length L) < num →
  (∀ i im, manager mm i im → m_pool im = pool → exhausted m1 i) → few_free mm pool num.
Proof.
  intros Hw T Hl He. exists L. split; [done|]. intros p Hi Ep Hf.
  destruct (page_pool_inv mm p pool Hw Hi Ep) as (i & im & Hm & Hp & Epool).
  destruct (took_same _ _ _ _ _ T) as [S1 W1].
  destruct (same_mm_manager_l mm m1 i im S1 Hm) as (im1 & Hm1 & Hsi).
  destruct (decide (p ∈ L)); [done|]. destruct (He i im Hm Epool im1 p Hm1).
  - by apply (same_impl_pages _ _ Hsi).
  - by apply (took_free _ _ _ _ _ p T Hi).
Qed.

Lemma group_wf_nil : group_wf [].
Proof. split; [constructor|done]. Qed.

Lemma alloc_undone_nil pool u mm : mm_wf mm → alloc_undone pool u [] mm mm.
Proof.
  intros Hw. split; [done|apply same_mm_refl|constructor|set_solver|done|set_solver|].
  destruct u; [apply track_rel_refl|done].
Qed.

Lemma AllocatePageGroupImpl_run pool dir u random mm s num :
  mm_wf mm → 0 ≤ pool < Pool_Count → 0 ≤ num < 2 ^ 64 →
  wp (AllocatePageGroupImpl mm s [] num pool dir u random) (alloc_result pool u num mm s).
Proof.
  intros Hw Hp Hn. unfold AllocatePageGroupImpl.
  destruct (GetBlockIndex_run num ltac:(lia)) as (index & -> & Hi & Hi0). pstep.
  destruct (0 <=? index) eqn:E; bool_prop; cbn [negb].
  2:{ apply wp_ret. right. split_and!; [done..|]. exists [].
      split; [apply group_wf_nil|]. split; [by apply alloc_undone_nil|].
      left. split; [done|]. left. lia. }
  apply wp_bind. eapply wp_mono; [apply index_loop_run; [lia|done|apply group_wf_nil|done|done]|].
  intros [[[[r m1] s1] g1] n1] [(L & T & Hg1 & Eg & -> & Hn1 & Hs1 & Hr) He]. simpl in Eg. subst L.
  simpl in Hs1.
  assert (Hfail : ∀ r', Result_IsSuccess r' = false →
    (r' = ResultOutOfMemory ∧ (num = 0 ∨ few_free mm pool num) ∨
     r' = ResultOutOfResource ∧ slab_Allocate s1 = None ∧
       0 < num - Z.of_nat (length (group_pages g1))) →
    wp (m2 ← free_blocks_loop m1 g1;
        let '(s2, out) := KPageGroup_Finalize s1 g1 in mret (r', m2, s2, out))
       (alloc_result pool u num mm s)).
  { intros r' _ Hr'. destruct (took_same _ _ _ _ _ T) as [S1 W1]. apply wp_bind.
    eapply wp_mono; [apply free_blocks_loop_run; [apply Hg1|done|by apply (took_can_release pool u _ mm)]|].
    intros m2 Ha. pose proof (Finalize_slab s1 g1) as Ef. unfold KPageGroup_Finalize in *.
    apply wp_ret. right. simpl in Ef. split_and!; [done|lia|]. exists g1.
    split; [done|]. split; [by apply (took_undone pool u g1 mm m1); [..|apply Hg1]|].
    destruct Hr' as [?|(? & ? & ?)]; [by left|right]. split; [done|]. split; [lia|].
    exists s1. split; [done|lia]. }
  destruct Hr as [->|(-> & Hnone & Hpos)].
  - change (Result_IsSuccess ResultSuccess) with true. cbn [andb].
    destruct (num - Z.of_nat (length (group_pages g1)) =? 0) eqn:E2; bool_prop; cbn [negb].
    + change (Result_IsSuccess ResultSuccess) with true. cbn [negb]. apply wp_ret. left.
      split_and!; done || lia.
    + change (Result_IsSuccess ResultOutOfMemory) with false. cbn [negb]. apply Hfail; [done|].
      left. split; [done|]. right. eapply exhausted_few; [done|exact T|lia|].
      apply He; [done|lia|lia].
  - rewrite OutOfResource_fails. cbn [andb]. rewrite OutOfResource_fails. cbn [negb].
    apply Hfail; [done|]. by right.
Qed.
End Groups.
