(* ===== verification/MemoryManagerOperations.v ===== *)
(** * The operations of the memory manager

    Opening what was allocated, closing a page group, and contiguous
    allocation; and what the pages contain that are allocated for a process. *)

From S2P Require Import Prelude Common MemoryBlockManager PageBitmap PageBitmapLemmas PageBitmapTheorems PageHeap PageHeapLemmas PageHeapTheorems MemoryRegionType MemoryRegion MemoryLayout PageGroup MemoryManager PageGroupTheorems MemoryManagerLemmas MemoryManagerPages MemoryManagerAllocate.

Section Operations.
Context {R : Type} `{RngLaws R}.
Implicit Types (im : Impl R) (mm : KMemoryManager R).

(** ** References *)
Lemma Open_does : mm_does (R := R) act_open KMemoryManager_Open.
Proof. apply split_does; [apply _|apply Impl_Open_does]. Qed.
Lemma OpenFirst_does : mm_does (R := R) act_first KMemoryManager_OpenFirst.
Proof. apply split_does; [apply _|apply Impl_OpenFirst_does]. Qed.
Lemma Close_does : mm_does (R := R) act_close KMemoryManager_Close.
Proof. apply split_does; [apply _|apply Impl_Close_does]. Qed.

(** The pages [L] of the pool were free and have one reference now; nothing else
    has changed but the map of an optimized process. *)
Record opened (pool : Z) (u : bool) (L : list Z) mm mm' : Prop := {
  op_wf : mm_wf mm';
  op_same : same_mm mm mm';
  op_nodup : NoDup L;
  op_pages p : p ∈ L → in_mm mm p ∧ page_free mm p ∧ page_pool mm p = Some pool;
  op_ref p : in_mm mm p → page_ref mm' p = if decide (p ∈ L) then 1 else page_ref mm p;
  op_free p : in_mm mm p → page_free mm' p ↔ page_free mm p ∧ p ∉ L;
  op_memory : if u then track_rel false mm L (mm_memory mm) (mm_memory mm')
              else mm_memory mm' = mm_memory mm
}.

Lemma opened_refl pool u mm : mm_wf mm → opened pool u [] mm mm.
Proof.
  intros Hw. split; [done|apply same_mm_refl|constructor|set_solver|done|set_solver|].
  destruct u; [apply track_rel_refl|done].
Qed.

(** Pages just taken can be opened for the first time. *)
Lemma took_can_first pool u L mm m1 : mm_wf mm → took pool u L mm m1 → mm_can act_first m1 L.
Proof. apply took_can_release. Qed.

Lemma took_opened pool u L mm m1 m2 :
  mm_wf mm → took pool u L mm m1 → mm_acted act_first L m1 m2 → opened pool u L mm m2.
Proof.
  intros Hw T [W S M Hr Hf]. destruct (took_same _ _ _ _ _ T) as [S1 W1].
  assert (Hin : ∀ p, in_mm mm p → in_mm m1 p) by (intros p Hp; by apply (same_mm_in _ _ p S1)).
  split; [done|by eapply same_mm_trans|apply (to_can _ _ _ _ _ T)| | | |].
  - intros p Hp. destruct (proj2 (to_can _ _ _ _ _ T) p Hp). split_and!; [done..|].
    by apply (to_pool _ _ _ _ _ T).
  - intros p Hp. rewrite Hr by (by apply Hin). simpl.
    by rewrite (proj1 (took_free _ _ _ _ _ p T Hp)).
  - intros p Hp. rewrite Hf by (by apply Hin). simpl.
    rewrite <- (proj2 (took_free _ _ _ _ _ p T Hp)). by destruct (decide (p ∈ L)).
  - rewrite M. apply (to_memory _ _ _ _ _ T).
Qed.

(** What closing the pages again gives. *)
Lemma opened_can_close pool u L mm m1 : opened pool u L mm m1 → mm_can act_close m1 L.
Proof.
  intros [W S N Hp Hr Hf _]. split; [done|]. intros p Hi. destruct (Hp p Hi) as (Hin & _ & _).
  split; [by apply (same_mm_in _ _ p S)|]. simpl. rewrite Hr, decide_True by done. lia.
Qed.

Lemma opened_closed pool u L mm m1 m2 :
  mm_wf mm → opened pool u L mm m1 → mm_acted act_close L m1 m2 →
  mm_wf m2 ∧ same_mm mm m2 ∧ mm_memory m2 = mm_memory m1 ∧
  ∀ p, in_mm mm p → page_ref m2 p = page_ref mm p ∧ (page_free m2 p ↔ page_free mm p).
Proof.
  intros Hw [W S N Hp Hr Hf _] [W2 S2 M2 Hr2 Hf2].
  split_and!; [done|by eapply same_mm_trans|done|]. intros p Hi.
  assert (Hi1 : in_mm m1 p) by (by apply (same_mm_in _ _ p S)).
  specialize (Hr2 p Hi1). specialize (Hf2 p Hi1). specialize (Hr p Hi). specialize (Hf p Hi).
  rewrite Hr2, Hf2. destruct (decide (p ∈ L)) as [E|E]; simpl; rewrite Hr; [|tauto].
  destruct (Hp p E) as (_ & Hfree & _). split; [|tauto].
  destruct Hi as (i & im & Hm & Hi). destruct (page_of_impl mm i im p Hw Hm Hi) as [-> E2].
  rewrite (iw_free im (mw_impl mm Hw i im Hm) p Hi) by (by apply E2). done.
Qed.

(** ** Page groups *)
Section Groups.
Context {S : Type} `{SlabLaws S}.

Lemma CloseAndReset_run g : Forall block_ok g → ∀ mm s,
  mm_wf mm → mm_can act_close mm (group_pages g) →
  wp (KPageGroup_CloseAndReset mm s g) (λ '(mm', s', g'),
    g' = [] ∧ slab_size s' = (slab_size s + length g)%nat ∧
    mm_acted act_close (group_pages g) mm mm').
Proof.
  induction 1 as [|b g Hb Hg IH]; intros mm s Hw Hcan; cbn [KPageGroup_CloseAndReset].
  { apply wp_ret. split_and!; [done|simpl; lia|by apply mm_acted_refl]. }
  rewrite group_pages_cons in Hcan |- *.
  destruct (mm_can_app act_close _ _ mm Hcan) as (Hc1 & Hdis & Hc2).
  destruct (block_address b Hb) as (-> & _). destruct Hb as (? & ? & ?).
  apply wp_bind. eapply wp_mono.
  { apply Close_does; [done|unfold KBlockInfo_GetNumPages; lia|done]. }
  intros m1 Hm1. eapply wp_mono; [apply IH; [apply Hm1|by apply Hc2]|].
  intros [[m2 s2] g2] (-> & Es & Hm2). rewrite slab_size_Free in Es.
  split_and!; [done|simpl; lia|eapply mm_acted_app; [apply _|exact Hm1|exact Hm2|done]].
Qed.

(** Whether pages of the pool are tracked for an optimized process. *)
Definition optimized_pool mm (pool : Z) : bool :=
  default false (m_has_optimized_process mm !! Z.to_nat pool).

Lemma pool_array {A} (d : A) (l : list A) pool : length l = 4%nat → 0 ≤ pool < Pool_Count →
  arr_get l pool = Done true (default d (l !! Z.to_nat pool)).
Proof.
  intros Hl Hp. unfold arr_get. rewrite (proj2 (Z.leb_le _ _)) by lia.
  destruct (lookup_lt_is_Some_2 l (Z.to_nat pool)) as [x Hx]; [unfold Pool_Count in Hp; lia|].
  by rewrite Hx.
Qed.

(** Every option has a pool below 16. *)
Definition pool_valid (option : Z) : Prop := GetPool option < Pool_Count.

Lemma pool_valid_range option : pool_valid option → 0 ≤ GetPool option < Pool_Count.
Proof.
  intros Hv. split; [|done]. unfold GetPool. apply Z.shiftr_nonneg, Z.land_nonneg. right. done.
Qed.

Lemma AllocateAndOpen_run mm s num option :
  mm_wf mm → pool_valid option → 0 ≤ num < 2 ^ 64 →
  let pool := GetPool option in
  let u := optimized_pool mm pool in
  wp (AllocateAndOpen mm s [] num option) (λ '(r, mm', s', g'),
    (r = ResultSuccess ∧ opened pool u (group_pages g') mm mm' ∧ group_wf g' ∧
     Z.of_nat (length (group_pages g')) = num ∧ (slab_size s' + length g' = slab_size s)%nat) ∨
    (g' = [] ∧ slab_size s' = slab_size s ∧ ∃ g, group_wf g ∧ alloc_undone pool u g mm mm' ∧
     (r = ResultOutOfMemory ∧ few_free mm pool num ∨
      r = ResultOutOfResource ∧ Z.of_nat (length (group_pages g)) < num ∧
        ∃ s1, slab_Allocate s1 = None ∧ (slab_size s1 + length g = slab_size s)%nat))).
Proof.
  intros Hw Hv Hn pool u. apply pool_valid_range in Hv. fold pool in Hv. unfold AllocateAndOpen.
  change (KPageGroup_GetNumPages [] =? 0) with true. change (ASSERT true) with (Done true ()). pstep.
  destruct (num =? 0) eqn:E; bool_prop.
  { apply wp_ret. left. split; [done|]. split; [by apply opened_refl|].
    split; [apply group_wf_nil|]. simpl. lia. }
  unfold DecodeOption. fold pool. rewrite (lock_pool_run pool Hv). pstep.
  rewrite (pool_array false) by (done || apply (mw_arrays mm Hw)). pstep.
  fold (optimized_pool mm pool). fold u.
  apply wp_bind. eapply wp_mono; [by apply AllocatePageGroupImpl_run|].
  intros [[[r m1] s1] g1] [(-> & T & Hg & El & Es)|(-> & Es & g & Hg & U & Hr)].
  - change (Result_IsSuccess ResultSuccess) with true. cbn [negb]. apply wp_bind.
    eapply wp_mono.
    { apply (group_loop_run act_first); [apply OpenFirst_does|apply Hg|apply (took_same _ _ _ _ _ T)|].
      by apply (took_can_first pool u _ mm). }
    intros m2 Ha. apply wp_ret. left. split; [done|]. split; [by eapply took_opened|]. done.
  - assert (Result_IsSuccess r = false) as ->.
    { by destruct Hr as [[-> _]|[-> _]]. }
    cbn [negb]. apply wp_ret. right. split_and!; [done..|]. exists g. split; [done|]. split; [done|].
    destruct Hr as [[? [?|?]]|?]; [lia|by left|by right].
Qed.
End Groups.

(** ** Contiguous allocation *)
Lemma set_manager_other mm i j im1 jm :
  i ≠ j → manager (set_manager i im1 mm) j jm ↔ manager mm j jm.
Proof. intros Hne. unfold manager. simpl. by rewrite list_lookup_insert_ne. Qed.

Lemma GetNextManager_other mm i im im1 dir :
  manager mm i im → same_impl im im1 →
  GetNextManager (set_manager i im1 mm) i dir = GetNextManager mm i dir.
Proof.
  intros Hm Hs. unfold GetNextManager. rewrite (proj1 Hm).
  rewrite (proj1 (set_manager_at mm i im im1 Hm)). pstep.
  by rewrite (si_next _ _ Hs), (si_prev _ _ Hs).
Qed.

Definition continuous_found (pool num align : Z) mm
    : Z * option nat * KMemoryManager R → Prop := λ '(a, chosen, mm'),
  ∃ p i im', a = p * PageSize ∧ 0 < p ∧ a mod 2 ^ countr_zero (align * PageSize) = 0 ∧
    chosen = Some i ∧ manager mm' i im' ∧ in_impl im' p ∧ in_impl im' (p + num - 1) ∧
    took pool false (seqZ p num) mm mm'.

Lemma continuous_loop_run pool dir index sh num align fuel :
  MemoryBlockPageShifts !! index = Some sh → random_args num align sh → ∀ ws mm,
  mm_wf mm → pool_walk mm pool dir ws → (length ws ≤ fuel)%nat →
  wp (continuous_loop fuel mm (head ws) dir (Z.of_nat index) num align) (λ ret,
    (ret.1.1 = 0 ∧ took pool false [] mm ret.2 ∧
     ∀ i im, i ∈ ws → manager mm i im → no_block im index) ∨
    continuous_found pool num align mm ret).
Proof.
  intros Hs Hargs. induction fuel as [|fuel IH]; intros [|i ws] mm Hw Hws Hl;
    cbn [continuous_loop head]; simpl in Hl; try lia.
  1,2: left; split_and!; [done|by apply took_refl|set_solver].
  destruct (walk_cons mm pool dir i ws Hws) as (Hws' & Hi & im & Hm & Hp & Enext).
  rewrite (proj1 Hm). pstep. apply wp_bind.
  eapply wp_mono; [by apply (Impl_AllocateAligned_run im index sh); [apply (mw_impl mm Hw i)|..]|].
  intros [a im1] [[(-> & Ha & Hno)|(p & -> & Hp0 & Hcan & Ha)] Hal].
  - rewrite Z.eqb_refl. cbn [negb].
    pose proof (took_manager mm i im 0 0 im1 Hw Hm Ha ltac:(by right)) as T. rewrite Hp in T.
    destruct (took_same _ _ _ _ _ T) as [S1 W1].
    rewrite (GetNextManager_other mm i im im1 dir Hm (ia_same _ _ _ _ _ Ha)), Enext. pstep.
    eapply wp_mono; [apply IH; [done|by eapply walk_same|lia]|].
    intros [[a2 ch2] m2] [(Ea & T2 & Hno2)|Hf]; [left|right]; simpl in *.
    + split_and!; [done|by apply (took_trans pool false [] [] mm _ m2 Hw T T2)|].
      intros j jm [->|Hj]%elem_of_cons Hmj.
      * by assert (jm = im) as -> by (destruct Hmj, Hm; congruence).
      * apply (Hno2 j jm Hj). apply set_manager_other; [|done]. by intros ->.
    + destruct Hf as (q & j & jm & ? & ? & ? & ? & ? & ? & ? & T2). exists q, j, jm.
      split_and!; [done..|]. by apply (took_trans pool false [] _ mm _ m2 Hw T T2).
  - destruct (impl_geometry im (mw_impl mm Hw i im Hm)) as (_ & _ & ? & ? & ?).
    rewrite (proj2 (Z.eqb_neq _ _)) by (rewrite PageSize_eq; lia). cbn [negb]. apply wp_ret. right.
    exists p, i, im1. destruct (same_impl_pages _ _ (ia_same _ _ _ _ _ Ha)) as (_ & _ & E3).
    pose proof (took_manager mm i im p num im1 Hw Hm Ha ltac:(by left)) as T. rewrite Hp in T.
    destruct Hcan as (? & ? & ? & _).
    split_and!; [done..|by eapply set_manager_at| | |done]; apply E3; unfold in_impl; lia.
Qed.

Lemma AllocateAndOpenContinuous_run mm num align option :
  mm_wf mm → pool_valid option → 0 < num → 0 < align → Z.max num align ≤ 2 ^ 18 →
  let pool := GetPool option in
  wp (AllocateAndOpenContinuous mm num align option) (λ '(a, mm'),
    (a = 0 ∧ opened pool (optimized_pool mm pool) [] mm mm' ∧
     ∀ i im, manager mm i im → m_pool im = pool →
       no_block im (Z.to_nat (GetAlignedBlockIndex num align))) ∨
    (∃ p, a = p * PageSize ∧ 0 < p ∧ a mod 2 ^ countr_zero (align * PageSize) = 0 ∧
       opened pool (optimized_pool mm pool) (seqZ p num) mm mm')).
Proof.
  intros Hw Hv Hn Ha Hmax pool. apply pool_valid_range in Hv. fold pool in Hv.
  unfold AllocateAndOpenContinuous. rewrite (proj2 (Z.eqb_neq num 0)) by lia.
  unfold DecodeOption. fold pool. rewrite (lock_pool_run pool Hv). pstep.
  destruct (aligned_index_spec num align Hn Ha) as [[_ ?]|(index & sh & Ei & Hs & Hargs)]; [lia|].
  rewrite Ei, Nat2Z.id.
  destruct (chain_walk mm pool (GetDirection option) Hw Hv) as (ws & Hws & -> & Hall). pstep.
  apply wp_bind. eapply wp_mono.
  { apply (continuous_loop_run pool _ index sh num align _ Hs Hargs ws); [done..|].
    change (Z.to_nat MaxManagerCount) with 10%nat. by eapply walk_length. }
  intros [[a ch] m1] [(E0 & T & Hno)|(p & i & im & -> & Hp & Hal & -> & Hm & Hp1 & Hp2 & T)].
  - simpl in E0, T. subst a. rewrite Z.eqb_refl. apply wp_ret. left. split; [done|].
    split; [|intros i im Hm Ep; apply (Hno i); [by eapply Hall|done]].
    apply (took_opened pool _ [] mm m1); [done|by apply took_nil|]. apply mm_acted_refl.
    apply (took_same _ _ _ _ _ T).
  - rewrite (proj2 (Z.eqb_neq _ _)) by (rewrite PageSize_eq; lia). pstep.
    rewrite (proj1 Hm). pstep. destruct (took_same _ _ _ _ _ T) as [S1 W1].
    rewrite (sm_has _ _ S1), (pool_array false) by (done || apply (mw_arrays mm Hw)). pstep.
    fold (optimized_pool mm pool). apply wp_bind.
    apply (wp_mono _ (λ m, if optimized_pool mm pool
      then track_rel false m1 (seqZ p num) (mm_memory m1) m else m = mm_memory m1)).
    { destruct (optimized_pool mm pool); [|done].
      by apply (TrackUnoptimizedAllocation_run m1 i im). }
    intros m Hmem. pose proof (took_memory pool _ _ mm m1 m Hw T Hmem) as T2.
    destruct (took_same _ _ _ _ _ T2) as [S2 W2].
    pose proof (took_can_first pool _ _ mm _ Hw T2) as Hcan.
    assert (Hin : ∀ q, p ≤ q < p + num → in_impl im q) by (intros q Hq; unfold in_impl in *; lia).
    assert (Hc2 : impl_can act_first im p num).
    { apply (mm_can_impl act_first (set_memory m m1) i im); [done|done|done|done|done|].
      intros q Hq. apply Hcan. by apply elem_of_seqZ. }
    apply wp_bind. eapply wp_mono; [apply Impl_OpenFirst_does; [by apply (mw_impl m1 W1 i)|done]|].
    intros im2 Hact. apply wp_ret. right. exists p. split_and!; [done..|].
    eapply took_opened; [done|exact T2|]. by apply (set_manager_acted act_first _ i im).
Qed.
End Operations.

(** * Allocation for processes: what the pages contain

    [AllocateForProcess] fills the pages it hands out, apart from those the
    optimized process was the last one to have. *)

Lemma page_of_byte p x : p * PageSize ≤ x < (p + 1) * PageSize ↔ x / PageSize = p.
Proof. rewrite (page_in_range p 1 x). lia. Qed.

(** ** Without optimization *)
Lemma ClearBackingRegion_bytes m b v x : block_ok b →
  mem_byte (ClearBackingRegion m (KBlockInfo_GetAddress b) (KBlockInfo_GetSize b) v) x =
  if decide (x / PageSize ∈ block_pages b) then u8 v else mem_byte m x.
Proof.
  intros Hb. destruct (block_address b Hb) as (-> & _ & ->). destruct Hb as (? & ? & ?).
  pose proof page_pos. unfold ClearBackingRegion. rewrite mem_byte_memset, Z2Nat.id by lia.
  pose proof (page_in_range (bi_page_index b) (bi_num_pages b) x) as Hr.
  unfold block_pages. destruct (decide (x / PageSize ∈ _)) as [E|E]; rewrite elem_of_seqZ in E.
  - rewrite decide_True by lia. done.
  - rewrite decide_False by lia. done.
Qed.

Lemma clear_blocks_bytes v g : Forall block_ok g → ∀ m x,
  mem_byte (foldl (λ m b, ClearBackingRegion m (KBlockInfo_GetAddress b) (KBlockInfo_GetSize b) v)
              m g) x =
  if decide (x / PageSize ∈ group_pages g) then u8 v else mem_byte m x.
Proof.
  induction 1 as [|b g Hb Hg IH]; intros m x; [done|]. cbn [foldl].
  rewrite IH, ClearBackingRegion_bytes by done. rewrite group_pages_cons.
  destruct (decide (x / PageSize ∈ group_pages g)), (decide (x / PageSize ∈ block_pages b)),
    (decide (x / PageSize ∈ block_pages b ++ group_pages g)); set_solver.
Qed.

Section Process.
Context {R : Type} `{RngLaws R}.
Implicit Types (im : Impl R) (mm : KMemoryManager R) (m : DeviceMemory).

Lemma in_impl_byte im x : impl_wf im →
  in_impl im (x / PageSize) ↔ m_heap_address (m_heap im) ≤ x < heap_end (m_heap im).
Proof.
  intros Hw. destruct (impl_geometry im Hw) as (Ea & Es & _). unfold heap_end. rewrite Ea, Es.
  rewrite <- Z.mul_add_distr_r, page_in_range. done.
Qed.

(** A byte of a page is not in a map. *)
Lemma page_not_in_map mm x : mm_wf mm → in_mm mm (x / PageSize) → ¬ in_map mm x.
Proof.
  intros Hw (j & jm & Hj & Hp) (i & im & Hm & Hx).
  apply (in_impl_byte jm x (mw_impl mm Hw j jm Hj)) in Hp.
  destruct (mw_map_heap mm Hw i j im jm Hm Hj); lia.
Qed.

(** Memory that differs in pages only has the same bits in the maps. *)
Lemma tracked_ext mm m m' p :
  mm_wf mm → in_mm mm p → (∀ x, in_map mm x → mem_byte m' x = mem_byte m x) →
  tracked mm m' p = tracked mm m p.
Proof.
  intros Hw (i & im & Hm & Hp) Hx. unfold tracked. rewrite (page_manager_eq mm i im p) by done.
  unfold map_bit. f_equal. apply mem_load_ext. intros x Hr. apply Hx. exists i, im.
  split; [done|]. pose proof (map_word_inside mm im p (mw_impl mm Hw i im Hm) Hp).
  simpl in Hr. lia.
Qed.

(** ** Optimized processes *)

(** The pages of [L] that are not tracked are filled. *)
Definition fill_rel mm (L : list Z) (v : Z) m m' : Prop :=
  ∀ x, mem_byte m' x =
    if decide (x / PageSize ∈ L ∧ tracked mm m (x / PageSize) = false) then u8 v else mem_byte m x.

Lemma fill_tracked mm L v m m' p :
  mm_wf mm → (∀ q, q ∈ L → in_mm mm q) → fill_rel mm L v m m' → in_mm mm p →
  tracked mm m' p = tracked mm m p.
Proof.
  intros Hw HL Hf Hp. apply tracked_ext; [done..|]. intros x Hx. rewrite Hf, decide_False; [done|].
  intros [Hin%HL _]. by apply (page_not_in_map mm x Hw Hin).
Qed.

Lemma fill_rel_app mm L1 L2 v m m1 m2 :
  mm_wf mm → (∀ q, q ∈ L1 ++ L2 → in_mm mm q) →
  fill_rel mm L1 v m m1 → fill_rel mm L2 v m1 m2 → fill_rel mm (L1 ++ L2) v m m2.
Proof.
  intros Hw HL F1 F2 x.
  assert (Et : in_mm mm (x / PageSize) → tracked mm m1 (x / PageSize) = tracked mm m (x / PageSize)).
  { intros Hi. apply (fill_tracked mm L1 v); [done| |done|done]. set_solver. }
  rewrite F2, F1. specialize (HL (x / PageSize)). rewrite elem_of_app in HL.
  destruct (decide (x / PageSize ∈ L1)), (decide (x / PageSize ∈ L2)); repeat case_decide;
    rewrite ?Et in * by tauto; try done; set_solver.
Qed.

Lemma optimize_bit_test m pa o : 0 ≤ o →
  (Z.land (load_u64 m (optimize_word pa o)) (optimize_bit o) =? 0) = negb (map_bit m pa o).
Proof.
  intros Ho. unfold map_bit, optimize_bit. pose proof (Z.mod_pos_bound o 64 ltac:(lia)).
  set (w := load_u64 _ _). apply eq_true_iff_eq. rewrite Z.eqb_eq, negb_true_iff. split.
  - intros E. pose proof (f_equal (λ z, Z.testbit z (o mod 64)) E) as E2. simpl in E2.
    rewrite Z.land_spec, word_mask, bool_decide_eq_true_2, andb_true_r, Z.bits_0 in E2 by lia. done.
  - intros E. apply Z.bits_inj'. intros j Hj. rewrite Z.land_spec, word_mask, Z.bits_0 by lia.
    case_bool_decide; [subst; by rewrite E|apply andb_false_r].
Qed.

(** One manager: its pages from [a] on. *)
Lemma process_loop_run mm i im v n :
  mm_wf mm → manager mm i im → ∀ m a any,
  (∀ p, a ≤ p < a + Z.of_nat n → in_impl im p) →
  ∃ new m', process_loop n m (map_start mm im) (m_heap_address (m_heap im))
      (a - first_page_of im) (a + Z.of_nat n - 1 - first_page_of im) v any = Done true (new, m') ∧
    fill_rel mm (seqZ a (Z.of_nat n)) v m m' ∧
    (new = true ↔ any = true ∨ ∃ p, a ≤ p < a + Z.of_nat n ∧ tracked mm m p = false).
Proof.
  intros Hw Hm. pose proof (mw_impl mm Hw i im Hm) as Hi.
  destruct (impl_geometry im Hi) as (Ea & _ & ? & ? & ?).
  induction n as [|n IH]; intros m a any Hin; cbn [process_loop].
  { rewrite (proj2 (Z.leb_gt _ _)) by lia. exists any, m. split_and!; [done| |].
    - intros x. rewrite decide_False; [done|]. rewrite elem_of_seqZ. lia.
    - split; [by left|]. intros [?|(p & ? & _)]; [done|lia]. }
  rewrite (proj2 (Z.leb_le _ _)) by lia.
  pose proof (Hin a ltac:(lia)) as Hia. unfold in_impl in Hia.
  rewrite optimize_bit_test by lia.
  rewrite (u64_id (a - first_page_of im + 1)) by (unfold is_u64; lia).
  replace (a - first_page_of im + 1) with (a + 1 - first_page_of im) by lia.
  replace (a + Z.of_nat (S n) - 1 - first_page_of im)
    with (a + 1 + Z.of_nat n - 1 - first_page_of im) by lia.
  assert (Et : ∀ m, map_bit m (map_start mm im) (a - first_page_of im) = tracked mm m a).
  { intros m0. unfold tracked. by rewrite (page_manager_eq mm i im a) by done. }
  rewrite Et.
  assert (Eseq : seqZ a (Z.of_nat (S n)) = [a] ++ seqZ (a + 1) (Z.of_nat n)).
  { rewrite seqZ_cons by lia. simpl. do 2 f_equal; lia. }
  assert (HL : ∀ q, q ∈ [a] ++ seqZ (a + 1) (Z.of_nat n) → in_mm mm q).
  { rewrite <- Eseq. intros q Hq%elem_of_seqZ. exists i, im. split; [done|]. by apply Hin. }
  rewrite Eseq. set (m1 := if tracked mm m a then m else
    memset (Z.to_nat PageSize) m (u64 (m_heap_address (m_heap im) +
      u64 ((a - first_page_of im) * PageSize))) v).
  assert (F1 : fill_rel mm [a] v m m1).
  { intros x. unfold m1. destruct (tracked mm m a) eqn:E.
    - rewrite decide_False; [done|]. rewrite list_elem_of_singleton. intros [-> ?]. congruence.
    - rewrite Ea, PageSize_eq, (u64_id (_ * 4096)), u64_id by (unfold is_u64; lia).
      replace (_ + _) with (a * PageSize) by (rewrite PageSize_eq; lia).
      rewrite mem_byte_memset. pose proof (page_of_byte a x) as Hx. rewrite PageSize_eq in *.
      rewrite Z2Nat.id by lia. destruct (decide (x / 4096 = a)) as [E2|Hne].
      + rewrite decide_True by lia. rewrite decide_True; [done|]. rewrite E2. set_solver.
      + rewrite decide_False by lia. rewrite decide_False by set_solver. done. }
  destruct (IH m1 (a + 1) (any || negb (tracked mm m a))) as (new & m' & Er & F2 & Hnew).
  { intros p Hp. apply Hin. lia. }
  exists new, m'. split_and!.
  - unfold m1 in Er. destruct (tracked mm m a); cbn [negb] in *.
    + by rewrite orb_false_r in Er.
    + by rewrite orb_true_r in Er.
  - by eapply fill_rel_app.
  - assert (Et1 : ∀ p, in_impl im p → tracked mm m1 p = tracked mm m p).
    { intros p Hp. apply (fill_tracked mm [a] v m m1 p Hw); [set_solver|done|]. by exists i, im. }
    rewrite Hnew, orb_true_iff, negb_true_iff. split.
    + intros [[?|?]|(p & Hp & E)]; [by left|right; exists a; split; [lia|done]|right].
      exists p. split; [lia|]. rewrite <- Et1; [done|]. apply Hin. lia.
    + intros [?|(p & Hp & E)]; [by left; left|]. destruct (decide (p = a)) as [->|].
      * left. by right.
      * right. exists p. split; [lia|]. rewrite Et1; [done|]. apply Hin. lia.
Qed.

Lemma ProcessOptimizedAllocation_run mm i im m a n v :
  mm_wf mm → manager mm i im → 0 < n → (∀ p, a ≤ p < a + n → in_impl im p) →
  wp (ProcessOptimizedAllocation (m_memory_layout mm) im m (a * PageSize) n v) (λ '(new, m'),
    fill_rel mm (seqZ a n) v m m' ∧
    (new = true ↔ ∃ p, a ≤ p < a + n ∧ tracked mm m p = false)).
Proof.
  intros Hw Hm Hn Hin. pose proof (mw_impl mm Hw i im Hm) as Hi.
  destruct (impl_geometry im Hi) as (_ & _ & ? & ? & ?).
  pose proof (Hin a ltac:(lia)) as Ha. pose proof (Hin (a + n - 1) ltac:(lia)) as Hb.
  unfold ProcessOptimizedAllocation. rewrite impl_offset by done. unfold in_impl in Ha, Hb.
  rewrite (u64_id (_ + n)), u64_id by (unfold is_u64; lia).
  fold (map_start mm im).
  destruct (process_loop_run mm i im v (Z.to_nat n) Hw Hm m a false) as (new & m' & Er & F & Hnew).
  { intros p Hp. apply Hin. lia. }
  rewrite Z2Nat.id in * by lia.
  replace (a - first_page_of im + n - 1) with (a + n - 1 - first_page_of im) by lia.
  rewrite Er. apply wp_Done. split; [done|]. rewrite Hnew. naive_solver.
Qed.

(** ** The blocks of a group *)
Lemma mm_memory_id mm : set_memory (mm_memory mm) mm = mm.
Proof. by destruct mm. Qed.

(** When the block has one manager, it is known whether a page was filled. *)
Lemma process_block_run v fuel : ∀ mm a n any,
  mm_wf mm → 0 ≤ n ≤ Z.of_nat fuel → (∀ p, a ≤ p < a + n → in_mm mm p) →
  wp (process_block fuel mm (a * PageSize) n v any) (λ '(new, mm'), ∃ m',
    mm' = set_memory m' mm ∧ fill_rel mm (seqZ a n) v (mm_memory mm) m' ∧
    (n = 0 → new = any) ∧
    ((∃ i im, manager mm i im ∧ ∀ p, a ≤ p < a + n → in_impl im p) →
     (∃ p, a ≤ p < a + n ∧ tracked mm (mm_memory mm) p = false) → new = true)).
Proof.
  assert (Hend : ∀ mm a n any, n = 0 → ∃ m', mm = set_memory m' mm ∧
    fill_rel mm (seqZ a n) v (mm_memory mm) m' ∧ (n = 0 → any = any) ∧
    ((∃ i im, manager mm i im ∧ ∀ p, a ≤ p < a + n → in_impl im p) →
     (∃ p, a ≤ p < a + n ∧ tracked mm (mm_memory mm) p = false) → any = true)).
  { intros mm a n any ->. exists (mm_memory mm). rewrite mm_memory_id.
    split_and!; [done| |done|intros _ (p & ? & _); lia].
    intros x. rewrite decide_False; [done|]. rewrite elem_of_seqZ. lia. }
  induction fuel as [|fuel IH]; intros mm a n any Hw Hn Hin; cbn [process_block].
  all: destruct (0 <? n) eqn:E; bool_prop; try lia; try (apply wp_ret, Hend; lia).
  destruct (split_step mm a n Hw ltac:(lia) Hin)
    as (i & im & c & Hm & -> & Ec & Hc & Hic & Hmax & Eseq & Ea & En).
  pstep. rewrite Ec. apply wp_bind.
  eapply wp_mono; [apply (ProcessOptimizedAllocation_run mm i im); done || lia|].
  intros [new m1] [F1 Hnew]. rewrite Ea, En.
  eapply wp_mono; [apply IH; [by apply set_memory_wf|lia|]|].
  { intros p Hp. apply (same_mm_in _ _ p (set_memory_same mm m1)), Hin. lia. }
  intros [new2 mm2] (m2 & -> & F2 & Hn2 & _). exists m2. split_and!; [done| |lia|].
  - rewrite Eseq. eapply fill_rel_app; [done| |exact F1|exact F2]. rewrite <- Eseq.
    intros q Hq%elem_of_seqZ. by apply Hin.
  - intros (j & jm & Hj & Hjm) Hex.
    assert (i = j) as -> by (apply (manager_unique mm i j im jm a Hw Hm Hj); [apply Hic|apply Hjm]; lia).
    assert (im = jm) as -> by (destruct Hm, Hj; congruence).
    destruct (decide (c < n)) as [Hlt|]; [exfalso; apply (Hmax Hlt), Hjm; lia|].
    rewrite Hn2 by lia. apply Hnew. by replace c with n by lia.
Qed.

Lemma track_block_run fuel : ∀ mm a n,
  mm_wf mm → 0 ≤ n ≤ Z.of_nat fuel → (∀ p, a ≤ p < a + n → in_mm mm p) →
  wp (track_block fuel mm (a * PageSize) n) (λ mm', ∃ m',
    mm' = set_memory m' mm ∧ track_rel true mm (seqZ a n) (mm_memory mm) m').
Proof.
  induction fuel as [|fuel IH]; intros mm a n Hw Hn Hin; cbn [track_block].
  all: destruct (0 <? n) eqn:E; bool_prop; try lia; try (apply wp_ret; exists (mm_memory mm);
    rewrite mm_memory_id; assert (n = 0) as -> by lia; by split; [|apply track_rel_refl]).
  destruct (split_step mm a n Hw ltac:(lia) Hin)
    as (i & im & c & Hm & -> & Ec & Hc & Hic & _ & Eseq & Ea & En).
  pstep. rewrite (lock_pool_run _ (iw_pool im (mw_impl mm Hw i im Hm))), Ec. pstep. apply wp_bind.
  eapply wp_mono; [apply (TrackOptimizedAllocation_run mm i im); try apply Hic; done || lia|].
  intros m1 F1. rewrite Ea, En.
  eapply wp_mono; [apply IH; [by apply set_memory_wf|lia|]|].
  { intros p Hp. apply (same_mm_in _ _ p (set_memory_same mm m1)), Hin. lia. }
  intros mm2 (m2 & -> & F2). exists m2. split; [done|]. rewrite Eseq.
  eapply track_rel_app; [exact F1|exact F2].
Qed.

(** What the optimized process finds: the pages it did not have are filled and,
    when no block spans two managers, all are its own now. *)
Record optimized_fill mm (L : list Z) (v : Z) m m' : Prop := {
  of_bytes x : ¬ in_map mm x → mem_byte m' x =
    if decide (x / PageSize ∈ L ∧ tracked mm m (x / PageSize) = false) then u8 v else mem_byte m x;
  of_other p : in_mm mm p → p ∉ L → tracked mm m' p = tracked mm m p;
  of_kept p : in_mm mm p → tracked mm m p = true → tracked mm m' p = true
}.

Lemma optimized_fill_refl mm v m : optimized_fill mm [] v m m.
Proof. split; [|done|done]. intros x _. rewrite decide_False; [done|set_solver]. Qed.

(** The memory of the state itself does not matter. *)
Lemma optimized_fill_memory mm m0 L v m m' :
  optimized_fill (set_memory m0 mm) L v m m' → optimized_fill mm L v m m'.
Proof. intros [A B C]. split; [exact A|exact B|exact C]. Qed.

Lemma optimized_fill_app mm L1 L2 v m m1 m2 :
  mm_wf mm → (∀ q, q ∈ L1 ++ L2 → in_mm mm q) → L1 ## L2 →
  optimized_fill mm L1 v m m1 → optimized_fill mm L2 v m1 m2 →
  optimized_fill mm (L1 ++ L2) v m m2.
Proof.
  intros Hw HL Hd [A1 A2 A3] [B1 B2 B3]. split.
  - intros x Hx. rewrite B1, A1 by done. specialize (HL (x / PageSize)). specialize (Hd (x / PageSize)).
    specialize (A2 (x / PageSize)). rewrite elem_of_app in HL.
    destruct (decide (x / PageSize ∈ L1)), (decide (x / PageSize ∈ L2)); repeat case_decide;
      rewrite ?A2 in * by tauto; try done; set_solver.
  - intros p Hp [H1 H2]%not_elem_of_app. by rewrite B2, A2.
  - intros p Hp Ht. by apply B3, A3.
Qed.

(** A block filled and, if a new page was seen, tracked. *)
Lemma optimized_fill_block mm L v m m1 m2 :
  mm_wf mm → (∀ q, q ∈ L → in_mm mm q) → fill_rel mm L v m m1 →
  (m2 = m1 ∨ track_rel true mm L m1 m2) → optimized_fill mm L v m m2.
Proof.
  intros Hw HL F T. pose proof (λ p, fill_tracked mm L v m m1 p Hw HL F) as Ht.
  assert (HT : (∀ x, ¬ in_map mm x → mem_byte m2 x = mem_byte m1 x) ∧
    ∀ p, in_mm mm p → tracked mm m2 p = tracked mm m p ∨ p ∈ L ∧ tracked mm m2 p = true).
  { destruct T as [->|[T1 T2]]; split; [done|auto|done|]. intros p Hp. rewrite T1, Ht by done.
    destruct (decide (p ∈ L)); auto. }
  destruct HT as [Hb Hp]. split.
  - intros x Hx. by rewrite Hb, F.
  - intros p Hi Hn. by destruct (Hp p Hi) as [|[]].
  - intros p Hi E. by destruct (Hp p Hi) as [->|[]].
Qed.

Definition one_manager mm (b : KBlockInfo) : Prop :=
  ∃ i im, manager mm i im ∧ ∀ p, p ∈ block_pages b → in_impl im p.

Lemma optimized_loop_run v g : Forall block_ok g → ∀ mm,
  mm_wf mm → NoDup (group_pages g) → (∀ p, p ∈ group_pages g → in_mm mm p) →
  wp (optimized_loop mm g v) (λ mm', ∃ m', mm' = set_memory m' mm ∧
    optimized_fill mm (group_pages g) v (mm_memory mm) m' ∧
    ((∀ b, b ∈ g → one_manager mm b) → ∀ p, p ∈ group_pages g → tracked mm m' p = true)).
Proof.
  induction 1 as [|b g Hb Hg IH]; intros mm Hw Hnd Hin; cbn [optimized_loop].
  { apply wp_ret. exists (mm_memory mm). rewrite mm_memory_id.
    split_and!; [done|apply optimized_fill_refl|set_solver]. }
  rewrite group_pages_cons in Hnd, Hin |- *. apply NoDup_app in Hnd as (_ & Hd & Hnd).
  destruct (block_address b Hb) as (-> & _). unfold KBlockInfo_GetNumPages.
  pose proof Hb as (Hb0 & Hbn & _). rewrite (proj2 (Z.eqb_neq (bi_num_pages b) 0)) by lia.
  assert (Hinb : ∀ p, bi_page_index b ≤ p < bi_page_index b + bi_num_pages b → in_mm mm p).
  { intros p Hp. apply Hin, elem_of_app. left. by apply elem_of_seqZ. }
  apply wp_bind. eapply wp_mono; [apply process_block_run; [done|lia|done]|].
  intros [new mm1] (m1 & -> & F1 & _ & Hnew). fold (block_pages b) in F1. apply wp_bind.
  apply (wp_mono _ (λ mm2, ∃ m2, mm2 = set_memory m2 mm ∧
    (if new then track_rel true mm (block_pages b) m1 m2 else m2 = m1))).
  { destruct new; [|by exists m1].
    eapply wp_mono; [apply track_block_run; [by apply set_memory_wf|lia|exact Hinb]|].
    intros mm2 (m2 & -> & T). by exists m2. }
  intros mm2 (m2 & -> & T).
  assert (O1 : optimized_fill mm (block_pages b) v (mm_memory mm) m2).
  { eapply optimized_fill_block; [done| |exact F1|destruct new; [by right|by left]].
    intros q Hq. apply Hin. set_solver. }
  eapply wp_mono; [apply (IH (set_memory m2 mm)); [by apply set_memory_wf|done|]|].
  { intros p Hp. apply (same_mm_in _ _ p (set_memory_same mm m2)), Hin. set_solver. }
  intros mm3 (m3 & -> & O2%optimized_fill_memory & Hall). exists m3. split_and!; [done| |].
  - eapply optimized_fill_app; [done|done| |exact O1|exact O2]. intros p Hp1 Hp2. by apply (Hd p).
  - intros Hone p [Hp|Hp]%elem_of_app.
    2:{ apply Hall; [|done]. intros c Hc. apply Hone. set_solver. }
    assert (Hip : in_mm mm p) by (apply Hin; set_solver).
    apply (of_kept _ _ _ _ _ O2 p Hip). change (tracked mm m2 p = true). destruct new.
    + rewrite (proj1 T p Hip). by rewrite decide_True.
    + apply (of_kept _ _ _ _ _ O1 p Hip). apply not_false_is_true. intros E.
      discriminate Hnew; [|exists p; split; [by apply elem_of_seqZ|done]].
      destruct (Hone b ltac:(set_solver)) as (i & im & Hm & Hpi). exists i, im.
      split; [done|]. intros q Hq. by apply Hpi, elem_of_seqZ.
Qed.

(** When managers of the pool are apart, no block spans two of them. *)
Lemma apart_one_manager mm pool b :
  mm_wf mm → pool_apart mm pool → block_ok b →
  (∀ p, p ∈ block_pages b → in_mm mm p ∧ page_pool mm p = Some pool) → one_manager mm b.
Proof.
  intros Hw Ha Hb Hin. pose proof (head_pages_all mm pool b Hw Ha Hb Hin) as E.
  assert (Hb0 : bi_page_index b ∈ block_pages b).
  { destruct Hb as (? & ? & ?). apply elem_of_seqZ. lia. }
  destruct (Hin _ Hb0) as [(i & im & Hm & Hi) _].
  destruct (head_pages_split mm i im b Hw Hm Hb Hi) as (c & Hc & Hce & _ & Eh & _).
  exists i, im. split; [done|]. intros p Hp. rewrite <- E, Eh, elem_of_seqZ in Hp.
  unfold in_impl in *. lia.
Qed.

(** ** AllocateForProcess *)
Definition optimized_id mm (pool : Z) : Z :=
  default 0 (m_optimized_process_ids mm !! Z.to_nat pool).

(** What an allocation for a process leaves in memory: [has] when the pool has an
    optimized process, [own] when it is the process that allocates. *)
Record process_memory mm (pool : Z) (has own : bool) (g : KPageGroup) (v : Z) m m' : Prop := {
  pm_bytes x : ¬ in_map mm x → mem_byte m' x =
    if decide (x / PageSize ∈ group_pages g ∧
               (has && own && tracked mm m (x / PageSize) = false)) then u8 v else mem_byte m x;
  pm_other p : in_mm mm p → p ∉ group_pages g → tracked mm m' p = tracked mm m p;
  pm_unoptimized p : has = true → own = false → p ∈ group_pages g → tracked mm m' p = false;
  pm_optimized p : has = true → own = true → pool_apart mm pool → p ∈ group_pages g →
    tracked mm m' p = true
}.

(** Pages taken, then filled as a whole. *)
Lemma process_memory_clear pool u g v mm (m1 : KMemoryManager R) m (has own : bool) :
  mm_wf mm → Forall block_ok g → took pool u (group_pages g) mm m1 →
  u = has && negb own → has && own = false →
  m = foldl (λ m b, ClearBackingRegion m (KBlockInfo_GetAddress b) (KBlockInfo_GetSize b) v)
        (mm_memory m1) g →
  process_memory mm pool has own g v (mm_memory mm) m.
Proof.
  intros Hw Hg T -> Hho ->. pose proof (clear_blocks_bytes v g Hg (mm_memory m1)) as Hx.
  set (m := foldl _ _ _) in *. clearbody m.
  assert (Hin : ∀ p, p ∈ group_pages g → in_mm mm p) by (intros p Hp; by apply (to_can _ _ _ _ _ T)).
  assert (Ht : ∀ p, in_mm mm p → tracked mm m p = tracked mm (mm_memory m1) p).
  { intros p Hp. apply tracked_ext; [done..|]. intros x Hmap. rewrite Hx, decide_False; [done|].
    intros Hxg%Hin. by apply (page_not_in_map mm x Hw). }
  pose proof (to_memory _ _ _ _ _ T) as Hm. split.
  - intros x Hmap. rewrite Hx, Hho. cbn [andb].
    assert (Eb : mem_byte (mm_memory m1) x = mem_byte (mm_memory mm) x).
    { destruct (has && negb own); [by apply Hm|by rewrite Hm]. }
    rewrite Eb. destruct (decide (x / PageSize ∈ group_pages g)); case_decide; tauto.
  - intros p Hp Hn. rewrite Ht by done. destruct (has && negb own); [|by rewrite Hm].
    by rewrite (proj1 Hm p Hp), decide_False.
  - intros p -> -> Hp. cbn [andb negb] in Hm. rewrite Ht by (by apply Hin).
    by rewrite (proj1 Hm p (Hin p Hp)), decide_True.
  - intros p -> ->. done.
Qed.

(** Pages taken for the optimized process. *)
Lemma process_memory_optimized pool g v mm (m1 : KMemoryManager R) m2 :
  mm_wf mm → Forall block_ok g → took pool false (group_pages g) mm m1 →
  optimized_fill m1 (group_pages g) v (mm_memory m1) m2 →
  ((∀ b, b ∈ g → one_manager m1 b) → ∀ p, p ∈ group_pages g → tracked m1 m2 p = true) →
  process_memory mm pool true true g v (mm_memory mm) m2.
Proof.
  intros Hw Hg T [O1 O2 O3] Hall. destruct (took_same _ _ _ _ _ T) as [S1 W1].
  pose proof (to_memory _ _ _ _ _ T) as Hmem. simpl in Hmem. rewrite Hmem in *.
  assert (Hin : ∀ p, p ∈ group_pages g → in_mm mm p) by (intros p Hp; by apply (to_can _ _ _ _ _ T)).
  assert (Et : ∀ m p, in_mm mm p → tracked m1 m p = tracked mm m p).
  { intros m p Hp. by apply (same_mm_page mm m1 p). }
  assert (Emap : ∀ x, in_map m1 x → in_map mm x).
  { intros x (i & im1 & Hm & Hx). destruct (same_mm_manager mm m1 i im1 S1 Hm) as (im & Hm1 & Hsi).
    exists i, im. split; [done|]. unfold map_end, map_start, optimize_map in *.
    by rewrite <- (sm_layout _ _ S1), <- (si_management _ _ Hsi), <- (si_size _ _ Hsi). }
  split.
  - intros x Hx. rewrite O1 by (intros Hx1; by apply Hx, Emap). cbn [andb].
    destruct (decide (x / PageSize ∈ group_pages g)) as [Hp|Hp];
      [pose proof (Et (mm_memory mm) _ (Hin _ Hp)) as E|]; repeat case_decide; try done; exfalso;
      intuition congruence.
  - intros p Hp Hn. rewrite <- !Et by done. apply O2; [|done]. by apply (same_mm_in _ _ p S1).
  - done.
  - intros p _ _ Ha Hp. rewrite <- Et by (by apply Hin). apply Hall; [|done]. intros b Hb.
    destruct (apart_one_manager mm pool b Hw Ha) as (i & im & Hm & Hi).
    + rewrite Forall_forall in Hg. by apply Hg.
    + intros q Hq. assert (Hqg : q ∈ group_pages g) by (apply elem_of_group; eauto).
      split; [by apply Hin|]. by apply (to_pool _ _ _ _ _ T).
    + destruct (same_mm_manager_l mm m1 i im S1 Hm) as (im1 & Hm1 & Hsi). exists i, im1.
      split; [done|]. intros q Hq. by apply (same_impl_pages _ _ Hsi), Hi.
Qed.

Section Groups.
Context {S : Type} `{SlabLaws S}.

Lemma AllocateForProcess_run mm s num option process_id v :
  mm_wf mm → pool_valid option → 0 ≤ num < 2 ^ 64 →
  let pool := GetPool option in
  let has := optimized_pool mm pool in
  let own := optimized_id mm pool =? process_id in
  wp (AllocateForProcess mm s [] num option process_id v) (λ '(r, mm', s', g'),
    (r = ResultSuccess ∧ group_wf g' ∧ Z.of_nat (length (group_pages g')) = num ∧
     (slab_size s' + length g' = slab_size s)%nat ∧
     mm_wf mm' ∧ same_mm mm mm' ∧ mm_can act_take mm (group_pages g') ∧
     (∀ p, p ∈ group_pages g' → page_pool mm p = Some pool) ∧
     (∀ p, in_mm mm p → page_ref mm' p = page_ref mm p ∧
        (page_free mm' p ↔ page_free mm p ∧ p ∉ group_pages g')) ∧
     process_memory mm pool has own g' v (mm_memory mm) (mm_memory mm')) ∨
    (alloc_result pool (has && negb own) num mm s (r, mm', s', g') ∧ r ≠ ResultSuccess)).
Proof.
  intros Hw Hv Hn pool has own. apply pool_valid_range in Hv. fold pool in Hv.
  unfold AllocateForProcess.
  change (KPageGroup_GetNumPages [] =? 0) with true. change (ASSERT true) with (Done true ()). pstep.
  unfold DecodeOption. fold pool. rewrite (lock_pool_run pool Hv). pstep.
  rewrite (pool_array false) by (done || apply (mw_arrays mm Hw)). pstep.
  rewrite (pool_array 0) by (done || apply (mw_arrays mm Hw)). pstep.
  fold (optimized_pool mm pool) (optimized_id mm pool). fold has own.
  apply wp_bind. eapply wp_mono; [by apply AllocatePageGroupImpl_run|].
  intros [[[r m1] s1] g1] Hres. pose proof Hres as [(-> & T & Hg & El & Es)|(-> & _ & g & _ & _ & Hr)].
  2:{ assert (Hf : Result_IsSuccess r = false ∧ r ≠ ResultSuccess).
      { by destruct Hr as [[-> _]|[-> _]]. }
      destruct Hf as [-> Hne]. cbn [negb]. apply wp_ret. right. by split. }
  change (Result_IsSuccess ResultSuccess) with true. cbn [negb].
  destruct (took_same _ _ _ _ _ T) as [S1 W1].
  assert (Hfin : ∀ m, process_memory mm pool has own g1 v (mm_memory mm) m →
    mm_wf (set_memory m m1) ∧ same_mm mm (set_memory m m1) ∧ mm_can act_take mm (group_pages g1) ∧
    (∀ p, p ∈ group_pages g1 → page_pool mm p = Some pool) ∧
    (∀ p, in_mm mm p → page_ref (set_memory m m1) p = page_ref mm p ∧
       (page_free (set_memory m m1) p ↔ page_free mm p ∧ p ∉ group_pages g1)) ∧
    process_memory mm pool has own g1 v (mm_memory mm) (mm_memory (set_memory m m1))).
  { intros m Hpm. split_and!; [by apply set_memory_wf| |apply (to_can _ _ _ _ _ T)
      |apply (to_pool _ _ _ _ _ T)|intros p Hp; apply (took_free _ _ _ _ _ p T Hp)|done].
    eapply same_mm_trans; [exact S1|apply set_memory_same]. }
  destruct (has && own) eqn:Eho.
  - apply andb_prop in Eho as [E1 E2]. rewrite E1, E2 in *. cbn [andb negb] in *. apply wp_bind.
    eapply wp_mono; [apply optimized_loop_run; [apply Hg|done|apply (to_can _ _ _ _ _ T)|]|].
    { intros p Hp. apply (same_mm_in _ _ p S1), (to_can _ _ _ _ _ T), Hp. }
    intros mm2 (m2 & -> & O & Hall). apply wp_ret. left.
    do 4 (split; [done|]). apply Hfin. by apply (process_memory_optimized pool g1 v mm m1); [|apply Hg|..].
  - apply wp_ret. left. do 4 (split; [done|]). apply Hfin.
    by apply (process_memory_clear pool (has && negb own) g1 v mm m1); [|apply Hg|..].
Qed.
End Groups.
End Process.
