(* ===== verification/MemoryManagerProperties.v ===== *)
(** * KMemoryManager: the theorems

    Statements about pages: the number of references to a page, whether it is
    free, which pool it is of, and what its bytes are. *)

From S2P Require Import Prelude Common MemoryBlockManager PageBitmap PageBitmapLemmas PageBitmapTheorems PageHeap PageHeapLemmas PageHeapTheorems MemoryRegionType MemoryRegion MemoryLayout PageGroup MemoryManager PageGroupTheorems MemoryManagerLemmas MemoryManagerPages MemoryManagerAllocate MemoryManagerOperations.

Section Properties.
Context {R : Type} `{RngLaws R}.
Implicit Types (mm : KMemoryManager R).

(** C13: closing a range of pages that have references takes one from each of
    them, page by page, whatever managers the range runs through; exactly the
    pages that had one reference become free, no other page of the system changes,
    and no assertion of the reference counts or of the heap fails, although
    pages are given to the heap in runs. *)
Theorem KMemoryManager_Close_correct mm a n :
  mm_wf mm → 0 ≤ n → (∀ p, a ≤ p < a + n → in_mm mm p ∧ 0 < page_ref mm p) →
  wp (KMemoryManager_Close mm (a * PageSize) n) (λ mm',
    mm_wf mm' ∧ same_mm mm mm' ∧ mm_memory mm' = mm_memory mm ∧
    ∀ p, in_mm mm p →
      page_ref mm' p = (if decide (a ≤ p < a + n) then page_ref mm p - 1 else page_ref mm p) ∧
      (page_free mm' p ↔ page_free mm p ∨ a ≤ p < a + n ∧ page_ref mm p = 1)).
Proof.
  intros Hw Hn Hpre. eapply wp_mono.
  { apply Close_does; [done|done|]. split; [apply NoDup_seqZ|].
    intros p Hp%elem_of_seqZ. by apply Hpre. }
  intros mm' [W S M Hr Hf]. split_and!; [done..|]. intros p Hp. specialize (Hr p Hp).
  specialize (Hf p Hp). simpl in *.
  destruct (decide (p ∈ seqZ a n)) as [E|E]; rewrite elem_of_seqZ in E.
  - rewrite decide_True by done. split; [done|]. rewrite Hf. tauto.
  - rewrite decide_False by done. split; [done|]. rewrite Hf. tauto.
Qed.

Section Groups.
Context {S : Type} `{SlabExact S}.

(** C11: [AllocateAndOpen] gives the number of pages that is asked for, all
    different, all of the pool of the option and free before, each with one
    reference now; or it fails with OutOfMemory and the pool has fewer free
    pages, or with OutOfResource and the block infos do not last: as many runs of
    free pages of the pool as there are block infos, no two of them adjacent in
    the order they were taken, hold fewer pages than are asked for, so that there
    are also fewer block infos than pages asked for.  Block infos are counted, no
    reference to any page changes in a failure, and when no two managers of the
    pool are adjacent a failure leaves every free page free. *)
Theorem AllocateAndOpen_correct mm (s : S) num option :
  mm_wf mm → pool_valid option → 0 ≤ num < 2 ^ 64 →
  let pool := GetPool option in
  wp (AllocateAndOpen mm s [] num option) (λ '(r, mm', s', g),
    mm_wf mm' ∧ same_mm mm mm' ∧ group_wf g ∧ (slab_size s' + length g = slab_size s)%nat ∧
    ((r = ResultSuccess ∧ NoDup (group_pages g) ∧ Z.of_nat (length (group_pages g)) = num ∧
      (∀ p, p ∈ group_pages g → in_mm mm p ∧ page_free mm p ∧ page_pool mm p = Some pool) ∧
      ∀ p, in_mm mm p →
        page_ref mm' p = (if decide (p ∈ group_pages g) then 1 else page_ref mm p) ∧
        (page_free mm' p ↔ page_free mm p ∧ p ∉ group_pages g)) ∨
     (g = [] ∧
      (r = ResultOutOfMemory ∧ few_free mm pool num ∨
       r = ResultOutOfResource ∧ infos_short mm pool num s ∧ Z.of_nat (slab_size s) < num) ∧
      ∀ p, in_mm mm p →
        page_ref mm' p = page_ref mm p ∧ (page_free mm' p → page_free mm p) ∧
        (pool_apart mm pool → page_free mm' p ↔ page_free mm p)))).
Proof.
  intros Hw Hv Hn pool. eapply wp_mono; [by apply AllocateAndOpen_run|].
  intros [[[r mm'] s'] g] [(-> & [] & Hg & El & Es)|(-> & Es & g0 & [Hg0 Hsep] & U & Hr)].
  - split; [done|]. split; [done|]. split; [done|]. split; [done|]. left. split_and!; [done..|].
    intros p Hp. split; [by apply op_ref|by apply op_free].
  - split; [apply U|]. split; [apply U|]. split; [apply group_wf_nil|]. split; [simpl; lia|].
    right. split; [done|]. split.
    { destruct Hr as [?|(? & ? & s1 & ? & ?)]; [by left|right]. split; [done|].
      assert (infos_short mm pool num s) by by eapply undone_infos_short. eauto using infos_short_bound. }
    intros p Hp. split; [by apply U|].
    split; [rewrite (au_free _ _ _ _ _ U p Hp); tauto|].
    intros Ha. by eapply alloc_undone_apart.
Qed.

(** C12: allocating a page group and closing it gives the pool back as it was: the
    count of references of every page, which pages are free and the number of
    free block infos are those before, when the allocation succeeds, and also
    when it fails if no two managers of the pool are adjacent. *)
Theorem AllocateAndOpen_CloseAndReset_roundtrip mm (s : S) num option :
  mm_wf mm → pool_valid option → 0 ≤ num < 2 ^ 64 →
  wp ('(r, mm1, s1, g) ← AllocateAndOpen mm s [] num option;
      '(mm2, s2, g2) ← KPageGroup_CloseAndReset mm1 s1 g;
      mret (r, mm2, s2, g2)) (λ '(r, mm2, s2, g2),
    mm_wf mm2 ∧ g2 = [] ∧ slab_size s2 = slab_size s ∧
    ∀ p, in_mm mm p → page_ref mm2 p = page_ref mm p ∧
      (r = ResultSuccess ∨ pool_apart mm (GetPool option) → page_free mm2 p ↔ page_free mm p)).
Proof.
  intros Hw Hv Hn. apply wp_bind. eapply wp_mono; [by apply AllocateAndOpen_run|].
  intros [[[r m1] s1] g] [(-> & O & Hg & El & Es)|(-> & Es & g0 & [Hg0 Hsep] & U & Hr)]; apply wp_bind.
  - eapply wp_mono; [apply CloseAndReset_run; [apply Hg|apply O|by eapply opened_can_close]|].
    intros [[m2 s2] g2] (-> & Es2 & Ha). apply wp_ret.
    destruct (opened_closed _ _ _ mm m1 m2 Hw O Ha) as (W2 & _ & _ & Hp).
    split_and!; [done|done|lia|]. intros p Hi. destruct (Hp p Hi). split; [done|]. by intros _.
  - apply wp_ret. apply wp_ret. split_and!; [apply U|done|done|]. intros p Hp.
    split; [by apply U|]. intros [->|Ha]; [|by eapply alloc_undone_apart].
    by destruct Hr as [[? _]|[? _]].
Qed.

(** C14: a process never finds in its new pages what another process left there:
    after [AllocateForProcess] succeeds, every byte of every page of the group is
    the fill pattern, apart from the pages that the optimized process of the pool
    had last when it is this process that allocates; no byte outside these pages
    and outside the kernel's maps changes, pages that go to another process are
    taken from the optimized one's map, and its own are entered (the latter when
    no two managers of the pool are adjacent).  It fails with OutOfMemory only
    when fewer pages of the pool are free or when no page is asked for, and with
    OutOfResource only when the block infos do not last: as many separate runs of
    free pages of the pool as there are block infos hold fewer pages than are
    asked for, so that there are fewer block infos than pages asked for. *)
Theorem AllocateForProcess_correct mm (s : S) num option process_id v :
  mm_wf mm → pool_valid option → 0 ≤ num < 2 ^ 64 →
  let pool := GetPool option in
  let has := optimized_pool mm pool in
  let own := optimized_id mm pool =? process_id in
  wp (AllocateForProcess mm s [] num option process_id v) (λ '(r, mm', s', g),
    (r = ResultOutOfMemory ∧ (num = 0 ∨ few_free mm pool num) ∨
     r = ResultOutOfResource ∧ infos_short mm pool num s ∧ Z.of_nat (slab_size s) < num) ∨
    r = ResultSuccess ∧
    Z.of_nat (length (group_pages g)) = num ∧
    (∀ p, p ∈ group_pages g → in_mm mm p ∧ page_free mm p ∧ ¬ page_free mm' p) ∧
    (∀ x, ¬ in_map mm x →
       mem_byte (mm_memory mm') x =
       if decide (x / PageSize ∈ group_pages g ∧
                  (has && own && tracked mm (mm_memory mm) (x / PageSize)) = false)
       then u8 v else mem_byte (mm_memory mm) x) ∧
    (∀ p, in_mm mm p → p ∉ group_pages g →
       tracked mm (mm_memory mm') p = tracked mm (mm_memory mm) p) ∧
    (∀ p, has = true → p ∈ group_pages g → own = false ∨ pool_apart mm pool →
       tracked mm (mm_memory mm') p = own)).
Proof.
  intros Hw Hv Hn pool has own. eapply wp_mono; [by apply AllocateForProcess_run|].
  intros [[[r mm'] s'] g] [(Hr & Hg & El & _ & _ & _ & [_ Hc] & _ & Hp & [P1 P2 P3 P4])|[HA Hne]].
  2:{ left. destruct HA as [(? & _)|(_ & _ & g0 & Hg & U & Hr)]; [done|].
      destruct Hr as [?|(? & ? & s1 & ? & ?)]; [by left|right]. split; [done|].
      assert (infos_short mm pool num s) by by eapply undone_infos_short. eauto using infos_short_bound. }
  right. split_and!; [done|done| |done|done|].
  - intros p Hi. destruct (Hc p Hi) as [Hin Hf]. split_and!; [done..|].
    rewrite (proj2 (Hp p Hin)). tauto.
  - intros p Hh Hi Ho. fold pool has own in P3, P4. destruct own.
    + apply P4; [done|done| |done]. by destruct Ho.
    + by apply P3.
Qed.
End Groups.

(** [AllocateAndOpenContinuous], asked for at most 2 ^ 18 pages and aligned to
    at most as many, returns the address of that many pages that lie in one
    row, all free before and with one reference now, aligned to the largest power
    of two that divides the alignment; or it returns 0, no page changes and no
    manager of the pool has a free block of a size that would do. *)
Theorem AllocateAndOpenContinuous_correct mm num align option :
  mm_wf mm → pool_valid option → 0 < num → 0 < align → Z.max num align ≤ 2 ^ 18 →
  let pool := GetPool option in
  wp (AllocateAndOpenContinuous mm num align option) (λ '(a, mm'),
    mm_wf mm' ∧ same_mm mm mm' ∧
    ((a = 0 ∧
      (∀ p, in_mm mm p → page_ref mm' p = page_ref mm p ∧ (page_free mm' p ↔ page_free mm p)) ∧
      ∀ i im, manager mm i im → m_pool im = pool →
        no_block im (Z.to_nat (GetAlignedBlockIndex num align))) ∨
     (∃ first, a = first * PageSize ∧ 0 < first ∧
      a mod 2 ^ countr_zero (align * PageSize) = 0 ∧
      (∀ p, first ≤ p < first + num → in_mm mm p ∧ page_free mm p ∧ page_pool mm p = Some pool) ∧
      ∀ p, in_mm mm p →
        page_ref mm' p = (if decide (first ≤ p < first + num) then 1 else page_ref mm p) ∧
        (page_free mm' p ↔ page_free mm p ∧ ¬ first ≤ p < first + num)))).
Proof.
  intros Hw Hv Hn Ha Hmax pool. eapply wp_mono; [by apply AllocateAndOpenContinuous_run|].
  intros [a mm'] [(-> & [] & Hno)|(p & -> & Hp & Hal & [])]; (split; [done|]); (split; [done|]).
  - left. split_and!; [done| |done]. intros p Hp.
    rewrite (op_ref p Hp), (op_free p Hp), decide_False by set_solver. set_solver.
  - right. exists p. split_and!; [done..| |].
    + intros q Hq%elem_of_seqZ. by apply op_pages.
    + intros q Hq. rewrite (op_ref q Hq), (op_free q Hq).
      split; [|by rewrite elem_of_seqZ].
      destruct (decide (q ∈ seqZ p num)) as [E|E]; rewrite elem_of_seqZ in E.
      * by rewrite decide_True.
      * by rewrite decide_False.
Qed.
End Properties.
