(* ===== verification/MemoryManagerCreate.v ===== *)
(** Lemmas about the initialisation of memory managers. *)

From S2P Require Import Prelude Common MemoryBlockManager PageBitmap PageBitmapLemmas PageBitmapTheorems PageHeap PageHeapLemmas PageHeapTheorems PageHeapInitialize MemoryRegionType MemoryRegion MemoryLayout MemoryRegionTheorems PageGroup MemoryManager PageGroupTheorems MemoryManagerLemmas MemoryManagerPages.

(** * Initialising a memory manager

    A manager initialised for a region of memory is well-formed and has no free
    page and no reference. *)

Section Initialize.
Context {R : Type} `{RngLaws R}.
Implicit Types (im : Impl R).

(** The sizes that [Initialize] computes. *)
Definition manager_size_of (size : Z) : Z :=
  AlignUp (CalculateOptimizedProcessOverheadSize size + size / PageSize * 2) PageSize.
Definition total_size_of (size : Z) : Z :=
  manager_size_of size + KPageHeap_CalculateManagementOverheadSize size.

(** A manager that was never used. *)
Record raw_impl im : Prop := {
  ri_blocks : length (m_blocks (m_heap im)) = 7%nat;
  ri_rng : rng_wf (heap_rng (m_heap im));
  ri_rngs : Forall (λ B, rng_wf (bm_rng (m_bitmap B))) (m_blocks (m_heap im));
  ri_counts : Forall (eq 0) (m_page_reference_counts im)
}.

(** What it is initialised with: a region of at most 32 GiB below 2 ^ 44 and
    enough management memory. *)
Record initialize_args (mode : MemoryLayoutMode) (address size management management_end p data : Z)
    : Prop := {
  xa_address : 0 < address ∧ address mod PageSize = 0;
  xa_size : 0 < size ≤ 2 ^ 35 ∧ size mod PageSize = 0;
  xa_end : address + size < 2 ^ 44;
  xa_pages : size ≤ GetIntendedMemorySize mode;
  xa_pool : 0 ≤ p < Pool_Count;
  xa_management : 0 ≤ management ∧ management mod PageSize = 0;
  xa_room : management + total_size_of size ≤ management_end < 2 ^ 64;
  xa_data : 0 ≤ data ≤ management
}.

Lemma optimized_size_range size : 0 < size ≤ 2 ^ 35 →
  0 ≤ CalculateOptimizedProcessOverheadSize size ≤ 2 ^ 21.
Proof.
  intros Hs. unfold CalculateOptimizedProcessOverheadSize.
  assert (Hp : 0 ≤ size / PageSize ≤ 2 ^ 23).
  { rewrite PageSize_eq. split; [apply Z.div_pos; lia|].
    apply (Z.div_le_mono size (2 ^ 35) 4096); lia. }
  destruct (AlignUp_spec (size / PageSize) 64) as (_ & Hle & Hlt); [lia..|].
  assert (0 ≤ AlignUp (size / PageSize) 64 / 64 ≤ 2 ^ 18); [|lia].
  split; [apply Z.div_pos; lia|]. apply Z.lt_succ_r, Z.div_lt_upper_bound; lia.
Qed.

Lemma manager_size_range size : 0 < size ≤ 2 ^ 35 →
  manager_size_of size mod PageSize = 0 ∧ 0 ≤ manager_size_of size ≤ 2 ^ 25 ∧
  CalculateOptimizedProcessOverheadSize size ≤ manager_size_of size ∧
  u64 (CalculateOptimizedProcessOverheadSize size + size / PageSize * 2) =
    CalculateOptimizedProcessOverheadSize size + size / PageSize * 2.
Proof.
  intros Hs. pose proof (optimized_size_range size Hs).
  assert (Hp : 0 ≤ size / PageSize ≤ 2 ^ 23).
  { rewrite PageSize_eq. split; [apply Z.div_pos; lia|].
    apply (Z.div_le_mono size (2 ^ 35) 4096); lia. }
  unfold manager_size_of.
  destruct (AlignUp_spec (CalculateOptimizedProcessOverheadSize size + size / PageSize * 2) PageSize)
    as (Hm & Hle & Hlt); [rewrite PageSize_eq in *; lia..|].
  rewrite PageSize_eq in *. split_and!; [done|lia|lia|lia|]. apply u64_id. unfold is_u64. lia.
Qed.

Lemma heap_overhead_range size : 0 < size ≤ 2 ^ 35 →
  KPageHeap_CalculateManagementOverheadSize size mod PageSize = 0 ∧
  0 ≤ KPageHeap_CalculateManagementOverheadSize size < 2 ^ 35.
Proof.
  intros Hs. destruct (overhead_size_eq size Hs) as [Eo Ho].
  pose proof (overheads_range size 4096 MemoryBlockPageShifts 0 eq_refl ltac:(lia) Hs ltac:(lia)) as [Hpos _].
  unfold KPageHeap_CalculateManagementOverheadSize. rewrite Eo.
  destruct (AlignUp_spec (overheads size MemoryBlockPageShifts) PageSize) as (Hm & Hle & Hlt);
    [pose proof PageSize_eq; lia..|].
  rewrite PageSize_eq in *. split; [done|lia].
Qed.

Lemma total_size_range size : 0 < size ≤ 2 ^ 35 →
  total_size_of size mod PageSize = 0 ∧ 0 ≤ total_size_of size < 2 ^ 36 ∧
  manager_size_of size ≤ total_size_of size.
Proof.
  intros Hs. destruct (manager_size_range size Hs) as (Hm1 & ? & _).
  destruct (heap_overhead_range size Hs) as (Hm2 & ?). unfold total_size_of. split_and!; [|lia|lia|lia].
  rewrite Z.add_mod, Hm1, Hm2 by (rewrite PageSize_eq; lia). done.
Qed.

Lemma vector_resize_zero n l : Forall (eq 0) l → vector_resize n l = replicate n 0.
Proof.
  intros Hl. unfold vector_resize.
  assert (El : l = replicate (length l) 0).
  { induction Hl as [|x l <- _ IH]; simpl; [done|]. by f_equal. }
  rewrite El, take_replicate, length_replicate, <- replicate_add. f_equal. lia.
Qed.

(** What is known of a manager just initialised. *)
Record fresh_impl (mode : MemoryLayoutMode) (address size management p : Z) im' : Prop := {
  fi_wf : impl_wf im';
  fi_address : m_heap_address (m_heap im') = address;
  fi_size : m_heap_size (m_heap im') = size;
  fi_management : m_management_region im' = management;
  fi_pool : m_pool im' = p;
  fi_free x : ¬ heap_free (m_heap im') x;
  fi_bytes : heap_bytes (m_heap im') = 0;
  fi_refs q : impl_ref im' q = 0;
  fi_length : length (m_page_reference_counts im') = Z.to_nat (GetIntendedMemorySize mode / PageSize)
}.

Lemma Impl_Initialize_run mode im address size management management_end p data :
  raw_impl im → initialize_args mode address size management management_end p data →
  wp (Impl_Initialize mode im address size management management_end p data) (λ '(total, im'),
    total = total_size_of size ∧ fresh_impl mode address size management p im' ∧
    m_next im' = m_next im ∧ m_prev im' = m_prev im).
Proof.
  intros [R1 R2 R3 R4] [[Ha Ham] [Hs Hsm] He Hpg Hp [Hm Hmm] [Hroom Hend] [Hd1 Hd2]].
  destruct (manager_size_range size Hs) as (Hms & Hmr & Hmo & Eu).
  destruct (heap_overhead_range size Hs) as (Hhm & Hhr).
  destruct (total_size_range size Hs) as (Htm & Htr & Hmt).
  unfold Impl_Initialize. cbv zeta. rewrite Eu. fold (manager_size_of size).
  rewrite (u64_id (manager_size_of size + _)) by (unfold is_u64; lia).
  fold (total_size_of size). rewrite (u64_id (management + total_size_of size)) by (unfold is_u64; lia).
  rewrite (proj2 (Z.leb_le (manager_size_of size) _)), (proj2 (Z.leb_le (management + _) _)) by done.
  rewrite !(proj2 (IsAligned_page _)) by done.
  change (ASSERT true) with (Done true ()). pstep.
  unfold total_size_of in *. rewrite (u64_id (management + manager_size_of size)) by (unfold is_u64; lia).
  apply wp_bind. eapply wp_mono.
  { apply (heap_Initialize_run (m_heap im) address size); split; try done; lia. }
  intros h (Hw & Hno & Hb & Ea & Es). apply wp_ret. split; [done|].
  rewrite (vector_resize_zero _ _ R4).
  assert (Href : ∀ q, impl_ref (MkImpl h (replicate (Z.to_nat (GetIntendedMemorySize mode / PageSize)) 0)
    management p (m_next im) (m_prev im)) q = 0).
  { intros q. unfold impl_ref. simpl. destruct (replicate _ _ !! _) eqn:E; [|done].
    by apply lookup_replicate in E as [-> _]. }
  split; [|done]. split; try done; [|by simpl; rewrite length_replicate].
  split; simpl; [done| | | |done|done].
  - unfold heap_end. lia.
  - rewrite length_replicate. unfold num_pages_of. simpl. rewrite Es. rewrite PageSize_eq.
    rewrite Z2Nat.id; [apply Z.div_le_mono; lia|apply Z.div_pos; lia].
  - apply Forall_replicate. done.
Qed.

(** The links of a manager are not part of that. *)
Lemma fresh_impl_links mode address size management p im next prev :
  fresh_impl mode address size management p im →
  fresh_impl mode address size management p (SetNext next (SetPrev prev im)).
Proof.
  intros [[W1 W2 W3 W4 W5 W6] F1 F2 F3 F4 F5 F6 F7 F8].
  by split.
Qed.
End Initialize.

(** * Creating the managers of the layout

    [Initialize] makes a manager for every number that user-pool regions have as
    their attribute, gives it the extent of these regions and a part of the
    management memory, and links it behind the last manager of its pool. *)

(** ** Extents *)

(** The regions [rs] lie one behind the other from [a] to [e], all of one pool. *)
Fixpoint tiles (a e pool : Z) (rs : list KMemoryRegion) : Prop :=
  match rs with
  | [] => a = e
  | r :: rs => mr_address r = a ∧ a ≤ mr_last_address r < 2 ^ 44 ∧
      GetPoolFromMemoryRegionType (mr_type_id r) = Done true pool ∧
      tiles (mr_last_address r + 1) e pool rs
  end.

(** The user-pool regions of manager [i]. *)
Definition regions_of (i : nat) (t : list KMemoryRegion) : list KMemoryRegion :=
  filter (λ r, is_user_pool r = true ∧ mr_attributes r = Z.of_nat i) t.

Lemma regions_of_cons i r t : regions_of i (r :: t) =
  if is_user_pool r && (mr_attributes r =? Z.of_nat i) then r :: regions_of i t else regions_of i t.
Proof.
  unfold regions_of. rewrite filter_cons. destruct (is_user_pool r && _) eqn:E; bool_prop.
  - by rewrite decide_True.
  - rewrite decide_False; [done|]. intros [E1 E2]. rewrite E1, E2, Z.eqb_refl in E. done.
Qed.

Lemma region_size r : 0 ≤ mr_address r ≤ mr_last_address r → mr_last_address r < 2 ^ 44 →
  KMemoryRegion_GetEndAddress r = mr_last_address r + 1 ∧
  KMemoryRegion_GetSize r = mr_last_address r + 1 - mr_address r.
Proof.
  intros Ha Hl. unfold KMemoryRegion_GetSize, KMemoryRegion_GetEndAddress.
  rewrite (u64_id (_ + 1)), u64_id by (unfold is_u64; lia). done.
Qed.

Lemma extents_rest i t : ∀ a e pool cur,
  0 < a ≤ cur → cur < 2 ^ 45 → tiles cur e pool (regions_of i t) →
  extents_of_manager t (Z.of_nat i) a (cur - a) pool = Done true (a, e - a, pool).
Proof.
  induction t as [|r t IH]; intros a e pool cur Ha Hc Ht; cbn [extents_of_manager].
  { simpl in Ht. by subst. }
  rewrite <- negb_andb. rewrite regions_of_cons in Ht.
  destruct (is_user_pool r && _); cbn [negb]; [|by apply IH].
  destruct Ht as (Er & Hr & Hp & Ht).
  destruct (region_size r) as [-> ->]; [lia|lia|].
  rewrite (proj2 (Z.eqb_neq (mr_last_address r + 1) 0)), (proj2 (Z.eqb_neq (mr_address r) 0)),
    (proj2 (Z.ltb_lt 0 (mr_last_address r + 1 - mr_address r))), (proj2 (Z.eqb_neq a 0)) by lia.
  cbn [negb]. rewrite (u64_id (a + _)) by (unfold is_u64; lia).
  replace (a + (cur - a)) with (mr_address r) by lia. rewrite Z.eqb_refl, Hp.
  change (ASSERT true) with (Done true ()). pstep. rewrite Z.eqb_refl.
  change (ASSERT true) with (Done true ()). pstep. rewrite u64_id by (unfold is_u64; lia).
  apply IH; [lia|lia|done].
Qed.

Lemma extents_of_manager_run i t a e pool :
  0 < a < e → tiles a e pool (regions_of i t) →
  extents_of_manager t (Z.of_nat i) 0 0 Pool_Count = Done true (a, e - a, pool).
Proof.
  intros Ha. induction t as [|r t IH]; intros Ht; cbn [extents_of_manager].
  { simpl in Ht. lia. }
  rewrite <- negb_andb. rewrite regions_of_cons in Ht.
  destruct (is_user_pool r && _); cbn [negb]; [|by apply IH].
  destruct Ht as (Er & Hr & Hp & Ht).
  destruct (region_size r) as [-> ->]; [lia|lia|].
  rewrite (proj2 (Z.eqb_neq (mr_last_address r + 1) 0)), (proj2 (Z.eqb_neq (mr_address r) 0)),
    (proj2 (Z.ltb_lt 0 (mr_last_address r + 1 - mr_address r))) by lia.
  cbn [negb]. change (ASSERT true) with (Done true ()). pstep. rewrite Hp. pstep. rewrite Er.
  apply extents_rest; [lia|lia|done].
Qed.

Lemma extents_of_none i t :
  regions_of i t = [] → extents_of_manager t (Z.of_nat i) 0 0 Pool_Count = Done true (0, 0, Pool_Count).
Proof.
  induction t as [|r t IH]; intros Ht; cbn [extents_of_manager]; [done|].
  rewrite <- negb_andb. rewrite regions_of_cons in Ht.
  destruct (is_user_pool r && _); cbn [negb]; [|by apply IH].
  done.
Qed.

(** ** One manager more *)
Section Create.
Context {R : Type} `{RngLaws R}.
Implicit Types (im : Impl R) (mm : KMemoryManager R).
Context (mode : MemoryLayoutMode) (ms : list (Z * Z * Z)) (start limit : Z) (data : Z → Z).

(** [ms] has the address, the size and the pool of each manager. *)
Definition size_at (i : nat) : Z := default 0 ((λ '(_, s, _), s) <$> ms !! i).
Definition pool_at (i : nat) : Z := default Pool_Count ((λ '(_, _, p), p) <$> ms !! i).

(** Where the management memory of manager [k] starts. *)
Fixpoint management_at (k : nat) : Z :=
  match k with O => start | S k => management_at k + total_size_of (size_at k) end.

(** The managers of a pool among the first [k]. *)
Definition chain (k : nat) (pool : Z) : list nat := filter (λ i, pool_at i = pool) (seq 0 k).

Lemma chain_S k pool :
  chain (S k) pool = chain k pool ++ (if decide (pool_at k = pool) then [k] else []).
Proof.
  unfold chain. rewrite seq_S, filter_app. simpl. rewrite filter_cons, filter_nil. done.
Qed.

Lemma chain_elem k pool i : i ∈ chain k pool ↔ (i < k)%nat ∧ pool_at i = pool.
Proof. unfold chain. rewrite list_elem_of_filter, elem_of_seq. split; intros [? ?]; split; lia || done. Qed.

Lemma chain_nodup k pool : NoDup (chain k pool).
Proof. apply NoDup_filter, NoDup_seq. Qed.

(** The first [k] managers are made, the others untouched. *)
Record built mm0 (k : nat) mm : Prop := {
  bu_num : m_num_managers mm = Z.of_nat k;
  bu_layout : m_memory_layout mm = m_memory_layout mm0;
  bu_ids : m_optimized_process_ids mm = m_optimized_process_ids mm0;
  bu_has : m_has_optimized_process mm = m_has_optimized_process mm0;
  bu_memory : mm_memory mm = mm_memory mm0;
  bu_length : length (m_managers mm) = 10%nat;
  bu_heads : length (m_pool_managers_head mm) = 10%nat ∧ length (m_pool_managers_tail mm) = 10%nat;
  bu_raw i : (k ≤ i)%nat → m_managers mm !! i = m_managers mm0 !! i;
  bu_made i : (i < k)%nat → ∃ im a, m_managers mm !! i = Some im ∧
    ms !! i = Some (a, size_at i, pool_at i) ∧
    fresh_impl mode a (size_at i) (management_at i) (pool_at i) im;
  bu_head pool : 0 ≤ pool < Pool_Count →
    m_pool_managers_head mm !! Z.to_nat pool = Some (head (chain k pool)) ∧
    m_pool_managers_tail mm !! Z.to_nat pool = Some (last (chain k pool));
  bu_link pool j i : 0 ≤ pool < Pool_Count → chain k pool !! j = Some i →
    ∃ im, m_managers mm !! i = Some im ∧ m_next im = chain k pool !! S j ∧
      m_prev im = match j with O => None | S j => chain k pool !! j end
}.

(** The new manager linked behind the last one of its pool, and nothing else. *)
Definition linked mm (k : nat) (p : Z) im (managers : list (Impl R)) : Prop :=
  length managers = length (m_managers mm) ∧
  managers !! k = Some (SetPrev (last (chain k p)) im) ∧
  ∀ i, i ≠ k → managers !! i =
    (if decide (last (chain k p) = Some i) then SetNext (Some k) else id) <$> m_managers mm !! i.

Lemma add_manager_run mm0 mm k a s p d im0 :
  built mm0 k mm → ms !! k = Some (a, s, p) → (k < 10)%nat →
  m_managers mm0 !! k = Some im0 → raw_impl im0 → m_next im0 = None → m_prev im0 = None →
  initialize_args mode a s (management_at k) limit p d →
  wp (add_manager mode mm a s p (management_at k) limit d) (λ '(mg, mm'),
    mg = management_at (S k) ∧ ∃ im managers head,
      linked mm k p im managers ∧ fresh_impl mode a s (management_at k) p im ∧ m_next im = None ∧
      head = (match chain k p with [] => <[Z.to_nat p := Some k]> | _ => id end)
               (m_pool_managers_head mm) ∧
      mm' = set_pools head (<[Z.to_nat p := Some k]> (m_pool_managers_tail mm)) managers
              (Z.of_nat (S k)) mm).
Proof.
  intros [B1 B2 B3 B4 B5 B6 [B7 B7'] B8 B9 B10 B11] Hms Hk Him Hraw Hn0 Hp0 Hargs.
  assert (Esz : size_at k = s) by (unfold size_at; by rewrite Hms).
  assert (Eg : arr_get (m_managers mm) (Z.of_nat k) = Done true im0).
  { unfold arr_get. by rewrite (proj2 (Z.leb_le _ _)), Nat2Z.id, (B8 k ltac:(lia)), Him by lia. }
  unfold add_manager. rewrite B1, Eg. pstep. rewrite B6, (proj2 (Z.leb_le (Z.of_nat k + 1) _)) by lia.
  change (ASSERT true) with (Done true ()). pstep. apply wp_bind.
  eapply wp_mono; [by apply Impl_Initialize_run|]. intros [total im] (-> & Hf & Hn & Hp).
  destruct (total_size_range s (proj1 (xa_size _ _ _ _ _ _ _ Hargs))) as (_ & Ht & _).
  pose proof (xa_room _ _ _ _ _ _ _ Hargs) as Hroom. pose proof (xa_management _ _ _ _ _ _ _ Hargs).
  pose proof (xa_pool _ _ _ _ _ _ _ Hargs) as Hpool. unfold Pool_Count in Hpool.
  rewrite (u64_id (management_at k + _)) by (unfold is_u64; lia).
  rewrite (proj2 (Z.leb_le _ _)) by lia. change (ASSERT true) with (Done true ()). pstep.
  destruct (B10 p Hpool) as [Hh Ht'].
  assert (Et : arr_get (m_pool_managers_tail mm) p = Done true (last (chain k p))).
  { unfold arr_get. by rewrite (proj2 (Z.leb_le _ _)), Ht' by lia. }
  rewrite Et. pstep. rewrite !Nat2Z.id. replace (Z.of_nat k + 1) with (Z.of_nat (S k)) by lia.
  rewrite Hn0 in Hn. rewrite Hp0 in Hp.
  assert (Hlen : (k < length (m_managers mm))%nat) by lia.
  destruct (last (chain k p)) as [t|] eqn:El.
  - assert (Ht3 : (t < k)%nat).
    { apply (chain_elem k p t). apply last_Some in El as [l ->]. set_solver. }
    destruct (lookup_lt_is_Some_2 (m_managers mm) t) as [T HT]; [lia|].
    rewrite list_lookup_insert_ne, HT by lia. pstep.
    rewrite list_lookup_insert_ne, list_lookup_insert_eq by lia. pstep.
    rewrite arr_set_run by lia. pstep. split; [simpl; by rewrite Esz|].
    exists im. eexists _, _. split; [|split; [done|]; split; [done|]; split; [|done]].
    + split; [by rewrite !length_insert|]. rewrite El. split.
      * rewrite list_lookup_insert_eq by (rewrite !length_insert; lia). done.
      * intros i Hi. rewrite list_lookup_insert_ne by done. case_decide as E; simplify_eq.
        -- rewrite list_lookup_insert_eq by (rewrite length_insert; lia). by rewrite HT.
        -- rewrite !list_lookup_insert_ne by congruence. by rewrite option_fmap_id.
    + by destruct (chain k p).
  - rewrite arr_set_run by lia. pstep. rewrite arr_set_run by lia. pstep.
    split; [simpl; by rewrite Esz|]. apply last_None in El.
    exists im. eexists _, _. split; [|split; [done|]; split; [done|]; split; [|done]].
    + split; [by rewrite !length_insert|]. rewrite El. split.
      * rewrite list_lookup_insert_eq by lia. destruct im; simpl in *. by subst.
      * intros i Hi. rewrite list_lookup_insert_ne by done. rewrite decide_False by done.
        by rewrite option_fmap_id.
    + by rewrite El.
Qed.

(** A chain is linked as its list says after [k] is put behind it. *)
Lemma chain_link_snoc k p j i next prev :
  chain k p !! j = Some i → next = chain k p !! S j →
  prev = (match j with O => None | S j => chain k p !! j end) →
  (if decide (last (chain k p) = Some i) then Some k else next) = (chain k p ++ [k]) !! S j ∧
  prev = match j with O => None | S j => (chain k p ++ [k]) !! j end.
Proof.
  intros Hj -> ->. pose proof (lookup_lt_Some _ _ _ Hj) as Hlt. split.
  - destruct (decide (S j < length (chain k p))%nat) as [Hs|Hs].
    + rewrite lookup_app_l by done. rewrite decide_False; [done|]. rewrite last_lookup. intros El.
      pose proof (NoDup_lookup _ _ _ _ (chain_nodup k p) Hj El). lia.
    + rewrite lookup_app_r, decide_True by (done || lia || (rewrite last_lookup, <- Hj; f_equal; lia)).
      by replace (S j - length (chain k p))%nat with 0%nat by lia.
  - destruct j as [|j]; [done|]. by rewrite lookup_app_l by lia.
Qed.

Lemma built_step mm0 mm k a s p im managers head :
  built mm0 k mm → ms !! k = Some (a, s, p) → (k < 10)%nat → 0 ≤ p < Pool_Count →
  linked mm k p im managers → fresh_impl mode a s (management_at k) p im → m_next im = None →
  head = (match chain k p with [] => <[Z.to_nat p := Some k]> | _ => id end)
           (m_pool_managers_head mm) →
  built mm0 (S k) (set_pools head (<[Z.to_nat p := Some k]> (m_pool_managers_tail mm)) managers
                     (Z.of_nat (S k)) mm).
Proof.
  intros [B1 B2 B3 B4 B5 B6 [B7 B7'] B8 B9 B10 B11] Hms Hk Hp (Hl & Hlk & Hother) Hf Hn Eh.
  assert (Esz : size_at k = s) by (unfold size_at; by rewrite Hms).
  assert (Epl : pool_at k = p) by (unfold pool_at; by rewrite Hms).
  assert (Hlast : ∀ i, last (chain k p) = Some i → (i < k)%nat).
  { intros i El. apply (chain_elem k p i). apply last_Some in El as [l ->]. set_solver. }
  assert (Hlp : (Z.to_nat p < 10)%nat) by (unfold Pool_Count in Hp; lia).
  split; simpl; try done.
  - lia.
  - split; [|by rewrite length_insert]. rewrite Eh. destruct (chain k p); [by rewrite length_insert|done].
  - intros i Hi. rewrite Hother by lia. rewrite decide_False, option_fmap_id by (intros E%Hlast; lia).
    apply B8. lia.
  - intros i Hi. destruct (decide (i = k)) as [->|Hne].
    + exists (SetPrev (last (chain k p)) im), a. rewrite Esz, Epl. split_and!; [done..|].
      destruct (fresh_impl_links _ _ _ _ _ im (m_next im) (last (chain k p)) Hf). by split.
    + destruct (B9 i ltac:(lia)) as (im1 & a1 & E1 & E2 & E3).
      rewrite Hother, E1 by done. eexists _, a1. split_and!; [reflexivity|done|]. case_decide; [|done].
      destruct (fresh_impl_links _ _ _ _ _ im1 (Some k) (m_prev im1) E3). by split.
  - intros pool Hpool. rewrite chain_S, Epl. destruct (B10 pool Hpool) as [Hh Ht].
    destruct (decide (p = pool)) as [<-|Hne].
    + rewrite list_lookup_insert_eq by lia. rewrite last_snoc. split; [|done]. rewrite Eh.
      destruct (chain k p) as [|i l] eqn:E; [by rewrite list_lookup_insert_eq by lia|done].
    + assert (Z.to_nat p ≠ Z.to_nat pool) by lia.
      rewrite list_lookup_insert_ne, app_nil_r by done. split; [|done]. rewrite Eh.
      destruct (chain k p); [by rewrite list_lookup_insert_ne|done].
  - intros pool j i Hpool. rewrite chain_S, Epl. destruct (decide (p = pool)) as [<-|Hne].
    + intros [Hj|(Hj & Hj0)]%lookup_app_Some.
      * destruct (B11 p j i Hpool Hj) as (im1 & E1 & E2 & E3).
        assert (i ≠ k). { intros ->. apply list_elem_of_lookup_2, chain_elem in Hj. lia. }
        rewrite Hother, E1 by done. eexists. split; [reflexivity|].
        destruct (chain_link_snoc k p j i _ _ Hj E2 E3) as [F1 F2]. by case_decide.
      * apply list_lookup_singleton_Some in Hj0 as [Hj0 <-].
        exists (SetPrev (last (chain k p)) im). split; [done|]. simpl. rewrite Hn. split.
        -- symmetry. apply lookup_ge_None. rewrite length_app. simpl. lia.
        -- rewrite last_lookup. destruct j as [|j].
           ++ apply lookup_ge_None. lia.
           ++ rewrite lookup_app_l by lia. f_equal. lia.
    + rewrite app_nil_r. intros Hj. destruct (B11 pool j i Hpool Hj) as (im1 & E1 & E2 & E3).
      apply list_elem_of_lookup_2, chain_elem in Hj as [Hik Hip]. rewrite Hother, E1 by lia.
      exists im1. rewrite decide_False; [done|]. intros El. apply last_Some in El as [l El].
      assert (Hi : i ∈ chain k p) by (rewrite El; set_solver). apply chain_elem in Hi as [_ Hi].
      congruence.
Qed.

(** ** All managers *)

(** What the layout gives: the regions of each manager tile its extent, and the
    management memory is enough for all. *)
Record boot_args (t : list KMemoryRegion) : Prop := {
  ba_few : (length ms ≤ 10)%nat;
  ba_range i a s p : ms !! i = Some (a, s, p) →
    0 < a ∧ a mod PageSize = 0 ∧ 0 < s ≤ 2 ^ 35 ∧ s mod PageSize = 0 ∧ a + s < 2 ^ 44 ∧
    s ≤ GetIntendedMemorySize mode ∧ 0 ≤ p < Pool_Count;
  ba_tiles i a s p : ms !! i = Some (a, s, p) → tiles a (a + s) p (regions_of i t);
  ba_rest r : r ∈ t → is_user_pool r = true → 0 ≤ mr_attributes r < Z.of_nat (length ms);
  ba_start : 0 ≤ start ∧ start mod PageSize = 0;
  ba_room : management_at (length ms) ≤ limit < 2 ^ 64;
  ba_data i : 0 ≤ data i ≤ start
}.

(** A manager that was just constructed. *)
Record fresh_mm mm : Prop := {
  fm_length : length (m_managers mm) = 10%nat;
  fm_raw i im : m_managers mm !! i = Some im → raw_impl im ∧ m_next im = None ∧ m_prev im = None;
  fm_heads : m_pool_managers_head mm = replicate 10 None ∧ m_pool_managers_tail mm = replicate 10 None;
  fm_arrays : length (m_optimized_process_ids mm) = 4%nat ∧
    length (m_has_optimized_process mm) = 4%nat
}.

Section Boot.
Context (t : list KMemoryRegion) (Hboot : boot_args t).

Lemma size_at_range i : (i < length ms)%nat → 0 < size_at i ≤ 2 ^ 35.
Proof.
  intros Hi. destruct (lookup_lt_is_Some_2 ms i Hi) as [[[a s] p] E].
  unfold size_at. rewrite E. simpl. apply (ba_range t Hboot i a s p E).
Qed.

Lemma management_aligned k : (k ≤ length ms)%nat →
  management_at k mod PageSize = 0 ∧ start ≤ management_at k.
Proof.
  induction k as [|k IH]; intros Hk; [destruct (ba_start t Hboot); simpl; lia|].
  destruct (total_size_range (size_at k)) as (Hm & Hr & _); [apply size_at_range; lia|].
  destruct IH as [E1 E2]; [lia|]. cbn [management_at]. split; [|lia].
  rewrite Z.add_mod, E1, Hm by (pose proof page_pos; lia). done.
Qed.

Lemma management_mono i k : (i < k ≤ length ms)%nat →
  management_at i + total_size_of (size_at i) ≤ management_at k.
Proof.
  induction k as [|k IH]; intros Hk; [lia|]. cbn [management_at].
  destruct (decide (i = k)) as [->|Hne]; [lia|].
  destruct (total_size_range (size_at k)) as (_ & Hr & _); [apply size_at_range; lia|].
  specialize (IH ltac:(lia)). lia.
Qed.

Lemma boot_initialize_args i a s p :
  ms !! i = Some (a, s, p) → initialize_args mode a s (management_at i) limit p (data (Z.of_nat i)).
Proof.
  intros E. destruct (ba_range t Hboot i a s p E) as (? & ? & ? & ? & ? & ? & ?).
  pose proof (lookup_lt_Some _ _ _ E).
  pose proof (management_mono i (length ms) ltac:(lia)) as Hroom.
  destruct (management_aligned i) as [Hm Hs]; [lia|].
  assert (Es : size_at i = s) by (unfold size_at; by rewrite E). rewrite Es in Hroom.
  pose proof (ba_room t Hboot). pose proof (ba_data t Hboot (Z.of_nat i)).
  pose proof (ba_start t Hboot). split; try done; lia.
Qed.

Lemma regions_of_last : regions_of (length ms) t = [].
Proof.
  unfold regions_of. destruct (filter _ t) as [|r l] eqn:E; [done|].
  assert (Hr : r ∈ filter (λ r, is_user_pool r = true ∧ mr_attributes r = Z.of_nat (length ms)) t).
  { rewrite E. by left. }
  apply list_elem_of_filter in Hr as [[Hu Ha] Hr]. pose proof (ba_rest t Hboot r Hr Hu). lia.
Qed.

Lemma create_managers_run mm0 n : fresh_mm mm0 → m_physical_tree (m_memory_layout mm0) = t → ∀ k mm,
  (k + n = 10)%nat → (k ≤ length ms)%nat → built mm0 k mm →
  wp (create_managers n mode mm (management_at k) limit data) (built mm0 (length ms)).
Proof.
  intros [F1 F2 F3 F4] Et. induction n as [|n IH]; intros k mm Hk Hkn B; cbn [create_managers].
  { apply wp_ret. pose proof (ba_few t Hboot). by replace (length ms) with k by lia. }
  rewrite (bu_layout _ _ _ B), Et, (bu_num _ _ _ B).
  destruct (decide (k = length ms)) as [->|Hne].
  { rewrite extents_of_none by apply regions_of_last. pstep. apply wp_ret. done. }
  destruct (lookup_lt_is_Some_2 ms k) as [[[a s] p] E]; [lia|].
  destruct (ba_range t Hboot k a s p E) as (? & _ & ? & _ & _ & _ & Hp).
  rewrite (extents_of_manager_run k t a (a + s) p); [|lia|by apply (ba_tiles t Hboot k)].
  pstep. replace (a + s - a) with s by lia. rewrite (proj2 (Z.eqb_neq s 0)) by lia.
  destruct (lookup_lt_is_Some_2 (m_managers mm0) k) as [im0 Eim]; [lia|].
  destruct (F2 k im0 Eim) as (Hraw & Hn & Hv). apply wp_bind. eapply wp_mono.
  { apply (add_manager_run mm0 mm k a s p _ im0); [done|done|lia|done|done|done|done|].
    by apply boot_initialize_args. }
  intros [mg mm'] (-> & im & managers & hd & Hl & Hf & Hnx & Eh & ->).
  apply IH; [lia|lia|]. apply (built_step mm0 mm k a s p im); done || lia.
Qed.
End Boot.
End Create.
