(* ===== verification/MemoryManagerReady.v ===== *)
(** The state of the memory managers at the end of the initialisation. *)

From S2P Require Import Prelude Common MemoryBlockManager PageBitmap PageBitmapLemmas PageBitmapTheorems PageHeap PageHeapLemmas PageHeapTheorems PageHeapInitialize MemoryRegionType MemoryRegion MemoryLayout MemoryRegionTheorems PageGroup MemoryManager PageGroupTheorems MemoryManagerLemmas MemoryManagerPages MemoryManagerCreate.

(** * Initialising the memory manager from the layout

    After [Initialize] every page of the user pools is free, apart from the image
    of the initial processes, which has one reference; the managers satisfy the
    invariant. *)

Lemma wp_and {A} (m : prog A) P Q : wp m P → wp m Q → wp m (λ a, P a ∧ Q a).
Proof. destruct m as [|[] a]; simpl; tauto. Qed.

(** The image of the initial processes. *)
Definition ini_first : Z := 0x80000.
Definition ini_pages : Z := 0xC00.
Definition ini (p : Z) : Prop := ini_first ≤ p < ini_first + ini_pages.
#[export] Instance ini_dec p : Decision (ini p).
Proof. unfold ini. apply _. Defined.

Lemma ini_start_eq mode : GetInitialProcessBinaryPhysicalAddress mode = ini_first * PageSize.
Proof. by destruct mode. Qed.
Lemma ini_size_eq : GetInitialProcessBinarySize = ini_pages * PageSize.
Proof. reflexivity. Qed.

Section Region.
Context {R : Type} `{RngLaws R}.
Implicit Types (im : Impl R) (mm : KMemoryManager R).

(** ** One manager: freeing with the number of bytes, opening without *)
Lemma Free_bytes im a n :
  impl_wf im → impl_can act_release im a n →
  wp (Impl_Free im (a * PageSize) n) (λ im', impl_acted act_release im a n im' ∧
    heap_bytes (m_heap im') = heap_bytes (m_heap im) + n * PageSize).
Proof.
  intros Hw Hcan. apply wp_and; [by apply Impl_Free_does|].
  destruct Hcan as (Hlo & Hn & Hhi & Hpre). destruct (heap_range im a n Hw Hlo Hhi) as [Hl Hh].
  unfold Impl_Free.
  destruct (Free_run (m_heap im) (a * PageSize) n (iw_heap im Hw)) as (h' & -> & F).
  - lia.
  - apply Z.mod_mul. pose proof page_pos. lia.
  - replace (a * PageSize + n * PageSize) with ((a + n) * PageSize) by lia.
    apply in_use_pages; [apply Hw|done|done|]. intros p Hp. apply (Hpre p Hp).
  - pstep. apply wp_Done. simpl. rewrite (fd_bytes _ _ _ _ F). lia.
Qed.

Lemma OpenFirst_heap im a n :
  impl_wf im → impl_can act_first im a n →
  wp (Impl_OpenFirst im (a * PageSize) n) (λ im', impl_acted act_first im a n im' ∧
    m_heap im' = m_heap im).
Proof.
  intros Hw Hcan. apply wp_and; [by apply Impl_OpenFirst_does|].
  pose proof (Impl_OpenFirst_does im a n Hw Hcan) as Hwp. unfold Impl_OpenFirst in *.
  destruct (open_loop _ _ _ _ _) as [|[] c]; done.
Qed.

(** The pages [a] to [a + n] of a manager given to its heap, apart from those of
    the image, which are opened. *)
Record region_done im (a n : Z) im' : Prop := {
  rd_wf : impl_wf im';
  rd_same : same_impl im im';
  rd_ref p : in_impl im p →
    impl_ref im' p = if decide (a ≤ p < a + n ∧ ini p) then 1 else impl_ref im p;
  rd_free p : in_impl im p → impl_free im' p ↔ impl_free im p ∨ a ≤ p < a + n ∧ ¬ ini p
}.

Lemma region_done_refl im a : impl_wf im → region_done im a 0 im.
Proof.
  intros Hw. split; [done|done| |].
  - intros p _. rewrite decide_False by lia. done.
  - intros p _. split; [by left|]. intros [?|?]; [done|lia].
Qed.

Lemma region_done_app im a n k im1 im2 :
  0 ≤ n → 0 ≤ k → region_done im a n im1 → region_done im1 (a + n) k im2 →
  region_done im a (n + k) im2.
Proof.
  intros Hn Hk [W1 S1 R1 F1] [W2 S2 R2 F2]. destruct (same_impl_pages _ _ S1) as (_ & _ & E).
  assert (Hs : ∀ p, a ≤ p < a + (n + k) ↔ a ≤ p < a + n ∨ a + n ≤ p < a + n + k) by lia.
  split; [done|by eapply same_impl_trans| |].
  - intros p Hp. specialize (Hs p). rewrite R2, R1 by (done || by apply E).
    repeat case_decide; done || (exfalso; tauto).
  - intros p Hp. specialize (Hs p). rewrite F2, F1 by (done || by apply E). tauto.
Qed.

(** What is asked of the pages, in terms of the image. *)
Definition region_can im (a n : Z) : Prop :=
  first_page_of im ≤ a ∧ 0 ≤ n ∧ a + n ≤ first_page_of im + num_pages_of im ∧
  ∀ p, a ≤ p < a + n → impl_ref im p = 0 ∧ ¬ impl_free im p.

Lemma region_can_after im a n k im1 :
  region_can im a (n + k) → 0 ≤ n → 0 ≤ k → region_done im a n im1 → region_can im1 (a + n) k.
Proof.
  intros (Hlo & Hn & Hhi & Hp) Hn0 Hk0 [W1 S1 R1 F1].
  destruct (same_impl_pages _ _ S1) as (E1 & E2 & E3). unfold region_can. rewrite E1, E2.
  split_and!; [lia..|]. intros p Hr. assert (Hi : in_impl im p) by (unfold in_impl; lia).
  rewrite R1, F1 by done. rewrite decide_False by lia. destruct (Hp p ltac:(lia)). split; [done|].
  intros [?|?]; [done|lia].
Qed.

Lemma region_free_run im a n :
  impl_wf im → region_can im a n → (∀ p, a ≤ p < a + n → ¬ ini p) → 0 < n →
  wp (Impl_Free im (a * PageSize) n) (λ im', region_done im a n im' ∧
    heap_bytes (m_heap im') = heap_bytes (m_heap im) + n * PageSize).
Proof.
  intros Hw (Hlo & Hn & Hhi & Hp) Hini Hpos. eapply wp_mono; [by apply Free_bytes|].
  intros im' [[W S Hr Hf] Hb]. split; [|done]. split; [done|done| |].
  - intros p Hi. rewrite Hr by done. simpl. rewrite (decide_False (P := _ ∧ ini p)).
    + by case_decide.
    + intros [Hin Hx]. by apply (Hini p).
  - intros p Hi. rewrite Hf by done. case_decide as E; simpl.
    + split; [|done]. intros _. right. split; [done|]. by apply Hini.
    + tauto.
Qed.

Lemma region_open_run im :
  impl_wf im → region_can im ini_first ini_pages →
  wp (Impl_OpenFirst im (ini_first * PageSize) ini_pages) (λ im',
    region_done im ini_first ini_pages im' ∧ heap_bytes (m_heap im') = heap_bytes (m_heap im)).
Proof.
  intros Hw (Hlo & Hn & Hhi & Hp). eapply wp_mono; [by apply OpenFirst_heap|].
  intros im' [[W S Hr Hf] Hb]. split; [|by rewrite Hb]. split; [done|done| |].
  - intros p Hi. rewrite Hr by done. simpl. unfold ini. repeat case_decide; done || lia.
  - intros p Hi. rewrite Hf by done. unfold ini. case_decide as E; simpl; [|tauto].
    split; [by left|]. intros [?|[_ ?]]; tauto.
Qed.

(** The part of a region before the image, or behind it: there may be none. *)
Lemma region_free_opt (c : bool) im a n :
  impl_wf im → region_can im a n → (∀ p, a ≤ p < a + n → ¬ ini p) → c = negb (n =? 0) →
  wp (if c then Impl_Free im (a * PageSize) n else mret im) (λ im', region_done im a n im' ∧
    heap_bytes (m_heap im') = heap_bytes (m_heap im) + n * PageSize).
Proof.
  intros Hw Hcan Hini ->. pose proof (proj1 (proj2 Hcan)).
  destruct (Z.eqb_spec n 0) as [->|Hne]; cbn [negb]; [|apply region_free_run; (done || lia)].
  apply wp_ret. split; [by apply region_done_refl|lia].
Qed.

(** ** One region *)
Lemma pages_between a b : 0 ≤ a ≤ b → b < 2 ^ 32 → u64 (b * PageSize - a * PageSize) / PageSize = b - a.
Proof.
  intros Ha Hb. pose proof PageSize_eq as EP. rewrite u64_id by (unfold is_u64; lia).
  replace (b * PageSize - a * PageSize) with ((b - a) * PageSize) by lia. apply Z.div_mul. lia.
Qed.

Lemma region_can_prefix im a n k : region_can im a (n + k) → 0 ≤ n → 0 ≤ k → region_can im a n.
Proof. intros (Hlo & Hn & Hhi & Hp) Hn0 Hk0. split_and!; [lia..|]. intros p Hr. apply Hp. lia. Qed.

(** A region with the image: the memory before it, the image, the memory behind. *)
Lemma image_region_run (c1 c2 : bool) mm i im a n1 n2 reserved res :
  impl_wf im → region_can im a (n1 + (ini_pages + n2)) → ini_first = a + n1 → 0 ≤ n1 → 0 ≤ n2 →
  c1 = negb (n1 =? 0) → c2 = negb (n2 =? 0) →
  reserved !! i = Some res → 0 ≤ res < 2 ^ 44 →
  wp (im ← (if c1 then Impl_Free im (a * PageSize) n1 else mret im);
      im ← Impl_OpenFirst im (ini_first * PageSize) ini_pages;
      old ← arr_get reserved (Z.of_nat i);
      reserved ← arr_set reserved (Z.of_nat i) (u64 (old + ini_pages * PageSize));
      im ← (if c2 then
              _ ← ASSERT (negb ((ini_first + ini_pages + n2) * PageSize =? 0));
              Impl_Free im ((ini_first + ini_pages) * PageSize) n2
            else mret im);
      mret (set_manager i im mm, reserved))
    (λ '(mm', reserved'), ∃ im', mm' = set_manager i im' mm ∧
      reserved' = <[i := res + ini_pages * PageSize]> reserved ∧
      region_done im a (n1 + (ini_pages + n2)) im' ∧
      heap_bytes (m_heap im') = heap_bytes (m_heap im) + (n1 + n2) * PageSize).
Proof.
  intros Hw Hcan Ef Hn1 Hn2 E1 E2 Hres Hr. pose proof PageSize_eq as EP.
  assert (Hip : 0 ≤ ini_pages) by (unfold ini_pages; lia).
  assert (Hif : 0 ≤ ini_first) by (unfold ini_first; lia).
  apply wp_bind. eapply wp_mono.
  { apply (region_free_opt c1 im a n1); [done|eapply region_can_prefix; [done|lia..]|unfold ini; lia|done]. }
  intros im1 [D1 B1]. pose proof (region_can_after _ _ _ _ _ Hcan Hn1 ltac:(lia) D1) as Hcan1.
  rewrite <- Ef in Hcan1. apply wp_bind. eapply wp_mono.
  { apply region_open_run; [apply D1|eapply region_can_prefix; [done|lia..]]. }
  intros im2 [D2 B2]. pose proof (region_can_after _ _ _ _ _ Hcan1 Hip Hn2 D2) as Hcan2.
  assert (Eg : arr_get reserved (Z.of_nat i) = Done true res).
  { unfold arr_get. by rewrite (proj2 (Z.leb_le _ _)), Nat2Z.id, Hres by lia. }
  rewrite Eg. pstep. rewrite u64_id by (unfold is_u64, ini_pages; lia).
  pose proof (lookup_lt_Some _ _ _ Hres). rewrite arr_set_run, Nat2Z.id by lia. pstep.
  rewrite (proj2 (Z.eqb_neq (_ * PageSize) 0)) by (unfold ini_pages; lia).
  change (ASSERT (negb false)) with (Done true ()). apply wp_bind. rewrite bind_Done_true. eapply wp_mono.
  { apply (region_free_opt c2 im2 (ini_first + ini_pages) n2); [apply D2|done|unfold ini; lia|done]. }
  intros im3 [D3 B3]. apply wp_ret. exists im3. split_and!; [done..| |lia].
  apply (region_done_app im a n1 _ im1); [lia|lia|done|]. rewrite <- Ef.
  by apply (region_done_app im1 ini_first ini_pages _ im2).
Qed.

(** The image is in the region as a whole or not at all. *)
Definition ini_whole (a n : Z) : Prop :=
  a ≤ ini_first ∧ ini_first + ini_pages ≤ a + n ∨ a + n ≤ ini_first ∨ ini_first + ini_pages ≤ a.

Record region_at (it : KMemoryRegion) (i : nat) (a n : Z) : Prop := {
  ra_attributes : mr_attributes it = Z.of_nat i;
  ra_address : mr_address it = a * PageSize;
  ra_last : mr_last_address it + 1 = (a + n) * PageSize;
  ra_pages : 0 < n;
  ra_whole : ini_whole a n
}.

Lemma free_region_run mode mm reserved it i im a n res :
  m_managers mm !! i = Some im → impl_wf im → region_can im a n → region_at it i a n →
  reserved !! i = Some res → 0 ≤ res < 2 ^ 44 →
  wp (free_region mode mm reserved it) (λ '(mm', reserved'), ∃ im' res',
    mm' = set_manager i im' mm ∧ reserved' = <[i := res']> reserved ∧ region_done im a n im' ∧
    res ≤ res' ≤ res + n * PageSize ∧ heap_bytes (m_heap im') + res' = heap_bytes (m_heap im) + res + n * PageSize).
Proof.
  intros Him Hw Hcan [Ei Ea El Hn Hini] Hres Hr. pose proof Hcan as (Hlo & _ & Hhi & _).
  destruct (impl_geometry im Hw) as (_ & _ & Hf0 & _ & Hb). pose proof PageSize_eq as EP.
  assert (EE : KMemoryRegion_GetEndAddress it = (a + n) * PageSize).
  { unfold KMemoryRegion_GetEndAddress. rewrite El. apply u64_id. unfold is_u64. lia. }
  assert (ES : KMemoryRegion_GetSize it / PageSize = n).
  { unfold KMemoryRegion_GetSize. rewrite EE, Ea, u64_id by (unfold is_u64; lia).
    replace ((a + n) * PageSize - a * PageSize) with (n * PageSize) by lia.
    apply Z.div_mul. lia. }
  unfold free_region. cbv zeta. rewrite ini_start_eq, ini_size_eq, EE, ES, Ea, Ei, Nat2Z.id.
  assert (Eg : arr_get (m_managers mm) (Z.of_nat i) = Done true im).
  { unfold arr_get. by rewrite (proj2 (Z.leb_le _ _)), Nat2Z.id, Him by lia. }
  rewrite Eg. pstep. replace (mr_last_address it) with ((a + n) * PageSize - 1) by lia.
  rewrite (u64_id (ini_first * PageSize + _)) by (unfold is_u64, ini_first, ini_pages; lia).
  rewrite (u64_id (ini_first * PageSize + _ - 1)) by (unfold is_u64, ini_first, ini_pages; lia).
  replace (ini_first * PageSize + ini_pages * PageSize) with ((ini_first + ini_pages) * PageSize) by lia.
  destruct ((a * PageSize <=? _) && _) eqn:E; bool_prop.
  - set (n1 := ini_first - a). set (n2 := a + n - (ini_first + ini_pages)).
    assert (Hn1 : 0 ≤ n1) by lia. assert (Hn2 : 0 ≤ n2) by lia.
    assert (En : n = n1 + (ini_pages + n2)) by lia.
    rewrite (Z.div_mul ini_pages), (pages_between a ini_first) by (unfold ini_first in *; lia).
    rewrite (pages_between (ini_first + ini_pages) (a + n)) by (unfold ini_first, ini_pages in *; lia).
    fold n1. fold n2. replace (a + n) with (ini_first + ini_pages + n2) by lia. rewrite En in Hcan.
    assert (E1 : ini_first = a + n1) by lia. clearbody n1 n2.
    eapply wp_mono; [apply (image_region_run _ _ mm i im a n1 n2 reserved res)|]; try done; try lia.
    intros [mm' reserved'] (im' & -> & -> & D & B). exists im'. eexists. rewrite En.
    split_and!; [done..|unfold ini_pages; lia|unfold ini_pages in *; lia|lia].
  - assert (Hout : a + n ≤ ini_first ∨ ini_first + ini_pages ≤ a).
    { destruct Hini as [[H1 H2]|H1]; [|done]. exfalso.
      rewrite (proj2 (Z.leb_le (a * _) _)), (proj2 (Z.leb_le (_ - 1) _)) in E by lia. done. }
    assert (Hno : ∀ p, a ≤ p < a + n → ¬ ini p) by (unfold ini; lia).
    assert (Ha : (if a * PageSize <=? (ini_first + ini_pages) * PageSize - 1
      then ASSERT ((a + n) * PageSize - 1 <? ini_first * PageSize)
      else ASSERT (negb ((a + n) * PageSize =? 0))) = Done true ()).
    { destruct (Z.leb_spec (a * PageSize) ((ini_first + ini_pages) * PageSize - 1)).
      - rewrite (proj2 (Z.ltb_lt _ _)) by lia. done.
      - rewrite (proj2 (Z.eqb_neq _ _)) by lia. done. }
    rewrite Ha. pstep. apply wp_bind. eapply wp_mono; [by apply region_free_run|].
    intros im' [Hd Hb']. apply wp_ret. exists im', res. rewrite list_insert_id by done.
    split_and!; [done..|lia|lia].
Qed.
End Region.

(** * The memory manager after Initialize

    The managers of the layout satisfy the invariant; every page of the user pools
    is free, apart from the image of the initial processes. *)

Lemma region_tiles_le rs : ∀ a e pool, tiles a e pool rs → a ≤ e.
Proof.
  induction rs as [|r rs IH]; simpl; intros a e pool; [lia|].
  intros (<- & ? & _ & Ht%IH). lia.
Qed.

Lemma tiles_cover rs x : ∀ a e pool, tiles a e pool rs → a ≤ x < e →
  ∃ r, r ∈ rs ∧ mr_address r ≤ x ≤ mr_last_address r.
Proof.
  induction rs as [|r rs IH]; simpl; intros a e pool; [lia|].
  intros (<- & Hr & _ & Ht) Hx. destruct (decide (x ≤ mr_last_address r)).
  - exists r. split; [by left|lia].
  - destruct (IH _ _ _ Ht) as (r' & Hin & Hr'); [lia|]. exists r'. split; [by right|done].
Qed.

Section Ready.
Context {R : Type} `{RngLaws R}.
Implicit Types (im : Impl R) (mm : KMemoryManager R).
Context (mode : MemoryLayoutMode) (ms : list (Z * Z * Z)) (start limit : Z) (data : Z → Z).

(** What the layout says of the user pools: the tree of the linear map has their
    regions with the number of the manager, the regions are of whole pages, with
    all of the image or nothing of it, and the management memory is elsewhere. *)
Record layout_args (l : KMemoryLayout) : Prop := {
  la_boot : boot_args mode ms start limit data (m_physical_tree l);
  la_tree : regions_wf (m_physical_linear_tree l);
  la_linear r : r ∈ m_physical_tree l → is_user_pool r = true →
    ∃ r', r' ∈ m_physical_linear_tree l ∧ mr_attributes r' = mr_attributes r ∧
      mr_address r' ≤ mr_address r ∧ mr_last_address r ≤ mr_last_address r';
  la_pages r : r ∈ m_physical_tree l → is_user_pool r = true →
    (mr_last_address r + 1) mod PageSize = 0 ∧
    ini_whole (mr_address r / PageSize) ((mr_last_address r + 1) / PageSize - mr_address r / PageSize);
  la_fits : GetLinearPhysicalAddress l start + (limit - start) < 2 ^ 64;
  la_apart i a s p : ms !! i = Some (a, s, p) →
    GetLinearPhysicalAddress l start + (limit - start) ≤ a ∨
    a + s ≤ GetLinearPhysicalAddress l start
}.

Section Layout.
Context (mm0 : KMemoryManager R) (Hfresh : fresh_mm mm0).
Context (Hl : layout_args (m_memory_layout mm0)).

Lemma linear_address x : start ≤ x ≤ limit →
  GetLinearPhysicalAddress (m_memory_layout mm0) x = GetLinearPhysicalAddress (m_memory_layout mm0) start + (x - start).
Proof.
  intros Hx. pose proof (la_fits _ Hl) as Hf. unfold GetLinearPhysicalAddress, u64 in *.
  set (d := m_linear_virt_to_phys_diff (m_memory_layout mm0)) in *.
  replace (x + d) with (start + d + (x - start)) by lia.
  rewrite <- Zplus_mod_idemp_l. apply Z.mod_small.
  pose proof (Z.mod_pos_bound (start + d) (2 ^ 64) ltac:(lia)). lia.
Qed.

Lemma region_found i a s p x :
  ms !! i = Some (a, s, p) → a ≤ x < a + s →
  ∃ r, FindPhysicalLinear (m_memory_layout mm0) x = Some r ∧ mr_attributes r = Z.of_nat i.
Proof.
  intros E Hx. pose proof (ba_tiles _ _ _ _ _ _ (la_boot _ Hl) i a s p E) as Ht.
  destruct (tiles_cover _ x _ _ _ Ht Hx) as (r & Hr & Hrx).
  apply list_elem_of_filter in Hr as [[Hu Ea] Hr].
  destruct (la_linear _ Hl r Hr Hu) as (r' & Hr' & Ea' & H1 & H2).
  exists r'. split; [|congruence]. unfold FindPhysicalLinear.
  apply Find_iff; [apply Hl|]. split; [done|]. unfold in_region. lia.
Qed.

(** ** The managers just made *)
Section Built.
Context (mm1 : KMemoryManager R) (B : built mode ms start mm0 (length ms) mm1).

Lemma built_manager i im :
  manager mm1 i im ↔ m_managers mm1 !! i = Some im ∧ (i < length ms)%nat.
Proof. unfold manager. rewrite (bu_num _ _ _ _ _ _ B). split; intros []; split; done || lia. Qed.

Lemma built_at i im : manager mm1 i im →
  ∃ a s p, ms !! i = Some (a, s, p) ∧
    fresh_impl mode a s (management_at ms start i) p im.
Proof.
  intros [Hi Hlt]%built_manager. destruct (bu_made _ _ _ _ _ _ B i Hlt) as (im' & a & E1 & E2 & F).
  simplify_eq. eauto 10.
Qed.

Lemma built_map i im : manager mm1 i im →
  map_start mm1 im = GetLinearPhysicalAddress (m_memory_layout mm0) start + (management_at ms start i - start) ∧
  map_end mm1 im ≤ GetLinearPhysicalAddress (m_memory_layout mm0) start +
    (management_at ms start i + total_size_of (size_at ms i) - start) ∧
  start ≤ management_at ms start i ∧
  management_at ms start i + total_size_of (size_at ms i) ≤ limit.
Proof.
  intros Hm. pose proof Hm as [_ Hlt]%built_manager.
  destruct (built_at i im Hm) as (a & s & p & E & F).
  assert (Es : size_at ms i = s) by (unfold size_at; by rewrite E).
  pose proof (la_boot _ Hl) as Hb. pose proof (size_at_range _ _ _ _ _ _ Hb i Hlt) as Hs.
  destruct (management_aligned _ _ _ _ _ _ Hb i) as [_ Hst]; [lia|].
  pose proof (management_mono _ _ _ _ _ _ Hb i (length ms) ltac:(lia)) as Hmono.
  pose proof (ba_room _ _ _ _ _ _ Hb) as Hroom.
  destruct (total_size_range _ Hs) as (_ & Ht & Hmt).
  destruct (manager_size_range _ Hs) as (_ & _ & Ho & _).
  unfold map_end, map_start, optimize_map.
  rewrite (bu_layout _ _ _ _ _ _ B), (fi_management _ _ _ _ _ _ F), (fi_size _ _ _ _ _ _ F).
  rewrite linear_address by lia. rewrite Es in *. split_and!; lia.
Qed.

Lemma built_chain pool : 0 ≤ pool < Pool_Count → pool_chain mm1 pool (chain ms (length ms) pool).
Proof.
  intros Hp. destruct (bu_head _ _ _ _ _ _ B pool Hp) as [Hh Ht]. split; [apply chain_nodup|done|done| |].
  - intros k i Hk. destruct (bu_link _ _ _ _ _ _ B pool k i Hp Hk) as (im & Ei & En & Ev).
    apply list_elem_of_lookup_2, chain_elem in Hk as [Hlt Ep].
    exists im. assert (Hm : manager mm1 i im) by (by apply built_manager).
    split_and!; [done| |done|done]. destruct (built_at i im Hm) as (a & s & p & E & F).
    rewrite (fi_pool _ _ _ _ _ _ F), <- Ep. unfold pool_at. by rewrite E.
  - intros i im Hm Ep. apply chain_elem. pose proof Hm as [_ Hlt]%built_manager. split; [done|].
    destruct (built_at i im Hm) as (a & s & p & E & F). rewrite (fi_pool _ _ _ _ _ _ F) in Ep.
    unfold pool_at. by rewrite E.
Qed.

Lemma built_wf : mm_wf mm1.
Proof.
  pose proof (la_boot _ Hl) as Hb. split.
  - rewrite (bu_num _ _ _ _ _ _ B). pose proof (ba_few _ _ _ _ _ _ Hb).
    split; [apply B|unfold MaxManagerCount; lia].
  - intros i im (a & s & p & _ & F)%built_at. apply F.
  - intros i im p Hm Hp. destruct (built_at i im Hm) as (a & s & q & E & F).
    rewrite (bu_layout _ _ _ _ _ _ B). apply (region_found i a s q); [done|].
    destruct (impl_geometry im (fi_wf _ _ _ _ _ _ F)) as (Ea & Es & _).
    rewrite (fi_address _ _ _ _ _ _ F) in Ea. rewrite (fi_size _ _ _ _ _ _ F) in Es.
    unfold in_impl in Hp. pose proof page_pos. nia.
  - intros pool Hp. eexists. by apply built_chain.
  - rewrite (bu_ids _ _ _ _ _ _ B), (bu_has _ _ _ _ _ _ B). apply Hfresh.
  - intros i j im jm Hm Hj Hne. destruct (built_map i im Hm) as (-> & He & _ & _).
    destruct (built_map j jm Hj) as (-> & He' & _ & _).
    pose proof Hm as [_ Hi]%built_manager. pose proof Hj as [_ Hj']%built_manager.
    destruct (decide (i < j)%nat).
    + pose proof (management_mono _ _ _ _ _ _ Hb i j ltac:(lia)). lia.
    + pose proof (management_mono _ _ _ _ _ _ Hb j i ltac:(lia)). lia.
  - intros i j im jm Hm Hj. destruct (built_map i im Hm) as (-> & He & Hlo & Hhi).
    destruct (built_at j jm Hj) as (a & s & p & E & F). unfold heap_end.
    rewrite (fi_address _ _ _ _ _ _ F), (fi_size _ _ _ _ _ _ F).
    pose proof (la_apart _ Hl j a s p E). lia.
Qed.

(** ** The regions given to the heaps *)

(** The regions of a manager are given to its heap in the order of the tree:
    those left tile the extent from page [cur] on. *)
Record manager_freeing (rest : list KMemoryRegion) (i : nat) (a s p : Z) im1 im (cur res : Z) : Prop := {
  mf_tiles : tiles (cur * PageSize) (a + s) p (regions_of i rest);
  mf_cur : first_page_of im1 ≤ cur ≤ first_page_of im1 + num_pages_of im1;
  mf_done : region_done im1 (first_page_of im1) (cur - first_page_of im1) im;
  mf_res : 0 ≤ res ≤ (cur - first_page_of im1) * PageSize;
  mf_bytes : heap_bytes (m_heap im) + res = (cur - first_page_of im1) * PageSize
}.

Record freeing (rest : list KMemoryRegion) mm (reserved : list Z) : Prop := {
  fr_wf : mm_wf mm;
  fr_same : same_mm mm1 mm;
  fr_memory : mm_memory mm = mm_memory mm1;
  fr_length : length reserved = 10%nat;
  fr_made i a s p im1 : ms !! i = Some (a, s, p) → m_managers mm1 !! i = Some im1 →
    ∃ im cur res, m_managers mm !! i = Some im ∧ reserved !! i = Some res ∧
      manager_freeing rest i a s p im1 im cur res
}.

Lemma built_geometry i a s p im1 :
  ms !! i = Some (a, s, p) → m_managers mm1 !! i = Some im1 →
  fresh_impl mode a s (management_at ms start i) p im1 ∧ manager mm1 i im1 ∧
  a = first_page_of im1 * PageSize ∧ s = num_pages_of im1 * PageSize ∧
  first_page_of im1 + num_pages_of im1 < 2 ^ 32.
Proof.
  intros E Him. assert (Hm : manager mm1 i im1).
  { apply built_manager. split; [done|]. by eapply lookup_lt_Some. }
  destruct (built_at i im1 Hm) as (a' & s' & p' & E' & F). simplify_eq.
  destruct (impl_geometry im1 (fi_wf _ _ _ _ _ _ F)) as (Ea & Es & _ & _ & Hb).
  rewrite (fi_address _ _ _ _ _ _ F) in Ea. rewrite (fi_size _ _ _ _ _ _ F) in Es. done.
Qed.

Lemma freeing_start : freeing (m_physical_tree (m_memory_layout mm0)) mm1 (replicate 10 0).
Proof.
  split; [apply built_wf|apply same_mm_refl|done|done|].
  intros i a s p im1 E Him. destruct (built_geometry i a s p im1 E Him) as (F & Hm & Ea & Es & _).
  pose proof (lookup_lt_Some _ _ _ E) as Hlt. pose proof (la_boot _ Hl) as Hb.
  pose proof (ba_few _ _ _ _ _ _ Hb). exists im1, (first_page_of im1), 0.
  split; [done|]. split; [apply lookup_replicate; lia|].
  destruct (impl_geometry im1 (fi_wf _ _ _ _ _ _ F)) as (_ & _ & _ & ? & _).
  split; rewrite ?Z.sub_diag; try lia.
  - rewrite <- Ea. by apply (ba_tiles _ _ _ _ _ _ Hb).
  - by apply region_done_refl, F.
  - rewrite (fi_bytes _ _ _ _ _ _ F). lia.
Qed.

(** What is left can be given to the heap. *)
Lemma freeing_can a s mg p im1 im cur n :
  fresh_impl mode a s mg p im1 → first_page_of im1 ≤ cur → 0 ≤ n →
  cur + n ≤ first_page_of im1 + num_pages_of im1 →
  region_done im1 (first_page_of im1) (cur - first_page_of im1) im → region_can im cur n.
Proof.
  intros F Hc Hn Hhi D. destruct (same_impl_pages _ _ (rd_same _ _ _ _ D)) as (E1 & E2 & _).
  unfold region_can. rewrite E1, E2. split_and!; [lia..|]. intros q Hq.
  assert (Hi : in_impl im1 q) by (unfold in_impl; lia).
  rewrite (rd_ref _ _ _ _ D q Hi), (rd_free _ _ _ _ D q Hi), decide_False by lia.
  rewrite (fi_refs _ _ _ _ _ _ F). split; [done|].
  intros [Hf|?]; [by apply (fi_free _ _ _ _ _ _ F) in Hf|lia].
Qed.

Lemma regions_of_skip j r rest :
  is_user_pool r = false ∨ mr_attributes r ≠ Z.of_nat j → regions_of j (r :: rest) = regions_of j rest.
Proof.
  intros Hr. rewrite regions_of_cons. destruct Hr as [-> | Hr]; [done|].
  by rewrite (proj2 (Z.eqb_neq _ _)), andb_false_r by done.
Qed.

(** The first region left of a manager starts where the freed pages end. *)
Lemma next_region i a s p im1 im cur res it rest :
  ms !! i = Some (a, s, p) → m_managers mm1 !! i = Some im1 →
  manager_freeing (it :: rest) i a s p im1 im cur res →
  it ∈ m_physical_tree (m_memory_layout mm0) → is_user_pool it = true → mr_attributes it = Z.of_nat i →
  ∃ n, region_at it i cur n ∧ cur + n ≤ first_page_of im1 + num_pages_of im1 ∧
    tiles ((cur + n) * PageSize) (a + s) p (regions_of i rest).
Proof.
  intros E Him [Ft Fc Fd Fr Fb] Hin Hu Hat.
  destruct (built_geometry i a s p im1 E Him) as (F & _ & Ea & Es & Hb).
  rewrite regions_of_cons, Hu, Hat, Z.eqb_refl in Ft. cbn [andb tiles] in Ft.
  destruct Ft as (E1 & E2 & _ & Ft). destruct (la_pages _ Hl it Hin Hu) as [Hmod Hini].
  apply Z.mod_divide in Hmod as [e He]; [|pose proof page_pos; lia]. pose proof page_pos.
  rewrite He, E1, !Z.div_mul in Hini by lia. rewrite He in Ft. pose proof (region_tiles_le _ _ _ _ Ft) as Hle.
  exists (e - cur). replace (cur + (e - cur)) with e by lia. split_and!; [|nia|done].
  split; [done|done|by replace (cur + (e - cur)) with e by lia|nia|done].
Qed.

Lemma freeing_step it rest mm reserved :
  (∀ r, r ∈ it :: rest → r ∈ m_physical_tree (m_memory_layout mm0)) → is_user_pool it = true →
  freeing (it :: rest) mm reserved →
  wp (free_region mode mm reserved it) (λ '(mm', reserved'), freeing rest mm' reserved').
Proof.
  intros Hsub Hu [Fw Fs Fm Fl Fi]. assert (Hin : it ∈ m_physical_tree (m_memory_layout mm0)) by (apply Hsub; by left).
  destruct (ba_rest _ _ _ _ _ _ (la_boot _ Hl) it Hin Hu) as [Ha1 Ha2].
  set (i := Z.to_nat (mr_attributes it)). assert (Hat : mr_attributes it = Z.of_nat i) by lia.
  destruct (lookup_lt_is_Some_2 ms i) as [[[a s] p] E]; [lia|].
  destruct (bu_made _ _ _ _ _ _ B i ltac:(lia)) as (im1 & _ & Him1 & _ & _).
  destruct (Fi i a s p im1 E Him1) as (im & cur & res & Him & Hres & Hmf).
  destruct (next_region i a s p im1 im cur res it rest E Him1 Hmf Hin Hu Hat) as (n & Hat' & Hn & Ht).
  destruct Hmf as [_ Fc Fd Fr Fb].
  destruct (built_geometry i a s p im1 E Him1) as (F & _ & Ea & Es & Hb).
  pose proof (ra_pages _ _ _ _ Hat') as Hpos. pose proof PageSize_eq.
  destruct (impl_geometry im1 (fi_wf _ _ _ _ _ _ F)) as (_ & _ & Hf0 & _ & _).
  eapply wp_mono.
  { apply (free_region_run mode mm reserved it i im cur n res); [done|apply Fd| |done|done|].
    - apply (freeing_can a s _ p im1 im cur n F); lia || done.
    - nia. }
  intros [mm' reserved'] (im' & res' & -> & -> & D & Hr' & Hb').
  assert (Hmi : manager mm i im).
  { split; [done|]. rewrite (sm_num _ _ Fs), (bu_num _ _ _ _ _ _ B). lia. }
  split.
  - by eapply set_manager_wf; [done|done|apply D|apply D].
  - eapply same_mm_trans; [done|]. by eapply set_manager_same; [|apply D].
  - done.
  - by rewrite length_insert.
  - intros j b t q jm1 Ej Hj. pose proof (lookup_lt_Some _ _ _ Him). pose proof (lookup_lt_Some _ _ _ Hres).
    destruct (decide (j = i)) as [->|Hne].
    + simplify_eq. exists im', (cur + n), res'. cbn [m_managers set_manager set_managers].
      rewrite !list_lookup_insert_eq by done. split_and!; [done..|]. split; [done|lia| |nia|nia].
      replace (cur + n - first_page_of im1) with (cur - first_page_of im1 + n) by lia.
      apply (region_done_app _ _ _ _ im); [lia|lia|done|].
      by replace (first_page_of im1 + (cur - first_page_of im1)) with cur by lia.
    + destruct (Fi j b t q jm1 Ej Hj) as (jm & c & rs & E1 & E2 & [G1 G2 G3 G4 G5]).
      exists jm, c, rs. cbn [m_managers set_manager set_managers].
      rewrite !list_lookup_insert_ne by done. split_and!; [done..|].
      rewrite regions_of_skip in G1 by (right; lia). done.
Qed.

Lemma free_regions_run rest : ∀ mm reserved,
  (∀ r, r ∈ rest → r ∈ m_physical_tree (m_memory_layout mm0)) → freeing rest mm reserved →
  wp (free_regions mode mm reserved rest) (λ '(mm', reserved'), freeing [] mm' reserved').
Proof.
  induction rest as [|it rest IH]; intros mm reserved Hsub Fr; cbn [free_regions]; [by apply wp_ret|].
  destruct (is_user_pool it) eqn:Hu.
  - apply wp_bind. eapply wp_mono; [by apply freeing_step|]. intros [mm' reserved'] Fr'.
    apply IH; [|done]. intros r Hr. apply Hsub. by right.
  - apply IH; [intros r Hr; apply Hsub; by right|]. destruct Fr as [Fw Fs Fm Fl Fi]. split; try done.
    intros i a s p im1 E Him. destruct (Fi i a s p im1 E Him) as (im & cur & res & E1 & E2 & [G1 G2 G3 G4 G5]).
    exists im, cur, res. split_and!; [done..|]. rewrite regions_of_skip in G1 by (by left). done.
Qed.

(** ** The used sizes: nothing of a heap is used apart from what is reserved *)
Lemma SetInitialUsedHeapSize_run im res :
  impl_wf im → 0 ≤ res → heap_bytes (m_heap im) + res = m_heap_size (m_heap im) →
  wp (SetInitialUsedHeapSize im res) (λ im', impl_wf im' ∧ same_impl im im' ∧
    m_page_reference_counts im' = m_page_reference_counts im ∧
    m_blocks (m_heap im') = m_blocks (m_heap im) ∧ m_initial_used_size (m_heap im') = 0).
Proof.
  intros Hw Hr Hb. destruct Hw as [[W1 W2 W3 W4 W5 W6 W7 W8] V2 V3 V4 V5 V6].
  unfold SetInitialUsedHeapSize, KPageHeap_SetInitialUsedSize.
  destruct (KPageHeap_GetNumFreePages_correct (m_heap im)) as [E1 E2]; [by split|].
  unfold KPageHeap_GetFreeSize in E2. cbv zeta. rewrite E2.
  destruct W4 as [W4 W4']. pose proof (u64_range (KPageHeap_GetNumFreePages (m_heap im) * PageSize)).
  rewrite (u64_id (_ + res)), (proj2 (Z.leb_le _ _)) by (unfold is_u64; lia).
  change (ASSERT true) with (Done true ()). pstep.
  rewrite (u64_id (_ - heap_bytes _)) by (unfold is_u64 in *; lia).
  replace (_ - _ - res) with 0 by lia. apply wp_ret. split_and!; [|done..].
  by split; [split| | | | |].
Qed.

(** [mm] is [mm2] with the used sizes of the first [k] managers set. *)
Record sized (k : nat) mm2 mm : Prop := {
  sz_wf : mm_wf mm;
  sz_same : same_mm mm2 mm;
  sz_memory : mm_memory mm = mm_memory mm2;
  sz_rest j : (k ≤ j)%nat → m_managers mm !! j = m_managers mm2 !! j;
  sz_made j im2 : (j < k)%nat → m_managers mm2 !! j = Some im2 → ∃ im, m_managers mm !! j = Some im ∧
    m_page_reference_counts im = m_page_reference_counts im2 ∧
    m_blocks (m_heap im) = m_blocks (m_heap im2) ∧ m_initial_used_size (m_heap im) = 0
}.

Lemma freed_manager mm2 reserved i : freeing [] mm2 reserved → (i < length ms)%nat →
  ∃ im1 im2 a s p res, ms !! i = Some (a, s, p) ∧ manager mm1 i im1 ∧ manager mm2 i im2 ∧
    reserved !! i = Some res ∧ fresh_impl mode a s (management_at ms start i) p im1 ∧
    region_done im1 (first_page_of im1) (num_pages_of im1) im2 ∧ 0 ≤ res ∧
    heap_bytes (m_heap im2) + res = m_heap_size (m_heap im2).
Proof.
  intros [Fw Fs Fm Fl Fi] Hi. destruct (lookup_lt_is_Some_2 ms i Hi) as [[[a s] p] E].
  destruct (bu_made _ _ _ _ _ _ B i Hi) as (im1 & _ & Him1 & _ & _).
  destruct (Fi i a s p im1 E Him1) as (im2 & cur & res & E1 & E2 & [G1 G2 G3 G4 G5]).
  destruct (built_geometry i a s p im1 E Him1) as (F & Hm & Ea & Es & _). cbn in G1.
  assert (Ec : cur = first_page_of im1 + num_pages_of im1) by (pose proof page_pos; nia).
  assert (Hk : cur - first_page_of im1 = num_pages_of im1) by lia. rewrite Hk in *.
  exists im1, im2, a, s, p, res. split_and!; try done.
  - split; [done|]. rewrite (sm_num _ _ Fs). apply Hm.
  - lia.
  - rewrite G5, (si_size _ _ (rd_same _ _ _ _ G3)), (fi_size _ _ _ _ _ _ F). done.
Qed.

Lemma set_used_sizes_run mm2 reserved n : freeing [] mm2 reserved → ∀ k mm,
  (k + n = length ms)%nat → sized k mm2 mm →
  wp (set_used_sizes n k mm reserved) (sized (length ms) mm2).
Proof.
  intros Fr. induction n as [|n IH]; intros k mm Hk Hs; cbn [set_used_sizes].
  { apply wp_ret. by replace (length ms) with k by lia. }
  destruct (freed_manager mm2 reserved k Fr) as (im1 & im2 & a & s & p & res & _ & _ & [E2 E2'] & Er & _ & D & Hr & Hb); [lia|].
  destruct Hs as [S1 S2 S3 S4 S5]. rewrite (S4 k), E2 by lia. pstep. rewrite Er. pstep.
  apply wp_bind. eapply wp_mono; [by apply SetInitialUsedHeapSize_run; [apply D|..]|].
  intros im' (Hw & Hsi & Ec & Eb & Eu). apply IH; [lia|].
  assert (Hm : manager mm k im2). { split; [by rewrite S4|]. by rewrite (sm_num _ _ S2). }
  pose proof (lookup_lt_Some _ _ _ (proj1 Hm)). split.
  - by eapply set_manager_wf.
  - eapply same_mm_trans; [done|]. by eapply set_manager_same; [apply Hm|].
  - done.
  - intros j Hj. simpl. rewrite list_lookup_insert_ne by lia. apply S4. lia.
  - intros j jm Hj Ej. simpl. destruct (decide (j = k)) as [->|Hne].
    + rewrite list_lookup_insert_eq by done. simplify_eq. eauto.
    + rewrite list_lookup_insert_ne by done. apply S5; [lia|done].
Qed.

(** What [Initialize] leaves. *)
Record initialised mm : Prop := {
  id_wf : mm_wf mm;
  id_num : m_num_managers mm = Z.of_nat (length ms);
  id_memory : mm_memory mm = mm_memory mm0;
  id_managers i a s p : ms !! i = Some (a, s, p) → ∃ im, manager mm i im ∧
    m_heap_address (m_heap im) = a ∧ m_heap_size (m_heap im) = s ∧ m_pool im = p ∧
    m_initial_used_size (m_heap im) = 0;
  id_ref p : in_mm mm p → page_ref mm p = if decide (ini p) then 1 else 0;
  id_free p : in_mm mm p → page_free mm p ↔ ¬ ini p
}.

Lemma sized_initialised mm2 reserved mm :
  freeing [] mm2 reserved → sized (length ms) mm2 mm → initialised mm.
Proof.
  intros Fr [S1 S2 S3 S4 S5]. pose proof (fr_same _ _ _ Fr) as Fs.
  assert (Hall : ∀ i, (i < length ms)%nat → ∃ im a s p, ms !! i = Some (a, s, p) ∧ manager mm i im ∧
    m_heap_address (m_heap im) = a ∧ m_heap_size (m_heap im) = s ∧ m_pool im = p ∧
    m_initial_used_size (m_heap im) = 0 ∧ ∀ q, in_impl im q →
      impl_ref im q = (if decide (ini q) then 1 else 0) ∧ (impl_free im q ↔ ¬ ini q)).
  { intros i Hi.
    destruct (freed_manager mm2 reserved i Fr Hi) as (im1 & im2 & a & s & p & res & E & _ & [E2 E2'] & _ & F & D & _).
    destruct (S5 i im2 Hi E2) as (im & Him & Ec & Eb & Eu).
    destruct (sm_managers' _ _ S2 i im Him) as (im2' & E2'' & Hsi). simplify_eq.
    pose proof (same_impl_trans _ _ _ (rd_same _ _ _ _ D) Hsi) as Hsi1.
    exists im, a, s, p. split_and!; try done.
    - split; [done|]. by rewrite (sm_num _ _ S2).
    - rewrite (si_address _ _ Hsi1). apply F.
    - rewrite (si_size _ _ Hsi1). apply F.
    - rewrite (si_pool _ _ Hsi1). apply F.
    - destruct (same_impl_pages _ _ Hsi1) as (P1 & P2 & P3). destruct (same_impl_pages _ _ Hsi) as (Q1 & _).
      intros q Hq%P3. pose proof Hq as Hq'. unfold in_impl in Hq'. split.
      + unfold impl_ref. rewrite Ec, Q1. fold (impl_ref im2 q). rewrite (rd_ref _ _ _ _ D q Hq).
        rewrite (fi_refs _ _ _ _ _ _ F). repeat case_decide; done || (exfalso; tauto).
      + unfold impl_free, heap_free. rewrite Eb. fold (heap_free (m_heap im2) (q * PageSize)).
        fold (impl_free im2 q). rewrite (rd_free _ _ _ _ D q Hq).
        assert (¬ impl_free im1 q) by apply (fi_free _ _ _ _ _ _ F). tauto. }
  assert (Hpage : ∀ q, in_mm mm q →
    page_ref mm q = (if decide (ini q) then 1 else 0) ∧ (page_free mm q ↔ ¬ ini q)).
  { intros q (i & im & Hm & Hq). destruct (page_of_impl mm i im q S1 Hm Hq) as [-> ->].
    destruct (Hall i) as (im' & a & s & p & _ & [Hm' _] & _ & _ & _ & _ & Hx).
    { destruct Hm as [_ Hm]. rewrite (sm_num _ _ S2), (sm_num _ _ Fs), (bu_num _ _ _ _ _ _ B) in Hm. lia. }
    destruct Hm as [Hm _]. simplify_eq. by apply Hx. }
  split; [done| | | |by apply Hpage|by apply Hpage].
  - by rewrite (sm_num _ _ S2), (sm_num _ _ Fs), (bu_num _ _ _ _ _ _ B).
  - by rewrite S3, (fr_memory _ _ _ Fr), (bu_memory _ _ _ _ _ _ B).
  - intros i a s p E. destruct (Hall i) as (im & a' & s' & p' & E' & Hm & ? & ? & ? & ? & _).
    { by eapply lookup_lt_Some. }
    simplify_eq. exists im. by split_and!.
Qed.
End Built.

Lemma built_start : built mode ms start mm0 0 (set_pools (m_pool_managers_head mm0) (m_pool_managers_tail mm0) (m_managers mm0) 0 mm0).
Proof.
  destruct Hfresh as [F1 F2 [F3 F4] F5]. split; try done; simpl.
  - rewrite F3, F4. done.
  - lia.
  - intros pool Hp. unfold Pool_Count in Hp. rewrite F3, F4.
    split; apply lookup_replicate; (split; [done|lia]).
Qed.

Lemma mm_Initialize_run :
  wp (KMemoryManager_Initialize mode mm0 start (limit - start) data) initialised.
Proof.
  pose proof (la_boot _ Hl) as Hb. pose proof (ba_room _ _ _ _ _ _ Hb) as Hroom.
  destruct (management_aligned _ _ _ _ _ _ Hb (length ms) ltac:(lia)) as [_ Hst].
  pose proof (ba_start _ _ _ _ _ _ Hb) as [Hs0 _].
  unfold KMemoryManager_Initialize. cbv zeta.
  replace (start + (limit - start)) with limit by lia. rewrite u64_id by (unfold is_u64; lia).
  apply wp_bind. eapply wp_mono.
  { apply (create_managers_run mode ms start limit data _ Hb mm0 10 Hfresh eq_refl 0);
      [done|lia|apply built_start]. }
  intros mm1 B. rewrite (bu_layout _ _ _ _ _ _ B). apply wp_bind. eapply wp_mono.
  { apply (free_regions_run mm1 B); [done|by apply freeing_start]. }
  intros [mm2 reserved] Fr. rewrite (sm_num _ _ (fr_same _ _ _ _ Fr)), (bu_num _ _ _ _ _ _ B), Nat2Z.id.
  eapply wp_mono.
  { apply (set_used_sizes_run mm1 B mm2 reserved _ Fr 0); [done|].
    split; [apply Fr|apply same_mm_refl|done|done|lia]. }
  intros mm. by eapply sized_initialised.
Qed.
End Layout.
End Ready.

(** C18: Initialize of a new memory manager, with a layout whose user-pool regions
    tile the extents of at most ten managers and enough management memory, runs
    without a failing assertion to managers that satisfy the invariant: each has
    its extent, its pool and a used size of zero, every page of them is free and
    without references, apart from the image of the initial processes, whose pages
    have one reference and are not free; the memory is unchanged. *)
Theorem KMemoryManager_Initialize_correct {R} `{RngLaws R} mode ms start limit data
    (mm : KMemoryManager R) :
  fresh_mm mm → layout_args mode ms start limit data (m_memory_layout mm) →
  wp (KMemoryManager_Initialize mode mm start (limit - start) data) (initialised ms mm).
Proof. apply mm_Initialize_run. Qed.
