(* ===== verification/MemoryManagerExamples.v ===== *)
(** * KMemoryManager on concrete memory

    Two managers of four pages each in the application pool; the second one
    starts where the first one ends, or further on. *)

From S2P Require Import Prelude Common OrderedTree MemoryBlockManager PageBitmap PageBitmapLemmas PageBitmapTheorems PageHeap PageHeapLemmas PageHeapTheorems PageHeapInitialize PageHeapExamples MemoryRegionType MemoryRegion MemoryLayout MemoryRegionTheorems PageGroup MemoryManager PageGroupTheorems MemoryManagerLemmas MemoryManagerPages MemoryManagerAllocate MemoryManagerOperations MemoryManagerProperties MemoryManagerCreate MemoryManagerReady.

Definition ex_pages : Z := 4.

(** A heap of four free pages at page [p]. *)
Definition ex_page_heap (p : Z) : prog (KPageHeap Z) :=
  h ← KPageHeap_Initialize ex_heap_raw (p * PageSize) (ex_pages * PageSize) 0x80100000 0x1000
        0x80100000;
  KPageHeap_Free h (p * PageSize) ex_pages.

Definition ex_impl (p management : Z) (next prev : option nat) : Impl Z :=
  MkImpl (result ex_heap_raw (ex_page_heap p)) (replicate 4 0) management Pool_Application next prev.

Lemma ex_page_heap_run p : 0 < p < 2 ^ 31 →
  wp (ex_page_heap p) (λ h, heap_wf h ∧ m_heap_address h = p * PageSize ∧
    m_heap_size h = ex_pages * PageSize ∧
    ∀ q, heap_free h (q * PageSize) ↔ p ≤ q < p + ex_pages).
Proof.
  intros Hp. unfold ex_page_heap. apply wp_bind. eapply wp_mono.
  - apply (heap_Initialize_run ex_heap_raw (p * PageSize)). pose proof PageSize_eq.
    split; [|split; [split; vm_compute; congruence|reflexivity]|unfold ex_pages; lia|reflexivity
      |apply ex_rng_wf|repeat (constructor; [apply ex_rng_wf|]); constructor
      |split; vm_compute; congruence|split; [split; vm_compute; congruence|reflexivity]].
    split; [lia|]. apply Z.mod_mul. lia.
  - intros h (Hw & Hno & _ & Ea & Es). pose proof page_pos.
    destruct (Free_run h (p * PageSize) ex_pages Hw) as (h' & -> & F).
    + unfold ex_pages. lia.
    + apply Z.mod_mul. lia.
    + unfold in_use, heap_end. rewrite Ea, Es. split_and!; [lia|lia|]. intros x _. apply Hno.
    + apply wp_Done. rewrite <- Z.mul_add_distr_r in F. split_and!; [apply F| | |].
      * rewrite (fd_address _ _ _ _ F). done.
      * rewrite (fd_size _ _ _ _ F). done.
      * intros q. rewrite (freed_pages h p ex_pages h' q F). split; [intros [?%Hno|?]; done|by right].
Qed.

Lemma ex_impl_wf p management next prev : 0 < p < 2 ^ 31 →
  let im := ex_impl p management next prev in
  impl_wf im ∧ first_page_of im = p ∧ num_pages_of im = ex_pages ∧
  ∀ q, impl_free im q ↔ p ≤ q < p + ex_pages.
Proof.
  intros Hp im. pose proof (wp_result ex_heap_raw _ _ (ex_page_heap_run p Hp)) as Hh.
  unfold im, ex_impl. revert Hh. generalize (result ex_heap_raw (ex_page_heap p)) as h.
  intros h (Hw & Ea & Es & Hf). pose proof page_pos.
  assert (E1 : first_page_of (MkImpl h (replicate 4 0) management Pool_Application next prev) = p).
  { unfold first_page_of. simpl. rewrite Ea. apply Z.div_mul. lia. }
  assert (E2 : num_pages_of (MkImpl h (replicate 4 0) management Pool_Application next prev) = ex_pages).
  { unfold num_pages_of. simpl. rewrite Es. apply Z.div_mul. lia. }
  split_and!; [|done|done|done]. split.
  - done.
  - unfold heap_end. simpl. rewrite Ea, Es, PageSize_eq. unfold ex_pages. lia.
  - rewrite E2. unfold ex_pages. simpl. lia.
  - apply Forall_replicate. done.
  - intros q _ _. unfold impl_ref. cbn [m_page_reference_counts].
    destruct (replicate 4 0 !! _) eqn:E; [|done]. by apply lookup_replicate in E as [-> _].
  - done.
Qed.

(** The managers at the pages [p] and [q]. *)
Definition ex_region (p attr : Z) : KMemoryRegion :=
  region (p * PageSize) (p * PageSize + ex_pages * PageSize - 1) attr
    (GetValue KMemoryRegionType_DramApplicationPool).
Definition ex_layout (p q : Z) : KMemoryLayout :=
  MkLayout 0 0 2 [] [ex_region p 0; ex_region q 1] [] [ex_region p 0; ex_region q 1].

Definition ex_mm (p q : Z) (has : bool) : KMemoryManager Z :=
  MkMemoryManager (ex_layout p q) (Some 0%nat :: replicate 9 None) (Some 1%nat :: replicate 9 None)
    ([ex_impl p 0x91000000 (Some 1%nat) None; ex_impl q 0x91001000 None (Some 0%nat)] ++
     replicate 8 (MkImpl ex_heap_raw [] 0 Pool_Count None None))
    2 [7; 0; 0; 0] [has; false; false; false] ∅.

Lemma ex_manager p q has i im : manager (ex_mm p q has) i im →
  (i = 0%nat ∧ im = ex_impl p 0x91000000 (Some 1%nat) None) ∨
  (i = 1%nat ∧ im = ex_impl q 0x91001000 None (Some 0%nat)).
Proof.
  intros [Hi Hn]. simpl in Hn. destruct i as [|[|i]]; simpl in Hi; [left|right|lia]; by simplify_eq.
Qed.

Definition ex_places (p q : Z) : Prop := 0 < p ∧ p + ex_pages ≤ q ∧ q + ex_pages ≤ 0x91000.

Lemma ex_regions_wf p q : ex_places p q → regions_wf [ex_region p 0; ex_region q 1].
Proof.
  intros (? & ? & ?). unfold ex_pages in *. split.
  - repeat constructor; simpl; rewrite ?PageSize_eq; unfold ex_pages; lia || (left; reflexivity).
  - repeat constructor. unfold region_before. simpl. rewrite PageSize_eq. unfold ex_pages. lia.
Qed.

Lemma ex_chain p q has pool : 0 ≤ pool < Pool_Count → ∃ l, pool_chain (ex_mm p q has) pool l.
Proof.
  intros Hp. unfold Pool_Count in Hp. destruct (decide (pool = 0)) as [->|Hne].
  - exists [0; 1]%nat. split; [repeat constructor; set_solver|done|done| |].
    + intros [|[|k]] i Hk; simplify_eq/=; eexists; split_and!; [split; [reflexivity|done]|done..].
    + intros i im [[-> _]|[-> _]]%ex_manager _; set_solver.
  - assert (Hz : Z.to_nat pool = 1%nat ∨ Z.to_nat pool = 2%nat ∨ Z.to_nat pool = 3%nat) by lia.
    exists []. split; [constructor|by destruct Hz as [->|[->| ->]]|by destruct Hz as [->|[->| ->]]|done|].
    intros i im [[_ ->]|[_ ->]]%ex_manager E; simpl in E; unfold Pool_Application in E; lia.
Qed.

Lemma ex_mm_wf p q has : ex_places p q → mm_wf (ex_mm p q has).
Proof.
  intros Hpq. pose proof Hpq as (Hp & Hq & Hr). unfold ex_pages in Hq, Hr.
  assert (Hi : ∀ i im, manager (ex_mm p q has) i im → ∃ a, impl_wf im ∧ first_page_of im = a ∧
    num_pages_of im = ex_pages ∧ a + ex_pages ≤ 0x91000 ∧ 0 < a ∧
    ex_region a (Z.of_nat i) ∈ [ex_region p 0; ex_region q 1] ∧
    map_start (ex_mm p q has) im = 0x91000000 + 0x1000 * Z.of_nat i).
  { intros i im [[-> ->]|[-> ->]]%ex_manager.
    - exists p. destruct (ex_impl_wf p 0x91000000 (Some 1%nat) None ltac:(lia)) as (? & ? & ? & _).
      unfold ex_pages in *. split_and!; [done..|lia|done|set_solver|done].
    - exists q. destruct (ex_impl_wf q 0x91001000 None (Some 0%nat) ltac:(lia)) as (? & ? & ? & _).
      unfold ex_pages in *. split_and!; [done..|lia|lia|set_solver|done]. }
  assert (Hme : ∀ i im, manager (ex_mm p q has) i im →
    map_end (ex_mm p q has) im = map_start (ex_mm p q has) im + 8).
  { intros i im Hm. destruct (Hi i im Hm) as (a & _ & _ & En & _). unfold map_end. f_equal.
    unfold CalculateOptimizedProcessOverheadSize. fold (num_pages_of im). by rewrite En. }
  split.
  - done.
  - intros i im Hm. by destruct (Hi i im Hm) as (a & ? & _).
  - intros i im x Hm Hx. destruct (Hi i im Hm) as (a & _ & Ea & En & _ & _ & Hin & _).
    exists (ex_region a (Z.of_nat i)). split; [|done]. unfold FindPhysicalLinear.
    apply Find_iff; [by apply ex_regions_wf|]. split; [done|].
    unfold in_impl in Hx. unfold in_region. simpl. rewrite PageSize_eq. unfold ex_pages in *. lia.
  - intros pool. apply ex_chain.
  - done.
  - intros i j im jm Hm Hj Hne. rewrite (Hme i im Hm), (Hme j jm Hj).
    destruct (Hi i im Hm) as (a & _ & _ & _ & _ & _ & _ & ->).
    destruct (Hi j jm Hj) as (b & _ & _ & _ & _ & _ & _ & ->). lia.
  - intros i j im jm Hm Hj. destruct (Hi i im Hm) as (a & _ & _ & _ & _ & _ & _ & ->).
    destruct (Hi j jm Hj) as (b & Hwj & Eb & En & ? & ? & _). right.
    destruct (impl_geometry jm Hwj) as (Ea & Es & _). unfold heap_end. rewrite Ea, Es, Eb, En.
    rewrite PageSize_eq. unfold ex_pages in *. lia.
Qed.

(** Two managers apart, and two adjacent ones; the process 7 is the optimized
    process of the first. *)
Definition ex_far : KMemoryManager Z := ex_mm 0x90000 0x90010 true.
Definition ex_near : KMemoryManager Z := ex_mm 0x90000 0x90004 false.

Lemma ex_far_wf : mm_wf ex_far.
Proof. apply ex_mm_wf. unfold ex_places, ex_pages. lia. Qed.
Lemma ex_near_wf : mm_wf ex_near.
Proof. apply ex_mm_wf. unfold ex_places, ex_pages. lia. Qed.

Definition ex_option : Z := EncodeOption Pool_Application Direction_FromBack.
Lemma ex_option_valid : pool_valid ex_option.
Proof. vm_compute. reflexivity. Qed.

(** All eight pages allocated and opened. *)
Definition ex_alloc : Z * KMemoryManager Z * nat * KPageGroup :=
  result (0, ex_far, 0%nat, [])
    (AllocateAndOpen ex_far 9%nat [] 8 ex_option).
Definition ex_opened : KMemoryManager Z := ex_alloc.1.1.2.

Lemma ex_opened_wf : mm_wf ex_opened ∧ ∀ p, in_mm ex_opened p ↔ in_mm ex_far p.
Proof.
  pose proof (wp_result (0, ex_far, 0%nat, []) _ _ (AllocateAndOpen_run ex_far 9%nat 8 _ ex_far_wf
    ex_option_valid ltac:(lia))) as Hr. fold ex_alloc in Hr. unfold ex_opened.
  destruct ex_alloc as [[[r mm'] s'] g]. simpl.
  destruct Hr as [(_ & O & _)|(_ & _ & g0 & _ & U & _)].
  - split; [apply O|]. intros p. apply same_mm_in, O.
  - split; [apply U|]. intros p. apply same_mm_in, U.
Qed.

Lemma ex_far_page p : 0x90000 ≤ p < 0x90004 → in_mm ex_far p.
Proof.
  intros Hp. exists 0%nat, (ex_impl 0x90000 0x91000000 (Some 1%nat) None). split; [done|].
  destruct (ex_impl_wf 0x90000 0x91000000 (Some 1%nat) None ltac:(lia)) as (_ & E1 & E2 & _).
  unfold in_impl. rewrite E1, E2. done.
Qed.

Lemma ex_opened_pages p : 0x90000 ≤ p < 0x90000 + 4 → in_mm ex_opened p ∧ 0 < page_ref ex_opened p.
Proof.
  intros Hp. split; [apply ex_opened_wf, ex_far_page; lia|].
  assert (Hc : p = 0x90000 ∨ p = 0x90001 ∨ p = 0x90002 ∨ p = 0x90003) by lia.
  destruct Hc as [->|[->|[->| ->]]]; vm_compute; reflexivity.
Qed.

Lemma KMemoryManager_Close_correct_witness :
  wp (KMemoryManager_Close ex_opened (0x90000 * PageSize) 4) (λ mm',
    mm_wf mm' ∧ same_mm ex_opened mm' ∧ mm_memory mm' = mm_memory ex_opened ∧
    ∀ p, in_mm ex_opened p →
      page_ref mm' p =
        (if decide (0x90000 ≤ p < 0x90000 + 4) then page_ref ex_opened p - 1 else page_ref ex_opened p) ∧
      (page_free mm' p ↔ page_free ex_opened p ∨ 0x90000 ≤ p < 0x90000 + 4 ∧ page_ref ex_opened p = 1)).
Proof.
  apply KMemoryManager_Close_correct; [apply ex_opened_wf|lia|].
  intros p Hp. apply ex_opened_pages. exact Hp.
Defined.

Lemma AllocateAndOpen_correct_witness :
  wp (AllocateAndOpen ex_far 9%nat [] 6 ex_option)
    (λ '(r, mm', s', g),
    mm_wf mm' ∧ same_mm ex_far mm' ∧ group_wf g ∧ (slab_size s' + length g = slab_size 9)%nat ∧
    ((r = ResultSuccess ∧ NoDup (group_pages g) ∧ Z.of_nat (length (group_pages g)) = 6 ∧
      (∀ p, p ∈ group_pages g → in_mm ex_far p ∧ page_free ex_far p ∧ page_pool ex_far p = Some (GetPool ex_option)) ∧
      ∀ p, in_mm ex_far p →
        page_ref mm' p = (if decide (p ∈ group_pages g) then 1 else page_ref ex_far p) ∧
        (page_free mm' p ↔ page_free ex_far p ∧ p ∉ group_pages g)) ∨
     (g = [] ∧
      (r = ResultOutOfMemory ∧ few_free ex_far (GetPool ex_option) 6 ∨
       r = ResultOutOfResource ∧ infos_short ex_far (GetPool ex_option) 6 9%nat ∧
         Z.of_nat (slab_size 9%nat) < 6) ∧
      ∀ p, in_mm ex_far p →
        page_ref mm' p = page_ref ex_far p ∧ (page_free mm' p → page_free ex_far p) ∧
        (pool_apart ex_far (GetPool ex_option) → page_free mm' p ↔ page_free ex_far p)))).
Proof.
  apply (AllocateAndOpen_correct ex_far 9%nat 6); [apply ex_far_wf|apply ex_option_valid|lia].
Defined.

Lemma AllocateAndOpen_CloseAndReset_roundtrip_witness :
  wp ('(r, mm1, s1, g) ← AllocateAndOpen ex_far 9%nat [] 6
                           ex_option;
      '(mm2, s2, g2) ← KPageGroup_CloseAndReset mm1 s1 g;
      mret (r, mm2, s2, g2)) (λ '(r, mm2, s2, g2),
    mm_wf mm2 ∧ g2 = [] ∧ slab_size s2 = slab_size 9%nat ∧
    ∀ p, in_mm ex_far p → page_ref mm2 p = page_ref ex_far p ∧
      (r = ResultSuccess ∨ pool_apart ex_far (GetPool ex_option) → page_free mm2 p ↔ page_free ex_far p)).
Proof.
  apply (AllocateAndOpen_CloseAndReset_roundtrip ex_far 9%nat 6
           ex_option);
    [apply ex_far_wf|apply ex_option_valid|lia].
Defined.

Lemma AllocateForProcess_correct_witness :
  wp (AllocateForProcess ex_far 9%nat [] 5 ex_option 8 0x5A)
    (λ '(r, mm', s', g),
    (r = ResultOutOfMemory ∧ (5 = 0 ∨ few_free ex_far (GetPool ex_option) 5) ∨
     r = ResultOutOfResource ∧ infos_short ex_far (GetPool ex_option) 5 9%nat ∧
       Z.of_nat (slab_size 9%nat) < 5) ∨
    r = ResultSuccess ∧
    Z.of_nat (length (group_pages g)) = 5 ∧
    (∀ p, p ∈ group_pages g → in_mm ex_far p ∧ page_free ex_far p ∧ ¬ page_free mm' p) ∧
    (∀ x, ¬ in_map ex_far x →
       mem_byte (mm_memory mm') x =
       if decide (x / PageSize ∈ group_pages g ∧
                  (optimized_pool ex_far (GetPool ex_option) &&
                   (optimized_id ex_far (GetPool ex_option) =? 8) &&
                   tracked ex_far (mm_memory ex_far) (x / PageSize)) = false)
       then u8 0x5A else mem_byte (mm_memory ex_far) x) ∧
    (∀ p, in_mm ex_far p → p ∉ group_pages g →
       tracked ex_far (mm_memory mm') p = tracked ex_far (mm_memory ex_far) p) ∧
    (∀ p, optimized_pool ex_far (GetPool ex_option) = true → p ∈ group_pages g →
       (optimized_id ex_far (GetPool ex_option) =? 8) = false ∨ pool_apart ex_far (GetPool ex_option) →
       tracked ex_far (mm_memory mm') p = (optimized_id ex_far (GetPool ex_option) =? 8))).
Proof.
  apply (AllocateForProcess_correct ex_far 9%nat 5); [apply ex_far_wf|apply ex_option_valid|lia].
Defined.

Lemma AllocateAndOpenContinuous_correct_witness :
  wp (AllocateAndOpenContinuous ex_far 2 2 ex_option)
    (λ '(a, mm'),
    mm_wf mm' ∧ same_mm ex_far mm' ∧
    ((a = 0 ∧
      (∀ p, in_mm ex_far p → page_ref mm' p = page_ref ex_far p ∧ (page_free mm' p ↔ page_free ex_far p)) ∧
      ∀ i im, manager ex_far i im → m_pool im = GetPool ex_option →
        no_block im (Z.to_nat (GetAlignedBlockIndex 2 2))) ∨
     (∃ first, a = first * PageSize ∧ 0 < first ∧ a mod 2 ^ countr_zero (2 * PageSize) = 0 ∧
      (∀ p, first ≤ p < first + 2 → in_mm ex_far p ∧ page_free ex_far p ∧ page_pool ex_far p = Some (GetPool ex_option)) ∧
      ∀ p, in_mm ex_far p →
        page_ref mm' p = (if decide (first ≤ p < first + 2) then 1 else page_ref ex_far p) ∧
        (page_free mm' p ↔ page_free ex_far p ∧ ¬ first ≤ p < first + 2)))).
Proof.
  apply (AllocateAndOpenContinuous_correct ex_far 2 2);
    [apply ex_far_wf|apply ex_option_valid|lia|lia|lia].
Defined.

(** The code on this memory, evaluated: an allocation that succeeds and one of
    more pages than there are, each closed again. *)
Definition ex_run (num : Z) : prog (Z * Z * Z * nat) :=
  '(r, mm1, s1, g) ← AllocateAndOpen ex_far 9%nat [] num
                       ex_option;
  '(mm2, s2, _) ← KPageGroup_CloseAndReset mm1 s1 g;
  mret (r, KMemoryManager_GetFreeSize mm1, KMemoryManager_GetFreeSize mm2, s2).
Example ex_run_6 : ex_run 6 = Done true (ResultSuccess, 2 * PageSize, 8 * PageSize, 9%nat).
Proof. vm_compute. reflexivity. Qed.
Example ex_run_9 : ex_run 9 = Done true (ResultOutOfMemory, 8 * PageSize, 8 * PageSize, 9%nat).
Proof. vm_compute. reflexivity. Qed.

(** C25: a failed allocation loses memory when two managers of the pool are
    adjacent, as the two halves of the application pool are: the block that spans
    both is one block of the group, and the failure guard frees only its pages in
    the first manager.  Of two adjacent managers with four free pages each,
    asking for nine pages leaves four that are neither free nor in any group. *)
Theorem AllocateForProcess_loses_pages :
  mm_wf ex_near ∧ KMemoryManager_GetFreeSize ex_near = 8 * PageSize ∧
  wp (AllocateForProcess ex_near 9%nat [] 9 (EncodeOption Pool_Application Direction_FromFront) 8 0)
    (λ '(r, mm', s', g), r = ResultOutOfMemory ∧ g = [] ∧ s' = 9%nat ∧
       KMemoryManager_GetFreeSize mm' = 4 * PageSize).
Proof.
  split; [apply ex_near_wf|]. split; vm_compute; [reflexivity|]. by split_and!.
Qed.

(** ** Page groups and region trees *)
Lemma KPageGroup_IsEquivalentTo_correct_witness :
  KPageGroup_IsEquivalentTo [MkBlockInfo 5 2; MkBlockInfo 9 1] [MkBlockInfo 5 2; MkBlockInfo 9 1] = true
  ↔ group_pages [MkBlockInfo 5 2; MkBlockInfo 9 1] = group_pages [MkBlockInfo 5 2; MkBlockInfo 9 1].
Proof.
  apply KPageGroup_IsEquivalentTo_correct; (split; [|by vm_compute]);
    repeat constructor; vm_compute; congruence.
Defined.

Definition ex_tree : KMemoryRegionTree := [ex_region 0x90000 0; ex_region 0x90010 1].

Lemma KMemoryRegionTree_Insert_correct_witness :
  wp (KMemoryRegionTree_Insert 2 ex_tree 0x90001000 0x2000
        (GetValue KMemoryRegionType_DramApplicationPool) 3 0) (λ '(ok, n', t'),
    regions_wf t' ∧ 2 ≤ n' ≤ 2 + 2 ∧
    (ok = true ↔ insert_accepts 0x90001000 0x2000 (GetValue KMemoryRegionType_DramApplicationPool) 0
                   (ex_region 0x90000 0)) ∧
    (ok = false → n' = 2 ∧ t' = ex_tree) ∧
    (ok = true → ∀ x, describe t' x =
       if decide (0x90001000 ≤ x < 0x90001000 + 0x2000)
       then (λ '(_, _, p), (GetValue KMemoryRegionType_DramApplicationPool, 3, p)) <$> describe ex_tree x
       else describe ex_tree x)).
Proof.
  apply KMemoryRegionTree_Insert_correct;
    [apply ex_regions_wf; unfold ex_places, ex_pages; lia|reflexivity|vm_compute; congruence|lia|lia].
Defined.

(** ** Initialising from a layout

    A manager with the image of the initial processes in the middle of its two
    regions, and a manager of the applet pool behind it. *)
Definition boot_region (first last attr : Z) (type : KMemoryRegionTypeValue) : KMemoryRegion :=
  region (first * PageSize) (last * PageSize - 1) attr (GetValue type).
Definition boot_regions : list KMemoryRegion :=
  [boot_region 0x7FF00 0x7FFF0 0 KMemoryRegionType_DramApplicationPool;
   boot_region 0x7FFF0 0x80C10 0 KMemoryRegionType_DramApplicationPool;
   boot_region 0x80C20 0x80C30 1 KMemoryRegionType_DramAppletPool].
Definition boot_managers : list (Z * Z * Z) :=
  [(0x7FF00 * PageSize, 0xD10 * PageSize, Pool_Application);
   (0x80C20 * PageSize, 0x10 * PageSize, Pool_Applet)].
Definition boot_mm : KMemoryManager Z :=
  MkMemoryManager (MkLayout 0 0 2 [] boot_regions [] boot_regions) (replicate 10 None) (replicate 10 None)
    (replicate 10 (MkImpl ex_heap_raw [] 0 Pool_Count None None)) 0 [0; 0; 0; 0]
    [false; false; false; false] ∅.
Definition boot_start : Z := 0x90000 * PageSize.
Definition boot_limit : Z := 0x90010 * PageSize.

Lemma boot_fresh : fresh_mm boot_mm.
Proof.
  split; [done| |done|done]. intros i im [-> _]%lookup_replicate. split; [|done].
  split; [done|apply ex_rng_wf|repeat (constructor; [apply ex_rng_wf|]); constructor|constructor].
Qed.

Lemma boot_args_ok :
  boot_args Memory_4Gb boot_managers boot_start boot_limit (λ _, boot_start) boot_regions.
Proof.
  split.
  - simpl. lia.
  - intros [|[|i]] a s p E; simplify_eq/=; vm_compute; intuition congruence.
  - intros [|[|i]] a s p E; simplify_eq/=; vm_compute; intuition congruence.
  - intros r Hr _. repeat (apply elem_of_cons in Hr as [->|Hr]; [vm_compute; intuition congruence|]).
    by apply not_elem_of_nil in Hr.
  - vm_compute. intuition congruence.
  - vm_compute. intuition congruence.
  - intros _. vm_compute. intuition congruence.
Qed.

Lemma boot_layout_ok :
  layout_args Memory_4Gb boot_managers boot_start boot_limit (λ _, boot_start)
    (m_memory_layout boot_mm).
Proof.
  split.
  - apply boot_args_ok.
  - split; repeat constructor; vm_compute; intuition congruence.
  - intros r Hr _. exists r. split_and!; done || lia.
  - intros r Hr _. repeat (apply elem_of_cons in Hr as [->|Hr]; [split; [reflexivity|]|]).
    + right. left. vm_compute. congruence.
    + left. vm_compute. intuition congruence.
    + right. right. vm_compute. congruence.
    + by apply not_elem_of_nil in Hr.
  - reflexivity.
  - intros [|[|i]] a s p E; simplify_eq/=; right; vm_compute; congruence.
Qed.

Lemma KMemoryManager_Initialize_correct_witness :
  wp (KMemoryManager_Initialize Memory_4Gb boot_mm boot_start (boot_limit - boot_start)
        (λ _, boot_start)) (initialised boot_managers boot_mm).
Proof. apply KMemoryManager_Initialize_correct; [apply boot_fresh|apply boot_layout_ok]. Defined.
