(* ===== verification/AutoObject.v ===== *)
(** * Kernel objects: class tokens and reference counts

    src/src/core/hle/kernel/k_class_token.h gives every kernel class a 16-bit
    token from which [DynamicCast] (k_auto_object.h) decides whether an object
    is of a class; k_auto_object.h counts the references to an object and
    destroys it with the last one. *)

From stdpp Require Import gmap.
From S2P Require Import Prelude Common.

(** ** k_class_token.h *)
Definition BaseClassBits : nat := 8.
Definition FinalClassBits : nat := 8.

Inductive KClass : Type :=
| KAutoObject
| KSynchronizationObject | KReadableEvent
| KDebug | KThread | KServerPort | KServerSession | KClientPort
| KClientSession | KProcess | KResourceLimit | KLightSession | KPort | KSession
| KSharedMemory | KEvent | KLightClientSession | KLightServerSession | KTransferMemory
| KDeviceAddressSpace | KSessionRequest | KCodeMemory | KSystemResource.

#[export] Instance KClass_eq_dec : EqDecision KClass.
Proof. solve_decision. Defined.

Definition all_classes : list KClass :=
  [KAutoObject; KSynchronizationObject; KReadableEvent; KDebug; KThread;
   KServerPort; KServerSession; KClientPort; KClientSession; KProcess; KResourceLimit;
   KLightSession; KPort; KSession; KSharedMemory; KEvent; KLightClientSession;
   KLightServerSession; KTransferMemory; KDeviceAddressSpace; KSessionRequest; KCodeMemory;
   KSystemResource].

Lemma elem_of_all_classes c : c ∈ all_classes.
Proof. destruct c; set_solver. Qed.

(** [enum class ObjectType]; the number 3 is [KInterruptEvent], which the code
    names and does not define; [BaseClassesStart] and [FinalClassesStart] are the
    numbers of their first members. *)
Definition ObjectType (c : KClass) : Z :=
  match c with
  | KAutoObject => 0
  | KSynchronizationObject => 1 | KReadableEvent => 2
  | KDebug => 4 | KThread => 5 | KServerPort => 6 | KServerSession => 7
  | KClientPort => 8 | KClientSession => 9 | KProcess => 10 | KResourceLimit => 11
  | KLightSession => 12 | KPort => 13 | KSession => 14 | KSharedMemory => 15 | KEvent => 16
  | KLightClientSession => 17 | KLightServerSession => 18 | KTransferMemory => 19
  | KDeviceAddressSpace => 20 | KSessionRequest => 21 | KCodeMemory => 22
  | KSystemResource => 23
  end.
Definition BaseClassesStart : Z := 1.
Definition BaseClassesEnd : Z := 3.
Definition FinalClassesStart : Z := BaseClassesEnd.

(** The [BaseClass] of the KERNEL_AUTOOBJECT_TRAITS of each class. *)
Definition BaseClass (c : KClass) : KClass :=
  match c with
  | KReadableEvent | KThread | KServerPort | KServerSession | KClientPort | KProcess =>
      KSynchronizationObject
  | _ => KAutoObject
  end.

(** The three loops over [i < j < k], with the index of the triple at hand. *)
Definition class_triples : list (nat * nat * nat) :=
  i ← seq 0 FinalClassBits;
  j ← seq (S i) (FinalClassBits - S i);
  k ← seq (S j) (FinalClassBits - S j);
  [(i, j, k)].

Definition NumFinalClasses : Z := Z.of_nat (length class_triples).
Definition FinalClassesEnd : Z := FinalClassesStart + NumFinalClasses.

Definition BaseClassToken (Index : Z) : Z := u16 (Z.shiftl 1 Index).

(** [UNREACHABLE] for an index past the last triple. *)
Definition FinalClassToken (Index : Z) : option Z :=
  '(i, j, k) ← class_triples !! Z.to_nat Index;
  Some (u16 (Z.shiftl (Z.lor (Z.lor (Z.shiftl 1 (Z.of_nat i)) (Z.shiftl 1 (Z.of_nat j)))
                             (Z.shiftl 1 (Z.of_nat k))) (Z.of_nat BaseClassBits))).

(** Three steps up reach [KAutoObject] from every class. *)
Fixpoint GetClassToken_up (fuel : nat) (c : KClass) : option Z :=
  match fuel with
  | O => None
  | S fuel =>
      if decide (c = KAutoObject) then Some 0
      else if (BaseClassesStart <=? ObjectType c) && (ObjectType c <? BaseClassesEnd) then
        base ← GetClassToken_up fuel (BaseClass c);
        Some (Z.lor (BaseClassToken (ObjectType c - BaseClassesStart)) base)
      else if (FinalClassesStart <=? ObjectType c) && (ObjectType c <? FinalClassesEnd) then
        token ← FinalClassToken (ObjectType c - FinalClassesStart);
        base ← GetClassToken_up fuel (BaseClass c);
        Some (Z.lor token base)
      else None
  end.
Definition GetClassToken (c : KClass) : option Z := GetClassToken_up 4 c.
Definition ClassToken (c : KClass) : Z := default 0 (GetClassToken c).

(** [TypeObj::IsClassTokenDerivedFrom] *)
Definition IsClassTokenDerivedFrom (self base : Z) : bool := Z.lor self base =? self.

(** ** k_auto_object.h

    The kernel's objects by address.  [Destroy] is virtual: each class brings
    its own, which is an argument here. *)
Record AutoObject : Type := MkObject { m_ref_count : Z; m_class_token : Z }.

Record ObjectStore : Type := MkStore {
  os_objects : gmap Z AutoObject;
  os_registered : gset Z;
  os_in_use : gset Z
}.

Definition set_object (p : Z) (o : AutoObject) (st : ObjectStore) : ObjectStore :=
  MkStore (<[p := o]> (os_objects st)) (os_registered st) (os_in_use st).

(** [KernelCore::RegisterKernelObject], [UnregisterKernelObject],
    [RegisterInUseObject] and [UnregisterInUseObject]. *)
Definition RegisterKernelObject (p : Z) (st : ObjectStore) : ObjectStore :=
  MkStore (os_objects st) ({[p]} ∪ os_registered st) (os_in_use st).
Definition UnregisterKernelObject (p : Z) (st : ObjectStore) : ObjectStore :=
  MkStore (os_objects st) (os_registered st ∖ {[p]}) (os_in_use st).
Definition RegisterInUseObject (p : Z) (st : ObjectStore) : ObjectStore :=
  MkStore (os_objects st) (os_registered st) ({[p]} ∪ os_in_use st).
Definition UnregisterInUseObject (p : Z) (st : ObjectStore) : ObjectStore :=
  MkStore (os_objects st) (os_registered st) (os_in_use st ∖ {[p]}).

(** The constructor followed by [Create]. *)
Definition KAutoObject_Create (p : Z) (c : KClass) (st : ObjectStore) : ObjectStore :=
  RegisterKernelObject p (set_object p (MkObject 1 (ClassToken c)) st).

Definition KAutoObject_IsDerivedFrom (p : Z) (c : KClass) (st : ObjectStore) : prog bool :=
  o ← deref (os_objects st !! p);
  mret (IsClassTokenDerivedFrom (m_class_token o) (ClassToken c)).

(** A null pointer is [None]. *)
Definition KAutoObject_DynamicCast (p : Z) (c : KClass) (st : ObjectStore) : prog (option Z) :=
  derived ← KAutoObject_IsDerivedFrom p c st;
  mret (if derived : bool then Some p else None).

(** The compare-and-swap loop of [Open] and of [Close] takes effect in its last
    turn, as one step. *)
Definition KAutoObject_Open (p : Z) (st : ObjectStore) : prog (bool * ObjectStore) :=
  o ← deref (os_objects st !! p);
  let cur_ref_count := m_ref_count o in
  if cur_ref_count =? 0 then mret (false, st)
  else
    _ ← ASSERT (cur_ref_count <? u32 (cur_ref_count + 1));
    mret (true, set_object p (MkObject (u32 (cur_ref_count + 1)) (m_class_token o)) st).

Section Destroy.
Context (Destroy : Z → ObjectStore → ObjectStore).

Definition KAutoObject_Close (p : Z) (st : ObjectStore) : prog ObjectStore :=
  o ← deref (os_objects st !! p);
  let cur_ref_count := m_ref_count o in
  if cur_ref_count =? 0 then mret st
  else
    _ ← ASSERT (0 <? cur_ref_count);
    let st := set_object p (MkObject (u32 (cur_ref_count - 1)) (m_class_token o)) st in
    if cur_ref_count =? 1 then mret (UnregisterKernelObject p (Destroy p st)) else mret st.

(** [KScopedAutoObject]: a pointer opened on construction and closed on
    destruction. *)
Definition KScopedAutoObject_new (m_obj : option Z) (st : ObjectStore)
    : prog (option Z * ObjectStore) :=
  match m_obj with
  | Some p => '(_, st) ← KAutoObject_Open p st; mret (Some p, st)
  | None => mret (None, st)
  end.
Definition KScopedAutoObject_delete (m_obj : option Z) (st : ObjectStore) : prog ObjectStore :=
  match m_obj with Some p => KAutoObject_Close p st | None => mret st end.

(** The move from a scoped pointer to a derived class. *)
Definition KScopedAutoObject_downcast (m_obj : option Z) (c : KClass) (st : ObjectStore)
    : prog (option Z * ObjectStore) :=
  match m_obj with
  | Some p =>
      derived ← KAutoObject_DynamicCast p c st;
      match derived with
      | Some p => mret (Some p, st)
      | None => st ← KAutoObject_Close p st; mret (None, st)
      end
  | None => mret (None, st)
  end.

(** [SetObject] and [Reset] *)
Definition KScopedAutoObject_SetObject (m_obj o : option Z) (st : ObjectStore)
    : prog (option Z * ObjectStore) :=
  st ← KScopedAutoObject_delete m_obj st; KScopedAutoObject_new o st.
Definition KScopedAutoObject_Reset (m_obj o : option Z) (st : ObjectStore)
    : prog (option Z * ObjectStore) :=
  '(o, st) ← KScopedAutoObject_new o st;
  st ← KScopedAutoObject_delete m_obj st; mret (o, st).
End Destroy.

(** ** Facts *)

(** The classes an object of class [c] is an instance of. *)
Inductive derives : KClass → KClass → Prop :=
| derives_refl c : derives c c
| derives_base c d : c ≠ KAutoObject → derives (BaseClass c) d → derives c d.

Definition derivesb (c d : KClass) : bool :=
  bool_decide (c = d) || bool_decide (BaseClass c = d) ||
  bool_decide (BaseClass (BaseClass c) = d) || bool_decide (d = KAutoObject).

Lemma derives_KAutoObject c : derives c KAutoObject.
Proof. destruct c; repeat (first [apply derives_refl | apply derives_base; [done|]]; simpl). Qed.

Lemma derivesb_spec c d : derivesb c d = true ↔ derives c d.
Proof.
  split.
  - unfold derivesb. rewrite !orb_true_iff, !bool_decide_eq_true.
    intros [[[->|<-]|<-]| ->]; [apply derives_refl| | |apply derives_KAutoObject];
      destruct c; repeat (first [apply derives_refl | apply derives_base; [done|]]; simpl).
  - induction 1 as [c|c d Hc Hd IH]; [unfold derivesb; by rewrite bool_decide_true|].
    destruct c, d; try done; vm_compute in IH; discriminate.
Qed.

Lemma all_pairs (f : KClass → KClass → bool) :
  forallb (λ c, forallb (f c) all_classes) all_classes = true → ∀ c d, f c d = true.
Proof.
  intros Hall c d. rewrite forallb_forall in Hall. specialize (Hall c).
  rewrite forallb_forall in Hall.
  apply Hall; apply list_elem_of_In, elem_of_all_classes.
Qed.

(** C30: the class token test of [DynamicCast] decides exactly the class
    hierarchy: every class has a token, distinct classes have distinct tokens,
    and an object passes for a class just when its class derives from it. *)
Theorem ClassToken_derived c d :
  GetClassToken c = Some (ClassToken c) ∧ is_u16 (ClassToken c) ∧
  (ClassToken c = ClassToken d ↔ c = d) ∧
  (IsClassTokenDerivedFrom (ClassToken c) (ClassToken d) = true ↔ derives c d).
Proof.
  rewrite <- derivesb_spec. split_and!.
  - by destruct c.
  - destruct c; vm_compute; split; congruence.
  - split; [|by intros ->]. intros E. destruct (decide (c = d)); [done|].
    by destruct c, d; vm_compute in E.
  - pose proof (all_pairs (λ c d, eqb (IsClassTokenDerivedFrom (ClassToken c) (ClassToken d))
                                   (derivesb c d)) ltac:(vm_compute; reflexivity) c d) as E.
    apply eqb_prop in E. by rewrite E.
Qed.

(** ** Reference counts *)
Section RefCount.
Context (Destroy : Z → ObjectStore → ObjectStore) (p : Z).

Definition ref_op (open : bool) (st : ObjectStore) : prog ObjectStore :=
  if open then '(_, st) ← KAutoObject_Open p st; mret st else KAutoObject_Close Destroy p st.
Fixpoint ref_ops (ops : list bool) (st : ObjectStore) : prog ObjectStore :=
  match ops with [] => mret st | op :: ops => st ← ref_op op st; ref_ops ops st end.

Definition delta (op : bool) : Z := if op then 1 else -1.
(** The count after the operations, when it stays positive and in range. *)
Fixpoint count_after (n : Z) (ops : list bool) : option Z :=
  match ops with
  | [] => Some n
  | op :: ops =>
      if (0 <? n + delta op) && (n + delta op <? 2 ^ 32) then count_after (n + delta op) ops
      else None
  end.

Lemma set_object_twice o o' st : set_object p o' (set_object p o st) = set_object p o' st.
Proof. unfold set_object. simpl. by rewrite insert_insert_eq. Qed.

Lemma ref_ops_alive ops : ∀ n tok st m,
  0 < n < 2 ^ 32 → count_after n ops = Some m →
  ref_ops ops (set_object p (MkObject n tok) st) = Done true (set_object p (MkObject m tok) st).
Proof.
  induction ops as [|op ops IH]; intros n tok st m Hn Hc; cbn [ref_ops count_after] in *;
    [by simplify_eq|].
  destruct (_ && _) eqn:E; [|done]. bool_prop.
  assert (Hop : ref_op op (set_object p (MkObject n tok) st) =
                Done true (set_object p (MkObject (n + delta op) tok) st)).
  { unfold ref_op, KAutoObject_Open, KAutoObject_Close, set_object, ASSERT. simpl.
    rewrite lookup_insert_eq. cbn [deref]. pstep. simpl. rewrite (proj2 (Z.eqb_neq n 0)) by lia.
    destruct op; simpl in *.
    - rewrite u32_id by (unfold is_u32; lia). rewrite (proj2 (Z.ltb_lt n _)) by lia. pstep.
      by rewrite insert_insert_eq.
    - rewrite u32_id by (unfold is_u32; lia). rewrite (proj2 (Z.ltb_lt 0 _)) by lia. pstep.
      rewrite (proj2 (Z.eqb_neq n 1)) by lia. by rewrite insert_insert_eq. }
  rewrite Hop. pstep. apply IH; [lia|done].
Qed.

Lemma ref_ops_dead ops tok st :
  os_objects st !! p = Some (MkObject 0 tok) → ref_ops ops st = Done true st.
Proof.
  intros Hp. induction ops as [|op ops IH]; [done|]. cbn [ref_ops].
  assert (ref_op op st = Done true st) as ->; [|by pstep].
  unfold ref_op, KAutoObject_Open, KAutoObject_Close. rewrite Hp. by destruct op.
Qed.

(** C31: while references are held, opening and closing change nothing but the
    count, which is the number of references; closing the last one destroys and
    unregisters the object, once; and after that no [Open] brings it back and no
    [Close] destroys it again. *)
Theorem KAutoObject_reference_counting st tok ops m more st' :
  os_objects st !! p = Some (MkObject 1 tok) → count_after 1 ops = Some m →
  (∀ st, os_objects (Destroy p st) !! p = os_objects st !! p) →
  st' = UnregisterKernelObject p (Destroy p (set_object p (MkObject 0 tok) st)) →
  ref_ops ops st = Done true (set_object p (MkObject m tok) st) ∧
  (m = 1 → ref_ops (ops ++ false :: more) st = Done true st').
Proof.
  intros Hp Hc HD ->. assert (E : set_object p (MkObject 1 tok) st = st).
  { destruct st. unfold set_object. simpl in *. by rewrite insert_id. }
  pose proof (ref_ops_alive ops 1 tok st m ltac:(lia) Hc) as Hrun. rewrite E in Hrun.
  split; [done|]. intros ->.
  assert (Happ : ∀ l l' s, ref_ops (l ++ l') s = (s ← ref_ops l s; ref_ops l' s)).
  { induction l as [|op l IHl]; intros l' s; cbn [ref_ops app]; [by rewrite bind_ret_l|].
    rewrite bind_assoc. by apply bind_ext. }
  rewrite Happ, Hrun. pstep. cbn [ref_ops]. rewrite E.
  assert (ref_op false st =
    Done true (UnregisterKernelObject p (Destroy p (set_object p (MkObject 0 tok) st)))) as ->.
  { unfold ref_op, KAutoObject_Close. rewrite Hp. done. }
  pstep. apply (ref_ops_dead _ tok). simpl. rewrite HD. simpl. apply lookup_insert_eq.
Qed.
End RefCount.
