(* ===== verification/HandleTable.v ===== *)
(** * KHandleTable (src/src/core/hle/kernel/k_handle_table.h, k_handle_table.cpp)

    The handles of a process: a table of objects whose free entries form a list
    threaded through the entry infos, and a serial number in every handle that
    tells apart the handles an entry had over time.  The spin lock makes each
    operation one step; dispatch is not modelled. *)

From stdpp Require Import gmap.
From S2P Require Import Prelude Common AutoObject.

Definition MaxTableSize : Z := 1024.
Definition MinLinearId : Z := 1.
Definition MaxLinearId : Z := 0x7FFF.

(** An [EntryInfo] is the union of the [u16] linear id and the [s16] index of the
    next free entry: 16 bits, read as either. *)
Abbreviation EntryInfo := Z (only parsing).
Definition EntryInfo_GetLinearId (e : EntryInfo) : Z := e.
Definition EntryInfo_GetNextFreeIndex (e : EntryInfo) : Z := s16 e.

Record KHandleTable : Type := MkTable {
  m_entry_infos : list EntryInfo;
  m_objects : list (option Z);
  m_free_head_index : Z;
  m_table_size : Z;
  m_max_count : Z;
  m_next_linear_id : Z;
  m_count : Z
}.

(** ** Handles *)
Definition HandlePack_index (raw : Z) : Z := BitField_ExtractValue 0 15 raw.
Definition HandlePack_linear_id (raw : Z) : Z := BitField_ExtractValue 15 15 raw.
Definition HandlePack_reserved (raw : Z) : Z := BitField_ExtractValue 30 2 raw.

Definition EncodeHandle (index linear_id : Z) : Z :=
  let handle := BitField_Assign 0 15 0 index in
  let handle := BitField_Assign 15 15 handle linear_id in
  BitField_Assign 30 2 handle 0.

Definition PseudoHandle_CurrentThread : Z := 0xFFFF8000.
Definition PseudoHandle_CurrentProcess : Z := 0xFFFF8001.
Definition IsPseudoHandle (handle : Z) : bool :=
  (handle =? PseudoHandle_CurrentProcess) || (handle =? PseudoHandle_CurrentThread).

(** ** Entries *)
Definition KHandleTable_new : KHandleTable :=
  MkTable (replicate (Z.to_nat MaxTableSize) 0) (replicate (Z.to_nat MaxTableSize) None) 0 0 0 0 0.

Fixpoint free_all_entries (n : nat) (i : Z) (t : KHandleTable) : prog KHandleTable :=
  match n with
  | O => mret t
  | S n =>
      objects ← arr_set (m_objects t) i None;
      infos ← arr_set (m_entry_infos t) i (u16 (i - 1));
      free_all_entries n (i + 1)
        (MkTable infos objects i (m_table_size t) (m_max_count t) (m_next_linear_id t) (m_count t))
  end.

Definition KHandleTable_Initialize (t : KHandleTable) (size : Z) : prog (Z * KHandleTable) :=
  if negb (size <=? MaxTableSize) then mret (ResultOutOfMemory, t)
  else
    let table_size := u16 (if size <=? 0 then MaxTableSize else size) in
    t ← free_all_entries (Z.to_nat table_size) 0
          (MkTable (m_entry_infos t) (m_objects t) (-1) table_size 0 MinLinearId 0);
    mret (ResultSuccess, t).

Definition KHandleTable_AllocateEntry (t : KHandleTable) : prog (Z * KHandleTable) :=
  _ ← ASSERT (m_count t <? m_table_size t);
  let index := m_free_head_index t in
  info ← arr_get (m_entry_infos t) index;
  let count := u16 (m_count t + 1) in
  mret (index, MkTable (m_entry_infos t) (m_objects t) (EntryInfo_GetNextFreeIndex info)
                 (m_table_size t) (Z.max (m_max_count t) count) (m_next_linear_id t) count).

Definition KHandleTable_FreeEntry (t : KHandleTable) (index : Z) : prog KHandleTable :=
  _ ← ASSERT (0 <? m_count t);
  objects ← arr_set (m_objects t) index None;
  infos ← arr_set (m_entry_infos t) index (u16 (m_free_head_index t));
  mret (MkTable infos objects index (m_table_size t) (m_max_count t) (m_next_linear_id t)
          (u16 (m_count t - 1))).

Definition KHandleTable_AllocateLinearId (t : KHandleTable) : Z * KHandleTable :=
  let id := m_next_linear_id t in
  let next := u16 (m_next_linear_id t + 1) in
  let next := if MaxLinearId <? next then MinLinearId else next in
  (id, MkTable (m_entry_infos t) (m_objects t) (m_free_head_index t) (m_table_size t)
         (m_max_count t) next (m_count t)).

(** [m_entry_infos[index].linear_id = linear_id; m_objects[index] = obj;] *)
Definition set_entry (t : KHandleTable) (index linear_id obj : Z) : prog KHandleTable :=
  infos ← arr_set (m_entry_infos t) index linear_id;
  objects ← arr_set (m_objects t) index (Some obj);
  mret (MkTable infos objects (m_free_head_index t) (m_table_size t) (m_max_count t)
          (m_next_linear_id t) (m_count t)).

Definition KHandleTable_IsValidHandle (t : KHandleTable) (handle : Z) : prog bool :=
  let index := HandlePack_index handle in
  let linear_id := HandlePack_linear_id handle in
  _ ← ASSERT (HandlePack_reserved handle =? 0);
  if handle =? 0 then mret false
  else if linear_id =? 0 then mret false
  else if m_table_size t <=? index then mret false
  else
    obj ← arr_get (m_objects t) index;
    match obj with
    | None => mret false
    | Some _ =>
        info ← arr_get (m_entry_infos t) index;
        if negb (EntryInfo_GetLinearId info =? linear_id) then mret false else mret true
    end.

Definition KHandleTable_GetObjectImpl (t : KHandleTable) (handle : Z) : prog (option Z) :=
  if negb (HandlePack_reserved handle =? 0) then mret None
  else
    valid ← KHandleTable_IsValidHandle t handle;
    if valid : bool then arr_get (m_objects t) (HandlePack_index handle) else mret None.

Definition KHandleTable_GetObjectByIndexImpl (t : KHandleTable) (out_handle index : Z)
    : prog (option Z * Z) :=
  if m_table_size t <=? index then mret (None, out_handle)
  else
    obj ← arr_get (m_objects t) index;
    match obj with
    | Some p =>
        info ← arr_get (m_entry_infos t) index;
        mret (Some p, EncodeHandle (u16 index) (EntryInfo_GetLinearId info))
    | None => mret (None, out_handle)
    end.

(** ** Operations, on the table and the kernel's objects *)
Section Operations.
Context (Destroy : Z → ObjectStore → ObjectStore).

Fixpoint close_all (objects : list (option Z)) (st : ObjectStore) : prog ObjectStore :=
  match objects with
  | [] => mret st
  | None :: objects => close_all objects st
  | Some p :: objects => st ← KAutoObject_Close Destroy p st; close_all objects st
  end.

Definition KHandleTable_Finalize (t : KHandleTable) (st : ObjectStore)
    : prog (KHandleTable * ObjectStore) :=
  let saved_table_size := m_table_size t in
  let t := MkTable (m_entry_infos t) (m_objects t) (m_free_head_index t) 0 (m_max_count t)
             (m_next_linear_id t) (m_count t) in
  st ← close_all (take (Z.to_nat saved_table_size) (m_objects t)) st;
  mret (t, st).

Definition KHandleTable_Remove (t : KHandleTable) (handle : Z) (st : ObjectStore)
    : prog (bool * KHandleTable * ObjectStore) :=
  if IsPseudoHandle handle then mret (false, t, st)
  else if negb (HandlePack_reserved handle =? 0) then mret (false, t, st)
  else
    valid ← KHandleTable_IsValidHandle t handle;
    if valid : bool then
      let index := HandlePack_index handle in
      obj ← arr_get (m_objects t) index;
      t ← KHandleTable_FreeEntry t index;
      p ← deref obj;
      let st := UnregisterInUseObject p st in
      st ← KAutoObject_Close Destroy p st;
      mret (true, t, st)
    else mret (false, t, st).

Definition KHandleTable_Add (t : KHandleTable) (out_handle obj : Z) (st : ObjectStore)
    : prog (Z * Z * KHandleTable * ObjectStore) :=
  if negb (m_count t <? m_table_size t) then mret (ResultOutOfHandles, out_handle, t, st)
  else
    let '(linear_id, t) := KHandleTable_AllocateLinearId t in
    '(index, t) ← KHandleTable_AllocateEntry t;
    t ← set_entry t index linear_id obj;
    '(_, st) ← KAutoObject_Open obj st;
    mret (ResultSuccess, EncodeHandle (u16 index) linear_id, t, st).

Definition KHandleTable_Reserve (t : KHandleTable) (out_handle : Z)
    : prog (Z * Z * KHandleTable) :=
  if negb (m_count t <? m_table_size t) then mret (ResultOutOfHandles, out_handle, t)
  else
    '(index, t) ← KHandleTable_AllocateEntry t;
    let '(linear_id, t) := KHandleTable_AllocateLinearId t in
    mret (ResultSuccess, EncodeHandle (u16 index) linear_id, t).

Definition KHandleTable_Unreserve (t : KHandleTable) (handle : Z) : prog KHandleTable :=
  let index := HandlePack_index handle in
  _ ← ASSERT (HandlePack_reserved handle =? 0);
  _ ← ASSERT (negb (HandlePack_linear_id handle =? 0));
  if index <? m_table_size t then
    obj ← arr_get (m_objects t) index;
    _ ← ASSERT (bool_decide (obj = None));
    KHandleTable_FreeEntry t index
  else mret t.

Definition KHandleTable_Register (t : KHandleTable) (handle obj : Z) (st : ObjectStore)
    : prog (KHandleTable * ObjectStore) :=
  let index := HandlePack_index handle in
  let linear_id := HandlePack_linear_id handle in
  _ ← ASSERT (HandlePack_reserved handle =? 0);
  _ ← ASSERT (negb (linear_id =? 0));
  if index <? m_table_size t then
    old ← arr_get (m_objects t) index;
    _ ← ASSERT (bool_decide (old = None));
    t ← set_entry t index (u16 linear_id) obj;
    '(_, st) ← KAutoObject_Open obj st;
    mret (t, st)
  else mret (t, st).

(** ** Lookup, with the reference the caller gets *)
Definition KHandleTable_GetObjectWithoutPseudoHandle (T : KClass) (t : KHandleTable) (handle : Z)
    (st : ObjectStore) : prog (option Z * ObjectStore) :=
  obj ← KHandleTable_GetObjectImpl t handle;
  if decide (T = KAutoObject) then KScopedAutoObject_new obj st
  else
    match obj with
    | Some p => derived ← KAutoObject_DynamicCast p T st; KScopedAutoObject_new derived st
    | None => KScopedAutoObject_new None st
    end.

(** [std::derived_from<KProcess, T>] and [std::derived_from<KThread, T>]; the
    current process and thread belong to the kernel's dispatcher. *)
Definition KHandleTable_GetObject (T : KClass) (cur_process cur_thread : option Z)
    (t : KHandleTable) (handle : Z) (st : ObjectStore) : prog (option Z * ObjectStore) :=
  if derivesb KProcess T && (handle =? PseudoHandle_CurrentProcess) then
    _ ← ASSERT (bool_decide (is_Some cur_process)); KScopedAutoObject_new cur_process st
  else if negb (derivesb KProcess T) && derivesb KThread T &&
          (handle =? PseudoHandle_CurrentThread) then
    _ ← ASSERT (bool_decide (is_Some cur_thread)); KScopedAutoObject_new cur_thread st
  else KHandleTable_GetObjectWithoutPseudoHandle T t handle st.

Definition KHandleTable_GetObjectForIpcWithoutPseudoHandle (t : KHandleTable) (handle : Z)
    (st : ObjectStore) : prog (option Z * ObjectStore) :=
  obj ← KHandleTable_GetObjectImpl t handle; KScopedAutoObject_new obj st.

Definition KHandleTable_GetObjectForIpc (t : KHandleTable) (handle : Z) (cur_thread : option Z)
    (owner_process : option Z) (st : ObjectStore) : prog (option Z * ObjectStore) :=
  _ ← ASSERT (bool_decide (is_Some cur_thread));
  if handle =? PseudoHandle_CurrentProcess then
    _ ← ASSERT (bool_decide (is_Some owner_process)); KScopedAutoObject_new owner_process st
  else if handle =? PseudoHandle_CurrentThread then KScopedAutoObject_new cur_thread st
  else KHandleTable_GetObjectForIpcWithoutPseudoHandle t handle st.

Definition KHandleTable_GetObjectByIndex (t : KHandleTable) (out_handle index : Z)
    (st : ObjectStore) : prog (option Z * Z * ObjectStore) :=
  '(obj, out_handle) ← KHandleTable_GetObjectByIndexImpl t out_handle index;
  '(obj, st) ← KScopedAutoObject_new obj st;
  mret (obj, out_handle, st).

(** [GetMultipleObjects]: the handles opened before the first that fails. *)
Fixpoint open_handles (T : KClass) (t : KHandleTable) (handles : list Z) (st : ObjectStore)
    : prog (list Z * ObjectStore) :=
  match handles with
  | [] => mret ([], st)
  | cur_handle :: handles =>
      cur_object ← KHandleTable_GetObjectImpl t cur_handle;
      match cur_object with
      | None => mret ([], st)
      | Some p =>
          cur_thread ← KAutoObject_DynamicCast p T st;
          match cur_thread with
          | None => mret ([], st)
          | Some p =>
              '(_, st) ← KAutoObject_Open p st;
              '(out, st) ← open_handles T t handles st;
              mret (p :: out, st)
          end
      end
  end.

Definition KHandleTable_GetMultipleObjects (T : KClass) (t : KHandleTable) (handles : list Z)
    (st : ObjectStore) : prog (bool * list Z * ObjectStore) :=
  '(out, st) ← open_handles T t handles st;
  if Z.of_nat (length out) =? Z.of_nat (length handles) then mret (true, out, st)
  else st ← close_all (map Some out) st; mret (false, out, st).
End Operations.
