(* ===== verification/HandleTableTheorems.v ===== *)
(** * Correctness of KHandleTable

    The table refines a finite map from handles to objects: [lookup_handle] is
    the map, and the operations look up, insert and delete. *)

From stdpp Require Import gmap.
From S2P Require Import Prelude Common AutoObject HandleTable.

(** ** Handles are pairs of an index and a serial number *)
Definition is_15 (z : Z) : Prop := 0 ≤ z < 2 ^ 15.

Lemma EncodeHandle_bits i l k : 0 ≤ k →
  Z.testbit (EncodeHandle i l) k =
    if (30 <=? k) && (k <? 32) then false
    else if (15 <=? k) && (k <? 30) then Z.testbit l (k - 15)
    else if k <? 15 then Z.testbit i k else false.
Proof.
  intros Hk. unfold EncodeHandle. rewrite !BitField_Assign_bits, !Z.testbit_0_l by lia.
  change (30 + 2) with 32. change (15 + 15) with 30. change (0 + 15) with 15.
  rewrite (proj2 (Z.leb_le 0 k) Hk), Z.sub_0_r. done.
Qed.

Lemma EncodeHandle_fields i l :
  is_15 i → is_15 l →
  HandlePack_index (EncodeHandle i l) = i ∧ HandlePack_linear_id (EncodeHandle i l) = l ∧
  HandlePack_reserved (EncodeHandle i l) = 0.
Proof.
  intros Hi Hl. unfold HandlePack_index, HandlePack_linear_id, HandlePack_reserved, EncodeHandle.
  split_and!.
  - rewrite !BitField_Extract_Assign_ne by lia. apply BitField_Extract_Assign; [lia..|done].
  - rewrite BitField_Extract_Assign_ne by lia. apply BitField_Extract_Assign; [lia..|done].
  - apply BitField_Extract_Assign; lia.
Qed.

Lemma fields_range h : is_15 (HandlePack_index h) ∧ is_15 (HandlePack_linear_id h).
Proof. split; apply (BitField_ExtractValue_bound _ 15); lia. Qed.

(** A handle without reserved bits is determined by its fields. *)
Lemma handle_eq h : is_u32 h → HandlePack_reserved h = 0 →
  h = EncodeHandle (HandlePack_index h) (HandlePack_linear_id h).
Proof.
  intros Hh Hr. unfold HandlePack_index, HandlePack_linear_id, HandlePack_reserved in *.
  rewrite !BitField_ExtractValue_slice in * by lia. apply Z.bits_inj'. intros k Hk.
  rewrite EncodeHandle_bits by done. rewrite Z.div_1_r.
  destruct (decide (k < 15)) as [|H15].
  { rewrite (proj2 (Z.leb_gt 30 k)), (proj2 (Z.leb_gt 15 k)), (proj2 (Z.ltb_lt k 15)) by lia. simpl.
    by rewrite Z.mod_pow2_bits_low by lia. }
  destruct (decide (k < 30)).
  { rewrite (proj2 (Z.leb_gt 30 k)), (proj2 (Z.leb_le 15 k)), (proj2 (Z.ltb_lt k 30)) by lia. simpl.
    rewrite Z.mod_pow2_bits_low, Z.div_pow2_bits by lia. f_equal. lia. }
  destruct (decide (k < 32)).
  - rewrite (proj2 (Z.leb_le 30 k)), (proj2 (Z.ltb_lt k 32)) by lia. simpl.
    apply (testbit_eq _ _ (k - 30)) in Hr. rewrite Z.testbit_0_l in Hr.
    rewrite Z.mod_pow2_bits_low, Z.div_pow2_bits in Hr by lia. rewrite <- Hr. f_equal. lia.
  - rewrite (testbit_above h 32) by (done || lia).
    rewrite (proj2 (Z.ltb_ge k 32)), (proj2 (Z.ltb_ge k 30)), (proj2 (Z.ltb_ge k 15)),
      !andb_false_r by lia. done.
Qed.

(** ** The free list *)
Fixpoint chain (infos : list EntryInfo) (head : Z) (fl : list Z) : Prop :=
  match fl with
  | [] => head = -1
  | i :: fl => head = i ∧ ∃ info, infos !! Z.to_nat i = Some info ∧ chain infos (s16 info) fl
  end.

Definition object_at (t : KHandleTable) (i : Z) : option Z := mjoin (m_objects t !! Z.to_nat i).

Record table_wf (t : KHandleTable) (fl : list Z) : Prop := {
  tw_infos : length (m_entry_infos t) = Z.to_nat MaxTableSize;
  tw_objects : length (m_objects t) = Z.to_nat MaxTableSize;
  tw_size : 0 ≤ m_table_size t ≤ MaxTableSize;
  tw_chain : chain (m_entry_infos t) (m_free_head_index t) fl;
  tw_nodup : NoDup fl;
  tw_free i : i ∈ fl → 0 ≤ i < m_table_size t ∧ object_at t i = None;
  tw_count : m_count t + Z.of_nat (length fl) = m_table_size t;
  tw_count0 : 0 ≤ m_count t ≤ m_max_count t;
  tw_next : MinLinearId ≤ m_next_linear_id t ≤ MaxLinearId
}.

(** ** The map from handles to objects *)
Definition lookup_handle (t : KHandleTable) (h : Z) : option Z :=
  let i := HandlePack_index h in
  if (HandlePack_reserved h =? 0) && negb (HandlePack_linear_id h =? 0) && (i <? m_table_size t) &&
     bool_decide (m_entry_infos t !! Z.to_nat i = Some (HandlePack_linear_id h))
  then object_at t i else None.

Lemma s16_u16 z : - 2 ^ 15 ≤ z < 2 ^ 15 → s16 (u16 z) = z.
Proof.
  intros Hz. unfold s16, u16. rewrite Zplus_mod_idemp_l, Z.mod_small; lia.
Qed.

Lemma arr_get_ok {A} (l : list A) i x :
  0 ≤ i → l !! Z.to_nat i = Some x → arr_get l i = Done true x.
Proof. intros Hi Hx. unfold arr_get. by rewrite (proj2 (Z.leb_le 0 i) Hi), Hx. Qed.

(** A lookup that finds nothing. *)
Ltac no_object := try rewrite bool_decide_false by (intros [? ?]; done); done.

Section Table.
Context (t : KHandleTable) (fl : list Z) (Hwf : table_wf t fl).

Lemma infos_at i : 0 ≤ i < m_table_size t → ∃ e, m_entry_infos t !! Z.to_nat i = Some e.
Proof.
  intros Hi. destruct (tw_size _ _ Hwf). apply lookup_lt_is_Some. rewrite (tw_infos _ _ Hwf).
  unfold MaxTableSize in *. lia.
Qed.
Lemma objects_at i : 0 ≤ i < m_table_size t → m_objects t !! Z.to_nat i = Some (object_at t i).
Proof.
  intros Hi. destruct (tw_size _ _ Hwf). unfold object_at.
  destruct (lookup_lt_is_Some_2 (m_objects t) (Z.to_nat i)) as [o Ho]; [|by rewrite Ho].
  rewrite (tw_objects _ _ Hwf). unfold MaxTableSize in *. lia.
Qed.

Lemma IsValidHandle_run h : HandlePack_reserved h = 0 →
  KHandleTable_IsValidHandle t h = Done true (bool_decide (is_Some (lookup_handle t h))).
Proof.
  intros Hr. unfold KHandleTable_IsValidHandle, lookup_handle, ASSERT. rewrite Hr. pstep.
  destruct (fields_range h) as [Hi Hl].
  destruct (h =? 0) eqn:E0; bool_prop.
  { subst h. change (HandlePack_linear_id 0) with 0. cbn [negb andb]. no_object. }
  destruct (HandlePack_linear_id h =? 0) eqn:El; bool_prop; cbn [negb andb].
  { no_object. }
  destruct (m_table_size t <=? _) eqn:Es; bool_prop.
  { rewrite (proj2 (Z.ltb_ge _ _)) by lia. cbn [negb andb]. no_object. }
  rewrite (proj2 (Z.ltb_lt _ _)) by lia. set (i := HandlePack_index h) in *. cbn [negb andb].
  assert (Hi' : 0 ≤ i < m_table_size t) by (unfold is_15 in Hi; lia).
  rewrite (arr_get_ok _ _ _ (proj1 Hi') (objects_at i Hi')). pstep.
  destruct (object_at t i) as [p|] eqn:Eo.
  - destruct (infos_at i Hi') as [e He]. rewrite (arr_get_ok _ _ _ (proj1 Hi') He), He. pstep.
    unfold EntryInfo_GetLinearId. destruct (e =? _) eqn:Ee; bool_prop; cbn [negb andb].
    + subst e. rewrite (bool_decide_true (Some _ = Some _)) by done.
      by rewrite bool_decide_true by eauto.
    + rewrite (bool_decide_false (Some _ = Some _)) by congruence.
      no_object.
  - destruct (bool_decide (_ !! _ = _)); no_object.
Qed.

Lemma lookup_handle_Some h p : lookup_handle t h = Some p →
  HandlePack_reserved h = 0 ∧ HandlePack_linear_id h ≠ 0 ∧
  0 ≤ HandlePack_index h < m_table_size t ∧
  m_entry_infos t !! Z.to_nat (HandlePack_index h) = Some (HandlePack_linear_id h) ∧
  object_at t (HandlePack_index h) = Some p.
Proof.
  unfold lookup_handle. destruct (_ && _) eqn:E; [|done]. intros Ho.
  rewrite !andb_true_iff, bool_decide_eq_true in E. destruct E as [[[E1 E2] E3] E4]. bool_prop.
  destruct (fields_range h) as [Hi _]. unfold is_15 in Hi. split_and!; [done|done|lia|lia|done|done].
Qed.

Lemma GetObjectImpl_run h : KHandleTable_GetObjectImpl t h = Done true (lookup_handle t h).
Proof.
  unfold KHandleTable_GetObjectImpl. destruct (HandlePack_reserved h =? 0) eqn:Er; bool_prop; simpl.
  - rewrite IsValidHandle_run by done. pstep. case_bool_decide as Hs.
    + destruct Hs as [p Hp]. destruct (lookup_handle_Some h p Hp) as (_ & _ & Hi & _ & Ho).
      rewrite (arr_get_ok _ _ _ (proj1 Hi) (objects_at _ Hi)). congruence.
    + by destruct (lookup_handle t h); [destruct Hs|].
  - unfold lookup_handle. rewrite (proj2 (Z.eqb_neq _ _)) by done. done.
Qed.
End Table.

(** The free list does not see entries that are not on it. *)
Lemma chain_insert infos i e fl : ∀ head,
  0 ≤ i → (∀ j, j ∈ fl → 0 ≤ j) → i ∉ fl → chain infos head fl →
  chain (<[Z.to_nat i := e]> infos) head fl.
Proof.
  induction fl as [|j fl IH]; intros head Hi Hpos Hni; [done|]. simpl.
  intros (-> & info & Hj & Hc). split; [done|]. exists info. split.
  - rewrite list_lookup_insert_ne; [done|]. pose proof (Hpos j ltac:(set_solver)). set_solver by lia.
  - apply IH; [done| |set_solver|done]. intros k Hk. apply Hpos. set_solver.
Qed.

Lemma object_at_insert objects infos h s mx nx c i o j :
  0 ≤ i < Z.of_nat (length objects) → 0 ≤ j →
  object_at (MkTable infos (<[Z.to_nat i := o]> objects) h s mx nx c) j =
  if decide (j = i) then o else mjoin (objects !! Z.to_nat j).
Proof.
  intros Hi Hj. unfold object_at. simpl. destruct (decide (j = i)) as [->|].
  - by rewrite list_lookup_insert_eq by lia.
  - by rewrite list_lookup_insert_ne by lia.
Qed.

(** ** The entry operations *)
Lemma chain_head infos head fl : chain infos head fl → head = -1 ∨ head ∈ fl.
Proof. destruct fl; [by left|]. intros [-> _]. right. left. Qed.

Lemma lookup_handle_same t t' h :
  m_entry_infos t' = m_entry_infos t → m_objects t' = m_objects t →
  m_table_size t' = m_table_size t → lookup_handle t' h = lookup_handle t h.
Proof. intros E1 E2 E3. unfold lookup_handle, object_at. by rewrite E1, E2, E3. Qed.

Lemma AllocateEntry_run t fl :
  table_wf t fl → m_count t < m_table_size t →
  ∃ i fl' t', fl = i :: fl' ∧ KHandleTable_AllocateEntry t = Done true (i, t') ∧
    table_wf t' fl' ∧ m_entry_infos t' = m_entry_infos t ∧ m_objects t' = m_objects t ∧
    m_table_size t' = m_table_size t ∧ m_count t' = m_count t + 1 ∧
    m_next_linear_id t' = m_next_linear_id t ∧ m_max_count t' = Z.max (m_max_count t) (m_count t + 1).
Proof.
  intros [W1 W2 W3 W4 W5 W6 W7 W8 W9] Hc. unfold MaxTableSize in *.
  destruct fl as [|i fl]; [simpl in W7; lia|]. destruct W4 as (E & info & Hi & Hch).
  destruct (W6 i) as [Hi0 _]; [left|]. unfold KHandleTable_AllocateEntry, ASSERT.
  rewrite (proj2 (Z.ltb_lt _ _)) by lia. pstep. rewrite E, (arr_get_ok _ i info) by (done || lia).
  pstep. rewrite u16_id by (unfold is_u16; lia). apply NoDup_cons in W5 as [_ W5].
  eexists i, fl, _. split_and!; [done|done| |done..]. split; simpl in *; try done; try lia.
  intros j Hj. apply W6. by right.
Qed.

Lemma AllocateLinearId_run t fl :
  table_wf t fl →
  ∃ t', KHandleTable_AllocateLinearId t = (m_next_linear_id t, t') ∧ table_wf t' fl ∧
    m_entry_infos t' = m_entry_infos t ∧ m_objects t' = m_objects t ∧
    m_table_size t' = m_table_size t ∧ m_count t' = m_count t ∧
    m_next_linear_id t' = 1 + m_next_linear_id t mod 0x7FFF ∧ m_max_count t' = m_max_count t.
Proof.
  intros [W1 W2 W3 W4 W5 W6 W7 W8 W9]. unfold KHandleTable_AllocateLinearId.
  unfold MinLinearId, MaxLinearId in *. rewrite u16_id by (unfold is_u16; lia).
  eexists. split_and!; [done| |done..| |done].
  - split; simpl; try done. unfold MinLinearId, MaxLinearId. destruct (_ <? _) eqn:E; bool_prop; lia.
  - simpl. destruct (_ <? _) eqn:E; bool_prop.
    + replace (m_next_linear_id t) with 0x7FFF by lia. done.
    + rewrite Z.mod_small; lia.
Qed.

Lemma set_entry_run t fl i id obj :
  table_wf t fl → 0 ≤ i < m_table_size t → i ∉ fl → MinLinearId ≤ id ≤ MaxLinearId →
  object_at t i = None →
  ∃ t', set_entry t i id obj = Done true t' ∧ table_wf t' fl ∧
    (∀ h, is_u32 h → lookup_handle t' h =
       if decide (h = EncodeHandle i id) then Some obj else lookup_handle t h) ∧
    m_table_size t' = m_table_size t ∧ m_count t' = m_count t ∧
    m_next_linear_id t' = m_next_linear_id t ∧ m_max_count t' = m_max_count t.
Proof.
  intros [W1 W2 W3 W4 W5 W6 W7 W8 W9] Hi Hni Hid Hnone.
  unfold MaxTableSize, MinLinearId, MaxLinearId in *. unfold set_entry.
  rewrite (arr_set_run (m_entry_infos t)) by (rewrite W1; lia). pstep.
  rewrite (arr_set_run (m_objects t)) by (rewrite W2; lia). pstep.
  eexists. split; [done|]. split_and!; [| |done..].
  - split; simpl; try done; [by rewrite length_insert..| |].
    + apply chain_insert; [lia| |done|done]. intros j Hj. by apply W6.
    + intros j Hj. destruct (W6 j Hj) as [Hj0 Hjn]. split; [done|].
      rewrite object_at_insert by (rewrite ?W2; lia). by rewrite decide_False by congruence.
  - intros h Hh. destruct (EncodeHandle_fields i id) as (Ei & El & Er); [unfold is_15; lia..|].
    destruct (decide (h = EncodeHandle i id)) as [->|Hne].
    + unfold lookup_handle. rewrite Ei, El, Er. cbn [m_entry_infos m_objects m_table_size].
      rewrite Z.eqb_refl, (proj2 (Z.eqb_neq id 0)), (proj2 (Z.ltb_lt i _)) by lia.
      rewrite object_at_insert, decide_True by (done || (rewrite ?W2; lia)).
      rewrite list_lookup_insert_eq by (rewrite W1; lia). by rewrite bool_decide_true.
    + unfold lookup_handle. cbn [m_entry_infos m_objects m_table_size]. destruct (fields_range h) as [[Hp _] _].
      rewrite object_at_insert by (done || (rewrite ?W2; lia)).
      destruct (decide (HandlePack_index h = i)) as [Eh|Eh].
      * rewrite Eh, Hnone. rewrite list_lookup_insert_eq by (rewrite W1; lia).
        transitivity (@None Z); [|by case_match].
        case_match eqn:E; [|done]. exfalso. apply Hne. rewrite !andb_true_iff, bool_decide_eq_true in E.
        destruct E as [[[E1 _] _] [= E4]]. bool_prop. rewrite (handle_eq h Hh E1). congruence.
      * rewrite list_lookup_insert_ne by lia. done.
Qed.

(** A table with an entry that is neither free nor empty has a positive count. *)
Lemma count_positive t fl i :
  table_wf t fl → 0 ≤ i < m_table_size t → i ∉ fl → 0 < m_count t.
Proof.
  intros [W1 W2 W3 W4 W5 W6 W7 W8 W9] Hi Hni.
  assert (Hsub : (i :: fl) ⊆+ seqZ 0 (m_table_size t)).
  { apply NoDup_submseteq; [by constructor|]. intros j Hj. apply elem_of_seqZ.
    apply elem_of_cons in Hj as [->|Hj]; [lia|]. destruct (W6 j Hj). lia. }
  apply submseteq_length in Hsub. rewrite length_seqZ in Hsub. simpl in Hsub. lia.
Qed.

Lemma FreeEntry_run t fl i :
  table_wf t fl → 0 ≤ i < m_table_size t → i ∉ fl →
  ∃ t', KHandleTable_FreeEntry t i = Done true t' ∧ table_wf t' (i :: fl) ∧
    (∀ h, lookup_handle t' h = if decide (HandlePack_index h = i) then None else lookup_handle t h) ∧
    m_table_size t' = m_table_size t ∧ m_count t' = m_count t - 1 ∧
    m_next_linear_id t' = m_next_linear_id t ∧ m_max_count t' = m_max_count t.
Proof.
  intros Hwf Hi Hni. pose proof (count_positive t fl i Hwf Hi Hni) as Hpos.
  destruct Hwf as [W1 W2 W3 W4 W5 W6 W7 W8 W9]. unfold MaxTableSize in *.
  unfold KHandleTable_FreeEntry, ASSERT. rewrite (proj2 (Z.ltb_lt 0 _)) by lia. pstep.
  rewrite (arr_set_run (m_objects t)) by (rewrite W2; lia). pstep.
  rewrite (arr_set_run (m_entry_infos t)) by (rewrite W1; lia). pstep.
  rewrite (u16_id (m_count t - 1)) by (unfold is_u16; lia).
  eexists. split; [done|]. split_and!; [| |done..].
  - assert (Hhead : -1 ≤ m_free_head_index t < 1024).
    { destruct (chain_head _ _ _ W4) as [->|Hin]; [lia|]. destruct (W6 _ Hin). lia. }
    split; simpl; try done; try lia; [by rewrite length_insert..| | |].
    + split; [done|]. eexists. split; [apply list_lookup_insert_eq; rewrite W1; lia|].
      rewrite s16_u16 by lia. apply chain_insert; [lia| |done|done]. intros j Hj. by apply W6.
    + by constructor.
    + intros j [->|Hj]%elem_of_cons.
      * split; [done|]. rewrite object_at_insert by (rewrite ?W2; lia). by rewrite decide_True.
      * destruct (W6 j Hj) as [Hj0 Hjn]. split; [done|].
        rewrite object_at_insert by (rewrite ?W2; lia). by rewrite decide_False by congruence.
  - intros h. unfold lookup_handle. cbn [m_entry_infos m_objects m_table_size]. destruct (fields_range h) as [[Hp _] _].
    rewrite object_at_insert by (done || (rewrite ?W2; lia)).
    destruct (decide (HandlePack_index h = i)) as [Eh|Eh].
    + by case_match.
    + rewrite list_lookup_insert_ne by lia. done.
Qed.

(** ** The operations *)
Definition table_ok (t : KHandleTable) : Prop := ∃ fl, table_wf t fl.

Lemma EncodeHandle_range i l :
  is_15 i → MinLinearId ≤ l ≤ MaxLinearId → 0 < EncodeHandle i l < 2 ^ 30.
Proof.
  intros Hi Hl. unfold MinLinearId, MaxLinearId in *.
  destruct (EncodeHandle_fields i l Hi ltac:(unfold is_15; lia)) as (_ & El & _).
  assert (Hn : 0 ≤ EncodeHandle i l).
  { unfold EncodeHandle, BitField_Assign, BitField_FormatValue, u32. rewrite !Z.lor_nonneg.
    repeat split; try (apply Z.land_nonneg; left; apply Z.mod_pos_bound; lia);
      repeat (apply Z.ldiff_nonneg; left; rewrite ?Z.lor_nonneg; repeat split); try done;
      try (apply Z.land_nonneg; left; apply Z.mod_pos_bound; lia). }
  split.
  - destruct (decide (EncodeHandle i l = 0)) as [E|]; [|lia]. rewrite E in El.
    change (HandlePack_linear_id 0) with 0 in El. lia.
  - apply bits_lt; [lia|done|]. intros k Hk. rewrite EncodeHandle_bits by lia.
    rewrite (proj2 (Z.ltb_ge k 30)), (proj2 (Z.ltb_ge k 15)), andb_false_r by lia.
    by destruct (_ && _).
Qed.

Lemma Open_run st p n tok :
  os_objects st !! p = Some (MkObject n tok) → 0 < n < 2 ^ 32 - 1 →
  KAutoObject_Open p st = Done true (true, set_object p (MkObject (n + 1) tok) st).
Proof.
  intros Hp Hn. unfold KAutoObject_Open, ASSERT. rewrite Hp. pstep. cbn [m_ref_count m_class_token].
  rewrite (proj2 (Z.eqb_neq n 0)), u32_id by (unfold is_u32; lia).
  by rewrite (proj2 (Z.ltb_lt n _)) by lia.
Qed.

(** What [Add] and [Reserve] have in common: the entry and the handle. *)
Record allocated (t t' : KHandleTable) (i : Z) : Prop := {
  al_wf : ∃ fl, table_wf t' fl ∧ i ∉ fl;
  al_index : 0 ≤ i < m_table_size t ∧ i = m_free_head_index t;
  al_empty : object_at t' i = None;
  al_lookup h : lookup_handle t' h = lookup_handle t h;
  al_size : m_table_size t' = m_table_size t;
  al_count : m_count t' = m_count t + 1
}.

(** The entry and the serial number can be taken in either order. *)
Lemma allocate_commute t id t1 i t' j t2 :
  KHandleTable_AllocateLinearId t = (id, t1) → KHandleTable_AllocateEntry t1 = Done true (i, t') →
  KHandleTable_AllocateEntry t = Done true (j, t2) → KHandleTable_AllocateLinearId t2 = (id, t').
Proof.
  unfold KHandleTable_AllocateLinearId, KHandleTable_AllocateEntry, ASSERT.
  intros [= <- <-]. cbn [m_entry_infos m_objects m_free_head_index m_table_size m_max_count
    m_next_linear_id m_count]. destruct (arr_get _ _) as [|b info]; [done|].
  unfold mbind, prog_bind, mret, prog_ret. intros E1 E2. injection E1 as _ _ <-. injection E2 as _ _ <-.
  reflexivity.
Qed.

Lemma allocate_run t :
  table_ok t → m_count t < m_table_size t →
  ∃ i t1 t2 t',
    KHandleTable_AllocateLinearId t = (m_next_linear_id t, t1) ∧
    KHandleTable_AllocateEntry t1 = Done true (i, t') ∧
    KHandleTable_AllocateEntry t = Done true (i, t2) ∧
    KHandleTable_AllocateLinearId t2 = (m_next_linear_id t, t') ∧
    allocated t t' i ∧ MinLinearId ≤ m_next_linear_id t ≤ MaxLinearId.
Proof.
  intros [fl Hwf] Hc. destruct (AllocateLinearId_run t fl Hwf)
    as (t1 & E1 & W1 & I1 & O1 & S1 & C1 & N1 & M1).
  destruct (AllocateEntry_run t1 fl W1) as (i & fl' & t' & -> & E' & W' & I' & O' & S' & C' & N' & M');
    [lia|].
  destruct (AllocateEntry_run t (i :: fl') Hwf Hc) as (i2 & fl2 & t2 & [= <- <-] & E2 & _).
  pose proof (tw_nodup _ _ Hwf) as [Hni _]%NoDup_cons.
  destruct (tw_free _ _ Hwf i) as [Hi Hno]; [left|].
  exists i, t1, t2, t'. split_and!; [done|done|done| | |apply Hwf..].
  - eapply allocate_commute; eassumption.
  - split; [by exists fl'|split; [done|]| | |lia|lia].
    + destruct (tw_chain _ _ Hwf) as [E _]. done.
    + unfold object_at in *. by rewrite O', O1.
    + intros h. apply lookup_handle_same; congruence.
Qed.

(** C32: [Add] puts the object under a handle that was not valid before, takes
    one reference to it, and leaves every other handle as it was; when every
    entry is taken it fails and changes nothing. *)
Theorem KHandleTable_Add_correct t out_handle obj st n tok :
  table_ok t → os_objects st !! obj = Some (MkObject n tok) → 0 < n < 2 ^ 32 - 1 →
  wp (KHandleTable_Add t out_handle obj st) (λ '(r, h, t', st'),
    table_ok t' ∧
    if decide (m_count t < m_table_size t) then
      r = ResultSuccess ∧ 0 < h < 2 ^ 30 ∧ lookup_handle t h = None ∧
      (∀ h', is_u32 h' →
         lookup_handle t' h' = if decide (h' = h) then Some obj else lookup_handle t h') ∧
      m_count t' = m_count t + 1 ∧ st' = set_object obj (MkObject (n + 1) tok) st
    else r = ResultOutOfHandles ∧ h = out_handle ∧ t' = t ∧ st' = st).
Proof.
  intros Hok Hobj Hn. unfold KHandleTable_Add.
  destruct (m_count t <? m_table_size t) eqn:E; bool_prop; cbn [negb];
    [|pstep; split; [done|]; by rewrite decide_False by lia].
  destruct (allocate_run t Hok E) as (i & t1 & t2 & t' & -> & E2 & _ & _ & [(fl & W & Hni) [Hi _] Hno Hl Hs Hcn] & Hid).
  rewrite E2. pstep.
  destruct (set_entry_run t' fl i (m_next_linear_id t) obj W) as (t3 & -> & W3 & L3 & S3 & C3 & _);
    [lia|done|done|done|]. pstep. rewrite (Open_run st obj n tok Hobj Hn). pstep.
  pose proof (tw_size _ _ W) as Hsz. unfold MaxTableSize in Hsz.
  rewrite u16_id by (unfold is_u16; lia).
  assert (Hi15 : is_15 i) by (unfold is_15; lia).
  assert (Hl15 : is_15 (m_next_linear_id t)) by (unfold is_15, MinLinearId, MaxLinearId in *; lia).
  split; [by exists fl|]. rewrite decide_True by done.
  split; [done|]. split; [by apply EncodeHandle_range|]. split_and!.
  - rewrite <- Hl. unfold lookup_handle. destruct (EncodeHandle_fields i _ Hi15 Hl15) as (-> & _ & _).
    rewrite Hno. by case_match.
  - intros h' Hh'. by rewrite L3, Hl by done.
  - lia.
  - done.
Qed.

(** [Remove] of a valid handle makes it invalid, frees its entry, leaves
    every other handle as it was and gives up the reference; of any other
    number, pseudo-handles included, it returns false and changes nothing. *)
Theorem KHandleTable_Remove_correct Destroy t handle st :
  table_ok t → is_u32 handle →
  (∀ p, lookup_handle t handle = Some p → ∃ o, os_objects st !! p = Some o ∧ 0 ≤ m_ref_count o) →
  wp (KHandleTable_Remove Destroy t handle st) (λ '(r, t', st'),
    match lookup_handle t handle with
    | Some p =>
        r = true ∧ table_ok t' ∧ m_count t' = m_count t - 1 ∧
        (∀ h', is_u32 h' →
           lookup_handle t' h' = if decide (h' = handle) then None else lookup_handle t h') ∧
        KAutoObject_Close Destroy p (UnregisterInUseObject p st) = Done true st'
    | None => r = false ∧ t' = t ∧ st' = st
    end).
Proof.
  intros [fl Hwf] Hh Hobj. unfold KHandleTable_Remove.
  destruct (HandlePack_reserved handle =? 0) eqn:Er; bool_prop; cbn [negb].
  2:{ assert (lookup_handle t handle = None) as ->.
      { unfold lookup_handle. by rewrite (proj2 (Z.eqb_neq _ _)) by done. }
      by destruct (IsPseudoHandle handle). }
  assert (IsPseudoHandle handle = false) as ->.
  { unfold IsPseudoHandle. destruct (handle =? PseudoHandle_CurrentProcess) eqn:E1; bool_prop;
      [by subst|]. destruct (handle =? PseudoHandle_CurrentThread) eqn:E2; bool_prop; [by subst|done]. }
  rewrite (IsValidHandle_run t fl Hwf handle Er). pstep.
  destruct (lookup_handle t handle) as [p|] eqn:El; [|by rewrite bool_decide_false by (intros [? ?]; done)].
  rewrite bool_decide_true by eauto.
  destruct (lookup_handle_Some t handle p El) as (_ & _ & Hi & Hinfo & Ho).
  rewrite (arr_get_ok _ _ _ (proj1 Hi) (objects_at t fl Hwf _ Hi)), Ho. pstep.
  assert (Hni : HandlePack_index handle ∉ fl) by (intros [_ ?]%(tw_free _ _ Hwf); congruence).
  destruct (FreeEntry_run t fl _ Hwf Hi Hni) as (t' & -> & W' & L' & _ & C' & _). pstep.
  destruct (Hobj p eq_refl) as (o & Hp & Hpos).
  assert (∃ st', KAutoObject_Close Destroy p (UnregisterInUseObject p st) = Done true st') as [st' Ecl].
  { unfold KAutoObject_Close, ASSERT. cbn [UnregisterInUseObject os_objects]. rewrite Hp. pstep.
    destruct (m_ref_count o =? 0) eqn:E0; [by eexists|]. bool_prop.
    rewrite (proj2 (Z.ltb_lt 0 _)) by lia. pstep. destruct (_ =? 1); by eexists. }
  rewrite Ecl. pstep. split_and!; [done|by eexists|done| |done].
  intros h' Hh'. rewrite L'. destruct (decide (h' = handle)) as [->|Hne]; [by rewrite decide_True|].
  destruct (decide (HandlePack_index h' = HandlePack_index handle)) as [E|]; [|done].
  destruct (lookup_handle t h') as [q|] eqn:Eq; [|done]. exfalso. apply Hne.
  destruct (lookup_handle_Some t h' q Eq) as (Er' & _ & _ & Hinfo' & _). rewrite E in Hinfo'.
  rewrite (handle_eq h' Hh' Er'), (handle_eq handle Hh Er). congruence.
Qed.

(** reserving a handle and registering an object under it later is the
    same as adding the object at once; until then the handle is not valid, and
    giving the reservation back restores the free entries. *)
Theorem KHandleTable_Reserve_correct t out_handle obj st n tok :
  table_ok t → m_count t < m_table_size t →
  os_objects st !! obj = Some (MkObject n tok) → 0 < n < 2 ^ 32 - 1 →
  ∃ h t1 t2 t3 st',
    KHandleTable_Reserve t out_handle = Done true (ResultSuccess, h, t1) ∧
    table_ok t1 ∧ (∀ h', lookup_handle t1 h' = lookup_handle t h') ∧ lookup_handle t1 h = None ∧
    KHandleTable_Register t1 h obj st = Done true (t2, st') ∧
    KHandleTable_Add t out_handle obj st = Done true (ResultSuccess, h, t2, st') ∧
    KHandleTable_Unreserve t1 h = Done true t3 ∧ table_ok t3 ∧
    (∀ h', lookup_handle t3 h' = lookup_handle t h') ∧
    m_count t3 = m_count t ∧ m_free_head_index t3 = m_free_head_index t.
Proof.
  intros Hok Hc Hobj Hn. unfold KHandleTable_Reserve, KHandleTable_Register, KHandleTable_Add,
    KHandleTable_Unreserve, ASSERT. rewrite (proj2 (Z.ltb_lt _ _)) by done. cbn [negb].
  destruct (allocate_run t Hok Hc) as (i & t1 & t2 & t' & E1 & E2 & E3 & E4 & A & Hid).
  destruct A as [(fl & W & Hni) [Hi Hhd] Hno Hl Hs Hcn]. rewrite E3, E1. pstep. rewrite E4, E2. pstep.
  pose proof (tw_size _ _ W) as Hsz. unfold MaxTableSize in Hsz.
  rewrite u16_id by (unfold is_u16; lia). set (id := m_next_linear_id t) in *.
  assert (Hi15 : is_15 i) by (unfold is_15; lia).
  assert (Hl15 : is_15 id) by (unfold is_15, MinLinearId, MaxLinearId in *; lia).
  assert (Hi' : 0 ≤ i < m_table_size t') by lia.
  destruct (EncodeHandle_fields i id Hi15 Hl15) as (Ei & El & Er).
  destruct (set_entry_run t' fl i id obj W Hi' Hni Hid Hno) as (t3 & Es & W3 & L3 & S3 & C3 & _).
  destruct (FreeEntry_run t' fl i W Hi' Hni) as (t4 & Ef & W4 & L4 & _ & C4 & _).
  exists (EncodeHandle i id), t', t3, t4, (set_object obj (MkObject (n + 1) tok) st).
  rewrite Ei, El, Er, (u16_id id) by (unfold is_u16, is_15 in *; lia).
  assert (Hid0 : id ≠ 0) by (unfold MinLinearId in Hid; lia).
  rewrite Z.eqb_refl, (proj2 (Z.eqb_neq id 0) Hid0), (proj2 (Z.ltb_lt i _)) by lia. cbn [negb]. pstep.
  rewrite (arr_get_ok _ _ _ (proj1 Hi') (objects_at t' fl W _ Hi')), Hno. pstep.
  rewrite Es, Ef. pstep. rewrite (Open_run st obj n tok Hobj Hn). pstep.
  assert (Hnone : ∀ h, HandlePack_index h = i → lookup_handle t' h = None).
  { intros h Hh. unfold lookup_handle. rewrite Hh, Hno. by case_match. }
  split_and!; [done|by eexists|done|by apply Hnone|done|done|done|by eexists| |lia|].
  - intros h'. rewrite L4, <- Hl. case_decide; [by rewrite Hnone|done].
  - destruct (tw_chain _ _ W4) as [E _]. congruence.
Qed.

(** ** Stale handles *)
Lemma EncodeHandle_linear_id i l : is_15 l → HandlePack_linear_id (EncodeHandle i l) = l.
Proof.
  intros Hl. unfold HandlePack_linear_id, EncodeHandle. rewrite BitField_Extract_Assign_ne by lia.
  apply BitField_Extract_Assign; [lia..|done].
Qed.

(** A handle is handed out by [Add] and by [Reserve]. *)
Inductive hands_out : KHandleTable → Z → KHandleTable → Prop :=
| out_add ok t out obj st h t' st' :
    KHandleTable_Add t out obj st = Done ok (ResultSuccess, h, t', st') → hands_out t h t'
| out_reserve ok t out h t' :
    KHandleTable_Reserve t out = Done ok (ResultSuccess, h, t') → hands_out t h t'.

(** One operation of the table, and whether it handed out a handle; the handles it
    registers satisfy [P]. *)
Inductive ht_step (P : Z → Prop) : Z → KHandleTable → KHandleTable → Prop :=
| step_out t h t' : hands_out t h t' → ht_step P 1 t t'
| step_add_full ok t out obj st r h t' st' :
    KHandleTable_Add t out obj st = Done ok (r, h, t', st') → r ≠ ResultSuccess → ht_step P 0 t t'
| step_reserve_full ok t out r h t' :
    KHandleTable_Reserve t out = Done ok (r, h, t') → r ≠ ResultSuccess → ht_step P 0 t t'
| step_unreserve ok t h t' : KHandleTable_Unreserve t h = Done ok t' → ht_step P 0 t t'
| step_register ok t h obj st t' st' : P h →
    KHandleTable_Register t h obj st = Done ok (t', st') → ht_step P 0 t t'
| step_remove ok Destroy t h st r t' st' :
    KHandleTable_Remove Destroy t h st = Done ok (r, t', st') → ht_step P 0 t t'.

Inductive ht_steps (P : Z → Prop) : Z → KHandleTable → KHandleTable → Prop :=
| steps_refl t : ht_steps P 0 t t
| steps_step n k t t' t'' : ht_step P k t t' → ht_steps P n t' t'' → ht_steps P (k + n) t t''.

(** The serial number after [n] allocations. *)
Definition id_after (id n : Z) : Z := 1 + (id - 1 + n) mod 0x7FFF.

Lemma next_id_eq id : MinLinearId ≤ id ≤ MaxLinearId →
  (if MaxLinearId <? u16 (id + 1) then MinLinearId else u16 (id + 1)) = id_after id 1.
Proof.
  intros Hid. unfold id_after, MinLinearId, MaxLinearId in *. rewrite u16_id by (unfold is_u16; lia).
  destruct (_ <? _) eqn:E; bool_prop; [by replace id with 0x7FFF by lia|]. rewrite Z.mod_small; lia.
Qed.

Lemma AllocateEntry_id ok t i t' :
  KHandleTable_AllocateEntry t = Done ok (i, t') → m_next_linear_id t' = m_next_linear_id t.
Proof. unfold KHandleTable_AllocateEntry. intros E. by prog_inv. Qed.
Lemma FreeEntry_id ok t i t' :
  KHandleTable_FreeEntry t i = Done ok t' → m_next_linear_id t' = m_next_linear_id t.
Proof. unfold KHandleTable_FreeEntry. intros E. by prog_inv. Qed.
Lemma set_entry_id ok t i id obj t' :
  set_entry t i id obj = Done ok t' → m_next_linear_id t' = m_next_linear_id t.
Proof. unfold set_entry. intros E. by prog_inv. Qed.
Lemma AllocateLinearId_id t id t' :
  KHandleTable_AllocateLinearId t = (id, t') → MinLinearId ≤ m_next_linear_id t ≤ MaxLinearId →
  id = m_next_linear_id t ∧ m_next_linear_id t' = id_after (m_next_linear_id t) 1.
Proof.
  unfold KHandleTable_AllocateLinearId. intros [= <- <-] Hid. split; [done|]. by apply next_id_eq.
Qed.

Lemma out_id t h t' : hands_out t h t' → MinLinearId ≤ m_next_linear_id t ≤ MaxLinearId →
  HandlePack_linear_id h = m_next_linear_id t ∧ m_next_linear_id t' = id_after (m_next_linear_id t) 1.
Proof.
  intros Hout Hid. assert (is_15 (m_next_linear_id t)) by (unfold is_15, MinLinearId, MaxLinearId in *; lia).
  destruct Hout as [ok t out obj st h t' st' E|ok t out h t' E].
  - unfold KHandleTable_Add in E. prog_inv; [done|].
    match goal with H : KHandleTable_AllocateLinearId t = _ |- _ =>
      apply AllocateLinearId_id in H as [-> N]; [|done] end.
    match goal with H : KHandleTable_AllocateEntry _ = _ |- _ => apply AllocateEntry_id in H end.
    match goal with H : set_entry _ _ _ _ = _ |- _ => apply set_entry_id in H end.
    split; [by apply EncodeHandle_linear_id|congruence].
  - unfold KHandleTable_Reserve in E. prog_inv; [done|].
    match goal with H : KHandleTable_AllocateEntry _ = _ |- _ => apply AllocateEntry_id in H as HE end.
    match goal with H : KHandleTable_AllocateLinearId _ = _ |- _ =>
      apply AllocateLinearId_id in H as [-> N]; [|by rewrite HE] end.
    rewrite HE in *. split; [by apply EncodeHandle_linear_id|done].
Qed.

Lemma step_id P k t t' :
  ht_step P k t t' → MinLinearId ≤ m_next_linear_id t ≤ MaxLinearId →
  m_next_linear_id t' = id_after (m_next_linear_id t) k ∧ (k = 0 ∨ k = 1).
Proof.
  intros Hst Hid.
  assert (H0 : id_after (m_next_linear_id t) 0 = m_next_linear_id t).
  { unfold id_after, MinLinearId, MaxLinearId in *. rewrite Z.mod_small; lia. }
  destruct Hst as [t h t' E|ok t out obj st r h t' st' E Hr|ok t out r h t' E Hr
    |ok t h t' E|ok t h obj st t' st' _ E|ok D t h st r t' st' E]; (split; [|by auto]); rewrite ?H0.
  - by apply (out_id _ _ _ E).
  - unfold KHandleTable_Add in E. by prog_inv.
  - unfold KHandleTable_Reserve in E. by prog_inv.
  - unfold KHandleTable_Unreserve in E. prog_inv; [|done]. by apply FreeEntry_id in E.
  - unfold KHandleTable_Register in E. prog_inv; [|done].
    match goal with H : set_entry _ _ _ _ = _ |- _ => by apply set_entry_id in H end.
  - unfold KHandleTable_Remove in E. prog_inv; try done.
    match goal with H : KHandleTable_FreeEntry _ _ = _ |- _ => by apply FreeEntry_id in H end.
Qed.

Lemma id_after_range id n : MinLinearId ≤ id_after id n ≤ MaxLinearId.
Proof.
  unfold id_after, MinLinearId, MaxLinearId. pose proof (Z.mod_pos_bound (id - 1 + n) 0x7FFF). lia.
Qed.

Lemma id_after_add id m n : id_after (id_after id m) n = id_after id (m + n).
Proof.
  unfold id_after. f_equal. replace (1 + (id - 1 + m) mod 32767 - 1) with ((id - 1 + m) mod 32767) by lia.
  rewrite Zplus_mod_idemp_l. f_equal. lia.
Qed.

Lemma steps_id P n t t' :
  ht_steps P n t t' → MinLinearId ≤ m_next_linear_id t ≤ MaxLinearId →
  m_next_linear_id t' = id_after (m_next_linear_id t) n ∧ 0 ≤ n.
Proof.
  induction 1 as [t|n k t t1 t2 Hk Hs IH]; intros Hid.
  - split; [|lia]. unfold id_after, MinLinearId, MaxLinearId in *. rewrite Z.mod_small; lia.
  - destruct (step_id P k t t1 Hk Hid) as [E Hk01].
    destruct IH as [E2 Hn]; [rewrite E; apply id_after_range|].
    rewrite E2, E, id_after_add. split; [done|lia].
Qed.

Lemma id_after_ne id n : MinLinearId ≤ id ≤ MaxLinearId → 0 < n ≤ 0x7FFE → id_after id n ≠ id.
Proof.
  unfold id_after, MinLinearId, MaxLinearId. intros Hid Hn E.
  pose proof (Z.div_mod (id - 1 + n) 32767 ltac:(lia)) as Hd.
  replace ((id - 1 + n) mod 32767) with (id - 1) in Hd by lia. lia.
Qed.

(** A handle of another entry, or of another time. *)
Definition other_handle (h h' : Z) : Prop :=
  HandlePack_index h' ≠ HandlePack_index h ∨ HandlePack_linear_id h' ≠ HandlePack_linear_id h.

Lemma set_entry_none ok t i id obj t' h :
  set_entry t i id obj = Done ok t' → lookup_handle t h = None →
  HandlePack_index h ≠ i ∨ HandlePack_linear_id h ≠ id → lookup_handle t' h = None.
Proof.
  unfold set_entry, arr_set. intros E Hn Hne. prog_inv; try done. unfold lookup_handle, object_at in *. cbn.
  destruct (fields_range h) as [[Hi _] _]. bool_prop.
  destruct (decide (HandlePack_index h = i)) as [<-|Hd].
  - destruct Hne as [?|Hne]; [done|]. rewrite list_lookup_insert_eq by lia.
    by rewrite (bool_decide_false (Some _ = _)), andb_false_r by congruence.
  - by rewrite !list_lookup_insert_ne by lia.
Qed.

Lemma FreeEntry_none ok t i t' h :
  KHandleTable_FreeEntry t i = Done ok t' → lookup_handle t h = None → lookup_handle t' h = None.
Proof.
  unfold KHandleTable_FreeEntry, arr_set. intros E Hn. prog_inv; try done.
  unfold lookup_handle, object_at in *. cbn. destruct (fields_range h) as [[Hi _] _]. bool_prop.
  destruct (decide (HandlePack_index h = i)) as [<-|Hd].
  - rewrite (list_lookup_insert_eq (m_objects t)) by lia. clear Hn. by case_match.
  - by rewrite !list_lookup_insert_ne by lia.
Qed.

Lemma AllocateEntry_same ok t i t' h :
  KHandleTable_AllocateEntry t = Done ok (i, t') → lookup_handle t' h = lookup_handle t h.
Proof. unfold KHandleTable_AllocateEntry. intros E. prog_inv. by apply lookup_handle_same. Qed.

Lemma AllocateLinearId_same t id t' h :
  KHandleTable_AllocateLinearId t = (id, t') → lookup_handle t' h = lookup_handle t h.
Proof. unfold KHandleTable_AllocateLinearId. intros [= _ <-]. by apply lookup_handle_same. Qed.

Lemma out_none t h' t' h : hands_out t h' t' → MinLinearId ≤ m_next_linear_id t ≤ MaxLinearId →
  HandlePack_linear_id h ≠ m_next_linear_id t → lookup_handle t h = None → lookup_handle t' h = None.
Proof.
  intros Hout Hid Hne Hn. destruct Hout as [ok t out obj st h' t' st' E|ok t out h' t' E].
  - unfold KHandleTable_Add in E. prog_inv; [done|].
    match goal with H : KHandleTable_AllocateLinearId t = _ |- _ =>
      pose proof (AllocateLinearId_same _ _ _ h H); apply AllocateLinearId_id in H as [-> _]; [|done] end.
    match goal with H : KHandleTable_AllocateEntry _ = _ |- _ => apply (AllocateEntry_same _ _ _ _ h) in H end.
    match goal with H : set_entry _ _ _ _ = _ |- _ => eapply set_entry_none; [exact H|congruence|by right] end.
  - unfold KHandleTable_Reserve in E. prog_inv; [done|].
    match goal with H : KHandleTable_AllocateLinearId _ = _ |- _ => rewrite (AllocateLinearId_same _ _ _ h H) end.
    match goal with H : KHandleTable_AllocateEntry _ = _ |- _ => by rewrite (AllocateEntry_same _ _ _ _ h H) end.
Qed.

Lemma step_none k t t' h :
  ht_step (other_handle h) k t t' → MinLinearId ≤ m_next_linear_id t ≤ MaxLinearId →
  (k = 1 → HandlePack_linear_id h ≠ m_next_linear_id t) → lookup_handle t h = None → lookup_handle t' h = None.
Proof.
  intros Hst Hid Hne Hn.
  destruct Hst as [t h' t' E|ok t out obj st r h' t' st' E Hr|ok t out r h' t' E Hr
    |ok t h' t' E|ok t h' obj st t' st' Ho E|ok D t h' st r t' st' E].
  - by apply (out_none t h'); [..|apply Hne|].
  - unfold KHandleTable_Add in E. by prog_inv.
  - unfold KHandleTable_Reserve in E. by prog_inv.
  - unfold KHandleTable_Unreserve in E. prog_inv; [|done]. by eapply FreeEntry_none.
  - unfold KHandleTable_Register in E. prog_inv; [|done].
    match goal with H : set_entry _ _ _ _ = _ |- _ => eapply set_entry_none; [exact H|done|] end.
    destruct (fields_range h') as [_ Hl]. unfold is_15 in Hl. rewrite u16_id by (unfold is_u16; lia).
    destruct Ho as [Ho|Ho]; [left|right]; congruence.
  - unfold KHandleTable_Remove in E. prog_inv; try done.
    match goal with H : KHandleTable_FreeEntry _ _ = _ |- _ => by eapply FreeEntry_none in H end.
Qed.

Lemma steps_none id n m t t' h : ht_steps (other_handle h) m t t' → MinLinearId ≤ id ≤ MaxLinearId →
  m_next_linear_id t = id_after id n → HandlePack_linear_id h = id → 0 < n → n + m ≤ 0x7FFE + 1 →
  lookup_handle t h = None → lookup_handle t' h = None.
Proof.
  intros Hs Hid. revert n. induction Hs as [t|m k t t1 t2 Hk Hs IH]; intros n E El Hn Hb Hno; [done|].
  assert (Hr : MinLinearId ≤ m_next_linear_id t ≤ MaxLinearId) by (rewrite E; apply id_after_range).
  destruct (step_id _ k t t1 Hk Hr) as [E1 Hk01]. pose proof (steps_id _ _ _ _ Hs) as Hm.
  destruct Hm as [_ Hm]; [rewrite E1; apply id_after_range|].
  apply (IH (n + k)); [by rewrite E1, E, id_after_add|done|lia|lia|].
  apply (step_none k t t1 h Hk Hr); [|done]. intros ->. rewrite E, El. intros E2. by apply (id_after_ne id n); [|lia|].
Qed.

(** C33: a handle that was handed out, by [Add] or [Reserve], and is closed at some
    time stays closed: while fewer than 32766 others are handed out, whatever is
    added, reserved, unreserved, removed and registered, it names no object as long
    as no handle of the same entry and serial number is registered (which
    [Register] would do), and neither [Add] nor [Reserve] hands out the same number
    again. *)
Theorem KHandleTable_handles_not_reused t h t1 n t2 m t3 :
  MinLinearId ≤ m_next_linear_id t ≤ MaxLinearId →
  hands_out t h t1 → ht_steps (λ _, True) n t1 t2 → lookup_handle t2 h = None →
  ht_steps (other_handle h) m t2 t3 → n + m < 0x7FFE →
  lookup_handle t3 h = None ∧ ∀ h' t4, hands_out t3 h' t4 → h' ≠ h.
Proof.
  intros Hid Hout Hs1 Hno Hs2 Hb. destruct (out_id _ _ _ Hout Hid) as [L1 N1].
  destruct (steps_id _ n t1 t2 Hs1) as [N2 Hn]; [rewrite N1; apply id_after_range|].
  destruct (steps_id _ m t2 t3 Hs2) as [N3 Hm]; [rewrite N2; apply id_after_range|].
  rewrite N1, id_after_add in N2. rewrite N2, id_after_add in N3. split.
  - apply (steps_none (m_next_linear_id t) (1 + n) m t2 t3 h); (done || lia).
  - intros h' t4 Hout' ->. destruct (out_id _ _ _ Hout') as [L2 _]; [rewrite N3; apply id_after_range|].
    rewrite L1, N3 in L2. by apply (id_after_ne (m_next_linear_id t) (1 + n + m)); [|lia|].
Qed.

(** ** Initialize *)

(** The table while [Initialize] frees the entries below [i]. *)
Record partial (t : KHandleTable) (size i : Z) : Prop := {
  pt_infos : length (m_entry_infos t) = Z.to_nat MaxTableSize;
  pt_objects : length (m_objects t) = Z.to_nat MaxTableSize;
  pt_links j : 0 ≤ j < i →
    m_entry_infos t !! Z.to_nat j = Some (u16 (j - 1)) ∧ object_at t j = None;
  pt_head : m_free_head_index t = i - 1;
  pt_size : m_table_size t = size;
  pt_counts : m_count t = 0 ∧ m_max_count t = 0 ∧ m_next_linear_id t = MinLinearId
}.

Lemma free_all_entries_run n : ∀ t size i,
  partial t size i → 0 ≤ i → i + Z.of_nat n ≤ MaxTableSize →
  ∃ t', free_all_entries n i t = Done true t' ∧ partial t' size (i + Z.of_nat n).
Proof.
  unfold MaxTableSize. induction n as [|n IH]; intros t size i [P1 P2 P3 P4 P5 P6] Hi Hn;
    cbn [free_all_entries]; [exists t; rewrite Z.add_0_r; done|].
  unfold MaxTableSize in *.
  rewrite (arr_set_run (m_objects t)) by (rewrite P2; lia). pstep.
  rewrite (arr_set_run (m_entry_infos t)) by (rewrite P1; lia). pstep.
  set (t1 := MkTable _ _ _ _ _ _ _). destruct (IH t1 size (i + 1)) as (t' & -> & Hp); [|lia|lia|].
  - split; simpl; try done; [by rewrite length_insert..| |lia]. intros j Hj.
    unfold t1. rewrite object_at_insert by (rewrite ?P2; lia). destruct (decide (j = i)) as [->|].
    + by rewrite list_lookup_insert_eq by (rewrite P1; lia).
    + rewrite list_lookup_insert_ne by lia. apply P3. lia.
  - exists t'. split; [done|]. by replace (i + Z.of_nat (S n)) with (i + 1 + Z.of_nat n) by lia.
Qed.

Lemma partial_chain t size n :
  partial t size (Z.of_nat n) →
  ∀ k, (k ≤ n)%nat → Z.of_nat n ≤ MaxTableSize →
  chain (m_entry_infos t) (Z.of_nat k - 1) (reverse (seqZ 0 (Z.of_nat k))).
Proof.
  intros Hp k. induction k as [|k IH]; intros Hk Hn; [done|].
  rewrite seqZ_S, reverse_snoc. cbn [chain].
  destruct (pt_links _ _ _ Hp (Z.of_nat k)) as [E _]; [lia|]. unfold MaxTableSize in Hn.
  split; [lia|]. replace (0 + Z.of_nat k) with (Z.of_nat k) by lia.
  exists (u16 (Z.of_nat k - 1)). split; [done|]. rewrite s16_u16 by lia. apply IH; [lia|done].
Qed.

(** [Initialize] makes an empty table of the size asked for (1024 entries
    when the size is not positive), all of them free, or refuses the size. *)
Theorem KHandleTable_Initialize_correct t size :
  length (m_entry_infos t) = Z.to_nat MaxTableSize →
  length (m_objects t) = Z.to_nat MaxTableSize → - 2 ^ 31 ≤ size < 2 ^ 31 →
  wp (KHandleTable_Initialize t size) (λ '(r, t'),
    if decide (size ≤ MaxTableSize) then
      r = ResultSuccess ∧ table_ok t' ∧ m_count t' = 0 ∧
      m_table_size t' = (if decide (0 < size) then size else MaxTableSize) ∧
      ∀ h, lookup_handle t' h = None
    else r = ResultOutOfMemory ∧ t' = t).
Proof.
  intros Hli Hlo Hs. unfold KHandleTable_Initialize, MaxTableSize in *.
  destruct (size <=? 1024) eqn:E; bool_prop; cbn [negb]; [|simpl; case_decide; [lia|done]].
  set (sz := u16 _).
  assert (Esz : sz = if decide (0 < size) then size else 1024).
  { unfold sz. destruct (size <=? 0) eqn:E0; bool_prop; [by rewrite decide_False by lia|].
    rewrite decide_True by lia. apply u16_id. unfold is_u16. lia. }
  assert (Hsz : 0 < sz ≤ 1024) by (rewrite Esz; case_decide; lia). clearbody sz.
  set (t0 := MkTable _ _ _ _ _ _ _).
  destruct (free_all_entries_run (Z.to_nat sz) t0 sz 0) as (t' & -> & Hp); [|lia|unfold MaxTableSize; lia|].
  { split; simpl; try done. intros j Hj. lia. }
  pstep. apply wp_ret. cbv beta iota. rewrite (decide_True (P := size ≤ 1024)), <- Esz by done.
  rewrite Z.add_0_l in Hp. pose proof (partial_chain t' sz _ Hp (Z.to_nat sz)) as Hch.
  rewrite Z2Nat.id in Hch by lia. rewrite Z2Nat.id in Hp by lia.
  destruct Hp as [P1 P2 P3 P4 P5 (P6 & P7 & P8)].
  split_and!; [done| |done|done|].
  - exists (reverse (seqZ 0 sz)). split; try done.
    + unfold MaxTableSize. lia.
    + rewrite P4. apply Hch; [done|unfold MaxTableSize; lia].
    + rewrite reverse_Permutation; apply NoDup_seqZ.
    + intros i Hi%elem_of_reverse%elem_of_seqZ. split; [lia|]. apply P3. lia.
    + rewrite length_reverse, length_seqZ. lia.
    + lia.
    + rewrite P8. unfold MinLinearId, MaxLinearId. lia.
  - intros h. destruct (lookup_handle t' h) as [p|] eqn:El; [|done].
    destruct (lookup_handle_Some t' h p El) as (_ & _ & Hi & _ & Ho).
    destruct (P3 (HandlePack_index h)) as [_ ?]; [lia|congruence].
Qed.

(** ** GetMultipleObjects *)
Definition inc_ref (o : AutoObject) : AutoObject := MkObject (m_ref_count o + 1) (m_class_token o).
Definition bump (p : Z) (st : ObjectStore) : ObjectStore :=
  MkStore (alter inc_ref p (os_objects st)) (os_registered st) (os_in_use st).
Definition bumps (l : list Z) (st : ObjectStore) : ObjectStore := foldl (flip bump) st l.

Lemma bump_comm p q st : bump p (bump q st) = bump q (bump p st).
Proof.
  unfold bump. simpl. f_equal. destruct (decide (p = q)) as [->|]; [done|].
  by rewrite alter_alter_ne.
Qed.

Lemma bumps_bump l p : ∀ st, bumps l (bump p st) = bump p (bumps l st).
Proof. induction l as [|q l IH]; intros st; [done|]. simpl. by rewrite bump_comm, IH. Qed.

(** The objects the table refers to are alive, and have room for [k] more
    references. *)
Definition refs_ok (t : KHandleTable) (k : Z) (st : ObjectStore) : Prop :=
  ∀ h p, lookup_handle t h = Some p →
    ∃ o, os_objects st !! p = Some o ∧ 0 < m_ref_count o ∧ m_ref_count o + k < 2 ^ 32.

Definition lookup_cast (t : KHandleTable) (st : ObjectStore) (T : KClass) (h : Z) : option Z :=
  p ← lookup_handle t h; o ← os_objects st !! p;
  if IsClassTokenDerivedFrom (m_class_token o) (ClassToken T) then Some p else None.

Lemma lookup_bump p q st o :
  os_objects st !! q = Some o →
  ∃ o', os_objects (bump p st) !! q = Some o' ∧ m_class_token o' = m_class_token o ∧
        m_ref_count o ≤ m_ref_count o' ≤ m_ref_count o + 1.
Proof.
  intros Hq. unfold bump. simpl. destruct (decide (p = q)) as [->|].
  - rewrite lookup_alter_eq, Hq. simpl. eexists. split; [done|]. simpl. lia.
  - rewrite lookup_alter_ne, Hq by done. eexists. split; [done|]. lia.
Qed.

Lemma refs_ok_bump t k p st : refs_ok t k st → refs_ok t (k - 1) (bump p st).
Proof.
  intros Hr h q Hq. destruct (Hr h q Hq) as (o & Ho & ? & ?).
  destruct (lookup_bump p q st o Ho) as (o' & -> & _ & ?). eexists. split; [done|]. lia.
Qed.

Lemma lookup_cast_bump t st T h p : lookup_cast t (bump p st) T h = lookup_cast t st T h.
Proof.
  unfold lookup_cast. destruct (lookup_handle t h) as [q|]; [|done]. simpl.
  destruct (decide (p = q)) as [->|]; [rewrite lookup_alter_eq|by rewrite lookup_alter_ne].
  by destruct (os_objects st !! q).
Qed.

Lemma Open_bump p st o :
  os_objects st !! p = Some o → 0 < m_ref_count o → m_ref_count o + 1 < 2 ^ 32 →
  KAutoObject_Open p st = Done true (true, bump p st).
Proof.
  intros Hp H1 H2. destruct o as [n tok]. simpl in *. rewrite (Open_run st p n tok) by done || lia.
  unfold bump, set_object. do 3 f_equal. apply map_eq. intros q. destruct (decide (p = q)) as [->|].
  - by rewrite lookup_alter_eq, lookup_insert_eq, Hp.
  - by rewrite lookup_alter_ne, lookup_insert_ne.
Qed.

Lemma Close_bump Destroy p st o :
  os_objects st !! p = Some o → 0 < m_ref_count o → m_ref_count o + 1 < 2 ^ 32 →
  KAutoObject_Close Destroy p (bump p st) = Done true st.
Proof.
  intros Hp H1 H2. unfold KAutoObject_Close, bump, ASSERT. cbn [os_objects].
  rewrite lookup_alter_eq, Hp. simpl. pstep. simpl.
  rewrite (proj2 (Z.eqb_neq _ 0)), (proj2 (Z.eqb_neq _ 1)), (proj2 (Z.ltb_lt 0 _)) by lia. pstep.
  rewrite u32_id by (unfold is_u32; lia). unfold set_object. simpl. destruct st as [objs reg use].
  simpl in *. repeat f_equal. apply map_eq. intros q. destruct (decide (p = q)) as [->|].
  - rewrite lookup_insert_eq, Hp. destruct o. simpl. do 2 f_equal. lia.
  - by rewrite lookup_insert_ne, lookup_alter_ne.
Qed.

Lemma open_handles_run T t fl handles : table_wf t fl → ∀ st,
  refs_ok t (Z.of_nat (length handles)) st →
  ∃ out, open_handles T t handles st = Done true (out, bumps out st) ∧
    (length out ≤ length handles)%nat ∧ Forall (λ p, ∃ h, lookup_handle t h = Some p) out ∧
    (length out = length handles → Forall2 (λ h p, lookup_cast t st T h = Some p) handles out) ∧
    (length out ≠ length handles → Exists (λ h, lookup_cast t st T h = None) handles).
Proof.
  intros Hwf. induction handles as [|h handles IH]; intros st Hr; cbn [open_handles].
  { exists []. split_and!; [done|done|done|by constructor|done]. }
  rewrite (GetObjectImpl_run t fl Hwf h). pstep.
  destruct (lookup_handle t h) as [p|] eqn:El.
  2:{ exists []. split_and!; [done|simpl; lia|done|done|]. intros _. left. unfold lookup_cast. by rewrite El. }
  destruct (Hr h p El) as (o & Ho & H1 & H2). unfold KAutoObject_DynamicCast, KAutoObject_IsDerivedFrom.
  rewrite Ho. pstep. destruct (IsClassTokenDerivedFrom _ _) eqn:Ed.
  2:{ exists []. split_and!; [done|simpl; lia|done|done|]. intros _. left. unfold lookup_cast. rewrite El.
      simpl. rewrite Ho. simpl. by rewrite Ed. }
  simpl length in *. rewrite (Open_bump p st o) by done || lia. pstep.
  destruct (IH (bump p st)) as (out & -> & Hlen & Hall & Hgood & Hbad).
  { replace (Z.of_nat (length handles)) with (Z.of_nat (S (length handles)) - 1) by lia.
    by apply refs_ok_bump. }
  pstep. exists (p :: out). simpl. split_and!; [done|lia| | |].
  - constructor; [eauto|done].
  - intros [= E]. constructor.
    + unfold lookup_cast. rewrite El. simpl. rewrite Ho. simpl. by rewrite Ed.
    + eapply Forall2_impl; [by apply Hgood|]. intros h' q Hq. by rewrite <- (lookup_cast_bump _ _ _ _ p).
  - intros Hne. right. eapply Exists_impl; [apply Hbad; lia|]. intros h' Hq. by rewrite <- (lookup_cast_bump _ _ _ _ p).
Qed.

Lemma close_all_bumps Destroy t out : ∀ st,
  refs_ok t (Z.of_nat (length out)) st → Forall (λ p, ∃ h, lookup_handle t h = Some p) out →
  close_all Destroy (map Some out) (bumps out st) = Done true st.
Proof.
  induction out as [|p out IH]; intros st Hr Hall; [done|].
  apply Forall_cons in Hall as [[h Hh] Hall]. simpl. unfold flip. rewrite bumps_bump.
  assert (Hlive : ∀ l st, refs_ok t (Z.of_nat (S (length l))) st →
    ∃ o, os_objects (bumps l st) !! p = Some o ∧ 0 < m_ref_count o ∧ m_ref_count o + 1 < 2 ^ 32).
  { clear -Hh. induction l as [|q l IHl]; intros st Hr.
    - destruct (Hr h p Hh) as (o & ? & ? & ?). exists o. simpl in *. split_and!; [done|lia..].
    - simpl. unfold flip. apply IHl. replace (Z.of_nat (S (length l))) with
        (Z.of_nat (S (length (q :: l))) - 1) by (simpl; lia). by apply refs_ok_bump. }
  destruct (Hlive out st Hr) as (o & Ho & H1 & H2).
  rewrite (Close_bump Destroy p (bumps out st) o) by done. pstep. apply IH; [|done].
  intros h' q Hq. destruct (Hr h' q Hq) as (o' & ? & ? & ?). exists o'. simpl in *. split_and!; [done|lia..].
Qed.

(** looking up several handles at once takes a reference to every object
    and succeeds when all handles are valid and of the class asked for;
    otherwise it fails and no reference count has changed. *)
Theorem KHandleTable_GetMultipleObjects_correct Destroy T t handles st :
  table_ok t → refs_ok t (Z.of_nat (length handles)) st →
  wp (KHandleTable_GetMultipleObjects Destroy T t handles st) (λ '(r, out, st'),
    if r : bool then
      Forall2 (λ h p, lookup_cast t st T h = Some p) handles out ∧ st' = bumps out st
    else Exists (λ h, lookup_cast t st T h = None) handles ∧ st' = st).
Proof.
  intros [fl Hwf] Hr. unfold KHandleTable_GetMultipleObjects.
  destruct (open_handles_run T t fl handles Hwf st Hr) as (out & -> & Hlen & Hall & Hgood & Hbad).
  pstep. destruct (_ =? _) eqn:E; bool_prop; pstep.
  - split; [apply Hgood; lia|done].
  - rewrite (close_all_bumps Destroy t out st); [|intros h p Hp|done].
    + pstep. split; [apply Hbad; lia|done].
    + destruct (Hr h p Hp) as (o & ? & ? & ?). exists o. split_and!; [done|lia..].
Qed.
