(* ===== verification/HandleTableExamples.v ===== *)
(** * KAutoObject and KHandleTable on concrete objects

    Two objects and a table of four entries, and the theorems at these inputs. *)

From stdpp Require Import gmap.
From S2P Require Import Prelude Common AutoObject HandleTable HandleTableTheorems.

Definition ex_store : ObjectStore :=
  MkStore {[0x1000 := MkObject 1 (ClassToken KThread); 0x2000 := MkObject 1 (ClassToken KEvent)]}
    {[0x1000; 0x2000]} ∅.
Definition ex_destroy (p : Z) (st : ObjectStore) : ObjectStore := UnregisterInUseObject p st.

Definition ex_ops : list bool := [true; true; false; true; false; false].

Lemma KAutoObject_reference_counting_witness :
  ref_ops ex_destroy 0x1000 ex_ops ex_store =
    Done true (set_object 0x1000 (MkObject 1 (ClassToken KThread)) ex_store) ∧
  (1 = 1 → ref_ops ex_destroy 0x1000 (ex_ops ++ false :: [true; false]) ex_store =
    Done true (UnregisterKernelObject 0x1000 (ex_destroy 0x1000
      (set_object 0x1000 (MkObject 0 (ClassToken KThread)) ex_store)))).
Proof.
  apply (KAutoObject_reference_counting ex_destroy 0x1000 ex_store (ClassToken KThread) ex_ops 1
           [true; false]); [reflexivity|reflexivity|reflexivity|reflexivity].
Defined.

(** ** A table of four entries *)
Definition ex_table : KHandleTable := (result (0, KHandleTable_new) (KHandleTable_Initialize KHandleTable_new 4)).2.

Ltac chain_link e :=
  cbn [chain]; split; [vm_compute; reflexivity|]; exists e; split; [vm_compute; reflexivity|].

Lemma ex_table_wf : table_wf ex_table [3; 2; 1; 0].
Proof.
  split.
  - vm_compute. reflexivity.
  - vm_compute. reflexivity.
  - vm_compute. split; congruence.
  - chain_link 2. chain_link 1. chain_link 0. chain_link 65535. vm_compute. reflexivity.
  - repeat (constructor; [set_solver by lia|]). constructor.
  - intros i Hi. repeat (apply elem_of_cons in Hi as [->|Hi]); [..|by apply elem_of_nil in Hi];
      (split; [vm_compute; split; congruence|vm_compute; reflexivity]).
  - reflexivity.
  - vm_compute. split; congruence.
  - vm_compute. split; congruence.
Qed.

Lemma ex_table_ok : table_ok ex_table.
Proof. exists [3; 2; 1; 0]. apply ex_table_wf. Qed.

Lemma ex_object : os_objects ex_store !! 0x1000 = Some (MkObject 1 (ClassToken KThread)).
Proof. reflexivity. Qed.

Lemma KHandleTable_Initialize_correct_witness :
  wp (KHandleTable_Initialize KHandleTable_new 4) (λ '(r, t'),
    if decide (4 ≤ MaxTableSize) then
      r = ResultSuccess ∧ table_ok t' ∧ m_count t' = 0 ∧
      m_table_size t' = (if decide (0 < 4) then 4 else MaxTableSize) ∧
      ∀ h, lookup_handle t' h = None
    else r = ResultOutOfMemory ∧ t' = KHandleTable_new).
Proof.
  apply KHandleTable_Initialize_correct;
    [apply length_replicate|apply length_replicate|lia].
Defined.

Lemma KHandleTable_Add_correct_witness :
  wp (KHandleTable_Add ex_table 0 0x1000 ex_store) (λ '(r, h, t', st'),
    table_ok t' ∧
    if decide (m_count ex_table < m_table_size ex_table) then
      r = ResultSuccess ∧ 0 < h < 2 ^ 30 ∧ lookup_handle ex_table h = None ∧
      (∀ h', is_u32 h' →
         lookup_handle t' h' = if decide (h' = h) then Some 0x1000 else lookup_handle ex_table h') ∧
      m_count t' = m_count ex_table + 1 ∧
      st' = set_object 0x1000 (MkObject (1 + 1) (ClassToken KThread)) ex_store
    else r = ResultOutOfHandles ∧ h = 0 ∧ t' = ex_table ∧ st' = ex_store).
Proof.
  apply KHandleTable_Add_correct; [apply ex_table_ok|apply ex_object|lia].
Defined.

(** The table with the thread added: its handle is (3, 1). *)
Definition ex_added : Z * Z * KHandleTable * ObjectStore :=
  result (0, 0, KHandleTable_new, ex_store) (KHandleTable_Add ex_table 0 0x1000 ex_store).
Definition ex_handle : Z := ex_added.1.1.2.
Definition ex_table1 : KHandleTable := ex_added.1.2.
Definition ex_store1 : ObjectStore := ex_added.2.

Example ex_handle_value : ex_handle = Z.shiftl 1 15 + 3.
Proof. vm_compute. reflexivity. Qed.

Lemma ex_table1_wf : table_wf ex_table1 [2; 1; 0].
Proof.
  split.
  - vm_compute. reflexivity.
  - vm_compute. reflexivity.
  - vm_compute. split; congruence.
  - chain_link 1. chain_link 0. chain_link 65535. vm_compute. reflexivity.
  - repeat (constructor; [set_solver by lia|]). constructor.
  - intros i Hi. repeat (apply elem_of_cons in Hi as [->|Hi]); [..|by apply elem_of_nil in Hi];
      (split; [vm_compute; split; congruence|vm_compute; reflexivity]).
  - reflexivity.
  - vm_compute. split; congruence.
  - vm_compute. split; congruence.
Qed.

Lemma ex_table1_objects i p : object_at ex_table1 i = Some p → p = 0x1000.
Proof.
  unfold object_at. destruct (m_objects ex_table1 !! Z.to_nat i) as [o|] eqn:E; [|done].
  intros Ho. simpl in Ho. subst o. apply list_elem_of_lookup_2 in E. revert E.
  assert (Hall : forallb (λ o, match o with Some p => p =? 0x1000 | None => true end)
                   (m_objects ex_table1) = true) by (vm_compute; reflexivity).
  rewrite forallb_forall in Hall. intros E. apply list_elem_of_In, Hall in E. by apply Z.eqb_eq in E.
Qed.

Lemma ex_refs_ok k : 0 ≤ k < 100 → refs_ok ex_table1 k ex_store1.
Proof.
  intros Hk h p Hh. destruct (lookup_handle_Some _ _ _ Hh) as (_ & _ & _ & _ & Ho).
  apply ex_table1_objects in Ho as ->. exists (MkObject 2 (ClassToken KThread)).
  split; [vm_compute; reflexivity|simpl; lia].
Qed.

Lemma KHandleTable_Remove_correct_witness :
  wp (KHandleTable_Remove ex_destroy ex_table1 ex_handle ex_store1) (λ '(r, t', st'),
    match lookup_handle ex_table1 ex_handle with
    | Some p =>
        r = true ∧ table_ok t' ∧ m_count t' = m_count ex_table1 - 1 ∧
        (∀ h', is_u32 h' → lookup_handle t' h' =
           if decide (h' = ex_handle) then None else lookup_handle ex_table1 h') ∧
        KAutoObject_Close ex_destroy p (UnregisterInUseObject p ex_store1) = Done true st'
    | None => r = false ∧ t' = ex_table1 ∧ st' = ex_store1
    end).
Proof.
  apply KHandleTable_Remove_correct.
  - exists [2; 1; 0]. apply ex_table1_wf.
  - vm_compute. split; congruence.
  - intros p Hp. destruct (ex_refs_ok 0 ltac:(lia) _ _ Hp) as (o & ? & ? & ?).
    exists o. split; [assumption|lia].
Defined.

Lemma KHandleTable_Reserve_correct_witness :
  ∃ h t1 t2 t3 st',
    KHandleTable_Reserve ex_table 0 = Done true (ResultSuccess, h, t1) ∧
    table_ok t1 ∧ (∀ h', lookup_handle t1 h' = lookup_handle ex_table h') ∧
    lookup_handle t1 h = None ∧
    KHandleTable_Register t1 h 0x1000 ex_store = Done true (t2, st') ∧
    KHandleTable_Add ex_table 0 0x1000 ex_store = Done true (ResultSuccess, h, t2, st') ∧
    KHandleTable_Unreserve t1 h = Done true t3 ∧ table_ok t3 ∧
    (∀ h', lookup_handle t3 h' = lookup_handle ex_table h') ∧
    m_count t3 = m_count ex_table ∧ m_free_head_index t3 = m_free_head_index ex_table.
Proof.
  apply (KHandleTable_Reserve_correct ex_table 0 0x1000 ex_store 1 (ClassToken KThread));
    [apply ex_table_ok|vm_compute; reflexivity|apply ex_object|lia].
Defined.

(** Removing the handle and adding the object again: same entry, other handle. *)
Definition ex_removed : bool * KHandleTable * ObjectStore :=
  result (false, KHandleTable_new, ex_store)
    (KHandleTable_Remove ex_destroy ex_table1 ex_handle ex_store1).
Definition ex_readded : Z * Z * KHandleTable * ObjectStore :=
  result (0, 0, KHandleTable_new, ex_store)
    (KHandleTable_Add ex_removed.1.2 0 0x1000 ex_removed.2).

Lemma KHandleTable_handles_not_reused_witness :
  lookup_handle ex_readded.1.2 ex_handle = None ∧ ∀ h' t4, hands_out ex_readded.1.2 h' t4 → h' ≠ ex_handle.
Proof.
  apply (KHandleTable_handles_not_reused ex_table ex_handle ex_table1 0 ex_removed.1.2 1).
  - vm_compute. split; congruence.
  - apply (out_add true ex_table 0 0x1000 ex_store ex_handle ex_table1 ex_store1). vm_compute. reflexivity.
  - apply (steps_step _ 0 0 _ ex_removed.1.2); [|apply steps_refl].
    apply (step_remove _ true ex_destroy ex_table1 ex_handle ex_store1 true _ ex_removed.2).
    vm_compute. reflexivity.
  - vm_compute. reflexivity.
  - apply (steps_step _ 0 1 _ ex_readded.1.2); [|apply steps_refl]. apply (step_out _ _ ex_readded.1.1.2).
    apply (out_add true _ 0 0x1000 ex_removed.2 _ _ ex_readded.2). vm_compute. reflexivity.
  - lia.
Defined.

(** One valid handle and one that is not. *)
Lemma KHandleTable_GetMultipleObjects_correct_witness :
  wp (KHandleTable_GetMultipleObjects ex_destroy KThread ex_table1 [ex_handle; 0x8001] ex_store1)
    (λ '(r, out, st'),
      if r : bool then
        Forall2 (λ h p, lookup_cast ex_table1 ex_store1 KThread h = Some p) [ex_handle; 0x8001] out ∧
        st' = bumps out ex_store1
      else Exists (λ h, lookup_cast ex_table1 ex_store1 KThread h = None) [ex_handle; 0x8001] ∧
           st' = ex_store1).
Proof.
  apply KHandleTable_GetMultipleObjects_correct.
  - exists [2; 1; 0]. apply ex_table1_wf.
  - apply ex_refs_ok. simpl. lia.
Defined.
