(* ===== verification/ResourceLimit.v ===== *)
(** * KResourceLimit and KScopedResourceReservation

    src/src/core/hle/kernel/k_resource_limit.cpp, k_resource_limit.h and
    k_scoped_resource_reservation.h.  The light lock makes an operation one step,
    but for the wait in [Reserve], which gives the lock up: what the other
    threads do meanwhile is an argument of the model. *)

From S2P Require Import Prelude Common.

(** [enum class LimitableResource] *)
Inductive LimitableResource : Type :=
| PhysicalMemoryMax | ThreadCountMax | EventCountMax | TransferMemoryCountMax | SessionCountMax.
Definition LimitableResource_index (which : LimitableResource) : nat :=
  match which with
  | PhysicalMemoryMax => 0 | ThreadCountMax => 1 | EventCountMax => 2
  | TransferMemoryCountMax => 3 | SessionCountMax => 4
  end.
Definition LimitableResource_Count : nat := 5.
Definition IsValidResourceType (type : Z) : bool := type <? Z.of_nat LimitableResource_Count.

Definition DefaultTimeout : Z := 10000000000.

(** overflow.h *)
Definition WrappingAdd (lhs rhs : Z) : Z := s64 (u64 (u64 lhs + u64 rhs)).

(** [+] and [-] on [s64]: signed overflow is undefined. *)
Definition add_s64 (x y : Z) : prog Z :=
  if (- 2 ^ 63 <=? x + y) && (x + y <? 2 ^ 63) then mret (x + y) else Stuck.
Definition sub_s64 (x y : Z) : prog Z :=
  if (- 2 ^ 63 <=? x - y) && (x - y <? 2 ^ 63) then mret (x - y) else Stuck.

Record KResourceLimit : Type := MkLimit {
  m_limit_values : list Z;
  m_current_values : list Z;
  m_current_hints : list Z;
  m_peak_values : list Z;
  m_waiter_count : Z
}.

Definition KResourceLimit_new : KResourceLimit :=
  MkLimit (replicate LimitableResource_Count 0) (replicate LimitableResource_Count 0)
    (replicate LimitableResource_Count 0) (replicate LimitableResource_Count 0) 0.

Definition set_waiters (f : Z → Z) (l : KResourceLimit) : KResourceLimit :=
  MkLimit (m_limit_values l) (m_current_values l) (m_current_hints l) (m_peak_values l)
    (f (m_waiter_count l)).

Section Resource.
Context (which : LimitableResource).
Let index := LimitableResource_index which.

(** ** The getters and the assertions they make *)
Definition KResourceLimit_GetLimitValue (l : KResourceLimit) : prog Z :=
  limit ← deref (m_limit_values l !! index);
  current ← deref (m_current_values l !! index);
  hint ← deref (m_current_hints l !! index);
  _ ← ASSERT (0 <=? limit); _ ← ASSERT (current <=? limit); _ ← ASSERT (hint <=? current);
  mret limit.

Definition KResourceLimit_GetCurrentValue (l : KResourceLimit) : prog Z :=
  limit ← deref (m_limit_values l !! index);
  current ← deref (m_current_values l !! index);
  hint ← deref (m_current_hints l !! index);
  _ ← ASSERT (0 <=? current); _ ← ASSERT (current <=? limit); _ ← ASSERT (hint <=? current);
  mret current.

Definition KResourceLimit_GetPeakValue (l : KResourceLimit) : prog Z :=
  limit ← deref (m_limit_values l !! index);
  current ← deref (m_current_values l !! index);
  hint ← deref (m_current_hints l !! index);
  peak ← deref (m_peak_values l !! index);
  _ ← ASSERT (0 <=? peak); _ ← ASSERT (current <=? limit); _ ← ASSERT (hint <=? current);
  mret peak.

Definition KResourceLimit_GetFreeValue (l : KResourceLimit) : prog Z :=
  limit ← deref (m_limit_values l !! index);
  current ← deref (m_current_values l !! index);
  hint ← deref (m_current_hints l !! index);
  _ ← ASSERT (0 <=? current); _ ← ASSERT (current <=? limit); _ ← ASSERT (hint <=? current);
  sub_s64 limit current.

Definition KResourceLimit_SetLimitValue (l : KResourceLimit) (value : Z)
    : prog (Z * KResourceLimit) :=
  current ← deref (m_current_values l !! index);
  if negb (current <=? value) then mret (ResultInvalidState, l)
  else mret (ResultSuccess,
             MkLimit (<[index := value]> (m_limit_values l)) (m_current_values l)
               (m_current_hints l) (<[index := current]> (m_peak_values l)) (m_waiter_count l)).

(** ** Reserve

    One turn of the loop: reserved, refused, or waiting. *)
Inductive turn : Type := Reserved | Refused | Waiting.

Definition Reserve_turn (l : KResourceLimit) (value timeout tick : Z)
    : prog (turn * KResourceLimit) :=
  limit ← deref (m_limit_values l !! index);
  current ← deref (m_current_values l !! index);
  hint ← deref (m_current_hints l !! index);
  peak ← deref (m_peak_values l !! index);
  _ ← ASSERT (current <=? limit);
  _ ← ASSERT (hint <=? current);
  if WrappingAdd current value <=? current then mret (Refused, l)
  else
    sum ← add_s64 current value;
    if sum <=? limit then
      hint' ← add_s64 hint value;
      mret (Reserved,
            MkLimit (m_limit_values l) (<[index := sum]> (m_current_values l))
              (<[index := hint']> (m_current_hints l)) (<[index := Z.max peak sum]> (m_peak_values l))
              (m_waiter_count l))
    else
      hint_sum ← add_s64 hint value;
      if (hint_sum <=? limit) && ((timeout <? 0) || (tick <? timeout))
      then mret (Waiting, l) else mret (Refused, l).

(** The waits: the hardware tick at each check, and what the other threads did
    to the limit before this one held the lock again.  [None] is a thread that
    still waits when the list ends. *)
Fixpoint Reserve_loop (waits : list (Z * (KResourceLimit → KResourceLimit))) (tick : Z)
    (l : KResourceLimit) (value timeout : Z) : prog (option bool * KResourceLimit) :=
  '(r, l) ← Reserve_turn l value timeout tick;
  match r with
  | Reserved => mret (Some true, l)
  | Refused => mret (Some false, l)
  | Waiting =>
      let l := set_waiters (λ n, n + 1) l in
      match waits with
      | [] => mret (None, l)
      | (tick, others) :: waits =>
          Reserve_loop waits tick (set_waiters (λ n, n - 1) (others l)) value timeout
      end
  end.

Definition KResourceLimit_Reserve (waits : list (Z * (KResourceLimit → KResourceLimit)))
    (tick : Z) (l : KResourceLimit) (value timeout : Z) : prog (option bool * KResourceLimit) :=
  _ ← ASSERT (0 <=? value);
  limit ← deref (m_limit_values l !! index);
  current ← deref (m_current_values l !! index);
  hint ← deref (m_current_hints l !! index);
  _ ← ASSERT (hint <=? current);
  if limit <=? hint then mret (Some false, l)
  else Reserve_loop waits tick l value timeout.

(** The overload without a timeout. *)
Definition KResourceLimit_Reserve_default (waits : list (Z * (KResourceLimit → KResourceLimit)))
    (now tick : Z) (l : KResourceLimit) (value : Z) : prog (option bool * KResourceLimit) :=
  timeout ← add_s64 now DefaultTimeout; KResourceLimit_Reserve waits tick l value timeout.

(** ** Release; the flag tells whether the waiters are woken up *)
Definition KResourceLimit_Release (l : KResourceLimit) (value hint : Z)
    : prog (bool * KResourceLimit) :=
  _ ← ASSERT (0 <=? value);
  _ ← ASSERT (0 <=? hint);
  limit ← deref (m_limit_values l !! index);
  current ← deref (m_current_values l !! index);
  cur_hint ← deref (m_current_hints l !! index);
  _ ← ASSERT (current <=? limit);
  _ ← ASSERT (cur_hint <=? current);
  _ ← ASSERT (value <=? current);
  _ ← ASSERT (hint <=? cur_hint);
  current ← sub_s64 current value;
  cur_hint ← sub_s64 cur_hint hint;
  mret (negb (m_waiter_count l =? 0),
        MkLimit (m_limit_values l) (<[index := current]> (m_current_values l))
          (<[index := cur_hint]> (m_current_hints l)) (m_peak_values l) (m_waiter_count l)).
End Resource.

Fixpoint set_limits (l : KResourceLimit) (values : list (LimitableResource * Z))
    : prog KResourceLimit :=
  match values with
  | [] => mret l
  | (which, value) :: values =>
      '(r, l) ← KResourceLimit_SetLimitValue which l value;
      _ ← ASSERT (Result_IsSuccess r);
      set_limits l values
  end.

Definition CreateResourceLimitForProcess (physical_memory_size : Z) : prog KResourceLimit :=
  set_limits KResourceLimit_new
    [(PhysicalMemoryMax, physical_memory_size); (ThreadCountMax, 800); (EventCountMax, 900);
     (TransferMemoryCountMax, 200); (SessionCountMax, 1133)].

(** ** KScopedResourceReservation: a limit that may be null *)
Record KScopedResourceReservation : Type := MkReservation {
  sr_has_limit : bool;
  sr_value : Z;
  sr_resource : LimitableResource;
  sr_succeeded : bool
}.

(** The constructor; it blocks while the reservation waits. *)
Definition KScopedResourceReservation_new (waits : list (Z * (KResourceLimit → KResourceLimit)))
    (tick : Z) (limit : option KResourceLimit) (r : LimitableResource) (v timeout : Z)
    : prog (option KScopedResourceReservation * option KResourceLimit) :=
  match limit with
  | Some l =>
      if negb (v =? 0) then
        '(ok, l) ← KResourceLimit_Reserve r waits tick l v timeout;
        mret (option_map (MkReservation true v r) ok, Some l)
      else mret (Some (MkReservation true v r true), Some l)
  | None => mret (Some (MkReservation false v r true), None)
  end.

Definition KScopedResourceReservation_Commit (s : KScopedResourceReservation)
    : KScopedResourceReservation :=
  MkReservation false (sr_value s) (sr_resource s) (sr_succeeded s).

Definition KScopedResourceReservation_delete (s : KScopedResourceReservation)
    (l : KResourceLimit) : prog KResourceLimit :=
  if sr_has_limit s && negb (sr_value s =? 0) && sr_succeeded s then
    '(_, l) ← KResourceLimit_Release (sr_resource s) l (sr_value s) (sr_value s); mret l
  else mret l.
