(* ===== verification/ResourceLimitTheorems.v ===== *)
(** * Correctness of KResourceLimit

    The accounting never exceeds its limits, whatever is reserved and released,
    by this thread and, while it waits, by the others. *)

From S2P Require Import Prelude Common ResourceLimit.

(** ** One resource *)
Record slot : Type := MkSlot { limit : Z; current : Z; hint : Z; peak : Z }.

Definition slot_at (l : KResourceLimit) (i : nat) : option slot :=
  lim ← m_limit_values l !! i; cur ← m_current_values l !! i;
  h ← m_current_hints l !! i; pk ← m_peak_values l !! i; Some (MkSlot lim cur h pk).

Definition slot_ok (s : slot) : Prop :=
  0 ≤ hint s ∧ hint s ≤ current s ∧ current s ≤ peak s ∧ peak s ≤ limit s ∧ limit s < 2 ^ 63.

Definition limit_wf (l : KResourceLimit) : Prop :=
  ∀ which, ∃ s, slot_at l (LimitableResource_index which) = Some s ∧ slot_ok s.

Lemma slot_at_Some l i s :
  slot_at l i = Some s ↔
  m_limit_values l !! i = Some (limit s) ∧ m_current_values l !! i = Some (current s) ∧
  m_current_hints l !! i = Some (hint s) ∧ m_peak_values l !! i = Some (peak s).
Proof.
  unfold slot_at. destruct s as [lim cur h pk]. simpl.
  destruct (m_limit_values l !! i), (m_current_values l !! i), (m_current_hints l !! i),
    (m_peak_values l !! i); simpl; naive_solver.
Qed.

Lemma index_inj w w' : LimitableResource_index w = LimitableResource_index w' → w = w'.
Proof. by destruct w, w'. Qed.

(** [l'] is [l] with the slot of [which] replaced. *)
Record slot_set (which : LimitableResource) (s : slot) (l l' : KResourceLimit) : Prop := {
  ss_this : slot_at l' (LimitableResource_index which) = Some s;
  ss_others w : w ≠ which →
    slot_at l' (LimitableResource_index w) = slot_at l (LimitableResource_index w);
  ss_waiters : m_waiter_count l' = m_waiter_count l
}.

Lemma slot_set_wf which s l l' : limit_wf l → slot_ok s → slot_set which s l l' → limit_wf l'.
Proof.
  intros Hw Hs [S1 S2 _] w. destruct (decide (LimitableResource_index w = LimitableResource_index which))
    as [E|E]; [rewrite E; eauto|]. rewrite S2; [apply Hw|]. by intros ->.
Qed.

(** Writing any of the four arrays at the index of a resource. *)
Lemma slot_set_intro which s lim cur h pk lim' cur' h' pk' n :
  let i := LimitableResource_index which in
  is_Some (slot_at (MkLimit lim cur h pk n) i) →
  lim' = <[i := limit s]> lim → cur' = <[i := current s]> cur →
  h' = <[i := hint s]> h → pk' = <[i := peak s]> pk →
  slot_set which s (MkLimit lim cur h pk n) (MkLimit lim' cur' h' pk' n).
Proof.
  intros i [s0 Hs0] -> -> -> ->. apply slot_at_Some in Hs0 as (H1 & H2 & H3 & H4). simpl in *.
  split; [| |done].
  - apply slot_at_Some. simpl. fold i.
    split_and!; apply list_lookup_insert_eq; by eapply lookup_lt_Some.
  - intros w Hw. assert (LimitableResource_index w ≠ i) by (intros E; by apply Hw, index_inj).
    unfold slot_at. simpl. by rewrite !list_lookup_insert_ne by done.
Qed.

Lemma list_same {A} (l : list A) i x : l !! i = Some x → l = <[i := x]> l.
Proof. intros. by rewrite list_insert_id. Qed.

Lemma WrappingAdd_spec x y : 0 ≤ x < 2 ^ 63 → 0 ≤ y < 2 ^ 63 →
  WrappingAdd x y = if decide (x + y < 2 ^ 63) then x + y else x + y - 2 ^ 64.
Proof.
  intros Hx Hy. unfold WrappingAdd. rewrite !u64_id by (unfold is_u64; rewrite ?u64_id by (unfold is_u64; lia); lia).
  unfold s64. case_decide.
  - rewrite Z.mod_small; lia.
  - replace (x + y + 2 ^ 63) with (x + y - 2 ^ 63 + 1 * 2 ^ 64) by lia.
    rewrite Z.mod_add, Z.mod_small by lia. lia.
Qed.

Lemma add_s64_run x y : - 2 ^ 63 ≤ x + y < 2 ^ 63 → add_s64 x y = Done true (x + y).
Proof.
  intros Hs. unfold add_s64. by rewrite (proj2 (Z.leb_le _ _)), (proj2 (Z.ltb_lt _ _)) by lia.
Qed.
Lemma sub_s64_run x y : - 2 ^ 63 ≤ x - y < 2 ^ 63 → sub_s64 x y = Done true (x - y).
Proof.
  intros Hs. unfold sub_s64. by rewrite (proj2 (Z.leb_le _ _)), (proj2 (Z.ltb_lt _ _)) by lia.
Qed.

Section Resource.
Context (which : LimitableResource).
Let i := LimitableResource_index which.

Definition reserve (value : Z) (s : slot) : slot :=
  MkSlot (limit s) (current s + value) (hint s + value) (Z.max (peak s) (current s + value)).
Definition release (value h : Z) (s : slot) : slot :=
  MkSlot (limit s) (current s - value) (hint s - h) (peak s).

(** What one turn decides. *)
Lemma Reserve_turn_run l s value timeout tick :
  slot_at l i = Some s → slot_ok s → 0 ≤ value < 2 ^ 63 →
  ∃ r l', Reserve_turn which l value timeout tick = Done true (r, l') ∧
    match r with
    | Reserved => 0 < value ∧ current s + value ≤ limit s ∧ slot_set which (reserve value s) l l'
    | Refused => l' = l ∧ (value = 0 ∨ limit s < current s + value)
    | Waiting =>
        l' = l ∧ hint s + value ≤ limit s < current s + value ∧ (timeout < 0 ∨ tick < timeout)
    end.
Proof.
  intros Hs (K1 & K2 & K3 & K4 & K5) Hv. pose proof Hs as (H1 & H2 & H3 & H4)%slot_at_Some.
  unfold Reserve_turn, ASSERT. fold i. rewrite H1, H2, H3, H4. pstep.
  rewrite (proj2 (Z.leb_le (current s) _)), (proj2 (Z.leb_le (hint s) _)) by lia. pstep.
  rewrite WrappingAdd_spec by lia. case_decide as Hov.
  2:{ rewrite (proj2 (Z.leb_le _ _)) by lia. eexists _, _. split; [done|]. split; [done|]. lia. }
  destruct (_ <=? current s) eqn:E0; bool_prop.
  { eexists _, _. split; [done|]. split; [done|]. lia. }
  rewrite (add_s64_run (current s)), (add_s64_run (hint s)) by lia. pstep.
  destruct (_ <=? limit s) eqn:E1; bool_prop; pstep.
  - eexists _, _. split; [done|]. split_and!; [lia|lia|].
    destruct l as [lim cur h pk n]. apply slot_set_intro; [by exists s|by apply list_same|done..].
  - destruct (_ && _) eqn:E2; eexists _, _; (split; [done|]).
    + apply andb_true_iff in E2 as [E2 E3]. apply orb_true_iff in E3.
      destruct E3; bool_prop; split_and!; lia || done.
    + split; [done|]. right. lia.
Qed.

Lemma limit_wf_waiters f l : limit_wf l → limit_wf (set_waiters f l).
Proof. done. Qed.

(** The whole loop, against the limit as it is in the last turn. *)
Lemma Reserve_loop_run waits value timeout : ∀ tick l,
  limit_wf l → 0 ≤ value < 2 ^ 63 →
  Forall (λ w, ∀ l, limit_wf l → limit_wf (w.2 l)) waits →
  wp (Reserve_loop which waits tick l value timeout) (λ '(r, l'),
    limit_wf l' ∧ (waits ≠ [] → r = Some true → ∃ l0 s, limit_wf l0 ∧ slot_at l0 i = Some s ∧
      current s + value ≤ limit s ∧ slot_set which (reserve value s) l0 l') ∧
    (waits = [] → ∀ s, slot_at l i = Some s →
      match r with
      | Some true => 0 < value ∧ current s + value ≤ limit s ∧ slot_set which (reserve value s) l l'
      | Some false => l' = l ∧ (value = 0 ∨ limit s < current s + value)
      | None => l' = set_waiters (λ n, n + 1) l ∧ hint s + value ≤ limit s < current s + value ∧
                (timeout < 0 ∨ tick < timeout)
      end)).
Proof.
  induction waits as [|[tick' others] waits IH]; intros tick l Hw Hv Hall; cbn [Reserve_loop];
    destruct (Hw which) as (s & Hs & Hok); fold i in Hs;
    destruct (Reserve_turn_run l s value timeout tick Hs Hok Hv) as (r & l' & -> & Hr); pstep.
  - destruct r; pstep; (split; [|split; [done|intros _ s' Hs'; rewrite Hs in Hs'; injection Hs' as <-; naive_solver]]).
    + destruct Hr as (? & ? & Hset). eapply slot_set_wf; [exact Hw| |exact Hset].
      unfold slot_ok, reserve in *. simpl. lia.
    + by destruct Hr as [-> _].
    + destruct Hr as [-> _]. by apply limit_wf_waiters.
  - destruct r; pstep.
    + destruct Hr as (? & ? & Hset). split_and!; [|intros _ _; by exists l, s|done].
      eapply slot_set_wf; [exact Hw| |exact Hset]. unfold slot_ok, reserve in *. simpl. lia.
    + destruct Hr as [-> _]. by split_and!.
    + destruct Hr as [-> _]. apply Forall_cons in Hall as [Ho Hall].
      set (l1 := set_waiters (λ n, n - 1) (others (set_waiters (λ n, n + 1) l))).
      assert (Hw1 : limit_wf l1) by apply Ho, Hw.
      eapply wp_mono; [apply (IH tick' l1 Hw1 Hv Hall)|]. intros [r l2] (W2 & A2 & B2).
      split_and!; [done| |done]. intros _ ->. destruct waits as [|w waits].
      * destruct (Hw1 which) as (s1 & Hs1 & _). destruct (B2 eq_refl s1 Hs1) as (_ & ? & ?).
        by exists l1, s1.
      * by apply A2.
Qed.
End Resource.

Definition others_ok (waits : list (Z * (KResourceLimit → KResourceLimit))) : Prop :=
  Forall (λ w, ∀ l, limit_wf l → limit_wf (w.2 l)) waits.

(** What [Reserve] decides from the limit as it finds it. *)
Definition reserve_decision (which : LimitableResource) (value timeout tick : Z)
    (l l' : KResourceLimit) (s : slot) (r : option bool) : Prop :=
  match r with
  | Some true => 0 < value ∧ current s + value ≤ limit s ∧ slot_set which (reserve value s) l l'
  | Some false => l' = l ∧ (value = 0 ∨ limit s < current s + value)
  | None => l' = set_waiters (λ n, n + 1) l ∧ hint s + value ≤ limit s < current s + value ∧
            (timeout < 0 ∨ tick < timeout)
  end.

Lemma Reserve_run which waits tick l value timeout :
  limit_wf l → 0 ≤ value < 2 ^ 63 → others_ok waits →
  wp (KResourceLimit_Reserve which waits tick l value timeout) (λ '(r, l'),
    limit_wf l' ∧
    (r = Some true → ∃ l0 s, limit_wf l0 ∧ slot_at l0 (LimitableResource_index which) = Some s ∧
       current s + value ≤ limit s ∧ slot_set which (reserve value s) l0 l') ∧
    (waits = [] → ∀ s, slot_at l (LimitableResource_index which) = Some s →
       reserve_decision which value timeout tick l l' s r)).
Proof.
  intros Hw Hv Ho. destruct (Hw which) as (s & Hs & Hok). pose proof Hok as (K1 & K2 & K3 & K4 & K5).
  pose proof Hs as (H1 & H2 & H3 & H4)%slot_at_Some. unfold KResourceLimit_Reserve, ASSERT.
  rewrite (proj2 (Z.leb_le 0 _)), H1, H2, H3 by lia. pstep.
  rewrite (proj2 (Z.leb_le (hint s) _)) by lia. pstep. destruct (_ <=? hint s) eqn:E; bool_prop.
  - pstep. split_and!; [done|done|]. intros _ s' Hs'. rewrite Hs in Hs'. injection Hs' as <-. split; [done|]. lia.
  - eapply wp_mono; [by apply Reserve_loop_run|]. intros [r l'] (W & A & B). split_and!; [done| |done].
    intros ->. destruct waits as [|w waits]; [|by apply A].
    destruct (B eq_refl s Hs) as (_ & ? & ?). by exists l, s.
Qed.

(** C34: [Reserve] never lets the amount in use exceed the limit, whatever other
    threads do while it waits; it succeeds exactly when the amount, not zero,
    fits under the limit, waits only while hints let it hope to, and refuses
    otherwise, leaving the limit as it was; no signed addition overflows. *)
Theorem KResourceLimit_Reserve_correct which waits tick l value timeout :
  limit_wf l → 0 ≤ value < 2 ^ 63 → others_ok waits →
  wp (KResourceLimit_Reserve which waits tick l value timeout) (λ '(r, l'),
    limit_wf l' ∧
    (r = Some true → ∃ l0 s, limit_wf l0 ∧ slot_at l0 (LimitableResource_index which) = Some s ∧
       current s + value ≤ limit s ∧ slot_set which (reserve value s) l0 l') ∧
    (waits = [] → ∀ s, slot_at l (LimitableResource_index which) = Some s →
       reserve_decision which value timeout tick l l' s r)).
Proof. apply Reserve_run. Qed.

(** ** Release *)
Lemma Release_run which l s value h :
  slot_at l (LimitableResource_index which) = Some s → slot_ok s →
  0 ≤ value ≤ current s → 0 ≤ h ≤ hint s →
  ∃ l', KResourceLimit_Release which l value h =
          Done true (negb (m_waiter_count l =? 0), l') ∧ slot_set which (release value h s) l l'.
Proof.
  intros Hs (K1 & K2 & K3 & K4 & K5) Hv Hh. pose proof Hs as (H1 & H2 & H3 & H4)%slot_at_Some.
  unfold KResourceLimit_Release, ASSERT. rewrite H1, H2, H3. pstep.
  rewrite (proj2 (Z.leb_le 0 value)), (proj2 (Z.leb_le 0 h)), (proj2 (Z.leb_le (current s) _)),
    (proj2 (Z.leb_le (hint s) _)), (proj2 (Z.leb_le value _)), (proj2 (Z.leb_le h _)) by lia. pstep.
  rewrite (sub_s64_run (current s)), (sub_s64_run (hint s)) by lia. pstep.
  eexists. split; [done|]. destruct l as [lim cur hs pk n].
  apply slot_set_intro; [by exists s|by apply list_same|done|done|by apply list_same].
Qed.

(** ** Scoped reservations *)
Definition same_usage (l l' : KResourceLimit) : Prop :=
  ∀ w, ∃ s s', slot_at l (LimitableResource_index w) = Some s ∧
    slot_at l' (LimitableResource_index w) = Some s' ∧
    limit s' = limit s ∧ current s' = current s ∧ hint s' = hint s.

Lemma same_usage_refl l : limit_wf l → same_usage l l.
Proof. intros Hw w. destruct (Hw w) as (s & Hs & _). by exists s, s. Qed.

(** a reservation that goes out of scope without [Commit] gives back what
    it took, and one that was committed, or that reserves nothing, keeps the
    limit as it is; in no case does an assertion of [Release] fail. *)
Theorem KScopedResourceReservation_correct l r v timeout tick s :
  limit_wf l → slot_at l (LimitableResource_index r) = Some s → 0 ≤ v < 2 ^ 63 →
  current s + v ≤ limit s →
  wp (KScopedResourceReservation_new [] tick (Some l) r v timeout) (λ '(res, l1),
    ∃ res' l1', res = Some res' ∧ l1 = Some l1' ∧ sr_succeeded res' = true ∧ limit_wf l1' ∧
      (∃ s1, slot_at l1' (LimitableResource_index r) = Some s1 ∧ current s1 = current s + v) ∧
      wp (KScopedResourceReservation_delete res' l1') (λ l2, limit_wf l2 ∧ same_usage l l2) ∧
      KScopedResourceReservation_delete (KScopedResourceReservation_Commit res') l1' = Done true l1').
Proof.
  intros Hw Hs Hv Hfit. pose proof (Hw r) as (s' & Hs' & Hok). rewrite Hs in Hs'. injection Hs' as <-.
  unfold KScopedResourceReservation_new. destruct (v =? 0) eqn:E0; bool_prop; cbn [negb].
  - subst v. pstep. eexists _, l. split_and!; [done|done|done|done| | |done].
    + exists s. split; [done|]. lia.
    + split; [done|]. by apply same_usage_refl.
  - apply wp_bind. eapply wp_mono; [apply Reserve_run; [done|done|constructor]|]. intros [ok l1] (W1 & _ & D).
    specialize (D eq_refl s Hs). destruct ok as [[]|]; [|exfalso; destruct D; lia..].
    destruct D as (Hp & _ & Hset). pstep. eexists _, l1. split_and!; [done|done|done|done| | |done].
    + exists (reserve v s). split; [apply Hset|done].
    + unfold KScopedResourceReservation_delete. simpl. rewrite (proj2 (Z.eqb_neq v 0)) by done. simpl.
      assert (Hok1 : slot_ok (reserve v s)) by (unfold slot_ok, reserve in *; simpl; lia).
      destruct (Release_run r l1 (reserve v s) v v (ss_this _ _ _ _ Hset) Hok1) as (l2 & -> & Hset2);
        [unfold slot_ok in Hok; simpl; lia..|]. pstep. split.
      * eapply slot_set_wf; [exact W1| |exact Hset2]. unfold slot_ok, release, reserve in *. simpl. lia.
      * intros w. destruct (decide (LimitableResource_index w = LimitableResource_index r)) as [E|E].
        -- apply index_inj in E as ->. exists s, (release v v (reserve v s)).
           split_and!; [done|apply Hset2|done|simpl; lia..].
        -- assert (Hne : w ≠ r) by (by intros ->).
           rewrite (ss_others _ _ _ _ Hset2 w Hne), (ss_others _ _ _ _ Hset w Hne).
           destruct (Hw w) as (sw & -> & _). by exists sw, sw.
Qed.

(** ** Reachable limits *)
Lemma SetLimitValue_run which l value :
  limit_wf l → - 2 ^ 63 ≤ value < 2 ^ 63 →
  wp (KResourceLimit_SetLimitValue which l value) (λ '(r, l'),
    limit_wf l' ∧ ∀ s, slot_at l (LimitableResource_index which) = Some s →
    if decide (current s ≤ value) then
      r = ResultSuccess ∧ slot_set which (MkSlot value (current s) (hint s) (current s)) l l'
    else r = ResultInvalidState ∧ l' = l).
Proof.
  intros Hw Hv. destruct (Hw which) as (s & Hs & Hok). pose proof Hs as (H1 & H2 & H3 & H4)%slot_at_Some.
  unfold KResourceLimit_SetLimitValue. rewrite H2. pstep.
  destruct (_ <=? value) eqn:E; bool_prop; cbn [negb]; pstep.
  - assert (Hset : slot_set which (MkSlot value (current s) (hint s) (current s)) l
      (MkLimit (<[LimitableResource_index which:=value]> (m_limit_values l)) (m_current_values l)
         (m_current_hints l) (<[LimitableResource_index which:=current s]> (m_peak_values l))
         (m_waiter_count l))).
    { destruct l as [lim cur hs pk n].
      apply slot_set_intro; [by exists s|done|by apply list_same|by apply list_same|done]. }
    split.
    + eapply slot_set_wf; [exact Hw| |exact Hset]. unfold slot_ok in *. simpl. lia.
    + intros s' Hs'. rewrite Hs in Hs'. injection Hs' as <-. by rewrite decide_True.
  - split; [done|]. intros s' Hs'. rewrite Hs in Hs'. injection Hs' as <-.
    by rewrite decide_False by lia.
Qed.

Inductive limit_reachable : KResourceLimit → Prop :=
| lr_create size l :
    0 ≤ size < 2 ^ 63 → CreateResourceLimitForProcess size = Done true l → limit_reachable l
| lr_set which l value r l' :
    limit_reachable l → - 2 ^ 63 ≤ value < 2 ^ 63 →
    KResourceLimit_SetLimitValue which l value = Done true (r, l') → limit_reachable l'
| lr_reserve which tick l value timeout r l' :
    limit_reachable l → 0 ≤ value < 2 ^ 63 →
    KResourceLimit_Reserve which [] tick l value timeout = Done true (r, l') → limit_reachable l'
| lr_release which l value h w l' s :
    limit_reachable l → slot_at l (LimitableResource_index which) = Some s →
    0 ≤ value ≤ current s → 0 ≤ h ≤ hint s → hint s - h ≤ current s - value →
    KResourceLimit_Release which l value h = Done true (w, l') → limit_reachable l'.

Lemma new_wf : limit_wf KResourceLimit_new.
Proof.
  intros w. exists (MkSlot 0 0 0 0).
  split; [by destruct w|]. unfold slot_ok. simpl. lia.
Qed.

Lemma set_limits_run values : ∀ l,
  limit_wf l → Forall (λ v, - 2 ^ 63 ≤ v.2 < 2 ^ 63) values → ∀ ok l',
  set_limits l values = Done ok l' → limit_wf l'.
Proof.
  induction values as [|[w v] values IH]; intros l Hw Hall ok l'; cbn [set_limits]; [by intros [= _ ->]|].
  apply Forall_cons in Hall as [Hv Hall]. pose proof (SetLimitValue_run w l v Hw Hv) as Hrun.
  apply wp_exists in Hrun as ([r l1] & -> & W1 & _). pstep. unfold ASSERT.
  intros E. apply bind_Done_inv in E as (? & [] & ? & _ & E). by eapply IH.
Qed.

Lemma limit_reachable_wf l : limit_reachable l → limit_wf l.
Proof.
  induction 1 as [size l Hs E|which l value r l' _ IH Hv E|which tick l value timeout r l' _ IH Hv E
                 |which l value h w l' s _ IH Hs Hv Hh Hd E].
  - eapply set_limits_run; [apply new_wf| |exact E]. repeat (constructor; [simpl; lia|]). constructor.
  - pose proof (SetLimitValue_run which l value IH Hv) as Hrun. by rewrite E in Hrun; destruct Hrun.
  - pose proof (Reserve_run which [] tick l value timeout IH Hv ltac:(constructor)) as Hrun.
    by rewrite E in Hrun; destruct Hrun.
  - destruct (IH which) as (s' & Hs' & Hok). rewrite Hs in Hs'. injection Hs' as <-.
    destruct (Release_run which l s value h Hs Hok Hv Hh) as (l2 & E2 & Hset).
    rewrite E in E2. injection E2 as _ <-. eapply slot_set_wf; [exact IH| |exact Hset].
    unfold slot_ok, release in *. simpl. lia.
Qed.

(** in every state a limit can be brought to, each getter returns without a
    failed assertion, and the values are in order: nothing negative, the amount
    in use at most its peak, and the peak at most the limit. *)
Theorem limit_reachable_getters l which :
  limit_reachable l →
  ∃ lim cur pk,
    KResourceLimit_GetLimitValue which l = Done true lim ∧
    KResourceLimit_GetCurrentValue which l = Done true cur ∧
    KResourceLimit_GetPeakValue which l = Done true pk ∧
    KResourceLimit_GetFreeValue which l = Done true (lim - cur) ∧
    0 ≤ cur ≤ pk ∧ pk ≤ lim < 2 ^ 63.
Proof.
  intros Hl. destruct (limit_reachable_wf l Hl which) as (s & Hs & Hok).
  pose proof Hok as (K1 & K2 & K3 & K4 & K5). apply slot_at_Some in Hs as (H1 & H2 & H3 & H4).
  exists (limit s), (current s), (peak s).
  unfold KResourceLimit_GetLimitValue, KResourceLimit_GetCurrentValue, KResourceLimit_GetPeakValue,
    KResourceLimit_GetFreeValue, ASSERT. rewrite H1, H2, H3, H4. pstep.
  rewrite (proj2 (Z.leb_le 0 (limit s))), (proj2 (Z.leb_le 0 (current s))),
    (proj2 (Z.leb_le 0 (peak s))), (proj2 (Z.leb_le (current s) _)),
    (proj2 (Z.leb_le (hint s) _)) by lia. pstep.
  rewrite sub_s64_run by lia. split_and!; try done; lia.
Qed.

(** ** The limit of a process with 4 GiB *)
Definition ex_limit : KResourceLimit :=
  result KResourceLimit_new (CreateResourceLimitForProcess 0x100000000).

Lemma ex_limit_reachable : limit_reachable ex_limit.
Proof. apply (lr_create 0x100000000); [lia|vm_compute; reflexivity]. Qed.

Lemma ex_limit_wf : limit_wf ex_limit.
Proof. apply limit_reachable_wf, ex_limit_reachable. Qed.

(** Another thread that asks for 100 threads while this one waits. *)
Definition ex_others (l : KResourceLimit) : KResourceLimit :=
  snd (result (None, l) (KResourceLimit_Reserve ThreadCountMax [] 0 l 100 (-1))).

Lemma ex_others_ok : others_ok [(5, ex_others)].
Proof.
  constructor; [|constructor]. intros l Hl. simpl. unfold ex_others.
  pose proof (Reserve_run ThreadCountMax [] 0 l 100 (-1) Hl ltac:(lia) ltac:(constructor)) as Hr.
  apply (wp_result (None, l)) in Hr. destruct (result _ _) as [r l']. apply Hr.
Qed.

Lemma KResourceLimit_Reserve_correct_witness :
  wp (KResourceLimit_Reserve ThreadCountMax [(5, ex_others)] 0 ex_limit 750 1000) (λ '(r, l'),
    limit_wf l' ∧
    (r = Some true → ∃ l0 s, limit_wf l0 ∧
       slot_at l0 (LimitableResource_index ThreadCountMax) = Some s ∧
       current s + 750 ≤ limit s ∧ slot_set ThreadCountMax (reserve 750 s) l0 l') ∧
    ([(5, ex_others)] = [] → ∀ s,
       slot_at ex_limit (LimitableResource_index ThreadCountMax) = Some s →
       reserve_decision ThreadCountMax 750 1000 0 ex_limit l' s r)).
Proof. apply KResourceLimit_Reserve_correct; [apply ex_limit_wf|lia|apply ex_others_ok]. Defined.

Lemma KScopedResourceReservation_correct_witness :
  wp (KScopedResourceReservation_new [] 0 (Some ex_limit) SessionCountMax 3 1000) (λ '(res, l1),
    ∃ res' l1', res = Some res' ∧ l1 = Some l1' ∧ sr_succeeded res' = true ∧ limit_wf l1' ∧
      (∃ s1, slot_at l1' (LimitableResource_index SessionCountMax) = Some s1 ∧
             current s1 = current (MkSlot 1133 0 0 0) + 3) ∧
      wp (KScopedResourceReservation_delete res' l1') (λ l2, limit_wf l2 ∧ same_usage ex_limit l2) ∧
      KScopedResourceReservation_delete (KScopedResourceReservation_Commit res') l1' =
        Done true l1').
Proof.
  apply KScopedResourceReservation_correct;
    [apply ex_limit_wf|vm_compute; reflexivity|lia|vm_compute; congruence].
Defined.

Lemma limit_reachable_getters_witness :
  ∃ lim cur pk,
    KResourceLimit_GetLimitValue EventCountMax ex_limit = Done true lim ∧
    KResourceLimit_GetCurrentValue EventCountMax ex_limit = Done true cur ∧
    KResourceLimit_GetPeakValue EventCountMax ex_limit = Done true pk ∧
    KResourceLimit_GetFreeValue EventCountMax ex_limit = Done true (lim - cur) ∧
    0 ≤ cur ≤ pk ∧ pk ≤ lim < 2 ^ 63.
Proof. apply limit_reachable_getters, ex_limit_reachable. Defined.
