(* ===== verification/PageTable.v ===== *)
(** * The page table of a process
    (src/src/common/page_table.h, page_table.cpp, the mapping functions of
    src/src/core/memory.cpp, and the data and the basic functions of
    src/src/core/hle/kernel/k_page_table_base.h, k_page_table_base.cpp)

    The translation of pages, the memory blocks and what the table reaches
    through its pointers: the memory manager, the two slabs and the resource
    limit.  Every operation runs under the lock of the table, so an operation is
    one function.  The host mappings (fastmem) and the host pointers of the
    entries are not modelled: they follow the physical addresses. *)

From S2P Require Import Prelude Common MemoryBlock OrderedTree MemoryBlockManager PageBitmap PageHeap MemoryRegionType MemoryRegion MemoryLayout PageGroup MemoryManager ResourceLimit.

(** ** Common::PageTable *)
Inductive PageType : Type := Unmapped | Memory | DebugMemory | RasterizerCachedMemory.

#[export] Instance PageType_eq_dec : EqDecision PageType.
Proof. solve_decision. Defined.

(** [addr] is the distance from the virtual to the physical address; an entry
    that was never written is zero. *)
Record PageEntryData : Type := MkEntry { ptr_type : PageType; pe_block : Z; pe_addr : Z }.

Definition no_entry : PageEntryData := MkEntry Unmapped 0 0.

Record PageTable : Type := MkPageTable {
  entries : gmap Z PageEntryData;
  entries_size : Z;
  current_address_space_width_in_bits : Z;
  page_size : Z
}.

Definition set_entries (e : gmap Z PageEntryData) (t : PageTable) : PageTable :=
  MkPageTable e (entries_size t) (current_address_space_width_in_bits t) (page_size t).

Definition entry_at (t : PageTable) (page : Z) : PageEntryData := default no_entry (entries t !! page).

Record TraversalEntry : Type := MkTraversalEntry { te_phys_addr : Z; te_block_size : Z }.
Record TraversalContext : Type := MkTraversalContext { next_page : Z; next_offset : Z }.

Definition ContinueTraversal (t : PageTable) (context : TraversalContext)
    : bool * TraversalEntry * TraversalContext :=
  let next := MkTraversalContext (u64 (next_page context + 1)) (u64 (next_offset context + page_size t)) in
  let page := next_page context in
  if page <? entries_size t then
    let paddr := pe_addr (entry_at t page) in
    if negb (paddr =? 0) then
      (true, MkTraversalEntry (u64 (paddr + next_offset context)) (page_size t), next)
    else (false, MkTraversalEntry 0 (page_size t), next)
  else (false, MkTraversalEntry 0 (page_size t), next).

Definition BeginTraversal (t : PageTable) (address : Z) : bool * TraversalEntry * TraversalContext :=
  ContinueTraversal t (MkTraversalContext (address / page_size t) address).

(** [VirtualBuffer::resize] maps fresh zero memory when the size changes. *)
Definition PageTable_Resize (t : PageTable) (address_space_width_in_bits page_size_in_bits : Z)
    : PageTable :=
  let num_page_table_entries :=
    u64 (Z.shiftl 1 (address_space_width_in_bits - page_size_in_bits)) in
  MkPageTable (if num_page_table_entries =? entries_size t then entries t else ∅)
    num_page_table_entries address_space_width_in_bits (u64 (Z.shiftl 1 page_size_in_bits)).

(** The entry behind the last one is outside the buffer. *)
Definition PageTable_GetPhysicalAddress (t : PageTable) (virt_addr : Z) : prog (option Z) :=
  if u64 (Z.shiftl 1 (current_address_space_width_in_bits t)) <? virt_addr then mret None
  else if virt_addr / page_size t <? entries_size t then
    mret (Some (u64 (pe_addr (entry_at t (virt_addr / page_size t)) + virt_addr)))
  else Stuck.

(** ** Core::Memory: the functions that change a page table *)
Definition DramMemoryMap_Base : Z := 0x80000000.

Fixpoint unmap_loop (n : nat) (t : PageTable) (base : Z) (type : PageType) : prog PageTable :=
  match n with
  | O => mret t
  | S n =>
      if base <? entries_size t then
        unmap_loop n (set_entries (<[base := MkEntry type 0 0]> (entries t)) t) (u64 (base + 1)) type
      else Stuck
  end.

Fixpoint map_loop (n : nat) (t : PageTable) (base orig_base target : Z) (type : PageType)
    : prog PageTable :=
  match n with
  | O => mret t
  | S n =>
      if base <? entries_size t then
        let backing := u64 (target - u64 (Z.shiftl base PageBits)) in
        let e := MkEntry type (u64 (Z.shiftl orig_base PageBits)) backing in
        map_loop n (set_entries (<[base := e]> (entries t)) t) (u64 (base + 1)) orig_base
          (u64 (target + PageSize)) type
      else Stuck
  end.

Definition Memory_MapPages (t : PageTable) (base size target : Z) (type : PageType)
    : prog PageTable :=
  _ ← ASSERT (u64 (base + size) <=? entries_size t);
  if target =? 0 then
    _ ← ASSERT (negb (bool_decide (type = Memory)));
    unmap_loop (Z.to_nat size) t base type
  else map_loop (Z.to_nat size) t base base target type.

Definition Memory_MapMemoryRegion (t : PageTable) (base size target : Z) : prog PageTable :=
  _ ← ASSERT (Z.land size (PageSize - 1) =? 0);
  _ ← ASSERT (Z.land base (PageSize - 1) =? 0);
  _ ← ASSERT (DramMemoryMap_Base <=? target);
  Memory_MapPages t (base / PageSize) (size / PageSize) target Memory.

Definition Memory_UnmapRegion (t : PageTable) (base size : Z) : prog PageTable :=
  _ ← ASSERT (Z.land size (PageSize - 1) =? 0);
  _ ← ASSERT (Z.land base (PageSize - 1) =? 0);
  Memory_MapPages t (base / PageSize) (size / PageSize) 0 Unmapped.

(** Permissions are in the host mappings only. *)
Definition Memory_ProtectRegion (t : PageTable) (vaddr size : Z) : prog PageTable :=
  _ ← ASSERT (Z.land size (PageSize - 1) =? 0);
  _ ← ASSERT (Z.land vaddr (PageSize - 1) =? 0);
  mret t.

(** ** KPageTableBase: data *)
Definition DisableMergeAttribute_None : Z := 0.
Definition DisableMergeAttribute_DisableHead : Z := Z.shiftl 1 0.
Definition DisableMergeAttribute_DisableHeadAndBody : Z := Z.shiftl 1 1.
Definition DisableMergeAttribute_EnableHeadAndBody : Z := Z.shiftl 1 2.
Definition DisableMergeAttribute_DisableTail : Z := Z.shiftl 1 3.
Definition DisableMergeAttribute_EnableTail : Z := Z.shiftl 1 4.
Definition DisableMergeAttribute_EnableAndMergeHeadBodyTail : Z := Z.shiftl 1 5.
Definition DisableMergeAttribute_EnableHeadBodyTail : Z :=
  Z.lor DisableMergeAttribute_EnableHeadAndBody DisableMergeAttribute_EnableTail.
Definition DisableMergeAttribute_DisableHeadBodyTail : Z :=
  Z.lor DisableMergeAttribute_DisableHeadAndBody DisableMergeAttribute_DisableTail.

Record KPageProperties : Type := MkProperties {
  kp_perm : Z;
  kp_io : bool;
  kp_uncached : bool;
  kp_disable_merge_attributes : Z
}.

Inductive OperationType : Type :=
| Op_Map | Op_MapGroup | Op_MapFirstGroup | Op_Unmap | Op_ChangePermissions
| Op_ChangePermissionsAndRefresh | Op_ChangePermissionsAndRefreshAndFlush | Op_Separate
| Op_MapFirstGroupPhysical | Op_UnmapPhysical.

Definition KMemoryState_All : Z := 2 ^ 32 - 1.
Definition KMemoryPermission_All : Z := 2 ^ 8 - 1.
Definition DefaultMemoryIgnoreAttr : Z :=
  Z.lor KMemoryAttribute_IpcLocked KMemoryAttribute_DeviceShared.
Definition RegionAlignment : Z := 2 * MiB.

(** The regions of the address space, fixed when the table is initialised. *)
Record Regions : Type := MkRegions {
  m_address_space_start : Z;
  m_address_space_end : Z;
  m_heap_region_start : Z;
  m_heap_region_end : Z;
  m_alias_region_start : Z;
  m_alias_region_end : Z;
  m_stack_region_start : Z;
  m_stack_region_end : Z;
  m_kernel_map_region_start : Z;
  m_kernel_map_region_end : Z;
  m_alias_code_region_start : Z;
  m_alias_code_region_end : Z;
  m_code_region_start : Z;
  m_code_region_end : Z;
  m_alias_region_extra_size : Z
}.

(** The other members that are fixed when the table is initialised. *)
Record Config : Type := MkConfig {
  m_allocate_option : Z;
  m_address_space_width : Z;
  m_is_kernel : bool;
  m_enable_aslr : bool;
  m_enable_device_address_space_merge : bool;
  m_heap_fill_value : Z;
  m_ipc_fill_value : Z;
  m_stack_fill_value : Z
}.

Record KPageTableBase (R S : Type) : Type := MkTable {
  pt_regions : Regions;
  pt_config : Config;
  m_current_heap_end : Z;
  m_max_heap_size : Z;
  m_mapped_physical_memory_size : Z;
  m_mapped_insecure_memory : Z;
  m_impl : PageTable;
  m_memory_block_manager : KMemoryBlockManager;
  m_cached_physical_heap_region : option KMemoryRegion;
  m_memory_block_slab_manager : S;
  m_block_info_manager : S;
  m_resource_limit : KResourceLimit;
  pt_mm : KMemoryManager R
}.
Arguments MkTable {R S}.
Arguments pt_regions {R S}.
Arguments pt_config {R S}.
Arguments m_current_heap_end {R S}.
Arguments m_max_heap_size {R S}.
Arguments m_mapped_physical_memory_size {R S}.
Arguments m_mapped_insecure_memory {R S}.
Arguments m_impl {R S}.
Arguments m_memory_block_manager {R S}.
Arguments m_cached_physical_heap_region {R S}.
Arguments m_memory_block_slab_manager {R S}.
Arguments m_block_info_manager {R S}.
Arguments m_resource_limit {R S}.
Arguments pt_mm {R S}.

(** ** Address ranges *)
Section Ranges.
Context (r : Regions).

Definition KPageTable_Contains (addr size : Z) : bool :=
  (m_address_space_start r <=? addr) && (addr <? u64 (addr + size)) &&
  (u64 (u64 (addr + size) - 1) <=? u64 (m_address_space_end r - 1)).

Definition IsInAliasRegion (addr size : Z) : bool :=
  KPageTable_Contains addr size && (m_alias_region_start r <=? addr) &&
  (u64 (u64 (addr + size) - 1) <=? u64 (m_alias_region_end r - 1)).

Definition IsInHeapRegion (addr size : Z) : bool :=
  KPageTable_Contains addr size && (m_heap_region_start r <=? addr) &&
  (u64 (u64 (addr + size) - 1) <=? u64 (m_heap_region_end r - 1)).

Definition ContainsPages (addr num_pages : Z) : bool :=
  (m_address_space_start r <=? addr) &&
  (num_pages <=? u64 (m_address_space_end r - m_address_space_start r) / PageSize) &&
  (u64 (u64 (addr + u64 (num_pages * PageSize)) - 1) <=? u64 (m_address_space_end r - 1)).

(** The region of a [Svc::MemoryState]: its start and its end. *)
Definition region_of_state (state : Z) : prog (Z * Z) :=
  if bool_decide (state ∈ [0x00; 0x13]) then
    mret (m_address_space_start r, m_address_space_end r)
  else if state =? 0x05 then mret (m_heap_region_start r, m_heap_region_end r)
  else if bool_decide (state ∈ [0x0A; 0x11; 0x12]) then
    mret (m_alias_region_start r, m_alias_region_end r)
  else if state =? 0x0B then mret (m_stack_region_start r, m_stack_region_end r)
  else if bool_decide (state ∈ [0x02; 0x0C]) then
    mret (m_kernel_map_region_start r, m_kernel_map_region_end r)
  else if bool_decide (state ∈ [0x01; 0x06; 0x08; 0x09; 0x0D; 0x0E; 0x0F; 0x14; 0x15; 0x16; 0x17]) then
    mret (m_alias_code_region_start r, m_alias_code_region_end r)
  else if bool_decide (state ∈ [0x03; 0x04]) then
    mret (m_code_region_start r, m_code_region_end r)
  else Stuck.

Definition GetRegionAddress (state : Z) : prog Z := '(s, _) ← region_of_state state; mret s.
Definition GetRegionSize (state : Z) : prog Z := '(s, e) ← region_of_state state; mret (u64 (e - s)).

Definition CanContain (addr size state : Z) : prog bool :=
  let nd := u64 (addr + size) in
  let last := u64 (nd - 1) in
  region_start ← GetRegionAddress state;
  region_size ← GetRegionSize state;
  let is_in_region :=
    (region_start <=? addr) && (addr <? nd) && (last <=? u64 (u64 (region_start + region_size) - 1)) in
  let is_in_heap :=
    negb ((nd <=? m_heap_region_start r) || (m_heap_region_end r <=? addr) ||
          (m_heap_region_start r =? m_heap_region_end r)) in
  let is_in_alias :=
    negb ((nd <=? m_alias_region_start r) || (m_alias_region_end r <=? addr) ||
          (m_alias_region_start r =? m_alias_region_end r)) in
  if bool_decide (state ∈ [0x00; 0x13]) then mret is_in_region
  else if state =? 0x05 then
    _ ← ASSERT is_in_heap; mret (is_in_region && negb is_in_alias)
  else if bool_decide (state ∈ [0x0A; 0x11; 0x12]) then
    _ ← ASSERT is_in_alias; mret (is_in_region && negb is_in_heap)
  else mret (is_in_region && negb is_in_heap && negb is_in_alias).
End Ranges.

(** The overload for a [KMemoryState]. *)
Definition CanContain_state (r : Regions) (addr size state : Z) : prog bool :=
  CanContain r addr size (Z.land state KMemoryState_Mask).

(** ** Checking the memory of a range

    What is asked of the blocks: masks and values of state, permission and
    attribute. *)
Record MemoryTest : Type := MkTest {
  mt_state_mask : Z;
  mt_state : Z;
  mt_perm_mask : Z;
  mt_perm : Z;
  mt_attr_mask : Z;
  mt_attr : Z
}.

Definition CheckMemoryState_info (info : KMemoryInfo) (t : MemoryTest) : Z :=
  if negb (Z.land (info_state info) (mt_state_mask t) =? mt_state t) then ResultInvalidCurrentMemory
  else if negb (Z.land (info_permission info) (mt_perm_mask t) =? mt_perm t) then
    ResultInvalidCurrentMemory
  else if negb (Z.land (info_attribute info) (mt_attr_mask t) =? mt_attr t) then
    ResultInvalidCurrentMemory
  else ResultSuccess.

(** Behind the last block the assertion fails and a null block is read. *)
Fixpoint contiguous_loop (blocks : list KMemoryBlock) (last_addr : Z) (t : MemoryTest)
    : prog (Z * KMemoryInfo) :=
  match blocks with
  | [] => Stuck
  | b :: blocks =>
      let info := KMemoryBlock_GetMemoryInfo b in
      let r := CheckMemoryState_info info t in
      if negb (Result_IsSuccess r) then mret (r, info)
      else if last_addr <=? KMemoryInfo_GetLastAddress info then mret (ResultSuccess, info)
      else contiguous_loop blocks last_addr t
  end.

Definition blocks_from (m : KMemoryBlockManager) (addr : Z) : list KMemoryBlock :=
  drop (KMemoryBlockManager_FindIterator (m_memory_block_tree m) addr) (m_memory_block_tree m).

Definition CheckMemoryStateContiguous (m : KMemoryBlockManager) (addr size : Z) (t : MemoryTest)
    : prog (Z * Z) :=
  let last_addr := u64 (u64 (addr + size) - 1) in
  first ← deref (head (blocks_from m addr));
  let blocks_for_start_align :=
    if negb (AlignDown addr PageSize =? m_address first) then 1 else 0 in
  '(r, info) ← contiguous_loop (blocks_from m addr) last_addr t;
  if negb (Result_IsSuccess r) then mret (r, 0)
  else
    let blocks_for_end_align :=
      if negb (AlignUp (u64 (addr + size)) PageSize =? KMemoryInfo_GetEndAddress info) then 1 else 0 in
    mret (ResultSuccess, blocks_for_start_align + blocks_for_end_align).

Fixpoint check_loop (blocks : list KMemoryBlock) (first : KMemoryInfo) (last_addr : Z)
    (t : MemoryTest) (ignore_attr : Z) : prog (Z * KMemoryInfo) :=
  match blocks with
  | [] => Stuck
  | b :: blocks =>
      let info := KMemoryBlock_GetMemoryInfo b in
      if negb (info_state info =? info_state first) then mret (ResultInvalidCurrentMemory, info)
      else if negb (info_permission info =? info_permission first) then
        mret (ResultInvalidCurrentMemory, info)
      else if negb (Z.lor (info_attribute info) ignore_attr =?
                    Z.lor (info_attribute first) ignore_attr) then
        mret (ResultInvalidCurrentMemory, info)
      else
        let r := CheckMemoryState_info info t in
        if negb (Result_IsSuccess r) then mret (r, info)
        else if last_addr <=? KMemoryInfo_GetLastAddress info then mret (ResultSuccess, info)
        else check_loop blocks first last_addr t ignore_attr
  end.

(** What is found: the state, the permission and the attribute of the range, and
    the number of blocks an update of it needs. *)
Record Checked : Type := MkChecked {
  ck_state : Z;
  ck_perm : Z;
  ck_attr : Z;
  ck_blocks_needed : Z
}.

(** On failure the outputs are not written, and not read. *)
Definition not_checked : Checked := MkChecked 0 0 0 0.

Definition CheckMemoryState_from (blocks : list KMemoryBlock) (last_addr : Z) (t : MemoryTest)
    (ignore_attr : Z) : prog (Z * Checked) :=
  b ← deref (head blocks);
  let first := KMemoryBlock_GetMemoryInfo b in
  '(r, info) ← check_loop blocks first last_addr t ignore_attr;
  if negb (Result_IsSuccess r) then mret (r, not_checked)
  else
    let blocks_for_end_align :=
      if negb (u64 (AlignDown last_addr PageSize + PageSize) =? KMemoryInfo_GetEndAddress info)
      then 1 else 0 in
    mret (ResultSuccess,
          MkChecked (info_state first) (info_permission first)
            (Z.land (info_attribute first) (u8 (Z.lnot ignore_attr))) blocks_for_end_align).

Definition CheckMemoryState_ignoring (m : KMemoryBlockManager) (addr size : Z) (t : MemoryTest)
    (ignore_attr : Z) : prog (Z * Checked) :=
  let last_addr := u64 (u64 (addr + size) - 1) in
  '(r, c) ← CheckMemoryState_from (blocks_from m addr) last_addr t ignore_attr;
  if negb (Result_IsSuccess r) then mret (r, not_checked)
  else
    first ← deref (head (blocks_from m addr));
    mret (ResultSuccess,
          if negb (AlignDown addr PageSize =? m_address first)
          then MkChecked (ck_state c) (ck_perm c) (ck_attr c) (ck_blocks_needed c + 1) else c).

Definition CheckMemoryState (m : KMemoryBlockManager) (addr size : Z) (t : MemoryTest)
    : prog (Z * Checked) :=
  CheckMemoryState_ignoring m addr size t DefaultMemoryIgnoreAttr.

Definition ResultInvalidMemoryRegion : Z := MakeResult ErrorModule_Kernel 110.

Section Table.
Context {R : Type} `{Rng R} {S : Type} `{SlabManager S}.
Implicit Types (pt : KPageTableBase R S) (g : KPageGroup).
Local Abbreviation Table := (KPageTableBase R S).

Definition with_heap_end (v : Z) pt : Table :=
  MkTable (pt_regions pt) (pt_config pt) v (m_max_heap_size pt) (m_mapped_physical_memory_size pt)
    (m_mapped_insecure_memory pt) (m_impl pt) (m_memory_block_manager pt)
    (m_cached_physical_heap_region pt) (m_memory_block_slab_manager pt) (m_block_info_manager pt)
    (m_resource_limit pt) (pt_mm pt).
Definition with_max_heap_size (v : Z) pt : Table :=
  MkTable (pt_regions pt) (pt_config pt) (m_current_heap_end pt) v (m_mapped_physical_memory_size pt)
    (m_mapped_insecure_memory pt) (m_impl pt) (m_memory_block_manager pt)
    (m_cached_physical_heap_region pt) (m_memory_block_slab_manager pt) (m_block_info_manager pt)
    (m_resource_limit pt) (pt_mm pt).
Definition with_insecure (v : Z) pt : Table :=
  MkTable (pt_regions pt) (pt_config pt) (m_current_heap_end pt) (m_max_heap_size pt)
    (m_mapped_physical_memory_size pt) v (m_impl pt) (m_memory_block_manager pt)
    (m_cached_physical_heap_region pt) (m_memory_block_slab_manager pt) (m_block_info_manager pt)
    (m_resource_limit pt) (pt_mm pt).
Definition with_impl (v : PageTable) pt : Table :=
  MkTable (pt_regions pt) (pt_config pt) (m_current_heap_end pt) (m_max_heap_size pt)
    (m_mapped_physical_memory_size pt) (m_mapped_insecure_memory pt) v (m_memory_block_manager pt)
    (m_cached_physical_heap_region pt) (m_memory_block_slab_manager pt) (m_block_info_manager pt)
    (m_resource_limit pt) (pt_mm pt).
Definition with_blocks (v : KMemoryBlockManager) pt : Table :=
  MkTable (pt_regions pt) (pt_config pt) (m_current_heap_end pt) (m_max_heap_size pt)
    (m_mapped_physical_memory_size pt) (m_mapped_insecure_memory pt) (m_impl pt) v
    (m_cached_physical_heap_region pt) (m_memory_block_slab_manager pt) (m_block_info_manager pt)
    (m_resource_limit pt) (pt_mm pt).
Definition with_cached (v : option KMemoryRegion) pt : Table :=
  MkTable (pt_regions pt) (pt_config pt) (m_current_heap_end pt) (m_max_heap_size pt)
    (m_mapped_physical_memory_size pt) (m_mapped_insecure_memory pt) (m_impl pt)
    (m_memory_block_manager pt) v (m_memory_block_slab_manager pt) (m_block_info_manager pt)
    (m_resource_limit pt) (pt_mm pt).
Definition with_block_slab (v : S) pt : Table :=
  MkTable (pt_regions pt) (pt_config pt) (m_current_heap_end pt) (m_max_heap_size pt)
    (m_mapped_physical_memory_size pt) (m_mapped_insecure_memory pt) (m_impl pt)
    (m_memory_block_manager pt) (m_cached_physical_heap_region pt) v (m_block_info_manager pt)
    (m_resource_limit pt) (pt_mm pt).
Definition with_infos (v : S) pt : Table :=
  MkTable (pt_regions pt) (pt_config pt) (m_current_heap_end pt) (m_max_heap_size pt)
    (m_mapped_physical_memory_size pt) (m_mapped_insecure_memory pt) (m_impl pt)
    (m_memory_block_manager pt) (m_cached_physical_heap_region pt) (m_memory_block_slab_manager pt) v
    (m_resource_limit pt) (pt_mm pt).
Definition with_limit (v : KResourceLimit) pt : Table :=
  MkTable (pt_regions pt) (pt_config pt) (m_current_heap_end pt) (m_max_heap_size pt)
    (m_mapped_physical_memory_size pt) (m_mapped_insecure_memory pt) (m_impl pt)
    (m_memory_block_manager pt) (m_cached_physical_heap_region pt) (m_memory_block_slab_manager pt)
    (m_block_info_manager pt) v (pt_mm pt).
Definition with_mm (v : KMemoryManager R) pt : Table :=
  MkTable (pt_regions pt) (pt_config pt) (m_current_heap_end pt) (m_max_heap_size pt)
    (m_mapped_physical_memory_size pt) (m_mapped_insecure_memory pt) (m_impl pt)
    (m_memory_block_manager pt) (m_cached_physical_heap_region pt) (m_memory_block_slab_manager pt)
    (m_block_info_manager pt) (m_resource_limit pt) v.

Definition pt_IsHeapPhysicalAddress pt (phys_addr : Z) : prog (bool * Table) :=
  '(heap, cached) ← IsHeapPhysicalAddress (m_memory_layout (pt_mm pt))
                      (m_cached_physical_heap_region pt) phys_addr;
  mret (heap, with_cached cached pt).

(** The destructor of a local page group. *)
Definition drop_group pt g : Table := with_infos (KPageGroup_Finalize (m_block_info_manager pt) g).1 pt.

(** ** Page groups of mapped memory *)
Definition add_heap_block pt g (cur_addr cur_pages : Z) : prog (Z * Table * KPageGroup) :=
  '(heap, pt) ← pt_IsHeapPhysicalAddress pt cur_addr;
  if negb heap then mret (ResultInvalidCurrentMemory, pt, g)
  else
    '(r, s, g) ← KPageGroup_AddBlock (m_block_info_manager pt) g cur_addr cur_pages;
    mret (r, with_infos s pt, g).

(** The run of contiguous pages seen last, and the bytes seen so far. *)
Record Walk : Type := MkWalk { wk_addr : Z; wk_size : Z; wk_total : Z }.

Definition walk_start (e : TraversalEntry) : Walk :=
  let cur_size := u64 (te_block_size e - Z.land (te_phys_addr e) (u64 (te_block_size e - 1))) in
  MkWalk (te_phys_addr e) cur_size cur_size.

Fixpoint make_group_loop (fuel : nat) pt g (context : TraversalContext) (w : Walk) (size : Z)
    : prog (Z * Table * KPageGroup * Walk) :=
  if wk_total w <? size then
    match fuel with
    | O => Stuck
    | Datatypes.S fuel =>
        let '(ok, next, context) := ContinueTraversal (m_impl pt) context in
        let total := u64 (wk_total w + te_block_size next) in
        if negb ok then mret (ResultInvalidCurrentMemory, pt, g, w)
        else if negb (te_phys_addr next =? u64 (wk_addr w + wk_size w)) then
          '(r, pt, g) ← add_heap_block pt g (wk_addr w) (wk_size w / PageSize);
          if negb (Result_IsSuccess r) then mret (r, pt, g, w)
          else make_group_loop fuel pt g context
                 (MkWalk (te_phys_addr next) (te_block_size next) total) size
        else make_group_loop fuel pt g context
               (MkWalk (wk_addr w) (u64 (wk_size w + te_block_size next)) total) size
    end
  else mret (ResultSuccess, pt, g, w).

(** The size of the last run, without what is behind the end. *)
Definition last_run (w : Walk) (size : Z) : Z :=
  if size <? wk_total w then u64 (wk_size w - u64 (wk_total w - size)) else wk_size w.

Definition MakePageGroup pt g (addr num_pages : Z) : prog (Z * Table * KPageGroup) :=
  let size := u64 (num_pages * PageSize) in
  if negb (KPageGroup_empty g) then mret (ResultInvalidCurrentMemory, pt, g)
  else
    let '(ok, next, context) := BeginTraversal (m_impl pt) addr in
    if negb ok then mret (ResultInvalidCurrentMemory, pt, g)
    else
      '(r, pt, g, w) ← make_group_loop (Z.to_nat num_pages) pt g context (walk_start next) size;
      if negb (Result_IsSuccess r) then mret (r, pt, g)
      else add_heap_block pt g (wk_addr w) (last_run w size / PageSize).

(** What of the group is still to be compared: the rest of the current block and
    the blocks behind it. *)
Record GroupCursor : Type := MkCursor {
  gc_address : Z;
  gc_pages : Z;
  gc_rest : list KBlockInfo
}.

Definition UpdateCurrentIterator (c : GroupCursor) : option GroupCursor :=
  if gc_pages c =? 0 then
    match gc_rest c with
    | [] => None
    | b :: rest => Some (MkCursor (KBlockInfo_GetAddress b) (KBlockInfo_GetNumPages b) rest)
    end
  else Some c.

Fixpoint valid_group_loop (fuel : nat) pt (c : GroupCursor) (context : TraversalContext) (w : Walk)
    (size : Z) : prog (option (GroupCursor * Walk) * Table) :=
  if wk_total w <? size then
    match fuel with
    | O => Stuck
    | Datatypes.S fuel =>
        let '(ok, next, context) := ContinueTraversal (m_impl pt) context in
        let total := u64 (wk_total w + te_block_size next) in
        if negb ok then mret (None, pt)
        else if negb (te_phys_addr next =? u64 (wk_addr w + wk_size w)) then
          let cur_pages := wk_size w / PageSize in
          '(heap, pt) ← pt_IsHeapPhysicalAddress pt (wk_addr w);
          if negb heap then mret (None, pt)
          else
            match UpdateCurrentIterator c with
            | None => mret (None, pt)
            | Some c =>
                if negb (gc_address c =? wk_addr w) || (gc_pages c <? cur_pages) then mret (None, pt)
                else
                  valid_group_loop fuel pt
                    (MkCursor (u64 (gc_address c + wk_size w)) (u64 (gc_pages c - cur_pages)) (gc_rest c))
                    context (MkWalk (te_phys_addr next) (te_block_size next) total) size
            end
        else valid_group_loop fuel pt c context
               (MkWalk (wk_addr w) (u64 (wk_size w + te_block_size next)) total) size
    end
  else mret (Some (c, w), pt).

Definition IsValidPageGroup pt g (addr num_pages : Z) : prog (bool * Table) :=
  let size := u64 (num_pages * PageSize) in
  match g with
  | [] => mret (false, pt)
  | b :: rest =>
      let c := MkCursor (KBlockInfo_GetAddress b) (KBlockInfo_GetNumPages b) rest in
      let '(ok, next, context) := BeginTraversal (m_impl pt) addr in
      if negb ok then mret (false, pt)
      else
        '(res, pt) ← valid_group_loop (Z.to_nat num_pages) pt c context (walk_start next) size;
        match res with
        | None => mret (false, pt)
        | Some (c, w) =>
            '(heap, pt) ← pt_IsHeapPhysicalAddress pt (wk_addr w);
            if negb heap then mret (false, pt)
            else
              match UpdateCurrentIterator c with
              | None => mret (false, pt)
              | Some c =>
                  mret ((gc_address c =? wk_addr w) && (gc_pages c =? last_run w size / PageSize), pt)
              end
        end
  end.

(** ** Operate *)
Definition Operate pt (virt_addr num_pages phys_addr : Z) (is_pa_valid : bool)
    (properties : KPageProperties) (operation : OperationType) : prog (Z * Table) :=
  _ ← ASSERT (0 <? num_pages);
  _ ← ASSERT (IsAligned virt_addr PageSize);
  _ ← ASSERT (ContainsPages (pt_regions pt) virt_addr num_pages);
  let size := u64 (num_pages * PageSize) in
  match operation with
  | Op_Unmap | Op_UnmapPhysical =>
      '(_, pt, pages_to_close) ← MakePageGroup pt [] virt_addr num_pages;
      impl ← Memory_UnmapRegion (m_impl pt) virt_addr size;
      '(mm, s, _) ← KPageGroup_CloseAndReset (pt_mm pt) (m_block_info_manager pt) pages_to_close;
      mret (ResultSuccess, with_mm mm (with_infos s (with_impl impl pt)))
  | Op_Map =>
      _ ← ASSERT (negb (virt_addr =? 0));
      _ ← ASSERT (IsAligned virt_addr PageSize);
      impl ← Memory_MapMemoryRegion (m_impl pt) virt_addr size phys_addr;
      '(heap, pt) ← pt_IsHeapPhysicalAddress (with_impl impl pt) phys_addr;
      mm ← (if heap : bool then KMemoryManager_Open (pt_mm pt) phys_addr num_pages else mret (pt_mm pt));
      mret (ResultSuccess, with_mm mm pt)
  | Op_Separate => mret (ResultSuccess, pt)
  | Op_ChangePermissions | Op_ChangePermissionsAndRefresh | Op_ChangePermissionsAndRefreshAndFlush =>
      impl ← Memory_ProtectRegion (m_impl pt) virt_addr size;
      mret (ResultSuccess, with_impl impl pt)
  | Op_MapGroup | Op_MapFirstGroup | Op_MapFirstGroupPhysical => Stuck
  end.

Fixpoint map_group_loop (t : PageTable) g (virt_addr : Z) : prog PageTable :=
  match g with
  | [] => mret t
  | node :: g =>
      let size := u64 (KBlockInfo_GetNumPages node * PageSize) in
      t ← Memory_MapMemoryRegion t virt_addr size (KBlockInfo_GetAddress node);
      map_group_loop t g (u64 (virt_addr + size))
  end.

(** The scoped group is opened, and its close is cancelled at the end. *)
Definition Operate_group pt (virt_addr num_pages : Z) g (properties : KPageProperties)
    (operation : OperationType) : prog (Z * Table) :=
  _ ← ASSERT (IsAligned virt_addr PageSize);
  _ ← ASSERT (0 <? num_pages);
  _ ← ASSERT (num_pages =? KPageGroup_GetNumPages g);
  match operation with
  | Op_MapGroup | Op_MapFirstGroup | Op_MapFirstGroupPhysical =>
      let not_first := match operation with Op_MapGroup => true | _ => false end in
      mm ← KScopedPageGroup_construct (pt_mm pt) (Some g) not_first;
      impl ← map_group_loop (m_impl pt) g virt_addr;
      mret (ResultSuccess, with_mm mm (with_impl impl pt))
  | _ => Stuck
  end.

(** ** Memory that is contiguous in physical memory *)
Record MemoryRange : Type := MkMemoryRange { mrg_address : Z; mrg_size : Z; mrg_heap : bool }.

Definition MemoryRange_Open (o : MemoryRange) pt : prog Table :=
  if mrg_heap o then
    mm ← KMemoryManager_Open (pt_mm pt) (mrg_address o) (mrg_size o / PageSize); mret (with_mm mm pt)
  else mret pt.
Definition MemoryRange_Close (o : MemoryRange) pt : prog Table :=
  if mrg_heap o then
    mm ← KMemoryManager_Close (pt_mm pt) (mrg_address o) (mrg_size o / PageSize); mret (with_mm mm pt)
  else mret pt.

Fixpoint contiguous_size_loop (fuel : nat) (t : PageTable) (context : TraversalContext)
    (phys_address contig_size size : Z) : prog Z :=
  if contig_size <? size then
    match fuel with
    | O => Stuck
    | Datatypes.S fuel =>
        let '(ok, cur_entry, context) := ContinueTraversal t context in
        if negb ok then mret contig_size
        else if negb (te_phys_addr cur_entry =? u64 (phys_address + contig_size)) then mret contig_size
        else contiguous_size_loop fuel t context phys_address
               (u64 (contig_size + te_block_size cur_entry)) size
    end
  else mret contig_size.

Definition GetContiguousMemoryRangeWithState pt (address size : Z) (t : MemoryTest)
    : prog (Z * option MemoryRange) :=
  let '(ok, cur_entry, context) := BeginTraversal (m_impl pt) address in
  if negb ok then mret (ResultInvalidCurrentMemory, None)
  else
    let w := walk_start cur_entry in
    contig_size ← contiguous_size_loop (Z.to_nat (size / PageSize + 1)) (m_impl pt) context
                    (wk_addr w) (wk_size w) size;
    let size := Z.min size contig_size in
    let with_flag state :=
      MkTest (Z.lor (mt_state_mask t) KMemoryState_FlagReferenceCounted) state (mt_perm_mask t)
        (mt_perm t) (mt_attr_mask t) (mt_attr t) in
    '(r, _) ← CheckMemoryStateContiguous (m_memory_block_manager pt) address size
                (with_flag (Z.lor (mt_state t) KMemoryState_FlagReferenceCounted));
    if Result_IsSuccess r then mret (ResultSuccess, Some (MkMemoryRange (wk_addr w) size true))
    else
      '(r, _) ← CheckMemoryStateContiguous (m_memory_block_manager pt) address size
                  (with_flag (mt_state t));
      if negb (Result_IsSuccess r) then mret (r, None)
      else mret (ResultSuccess, Some (MkMemoryRange (wk_addr w) size false)).
End Table.
