(* ===== verification/PageTableOperations.v ===== *)
(** * The operations of the page table
    (src/src/core/hle/kernel/k_page_table_base.cpp)

    Permissions and attributes, the heap, aliases, mapping and unmapping of pages
    and page groups, and the locks for IPC buffers, transfer memory, code memory
    and device address spaces. *)

From S2P Require Import Prelude Common MemoryBlock OrderedTree MemoryBlockManager PageBitmap PageHeap MemoryRegionType MemoryRegion MemoryLayout PageGroup MemoryManager ResourceLimit PageTable.

Section Operations.
Context {R : Type} `{Rng R} {S : Type} `{SlabManager S}.
Implicit Types (pt : KPageTableBase R S) (g : KPageGroup) (a : UpdateAllocator S).
Local Abbreviation Table := (KPageTableBase R S).

(** ** Update allocators

    The slab is the table's: an allocator uses it as it is at each call.  The
    destructor runs at the end of the function, on every path. *)
Definition from_slab a pt : UpdateAllocator S :=
  MkAllocator (ua_blocks a) (ua_index a) (m_memory_block_slab_manager pt).

Definition with_allocator pt (num_blocks : Z)
    (f : UpdateAllocator S → Table → prog (Z * UpdateAllocator S * Table)) : prog (Z * Table) :=
  '(r, a) ← UpdateAllocator_Initialize (m_memory_block_slab_manager pt) num_blocks;
  let pt := with_block_slab (ua_slab a) pt in
  '(r, a, pt) ← (if Result_IsSuccess r then f a pt else mret (r, a, pt));
  mret (r, with_block_slab (UpdateAllocator_destroy (from_slab a pt)) pt).

(** One for the source and one for the destination. *)
Definition with_two_allocators pt (num_src num_dst : Z)
    (f : UpdateAllocator S → UpdateAllocator S → Table →
         prog (Z * UpdateAllocator S * UpdateAllocator S * Table)) : prog (Z * Table) :=
  with_allocator pt num_src (λ src pt,
    '(r, dst) ← UpdateAllocator_Initialize (m_memory_block_slab_manager pt) num_dst;
    let pt := with_block_slab (ua_slab dst) pt in
    '(r, src, dst, pt) ← (if Result_IsSuccess r then f src dst pt else mret (r, src, dst, pt));
    mret (r, src, with_block_slab (UpdateAllocator_destroy (from_slab dst pt)) pt)).

Definition on_blocks (f : KMemoryBlockManager → UpdateAllocator S →
                          prog (UpdateAllocator S * KMemoryBlockManager)) a pt
    : prog (UpdateAllocator S * Table) :=
  '(a, m) ← f (m_memory_block_manager pt) (from_slab a pt);
  mret (a, with_block_slab (ua_slab a) (with_blocks m pt)).

Definition update_blocks a pt (address num_pages state perm attr set_disable clear_disable : Z)
    : prog (UpdateAllocator S * Table) :=
  on_blocks (λ m a, KMemoryBlockManager_Update m a address num_pages state perm attr
                      set_disable clear_disable) a pt.

Definition lock_blocks a pt (address num_pages : Z)
    (lock_func : Z → bool → bool → KMemoryBlock → prog KMemoryBlock) (perm : Z)
    : prog (UpdateAllocator S * Table) :=
  on_blocks (λ m a, KMemoryBlockManager_UpdateLock m a address num_pages lock_func perm) a pt.

(** ** Permissions and attributes *)
Definition SetMemoryPermission pt (addr size svc_perm : Z) : prog (Z * Table) :=
  let num_pages := size / PageSize in
  '(r, c) ← CheckMemoryState (m_memory_block_manager pt) addr size
              (MkTest KMemoryState_FlagCanReprotect KMemoryState_FlagCanReprotect
                 KMemoryPermission_None KMemoryPermission_None
                 KMemoryAttribute_All KMemoryAttribute_None);
  if negb (Result_IsSuccess r) then mret (r, pt)
  else
    let new_perm := ConvertToKMemoryPermission svc_perm in
    if ck_perm c =? new_perm then mret (ResultSuccess, pt)
    else with_allocator pt (ck_blocks_needed c) (λ a pt,
      '(r, pt) ← Operate pt addr num_pages 0 false
                   (MkProperties new_perm false false DisableMergeAttribute_None)
                   Op_ChangePermissions;
      if negb (Result_IsSuccess r) then mret (r, a, pt)
      else
        '(a, pt) ← update_blocks a pt addr num_pages (ck_state c) new_perm KMemoryAttribute_None
                     DisableMerge_None DisableMerge_None;
        mret (ResultSuccess, a, pt)).

(** Code that becomes writable becomes data. *)
Definition writable_code_state (old_state : Z) : prog Z :=
  if old_state =? KMemoryState_Code then mret KMemoryState_CodeData
  else if old_state =? KMemoryState_AliasCode then mret KMemoryState_AliasCodeData
  else Stuck.

(** [has perm p] is [(perm & p) == p]. *)
Definition has (perm p : Z) : bool := Z.land perm p =? p.

Definition SetProcessMemoryPermission pt (addr size svc_perm : Z) : prog (Z * Table) :=
  let num_pages := size / PageSize in
  '(r, c) ← CheckMemoryState (m_memory_block_manager pt) addr size
              (MkTest KMemoryState_FlagCode KMemoryState_FlagCode
                 KMemoryPermission_None KMemoryPermission_None
                 KMemoryAttribute_All KMemoryAttribute_None);
  if negb (Result_IsSuccess r) then mret (r, pt)
  else
    let new_perm := ConvertToKMemoryPermission svc_perm in
    let is_w := has new_perm KMemoryPermission_UserWrite in
    let is_x := has new_perm KMemoryPermission_UserExecute in
    let was_x := has (ck_perm c) KMemoryPermission_UserExecute in
    _ ← ASSERT (negb (is_w && is_x));
    new_state ← (if is_w then writable_code_state (ck_state c) else mret (ck_state c));
    '(r, pt, g) ← (if is_x then MakePageGroup pt [] addr num_pages
                   else mret (ResultSuccess, pt, []));
    if negb (Result_IsSuccess r) then mret (r, drop_group pt g)
    else if (ck_perm c =? new_perm) && (ck_state c =? new_state) then
      mret (ResultSuccess, drop_group pt g)
    else
      '(r, pt) ← with_allocator pt (ck_blocks_needed c) (λ a pt,
        '(r, pt) ← Operate pt addr num_pages 0 false
                     (MkProperties new_perm false false DisableMergeAttribute_None)
                     (if was_x then Op_ChangePermissionsAndRefreshAndFlush else Op_ChangePermissions);
        if negb (Result_IsSuccess r) then mret (r, a, pt)
        else
          '(a, pt) ← update_blocks a pt addr num_pages new_state new_perm KMemoryAttribute_None
                       DisableMerge_None DisableMerge_None;
          mret (ResultSuccess, a, pt));
      mret (r, drop_group pt g).

Definition AttributeTestMask : Z :=
  u8 (Z.lnot (Z.lor KMemoryAttribute_SetMask KMemoryAttribute_DeviceShared)).

Definition SetMemoryAttribute pt (addr size mask attr : Z) : prog (Z * Table) :=
  let num_pages := size / PageSize in
  _ ← ASSERT (Z.lor mask KMemoryAttribute_SetMask =? KMemoryAttribute_SetMask);
  let changes_uncached := negb (Z.land mask KMemoryAttribute_Uncached =? 0) in
  let state_test_mask :=
    Z.lor (if changes_uncached then KMemoryState_FlagCanChangeAttribute else KMemoryState_None)
      (if negb (Z.land mask KMemoryAttribute_PermissionLocked =? 0)
       then KMemoryState_FlagCanPermissionLock else KMemoryState_None) in
  '(r, c) ← CheckMemoryState_ignoring (m_memory_block_manager pt) addr size
              (MkTest state_test_mask state_test_mask KMemoryPermission_None KMemoryPermission_None
                 AttributeTestMask KMemoryAttribute_None) (u8 (Z.lnot AttributeTestMask));
  if negb (Result_IsSuccess r) then mret (r, pt)
  else with_allocator pt (ck_blocks_needed c) (λ a pt,
    '(r, pt) ← (if changes_uncached then
                  let new_attr := Z.lor (Z.land (ck_attr c) (u8 (Z.lnot mask))) (Z.land attr mask) in
                  Operate pt addr num_pages 0 false
                    (MkProperties (ck_perm c) false
                       (negb (Z.land new_attr KMemoryAttribute_Uncached =? 0))
                       DisableMergeAttribute_None)
                    Op_ChangePermissionsAndRefreshAndFlush
                else mret (ResultSuccess, pt));
    if negb (Result_IsSuccess r) then mret (r, a, pt)
    else
      '(a, pt) ← on_blocks (λ m a, KMemoryBlockManager_UpdateAttribute m a addr num_pages mask attr) a pt;
      mret (ResultSuccess, a, pt)).

(** ** Queries *)
Definition QueryInfoImpl pt (address : Z) : Z * option KMemoryInfo :=
  match KMemoryBlockManager_FindBlock (m_memory_block_manager pt) address with
  | Some b => (ResultSuccess, Some (KMemoryBlock_GetMemoryInfo b))
  | None => (ResultInvalidCurrentMemory, None)
  end.

Definition QueryInfo pt (addr : Z) : Z * option KMemoryInfo :=
  if negb (KPageTable_Contains (pt_regions pt) addr 1) then
    (ResultSuccess,
     Some (MkInfo (m_address_space_end (pt_regions pt)) (u64 (0 - m_address_space_end (pt_regions pt)))
             KMemoryState_Inaccessible 0 0 0 0 0 KMemoryPermission_None KMemoryAttribute_None
             KMemoryPermission_None DisableMerge_None))
  else QueryInfoImpl pt addr.

Definition KPageTable_GetSize pt (state : Z) : Z :=
  foldl (λ total b, if m_memory_state b =? state then u64 (total + KMemoryBlock_GetSize b) else total)
    0 (blocks_from (m_memory_block_manager pt) (m_address_space_start (pt_regions pt))).
Definition GetCodeSize pt : Z := KPageTable_GetSize pt KMemoryState_Code.
Definition GetCodeDataSize pt : Z := KPageTable_GetSize pt KMemoryState_CodeData.
Definition GetAliasCodeSize pt : Z := KPageTable_GetSize pt KMemoryState_AliasCode.
Definition GetAliasCodeDataSize pt : Z := KPageTable_GetSize pt KMemoryState_AliasCodeData.

Definition GetNormalMemorySize pt : Z :=
  u64 (u64 (m_current_heap_end pt - m_heap_region_start (pt_regions pt)) +
       m_mapped_physical_memory_size pt).

(** ** Mapping page groups *)
Fixpoint map_impl_loop pt g (start_address cur_address : Z) (properties : KPageProperties)
    : prog (Z * Table * Z) :=
  match g with
  | [] => mret (ResultSuccess, pt, cur_address)
  | block :: g =>
      let cur_properties :=
        if cur_address =? start_address then properties
        else MkProperties (kp_perm properties) (kp_io properties) (kp_uncached properties)
               DisableMergeAttribute_None in
      '(r, pt) ← Operate pt cur_address (KBlockInfo_GetNumPages block) (KBlockInfo_GetAddress block)
                   true cur_properties Op_Map;
      if negb (Result_IsSuccess r) then mret (r, pt, cur_address)
      else map_impl_loop pt g start_address (u64 (cur_address + KBlockInfo_GetSize block)) properties
  end.

Definition MapPageGroupImpl pt (address : Z) g (properties : KPageProperties) (reuse_ll : bool)
    : prog (Z * Table) :=
  '(r, pt, cur_address) ← map_impl_loop pt g address address properties;
  if Result_IsSuccess r then mret (r, pt)
  else
    _ ← ASSERT (negb reuse_ll);
    if negb (cur_address =? address) then
      '(r', pt) ← Operate pt address (u64 (cur_address - address) / PageSize) 0 false
                    (MkProperties KMemoryPermission_None false false DisableMergeAttribute_None) Op_Unmap;
      _ ← ASSERT (Result_IsSuccess r');
      mret (r, pt)
    else mret (r, pt).

Definition AllocateAndMapPagesImpl pt (address num_pages perm : Z) : prog (Z * Table) :=
  '(r, mm, s, g) ← AllocateAndOpen (pt_mm pt) (m_block_info_manager pt) [] num_pages
                     (m_allocate_option (pt_config pt));
  let pt := with_mm mm (with_infos s pt) in
  if negb (Result_IsSuccess r) then mret (r, drop_group pt g)
  else
    let m := foldl (λ m b, ClearBackingRegion m (KBlockInfo_GetAddress b) (KBlockInfo_GetSize b)
                             (m_heap_fill_value (pt_config pt))) (mm_memory (pt_mm pt)) g in
    '(r, pt) ← Operate_group (with_mm (set_memory m (pt_mm pt)) pt) address num_pages g
                 (MkProperties perm false false DisableMergeAttribute_None) Op_MapGroup;
    mm ← KPageGroup_Close (pt_mm pt) g;
    mret (r, drop_group (with_mm mm pt) g).

(** ** The heap *)

(** The first critical section: the heap is made smaller, or stays, or the
    address and the size of an extension are returned. *)
Definition SetHeapSize_begin pt (size : Z) : prog (sum Z (Z * Z) * Table) :=
  let start := m_heap_region_start (pt_regions pt) in
  let current := u64 (m_current_heap_end pt - start) in
  if m_is_kernel (pt_config pt) then mret (inl ResultOutOfMemory, pt)
  else if negb (size <=? u64 (m_heap_region_end (pt_regions pt) - start)) then
    mret (inl ResultOutOfMemory, pt)
  else if negb (size <=? m_max_heap_size pt) then mret (inl ResultOutOfMemory, pt)
  else if size <? current then
    '(r, c) ← CheckMemoryState (m_memory_block_manager pt) (u64 (start + size)) (u64 (current - size))
                (MkTest KMemoryState_All KMemoryState_Normal KMemoryPermission_All
                   KMemoryPermission_UserReadWrite KMemoryAttribute_All KMemoryAttribute_None);
    if negb (Result_IsSuccess r) then mret (inl r, pt)
    else
      '(r, pt) ← with_allocator pt (ck_blocks_needed c) (λ a pt,
        let num_pages := u64 (current - size) / PageSize in
        '(r, pt) ← Operate pt (u64 (start + size)) num_pages 0 false
                     (MkProperties KMemoryPermission_None false false DisableMergeAttribute_None)
                     Op_Unmap;
        if negb (Result_IsSuccess r) then mret (r, a, pt)
        else
          let freed := u64 (num_pages * PageSize) in
          '(_, l) ← KResourceLimit_Release PhysicalMemoryMax (m_resource_limit pt) freed freed;
          let pt := with_limit l pt in
          '(a, pt) ← update_blocks a pt (u64 (start + size)) num_pages KMemoryState_Free
                       KMemoryPermission_None KMemoryAttribute_None DisableMerge_None
                       (if size =? 0 then DisableMerge_Normal else DisableMerge_None);
          mret (ResultSuccess, a, with_heap_end (u64 (start + size)) pt));
      mret (inl r, pt)
  else if size =? current then mret (inl ResultSuccess, pt)
  else mret (inr (m_current_heap_end pt, u64 (size - current)), pt).

(** The second critical section: the new pages are mapped. *)
Definition SetHeapSize_extend pt g (size cur_address allocation_size : Z) : prog (Z * Table) :=
  let start := m_heap_region_start (pt_regions pt) in
  _ ← ASSERT (cur_address =? m_current_heap_end pt);
  '(r, c) ← CheckMemoryState (m_memory_block_manager pt) (m_current_heap_end pt) allocation_size
              (MkTest KMemoryState_All KMemoryState_Free KMemoryPermission_None
                 KMemoryPermission_None KMemoryAttribute_None KMemoryAttribute_None);
  if negb (Result_IsSuccess r) then mret (r, pt)
  else with_allocator pt (ck_blocks_needed c) (λ a pt,
    let num_pages := allocation_size / PageSize in
    let first := m_current_heap_end pt =? start in
    '(r, pt) ← Operate_group pt (m_current_heap_end pt) num_pages g
                 (MkProperties KMemoryPermission_UserReadWrite false false
                    (if first then DisableMergeAttribute_DisableHead else DisableMergeAttribute_None))
                 Op_MapGroup;
    if negb (Result_IsSuccess r) then mret (r, a, pt)
    else
      '(a, pt) ← update_blocks a pt (m_current_heap_end pt) num_pages KMemoryState_Normal
                   KMemoryPermission_UserReadWrite KMemoryAttribute_None
                   (if first then DisableMerge_Normal else DisableMerge_None) DisableMerge_None;
      mret (ResultSuccess, a, with_heap_end (u64 (start + size)) pt)).

(** [waits], [tick] and [timeout] are those of the reservation; a result of
    [None] means that the reservation still waits.  The output is the start of
    the heap region. *)
Definition SetHeapSize (waits : list (Z * (KResourceLimit → KResourceLimit))) (tick timeout : Z) pt
    (size : Z) : prog (option Z * Table) :=
  '(first, pt) ← SetHeapSize_begin pt size;
  match first with
  | inl r => mret (Some r, pt)
  | inr (cur_address, allocation_size) =>
      '(res, limit) ← KScopedResourceReservation_new waits tick (Some (m_resource_limit pt))
                        PhysicalMemoryMax allocation_size timeout;
      l ← deref limit;
      let pt := with_limit l pt in
      match res with
      | None => mret (None, pt)
      | Some res =>
          if negb (sr_succeeded res) then mret (Some ResultLimitReached, pt)
          else
            '(r, mm, s, g) ← AllocateAndOpen (pt_mm pt) (m_block_info_manager pt) []
                               (allocation_size / PageSize) (m_allocate_option (pt_config pt));
            let pt := with_mm mm (with_infos s pt) in
            '(r, pt) ←
              (if negb (Result_IsSuccess r) then mret (r, pt)
               else
                 let m := foldl (λ m b, ClearBackingRegion m (KBlockInfo_GetAddress b)
                                          (KBlockInfo_GetSize b) (m_heap_fill_value (pt_config pt)))
                            (mm_memory (pt_mm pt)) g in
                 '(r, pt) ← SetHeapSize_extend (with_mm (set_memory m (pt_mm pt)) pt) g size
                              cur_address allocation_size;
                 mm ← KPageGroup_Close (pt_mm pt) g;
                 mret (r, with_mm mm pt));
            let pt := drop_group pt g in
            l ← KScopedResourceReservation_delete
                  (if Result_IsSuccess r then KScopedResourceReservation_Commit res else res)
                  (m_resource_limit pt);
            mret (Some r, with_limit l pt)
      end
  end.

Definition SetMaxHeapSize pt (size : Z) : prog (Z * Table) :=
  _ ← ASSERT (negb (m_is_kernel (pt_config pt)));
  mret (ResultSuccess, with_max_heap_size size pt).
End Operations.
