(* ===== verification/PageTableCheck.v ===== *)
(** Lemmas about the page table: checks of memory, the invariant of the table and
    the parts that its operations share. *)

From S2P Require Import Prelude Common MemoryBlock OrderedTree MemoryBlockManager MemoryBlockManagerLemmas MemoryBlockManagerUpdate MemoryBlockManagerTheorems PageBitmap PageHeap MemoryRegionType MemoryRegion MemoryLayout PageGroup MemoryManager ResourceLimit PageTable PageTableOperations.

(** * Checking the memory of a range

    [CheckMemoryState] accepts a range exactly when all its pages have the same
    state and permission and pass the test, and the number of blocks it reports
    is the number that an update of the range needs. *)

(** ** What is asked of a page *)
Definition passes (t : MemoryTest) (q : PageProps) : Prop :=
  Z.land (pp_state q) (mt_state_mask t) = mt_state t ∧
  Z.land (pp_permission q) (mt_perm_mask t) = mt_perm t ∧
  Z.land (pp_attribute q) (mt_attr_mask t) = mt_attr t.

Definition alike (ignore_attr : Z) (q q' : PageProps) : Prop :=
  pp_state q' = pp_state q ∧ pp_permission q' = pp_permission q ∧
  Z.lor (pp_attribute q') ignore_attr = Z.lor (pp_attribute q) ignore_attr.

Lemma CheckMemoryState_info_cases b t :
  let info := KMemoryBlock_GetMemoryInfo b in
  CheckMemoryState_info info t = ResultSuccess ∧ passes t (props b) ∨
  CheckMemoryState_info info t = ResultInvalidCurrentMemory ∧ ¬ passes t (props b).
Proof.
  unfold CheckMemoryState_info, passes. simpl.
  repeat (destruct (_ =? _) eqn:?; bool_prop; cbn [negb]; [|right; split; [done|tauto]]). by left.
Qed.

(** A range of whole pages of the address space. *)
Record range_ok (m : KMemoryBlockManager) (addr n : Z) : Prop := {
  ro_wf : mgr_wf m;
  ro_pages : 0 < n;
  ro_aligned : addr mod PageSize = 0;
  ro_start : m_start_address m ≤ addr;
  ro_end : addr + n * PageSize ≤ m_end_address m
}.

Lemma range_bounds m addr n : range_ok m addr n →
  0 ≤ addr ∧ addr < addr + n * PageSize < 2 ^ 64.
Proof. intros [[? ? _ _ _] ? ? ? ?]. rewrite PageSize_eq in *. lia. Qed.

Lemma info_last b : fits b → KMemoryInfo_GetLastAddress (KMemoryBlock_GetMemoryInfo b) = bend b - 1.
Proof. apply fits_last. Qed.

(** ** The loop *)
Definition good (t : MemoryTest) (ignore_attr : Z) (first b : KMemoryBlock) : Prop :=
  alike ignore_attr (props first) (props b) ∧ passes t (props b).

Lemma check_loop_run t ignore_attr first nd last_addr l : ∀ st,
  tiles st l nd → st ≤ last_addr < nd →
  wp (check_loop l (KMemoryBlock_GetMemoryInfo first) last_addr t ignore_attr) (λ '(r, info),
    (r = ResultSuccess ∧ ∃ l1 b l2, l = l1 ++ b :: l2 ∧ info = KMemoryBlock_GetMemoryInfo b ∧
       m_address b ≤ last_addr < bend b ∧ Forall (good t ignore_attr first) (l1 ++ [b])) ∨
    (r = ResultInvalidCurrentMemory ∧ ∃ b, b ∈ l ∧ m_address b ≤ last_addr ∧ ¬ good t ignore_attr first b)).
Proof.
  induction l as [|b l IH]; intros st; cbn [tiles]; [lia|]. intros (<- & Hf & Ht) Hl. cbn [check_loop].
  assert (Hbad : ¬ good t ignore_attr first b →
    wp (mret (ResultInvalidCurrentMemory, KMemoryBlock_GetMemoryInfo b)) (λ '(r, info),
    (r = ResultSuccess ∧ ∃ l1 c l2, b :: l = l1 ++ c :: l2 ∧ info = KMemoryBlock_GetMemoryInfo c ∧
       m_address c ≤ last_addr < bend c ∧ Forall (good t ignore_attr first) (l1 ++ [c])) ∨
    (r = ResultInvalidCurrentMemory ∧ ∃ c, c ∈ b :: l ∧ m_address c ≤ last_addr ∧ ¬ good t ignore_attr first c))).
  { intros Hb. apply wp_ret. right. split; [done|]. exists b. split; [by left|]. split; [lia|done]. }
  unfold good, alike in Hbad. cbn [info_state info_permission info_attribute KMemoryBlock_GetMemoryInfo].
  destruct (m_memory_state b =? _) eqn:E1; bool_prop; cbn [negb]; [|apply Hbad; simpl; tauto].
  destruct (m_permission b =? _) eqn:E2; bool_prop; cbn [negb]; [|apply Hbad; simpl; tauto].
  destruct (Z.lor _ _ =? _) eqn:E3; bool_prop; cbn [negb]; [|apply Hbad; simpl; tauto].
  destruct (CheckMemoryState_info_cases b t) as [[E4 Hp]|[E4 Hp]]; cbv zeta in E4; rewrite E4;
    [|apply Hbad; tauto].
  change (Result_IsSuccess ResultSuccess) with true. cbn [negb]. rewrite info_last by done.
  assert (Hg : good t ignore_attr first b) by done.
  destruct (last_addr <=? bend b - 1) eqn:E5; bool_prop.
  - apply wp_ret. left. split; [done|]. exists [], b, l. split; [done|].
    split; [done|]. split; [lia|]. by constructor.
  - eapply wp_mono; [apply (IH (bend b)); [done|lia]|].
    intros [r info] [(-> & l1 & c & l2 & -> & -> & Hc & HF)|(-> & c & Hin & Hc & Hbg)].
    + left. split; [done|]. exists (b :: l1), c, l2. split; [done|]. split; [done|].
      split; [done|]. by constructor.
    + right. split; [done|]. exists c. split_and!; [by right|done..].
Qed.

(** ** Counting the cuts *)
Lemma cut_here x st l1 b l2 nd :
  tiles st (l1 ++ b :: l2) nd → m_address b ≤ x ≤ bend b →
  sum_list_with (λ b, if decide (m_address b < x < bend b)%Z then 1%nat else 0%nat) (l1 ++ b :: l2) =
    if decide (m_address b < x < bend b) then 1%nat else 0%nat.
Proof.
  intros (mid & Ht1 & (<- & Hf & Ht2))%tiles_app Hx. rewrite sum_list_with_app. simpl.
  assert (E : ∀ l st' nd', tiles st' l nd' → nd' ≤ x ∨ x ≤ st' →
    sum_list_with (λ b, if decide (m_address b < x < bend b)%Z then 1%nat else 0%nat) l = 0%nat).
  { clear. induction l as [|c l IH]; intros st' nd'; [done|]. intros (<- & Hf & Ht) Hx. simpl.
    pose proof (tiles_le _ _ _ Ht). pose proof (fits_lt c Hf).
    rewrite (IH _ _ Ht) by lia. rewrite decide_False by lia. done. }
  rewrite (E _ _ _ Ht1), (E _ _ _ Ht2) by lia. lia.
Qed.

Lemma list_cuts_count lo hi st l1 b l2 l1' b' l2' l nd :
  l = l1 ++ b :: l2 → l = l1' ++ b' :: l2' → tiles st l nd →
  m_address b ≤ lo < bend b → m_address b' < hi ≤ bend b' →
  Z.of_nat (list_cuts lo hi l) =
    (if decide (m_address b = lo) then 0 else 1) + (if decide (bend b' = hi) then 0 else 1).
Proof.
  intros E1 E2 Ht Hb Hb'.
  assert (list_cuts lo hi l =
    sum_list_with (λ b, if decide (m_address b < lo < bend b)%Z then 1 else 0) l +
    sum_list_with (λ b, if decide (m_address b < hi < bend b)%Z then 1 else 0) l)%nat as ->.
  { clear. unfold list_cuts. induction l as [|b l IH]; simpl; [done|].
    rewrite IH. unfold cuts. lia. }
  rewrite E1 at 1. rewrite E1 in Ht. rewrite (cut_here lo _ _ _ _ _ Ht) by lia.
  rewrite <- E1, E2 in Ht. rewrite E2. rewrite (cut_here hi _ _ _ _ _ Ht) by lia.
  repeat case_decide; lia.
Qed.

(** ** CheckMemoryState *)
Definition checked (m : KMemoryBlockManager) (addr n : Z) (t : MemoryTest) (ignore_attr : Z)
    (c : Checked) : Prop :=
  (∃ q, pages m addr = Some q ∧ ck_state c = pp_state q ∧ ck_perm c = pp_permission q ∧
     ck_attr c = Z.land (pp_attribute q) (u8 (Z.lnot ignore_attr)) ∧
     ∀ x, addr ≤ x < addr + n * PageSize →
       ∃ q', pages m x = Some q' ∧ alike ignore_attr q q' ∧ passes t q') ∧
  ck_blocks_needed c = Z.of_nat (list_cuts addr (addr + n * PageSize) (m_memory_block_tree m)).

Lemma blocks_from_split m addr n : range_ok m addr n → ∃ l1 b l2,
  m_memory_block_tree m = l1 ++ b :: l2 ∧ blocks_from m addr = b :: l2 ∧
  m_address b ≤ addr < bend b ∧ fits b ∧ tiles (m_address b) (b :: l2) (m_end_address m).
Proof.
  intros Hr. pose proof (range_bounds _ _ _ Hr). destruct Hr as [[? ? Ht _ _] ? ? ? ?].
  destruct (tiles_split _ _ _ addr Ht) as (l1 & b & l2 & E & Hb & _ & Hf & Ht2); [lia|].
  exists l1, b, l2. unfold blocks_from. rewrite E in *.
  rewrite (FindIterator_app _ _ _ _ _ _ Ht Hb), drop_app_length. done.
Qed.

Lemma align_last addr n m : range_ok m addr n →
  u64 (AlignDown (u64 (u64 (addr + n * PageSize) - 1)) PageSize + PageSize) = addr + n * PageSize.
Proof.
  intros Hr. pose proof (range_bounds _ _ _ Hr) as [? ?]. pose proof (ro_aligned _ _ _ Hr) as Ha.
  rewrite (u64_id (addr + _)), (u64_id (_ - 1)) by (unfold is_u64; lia).
  pose proof PageSize_eq as Hp. unfold AlignDown.
  assert (E : (addr + n * PageSize - 1) mod PageSize = PageSize - 1).
  { replace (addr + n * PageSize - 1) with (PageSize - 1 + (addr / PageSize + n - 1) * PageSize).
    - rewrite Z.mod_add, Z.mod_small by lia. done.
    - pose proof (Z.div_mod addr PageSize ltac:(lia)). lia. }
  rewrite E. rewrite u64_id by (unfold is_u64; lia). lia.
Qed.

(** A block of a list that starts before the end of another one is not behind it. *)
Lemma walked_block st nd l1 c l2 d x : tiles st (l1 ++ c :: l2) nd → d ∈ l1 ++ c :: l2 →
  m_address d ≤ x → x < bend c → d ∈ l1 ++ [c].
Proof.
  intros Ht Hd Hdx Hxc. assert (Hd' : d ∈ (l1 ++ [c]) ++ l2) by (by rewrite <- app_assoc).
  apply elem_of_app in Hd' as [?|Hd']; [done|]. exfalso.
  replace (l1 ++ c :: l2) with ((l1 ++ [c]) ++ l2) in Ht by (by rewrite <- app_assoc).
  apply tiles_app in Ht as (mid & Hm1 & Hm2). apply tiles_app in Hm1 as (mid' & _ & _ & _ & Hmid).
  simpl in Hmid. apply tiles_bounds in Hm2. rewrite Forall_forall in Hm2.
  destruct (Hm2 d Hd') as (_ & ? & _). lia.
Qed.

Lemma CheckMemoryState_run m addr n t ignore_attr : range_ok m addr n →
  wp (CheckMemoryState_ignoring m addr (n * PageSize) t ignore_attr) (λ '(r, c),
    (r = ResultSuccess ∧ checked m addr n t ignore_attr c) ∨
    (r = ResultInvalidCurrentMemory ∧ ¬ ∃ c, checked m addr n t ignore_attr c)).
Proof.
  intros Hr. pose proof (range_bounds _ _ _ Hr) as [? ?].
  destruct (blocks_from_split _ _ _ Hr) as (l1 & b & l2 & E & Eb & Hb & Hf & Ht).
  pose proof (wf_tiles _ (ro_wf _ _ _ Hr)) as Htt.
  assert (Hpb : ∀ x c, c ∈ b :: l2 → m_address c ≤ x < bend c → pages m x = Some (props c)).
  { intros x c Hc Hx. eapply pages_Some; [done|]. exists c. split; [|done]. split; [|done].
    rewrite E. apply elem_of_app. by right. }
  unfold CheckMemoryState_ignoring, CheckMemoryState_from. rewrite Eb. cbn [head].
  pstep. rewrite !bind_assoc. apply wp_bind. eapply wp_mono.
  { apply (check_loop_run t ignore_attr b (m_end_address m) _ _ (m_address b) Ht).
    rewrite (u64_id (addr + _)), u64_id by (unfold is_u64; lia). destruct Hr. lia. }
  intros [r info] [(-> & l3 & c & l4 & E3 & -> & Hc & HF)|(-> & c & Hin & Hc & Hbad)].
  - change (Result_IsSuccess ResultSuccess) with true. cbn [negb]. pstep.
    change (Result_IsSuccess ResultSuccess) with true. cbn [negb]. pstep. apply wp_ret. left. split; [done|].
    rewrite (align_last _ _ _ Hr).
    rewrite (u64_id (addr + _)), (u64_id (_ - 1)) in Hc by (unfold is_u64; lia).
    assert (Hce : fits c).
    { rewrite E3 in Ht. apply tiles_app in Ht as (mid & _ & _ & ? & _). done. }
    rewrite (fits_info_end c Hce).
    assert (Ead : AlignDown addr PageSize = addr).
    { unfold AlignDown. rewrite (ro_aligned _ _ _ Hr). lia. }
    rewrite Ead. split.
    + exists (props b). split; [by apply Hpb; [left|]|].
      split; [by destruct (negb _)|]. split; [by destruct (negb _)|]. split; [by destruct (negb _)|].
      intros x Hx. rewrite E3 in Ht.
      destruct (tiles_split _ _ _ x Ht) as (k1 & d & k2 & Ed & Hd & Hk1 & Hfd & Hk2);
        [destruct Hr; lia|].
      exists (props d). split; [apply Hpb; [rewrite E3, Ed; set_solver|done]|].
      rewrite Forall_forall in HF. apply HF, (walked_block _ _ l3 c l4 d x Ht); [rewrite Ed; set_solver|lia..].
    + rewrite (list_cuts_count addr (addr + n * PageSize) (m_start_address m) l1 b l2
        (l1 ++ l3) c l4 (m_memory_block_tree m) (m_end_address m)); [|done|by rewrite E, E3, <- app_assoc|done|done|lia].
      destruct (addr =? m_address b) eqn:Ea, (addr + n * PageSize =? bend c) eqn:Ee; bool_prop;
        cbn [negb ck_blocks_needed]; repeat case_decide; lia.
  - assert (Result_IsSuccess ResultInvalidCurrentMemory = false) as -> by done. cbn [negb]. pstep.
    assert (Result_IsSuccess ResultInvalidCurrentMemory = false) as -> by done. cbn [negb].
    apply wp_ret. right. split; [done|]. intros (c' & (q & Hq & _ & _ & _ & Hall) & _). apply Hbad.
    rewrite (u64_id (addr + _)), (u64_id (_ - 1)) in Hc by (unfold is_u64; lia).
    pose proof (tiles_bounds _ _ _ Ht) as HB. rewrite Forall_forall in HB.
    destruct (HB c Hin) as (Hfc & Hlo & _). pose proof (fits_lt c Hfc).
    rewrite (Hpb addr b) in Hq by (done || by left). simplify_eq.
    destruct (Hall (Z.max addr (m_address c))) as (q' & Hq' & Ha & Hp); [lia|].
    assert (Hcx : m_address c ≤ Z.max addr (m_address c) < bend c).
    { split; [lia|]. destruct (decide (c = b)) as [->|Hne]; [lia|].
      assert (Hc2 : c ∈ l2) by set_solver. destruct Ht as (_ & _ & Ht). apply tiles_bounds in Ht.
      rewrite Forall_forall in Ht. destruct (Ht c Hc2) as (_ & ? & _). lia. }
    rewrite (Hpb _ c Hin Hcx) in Hq'. simplify_eq. done.
Qed.

(** ** CheckMemoryStateContiguous *)
Lemma contiguous_loop_run t nd last_addr l : ∀ st,
  tiles st l nd → st ≤ last_addr < nd →
  wp (contiguous_loop l last_addr t) (λ '(r, info),
    (r = ResultSuccess ∧ ∃ l1 b l2, l = l1 ++ b :: l2 ∧ info = KMemoryBlock_GetMemoryInfo b ∧
       m_address b ≤ last_addr < bend b ∧ Forall (λ b, passes t (props b)) (l1 ++ [b])) ∨
    r = ResultInvalidCurrentMemory).
Proof.
  induction l as [|b l IH]; intros st; cbn [tiles]; [lia|]. intros (<- & Hf & Ht) Hl. cbn [contiguous_loop].
  destruct (CheckMemoryState_info_cases b t) as [[E Hp]|[E Hp]]; cbv zeta in E; rewrite E; [|by right].
  change (Result_IsSuccess ResultSuccess) with true. cbn [negb]. rewrite info_last by done.
  destruct (last_addr <=? bend b - 1) eqn:E5; bool_prop.
  - apply wp_ret. left. split; [done|]. exists [], b, l. split_and!; [done|done|lia|lia|by constructor].
  - eapply wp_mono; [apply (IH (bend b)); [done|lia]|].
    intros [r info] [(-> & l1 & c & l2 & -> & -> & Hc & HF)| ->]; [|by right].
    left. split; [done|]. exists (b :: l1), c, l2. split_and!; [done|done|lia|lia|by constructor].
Qed.

Lemma AlignUp_page x : 0 ≤ x < 2 ^ 64 → x mod PageSize = 0 → AlignUp x PageSize = x.
Proof. intros Hx Hm. unfold AlignUp. rewrite Hm, Z.eqb_refl, Z.sub_0_r. by apply u64_id. Qed.

(** A range of which all pages pass the test, and the number of blocks an update of
    it needs. *)
Lemma CheckMemoryStateContiguous_run m addr n t : range_ok m addr n →
  wp (CheckMemoryStateContiguous m addr (n * PageSize) t) (λ '(r, k),
    (r = ResultSuccess ∧
     k = Z.of_nat (list_cuts addr (addr + n * PageSize) (m_memory_block_tree m)) ∧
     ∀ x, addr ≤ x < addr + n * PageSize → ∃ q, pages m x = Some q ∧ passes t q) ∨
    r = ResultInvalidCurrentMemory).
Proof.
  intros Hr. pose proof (range_bounds _ _ _ Hr) as [? ?].
  destruct (blocks_from_split _ _ _ Hr) as (l1 & b & l2 & E & Eb & Hb & Hf & Ht).
  pose proof (wf_tiles _ (ro_wf _ _ _ Hr)) as Htt. pose proof PageSize_eq as Eps.
  unfold CheckMemoryStateContiguous. rewrite Eb. cbn [head]. pstep. apply wp_bind. eapply wp_mono.
  { apply (contiguous_loop_run t (m_end_address m) _ _ (m_address b) Ht).
    rewrite (u64_id (addr + _)), u64_id by (unfold is_u64; lia). destruct Hr. lia. }
  intros [r info] [(-> & l3 & c & l4 & E3 & -> & Hc & HF)| ->]; [|apply wp_ret; by right].
  change (Result_IsSuccess ResultSuccess) with true. cbn [negb]. apply wp_ret. left. split; [done|].
  rewrite (u64_id (addr + _)), (u64_id (_ - 1)) in Hc by (unfold is_u64; lia).
  rewrite (u64_id (addr + _)) by (unfold is_u64; lia).
  assert (Hce : fits c).
  { rewrite E3 in Ht. apply tiles_app in Ht as (mid & _ & _ & ? & _). done. }
  rewrite (fits_info_end c Hce).
  assert (AlignDown addr PageSize = addr) as ->.
  { unfold AlignDown. rewrite (ro_aligned _ _ _ Hr). lia. }
  rewrite AlignUp_page by (try rewrite Z.mod_add by lia; try apply Hr; lia). split.
  - rewrite (list_cuts_count addr (addr + n * PageSize) (m_start_address m) l1 b l2
      (l1 ++ l3) c l4 (m_memory_block_tree m) (m_end_address m)); [|done|by rewrite E, E3, <- app_assoc|done|done|lia].
    destruct (addr =? m_address b) eqn:Ea, (addr + n * PageSize =? bend c) eqn:Ee; bool_prop;
      cbn [negb]; repeat case_decide; lia.
  - intros x Hx. rewrite E3 in Ht.
    destruct (tiles_split _ _ _ x Ht) as (k1 & d & k2 & Ed & Hd & _); [destruct Hr; lia|].
    exists (props d). split.
    + eapply pages_Some; [done|]. exists d. split; [|done]. split; [|done].
      rewrite E, E3, Ed. set_solver.
    + rewrite Forall_forall in HF. apply HF. eapply (walked_block _ _ l3 c l4 d x Ht); [rewrite Ed; set_solver|lia..].
Qed.

(** * The invariant of the page table and the parts its operations share *)

(** The state of a page is a word and its attribute a byte, a page has no original permission unless it
    is locked for IPC, and no free page is. *)
Definition page_ok (q : PageProps) : Prop :=
  0 ≤ pp_state q < 2 ^ 32 ∧ 0 ≤ pp_attribute q < 2 ^ 8 ∧
  (Z.land (pp_attribute q) KMemoryAttribute_IpcLocked = 0 →
   pp_original_permission q = KMemoryPermission_None) ∧
  (pp_state q = KMemoryState_Free → Z.land (pp_attribute q) KMemoryAttribute_IpcLocked = 0).

Section Table.
Context {R : Type} `{Rng R} {S : Type} `{SlabExact S}.
Implicit Types (pt : KPageTableBase R S).

(** The blocks tile the address space, which is inside the table of entries. *)
Record table_ok pt : Prop := {
  tk_blocks : mgr_wf (m_memory_block_manager pt);
  tk_start : m_start_address (m_memory_block_manager pt) = m_address_space_start (pt_regions pt);
  tk_end : m_end_address (m_memory_block_manager pt) = m_address_space_end (pt_regions pt);
  tk_aligned : m_address_space_start (pt_regions pt) mod PageSize = 0;
  tk_bound : m_address_space_end (pt_regions pt) ≤ entries_size (m_impl pt) * PageSize;
  tk_entries : entries_size (m_impl pt) ≤ 2 ^ 40;
  tk_page_size : page_size (m_impl pt) = PageSize;
  tk_pages x q : pages (m_memory_block_manager pt) x = Some q → page_ok q
}.

(** A range of whole pages of the address space. *)
Definition table_range pt (addr n : Z) : Prop :=
  0 < n ∧ addr mod PageSize = 0 ∧ m_address_space_start (pt_regions pt) ≤ addr ∧
  addr + n * PageSize ≤ m_address_space_end (pt_regions pt).

Lemma table_range_ok pt addr n :
  table_ok pt → table_range pt addr n → range_ok (m_memory_block_manager pt) addr n.
Proof.
  intros Hk (? & ? & ? & ?). split; try done; [apply Hk|..].
  - by rewrite (tk_start _ Hk).
  - by rewrite (tk_end _ Hk).
Qed.

Lemma table_range_bounds pt addr n : table_ok pt → table_range pt addr n →
  0 ≤ addr ∧ addr < addr + n * PageSize ≤ 2 ^ 52 ∧ 0 < n ≤ 2 ^ 40 ∧
  addr + n * PageSize ≤ m_address_space_end (pt_regions pt) ∧
  0 ≤ m_address_space_start (pt_regions pt) ∧ m_address_space_end (pt_regions pt) ≤ 2 ^ 52.
Proof.
  intros Hk Hr. pose proof (table_range_ok _ _ _ Hk Hr) as Hro.
  pose proof (range_bounds _ _ _ Hro). destruct Hr as (? & ? & ? & ?).
  pose proof (tk_bound _ Hk). pose proof (tk_entries _ Hk). pose proof (wf_start _ (tk_blocks _ Hk)) as Hs.
  rewrite (tk_start _ Hk), (tk_end _ Hk) in Hs. rewrite PageSize_eq in *. lia.
Qed.

Lemma range_size pt addr n : table_ok pt → table_range pt addr n →
  u64 (n * PageSize) = n * PageSize ∧ u64 (addr + n * PageSize) = addr + n * PageSize ∧
  n * PageSize / PageSize = n ∧ Z.land (n * PageSize) (PageSize - 1) = 0 ∧
  Z.land addr (PageSize - 1) = 0.
Proof.
  intros Hk Hr. pose proof (table_range_bounds _ _ _ Hk Hr). destruct Hr as (_ & Ha & _).
  rewrite !u64_id by (unfold is_u64; rewrite PageSize_eq in *; lia).
  assert (Hland : ∀ x, x mod PageSize = 0 → Z.land x (PageSize - 1) = 0).
  { intros x Hx. change (PageSize - 1) with (Z.ones 12). rewrite Z.land_ones by lia. done. }
  split_and!; [done|done|apply Z.div_mul; rewrite PageSize_eq; lia|apply Hland, Z.mod_mul; by rewrite PageSize_eq|].
  by apply Hland.
Qed.

Lemma ContainsPages_run pt addr n : table_ok pt → table_range pt addr n →
  ContainsPages (pt_regions pt) addr n = true.
Proof.
  intros Hk Hr. pose proof (table_range_bounds _ _ _ Hk Hr) as (? & ? & ? & ? & ? & ?).
  destruct (range_size _ _ _ Hk Hr) as (E1 & E2 & _). destruct Hr as (_ & _ & ? & _).
  unfold ContainsPages. rewrite E1, E2, !u64_id by (unfold is_u64; lia).
  rewrite !(proj2 (Z.leb_le _ _)); [done|lia| |lia].
  apply Z.div_le_lower_bound; [rewrite PageSize_eq; lia|]. rewrite PageSize_eq in *. lia.
Qed.

Lemma with_impl_id pt : with_impl (m_impl pt) pt = pt.
Proof. by destruct pt. Qed.

(** *** Operate: permissions are not part of the state *)
Lemma Operate_permissions pt addr n phys valid p op : table_ok pt → table_range pt addr n →
  op ∈ [Op_ChangePermissions; Op_ChangePermissionsAndRefresh; Op_ChangePermissionsAndRefreshAndFlush] →
  Operate pt addr n phys valid p op = Done true (ResultSuccess, pt).
Proof.
  intros Hk Hr Hop. destruct (range_size _ _ _ Hk Hr) as (E1 & _ & _ & E3 & E4).
  unfold Operate. rewrite (proj2 (Z.ltb_lt 0 n)) by apply Hr.
  rewrite (proj2 (IsAligned_page addr)) by apply Hr. rewrite (ContainsPages_run _ _ _ Hk Hr).
  change (ASSERT true) with (Done true ()). pstep. rewrite E1. unfold Memory_ProtectRegion.
  rewrite E3, E4. change (ASSERT (0 =? 0)) with (Done true ()).
  repeat (apply elem_of_cons in Hop as [->|Hop]; [pstep; by rewrite with_impl_id|]).
  by apply not_elem_of_nil in Hop.
Qed.

(** *** Update allocators *)
Definition slab_of pt : nat := slab_size (m_memory_block_slab_manager pt).
Definition tree_of pt : list KMemoryBlock := m_memory_block_tree (m_memory_block_manager pt).

Lemma with_allocator_run pt k f (Q : Z → nat → KPageTableBase R S → Prop) :
  (k ≤ 2)%nat →
  (∀ s, (slab_size s + k = slab_of pt)%nat →
     wp (f (alloc k s) (with_block_slab s pt)) (λ '(r, a, pt'),
       alloc_ok a ∧ ua_slab a = m_memory_block_slab_manager pt' ∧ Q r (blocks_left a) pt')) →
  wp (with_allocator pt (Z.of_nat k) f) (λ '(r, pt'),
    (r = ResultOutOfResource ∧ (slab_of pt < k)%nat ∧
     ∃ s, slab_size s = slab_of pt ∧ pt' = with_block_slab s pt) ∨
    ∃ pt1 n s, Q r n pt1 ∧ slab_size s = n ∧ pt' = with_block_slab s pt1).
Proof.
  intros Hk Hf. unfold with_allocator. apply wp_bind. eapply wp_mono.
  { apply UpdateAllocator_Initialize_correct; [done|]. apply slab_none. }
  intros [r a] (Hr & Hb & Hd). case_decide as E.
  - destruct Hr as (-> & s' & -> & Hs). change (Result_IsSuccess ResultSuccess) with true.
    apply wp_bind. eapply wp_mono; [apply (Hf s'); done|].
    intros [[r a] pt'] ((n & s & Hn & ->) & Es & HQ). apply wp_ret. right.
    exists pt', (blocks_left (alloc n s)). eexists. split; [done|]. split; [|done].
    unfold from_slab. rewrite <- Es. simpl. fold (alloc n s).
    rewrite (blocks_left_alloc n s Hn). by apply (alloc_destroy n s).
  - rewrite Hr. assert (Result_IsSuccess ResultOutOfResource = false) as -> by done. pstep.
    apply wp_ret. left. split; [done|]. split; [unfold slab_of; lia|]. eexists. split; [|done].
    unfold from_slab. simpl. unfold slab_of. rewrite <- Hd. by destruct a.
Qed.

Lemma alloc_slab n (s : S) : ua_slab (alloc n s) = s.
Proof. done. Qed.

(** An update of blocks through an allocator of the table. *)
Lemma on_blocks_run f k (s : S) pt addr n g :
  m_memory_block_slab_manager pt = s →
  wp (f (m_memory_block_manager pt) (alloc k s)) (updated addr n g (m_memory_block_manager pt) k s) →
  wp (on_blocks f (alloc k s) pt) (λ '(a, pt'), alloc_ok a ∧ ua_slab a = m_memory_block_slab_manager pt' ∧
    ∃ m, pt' = with_block_slab (ua_slab a) (with_blocks m pt) ∧ mgr_wf m ∧
      range_updated addr (addr + n * PageSize) g (m_memory_block_manager pt) m ∧
      (blocks_left a + length (m_memory_block_tree m) = k + slab_size s + length (tree_of pt))%nat ∧
      bounds_kept addr (addr + n * PageSize) (m_memory_block_manager pt) m).
Proof.
  intros <- Hf. unfold on_blocks.
  replace (from_slab (alloc k (m_memory_block_slab_manager pt)) pt)
    with (alloc k (m_memory_block_slab_manager pt)) by done.
  apply wp_bind. eapply wp_mono; [exact Hf|]. intros [a m] (Hw & Hu & Ha & Hl & Hb). apply wp_ret.
  split; [done|]. split; [done|]. exists m. done.
Qed.
End Table.
