(* ===== verification/PageTablePermission.v ===== *)
(** * Changing the permission of memory

    Updates of the blocks of a page table, and what [SetMemoryPermission] does. *)

From S2P Require Import Prelude Common MemoryBlock OrderedTree MemoryBlockManager MemoryBlockManagerLemmas MemoryBlockManagerUpdate MemoryBlockManagerTheorems PageBitmap PageHeap MemoryRegionType MemoryRegion MemoryLayout PageGroup MemoryManager ResourceLimit PageTable PageTableOperations PageTableCheck.

Section Updates.
Context {R : Type} `{Rng R} {S : Type} `{SlabExact S}.
Implicit Types (pt : KPageTableBase R S).

Local Abbreviation blocks := m_memory_block_manager.

(** A property that an update must not already find. *)
Definition differs (st pm at' : Z) (q : PageProps) : Prop :=
  pp_state q ≠ st ∨ pp_permission q ≠ pm ∨ Z.lor (pp_attribute q) lock_mask ≠ Z.lor at' lock_mask.

Lemma differs_HasProperties b st pm at' :
  differs st pm at' (props b) → KMemoryBlock_HasProperties b st pm at' = false.
Proof.
  unfold differs, KMemoryBlock_HasProperties. change AttributeIgnoreMask with lock_mask. simpl.
  intros [?|[?|?]]; repeat (destruct (_ =? _) eqn:?; bool_prop; simpl; try done).
Qed.

(** No page of the range is locked for IPC. *)
Definition no_ipc (m : KMemoryBlockManager) (addr n : Z) : Prop :=
  ∀ x q, addr ≤ x < addr + n * PageSize → pages m x = Some q →
    Z.land (pp_attribute q) KMemoryAttribute_IpcLocked = 0.

Lemma block_page m b x : mgr_wf m → b ∈ m_memory_block_tree m → m_address b ≤ x < bend b →
  pages m x = Some (props b).
Proof. intros Hm Hb Hx. eapply pages_Some; [apply Hm|]. by exists b. Qed.

Lemma no_ipc_updatable pt addr n b : table_ok pt → table_range pt addr n → no_ipc (blocks pt) addr n →
  b ∈ tree_of pt → overlaps addr (addr + n * PageSize) b → updatable b.
Proof.
  intros Hk Hr Hn Hb [? ?]. pose proof (tk_blocks _ Hk) as Hm.
  pose proof (table_range_bounds _ _ _ Hk Hr).
  pose proof (tiles_bounds _ _ _ (wf_tiles _ Hm)) as HB. rewrite Forall_forall in HB.
  destruct (HB b Hb) as (Hf & _). pose proof (fits_lt b Hf).
  assert (Hp : pages (blocks pt) (Z.max addr (m_address b)) = Some (props b)).
  { apply block_page; [done..|lia]. }
  assert (Hx : addr ≤ Z.max addr (m_address b) < addr + n * PageSize) by lia.
  pose proof (Hn _ _ Hx Hp) as Ha. split; [|done]. by apply (tk_pages _ Hk _ _ Hp).
Qed.

Lemma lor_byte a b : 0 ≤ a < 2 ^ 8 → 0 ≤ b < 2 ^ 8 → 0 ≤ Z.lor a b < 2 ^ 8.
Proof.
  intros Ha Hb. assert (Z.lor a b = Z.lor a b mod 2 ^ 8) as ->; [|apply Z.mod_pos_bound; lia].
  rewrite <- Z.land_ones, Z.land_lor_distr_l, !Z.land_ones, !Z.mod_small by lia. done.
Qed.

Lemma land_byte a b : 0 ≤ a < 2 ^ 8 → 0 ≤ Z.land a b < 2 ^ 8.
Proof.
  intros Ha. assert (Z.land a b = Z.land a b mod 2 ^ 8) as ->; [|apply Z.mod_pos_bound; lia].
  rewrite <- (Z.land_ones (Z.land _ _)), <- Z.land_assoc, (Z.land_comm b), Z.land_assoc by lia.
  rewrite Z.land_ones, Z.mod_small by lia. done.
Qed.

(** The lock bits are not in the attributes that are set. *)
Lemma keep_ipc_bit a b m : Z.land b lock_mask = 0 → Z.land m lock_mask = lock_mask →
  Z.land (Z.lor b (Z.land a m)) KMemoryAttribute_IpcLocked = Z.land a KMemoryAttribute_IpcLocked.
Proof.
  assert (Hk : Z.land KMemoryAttribute_IpcLocked lock_mask = KMemoryAttribute_IpcLocked) by done.
  revert Hk. generalize KMemoryAttribute_IpcLocked, lock_mask. intros k lm Hk Hb Hm. bitwise.
Qed.

Lemma set_props_page_ok st pm at' q :
  0 ≤ st < 2 ^ 32 → 0 ≤ at' < 2 ^ 8 → Z.land at' lock_mask = 0 →
  Z.land (pp_attribute q) KMemoryAttribute_IpcLocked = 0 →
  page_ok q → page_ok (set_props st pm at' q).
Proof.
  intros Hst Hb Ha Hn (_ & Hq1 & Hq & _). unfold page_ok, set_props. simpl.
  rewrite keep_ipc_bit by done. split; [done|]. split; [|done]. apply lor_byte; [done|]. by apply land_byte.
Qed.

(** The blocks and their slab changed and nothing else. *)
Definition only_blocks pt pt' : Prop :=
  ∃ m s, pt' = with_block_slab s (with_blocks m pt).

Lemma only_blocks_refl pt : only_blocks pt pt.
Proof. exists (blocks pt), (m_memory_block_slab_manager pt). by destruct pt. Qed.

(** The outcome of an update of the pages of a range by [f]. *)
Record blocks_updated (addr n : Z) (f : PageProps → PageProps) pt pt' : Prop := {
  bu_ok : table_ok pt';
  bu_only : only_blocks pt pt';
  bu_range : range_updated addr (addr + n * PageSize) f (blocks pt) (blocks pt');
  bu_count : (slab_of pt' + length (tree_of pt') = slab_of pt + length (tree_of pt))%nat
}.

Lemma table_ok_blocks pt addr n f m s : table_ok pt → mgr_wf m →
  range_updated addr (addr + n * PageSize) f (blocks pt) m →
  (∀ x q, addr ≤ x < addr + n * PageSize → pages (blocks pt) x = Some q → page_ok q → page_ok (f q)) →
  table_ok (with_block_slab s (with_blocks m pt)).
Proof.
  intros [] Hm Hu Hf. split; simpl; try done.
  - by rewrite (ru_start _ _ _ _ _ Hu).
  - by rewrite (ru_end _ _ _ _ _ Hu).
  - intros x q. rewrite (ru_pages _ _ _ _ _ Hu). case_decide; [|apply tk_pages].
    intros (q0 & Hq & ->)%fmap_Some. eapply Hf; [done..|]. by eapply tk_pages.
Qed.

(** The outcome of a step inside an operation, which holds an allocator. *)
Record step_updated (addr n : Z) (f : PageProps → PageProps) pt (k : nat) (s : S)
    (a : UpdateAllocator S) pt' : Prop := {
  su_alloc : alloc_ok a;
  su_slab : ua_slab a = m_memory_block_slab_manager pt';
  su_ok : table_ok pt';
  su_only : only_blocks pt pt';
  su_range : range_updated addr (addr + n * PageSize) f (blocks pt) (blocks pt');
  su_count : (blocks_left a + length (tree_of pt') = k + slab_size s + length (tree_of pt))%nat;
  su_bounds : bounds_kept addr (addr + n * PageSize) (blocks pt) (blocks pt')
}.

Lemma update_args_table pt addr n k : table_ok pt → table_range pt addr n →
  (list_cuts addr (addr + n * PageSize) (tree_of pt) ≤ k ≤ 2)%nat → update_args (blocks pt) addr n k.
Proof. intros Hk Hr Hc. destruct (table_range_ok _ _ _ Hk Hr). by split. Qed.

Lemma on_blocks_step g k s pt addr n f :
  table_ok pt → m_memory_block_slab_manager pt = s →
  (∀ x q, addr ≤ x < addr + n * PageSize → pages (blocks pt) x = Some q → page_ok q → page_ok (f q)) →
  wp (g (blocks pt) (alloc k s)) (updated addr n f (blocks pt) k s) →
  wp (on_blocks g (alloc k s) pt) (λ '(a, pt'), step_updated addr n f pt k s a pt').
Proof.
  intros Hk Hs Hf Hg. eapply wp_mono; [by eapply on_blocks_run|].
  intros [a pt'] (Hok & Es & m & -> & Hm & Hu & Hl & Hb).
  split; try done; [by eapply table_ok_blocks|by eexists _, _].
Qed.

Lemma update_blocks_run pt addr n k s st pm at' dset dclear :
  table_ok pt → table_range pt addr n → m_memory_block_slab_manager pt = s → 0 ≤ st < 2 ^ 32 →
  0 ≤ at' < 2 ^ 8 → Z.land at' lock_mask = 0 →
  (list_cuts addr (addr + n * PageSize) (tree_of pt) ≤ k ≤ 2)%nat →
  no_ipc (blocks pt) addr n →
  (∀ q, pages (blocks pt) addr = Some q → differs st pm at' q) →
  wp (update_blocks (alloc k s) pt addr n st pm at' dset dclear) (λ '(a, pt'),
    step_updated addr n (set_props st pm at') pt k s a pt').
Proof.
  intros Hk Hr Hs Hst Hb Ha Hc Hn Hd. apply on_blocks_step; [done..| |].
  { intros x q Hx Hp Hq. apply set_props_page_ok; [done..| |done]. by eapply Hn. }
  apply Update_updated; [by apply update_args_table|done|..].
  - intros b Hin Ho _. by eapply no_ipc_updatable.
  - intros d Hd1 Hin. apply differs_HasProperties, Hd. apply block_page; [apply Hk| |lia].
    destruct (m_memory_block_tree _); simplify_eq/=. by left.
Qed.

Lemma table_ok_slab pt s : table_ok pt → table_ok (with_block_slab s pt).
Proof. by intros []. Qed.

(** No block for the update: nothing but the slab changed. *)
Definition out_of_blocks pt (k : nat) (r : Z) pt' : Prop :=
  r = ResultOutOfResource ∧ (slab_of pt < k)%nat ∧
  ∃ s, slab_size s = slab_of pt ∧ pt' = with_block_slab s pt.

(** An operation that allocates the blocks it needs and takes one step. *)
Lemma with_allocator_step pt k addr n f g :
  (k ≤ 2)%nat →
  (∀ s, wp (g (alloc k s) (with_block_slab s pt)) (λ '(r, a, pt'),
     r = ResultSuccess ∧ step_updated addr n f (with_block_slab s pt) k s a pt')) →
  wp (with_allocator pt (Z.of_nat k) g) (λ '(r, pt'),
    out_of_blocks pt k r pt' ∨ (r = ResultSuccess ∧ blocks_updated addr n f pt pt')).
Proof.
  intros Hk Hg. eapply wp_mono.
  - apply (with_allocator_run pt k _ (λ r l pt', r = ResultSuccess ∧ table_ok pt' ∧ only_blocks pt pt' ∧
      range_updated addr (addr + n * PageSize) f (blocks pt) (blocks pt') ∧
      (l + length (tree_of pt') = slab_of pt + length (tree_of pt))%nat)); [done|].
    intros s Hs. eapply wp_mono; [apply Hg|].
    intros [[r a] pt'] (-> & [Ha Es Hok (m & s' & ->) Hu Hl]). split_and!; try done.
    + by exists m, s'.
    + rewrite <- Hs. unfold tree_of in *. simpl in *. lia.
  - intros [r pt'] [?|(pt1 & l & s & (-> & Hok & (m & s' & ->) & Hu & Hl) & Hs & ->)]; [by left|].
    right. split; [done|]. split; [by destruct Hok|by exists m, s|done|].
    unfold slab_of, tree_of in *. simpl in *. lia.
Qed.

(** ** A range that passed a check *)
Lemma checked_cuts pt addr n t ig c : table_ok pt → checked (blocks pt) addr n t ig c →
  ∃ k, ck_blocks_needed c = Z.of_nat k ∧ k = list_cuts addr (addr + n * PageSize) (tree_of pt) ∧
    (k ≤ 2)%nat.
Proof.
  intros Hk [_ ->]. eexists. split; [done|]. split; [done|].
  eapply list_cuts_le. apply (tk_blocks _ Hk).
Qed.

Lemma checked_no_ipc pt addr n t ig c :
  checked (blocks pt) addr n t ig c → mt_attr t = 0 →
  Z.land (mt_attr_mask t) KMemoryAttribute_IpcLocked = KMemoryAttribute_IpcLocked →
  no_ipc (blocks pt) addr n.
Proof.
  intros [(q & _ & _ & _ & _ & Hall) _] E0 Em x q' Hx Hq. destruct (Hall x Hx) as (q1 & Hq1 & _ & _ & _ & Hp).
  simplify_eq. rewrite E0 in Hp. clear -Em Hp. revert Em.
  generalize KMemoryAttribute_IpcLocked. intros k Em. bitwise.
Qed.

(** An operation that changes permissions of the mapping and updates the blocks. *)
Lemma reprotect_run pt addr n k st pm p op :
  table_ok pt → table_range pt addr n → k = list_cuts addr (addr + n * PageSize) (tree_of pt) →
  (k ≤ 2)%nat → 0 ≤ st < 2 ^ 32 → no_ipc (blocks pt) addr n →
  (∀ q, pages (blocks pt) addr = Some q → differs st pm KMemoryAttribute_None q) →
  op ∈ [Op_ChangePermissions; Op_ChangePermissionsAndRefresh; Op_ChangePermissionsAndRefreshAndFlush] →
  wp (with_allocator pt (Z.of_nat k) (λ a pt,
      '(r, pt) ← Operate pt addr n 0 false p op;
      if negb (Result_IsSuccess r) then mret (r, a, pt)
      else
        '(a, pt) ← update_blocks a pt addr n st pm KMemoryAttribute_None
                     DisableMerge_None DisableMerge_None;
        mret (ResultSuccess, a, pt)))
    (λ '(r, pt'), out_of_blocks pt k r pt' ∨
      (r = ResultSuccess ∧ blocks_updated addr n (set_props st pm KMemoryAttribute_None) pt pt')).
Proof.
  intros Hk Hr Ek Hk2 Hst Hn Hd Hop. apply with_allocator_step; [done|]. intros s.
  rewrite Operate_permissions by (try apply table_ok_slab; done). pstep. apply wp_bind.
  eapply wp_mono; [apply update_blocks_run; try done; [by apply table_ok_slab|subst k; done]|].
  intros [a pt'] Hsu. by apply wp_ret.
Qed.

(** ** SetMemoryPermission *)
Definition reprotect (p : Z) (q : PageProps) : PageProps :=
  MkProps (pp_state q) p (pp_original_permission q) (pp_attribute q) (pp_ipc_lock_count q)
    (pp_device_use_count q).

Definition reprotectable : MemoryTest :=
  MkTest KMemoryState_FlagCanReprotect KMemoryState_FlagCanReprotect KMemoryPermission_None
    KMemoryPermission_None KMemoryAttribute_All KMemoryAttribute_None.

(** All pages of the range are alike and pass the test. *)
Definition uniform (m : KMemoryBlockManager) (addr n : Z) (t : MemoryTest) (ig : Z) : Prop :=
  ∃ q, pages m addr = Some q ∧
    ∀ x, addr ≤ x < addr + n * PageSize → ∃ q', pages m x = Some q' ∧ alike ig q q' ∧ passes t q'.

Lemma checked_uniform m addr n t ig c : checked m addr n t ig c → uniform m addr n t ig.
Proof. intros [(q & Hq & _ & _ & _ & Hall) _]. by exists q. Qed.

Lemma uniform_checked m addr n t ig : uniform m addr n t ig → ∃ c, checked m addr n t ig c.
Proof. intros (q & Hq & Hall). eexists (MkChecked _ _ _ _). split; [exists q; split_and!; done|done]. Qed.

(** An attribute of 8 bits that none of the bits of the mask is in. *)
Lemma land_all_0 a : 0 ≤ a < 2 ^ 8 → Z.land a KMemoryAttribute_All = KMemoryAttribute_None → a = 0.
Proof. intros Ha. change KMemoryAttribute_All with (Z.ones 8). rewrite Z.land_ones, Z.mod_small by lia. done. Qed.

Lemma range_updated_ext lo hi f f' m m' :
  range_updated lo hi f m m' → (∀ x q, lo ≤ x < hi → pages m x = Some q → f q = f' q) →
  range_updated lo hi f' m m'.
Proof.
  intros [? ? Hp] He. split; try done. intros x. rewrite Hp. case_decide; [|done].
  destruct (pages m x) as [q|] eqn:E; [|done]. simpl. f_equal. by eapply He.
Qed.

Lemma range_updated_id lo hi f m :
  (∀ x q, lo ≤ x < hi → pages m x = Some q → f q = q) → range_updated lo hi f m m.
Proof.
  intros He. split; try done. intros x. case_decide; [|done].
  destruct (pages m x) as [q|] eqn:E; [|done]. simpl. f_equal. symmetry. by eapply He.
Qed.

Lemma SetMemoryPermission_run pt addr n svc_perm :
  table_ok pt → table_range pt addr n →
  wp (SetMemoryPermission pt addr (n * PageSize) svc_perm) (λ '(r, pt'),
    (r = ResultInvalidCurrentMemory ∧ pt' = pt ∧
     ¬ uniform (blocks pt) addr n reprotectable DefaultMemoryIgnoreAttr) ∨
    (uniform (blocks pt) addr n reprotectable DefaultMemoryIgnoreAttr ∧
     (out_of_blocks pt (list_cuts addr (addr + n * PageSize) (tree_of pt)) r pt' ∨
      (r = ResultSuccess ∧
       blocks_updated addr n (reprotect (ConvertToKMemoryPermission svc_perm)) pt pt')))).
Proof.
  intros Hk Hr. destruct (range_size _ _ _ Hk Hr) as (_ & _ & E3 & _).
  unfold SetMemoryPermission. rewrite E3. fold reprotectable. apply wp_bind.
  eapply wp_mono; [by apply CheckMemoryState_run, table_range_ok|].
  intros [r c] [[-> Hc]|[-> Hc]].
  2: { apply wp_ret. left. split_and!; [done..|]. intros Hu. by apply Hc, uniform_checked. }
  change (Result_IsSuccess ResultSuccess) with true. cbn [negb].
  pose proof (checked_uniform _ _ _ _ _ _ Hc) as Hu.
  pose proof (checked_no_ipc _ _ _ _ _ _ Hc eq_refl eq_refl) as Hn.
  destruct (checked_cuts _ _ _ _ _ _ Hk Hc) as (k & -> & Ek & Hk2).
  destruct Hc as [(q & Hq & Es & Ep & _ & Hall) _].
  destruct (_ =? _) eqn:E; bool_prop.
  - apply wp_ret. right. split; [done|]. right. split; [done|].
    split; [done|apply only_blocks_refl| |done]. apply range_updated_id.
    intros x q' Hx Hq'. destruct (Hall x Hx) as (q1 & Hq1 & (Ha1 & Ha2 & _) & _). simplify_eq.
    unfold reprotect. rewrite <- E, Ep, <- Ha2. by destruct q'.
  - eapply wp_mono.
    + apply reprotect_run; try done; [rewrite Es; by apply (tk_pages _ Hk _ _ Hq)| |set_solver].
      intros q' Hq'. simplify_eq. right. left. congruence.
    + intros [r pt'] [Ho|[-> Hb]]; right; (split; [done|]); [left|right].
      * by rewrite <- Ek.
      * split; [done|]. destruct Hb as [Hb1 Hb2 Hb3 Hb4]. split; try done.
        eapply range_updated_ext; [done|]. intros x q' Hx Hq'.
        destruct (Hall x Hx) as (q1 & Hq1 & (Ha1 & _) & _ & _ & Ha). simplify_eq.
        pose proof (land_all_0 _ (proj1 (proj2 (tk_pages _ Hk _ _ Hq'))) Ha) as Ea.
        unfold set_props, reprotect. rewrite Es, <- Ha1, Ea. done.
Qed.

(** C15: [SetMemoryPermission] on a range of the address space runs with no
    assertion failing.  It succeeds exactly when the pages of the range are alike,
    can be reprotected and have no attribute, unless the blocks for the update run
    out; then it sets the permission of these pages, changes no other page and no
    other part of the table, keeps the invariant and loses no block. On failure no
    page changes. *)
Theorem SetMemoryPermission_correct pt addr n svc_perm :
  table_ok pt → table_range pt addr n →
  wp (SetMemoryPermission pt addr (n * PageSize) svc_perm) (λ '(r, pt'),
    (r = ResultInvalidCurrentMemory ∧ pt' = pt ∧
     ¬ uniform (blocks pt) addr n reprotectable DefaultMemoryIgnoreAttr) ∨
    (uniform (blocks pt) addr n reprotectable DefaultMemoryIgnoreAttr ∧
     (out_of_blocks pt (list_cuts addr (addr + n * PageSize) (tree_of pt)) r pt' ∨
      (r = ResultSuccess ∧
       blocks_updated addr n (reprotect (ConvertToKMemoryPermission svc_perm)) pt pt')))).
Proof. apply SetMemoryPermission_run. Qed.

(** ** SetMemoryAttribute *)
Definition attribute_test (mask : Z) : MemoryTest :=
  let state_test_mask :=
    Z.lor (if negb (Z.land mask KMemoryAttribute_Uncached =? 0)
           then KMemoryState_FlagCanChangeAttribute else KMemoryState_None)
      (if negb (Z.land mask KMemoryAttribute_PermissionLocked =? 0)
       then KMemoryState_FlagCanPermissionLock else KMemoryState_None) in
  MkTest state_test_mask state_test_mask KMemoryPermission_None KMemoryPermission_None
    AttributeTestMask KMemoryAttribute_None.

(** The address is strictly inside the first block, and the block already has
    the attribute. *)
Definition first_block_has (pt : KPageTableBase R S) (addr mask attr : Z) : Prop :=
  ∃ d, head (tree_of pt) = Some d ∧ m_address d < addr < bend d ∧ Z.land (m_attribute d) mask = attr.

Lemma set_attr_page_ok mask attr q :
  0 ≤ attr < 2 ^ 8 → Z.land mask lock_mask = 0 → Z.land attr lock_mask = 0 →
  page_ok q → page_ok (set_attr mask attr q).
Proof.
  intros Hb Hm Ha (Hst & Hq1 & Hq & Hf). unfold page_ok, set_attr. simpl.
  rewrite Z.ldiff_land, Z.lor_comm, keep_ipc_bit; [|done|].
  - split; [done|]. split; [|done]. apply lor_byte; [done|]. by apply land_byte.
  - clear -Hm. revert Hm. generalize lock_mask. intros k Hm. rewrite Z.land_comm, <- Z.ldiff_land. bitwise.
Qed.

Lemma set_mask_byte mask : Z.lor mask KMemoryAttribute_SetMask = KMemoryAttribute_SetMask →
  0 ≤ mask < 2 ^ 8 ∧ Z.land mask lock_mask = 0.
Proof.
  intros Hm. assert (E : mask = Z.land KMemoryAttribute_SetMask mask).
  { rewrite <- Hm. clear. bitwise. }
  split; [rewrite E; by apply land_byte|]. rewrite E.
  rewrite (Z.land_comm _ mask), <- Z.land_assoc. change (Z.land KMemoryAttribute_SetMask lock_mask) with 0.
  apply Z.land_0_r.
Qed.

Lemma SetMemoryAttribute_run pt addr n mask attr :
  table_ok pt → table_range pt addr n →
  Z.lor mask KMemoryAttribute_SetMask = KMemoryAttribute_SetMask → Z.lor mask attr = mask →
  ¬ first_block_has pt addr mask attr →
  let ig := u8 (Z.lnot AttributeTestMask) in
  wp (SetMemoryAttribute pt addr (n * PageSize) mask attr) (λ '(r, pt'),
    (r = ResultInvalidCurrentMemory ∧ pt' = pt ∧
     ¬ uniform (blocks pt) addr n (attribute_test mask) ig) ∨
    (uniform (blocks pt) addr n (attribute_test mask) ig ∧
     (out_of_blocks pt (list_cuts addr (addr + n * PageSize) (tree_of pt)) r pt' ∨
      (r = ResultSuccess ∧ blocks_updated addr n (set_attr mask attr) pt pt')))).
Proof.
  intros Hk Hr Hm Ha Hfirst ig. destruct (range_size _ _ _ Hk Hr) as (_ & _ & E3 & _).
  destruct (set_mask_byte mask Hm) as [Hm1 Hm2].
  assert (Ea : attr = Z.land mask attr) by (rewrite <- Ha at 1; clear; bitwise).
  assert (Ha1 : 0 ≤ attr < 2 ^ 8) by (rewrite Ea; by apply land_byte).
  assert (Ha2 : Z.land attr lock_mask = 0) by (clear -Ea Hm2; bitwise).
  unfold SetMemoryAttribute. rewrite E3, Hm, Z.eqb_refl. change (ASSERT true) with (Done true ()). pstep.
  fold (attribute_test mask) ig. apply wp_bind.
  eapply wp_mono; [by apply CheckMemoryState_run, table_range_ok|].
  intros [r c] [[-> Hc]|[-> Hc]].
  2: { apply wp_ret. left. split_and!; [done..|]. intros Hu. by apply Hc, uniform_checked. }
  change (Result_IsSuccess ResultSuccess) with true. cbn [negb].
  pose proof (checked_uniform _ _ _ _ _ _ Hc) as Hu.
  destruct (checked_cuts _ _ _ _ _ _ Hk Hc) as (k & -> & Ek & Hk2). rewrite <- Ek.
  eapply wp_mono; [apply (with_allocator_step pt k addr n (set_attr mask attr)); [done|]; intros s|
    intros [r pt'] Hp; right; split; [done|exact Hp]].
  pose proof (table_ok_slab pt s Hk) as Hks.
  match goal with |- wp (?p ≫= _) _ => assert (p = Done true (ResultSuccess, with_block_slab s pt)) as -> end.
  { destruct (negb _); [|done]. apply Operate_permissions; [done..|set_solver]. }
  pstep. apply wp_bind. eapply wp_mono.
  - apply on_blocks_step; [done..| |apply KMemoryBlockManager_UpdateAttribute_correct; try done].
    + intros x q _ _. by apply set_attr_page_ok.
    + apply update_args_table; [done..|]. subst k. done.
    + intros d Hd Hin E. apply Hfirst. by exists d.
  - intros [a pt'] Hst. by apply wp_ret.
Qed.

(** C16: [SetMemoryAttribute], with a mask of the attributes that may be set and an
    attribute in the mask, runs with no assertion failing unless it would change
    nothing strictly inside the first block.  It succeeds exactly when the pages of
    the range are alike up to these attributes, have the flags the change needs and
    no lock, unless the blocks for the update run out; then it replaces the bits of
    the mask in the attributes of these pages and changes nothing else. *)
Theorem SetMemoryAttribute_correct pt addr n mask attr :
  table_ok pt → table_range pt addr n →
  Z.lor mask KMemoryAttribute_SetMask = KMemoryAttribute_SetMask → Z.lor mask attr = mask →
  ¬ first_block_has pt addr mask attr →
  let ig := u8 (Z.lnot AttributeTestMask) in
  wp (SetMemoryAttribute pt addr (n * PageSize) mask attr) (λ '(r, pt'),
    (r = ResultInvalidCurrentMemory ∧ pt' = pt ∧
     ¬ uniform (blocks pt) addr n (attribute_test mask) ig) ∨
    (uniform (blocks pt) addr n (attribute_test mask) ig ∧
     (out_of_blocks pt (list_cuts addr (addr + n * PageSize) (tree_of pt)) r pt' ∨
      (r = ResultSuccess ∧ blocks_updated addr n (set_attr mask attr) pt pt')))).
Proof. apply SetMemoryAttribute_run. Qed.
End Updates.
