(* ===== verification/PageTableTranslation.v ===== *)
(** Lemmas about the entries of a page table: what they translate to, the page
    groups that are made from them, and how mapping changes them. *)

From S2P Require Import Prelude Common MemoryBlock OrderedTree MemoryBlockManager MemoryBlockManagerLemmas MemoryBlockManagerUpdate MemoryBlockManagerTheorems PageBitmap PageHeap MemoryRegionType MemoryRegion MemoryLayout MemoryRegionTheorems PageGroup MemoryManager PageGroupTheorems ResourceLimit PageTable PageTableOperations PageTableCheck PageTablePermission.

(** * The translation of pages, and page groups made from it *)

(** The physical page of a virtual page, by number. *)
Definition translate (t : PageTable) (v : Z) : option Z :=
  if v <? entries_size t then
    if pe_addr (entry_at t v) =? 0 then None
    else Some (u64 (pe_addr (entry_at t v) + v * PageSize) / PageSize)
  else None.

(** The pages of a range, all mapped. *)
Definition translated (t : PageTable) (v : Z) (ps : list Z) : Prop :=
  translate t <$> seqZ v (Z.of_nat (length ps)) = Some <$> ps.

(** Entries hold the distance to whole pages, of numbers a page group can hold,
    and the first and the last page of physical memory are not mapped. *)
Definition entries_ok (t : PageTable) : Prop :=
  ∀ v, pe_addr (entry_at t v) ≠ 0 → 0 ≤ v < entries_size t →
    ∃ p, u64 (pe_addr (entry_at t v) + v * PageSize) = p * PageSize ∧ 0 < p < 2 ^ 32 - 1.

Lemma translated_lookup t v ps i p : translated t v ps → ps !! i = Some p → translate t (v + Z.of_nat i) = Some p.
Proof.
  unfold translated. intros E Hi. pose proof (lookup_lt_Some _ _ _ Hi).
  pose proof (f_equal (lookup i) E) as El. rewrite !list_lookup_fmap, Hi in El.
  rewrite lookup_seqZ_lt in El by lia. simpl in El. congruence.
Qed.

Lemma translated_spec t v ps :
  translated t v ps ↔ ∀ i p, ps !! i = Some p → translate t (v + Z.of_nat i) = Some p.
Proof.
  split; [intros; by eapply translated_lookup|]. intros Hp. unfold translated. apply list_eq. intros i.
  rewrite !list_lookup_fmap. destruct (ps !! i) as [p|] eqn:E; simpl.
  - pose proof (lookup_lt_Some _ _ _ E). rewrite lookup_seqZ_lt by lia. simpl. f_equal. by apply Hp.
  - apply lookup_ge_None in E. by rewrite lookup_seqZ_ge by lia.
Qed.

Lemma translated_snoc t v ps p :
  translated t v ps → translate t (v + Z.of_nat (length ps)) = Some p → translated t v (ps ++ [p]).
Proof.
  rewrite !translated_spec. intros Hps Hp i q [Hi|(? & [? ->]%list_lookup_singleton_Some)]%lookup_app_Some;
    [by apply Hps|]. rewrite <- Hp. f_equal. lia.
Qed.

Lemma translated_app_l t v ps ps' : translated t v (ps ++ ps') → translated t v ps.
Proof. rewrite !translated_spec. intros Hp i p Hi. apply Hp. by apply lookup_app_l_Some. Qed.

Lemma translated_nil t v : translated t v [].
Proof. done. Qed.

(** ** Traversal *)
Section Traversal.
Context (t : PageTable) (Hps : page_size t = PageSize) (Hok : entries_ok t)
        (Hes : entries_size t ≤ 2 ^ 40).

Lemma Continue_run v : 0 ≤ v < entries_size t →
  let next := MkTraversalContext (v + 1) ((v + 1) * PageSize) in
  ContinueTraversal t (MkTraversalContext v (v * PageSize)) =
    match translate t v with
    | Some p => (true, MkTraversalEntry (p * PageSize) PageSize, next)
    | None => (false, MkTraversalEntry 0 PageSize, next)
    end.
Proof.
  intros Hv next. unfold ContinueTraversal, translate. cbn [next_page next_offset]. rewrite Hps.
  assert (u64 (v + 1) = v + 1 ∧ u64 (v * PageSize + PageSize) = (v + 1) * PageSize) as [-> ->].
  { rewrite PageSize_eq, !u64_id by (unfold is_u64; lia). lia. }
  fold next. rewrite (proj2 (Z.ltb_lt _ _)) by lia.
  destruct (_ =? 0) eqn:E; bool_prop; cbn [negb]; [done|].
  destruct (Hok v E Hv) as (p & -> & _). rewrite Z.div_mul by (by rewrite PageSize_eq). done.
Qed.

Lemma Begin_run v : 0 ≤ v → BeginTraversal t (v * PageSize) =
  ContinueTraversal t (MkTraversalContext v (v * PageSize)).
Proof. intros Hv. unfold BeginTraversal. rewrite Hps, Z.div_mul; [done|]. by rewrite PageSize_eq. Qed.

Lemma translate_range v p : 0 ≤ v → translate t v = Some p → 0 < p < 2 ^ 32 - 1.
Proof.
  intros Hv. unfold translate. destruct (v <? _) eqn:E1; [|done]. destruct (_ =? 0) eqn:E2; [done|].
  bool_prop. destruct (Hok v E2 ltac:(lia)) as (q & -> & ?). rewrite Z.div_mul by (by rewrite PageSize_eq).
  congruence.
Qed.
End Traversal.

(** ** The heap of physical memory *)
Definition heap_address (l : KMemoryLayout) (x : Z) : bool :=
  match FindPhysicalLinear l x with
  | Some r => KMemoryRegion_IsDerivedFrom r (GetValue KMemoryRegionType_DramUserPool)
  | None => false
  end.

Section Table.
Context {R : Type} `{Rng R} {S : Type} `{SlabExact S}.
Implicit Types (pt : KPageTableBase R S) (g : KPageGroup).

Local Abbreviation layout pt := (m_memory_layout (pt_mm pt)).

Definition infos_of pt : nat := slab_size (m_block_info_manager pt).

(** The physical regions are in order and below the last address, and the cached
    region is one of the heap. *)
Record heap_ok pt : Prop := {
  hk_regions : regions_wf (m_physical_linear_tree (layout pt));
  hk_ends : Forall (λ r, mr_last_address r < 2 ^ 64 - 1) (m_physical_linear_tree (layout pt));
  hk_cached r : m_cached_physical_heap_region pt = Some r →
    r ∈ m_physical_linear_tree (layout pt) ∧
    KMemoryRegion_IsDerivedFrom r (GetValue KMemoryRegionType_DramUserPool) = true
}.

Lemma heap_region pt r x : heap_ok pt → r ∈ m_physical_linear_tree (layout pt) → in_region r x →
  FindPhysicalLinear (layout pt) x = Some r.
Proof. intros Hh Hr Hx. apply Find_iff; [apply Hh|done]. Qed.

Lemma pt_IsHeap_run pt x : heap_ok pt → ∃ c,
  pt_IsHeapPhysicalAddress pt x = Done true (heap_address (layout pt) x, with_cached c pt) ∧
  heap_ok (with_cached c pt).
Proof.
  intros Hh. unfold pt_IsHeapPhysicalAddress, IsHeapPhysicalAddress, IsTypedAddress.
  assert (Hmiss : ∃ c, (match FindPhysicalLinear (layout pt) x with
       | Some found =>
           if KMemoryRegion_IsDerivedFrom found (GetValue KMemoryRegionType_DramUserPool)
           then mret (true, Some found) else mret (false, m_cached_physical_heap_region pt)
       | None => mret (false, m_cached_physical_heap_region pt)
       end : prog _) = Done true (heap_address (layout pt) x, c) ∧ heap_ok (with_cached c pt)).
  { unfold heap_address. destruct (FindPhysicalLinear _ x) as [r|] eqn:E.
    - destruct (KMemoryRegion_IsDerivedFrom r _) eqn:Ed.
      + eexists. split; [done|]. destruct Hh. split; try done. simpl. intros r' [= <-].
        unfold FindPhysicalLinear in E. by apply Find_iff in E as [? ?].
      + eexists. split; [done|]. by destruct Hh.
    - eexists. split; [done|]. by destruct Hh. }
  destruct Hmiss as (c & Em & Hc). unfold FindPhysicalLinear in Em.
  destruct (m_cached_physical_heap_region pt) as [r|] eqn:Ec.
  - destruct (hk_cached _ Hh _ Ec) as [Hin Hd]. pose proof (regions_wf_ok _ _ (hk_regions _ Hh) Hin) as (? & ? & _).
    pose proof (proj1 (Forall_forall _ _) (hk_ends _ Hh) _ Hin) as Hl. simpl in Hl.
    unfold KMemoryRegion_Contains.
    assert ((KMemoryRegion_GetEndAddress r =? 0) = false) as ->.
    { apply Z.eqb_neq. unfold KMemoryRegion_GetEndAddress. rewrite u64_id by (unfold is_u64; lia). lia. }
    cbn [negb]. change (ASSERT true) with (Done true ()). rewrite !bind_Done_true.
    change (@mret prog _ bool) with (@Done bool true). rewrite bind_Done_true.
    destruct (_ && _) eqn:E.
    + bool_prop. exists (Some r). unfold heap_address.
      rewrite (heap_region pt r x Hh Hin) by (unfold in_region; lia). rewrite Hd. split; [done|].
      destruct Hh. split; try done. simpl. intros r' [= <-]. done.
    + rewrite Em. by exists c.
  - change (@mret prog _ bool) with (@Done bool true). rewrite bind_Done_true, Em. by exists c.
Qed.

(** ** MakePageGroup *)
Definition only_infos pt pt' : Prop := ∃ c s, pt' = with_cached c (with_infos s pt).

Lemma only_infos_refl pt : only_infos pt pt.
Proof. exists (m_cached_physical_heap_region pt), (m_block_info_manager pt). by destruct pt. Qed.
Lemma only_infos_trans pt1 pt2 pt3 : only_infos pt1 pt2 → only_infos pt2 pt3 → only_infos pt1 pt3.
Proof. intros (c & s & ->) (c' & s' & ->). by exists c', s'. Qed.
Lemma only_infos_impl pt pt' : only_infos pt pt' → m_impl pt' = m_impl pt ∧ layout pt' = layout pt.
Proof. by intros (c & s & ->). Qed.

(** The table and the group together: no block info is lost. *)
Record group_state pt g pt' g' : Prop := {
  gs_heap : heap_ok pt';
  gs_only : only_infos pt pt';
  gs_wf : group_wf g';
  gs_infos : (infos_of pt' + length g' = infos_of pt + length g)%nat
}.

Lemma group_state_refl pt g : heap_ok pt → group_wf g → group_state pt g pt g.
Proof. split; [done|apply only_infos_refl|done..]. Qed.
Lemma group_state_trans pt1 g1 pt2 g2 pt3 g3 :
  group_state pt1 g1 pt2 g2 → group_state pt2 g2 pt3 g3 → group_state pt1 g1 pt3 g3.
Proof. intros [] []. split; [done|by eapply only_infos_trans|done|lia]. Qed.

Lemma add_heap_block_run pt g p n :
  heap_ok pt → group_wf g → 0 < p → 0 < n → p + n < 2 ^ 32 →
  wp (add_heap_block pt g (p * PageSize) n) (λ '(r, pt', g'), group_state pt g pt' g' ∧
    ((r = ResultSuccess ∧ heap_address (layout pt) (p * PageSize) = true ∧
      group_pages g' = group_pages g ++ seqZ p n) ∨
     (r = ResultInvalidCurrentMemory ∧ heap_address (layout pt) (p * PageSize) = false ∧ g' = g) ∨
     (r = ResultOutOfResource ∧ infos_of pt = 0%nat ∧ g' = g))).
Proof.
  intros Hh Hg Hp Hn Hb. unfold add_heap_block.
  destruct (pt_IsHeap_run pt (p * PageSize) Hh) as (c & -> & Hh').
  rewrite bind_Done_true. destruct (heap_address _ _) eqn:E; cbn [negb].
  - apply wp_bind. eapply wp_mono; [by apply AddBlock_run|].
    intros [[r s'] g'] Ha. apply wp_ret. unfold added in Ha. cbn [with_cached m_block_info_manager] in Ha.
    assert (Hs : heap_ok (with_infos s' (with_cached c pt))) by (by destruct Hh').
    destruct Ha as [(-> & Hw & Hpg & Hl)|(-> & Hnone & -> & ->)].
    + split; [split; [done|by exists c, s'|done|exact Hl]|]. by left.
    + split; [split; [done|by exists c, (m_block_info_manager pt)|done|done]|]. right. right.
      split; [done|]. split; [by apply slab_none|done].
  - apply wp_ret. split; [split; [done| |done|done]|by right; left].
    exists c, (m_block_info_manager pt). by destruct pt.
Qed.

Definition not_heap_page (t : PageTable) (l : KMemoryLayout) (v : Z) : Prop :=
  match translate t v with Some p => heap_address l (p * PageSize) = false | None => True end.

(** Where a physically contiguous run starts, the page is in the heap. *)
Definition runs_in_heap (l : KMemoryLayout) (ps : list Z) : Prop :=
  ∀ i p, ps !! i = Some p → (∀ j, i = Datatypes.S j → ps !! j ≠ Some (p - 1)) →
    heap_address l (p * PageSize) = true.

Lemma runs_in_heap_app l ps p n : runs_in_heap l ps → heap_address l (p * PageSize) = true →
  runs_in_heap l (ps ++ seqZ p n).
Proof.
  intros Hps Hp i q Hi Hprev. apply lookup_app_Some in Hi as [Hi|[Hle Hi]].
  - eapply Hps; [done|]. intros j -> Hj. apply (Hprev j eq_refl). by apply lookup_app_l_Some.
  - apply lookup_seqZ in Hi as [-> Hlt]. destruct (decide (i = length ps)) as [->|Hne].
    + by rewrite Nat.sub_diag, Z.add_0_r.
    + exfalso. destruct i as [|i]; [lia|]. apply (Hprev i eq_refl).
      rewrite lookup_app_r by lia. apply lookup_seqZ. lia.
Qed.

(** What a walk over [i] pages has found: the pages of the group, then a run of
    [l] pages from [a] on. *)
Record walked (t : PageTable) (v : Z) (l : KMemoryLayout) g (i a k : Z) : Prop := {
  wk_run : 0 < k;
  wk_pages : translated t v (group_pages g ++ seqZ a k);
  wk_length : Z.of_nat (length (group_pages g)) + k = i;
  wk_low : 0 < a;
  wk_high : a + k < 2 ^ 32;
  wk_heap : runs_in_heap l (group_pages g)
}.

Lemma length_walked t v l g i a k : walked t v l g i a k →
  Z.of_nat (length (group_pages g ++ seqZ a k)) = i.
Proof. intros []. rewrite length_app, length_seqZ. lia. Qed.

Lemma walked_start t v l p : entries_ok t → 0 ≤ v → translate t v = Some p → walked t v l [] 1 p 1.
Proof.
  intros Hok Hv Hp. pose proof (translate_range t Hok v p Hv Hp).
  split; try done; [|lia..]. apply translated_spec. intros i q Hi. simpl in Hi.
  apply lookup_seqZ in Hi as [-> Hi]. replace (Z.of_nat i) with 0 by lia. by rewrite !Z.add_0_r.
Qed.

(** The next page continues the run. *)
Lemma walked_continue t v l g i a k : entries_ok t → 0 ≤ v →
  walked t v l g i a k → translate t (v + i) = Some (a + k) → walked t v l g (i + 1) a (k + 1).
Proof.
  intros Hok Hv Hw Hp. pose proof (length_walked _ _ _ _ _ _ _ Hw) as Hl. destruct Hw.
  pose proof (translate_range t Hok (v + i) (a + k) ltac:(lia) Hp).
  split; try done; [lia| |lia..]. rewrite seqZ_app, app_assoc by lia.
  apply translated_snoc; [done|]. by rewrite Hl.
Qed.

(** The next page starts a run, and the run before it is added to the group. *)
Lemma walked_next t v l g g' i a k p : entries_ok t → 0 ≤ v →
  walked t v l g i a k → translate t (v + i) = Some p →
  group_pages g' = group_pages g ++ seqZ a k → heap_address l (a * PageSize) = true →
  walked t v l g' (i + 1) p 1.
Proof.
  intros Hok Hv Hw Hp Hg Ha. pose proof (length_walked _ _ _ _ _ _ _ Hw) as Hl. destruct Hw.
  pose proof (translate_range t Hok (v + i) p ltac:(lia) Hp). split; try lia.
  - rewrite Hg. apply translated_snoc; [done|]. by rewrite Hl.
  - rewrite Hg. lia.
  - rewrite Hg. by apply runs_in_heap_app.
Qed.

(** The first page of the run is a page of the range. *)
Lemma walked_not_heap t v l g i a k : walked t v l g i a k →
  heap_address l (a * PageSize) = false → ∃ j, 0 ≤ j < i ∧ not_heap_page t l (v + j).
Proof.
  intros [] Ha. exists (Z.of_nat (length (group_pages g))). split; [lia|]. unfold not_heap_page.
  rewrite (translated_lookup t v _ _ a wk_pages0); [done|].
  rewrite lookup_app_r, Nat.sub_diag by lia. apply lookup_seqZ. lia.
Qed.

(** A group that is not complete: it has the first pages of the range, and a page
    is not mapped or is not in the heap, or there is no block info. *)
Definition group_failed pt (v n r : Z) g' : Prop :=
  translated (m_impl pt) v (group_pages g') ∧ Z.of_nat (length (group_pages g')) < n ∧
  ((r = ResultInvalidCurrentMemory ∧ ∃ j, 0 ≤ j < n ∧ not_heap_page (m_impl pt) (layout pt) (v + j)) ∨
  (r = ResultOutOfResource ∧ infos_of pt = length g')).

(** The group without the run seen last. *)
Lemma walked_group t v l g i a k : walked t v l g i a k →
  translated t v (group_pages g) ∧ Z.of_nat (length (group_pages g)) < i.
Proof. intros []. split; [by eapply translated_app_l|lia]. Qed.

Lemma group_length g : group_wf g → (length g ≤ length (group_pages g))%nat.
Proof.
  intros [Hf _]. induction Hf as [|b g (? & ? & ?) Hf IH]; [done|].
  rewrite group_pages_cons, length_app. unfold block_pages. rewrite length_seqZ. simpl. lia.
Qed.

Section Loop.
Context (pt0 : KPageTableBase R S) (v n : Z).
Hypotheses (Hps : page_size (m_impl pt0) = PageSize) (Hok : entries_ok (m_impl pt0))
           (Hes : entries_size (m_impl pt0) ≤ 2 ^ 40) (Hv : 0 ≤ v)
           (Hn : v + n ≤ entries_size (m_impl pt0)).

Lemma make_group_loop_run fuel : ∀ pt g i a k,
  i ≤ n ≤ i + Z.of_nat fuel → walked (m_impl pt0) v (layout pt0) g i a k →
  group_state pt0 [] pt g →
  wp (make_group_loop fuel pt g (MkTraversalContext (v + i) ((v + i) * PageSize))
        (MkWalk (a * PageSize) (k * PageSize) (i * PageSize)) (n * PageSize)) (λ '(r, pt', g', w),
    group_state pt0 [] pt' g' ∧
    ((r = ResultSuccess ∧ ∃ a' k', w = MkWalk (a' * PageSize) (k' * PageSize) (n * PageSize) ∧
        walked (m_impl pt0) v (layout pt0) g' n a' k') ∨ group_failed pt0 v n r g')).
Proof.
  pose proof PageSize_eq as Eps.
  induction fuel as [|fuel IH]; intros pt g i a k Hf Hw Hst; cbn [make_group_loop]; cbn [wk_total];
    (destruct (decide (i = n)) as [->|Hne];
     [rewrite Z.ltb_irrefl; apply wp_ret; split; [done|]; left; split; [done|]; by exists a, k|]); [lia|].
  rewrite (proj2 (Z.ltb_lt _ _)) by lia.
  pose proof (wk_length _ _ _ _ _ _ _ Hw). pose proof (wk_run _ _ _ _ _ _ _ Hw).
  pose proof (wk_high _ _ _ _ _ _ _ Hw). pose proof (wk_low _ _ _ _ _ _ _ Hw).
  destruct (walked_group _ _ _ _ _ _ _ Hw) as [Htg Hlg].
  destruct (only_infos_impl _ _ (gs_only _ _ _ _ Hst)) as [-> El].
  rewrite (Continue_run _ Hps Hok Hes) by lia. destruct (translate _ (v + i)) as [p|] eqn:Et.
  2: { cbn [negb]. apply wp_ret. split; [done|]. right. split; [done|]. split; [lia|]. left. split; [done|].
       exists i. unfold not_heap_page. rewrite Et. split; [lia|done]. }
  pose proof (translate_range _ Hok (v + i) p ltac:(lia) Et).
  cbn [negb te_phys_addr te_block_size wk_addr wk_size wk_total].
  rewrite (u64_id (a * _ + _)), (u64_id (i * _ + _)) by (unfold is_u64; lia).
  replace (i * PageSize + PageSize) with ((i + 1) * PageSize) by lia.
  replace (v + i + 1) with (v + (i + 1)) by lia.
  destruct (_ =? _) eqn:E; bool_prop; cbn [negb].
  - rewrite (u64_id (k * _ + _)) by (unfold is_u64; lia).
    replace (k * PageSize + PageSize) with ((k + 1) * PageSize) by lia.
    apply IH; [lia| |done]. apply walked_continue; [done..|]. rewrite Et. f_equal. lia.
  - rewrite Z.div_mul by lia. apply wp_bind. eapply wp_mono; [by apply add_heap_block_run; [apply Hst|apply Hst|..]|].
    rewrite El. intros [[r pt'] g'] [Hst' [(-> & Hheap & Hg)|[(-> & Hheap & ->)|(-> & Hi & ->)]]].
    + change (Result_IsSuccess ResultSuccess) with true. cbn [negb].
      replace (MkWalk (p * PageSize) PageSize _) with (MkWalk (p * PageSize) (1 * PageSize) ((i + 1) * PageSize))
        by (f_equal; lia).
      apply IH; [lia|by eapply walked_next|by eapply group_state_trans].
    + apply wp_ret. split; [by eapply group_state_trans|]. right. split; [done|]. split; [lia|]. left. split; [done|].
      destruct (walked_not_heap _ _ _ _ _ _ _ Hw Hheap) as (j & ? & ?). exists j. split; [lia|done].
    + apply wp_ret. split; [by eapply group_state_trans|]. right. split; [done|]. split; [lia|]. right. split; [done|].
      pose proof (gs_infos _ _ _ _ Hst). simpl in *. lia.
Qed.
End Loop.

(** The first entry is at the start of a page. *)
Lemma walk_start_page p : 0 < p → p < 2 ^ 32 →
  walk_start (MkTraversalEntry (p * PageSize) PageSize) = MkWalk (p * PageSize) (1 * PageSize) (1 * PageSize).
Proof.
  intros. unfold walk_start. simpl. rewrite (u64_id (PageSize - 1)) by done.
  assert (Z.land (p * PageSize) (PageSize - 1) = 0) as ->.
  { change (PageSize - 1) with (Z.ones 12). rewrite Z.land_ones by lia. apply Z.mod_mul. lia. }
  by rewrite Z.sub_0_r.
Qed.

Definition group_made pt (v n : Z) g' : Prop :=
  translated (m_impl pt) v (group_pages g') ∧ Z.of_nat (length (group_pages g')) = n ∧
  runs_in_heap (layout pt) (group_pages g').

Lemma MakePageGroup_run pt addr n :
  table_ok pt → entries_ok (m_impl pt) → heap_ok pt → table_range pt addr n →
  wp (MakePageGroup pt [] addr n) (λ '(r, pt', g'), group_state pt [] pt' g' ∧
    ((r = ResultSuccess ∧ group_made pt (addr / PageSize) n g') ∨
     group_failed pt (addr / PageSize) n r g')).
Proof.
  intros Hk Hok Hh Hr. destruct (range_size _ _ _ Hk Hr) as (E1 & _ & _ & _).
  pose proof (table_range_bounds _ _ _ Hk Hr) as (? & ? & ? & ? & _).
  pose proof PageSize_eq as Eps. set (v := addr / PageSize).
  assert (Ea : addr = v * PageSize).
  { destruct Hr as (_ & Ha & _). pose proof (Z.div_mod addr PageSize ltac:(lia)). unfold v. lia. }
  pose proof (tk_page_size _ Hk) as Hps. pose proof (tk_entries _ Hk) as Hes.
  assert (Hn : v + n ≤ entries_size (m_impl pt)).
  { pose proof (tk_bound _ Hk). nia. }
  assert (Hv : 0 ≤ v) by (apply Z.div_pos; lia).
  assert (Hg0 : group_state pt [] pt []) by (apply group_state_refl; done).
  unfold MakePageGroup. cbn [KPageGroup_empty negb]. rewrite E1, Ea, (Begin_run _ Hps) by done.
  rewrite (Continue_run _ Hps Hok Hes) by lia. destruct (translate _ v) as [p|] eqn:Et.
  2: { cbn [negb]. apply wp_ret. split; [done|]. right. split; [done|]. split; [simpl; lia|]. left.
       split; [done|]. exists 0. unfold not_heap_page. rewrite Z.add_0_r, Et. split; [lia|done]. }
  pose proof (translate_range _ Hok v p Hv Et). cbn [negb].
  rewrite walk_start_page by lia. rewrite <- (Z.mul_1_l PageSize) at 5. apply wp_bind.
  eapply wp_mono.
  { apply (make_group_loop_run pt v n Hps Hok Hes Hv Hn _ pt [] 1 p 1); [lia|by apply walked_start|done]. }
  intros [[[r pt'] g'] w] [Hst [(-> & a & k & -> & Hw)|Hf]].
  - change (Result_IsSuccess ResultSuccess) with true. cbn [negb wk_addr]. unfold last_run. cbn [wk_total wk_size].
    rewrite Z.ltb_irrefl, Z.div_mul by lia. destruct (only_infos_impl _ _ (gs_only _ _ _ _ Hst)) as [_ El].
    eapply wp_mono; [apply add_heap_block_run; try apply Hst; apply Hw|]. rewrite El.
    intros [[r pt''] g''] [Hst' [(-> & Hheap & Hg)|[(-> & Hheap & ->)|(-> & Hi & ->)]]];
      (split; [by eapply group_state_trans|]).
    + left. split; [done|]. unfold group_made. rewrite Hg. split; [apply Hw|].
      split; [by apply (length_walked _ _ _ _ _ _ _ Hw)|]. apply runs_in_heap_app; [apply Hw|done].
    + right. destruct (walked_group _ _ _ _ _ _ _ Hw) as [Htg Hlg]. split; [done|]. split; [done|]. left.
      split; [done|]. by apply (walked_not_heap _ _ _ _ _ _ _ Hw).
    + right. destruct (walked_group _ _ _ _ _ _ _ Hw) as [Htg Hlg]. split; [done|]. split; [done|]. right.
      split; [done|]. pose proof (gs_infos _ _ _ _ Hst). simpl in *. lia.
  - assert (Result_IsSuccess r = false) as -> by (destruct Hf as (_ & _ & [[-> _]|[-> _]]); done).
    cbn [negb]. apply wp_ret. split; [done|]. by right.
Qed.
End Table.

(** * Mapping and unmapping of ranges *)

(** Tables of the same shape. *)
Definition same_shape (t t' : PageTable) : Prop :=
  entries_size t' = entries_size t ∧ page_size t' = page_size t ∧
  current_address_space_width_in_bits t' = current_address_space_width_in_bits t.

Lemma same_shape_trans t1 t2 t3 : same_shape t1 t2 → same_shape t2 t3 → same_shape t1 t3.
Proof. unfold same_shape. intuition congruence. Qed.

Lemma entry_at_insert t k e v :
  entry_at (set_entries (<[k := e]> (entries t)) t) v = if decide (v = k) then e else entry_at t v.
Proof.
  unfold entry_at. simpl. case_decide as E; [subst; by rewrite lookup_insert_eq|by rewrite lookup_insert_ne].
Qed.

Lemma unmap_loop_run n : ∀ t b type, 0 ≤ b → b + Z.of_nat n ≤ entries_size t → entries_size t ≤ 2 ^ 40 →
  ∃ t', unmap_loop n t b type = Done true t' ∧ same_shape t t' ∧
    ∀ v, entry_at t' v = if decide (b ≤ v < b + Z.of_nat n) then MkEntry type 0 0 else entry_at t v.
Proof.
  induction n as [|n IH]; intros t b type Hb Hn Hs; cbn [unmap_loop].
  { exists t. split; [done|]. split; [done|]. intros v. rewrite decide_False by lia. done. }
  rewrite (proj2 (Z.ltb_lt _ _)), u64_id by (unfold is_u64; lia).
  destruct (IH (set_entries (<[b := MkEntry type 0 0]> (entries t)) t) (b + 1) type) as (t' & -> & Hsh & He);
    [lia|simpl; lia|done|].
  exists t'. split; [done|]. split; [done|]. intros v. rewrite He, entry_at_insert.
  repeat case_decide; try done; lia.
Qed.

Lemma map_loop_run n : ∀ t b o target type,
  0 ≤ b → b + Z.of_nat n ≤ entries_size t → entries_size t ≤ 2 ^ 40 →
  0 ≤ target → target + Z.of_nat n * PageSize ≤ 2 ^ 63 →
  ∃ t', map_loop n t b o target type = Done true t' ∧ same_shape t t' ∧
    ∀ v, entry_at t' v = if decide (b ≤ v < b + Z.of_nat n)
      then MkEntry type (u64 (Z.shiftl o PageBits)) (u64 (target + (v - b) * PageSize - v * PageSize))
      else entry_at t v.
Proof.
  pose proof PageSize_eq as Eps.
  induction n as [|n IH]; intros t b o target type Hb Hn Hs Ht Ht2; cbn [map_loop].
  { exists t. split; [done|]. split; [done|]. intros v. rewrite decide_False by lia. done. }
  rewrite (proj2 (Z.ltb_lt _ _)), (u64_id (b + 1)) by (unfold is_u64; lia).
  assert (u64 (Z.shiftl b PageBits) = b * PageSize) as ->.
  { change PageBits with 12. rewrite Z.shiftl_mul_pow2 by lia. change (2 ^ 12) with PageSize.
    apply u64_id. unfold is_u64. lia. }
  rewrite (u64_id (target + PageSize)) by (unfold is_u64; lia).
  set (e := MkEntry _ _ _). set (t1 := set_entries (<[b := e]> (entries t)) t).
  destruct (IH t1 (b + 1) o (target + PageSize) type) as (t' & -> & Hsh & He);
    [lia|simpl; lia|done|lia|lia|].
  exists t'. split; [done|]. split; [done|]. intros v. rewrite He. unfold t1. rewrite entry_at_insert.
  repeat case_decide; try done; try lia.
  - f_equal. f_equal. lia.
  - subst v. unfold e. f_equal. f_equal. lia.
Qed.

(** What the table says of a range changed, and of nothing else. *)
Definition remapped (t : PageTable) (v n : Z) (f : Z → option Z) (t' : PageTable) : Prop :=
  same_shape t t' ∧ entries_ok t' ∧
  ∀ w, 0 ≤ w → translate t' w = if decide (v ≤ w < v + n) then f w else translate t w.

Lemma translate_shape t t' w : same_shape t t' → entry_at t' w = entry_at t w → translate t' w = translate t w.
Proof. intros (E & _) Hw. unfold translate. by rewrite E, Hw. Qed.

Section Regions.
Context (t : PageTable) (v n : Z).
Hypotheses (Hok : entries_ok t) (Hv : 0 ≤ v) (Hn : 0 ≤ n) (Hvn : v + n ≤ entries_size t)
           (Hs : entries_size t ≤ 2 ^ 40).

Lemma page_args : Z.land (n * PageSize) (PageSize - 1) = 0 ∧ Z.land (v * PageSize) (PageSize - 1) = 0 ∧
  v * PageSize / PageSize = v ∧ n * PageSize / PageSize = n ∧ u64 (v + n) = v + n.
Proof.
  assert (Hl : ∀ x, Z.land (x * PageSize) (PageSize - 1) = 0).
  { intros x. change (PageSize - 1) with (Z.ones 12). rewrite Z.land_ones by lia. apply Z.mod_mul. lia. }
  rewrite !Hl, !Z.div_mul, u64_id by (rewrite ?PageSize_eq; unfold is_u64; lia). done.
Qed.

Lemma UnmapRegion_run : ∃ t', Memory_UnmapRegion t (v * PageSize) (n * PageSize) = Done true t' ∧
  remapped t v n (λ _, None) t'.
Proof.
  destruct page_args as (E1 & E2 & E3 & E4 & E5). unfold Memory_UnmapRegion, Memory_MapPages.
  rewrite E1, E2, E3, E4, E5. rewrite (proj2 (Z.leb_le _ _)) by lia. rewrite !Z.eqb_refl.
  rewrite bool_decide_eq_false_2 by done.
  destruct (unmap_loop_run (Z.to_nat n) t v Unmapped) as (t' & El & Hsh & He); [lia..|].
  rewrite Z2Nat.id in He by lia. exists t'. split; [by rewrite El|].
  split; [done|]. split.
  - intros w Hw Hlt. rewrite He in *. case_decide; [done|]. apply Hok; [done|].
    destruct Hsh as (E & _). by rewrite <- E.
  - intros w Hw. case_decide as E; [|apply translate_shape; [done|by rewrite He, decide_False]].
    unfold translate. rewrite He, decide_True by done. simpl. by destruct (_ <? _).
Qed.

(** The page that has the number of its physical page reads as unmapped. *)
Definition run_at (p w : Z) : option Z := if w =? p + (w - v) then None else Some (p + (w - v)).

Lemma MapMemoryRegion_run p : DramMemoryMap_Base ≤ p * PageSize → p + n < 2 ^ 32 →
  ∃ t', Memory_MapMemoryRegion t (v * PageSize) (n * PageSize) (p * PageSize) = Done true t' ∧
  remapped t v n (run_at p) t'.
Proof.
  pose proof PageSize_eq as Eps. intros Hp Hp2.
  destruct page_args as (E1 & E2 & E3 & E4 & E5). unfold Memory_MapMemoryRegion, Memory_MapPages.
  rewrite E1, E2, E3, E4, E5. rewrite (proj2 (Z.leb_le DramMemoryMap_Base _)) by lia.
  rewrite (proj2 (Z.leb_le (v + n) _)) by lia.
  unfold DramMemoryMap_Base in *. rewrite (proj2 (Z.eqb_neq (p * PageSize) 0)) by lia. rewrite !Z.eqb_refl.
  destruct (map_loop_run (Z.to_nat n) t v v (p * PageSize) Memory) as (t' & El & Hsh & He); [lia..|].
  rewrite Z2Nat.id in He by lia. exists t'. split; [by rewrite El|].
  assert (Hd : ∀ w, v ≤ w < v + n → pe_addr (entry_at t' w) = u64 ((p + (w - v) - w) * PageSize)).
  { intros w Hw. rewrite He, decide_True by done. simpl. f_equal. lia. }
  assert (Hu : ∀ w, v ≤ w < v + n → u64 (pe_addr (entry_at t' w) + w * PageSize) = (p + (w - v)) * PageSize).
  { intros w Hw. rewrite Hd by done. unfold u64. rewrite Zplus_mod_idemp_l.
    rewrite Z.mod_small; lia. }
  split; [done|]. split.
  - intros w Hw Hlt. destruct (decide (v ≤ w < v + n)).
    + rewrite Hu by done. exists (p + (w - v)). split; [done|]. lia.
    + rewrite He, decide_False in * by done. apply Hok; [done|]. destruct Hsh as (E & _). by rewrite <- E.
  - intros w Hw. case_decide as E; [|apply translate_shape; [done|by rewrite He, decide_False]].
    unfold translate. rewrite (proj2 (Z.ltb_lt _ _)) by (destruct Hsh as (-> & _); lia).
    rewrite Hu, Z.div_mul, Hd by lia. unfold run_at.
    destruct (w =? p + (w - v)) eqn:E6; bool_prop.
    + replace ((p + (w - v) - w) * PageSize) with 0 by lia. done.
    + destruct (_ =? 0) eqn:E7; [|done]. bool_prop. unfold u64 in E7.
      apply Z.mod_divide in E7 as [z Hz]; [|lia]. nia.
Qed.
End Regions.

(** ** Mapping a page group *)

(** What a list of physical pages mapped from [v] on gives. *)
Definition list_at (v : Z) (ps : list Z) (w : Z) : option Z :=
  p ← ps !! Z.to_nat (w - v); if w =? p then None else Some p.

Lemma remapped_app t v n1 n2 f1 f2 f t1 t2 : 0 ≤ n1 → 0 ≤ n2 →
  remapped t v n1 f1 t1 → remapped t1 (v + n1) n2 f2 t2 →
  (∀ w, v ≤ w < v + n1 → f w = f1 w) → (∀ w, v + n1 ≤ w < v + n1 + n2 → f w = f2 w) →
  remapped t v (n1 + n2) f t2.
Proof.
  intros ? ? (S1 & _ & T1) (S2 & Hok & T2) F1 F2. split; [by eapply same_shape_trans|]. split; [done|].
  intros w Hw. rewrite T2, T1 by done. repeat case_decide; try lia; auto. rewrite F2; [done|lia].
  rewrite F1; [done|lia].
Qed.

Lemma remapped_0 t v f : entries_ok t → remapped t v 0 f t.
Proof. intros Hok. split; [done|]. split; [done|]. intros w _. rewrite decide_False by lia. done. Qed.

(** The pages of a group are in the memory of the machine. *)
Definition dram_group (g : KPageGroup) : Prop :=
  Forall block_ok g ∧ Forall (λ b, DramMemoryMap_Base ≤ bi_page_index b * PageSize) g.

Lemma map_group_loop_run g : ∀ t v, dram_group g → entries_ok t → 0 ≤ v →
  v + Z.of_nat (length (group_pages g)) ≤ entries_size t → entries_size t ≤ 2 ^ 40 →
  ∃ t', map_group_loop t g (v * PageSize) = Done true t' ∧
    remapped t v (Z.of_nat (length (group_pages g))) (list_at v (group_pages g)) t'.
Proof.
  pose proof PageSize_eq as Eps.
  induction g as [|b g IH]; intros t v [Hb Hd] Hok Hv Hn Hs; cbn [map_group_loop].
  { exists t. split; [done|]. by apply remapped_0. }
  apply Forall_cons in Hb as [Hb Hbs]. apply Forall_cons in Hd as [Hd Hds].
  destruct (block_address b Hb) as (-> & _ & _). rewrite group_pages_cons in *.
  rewrite length_app, Nat2Z.inj_add, length_block_pages in * by (destruct Hb as (? & ? & ?); lia).
  unfold KBlockInfo_GetNumPages. destruct Hb as (Hb1 & Hb2 & Hb3).
  rewrite (u64_id (bi_num_pages b * PageSize)) by (unfold is_u64; lia).
  destruct (MapMemoryRegion_run t v (bi_num_pages b)) with (p := bi_page_index b) as (t1 & -> & H1); [done|lia..|].
  rewrite bind_Done_true.
  rewrite (u64_id (v * PageSize + _)) by (unfold is_u64; lia).
  replace (v * PageSize + bi_num_pages b * PageSize) with ((v + bi_num_pages b) * PageSize) by lia.
  destruct H1 as (S1 & Hok1 & T1).
  destruct (IH t1 (v + bi_num_pages b)) as (t2 & -> & H2); [done|done|lia|destruct S1 as (-> & _); lia..|].
  exists t2. split; [done|]. eapply remapped_app; [lia|lia| |exact H2|..].
  - split; [done|]. split; [done|]. exact T1.
  - intros w Hw. unfold list_at, run_at. rewrite lookup_app_l.
    + assert (block_pages b !! Z.to_nat (w - v) = Some (bi_page_index b + (w - v))) as ->; [|done].
      apply lookup_seqZ. lia.
    + pose proof (length_block_pages b ltac:(lia)). lia.
  - intros w Hw. unfold list_at. pose proof (length_block_pages b ltac:(lia)).
    rewrite lookup_app_r by lia. do 2 f_equal. lia.
Qed.
