(* ===== verification/PageTableOperate.v ===== *)
(** Lemmas about the references that mappings hold, and about [Operate]. *)

From S2P Require Import Prelude Common MemoryBlock OrderedTree MemoryBlockManager MemoryBlockManagerLemmas MemoryBlockManagerUpdate MemoryBlockManagerTheorems PageBitmap PageBitmapLemmas PageBitmapTheorems PageHeap PageHeapLemmas PageHeapTheorems MemoryRegionType MemoryRegion MemoryLayout MemoryRegionTheorems PageGroup MemoryManager PageGroupTheorems MemoryManagerLemmas MemoryManagerPages MemoryManagerAllocate MemoryManagerOperations ResourceLimit PageTable PageTableOperations PageTableCheck PageTablePermission PageTableTranslation.

(** * Page tables and the references to physical pages

    Page groups may name a page more than once, as a range may map it more than
    once: opening and closing a group counts.  Every mapping of a page of the
    memory manager has a reference, whatever other references there are. *)

(** How often a page is in a list. *)
Definition times (p : Z) (L : list Z) : Z := Z.of_nat (length (filter (p =.) L)).

Lemma times_app p L L' : times p (L ++ L') = times p L + times p L'.
Proof. unfold times. rewrite filter_app, length_app. lia. Qed.
Lemma times_nonneg p L : 0 ≤ times p L.
Proof. unfold times. lia. Qed.
Lemma times_pos p L : p ∈ L ↔ 0 < times p L.
Proof.
  unfold times. split.
  - intros Hp. assert (Hf : p ∈ filter (p =.) L) by (by apply list_elem_of_filter).
    destruct (filter (p =.) L); [by apply elem_of_nil in Hf|simpl; lia].
  - destruct (filter (p =.) L) as [|q l] eqn:E; [simpl; lia|]. intros _.
    assert (Hq : q ∈ filter (p =.) L) by (rewrite E; by left).
    apply list_elem_of_filter in Hq as [<- Hq]. done.
Qed.
Lemma times_NoDup p L : NoDup L → times p L = if decide (p ∈ L) then 1 else 0.
Proof.
  intros Hn. case_decide as Hp; [|pose proof (times_nonneg p L); rewrite times_pos in Hp; lia].
  induction Hn as [|q L Hq Hn IH]; [by apply elem_of_nil in Hp|].
  unfold times in *. rewrite filter_cons. apply elem_of_cons in Hp as [->|Hp].
  - rewrite decide_True by done. simpl.
    assert (¬ q ∈ L) as Hq2 by done. rewrite times_pos in Hq2. unfold times in Hq2. lia.
  - rewrite decide_False by congruence. by apply IH.
Qed.

Section References.
Context {R : Type} `{RngLaws R}.
Implicit Types (mm : KMemoryManager R).

(** References are changed by [d] for every time that a page is in the list. *)
Record mm_counted (d : Z) (L : list Z) mm mm' : Prop := {
  mc_wf : mm_wf mm';
  mc_same : same_mm mm mm';
  mc_memory : mm_memory mm' = mm_memory mm;
  mc_ref p : in_mm mm p → page_ref mm' p = page_ref mm p + d * times p L;
  mc_free p : in_mm mm p → page_free mm' p ↔
    page_free mm p ∨ (p ∈ L ∧ page_ref mm p + d * times p L = 0)
}.

Lemma mm_counted_refl d mm : mm_wf mm → mm_counted d [] mm mm.
Proof.
  intros Hw. split; [done|apply same_mm_refl|done|unfold times; simpl; lia|].
  intros p Hp. rewrite elem_of_nil. tauto.
Qed.

Lemma mm_counted_app d L1 L2 mm m1 m2 : d = -1 ∨ d = 1 →
  (∀ p, p ∈ L1 ++ L2 → in_mm mm p ∧ 0 < page_ref mm p ∧ 0 ≤ page_ref mm p + d * times p (L1 ++ L2)) →
  mm_counted d L1 mm m1 → mm_counted d L2 m1 m2 → mm_counted d (L1 ++ L2) mm m2.
Proof.
  intros Hd Hpre [W1 S1 M1 R1 F1] [W2 S2 M2 R2 F2].
  split; [done|by eapply same_mm_trans|congruence| |].
  - intros p Hp. rewrite R2, R1 by (done || by apply (same_mm_in _ _ p S1)). rewrite times_app. lia.
  - intros p Hp. rewrite F2, F1, R1 by (done || by apply (same_mm_in _ _ p S1)).
    rewrite times_app, elem_of_app. pose proof (times_nonneg p L1). pose proof (times_nonneg p L2).
    destruct (decide (p ∈ L1 ++ L2)) as [Hi|Hi]; [|rewrite elem_of_app in Hi; tauto].
    destruct (Hpre p Hi) as (_ & ? & ?). rewrite times_app in *. rewrite elem_of_app in Hi.
    rewrite !times_pos in *.
    split; [intros [[?|[? ?]]|[? ?]]; [by left|right; lia..]|].
    intros [?|[? ?]]; [by left; left|]. destruct (decide (0 < times p L2)); [right; lia|left; right; lia].
Qed.

(** What is asked of the pages of a list. *)
Definition can_close mm (L : list Z) : Prop :=
  ∀ p, p ∈ L → in_mm mm p ∧ times p L ≤ page_ref mm p.
Definition can_open mm (L : list Z) : Prop :=
  ∀ p, p ∈ L → in_mm mm p ∧ 0 < page_ref mm p ∧ page_ref mm p + times p L < 2 ^ 16.

Lemma closed_counted L mm mm' : NoDup L → (∀ p, p ∈ L → 0 < page_ref mm p) →
  mm_acted act_close L mm mm' → mm_counted (-1) L mm mm'.
Proof.
  intros Hn Hp [W S M Hr Hf]. split; try done; intros p Hi; specialize (Hr p Hi); specialize (Hf p Hi);
    rewrite (times_NoDup p L Hn); simpl in *.
  - rewrite Hr. case_decide; lia.
  - rewrite Hf. destruct (decide (p ∈ L)); [|tauto].
    replace (page_ref mm p + -1 * 1 = 0) with (page_ref mm p - 1 = 0) by (f_equal; lia).
    intuition lia.
Qed.

Lemma opened_counted L mm mm' : NoDup L → (∀ p, p ∈ L → 0 < page_ref mm p) →
  mm_acted act_open L mm mm' → mm_counted 1 L mm mm'.
Proof.
  intros Hn Hp [W S M Hr Hf]. split; try done; intros p Hi; specialize (Hr p Hi); specialize (Hf p Hi);
    rewrite (times_NoDup p L Hn); simpl in *.
  - rewrite Hr. case_decide; lia.
  - rewrite Hf. destruct (decide (p ∈ L)) as [E|E]; [|tauto]. specialize (Hp p E).
    split; [tauto|]. intros [?|[_ ?]]; [done|lia].
Qed.

Lemma can_close_app L1 L2 mm m1 : can_close mm (L1 ++ L2) → mm_counted (-1) L1 mm m1 → can_close m1 L2.
Proof.
  intros Hc [W1 S1 M1 R1 F1] p Hp. destruct (Hc p) as [Hi Ht]; [set_solver|].
  split; [by apply (same_mm_in _ _ p S1)|]. rewrite R1 by done. rewrite times_app in Ht. lia.
Qed.

Lemma can_open_app L1 L2 mm m1 : can_open mm (L1 ++ L2) → mm_counted 1 L1 mm m1 → can_open m1 L2.
Proof.
  intros Hc [W1 S1 M1 R1 F1] p Hp. destruct (Hc p) as (Hi & Hr & Ht); [set_solver|].
  split; [by apply (same_mm_in _ _ p S1)|]. rewrite R1 by done. rewrite times_app in Ht.
  pose proof (times_nonneg p L1). lia.
Qed.

Lemma can_close_ref mm L : can_close mm L →
  ∀ p, p ∈ L → in_mm mm p ∧ 0 < page_ref mm p ∧ 0 ≤ page_ref mm p + -1 * times p L.
Proof. intros Hc p Hp. destruct (Hc p Hp). apply times_pos in Hp. split; [done|lia]. Qed.

Lemma can_open_ref mm L : can_open mm L →
  ∀ p, p ∈ L → in_mm mm p ∧ 0 < page_ref mm p ∧ 0 ≤ page_ref mm p + 1 * times p L.
Proof. intros Hc p Hp. destruct (Hc p Hp) as (? & ? & _). apply times_pos in Hp. split; [done|lia]. Qed.

(** One block of a group. *)
Lemma Close_block_run mm b : block_ok b → mm_wf mm → can_close mm (block_pages b) →
  wp (KMemoryManager_Close mm (KBlockInfo_GetAddress b) (KBlockInfo_GetNumPages b))
     (mm_counted (-1) (block_pages b) mm).
Proof.
  intros Hb Hw Hc. destruct (block_address b Hb) as (-> & _). destruct Hb as (? & ? & ?).
  pose proof (can_close_ref _ _ Hc) as Hp.
  eapply wp_mono; [apply Close_does; [done|unfold KBlockInfo_GetNumPages; lia|]|].
  - split; [apply NoDup_seqZ|]. intros p Hi. destruct (Hp p Hi) as (? & ? & _). done.
  - intros mm' Ha. apply closed_counted; [apply NoDup_seqZ| |done]. intros p Hi. apply (Hp p Hi).
Qed.

Lemma Open_block_run mm b : block_ok b → mm_wf mm → can_open mm (block_pages b) →
  wp (KMemoryManager_Open mm (KBlockInfo_GetAddress b) (KBlockInfo_GetNumPages b))
     (mm_counted 1 (block_pages b) mm).
Proof.
  intros Hb Hw Hc. destruct (block_address b Hb) as (-> & _). destruct Hb as (? & ? & ?).
  eapply wp_mono; [apply Open_does; [done|unfold KBlockInfo_GetNumPages; lia|]|].
  - split; [apply NoDup_seqZ|]. intros p Hi. destruct (Hc p Hi) as (? & ? & Ht).
    split; [done|]. split; [done|].
    change (p ∈ block_pages b) in Hi. apply times_pos in Hi. lia.
  - intros mm' Ha. apply opened_counted; [apply NoDup_seqZ| |done]. intros p Hi. apply (Hc p Hi).
Qed.

Lemma can_close_l mm L1 L2 : can_close mm (L1 ++ L2) → can_close mm L1.
Proof.
  intros Hc p Hp. destruct (Hc p) as [? Ht]; [set_solver|]. rewrite times_app in Ht.
  pose proof (times_nonneg p L2). split; [done|lia].
Qed.
Lemma can_open_l mm L1 L2 : can_open mm (L1 ++ L2) → can_open mm L1.
Proof.
  intros Hc p Hp. destruct (Hc p) as (? & ? & Ht); [set_solver|]. rewrite times_app in Ht.
  pose proof (times_nonneg p L2). split; [done|lia].
Qed.

Lemma Group_Open_run g : Forall block_ok g → ∀ mm, mm_wf mm → can_open mm (group_pages g) →
  wp (KPageGroup_Open mm g) (mm_counted 1 (group_pages g) mm).
Proof.
  unfold KPageGroup_Open. induction 1 as [|b g Hb Hg IH]; intros mm Hw Hc; cbn [group_loop].
  { by apply mm_counted_refl. }
  rewrite group_pages_cons in *. apply wp_bind.
  eapply wp_mono; [apply Open_block_run; [done|done|by eapply can_open_l]|]. intros m1 H1.
  eapply wp_mono; [apply IH; [apply H1|by eapply can_open_app]|]. intros m2 H2.
  eapply mm_counted_app; [by right| |done..]. by apply can_open_ref.
Qed.

Lemma Group_Close_run g : Forall block_ok g → ∀ mm, mm_wf mm → can_close mm (group_pages g) →
  wp (KPageGroup_Close mm g) (mm_counted (-1) (group_pages g) mm).
Proof.
  unfold KPageGroup_Close. induction 1 as [|b g Hb Hg IH]; intros mm Hw Hc; cbn [group_loop].
  { by apply mm_counted_refl. }
  rewrite group_pages_cons in *. apply wp_bind.
  eapply wp_mono; [apply Close_block_run; [done|done|by eapply can_close_l]|]. intros m1 H1.
  eapply wp_mono; [apply IH; [apply H1|by eapply can_close_app]|]. intros m2 H2.
  eapply mm_counted_app; [by left| |done..]. by apply can_close_ref.
Qed.

Lemma Group_CloseAndReset_run {S} `{SlabLaws S} g : Forall block_ok g → ∀ mm (s : S),
  mm_wf mm → can_close mm (group_pages g) →
  wp (KPageGroup_CloseAndReset mm s g) (λ '(mm', s', g'),
    g' = [] ∧ slab_size s' = (slab_size s + length g)%nat ∧ mm_counted (-1) (group_pages g) mm mm').
Proof.
  induction 1 as [|b g Hb Hg IH]; intros mm s Hw Hc; cbn [KPageGroup_CloseAndReset].
  { apply wp_ret. split_and!; [done|simpl; lia|by apply mm_counted_refl]. }
  rewrite group_pages_cons in *. apply wp_bind.
  eapply wp_mono; [apply Close_block_run; [done|done|by eapply can_close_l]|]. intros m1 H1'.
  eapply wp_mono; [apply IH; [apply H1'|by eapply can_close_app]|].
  intros [[m2 s2] g2] (-> & Es & H2'). rewrite slab_size_Free in Es.
  split_and!; [done|simpl; lia|]. eapply mm_counted_app; [by left| |done..]. by apply can_close_ref.
Qed.
End References.

(** * Operate: mappings hold references

    The invariant of a page table and the memory manager behind it, and that
    mapping and unmapping keep it.  [other] is the number of references to a page
    that are not mappings of this table: those of other tables, page groups and
    devices. *)

(** The virtual pages of a range that are mapped to a page. *)
Definition pages_to (t : PageTable) (p v n : Z) : list Z :=
  filter (λ w, translate t w = Some p) (seqZ v n).

Lemma pages_to_times t v ps p : translated t v ps →
  Z.of_nat (length (pages_to t p v (Z.of_nat (length ps)))) = times p ps.
Proof.
  unfold translated, pages_to, times. generalize (seqZ v (Z.of_nat (length ps))). intros vs E.
  f_equal. revert ps E. induction vs as [|w vs IH]; intros [|q ps] E; try done.
  rewrite !fmap_cons in E. injection E as E1 E2. rewrite !filter_cons. specialize (IH ps E2).
  destruct (decide (translate t w = Some p)), (decide (p = q)); simpl; congruence.
Qed.

Lemma elem_of_pages_to t p v n w : w ∈ pages_to t p v n ↔ translate t w = Some p ∧ v ≤ w < v + n.
Proof. unfold pages_to. by rewrite list_elem_of_filter, elem_of_seqZ. Qed.
Lemma NoDup_pages_to t p v n : NoDup (pages_to t p v n).
Proof. apply NoDup_filter, NoDup_seqZ. Qed.

(** The positions of a page in a list. *)
Lemma positions_times (ps : list Z) (p : Z) : length (filter (λ i, ps !! i = Some p) (seq 0 (length ps))) = length (filter (p =.) ps).
Proof.
  induction ps as [|q ps IH]; [done|]. cbn [length seq]. rewrite !filter_cons.
  assert (E : ∀ l, length (filter (λ i, (q :: ps) !! i = Some p) (Datatypes.S <$> l)) =
    length (filter (λ i, ps !! i = Some p) l)).
  { induction l as [|i l IHl]; [done|]. rewrite fmap_cons, !filter_cons. simpl.
    case_decide; simpl; by rewrite IHl. }
  rewrite <- fmap_S_seq. destruct (decide (p = q)) as [->|Hne].
  - rewrite decide_True by done. cbn [length]. by rewrite E, IH.
  - rewrite decide_False by (simpl; congruence). by rewrite E, IH.
Qed.

Section Operate.
Context {R : Type} `{RngLaws R} {S : Type} `{SlabExact S}.
Implicit Types (pt : KPageTableBase R S) (g : KPageGroup) (other : Z → Z).

(** A page has a reference for every mapping, besides the other ones. *)
Definition counted other (t : PageTable) (mm : KMemoryManager R) : Prop :=
  ∀ p vs, in_mm mm p → NoDup vs → (∀ w, w ∈ vs → 0 ≤ w ∧ translate t w = Some p) →
    Z.of_nat (length vs) + other p ≤ page_ref mm p.

Record pt_inv other pt : Prop := {
  pi_table : table_ok pt;
  pi_entries : entries_ok (m_impl pt);
  pi_heap : heap_ok pt;
  pi_mm : mm_wf (pt_mm pt);
  pi_other p : 0 ≤ other p;
  pi_counted : counted other (m_impl pt) (pt_mm pt)
}.

(** Pages that are mapped are not free: their memory cannot be given away. *)
Lemma mapped_ref other pt w p : pt_inv other pt → in_mm (pt_mm pt) p → 0 ≤ w →
  translate (m_impl pt) w = Some p → 0 < page_ref (pt_mm pt) p.
Proof.
  intros Hi Hp Hw Ht. pose proof (pi_counted _ _ Hi p [w] Hp (NoDup_singleton w)) as Hc.
  pose proof (pi_other _ _ Hi p). simpl in Hc. unfold times in *.
  assert (Hone : ∀ w0, w0 ∈ [w] → 0 ≤ w0 ∧ translate (m_impl pt) w0 = Some p).
  { intros w0 ->%list_elem_of_singleton. done. }
  specialize (Hc Hone). lia.
Qed.

Lemma mapped_not_free other pt w p : pt_inv other pt → in_mm (pt_mm pt) p → 0 ≤ w →
  translate (m_impl pt) w = Some p → ¬ page_free (pt_mm pt) p.
Proof.
  intros Hi Hp Hw Ht Hf. pose proof (mapped_ref _ _ _ _ Hi Hp Hw Ht) as Hr.
  destruct Hp as (i & im & Hm & Hin). pose proof (pi_mm _ _ Hi) as Hmm.
  destruct (page_of_impl _ i im p Hmm Hm Hin) as [E1 E2].
  rewrite (iw_free im (mw_impl _ Hmm i im Hm) p Hin) in E1 by (by apply E2). lia.
Qed.

(** The pages of the range that are mapped are pages of the memory manager. *)
Definition managed_range pt (v n : Z) : Prop :=
  ∀ w p, v ≤ w < v + n → translate (m_impl pt) w = Some p → in_mm (pt_mm pt) p.

Lemma counted_can_close other t mm v ps : 0 ≤ v → (∀ p, 0 ≤ other p) → counted other t mm →
  translated t v ps → (∀ p, p ∈ ps → in_mm mm p) → can_close mm ps.
Proof.
  intros Hv Ho Hc Ht Hin p Hp. split; [by apply Hin|].
  rewrite <- (pages_to_times t v ps p Ht). specialize (Ho p).
  pose proof (Hc p (pages_to t p v (Z.of_nat (length ps))) (Hin p Hp) (NoDup_pages_to _ _ _ _)) as Hl.
  assert (Hall : ∀ w, w ∈ pages_to t p v (Z.of_nat (length ps)) → 0 ≤ w ∧ translate t w = Some p).
  { intros w [? ?]%elem_of_pages_to. split; [lia|done]. }
  specialize (Hl Hall). lia.
Qed.

(** Unmapping a range and closing its first pages. *)
Lemma counted_unmap other t t' mm mm' v n ps : 0 ≤ v → counted other t mm → translated t v ps →
  Z.of_nat (length ps) ≤ n → remapped t v n (λ _, None) t' → mm_counted (-1) ps mm mm' →
  counted other t' mm'.
Proof.
  intros Hv Hc Ht Hn (_ & _ & T) M p vs Hp Hnd Hvs.
  assert (Hp0 : in_mm mm p) by (by apply (same_mm_in _ _ p (mc_same _ _ _ _ M))).
  rewrite (mc_ref _ _ _ _ M p Hp0), <- (pages_to_times t v ps p Ht).
  set (us := pages_to t p v (Z.of_nat (length ps))).
  assert (Hvs' : ∀ w, w ∈ vs → 0 ≤ w ∧ ¬ v ≤ w < v + n ∧ translate t w = Some p).
  { intros w Hw. destruct (Hvs w Hw) as [? Hw2]. rewrite T in Hw2 by done. case_decide; done. }
  pose proof (Hc p (vs ++ us) Hp0) as Hl. rewrite length_app in Hl.
  assert (NoDup (vs ++ us)).
  { apply NoDup_app. split; [done|]. split; [|apply NoDup_pages_to].
    intros w Hw [_ ?]%elem_of_pages_to. destruct (Hvs' w Hw) as (_ & ? & _). lia. }
  assert (Hall : ∀ w, w ∈ vs ++ us → 0 ≤ w ∧ translate t w = Some p).
  { intros w [Hw|[? ?]%elem_of_pages_to]%elem_of_app; [|split; [lia|done]].
    destruct (Hvs' w Hw) as (? & _ & ?). done. }
  specialize (Hl ltac:(done) Hall). lia.
Qed.

(** Mapping a range to pages with a reference more. *)
Lemma counted_map other t t' mm mm' v ps : 0 ≤ v → counted other t mm →
  remapped t v (Z.of_nat (length ps)) (list_at v ps) t' → mm_counted 1 ps mm mm' → counted other t' mm'.
Proof.
  intros Hv Hc (_ & _ & T) M p vs Hp Hnd Hvs.
  assert (Hp0 : in_mm mm p) by (by apply (same_mm_in _ _ p (mc_same _ _ _ _ M))).
  rewrite (mc_ref _ _ _ _ M p Hp0). set (n := Z.of_nat (length ps)).
  set (old := filter (λ w, ¬ v ≤ w < v + n) vs). set (new := filter (λ w, v ≤ w < v + n) vs).
  assert (Hlen : length vs = (length old + length new)%nat).
  { unfold old, new. clear. induction vs as [|w vs IH]; [done|]. rewrite !filter_cons.
    repeat case_decide; simpl; try done; lia. }
  assert (Hold : Z.of_nat (length old) + other p ≤ page_ref mm p).
  { apply Hc; [done|by apply NoDup_filter|]. intros w [Hw1 Hw]%list_elem_of_filter.
    destruct (Hvs w Hw) as [? Hw2]. rewrite T, decide_False in Hw2 by done. done. }
  assert (Hnew : Z.of_nat (length new) ≤ times p ps); [|lia].
  unfold times. apply inj_le.
  assert (Hsub : (λ w, Z.to_nat (w - v)) <$> new ⊆+ filter (λ i, ps !! i = Some p) (seq 0 (length ps))).
  { apply NoDup_submseteq.
    - unfold new. apply NoDup_fmap_2_strong; [|by apply NoDup_filter].
      intros x y [? _]%list_elem_of_filter [? _]%list_elem_of_filter. lia.
    - intros i (w & -> & [Hw1 Hw]%list_elem_of_filter)%list_elem_of_fmap. apply list_elem_of_filter.
      destruct (Hvs w Hw) as [? Hw2]. rewrite T, decide_True in Hw2 by done. unfold list_at in Hw2.
      destruct (ps !! Z.to_nat (w - v)) as [q|] eqn:E; simplify_eq/=.
      destruct (w =? q); simplify_eq. split; [done|]. apply elem_of_seq. apply lookup_lt_Some in E. lia. }
  apply submseteq_length in Hsub. rewrite length_fmap in Hsub.
  rewrite positions_times in Hsub. done.
Qed.

(** Only the entries, the memory manager, the block infos and the cached region
    changed. *)
Definition only_mapping pt pt' : Prop :=
  ∃ t mm s c, pt' = with_impl t (with_mm mm (with_infos s (with_cached c pt))).

Lemma pt_inv_mapping other pt t mm s c : pt_inv other pt →
  same_shape (m_impl pt) t → entries_ok t → same_mm (pt_mm pt) mm → mm_wf mm →
  heap_ok (with_cached c pt) → counted other t mm →
  pt_inv other (with_impl t (with_mm mm (with_infos s (with_cached c pt)))).
Proof.
  intros [[]] (E1 & E2 & _) He Hs Hw [Hh1 Hh2 Hh3] Hc. split; try done; split; simpl in *; rewrite ?E1, ?E2, ?(sm_layout _ _ Hs); done.
Qed.

(** Where the range of an operation is, in pages. *)
Lemma range_pages pt addr n : table_ok pt → table_range pt addr n →
  addr = addr / PageSize * PageSize ∧ 0 ≤ addr / PageSize ∧ 0 < n ∧
  addr / PageSize + n ≤ entries_size (m_impl pt) ∧ entries_size (m_impl pt) ≤ 2 ^ 40.
Proof.
  intros Hk Hr. pose proof (table_range_bounds _ _ _ Hk Hr) as (? & ? & ? & ? & _).
  pose proof PageSize_eq as Eps. destruct Hr as (_ & Ha & _).
  assert (Ea : addr = addr / PageSize * PageSize) by (pose proof (Z.div_mod addr PageSize ltac:(lia)); lia).
  pose proof (tk_bound _ Hk). pose proof (tk_entries _ Hk).
  split; [done|]. split; [apply Z.div_pos; lia|]. split; [lia|]. split; [nia|done].
Qed.

(** The three assertions of [Operate]. *)
Lemma Operate_asserts {A} pt addr n (k : prog A) : table_ok pt → table_range pt addr n →
  (_ ← ASSERT (0 <? n); _ ← ASSERT (IsAligned addr PageSize);
   _ ← ASSERT (ContainsPages (pt_regions pt) addr n); k) = k.
Proof.
  intros Hk Hr. rewrite (proj2 (Z.ltb_lt 0 n)) by apply Hr.
  rewrite (proj2 (IsAligned_page addr)) by apply Hr. rewrite (ContainsPages_run _ _ _ Hk Hr).
  change (ASSERT true) with (Done true ()). by rewrite !bind_Done_true.
Qed.

(** What unmapping does: the pages [ps] lose a reference for each time they were
    mapped in the range. *)
Record unmapped other pt (v n : Z) (ps : list Z) pt' : Prop := {
  um_inv : pt_inv other pt';
  um_only : only_mapping pt pt';
  um_prefix : translated (m_impl pt) v ps;
  um_length : Z.of_nat (length ps) ≤ n;
  um_translate w : 0 ≤ w →
    translate (m_impl pt') w = if decide (v ≤ w < v + n) then None else translate (m_impl pt) w;
  um_refs : mm_counted (-1) ps (pt_mm pt) (pt_mm pt');
  um_infos : infos_of pt' = infos_of pt
}.

(** The range is mapped to pages of the heap, and block infos suffice. *)
Definition closable pt (v n : Z) : Prop :=
  (∀ w, v ≤ w < v + n → ¬ not_heap_page (m_impl pt) (m_memory_layout (pt_mm pt)) w) ∧
  n ≤ Z.of_nat (infos_of pt).

Lemma closable_made pt v n r g : closable pt v n → group_wf g → ¬ group_failed pt v n r g.
Proof.
  intros [Hh Hi] Hg (_ & Hl & [(_ & j & Hj & Hn)|(_ & E)]).
  - apply (Hh (v + j)); [lia|done].
  - pose proof (group_length g Hg). lia.
Qed.

Lemma Operate_unmap_run other pt addr n phys valid p op :
  pt_inv other pt → table_range pt addr n → op ∈ [Op_Unmap; Op_UnmapPhysical] →
  managed_range pt (addr / PageSize) n →
  wp (Operate pt addr n phys valid p op) (λ '(r, pt'), r = ResultSuccess ∧
    ∃ ps, unmapped other pt (addr / PageSize) n ps pt' ∧
      (closable pt (addr / PageSize) n → Z.of_nat (length ps) = n)).
Proof.
  intros Hi Hr Hop Hm. pose proof (pi_table _ _ Hi) as Hk.
  destruct (range_size _ _ _ Hk Hr) as (E1 & _). destruct (range_pages _ _ _ Hk Hr) as (Ea & Hv & Hn & Hvn & Hs).
  assert (Operate pt addr n phys valid p op = Operate pt addr n phys valid p Op_Unmap) as ->.
  { repeat (apply elem_of_cons in Hop as [->|Hop]; [done|]). by apply not_elem_of_nil in Hop. }
  unfold Operate. rewrite Operate_asserts, E1 by done. set (v := addr / PageSize) in *.
  apply wp_bind. eapply wp_mono; [by apply MakePageGroup_run; try apply Hi|]. fold v.
  intros [[r pt1] g] [[Hh1 (c & s & ->) Hg Hl] Hout].
  assert (Hpre : translated (m_impl pt) v (group_pages g) ∧ Z.of_nat (length (group_pages g)) ≤ n ∧
    (closable pt v n → Z.of_nat (length (group_pages g)) = n)).
  { destruct Hout as [(_ & ? & ? & _)|Hf]; [split_and!; [done|lia|done]|].
    split_and!; [apply Hf|destruct Hf as (_ & ? & _); lia|].
    intros Hc. by destruct (closable_made _ _ _ _ _ Hc Hg Hf). }
  destruct Hpre as (Hpre & Hlen & Hall). cbn [with_cached with_infos m_impl]. rewrite Ea.
  destruct (UnmapRegion_run (m_impl pt) v n) as (t' & -> & Hre); [apply Hi|lia..|].
  rewrite bind_Done_true. cbn [with_impl pt_mm m_block_info_manager].
  apply wp_bind. eapply wp_mono; [apply Group_CloseAndReset_run; [apply Hg|apply Hi|]|].
  { eapply counted_can_close; [done|apply Hi|apply Hi|done|]. intros q (i & Hq)%list_elem_of_lookup.
    pose proof (lookup_lt_Some _ _ _ Hq). eapply Hm; [|by eapply translated_lookup]. lia. }
  intros [[mm' s'] g'] (-> & Es & Hc). apply wp_ret. split; [done|]. exists (group_pages g).
  split; [|done]. split; [| |done|done|by apply Hre|done|].
  - apply (pt_inv_mapping other pt t' mm' s' c); [done|apply Hre|apply Hre|apply Hc|apply Hc| |
      by eapply counted_unmap; [|apply Hi|..]]. by destruct Hh1.
  - by exists t', mm', s', c.
  - unfold infos_of in *. simpl in *. lia.
Qed.

(** ** Mapping *)
Record mapped other pt (v : Z) (ps : list Z) pt' : Prop := {
  mp_inv : pt_inv other pt';
  mp_only : only_mapping pt pt';
  mp_translate w : 0 ≤ w → translate (m_impl pt') w =
    if decide (v ≤ w < v + Z.of_nat (length ps)) then list_at v ps w else translate (m_impl pt) w;
  mp_refs : mm_counted 1 ps (pt_mm pt) (pt_mm pt');
  mp_infos : infos_of pt' = infos_of pt
}.

Lemma Operate_group_run other pt addr n g p :
  pt_inv other pt → table_range pt addr n → dram_group g → Z.of_nat (length (group_pages g)) = n →
  can_open (pt_mm pt) (group_pages g) →
  wp (Operate_group pt addr n g p Op_MapGroup) (λ '(r, pt'), r = ResultSuccess ∧
    mapped other pt (addr / PageSize) (group_pages g) pt').
Proof.
  intros Hi Hr Hg Hl Hc. pose proof (pi_table _ _ Hi) as Hk.
  destruct (range_pages _ _ _ Hk Hr) as (Ea & Hv & Hn & Hvn & Hs).
  unfold Operate_group. rewrite (proj2 (Z.ltb_lt 0 n)) by lia.
  rewrite (proj2 (IsAligned_page addr)) by apply Hr.
  rewrite GetNumPages_pages, Hl, Z.eqb_refl by (apply Hg || lia).
  change (ASSERT true) with (Done true ()). rewrite !bind_Done_true. cbn [KScopedPageGroup_construct].
  apply wp_bind. eapply wp_mono; [apply Group_Open_run; [apply Hg|apply Hi|done]|]. intros mm' Hm.
  set (v := addr / PageSize) in *. rewrite Ea.
  destruct (map_group_loop_run g (m_impl pt) v Hg) as (t' & -> & Hre); [apply Hi|lia..|].
  rewrite bind_Done_true. apply wp_ret. split; [done|]. rewrite Hl in Hre.
  assert (Hinv : pt_inv other (with_impl t' (with_mm mm' (with_infos (m_block_info_manager pt)
    (with_cached (m_cached_physical_heap_region pt) pt))))).
  { apply pt_inv_mapping; [done|apply Hre|apply Hre|apply Hm|apply Hm|by destruct Hi as [? ? []]|].
    eapply counted_map; [done|apply Hi| |done]. by rewrite Hl. }
  split; [by destruct pt| |rewrite Hl; apply Hre|done|done].
  exists t', mm', (m_block_info_manager pt), (m_cached_physical_heap_region pt). by destruct pt.
Qed.
End Operate.
