(* ===== verification/PageTableHeap.v ===== *)
(** Lemmas about memory that is allocated and mapped, and about the size of the
    heap. *)

From S2P Require Import Prelude Common MemoryBlock OrderedTree MemoryBlockManager MemoryBlockManagerLemmas MemoryBlockManagerUpdate MemoryBlockManagerTheorems PageBitmap PageBitmapLemmas PageBitmapTheorems PageHeap PageHeapLemmas PageHeapTheorems MemoryRegionType MemoryRegion MemoryLayout MemoryRegionTheorems PageGroup MemoryManager PageGroupTheorems MemoryManagerLemmas MemoryManagerPages MemoryManagerAllocate MemoryManagerOperations ResourceLimit ResourceLimitTheorems PageTable PageTableOperations PageTableCheck PageTablePermission PageTableTranslation PageTableOperate.

(** * Memory for the pages of a process

    New memory is taken from the pool of the process, cleared, mapped and given
    back to the table alone; memory that is unmapped goes back to the pool. *)

Section Fresh.
Context {R : Type} `{RngLaws R} {S : Type} `{SlabExact S}.
Implicit Types (pt : KPageTableBase R S) (g : KPageGroup) (other : Z → Z) (mm : KMemoryManager R).

(** The references of a page group besides others. *)
Definition plus_group other (L : list Z) : Z → Z := λ p, other p + times p L.

Lemma free_ref mm p : mm_wf mm → in_mm mm p → page_free mm p → page_ref mm p = 0.
Proof.
  intros Hw (i & im & Hm & Hi) Hf. destruct (page_of_impl mm i im p Hw Hm Hi) as [-> E].
  apply (iw_free im (mw_impl mm Hw i im Hm) p Hi). by apply E.
Qed.

(** New pages have one reference, of the group. *)
Lemma counted_opened other t mm mm' pool u L : mm_wf mm → counted other t mm →
  opened pool u L mm mm' → counted (plus_group other L) t mm'.
Proof.
  intros Hw Hc O p vs Hp Hnd Hvs. unfold plus_group.
  assert (Hp0 : in_mm mm p) by (by apply (same_mm_in _ _ p (op_same _ _ _ _ _ O))).
  pose proof (Hc p vs Hp0 Hnd Hvs) as Hl.
  rewrite (op_ref _ _ _ _ _ O p Hp0), (times_NoDup p L (op_nodup _ _ _ _ _ O)).
  case_decide as E; [|lia]. destruct (op_pages _ _ _ _ _ O p E) as (_ & Hf & _).
  rewrite (free_ref mm p Hw Hp0 Hf) in Hl. lia.
Qed.

(** A group is closed. *)
Lemma counted_closed other t mm mm' L : counted (plus_group other L) t mm → mm_counted (-1) L mm mm' →
  counted other t mm'.
Proof.
  intros Hc M p vs Hp Hnd Hvs.
  assert (Hp0 : in_mm mm p) by (by apply (same_mm_in _ _ p (mc_same _ _ _ _ M))).
  pose proof (Hc p vs Hp0 Hnd Hvs) as Hl. unfold plus_group in Hl. rewrite (mc_ref _ _ _ _ M p Hp0). lia.
Qed.

Lemma pt_inv_mm other other' pt mm s : pt_inv other pt → same_mm (pt_mm pt) mm → mm_wf mm →
  (∀ p, 0 ≤ other' p) → counted other' (m_impl pt) mm → pt_inv other' (with_mm mm (with_infos s pt)).
Proof.
  intros [[] ? [] ? ? ?] Hs Hw Ho Hc. split; try done; split; simpl in *; rewrite ?(sm_layout _ _ Hs); done.
Qed.

Lemma counted_memory other t mm m : counted other t mm → counted other t (set_memory m mm).
Proof. done. Qed.

(** All managed memory is memory of the machine. *)
Definition dram_mm mm : Prop := ∀ p, in_mm mm p → DramMemoryMap_Base ≤ p * PageSize.

Lemma dram_group_mm mm g : dram_mm mm → group_wf g → (∀ p, p ∈ group_pages g → in_mm mm p) → dram_group g.
Proof.
  intros Hd [Hb _] Hin. split; [done|]. apply Forall_forall. intros b Hi. apply Hd, Hin.
  rewrite Forall_forall in Hb. by apply block_page_in; [apply Hb|].
Qed.

Lemma group_can_close other t mm L : (∀ p, 0 ≤ other p) → counted (plus_group other L) t mm →
  (∀ p, p ∈ L → in_mm mm p) → can_close mm L.
Proof.
  intros Ho Hc Hin p Hp. split; [by apply Hin|]. pose proof (Hc p [] (Hin p Hp) ltac:(constructor)) as Hl.
  specialize (Ho p). unfold plus_group in Hl. simpl in Hl.
  assert (∀ w : Z, w ∈ [] → 0 ≤ w ∧ translate t w = Some p) as Hn by (intros w Hw; by apply elem_of_nil in Hw).
  specialize (Hl Hn). lia.
Qed.

(** The pages [ps], free before, are mapped from [v] on, and are cleared. *)
Record fresh_mapped other pt (v : Z) (ps : list Z) pt' : Prop := {
  fm_inv : pt_inv other pt';
  fm_only : only_mapping pt pt';
  fm_nodup : NoDup ps;
  fm_pages p : p ∈ ps → in_mm (pt_mm pt) p ∧ page_free (pt_mm pt) p ∧
    page_pool (pt_mm pt) p = Some (GetPool (m_allocate_option (pt_config pt)));
  fm_translate w : 0 ≤ w → translate (m_impl pt') w =
    if decide (v ≤ w < v + Z.of_nat (length ps)) then list_at v ps w else translate (m_impl pt) w;
  fm_same : same_mm (pt_mm pt) (pt_mm pt');
  fm_ref p : in_mm (pt_mm pt) p →
    page_ref (pt_mm pt') p = if decide (p ∈ ps) then 1 else page_ref (pt_mm pt) p;
  fm_free p : in_mm (pt_mm pt) p → page_free (pt_mm pt') p ↔ page_free (pt_mm pt) p ∧ p ∉ ps;
  fm_cleared x : x / PageSize ∈ ps →
    mem_byte (mm_memory (pt_mm pt')) x = u8 (m_heap_fill_value (pt_config pt));
  fm_infos : infos_of pt' = infos_of pt
}.

(** Nothing was mapped and no reference changed. *)
Record not_mapped other pt pt' : Prop := {
  nm_inv : pt_inv other pt';
  nm_only : only_mapping pt pt';
  nm_impl : m_impl pt' = m_impl pt;
  nm_same : same_mm (pt_mm pt) (pt_mm pt');
  nm_ref p : in_mm (pt_mm pt) p → page_ref (pt_mm pt') p = page_ref (pt_mm pt) p;
  nm_infos : infos_of pt' = infos_of pt
}.

Lemma group_clear_memory v g m x : group_wf g → x / PageSize ∈ group_pages g →
  mem_byte (foldl (λ m b, ClearBackingRegion m (KBlockInfo_GetAddress b) (KBlockInfo_GetSize b) v) m g) x = u8 v.
Proof. intros [Hg _] Hx. rewrite clear_blocks_bytes by done. by rewrite decide_True. Qed.

(** Pages that a group got from the pool can be opened once more. *)
Lemma opened_can_open pool u L mm mm' : opened pool u L mm mm' → can_open mm' L.
Proof.
  intros O p Hp. destruct (op_pages _ _ _ _ _ O p Hp) as (Hi & _).
  rewrite (op_ref _ _ _ _ _ O p Hi), decide_True, (times_NoDup p L), decide_True by (done || apply O).
  split; [by apply (same_mm_in _ _ p (op_same _ _ _ _ _ O))|lia].
Qed.

(** The group that [AllocateAndOpen] made is dropped. *)
Lemma drop_group_infos pt g : infos_of (drop_group pt g) = (infos_of pt + length g)%nat.
Proof. apply Finalize_slab. Qed.

(** The memory manager when a group was allocated, the memory changed, and the
    pages were opened for their mappings and closed for the group. *)
Lemma fresh_manager pool u L mm m1 m m2 m3 : mm_wf mm → opened pool u L mm m1 →
  mm_counted 1 L (set_memory m m1) m2 → mm_counted (-1) L m2 m3 →
  same_mm mm m3 ∧ mm_memory m3 = m ∧ ∀ p, in_mm mm p →
    page_ref m3 p = (if decide (p ∈ L) then 1 else page_ref mm p) ∧
    (page_free m3 p ↔ page_free mm p ∧ p ∉ L).
Proof.
  intros Hw O C D. pose proof (op_same _ _ _ _ _ O) as S1.
  pose proof (mc_same _ _ _ _ C) as S2. pose proof (mc_same _ _ _ _ D) as S3.
  assert (S01 : same_mm mm m2).
  { eapply same_mm_trans; [exact S1|]. eapply same_mm_trans; [apply (set_memory_same _ m)|done]. }
  split; [by eapply same_mm_trans|]. split; [by rewrite (mc_memory _ _ _ _ D), (mc_memory _ _ _ _ C)|].
  intros p Hp. assert (Hp1 : in_mm (set_memory m m1) p).
  { apply (same_mm_in _ _ p (set_memory_same m1 m)). by apply (same_mm_in _ _ p S1). }
  assert (Hp2 : in_mm m2 p) by (by apply (same_mm_in _ _ p S01)).
  rewrite (mc_ref _ _ _ _ D p Hp2), (mc_free _ _ _ _ D p Hp2), (mc_ref _ _ _ _ C p Hp1), (mc_free _ _ _ _ C p Hp1).
  change (page_ref (set_memory m m1) p) with (page_ref m1 p).
  change (page_free (set_memory m m1) p) with (page_free m1 p).
  pose proof (op_ref _ _ _ _ _ O p Hp) as Er. rewrite (op_free _ _ _ _ _ O p Hp).
  pose proof (times_NoDup p L (op_nodup _ _ _ _ _ O)) as Et. rewrite Er, Et.
  destruct (decide (p ∈ L)) as [E|E]; (split; [lia|]); [|tauto]. intuition lia.
Qed.

Lemma alloc_fail_inv other pt mm s pool u g : pt_inv other pt → alloc_undone pool u g (pt_mm pt) mm →
  slab_size s = infos_of pt → not_mapped other pt (with_mm mm (with_infos s pt)).
Proof.
  intros Hi U Hs. split; [|by exists (m_impl pt), mm, s, (m_cached_physical_heap_region pt); destruct pt
    |done|apply U|apply U|done].
  apply (pt_inv_mm other); [done|apply U|apply U|apply Hi|]. intros p vs Hp.
  apply (same_mm_in _ _ p (au_same _ _ _ _ _ U)) in Hp. rewrite (au_ref _ _ _ _ _ U p Hp).
  by apply Hi.
Qed.

(** The table when the pages of a group are allocated and cleared. *)
Lemma alloc_inv other pt mm s pool u g m : pt_inv other pt → dram_mm (pt_mm pt) → group_wf g →
  opened pool u (group_pages g) (pt_mm pt) mm →
  let pt1 := with_mm (set_memory m mm) (with_infos s pt) in
  pt_inv (plus_group other (group_pages g)) pt1 ∧ dram_group g ∧ can_open (pt_mm pt1) (group_pages g).
Proof.
  intros Hi Hd Hg O pt1. split; [|split].
  - apply (pt_inv_mm other); [done| |apply set_memory_wf, O| |].
    + eapply same_mm_trans; [apply O|apply set_memory_same].
    + intros p. unfold plus_group. pose proof (times_nonneg p (group_pages g)). pose proof (pi_other _ _ Hi p). lia.
    + apply counted_memory. eapply counted_opened; [apply Hi|apply Hi|done].
  - eapply dram_group_mm; [done|done|]. intros p Hp. apply (op_pages _ _ _ _ _ O p Hp).
  - exact (opened_can_open _ _ _ _ _ O).
Qed.

(** The group is closed and dropped after its pages were mapped. *)
Lemma group_closed_run other pt g : Forall block_ok g → pt_inv (plus_group other (group_pages g)) pt →
  (∀ p, 0 ≤ other p) → (∀ p, p ∈ group_pages g → in_mm (pt_mm pt) p) →
  wp (KPageGroup_Close (pt_mm pt) g) (λ mm, mm_counted (-1) (group_pages g) (pt_mm pt) mm ∧
    pt_inv other (drop_group (with_mm mm pt) g)).
Proof.
  intros Hg Hi Ho Hin. eapply wp_mono.
  - apply Group_Close_run; [done|apply Hi|]. eapply group_can_close; [done|apply Hi|done].
  - intros mm M. split; [done|].
    assert (pt_inv other (with_mm mm (with_infos (KPageGroup_Finalize (m_block_info_manager pt) g).1 pt))).
    { eapply pt_inv_mm; [done|apply M|apply M|done|]. eapply counted_closed; [apply Hi|done]. }
    done.
Qed.

Lemma AllocateAndMapPagesImpl_run other pt addr n perm :
  pt_inv other pt → dram_mm (pt_mm pt) → pool_valid (m_allocate_option (pt_config pt)) →
  table_range pt addr n →
  wp (AllocateAndMapPagesImpl pt addr n perm) (λ '(r, pt'),
    (r = ResultSuccess ∧ ∃ ps, Z.of_nat (length ps) = n ∧
       fresh_mapped other pt (addr / PageSize) ps pt') ∨
    (not_mapped other pt pt' ∧
     (r = ResultOutOfMemory ∧ few_free (pt_mm pt) (GetPool (m_allocate_option (pt_config pt))) n ∨
      r = ResultOutOfResource ∧
        infos_short (pt_mm pt) (GetPool (m_allocate_option (pt_config pt))) n (m_block_info_manager pt)))).
Proof.
  intros Hi Hd Hv Hr. pose proof (range_pages _ _ _ (pi_table _ _ Hi) Hr) as (Ea & ? & ? & ? & ?).
  unfold AllocateAndMapPagesImpl. apply wp_bind.
  eapply wp_mono; [apply AllocateAndOpen_run; [apply Hi|done|lia]|].
  intros [[[r mm1] s1] g] [(-> & O & Hg & Hl & Hs)|(-> & Hs & g0 & Hg0 & U & Hres)].
  - change (Result_IsSuccess ResultSuccess) with true. cbn [negb].
    set (m := foldl _ _ g). cbn [with_mm with_infos pt_mm] in m |- *.
    destruct (alloc_inv other pt mm1 s1 _ _ g m Hi Hd Hg O) as (Hi1 & Hdg & Hop).
    change (with_mm (set_memory m mm1) (with_mm mm1 (with_infos s1 pt)))
      with (with_mm (set_memory m mm1) (with_infos s1 pt)).
    apply wp_bind. eapply wp_mono; [by apply Operate_group_run|].
    intros [r pt2] (-> & [Hi2 (t2 & mm2 & s2 & c2 & E2) Ht2 Hr2 Hf2]). apply wp_bind.
    assert (Hin : ∀ p, p ∈ group_pages g → in_mm (pt_mm pt) p).
    { intros p Hp. apply (op_pages _ _ _ _ _ O p Hp). }
    eapply wp_mono; [apply (group_closed_run other); [apply Hg|done|apply Hi|]|].
    { intros p Hp. apply (same_mm_in _ _ p (mc_same _ _ _ _ Hr2)), (same_mm_in _ _ p (set_memory_same mm1 m)),
        (same_mm_in _ _ p (op_same _ _ _ _ _ O)). by apply Hin. }
    intros mm3 [M3 Hi3]. apply wp_ret. left. split; [done|]. exists (group_pages g). split; [done|].
    destruct (fresh_manager _ _ _ _ _ m _ _ (pi_mm _ _ Hi) O Hr2 M3) as (Hs3 & Hm3 & Hp3).
    split; [done| |apply O|apply O|exact Ht2|done|apply Hp3|apply Hp3| |].
    + rewrite E2. eexists t2, mm3, _, c2. reflexivity.
    + intros x Hx. cbn [drop_group with_infos with_mm pt_mm]. rewrite Hm3. by apply group_clear_memory.
    + rewrite drop_group_infos. change (infos_of (with_mm mm3 pt2)) with (infos_of pt2). rewrite Hf2.
      unfold infos_of. simpl. lia.
  - assert (Result_IsSuccess r = false) as -> by (destruct Hres as [[-> _]|[-> _]]; done). cbn [negb].
    apply wp_ret. right. split; [by eapply alloc_fail_inv|].
    destruct Hres as [?|(? & ? & s2 & ? & ?)]; [by left|right]. split; [done|by eapply undone_infos_short].
Qed.

End Fresh.

(** * The size of the heap of a process *)

Section Heap.
Context {R : Type} `{RngLaws R} {S : Type} `{SlabExact S}.
Implicit Types (pt : KPageTableBase R S) (g : KPageGroup) (other : Z → Z) (mm : KMemoryManager R).

Local Abbreviation blocks := m_memory_block_manager.
Local Abbreviation heap_start pt := (m_heap_region_start (pt_regions pt)).
Local Abbreviation heap_region_end pt := (m_heap_region_end (pt_regions pt)).

Definition memory_slot pt : option slot :=
  slot_at (m_resource_limit pt) (LimitableResource_index PhysicalMemoryMax).

(** The heap is inside its region, which is inside the address space, and its
    memory is counted by the resource limit. *)
Record heap_area_wf pt : Prop := {
  hw_user : m_is_kernel (pt_config pt) = false;
  hw_start : m_address_space_start (pt_regions pt) ≤ heap_start pt;
  hw_aligned : heap_start pt mod PageSize = 0;
  hw_current : heap_start pt ≤ m_current_heap_end pt ≤ heap_region_end pt;
  hw_current_aligned : m_current_heap_end pt mod PageSize = 0;
  hw_end : heap_region_end pt ≤ m_address_space_end (pt_regions pt);
  hw_limit : limit_wf (m_resource_limit pt);
  hw_counted s : memory_slot pt = Some s → m_current_heap_end pt - heap_start pt ≤ hint s
}.

Lemma heap_sizes other pt : pt_inv other pt → heap_area_wf pt →
  0 ≤ heap_start pt ∧ heap_region_end pt < 2 ^ 64 ∧
  u64 (m_current_heap_end pt - heap_start pt) = m_current_heap_end pt - heap_start pt ∧
  u64 (heap_region_end pt - heap_start pt) = heap_region_end pt - heap_start pt.
Proof.
  intros Hi []. pose proof (wf_start _ (tk_blocks _ (pi_table _ _ Hi))) as Hs.
  pose proof (wf_end _ (tk_blocks _ (pi_table _ _ Hi))) as He.
  rewrite (tk_start _ (pi_table _ _ Hi)) in Hs. rewrite (tk_end _ (pi_table _ _ Hi)) in Hs, He.
  rewrite !u64_id by (unfold is_u64; lia). lia.
Qed.

(** A part of the heap region is a range of the table. *)
Lemma heap_range_ok other pt a b : pt_inv other pt → heap_area_wf pt → a mod PageSize = 0 → b mod PageSize = 0 →
  heap_start pt ≤ a → a < b → b ≤ heap_region_end pt →
  table_range pt a ((b - a) / PageSize) ∧ (b - a) / PageSize * PageSize = b - a.
Proof.
  intros Hi [] Ha Hb ? ? ?. pose proof PageSize_eq as Eps.
  assert (Hm : (b - a) mod PageSize = 0) by (rewrite Zminus_mod, Ha, Hb; done).
  assert (E : (b - a) / PageSize * PageSize = b - a).
  { pose proof (Z.div_mod (b - a) PageSize ltac:(lia)). lia. }
  split; [|done]. split; [nia|]. split; [done|]. lia.
Qed.

(** ** Changes that keep the invariant *)
Lemma pt_inv_slab other pt s : pt_inv other pt → pt_inv other (with_block_slab s pt).
Proof. intros [[] ? [] ? ? ?]. split; try done; by split. Qed.
Lemma pt_inv_heap_end other pt v : pt_inv other pt → pt_inv other (with_heap_end v pt).
Proof. intros [[] ? [] ? ? ?]. split; try done; by split. Qed.
Lemma pt_inv_limit other pt l : pt_inv other pt → pt_inv other (with_limit l pt).
Proof. intros [[] ? [] ? ? ?]. split; try done; by split. Qed.
Lemma pt_inv_blocks other pt pt' : pt_inv other pt → table_ok pt' → only_blocks pt pt' → pt_inv other pt'.
Proof. intros [? ? [] ? ? ?] Hk (m & s & ->). split; try done; by split. Qed.

(** ** Making the heap smaller *)
Definition heap_test : MemoryTest :=
  MkTest KMemoryState_All KMemoryState_Normal KMemoryPermission_All KMemoryPermission_UserReadWrite
    KMemoryAttribute_All KMemoryAttribute_None.

Definition freed_props : PageProps → PageProps :=
  set_props KMemoryState_Free KMemoryPermission_None KMemoryAttribute_None.

(** The outcome: the pages [ps] of the range were unmapped. *)
Record heap_shrunk other pt (size : Z) (ps : list Z) pt' : Prop := {
  hs_inv : pt_inv other pt';
  hs_end : m_current_heap_end pt' = heap_start pt + size;
  hs_regions : pt_regions pt' = pt_regions pt;
  hs_blocks : range_updated (heap_start pt + size) (m_current_heap_end pt) freed_props (blocks pt) (blocks pt');
  hs_block_count : (slab_of pt' + length (tree_of pt') = slab_of pt + length (tree_of pt))%nat;
  hs_pages : translated (m_impl pt) ((heap_start pt + size) / PageSize) ps;
  hs_translate w : 0 ≤ w → translate (m_impl pt') w =
    if decide (heap_start pt + size ≤ w * PageSize < m_current_heap_end pt) then None
    else translate (m_impl pt) w;
  hs_refs : mm_counted (-1) ps (pt_mm pt) (pt_mm pt');
  hs_infos : infos_of pt' = infos_of pt;
  hs_limit : ∃ s, memory_slot pt = Some s ∧
    slot_set PhysicalMemoryMax (release (m_current_heap_end pt - (heap_start pt + size))
      (m_current_heap_end pt - (heap_start pt + size)) s) (m_resource_limit pt) (m_resource_limit pt')
}.

Lemma test_differs m addr n ig q : uniform m addr n heap_test ig → 0 < n → pages m addr = Some q →
  differs KMemoryState_Free KMemoryPermission_None KMemoryAttribute_None q.
Proof.
  intros (q0 & _ & Hall) Hn Hq. destruct (Hall addr) as (q1 & Hq1 & _ & Hp & _); [rewrite PageSize_eq; lia|].
  simplify_eq. left. intros E. rewrite E in Hp. by vm_compute in Hp.
Qed.

(** The update of the blocks after a mapping operation of the same range. *)
Lemma update_after other pt pt1 addr n k s st pm dset dclear : pt_inv other pt1 → only_mapping (with_block_slab s pt) pt1 →
  ∀ l, table_range pt addr n →
  k = list_cuts addr (addr + n * PageSize) (tree_of pt) → (k ≤ 2)%nat → 0 ≤ st < 2 ^ 32 →
  no_ipc (blocks pt) addr n →
  (∀ q, pages (blocks pt) addr = Some q → differs st pm KMemoryAttribute_None q) →
  wp (update_blocks (alloc k s) (with_limit l pt1) addr n st pm KMemoryAttribute_None dset dclear)
    (λ '(a, pt2), pt_inv other pt2 ∧ only_blocks (with_limit l pt1) pt2 ∧
      alloc_ok a ∧ ua_slab a = m_memory_block_slab_manager pt2 ∧
      range_updated addr (addr + n * PageSize) (set_props st pm KMemoryAttribute_None) (blocks pt) (blocks pt2) ∧
      (blocks_left a + length (tree_of pt2) = k + slab_size s + length (tree_of pt))%nat).
Proof.
  intros Hi (t & mm & s1 & c & ->) l Hr Hk Hk2 Hst Hn Hd.
  assert (Hi1 : pt_inv other (with_limit l (with_impl t (with_mm mm (with_infos s1 (with_cached c (with_block_slab s pt)))))))
    by (by apply pt_inv_limit).
  eapply wp_mono; [apply update_blocks_run; try done; [apply Hi1|subst k; done]|].
  intros [a pt2] []. split; [by eapply pt_inv_blocks|]. split_and!; done.
Qed.

Lemma in_range_pages a b w : a mod PageSize = 0 → b mod PageSize = 0 → a < b →
  (a / PageSize ≤ w < a / PageSize + (b - a) / PageSize) ↔ a ≤ w * PageSize < b.
Proof.
  intros Ha Hb Hab. pose proof PageSize_eq. pose proof (Z.div_mod a PageSize ltac:(lia)).
  pose proof (Z.div_mod b PageSize ltac:(lia)).
  assert (E : (b - a) / PageSize = b / PageSize - a / PageSize).
  { replace (b - a) with (b / PageSize * PageSize + - (a / PageSize) * PageSize) by lia.
    rewrite Z.div_add, Z.div_mul by lia. lia. }
  rewrite E. nia.
Qed.

Lemma SetHeapSize_shrink_run other pt size :
  pt_inv other pt → heap_area_wf pt → 0 ≤ size → size mod PageSize = 0 →
  size ≤ m_max_heap_size pt → size < m_current_heap_end pt - heap_start pt →
  (∀ w p, heap_start pt ≤ w * PageSize < m_current_heap_end pt → translate (m_impl pt) w = Some p →
     in_mm (pt_mm pt) p) →
  let a := heap_start pt + size in
  let n := (m_current_heap_end pt - a) / PageSize in
  wp (SetHeapSize_begin pt size) (λ '(r, pt'),
    (r = inl ResultInvalidCurrentMemory ∧ pt' = pt ∧
     ¬ uniform (blocks pt) a n heap_test DefaultMemoryIgnoreAttr) ∨
    (uniform (blocks pt) a n heap_test DefaultMemoryIgnoreAttr ∧
     ((∃ r', r = inl r' ∧ out_of_blocks pt (list_cuts a (m_current_heap_end pt) (tree_of pt)) r' pt') ∨
      (r = inl ResultSuccess ∧ ∃ ps, heap_shrunk other pt size ps pt' ∧
         (closable pt (a / PageSize) n → Z.of_nat (length ps) = n))))).
Proof.
  intros Hi Hw Hs Hal Hmax Hlt Hman a n. pose proof (pi_table _ _ Hi) as Hk. pose proof PageSize_eq as Eps.
  destruct (heap_sizes _ _ Hi Hw) as (? & ? & E1 & E2). pose proof (hw_current _ Hw).
  assert (Haa : a mod PageSize = 0) by (unfold a; rewrite Zplus_mod, (hw_aligned _ Hw), Hal; done).
  destruct (heap_range_ok other pt a (m_current_heap_end pt) Hi Hw Haa (hw_current_aligned _ Hw)) as [Hr En];
    [unfold a; lia..|]. fold n in Hr, En.
  assert (Ee : a + n * PageSize = m_current_heap_end pt) by lia.
  unfold SetHeapSize_begin. rewrite (hw_user _ Hw), E1, E2.
  rewrite (proj2 (Z.leb_le size _)), (proj2 (Z.leb_le size _)), (proj2 (Z.ltb_lt _ _)) by lia. cbn [negb].
  rewrite (u64_id (heap_start pt + size)), (u64_id (_ - size)) by (unfold is_u64; lia). fold a.
  replace (m_current_heap_end pt - heap_start pt - size) with (n * PageSize) by lia.
  fold heap_test. apply wp_bind. eapply wp_mono; [by apply CheckMemoryState_run, table_range_ok|].
  intros [r c] [[-> Hc]|[-> Hc]].
  2: { apply wp_ret. left. split_and!; [done..|]. intros Hu. by apply Hc, uniform_checked. }
  change (Result_IsSuccess ResultSuccess) with true. cbn [negb].
  pose proof (checked_uniform _ _ _ _ _ _ Hc) as Hu.
  pose proof (checked_no_ipc _ _ _ _ _ _ Hc eq_refl eq_refl) as Hn.
  destruct (checked_cuts _ _ _ _ _ _ Hk Hc) as (k & -> & Ek & Hk2). rewrite <- Ee, <- Ek. clear c Hc.
  destruct (range_size _ _ _ Hk Hr) as (E3 & _ & E4 & _). rewrite E4, E3.
  destruct (hw_limit _ Hw PhysicalMemoryMax) as (sl & Hsl & Hslok).
  pose proof (hw_counted _ Hw sl Hsl) as Hhint.
  destruct (Release_run PhysicalMemoryMax (m_resource_limit pt) sl (n * PageSize) (n * PageSize) Hsl Hslok)
    as (l & El & Hset); [destruct Hslok as (? & ? & _); lia..|].
  apply wp_bind. eapply wp_mono.
  { apply (with_allocator_run pt k _ (λ r l' pt', r = ResultSuccess ∧ ∃ ps s0 pt1,
      unmapped other (with_block_slab s0 pt) (a / PageSize) n ps pt1 ∧ (closable pt (a / PageSize) n → Z.of_nat (length ps) = n) ∧
      ∃ m s, pt' = with_heap_end a (with_block_slab s (with_blocks m (with_limit l pt1))) ∧
        pt_inv other pt' ∧ range_updated a (a + n * PageSize) freed_props (blocks pt) m ∧
        (l' + length (m_memory_block_tree m) = slab_of pt + length (tree_of pt))%nat)); [done|].
    intros s Hss. apply wp_bind. eapply wp_mono.
    { apply (Operate_unmap_run other); [by apply pt_inv_slab|done|set_solver|].
      intros w p Hwr. apply Hman.
      pose proof (proj1 (in_range_pages a (m_current_heap_end pt) w Haa (hw_current_aligned _ Hw) ltac:(lia)) Hwr). lia. }
    intros [r pt1] (-> & ps & U & Hall). change (Result_IsSuccess ResultSuccess) with true. cbn [negb].
    assert (m_resource_limit pt1 = m_resource_limit pt) as -> by (by destruct (um_only _ _ _ _ _ _ U) as (?&?&?&?&->)).
    rewrite El, bind_Done_true. apply wp_bind. eapply wp_mono.
    { apply (update_after other pt pt1); [apply U|apply U|done..|]. intros q Hq.
      eapply test_differs; [done|apply Hr|done]. }
    intros [al pt2] (Hi2 & (m & s2 & ->) & Ha & Es & Hru & Hcnt). apply wp_ret.
    split; [done|]. split; [done|]. split; [done|]. exists ps, s, pt1. split; [done|]. split; [done|].
    exists m, s2. split; [done|]. split; [by apply pt_inv_heap_end|]. split; [done|].
    rewrite <- Hss. unfold tree_of in *. simpl in *. lia. }
  intros [r pt'] [Ho|(pt1 & l' & s & (-> & ps & s0 & pt2 & U & Hall & m & s2 & -> & Hi2 & Hru & Hcnt) & Hs' & ->)];
    apply wp_ret; right; (split; [done|]); [left; by exists r|right].
  split; [done|]. exists ps. split; [|done].
  destruct U as [_ (t & mm & si & ci & ->) U1 U2 U3 U4 U5]. rewrite Ee in Hru.
  split; [by apply (pt_inv_slab other _ s) in Hi2|reflexivity|reflexivity|exact Hru| |exact U1| |exact U4|exact U5|].
  - unfold slab_of, tree_of in *. simpl in *. lia.
  - intros w Hw0. etransitivity; [exact (U3 w Hw0)|]. fold a.
    pose proof (in_range_pages a (m_current_heap_end pt) w Haa (hw_current_aligned _ Hw) ltac:(lia)) as Hiff.
    fold n in Hiff. repeat case_decide; try done; tauto.
  - exists sl. split; [done|]. fold a. replace (m_current_heap_end pt - a) with (n * PageSize) by lia. exact Hset.
Qed.

(** ** Making the heap larger *)
Definition free_test : MemoryTest :=
  MkTest KMemoryState_All KMemoryState_Free KMemoryPermission_None KMemoryPermission_None
    KMemoryAttribute_None KMemoryAttribute_None.

Definition heap_props : PageProps → PageProps :=
  set_props KMemoryState_Normal KMemoryPermission_UserReadWrite KMemoryAttribute_None.

Lemma free_test_state m addr n ig x q : 0 < n → uniform m addr n free_test ig →
  addr ≤ x < addr + n * PageSize → pages m x = Some q → Z.land (pp_state q) KMemoryState_All = KMemoryState_Free.
Proof. intros Hn (q0 & _ & Hall) Hx Hq. destruct (Hall x Hx) as (q1 & Hq1 & _ & Hp & _). by simplify_eq. Qed.

Lemma free_test_no_ipc pt addr n ig : table_ok pt → 0 < n →
  uniform (blocks pt) addr n free_test ig → no_ipc (blocks pt) addr n.
Proof.
  intros Hk Hn Hu x q Hx Hq. pose proof (free_test_state _ _ _ _ _ _ Hn Hu Hx Hq) as E.
  change KMemoryState_All with (Z.ones 32) in E. rewrite Z.land_ones, Z.mod_small in E by (try lia; by apply (tk_pages _ Hk x q Hq)).
  by apply (tk_pages _ Hk x q Hq).
Qed.

(** The range from the end of the heap on is mapped to the pages of the group. *)
Record heap_extended other pt (n : Z) g pt' : Prop := {
  he_inv : pt_inv other pt';
  he_end : m_current_heap_end pt' = m_current_heap_end pt + n * PageSize;
  he_regions : pt_regions pt' = pt_regions pt ∧ pt_config pt' = pt_config pt;
  he_limit : m_resource_limit pt' = m_resource_limit pt;
  he_blocks : range_updated (m_current_heap_end pt) (m_current_heap_end pt + n * PageSize) heap_props
    (blocks pt) (blocks pt');
  he_block_count : (slab_of pt' + length (tree_of pt') = slab_of pt + length (tree_of pt))%nat;
  he_translate w : 0 ≤ w → translate (m_impl pt') w =
    if decide (m_current_heap_end pt / PageSize ≤ w < m_current_heap_end pt / PageSize + n)
    then list_at (m_current_heap_end pt / PageSize) (group_pages g) w else translate (m_impl pt) w;
  he_refs : mm_counted 1 (group_pages g) (pt_mm pt) (pt_mm pt');
  he_infos : infos_of pt' = infos_of pt
}.

Lemma SetHeapSize_extend_run other pt g size n :
  pt_inv other pt → let a := m_current_heap_end pt in
  table_range pt a n → heap_start pt + size = a + n * PageSize →
  dram_group g → Z.of_nat (length (group_pages g)) = n → can_open (pt_mm pt) (group_pages g) →
  wp (SetHeapSize_extend pt g size a (n * PageSize)) (λ '(r, pt'),
    (r = ResultInvalidCurrentMemory ∧ pt' = pt ∧
     ¬ uniform (blocks pt) a n free_test DefaultMemoryIgnoreAttr) ∨
    (uniform (blocks pt) a n free_test DefaultMemoryIgnoreAttr ∧
     (out_of_blocks pt (list_cuts a (a + n * PageSize) (tree_of pt)) r pt' ∨
      r = ResultSuccess ∧ heap_extended other pt n g pt'))).
Proof.
  intros Hi a Hr Hsz Hdg Hl Hop. pose proof (pi_table _ _ Hi) as Hk.
  pose proof (table_range_bounds _ _ _ Hk Hr) as (? & ? & ? & _).
  unfold SetHeapSize_extend. fold a. rewrite Z.eqb_refl. change (ASSERT true) with (Done true ()). rewrite bind_Done_true.
  fold free_test. apply wp_bind. eapply wp_mono; [by apply CheckMemoryState_run, table_range_ok|].
  intros [r c] [[-> Hc]|[-> Hc]].
  2: { apply wp_ret. left. split_and!; [done..|]. intros Hu. by apply Hc, uniform_checked. }
  change (Result_IsSuccess ResultSuccess) with true. cbn [negb].
  pose proof (checked_uniform _ _ _ _ _ _ Hc) as Hu.
  pose proof (free_test_no_ipc pt a n _ Hk ltac:(lia) Hu) as Hn.
  destruct (checked_cuts _ _ _ _ _ _ Hk Hc) as (k & -> & Ek & Hk2). rewrite <- Ek. clear c Hc.
  destruct (range_size _ _ _ Hk Hr) as (_ & _ & E4 & _). rewrite E4, (u64_id (heap_start pt + size)) by (unfold is_u64; lia).
  eapply wp_mono.
  { apply (with_allocator_run pt k _ (λ r l' pt', r = ResultSuccess ∧ ∃ s0 pt1,
      mapped other (with_block_slab s0 pt) (a / PageSize) (group_pages g) pt1 ∧
      ∃ m s, pt' = with_heap_end (heap_start pt + size) (with_block_slab s (with_blocks m pt1)) ∧
        pt_inv other pt' ∧ range_updated a (a + n * PageSize) heap_props (blocks pt) m ∧
        (l' + length (m_memory_block_tree m) = slab_of pt + length (tree_of pt))%nat)); [done|].
    intros s Hss. apply wp_bind. eapply wp_mono; [apply (Operate_group_run other); [by apply pt_inv_slab|done..]|].
    intros [r pt1] (-> & M). change (Result_IsSuccess ResultSuccess) with true. cbn [negb].
    assert (m_current_heap_end pt1 = a) as Ha1 by (by destruct (mp_only _ _ _ _ _ M) as (?&?&?&?&->)).
    assert (Elim : with_limit (m_resource_limit pt1) pt1 = pt1) by (by destruct pt1).
    rewrite Ha1, <- Elim. apply wp_bind. eapply wp_mono.
    { apply (update_after other pt pt1); [apply M|apply M|done..|]. intros q Hq. left.
      intros E. assert (Hx : a ≤ a < a + n * PageSize) by lia.
      pose proof (free_test_state _ a n _ a _ ltac:(lia) Hu Hx Hq) as Ef. rewrite E in Ef. by vm_compute in Ef. }
    intros [al pt2] (Hi2 & (m & s2 & ->) & Ha & Es & Hru & Hcnt). apply wp_ret.
    split; [done|]. split; [done|]. split; [done|]. exists s, pt1. split; [done|].
    exists m, s2. split; [by destruct pt1|]. split; [by apply pt_inv_heap_end|]. split; [done|].
    rewrite <- Hss. unfold tree_of in *. simpl in *. lia. }
  intros [r pt'] [Ho|(pt1 & l' & s & (-> & s0 & pt2 & M & m & s2 & -> & Hi2 & Hru & Hcnt) & Hs' & ->)];
    right; (split; [done|]); [by left|right]. split; [done|].
  destruct M as [_ (t & mm & si & ci & ->) M1 M2 M3]. rewrite Hl in M1.
  split; [by apply (pt_inv_slab other _ s) in Hi2|exact Hsz|done|done|exact Hru| |exact M1|exact M2|exact M3].
  unfold slab_of, tree_of in *. simpl in *. lia.
Qed.
End Heap.
