(* ===== verification/PageTableRequests.v ===== *)
(** * Requests to map, share and lock memory
    (src/src/core/hle/kernel/k_page_table_base.cpp)

    Free areas, mapping and unmapping of pages and page groups, aliases of the
    memory of a process, and the locks for IPC buffers, transfer memory, code
    memory and device address spaces.  The caches of the processor are not
    modelled. *)

From S2P Require Import Prelude Common MemoryBlock OrderedTree MemoryBlockManager PageBitmap PageHeap MemoryRegionType MemoryRegion MemoryLayout PageGroup MemoryManager ResourceLimit PageTable PageTableOperations.

Section Requests.
Context {R : Type} `{Rng R} {S : Type} `{SlabManager S} {G : Type} `{RandomRange G}.
Implicit Types (pt : KPageTableBase R S) (g : KPageGroup) (a : UpdateAllocator S) (gen : G).
Local Abbreviation Table := (KPageTableBase R S).

Definition GetNumGuardPages pt : Z := if m_is_kernel (pt_config pt) then 1 else 4.

(** ** Free areas *)

(** The tests of a candidate against the block it is in and the region. *)
Definition candidate_fits (info : KMemoryInfo)
    (candidate region_start region_num_pages num_pages guard_pages : Z) : bool :=
  let last := u64 (u64 (candidate + u64 (u64 (num_pages + guard_pages) * PageSize)) - 1) in
  (info_state info =? KMemoryState_Free) && (region_start <=? candidate) &&
  (u64 (info_address info + u64 (guard_pages * PageSize)) <=? candidate) &&
  (last <=? KMemoryInfo_GetLastAddress info) &&
  (last <=? u64 (u64 (region_start + u64 (region_num_pages * PageSize)) - 1)).

Fixpoint random_area_loop (n : nat) pt
    (region_start region_num_pages num_pages alignment offset guard_pages : Z) gen : prog (Z * G) :=
  match n with
  | O => mret (0, gen)
  | Datatypes.S n =>
      let '(rnd, gen) :=
        GenerateRandomRange 0
          (u64 (u64 (u64 (region_num_pages - num_pages) - guard_pages) * PageSize) / alignment) gen in
      let random_offset := u64 (rnd * alignment) in
      let candidate := u64 (AlignDown (u64 (region_start + random_offset)) alignment + offset) in
      let '(r, info) := QueryInfoImpl pt candidate in
      _ ← ASSERT (Result_IsSuccess r);
      info ← deref info;
      if candidate_fits info candidate region_start region_num_pages num_pages guard_pages then
        mret (candidate, gen)
      else random_area_loop n pt region_start region_num_pages num_pages alignment offset guard_pages gen
  end.

Definition KPageTable_FindFreeArea pt
    (region_start region_num_pages num_pages alignment offset guard_pages : Z) gen : prog (Z * G) :=
  let find start n :=
    KMemoryBlockManager_FindFreeArea (m_memory_block_manager pt) start n num_pages alignment offset
      guard_pages in
  if num_pages <=? region_num_pages then
    '(address, gen) ←
      (if m_enable_aslr (pt_config pt) then
         '(address, gen) ← random_area_loop 8 pt region_start region_num_pages num_pages alignment
                             offset guard_pages gen;
         if address =? 0 then
           let '(offset_pages, gen) :=
             GenerateRandomRange 0 (u64 (u64 (region_num_pages - num_pages) - guard_pages)) gen in
           mret (find (u64 (region_start + u64 (offset_pages * PageSize)))
                   (u64 (region_num_pages - offset_pages)), gen)
         else mret (address, gen)
       else mret (0, gen));
    mret (if address =? 0 then find region_start region_num_pages else address, gen)
  else mret (0, gen).

(** ** Pages *)
Definition MapPages_any pt (num_pages alignment phys_addr : Z) (is_pa_valid : bool)
    (region_start region_num_pages state perm : Z) gen : prog (Z * option Z * Table * G) :=
  _ ← ASSERT (IsAligned alignment PageSize && (PageSize <=? alignment));
  ok ← CanContain_state (pt_regions pt) region_start (u64 (region_num_pages * PageSize)) state;
  if negb ok then mret (ResultInvalidCurrentMemory, None, pt, gen)
  else if negb (num_pages <? region_num_pages) then mret (ResultOutOfMemory, None, pt, gen)
  else
    '(addr, gen) ← KPageTable_FindFreeArea pt region_start region_num_pages num_pages alignment 0
                     (GetNumGuardPages pt) gen;
    if addr =? 0 then mret (ResultOutOfMemory, None, pt, gen)
    else
      _ ← ASSERT (IsAligned addr alignment);
      ok ← CanContain_state (pt_regions pt) addr (u64 (num_pages * PageSize)) state;
      _ ← ASSERT ok;
      '(r, _) ← CheckMemoryState (m_memory_block_manager pt) addr (u64 (num_pages * PageSize))
                  (MkTest KMemoryState_All KMemoryState_Free KMemoryPermission_None
                     KMemoryPermission_None KMemoryAttribute_None KMemoryAttribute_None);
      _ ← ASSERT (Result_IsSuccess r);
      '(r, pt) ← with_allocator pt MaxBlocks (λ a pt,
        '(r, pt) ←
          (if is_pa_valid then
             Operate pt addr num_pages phys_addr true
               (MkProperties perm false false DisableMergeAttribute_DisableHead) Op_Map
           else AllocateAndMapPagesImpl pt addr num_pages perm);
        if negb (Result_IsSuccess r) then mret (r, a, pt)
        else
          '(a, pt) ← update_blocks a pt addr num_pages state perm KMemoryAttribute_None
                       DisableMerge_Normal DisableMerge_None;
          mret (ResultSuccess, a, pt));
      mret (r, if Result_IsSuccess r then Some addr else None, pt, gen).

Definition MapPages pt (address num_pages state perm : Z) : prog (Z * Table) :=
  let size := u64 (num_pages * PageSize) in
  ok ← CanContain_state (pt_regions pt) address size state;
  if negb ok then mret (ResultInvalidCurrentMemory, pt)
  else
    '(r, c) ← CheckMemoryState (m_memory_block_manager pt) address size
                (MkTest KMemoryState_All KMemoryState_Free KMemoryPermission_None
                   KMemoryPermission_None KMemoryAttribute_None KMemoryAttribute_None);
    if negb (Result_IsSuccess r) then mret (r, pt)
    else with_allocator pt (ck_blocks_needed c) (λ a pt,
      '(r, pt) ← AllocateAndMapPagesImpl pt address num_pages perm;
      if negb (Result_IsSuccess r) then mret (r, a, pt)
      else
        '(a, pt) ← update_blocks a pt address num_pages state perm KMemoryAttribute_None
                     DisableMerge_Normal DisableMerge_None;
        mret (ResultSuccess, a, pt)).

Definition UnmapPages pt (address num_pages state : Z) : prog (Z * Table) :=
  let size := u64 (num_pages * PageSize) in
  if negb (KPageTable_Contains (pt_regions pt) address size) then mret (ResultInvalidCurrentMemory, pt)
  else
    '(r, c) ← CheckMemoryState (m_memory_block_manager pt) address size
                (MkTest KMemoryState_All state KMemoryPermission_None KMemoryPermission_None
                   KMemoryAttribute_All KMemoryAttribute_None);
    if negb (Result_IsSuccess r) then mret (r, pt)
    else with_allocator pt (ck_blocks_needed c) (λ a pt,
      '(r, pt) ← Operate pt address num_pages 0 false
                   (MkProperties KMemoryPermission_None false false DisableMergeAttribute_None) Op_Unmap;
      if negb (Result_IsSuccess r) then mret (r, a, pt)
      else
        '(a, pt) ← update_blocks a pt address num_pages KMemoryState_Free KMemoryPermission_None
                     KMemoryAttribute_None DisableMerge_None DisableMerge_Normal;
        mret (ResultSuccess, a, pt)).

(** ** Page groups *)
Definition MapPageGroup_any pt g (region_start region_num_pages state perm : Z) gen
    : prog (Z * option Z * Table * G) :=
  let num_pages := KPageGroup_GetNumPages g in
  ok ← CanContain_state (pt_regions pt) region_start (u64 (region_num_pages * PageSize)) state;
  if negb ok then mret (ResultInvalidCurrentMemory, None, pt, gen)
  else if negb (num_pages <? region_num_pages) then mret (ResultOutOfMemory, None, pt, gen)
  else
    '(addr, gen) ← KPageTable_FindFreeArea pt region_start region_num_pages num_pages PageSize 0
                     (GetNumGuardPages pt) gen;
    if addr =? 0 then mret (ResultOutOfMemory, None, pt, gen)
    else
      ok ← CanContain_state (pt_regions pt) addr (u64 (num_pages * PageSize)) state;
      _ ← ASSERT ok;
      '(r, _) ← CheckMemoryState (m_memory_block_manager pt) addr (u64 (num_pages * PageSize))
                  (MkTest KMemoryState_All KMemoryState_Free KMemoryPermission_None
                     KMemoryPermission_None KMemoryAttribute_None KMemoryAttribute_None);
      _ ← ASSERT (Result_IsSuccess r);
      '(r, pt) ← with_allocator pt MaxBlocks (λ a pt,
        '(r, pt) ← MapPageGroupImpl pt addr g
                     (MkProperties perm false false DisableMergeAttribute_DisableHead) false;
        if negb (Result_IsSuccess r) then mret (r, a, pt)
        else
          '(a, pt) ← update_blocks a pt addr num_pages state perm KMemoryAttribute_None
                       DisableMerge_Normal DisableMerge_None;
          mret (ResultSuccess, a, pt));
      mret (r, if Result_IsSuccess r then Some addr else None, pt, gen).

Definition MapPageGroup pt (addr : Z) g (state perm : Z) : prog (Z * Table) :=
  let num_pages := KPageGroup_GetNumPages g in
  let size := u64 (num_pages * PageSize) in
  ok ← CanContain_state (pt_regions pt) addr size state;
  if negb ok then mret (ResultInvalidCurrentMemory, pt)
  else
    '(r, c) ← CheckMemoryState (m_memory_block_manager pt) addr size
                (MkTest KMemoryState_All KMemoryState_Free KMemoryPermission_None
                   KMemoryPermission_None KMemoryAttribute_None KMemoryAttribute_None);
    if negb (Result_IsSuccess r) then mret (r, pt)
    else with_allocator pt (ck_blocks_needed c) (λ a pt,
      '(r, pt) ← MapPageGroupImpl pt addr g
                   (MkProperties perm false false DisableMergeAttribute_DisableHead) false;
      if negb (Result_IsSuccess r) then mret (r, a, pt)
      else
        '(a, pt) ← update_blocks a pt addr num_pages state perm KMemoryAttribute_None
                     DisableMerge_Normal DisableMerge_None;
        mret (ResultSuccess, a, pt)).

Definition UnmapPageGroup pt (address : Z) g (state : Z) : prog (Z * Table) :=
  let num_pages := KPageGroup_GetNumPages g in
  let size := u64 (num_pages * PageSize) in
  ok ← CanContain_state (pt_regions pt) address size state;
  if negb ok then mret (ResultInvalidCurrentMemory, pt)
  else
    '(r, c) ← CheckMemoryState (m_memory_block_manager pt) address size
                (MkTest KMemoryState_All state KMemoryPermission_None KMemoryPermission_None
                   KMemoryAttribute_All KMemoryAttribute_None);
    if negb (Result_IsSuccess r) then mret (r, pt)
    else
      '(valid, pt) ← IsValidPageGroup pt g address num_pages;
      if negb valid then mret (ResultInvalidCurrentMemory, pt)
      else with_allocator pt (ck_blocks_needed c) (λ a pt,
        '(r, pt) ← Operate pt address num_pages 0 false
                     (MkProperties KMemoryPermission_None false false DisableMergeAttribute_None) Op_Unmap;
        if negb (Result_IsSuccess r) then mret (r, a, pt)
        else
          '(a, pt) ← update_blocks a pt address num_pages KMemoryState_Free KMemoryPermission_None
                       KMemoryAttribute_None DisableMerge_None DisableMerge_Normal;
          mret (ResultSuccess, a, pt)).

(** The test with the flag of memory that is counted by references. *)
Definition counted_test (t : MemoryTest) : MemoryTest :=
  MkTest (Z.lor (mt_state_mask t) KMemoryState_FlagReferenceCounted)
    (Z.lor (mt_state t) KMemoryState_FlagReferenceCounted) (mt_perm_mask t) (mt_perm t)
    (mt_attr_mask t) (mt_attr t).

Definition MakeAndOpenPageGroup pt g (address num_pages : Z) (t : MemoryTest)
    : prog (Z * Table * KPageGroup) :=
  let size := u64 (num_pages * PageSize) in
  if negb (KPageTable_Contains (pt_regions pt) address size) then
    mret (ResultInvalidCurrentMemory, pt, g)
  else
    '(r, _) ← CheckMemoryState (m_memory_block_manager pt) address size (counted_test t);
    if negb (Result_IsSuccess r) then mret (r, pt, g)
    else
      '(r, pt, g) ← MakePageGroup pt g address num_pages;
      if negb (Result_IsSuccess r) then mret (r, pt, g)
      else
        mm ← KPageGroup_Open (pt_mm pt) g;
        mret (ResultSuccess, with_mm mm pt, g).
End Requests.

(** ** Locked memory *)
Section Locked.
Context {R : Type} `{Rng R} {S : Type} `{SlabManager S}.
Implicit Types (pt : KPageTableBase R S) (g : KPageGroup) (a : UpdateAllocator S).
Local Abbreviation Table := (KPageTableBase R S).

Definition GetPhysicalAddressLocked pt (virt_addr : Z) : prog (option Z) :=
  PageTable_GetPhysicalAddress (m_impl pt) virt_addr.

(** The outputs are the page group and the physical address, if asked for: no
    [out_pg] is a null pointer. *)
Definition LockMemoryAndOpen pt (out_pg : option KPageGroup) (out_paddr : bool) (addr size : Z)
    (t : MemoryTest) (new_perm lock_attr : Z) : prog (Z * Table * option KPageGroup * option Z) :=
  _ ← ASSERT (Z.land lock_attr (mt_attr t) =? 0);
  _ ← ASSERT (Z.land lock_attr (Z.lor KMemoryAttribute_IpcLocked KMemoryAttribute_DeviceShared) =? 0);
  let num_pages := size / PageSize in
  if negb (KPageTable_Contains (pt_regions pt) addr size) then
    mret (ResultInvalidCurrentMemory, pt, out_pg, None)
  else
    _ ← (match out_pg with Some g => ASSERT (KPageGroup_GetNumPages g =? 0) | None => mret () end);
    '(r, c) ← CheckMemoryState (m_memory_block_manager pt) addr size (counted_test t);
    if negb (Result_IsSuccess r) then mret (r, pt, out_pg, None)
    else
      paddr ← (if out_paddr then
                 p ← GetPhysicalAddressLocked pt addr;
                 _ ← ASSERT (bool_decide (is_Some p));
                 mret p
               else mret None);
      '(r, pt, out_pg) ←
        (match out_pg with
         | Some g => '(r, pt, g) ← MakePageGroup pt g addr num_pages; mret (r, pt, Some g)
         | None => mret (ResultSuccess, pt, None)
         end);
      if negb (Result_IsSuccess r) then mret (r, pt, out_pg, paddr)
      else
        '(r, pt) ← with_allocator pt (ck_blocks_needed c) (λ a pt,
          let new_perm := if negb (new_perm =? KMemoryPermission_None) then new_perm else ck_perm c in
          let new_attr := Z.lor (ck_attr c) lock_attr in
          '(r, pt) ←
            (if negb (new_perm =? ck_perm c) then
               Operate pt addr num_pages 0 false
                 (MkProperties new_perm false
                    (negb (Z.land (ck_attr c) KMemoryAttribute_Uncached =? 0))
                    DisableMergeAttribute_DisableHeadBodyTail) Op_ChangePermissions
             else mret (ResultSuccess, pt));
          if negb (Result_IsSuccess r) then mret (r, a, pt)
          else
            '(a, pt) ← update_blocks a pt addr num_pages (ck_state c) new_perm new_attr
                         DisableMerge_Locked DisableMerge_None;
            mm ← (match out_pg with Some g => KPageGroup_Open (pt_mm pt) g | None => mret (pt_mm pt) end);
            mret (ResultSuccess, a, with_mm mm pt));
        mret (r, pt, out_pg, paddr).

Definition UnlockMemory pt (addr size : Z) (t : MemoryTest) (new_perm lock_attr : Z)
    (pg : option KPageGroup) : prog (Z * Table) :=
  _ ← ASSERT (Z.land (mt_attr_mask t) lock_attr =? lock_attr);
  _ ← ASSERT (Z.land (mt_attr t) lock_attr =? lock_attr);
  let num_pages := size / PageSize in
  if negb (KPageTable_Contains (pt_regions pt) addr size) then mret (ResultInvalidCurrentMemory, pt)
  else
    '(r, c) ← CheckMemoryState (m_memory_block_manager pt) addr size (counted_test t);
    if negb (Result_IsSuccess r) then mret (r, pt)
    else
      '(valid, pt) ← (match pg with
                      | Some g => IsValidPageGroup pt g addr num_pages
                      | None => mret (true, pt)
                      end);
      if negb valid then mret (ResultInvalidMemoryRegion, pt)
      else
        let new_perm := if negb (new_perm =? KMemoryPermission_None) then new_perm else ck_perm c in
        let new_attr := Z.land (ck_attr c) (u8 (Z.lnot lock_attr)) in
        with_allocator pt (ck_blocks_needed c) (λ a pt,
          '(r, pt) ←
            (if negb (new_perm =? ck_perm c) then
               Operate pt addr num_pages 0 false
                 (MkProperties new_perm false
                    (negb (Z.land (ck_attr c) KMemoryAttribute_Uncached =? 0))
                    DisableMergeAttribute_EnableAndMergeHeadBodyTail) Op_ChangePermissions
             else mret (ResultSuccess, pt));
          if negb (Result_IsSuccess r) then mret (r, a, pt)
          else
            '(a, pt) ← update_blocks a pt addr num_pages (ck_state c) new_perm new_attr
                         DisableMerge_None DisableMerge_Locked;
            mret (ResultSuccess, a, pt)).

Definition kernel_only : Z := Z.lor KMemoryPermission_NotMapped KMemoryPermission_KernelReadWrite.

(** Memory with a flag that is readable and writable and has no attribute; memory
    with a flag that is locked. *)
Definition lockable_test (flag : Z) : MemoryTest :=
  MkTest flag flag KMemoryPermission_All KMemoryPermission_UserReadWrite KMemoryAttribute_All
    KMemoryAttribute_None.
Definition locked_test (flag : Z) : MemoryTest :=
  MkTest flag flag KMemoryPermission_None KMemoryPermission_None KMemoryAttribute_All
    KMemoryAttribute_Locked.

Definition LockForIpcUserBuffer pt (address size : Z) :=
  LockMemoryAndOpen pt None true address size (lockable_test KMemoryState_FlagCanIpcUserBuffer)
    kernel_only KMemoryAttribute_Locked.
Definition UnlockForIpcUserBuffer pt (address size : Z) :=
  UnlockMemory pt address size (locked_test KMemoryState_FlagCanIpcUserBuffer)
    KMemoryPermission_UserReadWrite KMemoryAttribute_Locked None.

Definition LockForTransferMemory pt g (address size perm : Z) :=
  LockMemoryAndOpen pt (Some g) false address size (lockable_test KMemoryState_FlagCanTransfer)
    perm KMemoryAttribute_Locked.
Definition UnlockForTransferMemory pt (address size : Z) g :=
  UnlockMemory pt address size (locked_test KMemoryState_FlagCanTransfer)
    KMemoryPermission_UserReadWrite KMemoryAttribute_Locked (Some g).

Definition LockForCodeMemory pt g (address size : Z) :=
  LockMemoryAndOpen pt (Some g) false address size (lockable_test KMemoryState_FlagCanCodeMemory)
    kernel_only KMemoryAttribute_Locked.
Definition UnlockForCodeMemory pt (address size : Z) g :=
  UnlockMemory pt address size (locked_test KMemoryState_FlagCanCodeMemory)
    KMemoryPermission_UserReadWrite KMemoryAttribute_Locked (Some g).

(** ** Aliases *)

(** The source of an alias keeps its pages and loses its permissions. *)
Definition alias_source_perm : Z := Z.lor KMemoryPermission_KernelRead KMemoryPermission_NotMapped.

(** Inside the block the source is protected first, and unprotected again when the
    pages of the destination cannot be mapped. *)
Definition map_alias pt (dst_address src_address num_pages dst_perm old_perm : Z) g : prog (Z * Table) :=
  '(r, pt) ← Operate pt src_address num_pages 0 false
               (MkProperties alias_source_perm false false DisableMergeAttribute_DisableHeadBodyTail)
               Op_ChangePermissions;
  if negb (Result_IsSuccess r) then mret (r, pt)
  else
    '(r, pt) ← MapPageGroupImpl pt dst_address g
                 (MkProperties dst_perm false false DisableMergeAttribute_DisableHead) false;
    if Result_IsSuccess r then mret (r, pt)
    else
      '(r', pt) ← Operate pt src_address num_pages 0 false
                    (MkProperties old_perm false false DisableMergeAttribute_EnableHeadBodyTail)
                    Op_ChangePermissions;
      _ ← ASSERT (Result_IsSuccess r');
      mret (r, pt).

Definition MapMemory pt (dst_address src_address size : Z) : prog (Z * Table) :=
  '(r, src) ← CheckMemoryState (m_memory_block_manager pt) src_address size
                (MkTest KMemoryState_FlagCanAlias KMemoryState_FlagCanAlias KMemoryPermission_All
                   KMemoryPermission_UserReadWrite KMemoryAttribute_All KMemoryAttribute_None);
  if negb (Result_IsSuccess r) then mret (r, pt)
  else
    '(r, dst) ← CheckMemoryState (m_memory_block_manager pt) dst_address size
                  (MkTest KMemoryState_All KMemoryState_Free KMemoryPermission_None
                     KMemoryPermission_None KMemoryAttribute_None KMemoryAttribute_None);
    if negb (Result_IsSuccess r) then mret (r, pt)
    else with_two_allocators pt (ck_blocks_needed src) (ck_blocks_needed dst) (λ sa da pt,
      let num_pages := size / PageSize in
      '(r, pt, g) ← MakePageGroup pt [] src_address num_pages;
      if negb (Result_IsSuccess r) then mret (r, sa, da, drop_group pt g)
      else
        '(r, pt) ← map_alias pt dst_address src_address num_pages KMemoryPermission_UserReadWrite
                     KMemoryPermission_UserReadWrite g;
        if negb (Result_IsSuccess r) then mret (r, sa, da, drop_group pt g)
        else
          '(sa, pt) ← update_blocks sa pt src_address num_pages (ck_state src) alias_source_perm
                        KMemoryAttribute_Locked DisableMerge_Locked DisableMerge_None;
          '(da, pt) ← update_blocks da pt dst_address num_pages KMemoryState_Stack
                        KMemoryPermission_UserReadWrite KMemoryAttribute_None
                        DisableMerge_Normal DisableMerge_None;
          mret (ResultSuccess, sa, da, drop_group pt g)).

Definition MapCodeMemory pt (dst_address src_address size : Z) : prog (Z * Table) :=
  ok ← CanContain_state (pt_regions pt) dst_address size KMemoryState_AliasCode;
  if negb ok then mret (ResultInvalidMemoryRegion, pt)
  else
    '(r, src) ← CheckMemoryState (m_memory_block_manager pt) src_address size
                  (MkTest KMemoryState_All KMemoryState_Normal KMemoryPermission_All
                     KMemoryPermission_UserReadWrite KMemoryAttribute_All KMemoryAttribute_None);
    if negb (Result_IsSuccess r) then mret (r, pt)
    else
      '(r, dst) ← CheckMemoryState (m_memory_block_manager pt) dst_address size
                    (MkTest KMemoryState_All KMemoryState_Free KMemoryPermission_None
                       KMemoryPermission_None KMemoryAttribute_None KMemoryAttribute_None);
      if negb (Result_IsSuccess r) then mret (r, pt)
      else with_two_allocators pt (ck_blocks_needed src) (ck_blocks_needed dst) (λ sa da pt,
        let num_pages := size / PageSize in
        '(r, pt, g) ← MakePageGroup pt [] src_address num_pages;
        if negb (Result_IsSuccess r) then mret (r, sa, da, drop_group pt g)
        else
          '(r, pt) ← map_alias pt dst_address src_address num_pages alias_source_perm (ck_perm src) g;
          if negb (Result_IsSuccess r) then mret (r, sa, da, drop_group pt g)
          else
            '(sa, pt) ← update_blocks sa pt src_address num_pages (ck_state src) alias_source_perm
                          KMemoryAttribute_Locked DisableMerge_Locked DisableMerge_None;
            '(da, pt) ← update_blocks da pt dst_address num_pages KMemoryState_AliasCode
                          alias_source_perm KMemoryAttribute_None DisableMerge_Normal DisableMerge_None;
            mret (ResultSuccess, sa, da, drop_group pt g)).

(** Mapping a group again, with the permissions of the blocks.  Each turn maps all
    that is left of the block, not only the part of the group it advances by. *)
Fixpoint remap_loop (fuel : nat) pt (map_address map_pages : Z) (c : GroupCursor)
    (properties : KPageProperties) : prog (Table * GroupCursor) :=
  if 0 <? map_pages then
    match fuel with
    | O => Stuck
    | Datatypes.S fuel =>
        c ← deref (UpdateCurrentIterator c);
        let cur_pages := Z.min (gc_pages c) map_pages in
        '(r, pt) ← Operate pt map_address map_pages (gc_address c) true properties Op_Map;
        _ ← ASSERT (Result_IsSuccess r);
        remap_loop fuel pt (u64 (map_address + u64 (cur_pages * PageSize))) (u64 (map_pages - cur_pages))
          (MkCursor (u64 (gc_address c + u64 (cur_pages * PageSize))) (u64 (gc_pages c - cur_pages))
             (gc_rest c)) properties
    end
  else mret (pt, c).

Fixpoint remap_blocks (l : list KMemoryBlock) pt (start_address last_address : Z) (c : GroupCursor)
    : prog (Table * GroupCursor) :=
  match l with
  | [] => Stuck
  | b :: l =>
      let info := KMemoryBlock_GetMemoryInfo b in
      let map_address := Z.max (info_address info) start_address in
      let map_end_address := Z.min (KMemoryInfo_GetEndAddress info) (u64 (last_address + 1)) in
      _ ← ASSERT (negb (map_end_address =? map_address));
      let disable_head_merge :=
        (start_address <=? info_address info) &&
        negb (Z.land (info_disable_merge_attribute info) DisableMerge_Normal =? 0) in
      let map_pages := u64 (map_end_address - map_address) / PageSize in
      '(pt, c) ← remap_loop (Z.to_nat map_pages) pt map_address map_pages c
                   (MkProperties (info_permission info) false false
                      (if disable_head_merge then DisableMergeAttribute_DisableHead
                       else DisableMergeAttribute_None));
      if last_address <=? KMemoryInfo_GetLastAddress info then mret (pt, c)
      else remap_blocks l pt start_address last_address c
  end.

Definition RemapPageGroup pt (address size : Z) g : prog Table :=
  match g with
  | [] => Stuck
  | b :: rest =>
      '(pt, c) ← remap_blocks (blocks_from (m_memory_block_manager pt) address) pt address
                   (u64 (u64 (address + size) - 1))
                   (MkCursor (KBlockInfo_GetAddress b) (KBlockInfo_GetNumPages b) rest);
      _ ← ASSERT (match gc_rest c with [] => true | _ => false end);
      mret pt
  end.

(** The alias is unmapped, and mapped again when the source cannot get its
    permissions back. *)
Definition unmap_alias pt (dst_address src_address num_pages size : Z) g : prog (Z * Table) :=
  '(r, pt) ← Operate pt dst_address num_pages 0 false
               (MkProperties KMemoryPermission_None false false DisableMergeAttribute_None) Op_Unmap;
  if negb (Result_IsSuccess r) then mret (r, pt)
  else
    '(r, pt) ← Operate pt src_address num_pages 0 false
                 (MkProperties KMemoryPermission_UserReadWrite false false
                    DisableMergeAttribute_EnableAndMergeHeadBodyTail) Op_ChangePermissions;
    if Result_IsSuccess r then mret (r, pt)
    else pt ← RemapPageGroup pt dst_address size g; mret (r, pt).

Definition UnmapMemory pt (dst_address src_address size : Z) : prog (Z * Table) :=
  '(r, src) ← CheckMemoryState (m_memory_block_manager pt) src_address size
                (MkTest KMemoryState_FlagCanAlias KMemoryState_FlagCanAlias KMemoryPermission_All
                   alias_source_perm KMemoryAttribute_All KMemoryAttribute_Locked);
  if negb (Result_IsSuccess r) then mret (r, pt)
  else
    '(r, dst) ← CheckMemoryState (m_memory_block_manager pt) dst_address size
                  (MkTest KMemoryState_All KMemoryState_Stack KMemoryPermission_None
                     KMemoryPermission_None KMemoryAttribute_All KMemoryAttribute_None);
    if negb (Result_IsSuccess r) then mret (r, pt)
    else with_two_allocators pt (ck_blocks_needed src) (ck_blocks_needed dst) (λ sa da pt,
      let num_pages := size / PageSize in
      '(r, pt, g) ← MakePageGroup pt [] dst_address num_pages;
      if negb (Result_IsSuccess r) then mret (r, sa, da, drop_group pt g)
      else
        '(valid, pt) ← IsValidPageGroup pt g src_address num_pages;
        if negb valid then mret (ResultInvalidMemoryRegion, sa, da, drop_group pt g)
        else
          '(r, pt) ← unmap_alias pt dst_address src_address num_pages size g;
          if negb (Result_IsSuccess r) then mret (r, sa, da, drop_group pt g)
          else
            '(sa, pt) ← update_blocks sa pt src_address num_pages (ck_state src)
                          KMemoryPermission_UserReadWrite KMemoryAttribute_None
                          DisableMerge_None DisableMerge_Locked;
            '(da, pt) ← update_blocks da pt dst_address num_pages KMemoryState_None
                          KMemoryPermission_None KMemoryAttribute_None
                          DisableMerge_None DisableMerge_Normal;
            mret (ResultSuccess, sa, da, drop_group pt g)).

(** Whether a block of the range has the flag of code. *)
Fixpoint any_code_loop (l : list KMemoryBlock) (last_address : Z) : prog bool :=
  match l with
  | [] => Stuck
  | b :: l =>
      if negb (Z.land (m_memory_state b) KMemoryState_FlagCode =? 0) then mret true
      else if last_address <=? KMemoryBlock_GetLastAddress b then mret false
      else any_code_loop l last_address
  end.

(** The flag of the output says whether the instruction cache is invalidated. *)
Definition UnmapCodeMemory pt (dst_address src_address size : Z) : prog (Z * bool * Table) :=
  ok ← CanContain_state (pt_regions pt) dst_address size KMemoryState_AliasCode;
  if negb ok then mret (ResultInvalidMemoryRegion, false, pt)
  else
    '(r, src) ← CheckMemoryState (m_memory_block_manager pt) src_address size
                  (MkTest KMemoryState_All KMemoryState_Normal KMemoryPermission_None
                     KMemoryPermission_None KMemoryAttribute_All KMemoryAttribute_Locked);
    if negb (Result_IsSuccess r) then mret (r, false, pt)
    else
      '(r, dst_blocks) ← CheckMemoryStateContiguous (m_memory_block_manager pt) dst_address size
                           (MkTest KMemoryState_FlagCanCodeAlias KMemoryState_FlagCanCodeAlias
                              KMemoryPermission_None KMemoryPermission_None
                              (Z.land KMemoryAttribute_All (u8 (Z.lnot KMemoryAttribute_PermissionLocked)))
                              KMemoryAttribute_None);
      if negb (Result_IsSuccess r) then mret (r, false, pt)
      else
        any_code_pages ← any_code_loop (blocks_from (m_memory_block_manager pt) dst_address)
                           (u64 (u64 (dst_address + size) - 1));
        let num_pages := size / PageSize in
        '(r, pt, g) ← MakePageGroup pt [] dst_address num_pages;
        if negb (Result_IsSuccess r) then mret (r, false, drop_group pt g)
        else
          '(valid, pt) ← IsValidPageGroup pt g src_address num_pages;
          if negb valid then mret (ResultInvalidMemoryRegion, false, drop_group pt g)
          else
            '(r, pt) ← with_two_allocators pt (ck_blocks_needed src) dst_blocks (λ sa da pt,
              '(r, pt) ← unmap_alias pt dst_address src_address num_pages size g;
              if negb (Result_IsSuccess r) then mret (r, sa, da, pt)
              else
                '(da, pt) ← update_blocks da pt dst_address num_pages KMemoryState_None
                              KMemoryPermission_None KMemoryAttribute_None
                              DisableMerge_None DisableMerge_Normal;
                '(sa, pt) ← update_blocks sa pt src_address num_pages KMemoryState_Normal
                              KMemoryPermission_UserReadWrite KMemoryAttribute_None
                              DisableMerge_None DisableMerge_Locked;
                mret (ResultSuccess, sa, da, pt));
            mret (r, Result_IsSuccess r && any_code_pages, drop_group pt g).
End Locked.

(** ** Device address spaces *)
Section Devices.
Context {R : Type} `{Rng R} {S : Type} `{SlabManager S}.
Implicit Types (pt : KPageTableBase R S) (a : UpdateAllocator S).
Local Abbreviation Table := (KPageTableBase R S).

(** The output is whether the memory is I/O memory. *)
Definition LockForMapDeviceAddressSpace pt (address size perm : Z) (is_aligned check_heap : bool)
    : prog (Z * bool * Table) :=
  let num_pages := size / PageSize in
  if negb (KPageTable_Contains (pt_regions pt) address size) then
    mret (ResultInvalidCurrentMemory, false, pt)
  else
    let test_state :=
      Z.lor (if is_aligned then KMemoryState_FlagCanAlignedDeviceMap else KMemoryState_FlagCanDeviceMap)
        (if check_heap then KMemoryState_FlagReferenceCounted else KMemoryState_None) in
    '(r, c) ← CheckMemoryState_ignoring (m_memory_block_manager pt) address size
                (MkTest test_state test_state perm perm
                   (Z.lor KMemoryAttribute_IpcLocked KMemoryAttribute_Locked) KMemoryAttribute_None)
                KMemoryAttribute_DeviceShared;
    if negb (Result_IsSuccess r) then mret (r, false, pt)
    else
      '(r, pt) ← with_allocator pt (ck_blocks_needed c) (λ a pt,
        '(a, pt) ← lock_blocks a pt address num_pages KMemoryBlock_ShareToDevice KMemoryPermission_None;
        mret (ResultSuccess, a, pt));
      mret (r, Result_IsSuccess r && (Z.land (ck_state c) KMemoryState_Mask =? 0x01), pt).

Definition shared_attribute : Z := Z.lor KMemoryAttribute_DeviceShared KMemoryAttribute_Locked.

Definition device_test (state : Z) : MemoryTest :=
  MkTest state state KMemoryPermission_None KMemoryPermission_None shared_attribute
    KMemoryAttribute_DeviceShared.

Definition lock_contiguous pt (address size test_state : Z)
    (lock_func : Z → bool → bool → KMemoryBlock → prog KMemoryBlock) : prog (Z * Table) :=
  let num_pages := size / PageSize in
  if negb (KPageTable_Contains (pt_regions pt) address size) then mret (ResultInvalidCurrentMemory, pt)
  else
    '(r, num_allocator_blocks) ← CheckMemoryStateContiguous (m_memory_block_manager pt) address size
                                   (device_test test_state);
    if negb (Result_IsSuccess r) then mret (r, pt)
    else with_allocator pt num_allocator_blocks (λ a pt,
      '(a, pt) ← lock_blocks a pt address num_pages lock_func KMemoryPermission_None;
      mret (ResultSuccess, a, pt)).

Definition LockForUnmapDeviceAddressSpace pt (address size : Z) (check_heap : bool) : prog (Z * Table) :=
  lock_contiguous pt address size
    (Z.lor KMemoryState_FlagCanDeviceMap
       (if check_heap then KMemoryState_FlagReferenceCounted else KMemoryState_None))
    (if m_enable_device_address_space_merge (pt_config pt)
     then KMemoryBlock_UpdateDeviceDisableMergeStateForShare
     else KMemoryBlock_UpdateDeviceDisableMergeStateForShareRight).

Definition UnlockForDeviceAddressSpace pt (address size : Z) : prog (Z * Table) :=
  lock_contiguous pt address size KMemoryState_FlagCanDeviceMap KMemoryBlock_UnshareToDevice.

Definition UnlockForDeviceAddressSpacePartialMap pt (address size : Z) : prog (Z * Table) :=
  lock_contiguous pt address size KMemoryState_FlagCanDeviceMap
    (if m_enable_device_address_space_merge (pt_config pt)
     then KMemoryBlock_UpdateDeviceDisableMergeStateForUnshare
     else KMemoryBlock_UpdateDeviceDisableMergeStateForUnshareRight).

(** ** Open memory ranges *)
Definition open_range pt (address size : Z) (t : MemoryTest) : prog (Z * option MemoryRange * Table) :=
  '(r, out) ← GetContiguousMemoryRangeWithState pt address size t;
  if negb (Result_IsSuccess r) then mret (r, None, pt)
  else
    o ← deref out;
    pt ← MemoryRange_Open o pt;
    mret (ResultSuccess, Some o, pt).

Definition OpenMemoryRangeForMapDeviceAddressSpace pt (address size perm : Z) (is_aligned : bool) :=
  let test_state :=
    if is_aligned then KMemoryState_FlagCanAlignedDeviceMap else KMemoryState_FlagCanDeviceMap in
  open_range pt address size
    (MkTest test_state test_state perm perm
       (Z.lor KMemoryAttribute_IpcLocked KMemoryAttribute_Locked) KMemoryAttribute_None).

Definition OpenMemoryRangeForUnmapDeviceAddressSpace pt (address size : Z) :=
  open_range pt address size (device_test KMemoryState_FlagCanDeviceMap).

Definition OpenMemoryRangeForProcessCacheOperation pt (address size : Z) :=
  open_range pt address size
    (MkTest KMemoryState_FlagReferenceCounted KMemoryState_FlagReferenceCounted
       KMemoryPermission_UserRead KMemoryPermission_UserRead KMemoryAttribute_Uncached
       KMemoryAttribute_None).
End Devices.
