(* ===== verification/PageTableRequestLemmas.v ===== *)
(** Lemmas about the requests to map, share and lock memory. *)

From S2P Require Import Prelude Common MemoryBlock OrderedTree MemoryBlockManager MemoryBlockManagerLemmas MemoryBlockManagerUpdate MemoryBlockManagerTheorems PageBitmap PageBitmapLemmas PageBitmapTheorems PageHeap PageHeapLemmas PageHeapTheorems MemoryRegionType MemoryRegion MemoryLayout MemoryRegionTheorems PageGroup MemoryManager PageGroupTheorems MemoryManagerLemmas MemoryManagerPages MemoryManagerAllocate MemoryManagerOperations ResourceLimit ResourceLimitTheorems PageTable PageTableOperations PageTableCheck PageTablePermission PageTableTranslation PageTableOperate PageTableHeap PageTableRequests.

(** * Mapping operations and the update of the blocks *)
Section Mapping.
Context {R : Type} `{RngLaws R} {S : Type} `{SlabExact S}.
Implicit Types (pt : KPageTableBase R S) (g : KPageGroup) (other : Z → Z) (mm : KMemoryManager R)
               (t : PageTable).

Local Abbreviation blocks := m_memory_block_manager.

(** A request changes the entries, the memory manager, the two slabs, the cached
    region and the blocks, and nothing else. *)
Definition only_request pt pt' : Prop :=
  ∃ t mm i c m s, pt' = with_block_slab s (with_blocks m (with_impl t (with_mm mm (with_infos i (with_cached c pt))))).

(** The outcome of a request for a range: the mapping is as [Q] says, and the
    pages of the range have the new properties. *)
Record request_done other pt (addr n : Z) (f : PageProps → PageProps)
    (Q : PageTable → KMemoryManager R → Prop) pt' : Prop := {
  rd_inv : pt_inv other pt';
  rd_only : only_request pt pt';
  rd_mapping : Q (m_impl pt') (pt_mm pt');
  rd_blocks : range_updated addr (addr + n * PageSize) f (blocks pt) (blocks pt');
  rd_count : (slab_of pt' + length (tree_of pt') = slab_of pt + length (tree_of pt))%nat;
  rd_infos : infos_of pt' = infos_of pt
}.

(** A request that failed after the blocks were reserved: the properties of the
    pages did not change. *)
Record request_failed other pt (E : PageTable → KMemoryManager R → Prop) pt' : Prop := {
  rf_inv : pt_inv other pt';
  rf_only : only_request pt pt';
  rf_mapping : E (m_impl pt') (pt_mm pt');
  rf_blocks : blocks pt' = blocks pt;
  rf_count : slab_of pt' = slab_of pt;
  rf_infos : infos_of pt' = infos_of pt
}.

(** What a mapping operation inside a request must give. *)
Definition mapping_step other pt (Q : PageTable → KMemoryManager R → Prop)
    (E : Z → PageTable → KMemoryManager R → Prop) (s : S) (res : Z * KPageTableBase R S) : Prop :=
  let '(r, pt1) := res in
  pt_inv other pt1 ∧ only_mapping (with_block_slab s pt) pt1 ∧ infos_of pt1 = infos_of pt ∧
  ((r = ResultSuccess ∧ Q (m_impl pt1) (pt_mm pt1)) ∨
   (Result_IsSuccess r = false ∧ E r (m_impl pt1) (pt_mm pt1))).

Lemma map_update_run other pt addr n k st pm dset dclear f Q E :
  pt_inv other pt → table_range pt addr n →
  (list_cuts addr (addr + n * PageSize) (tree_of pt) ≤ k ≤ 2)%nat → 0 ≤ st < 2 ^ 32 →
  no_ipc (blocks pt) addr n →
  (∀ q, pages (blocks pt) addr = Some q → differs st pm KMemoryAttribute_None q) →
  (∀ s, wp (f (with_block_slab s pt)) (mapping_step other pt Q E s)) →
  wp (with_allocator pt (Z.of_nat k) (λ a pt,
      '(r, pt) ← f pt;
      if negb (Result_IsSuccess r) then mret (r, a, pt)
      else
        '(a, pt) ← update_blocks a pt addr n st pm KMemoryAttribute_None dset dclear;
        mret (ResultSuccess, a, pt)))
    (λ '(r, pt'), out_of_blocks pt k r pt' ∨
      (r = ResultSuccess ∧ request_done other pt addr n (set_props st pm KMemoryAttribute_None) Q pt') ∨
      (Result_IsSuccess r = false ∧ request_failed other pt (E r) pt')).
Proof.
  intros Hi Hr Hk Hst Hn Hd Hf. eapply wp_mono.
  - apply (with_allocator_run pt k _ (λ r l pt', ∃ s0 pt1, only_mapping (with_block_slab s0 pt) pt1 ∧
      infos_of pt1 = infos_of pt ∧ pt_inv other pt' ∧
      ((r = ResultSuccess ∧ Q (m_impl pt1) (pt_mm pt1) ∧
        ∃ m s, pt' = with_block_slab s (with_blocks m pt1) ∧
          range_updated addr (addr + n * PageSize) (set_props st pm KMemoryAttribute_None) (blocks pt) m ∧
          (l + length (m_memory_block_tree m) = slab_of pt + length (tree_of pt))%nat) ∨
       (Result_IsSuccess r = false ∧ E r (m_impl pt1) (pt_mm pt1) ∧ pt' = pt1 ∧ l = slab_of pt)))); [lia|].
    intros s Hs. apply wp_bind. eapply wp_mono; [apply Hf|].
    intros [r pt1] (Hi1 & O & Einf & [[-> HQ]|[Er HE]]).
    + change (Result_IsSuccess ResultSuccess) with true. cbn [negb].
      destruct O as (t & mm & s1 & c & ->). apply wp_bind.
      eapply wp_mono; [apply (update_blocks_run _ addr n k s); try done; apply Hi1|].
      intros [a pt2] [Ha Es Hok (m & s2 & ->) Hu Hl]. apply wp_ret.
      split; [done|]. split; [done|]. eexists s, _. split; [by eexists t, mm, s1, c|]. split; [done|].
      split; [eapply pt_inv_blocks; [exact Hi1|exact Hok|by exists m, s2]|]. left. split; [done|].
      split; [done|]. exists m, s2. split; [done|]. split; [done|]. rewrite <- Hs. unfold tree_of in *. simpl in *. lia.
    + rewrite Er. cbn [negb]. apply wp_ret. split; [by exists k, s; split; [lia|]|].
      split; [by destruct O as (?&?&?&?&->)|]. exists s, pt1. split; [done|]. split; [done|].
      split; [done|]. right. split_and!; try done.
      rewrite <- Hs. change (alloc k s) with (alloc k s). rewrite blocks_left_alloc by lia. lia.
  - intros [r pt'] [?|(pt1 & l & s & (s0 & pt2 & (t & mm & i & c & ->) & Einf & Hi2 & Hout) & Hl & ->)]; [by left|].
    right. destruct Hout as [(-> & HQ & m & s2 & -> & Hu & Hc)|(Er & HE & -> & ->)]; [left|right].
    + split; [done|]. split; [by apply (pt_inv_slab other _ s) in Hi2|by exists t, mm, i, c, m, s|done|done| |done].
      unfold slab_of, tree_of in *. simpl in *. lia.
    + split; [done|]. split; [by apply pt_inv_slab|by exists t, mm, i, c, (blocks pt), s|done|done|done|done].
Qed.
(** ** Pages *)

(** The pages [ps], free before, are mapped from [v] on, and are cleared. *)
Record fresh_pages pt (v : Z) (ps : list Z) t mm : Prop := {
  fp_nodup : NoDup ps;
  fp_pages p : p ∈ ps → in_mm (pt_mm pt) p ∧ page_free (pt_mm pt) p ∧
    page_pool (pt_mm pt) p = Some (GetPool (m_allocate_option (pt_config pt)));
  fp_translate w : 0 ≤ w → translate t w =
    if decide (v ≤ w < v + Z.of_nat (length ps)) then list_at v ps w else translate (m_impl pt) w;
  fp_same : same_mm (pt_mm pt) mm;
  fp_ref p : in_mm (pt_mm pt) p →
    page_ref mm p = if decide (p ∈ ps) then 1 else page_ref (pt_mm pt) p;
  fp_free p : in_mm (pt_mm pt) p → page_free mm p ↔ page_free (pt_mm pt) p ∧ p ∉ ps;
  fp_cleared x : x / PageSize ∈ ps → mem_byte (mm_memory mm) x = u8 (m_heap_fill_value (pt_config pt))
}.

(** Nothing was mapped and no reference changed. *)
Definition nothing_mapped pt t mm : Prop :=
  t = m_impl pt ∧ same_mm (pt_mm pt) mm ∧
  ∀ p, in_mm (pt_mm pt) p → page_ref mm p = page_ref (pt_mm pt) p.

(** Why there are no new pages. *)
Definition no_pages pt (n r : Z) : Prop :=
  r = ResultOutOfMemory ∧ few_free (pt_mm pt) (GetPool (m_allocate_option (pt_config pt))) n ∨
  r = ResultOutOfResource ∧
    infos_short (pt_mm pt) (GetPool (m_allocate_option (pt_config pt))) n (m_block_info_manager pt).

Lemma allocate_step other pt addr n perm s :
  pt_inv other pt → dram_mm (pt_mm pt) → pool_valid (m_allocate_option (pt_config pt)) →
  table_range pt addr n →
  wp (AllocateAndMapPagesImpl (with_block_slab s pt) addr n perm)
    (mapping_step other pt (λ t mm, ∃ ps, Z.of_nat (length ps) = n ∧ fresh_pages pt (addr / PageSize) ps t mm)
       (λ r t mm, no_pages pt n r ∧ nothing_mapped pt t mm) s).
Proof.
  intros Hi Hd Hp Hr. eapply wp_mono; [apply (AllocateAndMapPagesImpl_run other); [by apply pt_inv_slab|done..]|].
  intros [r pt'] [(-> & ps & Hl & F)|[N Hres]].
  - destruct F as [F1 F2 F3 F4 F5 F6 F7 F8 F9 F10]. split_and!; [done..|]. left. split; [done|].
    exists ps. split; [done|]. by split.
  - destruct N as [N1 N2 N3 N4 N5 N6]. split_and!; [done..|]. right.
    split; [by destruct Hres as [[-> _]|[-> _]]|]. split; [exact Hres|]. by split.
Qed.

Lemma Contains_run pt addr n : table_ok pt → table_range pt addr n →
  KPageTable_Contains (pt_regions pt) addr (n * PageSize) = true.
Proof.
  intros Hk Hr. pose proof (table_range_bounds _ _ _ Hk Hr) as (? & ? & ? & ? & ? & ?).
  destruct (range_size _ _ _ Hk Hr) as (_ & E & _). destruct Hr as (_ & _ & ? & _).
  unfold KPageTable_Contains. rewrite E, !u64_id by (unfold is_u64; lia).
  rewrite !(proj2 (Z.leb_le _ _)), (proj2 (Z.ltb_lt _ _)) by lia. done.
Qed.

Lemma free_differs m addr n ig st pm q : 0 < n → st ≠ KMemoryState_Free → 0 ≤ st < 2 ^ 32 →
  uniform m addr n free_test ig → pages m addr = Some q → differs st pm KMemoryAttribute_None q.
Proof.
  intros Hn Hst Hb Hu Hq. left. intros E.
  assert (Hx : addr ≤ addr < addr + n * PageSize) by (rewrite PageSize_eq; lia).
  pose proof (free_test_state _ addr n _ addr _ Hn Hu Hx Hq) as Ef. rewrite E in Ef.
  change KMemoryState_All with (Z.ones 32) in Ef. rewrite Z.land_ones, Z.mod_small in Ef by lia. done.
Qed.

Lemma MapPages_run other pt addr n state perm ok :
  pt_inv other pt → dram_mm (pt_mm pt) → pool_valid (m_allocate_option (pt_config pt)) →
  table_range pt addr n → 0 ≤ state < 2 ^ 32 → state ≠ KMemoryState_Free →
  CanContain_state (pt_regions pt) addr (n * PageSize) state = Done true ok →
  wp (MapPages pt addr n state perm) (λ '(r, pt'),
    (r = ResultInvalidCurrentMemory ∧ pt' = pt ∧
     (ok = false ∨ ¬ uniform (blocks pt) addr n free_test DefaultMemoryIgnoreAttr)) ∨
    (ok = true ∧ uniform (blocks pt) addr n free_test DefaultMemoryIgnoreAttr ∧
     (out_of_blocks pt (list_cuts addr (addr + n * PageSize) (tree_of pt)) r pt' ∨
      (r = ResultSuccess ∧ request_done other pt addr n (set_props state perm KMemoryAttribute_None)
         (λ t mm, ∃ ps, Z.of_nat (length ps) = n ∧ fresh_pages pt (addr / PageSize) ps t mm) pt') ∨
      (Result_IsSuccess r = false ∧
       request_failed other pt (λ t mm, no_pages pt n r ∧ nothing_mapped pt t mm) pt')))).
Proof.
  intros Hi Hd Hp Hr Hst Hf Hok. pose proof (pi_table _ _ Hi) as Hk.
  destruct (range_size _ _ _ Hk Hr) as (E1 & _). unfold MapPages. rewrite E1, Hok, bind_Done_true.
  destruct ok; cbn [negb]; [|apply wp_ret; left; split_and!; [done..|by left]].
  fold free_test. apply wp_bind. eapply wp_mono; [by apply CheckMemoryState_run, table_range_ok|].
  intros [r c] [[-> Hc]|[-> Hc]].
  2: { apply wp_ret. left. split_and!; [done..|]. right. intros Hu. by apply Hc, uniform_checked. }
  change (Result_IsSuccess ResultSuccess) with true. cbn [negb].
  pose proof (checked_uniform _ _ _ _ _ _ Hc) as Hu.
  pose proof (free_test_no_ipc pt addr n _ Hk (proj1 Hr) Hu) as Hn.
  destruct (checked_cuts _ _ _ _ _ _ Hk Hc) as (k & -> & Ek & Hk2). rewrite <- Ek.
  eapply wp_mono; [apply (map_update_run other pt addr n k state perm _ _
    (λ pt, AllocateAndMapPagesImpl pt addr n perm)); [done..|rewrite Ek; lia|done|done| |intros s; by apply allocate_step]|].
  - intros q Hq. eapply (free_differs _ addr n DefaultMemoryIgnoreAttr); try done; apply Hr.
  - intros [r pt'] Ho. right. by split_and!.
Qed.

(** ** Unmapping *)

(** The pages [ps] of a range were closed, and the range is unmapped. *)
Record pages_closed pt (v n : Z) (ps : list Z) t mm : Prop := {
  pc_pages : translated (m_impl pt) v ps;
  pc_length : Z.of_nat (length ps) ≤ n;
  pc_all : closable pt v n → Z.of_nat (length ps) = n;
  pc_translate w : 0 ≤ w → translate t w = if decide (v ≤ w < v + n) then None else translate (m_impl pt) w;
  pc_refs : mm_counted (-1) ps (pt_mm pt) mm
}.

Lemma unmap_step other pt addr n p s : pt_inv other pt → table_range pt addr n →
  managed_range pt (addr / PageSize) n →
  wp (Operate (with_block_slab s pt) addr n 0 false p Op_Unmap)
    (mapping_step other pt (λ t mm, ∃ ps, pages_closed pt (addr / PageSize) n ps t mm) (λ _ _ _, False) s).
Proof.
  intros Hi Hr Hm. eapply wp_mono; [apply (Operate_unmap_run other); [by apply pt_inv_slab|done|set_solver|done]|].
  intros [r pt'] (-> & ps & [U1 U2 U3 U4 U5 U6 U7] & Hall). split_and!; [done..|]. left. split; [done|].
  exists ps. by split.
Qed.

Definition state_test (state : Z) : MemoryTest :=
  MkTest KMemoryState_All state KMemoryPermission_None KMemoryPermission_None KMemoryAttribute_All
    KMemoryAttribute_None.

Lemma state_test_differs m addr n ig st q : 0 < n → st ≠ KMemoryState_Free →
  uniform m addr n (state_test st) ig → pages m addr = Some q →
  differs KMemoryState_Free KMemoryPermission_None KMemoryAttribute_None q.
Proof.
  intros Hn Hst (q0 & _ & Hall) Hq. destruct (Hall addr) as (q1 & Hq1 & _ & Hp & _); [rewrite PageSize_eq; lia|].
  simplify_eq. left. intros E. rewrite E in Hp. apply Hst. exact (eq_sym Hp).
Qed.

Lemma UnmapPages_run other pt addr n state : pt_inv other pt → table_range pt addr n →
  state ≠ KMemoryState_Free → managed_range pt (addr / PageSize) n →
  wp (UnmapPages pt addr n state) (λ '(r, pt'),
    (r = ResultInvalidCurrentMemory ∧ pt' = pt ∧
     ¬ uniform (blocks pt) addr n (state_test state) DefaultMemoryIgnoreAttr) ∨
    (uniform (blocks pt) addr n (state_test state) DefaultMemoryIgnoreAttr ∧
     (out_of_blocks pt (list_cuts addr (addr + n * PageSize) (tree_of pt)) r pt' ∨
      (r = ResultSuccess ∧ request_done other pt addr n freed_props
         (λ t mm, ∃ ps, pages_closed pt (addr / PageSize) n ps t mm) pt')))).
Proof.
  intros Hi Hr Hf Hm. pose proof (pi_table _ _ Hi) as Hk.
  destruct (range_size _ _ _ Hk Hr) as (E1 & _). unfold UnmapPages. rewrite E1, (Contains_run _ _ _ Hk Hr).
  cbn [negb]. fold (state_test state). apply wp_bind. eapply wp_mono; [by apply CheckMemoryState_run, table_range_ok|].
  intros [r c] [[-> Hc]|[-> Hc]].
  2: { apply wp_ret. left. split_and!; [done..|]. intros Hu. by apply Hc, uniform_checked. }
  change (Result_IsSuccess ResultSuccess) with true. cbn [negb].
  pose proof (checked_uniform _ _ _ _ _ _ Hc) as Hu.
  pose proof (checked_no_ipc _ _ _ _ _ _ Hc eq_refl eq_refl) as Hn.
  destruct (checked_cuts _ _ _ _ _ _ Hk Hc) as (k & -> & Ek & Hk2). rewrite <- Ek.
  eapply wp_mono; [apply (map_update_run other pt addr n k KMemoryState_Free KMemoryPermission_None _ _
    (λ pt, Operate pt addr n 0 false _ Op_Unmap)); [done..|rewrite Ek; lia|done|done| |intros s; by apply unmap_step]|].
  - intros q Hq. eapply state_test_differs; try done; apply Hr.
  - intros [r pt'] [Ho|[[-> Ho]|[_ Ho]]]; [right; split; [done|by left]|right; split; [done|by right]|].
    destruct (rf_mapping _ _ _ _ Ho).
Qed.
End Mapping.

(** * Page groups *)
Section Groups.
Context {R : Type} `{RngLaws R} {S : Type} `{SlabExact S}.
Implicit Types (pt : KPageTableBase R S) (g : KPageGroup) (other : Z → Z) (mm : KMemoryManager R)
               (t : PageTable).

Local Abbreviation blocks := m_memory_block_manager.

(** The blocks of the group start in the heap, so that their pages are counted. *)
Definition heap_group pt g : Prop :=
  Forall (λ b, heap_address (m_memory_layout (pt_mm pt)) (bi_page_index b * PageSize) = true) g.

Lemma only_mapping_trans pt1 pt2 pt3 : only_mapping pt1 pt2 → only_mapping pt2 pt3 → only_mapping pt1 pt3.
Proof. intros (t & mm & s & c & ->) (t' & mm' & s' & c' & ->). by exists t', mm', s', c'. Qed.

Lemma only_mapping_refl pt : only_mapping pt pt.
Proof.
  exists (m_impl pt), (pt_mm pt), (m_block_info_manager pt), (m_cached_physical_heap_region pt). by destruct pt.
Qed.

Lemma only_mapping_range pt pt' addr n : only_mapping pt pt' → table_range pt addr n → table_range pt' addr n.
Proof. by intros (? & ? & ? & ? & ->). Qed.

Lemma Operate_map_run other pt addr b p :
  pt_inv other pt → table_range pt addr (bi_num_pages b) → addr ≠ 0 → block_ok b →
  DramMemoryMap_Base ≤ bi_page_index b * PageSize →
  heap_address (m_memory_layout (pt_mm pt)) (bi_page_index b * PageSize) = true →
  can_open (pt_mm pt) (block_pages b) →
  wp (Operate pt addr (KBlockInfo_GetNumPages b) (KBlockInfo_GetAddress b) true p Op_Map)
    (λ '(r, pt'), r = ResultSuccess ∧ mapped other pt (addr / PageSize) (block_pages b) pt').
Proof.
  intros Hi Hr Hz Hb Hd Hh Hc. pose proof (pi_table _ _ Hi) as Hk. pose proof Hb as (? & ? & ?).
  pose proof (length_block_pages b ltac:(lia)) as Hl.
  destruct (range_size _ _ _ Hk Hr) as (E1 & _). destruct (range_pages _ _ _ Hk Hr) as (Ea & Hv & Hn & Hvn & Hs).
  destruct (block_address b Hb) as (Eb & _). unfold Operate, KBlockInfo_GetNumPages.
  rewrite Operate_asserts, E1 by done. rewrite (proj2 (Z.eqb_neq addr 0)) by done.
  rewrite (proj2 (IsAligned_page addr)) by apply Hr. cbn [negb].
  change (ASSERT true) with (Done true ()). rewrite !bind_Done_true. set (v := addr / PageSize) in *.
  rewrite Eb, Ea.
  destruct (MapMemoryRegion_run (m_impl pt) v (bi_num_pages b)) with (p := bi_page_index b)
    as (t' & -> & Hre); [apply Hi|lia..|]. rewrite bind_Done_true.
  assert (Hh0 : heap_ok (with_impl t' pt)) by (by destruct (pi_heap _ _ Hi)).
  destruct (pt_IsHeap_run _ (bi_page_index b * PageSize) Hh0) as (c & -> & Hh1). rewrite bind_Done_true.
  cbn [with_impl pt_mm] in *. rewrite Hh. cbn [with_cached pt_mm].
  apply wp_bind. rewrite <- Eb. change (bi_num_pages b) with (KBlockInfo_GetNumPages b).
  eapply wp_mono; [apply Open_block_run; [done|apply Hi|done]|]. intros mm' M. apply wp_ret. split; [done|].
  assert (Hre' : remapped (m_impl pt) v (Z.of_nat (length (block_pages b))) (list_at v (block_pages b)) t').
  { destruct Hre as (R1 & R2 & R3). rewrite Hl. split; [done|]. split; [done|]. intros w Hw. rewrite R3 by done.
    case_decide as E; [|done]. unfold run_at, list_at.
    assert (block_pages b !! Z.to_nat (w - v) = Some (bi_page_index b + (w - v))) as ->; [|done].
    apply lookup_seqZ. lia. }
  assert (Hinv : pt_inv other (with_impl t' (with_mm mm' (with_infos (m_block_info_manager pt) (with_cached c pt))))).
  { apply pt_inv_mapping; [done|apply Hre|apply Hre|apply M|apply M|by destruct Hh1|].
    eapply counted_map; [done|apply Hi|exact Hre'|done]. }
  split; [by destruct pt| |exact (proj2 (proj2 Hre'))|done|done].
  exists t', mm', (m_block_info_manager pt), c. by destruct pt.
Qed.

(** Mapping ranges one behind the other. *)
Lemma mapped_app other pt pt1 pt2 v L1 L2 : 0 ≤ v → can_open (pt_mm pt) (L1 ++ L2) →
  mapped other pt v L1 pt1 → mapped other pt1 (v + Z.of_nat (length L1)) L2 pt2 →
  mapped other pt v (L1 ++ L2) pt2.
Proof.
  intros Hv Hc [I1 O1 T1 M1 F1] [I2 O2 T2 M2 F2]. split; [done|by eapply only_mapping_trans| | |congruence].
  - intros w Hw. rewrite T2, T1, length_app, Nat2Z.inj_add by done. unfold list_at.
    repeat case_decide; try lia; try done.
    + rewrite lookup_app_r by lia. do 2 f_equal. lia.
    + rewrite lookup_app_l by lia. done.
  - eapply mm_counted_app; [by right| |done..]. by apply can_open_ref.
Qed.

Lemma mapped_nil other pt v : pt_inv other pt → mapped other pt v [] pt.
Proof.
  intros Hi. split; [done|apply only_mapping_refl| |apply mm_counted_refl, Hi|done].
  intros w _. simpl. rewrite decide_False by lia. done.
Qed.

Lemma map_impl_loop_run other start p g : dram_group g → ∀ pt addr,
  pt_inv other pt → addr mod PageSize = 0 → 0 < addr → m_address_space_start (pt_regions pt) ≤ addr →
  addr + Z.of_nat (length (group_pages g)) * PageSize ≤ m_address_space_end (pt_regions pt) →
  heap_group pt g → can_open (pt_mm pt) (group_pages g) →
  wp (map_impl_loop pt g start addr p) (λ '(r, pt', _), r = ResultSuccess ∧
    mapped other pt (addr / PageSize) (group_pages g) pt').
Proof.
  pose proof PageSize_eq as Eps.
  induction g as [|b g IH]; intros [Hb Hd] pt addr Hi Ha Hz Hlo Hhi Hh Hc; cbn [map_impl_loop].
  { apply wp_ret. split; [done|]. by apply mapped_nil. }
  apply Forall_cons in Hb as [Hb Hbs]. apply Forall_cons in Hd as [Hd Hds]. apply Forall_cons in Hh as [Hh Hhs].
  pose proof Hb as (? & ? & ?). rewrite group_pages_cons in *.
  pose proof (length_block_pages b ltac:(lia)) as Hl. rewrite length_app, Nat2Z.inj_add, Hl in Hhi.
  pose proof (pi_table _ _ Hi) as Hk.
  assert (Hr : table_range pt addr (bi_num_pages b)) by (split; [lia|]; split; [done|]; lia).
  pose proof (table_range_bounds _ _ _ Hk Hr) as (? & ? & ? & _).
  apply wp_bind. eapply wp_mono; [apply (Operate_map_run other); try done; [lia|by eapply can_open_l]|].
  intros [r pt1] (-> & M). change (Result_IsSuccess ResultSuccess) with true. cbn [negb].
  destruct (block_address b Hb) as (_ & _ & ->). rewrite (u64_id (addr + _)) by (unfold is_u64; lia).
  pose proof (mp_only _ _ _ _ _ M) as (t & mm & s & c & E1).
  assert (Er : pt_regions pt1 = pt_regions pt) by (by rewrite E1).
  assert (Ed : (addr + bi_num_pages b * PageSize) / PageSize = addr / PageSize + Z.of_nat (length (block_pages b))).
  { rewrite Hl, Z.div_add by lia. done. }
  eapply wp_mono; [apply (IH (conj Hbs Hds) pt1); rewrite ?Er; try lia; [apply M| | |]|].
  - rewrite Z.mod_add by lia. done.
  - unfold heap_group in *. by rewrite (sm_layout _ _ (mc_same _ _ _ _ (mp_refs _ _ _ _ _ M))).
  - eapply can_open_app; [done|apply M].
  - intros [[r pt2] cur] (-> & M2). split; [done|]. rewrite Ed in M2. eapply mapped_app; try done. apply Z.div_pos; lia.
Qed.

Lemma MapPageGroupImpl_run other pt addr n g p :
  pt_inv other pt → table_range pt addr n → 0 < addr → dram_group g → Z.of_nat (length (group_pages g)) = n →
  heap_group pt g → can_open (pt_mm pt) (group_pages g) →
  wp (MapPageGroupImpl pt addr g p false) (λ '(r, pt'), r = ResultSuccess ∧
    mapped other pt (addr / PageSize) (group_pages g) pt').
Proof.
  intros Hi (? & ? & ? & ?) Hz Hg Hl Hh Hc. unfold MapPageGroupImpl. apply wp_bind.
  eapply wp_mono; [apply (map_impl_loop_run other); try done; by rewrite Hl|].
  intros [[r pt'] cur] (-> & M). change (Result_IsSuccess ResultSuccess) with true. by apply wp_ret.
Qed.

(** What mapping a group does to the entries and the references. *)
Record group_mapped pt (v : Z) g t mm : Prop := {
  gm_translate w : 0 ≤ w → translate t w =
    if decide (v ≤ w < v + Z.of_nat (length (group_pages g))) then list_at v (group_pages g) w
    else translate (m_impl pt) w;
  gm_refs : mm_counted 1 (group_pages g) (pt_mm pt) mm
}.

Lemma group_step other pt addr n g p s :
  pt_inv other pt → table_range pt addr n → 0 < addr → dram_group g → Z.of_nat (length (group_pages g)) = n →
  heap_group pt g → can_open (pt_mm pt) (group_pages g) →
  wp (MapPageGroupImpl (with_block_slab s pt) addr g p false)
    (mapping_step other pt (group_mapped pt (addr / PageSize) g) (λ _ _ _, False) s).
Proof.
  intros Hi Hr Hz Hg Hl Hh Hc. eapply wp_mono; [apply (MapPageGroupImpl_run other _ addr n); try done; by apply pt_inv_slab|].
  intros [r pt'] (-> & [M1 M2 M3 M4 M5]). split_and!; [done..|]. left. by split.
Qed.

Lemma MapPageGroup_run other pt addr n g state perm ok :
  pt_inv other pt → table_range pt addr n → 0 < addr → dram_group g → Z.of_nat (length (group_pages g)) = n →
  heap_group pt g → can_open (pt_mm pt) (group_pages g) →
  0 ≤ state < 2 ^ 32 → state ≠ KMemoryState_Free →
  CanContain_state (pt_regions pt) addr (n * PageSize) state = Done true ok →
  wp (MapPageGroup pt addr g state perm) (λ '(r, pt'),
    (r = ResultInvalidCurrentMemory ∧ pt' = pt ∧
     (ok = false ∨ ¬ uniform (blocks pt) addr n free_test DefaultMemoryIgnoreAttr)) ∨
    (ok = true ∧ uniform (blocks pt) addr n free_test DefaultMemoryIgnoreAttr ∧
     (out_of_blocks pt (list_cuts addr (addr + n * PageSize) (tree_of pt)) r pt' ∨
      (r = ResultSuccess ∧ request_done other pt addr n (set_props state perm KMemoryAttribute_None)
         (group_mapped pt (addr / PageSize) g) pt')))).
Proof.
  intros Hi Hr Hz Hg Hl Hh Hc Hst Hf Hok. pose proof (pi_table _ _ Hi) as Hk.
  pose proof (table_range_bounds _ _ _ Hk Hr) as (_ & _ & ? & _).
  destruct (range_size _ _ _ Hk Hr) as (E1 & _). unfold MapPageGroup.
  rewrite GetNumPages_pages, Hl, E1, Hok, bind_Done_true by (apply Hg || lia).
  destruct ok; cbn [negb]; [|apply wp_ret; left; split_and!; [done..|by left]].
  fold free_test. apply wp_bind. eapply wp_mono; [by apply CheckMemoryState_run, table_range_ok|].
  intros [r c] [[-> Hc']|[-> Hc']].
  2: { apply wp_ret. left. split_and!; [done..|]. right. intros Hu. by apply Hc', uniform_checked. }
  change (Result_IsSuccess ResultSuccess) with true. cbn [negb].
  pose proof (checked_uniform _ _ _ _ _ _ Hc') as Hu.
  pose proof (free_test_no_ipc pt addr n _ Hk (proj1 Hr) Hu) as Hn.
  destruct (checked_cuts _ _ _ _ _ _ Hk Hc') as (k & -> & Ek & Hk2). rewrite <- Ek.
  eapply wp_mono; [apply (map_update_run other pt addr n k state perm _ _
    (λ pt, MapPageGroupImpl pt addr g _ false)); [done..|rewrite Ek; lia|done|done| |intros s; by apply (group_step other pt addr n)]|].
  - intros q Hq. eapply (free_differs _ addr n DefaultMemoryIgnoreAttr); try done; apply Hr.
  - intros [r pt'] [Ho|[[-> Ho]|[_ Ho]]]; [right; split_and!; [done..|by left]|right; split_and!; [done..|by right]|].
    destruct (rf_mapping _ _ _ _ Ho).
Qed.
End Groups.
