(* ===== verification/PageTableLocks.v ===== *)
(** Lemmas about page groups that are compared with mapped memory, and about
    memory that is locked. *)

From S2P Require Import Prelude Common MemoryBlock OrderedTree MemoryBlockManager MemoryBlockManagerLemmas MemoryBlockManagerUpdate MemoryBlockManagerTheorems PageBitmap PageBitmapLemmas PageBitmapTheorems PageHeap PageHeapLemmas PageHeapTheorems MemoryRegionType MemoryRegion MemoryLayout MemoryRegionTheorems PageGroup MemoryManager PageGroupTheorems MemoryManagerLemmas MemoryManagerPages MemoryManagerAllocate MemoryManagerOperations ResourceLimit ResourceLimitTheorems PageTable PageTableOperations PageTableCheck PageTablePermission PageTableTranslation PageTableOperate PageTableHeap PageTableRequests PageTableRequestLemmas.

(** * Page groups that are the memory of a range

    [IsValidPageGroup] compares runs of physical pages with the blocks of a group.
    A group that was made by adding blocks has no two blocks that could be one, so
    its blocks are the runs. *)
Section Valid.
Context {R : Type} `{Rng R} {S : Type} `{SlabExact S}.
Implicit Types (pt : KPageTableBase R S) (g : KPageGroup) (t : PageTable).

Local Abbreviation layout pt := (m_memory_layout (pt_mm pt)).

(** The first blocks of the group are the memory of the range. *)
Definition valid_group pt (v n : Z) g : Prop := ∃ g1 g2, g = g1 ++ g2 ∧ group_made pt v n g1.

Lemma separate_app g1 b c g2 : separate (g1 ++ b :: c :: g2) → bi_page_index b + bi_num_pages b ≠ bi_page_index c.
Proof. induction g1 as [|d g1 IH]; [by intros [? _]|]. destruct g1 as [|e g1]; intros [_ Hs]; by apply IH. Qed.

Lemma group_pages_nonempty b g : block_ok b → 0 < Z.of_nat (length (group_pages (b :: g))).
Proof. intros (? & ? & ?). rewrite group_pages_cons, length_app. pose proof (length_block_pages b). lia. Qed.

Lemma block_lookup b i : 0 ≤ i < bi_num_pages b → block_pages b !! Z.to_nat i = Some (bi_page_index b + i).
Proof. intros. apply lookup_seqZ. lia. Qed.

(** The next block of a valid group starts with the next run and is not shorter. *)
Lemma valid_next pt v n g g1 rest a k : group_wf g → valid_group pt v n g → g = g1 ++ rest → 0 < k →
  translated (m_impl pt) v (group_pages g1 ++ seqZ a k) → Z.of_nat (length (group_pages g1)) + k ≤ n →
  ∃ b g2, rest = b :: g2 ∧ bi_page_index b = a ∧ k ≤ bi_num_pages b ∧
    translated (m_impl pt) v (group_pages g1 ++ block_pages b) ∧
    Z.of_nat (length (group_pages g1)) + bi_num_pages b ≤ n.
Proof.
  intros [Hb Hs] (h1 & h2 & E & Ht & Hl & _) E1 Hk Hw Hn. subst n.
  assert (∃ x, h1 = g1 ++ x ∧ rest = x ++ h2) as (x & -> & ->).
  { rewrite E1 in E. apply app_eq_inv in E as [(x & E2 & E3)|(x & -> & ->)]; [|by exists x].
    exfalso. rewrite E2, group_pages_app, length_app in Hn. lia. }
  rewrite group_pages_app in Ht, Hn. rewrite length_app in Hn.
  destruct x as [|b x]; [simpl in Hn; lia|]. exists b, (x ++ h2). split; [done|].
  rewrite E1, !Forall_app in Hb. destruct Hb as (_ & Hb & _). apply Forall_cons in Hb as [Hb Hx].
  pose proof Hb as (? & ? & ?). pose proof (length_block_pages b ltac:(lia)) as Hlb.
  rewrite group_pages_cons, length_app in Hn. rewrite group_pages_cons in Ht.
  assert (Hat : ∀ i q, 0 ≤ i < k → (block_pages b ++ group_pages x) !! Z.to_nat i = Some q → q = a + i).
  { intros i q Hi Hq. pose proof (translated_lookup _ _ _ (length (group_pages g1) + Z.to_nat i) q Ht) as T1.
    pose proof (translated_lookup _ _ _ (length (group_pages g1) + Z.to_nat i) (a + i) Hw) as T2.
    rewrite !lookup_app_r in T1, T2 by lia. replace (_ + _ - _)%nat with (Z.to_nat i) in T1, T2 by lia.
    assert (Some q = Some (a + i)) as [= ->]; [|done].
    rewrite <- T1 by done. rewrite <- T2; [done|]. apply lookup_seqZ. lia. }
  assert (Ea : bi_page_index b = a).
  { rewrite <- (Z.add_0_r a). apply (Hat 0); [lia|]. rewrite lookup_app_l by lia.
    rewrite block_lookup by lia. by rewrite Z.add_0_r. }
  split; [done|]. split.
  - destruct (decide (k ≤ bi_num_pages b)) as [|Hlt]; [done|exfalso].
    destruct x as [|c x]; [simpl in Hn; lia|]. apply Forall_cons in Hx as [Hc _]. pose proof Hc as (? & ? & ?).
    pose proof (length_block_pages c ltac:(lia)) as Hlc.
    eapply (separate_app g1 b c (x ++ h2)); [by rewrite E1 in Hs; simpl in Hs|].
    rewrite Ea. symmetry. apply (Hat (bi_num_pages b)); [lia|].
    rewrite lookup_app_r, group_pages_cons, lookup_app_l by lia.
    replace (_ - _)%nat with (Z.to_nat 0) by lia. rewrite block_lookup by lia. by rewrite Z.add_0_r.
  - split; [|rewrite group_pages_app, length_app, group_pages_cons, length_app; lia].
    rewrite app_assoc in Ht. by eapply translated_app_l.
Qed.
(** A walk over [i] pages: the pages of the runs that are complete, then a run of
    [k] pages from [a] on. *)
Record run_walk t (v : Z) (L : list Z) (i a k : Z) : Prop := {
  rw_run : 0 < k;
  rw_pages : translated t v (L ++ seqZ a k);
  rw_length : Z.of_nat (length L) + k = i;
  rw_low : 0 < a;
  rw_high : a + k < 2 ^ 32
}.

Definition cursor_of (rest : KPageGroup) : option GroupCursor :=
  match rest with
  | [] => None
  | b :: g2 => Some (MkCursor (KBlockInfo_GetAddress b) (KBlockInfo_GetNumPages b) g2)
  end.

Section Walk.
Context (pt0 : KPageTableBase R S) (v n : Z) (g : KPageGroup).
Hypotheses (Hps : page_size (m_impl pt0) = PageSize) (Hok : entries_ok (m_impl pt0))
           (Hes : entries_size (m_impl pt0) ≤ 2 ^ 40) (Hv : 0 ≤ v)
           (Hn : v + n ≤ entries_size (m_impl pt0)) (Hg : group_wf g).

(** The runs before are the blocks before the cursor; or a run was shorter than
    its block, and the group is not valid. *)
Definition cursor_good (L : list Z) (a : Z) (c : GroupCursor) : Prop :=
  ∃ g1 rest, g = g1 ++ rest ∧ group_pages g1 = L ∧ UpdateCurrentIterator c = cursor_of rest ∧
    runs_in_heap (layout pt0) L ∧ last L ≠ Some (a - 1).
Definition cursor_bad (a : Z) (c : GroupCursor) : Prop :=
  ¬ valid_group pt0 v n g ∧ gc_pages c ≠ 0 ∧ gc_address c ≠ a * PageSize.

Lemma not_heap_invalid L i a k c : run_walk (m_impl pt0) v L i a k → i ≤ n →
  cursor_good L a c ∨ cursor_bad a c → heap_address (layout pt0) (a * PageSize) = false →
  ¬ valid_group pt0 v n g.
Proof.
  intros Hw Hi [(g1 & rest & E & EL & _ & _ & Hlast)|[? _]] Hh; [|done]. intros Hval.
  destruct Hw as [? Hp ? ? ?]. pose proof Hval as (h1 & h2 & _ & Ht & Hl & Hr).
  assert (Hat : ∀ j q, (L ++ seqZ a k) !! j = Some q → group_pages h1 !! j = Some q).
  { intros j q Hj. pose proof (lookup_lt_Some _ _ _ Hj) as Hlt. rewrite length_app, length_seqZ in Hlt.
    destruct (lookup_lt_is_Some_2 (group_pages h1) j) as [q' Hq']; [lia|]. rewrite Hq'. f_equal.
    pose proof (translated_lookup _ _ _ _ _ Ht Hq') as T1. pose proof (translated_lookup _ _ _ _ _ Hp Hj) as T2. congruence. }
  assert (Ha : heap_address (layout pt0) (a * PageSize) = true); [|congruence].
  apply (Hr (length L) a).
  - apply Hat. rewrite lookup_app_r, Nat.sub_diag by lia. apply lookup_seqZ. lia.
  - intros j Ej Hj. apply Hlast. rewrite last_lookup, Ej. cbn [pred].
    destruct (lookup_lt_is_Some_2 L j) as [q Hq]; [lia|]. rewrite Hq. f_equal.
    pose proof (Hat j q (lookup_app_l_Some _ _ _ _ Hq)). congruence.
Qed.

(** The comparison of a run that is complete with the block of the cursor. *)
Lemma run_compared L i a k c p : run_walk (m_impl pt0) v L i a k → i < n →
  cursor_good L a c ∨ cursor_bad a c → heap_address (layout pt0) (a * PageSize) = true →
  translate (m_impl pt0) (v + i) = Some p → p ≠ a + k →
  match UpdateCurrentIterator c with
  | None => ¬ valid_group pt0 v n g
  | Some c =>
      if negb (gc_address c =? a * PageSize) || (gc_pages c <? k) then ¬ valid_group pt0 v n g
      else let c' := MkCursor (u64 (gc_address c + k * PageSize)) (u64 (gc_pages c - k)) (gc_rest c) in
           cursor_good (L ++ seqZ a k) p c' ∨ cursor_bad p c'
  end.
Proof.
  pose proof PageSize_eq as Eps.
  intros Hw Hi [(g1 & rest & E & EL & Ec & Hr & Hlast)|(Hbad & Hz & Ha)] Hh Hp Hne.
  2: { unfold UpdateCurrentIterator. rewrite (proj2 (Z.eqb_neq _ 0)) by done.
       by rewrite (proj2 (Z.eqb_neq _ (a * PageSize))). }
  pose proof Hw as [? Ht ? ? ?].
  assert (Hnext : valid_group pt0 v n g → ∃ b g2, rest = b :: g2 ∧ bi_page_index b = a ∧ k ≤ bi_num_pages b ∧
    translated (m_impl pt0) v (L ++ block_pages b) ∧ Z.of_nat (length L) + bi_num_pages b ≤ n).
  { intros Hval. subst L. apply (valid_next pt0 v n g); try done. lia. }
  rewrite Ec. destruct rest as [|b g2]; cbn [cursor_of].
  { intros Hval. destruct (Hnext Hval) as (? & ? & ? & _). done. }
  assert (Hb : block_ok b). { destruct Hg as [Hb _]. rewrite E in Hb. apply Forall_app in Hb as [_ Hb]. by apply Forall_cons in Hb as [? _]. }
  destruct (block_address b Hb) as (Eb & _). pose proof Hb as (? & ? & ?). cbn [gc_address gc_pages gc_rest].
  rewrite Eb. unfold KBlockInfo_GetNumPages. destruct (negb _ || _) eqn:Etest.
  { intros Hval. destruct (Hnext Hval) as (b' & g' & [= <- <-] & Ea & Hk & _).
    rewrite Ea, Z.eqb_refl in Etest. cbn [negb orb] in Etest. bool_prop. lia. }
  apply orb_false_iff in Etest as [E1 E2]. apply negb_false_iff in E1. bool_prop.
  assert (Ea : bi_page_index b = a) by lia. cbv zeta. rewrite Ea, !u64_id by (unfold is_u64; lia).
  destruct (decide (bi_num_pages b = k)) as [Ek|Hk]; [left|right].
  - exists (g1 ++ [b]), g2. split; [by rewrite <- app_assoc|]. split.
    { rewrite group_pages_app, EL. f_equal. unfold group_pages. simpl. rewrite app_nil_r. unfold block_pages. by rewrite Ea, Ek. }
    split; [unfold UpdateCurrentIterator; cbn [gc_pages gc_rest]; by rewrite Ek, Z.sub_diag|].
    split; [by apply runs_in_heap_app|]. rewrite last_app.
    assert (last (seqZ a k) = Some (a + (k - 1))) as ->; [|intros [= ?]; lia].
    rewrite last_lookup, length_seqZ. apply lookup_seqZ. lia.
  - split; [|cbn [gc_pages gc_address]; split; [lia|nia]]. intros Hval.
    destruct (Hnext Hval) as (b' & g' & [= <- <-] & _ & _ & Htb & _).
    pose proof (translated_lookup _ _ _ (length L + Z.to_nat k) (a + k) Htb) as T.
    rewrite lookup_app_r in T by lia. replace (_ + _ - _)%nat with (Z.to_nat k) in T by lia.
    rewrite <- Ea in T at 1. rewrite block_lookup in T by lia. replace (v + Z.of_nat _) with (v + i) in T by lia.
    rewrite Hp, Ea in T. specialize (T eq_refl). congruence.
Qed.

Lemma valid_group_loop_run fuel : ∀ pt c L i a k,
  i ≤ n ≤ i + Z.of_nat fuel → (∃ cc, pt = with_cached cc pt0) → heap_ok pt →
  run_walk (m_impl pt0) v L i a k → cursor_good L a c ∨ cursor_bad a c →
  wp (valid_group_loop fuel pt c (MkTraversalContext (v + i) ((v + i) * PageSize))
        (MkWalk (a * PageSize) (k * PageSize) (i * PageSize)) (n * PageSize)) (λ '(res, pt'),
    (∃ cc, pt' = with_cached cc pt0) ∧ heap_ok pt' ∧
    match res with
    | None => ¬ valid_group pt0 v n g
    | Some (c', w) => ∃ L' a' k', w = MkWalk (a' * PageSize) (k' * PageSize) (n * PageSize) ∧
        run_walk (m_impl pt0) v L' n a' k' ∧ (cursor_good L' a' c' ∨ cursor_bad a' c')
    end).
Proof.
  pose proof PageSize_eq as Eps.
  induction fuel as [|fuel IH]; intros pt c L i a k Hf Hc Hh Hw Hcur; cbn [valid_group_loop]; cbn [wk_total];
    (destruct (decide (i = n)) as [->|Hne];
     [rewrite Z.ltb_irrefl; apply wp_ret; split; [done|]; split; [done|]; by exists L, a, k|]); [lia|].
  rewrite (proj2 (Z.ltb_lt _ _)) by lia. pose proof Hw as [? Hp ? ? ?]. destruct Hc as [cc ->].
  cbn [with_cached m_impl]. rewrite (Continue_run _ Hps Hok Hes) by lia.
  destruct (translate _ (v + i)) as [p|] eqn:Et.
  2: { cbn [negb]. apply wp_ret. split; [by exists cc|]. split; [done|].
       intros (h1 & h2 & _ & Ht & Hl & _). destruct (lookup_lt_is_Some_2 (group_pages h1) (Z.to_nat i)) as [q Hq]; [lia|].
       pose proof (translated_lookup _ _ _ _ _ Ht Hq) as T. replace (v + Z.of_nat _) with (v + i) in T by lia. congruence. }
  pose proof (translate_range _ Hok (v + i) p ltac:(lia) Et).
  cbn [negb te_phys_addr te_block_size wk_addr wk_size wk_total].
  rewrite (u64_id (a * _ + _)), (u64_id (i * _ + _)) by (unfold is_u64; lia).
  replace (i * PageSize + PageSize) with ((i + 1) * PageSize) by lia.
  replace (v + i + 1) with (v + (i + 1)) by lia.
  assert (Hlen : Z.of_nat (length (L ++ seqZ a k)) = i) by (rewrite length_app, length_seqZ; lia).
  destruct (_ =? _) eqn:E; bool_prop; cbn [negb].
  - rewrite (u64_id (k * _ + _)) by (unfold is_u64; lia).
    replace (k * PageSize + PageSize) with ((k + 1) * PageSize) by lia.
    apply (IH _ _ L); [lia|by exists cc|done| |done]. assert (p = a + k) as -> by lia.
    split; [lia| |lia|lia|lia]. rewrite seqZ_app, app_assoc by lia. apply translated_snoc; [done|]. by rewrite Hlen.
  - rewrite Z.div_mul by lia.
    destruct (pt_IsHeap_run _ (a * PageSize) Hh) as (c2 & -> & Hh'). rewrite bind_Done_true.
    cbn [with_cached pt_mm] in *. destruct (heap_address _ _) eqn:Eh; cbn [negb].
    2: { apply wp_ret. split; [by exists c2|]. split; [done|]. eapply not_heap_invalid; [exact Hw|lia|exact Hcur|exact Eh]. }
    pose proof (run_compared L i a k c p Hw ltac:(lia) Hcur Eh Et ltac:(lia)) as Hcmp.
    destruct (UpdateCurrentIterator c) as [c'|]; [|apply wp_ret; split; [by exists c2|done]].
    destruct (_ || _); [apply wp_ret; split; [by exists c2|done]|].
    replace (MkWalk (p * PageSize) PageSize _) with (MkWalk (p * PageSize) (1 * PageSize) ((i + 1) * PageSize))
      by (f_equal; lia).
    apply (IH _ _ (L ++ seqZ a k)); [lia|by exists c2|done| |done].
    split; [lia| |lia|lia|lia]. apply translated_snoc; [done|]. by rewrite Hlen.
Qed.

(** The comparison at the end of the range. *)
Lemma last_compared L a k c : run_walk (m_impl pt0) v L n a k → cursor_good L a c ∨ cursor_bad a c →
  heap_address (layout pt0) (a * PageSize) = true →
  match UpdateCurrentIterator c with
  | None => ¬ valid_group pt0 v n g
  | Some c => (gc_address c =? a * PageSize) && (gc_pages c =? k) = true ↔ valid_group pt0 v n g
  end.
Proof.
  pose proof PageSize_eq as Eps.
  intros Hw [(g1 & rest & E & EL & Ec & Hr & Hlast)|(Hbad & Hz & Ha)] Hh.
  2: { unfold UpdateCurrentIterator. rewrite (proj2 (Z.eqb_neq _ 0)) by done.
       rewrite (proj2 (Z.eqb_neq _ (a * PageSize))) by done. done. }
  pose proof Hw as [? Ht ? ? ?].
  assert (Hnext : valid_group pt0 v n g → ∃ b g2, rest = b :: g2 ∧ bi_page_index b = a ∧ k ≤ bi_num_pages b ∧
    translated (m_impl pt0) v (L ++ block_pages b) ∧ Z.of_nat (length L) + bi_num_pages b ≤ n).
  { intros Hval. subst L. apply (valid_next pt0 v n g); try done. lia. }
  rewrite Ec. destruct rest as [|b g2]; cbn [cursor_of].
  { intros Hval. destruct (Hnext Hval) as (? & ? & ? & _). done. }
  assert (Hb : block_ok b). { destruct Hg as [Hb _]. rewrite E in Hb. apply Forall_app in Hb as [_ Hb]. by apply Forall_cons in Hb as [? _]. }
  destruct (block_address b Hb) as (Eb & _). cbn [gc_address gc_pages]. rewrite Eb. unfold KBlockInfo_GetNumPages.
  rewrite andb_true_iff, !Z.eqb_eq. split.
  - intros [Ea Ek]. assert (bi_page_index b = a) by lia. subst a k.
    exists (g1 ++ [b]), g2. split; [by rewrite <- app_assoc|].
    assert (Ep : group_pages (g1 ++ [b]) = L ++ block_pages b).
    { rewrite group_pages_app, EL. f_equal. unfold group_pages. simpl. by rewrite app_nil_r. }
    unfold group_made. rewrite Ep. split; [done|]. split; [|by apply runs_in_heap_app].
    rewrite length_app. pose proof (length_block_pages b ltac:(lia)). lia.
  - intros Hval. destruct (Hnext Hval) as (b' & g' & [= <- <-] & -> & ? & _ & ?). split; [done|lia].
Qed.
End Walk.

Lemma IsValidPageGroup_run pt g addr n :
  table_ok pt → entries_ok (m_impl pt) → heap_ok pt → table_range pt addr n → group_wf g →
  wp (IsValidPageGroup pt g addr n) (λ '(b, pt'), (∃ cc, pt' = with_cached cc pt) ∧ heap_ok pt' ∧
    (b = true ↔ valid_group pt (addr / PageSize) n g)).
Proof.
  intros Hk Hok Hh Hr Hg. destruct (range_size _ _ _ Hk Hr) as (E1 & _). pose proof PageSize_eq as Eps.
  destruct (range_pages _ _ _ Hk Hr) as (Ea & Hv & Hn & Hvn & Hs). set (v := addr / PageSize) in *.
  pose proof (tk_page_size _ Hk) as Hps.
  assert (Hid : ∃ cc, pt = with_cached cc pt) by (exists (m_cached_physical_heap_region pt); by destruct pt).
  unfold IsValidPageGroup. rewrite E1. destruct g as [|b rest].
  { apply wp_ret. split; [done|]. split; [done|]. split; [done|].
    intros (g1 & g2 & E & _ & Hl & _). apply eq_sym, app_nil in E as [-> _]. simpl in Hl. lia. }
  set (g := b :: rest) in *. rewrite Ea, (Begin_run _ Hps) by done. rewrite (Continue_run _ Hps Hok Hs) by lia.
  destruct (translate _ v) as [p|] eqn:Et.
  2: { cbn [negb]. apply wp_ret. split; [done|]. split; [done|]. split; [done|].
       intros (g1 & g2 & _ & Ht & Hl & _). destruct (lookup_lt_is_Some_2 (group_pages g1) 0) as [q Hq]; [lia|].
       pose proof (translated_lookup _ _ _ _ _ Ht Hq) as T. rewrite Z.add_0_r in T. congruence. }
  pose proof (translate_range _ Hok v p Hv Et). cbn [negb]. rewrite walk_start_page by lia. apply wp_bind.
  eapply wp_mono.
  { apply (valid_group_loop_run pt v n g Hps Hok Hs Hv Hvn Hg _ pt _ [] 1 p 1); [lia|done|done| |].
    - split; [lia| |simpl; lia|lia|lia]. apply translated_spec. intros i q Hi. simpl in Hi.
      apply lookup_seqZ in Hi as [-> Hi]. replace (Z.of_nat i) with 0 by lia. by rewrite !Z.add_0_r.
    - left. exists [], g. split; [done|]. split; [done|]. split; [|split; [|done]].
      + unfold UpdateCurrentIterator. cbn [gc_pages cursor_of g].
        destruct Hg as [Hb _]. apply Forall_cons in Hb as [(? & ? & ?) _]. unfold KBlockInfo_GetNumPages.
        by rewrite (proj2 (Z.eqb_neq _ 0)) by lia.
      + intros i q Hi. by rewrite lookup_nil in Hi. }
  intros [[[c w]|] pt'] ([cc ->] & Hh' & Hres).
  2: { apply wp_ret. split; [by exists cc|]. by split. }
  destruct Hres as (L & a & k & -> & Hw & Hcur). cbn [wk_addr].
  destruct (pt_IsHeap_run _ (a * PageSize) Hh') as (c2 & -> & Hh2). rewrite bind_Done_true. cbn [with_cached pt_mm].
  destruct (heap_address _ _) eqn:Eh; cbn [negb].
  2: { apply wp_ret. split; [by exists c2|]. split; [done|]. split; [done|]. intros Hval. exfalso.
       eapply (not_heap_invalid pt v n g); [exact Hw|lia|exact Hcur|exact Eh|done]. }
  pose proof (last_compared pt v n g Hg L a k c Hw Hcur Eh) as Hlast. unfold last_run. cbn [wk_total wk_size].
  rewrite Z.ltb_irrefl, Z.div_mul by lia.
  destruct (UpdateCurrentIterator c) as [c'|]; apply wp_ret; (split; [by exists c2|]); (split; [done|]); done.
Qed.
End Valid.

(** * Locked memory *)
Section Locked.
Context {R : Type} `{RngLaws R} {S : Type} `{SlabExact S}.
Implicit Types (pt : KPageTableBase R S) (g : KPageGroup) (other : Z → Z) (mm : KMemoryManager R)
               (t : PageTable).

Local Abbreviation blocks := m_memory_block_manager.

(** The permission and the attribute are replaced, the state stays. *)
Definition relock (perm attr : Z) (q : PageProps) : PageProps := set_props (pp_state q) perm attr q.

(** References of a group that is opened. *)
Lemma counted_group other t mm mm' L : counted other t mm → mm_counted 1 L mm mm' →
  counted (plus_group other L) t mm'.
Proof.
  intros Hc M p vs Hp Hnd Hvs.
  assert (Hp0 : in_mm mm p) by (by apply (same_mm_in _ _ p (mc_same _ _ _ _ M))).
  pose proof (Hc p vs Hp0 Hnd Hvs) as Hl. unfold plus_group. rewrite (mc_ref _ _ _ _ M p Hp0). lia.
Qed.

Lemma pt_inv_group other pt mm L : pt_inv other pt → mm_counted 1 L (pt_mm pt) mm →
  pt_inv (plus_group other L) (with_mm mm pt).
Proof.
  intros Hi M.
  assert (pt_inv (plus_group other L) (with_mm mm (with_infos (m_block_info_manager pt) pt))) as Hi'; [|by destruct pt].
  eapply pt_inv_mm; [done|apply M|apply M| |by eapply counted_group; [apply Hi|]].
  intros p. unfold plus_group. pose proof (times_nonneg p L). pose proof (pi_other _ _ Hi p). lia.
Qed.

Lemma pt_inv_infos other pt pt' : pt_inv other pt → only_infos pt pt' → heap_ok pt' → pt_inv other pt'.
Proof. intros [[] ? ? ? ? ?] (c & s & ->) Hh. by split. Qed.

(** Changing the permission and the attribute of a range, with the references of a
    group opened at the end. *)
Lemma relock_run other pt addr n k st old pm at' dset dclear p g :
  pt_inv other pt → table_range pt addr n →
  (list_cuts addr (addr + n * PageSize) (tree_of pt) ≤ k ≤ 2)%nat → 0 ≤ st < 2 ^ 32 →
  0 ≤ at' < 2 ^ 8 → Z.land at' lock_mask = 0 → no_ipc (blocks pt) addr n →
  (∀ q, pages (blocks pt) addr = Some q → differs st pm at' q) →
  Forall block_ok g → can_open (pt_mm pt) (group_pages g) →
  wp (with_allocator pt (Z.of_nat k) (λ a pt,
      '(r, pt) ← (if negb (pm =? old) then Operate pt addr n 0 false p Op_ChangePermissions
                  else mret (ResultSuccess, pt));
      if negb (Result_IsSuccess r) then mret (r, a, pt)
      else
        '(a, pt) ← update_blocks a pt addr n st pm at' dset dclear;
        mm ← KPageGroup_Open (pt_mm pt) g;
        mret (ResultSuccess, a, with_mm mm pt)))
    (λ '(r, pt'), out_of_blocks pt k r pt' ∨
      (r = ResultSuccess ∧ request_done (plus_group other (group_pages g)) pt addr n (set_props st pm at')
         (λ t mm, t = m_impl pt ∧ mm_counted 1 (group_pages g) (pt_mm pt) mm) pt')).
Proof.
  intros Hi Hr Hk Hst Hb Ha Hn Hd Hg Hop. eapply wp_mono.
  - apply (with_allocator_run pt k _ (λ r l pt', r = ResultSuccess ∧ ∃ m s mm,
      pt' = with_mm mm (with_block_slab s (with_blocks m pt)) ∧ table_ok pt' ∧
      mm_counted 1 (group_pages g) (pt_mm pt) mm ∧
      range_updated addr (addr + n * PageSize) (set_props st pm at') (blocks pt) m ∧
      (l + length (m_memory_block_tree m) = slab_of pt + length (tree_of pt))%nat)); [lia|].
    intros s Hs. pose proof (pt_inv_slab other pt s Hi) as Hi1.
    match goal with |- wp (?e ≫= _) _ => assert (e = Done true (ResultSuccess, with_block_slab s pt)) as -> end.
    { destruct (negb _); [|done]. apply Operate_permissions; [apply Hi1|done|set_solver]. }
    rewrite bind_Done_true. change (Result_IsSuccess ResultSuccess) with true. cbn [negb]. apply wp_bind.
    eapply wp_mono; [apply (update_blocks_run _ addr n k s); try done; apply Hi1|].
    intros [a pt2] [Hal Es Hok (m & s2 & ->) Hu Hl]. apply wp_bind.
    eapply wp_mono; [apply Group_Open_run; [done|apply Hi|done]|]. intros mm M. apply wp_ret.
    split; [done|]. split; [done|]. split; [done|]. exists m, s2, mm. split; [done|].
    split; [by destruct Hok|]. split; [done|]. split; [done|].
    rewrite <- Hs. unfold tree_of in *. simpl in *. lia.
  - intros [r pt'] [?|(pt1 & l & s & (-> & m & s2 & mm & -> & Hok & M & Hu & Hl) & Hs & ->)]; [by left|].
    right. split; [done|].
    split; [| |done|done| |done].
    + apply (pt_inv_slab _ _ s). apply pt_inv_group; [|exact M].
      eapply pt_inv_blocks; [exact Hi| |by exists m, s2]. by destruct Hok.
    + exists (m_impl pt), mm, (m_block_info_manager pt), (m_cached_physical_heap_region pt), m, s. by destruct pt.
    + unfold slab_of, tree_of in *. simpl in *. lia.
Qed.
(** Pages that pass the test of a lock have no attribute. *)
Lemma passes_no_attr tst q : page_ok q → passes tst q → mt_attr_mask tst = KMemoryAttribute_All →
  pp_attribute q = mt_attr tst.
Proof.
  intros (_ & Hq & _) (_ & _ & Ha) E. rewrite E in Ha. rewrite <- Ha.
  change KMemoryAttribute_All with (Z.ones 8). by rewrite Z.land_ones, Z.mod_small by lia.
Qed.

(** What a check with all attributes in the mask found. *)
Lemma checked_attrs pt addr n tst ig c : table_ok pt → 0 < n → checked (blocks pt) addr n tst ig c →
  mt_attr_mask tst = KMemoryAttribute_All →
  ck_attr c = Z.land (mt_attr tst) (u8 (Z.lnot ig)) ∧ 0 ≤ ck_state c < 2 ^ 32 ∧
  ∀ x q, addr ≤ x < addr + n * PageSize → pages (blocks pt) x = Some q →
    pp_state q = ck_state c ∧ pp_permission q = ck_perm c ∧ pp_attribute q = mt_attr tst.
Proof.
  intros Hk Hn [(q & Hq & Es & Ep & Ea & Hall) _] Em.
  assert (Hx : addr ≤ addr < addr + n * PageSize) by (rewrite PageSize_eq; lia).
  pose proof (tk_pages _ Hk _ _ Hq) as Hqk. split; [|split].
  - destruct (Hall addr Hx) as (q1 & Hq1 & _ & Hp). rewrite Hq in Hq1. injection Hq1 as <-.
    by rewrite Ea, (passes_no_attr tst q).
  - rewrite Es. apply Hqk.
  - intros x q' Hx' Hq'. destruct (Hall x Hx') as (q1 & Hq1 & (A1 & A2 & _) & Hp). rewrite Hq' in Hq1. injection Hq1 as <-.
    split; [congruence|]. split; [congruence|]. apply (passes_no_attr tst); [by eapply tk_pages|done|done].
Qed.

(** The new permission of a lock: the old one, unless another is asked for. *)
Definition lock_perm (perm old : Z) : Z := if negb (perm =? KMemoryPermission_None) then perm else old.

(** The pages of a range, if they are mapped, can have another reference. *)
Definition openable pt (v n : Z) : Prop :=
  ∀ ps, translated (m_impl pt) v ps → Z.of_nat (length ps) = n → can_open (pt_mm pt) ps.

(** Memory that is locked, and the group that holds its pages. *)
Record memory_locked other pt (addr n perm : Z) g pt' : Prop := {
  ml_inv : pt_inv (plus_group other (group_pages g)) pt';
  ml_only : only_request pt pt';
  ml_impl : m_impl pt' = m_impl pt;
  ml_group : group_made pt (addr / PageSize) n g;
  ml_refs : mm_counted 1 (group_pages g) (pt_mm pt) (pt_mm pt');
  ml_blocks : range_updated addr (addr + n * PageSize)
    (λ q, relock (lock_perm perm (pp_permission q)) KMemoryAttribute_Locked q) (blocks pt) (blocks pt');
  ml_count : (slab_of pt' + length (tree_of pt') = slab_of pt + length (tree_of pt))%nat;
  ml_infos : (infos_of pt' + length g = infos_of pt)%nat
}.

(** Only block infos went into the group. *)
Definition only_group pt g pt' : Prop := group_state pt [] pt' g ∧ pt_mm pt' = pt_mm pt ∧ blocks pt' = blocks pt.

Lemma LockMemoryAndOpen_run other pt addr n flag perm :
  pt_inv other pt → table_range pt addr n → openable pt (addr / PageSize) n →
  let tst := counted_test (lockable_test flag) in
  let uni := uniform (blocks pt) addr n tst DefaultMemoryIgnoreAttr in
  wp (LockMemoryAndOpen pt (Some []) false addr (n * PageSize) (lockable_test flag) perm KMemoryAttribute_Locked)
    (λ '(r, pt', og, pa), pa = None ∧ ∃ g, og = Some g ∧ group_wf g ∧
      ((r = ResultInvalidCurrentMemory ∧ pt' = pt ∧ g = [] ∧ ¬ uni) ∨
       (uni ∧
        ((group_failed pt (addr / PageSize) n r g ∧ group_state pt [] pt' g) ∨
         (∃ pt1, group_state pt [] pt1 g ∧
            out_of_blocks pt1 (list_cuts addr (addr + n * PageSize) (tree_of pt)) r pt') ∨
         (r = ResultSuccess ∧ memory_locked other pt addr n perm g pt'))))).
Proof.
  intros Hi Hr Hop tst uni. pose proof (pi_table _ _ Hi) as Hk.
  destruct (range_size _ _ _ Hk Hr) as (_ & _ & E3 & _). unfold LockMemoryAndOpen. rewrite E3.
  change (ASSERT (Z.land KMemoryAttribute_Locked (mt_attr (lockable_test flag)) =? 0)) with (Done true ()).
  change (ASSERT (Z.land KMemoryAttribute_Locked (Z.lor KMemoryAttribute_IpcLocked KMemoryAttribute_DeviceShared) =? 0))
    with (Done true ()). rewrite !bind_Done_true, (Contains_run _ _ _ Hk Hr). cbn [negb].
  change (ASSERT (KPageGroup_GetNumPages [] =? 0)) with (Done true ()). rewrite bind_Done_true. fold tst.
  apply wp_bind. eapply wp_mono; [by apply CheckMemoryState_run, table_range_ok|].
  intros [r c] [[-> Hc]|[-> Hc]].
  2: { apply wp_ret. split; [done|]. exists []. split; [done|]. split; [done|]. left. split_and!; [done..|].
       intros Hu. by apply Hc, uniform_checked. }
  change (Result_IsSuccess ResultSuccess) with true. cbn [negb]. rewrite bind_ret_l.
  pose proof (checked_uniform _ _ _ _ _ _ Hc) as Hu.
  pose proof (checked_no_ipc _ _ _ _ _ _ Hc eq_refl eq_refl) as Hn.
  destruct (checked_cuts _ _ _ _ _ _ Hk Hc) as (k & Eck & Ek & Hk2). rewrite Eck.
  destruct (checked_attrs _ _ _ _ _ _ Hk (proj1 Hr) Hc eq_refl) as (Eca & Hst & Hall).
  rewrite Eca. change (Z.land (mt_attr tst) _) with 0. rewrite Z.lor_0_l. rewrite bind_assoc.
  apply wp_bind. eapply wp_mono; [by apply MakePageGroup_run; try apply Hi|].
  intros [[r pt1] g] [Hgs Hout]. rewrite bind_ret_l. pose proof (gs_wf _ _ _ _ Hgs) as Hg.
  destruct Hout as [(-> & Hmade)|Hf].
  2: { assert (Result_IsSuccess r = false) as -> by (destruct Hf as (_ & _ & [[-> _]|[-> _]]); done). cbn [negb].
       apply wp_ret. split; [done|]. exists g. split; [done|]. split; [done|]. right. split; [done|]. by left. }
  change (Result_IsSuccess ResultSuccess) with true. cbn [negb].
  pose proof (pt_inv_infos other pt pt1 Hi (gs_only _ _ _ _ Hgs) (gs_heap _ _ _ _ Hgs)) as Hi1.
  pose proof (gs_infos _ _ _ _ Hgs) as Hinf.
  destruct (gs_only _ _ _ _ Hgs) as (cc & si & E1).
  assert (Hopen : can_open (pt_mm pt1) (group_pages g)).
  { rewrite E1. destruct Hmade as (Ht & Hl & _). by apply Hop. }
  apply wp_bind. fold (lock_perm perm (ck_perm c)).
  eapply wp_mono; [apply (relock_run other pt1 addr n k _ _ (lock_perm perm (ck_perm c)) KMemoryAttribute_Locked);
    [done|by rewrite E1|rewrite E1; subst k; split; [done|lia]|done|done|done|by rewrite E1| |apply Hg|done]|].
  { intros q Hq. right. right. rewrite E1 in Hq. cbn in Hq. destruct (Hall addr q) as (_ & _ & ->); [|done|].
    - rewrite PageSize_eq. destruct Hr. lia.
    - by vm_compute. }
  intros [r pt'] Hres. apply wp_ret. split; [done|]. exists g. split; [done|]. split; [done|]. right. split; [done|].
  right. destruct Hres as [Ho|(-> & [D1 D2 [D3 D4] D5 D6 D7])]; [left; exists pt1; by rewrite <- Ek|right].
  split; [done|]. split; [done| |by rewrite D3, E1|done|by rewrite E1 in D4| | |].
  - rewrite E1 in D2. destruct D2 as (t & mm & i & c' & m & s & ->). by exists t, mm, i, c', m, s.
  - rewrite E1 in D5. eapply range_updated_ext; [exact D5|]. intros x q Hx Hq.
    destruct (Hall x q Hx Hq) as (Eq1 & Eq2 & _). unfold relock. by rewrite Eq1, Eq2.
  - rewrite E1 in D6. exact D6.
  - rewrite D7. simpl in Hinf. lia.
Qed.
(** Memory that is unlocked. *)
Record memory_unlocked other pt (addr n : Z) pt' : Prop := {
  mu_inv : pt_inv other pt';
  mu_only : only_request pt pt';
  mu_impl : m_impl pt' = m_impl pt;
  mu_mm : pt_mm pt' = pt_mm pt;
  mu_blocks : range_updated addr (addr + n * PageSize)
    (relock KMemoryPermission_UserReadWrite KMemoryAttribute_None) (blocks pt) (blocks pt');
  mu_count : (slab_of pt' + length (tree_of pt') = slab_of pt + length (tree_of pt))%nat;
  mu_infos : infos_of pt' = infos_of pt
}.

Lemma pt_inv_cached other pt c : pt_inv other pt → heap_ok (with_cached c pt) → pt_inv other (with_cached c pt).
Proof. intros [[] ? ? ? ? ?] Hh. by split. Qed.

Lemma checked_locked pt addr n flag ig c : table_ok pt → 0 < n →
  checked (blocks pt) addr n (counted_test (locked_test flag)) ig c → no_ipc (blocks pt) addr n.
Proof.
  intros Hk Hn Hc x q Hx Hq. destruct (checked_attrs _ _ _ _ _ _ Hk Hn Hc eq_refl) as (_ & _ & Hall).
  destruct (Hall x q Hx Hq) as (_ & _ & ->). done.
Qed.

Lemma UnlockMemory_run other pt addr n flag g :
  pt_inv other pt → table_range pt addr n → group_wf g →
  let tst := counted_test (locked_test flag) in
  let uni := uniform (blocks pt) addr n tst DefaultMemoryIgnoreAttr in
  let valid := valid_group pt (addr / PageSize) n g in
  wp (UnlockMemory pt addr (n * PageSize) (locked_test flag) KMemoryPermission_UserReadWrite
        KMemoryAttribute_Locked (Some g)) (λ '(r, pt'),
    (r = ResultInvalidCurrentMemory ∧ pt' = pt ∧ ¬ uni) ∨
    (uni ∧ r = ResultInvalidMemoryRegion ∧ (∃ c, pt' = with_cached c pt ∧ heap_ok pt') ∧ ¬ valid) ∨
    (uni ∧ valid ∧
     ((∃ c, heap_ok (with_cached c pt) ∧
         out_of_blocks (with_cached c pt) (list_cuts addr (addr + n * PageSize) (tree_of pt)) r pt') ∨
      (r = ResultSuccess ∧ memory_unlocked other pt addr n pt')))).
Proof.
  intros Hi Hr Hg tst uni valid. pose proof (pi_table _ _ Hi) as Hk.
  destruct (range_size _ _ _ Hk Hr) as (_ & _ & E3 & _). unfold UnlockMemory. rewrite E3.
  change (ASSERT (Z.land (mt_attr_mask (locked_test flag)) KMemoryAttribute_Locked =? KMemoryAttribute_Locked))
    with (Done true ()).
  change (ASSERT (Z.land (mt_attr (locked_test flag)) KMemoryAttribute_Locked =? KMemoryAttribute_Locked))
    with (Done true ()). rewrite !bind_Done_true, (Contains_run _ _ _ Hk Hr). cbn [negb]. fold tst.
  apply wp_bind. eapply wp_mono; [by apply CheckMemoryState_run, table_range_ok|].
  intros [r c] [[-> Hc]|[-> Hc]].
  2: { apply wp_ret. left. split_and!; [done..|]. intros Hu. by apply Hc, uniform_checked. }
  change (Result_IsSuccess ResultSuccess) with true. cbn [negb].
  pose proof (checked_uniform _ _ _ _ _ _ Hc) as Hu. pose proof (checked_locked _ _ _ _ _ _ Hk (proj1 Hr) Hc) as Hn.
  destruct (checked_cuts _ _ _ _ _ _ Hk Hc) as (k & Eck & Ek & Hk2). rewrite Eck.
  destruct (checked_attrs _ _ _ _ _ _ Hk (proj1 Hr) Hc eq_refl) as (Eca & Hst & Hall).
  rewrite Eca. change (Z.land (Z.land (mt_attr tst) _) _) with KMemoryAttribute_None.
  apply wp_bind. eapply wp_mono; [by apply IsValidPageGroup_run; try apply Hi|].
  intros [b pt1] ([cc ->] & Hh & Hb). destruct b; cbn [negb].
  2: { apply wp_ret. right. left. split; [done|]. split; [done|]. split; [by exists cc|].
       intros Hv. by apply Hb in Hv. }
  pose proof (pt_inv_cached other pt cc Hi Hh) as Hi1.
  change (if negb (KMemoryPermission_UserReadWrite =? _) then _ else _) with KMemoryPermission_UserReadWrite.
  eapply wp_mono.
  - apply (with_allocator_step (with_cached cc pt) k addr n
      (set_props (ck_state c) KMemoryPermission_UserReadWrite KMemoryAttribute_None)); [done|]. intros s.
    pose proof (pt_inv_slab other _ s Hi1) as Hi2.
    match goal with |- wp (?e ≫= _) _ => assert (e = Done true (ResultSuccess, with_block_slab s (with_cached cc pt))) as -> end.
    { destruct (negb _); [|done]. apply Operate_permissions; [apply Hi2|done|set_solver]. }
    rewrite bind_Done_true. change (Result_IsSuccess ResultSuccess) with true. cbn [negb]. apply wp_bind.
    eapply wp_mono; [apply (update_blocks_run _ addr n k s); try done; [apply Hi2|subst k; split; [done|lia]|]|].
    + intros q Hq. right. right. cbn in Hq. destruct (Hall addr q) as (_ & _ & ->); [|done|by vm_compute].
      rewrite PageSize_eq. destruct Hr. lia.
    + intros [a pt2] Hsu. by apply wp_ret.
  - intros [r pt'] Hres. right. right. split; [done|]. split; [by apply Hb|].
    destruct Hres as [Ho|(-> & [B1 (m & s & ->) B3 B4])]; [left; exists cc; by rewrite <- Ek|right].
    split; [done|]. split; [|by exists (m_impl pt), (pt_mm pt), (m_block_info_manager pt), cc, m, s; destruct pt
      |done|done| |exact B4|done].
    + eapply pt_inv_blocks; [exact Hi1|exact B1|by exists m, s].
    + eapply range_updated_ext; [exact B3|]. intros x q Hx Hq. cbn in Hq.
      destruct (Hall x q Hx Hq) as (Eq1 & _). unfold relock. by rewrite Eq1.
Qed.

(** Locking and unlocking a page gives it back as it was. *)
Lemma relock_back perm q : page_ok q → pp_attribute q = KMemoryAttribute_None →
  pp_permission q = KMemoryPermission_UserReadWrite →
  relock KMemoryPermission_UserReadWrite KMemoryAttribute_None (relock perm KMemoryAttribute_Locked q) = q.
Proof. intros _ Ea Ep. destruct q; simpl in *. subst. done. Qed.
(** ** Unmapping a page group and holding the pages of a range *)
Lemma valid_group_all pt v n g : group_wf g → Z.of_nat (length (group_pages g)) = n → 0 < n →
  valid_group pt v n g ↔ group_made pt v n g.
Proof.
  intros Hg Hl Hn. split; [|intros Hm; exists g, []; by rewrite app_nil_r].
  intros (g1 & g2 & E & Hm). assert (g2 = []) as ->; [|by rewrite app_nil_r in E; subst].
  destruct g2 as [|b g2]; [done|exfalso]. destruct Hg as [Hb _]. rewrite E in Hb. apply Forall_app in Hb as [_ Hb].
  apply Forall_cons in Hb as [Hb _]. pose proof (group_pages_nonempty b g2 Hb). destruct Hm as (_ & Hm & _).
  rewrite E, group_pages_app, length_app in Hl. lia.
Qed.

Lemma only_request_cached pt c pt' : only_request (with_cached c pt) pt' → only_request pt pt'.
Proof. intros (t & mm & i & c' & m & s & ->). by exists t, mm, i, c', m, s. Qed.

Lemma UnmapPageGroup_run other pt addr n g state ok :
  pt_inv other pt → table_range pt addr n → group_wf g → Z.of_nat (length (group_pages g)) = n →
  state ≠ KMemoryState_Free → managed_range pt (addr / PageSize) n →
  CanContain_state (pt_regions pt) addr (n * PageSize) state = Done true ok →
  let uni := uniform (blocks pt) addr n (state_test state) DefaultMemoryIgnoreAttr in
  let made := group_made pt (addr / PageSize) n g in
  wp (UnmapPageGroup pt addr g state) (λ '(r, pt'),
    (r = ResultInvalidCurrentMemory ∧ (∃ c, pt' = with_cached c pt ∧ heap_ok pt') ∧ ¬ (ok = true ∧ uni ∧ made)) ∨
    (ok = true ∧ uni ∧ made ∧
     ((∃ c, heap_ok (with_cached c pt) ∧
         out_of_blocks (with_cached c pt) (list_cuts addr (addr + n * PageSize) (tree_of pt)) r pt') ∨
      (r = ResultSuccess ∧ request_done other pt addr n freed_props
         (λ t mm, ∃ ps, pages_closed pt (addr / PageSize) n ps t mm) pt')))).
Proof.
  intros Hi Hr Hg Hl Hf Hm Hok uni made. pose proof (pi_table _ _ Hi) as Hk.
  pose proof (table_range_bounds _ _ _ Hk Hr) as (_ & _ & ? & _).
  assert (Hid : ∃ c, pt = with_cached c pt ∧ heap_ok pt).
  { exists (m_cached_physical_heap_region pt). split; [by destruct pt|apply Hi]. }
  destruct (range_size _ _ _ Hk Hr) as (E1 & _). unfold UnmapPageGroup.
  rewrite GetNumPages_pages, Hl, E1, Hok, bind_Done_true by (apply Hg || lia).
  destruct ok; cbn [negb]; [|apply wp_ret; left; split_and!; [done..|by intros [? _]]].
  fold (state_test state). apply wp_bind. eapply wp_mono; [by apply CheckMemoryState_run, table_range_ok|].
  intros [r c] [[-> Hc]|[-> Hc]].
  2: { apply wp_ret. left. split_and!; [done..|]. intros (_ & Hu & _). by apply Hc, uniform_checked. }
  change (Result_IsSuccess ResultSuccess) with true. cbn [negb].
  pose proof (checked_uniform _ _ _ _ _ _ Hc) as Hu.
  pose proof (checked_no_ipc _ _ _ _ _ _ Hc eq_refl eq_refl) as Hn.
  destruct (checked_cuts _ _ _ _ _ _ Hk Hc) as (k & -> & Ek & Hk2).
  apply wp_bind. eapply wp_mono; [by apply IsValidPageGroup_run; try apply Hi|].
  intros [b pt1] ([cc ->] & Hh & Hb). rewrite (valid_group_all pt _ n g Hg Hl (proj1 Hr)) in Hb.
  destruct b; cbn [negb].
  2: { apply wp_ret. left. split; [done|]. split; [by exists cc|]. intros (_ & _ & Hv). by apply Hb in Hv. }
  pose proof (pt_inv_cached other pt cc Hi Hh) as Hi1.
  eapply wp_mono; [apply (map_update_run other (with_cached cc pt) addr n k KMemoryState_Free KMemoryPermission_None _ _
    (λ pt, Operate pt addr n 0 false _ Op_Unmap)); [done..|subst k; split; [done|lia]|done|done| |intros s; by apply unmap_step]|].
  - intros q Hq. eapply (state_test_differs _ addr n DefaultMemoryIgnoreAttr); try done; apply Hr.
  - intros [r pt'] Hres. right. split; [done|]. split; [done|]. split; [by apply Hb|].
    destruct Hres as [Ho|[[-> [D1 D2 D3 D4 D5 D6]]|[_ Ho]]]; [left; exists cc; by rewrite <- Ek|right|].
    + split; [done|]. split; [done|by eapply only_request_cached| |exact D4|exact D5|exact D6].
      destruct D3 as (ps & []). exists ps. by split.
    + destruct (rf_mapping _ _ _ _ Ho).
Qed.

Lemma MakeAndOpenPageGroup_run other pt addr n tst :
  pt_inv other pt → table_range pt addr n → openable pt (addr / PageSize) n →
  let uni := uniform (blocks pt) addr n (counted_test tst) DefaultMemoryIgnoreAttr in
  wp (MakeAndOpenPageGroup pt [] addr n tst) (λ '(r, pt', g), group_wf g ∧
    ((r = ResultInvalidCurrentMemory ∧ pt' = pt ∧ g = [] ∧ ¬ uni) ∨
     (uni ∧ group_failed pt (addr / PageSize) n r g ∧ group_state pt [] pt' g) ∨
     (uni ∧ r = ResultSuccess ∧ group_made pt (addr / PageSize) n g ∧
      pt_inv (plus_group other (group_pages g)) pt' ∧ ∃ pt1 mm, group_state pt [] pt1 g ∧
        pt' = with_mm mm pt1 ∧ mm_counted 1 (group_pages g) (pt_mm pt) mm))).
Proof.
  intros Hi Hr Hop uni. pose proof (pi_table _ _ Hi) as Hk.
  destruct (range_size _ _ _ Hk Hr) as (E1 & _). unfold MakeAndOpenPageGroup.
  rewrite E1, (Contains_run _ _ _ Hk Hr). cbn [negb].
  apply wp_bind. eapply wp_mono; [by apply CheckMemoryState_run, table_range_ok|].
  intros [r c] [[-> Hc]|[-> Hc]].
  2: { apply wp_ret. split; [done|]. left. split_and!; [done..|]. intros Hu. by apply Hc, uniform_checked. }
  change (Result_IsSuccess ResultSuccess) with true. cbn [negb].
  pose proof (checked_uniform _ _ _ _ _ _ Hc) as Hu.
  apply wp_bind. eapply wp_mono; [by apply MakePageGroup_run; try apply Hi|].
  intros [[r pt1] g] [Hgs Hout]. pose proof (gs_wf _ _ _ _ Hgs) as Hg. destruct Hout as [(-> & Hmade)|Hf].
  2: { assert (Result_IsSuccess r = false) as -> by (destruct Hf as (_ & _ & [[-> _]|[-> _]]); done). cbn [negb].
       apply wp_ret. split; [done|]. right. by left. }
  change (Result_IsSuccess ResultSuccess) with true. cbn [negb].
  pose proof (pt_inv_infos other pt pt1 Hi (gs_only _ _ _ _ Hgs) (gs_heap _ _ _ _ Hgs)) as Hi1.
  assert (Emm : pt_mm pt1 = pt_mm pt) by (by destruct (gs_only _ _ _ _ Hgs) as (? & ? & ->)).
  apply wp_bind. eapply wp_mono; [apply Group_Open_run; [apply Hg|apply Hi1|]|].
  { rewrite Emm. destruct Hmade as (Ht & Hl & _). by apply Hop. }
  intros mm M. apply wp_ret. split; [done|]. right. right. split; [done|]. split; [done|]. split; [done|].
  split; [by apply pt_inv_group|]. exists pt1, mm. rewrite Emm in M. done.
Qed.
End Locked.

(** * Aliases

    [MapMemory], [UnmapMemory], [MapCodeMemory] and [UnmapCodeMemory] change two
    ranges: the source and the destination.  The blocks for both are preallocated
    before the first update, so the first must not cut what the second counted on. *)
Section Aliases.
Context {R : Type} `{RngLaws R} {S : Type} `{SlabExact S}.
Implicit Types (pt : KPageTableBase R S) (g : KPageGroup) (other : Z → Z).

Local Abbreviation blocks := m_memory_block_manager.
Local Abbreviation Table := (KPageTableBase R S).

(** ** Two allocators *)
Lemma with_allocator_inv pt k f (P : Table → Prop) : (k ≤ 2)%nat → P pt →
  (∀ pt s, P pt → P (with_block_slab s pt)) →
  (∀ s, wp (f (alloc k s) (with_block_slab s pt)) (λ '(_, _, pt'), P pt')) →
  wp (with_allocator pt (Z.of_nat k) f) (λ '(_, pt'), P pt').
Proof.
  intros Hk Hp Hslab Hf. unfold with_allocator. apply wp_bind. eapply wp_mono.
  { apply UpdateAllocator_Initialize_correct; [done|]. apply slab_none. }
  intros [r a] (Hr & _). case_decide as E.
  - destruct Hr as (-> & s' & -> & _). change (Result_IsSuccess ResultSuccess) with true. apply wp_bind.
    eapply wp_mono; [apply Hf|]. intros [[r a] pt'] Hp'. apply wp_ret. by apply Hslab.
  - rewrite Hr. assert (Result_IsSuccess ResultOutOfResource = false) as -> by done. pstep. apply wp_ret.
    by apply Hslab, Hslab.
Qed.

Lemma with_two_allocators_inv pt k1 k2 f (P : Table → Prop) : (k1 ≤ 2)%nat → (k2 ≤ 2)%nat → P pt →
  (∀ pt s, P pt → P (with_block_slab s pt)) →
  (∀ s1 s2, wp (f (alloc k1 s1) (alloc k2 s2) (with_block_slab s2 pt)) (λ '(_, _, _, pt'), P pt')) →
  wp (with_two_allocators pt (Z.of_nat k1) (Z.of_nat k2) f) (λ '(_, pt'), P pt').
Proof.
  intros Hk1 Hk2 Hp Hslab Hf. unfold with_two_allocators. apply with_allocator_inv; [done..|].
  intros s1. apply wp_bind. eapply wp_mono.
  { apply UpdateAllocator_Initialize_correct; [done|]. apply slab_none. }
  intros [r a] (Hr & _). case_decide as E.
  - destruct Hr as (-> & s' & -> & _). change (Result_IsSuccess ResultSuccess) with true. apply wp_bind.
    eapply wp_mono; [apply (Hf s1 s')|]. intros [[[r a1] a2] pt'] Hp'. apply wp_ret. by apply Hslab.
  - rewrite Hr. assert (Result_IsSuccess ResultOutOfResource = false) as -> by done. pstep. apply wp_ret.
    by apply Hslab, Hslab, Hslab.
Qed.

(** ** Two updates *)

(** A request to set the properties of a range, with the blocks for it. *)
Record set_request pt (addr n : Z) (k : nat) (st pm at' : Z) : Prop := {
  sq_range : table_range pt addr n;
  sq_cuts : (list_cuts addr (addr + n * PageSize) (tree_of pt) ≤ k ≤ 2)%nat;
  sq_state : 0 ≤ st < 2 ^ 32;
  sq_attr : 0 ≤ at' < 2 ^ 8 ∧ Z.land at' lock_mask = 0;
  sq_no_ipc : no_ipc (blocks pt) addr n;
  sq_differs q : pages (blocks pt) addr = Some q → differs st pm at' q
}.

Lemma update_inv other pt k s addr n st pm at' dset dclear :
  pt_inv other pt → set_request pt addr n k st pm at' →
  wp (update_blocks (alloc k s) pt addr n st pm at' dset dclear) (λ '(_, pt'),
    pt_inv other pt' ∧ only_blocks pt pt' ∧
    range_updated addr (addr + n * PageSize) (set_props st pm at') (blocks pt) (blocks pt') ∧
    bounds_kept addr (addr + n * PageSize) (blocks pt) (blocks pt')).
Proof.
  intros Hi [Hr Hc Hst [Ha Hl] Hn Hd].
  change (update_blocks (alloc k s) pt addr n st pm at' dset dclear)
    with (update_blocks (alloc k (m_memory_block_slab_manager pt)) pt addr n st pm at' dset dclear).
  eapply wp_mono; [by apply update_blocks_run; try apply Hi|]. intros [a pt'] [].
  split; [by eapply pt_inv_blocks|]. done.
Qed.

(** The pages of the first range, changed, and those of the second one differ. *)
Lemma set_request_after other pt pt' a n st pm at' b k st2 pm2 at2 :
  pt_inv other pt → pt_inv other pt' → only_blocks pt pt' → 0 < n →
  range_updated a (a + n * PageSize) (set_props st pm at') (blocks pt) (blocks pt') →
  bounds_kept a (a + n * PageSize) (blocks pt) (blocks pt') →
  (b + n * PageSize ≤ a ∨ a + n * PageSize ≤ b) → table_range pt a n →
  (∀ x y q q', a ≤ x < a + n * PageSize → b ≤ y < b + n * PageSize →
     pages (blocks pt) x = Some q → pages (blocks pt) y = Some q' → set_props st pm at' q ≠ q') →
  set_request pt b n k st2 pm2 at2 → set_request pt' b n k st2 pm2 at2.
Proof.
  intros Hi Hi' (m & s & E) Hn Hu Hb Hdis Hra Hdiff [Hr Hc Hst Ha Hno Hd].
  pose proof PageSize_eq as Eps. assert (Hnp : 0 < n * PageSize) by lia.
  assert (Hsame : ∀ y, b ≤ y < b + n * PageSize → pages (blocks pt') y = pages (blocks pt) y).
  { intros y Hy. rewrite (ru_pages _ _ _ _ _ Hu), decide_False by lia. done. }
  assert (Hnew : ∀ x, a ≤ x < a + n * PageSize →
    pages (blocks pt') x = set_props st pm at' <$> pages (blocks pt) x).
  { intros x Hx. rewrite (ru_pages _ _ _ _ _ Hu), decide_True by lia. done. }
  assert (Hsome : ∀ y c, table_range pt c n → c ≤ y < c + n * PageSize → is_Some (pages (blocks pt) y)).
  { intros y c (_ & _ & ? & ?) Hy. pose proof (tk_blocks _ (pi_table _ _ Hi)) as Hw.
    destruct (pages (blocks pt) y) eqn:Ey; [by eexists|]. eapply pages_None in Ey; [|by apply wf_tiles].
    rewrite (tk_start _ (pi_table _ _ Hi)), (tk_end _ (pi_table _ _ Hi)) in Ey. lia. }
  assert (Hne : ∀ x y, a ≤ x < a + n * PageSize → b ≤ y < b + n * PageSize →
    pages (blocks pt') x ≠ pages (blocks pt') y).
  { intros x y Hx Hy. rewrite Hnew, Hsame by done.
    destruct (Hsome x a Hra Hx) as [q Eq]. destruct (Hsome y b Hr Hy) as [q' Eq']. rewrite Eq, Eq'. simpl.
    intros [= E']. by eapply Hdiff. }
  split; [by rewrite E| |done|done| |].
  - split; [|apply Hc]. etransitivity; [|apply Hc]. unfold tree_of in *. rewrite !list_cuts_split.
    assert (Hcut : ∀ x, x < a ∨ a + n * PageSize < x ∨ pages (blocks pt') (x - 1) ≠ pages (blocks pt') x →
      (cut_count x (tree_of pt') ≤ cut_count x (tree_of pt))%nat).
    { intros x Hx. eapply cut_count_after; [apply Hi|apply Hi'|apply Hu|apply Hu|exact Hb|exact Hx]. }
    apply Nat.add_le_mono; apply Hcut.
    + destruct Hdis as [?|?]; [left; lia|]. destruct (decide (b = a + n * PageSize)) as [->|]; [|right; left; lia].
      right. right. apply Hne; lia.
    + destruct Hdis as [?|?]; [|right; left; lia]. destruct (decide (b + n * PageSize = a)) as [Ea|]; [|left; lia].
      right. right. intros E'. eapply Hne; [| |symmetry; exact E']; lia.
  - intros x q Hx. rewrite Hsame by done. by apply Hno.
  - intros q. rewrite Hsame by lia. apply Hd.
Qed.

Lemma two_updates_inv {A} other pt k1 k2 s1 s2 n a st pm at' ds dc b st2 pm2 at2 ds2 dc2
    (f : UpdateAllocator S → UpdateAllocator S → Table → prog A) (Q : A → Prop) :
  pt_inv other pt → set_request pt a n k1 st pm at' → set_request pt b n k2 st2 pm2 at2 →
  (∀ x q, a ≤ x < a + n * PageSize → b ≤ x < b + n * PageSize → pages (blocks pt) x = Some q → False) →
  (∀ x y q q', a ≤ x < a + n * PageSize → b ≤ y < b + n * PageSize →
     pages (blocks pt) x = Some q → pages (blocks pt) y = Some q' → set_props st pm at' q ≠ q') →
  (∀ sa da pt', pt_inv other pt' → wp (f sa da pt') Q) →
  wp ('(sa, pt) ← update_blocks (alloc k1 s1) pt a n st pm at' ds dc;
      '(da, pt) ← update_blocks (alloc k2 s2) pt b n st2 pm2 at2 ds2 dc2;
      f sa da pt) Q.
Proof.
  intros Hi Q1 Q2 Hdis Hdiff Hf. pose proof PageSize_eq as Eps. pose proof (sq_range _ _ _ _ _ _ _ Q1) as Hr.
  pose proof (sq_range _ _ _ _ _ _ _ Q2) as Hr2.
  apply wp_bind. eapply wp_mono; [by apply (update_inv other)|]. intros [sa pt1] (Hi1 & O1 & U1 & B1).
  apply wp_bind. eapply wp_mono; [apply (update_inv other); [done|]|intros [da pt2] (Hi2 & _); by apply Hf].
  eapply (set_request_after other pt pt1 a n st pm at' b k2); try done; [apply Hr|].
  destruct (decide (b + n * PageSize ≤ a ∨ a + n * PageSize ≤ b)) as [|Hno]; [done|exfalso].
  assert (Hx : a ≤ Z.max a b < a + n * PageSize ∧ b ≤ Z.max a b < b + n * PageSize) by (destruct Hr; lia).
  destruct (pages (blocks pt) (Z.max a b)) as [q|] eqn:Eq; [exact (Hdis _ q (proj1 Hx) (proj2 Hx) Eq)|].
  eapply pages_None in Eq; [|by apply wf_tiles, (tk_blocks _ (pi_table _ _ Hi))].
  rewrite (tk_start _ (pi_table _ _ Hi)), (tk_end _ (pi_table _ _ Hi)) in Eq.
  destruct Hr as (_ & _ & ? & ?), Hr2 as (_ & _ & ? & ?). lia.
Qed.

(** ** The two ranges of an alias *)

(** All pages of the range pass the test. *)
Definition pages_pass pt (addr n : Z) (t : MemoryTest) : Prop :=
  ∀ x, addr ≤ x < addr + n * PageSize → ∃ q, pages (blocks pt) x = Some q ∧ passes t q.

Lemma uniform_pass pt addr n t ig : uniform (blocks pt) addr n t ig → pages_pass pt addr n t.
Proof. intros (q & _ & Hall) x Hx. destruct (Hall x Hx) as (q' & ? & _ & ?). by exists q'. Qed.

(** What the test of a range and its new properties must be. *)
Record change_ok (t : MemoryTest) (st pm at' : Z) : Prop := {
  co_state : 0 ≤ st < 2 ^ 32;
  co_attr : 0 ≤ at' < 2 ^ 8 ∧ Z.land at' lock_mask = 0;
  co_ipc q : page_ok q → passes t q → Z.land (pp_attribute q) KMemoryAttribute_IpcLocked = 0;
  co_differs q : page_ok q → passes t q → differs st pm at' q
}.

Lemma pass_request pt addr n t st pm at' k : table_ok pt → table_range pt addr n →
  pages_pass pt addr n t → change_ok t st pm at' →
  (list_cuts addr (addr + n * PageSize) (tree_of pt) ≤ k ≤ 2)%nat → set_request pt addr n k st pm at'.
Proof.
  intros Hk Hr Hp [C1 C2 C3 C4] Hc. split; [done..| |].
  - intros x q Hx Hq. destruct (Hp x Hx) as (q' & Hq' & ?). rewrite Hq in Hq'. injection Hq' as <-.
    by eapply C3; [eapply tk_pages|].
  - intros q Hq. destruct (Hp addr) as (q' & Hq' & ?); [destruct Hr; rewrite PageSize_eq; lia|].
    rewrite Hq in Hq'. injection Hq' as <-. by eapply C4; [eapply tk_pages|].
Qed.

(** The tests of the two ranges, and the properties that the range that is changed
    first gets. *)
Record apart (t1 : MemoryTest) (st pm at' : Z) (t2 : MemoryTest) : Prop := {
  ap_never q : page_ok q → passes t1 q → passes t2 q → False;
  ap_new q q' : page_ok q → page_ok q' → passes t1 q → passes t2 q' → set_props st pm at' q ≠ q'
}.

(** A table that differs from another one in the mapping. *)
Lemma alias_updates_run {A} other pt pt1 n a t1 st pm at' ds dc b t2 st2 pm2 at2 ds2 dc2 k1 k2 s1 s2
    (f : UpdateAllocator S → UpdateAllocator S → Table → prog A) (Q : A → Prop) :
  pt_inv other pt → pt_inv other pt1 → blocks pt1 = blocks pt → pt_regions pt1 = pt_regions pt →
  table_range pt a n → table_range pt b n → pages_pass pt a n t1 → pages_pass pt b n t2 →
  change_ok t1 st pm at' → change_ok t2 st2 pm2 at2 → apart t1 st pm at' t2 →
  (list_cuts a (a + n * PageSize) (tree_of pt) ≤ k1 ≤ 2)%nat →
  (list_cuts b (b + n * PageSize) (tree_of pt) ≤ k2 ≤ 2)%nat →
  (∀ sa da pt', pt_inv other pt' → wp (f sa da pt') Q) →
  wp ('(sa, pt) ← update_blocks (alloc k1 s1) pt1 a n st pm at' ds dc;
      '(da, pt) ← update_blocks (alloc k2 s2) pt b n st2 pm2 at2 ds2 dc2;
      f sa da pt) Q.
Proof.
  intros Hi Hi1 Eb Er Ha Hb P1 P2 C1 C2 Hap K1 K2 Hf.
  assert (Hg : ∀ x q c t, pages_pass pt c n t → c ≤ x < c + n * PageSize → pages (blocks pt1) x = Some q →
    page_ok q ∧ passes t q).
  { intros x q c t Hp Hx Hq. rewrite Eb in Hq. destruct (Hp x Hx) as (q' & Hq' & Ht).
    rewrite Hq in Hq'. injection Hq' as <-. split; [|done]. by eapply (tk_pages _ (pi_table _ _ Hi)). }
  apply (two_updates_inv other).
  - done.
  - eapply pass_request; try done; [apply Hi1|unfold table_range in *; by rewrite Er|unfold pages_pass in *; by rewrite Eb|].
    unfold tree_of in *. by rewrite Eb.
  - eapply pass_request; try done; [apply Hi1|unfold table_range in *; by rewrite Er|unfold pages_pass in *; by rewrite Eb|].
    unfold tree_of in *. by rewrite Eb.
  - intros x q Hx Hy Hq. destruct (Hg x q a t1 P1 Hx Hq), (Hg x q b t2 P2 Hy Hq). by eapply (ap_never _ _ _ _ _ Hap).
  - intros x y q q' Hx Hy Hq Hq'. destruct (Hg x q a t1 P1 Hx Hq), (Hg y q' b t2 P2 Hy Hq').
    by apply (ap_new _ _ _ _ _ Hap).
  - done.
Qed.

(** ** The mapping of an alias *)
Lemma group_heap pt g : group_wf g → runs_in_heap (m_memory_layout (pt_mm pt)) (group_pages g) → heap_group pt g.
Proof.
  intros [Hb Hs] Hr. apply Forall_forall. intros b Hin. apply list_elem_of_split in Hin as (g1 & g2 & ->).
  apply Forall_app in Hb as [Hb1 Hb2]. apply Forall_cons in Hb2 as [(? & ? & ?) _].
  apply (Hr (length (group_pages g1)) (bi_page_index b)).
  - rewrite group_pages_app, lookup_app_r, Nat.sub_diag, group_pages_cons by lia.
    rewrite lookup_app_l by (pose proof (length_block_pages b); lia). unfold block_pages. rewrite lookup_seqZ. lia.
  - intros j Ej. rewrite group_pages_app, lookup_app_l by lia. destruct g1 as [|c g1 _] using rev_ind; [done|].
    rewrite <- app_assoc in Hs. simpl in Hs. apply separate_app in Hs. apply Forall_app in Hb1 as [_ Hc].
    apply Forall_singleton in Hc as (? & ? & ?). rewrite group_pages_app in Ej |- *. rewrite length_app in Ej.
    assert (Ec : group_pages [c] = block_pages c) by (unfold group_pages; simpl; apply app_nil_r). rewrite Ec in *.
    pose proof (length_block_pages c ltac:(lia)). rewrite lookup_app_r by lia. unfold block_pages. rewrite lookup_seqZ. lia.
Qed.

Lemma map_alias_run other pt dst src n dp op g :
  pt_inv other pt → table_range pt src n → table_range pt dst n → 0 < dst → dram_group g →
  Z.of_nat (length (group_pages g)) = n → heap_group pt g → can_open (pt_mm pt) (group_pages g) →
  wp (map_alias pt dst src n dp op g) (λ '(r, pt'),
    r = ResultSuccess ∧ mapped other pt (dst / PageSize) (group_pages g) pt').
Proof.
  intros Hi Hs Hd Hz Hg Hl Hh Hc. unfold map_alias.
  rewrite Operate_permissions by (done || apply Hi || set_solver). rewrite bind_Done_true.
  change (Result_IsSuccess ResultSuccess) with true. cbn [negb]. apply wp_bind.
  eapply wp_mono; [by apply (MapPageGroupImpl_run other pt dst n)|]. intros [r pt'] (-> & M).
  change (Result_IsSuccess ResultSuccess) with true. cbv iota. by apply wp_ret.
Qed.

Lemma unmap_alias_run other pt dst src n size g :
  pt_inv other pt → table_range pt src n → table_range pt dst n → managed_range pt (dst / PageSize) n →
  wp (unmap_alias pt dst src n size g) (λ '(r, pt'),
    r = ResultSuccess ∧ ∃ ps, unmapped other pt (dst / PageSize) n ps pt').
Proof.
  intros Hi Hs Hd Hm. unfold unmap_alias. apply wp_bind.
  eapply wp_mono; [apply (Operate_unmap_run other); [done|done|set_solver|done]|].
  intros [r pt'] (-> & ps & U & _). change (Result_IsSuccess ResultSuccess) with true. cbn [negb].
  rewrite Operate_permissions; [|apply U|by eapply only_mapping_range; [apply U|]|set_solver].
  rewrite bind_Done_true. change (Result_IsSuccess ResultSuccess) with true. apply wp_ret. split; [done|]. by exists ps.
Qed.

Lemma pt_inv_drop other pt g : pt_inv other pt → pt_inv other (drop_group pt g).
Proof.
  intros Hi. unfold drop_group. eapply pt_inv_infos;
    [done|by exists (m_cached_physical_heap_region pt), (KPageGroup_Finalize (m_block_info_manager pt) g).1; destruct pt|].
  by destruct Hi as [_ _ []].
Qed.

(** ** The requests keep the invariant *)
Lemma map_body_inv other pt dst src n dp op t1 st pm at' ds dc t2 st2 pm2 at2 ds2 dc2 k1 k2 s1 s2 :
  pt_inv other pt → dram_mm (pt_mm pt) → table_range pt src n → table_range pt dst n → 0 < dst →
  openable pt (src / PageSize) n → pages_pass pt src n t1 → pages_pass pt dst n t2 →
  change_ok t1 st pm at' → change_ok t2 st2 pm2 at2 → apart t1 st pm at' t2 →
  (list_cuts src (src + n * PageSize) (tree_of pt) ≤ k1 ≤ 2)%nat →
  (list_cuts dst (dst + n * PageSize) (tree_of pt) ≤ k2 ≤ 2)%nat →
  wp ('(r, pt, g) ← MakePageGroup (with_block_slab s2 pt) [] src n;
      if negb (Result_IsSuccess r) then mret (r, alloc k1 s1, alloc k2 s2, drop_group pt g)
      else
        '(r, pt) ← map_alias pt dst src n dp op g;
        if negb (Result_IsSuccess r) then mret (r, alloc k1 s1, alloc k2 s2, drop_group pt g)
        else
          '(sa, pt) ← update_blocks (alloc k1 s1) pt src n st pm at' ds dc;
          '(da, pt) ← update_blocks (alloc k2 s2) pt dst n st2 pm2 at2 ds2 dc2;
          mret (ResultSuccess, sa, da, drop_group pt g)) (λ '(_, _, _, pt'), pt_inv other pt').
Proof.
  intros Hi Hd Hs Hdst Hz Hop P1 P2 C1 C2 Hap K1 K2.
  assert (Hi0 : pt_inv other (with_block_slab s2 pt)) by (by apply pt_inv_slab).
  apply wp_bind. eapply wp_mono; [apply MakePageGroup_run; try apply Hi0; exact Hs|].
  intros [[r pt1] g] [Hgs Hout]. pose proof (gs_wf _ _ _ _ Hgs) as Hg.
  pose proof (pt_inv_infos other _ pt1 Hi0 (gs_only _ _ _ _ Hgs) (gs_heap _ _ _ _ Hgs)) as Hi1.
  destruct (gs_only _ _ _ _ Hgs) as (cc & ii & ->). destruct Hout as [(-> & Ht & Hl & Hrun)|Hf].
  2: { assert (Result_IsSuccess r = false) as -> by (destruct Hf as (_ & _ & [[-> _]|[-> _]]); done). cbn [negb].
       apply wp_ret. by apply pt_inv_drop. }
  change (Result_IsSuccess ResultSuccess) with true. cbn [negb].
  assert (Hcan : can_open (pt_mm pt) (group_pages g)) by (by apply Hop).
  apply wp_bind. eapply wp_mono.
  { apply (map_alias_run other); [exact Hi1|exact Hs|exact Hdst|exact Hz| |exact Hl|by apply group_heap|exact Hcan].
    eapply dram_group_mm; [exact Hd|exact Hg|]. intros p Hp. apply (Hcan p Hp). }
  intros [r pt2] (-> & M). change (Result_IsSuccess ResultSuccess) with true. cbn [negb].
  destruct M as [M1 (t & mm & ii' & cc' & ->) _ _ _].
  eapply (alias_updates_run other pt _ n src t1 st pm at' ds dc dst t2 st2 pm2 at2); try done.
  intros sa da pt' Hi'. apply wp_ret. by apply pt_inv_drop.
Qed.

(** The tests of the requests. *)
Definition alias_source_test : MemoryTest :=
  MkTest KMemoryState_FlagCanAlias KMemoryState_FlagCanAlias KMemoryPermission_All
    KMemoryPermission_UserReadWrite KMemoryAttribute_All KMemoryAttribute_None.
Definition aliased_source_test : MemoryTest :=
  MkTest KMemoryState_FlagCanAlias KMemoryState_FlagCanAlias KMemoryPermission_All
    alias_source_perm KMemoryAttribute_All KMemoryAttribute_Locked.
Definition code_source_test : MemoryTest :=
  MkTest KMemoryState_All KMemoryState_Normal KMemoryPermission_None KMemoryPermission_None
    KMemoryAttribute_All KMemoryAttribute_Locked.
Definition code_alias_test : MemoryTest :=
  MkTest KMemoryState_FlagCanCodeAlias KMemoryState_FlagCanCodeAlias KMemoryPermission_None
    KMemoryPermission_None (Z.land KMemoryAttribute_All (u8 (Z.lnot KMemoryAttribute_PermissionLocked)))
    KMemoryAttribute_None.

(** A test of the attribute that looks at the lock for IPC. *)
Lemma passes_ipc t q : passes t q → Z.land (mt_attr_mask t) KMemoryAttribute_IpcLocked = KMemoryAttribute_IpcLocked →
  Z.land (mt_attr t) KMemoryAttribute_IpcLocked = 0 → Z.land (pp_attribute q) KMemoryAttribute_IpcLocked = 0.
Proof.
  intros (_ & _ & Hp). rewrite <- Hp. generalize KMemoryAttribute_IpcLocked. intros k E1 E2.
  rewrite <- E2, <- Z.land_assoc, E1. done.
Qed.

(** The state under a mask of all bits. *)
Lemma full_state q s : page_ok q → Z.land (pp_state q) KMemoryState_All = s → pp_state q = s.
Proof.
  intros (Hq & _) <-. change KMemoryState_All with (Z.ones 32). rewrite Z.land_ones, Z.mod_small by lia. done.
Qed.

Lemma free_passes q : page_ok q → passes free_test q → pp_state q = KMemoryState_Free.
Proof. intros Hq (Hp & _). by apply full_state. Qed.

(** A free range gets a state. *)
Lemma change_free st pm : 0 ≤ st < 2 ^ 32 → st ≠ KMemoryState_Free → change_ok free_test st pm KMemoryAttribute_None.
Proof.
  intros Hst Hf. split; [done|split; [vm_compute; split; congruence|done]| |].
  - intros q Hq Hp. apply Hq. by apply free_passes.
  - intros q Hq Hp. left. rewrite (free_passes q Hq Hp). congruence.
Qed.

(** A range that is readable and writable becomes the source of an alias, or back. *)
Lemma change_source t st : 0 ≤ st < 2 ^ 32 → mt_perm_mask t = KMemoryPermission_All →
  mt_perm t = KMemoryPermission_UserReadWrite → mt_attr_mask t = KMemoryAttribute_All → mt_attr t = KMemoryAttribute_None →
  change_ok t st alias_source_perm KMemoryAttribute_Locked.
Proof.
  intros Hst E1 E2 E3 E4. split; [done|split; [vm_compute; split; congruence|done]| |].
  - intros q _ Hp. apply (passes_ipc t); [done|by rewrite E3|by rewrite E4].
  - intros q _ (_ & Hp & _). right. left. intros E. rewrite E, E1, E2 in Hp. by vm_compute in Hp.
Qed.

Lemma apart_free t st pm at' : (∀ q, page_ok q → passes t q → pp_state q ≠ KMemoryState_Free) →
  st ≠ KMemoryState_Free → apart t st pm at' free_test.
Proof.
  intros Ht Hst. split.
  - intros q Hq Hp Hf. apply (Ht q Hq Hp). by apply free_passes.
  - intros q q' Hq Hq' Hp Hf E. apply Hst. rewrite <- (free_passes q' Hq' Hf), <- E. done.
Qed.

Lemma flag_state q f : f ≠ 0 → Z.land (pp_state q) f = f → pp_state q ≠ KMemoryState_Free.
Proof. intros Hf Hp E. rewrite E in Hp. change KMemoryState_Free with 0 in Hp. rewrite Z.land_0_l in Hp. congruence. Qed.

(** The state that a check of a range reports. *)
Lemma checked_state pt addr n t ig c : table_ok pt → table_range pt addr n → checked (blocks pt) addr n t ig c →
  0 ≤ ck_state c < 2 ^ 32 ∧ Z.land (ck_state c) (mt_state_mask t) = mt_state t.
Proof.
  intros Hk Hr [(q & Hq & -> & _ & _ & Hall) _]. destruct (Hall addr) as (q' & Hq' & _ & (Hp & _)).
  { destruct Hr. rewrite PageSize_eq. lia. }
  rewrite Hq in Hq'. injection Hq' as <-. split; [by apply (tk_pages _ Hk addr q Hq)|done].
Qed.

Lemma MapMemory_inv other pt dst src n :
  pt_inv other pt → dram_mm (pt_mm pt) → table_range pt src n → table_range pt dst n → 0 < dst →
  openable pt (src / PageSize) n →
  wp (MapMemory pt dst src (n * PageSize)) (λ '(_, pt'), pt_inv other pt').
Proof.
  intros Hi Hd Hs Hdst Hz Hop. pose proof (pi_table _ _ Hi) as Hk.
  destruct (range_size _ _ _ Hk Hs) as (_ & _ & E3 & _). unfold MapMemory. rewrite E3. fold alias_source_test free_test.
  apply wp_bind. eapply wp_mono; [by apply CheckMemoryState_run, table_range_ok|].
  intros [r c] [[-> Hc]|[-> _]]; [|by apply wp_ret]. change (Result_IsSuccess ResultSuccess) with true. cbn [negb].
  apply wp_bind. eapply wp_mono; [by apply CheckMemoryState_run, table_range_ok|].
  intros [r d] [[-> Hcd]|[-> _]]; [|by apply wp_ret]. change (Result_IsSuccess ResultSuccess) with true. cbn [negb].
  pose proof (uniform_pass _ _ _ _ _ (checked_uniform _ _ _ _ _ _ Hc)) as P1.
  pose proof (uniform_pass _ _ _ _ _ (checked_uniform _ _ _ _ _ _ Hcd)) as P2.
  destruct (checked_state _ _ _ _ _ _ Hk Hs Hc) as [Hst Hfl].
  destruct (checked_cuts _ _ _ _ _ _ Hk Hc) as (k1 & -> & E1 & H1').
  destruct (checked_cuts _ _ _ _ _ _ Hk Hcd) as (k2 & -> & E2 & H2').
  apply with_two_allocators_inv; [done|done|done|intros; by apply pt_inv_slab|]. intros s1 s2.
  apply (map_body_inv other pt dst src n _ _ alias_source_test _ _ _ _ _ free_test); try done; [..|lia|lia].
  - by apply change_source.
  - by apply change_free.
  - apply apart_free.
    + intros q _ (Hp & _). by apply (flag_state q KMemoryState_FlagCanAlias).
    + intros E. rewrite E in Hfl. by vm_compute in Hfl.
Qed.

Lemma MapCodeMemory_inv other pt dst src n ok :
  pt_inv other pt → dram_mm (pt_mm pt) → table_range pt src n → table_range pt dst n → 0 < dst →
  openable pt (src / PageSize) n →
  CanContain_state (pt_regions pt) dst (n * PageSize) KMemoryState_AliasCode = Done true ok →
  wp (MapCodeMemory pt dst src (n * PageSize)) (λ '(_, pt'), pt_inv other pt').
Proof.
  intros Hi Hd Hs Hdst Hz Hop Hok. pose proof (pi_table _ _ Hi) as Hk.
  destruct (range_size _ _ _ Hk Hs) as (_ & _ & E3 & _). unfold MapCodeMemory. rewrite E3, Hok, bind_Done_true.
  destruct ok; cbn [negb]; [|by apply wp_ret]. fold heap_test free_test.
  apply wp_bind. eapply wp_mono; [by apply CheckMemoryState_run, table_range_ok|].
  intros [r c] [[-> Hc]|[-> _]]; [|by apply wp_ret]. change (Result_IsSuccess ResultSuccess) with true. cbn [negb].
  apply wp_bind. eapply wp_mono; [by apply CheckMemoryState_run, table_range_ok|].
  intros [r d] [[-> Hcd]|[-> _]]; [|by apply wp_ret]. change (Result_IsSuccess ResultSuccess) with true. cbn [negb].
  pose proof (uniform_pass _ _ _ _ _ (checked_uniform _ _ _ _ _ _ Hc)) as P1.
  pose proof (uniform_pass _ _ _ _ _ (checked_uniform _ _ _ _ _ _ Hcd)) as P2.
  destruct (checked_state _ _ _ _ _ _ Hk Hs Hc) as [Hst Hfl].
  destruct (checked_cuts _ _ _ _ _ _ Hk Hc) as (k1 & -> & E1 & H1').
  destruct (checked_cuts _ _ _ _ _ _ Hk Hcd) as (k2 & -> & E2 & H2').
  apply with_two_allocators_inv; [done|done|done|intros; by apply pt_inv_slab|]. intros s1 s2.
  apply (map_body_inv other pt dst src n _ _ heap_test _ _ _ _ _ free_test); try done; [..|lia|lia].
  - by apply change_source.
  - by apply change_free.
  - apply apart_free.
    + intros q Hq (Hp & _). rewrite (full_state q _ Hq Hp). done.
    + intros E. rewrite E in Hfl. by vm_compute in Hfl.
Qed.

(** The source of an alias that is unmapped, and the alias. *)
Lemma change_unlock t st pm : 0 ≤ st < 2 ^ 32 → mt_attr_mask t = KMemoryAttribute_All →
  mt_attr t = KMemoryAttribute_Locked → change_ok t st pm KMemoryAttribute_None.
Proof.
  intros Hst E1 E2. split; [done|split; [vm_compute; split; congruence|done]| |].
  - intros q _ Hp. apply (passes_ipc t); [done|by rewrite E1|by rewrite E2].
  - intros q (_ & Hb & _) (_ & _ & Hp). right. right. rewrite E1, E2 in Hp.
    change KMemoryAttribute_All with (Z.ones 8) in Hp. rewrite Z.land_ones, Z.mod_small in Hp by lia. rewrite Hp. done.
Qed.

Lemma change_to_free t : (∀ q, page_ok q → passes t q → pp_state q ≠ KMemoryState_Free) →
  Z.land (mt_attr_mask t) KMemoryAttribute_IpcLocked = KMemoryAttribute_IpcLocked → mt_attr t = KMemoryAttribute_None →
  change_ok t KMemoryState_None KMemoryPermission_None KMemoryAttribute_None.
Proof.
  intros Ht E1 E2. split; [vm_compute; split; congruence|split; [vm_compute; split; congruence|done]| |].
  - intros q _ Hp. apply (passes_ipc t); [done|done|by rewrite E2].
  - intros q Hq Hp. left. by apply Ht.
Qed.

Lemma stack_passes q : page_ok q → passes (state_test KMemoryState_Stack) q → pp_state q = KMemoryState_Stack.
Proof. intros Hq (Hp & _). by apply full_state. Qed.

Lemma UnmapMemory_inv other pt dst src n :
  pt_inv other pt → table_range pt src n → table_range pt dst n → managed_range pt (dst / PageSize) n →
  wp (UnmapMemory pt dst src (n * PageSize)) (λ '(_, pt'), pt_inv other pt').
Proof.
  intros Hi Hs Hdst Hm. pose proof (pi_table _ _ Hi) as Hk.
  destruct (range_size _ _ _ Hk Hs) as (_ & _ & E3 & _). unfold UnmapMemory. rewrite E3.
  fold aliased_source_test (state_test KMemoryState_Stack).
  apply wp_bind. eapply wp_mono; [by apply CheckMemoryState_run, table_range_ok|].
  intros [r c] [[-> Hc]|[-> _]]; [|by apply wp_ret]. change (Result_IsSuccess ResultSuccess) with true. cbn [negb].
  apply wp_bind. eapply wp_mono; [by apply CheckMemoryState_run, table_range_ok|].
  intros [r d] [[-> Hcd]|[-> _]]; [|by apply wp_ret]. change (Result_IsSuccess ResultSuccess) with true. cbn [negb].
  pose proof (uniform_pass _ _ _ _ _ (checked_uniform _ _ _ _ _ _ Hc)) as P1.
  pose proof (uniform_pass _ _ _ _ _ (checked_uniform _ _ _ _ _ _ Hcd)) as P2.
  destruct (checked_state _ _ _ _ _ _ Hk Hs Hc) as [Hst Hfl].
  destruct (checked_cuts _ _ _ _ _ _ Hk Hc) as (k1 & -> & E1 & H1').
  destruct (checked_cuts _ _ _ _ _ _ Hk Hcd) as (k2 & -> & E2 & H2').
  apply with_two_allocators_inv; [done|done|done|intros; by apply pt_inv_slab|]. intros s1 s2.
  assert (Hi0 : pt_inv other (with_block_slab s2 pt)) by (by apply pt_inv_slab).
  apply wp_bind. eapply wp_mono; [apply MakePageGroup_run; try apply Hi0; exact Hdst|].
  intros [[r pt1] g] [Hgs Hout].
  pose proof (pt_inv_infos other _ pt1 Hi0 (gs_only _ _ _ _ Hgs) (gs_heap _ _ _ _ Hgs)) as Hi1.
  destruct (gs_only _ _ _ _ Hgs) as (cc & ii & ->). destruct Hout as [(-> & _)|Hf].
  2: { assert (Result_IsSuccess r = false) as -> by (destruct Hf as (_ & _ & [[-> _]|[-> _]]); done). cbn [negb].
       apply wp_ret. by apply pt_inv_drop. }
  change (Result_IsSuccess ResultSuccess) with true. cbn [negb].
  apply wp_bind. eapply wp_mono; [apply IsValidPageGroup_run; [apply Hi1|apply Hi1|apply Hi1|exact Hs|apply Hgs]|].
  intros [b pt2] ([c2 ->] & Hh & _). pose proof (pt_inv_cached other _ c2 Hi1 Hh) as Hi2.
  destruct b; cbn [negb]; [|apply wp_ret; by apply pt_inv_drop].
  apply wp_bind. eapply wp_mono; [apply (unmap_alias_run other); [exact Hi2|exact Hs|exact Hdst|exact Hm]|].
  intros [r pt3] (-> & ps & [M1 (t & mm & ii' & cc' & ->) _ _ _ _ _]).
  change (Result_IsSuccess ResultSuccess) with true. cbn [negb].
  eapply (alias_updates_run other pt _ n src aliased_source_test _ _ _ _ _ dst (state_test KMemoryState_Stack)); try done;
    [| | |lia|lia|intros sa da pt' Hi'; apply wp_ret; by apply pt_inv_drop].
  - by apply change_unlock.
  - apply change_to_free; [|done|done]. intros q Hq Hp. by rewrite (stack_passes q Hq Hp).
  - split.
    + intros q Hq (Hp & _) Hq'. rewrite (stack_passes q Hq Hq') in Hp. by vm_compute in Hp.
    + intros q q' Hq Hq' _ Hp' E. assert (E' : ck_state c = pp_state q') by (by rewrite <- E).
      rewrite E', (stack_passes q' Hq' Hp') in Hfl. by vm_compute in Hfl.
Qed.

(** The walk that looks for code ends. *)
Lemma any_code_loop_run nd last_addr l : ∀ st, tiles st l nd → st ≤ last_addr < nd →
  wp (any_code_loop l last_addr) (λ _, True).
Proof.
  induction l as [|b l IH]; intros st; cbn [tiles]; [lia|]. intros (<- & Hf & Ht) Hl. cbn [any_code_loop].
  destruct (negb _); [done|]. rewrite fits_last by done. destruct (last_addr <=? bend b - 1) eqn:E; bool_prop; [done|].
  apply (IH (bend b)); [done|lia].
Qed.

Lemma UnmapCodeMemory_inv other pt dst src n ok :
  pt_inv other pt → table_range pt src n → table_range pt dst n → managed_range pt (dst / PageSize) n →
  CanContain_state (pt_regions pt) dst (n * PageSize) KMemoryState_AliasCode = Done true ok →
  wp (UnmapCodeMemory pt dst src (n * PageSize)) (λ '(_, _, pt'), pt_inv other pt').
Proof.
  intros Hi Hs Hdst Hm Hok. pose proof (pi_table _ _ Hi) as Hk.
  pose proof (table_range_bounds _ _ _ Hk Hdst) as (? & ? & ? & _).
  destruct (range_size _ _ _ Hk Hs) as (_ & _ & E3 & _). unfold UnmapCodeMemory. rewrite E3, Hok, bind_Done_true.
  destruct ok; cbn [negb]; [|by apply wp_ret]. fold code_source_test code_alias_test.
  apply wp_bind. eapply wp_mono; [by apply CheckMemoryState_run, table_range_ok|].
  intros [r c] [[-> Hc]|[-> _]]; [|by apply wp_ret]. change (Result_IsSuccess ResultSuccess) with true. cbn [negb].
  apply wp_bind. eapply wp_mono; [by apply CheckMemoryStateContiguous_run, table_range_ok|].
  intros [r k2] [(-> & -> & P2)| ->]; [|by apply wp_ret]. change (Result_IsSuccess ResultSuccess) with true. cbn [negb].
  pose proof (uniform_pass _ _ _ _ _ (checked_uniform _ _ _ _ _ _ Hc)) as P1.
  destruct (checked_cuts _ _ _ _ _ _ Hk Hc) as (k1 & -> & E1 & H1').
  apply wp_bind. eapply wp_mono.
  { destruct (blocks_from_split _ _ _ (table_range_ok _ _ _ Hk Hdst)) as (l1 & b & l2 & _ & -> & Hb & _ & Ht).
    apply (any_code_loop_run _ _ _ _ Ht). rewrite (u64_id (dst + _)), u64_id by (unfold is_u64; lia).
    rewrite (tk_end _ Hk). destruct Hdst as (_ & _ & _ & ?). lia. }
  intros any _. apply wp_bind. eapply wp_mono; [apply MakePageGroup_run; try apply Hi; exact Hdst|].
  intros [[r pt1] g] [Hgs Hout].
  pose proof (pt_inv_infos other _ pt1 Hi (gs_only _ _ _ _ Hgs) (gs_heap _ _ _ _ Hgs)) as Hi1.
  destruct (gs_only _ _ _ _ Hgs) as (cc & ii & ->). destruct Hout as [(-> & _)|Hf].
  2: { assert (Result_IsSuccess r = false) as -> by (destruct Hf as (_ & _ & [[-> _]|[-> _]]); done). cbn [negb].
       apply wp_ret. by apply pt_inv_drop. }
  change (Result_IsSuccess ResultSuccess) with true. cbn [negb].
  apply wp_bind. eapply wp_mono; [apply IsValidPageGroup_run; [apply Hi1|apply Hi1|apply Hi1|exact Hs|apply Hgs]|].
  intros [b pt2] ([c2 ->] & Hh & _). pose proof (pt_inv_cached other _ c2 Hi1 Hh) as Hi2.
  destruct b; cbn [negb]; [|apply wp_ret; by apply pt_inv_drop].
  apply wp_bind. eapply (wp_mono _ (λ '(_, pt'), pt_inv other pt')); [|intros [r pt3] Hi3; apply wp_ret; by apply pt_inv_drop].
  apply with_two_allocators_inv; [done|eapply list_cuts_le, wf_tiles, tk_blocks, Hk|done|intros; by apply pt_inv_slab|].
  intros s1 s2.
  apply wp_bind. eapply wp_mono; [apply (unmap_alias_run other); [by apply pt_inv_slab|exact Hs|exact Hdst|exact Hm]|].
  intros [r pt3] (-> & ps & [M1 (t & mm & ii' & cc' & ->) _ _ _ _ _]).
  change (Result_IsSuccess ResultSuccess) with true. cbn [negb].
  eapply (alias_updates_run other pt _ n dst code_alias_test _ _ _ _ _ src code_source_test); try done; [| | | |lia].
  - apply change_to_free; [|done|done]. intros q _ (Hp & _). by apply (flag_state q KMemoryState_FlagCanCodeAlias).
  - apply change_unlock; [vm_compute; split; congruence|done|done].
  - split.
    + intros q Hq (Hp & _) (Hp' & _). rewrite (full_state q _ Hq Hp') in Hp. by vm_compute in Hp.
    + intros q q' Hq Hq' _ (Hp' & _) E. apply (full_state q' _ Hq') in Hp'. by rewrite <- E in Hp'.
  - split; [done|]. eapply list_cuts_le, wf_tiles, tk_blocks, Hk.
Qed.
End Aliases.
