(* ===== verification/PageTableFreeArea.v ===== *)
(** Lemmas about free areas of the address space, and about mapping at an address
    of the kernel's choice. *)

From S2P Require Import Prelude Common MemoryBlock OrderedTree MemoryBlockManager MemoryBlockManagerLemmas MemoryBlockManagerUpdate MemoryBlockManagerTheorems PageBitmap PageBitmapLemmas PageBitmapTheorems PageHeap PageHeapLemmas PageHeapTheorems MemoryRegionType MemoryRegion MemoryLayout MemoryRegionTheorems PageGroup MemoryManager PageGroupTheorems MemoryManagerLemmas MemoryManagerPages MemoryManagerAllocate MemoryManagerOperations ResourceLimit ResourceLimitTheorems PageTable PageTableOperations PageTableCheck PageTablePermission PageTableTranslation PageTableOperate PageTableHeap PageTableRequests PageTableRequestLemmas PageTableLocks.

(** * Free areas *)
Section Areas.
Context {R : Type} `{RngLaws R} {S : Type} `{SlabExact S} {G : Type} `{RandomRangeLaws G}.
Implicit Types (pt : KPageTableBase R S) (gen : G).

Local Abbreviation blocks := m_memory_block_manager.

(** An area of the region with the wanted alignment, which is with its guard pages
    inside one free block. *)
Record area_found (m : KMemoryBlockManager)
    (region_start region_num_pages num_pages alignment offset guard_pages area : Z) : Prop := {
  af_aligned : (area - offset) mod alignment = 0;
  af_start : region_start ≤ area;
  af_end : area + (num_pages + guard_pages) * PageSize ≤ region_start + region_num_pages * PageSize;
  af_block : ∃ b, b ∈ m_memory_block_tree m ∧ m_memory_state b = KMemoryState_Free ∧
    m_address b + guard_pages * PageSize ≤ area ∧ area + (num_pages + guard_pages) * PageSize ≤ bend b
}.

Lemma FindFreeArea_found m region_start region_num_pages num_pages alignment offset guard_pages :
  mgr_wf m → area_args m region_start region_num_pages num_pages alignment offset guard_pages → 0 < num_pages →
  let area := KMemoryBlockManager_FindFreeArea m region_start region_num_pages num_pages alignment offset
                guard_pages in
  area ≠ 0 → area_found m region_start region_num_pages num_pages alignment offset guard_pages area.
Proof.
  intros Hwf Hargs Hn area Hne. subst area. rewrite FindFreeArea_unfold in * by done.
  edestruct (find_free_area_sound m region_start region_num_pages num_pages alignment offset guard_pages)
    as (Hm & Hlo & Hhi & b & Hb & Hst & Hbl & Hbh); [done|done|done| |reflexivity|exact Hne|].
  - intros b Hb. rewrite <- (take_drop (KMemoryBlockManager_FindIterator
      (m_memory_block_tree m) region_start) (m_memory_block_tree m)). set_solver.
  - unfold area_lo, area_hi, region_end in *. pose proof (aa_guard _ _ _ _ _ _ _ Hargs).
    split; [done|rewrite PageSize_eq in *; lia|lia|]. exists b. split_and!; [done..|lia|lia].
Qed.

(** The region of a request is inside the address space and has room for the
    pages and one side of guard pages, so that the number of places to choose from
    does not wrap around. *)
Record region_ok pt (region_start region_num_pages num_pages alignment offset guard_pages : Z) : Prop := {
  ro_args : area_args (blocks pt) region_start region_num_pages num_pages alignment offset guard_pages;
  ro_num : 0 < num_pages;
  ro_room : num_pages + guard_pages ≤ region_num_pages;
  ro_offset : offset < (num_pages + guard_pages) * PageSize;
  ro_lo : m_start_address (blocks pt) ≤ AlignDown region_start alignment;
  ro_hi : region_start + region_num_pages * PageSize ≤ m_end_address (blocks pt)
}.

Section Region.
Context (pt : KPageTableBase R S).
Context (region_start region_num_pages num_pages alignment offset guard_pages : Z).
Hypotheses (Hk : table_ok pt)
  (Hro : region_ok pt region_start region_num_pages num_pages alignment offset guard_pages).

Local Abbreviation found m := (area_found m region_start region_num_pages num_pages alignment offset guard_pages).

Lemma region_bounds : 0 ≤ region_start ∧ 0 < alignment ∧ 0 ≤ offset < alignment ∧ 0 ≤ guard_pages ∧
  region_start + region_num_pages * PageSize + 2 * alignment + (num_pages + 2 * guard_pages) * PageSize < 2 ^ 64 ∧
  u64 (u64 (region_num_pages - num_pages) - guard_pages) = region_num_pages - num_pages - guard_pages.
Proof.
  destruct Hro as [[[? ?] ? [? ?] ? ?] ? ? ? ? ?]. rewrite PageSize_eq in *. split_and!; try lia.
  rewrite (u64_id (region_num_pages - _)), u64_id by (unfold is_u64; lia). done.
Qed.

(** A candidate is in the address space. *)
Lemma candidate_address rnd :
  0 ≤ rnd ≤ u64 ((region_num_pages - num_pages - guard_pages) * PageSize) / alignment →
  let candidate := u64 (AlignDown (u64 (region_start + u64 (rnd * alignment))) alignment + offset) in
  (candidate - offset) mod alignment = 0 ∧
  m_start_address (blocks pt) ≤ candidate < m_end_address (blocks pt).
Proof.
  destruct region_bounds as (? & ? & ? & ? & Hb & _). destruct Hro as [_ ? ? ? Hlo Hhi]. pose proof PageSize_eq.
  rewrite (u64_id ((_ - _ - _) * _)) by (unfold is_u64; lia). intros Hr.
  assert (Hra : 0 ≤ rnd * alignment ≤ (region_num_pages - num_pages - guard_pages) * PageSize).
  { split; [nia|]. transitivity ((region_num_pages - num_pages - guard_pages) * PageSize / alignment * alignment);
      [nia|]. rewrite Z.mul_comm. apply Z.mul_div_le. lia. }
  assert (Hra2 : rnd * alignment + (num_pages + guard_pages) * PageSize ≤ region_num_pages * PageSize) by lia.
  assert (Hng : 0 ≤ (num_pages + guard_pages) * PageSize) by lia.
  rewrite (u64_id (rnd * _)), (u64_id (region_start + _)) by (unfold is_u64; lia).
  destruct (AlignDown_spec (region_start + rnd * alignment) alignment ltac:(lia)) as [Hm Hd].
  pose proof (AlignDown_nonneg (region_start + rnd * alignment) alignment ltac:(lia) ltac:(lia)).
  assert (Hmono : AlignDown region_start alignment ≤ AlignDown (region_start + rnd * alignment) alignment).
  { unfold AlignDown. rewrite Z.mod_add by lia. lia. }
  cbv zeta. set (ad := AlignDown (region_start + rnd * alignment) alignment) in *.
  rewrite u64_id by (unfold is_u64; lia).
  split; [by replace (ad + offset - offset) with ad by lia|]. lia.
Qed.

(** The tests of a candidate. *)
Lemma candidate_fits_run b candidate : b ∈ m_memory_block_tree (blocks pt) →
  m_address b ≤ candidate < bend b → (candidate - offset) mod alignment = 0 →
  candidate_fits (KMemoryBlock_GetMemoryInfo b) candidate region_start region_num_pages num_pages guard_pages = true →
  found (blocks pt) candidate.
Proof.
  intros Hb Hc Hm. destruct region_bounds as (? & ? & ? & ? & Hbd & _). destruct Hro as [Ha ? ? ? Hlo Hhi]. pose proof PageSize_eq as Eps.
  pose proof (wf_tiles _ (tk_blocks _ Hk)) as Ht. pose proof (tiles_bounds _ _ _ Ht) as HB. rewrite Forall_forall in HB.
  destruct (HB b Hb) as (Hf & ? & ?). pose proof (fits_lt b Hf). pose proof Hf as (? & ? & ? & _).
  pose proof (aa_bound _ _ _ _ _ _ _ Ha) as Hb2.
  unfold candidate_fits. rewrite (info_last b Hf). cbn [info_state info_address KMemoryBlock_GetMemoryInfo].
  assert (0 ≤ (num_pages + guard_pages) * PageSize ∧ 0 ≤ guard_pages * PageSize ∧ 0 < region_num_pages * PageSize) as (? & ? & ?)
    by (rewrite Eps; lia).
  rewrite (u64_id (num_pages + guard_pages)), (u64_id ((num_pages + guard_pages) * _)), (u64_id (guard_pages * _)),
    (u64_id (region_num_pages * _)), (u64_id (region_start + _)), (u64_id (region_start + _ - 1)) by (unfold is_u64; lia).
  rewrite !andb_true_iff, Z.eqb_eq, !Z.leb_le. intros [[[[Es E1] E2] E3] E4].
  rewrite (u64_id (candidate + _)), (u64_id (_ - 1)) in E3, E4 by (unfold is_u64; lia).
  rewrite u64_id in E2 by (unfold is_u64; lia).
  split; [done|done|lia|]. exists b. split_and!; [done..|lia].
Qed.

Lemma random_area_loop_run k : ∀ gen,
  wp (random_area_loop k pt region_start region_num_pages num_pages alignment offset guard_pages gen)
    (λ '(area, _), area ≠ 0 → found (blocks pt) area).
Proof.
  destruct region_bounds as (? & ? & ? & ? & Hbd & Eu). pose proof PageSize_eq as Eps.
  induction k as [|k IH]; intros gen; cbn [random_area_loop]; [by apply wp_ret|]. rewrite Eu.
  destruct (GenerateRandomRange 0 _ gen) as [rnd gen'] eqn:Eg.
  pose proof (random_range_bounds 0 (u64 ((region_num_pages - num_pages - guard_pages) * PageSize) / alignment) gen) as Hr.
  rewrite Eg in Hr. cbn [fst] in Hr.
  destruct (candidate_address rnd) as [Hm Hc].
  { apply Hr. apply Z.div_pos; [|lia]. apply u64_range. }
  match goal with |- context [QueryInfoImpl pt ?c] => set (candidate := c) in * end.
  pose proof (wf_tiles _ (tk_blocks _ Hk)) as Ht.
  destruct (tiles_split _ _ _ candidate Ht) as (l1 & b & l2 & E & Hb & _); [lia|].
  assert (Hin : b ∈ m_memory_block_tree (blocks pt)) by (rewrite E; set_solver).
  unfold QueryInfoImpl. rewrite (proj2 (FindBlock_spec _ _ _ candidate b Ht)) by done.
  change (ASSERT (Result_IsSuccess ResultSuccess)) with (Done true ()). rewrite bind_Done_true. cbn [deref].
  pstep. destruct (candidate_fits _ _ _ _ _ _) eqn:Ef; [|apply IH].
  apply wp_ret. intros _. by apply (candidate_fits_run b).
Qed.

(** The search from a later page of the region on. *)
Lemma found_later k area : 0 ≤ k ≤ region_num_pages - num_pages - guard_pages →
  area_found (blocks pt) (region_start + k * PageSize) (region_num_pages - k) num_pages alignment offset
    guard_pages area → found (blocks pt) area.
Proof. intros Hr [A1 A2 A3 A4]. split; [done|rewrite PageSize_eq in *; lia..|done]. Qed.

Lemma KPageTable_FindFreeArea_run gen :
  wp (KPageTable_FindFreeArea pt region_start region_num_pages num_pages alignment offset guard_pages gen)
    (λ '(area, _), (area ≠ 0 → found (blocks pt) area) ∧
      (area = 0 → KMemoryBlockManager_FindFreeArea (blocks pt) region_start region_num_pages num_pages alignment
                    offset guard_pages = 0)).
Proof.
  destruct region_bounds as (? & ? & ? & ? & Hbd & Eu). pose proof PageSize_eq as Eps.
  pose proof Hro as [Ha ? ? ? Hlo Hhi]. pose proof (tk_blocks _ Hk) as Hwf.
  unfold KPageTable_FindFreeArea. rewrite (proj2 (Z.leb_le _ _)) by lia. apply wp_bind.
  eapply (wp_mono _ (λ '(area, _), area ≠ 0 → found (blocks pt) area)).
  - destruct (m_enable_aslr _); [|by apply wp_ret]. apply wp_bind.
    eapply wp_mono; [apply random_area_loop_run|]. intros [area gen1] Hf. destruct (area =? 0) eqn:E; bool_prop; [|by apply wp_ret].
    rewrite Eu. destruct (GenerateRandomRange 0 _ gen1) as [k gen2] eqn:Eg. apply wp_ret.
    pose proof (random_range_bounds 0 (region_num_pages - num_pages - guard_pages) gen1) as Hr. rewrite Eg in Hr. cbn [fst] in Hr.
    specialize (Hr ltac:(lia)).
    rewrite (u64_id (k * _)), (u64_id (region_start + _)), (u64_id (region_num_pages - k)) by (unfold is_u64; lia).
    intros Hne. eapply found_later; [exact Hr|]. apply FindFreeArea_found; [done| |done|exact Hne].
    destruct Ha as [[? ?] ? [? ?] ? Hb]. split; [lia|done|done|done|].
    replace (region_start + k * PageSize + (region_num_pages - k) * PageSize)
      with (region_start + region_num_pages * PageSize) by lia. done.
  - intros [area gen1] Hf. apply wp_ret. destruct (area =? 0) eqn:E; bool_prop; [|done].
    split; [|done]. intros Hne. by apply FindFreeArea_found.
Qed.
End Region.
End Areas.

(** * Mapping at an address of the kernel's choice *)

(** The heap and the alias region are ranges of addresses. *)
Definition areas_ok (r : Regions) : Prop :=
  0 ≤ m_heap_region_start r ≤ m_heap_region_end r ∧ m_heap_region_end r < 2 ^ 64 ∧
  0 ≤ m_alias_region_start r ≤ m_alias_region_end r ∧ m_alias_region_end r < 2 ^ 64.

(** What [CanContain] finds when no assertion fails. *)
Lemma region_of_state_cases r st :
  region_of_state r st = Stuck ∨ ∃ s e, region_of_state r st = Done true (s, e) ∧
    (st = 0x05 → s = m_heap_region_start r ∧ e = m_heap_region_end r) ∧
    (st ∈ [0x0A; 0x11; 0x12] → s = m_alias_region_start r ∧ e = m_alias_region_end r).
Proof.
  unfold region_of_state.
  destruct (bool_decide (st ∈ [0x00; 0x13])) eqn:E0.
  { apply bool_decide_eq_true in E0. right. eexists _, _. split; [done|]. set_solver. }
  destruct (st =? 0x05) eqn:E1; bool_prop.
  { right. eexists _, _. split; [done|]. subst. split; [done|set_solver]. }
  destruct (bool_decide (st ∈ [0x0A; 0x11; 0x12])) eqn:E2.
  { right. eexists _, _. split; [done|]. split; [done|done]. }
  apply bool_decide_eq_false in E0, E2.
  assert (∀ s e, (st = 0x05 → s = m_heap_region_start r ∧ e = m_heap_region_end r) ∧
    (st ∈ [0x0A; 0x11; 0x12] → s = m_alias_region_start r ∧ e = m_alias_region_end r)) as Hno by (split; [lia|done]).
  destruct (st =? 0x0B); [right; eexists _, _; split; [done|apply Hno]|].
  destruct (bool_decide _); [right; eexists _, _; split; [done|apply Hno]|].
  destruct (bool_decide _); [right; eexists _, _; split; [done|apply Hno]|].
  destruct (bool_decide _); [right; eexists _, _; split; [done|apply Hno]|]. by left.
Qed.

Lemma CanContain_sub r a s a' s' st : areas_ok r → CanContain r a s st = Done true true →
  0 ≤ a → a ≤ a' → 0 < s' → a' + s' ≤ a + s → a + s < 2 ^ 64 → CanContain r a' s' st = Done true true.
Proof.
  intros Hr Hc Ha Haa Hs Has Hb. unfold CanContain, GetRegionAddress, GetRegionSize in *.
  destruct (region_of_state_cases r st) as [E|(rs & re & E & Hh & Hal)]; rewrite E in *; [done|].
  rewrite !bind_Done_true in *. rewrite !bind_ret_l in *.
  set (rlast := u64 (u64 (rs + u64 (re - rs)) - 1)) in *.
  rewrite (u64_id (a + s)), (u64_id (a + s - 1)) in Hc by (unfold is_u64; lia).
  rewrite (u64_id (a' + s')), (u64_id (a' + s' - 1)) by (unfold is_u64; lia).
  set (in_region := (rs <=? a) && _ && _) in Hc. set (in_region' := (rs <=? a') && _ && _).
  set (in_heap := negb (_ || _ || (_ =? m_heap_region_end r))) in Hc.
  set (in_heap' := negb (_ || _ || (_ =? m_heap_region_end r))).
  set (in_alias := negb (_ || _ || (_ =? m_alias_region_end r))) in Hc.
  set (in_alias' := negb (_ || _ || (_ =? m_alias_region_end r))).
  assert (R1 : in_region = true → in_region' = true).
  { unfold in_region, in_region'. rewrite !andb_true_iff, !Z.leb_le, !Z.ltb_lt. lia. }
  assert (R2 : in_heap = false → in_heap' = false).
  { unfold in_heap, in_heap'. rewrite !negb_false_iff, !orb_true_iff, !Z.leb_le, Z.eqb_eq. lia. }
  assert (R3 : in_alias = false → in_alias' = false).
  { unfold in_alias, in_alias'. rewrite !negb_false_iff, !orb_true_iff, !Z.leb_le, Z.eqb_eq. lia. }
  assert (R4 : in_region = true → st = 0x05 → in_heap = true → in_heap' = true).
  { intros E1 E2 E3. destruct (Hh E2) as [-> ->]. unfold in_region, in_heap, in_heap', rlast in *.
    rewrite !negb_true_iff, !orb_false_iff, !Z.leb_gt, !Z.eqb_neq in *.
    rewrite !andb_true_iff, !Z.leb_le, !Z.ltb_lt in E1.
    rewrite (u64_id (_ - m_heap_region_start r)) in E1 by (unfold is_u64, areas_ok in *; lia).
    rewrite (u64_id (m_heap_region_start r + _)), u64_id in E1 by (unfold is_u64, areas_ok in *; lia). lia. }
  assert (R5 : in_region = true → st ∈ [0x0A; 0x11; 0x12] → in_alias = true → in_alias' = true).
  { intros E1 E2 E3. destruct (Hal E2) as [-> ->]. unfold in_region, in_alias, in_alias', rlast in *.
    rewrite !negb_true_iff, !orb_false_iff, !Z.leb_gt, !Z.eqb_neq in *.
    rewrite !andb_true_iff, !Z.leb_le, !Z.ltb_lt in E1.
    rewrite (u64_id (_ - m_alias_region_start r)) in E1 by (unfold is_u64, areas_ok in *; lia).
    rewrite (u64_id (m_alias_region_start r + _)), u64_id in E1 by (unfold is_u64, areas_ok in *; lia). lia. }
  clearbody in_region in_region' in_heap in_heap' in_alias in_alias'.
  destruct (bool_decide (st ∈ [0; 19])); [|destruct (st =? 5) eqn:E5; bool_prop;
    [|destruct (bool_decide (st ∈ [10; 17; 18])) eqn:E6; [apply bool_decide_eq_true in E6|]]].
  - injection Hc as E1. by rewrite R1.
  - destruct in_heap; [|done]. destruct in_region, in_alias; try done. by rewrite R4, R1, R3.
  - destruct in_alias; [|done]. destruct in_region, in_heap; try done. by rewrite R5, R1, R2.
  - destruct in_region, in_heap, in_alias; try done. by rewrite R1, R2, R3.
Qed.

Section Anywhere.
Context {R : Type} `{RngLaws R} {S : Type} `{SlabExact S} {G : Type} `{RandomRangeLaws G}.
Implicit Types (pt : KPageTableBase R S) (gen : G) (other : Z → Z).

Local Abbreviation blocks := m_memory_block_manager.

(** An area that was found is a range of free pages that are alike. *)
Lemma found_free pt region_start region_num_pages num_pages alignment offset guard_pages area :
  table_ok pt → region_ok pt region_start region_num_pages num_pages alignment offset guard_pages →
  area_found (blocks pt) region_start region_num_pages num_pages alignment offset guard_pages area →
  m_address_space_start (pt_regions pt) ≤ area ∧
  area + num_pages * PageSize ≤ m_address_space_end (pt_regions pt) ∧
  uniform (blocks pt) area num_pages free_test DefaultMemoryIgnoreAttr.
Proof.
  intros Hk Hro [_ A2 A3 (b & Hb & Hst & A4 & A5)]. destruct Hro as [[_ _ [? ?] ? _] ? ? ? Hlo Hhi]. pose proof PageSize_eq as Eps.
  destruct (AlignDown_spec region_start alignment ltac:(lia)) as [_ ?].
  assert (0 ≤ guard_pages * PageSize) by lia.
  rewrite <- (tk_start _ Hk), <- (tk_end _ Hk). split; [lia|]. split; [lia|].
  assert (Hp : ∀ x, area ≤ x < area + num_pages * PageSize → pages (blocks pt) x = Some (props b)).
  { intros x Hx. apply block_page; [apply Hk|done|lia]. }
  exists (props b). split; [apply Hp; lia|]. intros x Hx. exists (props b). split; [by apply Hp|]. split; [done|].
  unfold passes. simpl. rewrite Hst, !Z.land_0_r. done.
Qed.

Lemma MapPages_any_run other pt n k phys region_start region_num_pages state perm gen ok :
  let alignment := 2 ^ k in
  let guard := GetNumGuardPages pt in
  pt_inv other pt → dram_mm (pt_mm pt) → pool_valid (m_allocate_option (pt_config pt)) →
  areas_ok (pt_regions pt) → 12 ≤ k < 64 →
  region_ok pt region_start region_num_pages n alignment 0 guard → 0 < region_start →
  0 ≤ state < 2 ^ 32 → state ≠ KMemoryState_Free →
  CanContain_state (pt_regions pt) region_start (region_num_pages * PageSize) state = Done true ok →
  wp (MapPages_any pt n alignment phys false region_start region_num_pages state perm gen) (λ '(r, out, pt', _),
    (r = ResultInvalidCurrentMemory ∧ out = None ∧ pt' = pt ∧ ok = false) ∨
    (ok = true ∧ r = ResultOutOfMemory ∧ out = None ∧ pt' = pt ∧
     KMemoryBlockManager_FindFreeArea (blocks pt) region_start region_num_pages n alignment 0 guard = 0) ∨
    (ok = true ∧ ∃ addr,
     area_found (blocks pt) region_start region_num_pages n alignment 0 guard addr ∧
     ((out = None ∧ out_of_blocks pt 2 r pt') ∨
      (r = ResultSuccess ∧ out = Some addr ∧
       request_done other pt addr n (set_props state perm KMemoryAttribute_None)
         (λ t mm, ∃ ps, Z.of_nat (length ps) = n ∧ fresh_pages pt (addr / PageSize) ps t mm) pt') ∨
      (Result_IsSuccess r = false ∧ out = None ∧
       request_failed other pt (λ t mm, no_pages pt n r ∧ nothing_mapped pt t mm) pt')))).
Proof.
  intros alignment guard Hi Hd Hp Hareas Hka Hro Hrs Hst Hf Hok. pose proof (pi_table _ _ Hi) as Hk.
  pose proof PageSize_eq as Eps.
  assert (Hal : PageSize ≤ alignment) by (rewrite Eps; change 4096 with (2 ^ 12); apply Z.pow_le_mono_r; lia).
  assert (Hdiv : alignment mod PageSize = 0).
  { unfold alignment. replace k with (k - 12 + 12) by lia. rewrite Z.pow_add_r by lia.
    rewrite Eps. change (2 ^ 12) with 4096. apply Z.mod_mul. lia. }
  destruct (region_bounds pt region_start region_num_pages n alignment 0 guard Hro) as (? & ? & _ & ? & Hbd & _).
  pose proof Hro as [_ Hn0 Hroom _ Hlo Hhi].
  assert (1 ≤ guard) by (unfold guard, GetNumGuardPages; destruct (m_is_kernel _); lia).
  assert (0 < n * PageSize ∧ 0 < region_num_pages * PageSize) as [Hnp Hrn] by (rewrite Eps; lia).
  assert (n * PageSize ≤ (n + guard) * PageSize) by lia.
  unfold MapPages_any. rewrite (proj2 (IsAligned_page alignment) Hdiv), (proj2 (Z.leb_le _ _) Hal).
  change (ASSERT (true && true)) with (Done true ()). rewrite bind_Done_true.
  rewrite (u64_id (region_num_pages * _)) by (unfold is_u64; lia). rewrite Hok, bind_Done_true.
  destruct ok; cbn [negb]; [|apply wp_ret; by left]. rewrite (proj2 (Z.ltb_lt _ _)) by lia. cbn [negb].
  fold guard. apply wp_bind. eapply wp_mono; [by apply KPageTable_FindFreeArea_run|].
  intros [addr gen1] [Hfound Hnone]. destruct (addr =? 0) eqn:E0; bool_prop.
  { apply wp_ret. right. left. split_and!; auto. }
  specialize (Hfound E0). destruct (found_free _ _ _ _ _ _ _ _ Hk Hro Hfound) as (F1 & F2 & Hu).
  pose proof Hfound as [Fa Fs Fe _]. rewrite Z.sub_0_r in Fa.
  assert (Hr : table_range pt addr n).
  { split; [done|]. split; [|done]. apply Z.mod_divide in Fa as [q Fa]; [|lia]. apply Z.mod_divide in Hdiv as [q' Hdiv]; [|lia].
    apply Z.mod_divide; [lia|]. exists (q * q'). rewrite Fa, Hdiv. lia. }
  unfold alignment at 1. rewrite IsAligned_pow2 by lia. fold alignment. rewrite Fa.
  change (ASSERT (0 =? 0)) with (Done true ()). rewrite bind_Done_true.
  rewrite (u64_id (n * _)) by (unfold is_u64; lia).
  assert (Hsub : CanContain_state (pt_regions pt) addr (n * PageSize) state = Done true true).
  { eapply CanContain_sub; [done|exact Hok|lia|lia|lia|lia|lia]. }
  rewrite Hsub, bind_Done_true. change (ASSERT true) with (Done true ()). rewrite bind_Done_true. fold free_test.
  apply wp_bind. eapply wp_mono; [by apply CheckMemoryState_run, table_range_ok|].
  intros [r c] [[-> _]|[-> Hc]]; [|by destruct Hc; apply uniform_checked].
  change (ASSERT (Result_IsSuccess ResultSuccess)) with (Done true ()). rewrite bind_Done_true.
  pose proof (free_test_no_ipc pt addr n _ Hk Hn0 Hu) as Hno.
  apply wp_bind. change MaxBlocks with (Z.of_nat 2).
  eapply wp_mono; [apply (map_update_run other pt addr n 2 state perm _ _
    (λ pt, AllocateAndMapPagesImpl pt addr n perm)); [done|done| |done|done| |intros s; by apply allocate_step]|].
  - split; [|lia]. eapply list_cuts_le. apply (tk_blocks _ Hk).
  - intros q Hq. by eapply (free_differs _ addr n DefaultMemoryIgnoreAttr).
  - intros [r pt'] Hres. apply wp_ret. right. right. split; [done|]. exists addr. split; [done|].
    destruct Hres as [Ho|[[-> Hdone]|[Er Hfail]]].
    + left. split; [|done]. destruct Ho as (-> & _). done.
    + right. left. done.
    + right. right. split; [done|]. split; [by rewrite Er|done].
Qed.
(** A page group at an address of the kernel's choice. *)
Lemma MapPageGroup_any_run other pt n g region_start region_num_pages state perm gen ok :
  let guard := GetNumGuardPages pt in
  pt_inv other pt → areas_ok (pt_regions pt) →
  region_ok pt region_start region_num_pages n PageSize 0 guard → 0 < region_start →
  dram_group g → Z.of_nat (length (group_pages g)) = n → heap_group pt g → can_open (pt_mm pt) (group_pages g) →
  0 ≤ state < 2 ^ 32 → state ≠ KMemoryState_Free →
  CanContain_state (pt_regions pt) region_start (region_num_pages * PageSize) state = Done true ok →
  wp (MapPageGroup_any pt g region_start region_num_pages state perm gen) (λ '(r, out, pt', _),
    (Result_IsSuccess r = false ∧ out = None ∧ pt' = pt) ∨
    (ok = true ∧ ∃ addr,
     area_found (blocks pt) region_start region_num_pages n PageSize 0 guard addr ∧
     ((out = None ∧ out_of_blocks pt 2 r pt') ∨
      (r = ResultSuccess ∧ out = Some addr ∧
       request_done other pt addr n (set_props state perm KMemoryAttribute_None)
         (group_mapped pt (addr / PageSize) g) pt')))).
Proof.
  intros guard Hi Hareas Hro Hrs Hg Hl Hh Hc Hst Hf Hok. pose proof (pi_table _ _ Hi) as Hk.
  pose proof PageSize_eq as Eps.
  destruct (region_bounds pt region_start region_num_pages n PageSize 0 guard Hro) as (? & ? & _ & ? & Hbd & _).
  pose proof Hro as [_ Hn0 Hroom _ Hlo Hhi].
  assert (1 ≤ guard) by (unfold guard, GetNumGuardPages; destruct (m_is_kernel _); lia).
  assert (0 < n * PageSize ∧ 0 < region_num_pages * PageSize) as [Hnp Hrn] by lia.
  assert (n * PageSize ≤ (n + guard) * PageSize) by lia.
  unfold MapPageGroup_any. rewrite GetNumPages_pages, Hl by (apply Hg || lia).
  rewrite (u64_id (region_num_pages * _)) by (unfold is_u64; lia). rewrite Hok, bind_Done_true.
  destruct ok; cbn [negb]; [|apply wp_ret; by left]. rewrite (proj2 (Z.ltb_lt _ _)) by lia. cbn [negb].
  fold guard. apply wp_bind. eapply wp_mono; [by apply KPageTable_FindFreeArea_run|].
  intros [addr gen1] [Hfound _]. destruct (addr =? 0) eqn:E0; bool_prop; [apply wp_ret; by left|].
  specialize (Hfound E0). destruct (found_free _ _ _ _ _ _ _ _ Hk Hro Hfound) as (F1 & F2 & Hu).
  pose proof Hfound as [Fa Fs Fe _]. rewrite Z.sub_0_r in Fa.
  assert (Hr : table_range pt addr n) by (by split_and!). rewrite (u64_id (n * _)) by (unfold is_u64; lia).
  assert (Hsub : CanContain_state (pt_regions pt) addr (n * PageSize) state = Done true true).
  { eapply CanContain_sub; [done|exact Hok|lia|lia|lia|lia|lia]. }
  rewrite Hsub, bind_Done_true. change (ASSERT true) with (Done true ()). rewrite bind_Done_true. fold free_test.
  apply wp_bind. eapply wp_mono; [by apply CheckMemoryState_run, table_range_ok|].
  intros [r c] [[-> _]|[-> Hc']]; [|by destruct Hc'; apply uniform_checked].
  change (ASSERT (Result_IsSuccess ResultSuccess)) with (Done true ()). rewrite bind_Done_true.
  pose proof (free_test_no_ipc pt addr n _ Hk Hn0 Hu) as Hno.
  apply wp_bind. change MaxBlocks with (Z.of_nat 2).
  eapply wp_mono; [apply (map_update_run other pt addr n 2 state perm _ _
    (λ pt, MapPageGroupImpl pt addr g _ false)); [done|done| |done|done| |intros s; apply (group_step other pt addr n); done || lia]|].
  - split; [|lia]. eapply list_cuts_le. apply (tk_blocks _ Hk).
  - intros q Hq. by eapply (free_differs _ addr n DefaultMemoryIgnoreAttr).
  - intros [r pt'] Hres. apply wp_ret. right. split; [done|]. exists addr. split; [done|].
    destruct Hres as [Ho|[[-> Hdone]|[_ Hfail]]]; [left; split; [by destruct Ho as (-> & _)|done]|by right|].
    destruct (rf_mapping _ _ _ _ Hfail).
Qed.
End Anywhere.
