(* ===== verification/PageTableProperties.v ===== *)
(** The theorems about the page table: the size of the heap, and what holds after
    any sequence of operations. *)

From S2P Require Import Prelude Common MemoryBlock OrderedTree MemoryBlockManager MemoryBlockManagerLemmas MemoryBlockManagerUpdate MemoryBlockManagerTheorems PageBitmap PageBitmapLemmas PageBitmapTheorems PageHeap PageHeapLemmas PageHeapTheorems MemoryRegionType MemoryRegion MemoryLayout MemoryRegionTheorems PageGroup MemoryManager PageGroupTheorems MemoryManagerLemmas MemoryManagerPages MemoryManagerAllocate MemoryManagerOperations ResourceLimit ResourceLimitTheorems PageTable PageTableOperations PageTableCheck PageTablePermission PageTableTranslation PageTableOperate PageTableHeap PageTableRequests PageTableRequestLemmas PageTableLocks PageTableFreeArea.

(** * SetHeapSize *)

(** ** The reservation of the memory *)
Lemma reservation_run which l s v tick timeout :
  limit_wf l → slot_at l (LimitableResource_index which) = Some s → 0 < v < 2 ^ 63 →
  wp (KScopedResourceReservation_new [] tick (Some l) which v timeout) (λ '(res, l'),
    (res = None ∧ l' = Some (set_waiters (λ n, n + 1) l) ∧ hint s + v ≤ limit s < current s + v) ∨
    (res = Some (MkReservation true v which false) ∧ l' = Some l ∧ limit s < current s + v) ∨
    (res = Some (MkReservation true v which true) ∧ current s + v ≤ limit s ∧
     ∃ l1, l' = Some l1 ∧ limit_wf l1 ∧ slot_set which (reserve v s) l l1)).
Proof.
  intros Hw Hs Hv. unfold KScopedResourceReservation_new. rewrite (proj2 (Z.eqb_neq v 0)) by lia. cbn [negb].
  apply wp_bind. eapply wp_mono; [apply Reserve_run; [done|lia|constructor]|].
  intros [ok l1] (W1 & _ & D). specialize (D eq_refl s Hs). apply wp_ret. destruct ok as [[]|]; simpl in D |- *.
  - destruct D as (_ & ? & ?). right. right. split; [done|]. split; [done|]. by exists l1.
  - destruct D as (-> & ?). right. left. split; [done|]. split; [done|lia].
  - destruct D as (-> & ? & _). by left.
Qed.

(** A reservation that is not committed is given back. *)
Lemma reservation_cancel_run which l l1 s v : limit_wf l → slot_at l (LimitableResource_index which) = Some s →
  0 < v → current s + v ≤ limit s → limit_wf l1 → slot_set which (reserve v s) l l1 →
  ∃ l2, KScopedResourceReservation_delete (MkReservation true v which true) l1 = Done true l2 ∧
    limit_wf l2 ∧ same_usage l l2.
Proof.
  intros Hw Hs Hv Hfit W1 Hset. pose proof (Hw which) as (s' & Hs' & Hok). rewrite Hs in Hs'. injection Hs' as <-.
  unfold KScopedResourceReservation_delete. simpl. rewrite (proj2 (Z.eqb_neq v 0)) by lia. simpl.
  assert (Hok1 : slot_ok (reserve v s)) by (unfold slot_ok, reserve in *; simpl; lia).
  destruct (Release_run which l1 (reserve v s) v v (ss_this _ _ _ _ Hset) Hok1) as (l2 & -> & Hset2);
    [unfold slot_ok in Hok; simpl; lia..|].
  exists l2. split; [done|]. split.
  - eapply slot_set_wf; [exact W1| |exact Hset2]. unfold slot_ok, release, reserve in *. simpl. lia.
  - intros w. destruct (decide (LimitableResource_index w = LimitableResource_index which)) as [E|E].
    + apply index_inj in E as ->. exists s, (release v v (reserve v s)).
      split_and!; [done|apply Hset2|done|simpl; lia..].
    + assert (Hne : w ≠ which) by (by intros ->).
      rewrite (ss_others _ _ _ _ Hset2 w Hne), (ss_others _ _ _ _ Hset w Hne).
      destruct (Hw w) as (sw & -> & _). by exists sw, sw.
Qed.

Section SetHeapSize.
Context {R : Type} `{RngLaws R} {S : Type} `{SlabExact S}.
Implicit Types (pt : KPageTableBase R S) (g : KPageGroup) (other : Z → Z) (mm : KMemoryManager R).

Local Abbreviation blocks := m_memory_block_manager.
Local Abbreviation heap_start pt := (m_heap_region_start (pt_regions pt)).

(** The heap and the memory behind it are as they were. *)
Record heap_kept other pt pt' : Prop := {
  hp_inv : pt_inv other pt';
  hp_fixed : pt_regions pt' = pt_regions pt ∧ pt_config pt' = pt_config pt ∧
    m_current_heap_end pt' = m_current_heap_end pt ∧ m_max_heap_size pt' = m_max_heap_size pt;
  hp_impl : m_impl pt' = m_impl pt;
  hp_blocks : blocks pt' = blocks pt;
  hp_slab : slab_of pt' = slab_of pt;
  hp_infos : infos_of pt' = infos_of pt;
  hp_same : same_mm (pt_mm pt) (pt_mm pt');
  hp_ref p : in_mm (pt_mm pt) p → page_ref (pt_mm pt') p = page_ref (pt_mm pt) p;
  hp_limit : limit_wf (m_resource_limit pt') ∧ same_usage (m_resource_limit pt) (m_resource_limit pt')
}.

(** The heap grew by the pages [ps], which were free and are cleared. *)
Record heap_grown other pt (size : Z) (ps : list Z) pt' : Prop := {
  hg_inv : pt_inv other pt';
  hg_fixed : pt_regions pt' = pt_regions pt ∧ pt_config pt' = pt_config pt;
  hg_end : m_current_heap_end pt' = heap_start pt + size;
  hg_length : m_current_heap_end pt + Z.of_nat (length ps) * PageSize = heap_start pt + size;
  hg_blocks : range_updated (m_current_heap_end pt) (heap_start pt + size) heap_props (blocks pt) (blocks pt');
  hg_block_count : (slab_of pt' + length (tree_of pt') = slab_of pt + length (tree_of pt))%nat;
  hg_nodup : NoDup ps;
  hg_pages p : p ∈ ps → in_mm (pt_mm pt) p ∧ page_free (pt_mm pt) p ∧
    page_pool (pt_mm pt) p = Some (GetPool (m_allocate_option (pt_config pt)));
  hg_translate w : 0 ≤ w → translate (m_impl pt') w =
    if decide (m_current_heap_end pt ≤ w * PageSize < heap_start pt + size)
    then list_at (m_current_heap_end pt / PageSize) ps w else translate (m_impl pt) w;
  hg_ref p : in_mm (pt_mm pt) p →
    page_ref (pt_mm pt') p = if decide (p ∈ ps) then 1 else page_ref (pt_mm pt) p;
  hg_free p : in_mm (pt_mm pt) p → page_free (pt_mm pt') p ↔ page_free (pt_mm pt) p ∧ p ∉ ps;
  hg_cleared x : x / PageSize ∈ ps →
    mem_byte (mm_memory (pt_mm pt')) x = u8 (m_heap_fill_value (pt_config pt));
  hg_infos : infos_of pt' = infos_of pt;
  hg_limit : limit_wf (m_resource_limit pt') ∧ ∃ s, memory_slot pt = Some s ∧
    slot_set PhysicalMemoryMax (reserve (Z.of_nat (length ps) * PageSize) s)
      (m_resource_limit pt) (m_resource_limit pt')
}.

(** The memory does not fit the limit now, but it does without what is only hinted
    to be released. *)
Definition limit_waits pt (size : Z) : Prop := ∃ s, memory_slot pt = Some s ∧
  hint s + (heap_start pt + size - m_current_heap_end pt) ≤ limit s <
  current s + (heap_start pt + size - m_current_heap_end pt).

(** Why the heap does not get the size. *)
Definition heap_refused pt (size r : Z) : Prop :=
  (r = ResultOutOfMemory ∧
   (m_heap_region_end (pt_regions pt) - heap_start pt < size ∨ m_max_heap_size pt < size ∨
    few_free (pt_mm pt) (GetPool (m_allocate_option (pt_config pt)))
      ((heap_start pt + size - m_current_heap_end pt) / PageSize))) ∨
  (r = ResultLimitReached ∧ ∃ s, memory_slot pt = Some s ∧
     limit s < current s + (heap_start pt + size - m_current_heap_end pt)) ∨
  (r = ResultInvalidCurrentMemory ∧ 
   (m_current_heap_end pt < heap_start pt + size ∧
    ¬ uniform (blocks pt) (m_current_heap_end pt)
        ((heap_start pt + size - m_current_heap_end pt) / PageSize) free_test DefaultMemoryIgnoreAttr ∨
    heap_start pt + size < m_current_heap_end pt ∧
    ¬ uniform (blocks pt) (heap_start pt + size)
        ((m_current_heap_end pt - (heap_start pt + size)) / PageSize) heap_test DefaultMemoryIgnoreAttr)) ∨
  (r = ResultOutOfResource ∧
   (m_current_heap_end pt < heap_start pt + size ∧
    infos_short (pt_mm pt) (GetPool (m_allocate_option (pt_config pt)))
      ((heap_start pt + size - m_current_heap_end pt) / PageSize) (m_block_info_manager pt) ∨
    (slab_of pt < list_cuts (Z.min (m_current_heap_end pt) (heap_start pt + size))
                    (Z.max (m_current_heap_end pt) (heap_start pt + size)) (tree_of pt))%nat)).

(** Pages that a group got and gave back. *)
Lemma undone_manager pool u L mm m1 m m3 : mm_wf mm → opened pool u L mm m1 →
  mm_counted (-1) L (set_memory m m1) m3 →
  same_mm mm m3 ∧ ∀ p, in_mm mm p → page_ref m3 p = page_ref mm p.
Proof.
  intros Hw O D. assert (S1 : same_mm mm (set_memory m m1)).
  { eapply same_mm_trans; [apply O|apply set_memory_same]. }
  split; [eapply same_mm_trans; [exact S1|apply D]|]. intros p Hp.
  rewrite (mc_ref _ _ _ _ D p) by (by apply (same_mm_in _ _ p S1)).
  change (page_ref (set_memory m m1) p) with (page_ref m1 p).
  rewrite (op_ref _ _ _ _ _ O p Hp), (times_NoDup p L (op_nodup _ _ _ _ _ O)).
  case_decide as E; [|lia]. destruct (op_pages _ _ _ _ _ O p E) as (_ & Hf & _).
  rewrite (free_ref mm p Hw Hp Hf). lia.
Qed.

(** ** The second part of a growing heap *)
Section Grow.
Context (other : Z → Z) (pt : KPageTableBase R S) (size n : Z) (sl : slot) (l1 : KResourceLimit).
Hypotheses (Hi : pt_inv other pt) (Hd : dram_mm (pt_mm pt))
  (Hr : table_range pt (m_current_heap_end pt) n)
  (Hn : m_current_heap_end pt + n * PageSize = heap_start pt + size)
  (Hw : limit_wf (m_resource_limit pt)) (Hsl : memory_slot pt = Some sl)
  (Hw1 : limit_wf l1) (Hfit : current sl + n * PageSize ≤ limit sl)
  (Hset : slot_set PhysicalMemoryMax (reserve (n * PageSize) sl) (m_resource_limit pt) l1).

Local Abbreviation reservation := (MkReservation true (n * PageSize) PhysicalMemoryMax true).

Lemma positive_size : 0 < n * PageSize.
Proof. destruct Hr. rewrite PageSize_eq. lia. Qed.

Lemma cancelled : ∃ l2, KScopedResourceReservation_delete reservation l1 = Done true l2 ∧
  limit_wf l2 ∧ same_usage (m_resource_limit pt) l2.
Proof. eapply reservation_cancel_run; [done|done|apply positive_size|done..]. Qed.

(** The pages could not be mapped: they go back, and so does the reservation. *)
Lemma grow_undone mm1 s1 pool u g m s l2 : group_wf g → opened pool u (group_pages g) (pt_mm pt) mm1 →
  (slab_size s1 + length g = infos_of pt)%nat → slab_size s = slab_of pt →
  limit_wf l2 → same_usage (m_resource_limit pt) l2 →
  let pt2 := with_block_slab s (with_mm (set_memory m mm1) (with_infos s1 (with_limit l1 pt))) in
  wp (KPageGroup_Close (pt_mm pt2) g) (λ mm3,
    heap_kept other pt (with_limit l2 (drop_group (with_mm mm3 pt2) g))).
Proof.
  intros Hg O Hs1 Hs Hl2 Hsame pt2.
  destruct (alloc_inv other (with_limit l1 pt) mm1 s1 pool u g m) as (Hi1 & _ & _);
    [by apply pt_inv_limit|done..|].
  assert (Hi2 : pt_inv (plus_group other (group_pages g)) pt2) by (by apply pt_inv_slab).
  eapply wp_mono; [apply (group_closed_run other); [apply Hg|done|apply Hi|]|].
  { intros p Hp. change (in_mm (set_memory m mm1) p). apply (same_mm_in _ _ p (set_memory_same mm1 m)).
    apply (same_mm_in _ _ p (op_same _ _ _ _ _ O)), (op_pages _ _ _ _ _ O p Hp). }
  intros mm3 [M Hi3].
  destruct (undone_manager _ _ _ _ _ m _ (pi_mm _ _ Hi) O M) as [Hsm Href].
  split; [by apply pt_inv_limit|by repeat split|reflexivity|reflexivity|exact Hs| |exact Hsm|exact Href|by split].
  change (infos_of (drop_group (with_mm mm3 pt2) g) = infos_of pt). rewrite drop_group_infos. exact Hs1.
Qed.

(** The pages were mapped. *)
Lemma grow_done mm1 s1 g m pt2 : group_wf g → Z.of_nat (length (group_pages g)) = n →
  opened (GetPool (m_allocate_option (pt_config pt))) (optimized_pool (pt_mm pt) (GetPool (m_allocate_option (pt_config pt))))
    (group_pages g) (pt_mm pt) mm1 →
  (slab_size s1 + length g = infos_of pt)%nat →
  (∀ x, x / PageSize ∈ group_pages g → mem_byte m x = u8 (m_heap_fill_value (pt_config pt))) →
  heap_extended (plus_group other (group_pages g))
    (with_mm (set_memory m mm1) (with_infos s1 (with_limit l1 pt))) n g pt2 →
  wp (KPageGroup_Close (pt_mm pt2) g) (λ mm3,
    heap_grown other pt size (group_pages g) (with_limit l1 (drop_group (with_mm mm3 pt2) g))).
Proof.
  intros Hg Hl O Hs1 Hm [E1 E2 E3 E4 E5 E6 E7 E8 E9]. cbn in E2, E3, E4, E5.
  eapply wp_mono; [apply (group_closed_run other); [apply Hg|done|apply Hi|]|].
  { intros p Hp. apply (same_mm_in _ _ p (mc_same _ _ _ _ E8)). apply (same_mm_in _ _ p (set_memory_same mm1 m)).
    apply (same_mm_in _ _ p (op_same _ _ _ _ _ O)), (op_pages _ _ _ _ _ O p Hp). }
  intros mm3 [M Hi3].
  destruct (fresh_manager _ _ _ _ _ m _ _ (pi_mm _ _ Hi) O E8 M) as (Hsm & Hmem & Hp).
  rewrite Hn in E2, E5.
  split; [by apply pt_inv_limit|exact E3|exact E2|by rewrite Hl|exact E5|exact E6|apply O|apply O| |apply Hp|apply Hp| | |].
  - intros w Hw0. etransitivity; [exact (E7 w Hw0)|]. cbn.
    pose proof (table_range_bounds _ _ _ (pi_table _ _ Hi) Hr). pose proof PageSize_eq.
    assert (Ha : m_current_heap_end pt mod PageSize = 0) by apply Hr.
    assert (Hb : (heap_start pt + size) mod PageSize = 0).
    { rewrite <- Hn, Z.mod_add by lia. done. }
    pose proof (in_range_pages _ _ w Ha Hb ltac:(lia)) as Hiff.
    replace ((heap_start pt + size - m_current_heap_end pt) / PageSize) with n in Hiff
      by (rewrite <- Hn; replace (m_current_heap_end pt + n * PageSize - m_current_heap_end pt)
            with (n * PageSize) by lia; rewrite Z.div_mul by lia; done).
    repeat case_decide; try done; tauto.
  - intros x Hx. cbn. rewrite Hmem. by apply Hm.
  - change (infos_of (drop_group (with_mm mm3 pt2) g) = infos_of pt). rewrite drop_group_infos.
    change (infos_of (with_mm mm3 pt2)) with (infos_of pt2). rewrite E9. exact Hs1.
  - split; [done|]. exists sl. split; [done|]. by rewrite Hl.
Qed.
End Grow.

Lemma heap_kept_refl other pt : pt_inv other pt → limit_wf (m_resource_limit pt) → heap_kept other pt pt.
Proof.
  intros Hi Hl. split; try done; [apply same_mm_refl|]. split; [done|by apply same_usage_refl].
Qed.

Lemma heap_kept_slab other pt s : pt_inv other pt → limit_wf (m_resource_limit pt) → slab_size s = slab_of pt →
  heap_kept other pt (with_block_slab s pt).
Proof.
  intros Hi Hl Hs. split; try done; [by apply pt_inv_slab|apply same_mm_refl|].
  split; [done|by apply same_usage_refl].
Qed.

(** The first part sends a growing heap on. *)
Lemma SetHeapSize_begin_other other pt size : pt_inv other pt → heap_area_wf pt → 0 ≤ size →
  m_current_heap_end pt - heap_start pt ≤ size →
  SetHeapSize_begin pt size = Done true
    (if decide (m_heap_region_end (pt_regions pt) - heap_start pt < size ∨ m_max_heap_size pt < size)
     then inl ResultOutOfMemory
     else if decide (size = m_current_heap_end pt - heap_start pt) then inl ResultSuccess
     else inr (m_current_heap_end pt, heap_start pt + size - m_current_heap_end pt), pt).
Proof.
  intros Hi Hw Hs Hle. destruct (heap_sizes _ _ Hi Hw) as (? & ? & E1 & E2). pose proof (hw_current _ Hw).
  unfold SetHeapSize_begin. rewrite (hw_user _ Hw), E1, E2.
  destruct (size <=? _) eqn:E3; bool_prop; cbn [negb]; [|by rewrite decide_True by lia].
  destruct (size <=? m_max_heap_size pt) eqn:E4; bool_prop; cbn [negb]; [|by rewrite decide_True by lia].
  rewrite decide_False by lia. rewrite (proj2 (Z.ltb_ge _ _)) by lia.
  destruct (size =? _) eqn:E5; bool_prop; [by rewrite decide_True by lia|]. rewrite decide_False by lia.
  rewrite (u64_id (size - _)) by (unfold is_u64; lia).
  by replace (size - (m_current_heap_end pt - heap_start pt)) with (heap_start pt + size - m_current_heap_end pt) by lia.
Qed.

Lemma SetHeapSize_grow_run other pt size tick timeout :
  pt_inv other pt → heap_area_wf pt → dram_mm (pt_mm pt) → pool_valid (m_allocate_option (pt_config pt)) →
  size mod PageSize = 0 → m_current_heap_end pt < heap_start pt + size →
  size ≤ m_heap_region_end (pt_regions pt) - heap_start pt → size ≤ m_max_heap_size pt →
  wp (SetHeapSize [] tick timeout pt size) (λ '(r, pt'),
    match r with
    | None => limit_waits pt size ∧ pt' = with_limit (set_waiters (λ k, k + 1) (m_resource_limit pt)) pt
    | Some r => (r = ResultSuccess ∧ ∃ ps, heap_grown other pt size ps pt') ∨
                (heap_refused pt size r ∧ heap_kept other pt pt')
    end).
Proof.
  intros Hi Hw Hd Hpv Hal Hgt Hreg Hmax. pose proof PageSize_eq as Eps.
  pose proof (hw_current _ Hw). destruct (heap_sizes _ _ Hi Hw) as (? & Hlt & _).
  set (v := heap_start pt + size - m_current_heap_end pt). set (n := v / PageSize).
  assert (Hb : (heap_start pt + size) mod PageSize = 0) by (rewrite Zplus_mod, (hw_aligned _ Hw), Hal; done).
  destruct (heap_range_ok other pt (m_current_heap_end pt) (heap_start pt + size) Hi Hw (hw_current_aligned _ Hw) Hb)
    as [Hr Hv]; [lia..|]. fold v n in Hr, Hv.
  pose proof (table_range_bounds _ _ _ (pi_table _ _ Hi) Hr) as (? & ? & ? & _).
  assert (Hn : m_current_heap_end pt + n * PageSize = heap_start pt + size) by lia.
  unfold SetHeapSize. rewrite (SetHeapSize_begin_other other) by (done || lia).
  rewrite decide_False, decide_False by lia. rewrite bind_Done_true. fold v. rewrite <- Hv.
  destruct (hw_limit _ Hw PhysicalMemoryMax) as (sl & Hsl & Hslok). apply wp_bind. eapply wp_mono.
  { apply reservation_run; [apply Hw|exact Hsl|lia]. }
  intros [res lim] [(-> & -> & Hwait)|[(-> & -> & Hfull)|(-> & Hfit & l1 & -> & Hl1 & Hset)]]; pstep.
  { apply wp_ret. split; [|done]. exists sl. split; [done|]. fold v. lia. }
  { apply wp_ret. right. split; [right; left; split; [done|]; exists sl; split; [done|]; fold v; lia|].
    replace (with_limit (m_resource_limit pt) pt) with pt by (by destruct pt). apply heap_kept_refl; [done|apply Hw]. }
  cbn [sr_succeeded negb].
  destruct (cancelled pt n sl l1 Hr (hw_limit _ Hw) Hsl Hl1 Hfit Hset) as (l2 & Edel & Hl2 & Hsame).
  rewrite Z.div_mul by lia. apply wp_bind.
  eapply wp_mono; [apply AllocateAndOpen_run; [apply Hi|done|lia]|].
  intros [[[r mm1] s1] g] [(-> & O & Hg & Hl & Hs1)|(-> & Hs1 & g0 & Hg0 & U & Hres)].
  - change (Result_IsSuccess ResultSuccess) with true. cbn [negb].
    set (m := foldl _ _ g). cbn [with_mm with_infos pt_mm] in m |- *. rewrite !bind_assoc.
    set (pt1 := with_mm (set_memory m mm1) (with_infos s1 (with_limit l1 pt))).
    pose proof (alloc_inv other (with_limit l1 pt) mm1 s1 _ _ g m (pt_inv_limit other pt l1 Hi) Hd Hg O)
      as (Hi1 & Hdg & Hop).
    apply wp_bind. eapply wp_mono.
    { apply (SetHeapSize_extend_run (plus_group other (group_pages g)) pt1 g size n); [exact Hi1|exact Hr|symmetry; exact Hn|done..]. }
    assert (Hkeep : ∀ r s, slab_size s = slab_of pt → Result_IsSuccess r = false → heap_refused pt size r →
      wp (let pt2 := with_block_slab s pt1 in
          '(r, pt) ← (mm ← KPageGroup_Close (pt_mm pt2) g; mret (r, with_mm mm pt2));
          let pt := drop_group pt g in
          l ← KScopedResourceReservation_delete
                (if Result_IsSuccess r then KScopedResourceReservation_Commit (MkReservation true (n * PageSize) PhysicalMemoryMax true)
                 else MkReservation true (n * PageSize) PhysicalMemoryMax true) (m_resource_limit pt);
          mret (Some r, with_limit l pt)) (λ '(r, pt'),
      match r with
      | None => limit_waits pt size ∧ pt' = with_limit (set_waiters (λ k, k + 1) (m_resource_limit pt)) pt
      | Some r => (r = ResultSuccess ∧ ∃ ps, heap_grown other pt size ps pt') ∨
                  (heap_refused pt size r ∧ heap_kept other pt pt')
      end)).
    { intros r s Hs Hfail Href. cbv zeta. rewrite bind_assoc. apply wp_bind.
      eapply wp_mono; [by eapply (grow_undone other pt l1)|]. intros mm3 Hkept. pstep.
      rewrite Hfail. change (m_resource_limit (drop_group (with_mm mm3 (with_block_slab s pt1)) g)) with l1.
      rewrite Edel, bind_Done_true. apply wp_ret. right. by split. }
    intros [r pt2] [(-> & -> & Hnu)|(_ & [(-> & Hfew & s & Hs & ->)|(-> & Hext)])].
    + apply (Hkeep _ (m_memory_block_slab_manager pt)); [done|done|].
      right. right. left. split; [done|]. left. split; [lia|exact Hnu].
    + apply (Hkeep _ s); [exact Hs|done|]. right. right. right. split; [done|]. right.
      rewrite Z.min_l, Z.max_r, <- Hn by lia. exact Hfew.
    + change (Result_IsSuccess ResultSuccess) with true. cbv iota. rewrite bind_assoc. apply wp_bind. eapply wp_mono.
      { eapply (grow_done other pt size n sl l1); try done. intros x Hx. by apply group_clear_memory. }
      intros mm3 Hgr. pstep. change (m_resource_limit (drop_group (with_mm mm3 pt2) g)) with (m_resource_limit pt2).
      rewrite (he_limit _ _ _ _ _ Hext). pstep. left. split; [done|]. by exists (group_pages g).
  - assert (Result_IsSuccess r = false) as Hfail by (destruct Hres as [[-> _]|[-> _]]; done). rewrite Hfail.
    cbn [negb]. pstep. rewrite Hfail.
    change (m_resource_limit (drop_group (with_mm mm1 (with_infos s1 (with_limit l1 pt))) [])) with l1.
    rewrite Edel, bind_Done_true. apply wp_ret. right. split.
    + destruct Hres as [[-> Hfew]|(-> & Hfl & s2 & Hs2 & Es2)]; [left; split; [done|]; right; right; exact Hfew|].
      right. right. right. split; [done|]. left. split; [lia|]. by eapply undone_infos_short.
    + pose proof (alloc_fail_inv other (with_limit l1 pt) mm1 s1 _ _ g0 (pt_inv_limit other pt l1 Hi) U Hs1)
        as [N1 N2 N3 N4 N5 N6].
      split; [by apply (pt_inv_limit other _ l2) in N1|by repeat split|reflexivity|reflexivity|reflexivity|exact Hs1|exact N4|exact N5|by split].
Qed.

(** The mapped pages of the heap are pages of the memory manager. *)
Definition heap_managed pt : Prop :=
  ∀ w p, heap_start pt ≤ w * PageSize < m_current_heap_end pt → translate (m_impl pt) w = Some p →
    in_mm (pt_mm pt) p.

Lemma SetHeapSize_run other pt size tick timeout :
  pt_inv other pt → heap_area_wf pt → heap_managed pt → dram_mm (pt_mm pt) →
  pool_valid (m_allocate_option (pt_config pt)) → 0 ≤ size → size mod PageSize = 0 →
  wp (SetHeapSize [] tick timeout pt size) (λ '(r, pt'),
    match r with
    | None => m_current_heap_end pt < heap_start pt + size ∧ limit_waits pt size ∧
              pt' = with_limit (set_waiters (λ k, k + 1) (m_resource_limit pt)) pt
    | Some r =>
        (r = ResultSuccess ∧
         (m_current_heap_end pt < heap_start pt + size ∧ (∃ ps, heap_grown other pt size ps pt') ∨
          m_current_heap_end pt = heap_start pt + size ∧ pt' = pt ∨
          heap_start pt + size < m_current_heap_end pt ∧ ∃ ps, heap_shrunk other pt size ps pt' ∧
            (closable pt ((heap_start pt + size) / PageSize)
               ((m_current_heap_end pt - (heap_start pt + size)) / PageSize) →
             m_current_heap_end pt = heap_start pt + size + Z.of_nat (length ps) * PageSize))) ∨
        (heap_refused pt size r ∧ heap_kept other pt pt')
    end).
Proof.
  intros Hi Hw Hman Hd Hpv Hs Hal. pose proof (hw_current _ Hw).
  assert (Hdone : ∀ r, SetHeapSize_begin pt size = Done true (inl r, pt) →
    SetHeapSize [] tick timeout pt size = Done true (Some r, pt)).
  { intros r E. unfold SetHeapSize. rewrite E. done. }
  destruct (decide (m_current_heap_end pt - heap_start pt ≤ size)) as [Hle|Hgt].
  - pose proof (SetHeapSize_begin_other other pt size Hi Hw Hs Hle) as E. case_decide as E1.
    { rewrite (Hdone _ E). right. split; [|apply heap_kept_refl; [done|apply Hw]]. left. split; [done|]. lia. }
    case_decide as E2.
    { rewrite (Hdone _ E). left. split; [done|]. right. left. split; [lia|done]. }
    eapply wp_mono; [apply (SetHeapSize_grow_run other); try done; lia|].
    intros [[r|] pt'] Hout; [|split; [lia|done]]. destruct Hout as [[-> Hg]|?]; [|by right].
    left. split; [done|]. left. split; [lia|done].
  - destruct (decide (m_max_heap_size pt < size)) as [Hm|Hm].
    { assert (E : SetHeapSize_begin pt size = Done true (inl ResultOutOfMemory, pt)).
      { destruct (heap_sizes _ _ Hi Hw) as (? & ? & E1 & E2). unfold SetHeapSize_begin.
        rewrite (hw_user _ Hw), E1, E2, (proj2 (Z.leb_le size _)), (proj2 (Z.leb_gt size _)) by lia. done. }
      rewrite (Hdone _ E). right. split; [|apply heap_kept_refl; [done|apply Hw]]. left. split; [done|]. lia. }
    unfold SetHeapSize. apply wp_bind.
    eapply wp_mono; [apply (SetHeapSize_shrink_run other); try done; lia|].
    intros [r pt'] [(-> & -> & Hn)|(_ & [(r' & -> & -> & Hfew & s & Hss & ->)|(-> & ps & Hsh & Hall)])]; apply wp_ret.
    + right. split; [|apply heap_kept_refl; [done|apply Hw]]. right. right. left. split; [done|]. right. split; [lia|done].
    + right. split; [|apply heap_kept_slab; [done|apply Hw|done]]. right. right. right. split; [done|]. right.
      rewrite Z.min_r, Z.max_l by lia. exact Hfew.
    + left. split; [done|]. right. right. split; [lia|]. exists ps. split; [done|]. intros Hc.
      rewrite (Hall Hc). assert (Hb : (heap_start pt + size) mod PageSize = 0).
      { rewrite Zplus_mod, (hw_aligned _ Hw), Hal; done. }
      destruct (heap_range_ok other pt (heap_start pt + size) (m_current_heap_end pt) Hi Hw Hb (hw_current_aligned _ Hw))
        as [_ E]; lia.
Qed.

(** C1: [SetHeapSize] with a size in whole pages, run without interruption on a table
    whose heap is memory of the manager, runs with no assertion failing.
    When it succeeds the heap has that size: when it grew, its new part is mapped to
    pages that were free, each once and with one reference, and filled with the fill
    value, its blocks are normal memory, and the resource limit counts the memory;
    when it shrank, its end is unmapped and free and the memory of the limit is given
    back, and the pages of the range lose the reference of their mapping: of all of
    them when every page is mapped to heap memory and there are as many block infos
    as pages, and otherwise perhaps of the first of them only, since unmapping closes
    the page group it could make and drops the error.  When it fails, the heap, the
    mappings, the references and what the limit counts are as they were, and it fails
    with OutOfMemory only if the size is above the region or the maximum or the pool
    has fewer free pages, with LimitReached only if the memory is above the limit,
    with InvalidCurrentMemory only if the range is not uniformly free (growing) or
    heap memory (shrinking), and with OutOfResource only if the block infos do not
    last for the free pages (growing) or the memory blocks are fewer than the ends of
    the range that are inside a block.  A growing heap can also wait for the limit,
    when the memory is above it only together with what was hinted to be released. *)
Theorem SetHeapSize_correct other pt size tick timeout :
  pt_inv other pt → heap_area_wf pt → heap_managed pt → dram_mm (pt_mm pt) →
  pool_valid (m_allocate_option (pt_config pt)) → 0 ≤ size → size mod PageSize = 0 →
  wp (SetHeapSize [] tick timeout pt size) (λ '(r, pt'),
    match r with
    | None => m_current_heap_end pt < heap_start pt + size ∧ limit_waits pt size ∧
              pt' = with_limit (set_waiters (λ k, k + 1) (m_resource_limit pt)) pt
    | Some r =>
        (r = ResultSuccess ∧
         (m_current_heap_end pt < heap_start pt + size ∧ (∃ ps, heap_grown other pt size ps pt') ∨
          m_current_heap_end pt = heap_start pt + size ∧ pt' = pt ∨
          heap_start pt + size < m_current_heap_end pt ∧ ∃ ps, heap_shrunk other pt size ps pt' ∧
            (closable pt ((heap_start pt + size) / PageSize)
               ((m_current_heap_end pt - (heap_start pt + size)) / PageSize) →
             m_current_heap_end pt = heap_start pt + size + Z.of_nat (length ps) * PageSize))) ∨
        (heap_refused pt size r ∧ heap_kept other pt pt')
    end).
Proof. apply SetHeapSize_run. Qed.
End SetHeapSize.

(** * Correctness of the page table

    What checks of memory and page groups mean, that mapping and unmapping undo
    each other, and that a page is never free while it is mapped. *)

(** C17: [CheckMemoryState] accepts a range exactly when all its pages have the same
    state, the same permission and, up to the ignored bits, the same attribute, and
    every page passes the test of the masks; it then reports these values and the
    number of blocks that cutting the range out of the block list takes.  Otherwise
    it returns that the current memory is invalid. *)
Theorem CheckMemoryState_correct m addr n t ignore_attr : range_ok m addr n →
  wp (CheckMemoryState_ignoring m addr (n * PageSize) t ignore_attr) (λ '(r, c),
    (r = ResultSuccess ∧ checked m addr n t ignore_attr c) ∨
    (r = ResultInvalidCurrentMemory ∧ ¬ uniform m addr n t ignore_attr)).
Proof.
  intros Hr. eapply wp_mono; [by apply CheckMemoryState_run|]. intros [r c] [?|[-> Hc]]; [by left|right].
  split; [done|]. intros Hu. by apply Hc, uniform_checked.
Qed.

(** C40: an entry holds the distance from the virtual to the physical address, and
    zero stands for no entry: pages that are mapped at their own physical address
    are not found again, neither by a traversal nor, therefore, by any operation
    that makes a page group of them. *)
Theorem identity_mapping_lost t p n : page_size t = PageSize → entries_ok t → entries_size t ≤ 2 ^ 40 →
  0 ≤ n → DramMemoryMap_Base ≤ p * PageSize → p + n < 2 ^ 32 → p + n ≤ entries_size t →
  ∃ t', Memory_MapMemoryRegion t (p * PageSize) (n * PageSize) (p * PageSize) = Done true t' ∧
    ∀ w, p ≤ w < p + n → (BeginTraversal t' (w * PageSize)).1.1 = false.
Proof.
  intros Hps Hok Hes Hn Hp Hpn Hsz. pose proof PageSize_eq. unfold DramMemoryMap_Base in Hp.
  destruct (MapMemoryRegion_run t p n Hok ltac:(lia) Hn Hsz Hes p Hp Hpn) as (t' & E & (S1 & S2 & _) & Hok' & Ht).
  exists t'. split; [done|]. intros w Hw. rewrite Begin_run by (congruence || lia).
  rewrite Continue_run by (congruence || lia || done). rewrite Ht, decide_True by lia. unfold run_at.
  by rewrite (proj2 (Z.eqb_eq w _)) by lia.
Qed.

Section Properties.
Context {R : Type} `{RngLaws R} {S : Type} `{SlabExact S}.
Implicit Types (pt : KPageTableBase R S) (g : KPageGroup) (other : Z → Z) (mm : KMemoryManager R).

(** C6: [MakePageGroup] gives the physical pages of a range, in order: the group's
    pages are the translation of the range, page by page, and every physically
    contiguous run starts in the heap.  It fails with an invalid-memory result only
    when some page is unmapped or outside the heap, and for want of a block info
    only when every one is in the group.  Block infos are never lost, and nothing
    but them and the cached region changes. *)
Theorem MakePageGroup_correct pt addr n :
  table_ok pt → entries_ok (m_impl pt) → heap_ok pt → table_range pt addr n →
  wp (MakePageGroup pt [] addr n) (λ '(r, pt', g'), group_state pt [] pt' g' ∧
    ((r = ResultSuccess ∧ group_made pt (addr / PageSize) n g') ∨
     group_failed pt (addr / PageSize) n r g')).
Proof. apply MakePageGroup_run. Qed.

(** No page is mapped at its own number, where it would read as unmapped. *)
Definition no_identity (v : Z) (ps : list Z) : Prop := ∀ i p, ps !! i = Some p → p ≠ v + Z.of_nat i.

Lemma list_at_translated t v ps : 0 ≤ v → no_identity v ps →
  (∀ w, 0 ≤ w → v ≤ w < v + Z.of_nat (length ps) → translate t w = list_at v ps w) → translated t v ps.
Proof.
  intros Hv Hne Ht. apply translated_spec. intros i p Hi. pose proof (lookup_lt_Some _ _ _ Hi).
  rewrite Ht by lia. unfold list_at. replace (Z.to_nat (v + Z.of_nat i - v)) with i by lia. rewrite Hi. simpl.
  specialize (Hne i p Hi). by rewrite (proj2 (Z.eqb_neq _ _)).
Qed.

Lemma translated_inj t v ps qs : translated t v ps → translated t v qs → length ps = length qs → ps = qs.
Proof.
  rewrite !translated_spec. intros Hp Hq Hl. apply list_eq. intros i.
  destruct (ps !! i) as [p|] eqn:E1, (qs !! i) as [q|] eqn:E2; [|..|done].
  - apply Hp in E1. apply Hq in E2. congruence.
  - apply lookup_ge_None in E2. apply lookup_lt_Some in E1. lia.
  - apply lookup_ge_None in E1. apply lookup_lt_Some in E2. lia.
Qed.

(** mapping a page group and unmapping the range again gives every page its
    count of references back and frees none, however often a page is in the group;
    the range is unmapped, every other translation is as it was, and no block info
    is lost. *)
Theorem Operate_map_unmap_roundtrip other pt addr n g p p' :
  pt_inv other pt → table_range pt addr n → dram_group g → Z.of_nat (length (group_pages g)) = n →
  can_open (pt_mm pt) (group_pages g) → no_identity (addr / PageSize) (group_pages g) →
  (∀ q, q ∈ group_pages g → heap_address (m_memory_layout (pt_mm pt)) (q * PageSize) = true) →
  n ≤ Z.of_nat (infos_of pt) →
  wp ('(r1, pt1) ← Operate_group pt addr n g p Op_MapGroup;
      '(r2, pt2) ← Operate pt1 addr n 0 false p' Op_Unmap;
      mret (r1, r2, pt2)) (λ '(r1, r2, pt2),
    r1 = ResultSuccess ∧ r2 = ResultSuccess ∧ pt_inv other pt2 ∧ only_mapping pt pt2 ∧
    infos_of pt2 = infos_of pt ∧
    (∀ q, in_mm (pt_mm pt) q → page_ref (pt_mm pt2) q = page_ref (pt_mm pt) q ∧
       (page_free (pt_mm pt2) q ↔ page_free (pt_mm pt) q)) ∧
    ∀ w, 0 ≤ w → translate (m_impl pt2) w =
      if decide (addr / PageSize ≤ w < addr / PageSize + n) then None else translate (m_impl pt) w).
Proof.
  intros Hi Hr Hg Hl Hop Hid Hh Hinf. destruct (range_pages _ _ _ (pi_table _ _ Hi) Hr) as (_ & Hv & _).
  apply wp_bind. eapply wp_mono; [by apply (Operate_group_run other)|]. set (v := addr / PageSize) in *.
  intros [r1 pt1] (-> & [Hi1 (t1 & mm1 & s1 & c1 & ->) T1 M1 F1]). cbn in T1, M1, F1. rewrite Hl in T1.
  assert (Htr : translated t1 v (group_pages g)).
  { apply list_at_translated; [done|done|]. intros w Hw Hin. rewrite T1, decide_True by lia. done. }
  pose proof (mc_same _ _ _ _ M1) as S1.
  assert (Hin : ∀ q, q ∈ group_pages g → in_mm mm1 q).
  { intros q Hq. apply (same_mm_in _ _ q S1). by apply Hop. }
  assert (Hget : ∀ w q, v ≤ w < v + n → translate t1 w = Some q → q ∈ group_pages g).
  { intros w q Hw. rewrite T1, decide_True by lia. unfold list_at.
    destruct (group_pages g !! _) as [q'|] eqn:E; [|done]. simpl. destruct (w =? q'); [done|].
    intros [= <-]. by eapply list_elem_of_lookup_2. }
  apply wp_bind. eapply wp_mono; [apply (Operate_unmap_run other); [exact Hi1|exact Hr|set_solver|]|].
  { intros w q Hw Ht. by eapply Hin, Hget. }
  fold v. intros [r2 pt2] (-> & ps & [Hi2 O2 P2 L2 T2 M2 F2] & Hall). apply wp_ret. cbn in P2, T2, M2, F2, Hall.
  assert (ps = group_pages g) as ->.
  { eapply translated_inj; [exact P2|done|]. apply Nat2Z.inj. rewrite Hl. apply Hall. split.
    - intros w Hw. unfold not_heap_page. cbn. rewrite T1, decide_True by lia. unfold list_at.
      destruct (lookup_lt_is_Some_2 (group_pages g) (Z.to_nat (w - v))) as [q E]; [lia|]. rewrite E. simpl.
      pose proof (Hid _ _ E). rewrite (proj2 (Z.eqb_neq _ _)) by lia.
      rewrite (sm_layout _ _ S1), Hh; [done|]. by eapply list_elem_of_lookup_2.
    - unfold infos_of in *. cbn in *. lia. }
  split; [done|]. split; [done|]. split; [done|]. split.
  { destruct O2 as (t2 & mm2 & s2 & c2 & ->). by exists t2, mm2, s2, c2. }
  split; [unfold infos_of in *; cbn in *; lia|]. split.
  - intros q Hq. assert (Hq1 : in_mm mm1 q) by (by apply (same_mm_in _ _ q S1)).
    rewrite (mc_ref _ _ _ _ M2 q Hq1), (mc_free _ _ _ _ M2 q Hq1), (mc_ref _ _ _ _ M1 q Hq), (mc_free _ _ _ _ M1 q Hq).
    split; [lia|]. split; [|tauto]. intros [[?|[Hqg ?]]|[Hqg ?]]; [done|exfalso..];
      destruct (Hop q Hqg) as (_ & ? & _); pose proof (times_nonneg q (group_pages g)); lia.
  - intros w Hw. rewrite T2 by done. case_decide; [done|]. rewrite T1 by done. by rewrite decide_False.
Qed.

End Properties.

(** * Requests *)
Section RequestProperties.
Context {R : Type} `{RngLaws R} {S : Type} `{SlabExact S} {G : Type} `{RandomRangeLaws G}.
Implicit Types (pt : KPageTableBase R S) (g : KPageGroup) (other : Z → Z) (gen : G).

Local Abbreviation blocks := m_memory_block_manager.

(** The references besides the mappings, with those of a group that was opened. *)
Definition holding (r : Z) g other : Z → Z :=
  if Result_IsSuccess r then plus_group other (group_pages g) else other.

(** ** Reachable tables

    A table that starts with nothing mapped and is changed by its operations, each
    called within its contract, while the rest of the system opens and closes
    references of its own ([tr_others]). *)
Inductive table_reachable : (Z → Z) → KPageTableBase R S → Prop :=
| tr_start other pt :
    table_ok pt → heap_ok pt → mm_wf (pt_mm pt) → (∀ v, pe_addr (entry_at (m_impl pt) v) = 0) →
    (∀ p, 0 ≤ other p) → (∀ p, in_mm (pt_mm pt) p → other p ≤ page_ref (pt_mm pt) p) →
    table_reachable other pt
| tr_others other other' pt mm :
    table_reachable other pt → same_mm (pt_mm pt) mm → mm_wf mm → (∀ p, 0 ≤ other' p) →
    (∀ p, in_mm (pt_mm pt) p → page_ref mm p - page_ref (pt_mm pt) p = other' p - other p) →
    table_reachable other' (with_mm mm pt)
| tr_map other pt addr n g p r pt' :
    table_reachable other pt → table_range pt addr n → dram_group g →
    Z.of_nat (length (group_pages g)) = n → can_open (pt_mm pt) (group_pages g) →
    Operate_group pt addr n g p Op_MapGroup = Done true (r, pt') → table_reachable other pt'
| tr_unmap other pt addr n phys valid p op r pt' :
    table_reachable other pt → table_range pt addr n → op ∈ [Op_Unmap; Op_UnmapPhysical] →
    managed_range pt (addr / PageSize) n →
    Operate pt addr n phys valid p op = Done true (r, pt') → table_reachable other pt'
| tr_allocate other pt addr n perm r pt' :
    table_reachable other pt → dram_mm (pt_mm pt) → pool_valid (m_allocate_option (pt_config pt)) →
    table_range pt addr n → AllocateAndMapPagesImpl pt addr n perm = Done true (r, pt') →
    table_reachable other pt'
| tr_permission other pt addr n perm r pt' :
    table_reachable other pt → table_range pt addr n →
    SetMemoryPermission pt addr (n * PageSize) perm = Done true (r, pt') → table_reachable other pt'
| tr_attribute other pt addr n mask attr r pt' :
    table_reachable other pt → table_range pt addr n →
    Z.lor mask KMemoryAttribute_SetMask = KMemoryAttribute_SetMask → Z.lor mask attr = mask →
    ¬ first_block_has pt addr mask attr →
    SetMemoryAttribute pt addr (n * PageSize) mask attr = Done true (r, pt') → table_reachable other pt'
| tr_heap other pt size tick timeout r pt' :
    table_reachable other pt → heap_area_wf pt → heap_managed pt → dram_mm (pt_mm pt) →
    pool_valid (m_allocate_option (pt_config pt)) → 0 ≤ size → size mod PageSize = 0 →
    SetHeapSize [] tick timeout pt size = Done true (r, pt') → table_reachable other pt'
| tr_map_pages other pt addr n state perm ok r pt' :
    table_reachable other pt → dram_mm (pt_mm pt) → pool_valid (m_allocate_option (pt_config pt)) →
    table_range pt addr n → 0 ≤ state < 2 ^ 32 → state ≠ KMemoryState_Free →
    CanContain_state (pt_regions pt) addr (n * PageSize) state = Done true ok →
    MapPages pt addr n state perm = Done true (r, pt') → table_reachable other pt'
| tr_unmap_pages other pt addr n state r pt' :
    table_reachable other pt → table_range pt addr n → state ≠ KMemoryState_Free →
    managed_range pt (addr / PageSize) n →
    UnmapPages pt addr n state = Done true (r, pt') → table_reachable other pt'
| tr_map_group other pt addr n g state perm ok r pt' :
    table_reachable other pt → table_range pt addr n → 0 < addr → dram_group g →
    Z.of_nat (length (group_pages g)) = n → heap_group pt g → can_open (pt_mm pt) (group_pages g) →
    0 ≤ state < 2 ^ 32 → state ≠ KMemoryState_Free →
    CanContain_state (pt_regions pt) addr (n * PageSize) state = Done true ok →
    MapPageGroup pt addr g state perm = Done true (r, pt') → table_reachable other pt'
| tr_map_pages_any other pt n k phys region_start region_num_pages state perm gen ok r out pt' gen' :
    table_reachable other pt → dram_mm (pt_mm pt) → pool_valid (m_allocate_option (pt_config pt)) →
    areas_ok (pt_regions pt) → 12 ≤ k < 64 →
    region_ok pt region_start region_num_pages n (2 ^ k) 0 (GetNumGuardPages pt) → 0 < region_start →
    0 ≤ state < 2 ^ 32 → state ≠ KMemoryState_Free →
    CanContain_state (pt_regions pt) region_start (region_num_pages * PageSize) state = Done true ok →
    MapPages_any pt n (2 ^ k) phys false region_start region_num_pages state perm gen =
      Done true (r, out, pt', gen') → table_reachable other pt'
| tr_map_group_any other pt n g region_start region_num_pages state perm gen ok r out pt' gen' :
    table_reachable other pt → areas_ok (pt_regions pt) →
    region_ok pt region_start region_num_pages n PageSize 0 (GetNumGuardPages pt) → 0 < region_start →
    dram_group g → Z.of_nat (length (group_pages g)) = n → heap_group pt g → can_open (pt_mm pt) (group_pages g) →
    0 ≤ state < 2 ^ 32 → state ≠ KMemoryState_Free →
    CanContain_state (pt_regions pt) region_start (region_num_pages * PageSize) state = Done true ok →
    MapPageGroup_any pt g region_start region_num_pages state perm gen =
      Done true (r, out, pt', gen') → table_reachable other pt'
| tr_map_memory other pt dst src n r pt' :
    table_reachable other pt → dram_mm (pt_mm pt) → table_range pt src n → table_range pt dst n → 0 < dst →
    openable pt (src / PageSize) n →
    MapMemory pt dst src (n * PageSize) = Done true (r, pt') → table_reachable other pt'
| tr_unmap_memory other pt dst src n r pt' :
    table_reachable other pt → table_range pt src n → table_range pt dst n →
    managed_range pt (dst / PageSize) n →
    UnmapMemory pt dst src (n * PageSize) = Done true (r, pt') → table_reachable other pt'
| tr_map_code other pt dst src n ok r pt' :
    table_reachable other pt → dram_mm (pt_mm pt) → table_range pt src n → table_range pt dst n → 0 < dst →
    openable pt (src / PageSize) n →
    CanContain_state (pt_regions pt) dst (n * PageSize) KMemoryState_AliasCode = Done true ok →
    MapCodeMemory pt dst src (n * PageSize) = Done true (r, pt') → table_reachable other pt'
| tr_unmap_code other pt dst src n ok r flush pt' :
    table_reachable other pt → table_range pt src n → table_range pt dst n →
    managed_range pt (dst / PageSize) n →
    CanContain_state (pt_regions pt) dst (n * PageSize) KMemoryState_AliasCode = Done true ok →
    UnmapCodeMemory pt dst src (n * PageSize) = Done true (r, flush, pt') → table_reachable other pt'
| tr_unmap_group other pt addr n g state ok r pt' :
    table_reachable other pt → table_range pt addr n → group_wf g → Z.of_nat (length (group_pages g)) = n →
    state ≠ KMemoryState_Free → managed_range pt (addr / PageSize) n →
    CanContain_state (pt_regions pt) addr (n * PageSize) state = Done true ok →
    UnmapPageGroup pt addr g state = Done true (r, pt') → table_reachable other pt'
| tr_make_group other pt addr n t r pt' g :
    table_reachable other pt → table_range pt addr n → openable pt (addr / PageSize) n →
    MakeAndOpenPageGroup pt [] addr n t = Done true (r, pt', g) →
    table_reachable (holding r g other) pt'
| tr_lock other pt addr n flag perm r pt' g pa :
    table_reachable other pt → table_range pt addr n → openable pt (addr / PageSize) n →
    LockMemoryAndOpen pt (Some []) false addr (n * PageSize) (lockable_test flag) perm
      KMemoryAttribute_Locked = Done true (r, pt', Some g, pa) →
    table_reachable (holding r g other) pt'
| tr_unlock other pt addr n flag g r pt' :
    table_reachable other pt → table_range pt addr n → group_wf g →
    UnlockMemory pt addr (n * PageSize) (locked_test flag) KMemoryPermission_UserReadWrite
      KMemoryAttribute_Locked (Some g) = Done true (r, pt') → table_reachable other pt'
| tr_drop other pt g :
    table_reachable other pt → table_reachable other (drop_group pt g).

Lemma pt_inv_start other pt : table_ok pt → heap_ok pt → mm_wf (pt_mm pt) →
  (∀ v, pe_addr (entry_at (m_impl pt) v) = 0) → (∀ p, 0 ≤ other p) →
  (∀ p, in_mm (pt_mm pt) p → other p ≤ page_ref (pt_mm pt) p) → pt_inv other pt.
Proof.
  intros Hk Hh Hm He Ho Hr. assert (Hn : ∀ w, translate (m_impl pt) w = None).
  { intros w. unfold translate. rewrite He. by destruct (_ <? _). }
  split; try done; [by intros v Hv; rewrite He in Hv|]. intros p vs Hp _ Hvs.
  destruct vs as [|w vs]; [simpl; rewrite Z.add_0_l; by apply Hr|].
  destruct (Hvs w) as [_ E]; [by left|]. by rewrite Hn in E.
Qed.

Lemma pt_inv_others other other' pt mm : pt_inv other pt → same_mm (pt_mm pt) mm → mm_wf mm →
  (∀ p, 0 ≤ other' p) →
  (∀ p, in_mm (pt_mm pt) p → page_ref mm p - page_ref (pt_mm pt) p = other' p - other p) →
  pt_inv other' (with_mm mm pt).
Proof.
  intros Hi Hs Hw Ho Hr.
  assert (pt_inv other' (with_mm mm (with_infos (m_block_info_manager pt) pt))) as Hi'; [|by destruct pt].
  eapply pt_inv_mm; [done..|]. intros p vs Hp Hnd Hvs. apply (same_mm_in _ _ p Hs) in Hp.
  pose proof (pi_counted _ _ Hi p vs Hp Hnd Hvs). specialize (Hr p Hp). lia.
Qed.

Lemma blocks_updated_inv other pt k r pt' (P : Prop) addr n f : pt_inv other pt →
  P ∨ (out_of_blocks pt k r pt' ∨ r = ResultSuccess ∧ blocks_updated addr n f pt pt') →
  (P → pt_inv other pt') → pt_inv other pt'.
Proof.
  intros Hi [HP|[(_ & _ & s & _ & ->)|(_ & [B1 B2 _ _])]] HP'; [by apply HP'|by apply pt_inv_slab|].
  by eapply pt_inv_blocks.
Qed.

Lemma out_of_blocks_inv other pt k r pt' : pt_inv other pt → out_of_blocks pt k r pt' → pt_inv other pt'.
Proof. intros Hi (_ & _ & s & _ & ->). by apply pt_inv_slab. Qed.

Lemma group_state_inv other pt pt' g : pt_inv other pt → group_state pt [] pt' g → pt_inv other pt'.
Proof. intros Hi Hg. by eapply pt_inv_infos; [|apply Hg..]. Qed.

Lemma group_failed_result pt v n r g : group_failed pt v n r g → Result_IsSuccess r = false.
Proof. by intros (_ & _ & [[-> _]|[-> _]]). Qed.

Lemma reachable_inv other pt : table_reachable other pt → pt_inv other pt.
Proof.
  induction 1 as [|? ? ? ? _ IH|other pt addr n g p r pt' _ IH ? ? ? ? E|other pt addr n phys valid p op r pt' _ IH ? ? ? E
    |other pt addr n perm r pt' _ IH ? ? ? E|other pt addr n perm r pt' _ IH Hr E
    |other pt addr n mask attr r pt' _ IH Hr ? ? ? E|other pt size tick timeout r pt' _ IH Hw ? ? ? ? ? E
    |other pt addr n state perm ok r pt' _ IH ? ? ? ? ? Hok E|other pt addr n state r pt' _ IH ? ? ? E
    |other pt addr n g state perm ok r pt' _ IH ? ? ? ? ? ? ? ? Hok E
    |other pt n k phys rs rn state perm gen ok r out pt' gen' _ IH ? ? ? ? ? ? ? ? Hok E
    |other pt n g rs rn state perm gen ok r out pt' gen' _ IH ? ? ? ? ? ? ? ? ? Hok E
    |other pt dst src n r pt' _ IH ? ? ? ? ? E|other pt dst src n r pt' _ IH ? ? ? E
    |other pt dst src n ok r pt' _ IH ? ? ? ? ? Hok E|other pt dst src n ok r flush pt' _ IH ? ? ? Hok E
    |other pt addr n g state ok r pt' _ IH ? ? ? ? ? Hok E
    |other pt addr n t r pt' g _ IH ? ? E|other pt addr n flag perm r pt' g pa _ IH ? ? E
    |other pt addr n flag g r pt' _ IH ? ? E|other pt g _ IH].
  - by apply pt_inv_start.
  - by eapply pt_inv_others.
  - eapply wp_Done_inv in E; [|by apply (Operate_group_run other)]. apply E.
  - eapply wp_Done_inv in E; [|by apply (Operate_unmap_run other)]. destruct E as (_ & ps & U & _). apply U.
  - eapply wp_Done_inv in E; [|by apply (AllocateAndMapPagesImpl_run other)].
    destruct E as [(_ & ps & _ & F)|[N _]]; [apply F|apply N].
  - eapply wp_Done_inv in E; [|by apply SetMemoryPermission_run; [apply IH|]].
    eapply (blocks_updated_inv other pt); [done|destruct E as [E|[_ E]]; [left; exact E|right; exact E]|].
    intros (_ & -> & _). done.
  - eapply wp_Done_inv in E; [|by apply SetMemoryAttribute_run; [apply IH|..]].
    eapply (blocks_updated_inv other pt); [done|destruct E as [E|[_ E]]; [left; exact E|right; exact E]|].
    intros (_ & -> & _). done.
  - eapply wp_Done_inv in E; [|by apply (SetHeapSize_run other)].
    destruct r as [r|]; [|destruct E as (_ & _ & ->); by apply pt_inv_limit].
    destruct E as [(_ & [(_ & ps & Gr)|[(_ & ->)|(_ & ps & Gr & _)]])|[_ K]]; [apply Gr|done|apply Gr|apply K].
  - eapply wp_Done_inv in E; [|by apply (MapPages_run other)].
    destruct E as [(_ & -> & _)|(_ & _ & [O|[[_ D]|[_ F]]])]; [done|by eapply out_of_blocks_inv|apply D|apply F].
  - eapply wp_Done_inv in E; [|by apply (UnmapPages_run other)].
    destruct E as [(_ & -> & _)|(_ & [O|[_ D]])]; [done|by eapply out_of_blocks_inv|apply D].
  - eapply wp_Done_inv in E; [|by apply (MapPageGroup_run other pt addr n g state perm ok)].
    destruct E as [(_ & -> & _)|(_ & _ & [O|[_ D]])]; [done|by eapply out_of_blocks_inv|apply D].
  - eapply wp_Done_inv in E; [|by apply (MapPages_any_run other pt n k phys rs rn state perm gen ok)].
    destruct E as [(_ & _ & -> & _)|[(_ & _ & _ & -> & _)|(_ & addr & _ & [[_ O]|[(_ & _ & D)|(_ & _ & F)]])]];
      [done|done|by eapply out_of_blocks_inv|apply D|apply F].
  - eapply wp_Done_inv in E; [|by apply (MapPageGroup_any_run other pt n g rs rn state perm gen ok)].
    destruct E as [(_ & _ & ->)|(_ & addr & _ & [[_ O]|(_ & _ & D)])]; [done|by eapply out_of_blocks_inv|apply D].
  - eapply wp_Done_inv in E; [|by apply (MapMemory_inv other)]. exact E.
  - eapply wp_Done_inv in E; [|by apply (UnmapMemory_inv other)]. exact E.
  - eapply wp_Done_inv in E; [|by eapply (MapCodeMemory_inv other)]. exact E.
  - eapply wp_Done_inv in E; [|by eapply (UnmapCodeMemory_inv other)]. exact E.
  - eapply wp_Done_inv in E; [|by apply (UnmapPageGroup_run other pt addr n g state ok)].
    destruct E as [(_ & (c & -> & ?) & _)|(_ & _ & _ & [(c & ? & O)|[_ D]])]; [by apply pt_inv_cached| |apply D].
    eapply out_of_blocks_inv; [|exact O]. by apply pt_inv_cached.
  - eapply wp_Done_inv in E; [|by apply (MakeAndOpenPageGroup_run other)]. unfold holding.
    destruct E as (_ & [(-> & -> & _)|[(_ & F & Gs)|(_ & -> & _ & I & _)]]); [done| |done].
    rewrite (group_failed_result _ _ _ _ _ F). by eapply group_state_inv.
  - eapply wp_Done_inv in E; [|by apply (LockMemoryAndOpen_run other)]. unfold holding.
    destruct E as (_ & g' & [= <-] & _ & [(-> & -> & _)|(_ & [(F & Gs)|[(pt1 & Gs & O)|(-> & L)]])]); [done|..|apply L].
    + rewrite (group_failed_result _ _ _ _ _ F). by eapply group_state_inv.
    + pose proof O as (-> & _). eapply out_of_blocks_inv; [by eapply group_state_inv|exact O].
  - eapply wp_Done_inv in E; [|by apply (UnlockMemory_run other)].
    destruct E as [(_ & -> & _)|[(_ & _ & (c & -> & ?) & _)|(_ & _ & [(c & ? & O)|(_ & U)])]];
      [done|by apply pt_inv_cached| |apply U]. eapply out_of_blocks_inv; [|exact O]. by apply pt_inv_cached.
  - by apply pt_inv_drop.
Qed.

(** C2: a page of the memory manager that is mapped has at least one reference for
    each virtual page that maps it, besides the references of the rest of the system,
    so that it is never free: memory that a process can reach is never given away.
    This holds in every table reached from one with nothing mapped by mapping and
    unmapping operations on ranges and page groups, [AllocateAndMapPagesImpl],
    [SetMemoryPermission], [SetMemoryAttribute], [SetHeapSize], [MapPages] (at an
    address, and at one of the kernel's choice with memory of the pool),
    [UnmapPages], [MapPageGroup] (both forms), [UnmapPageGroup], [MapMemory],
    [UnmapMemory], [MapCodeMemory], [UnmapCodeMemory], [MakeAndOpenPageGroup], and
    the locks of memory with a page group (transfer memory, code memory), whatever
    references the rest of the system opens and closes of its own in between; each
    operation is called on pages of the address space, groups that are mapped are
    open heap memory with counts that do not overflow, and ranges that are unmapped
    hold managed memory.  The managed memory lies in DRAM and the pool is valid, memory
    is mapped with a state other than free whose region test runs and not at address
    zero, regions for an address of the kernel's choice have room for the guard pages,
    and a change of attributes changes the first block.  Each operation may succeed or
    fail, and fails no assertion.  Not among these operations are the locks for devices and
    IPC buffers and [SetProcessMemoryPermission], which change no mapping, and
    [MapPages] at a given physical address. *)
Theorem mapped_pages_held other pt p vs : table_reachable other pt → in_mm (pt_mm pt) p →
  NoDup vs → (∀ w, w ∈ vs → 0 ≤ w ∧ translate (m_impl pt) w = Some p) → vs ≠ [] →
  Z.of_nat (length vs) + other p ≤ page_ref (pt_mm pt) p ∧ ¬ page_free (pt_mm pt) p.
Proof.
  intros Hre Hp Hnd Hvs Hne. pose proof (reachable_inv _ _ Hre) as Hi.
  split; [by apply (pi_counted _ _ Hi)|]. destruct vs as [|w vs]; [done|].
  destruct (Hvs w) as [? ?]; [by left|]. by eapply mapped_not_free.
Qed.

(** C3: [MapPages] at an address of the kernel's choice, in a region that has room
    for the pages and their guard pages, runs with no assertion failing, whatever
    the random numbers are: the area it finds is aligned, inside the region, and
    with its guard pages inside one free block.  It then maps free pages of the
    pool there, cleared and with one reference each, and sets the state and the
    permission of exactly these pages; it finds no area only if the search from the
    start of the region finds none, and on every failure no page of the address
    space changes and no reference, block or block info is lost. *)
Theorem MapPages_any_correct other pt n k phys region_start region_num_pages state perm gen ok :
  let alignment := 2 ^ k in
  let guard := GetNumGuardPages pt in
  pt_inv other pt → dram_mm (pt_mm pt) → pool_valid (m_allocate_option (pt_config pt)) →
  areas_ok (pt_regions pt) → 12 ≤ k < 64 →
  region_ok pt region_start region_num_pages n alignment 0 guard → 0 < region_start →
  0 ≤ state < 2 ^ 32 → state ≠ KMemoryState_Free →
  CanContain_state (pt_regions pt) region_start (region_num_pages * PageSize) state = Done true ok →
  wp (MapPages_any pt n alignment phys false region_start region_num_pages state perm gen) (λ '(r, out, pt', _),
    (r = ResultInvalidCurrentMemory ∧ out = None ∧ pt' = pt ∧ ok = false) ∨
    (ok = true ∧ r = ResultOutOfMemory ∧ out = None ∧ pt' = pt ∧
     KMemoryBlockManager_FindFreeArea (blocks pt) region_start region_num_pages n alignment 0 guard = 0) ∨
    (ok = true ∧ ∃ addr,
     area_found (blocks pt) region_start region_num_pages n alignment 0 guard addr ∧
     ((out = None ∧ out_of_blocks pt 2 r pt') ∨
      (r = ResultSuccess ∧ out = Some addr ∧
       request_done other pt addr n (set_props state perm KMemoryAttribute_None)
         (λ t mm, ∃ ps, Z.of_nat (length ps) = n ∧ fresh_pages pt (addr / PageSize) ps t mm) pt') ∨
      (Result_IsSuccess r = false ∧ out = None ∧
       request_failed other pt (λ t mm, no_pages pt n r ∧ nothing_mapped pt t mm) pt')))).
Proof. apply MapPages_any_run. Qed.

(** C7: [IsValidPageGroup], which compares runs of physical pages with the blocks
    of a group, accepts a group exactly when the pages of its first blocks are, page
    by page, the physical pages of the range, and every physically contiguous run
    starts in the heap; it changes nothing but the cached region.  A group with the
    number of pages of the range is accepted exactly when [MakePageGroup] could have
    made it. *)
Theorem IsValidPageGroup_correct pt g addr n :
  table_ok pt → entries_ok (m_impl pt) → heap_ok pt → table_range pt addr n → group_wf g →
  wp (IsValidPageGroup pt g addr n) (λ '(b, pt'), (∃ cc, pt' = with_cached cc pt) ∧ heap_ok pt' ∧
    (b = true ↔ valid_group pt (addr / PageSize) n g) ∧
    (Z.of_nat (length (group_pages g)) = n → b = true ↔ group_made pt (addr / PageSize) n g)).
Proof.
  intros Hk Hok Hh Hr Hg. eapply wp_mono; [by apply IsValidPageGroup_run|].
  intros [b pt'] (Hc & Hh' & Hb). split; [done|]. split; [done|]. split; [done|]. intros Hl.
  rewrite Hb. apply valid_group_all; [done|done|apply Hr].
Qed.

(** ** Mapping and unmapping pages *)

(** All managed memory is in the heap regions of the layout. *)
Definition heap_mm (mm : KMemoryManager R) : Prop :=
  ∀ p, in_mm mm p → heap_address (m_memory_layout mm) (p * PageSize) = true.

Lemma fresh_lookup pt v n ps t mm w : fresh_pages pt v ps t mm → Z.of_nat (length ps) = n → 0 ≤ v →
  (∀ p, in_mm (pt_mm pt) p → ¬ v ≤ p < v + n) → v ≤ w < v + n →
  ∃ p, p ∈ ps ∧ in_mm (pt_mm pt) p ∧ translate t w = Some p ∧ ps !! Z.to_nat (w - v) = Some p.
Proof.
  intros F Hl Hv Hid Hw. rewrite (fp_translate _ _ _ _ _ F), decide_True by lia. unfold list_at.
  destruct (lookup_lt_is_Some_2 ps (Z.to_nat (w - v))) as [p E]; [lia|]. rewrite E. simpl.
  pose proof (list_elem_of_lookup_2 _ _ _ E) as Hp. destruct (fp_pages _ _ _ _ _ F p Hp) as [Hin _].
  exists p. split_and!; [done..| |done]. specialize (Hid p Hin).
  destruct (w =? p) eqn:Ew; bool_prop; [lia|done].
Qed.

Lemma fresh_translated pt v n ps t mm : fresh_pages pt v ps t mm → Z.of_nat (length ps) = n → 0 ≤ v →
  (∀ p, in_mm (pt_mm pt) p → ¬ v ≤ p < v + n) → translated t v ps.
Proof.
  intros F Hl Hv Hid. apply translated_spec. intros i p Hi. pose proof (lookup_lt_Some _ _ _ Hi).
  destruct (fresh_lookup pt v n ps t mm (v + Z.of_nat i) F Hl Hv Hid) as (q & _ & _ & -> & Hq); [lia|].
  replace (Z.to_nat (v + Z.of_nat i - v)) with i in Hq by lia. congruence.
Qed.

(** Closing the pages that were mapped gives the memory manager back. *)
Lemma fresh_closed pt v ps t mm mm' p : mm_wf (pt_mm pt) → fresh_pages pt v ps t mm → mm_counted (-1) ps mm mm' →
  in_mm (pt_mm pt) p → page_ref mm' p = page_ref (pt_mm pt) p ∧ (page_free mm' p ↔ page_free (pt_mm pt) p).
Proof.
  intros Hw F M Hp. assert (Hp1 : in_mm mm p) by (by apply (same_mm_in _ _ p (fp_same _ _ _ _ _ F))).
  rewrite (mc_ref _ _ _ _ M p Hp1), (mc_free _ _ _ _ M p Hp1), (fp_ref _ _ _ _ _ F p Hp), (fp_free _ _ _ _ _ F p Hp).
  rewrite (times_NoDup p ps (fp_nodup _ _ _ _ _ F)). destruct (decide (p ∈ ps)) as [E|E].
  - destruct (fp_pages _ _ _ _ _ F p E) as (_ & Hf & _). rewrite (free_ref _ _ Hw Hp Hf). split; [lia|]. split; [done|].
    intros _. right. split; [done|lia].
  - split; [lia|]. tauto.
Qed.

(** Memory that was mapped passes the test of unmapping. *)
Lemma mapped_uniform m m1 addr n state perm : 0 < n → 0 ≤ state < 2 ^ 32 →
  uniform m addr n free_test DefaultMemoryIgnoreAttr →
  (∀ x q, addr ≤ x < addr + n * PageSize → pages m x = Some q → pp_attribute q = KMemoryAttribute_None) →
  range_updated addr (addr + n * PageSize) (set_props state perm KMemoryAttribute_None) m m1 →
  uniform m1 addr n (state_test state) DefaultMemoryIgnoreAttr.
Proof.
  intros Hn Hst (q & Hq & Hall) Hattr D.
  assert (Hpg : ∀ x, addr ≤ x < addr + n * PageSize → ∃ q',
    pages m1 x = Some (set_props state perm KMemoryAttribute_None q') ∧ pp_attribute q' = KMemoryAttribute_None).
  { intros x Hx. destruct (Hall x Hx) as (q' & Hq' & _). exists q'. rewrite (ru_pages _ _ _ _ _ D), decide_True, Hq' by done.
    split; [done|]. by eapply Hattr. }
  destruct (Hpg addr) as (qa & Hqa & Ea); [rewrite PageSize_eq; lia|].
  eexists. split; [exact Hqa|]. intros x Hx. destruct (Hpg x Hx) as (q' & Hq' & Eq').
  eexists. split; [exact Hq'|]. unfold alike, passes, set_props. simpl. rewrite Ea, Eq'. split_and!; try done.
  - change KMemoryState_All with (Z.ones 32). rewrite Z.land_ones, Z.mod_small by lia. done.
  - by rewrite Z.land_0_r.
Qed.

(** C4: pages that [MapPages] mapped and [UnmapPages] unmapped again are all back:
    every page of physical memory has the references it had and is free if it was,
    the translations outside the range are as they were and the range is unmapped
    and free, and no block info and no memory block is lost.  Unmapping fails only
    for want of memory blocks.  This holds in a table that satisfies the invariant
    [pt_inv], for pages of the address space and a state other than free whose region
    test runs, when the pool is valid and the managed memory lies in DRAM and in heap
    regions; when the range has no page number that is also the page number of managed
    physical memory (a page mapped to its own number would be lost, see C40); when
    there are as many free block infos as pages; and when no page of the range has an
    attribute. *)
Theorem MapPages_UnmapPages_roundtrip other pt addr n state perm ok :
  pt_inv other pt → dram_mm (pt_mm pt) → pool_valid (m_allocate_option (pt_config pt)) →
  table_range pt addr n → 0 ≤ state < 2 ^ 32 → state ≠ KMemoryState_Free →
  CanContain_state (pt_regions pt) addr (n * PageSize) state = Done true ok →
  heap_mm (pt_mm pt) → n ≤ Z.of_nat (infos_of pt) →
  (∀ p, in_mm (pt_mm pt) p → ¬ addr / PageSize ≤ p < addr / PageSize + n) →
  (∀ x q, addr ≤ x < addr + n * PageSize → pages (blocks pt) x = Some q →
     pp_attribute q = KMemoryAttribute_None) →
  wp ('(r1, pt1) ← MapPages pt addr n state perm;
      if Result_IsSuccess r1 then
        '(r2, pt2) ← UnmapPages pt1 addr n state; mret (r1, Some r2, pt2)
      else mret (r1, None, pt1)) (λ '(r1, r2, pt2), pt_inv other pt2 ∧ infos_of pt2 = infos_of pt ∧
    (slab_of pt2 + length (tree_of pt2) = slab_of pt + length (tree_of pt))%nat ∧
    (Result_IsSuccess r1 = true →
     r2 = Some ResultOutOfResource ∨
     (r2 = Some ResultSuccess ∧
      range_updated addr (addr + n * PageSize) freed_props (blocks pt) (blocks pt2) ∧
      (∀ w, 0 ≤ w → translate (m_impl pt2) w =
         if decide (addr / PageSize ≤ w < addr / PageSize + n) then None else translate (m_impl pt) w) ∧
      ∀ p, in_mm (pt_mm pt) p → page_ref (pt_mm pt2) p = page_ref (pt_mm pt) p ∧
        (page_free (pt_mm pt2) p ↔ page_free (pt_mm pt) p)))).
Proof.
  intros Hi Hd Hpool Hr Hst Hf Hok Hheap Hinf Hid Hattr. pose proof (pi_table _ _ Hi) as Hk.
  destruct (range_pages _ _ _ Hk Hr) as (_ & Hv & Hn & _). set (v := addr / PageSize) in *.
  apply wp_bind. eapply wp_mono; [by apply (MapPages_run other)|]. fold v.
  intros [r1 pt1] [(-> & -> & _)|(_ & Hu & [O|[[-> D]|[E F]]])].
  - by apply wp_ret.
  - destruct O as (-> & _ & s & Es & ->). apply wp_ret. split; [by apply pt_inv_slab|]. split; [done|].
    split; [|done]. unfold slab_of, tree_of in *. simpl in *. lia.
  - change (Result_IsSuccess ResultSuccess) with true. cbn match. destruct D as [D1 D2 (ps & Hl & F) D4 D5 D6].
    assert (Hr1 : table_range pt1 addr n) by (by destruct D2 as (?&?&?&?&?&?&->)).
    assert (Hm1 : managed_range pt1 v n).
    { intros w p Hw Ht. destruct (fresh_lookup pt v n ps _ _ w F Hl Hv Hid Hw) as (q & _ & Hq & Hq2 & _).
      rewrite Hq2 in Ht. injection Ht as <-. by apply (same_mm_in _ _ q (fp_same _ _ _ _ _ F)). }
    apply wp_bind. eapply wp_mono; [by apply (UnmapPages_run other)|]. fold v.
    intros [r2 pt2] [(-> & -> & Hnu)|(_ & [O|[-> D']])].
    + exfalso. apply Hnu. by eapply (mapped_uniform (blocks pt)).
    + destruct O as (-> & _ & s & Es & ->). apply wp_ret. split; [by apply pt_inv_slab|]. split; [done|].
      split; [|by left]. unfold slab_of, tree_of in *. simpl in *. lia.
    + apply wp_ret. destruct D' as [D1' D2' (ps' & [C1 C2 C3 C4 C5]) D4' D5' D6'].
      split; [done|]. split; [congruence|]. split; [lia|]. intros _. right. split; [done|].
      assert (ps' = ps) as ->.
      { eapply translated_inj; [exact C1|by eapply fresh_translated|]. apply Nat2Z.inj. rewrite Hl. apply C3. split; [|lia].
        intros w Hw. destruct (fresh_lookup pt v n ps _ _ w F Hl Hv Hid Hw) as (q & _ & Hq & Hq2 & _).
        unfold not_heap_page. rewrite Hq2, (sm_layout _ _ (fp_same _ _ _ _ _ F)), Hheap by done. done. }
      split; [|split].
      * destruct D4 as [A1 A2 A3], D4' as [B1 B2 B3]. split; [congruence|congruence|]. intros x. rewrite B3, A3.
        case_decide; [|done]. destruct (pages (blocks pt) x) as [q|] eqn:Eq; [|done]. simpl. f_equal.
        unfold freed_props, set_props. simpl. f_equal. by rewrite (Hattr x q).
      * intros w Hw. rewrite C4 by done. case_decide; [done|]. rewrite (fp_translate _ _ _ _ _ F), decide_False by lia. done.
      * intros p Hp. by eapply fresh_closed; [apply Hi|..].
  - rewrite E. apply wp_ret. destruct F as [F1 F2 _ F4 F5 F6]. split; [done|]. split; [done|].
    split; [|by rewrite E]. unfold tree_of. by rewrite F4, F5.
Qed.
(** ** Locking and unlocking memory *)

(** The pages of a range that can be locked, after the lock: they pass the test of
    unlocking. *)
Lemma locked_uniform m m1 addr n flag perm :
  0 < n → uniform m addr n (counted_test (lockable_test flag)) DefaultMemoryIgnoreAttr →
  (∀ x q, addr ≤ x < addr + n * PageSize → pages m x = Some q → pp_attribute q = KMemoryAttribute_None) →
  range_updated addr (addr + n * PageSize)
    (λ q, relock (lock_perm perm (pp_permission q)) KMemoryAttribute_Locked q) m m1 →
  uniform m1 addr n (counted_test (locked_test flag)) DefaultMemoryIgnoreAttr.
Proof.
  intros Hn (q & Hq & Hall) Hattr D.
  assert (Hx0 : addr ≤ addr < addr + n * PageSize) by (rewrite PageSize_eq; lia).
  assert (Hpg : ∀ x q', addr ≤ x < addr + n * PageSize → pages m x = Some q' →
    pages m1 x = Some (relock (lock_perm perm (pp_permission q')) KMemoryAttribute_Locked q')).
  { intros x q' Hx Hq'. by rewrite (ru_pages _ _ _ _ _ D), decide_True, Hq'. }
  eexists. split; [by apply Hpg|]. intros x Hx. destruct (Hall x Hx) as (q' & Hq' & (A1 & A2 & _) & (P1 & _)).
  eexists. split; [by apply Hpg|]. unfold alike, passes, relock, set_props. simpl.
  rewrite A1, A2, (Hattr x q' Hx Hq'), (Hattr addr q Hx0 Hq). split_and!; try done.
  - rewrite <- A1. exact P1.
  - by rewrite Z.land_0_r.
Qed.

Lemma lockable_pages pt addr n flag : table_ok pt →
  uniform (blocks pt) addr n (counted_test (lockable_test flag)) DefaultMemoryIgnoreAttr →
  (∀ x q, addr ≤ x < addr + n * PageSize → pages (blocks pt) x = Some q → 0 ≤ pp_permission q < 2 ^ 8) →
  ∀ x q, addr ≤ x < addr + n * PageSize → pages (blocks pt) x = Some q →
    pp_attribute q = KMemoryAttribute_None ∧ pp_permission q = KMemoryPermission_UserReadWrite.
Proof.
  intros Hk (q0 & _ & Hall) Hperm x q Hx Hq. destruct (Hall x Hx) as (q' & Hq' & _ & Hp).
  rewrite Hq in Hq'. injection Hq' as <-. split; [by apply (passes_no_attr _ _ (tk_pages _ Hk _ _ Hq) Hp)|].
  destruct Hp as (_ & Hp & _). rewrite <- (Z.mod_small (pp_permission q) (2 ^ 8)) by (by eapply Hperm).
  rewrite <- Z.land_ones by lia. exact Hp.
Qed.

(** C5: transfer memory that a process locked and unlocked again is as it was: the
    state, the permission and the attributes of every page of the address space, and
    every translation; while it is locked the group holds the physical pages of the
    range, in order, with a reference each, which it keeps until it is closed.
    Unlocking with that group fails only for want of memory blocks. *)
Theorem TransferMemory_roundtrip other pt addr n perm :
  pt_inv other pt → table_range pt addr n → openable pt (addr / PageSize) n →
  (∀ x q, addr ≤ x < addr + n * PageSize → pages (blocks pt) x = Some q → 0 ≤ pp_permission q < 2 ^ 8) →
  wp ('(r1, pt1, out, _) ← LockForTransferMemory pt [] addr (n * PageSize) perm;
      g ← deref out;
      if Result_IsSuccess r1 then
        '(r2, pt2) ← UnlockForTransferMemory pt1 addr (n * PageSize) g; mret (r1, Some r2, g, pt2)
      else mret (r1, None, g, pt1)) (λ '(r1, r2, g, pt2),
    (infos_of pt2 + length g = infos_of pt)%nat ∧
    (slab_of pt2 + length (tree_of pt2) = slab_of pt + length (tree_of pt))%nat ∧
    (Result_IsSuccess r1 = false → ∀ x, pages (blocks pt2) x = pages (blocks pt) x) ∧
    (Result_IsSuccess r1 = true →
     pt_inv (plus_group other (group_pages g)) pt2 ∧ group_made pt (addr / PageSize) n g ∧
     m_impl pt2 = m_impl pt ∧ mm_counted 1 (group_pages g) (pt_mm pt) (pt_mm pt2) ∧
     (r2 = Some ResultOutOfResource ∨
      (r2 = Some ResultSuccess ∧ ∀ x, pages (blocks pt2) x = pages (blocks pt) x)))).
Proof.
  intros Hi Hr Hop Hperm. pose proof (pi_table _ _ Hi) as Hk.
  unfold LockForTransferMemory, UnlockForTransferMemory. apply wp_bind.
  eapply wp_mono; [by apply (LockMemoryAndOpen_run other)|].
  intros [[[r1 pt1] out] pa] (_ & g & -> & Hg & Hres). cbn [deref]. pstep.
  destruct Hres as [(-> & -> & -> & _)|(Hu & [(Hf & Hgs)|[(pt0 & Hgs & Ho)|(-> & L)]])].
  - apply wp_ret. split_and!; done.
  - pose proof (group_failed_result _ _ _ _ _ Hf) as E. rewrite E. apply wp_ret. pose proof (gs_infos _ _ _ _ Hgs).
    destruct (gs_only _ _ _ _ Hgs) as (c & s & ->). split; [simpl in *; lia|]. split; [done|]. split; [done|]. by rewrite E.
  - pose proof (gs_infos _ _ _ _ Hgs). destruct (gs_only _ _ _ _ Hgs) as (c & s & ->). destruct Ho as (-> & _ & s' & Es & ->).
    apply wp_ret. split; [unfold infos_of in *; simpl in *; lia|]. split; [|done]. unfold slab_of, tree_of in *. simpl in *. lia.
  - change (Result_IsSuccess ResultSuccess) with true. cbn match.
    destruct L as [L1 L2 L3 L4 L5 L6 L7 L8].
    pose proof (lockable_pages pt addr n _ Hk Hu Hperm) as Hattr.
    assert (Hr1 : table_range pt1 addr n) by (by destruct L2 as (?&?&?&?&?&?&->)).
    assert (Hl1 : m_memory_layout (pt_mm pt1) = m_memory_layout (pt_mm pt)) by (apply (sm_layout _ _ (mc_same _ _ _ _ L5))).
    apply wp_bind. eapply wp_mono; [by apply (UnlockMemory_run (plus_group other (group_pages g)))|].
    intros [r2 pt2] [(-> & -> & Hnu)|[(_ & -> & _ & Hnv)|(_ & _ & Hout)]].
    + exfalso. apply Hnu. eapply (locked_uniform (blocks pt)); [apply Hr|done| |done]. intros x q Hx Hq. by eapply Hattr.
    + exfalso. apply Hnv. exists g, []. rewrite app_nil_r. split; [done|]. unfold group_made in *. by rewrite L3, Hl1.
    + apply wp_ret. destruct Hout as [(c & Hh & O)|(-> & U)].
      * destruct O as (-> & _ & s' & Es & ->). split; [unfold infos_of in *; simpl in *; lia|].
        split; [unfold slab_of, tree_of in *; simpl in *; lia|]. split; [done|]. intros _.
        split; [apply pt_inv_slab; by apply pt_inv_cached|]. split_and!; [done..|by left].
      * destruct U as [U1 U2 U3 U4 U5 U6 U7]. split; [lia|]. split; [lia|]. split; [done|]. intros _.
        rewrite U3, U4, L3. split_and!; [done..|]. right. split; [done|]. intros x.
        rewrite (ru_pages _ _ _ _ _ U5), (ru_pages _ _ _ _ _ L6). case_decide as Hx; [|done].
        destruct (pages (blocks pt) x) as [q|] eqn:Eq; [|done]. simpl. f_equal.
        destruct (Hattr x q Hx Eq). by apply relock_back; [by eapply tk_pages|..].
Qed.
End RequestProperties.
