(* ===== verification/PageTableExamples.v ===== *)
(** * The page table on concrete memory

    An address space of two megabytes with sixteen pages of normal memory in it,
    over the eight pages of physical memory of [MemoryManagerExamples]. *)

From S2P Require Import Prelude Common MemoryBlock OrderedTree MemoryBlockManager MemoryBlockManagerLemmas MemoryBlockManagerUpdate MemoryBlockManagerTheorems MemoryBlockManagerExamples PageBitmap PageBitmapLemmas PageBitmapTheorems PageHeap PageHeapLemmas PageHeapTheorems PageHeapExamples MemoryRegionType MemoryRegion MemoryLayout MemoryRegionTheorems PageGroup MemoryManager PageGroupTheorems MemoryManagerLemmas MemoryManagerPages MemoryManagerAllocate MemoryManagerOperations MemoryManagerExamples ResourceLimit ResourceLimitTheorems PageTable PageTableOperations PageTableCheck PageTablePermission PageTableTranslation PageTableOperate PageTableHeap PageTableRequests PageTableRequestLemmas PageTableLocks PageTableFreeArea PageTableProperties.

Definition ex_space : Regions :=
  MkRegions 0x200000 0x400000 0x300000 0x340000 0x340000 0x380000 0x380000 0x3C0000 0x3C0000 0x400000
    0x200000 0x300000 0x200000 0x210000 0.
Definition ex_config : Config := MkConfig ex_option 22 false false false 0x5A 0 0.

Definition ex_table_over (mm : KMemoryManager Z) : KPageTableBase Z nat :=
  MkTable ex_space ex_config 0x300000 0x40000 0 0 (MkPageTable ∅ 1024 22 PageSize) ex_heap None 9%nat 9%nat
    ex_limit mm.
Definition ex_table : KPageTableBase Z nat := ex_table_over ex_far.

Lemma ex_heap_pages x q : pages ex_heap x = Some q → page_ok q.
Proof.
  intros (b & [Hb _] & <-)%(pages_Some _ 0x200000 0x400000); [|apply ex_heap_wf].
  each_block Hb; (split; [vm_compute; split; congruence|]; split; [vm_compute; split; congruence|done]).
Qed.

Lemma ex_page_table_ok mm : table_ok (ex_table_over mm).
Proof.
  split; [apply ex_heap_wf|done..|vm_compute; congruence|vm_compute; congruence|done|apply ex_heap_pages].
Qed.

Lemma ex_heap_ok mm : m_memory_layout mm = ex_layout 0x90000 0x90010 → heap_ok (ex_table_over mm).
Proof.
  intros E. split; simpl; rewrite ?E; [|by repeat constructor|done].
  apply (ex_regions_wf 0x90000 0x90010). unfold ex_places, ex_pages. lia.
Qed.

Definition nobody (p : Z) : Z := 0.

Lemma ex_page_ref (mm : KMemoryManager Z) p : mm_wf mm → in_mm mm p → 0 ≤ page_ref mm p.
Proof.
  intros Hw (i & im & Hm & Hi). destruct (page_of_impl mm i im p Hw Hm Hi) as [-> _].
  unfold impl_ref. destruct (_ !! _) as [c|] eqn:E; [|done].
  pose proof (Forall_lookup_1 _ _ _ _ (iw_u16 _ (mw_impl mm Hw i im Hm)) E) as Hc. unfold is_u16 in Hc. simpl. lia.
Qed.

Lemma ex_table_inv mm : mm_wf mm → m_memory_layout mm = ex_layout 0x90000 0x90010 → pt_inv nobody (ex_table_over mm).
Proof.
  intros Hw E. apply pt_inv_start; [apply ex_page_table_ok|by apply ex_heap_ok|done|done|done|].
  intros p Hp. by apply ex_page_ref.
Qed.

Lemma ex_far_inv : pt_inv nobody ex_table.
Proof. apply ex_table_inv; [apply ex_far_wf|done]. Qed.
Lemma ex_opened_inv : pt_inv nobody (ex_table_over ex_opened).
Proof. apply ex_table_inv; [apply ex_opened_wf|vm_compute; reflexivity]. Qed.

Lemma ex_far_dram : dram_mm ex_far.
Proof.
  intros p (i & im & Hm & Hp). unfold DramMemoryMap_Base. rewrite PageSize_eq.
  apply ex_manager in Hm as [[-> ->]|[-> ->]].
  - destruct (ex_impl_wf 0x90000 0x91000000 (Some 1%nat) None ltac:(lia)) as (_ & E1 & E2 & _).
    unfold in_impl in Hp. rewrite E1, E2 in Hp. lia.
  - destruct (ex_impl_wf 0x90010 0x91001000 None (Some 0%nat) ltac:(lia)) as (_ & E1 & E2 & _).
    unfold in_impl in Hp. rewrite E1, E2 in Hp. lia.
Qed.

(** Ranges: half of the normal memory, and four pages of free memory. *)
Lemma ex_normal_range mm : table_range (ex_table_over mm) 0x218000 8.
Proof. split; [lia|]. split; [reflexivity|]. split; vm_compute; congruence. Qed.
Lemma ex_free_range mm : table_range (ex_table_over mm) 0x300000 4.
Proof. split; [lia|]. split; [reflexivity|]. split; vm_compute; congruence. Qed.

Lemma CheckMemoryState_correct_witness : range_ok ex_heap 0x218000 8 ∧
  wp (CheckMemoryState_ignoring ex_heap 0x218000 (8 * PageSize) reprotectable DefaultMemoryIgnoreAttr) (λ '(r, c),
    (r = ResultSuccess ∧ checked ex_heap 0x218000 8 reprotectable DefaultMemoryIgnoreAttr c) ∨
    (r = ResultInvalidCurrentMemory ∧ ¬ uniform ex_heap 0x218000 8 reprotectable DefaultMemoryIgnoreAttr)).
Proof.
  assert (Hr : range_ok ex_heap 0x218000 8).
  { apply (table_range_ok ex_table); [apply ex_page_table_ok|apply ex_normal_range]. }
  split; [exact Hr|]. apply (CheckMemoryState_correct ex_heap 0x218000 8 _ _ Hr).
Defined.

Lemma SetMemoryPermission_correct_witness :
  wp (SetMemoryPermission ex_table 0x218000 (8 * PageSize) 1) (λ '(r, pt'),
    (r = ResultInvalidCurrentMemory ∧ pt' = ex_table ∧
     ¬ uniform ex_heap 0x218000 8 reprotectable DefaultMemoryIgnoreAttr) ∨
    (uniform ex_heap 0x218000 8 reprotectable DefaultMemoryIgnoreAttr ∧
     (out_of_blocks ex_table (list_cuts 0x218000 (0x218000 + 8 * PageSize) (tree_of ex_table)) r pt' ∨
      (r = ResultSuccess ∧ blocks_updated 0x218000 8 (reprotect (ConvertToKMemoryPermission 1)) ex_table pt')))).
Proof. apply (SetMemoryPermission_correct ex_table 0x218000 8 1); [apply ex_page_table_ok|apply ex_normal_range]. Defined.

Lemma SetMemoryAttribute_correct_witness :
  wp (SetMemoryAttribute ex_table 0x218000 (8 * PageSize) KMemoryAttribute_Uncached KMemoryAttribute_Uncached) (λ '(r, pt'),
    (r = ResultInvalidCurrentMemory ∧ pt' = ex_table ∧
     ¬ uniform ex_heap 0x218000 8 (attribute_test KMemoryAttribute_Uncached) (u8 (Z.lnot AttributeTestMask))) ∨
    (uniform ex_heap 0x218000 8 (attribute_test KMemoryAttribute_Uncached) (u8 (Z.lnot AttributeTestMask)) ∧
     (out_of_blocks ex_table (list_cuts 0x218000 (0x218000 + 8 * PageSize) (tree_of ex_table)) r pt' ∨
      (r = ResultSuccess ∧
       blocks_updated 0x218000 8 (set_attr KMemoryAttribute_Uncached KMemoryAttribute_Uncached) ex_table pt')))).
Proof.
  apply (SetMemoryAttribute_correct ex_table 0x218000 8);
    [apply ex_page_table_ok|apply ex_normal_range|reflexivity|reflexivity|].
  intros (d & [= <-] & Hd & _). vm_compute in Hd. by destruct Hd.
Defined.

(** ** New memory *)
Lemma ex_table_heap mm : heap_area_wf (ex_table_over mm).
Proof.
  split; [done|vm_compute; congruence|done|vm_compute; split; congruence|done|vm_compute; congruence
    |apply ex_limit_wf|].
  intros s Hs. vm_compute in Hs. injection Hs as <-. vm_compute. congruence.
Qed.

Lemma ex_table_empty mm w : translate (m_impl (ex_table_over mm)) w = None.
Proof. unfold translate. simpl. unfold entry_at. simpl. rewrite lookup_empty. by destruct (_ <? _). Qed.

(** Eight kilobytes of heap. *)
Lemma SetHeapSize_correct_witness :
  wp (SetHeapSize [] 0 0 ex_table 0x2000) (λ '(r, pt'),
    match r with
    | None => 0x300000 < 0x300000 + 0x2000 ∧ limit_waits ex_table 0x2000 ∧
              pt' = with_limit (set_waiters (λ k, k + 1) ex_limit) ex_table
    | Some r =>
        (r = ResultSuccess ∧
         (0x300000 < 0x300000 + 0x2000 ∧ (∃ ps, heap_grown nobody ex_table 0x2000 ps pt') ∨
          0x300000 = 0x300000 + 0x2000 ∧ pt' = ex_table ∨
          0x300000 + 0x2000 < 0x300000 ∧ ∃ ps, heap_shrunk nobody ex_table 0x2000 ps pt' ∧
            (closable ex_table ((0x300000 + 0x2000) / PageSize) ((0x300000 - (0x300000 + 0x2000)) / PageSize) →
             0x300000 = 0x300000 + 0x2000 + Z.of_nat (length ps) * PageSize))) ∨
        (heap_refused ex_table 0x2000 r ∧ heap_kept nobody ex_table pt')
    end).
Proof.
  apply (SetHeapSize_correct nobody ex_table 0x2000 0 0);
    [apply ex_far_inv|apply ex_table_heap| |apply ex_far_dram|apply ex_option_valid|lia|reflexivity].
  intros w p _ Hw. unfold ex_table in Hw. by rewrite ex_table_empty in Hw.
Defined.

(** ** Mapping and unmapping *)
Definition ex_group : KPageGroup := [MkBlockInfo 0x90000 2; MkBlockInfo 0x90001 2].

Lemma ex_group_open : can_open ex_opened (group_pages ex_group).
Proof.
  intros p Hp. assert (Hr : 0x90000 ≤ p < 0x90000 + 4).
  { apply elem_of_group in Hp as (b & Hb & Hp). each_block Hb; apply elem_of_seqZ in Hp; simpl in Hp; lia. }
  destruct (ex_opened_pages p Hr) as [Hin Href]. split; [done|]. split; [done|].
  assert (Hc : p = 0x90000 ∨ p = 0x90001 ∨ p = 0x90002 ∨ p = 0x90003) by lia.
  destruct Hc as [->|[->|[->| ->]]]; vm_compute; reflexivity.
Qed.

Definition ex_properties : KPageProperties :=
  MkProperties KMemoryPermission_UserReadWrite false false DisableMergeAttribute_None.

Definition ex_table_opened : KPageTableBase Z nat := ex_table_over ex_opened.

(** Four virtual pages for three physical ones, one of them twice. *)
Lemma Operate_map_unmap_roundtrip_witness :
  wp ('(r1, pt1) ← Operate_group ex_table_opened 0x300000 4 ex_group ex_properties Op_MapGroup;
      '(r2, pt2) ← Operate pt1 0x300000 4 0 false ex_properties Op_Unmap;
      mret (r1, r2, pt2)) (λ '(r1, r2, pt2),
    r1 = ResultSuccess ∧ r2 = ResultSuccess ∧ pt_inv nobody pt2 ∧ only_mapping ex_table_opened pt2 ∧
    infos_of pt2 = infos_of ex_table_opened ∧
    (∀ q, in_mm (pt_mm ex_table_opened) q →
       page_ref (pt_mm pt2) q = page_ref (pt_mm ex_table_opened) q ∧
       (page_free (pt_mm pt2) q ↔ page_free (pt_mm ex_table_opened) q)) ∧
    ∀ w, 0 ≤ w → translate (m_impl pt2) w =
      if decide (0x300000 / PageSize ≤ w < 0x300000 / PageSize + 4) then None
      else translate (m_impl ex_table_opened) w).
Proof.
  apply (Operate_map_unmap_roundtrip nobody ex_table_opened 0x300000 4 ex_group);
    [apply ex_opened_inv|apply ex_free_range| |reflexivity|apply ex_group_open| | |vm_compute; congruence].
  - split; repeat constructor; vm_compute; congruence.
  - intros i p Hi. assert (Hp : p ∈ group_pages ex_group) by (by eapply list_elem_of_lookup_2).
    pose proof (lookup_lt_Some _ _ _ Hi) as Hlt. change (length (group_pages ex_group)) with 4%nat in Hlt.
    change (0x300000 / PageSize) with 0x300.
    apply elem_of_group in Hp as (b & Hb & Hp). each_block Hb; apply elem_of_seqZ in Hp; simpl in Hp; lia.
  - intros q Hq. apply elem_of_group in Hq as (b & Hb & Hp).
    each_block Hb; apply elem_of_seqZ in Hp; simpl in Hp;
      (assert (Hc : q = 0x90000 ∨ q = 0x90001 ∨ q = 0x90002) by lia; destruct Hc as [->|[->| ->]]; vm_compute; reflexivity).
Defined.

(** The random number generator that gives the least number of the range. *)
#[local] Instance first_of_range : RandomRange Z := {| GenerateRandomRange lo hi g := (lo, g) |}.
#[local] Instance first_of_range_laws : RandomRangeLaws Z.
Proof. split. simpl. lia. Qed.

(** The table after four pages are mapped. *)
Definition ex_mapping : Z * KPageTableBase Z nat :=
  result (0, ex_table) (AllocateAndMapPagesImpl ex_table 0x300000 4 KMemoryPermission_UserReadWrite).

Lemma wp_Done_result {A} (d : A) (m : prog A) Q : wp m Q → m = Done true (result d m).
Proof. by destruct m as [|[] a]. Qed.

Lemma ex_mapping_run : AllocateAndMapPagesImpl ex_table 0x300000 4 KMemoryPermission_UserReadWrite =
  Done true (ex_mapping.1, ex_mapping.2).
Proof.
  rewrite <- surjective_pairing. eapply wp_Done_result. apply (AllocateAndMapPagesImpl_run nobody);
    [apply ex_far_inv|apply ex_far_dram|apply ex_option_valid|apply ex_free_range].
Qed.

Lemma ex_mapping_reachable : table_reachable nobody ex_mapping.2.
Proof.
  eapply (tr_allocate nobody ex_table 0x300000 4);
    [|apply ex_far_dram|apply ex_option_valid|apply ex_free_range|apply ex_mapping_run].
  apply tr_start; [apply ex_page_table_ok|by apply ex_heap_ok|apply ex_far_wf|done|done|].
  intros p Hp. apply ex_page_ref; [apply ex_far_wf|done].
Qed.

(** A range that is mapped page by page, in descending order. *)
Lemma MakePageGroup_correct_witness :
  wp (MakePageGroup ex_mapping.2 [] 0x300000 4) (λ '(r, pt', g'), group_state ex_mapping.2 [] pt' g' ∧
    ((r = ResultSuccess ∧ group_made ex_mapping.2 (0x300000 / PageSize) 4 g') ∨
     group_failed ex_mapping.2 (0x300000 / PageSize) 4 r g')).
Proof.
  pose proof (reachable_inv _ _ ex_mapping_reachable) as [Hk He Hh _ _ _].
  assert (Hr : pt_regions ex_mapping.2 = ex_space) by (vm_compute; reflexivity).
  apply (MakePageGroup_correct ex_mapping.2 0x300000 4 Hk He Hh).
  split; [lia|]. split; [reflexivity|]. rewrite Hr. split; vm_compute; congruence.
Defined.

(** ** Requests *)
Definition ex_table_aslr : KPageTableBase Z nat :=
  MkTable ex_space (MkConfig ex_option 22 false true false 0x5A 0 0) 0x300000 0x40000 0 0
    (MkPageTable ∅ 1024 22 PageSize) ex_heap None 9%nat 9%nat ex_limit ex_far.

Lemma ex_aslr_inv : pt_inv nobody ex_table_aslr.
Proof.
  destruct ex_far_inv as [[] He [] Hm Ho Hc]. split; [by split|done|by split|done..].
Qed.

(** Four pages at an address of the kernel's choice in the stack region. *)
Lemma MapPages_any_correct_witness :
  CanContain_state ex_space 0x380000 (64 * PageSize) KMemoryState_Stack = Done true true ∧
  wp (MapPages_any ex_table_aslr 4 (2 ^ 12) 0 false 0x380000 64 KMemoryState_Stack
        KMemoryPermission_UserReadWrite 7) (λ '(r, out, pt', _),
    (r = ResultInvalidCurrentMemory ∧ out = None ∧ pt' = ex_table_aslr ∧ true = false) ∨
    (true = true ∧ r = ResultOutOfMemory ∧ out = None ∧ pt' = ex_table_aslr ∧
     KMemoryBlockManager_FindFreeArea (m_memory_block_manager ex_table_aslr) 0x380000 64 4 (2 ^ 12) 0
       (GetNumGuardPages ex_table_aslr) = 0) ∨
    (true = true ∧ ∃ addr,
     area_found (m_memory_block_manager ex_table_aslr) 0x380000 64 4 (2 ^ 12) 0
       (GetNumGuardPages ex_table_aslr) addr ∧
     ((out = None ∧ out_of_blocks ex_table_aslr 2 r pt') ∨
      (r = ResultSuccess ∧ out = Some addr ∧
       request_done nobody ex_table_aslr addr 4
         (set_props KMemoryState_Stack KMemoryPermission_UserReadWrite KMemoryAttribute_None)
         (λ t mm, ∃ ps, Z.of_nat (length ps) = 4 ∧ fresh_pages ex_table_aslr (addr / PageSize) ps t mm) pt') ∨
      (Result_IsSuccess r = false ∧ out = None ∧
       request_failed nobody ex_table_aslr (λ t mm, no_pages ex_table_aslr 4 r ∧ nothing_mapped ex_table_aslr t mm) pt')))).
Proof.
  assert (Hc : CanContain_state ex_space 0x380000 (64 * PageSize) KMemoryState_Stack = Done true true)
    by (vm_compute; reflexivity).
  split; [exact Hc|].
  apply (MapPages_any_correct nobody ex_table_aslr 4 12 0 0x380000 64 KMemoryState_Stack
    KMemoryPermission_UserReadWrite 7 true);
    [exact ex_aslr_inv|exact ex_far_dram|exact ex_option_valid| |lia| |lia|by vm_compute|by vm_compute|exact Hc].
  - by vm_compute.
  - split; [split|..]; by vm_compute.
Defined.

Definition ex_mapped_group : KPageGroup :=
  [MkBlockInfo 0x90013 1; MkBlockInfo 0x90012 1; MkBlockInfo 0x90011 1; MkBlockInfo 0x90010 1].

Lemma IsValidPageGroup_correct_witness :
  wp (IsValidPageGroup ex_mapping.2 ex_mapped_group 0x300000 4) (λ '(b, pt'),
    (∃ cc, pt' = with_cached cc ex_mapping.2) ∧ heap_ok pt' ∧
    (b = true ↔ valid_group ex_mapping.2 (0x300000 / PageSize) 4 ex_mapped_group) ∧
    (Z.of_nat (length (group_pages ex_mapped_group)) = 4 →
     b = true ↔ group_made ex_mapping.2 (0x300000 / PageSize) 4 ex_mapped_group)).
Proof.
  pose proof (reachable_inv _ _ ex_mapping_reachable) as [Hk He Hh _ _ _].
  assert (Hr : pt_regions ex_mapping.2 = ex_space) by (vm_compute; reflexivity).
  apply (IsValidPageGroup_correct ex_mapping.2 ex_mapped_group 0x300000 4 Hk He Hh).
  - split; [lia|]. split; [reflexivity|]. rewrite Hr. split; vm_compute; congruence.
  - split; repeat constructor; vm_compute; congruence.
Defined.

Lemma ex_far_bounds p : in_mm ex_far p → 0x90000 ≤ p < 0x90004 ∨ 0x90010 ≤ p < 0x90014.
Proof.
  intros (i & im & Hm & Hp). apply ex_manager in Hm as [[-> ->]|[-> ->]].
  - destruct (ex_impl_wf 0x90000 0x91000000 (Some 1%nat) None ltac:(lia)) as (_ & E1 & E2 & _).
    unfold in_impl in Hp. rewrite E1, E2 in Hp. unfold ex_pages in Hp. lia.
  - destruct (ex_impl_wf 0x90010 0x91001000 None (Some 0%nat) ltac:(lia)) as (_ & E1 & E2 & _).
    unfold in_impl in Hp. rewrite E1, E2 in Hp. unfold ex_pages in Hp. lia.
Qed.

Lemma ex_far_heap : heap_mm ex_far.
Proof.
  intros p Hp%ex_far_bounds.
  assert (Hc : p = 0x90000 ∨ p = 0x90001 ∨ p = 0x90002 ∨ p = 0x90003 ∨
               p = 0x90010 ∨ p = 0x90011 ∨ p = 0x90012 ∨ p = 0x90013) by lia.
  repeat destruct Hc as [->|Hc]; [vm_compute; reflexivity..|]. subst p. vm_compute. reflexivity.
Qed.

(** Four pages of stack. *)
Lemma MapPages_UnmapPages_roundtrip_witness :
  wp ('(r1, pt1) ← MapPages ex_table 0x380000 4 KMemoryState_Stack KMemoryPermission_UserReadWrite;
      if Result_IsSuccess r1 then
        '(r2, pt2) ← UnmapPages pt1 0x380000 4 KMemoryState_Stack; mret (r1, Some r2, pt2)
      else mret (r1, None, pt1)) (λ '(r1, r2, pt2), pt_inv nobody pt2 ∧ infos_of pt2 = infos_of ex_table ∧
    (slab_of pt2 + length (tree_of pt2) = slab_of ex_table + length (tree_of ex_table))%nat ∧
    (Result_IsSuccess r1 = true →
     r2 = Some ResultOutOfResource ∨
     (r2 = Some ResultSuccess ∧
      range_updated 0x380000 (0x380000 + 4 * PageSize) freed_props (m_memory_block_manager ex_table)
        (m_memory_block_manager pt2) ∧
      (∀ w, 0 ≤ w → translate (m_impl pt2) w =
         if decide (0x380000 / PageSize ≤ w < 0x380000 / PageSize + 4) then None
         else translate (m_impl ex_table) w) ∧
      ∀ p, in_mm (pt_mm ex_table) p → page_ref (pt_mm pt2) p = page_ref (pt_mm ex_table) p ∧
        (page_free (pt_mm pt2) p ↔ page_free (pt_mm ex_table) p)))).
Proof.
  apply (MapPages_UnmapPages_roundtrip nobody ex_table 0x380000 4 KMemoryState_Stack
    KMemoryPermission_UserReadWrite true);
    [exact ex_far_inv|exact ex_far_dram|exact ex_option_valid| |by vm_compute|by vm_compute
    |vm_compute; reflexivity|exact ex_far_heap|by vm_compute| |].
  - split; [lia|]. split; [reflexivity|]. split; vm_compute; congruence.
  - intros p Hp%ex_far_bounds. change (0x380000 / PageSize) with 0x380. lia.
  - intros x q _ (b & [Hb _] & <-)%(pages_Some _ 0x200000 0x400000); [|apply ex_heap_wf]. each_block Hb; done.
Defined.

(** Transfer memory of two pages of the heap of a process. *)
Definition ex_growing : option Z * KPageTableBase Z nat :=
  result (None, ex_table) (SetHeapSize [] 0 0 ex_table 0x2000).

Lemma ex_table_managed : heap_managed ex_table.
Proof. intros w p _ Hw. unfold ex_table in Hw. by rewrite ex_table_empty in Hw. Qed.

Lemma ex_growing_reachable : table_reachable nobody ex_growing.2.
Proof.
  apply (tr_heap nobody ex_table 0x2000 0 0 ex_growing.1);
    [|apply ex_table_heap|exact ex_table_managed|exact ex_far_dram|exact ex_option_valid|lia|reflexivity|].
  - apply tr_start; [apply ex_page_table_ok|by apply ex_heap_ok|apply ex_far_wf|done|done|].
    intros p Hp. apply ex_page_ref; [apply ex_far_wf|done].
  - rewrite <- surjective_pairing. eapply wp_Done_result. apply (SetHeapSize_run nobody);
      [exact ex_far_inv|apply ex_table_heap|exact ex_table_managed|exact ex_far_dram|exact ex_option_valid|lia|reflexivity].
Qed.

Lemma ex_growing_pages :
  translate (m_impl ex_growing.2) 0x300 = Some 0x90013 ∧ translate (m_impl ex_growing.2) 0x301 = Some 0x90012.
Proof. split; vm_compute; reflexivity. Qed.

Lemma ex_growing_in p : p = 0x90012 ∨ p = 0x90013 → in_mm (pt_mm ex_growing.2) p.
Proof.
  intros Hp. exists 1%nat. eexists. split; [split; [vm_compute; reflexivity|by vm_compute]|].
  destruct Hp as [->| ->]; (split; vm_compute; congruence).
Qed.

Lemma ex_growing_openable : openable ex_growing.2 (0x300000 / PageSize) 2.
Proof.
  intros ps Ht Hl. destruct ps as [|p [|q [|]]]; cbn in Hl; [discriminate Hl|discriminate Hl|clear Hl|lia].
  pose proof (proj1 (translated_spec _ _ _) Ht) as Ht'. destruct ex_growing_pages as [E1 E2].
  pose proof (Ht' 0%nat p eq_refl) as H1. pose proof (Ht' 1%nat q eq_refl) as H2.
  change (0x300000 / PageSize + Z.of_nat 0) with 0x300 in H1. change (0x300000 / PageSize + Z.of_nat 1) with 0x301 in H2.
  rewrite E1 in H1. rewrite E2 in H2. injection H1 as <-. injection H2 as <-.
  clear Ht Ht' E1 E2. intros p Hp. assert (Hc : p = 0x90012 ∨ p = 0x90013) by (set_unfold in Hp; tauto).
  split; [exact (ex_growing_in p Hc)|]. destruct Hc as [->| ->]; (split; vm_compute; reflexivity).
Qed.

Lemma ex_growing_perm x q : pages (m_memory_block_manager ex_growing.2) x = Some q → 0 ≤ pp_permission q < 2 ^ 8.
Proof.
  pose proof (reachable_inv _ _ ex_growing_reachable) as [Hk _ _ _ _ _].
  intros Hq. apply (pages_Some _ _ _ _ _ (wf_tiles _ (tk_blocks _ Hk))) in Hq as (b & [Hb _] & <-).
  assert (E : Forall (λ b, 0 ≤ m_permission b < 2 ^ 8) (m_memory_block_tree (m_memory_block_manager ex_growing.2))).
  { vm_compute. repeat constructor; congruence. }
  exact (proj1 (Forall_forall _ _) E b Hb).
Qed.

Lemma TransferMemory_roundtrip_witness :
  wp ('(r1, pt1, out, _) ← LockForTransferMemory ex_growing.2 [] 0x300000 (2 * PageSize) KMemoryPermission_UserRead;
      g ← deref out;
      if Result_IsSuccess r1 then
        '(r2, pt2) ← UnlockForTransferMemory pt1 0x300000 (2 * PageSize) g; mret (r1, Some r2, g, pt2)
      else mret (r1, None, g, pt1)) (λ '(r1, r2, g, pt2),
    (infos_of pt2 + length g = infos_of ex_growing.2)%nat ∧
    (slab_of pt2 + length (tree_of pt2) = slab_of ex_growing.2 + length (tree_of ex_growing.2))%nat ∧
    (Result_IsSuccess r1 = false → ∀ x,
       pages (m_memory_block_manager pt2) x = pages (m_memory_block_manager ex_growing.2) x) ∧
    (Result_IsSuccess r1 = true →
     pt_inv (plus_group nobody (group_pages g)) pt2 ∧ group_made ex_growing.2 (0x300000 / PageSize) 2 g ∧
     m_impl pt2 = m_impl ex_growing.2 ∧ mm_counted 1 (group_pages g) (pt_mm ex_growing.2) (pt_mm pt2) ∧
     (r2 = Some ResultOutOfResource ∨
      (r2 = Some ResultSuccess ∧
       ∀ x, pages (m_memory_block_manager pt2) x = pages (m_memory_block_manager ex_growing.2) x)))).
Proof.
  apply (TransferMemory_roundtrip nobody ex_growing.2 0x300000 2 KMemoryPermission_UserRead);
    [apply reachable_inv; exact ex_growing_reachable| |exact ex_growing_openable
    |intros x q _; apply ex_growing_perm].
  assert (Hr : pt_regions ex_growing.2 = ex_space) by (vm_compute; reflexivity).
  split; [lia|]. split; [reflexivity|]. rewrite Hr. split; vm_compute; congruence.
Defined.

(** An alias of the two pages of the heap: each of them is mapped twice. *)
Definition ex_aliased : Z * KPageTableBase Z nat :=
  result (0, ex_table) (MapMemory ex_growing.2 0x380000 0x300000 (2 * PageSize)).

Lemma ex_growing_range addr : (addr = 0x300000 ∨ addr = 0x380000) → table_range ex_growing.2 addr 2.
Proof.
  assert (Hr : pt_regions ex_growing.2 = ex_space) by (vm_compute; reflexivity).
  intros [->| ->]; (split; [lia|]; split; [reflexivity|]; rewrite Hr; split; vm_compute; congruence).
Qed.

Lemma ex_growing_dram : dram_mm (pt_mm ex_growing.2).
Proof.
  assert (E : forallb (λ im, DramMemoryMap_Base <=? first_page_of im * PageSize)
    (take 2 (m_managers (pt_mm ex_growing.2))) = true) by (vm_compute; reflexivity).
  assert (En : m_num_managers (pt_mm ex_growing.2) = 2) by (vm_compute; reflexivity).
  intros p (i & im & [Hm Hi] & Hp). rewrite forallb_forall in E. rewrite En in Hi.
  assert (Ht : take 2 (m_managers (pt_mm ex_growing.2)) !! i = Some im) by (rewrite lookup_take_lt; [done|lia]).
  apply list_elem_of_lookup_2, list_elem_of_In, E in Ht.
  unfold in_impl in Hp. rewrite PageSize_eq in *. lia.
Qed.

Lemma ex_aliased_reachable : table_reachable nobody ex_aliased.2.
Proof.
  apply (tr_map_memory nobody ex_growing.2 0x380000 0x300000 2 ex_aliased.1);
    [exact ex_growing_reachable|exact ex_growing_dram|apply ex_growing_range; lia|apply ex_growing_range; lia
    |lia|exact ex_growing_openable|].
  rewrite <- surjective_pairing. eapply wp_Done_result. apply (MapMemory_inv nobody);
    [by apply reachable_inv, ex_growing_reachable|exact ex_growing_dram|apply ex_growing_range; lia
    |apply ex_growing_range; lia|lia|exact ex_growing_openable].
Qed.

Lemma ex_aliased_page w : w = 0x300 ∨ w = 0x380 → translate (m_impl ex_aliased.2) w = Some 0x90013.
Proof. intros [->| ->]; vm_compute; reflexivity. Qed.

Lemma ex_aliased_in : in_mm (pt_mm ex_aliased.2) 0x90013.
Proof.
  exists 1%nat. eexists. split; [split; [vm_compute; reflexivity|by vm_compute]|]. split; vm_compute; congruence.
Qed.

Lemma mapped_pages_held_witness : 2 + nobody 0x90013 ≤ page_ref (pt_mm ex_aliased.2) 0x90013 ∧
  ¬ page_free (pt_mm ex_aliased.2) 0x90013.
Proof.
  apply (mapped_pages_held nobody ex_aliased.2 0x90013 [0x300; 0x380]);
    [exact ex_aliased_reachable|exact ex_aliased_in|by apply (bool_decide_unpack (NoDup [0x300; 0x380])), I| |done].
  intros w Hw. assert (Hc : w = 0x300 ∨ w = 0x380) by (set_unfold in Hw; tauto).
  split; [lia|exact (ex_aliased_page w Hc)].
Defined.

(** The requests run to their end on this memory: transfer memory is locked and
    unlocked; an alias takes the permissions of its source away and gives them
    back, and so does an alias of code; memory shared with a device is counted. *)
Example ex_transfer_run :
  ('(r1, pt1, out, _) ← LockForTransferMemory ex_growing.2 [] 0x300000 (2 * PageSize) KMemoryPermission_UserRead;
   g ← deref out;
   '(r2, pt2) ← UnlockForTransferMemory pt1 0x300000 (2 * PageSize) g;
   mret (r1, r2, g, bool_decide (tree_of pt2 = tree_of ex_growing.2))) =
  Done true (ResultSuccess, ResultSuccess, [MkBlockInfo 0x90013 1; MkBlockInfo 0x90012 1], true).
Proof. vm_compute. reflexivity. Qed.

Example ex_alias_run :
  ('(r1, pt1) ← MapMemory ex_growing.2 0x380000 0x300000 (2 * PageSize);
   '(r2, pt2) ← UnmapMemory pt1 0x380000 0x300000 (2 * PageSize);
   mret (r1, translate (m_impl pt1) 0x380, page_ref (pt_mm pt1) 0x90013, r2, translate (m_impl pt2) 0x380,
         page_ref (pt_mm pt2) 0x90013)) =
  Done true (ResultSuccess, Some 0x90013, 2, ResultSuccess, None, 1).
Proof. vm_compute. reflexivity. Qed.

Example ex_code_alias_run :
  ('(r1, pt1) ← MapCodeMemory ex_growing.2 0x240000 0x300000 (2 * PageSize);
   '(r2, code, pt2) ← UnmapCodeMemory pt1 0x240000 0x300000 (2 * PageSize);
   mret (r1, translate (m_impl pt1) 0x241, r2, code, translate (m_impl pt2) 0x241)) =
  Done true (ResultSuccess, Some 0x90012, ResultSuccess, true, None).
Proof. vm_compute. reflexivity. Qed.

Example ex_device_run :
  ('(r1, io, pt1) ← LockForMapDeviceAddressSpace ex_growing.2 0x300000 PageSize KMemoryPermission_UserRead true true;
   '(r2, pt2) ← UnlockForDeviceAddressSpace pt1 0x300000 PageSize;
   mret (r1, io, m_device_use_count <$> tree_of pt1, r2, m_device_use_count <$> tree_of pt2)) =
  Done true (ResultSuccess, false, [0; 0; 0; 1; 0; 0], ResultSuccess, [0; 0; 0; 0; 0]).
Proof. vm_compute. reflexivity. Qed.

(** ** What goes wrong *)

(** [SetMemoryAttribute] with an empty mask, which the system call lets
    through, on a free page inside the first block of the address space passes its
    checks, changes nothing, and then steps the coalescing iterator back from the
    first block, to the null node, and reads it. *)
Theorem SetMemoryAttribute_empty_mask_stuck :
  KPageTable_Contains ex_space 0x201000 0x1000 = true ∧
  SetMemoryAttribute ex_table 0x201000 0x1000 0 0 = Stuck.
Proof. split; vm_compute; reflexivity. Qed.

Definition ex_wide : PageTable := MkPageTable ∅ 0x100000 32 PageSize.

Lemma identity_mapping_lost_witness :
  ∃ t', Memory_MapMemoryRegion ex_wide (0x90000 * PageSize) (4 * PageSize) (0x90000 * PageSize) = Done true t' ∧
    ∀ w, 0x90000 ≤ w < 0x90000 + 4 → (BeginTraversal t' (w * PageSize)).1.1 = false.
Proof.
  apply (identity_mapping_lost ex_wide 0x90000 4);
    [reflexivity| |vm_compute; congruence|lia|vm_compute; congruence|lia|vm_compute; congruence].
  intros v Hv. unfold entry_at in Hv. simpl in Hv. by rewrite lookup_empty in Hv.
Defined.
