(* ===== verification/Capabilities.v ===== *)
(** * KCapabilities (src/src/core/hle/kernel/k_capabilities.h, k_capabilities.cpp)

    The capability descriptors of a process, 32-bit words whose trailing ones
    tell their type, and the rights they grant: cores and priorities, system
    calls, mappings, handle table size, debugging. *)

From S2P Require Import Prelude Common PageBitmap.

(** ** hardware_properties.h *)
Definition NumVirtualCores : Z := 64.
Definition VirtualToPhysicalCoreMap : list Z := [0; 1; 2; 3] ++ replicate 59 0 ++ [3].
Definition VirtualCoreMask : Z :=
  foldl (λ mask i, Z.lor mask (u64 (Z.shiftl 1 i))) 0 (seqZ 0 NumVirtualCores).

(** A bit of the virtual mask goes with every turn; 64 turns clear it. *)
Fixpoint convert_cores_loop (fuel : nat) (v_core_mask p_core_mask : Z) : prog Z :=
  if v_core_mask =? 0 then mret p_core_mask
  else
    match fuel with
    | O => Stuck
    | S fuel =>
        let next := countr_zero v_core_mask in
        let v_core_mask := Z.ldiff v_core_mask (u64 (Z.shiftl 1 next)) in
        core ← arr_get VirtualToPhysicalCoreMap next;
        convert_cores_loop fuel v_core_mask (Z.lor p_core_mask (u64 (Z.shiftl 1 core)))
    end.
Definition ConvertVirtualCoreMaskToPhysical (v_core_mask : Z) : prog Z :=
  convert_cores_loop 64 v_core_mask 0.

(** ** svc_types.h, svc_version.h, k_trace.h *)
Definition NumSupervisorCalls : Z := 0xC0.
Definition SupportedKernelMajorVersion : Z := 22 + 4.
Definition SupportedKernelMinorVersion : Z := 2.

(** ** Capability types *)
Definition CapabilityType_CorePriority : Z := Z.shiftl 1 3 - 1.
Definition CapabilityType_SyscallMask : Z := Z.shiftl 1 4 - 1.
Definition CapabilityType_MapRange : Z := Z.shiftl 1 6 - 1.
Definition CapabilityType_MapIoPage : Z := Z.shiftl 1 7 - 1.
Definition CapabilityType_MapRegion : Z := Z.shiftl 1 10 - 1.
Definition CapabilityType_InterruptPair : Z := Z.shiftl 1 11 - 1.
Definition CapabilityType_ProgramType : Z := Z.shiftl 1 13 - 1.
Definition CapabilityType_KernelVersion : Z := Z.shiftl 1 14 - 1.
Definition CapabilityType_HandleTable : Z := Z.shiftl 1 15 - 1.
Definition CapabilityType_DebugFlags : Z := Z.shiftl 1 16 - 1.
Definition CapabilityType_Invalid : Z := 0.
Definition CapabilityType_Padding : Z := u32 (Z.lnot 0).

Definition GetCapabilityType (value : Z) : Z :=
  u32 (Z.land (u32 (Z.lnot value)) (u32 (value + 1)) - 1).
Definition GetCapabilityFlag (type : Z) : Z := u32 (type + 1).

Definition InitializeOnceFlags : Z :=
  Z.lor (Z.lor (Z.lor (Z.lor (GetCapabilityFlag CapabilityType_CorePriority)
                             (GetCapabilityFlag CapabilityType_ProgramType))
                      (GetCapabilityFlag CapabilityType_KernelVersion))
               (GetCapabilityFlag CapabilityType_HandleTable))
        (GetCapabilityFlag CapabilityType_DebugFlags).
Definition PaddingInterruptId : Z := 0x3FF.
Definition PhysicalMapAllowedMask : Z := Z.shiftl 1 36 - 1.

(** ** The fields of the descriptors *)
Definition CorePriority_lowest_thread_priority (raw : Z) : Z := BitField_ExtractValue 4 6 raw.
Definition CorePriority_highest_thread_priority (raw : Z) : Z := BitField_ExtractValue 10 6 raw.
Definition CorePriority_minimum_core_id (raw : Z) : Z := BitField_ExtractValue 16 8 raw.
Definition CorePriority_maximum_core_id (raw : Z) : Z := BitField_ExtractValue 24 8 raw.
Definition SyscallMask_mask (raw : Z) : Z := BitField_ExtractValue 5 24 raw.
Definition SyscallMask_index (raw : Z) : Z := BitField_ExtractValue 29 3 raw.
Definition MapRange_address (raw : Z) : Z := BitField_ExtractValue 7 24 raw.
Definition MapRange_read_only (raw : Z) : Z := BitField_ExtractValue 31 1 raw.
Definition MapRangeSize_pages (raw : Z) : Z := BitField_ExtractValue 7 20 raw.
Definition MapRangeSize_reserved (raw : Z) : Z := BitField_ExtractValue 27 4 raw.
Definition MapRangeSize_normal (raw : Z) : Z := BitField_ExtractValue 31 1 raw.
Definition MapIoPage_address (raw : Z) : Z := BitField_ExtractValue 8 24 raw.
Definition MapRegion_regions (raw : Z) : list (Z * Z) :=
  [(BitField_ExtractValue 11 6 raw, BitField_ExtractValue 17 1 raw);
   (BitField_ExtractValue 18 6 raw, BitField_ExtractValue 24 1 raw);
   (BitField_ExtractValue 25 6 raw, BitField_ExtractValue 31 1 raw)].
Definition InterruptPair_ids (raw : Z) : list Z :=
  [BitField_ExtractValue 12 10 raw; BitField_ExtractValue 22 10 raw].
Definition ProgramType_type (raw : Z) : Z := BitField_ExtractValue 14 3 raw.
Definition ProgramType_reserved (raw : Z) : Z := BitField_ExtractValue 17 15 raw.
Definition KernelVersion_minor_version (raw : Z) : Z := BitField_ExtractValue 15 4 raw.
Definition KernelVersion_major_version (raw : Z) : Z := BitField_ExtractValue 19 13 raw.
Definition HandleTable_size (raw : Z) : Z := BitField_ExtractValue 16 10 raw.
Definition HandleTable_reserved (raw : Z) : Z := BitField_ExtractValue 26 6 raw.
Definition DebugFlags_allow_debug (raw : Z) : Z := BitField_ExtractValue 17 1 raw.
Definition DebugFlags_force_debug (raw : Z) : Z := BitField_ExtractValue 18 1 raw.

(** ** The page table a process maps into

    What the capabilities call of KProcessPageTable, and of the memory layout. *)
Inductive KMemoryRegionType : Type :=
| KMemoryRegionType_None | KMemoryRegionType_KernelTraceBuffer
| KMemoryRegionType_OnMemoryBootImage | KMemoryRegionType_DTB.
Inductive MapPermission : Type := UserRead | UserReadWrite.

Class PageTable (P : Type) : Type := {
  MapStatic : P → Z → Z → MapPermission → prog (Z * P);
  MapIo : P → Z → Z → MapPermission → prog (Z * P);
  MapRegion : P → KMemoryRegionType → MapPermission → prog (Z * P)
}.

(** ** KCapabilities; a bitset is the number with its bits *)
Record KCapabilities : Type := MkCaps {
  m_svc_access_flags : Z;
  m_irq_access_flags : Z;
  m_core_mask : Z;
  m_phys_core_mask : Z;
  m_priority_mask : Z;
  m_debug_capabilities : Z;
  m_handle_table_size : Z;
  m_intended_kernel_version : Z;
  m_program_type : Z
}.

Definition KCapabilities_new : KCapabilities := MkCaps 0 0 0 0 0 0 0 0 0.

Definition IsPermittedSvc (k : KCapabilities) (id : Z) : bool :=
  (id <? NumSupervisorCalls) && Z.testbit (m_svc_access_flags k) id.
Definition IsPermittedDebug (k : KCapabilities) : bool :=
  negb (DebugFlags_allow_debug (m_debug_capabilities k) =? 0).
Definition CanForceDebug (k : KCapabilities) : bool :=
  negb (DebugFlags_force_debug (m_debug_capabilities k) =? 0).
Definition GetIntendedKernelMajorVersion (k : KCapabilities) : Z :=
  KernelVersion_major_version (m_intended_kernel_version k).
Definition GetIntendedKernelMinorVersion (k : KCapabilities) : Z :=
  KernelVersion_minor_version (m_intended_kernel_version k).

Definition set_svc_flags (f : Z) (k : KCapabilities) : KCapabilities :=
  MkCaps f (m_irq_access_flags k) (m_core_mask k) (m_phys_core_mask k) (m_priority_mask k)
    (m_debug_capabilities k) (m_handle_table_size k) (m_intended_kernel_version k)
    (m_program_type k).
Definition set_masks (core phys prio : Z) (k : KCapabilities) : KCapabilities :=
  MkCaps (m_svc_access_flags k) (m_irq_access_flags k) core phys prio
    (m_debug_capabilities k) (m_handle_table_size k) (m_intended_kernel_version k)
    (m_program_type k).
Definition set_misc (debug handles version program : Z) (k : KCapabilities) : KCapabilities :=
  MkCaps (m_svc_access_flags k) (m_irq_access_flags k) (m_core_mask k) (m_phys_core_mask k)
    (m_priority_mask k) debug handles version program.

Definition SetSvcAllowed (k : KCapabilities) (id : Z) : bool * KCapabilities :=
  if id <? NumSupervisorCalls
  then (true, set_svc_flags (Z.lor (m_svc_access_flags k) (Z.shiftl 1 id)) k) else (false, k).

(** [for (x = from; x <= to; x++) mask |= 1ULL << x] *)
Definition set_range (mask from to : Z) : Z :=
  foldl (λ mask x, Z.lor mask (u64 (Z.shiftl 1 x))) mask (seqZ from (to - from + 1)).

Definition SetCorePriorityCapability (k : KCapabilities) (cap : Z) : prog (Z * KCapabilities) :=
  if negb (m_core_mask k =? 0) then mret (ResultInvalidArgument, k)
  else if negb (m_priority_mask k =? 0) then mret (ResultInvalidArgument, k)
  else
    let min_core := CorePriority_minimum_core_id cap in
    let max_core := CorePriority_maximum_core_id cap in
    let max_prio := CorePriority_lowest_thread_priority cap in
    let min_prio := CorePriority_highest_thread_priority cap in
    if negb (min_core <=? max_core) then mret (ResultInvalidCombination, k)
    else if negb (min_prio <=? max_prio) then mret (ResultInvalidCombination, k)
    else if negb (max_core <? NumVirtualCores) then mret (ResultInvalidCoreId, k)
    else
      _ ← ASSERT (max_prio <? 64);
      let core_mask := set_range (m_core_mask k) min_core max_core in
      _ ← ASSERT (Z.land core_mask VirtualCoreMask =? core_mask);
      phys ← ConvertVirtualCoreMaskToPhysical core_mask;
      let priority_mask := set_range (m_priority_mask k) min_prio max_prio in
      let k := set_masks core_mask phys priority_mask k in
      if negb (negb (core_mask =? 0)) then mret (ResultInvalidArgument, k)
      else if negb (negb (priority_mask =? 0)) then mret (ResultInvalidArgument, k)
      else if negb (Z.land priority_mask 0xF =? 0) then mret (ResultInvalidArgument, k)
      else mret (ResultSuccess, k).

(** The loop over the 24 bits of the mask; [n] bits are left from bit [i] on. *)
Fixpoint set_svcs_loop (n : nat) (k : KCapabilities) (mask index i : Z) : Z * KCapabilities :=
  match n with
  | O => (ResultSuccess, k)
  | S n =>
      let svc_id := u32 (24 * index + i) in
      if negb (Z.land mask (u32 (Z.shiftl 1 i)) =? 0) then
        let '(ok, k) := SetSvcAllowed k svc_id in
        if negb ok then (ResultOutOfRange, k) else set_svcs_loop n k mask index (i + 1)
      else set_svcs_loop n k mask index (i + 1)
  end.

Definition SetSyscallMaskCapability (k : KCapabilities) (cap set_svc : Z)
    : Z * KCapabilities * Z :=
  let mask := SyscallMask_mask cap in
  let index := SyscallMask_index cap in
  let index_flag := u32 (Z.shiftl 1 index) in
  if negb (Z.land set_svc index_flag =? 0) then (ResultInvalidCombination, k, set_svc)
  else
    let '(r, k) := set_svcs_loop 24 k mask index 0 in (r, k, Z.lor set_svc index_flag).

Definition SetInterruptPairCapability (k : KCapabilities) (cap : Z) : prog (Z * KCapabilities) :=
  _ ← ASSERT (forallb (λ id, id =? PaddingInterruptId) (InterruptPair_ids cap));
  mret (ResultSuccess, k).

Definition SetProgramTypeCapability (k : KCapabilities) (cap : Z) : Z * KCapabilities :=
  if negb (ProgramType_reserved cap =? 0) then (ResultReservedUsed, k)
  else (ResultSuccess,
        set_misc (m_debug_capabilities k) (m_handle_table_size k) (m_intended_kernel_version k)
          (ProgramType_type cap) k).

Definition SetKernelVersionCapability (k : KCapabilities) (cap : Z) : Z * KCapabilities :=
  if negb (KernelVersion_major_version (m_intended_kernel_version k) =? 0)
  then (ResultInvalidArgument, k)
  else
    let k := set_misc (m_debug_capabilities k) (m_handle_table_size k) cap (m_program_type k) k in
    if negb (negb (KernelVersion_major_version cap =? 0)) then (ResultInvalidArgument, k)
    else (ResultSuccess, k).

Definition SetHandleTableCapability (k : KCapabilities) (cap : Z) : Z * KCapabilities :=
  if negb (HandleTable_reserved cap =? 0) then (ResultReservedUsed, k)
  else (ResultSuccess,
        set_misc (m_debug_capabilities k) (HandleTable_size cap) (m_intended_kernel_version k)
          (m_program_type k) k).

Definition SetDebugFlagsCapability (k : KCapabilities) (cap : Z) : Z * KCapabilities :=
  let debug := BitField_Assign 17 1 (m_debug_capabilities k) (DebugFlags_allow_debug cap) in
  let debug := BitField_Assign 18 1 debug (DebugFlags_force_debug cap) in
  (ResultSuccess,
   set_misc debug (m_handle_table_size k) (m_intended_kernel_version k) (m_program_type k) k).

Section Mappings.
Context {P : Type} `{PageTable P}.

Definition MapRange_ (page_table : P) (cap size_cap : Z) : prog (Z * P) :=
  let phys_addr := u64 (MapRange_address cap * PageSize) in
  if negb (MapRangeSize_reserved size_cap =? 0) then mret (ResultOutOfRange, page_table)
  else
    let num_pages := MapRangeSize_pages size_cap in
    let size := u64 (num_pages * PageSize) in
    if negb (negb (num_pages =? 0)) then mret (ResultInvalidSize, page_table)
    else if negb (phys_addr <? u64 (phys_addr + size)) then mret (ResultInvalidAddress, page_table)
    else if negb (Z.land (u64 (phys_addr + size - 1)) (u64 (Z.lnot PhysicalMapAllowedMask)) =? 0)
    then mret (ResultInvalidAddress, page_table)
    else
      let perm := if negb (MapRange_read_only cap =? 0) then UserRead else UserReadWrite in
      if negb (MapRangeSize_normal size_cap =? 0)
      then MapStatic page_table phys_addr size perm else MapIo page_table phys_addr size perm.

Definition MapIoPage_ (page_table : P) (cap : Z) : prog (Z * P) :=
  let phys_addr := u64 (MapIoPage_address cap * PageSize) in
  let size := PageSize in
  if negb (phys_addr <? u64 (phys_addr + size)) then mret (ResultInvalidAddress, page_table)
  else if negb (Z.land (u64 (phys_addr + size - 1)) (u64 (Z.lnot PhysicalMapAllowedMask)) =? 0)
  then mret (ResultInvalidAddress, page_table)
  else MapIo page_table phys_addr size UserReadWrite.

(** [ProcessMapRegionCapability]; [f] is what is done for a region, on the state
    [St] it closes over. *)
Fixpoint process_regions {St} (f : St → KMemoryRegionType → MapPermission → prog (Z * St))
    (regions : list (Z * Z)) (st : St) : prog (Z * St) :=
  match regions with
  | [] => mret (ResultSuccess, st)
  | (type, ro) :: regions =>
      let perm := if negb (ro =? 0) then UserRead else UserReadWrite in
      let map region :=
        '(r, st) ← f st region perm;
        if negb (Result_IsSuccess r) then mret (r, st) else process_regions f regions st in
      if type =? 0 then process_regions f regions st
      else if type =? 1 then
        if negb IsKTraceEnabled then process_regions f regions st
        else map KMemoryRegionType_KernelTraceBuffer
      else if type =? 2 then map KMemoryRegionType_OnMemoryBootImage
      else if type =? 3 then map KMemoryRegionType_DTB
      else mret (ResultNotFound, st)
  end.

Definition MapRegion_ (page_table : P) (cap : Z) : prog (Z * P) :=
  process_regions MapRegion (MapRegion_regions cap) page_table.

(** The tree of physical memory regions is an argument. *)
Definition CheckMapRegion (has_region : KMemoryRegionType → bool) (cap : Z) : prog (Z * unit) :=
  process_regions
    (λ st region _, mret (if has_region region then ResultSuccess else ResultOutOfRange, st))
    (MapRegion_regions cap) ().

(** ** One capability, and all of them *)
Record parse_state : Type := MkParse {
  ps_caps : KCapabilities;
  ps_set_flags : Z;
  ps_set_svc : Z;
  ps_table : P
}.

Definition with_caps (s : parse_state) (r : Z * KCapabilities) : Z * parse_state :=
  (r.1, MkParse r.2 (ps_set_flags s) (ps_set_svc s) (ps_table s)).
Definition with_table (s : parse_state) (r : Z * P) : Z * parse_state :=
  (r.1, MkParse (ps_caps s) (ps_set_flags s) (ps_set_svc s) r.2).

Definition SetCapability (s : parse_state) (cap : Z) : prog (Z * parse_state) :=
  let type := GetCapabilityType cap in
  if type =? CapabilityType_Invalid then mret (ResultInvalidArgument, s)
  else if type =? CapabilityType_Padding then mret (ResultSuccess, s)
  else
    let flag := GetCapabilityFlag type in
    if negb (Z.land (Z.land (ps_set_flags s) InitializeOnceFlags) flag =? 0)
    then mret (ResultInvalidCombination, s)
    else
      let s := MkParse (ps_caps s) (Z.lor (ps_set_flags s) flag) (ps_set_svc s) (ps_table s) in
      let k := ps_caps s in
      if type =? CapabilityType_CorePriority then
        r ← SetCorePriorityCapability k cap; mret (with_caps s r)
      else if type =? CapabilityType_SyscallMask then
        let '(r, k, set_svc) := SetSyscallMaskCapability k cap (ps_set_svc s) in
        mret (r, MkParse k (ps_set_flags s) set_svc (ps_table s))
      else if type =? CapabilityType_MapIoPage then
        r ← MapIoPage_ (ps_table s) cap; mret (with_table s r)
      else if type =? CapabilityType_MapRegion then
        r ← MapRegion_ (ps_table s) cap; mret (with_table s r)
      else if type =? CapabilityType_InterruptPair then
        r ← SetInterruptPairCapability k cap; mret (with_caps s r)
      else if type =? CapabilityType_ProgramType then
        mret (with_caps s (SetProgramTypeCapability k cap))
      else if type =? CapabilityType_KernelVersion then
        mret (with_caps s (SetKernelVersionCapability k cap))
      else if type =? CapabilityType_HandleTable then
        mret (with_caps s (SetHandleTableCapability k cap))
      else if type =? CapabilityType_DebugFlags then
        mret (with_caps s (SetDebugFlagsCapability k cap))
      else mret (ResultInvalidArgument, s).

Fixpoint set_capabilities (s : parse_state) (caps : list Z) : prog (Z * parse_state) :=
  match caps with
  | [] => mret (ResultSuccess, s)
  | cap :: caps =>
      if GetCapabilityType cap =? CapabilityType_MapRange then
        match caps with
        | [] => mret (ResultInvalidCombination, s)
        | size_cap :: caps =>
            if negb (GetCapabilityType size_cap =? CapabilityType_MapRange)
            then mret (ResultInvalidCombination, s)
            else
              r ← MapRange_ (ps_table s) cap size_cap;
              let '(r, s) := with_table s r in
              if negb (Result_IsSuccess r) then mret (r, s) else set_capabilities s caps
        end
      else
        '(r, s) ← SetCapability s cap;
        if negb (Result_IsSuccess r) then mret (r, s) else set_capabilities s caps
  end.

Definition SetCapabilities (k : KCapabilities) (caps : list Z) (page_table : P)
    : prog (Z * parse_state) :=
  set_capabilities (MkParse k 0 0 page_table) caps.

Definition InitializeForKip (k : KCapabilities) (kern_caps : list Z) (page_table : P)
    : prog (Z * parse_state) :=
  phys ← ConvertVirtualCoreMaskToPhysical VirtualCoreMask;
  let version := BitField_Assign 19 13 0 SupportedKernelMajorVersion in
  let version := BitField_Assign 15 4 version SupportedKernelMinorVersion in
  SetCapabilities
    (MkCaps 0 0 VirtualCoreMask phys (u64 (Z.lnot 0xF)) 0 0 version 0) kern_caps page_table.

(** The physical core mask is not reset. *)
Definition InitializeForUser (k : KCapabilities) (user_caps : list Z) (page_table : P)
    : prog (Z * parse_state) :=
  SetCapabilities (MkCaps 0 0 0 (m_phys_core_mask k) 0 0 0 0 0) user_caps page_table.

Fixpoint CheckCapabilities (has_region : KMemoryRegionType → bool) (caps : list Z) : prog Z :=
  match caps with
  | [] => mret ResultSuccess
  | cap :: caps =>
      if GetCapabilityType cap =? CapabilityType_MapRegion then
        '(r, _) ← CheckMapRegion has_region cap;
        if negb (Result_IsSuccess r) then mret r else CheckCapabilities has_region caps
      else CheckCapabilities has_region caps
  end.
End Mappings.
