(* ===== verification/CapabilitiesTheorems.v ===== *)
(** * Correctness of KCapabilities

    What the descriptors of a process grant it, and nothing else. *)

From S2P Require Import Prelude Common PageBitmap PageBitmapLemmas Capabilities.

(** ** Types *)
Lemma bits_split_at x n a r i :
  0 ≤ n → x = a * 2 ^ n + r → 0 ≤ r < 2 ^ n → 0 ≤ i →
  Z.testbit x i = if i <? n then Z.testbit r i else Z.testbit a (i - n).
Proof.
  intros Hn -> Hr Hi. destruct (i <? n) eqn:E; bool_prop.
  - rewrite <- (Z.mod_pow2_bits_low _ n) by lia. rewrite Z.add_comm, Z.mod_add by lia.
    by rewrite Z.mod_small by lia.
  - replace i with (i - n + n) at 1 by lia. rewrite <- Z.div_pow2_bits by lia.
    rewrite Z.div_add_l by lia. rewrite (Z.div_small r) by lia. by rewrite Z.add_0_r.
Qed.

(** Every number but zero is odd times a power of two. *)
Lemma odd_part w : 0 < w → ∃ n a, 0 ≤ n ∧ w = (2 * a + 1) * 2 ^ n ∧ 0 ≤ a.
Proof.
  intros Hw. destruct w as [|p|]; [lia| |lia]. clear Hw. induction p as [p IH|p IH|].
  - exists 0, (Zpos p). split_and!; lia.
  - destruct IH as (n & a & Hn & E & Ha). exists (n + 1), a. split_and!; [lia| |done].
    rewrite Z.pow_add_r by lia. lia.
  - exists 0, 0. split_and!; lia.
Qed.

Lemma GetCapabilityType_run v : is_u32 v →
  ∃ n, 0 ≤ n ≤ 32 ∧ GetCapabilityType v = 2 ^ n - 1 ∧
    (∀ j, 0 ≤ j < n → Z.testbit v j = true) ∧ (n < 32 → Z.testbit v n = false).
Proof.
  intros Hv. unfold is_u32 in Hv. destruct (decide (v = 2 ^ 32 - 1)) as [->|Hne].
  { exists 32. split_and!; [lia|lia|reflexivity| |lia]. intros j Hj.
    change (2 ^ 32 - 1) with (Z.ones 32). by apply Z.ones_spec_low. }
  destruct (odd_part (v + 1)) as (n & a & Hn & E & Ha); [lia|].
  pose proof (Z.pow_pos_nonneg 2 n ltac:(lia) Hn) as Hp.
  assert (Hn32 : n < 32).
  { destruct (decide (n < 32)); [done|]. exfalso.
    assert (2 ^ 32 ≤ 2 ^ n) by (apply Z.pow_le_mono_r; lia). nia. }
  assert (E2 : 2 ^ (n + 1) = 2 * 2 ^ n) by (rewrite Z.pow_add_r; lia).
  assert (Ev : v = a * 2 ^ (n + 1) + (2 ^ n - 1)) by lia.
  assert (Ew : v + 1 = a * 2 ^ (n + 1) + 2 ^ n) by lia.
  assert (Bv : ∀ i, 0 ≤ i → Z.testbit v i = if i <? n + 1 then i <? n else Z.testbit a (i - (n + 1))).
  { intros i Hi. rewrite (bits_split_at v (n + 1) a (2 ^ n - 1)) by lia.
    destruct (i <? n + 1); [|done]. replace (2 ^ n - 1) with (Z.ones n) by (rewrite Z.ones_equiv; lia).
    rewrite Z.testbit_ones_nonneg by lia. done. }
  exists n. split_and!; [lia|lia| | |].
  - unfold GetCapabilityType. rewrite (u32_id (v + 1)) by (unfold is_u32; lia).
    assert (Z.land (u32 (Z.lnot v)) (v + 1) = 2 ^ n) as ->.
    { apply Z.bits_inj'. intros i Hi. rewrite Z.land_spec.
      rewrite (bits_split_at (v + 1) (n + 1) a (2 ^ n)) by lia.
      rewrite Z.pow2_bits_eqb by lia. unfold u32. destruct (decide (i < 32)).
      - rewrite Z.mod_pow2_bits_low, Z.lnot_spec, Bv by lia.
        destruct (i <? n + 1) eqn:E1; bool_prop.
        + destruct (n =? i) eqn:E3; bool_prop; [by rewrite (proj2 (Z.ltb_ge i n)) by lia|].
          by rewrite andb_false_r.
        + rewrite (proj2 (Z.eqb_neq n i)) by lia. by destruct (Z.testbit a _).
      - rewrite Z.mod_pow2_bits_high by lia. simpl. symmetry. apply Z.eqb_neq. lia. }
    apply u32_id. unfold is_u32. assert (2 ^ n < 2 ^ 32) by (apply Z.pow_lt_mono_r; lia). lia.
  - intros j Hj. rewrite Bv by lia. rewrite (proj2 (Z.ltb_lt j (n + 1))) by lia. apply Z.ltb_lt. lia.
  - intros _. rewrite Bv by lia. rewrite (proj2 (Z.ltb_lt n (n + 1))) by lia. apply Z.ltb_irrefl.
Qed.

(** ** Masks *)
Lemma set_range_bits n : ∀ m a i,
  0 ≤ a → a + Z.of_nat n ≤ 64 → 0 ≤ i →
  Z.testbit (foldl (λ mask x, Z.lor mask (u64 (Z.shiftl 1 x))) m (seqZ a (Z.of_nat n))) i =
  Z.testbit m i || ((a <=? i) && (i <? a + Z.of_nat n)).
Proof.
  induction n as [|n IH]; intros m a i Ha Hn Hi.
  - change (Z.of_nat 0) with 0. replace ((a <=? i) && (i <? a + 0)) with false by lia.
    by rewrite orb_false_r.
  - rewrite seqZ_cons by lia. simpl foldl. replace (Z.pred (Z.of_nat (S n))) with (Z.of_nat n) by lia.
    rewrite IH by lia. rewrite Z.lor_spec, mask_bits by lia.
    rewrite <- orb_assoc. f_equal. destruct (i =? a) eqn:E; bool_prop; simpl.
    + subst. rewrite (proj2 (Z.leb_le a a)), (proj2 (Z.ltb_lt a _)) by lia. done.
    + destruct (a <=? i) eqn:E1; bool_prop; simpl.
      * rewrite (proj2 (Z.leb_le (Z.succ a) i)) by lia. simpl.
        destruct (i <? Z.succ a + Z.of_nat n) eqn:E2; bool_prop; symmetry;
          [apply Z.ltb_lt|apply Z.ltb_ge]; lia.
      * by rewrite (proj2 (Z.leb_gt (Z.succ a) i)) by lia.
Qed.

Lemma set_range_spec m a b i :
  0 ≤ a → a ≤ b < 64 → 0 ≤ i →
  Z.testbit (set_range m a b) i = Z.testbit m i || ((a <=? i) && (i <=? b)).
Proof.
  intros Ha Hb Hi. unfold set_range.
  replace (b - a + 1) with (Z.of_nat (Z.to_nat (b - a + 1))) by lia.
  rewrite set_range_bits by lia. f_equal. f_equal. rewrite Z2Nat.id by lia.
  destruct (i <=? b) eqn:E; bool_prop; [apply Z.ltb_lt|apply Z.ltb_ge]; lia.
Qed.

Lemma set_range_u64 a b : 0 ≤ a → a ≤ b < 64 → is_u64 (set_range 0 a b).
Proof.
  intros Ha Hb. assert (Hn : 0 ≤ set_range 0 a b).
  { unfold set_range. generalize (seqZ a (b - a + 1)) as l. intros l.
    assert (∀ m, 0 ≤ m → 0 ≤ foldl (λ mask x, Z.lor mask (u64 (Z.shiftl 1 x))) m l) as Hl; [|by apply Hl].
    induction l as [|x l IH]; intros m Hm; [done|]. simpl. apply IH. apply Z.lor_nonneg.
    split; [done|]. apply u64_range. }
  split; [done|]. apply bits_lt; [lia|done|]. intros i Hi. rewrite set_range_spec by lia.
  rewrite Z.testbit_0_l. simpl. rewrite (proj2 (Z.leb_gt i b)) by lia. apply andb_false_r.
Qed.

Lemma VirtualCoreMask_eq : VirtualCoreMask = 2 ^ 64 - 1.
Proof. reflexivity. Qed.

Lemma land_ones64 m : is_u64 m → Z.land m VirtualCoreMask = m.
Proof.
  intros Hm. rewrite VirtualCoreMask_eq. change (2 ^ 64 - 1) with (Z.ones 64).
  rewrite Z.land_ones by lia. by apply Z.mod_small.
Qed.

(** ** Physical cores *)
Definition physical_of (j i : Z) : Prop := 0 ≤ j ∧ VirtualToPhysicalCoreMap !! Z.to_nat j = Some i.

Lemma core_map_length : length VirtualToPhysicalCoreMap = 64%nat.
Proof. reflexivity. Qed.

Lemma core_map_range n x : VirtualToPhysicalCoreMap !! n = Some x → 0 ≤ x < 4.
Proof.
  intros Hx. apply list_elem_of_lookup_2 in Hx. revert Hx.
  assert (Hall : forallb (λ x, (0 <=? x) && (x <? 4)) VirtualToPhysicalCoreMap = true) by reflexivity.
  rewrite forallb_forall in Hall. intros Hx%list_elem_of_In%Hall. bool_prop. lia.
Qed.

Lemma convert_cores_run fuel : ∀ v p,
  is_u64 v → 0 ≤ p → (∀ j, 0 ≤ j < 64 - Z.of_nat fuel → Z.testbit v j = false) → (fuel ≤ 64)%nat →
  ∃ p', convert_cores_loop fuel v p = Done true p' ∧ 0 ≤ p' ∧
    ∀ i, 0 ≤ i → (Z.testbit p' i = true ↔
      Z.testbit p i = true ∨ ∃ j, Z.testbit v j = true ∧ physical_of j i).
Proof.
  induction fuel as [|fuel IH]; intros v p Hv Hp Hlow Hf; cbn [convert_cores_loop];
    (destruct (v =? 0) eqn:E; bool_prop; [subst v; exists p; split_and!; [done|done|]; intros i Hi;
      split; [auto|]; intros [?|(j & Hj & _)]; [done|by rewrite Z.testbit_0_l in Hj]|]).
  - exfalso. destruct (countr_zero_spec v Hv E) as (Hc & Hb & _). rewrite Hlow in Hb by lia. done.
  - destruct (countr_zero_spec v Hv E) as (Hc & Hb & Hlo). set (c := countr_zero v) in *. clearbody c.
    destruct (lookup_lt_is_Some_2 VirtualToPhysicalCoreMap (Z.to_nat c)) as [x Hx];
      [rewrite core_map_length; lia|].
    pose proof (core_map_range _ _ Hx) as Hxr.
    unfold arr_get at 1. rewrite (proj2 (Z.leb_le 0 c)), Hx by lia. pstep.
    assert (Hbits : ∀ j, 0 ≤ j → Z.testbit (Z.ldiff v (u64 (Z.shiftl 1 c))) j =
                         Z.testbit v j && negb (j =? c)).
    { intros j Hj. by rewrite Z.ldiff_spec, mask_bits by lia. }
    destruct (IH (Z.ldiff v (u64 (Z.shiftl 1 c))) (Z.lor p (u64 (Z.shiftl 1 x)))) as (p' & -> & Hp' & Hs).
    + by apply (ldiff_bound 64).
    + apply Z.lor_nonneg. split; [done|]. apply u64_range.
    + intros j Hj. rewrite Hbits by lia. destruct (j =? c) eqn:Ej; bool_prop; [by rewrite andb_false_r|].
      destruct (Z.testbit v j) eqn:Ev; [|done]. exfalso.
      assert (64 - Z.of_nat (S fuel) ≤ c).
      { destruct (decide (c < 64 - Z.of_nat (S fuel))); [|lia]. rewrite Hlow in Hb by lia. done. }
      rewrite Hlo in Ev by lia. done.
    + lia.
    + exists p'. split_and!; [done|done|]. intros i Hi. rewrite Hs, Z.lor_spec, mask_bits by lia.
      rewrite orb_true_iff, Z.eqb_eq. split.
      * intros [[?| ->]|(j & Hj & Hph)]; [by left| |].
        -- right. exists c. split; [done|]. split; [lia|done].
        -- right. exists j. split; [|done]. destruct Hph as [Hj0 _]. rewrite Hbits in Hj by done.
           by apply andb_true_iff in Hj as [? _].
      * intros [?|(j & Hj & Hph)]; [auto|]. destruct (decide (j = c)) as [->|].
        -- left. right. destruct Hph as [_ Hph]. congruence.
        -- right. exists j. split; [|done]. destruct Hph as [Hj0 _]. rewrite Hbits, Hj by done.
           simpl. by rewrite (proj2 (Z.eqb_neq j c)).
Qed.

(** ** CorePriority *)
Definition core_priority_ok (cap : Z) : Prop :=
  CorePriority_minimum_core_id cap ≤ CorePriority_maximum_core_id cap < 64 ∧
  4 ≤ CorePriority_highest_thread_priority cap ≤ CorePriority_lowest_thread_priority cap.

(** The cores and priorities are exactly those of the descriptor. *)
Record core_granted (cap : Z) (k : KCapabilities) : Prop := {
  cg_cores i : 0 ≤ i → Z.testbit (m_core_mask k) i =
    (CorePriority_minimum_core_id cap <=? i) && (i <=? CorePriority_maximum_core_id cap);
  cg_priorities i : 0 ≤ i → Z.testbit (m_priority_mask k) i =
    (CorePriority_highest_thread_priority cap <=? i) &&
    (i <=? CorePriority_lowest_thread_priority cap);
  cg_physical i : 0 ≤ i → (Z.testbit (m_phys_core_mask k) i = true ↔
    ∃ j, CorePriority_minimum_core_id cap ≤ j ≤ CorePriority_maximum_core_id cap ∧ physical_of j i)
}.

Lemma testbit_nonzero m i : Z.testbit m i = true → m ≠ 0.
Proof. intros Hb ->. by rewrite Z.testbit_0_l in Hb. Qed.

(** The priorities below 4 are the kernel's. *)
Lemma set_range_low4 a b : 0 ≤ a ≤ b → b < 64 → Z.land (set_range 0 a b) 0xF = 0 ↔ 4 ≤ a.
Proof.
  intros Hab Hb. change 0xF with (Z.ones 4). split.
  - intros E. destruct (decide (4 ≤ a)); [done|]. exfalso.
    apply (testbit_eq _ _ a) in E. rewrite Z.land_spec, set_range_spec, !Z.testbit_0_l in E by lia.
    replace ((a <=? a) && (a <=? b)) with true in E by lia. rewrite Z.ones_spec_low in E by lia. done.
  - intros Ha. apply Z.bits_inj'. intros i Hi. rewrite Z.land_spec, set_range_spec, !Z.testbit_0_l by lia.
    rewrite Z.testbit_ones_nonneg by lia. lia.
Qed.

Lemma SetCorePriority_run k cap :
  m_core_mask k = 0 → m_priority_mask k = 0 →
  wp (SetCorePriorityCapability k cap) (λ '(r, k'),
    (r = ResultSuccess ↔ core_priority_ok cap) ∧ (r = ResultSuccess → core_granted cap k')).
Proof.
  intros Hc0 Hp0. unfold SetCorePriorityCapability, core_priority_ok. rewrite Hc0, Hp0. cbn [negb Z.eqb].
  pose proof (BitField_ExtractValue_bound 16 8 cap ltac:(lia) ltac:(lia) ltac:(lia)) as B1.
  pose proof (BitField_ExtractValue_bound 24 8 cap ltac:(lia) ltac:(lia) ltac:(lia)) as B2.
  pose proof (BitField_ExtractValue_bound 4 6 cap ltac:(lia) ltac:(lia) ltac:(lia)) as B3.
  pose proof (BitField_ExtractValue_bound 10 6 cap ltac:(lia) ltac:(lia) ltac:(lia)) as B4.
  fold (CorePriority_minimum_core_id cap) in B1. fold (CorePriority_maximum_core_id cap) in B2.
  fold (CorePriority_lowest_thread_priority cap) in B3.
  fold (CorePriority_highest_thread_priority cap) in B4.
  destruct (CorePriority_minimum_core_id cap <=? _) eqn:E1; bool_prop; cbn [negb];
    [|pstep; split; [split; [done|lia]|done]].
  destruct (CorePriority_highest_thread_priority cap <=? _) eqn:E2; bool_prop; cbn [negb];
    [|pstep; split; [split; [done|lia]|done]].
  unfold NumVirtualCores. destruct (_ <? 64) eqn:E3; bool_prop; cbn [negb];
    [|pstep; split; [split; [done|lia]|done]].
  unfold ASSERT. rewrite (proj2 (Z.ltb_lt (CorePriority_lowest_thread_priority cap) 64)) by lia. pstep.
  set (c1 := CorePriority_minimum_core_id cap) in *. set (c2 := CorePriority_maximum_core_id cap) in *.
  set (p1 := CorePriority_highest_thread_priority cap) in *.
  set (p2 := CorePriority_lowest_thread_priority cap) in *.
  pose proof (set_range_u64 c1 c2 ltac:(lia) ltac:(lia)) as Hu.
  rewrite land_ones64, Z.eqb_refl by done. pstep. unfold ConvertVirtualCoreMaskToPhysical.
  destruct (convert_cores_run 64 (set_range 0 c1 c2) 0) as (ph & -> & _ & Hph); [done|lia|lia|lia|].
  pstep.
  assert (Hcn : set_range 0 c1 c2 ≠ 0) by (apply (testbit_nonzero _ c1); rewrite set_range_spec by lia; lia).
  assert (Hpn : set_range 0 p1 p2 ≠ 0) by (apply (testbit_nonzero _ p1); rewrite set_range_spec by lia; lia).
  rewrite (proj2 (Z.eqb_neq _ 0) Hcn), (proj2 (Z.eqb_neq _ 0) Hpn). cbn [negb].
  pose proof (set_range_low4 p1 p2 ltac:(lia) ltac:(lia)) as Hlow.
  destruct (Z.land _ 15 =? 0) eqn:E4; bool_prop; cbn [negb]; pstep.
  - apply Hlow in E4. split; [split; [lia|done]|]. intros _. split; simpl.
    + intros i Hi. by rewrite set_range_spec, Z.testbit_0_l by lia.
    + intros i Hi. by rewrite set_range_spec, Z.testbit_0_l by lia.
    + intros i Hi. rewrite Hph, Z.testbit_0_l by done. split.
      * intros [?|(j & Hj & Hij)]; [done|]. exists j. split; [|done]. destruct Hij as [? _].
        rewrite set_range_spec, Z.testbit_0_l in Hj by lia. simpl in Hj. bool_prop. lia.
      * intros (j & Hj & Hij). right. exists j. split; [|done]. rewrite set_range_spec by lia. lia.
  - split; [|done]. split; [done|]. intros [_ Hp]. exfalso. apply E4, Hlow. lia.
Qed.

(** a [CorePriority] descriptor is accepted exactly when its cores and
    priorities are ranges in order and within bounds and it asks for no kernel
    priority; then the process gets exactly these cores, exactly these
    priorities and the physical cores behind the virtual ones. *)
Theorem SetCorePriorityCapability_correct k cap :
  m_core_mask k = 0 → m_priority_mask k = 0 →
  wp (SetCorePriorityCapability k cap) (λ '(r, k'),
    (r = ResultSuccess ↔ core_priority_ok cap) ∧ (r = ResultSuccess → core_granted cap k')).
Proof. apply SetCorePriority_run. Qed.

(** ** SyscallMask *)
Definition svc_granted (cap id : Z) : bool :=
  (24 * SyscallMask_index cap <=? id) && (id <? 24 * SyscallMask_index cap + 24) &&
  Z.testbit (SyscallMask_mask cap) (id - 24 * SyscallMask_index cap).

Lemma set_svcs_run n : ∀ k mask index i,
  0 ≤ i → i + Z.of_nat n = 24 → 0 ≤ index < 8 →
  ∃ f, set_svcs_loop n k mask index i = (ResultSuccess, set_svc_flags f k) ∧
    ∀ id, 0 ≤ id → Z.testbit f id = Z.testbit (m_svc_access_flags k) id ||
      ((24 * index + i <=? id) && (id <? 24 * index + 24) && Z.testbit mask (id - 24 * index)).
Proof.
  induction n as [|n IH]; intros k mask index i Hi Hn Hx; cbn [set_svcs_loop].
  - exists (m_svc_access_flags k). split; [by destruct k|]. intros id Hid.
    replace ((24 * index + i <=? id) && (id <? 24 * index + 24)) with false by lia. by rewrite orb_false_r.
  - rewrite (u32_id (24 * index + i)) by (unfold is_u32; lia).
    assert (Hbit : negb (Z.land mask (u32 (Z.shiftl 1 i)) =? 0) = Z.testbit mask i).
    { rewrite u32_id by (unfold is_u32; rewrite Z.shiftl_1_l; split;
        [apply Z.pow_nonneg; lia|apply Z.pow_lt_mono_r; lia]).
      destruct (Z.testbit mask i) eqn:Em.
      - apply negb_true_iff, Z.eqb_neq, (testbit_nonzero _ i).
        by rewrite Z.land_spec, Em, Z.shiftl_1_l, Z.pow2_bits_true by lia.
      - apply negb_false_iff, Z.eqb_eq, Z.bits_inj'. intros j Hj.
        rewrite Z.land_spec, Z.shiftl_1_l, Z.pow2_bits_eqb, Z.testbit_0_l by lia.
        destruct (i =? j) eqn:Ej; bool_prop; [subst; by rewrite Em|apply andb_false_r]. }
    rewrite Hbit. destruct (Z.testbit mask i) eqn:Em.
    + unfold SetSvcAllowed, NumSupervisorCalls. rewrite (proj2 (Z.ltb_lt _ 0xC0)) by lia. cbn [negb].
      destruct (IH (set_svc_flags (Z.lor (m_svc_access_flags k) (Z.shiftl 1 (24 * index + i))) k)
                  mask index (i + 1)) as (f & -> & Hf); [lia..|].
      exists f. split; [done|]. intros id Hid. rewrite Hf by done. simpl.
      rewrite Z.lor_spec, Z.shiftl_1_l, Z.pow2_bits_eqb by lia. rewrite <- orb_assoc. f_equal.
      destruct (24 * index + i =? id) eqn:E; bool_prop; simpl.
      * subst id. replace (24 * index + i - 24 * index) with i by lia. rewrite Em. lia.
      * replace (24 * index + (i + 1) <=? id) with (24 * index + i <=? id) by lia. done.
    + destruct (IH k mask index (i + 1)) as (f & -> & Hf); [lia..|].
      exists f. split; [done|]. intros id Hid. rewrite Hf by done. f_equal.
      destruct (24 * index + i =? id) eqn:E; bool_prop.
      * subst id. replace (24 * index + i - 24 * index) with i by lia. rewrite Em. lia.
      * replace (24 * index + (i + 1) <=? id) with (24 * index + i <=? id) by lia. done.
Qed.

Lemma SetSyscallMask_run k cap set_svc :
  ∃ r k' set_svc', SetSyscallMaskCapability k cap set_svc = (r, k', set_svc') ∧
    (r = ResultInvalidCombination ∧ k' = k ∨
     r = ResultSuccess ∧ ∃ f, k' = set_svc_flags f k ∧
       ∀ id, 0 ≤ id → Z.testbit f id = Z.testbit (m_svc_access_flags k) id || svc_granted cap id).
Proof.
  unfold SetSyscallMaskCapability. destruct (negb _); [eexists _, _, _; split; [done|]; by left|].
  destruct (set_svcs_run 24 k (SyscallMask_mask cap) (SyscallMask_index cap) 0) as (f & -> & Hf);
    [lia|lia|apply (BitField_ExtractValue_bound 29 3); lia|].
  eexists _, _, _. split; [done|]. right. split; [done|]. exists f. split; [done|].
  intros id Hid. rewrite Hf by done. unfold svc_granted. by rewrite Z.add_0_r.
Qed.

(** ** One capability that was accepted *)
Definition is_type (type cap : Z) : bool := GetCapabilityType cap =? type.

(** The bit of [set_flags] of each type that may be given once. *)
Definition once_bits : list Z := [3; 13; 14; 15; 16].

Ltac each_once Hn tac :=
  repeat (apply elem_of_cons in Hn as [->|Hn]; [tac|]); by apply elem_of_nil in Hn.

Lemma InitializeOnceFlags_bits n : n ∈ once_bits → Z.testbit InitializeOnceFlags n = true.
Proof. intros Hn. each_once Hn ltac:(reflexivity). Qed.

Section Parse.
Context {P : Type} `{PageTable P}.
Implicit Types s : @parse_state P.

Record accepted (cap : Z) s s' : Prop := {
  ac_svc id : 0 ≤ id → Z.testbit (m_svc_access_flags (ps_caps s')) id =
    Z.testbit (m_svc_access_flags (ps_caps s)) id ||
    (is_type CapabilityType_SyscallMask cap && svc_granted cap id);
  ac_masks :
    (is_type CapabilityType_CorePriority cap = false ∧
     m_core_mask (ps_caps s') = m_core_mask (ps_caps s) ∧
     m_priority_mask (ps_caps s') = m_priority_mask (ps_caps s) ∧
     m_phys_core_mask (ps_caps s') = m_phys_core_mask (ps_caps s)) ∨
    (is_type CapabilityType_CorePriority cap = true ∧ m_core_mask (ps_caps s) = 0 ∧
     m_priority_mask (ps_caps s) = 0 ∧ core_priority_ok cap ∧ core_granted cap (ps_caps s'));
  ac_flags n : 0 ≤ n → Z.testbit (ps_set_flags s) n = true → Z.testbit (ps_set_flags s') n = true;
  ac_once n : n ∈ once_bits → is_type (2 ^ n - 1) cap = true →
    Z.testbit (ps_set_flags s) n = false ∧ Z.testbit (ps_set_flags s') n = true
}.

(** A step that changes none of the masks. *)
Lemma accepted_other cap s k svc t flags :
  m_svc_access_flags k = m_svc_access_flags (ps_caps s) →
  m_core_mask k = m_core_mask (ps_caps s) → m_priority_mask k = m_priority_mask (ps_caps s) →
  m_phys_core_mask k = m_phys_core_mask (ps_caps s) →
  is_type CapabilityType_SyscallMask cap = false → is_type CapabilityType_CorePriority cap = false →
  (∀ n, 0 ≤ n → Z.testbit (ps_set_flags s) n = true → Z.testbit flags n = true) →
  (∀ n, n ∈ once_bits → is_type (2 ^ n - 1) cap = true →
     Z.testbit (ps_set_flags s) n = false ∧ Z.testbit flags n = true) →
  accepted cap s (MkParse k flags svc t).
Proof.
  intros E1 E2 E3 E4 Et Ec Hf Ho. split; simpl; [|by left|done|done].
  intros id Hid. by rewrite E1, Et, orb_false_r.
Qed.

Lemma is_type_only a b cap : is_type a cap = true → a ≠ b → is_type b cap = false.
Proof. unfold is_type. intros E Hab. bool_prop. apply Z.eqb_neq. congruence. Qed.

(** The flag of a type, and what the test of [set_flags] says. *)
Lemma type_flag cap n :
  n ∈ once_bits → is_type (2 ^ n - 1) cap = true →
  GetCapabilityFlag (GetCapabilityType cap) = 2 ^ n ∧ 0 ≤ n.
Proof.
  unfold is_type, GetCapabilityFlag. intros Hn Ht. bool_prop. rewrite Ht.
  each_once Hn ltac:(split; [reflexivity|lia]).
Qed.

Lemma flag_fresh flags flag n :
  n ∈ once_bits → 0 ≤ n → flag = 2 ^ n →
  negb (Z.land (Z.land flags InitializeOnceFlags) flag =? 0) = false → Z.testbit flags n = false.
Proof.
  intros Hn Hn0 -> E. bool_prop. apply (testbit_eq _ _ n) in E.
  rewrite !Z.land_spec, InitializeOnceFlags_bits, Z.pow2_bits_true, Z.testbit_0_l, !andb_true_r in E
    by done. done.
Qed.

Lemma set_misc_accepted cap s d h v p svc t flags :
  is_type CapabilityType_SyscallMask cap = false → is_type CapabilityType_CorePriority cap = false →
  (∀ n, 0 ≤ n → Z.testbit (ps_set_flags s) n = true → Z.testbit flags n = true) →
  (∀ n, n ∈ once_bits → is_type (2 ^ n - 1) cap = true →
     Z.testbit (ps_set_flags s) n = false ∧ Z.testbit flags n = true) →
  accepted cap s (MkParse (set_misc d h v p (ps_caps s)) flags svc t).
Proof. intros. by apply accepted_other. Qed.

(** The run ended with an error code, contrary to [Hr]. *)
Ltac refused E Hr := injection E as _ <- _; by vm_compute in Hr.

Lemma SetCorePriority_frame k cap ok r k' :
  SetCorePriorityCapability k cap = Done ok (r, k') →
  m_svc_access_flags k' = m_svc_access_flags k ∧
  (Result_IsSuccess r = true → m_core_mask k = 0 ∧ m_priority_mask k = 0).
Proof.
  unfold SetCorePriorityCapability. intros E.
  destruct (m_core_mask k =? 0) eqn:Z1; cbn [negb] in E; [|by injection E as _ <- <-].
  destruct (m_priority_mask k =? 0) eqn:Z2; cbn [negb] in E; [|by injection E as _ <- <-].
  bool_prop. split; [|done]. clear Z1 Z2. by prog_inv.
Qed.

Lemma with_caps_inv s x ok r s' :
  mret (with_caps s x) = Done ok (r, s') →
  s' = MkParse x.2 (ps_set_flags s) (ps_set_svc s) (ps_table s).
Proof. by intros [= _ _ <-]. Qed.

Lemma SetCapability_accepted s cap ok r s' :
  SetCapability s cap = Done ok (r, s') → Result_IsSuccess r = true → accepted cap s s'.
Proof.
  unfold SetCapability. intros E Hr.
  destruct (GetCapabilityType cap =? CapabilityType_Invalid) eqn:E0; [refused E Hr|].
  destruct (GetCapabilityType cap =? CapabilityType_Padding) eqn:E1.
  { injection E as _ _ <-. destruct s as [k f sv t]. apply accepted_other; try done.
    - apply (is_type_only CapabilityType_Padding); [exact E1|vm_compute; congruence].
    - apply (is_type_only CapabilityType_Padding); [exact E1|vm_compute; congruence].
    - intros n Hn Ht. exfalso. unfold is_type in Ht. bool_prop. rewrite E1 in Ht.
      each_once Hn ltac:(by vm_compute in Ht). }
  destruct (negb _) eqn:E2; [refused E Hr|].
  set (flag := GetCapabilityFlag (GetCapabilityType cap)) in *.
  assert (Hmono : ∀ n, 0 ≤ n → Z.testbit (ps_set_flags s) n = true →
                  Z.testbit (Z.lor (ps_set_flags s) flag) n = true).
  { intros n Hn Hb. by rewrite Z.lor_spec, Hb. }
  assert (Honce : ∀ n, n ∈ once_bits → is_type (2 ^ n - 1) cap = true →
     Z.testbit (ps_set_flags s) n = false ∧ Z.testbit (Z.lor (ps_set_flags s) flag) n = true).
  { intros n Hn Ht. destruct (type_flag cap n Hn Ht) as [Ef Hn0]. fold flag in Ef. split.
    - by eapply flag_fresh.
    - rewrite Z.lor_spec, Ef, Z.pow2_bits_true by done. apply orb_true_r. }
  clearbody flag. cbv zeta in E. cbn [ps_caps ps_set_flags ps_set_svc ps_table] in E.
  destruct (GetCapabilityType cap =? CapabilityType_CorePriority) eqn:T1.
  { apply bind_Done_inv in E as (ok1 & [r1 k1] & ok2 & E & [= _ <- <-]).
    destruct (SetCorePriority_frame _ _ _ _ _ E) as [Esvc Hz]. specialize (Hz Hr).
    pose proof (SetCorePriority_run (ps_caps s) cap (proj1 Hz) (proj2 Hz)) as Hrun. rewrite E in Hrun.
    destruct ok1; [|done]. destruct Hrun as [Hiff Hg]. apply Z.eqb_eq in Hr. simpl in Hr.
    change 0 with ResultSuccess in Hr. split; simpl; [| |done|done].
    - intros id Hid. rewrite Esvc, (is_type_only CapabilityType_CorePriority); [|exact T1|vm_compute; congruence].
      by rewrite orb_false_r.
    - right. split_and!; [exact T1|apply Hz|apply Hz|by apply Hiff|by apply Hg]. }
  destruct (GetCapabilityType cap =? CapabilityType_SyscallMask) eqn:T2.
  { destruct (SetSyscallMask_run (ps_caps s) cap (ps_set_svc s)) as (r1 & k1 & sv1 & E3 & Hc).
    rewrite E3 in E. injection E as _ <- <-. destruct Hc as [[-> _]|(-> & f & -> & Hf)]; [done|].
    split; simpl; [|by left|done|done]. intros id Hid. rewrite Hf by done. unfold is_type. by rewrite T2. }
  destruct (GetCapabilityType cap =? CapabilityType_MapIoPage) eqn:T3.
  { apply bind_Done_inv in E as (ok1 & [r1 t1] & ok2 & E & [= _ <- <-]). by apply accepted_other. }
  destruct (GetCapabilityType cap =? CapabilityType_MapRegion) eqn:T4.
  { apply bind_Done_inv in E as (ok1 & [r1 t1] & ok2 & E & [= _ <- <-]). by apply accepted_other. }
  destruct (GetCapabilityType cap =? CapabilityType_InterruptPair) eqn:T5.
  { apply bind_Done_inv in E as (ok1 & [r1 k1] & ok2 & E & [= _ <- <-]).
    apply bind_Done_inv in E as (? & [] & ? & _ & [= _ _ <-]). by apply accepted_other. }
  destruct (GetCapabilityType cap =? CapabilityType_ProgramType) eqn:T6.
  { apply with_caps_inv in E as ->. unfold SetProgramTypeCapability.
    destruct (negb (ProgramType_reserved cap =? 0)); [by apply accepted_other|by apply set_misc_accepted]. }
  destruct (GetCapabilityType cap =? CapabilityType_KernelVersion) eqn:T7.
  { apply with_caps_inv in E as ->. unfold SetKernelVersionCapability.
    destruct (negb (KernelVersion_major_version (m_intended_kernel_version _) =? 0));
      [by apply accepted_other|]. cbv zeta.
    destruct (negb (negb (KernelVersion_major_version cap =? 0))); by apply set_misc_accepted. }
  destruct (GetCapabilityType cap =? CapabilityType_HandleTable) eqn:T8.
  { apply with_caps_inv in E as ->. unfold SetHandleTableCapability.
    destruct (negb (HandleTable_reserved cap =? 0)); [by apply accepted_other|by apply set_misc_accepted]. }
  destruct (GetCapabilityType cap =? CapabilityType_DebugFlags) eqn:T9; [|refused E Hr].
  apply with_caps_inv in E as ->. by apply set_misc_accepted.
Qed.
(** ** A list of capabilities that was accepted *)
Lemma core_granted_same cap k k' :
  m_core_mask k' = m_core_mask k → m_priority_mask k' = m_priority_mask k →
  m_phys_core_mask k' = m_phys_core_mask k → core_granted cap k → core_granted cap k'.
Proof. intros E1 E2 E3 [G1 G2 G3]. split; intros i Hi; rewrite ?E1, ?E2, ?E3; auto. Qed.

Lemma core_granted_nonzero cap k :
  core_priority_ok cap → core_granted cap k → m_core_mask k ≠ 0.
Proof.
  intros [Hc _] G. pose proof (BitField_ExtractValue_bound 16 8 cap ltac:(lia) ltac:(lia) ltac:(lia)) as B.
  fold (CorePriority_minimum_core_id cap) in B.
  apply (testbit_nonzero _ (CorePriority_minimum_core_id cap)). rewrite (cg_cores _ _ G) by lia. lia.
Qed.

Definition svcs_of (caps : list Z) (id : Z) : bool :=
  existsb (λ cap, is_type CapabilityType_SyscallMask cap && svc_granted cap id) caps.
Definition count_type (n : Z) (caps : list Z) : nat :=
  length (filter (λ cap, is_type (2 ^ n - 1) cap = true) caps).

Record parsed (caps : list Z) s s' : Prop := {
  pa_svc id : 0 ≤ id → Z.testbit (m_svc_access_flags (ps_caps s')) id =
    Z.testbit (m_svc_access_flags (ps_caps s)) id || svcs_of caps id;
  pa_masks :
    ((∀ cap, cap ∈ caps → is_type CapabilityType_CorePriority cap = false) ∧
     m_core_mask (ps_caps s') = m_core_mask (ps_caps s) ∧
     m_priority_mask (ps_caps s') = m_priority_mask (ps_caps s) ∧
     m_phys_core_mask (ps_caps s') = m_phys_core_mask (ps_caps s)) ∨
    (m_core_mask (ps_caps s) = 0 ∧ m_priority_mask (ps_caps s) = 0 ∧
     ∃ cap, (∀ c, c ∈ caps → is_type CapabilityType_CorePriority c = true ↔ c = cap) ∧
       cap ∈ caps ∧ core_priority_ok cap ∧ core_granted cap (ps_caps s'));
  pa_once n : n ∈ once_bits →
    (count_type n caps ≤ (if Z.testbit (ps_set_flags s) n then 0 else 1))%nat
}.

Lemma parsed_step cap caps s s1 s' : accepted cap s s1 → parsed caps s1 s' → parsed (cap :: caps) s s'.
Proof.
  intros [A1 A2 A3 A4] [P1 P2 P3]. split.
  - intros id Hid. rewrite P1, A1 by done. unfold svcs_of. simpl. by rewrite orb_assoc.
  - destruct P2 as [(Hno & E1 & E2 & E3)|(Z1 & Z2 & c & Huniq & Hc & G)].
    + destruct A2 as [(F0 & F1 & F2 & F3)|(Ht & Z1 & Z2 & Hok & G)]; [left|right].
      { split; [by intros c [->|Hc]%elem_of_cons; [|apply Hno]|]. split_and!; congruence. }
      split_and!; [done|done|]. exists cap. split_and!; [|left|done|by eapply core_granted_same; [..|exact G]].
      intros c [->|Hc]%elem_of_cons; [done|]. rewrite (Hno c Hc). split; [done|]. intros ->. by rewrite Hno in Ht.
    + destruct A2 as [(F0 & F1 & F2 & F3)|(Ht & Y1 & Y2 & Hok & G')].
      * right. split_and!; [congruence|congruence|]. exists c. split_and!; [|by right|apply G|apply G].
        intros c' [->|Hc']%elem_of_cons; [|by apply Huniq]. rewrite F0. split; [done|]. intros ->.
        rewrite (proj2 (Huniq c Hc) eq_refl) in F0. done.
      * exfalso. by apply (core_granted_nonzero cap (ps_caps s1)).
  - intros n Hn. unfold count_type in *. rewrite filter_cons.
    specialize (P3 n Hn). destruct (decide (is_type (2 ^ n - 1) cap = true)) as [Ht|Ht].
    + destruct (A4 n Hn Ht) as [-> E]. rewrite E in P3. simpl. lia.
    + assert (0 ≤ n) by (each_once Hn ltac:(lia)).
      destruct (Z.testbit (ps_set_flags s) n) eqn:E; [by rewrite (A3 n) in P3|].
      destruct (Z.testbit (ps_set_flags s1) n); lia.
Qed.

(** A pair of [MapRange] words only goes to the page table. *)
Lemma map_range_accepted cap s t :
  is_type CapabilityType_MapRange cap = true →
  accepted cap s (MkParse (ps_caps s) (ps_set_flags s) (ps_set_svc s) t).
Proof.
  intros Ht. apply accepted_other; try done.
  - apply (is_type_only CapabilityType_MapRange); [done|vm_compute; congruence].
  - apply (is_type_only CapabilityType_MapRange); [done|vm_compute; congruence].
  - intros n Hn Ho. exfalso. unfold is_type in *. bool_prop. rewrite Ht in Ho.
    each_once Hn ltac:(by vm_compute in Ho).
Qed.

Lemma set_capabilities_parsed n : ∀ caps s ok r s',
  (length caps ≤ n)%nat → set_capabilities s caps = Done ok (r, s') → Result_IsSuccess r = true →
  parsed caps s s'.
Proof.
  induction n as [|n IH]; intros caps s ok r s' Hn E Hr.
  - destruct caps; [|simpl in Hn; lia]. injection E as _ _ <-. split; [|left; split; [by intros c ?%elem_of_nil|done]|].
    + intros id _. by rewrite orb_false_r.
    + intros m _. unfold count_type. rewrite filter_nil. simpl. lia.
  - destruct caps as [|cap caps].
    { apply (IH [] s ok r); [simpl; lia|done|done]. }
    cbn [set_capabilities] in E. simpl in Hn.
    destruct (GetCapabilityType cap =? CapabilityType_MapRange) eqn:Et.
    + destruct caps as [|size_cap caps]; [refused E Hr|].
      destruct (negb _) eqn:Es; [refused E Hr|]. apply negb_false_iff in Es.
      apply bind_Done_inv in E as (ok1 & [r1 t1] & ok2 & _ & E). unfold with_table in E. cbn [fst snd] in E.
      destruct (negb (Result_IsSuccess r1)) eqn:Er.
      { injection E as _ <- _. bool_prop. congruence. }
      eapply parsed_step; [by apply (map_range_accepted cap s (ps_table s))|].
      eapply parsed_step; [by apply (map_range_accepted size_cap)|].
      eapply IH; [|exact E|done]. simpl in Hn. lia.
    + apply bind_Done_inv in E as (ok1 & [r1 s1] & ok2 & E1 & E).
      destruct (negb (Result_IsSuccess r1)) eqn:Er; [injection E as _ <- _; bool_prop; congruence|].
      eapply parsed_step; [eapply SetCapability_accepted; [exact E1|by bool_prop]|].
      eapply IH; [|exact E|done]. lia.
Qed.

(** the system calls a user process may make are exactly those that a
    [SyscallMask] word among its capabilities lists. *)
Theorem InitializeForUser_syscalls k caps page_table ok s :
  InitializeForUser k caps page_table = Done ok (ResultSuccess, s) →
  ∀ id, 0 ≤ id → IsPermittedSvc (ps_caps s) id = true ↔
    ∃ cap, cap ∈ caps ∧ GetCapabilityType cap = CapabilityType_SyscallMask ∧
      SyscallMask_index cap = id / 24 ∧ Z.testbit (SyscallMask_mask cap) (id mod 24) = true.
Proof.
  intros E id Hid. pose proof (set_capabilities_parsed _ _ _ _ _ _ (le_n _) E eq_refl) as Hp.
  unfold IsPermittedSvc. rewrite (pa_svc _ _ _ Hp) by done. cbn [ps_caps m_svc_access_flags].
  rewrite Z.testbit_0_l, orb_false_l, andb_true_iff. unfold svcs_of. rewrite existsb_exists.
  pose proof (Z.div_mod id 24 ltac:(lia)) as Hdm. pose proof (Z.mod_pos_bound id 24 ltac:(lia)).
  split.
  - intros [_ (cap & Hin & Hc)]. unfold is_type, svc_granted in Hc.
    rewrite !andb_true_iff, Z.leb_le, Z.ltb_lt, Z.eqb_eq in Hc. destruct Hc as (Ht & (H1 & H2) & H3).
    exists cap. assert (Ei : SyscallMask_index cap = id / 24) by (apply (Z.div_unique id 24 _ (id - 24 * SyscallMask_index cap)); lia).
    split_and!; [by apply list_elem_of_In|done|done|]. rewrite <- H3. f_equal. lia.
  - intros (cap & Hin & Ht & Ei & Hb).
    pose proof (BitField_ExtractValue_bound 29 3 cap ltac:(lia) ltac:(lia) ltac:(lia)) as B.
    fold (SyscallMask_index cap) in B. split.
    + apply Z.ltb_lt. unfold NumSupervisorCalls. lia.
    + exists cap. split; [by apply list_elem_of_In|]. unfold is_type, svc_granted.
      rewrite !andb_true_iff, Z.leb_le, Z.ltb_lt, Z.eqb_eq. split_and!; [done|lia|lia|].
      rewrite <- Hb. f_equal. lia.
Qed.

(** C35: a user process gets its cores and priorities from one [CorePriority]
    word and only from it: when none of its capabilities is one it has no cores and no
    priorities, and when one is, the word passed its tests and the process has exactly
    its ranges, no kernel priority among them; and no capability of a kind that may
    be given once is given twice. *)
Theorem InitializeForUser_cores k caps page_table ok s :
  InitializeForUser k caps page_table = Done ok (ResultSuccess, s) →
  ((∀ cap, cap ∈ caps → GetCapabilityType cap ≠ CapabilityType_CorePriority) →
   m_core_mask (ps_caps s) = 0 ∧ m_priority_mask (ps_caps s) = 0) ∧
  (∀ cap, cap ∈ caps → GetCapabilityType cap = CapabilityType_CorePriority →
   core_priority_ok cap ∧ core_granted cap (ps_caps s)) ∧
  (∀ i, 0 ≤ i < 4 → Z.testbit (m_priority_mask (ps_caps s)) i = false) ∧
  (∀ n, n ∈ once_bits → (count_type n caps ≤ 1)%nat).
Proof.
  intros E. pose proof (set_capabilities_parsed _ _ _ _ _ _ (le_n _) E eq_refl) as [_ Hm Ho].
  cbn [ps_caps ps_set_flags m_core_mask m_priority_mask m_phys_core_mask] in *.
  assert (∀ cap, GetCapabilityType cap = CapabilityType_CorePriority ↔ is_type CapabilityType_CorePriority cap = true)
    as Ht by (intros cap; symmetry; apply Z.eqb_eq).
  split_and!.
  - intros Hno. destruct Hm as [(_ & E1 & E2 & _)|(_ & _ & cap & Hu & Hin & _)]; [done|].
    exfalso. by apply (Hno cap Hin), Ht, Hu.
  - intros cap Hin Hc%Ht. destruct Hm as [(Hno & _)|(_ & _ & c & Hu & _ & Hok)]; [by rewrite Hno in Hc|].
    by apply Hu in Hc as ->.
  - intros i Hi. destruct Hm as [(_ & _ & -> & _)|(_ & _ & cap & _ & _ & [_ Hp] & G)]; [apply Z.testbit_0_l|].
    rewrite (cg_priorities _ _ G) by lia. lia.
  - intros n Hn. specialize (Ho n Hn). by rewrite Z.testbit_0_l in Ho.
Qed.
End Parse.

(** The type of a descriptor is told by its trailing ones alone: the number
    [2 ^ n - 1] for [n] ones followed by a zero, no type without a trailing one,
    padding for the word of ones. *)
Lemma GetCapabilityType_correct v : is_u32 v →
  ∃ n, 0 ≤ n ≤ 32 ∧ GetCapabilityType v = 2 ^ n - 1 ∧
    (∀ j, 0 ≤ j < n → Z.testbit v j = true) ∧ (n < 32 → Z.testbit v n = false) ∧
    (GetCapabilityType v = CapabilityType_Invalid ↔ n = 0) ∧
    (GetCapabilityType v = CapabilityType_Padding ↔ n = 32).
Proof.
  intros Hv. destruct (GetCapabilityType_run v Hv) as (n & Hn & E & H1 & H2).
  exists n. rewrite E. change CapabilityType_Invalid with (2 ^ 0 - 1).
  change CapabilityType_Padding with (2 ^ 32 - 1).
  assert (Hinj : ∀ m, 0 ≤ m → 2 ^ n - 1 = 2 ^ m - 1 ↔ n = m).
  { intros m Hm. split; [|by intros ->]. intros Em. apply (Z.pow_inj_r 2); lia. }
  split_and!; [lia|lia|done|done|done|apply Hinj; lia..].
Qed.

(** ** A process with two capabilities

    Cores 0 to 2, priorities 28 to 59, and the system calls 1 to 4. *)
#[export] Instance ex_page_table : PageTable unit := {
  MapStatic pt _ _ _ := mret (ResultSuccess, pt);
  MapIo pt _ _ _ := mret (ResultSuccess, pt);
  MapRegion pt _ _ := mret (ResultSuccess, pt)
}.
Definition ex_cores : Z := 7 + Z.shiftl 59 4 + Z.shiftl 28 10 + Z.shiftl 0 16 + Z.shiftl 2 24.
Definition ex_svcs : Z := 15 + Z.shiftl 0x1E 5.
Definition ex_caps : list Z := [ex_cores; ex_svcs; 0xFFFFFFFF].
Definition ex_parsed : Z * @parse_state unit :=
  result (0, MkParse KCapabilities_new 0 0 ()) (InitializeForUser KCapabilities_new ex_caps ()).

Example ex_parsed_masks :
  (ex_parsed.1, m_core_mask (ps_caps ex_parsed.2), m_svc_access_flags (ps_caps ex_parsed.2)) =
  (ResultSuccess, 7, 0x1E).
Proof. vm_compute. reflexivity. Qed.

Lemma SetCorePriorityCapability_correct_witness :
  wp (SetCorePriorityCapability KCapabilities_new ex_cores) (λ '(r, k'),
    (r = ResultSuccess ↔ core_priority_ok ex_cores) ∧
    (r = ResultSuccess → core_granted ex_cores k')).
Proof. apply SetCorePriorityCapability_correct; reflexivity. Defined.

Lemma InitializeForUser_syscalls_witness :
  IsPermittedSvc (ps_caps ex_parsed.2) 3 = true ↔
    ∃ cap, cap ∈ ex_caps ∧ GetCapabilityType cap = CapabilityType_SyscallMask ∧
      SyscallMask_index cap = 3 / 24 ∧ Z.testbit (SyscallMask_mask cap) (3 mod 24) = true.
Proof.
  apply (InitializeForUser_syscalls KCapabilities_new ex_caps () true);
    [vm_compute; reflexivity | lia].
Defined.

Lemma InitializeForUser_cores_witness :
  ((∀ cap, cap ∈ ex_caps → GetCapabilityType cap ≠ CapabilityType_CorePriority) →
   m_core_mask (ps_caps ex_parsed.2) = 0 ∧ m_priority_mask (ps_caps ex_parsed.2) = 0) ∧
  (∀ cap, cap ∈ ex_caps → GetCapabilityType cap = CapabilityType_CorePriority →
   core_priority_ok cap ∧ core_granted cap (ps_caps ex_parsed.2)) ∧
  (∀ i, 0 ≤ i < 4 → Z.testbit (m_priority_mask (ps_caps ex_parsed.2)) i = false) ∧
  (∀ n, n ∈ once_bits → (count_type n ex_caps ≤ 1)%nat).
Proof.
  apply (InitializeForUser_cores KCapabilities_new ex_caps () true). vm_compute. reflexivity.
Defined.
