(* ===== verification/Thread.v ===== *)
(** * What the scheduler sees of threads and processes
    (src/src/core/hle/kernel/k_thread.h, k_process.h, k_affinity_mask.h)

    The fields of KThread and KProcess that the priority queue and the
    scheduler read or change.  A pointer to a thread or a process is a number,
    the null pointer is [None]. *)

From S2P Require Import Prelude Common.

Definition LowestThreadPriority : Z := 63.
Definition HighestThreadPriority : Z := 0.

(** ** k_affinity_mask.h *)
Definition AllowedAffinityMask : Z := Z.shiftl 1 NUM_CPU_CORES - 1.

Definition GetCoreBit (core : Z) : prog Z :=
  _ ← ASSERT ((0 <=? core) && (core <? NUM_CPU_CORES));
  if (0 <=? core) && (core <? 64) then mret (Z.shiftl 1 core) else Stuck.

Definition KAffinityMask_SetAffinityMask (new_mask : Z) : prog Z :=
  _ ← ASSERT (Z.ldiff new_mask AllowedAffinityMask =? 0);
  mret new_mask.

Definition KAffinityMask_GetAffinity (m_mask core : Z) : prog bool :=
  bit ← GetCoreBit core;
  mret (negb (Z.land m_mask bit =? 0)).

Definition KAffinityMask_SetAffinity (m_mask core : Z) (set : bool) : prog Z :=
  bit ← GetCoreBit core;
  mret (if set then Z.lor m_mask bit else Z.ldiff m_mask bit).

Definition KAffinityMask_SetAll : Z := AllowedAffinityMask.

(** ** k_thread.h *)
Definition ThreadState_Initialized : Z := 0.
Definition ThreadState_Waiting : Z := 1.
Definition ThreadState_Runnable : Z := 2.
Definition ThreadState_Terminated : Z := 3.
Definition ThreadState_SuspendShift : Z := 4.
Definition ThreadState_Mask : Z := Z.shiftl 1 ThreadState_SuspendShift - 1.

Inductive ThreadType : Type :=
| ThreadType_Main | ThreadType_Kernel | ThreadType_HighPriority | ThreadType_User
| ThreadType_Dummy.

#[export] Instance ThreadType_eq_dec : EqDecision ThreadType.
Proof. solve_decision. Defined.

Record KThread : Type := MkThread {
  m_thread_type : ThreadType;
  m_priority : Z;
  m_core_id : Z;                      (* the active core, -1 for none *)
  m_physical_affinity_mask : Z;
  m_thread_state : Z;                 (* with the suspension flags *)
  m_num_kernel_waiters : Z;
  m_parent : option Z;
  m_last_scheduled_tick : Z;
  m_yield_schedule_count : Z;
  m_dummy_thread_runnable : bool
}.

Definition KThread_IsDummyThread (t : KThread) : bool :=
  bool_decide (m_thread_type t = ThreadType_Dummy).

Definition KThread_GetState (t : KThread) : Z := Z.land (m_thread_state t) ThreadState_Mask.

Definition KThread_SetActiveCore (core : Z) (t : KThread) : KThread :=
  MkThread (m_thread_type t) (m_priority t) core (m_physical_affinity_mask t) (m_thread_state t)
    (m_num_kernel_waiters t) (m_parent t) (m_last_scheduled_tick t) (m_yield_schedule_count t)
    (m_dummy_thread_runnable t).

Definition KThread_SetLastScheduledTick (tick : Z) (t : KThread) : KThread :=
  MkThread (m_thread_type t) (m_priority t) (m_core_id t) (m_physical_affinity_mask t)
    (m_thread_state t) (m_num_kernel_waiters t) (m_parent t) tick (m_yield_schedule_count t)
    (m_dummy_thread_runnable t).

Definition KThread_SetYieldScheduleCount (count : Z) (t : KThread) : KThread :=
  MkThread (m_thread_type t) (m_priority t) (m_core_id t) (m_physical_affinity_mask t)
    (m_thread_state t) (m_num_kernel_waiters t) (m_parent t) (m_last_scheduled_tick t) count
    (m_dummy_thread_runnable t).

Definition set_thread_state (state : Z) (t : KThread) : KThread :=
  MkThread (m_thread_type t) (m_priority t) (m_core_id t) (m_physical_affinity_mask t) state
    (m_num_kernel_waiters t) (m_parent t) (m_last_scheduled_tick t) (m_yield_schedule_count t)
    (m_dummy_thread_runnable t).

Definition KThread_SetPriority (value : Z) (t : KThread) : KThread :=
  MkThread (m_thread_type t) value (m_core_id t) (m_physical_affinity_mask t) (m_thread_state t)
    (m_num_kernel_waiters t) (m_parent t) (m_last_scheduled_tick t) (m_yield_schedule_count t)
    (m_dummy_thread_runnable t).

Definition set_core_mask (core mask : Z) (t : KThread) : KThread :=
  MkThread (m_thread_type t) (m_priority t) core mask (m_thread_state t)
    (m_num_kernel_waiters t) (m_parent t) (m_last_scheduled_tick t) (m_yield_schedule_count t)
    (m_dummy_thread_runnable t).

Definition set_dummy_runnable (b : bool) (t : KThread) : KThread :=
  MkThread (m_thread_type t) (m_priority t) (m_core_id t) (m_physical_affinity_mask t)
    (m_thread_state t) (m_num_kernel_waiters t) (m_parent t) (m_last_scheduled_tick t)
    (m_yield_schedule_count t) b.

(** ** k_process.h *)
Record KProcess : Type := MkProcess {
  m_schedule_count : Z;
  m_pinned_threads : list (option Z);
  m_running_threads : list (option Z);
  m_running_thread_idle_counts : list Z;
  m_running_thread_switch_counts : list Z
}.

Definition KProcess_IncrementScheduledCount (p : KProcess) : KProcess :=
  MkProcess (s64 (m_schedule_count p + 1)) (m_pinned_threads p) (m_running_threads p)
    (m_running_thread_idle_counts p) (m_running_thread_switch_counts p).

Definition KProcess_GetPinnedThread (p : KProcess) (core_id : Z) : prog (option Z) :=
  _ ← ASSERT ((0 <=? core_id) && (core_id <? NUM_CPU_CORES));
  arr_get (m_pinned_threads p) core_id.

Definition KProcess_SetRunningThread (p : KProcess) (core : Z) (thread : option Z)
    (idle_count switch_count : Z) : prog KProcess :=
  running ← arr_set (m_running_threads p) core thread;
  idle ← arr_set (m_running_thread_idle_counts p) core idle_count;
  switches ← arr_set (m_running_thread_switch_counts p) core switch_count;
  mret (MkProcess (m_schedule_count p) (m_pinned_threads p) running idle switches).

(** ** Facts *)
Lemma GetCoreBit_run core :
  0 ≤ core < NUM_CPU_CORES → GetCoreBit core = Done true (Z.shiftl 1 core).
Proof.
  unfold NUM_CPU_CORES, GetCoreBit, NUM_CPU_CORES. intros Hc.
  rewrite (proj2 (Z.leb_le 0 core)), (proj2 (Z.ltb_lt core 4)), (proj2 (Z.ltb_lt core 64)) by lia.
  by pstep.
Qed.

Lemma land_shiftl_1 x i : 0 ≤ i → negb (Z.land x (Z.shiftl 1 i) =? 0) = Z.testbit x i.
Proof.
  intros Hi. destruct (Z.testbit x i) eqn:E.
  - apply negb_true_iff, Z.eqb_neq. intros H0.
    apply (testbit_eq _ _ i) in H0. rewrite Z.land_spec, E, Z.shiftl_spec, Z.sub_diag, Z.testbit_0_l in H0 by lia.
    done.
  - apply negb_false_iff, Z.eqb_eq, Z.bits_inj'. intros j Hj.
    rewrite Z.land_spec, Z.testbit_0_l, Z.shiftl_spec by lia.
    destruct (decide (j = i)) as [->|]; [by rewrite E|].
    destruct (decide (j < i)).
    + rewrite (Z.testbit_neg_r 1) by lia. apply andb_false_r.
    + rewrite (Z.bits_above_log2 1 (j - i)) by (simpl; lia). apply andb_false_r.
Qed.

Lemma GetAffinity_run m core :
  0 ≤ core < NUM_CPU_CORES → KAffinityMask_GetAffinity m core = Done true (Z.testbit m core).
Proof.
  intros Hc. unfold KAffinityMask_GetAffinity. rewrite GetCoreBit_run by done. pstep.
  rewrite land_shiftl_1 by lia. done.
Qed.
