(* ===== verification/PriorityQueue.v ===== *)
(** * KPriorityQueue (src/src/core/hle/kernel/k_priority_queue.h)

    The queues of runnable threads, one for each priority and core, twice: the
    scheduled queue of the core a thread is active on and the suggested queues
    of the other cores of its affinity mask.  A queue is a circular doubly
    linked list through the entries that every thread has for every core, with
    a root entry in the queue; the links to the root are null pointers.

    The template is instantiated as GlobalSchedulerContext does, with four cores
    and priorities 0 to 63. *)

From S2P Require Import Prelude Common PageBitmap Thread.

Definition LowestPriority : Z := LowestThreadPriority.
Definition HighestPriority : Z := HighestThreadPriority.
Definition NumPriority : Z := LowestPriority - HighestPriority + 1.
Definition NumCores : Z := NUM_CPU_CORES.

Definition IsValidCore (core : Z) : bool := (0 <=? core) && (core <? NumCores).
Definition IsValidPriority (priority : Z) : bool :=
  (HighestPriority <=? priority) && (priority <=? LowestPriority + 1).

(** ** KThread::QueueEntry *)
Record QueueEntry : Type := MkEntry { m_prev : option Z; m_next : option Z }.

Definition QueueEntry_Initialize : QueueEntry := MkEntry None None.
Definition QueueEntry_SetPrev (thread : option Z) (e : QueueEntry) : QueueEntry :=
  MkEntry thread (m_next e).
Definition QueueEntry_SetNext (thread : option Z) (e : QueueEntry) : QueueEntry :=
  MkEntry (m_prev e) thread.

(** The entries of the threads, by thread and core; every thread has one for
    each core ([m_per_core_priority_queue_entry]). *)
Abbreviation Entries := (gmap (Z * Z) QueueEntry).

Definition GetPriorityQueueEntry (E : Entries) (thread core : Z) : prog QueueEntry :=
  deref (E !! (thread, core)).

(** ** KPerCoreQueue

    A reference to an entry is a thread, whose entry for the core is meant, or
    [None] for the root of the queue. *)
Record KPerCoreQueue : Type := MkPerCore { m_root : list QueueEntry }.

Definition KPerCoreQueue_new : KPerCoreQueue :=
  MkPerCore (replicate (Z.to_nat NumCores) QueueEntry_Initialize).

Definition get_entry (core : Z) (r : option Z) (q : KPerCoreQueue) (E : Entries)
    : prog QueueEntry :=
  match r with
  | Some thread => GetPriorityQueueEntry E thread core
  | None => arr_get (m_root q) core
  end.

Definition put_entry (core : Z) (r : option Z) (f : QueueEntry → QueueEntry)
    (q : KPerCoreQueue) (E : Entries) : prog (KPerCoreQueue * Entries) :=
  e ← get_entry core r q E;
  match r with
  | Some thread => mret (q, <[(thread, core) := f e]> E)
  | None => root ← arr_set (m_root q) core (f e); mret (MkPerCore root, E)
  end.

Definition KPerCoreQueue_GetFront (q : KPerCoreQueue) (core : Z) : prog (option Z) :=
  root ← arr_get (m_root q) core;
  mret (m_next root).

Definition KPerCoreQueue_PushBack (q : KPerCoreQueue) (core member : Z) (E : Entries)
    : prog (bool * KPerCoreQueue * Entries) :=
  root ← arr_get (m_root q) core;
  let tail := m_prev root in
  '(q, E) ← put_entry core (Some member) (QueueEntry_SetPrev tail) q E;
  '(q, E) ← put_entry core (Some member) (QueueEntry_SetNext None) q E;
  '(q, E) ← put_entry core tail (QueueEntry_SetNext (Some member)) q E;
  '(q, E) ← put_entry core None (QueueEntry_SetPrev (Some member)) q E;
  mret (bool_decide (tail = None), q, E).

Definition KPerCoreQueue_PushFront (q : KPerCoreQueue) (core member : Z) (E : Entries)
    : prog (bool * KPerCoreQueue * Entries) :=
  root ← arr_get (m_root q) core;
  let head := m_next root in
  '(q, E) ← put_entry core (Some member) (QueueEntry_SetPrev None) q E;
  '(q, E) ← put_entry core (Some member) (QueueEntry_SetNext head) q E;
  '(q, E) ← put_entry core head (QueueEntry_SetPrev (Some member)) q E;
  '(q, E) ← put_entry core None (QueueEntry_SetNext (Some member)) q E;
  mret (bool_decide (head = None), q, E).

Definition KPerCoreQueue_Remove (q : KPerCoreQueue) (core member : Z) (E : Entries)
    : prog (bool * KPerCoreQueue * Entries) :=
  member_entry ← GetPriorityQueueEntry E member core;
  let prev := m_prev member_entry in
  let next := m_next member_entry in
  '(q, E) ← put_entry core prev (QueueEntry_SetNext next) q E;
  '(q, E) ← put_entry core next (QueueEntry_SetPrev prev) q E;
  front ← KPerCoreQueue_GetFront q core;
  mret (bool_decide (front = None), q, E).

(** ** KPriorityQueueImpl; a bitset is the number with its bits *)
Record KPriorityQueueImpl : Type := MkImpl {
  m_queues : list KPerCoreQueue;
  m_available_priorities : list Z
}.

Definition KPriorityQueueImpl_new : KPriorityQueueImpl :=
  MkImpl (replicate (Z.to_nat NumPriority) KPerCoreQueue_new) (replicate (Z.to_nat NumCores) 0).

Definition bitset_set (pos bits : Z) : Z := Z.lor bits (Z.shiftl 1 pos).
Definition bitset_reset (pos bits : Z) : Z := Z.ldiff bits (Z.shiftl 1 pos).

(** The three operations change a queue and, when it [changed] between empty and
    not empty, the bit of its priority. *)
Definition update_queue (op : KPerCoreQueue → Z → Z → Entries → prog (bool * KPerCoreQueue * Entries))
    (mark : Z → Z → Z) (i : KPriorityQueueImpl) (priority core member : Z) (E : Entries)
    : prog (KPriorityQueueImpl * Entries) :=
  _ ← ASSERT (IsValidCore core);
  _ ← ASSERT (IsValidPriority priority);
  if LowestPriority <? priority then mret (i, E)
  else
    q ← arr_get (m_queues i) priority;
    '(changed, q, E) ← op q core member E;
    queues ← arr_set (m_queues i) priority q;
    (if changed : bool then
       bits ← arr_get (m_available_priorities i) core;
       available ← arr_set (m_available_priorities i) core (mark priority bits);
       mret (MkImpl queues available, E)
     else mret (MkImpl queues (m_available_priorities i), E)).

Definition KPriorityQueueImpl_PushBack : KPriorityQueueImpl → Z → Z → Z → Entries →
    prog (KPriorityQueueImpl * Entries) := update_queue KPerCoreQueue_PushBack bitset_set.
Definition KPriorityQueueImpl_PushFront : KPriorityQueueImpl → Z → Z → Z → Entries →
    prog (KPriorityQueueImpl * Entries) := update_queue KPerCoreQueue_PushFront bitset_set.
Definition KPriorityQueueImpl_Remove : KPriorityQueueImpl → Z → Z → Z → Entries →
    prog (KPriorityQueueImpl * Entries) := update_queue KPerCoreQueue_Remove bitset_reset.

(** The first set bit from [i] on, [n] bits being left; [NumPriority] if none. *)
Fixpoint find_set (n : nat) (bits i : Z) : Z :=
  match n with
  | O => NumPriority
  | S n => if Z.testbit bits i then i else find_set n bits (i + 1)
  end.

Definition KPriorityQueueImpl_GetFront (i : KPriorityQueueImpl) (core : Z) : prog (option Z) :=
  _ ← ASSERT (IsValidCore core);
  bits ← arr_get (m_available_priorities i) core;
  let priority := find_set (Z.to_nat NumPriority) bits 0 in
  if priority <=? LowestPriority
  then q ← arr_get (m_queues i) priority; KPerCoreQueue_GetFront q core
  else mret None.

Definition KPriorityQueueImpl_GetFront_at (i : KPriorityQueueImpl) (priority core : Z)
    : prog (option Z) :=
  _ ← ASSERT (IsValidCore core);
  _ ← ASSERT (IsValidPriority priority);
  if priority <=? LowestPriority
  then q ← arr_get (m_queues i) priority; KPerCoreQueue_GetFront q core
  else mret None.

Definition GetNextSet (bits n : Z) : Z :=
  let i := u64 (u64 n + 1) in
  find_set (Z.to_nat (NumPriority - i)) bits i.

(** [member] has priority [priority]. *)
Definition KPriorityQueueImpl_GetNext (i : KPriorityQueueImpl) (core member priority : Z)
    (E : Entries) : prog (option Z) :=
  _ ← ASSERT (IsValidCore core);
  e ← GetPriorityQueueEntry E member core;
  match m_next e with
  | Some next => mret (Some next)
  | None =>
      bits ← arr_get (m_available_priorities i) core;
      let priority := GetNextSet bits priority in
      if priority <=? LowestPriority
      then q ← arr_get (m_queues i) priority; KPerCoreQueue_GetFront q core
      else mret None
  end.

(** Remove and push again in one queue, which leaves the set bits alone. *)
Definition move_in_queue (op : KPerCoreQueue → Z → Z → Entries → prog (bool * KPerCoreQueue * Entries))
    (i : KPriorityQueueImpl) (priority core member : Z) (E : Entries)
    : prog (KPriorityQueueImpl * Entries) :=
  q ← arr_get (m_queues i) priority;
  '(_, q, E) ← KPerCoreQueue_Remove q core member E;
  '(_, q, E) ← op q core member E;
  queues ← arr_set (m_queues i) priority q;
  mret (MkImpl queues (m_available_priorities i), E).

Definition KPriorityQueueImpl_MoveToFront (i : KPriorityQueueImpl) (priority core member : Z)
    (E : Entries) : prog (KPriorityQueueImpl * Entries) :=
  _ ← ASSERT (IsValidCore core);
  _ ← ASSERT (IsValidPriority priority);
  if priority <=? LowestPriority
  then move_in_queue KPerCoreQueue_PushFront i priority core member E
  else mret (i, E).

Definition KPriorityQueueImpl_MoveToBack (i : KPriorityQueueImpl) (priority core member : Z)
    (E : Entries) : prog (option Z * KPriorityQueueImpl * Entries) :=
  _ ← ASSERT (IsValidCore core);
  _ ← ASSERT (IsValidPriority priority);
  if priority <=? LowestPriority then
    '(i, E) ← move_in_queue KPerCoreQueue_PushBack i priority core member E;
    q ← arr_get (m_queues i) priority;
    front ← KPerCoreQueue_GetFront q core;
    mret (front, i, E)
  else mret (None, i, E).

(** ** KPriorityQueue, with the entries of all threads *)
Inductive QueueKind : Type := Scheduled | Suggested.
#[export] Instance QueueKind_eq_dec : EqDecision QueueKind.
Proof. solve_decision. Defined.

Record KPriorityQueue : Type := MkQueue {
  m_scheduled_queue : KPriorityQueueImpl;
  m_suggested_queue : KPriorityQueueImpl;
  pq_entries : Entries
}.

Definition pq_impl (k : QueueKind) (Q : KPriorityQueue) : KPriorityQueueImpl :=
  match k with Scheduled => m_scheduled_queue Q | Suggested => m_suggested_queue Q end.

Definition on_impl (k : QueueKind)
    (op : KPriorityQueueImpl → Z → Z → Z → Entries → prog (KPriorityQueueImpl * Entries))
    (priority core member : Z) (Q : KPriorityQueue) : prog KPriorityQueue :=
  '(i, E) ← op (pq_impl k Q) priority core member (pq_entries Q);
  mret (match k with
        | Scheduled => MkQueue i (m_suggested_queue Q) E
        | Suggested => MkQueue (m_scheduled_queue Q) i E
        end).

Definition ClearAffinityBit (affinity core : Z) : Z := Z.ldiff affinity (u64 (Z.shiftl 1 core)).

(** [while (affinity) f(GetNextCore(affinity))]: every turn clears the lowest
    bit, so 64 turns are enough. *)
Fixpoint for_each_core (fuel : nat) (affinity : Z) (f : Z → KPriorityQueue → prog KPriorityQueue)
    (Q : KPriorityQueue) : prog KPriorityQueue :=
  if affinity =? 0 then mret Q
  else
    match fuel with
    | O => Stuck
    | S fuel =>
        let core := countr_zero affinity in
        Q ← f core Q;
        for_each_core fuel (ClearAffinityBit affinity core) f Q
    end.

(** The shape of the three private operations: one operation on the scheduled
    queue of the active core, one on the suggested queues of the others. *)
Definition on_all_cores
    (scheduled suggested : KPriorityQueueImpl → Z → Z → Z → Entries → prog (KPriorityQueueImpl * Entries))
    (priority member : Z) (t : KThread) (Q : KPriorityQueue) : prog KPriorityQueue :=
  _ ← ASSERT (IsValidPriority priority);
  let affinity := m_physical_affinity_mask t in
  '(affinity, Q) ←
    (if 0 <=? m_core_id t then
       Q ← on_impl Scheduled scheduled priority (m_core_id t) member Q;
       mret (ClearAffinityBit affinity (m_core_id t), Q)
     else mret (affinity, Q));
  for_each_core 64 affinity (λ core, on_impl Suggested suggested priority core member) Q.

Definition PushBack_at : Z → Z → KThread → KPriorityQueue → prog KPriorityQueue :=
  on_all_cores KPriorityQueueImpl_PushBack KPriorityQueueImpl_PushBack.
Definition PushFront_at : Z → Z → KThread → KPriorityQueue → prog KPriorityQueue :=
  on_all_cores KPriorityQueueImpl_PushFront KPriorityQueueImpl_PushBack.
Definition Remove_at : Z → Z → KThread → KPriorityQueue → prog KPriorityQueue :=
  on_all_cores KPriorityQueueImpl_Remove KPriorityQueueImpl_Remove.

Definition GetScheduledFront (Q : KPriorityQueue) (core : Z) : prog (option Z) :=
  KPriorityQueueImpl_GetFront (m_scheduled_queue Q) core.
Definition GetScheduledFront_at (Q : KPriorityQueue) (core priority : Z) : prog (option Z) :=
  KPriorityQueueImpl_GetFront_at (m_scheduled_queue Q) priority core.
Definition GetSuggestedFront (Q : KPriorityQueue) (core : Z) : prog (option Z) :=
  KPriorityQueueImpl_GetFront (m_suggested_queue Q) core.
Definition GetSuggestedFront_at (Q : KPriorityQueue) (core priority : Z) : prog (option Z) :=
  KPriorityQueueImpl_GetFront_at (m_suggested_queue Q) priority core.
Definition GetScheduledNext (Q : KPriorityQueue) (core member : Z) (t : KThread)
    : prog (option Z) :=
  KPriorityQueueImpl_GetNext (m_scheduled_queue Q) core member (m_priority t) (pq_entries Q).
Definition GetSuggestedNext (Q : KPriorityQueue) (core member : Z) (t : KThread)
    : prog (option Z) :=
  KPriorityQueueImpl_GetNext (m_suggested_queue Q) core member (m_priority t) (pq_entries Q).
Definition GetSamePriorityNext (Q : KPriorityQueue) (core member : Z) : prog (option Z) :=
  e ← GetPriorityQueueEntry (pq_entries Q) member core;
  mret (m_next e).

(** [t] is the thread that [member] points to. *)
Definition KPriorityQueue_PushBack (member : Z) (t : KThread) (Q : KPriorityQueue)
    : prog KPriorityQueue :=
  if KThread_IsDummyThread t then mret Q else PushBack_at (m_priority t) member t Q.

Definition KPriorityQueue_Remove (member : Z) (t : KThread) (Q : KPriorityQueue)
    : prog KPriorityQueue :=
  if KThread_IsDummyThread t then mret Q else Remove_at (m_priority t) member t Q.

Definition MoveToScheduledFront (member : Z) (t : KThread) (Q : KPriorityQueue)
    : prog KPriorityQueue :=
  if KThread_IsDummyThread t then mret Q
  else on_impl Scheduled KPriorityQueueImpl_MoveToFront (m_priority t) (m_core_id t) member Q.

Definition MoveToScheduledBack (member : Z) (t : KThread) (Q : KPriorityQueue)
    : prog (option Z * KPriorityQueue) :=
  if KThread_IsDummyThread t then mret (None, Q)
  else
    '(front, i, E) ← KPriorityQueueImpl_MoveToBack (m_scheduled_queue Q) (m_priority t)
                       (m_core_id t) member (pq_entries Q);
    mret (front, MkQueue i (m_suggested_queue Q) E).

Definition ChangePriority (prev_priority : Z) (is_running : bool) (member : Z) (t : KThread)
    (Q : KPriorityQueue) : prog KPriorityQueue :=
  if KThread_IsDummyThread t then mret Q
  else
    _ ← ASSERT (IsValidPriority prev_priority);
    Q ← Remove_at prev_priority member t Q;
    if is_running then PushFront_at (m_priority t) member t Q
    else PushBack_at (m_priority t) member t Q.

(** The loop over the cores of a mask; the queue of [active] is the scheduled one. *)
Fixpoint over_affinity
    (op : KPriorityQueueImpl → Z → Z → Z → Entries → prog (KPriorityQueueImpl * Entries))
    (cores : list Z) (affinity active priority member : Z) (Q : KPriorityQueue)
    : prog KPriorityQueue :=
  match cores with
  | [] => mret Q
  | core :: cores =>
      set ← KAffinityMask_GetAffinity affinity core;
      Q ← (if set : bool then
             on_impl (if core =? active then Scheduled else Suggested) op priority core member Q
           else mret Q);
      over_affinity op cores affinity active priority member Q
  end.

Definition ChangeAffinityMask (prev_core prev_affinity : Z) (member : Z) (t : KThread)
    (Q : KPriorityQueue) : prog KPriorityQueue :=
  if KThread_IsDummyThread t then mret Q
  else
    Q ← over_affinity KPriorityQueueImpl_Remove (seqZ 0 NumCores) prev_affinity prev_core
          (m_priority t) member Q;
    over_affinity KPriorityQueueImpl_PushBack (seqZ 0 NumCores) (m_physical_affinity_mask t)
      (m_core_id t) (m_priority t) member Q.

Definition ChangeCore (prev_core : Z) (member : Z) (t : KThread) (to_front : bool)
    (Q : KPriorityQueue) : prog KPriorityQueue :=
  if KThread_IsDummyThread t then mret Q
  else
    let new_core := m_core_id t in
    let priority := m_priority t in
    if prev_core =? new_core then mret Q
    else
      Q ← (if 0 <=? prev_core
           then on_impl Scheduled KPriorityQueueImpl_Remove priority prev_core member Q
           else mret Q);
      Q ← (if 0 <=? new_core then
             Q ← on_impl Suggested KPriorityQueueImpl_Remove priority new_core member Q;
             on_impl Scheduled
               (if to_front then KPriorityQueueImpl_PushFront else KPriorityQueueImpl_PushBack)
               priority new_core member Q
           else mret Q);
      if 0 <=? prev_core
      then on_impl Suggested KPriorityQueueImpl_PushBack priority prev_core member Q
      else mret Q.
