(* ===== verification/PriorityQueueLemmas.v ===== *)
(** * The queues as lists of threads

    A queue is the ring of its members and its root.  [rep Q L] says that the
    linked entries and the bit sets of [Q] represent the lists [L], one for each
    kind, priority and core; each operation on one queue is shown to be the
    operation on its list, with everything else left alone. *)

From S2P Require Import Prelude Common PageBitmap Thread PriorityQueue.

(** ** Rings of entries *)
Definition link (cell : option Z → option QueueEntry) (a b : option Z) : Prop :=
  m_next <$> cell a = Some b ∧ m_prev <$> cell b = Some a.

Definition ring (l : list Z) : list (option Z) := None :: (Some <$> l) ++ [None].

Definition queue_at (cell : option Z → option QueueEntry) (l : list Z) : Prop :=
  NoDup l ∧ adj (link cell) (ring l).

(** The nodes of a chain that have a successor in it. *)
Fixpoint sources {A} (l : list A) : list A :=
  match l with
  | a :: (_ :: _) as r => a :: sources r
  | _ => []
  end.

Lemma sources_snoc {A} (l : list A) x : sources (l ++ [x]) = l.
Proof. induction l as [|a [|b l] IH]; [done..|]. simpl. f_equal. apply IH. Qed.

Lemma sources_cons {A} (a : A) l : sources (a :: l) ⊆ a :: l.
Proof.
  revert a. induction l as [|b l IH]; intros a; [set_solver|].
  intros x. cbn [sources]. intros [->|Hx]%elem_of_cons; [by left|]. right. by apply IH.
Qed.

(** A chain is kept by changes to links outside it. *)
Lemma adj_frame (cell cell' : option Z → option QueueEntry) l :
  adj (link cell) l →
  (∀ a, a ∈ sources l → m_next <$> cell' a = m_next <$> cell a) →
  (∀ b, b ∈ tail l → m_prev <$> cell' b = m_prev <$> cell b) →
  adj (link cell') l.
Proof.
  induction l as [|a [|b l] IH]; intros Hl Hn Hp; [done|done|].
  destruct Hl as [Hab Hl]. split.
  - intros ? [= <-]. destruct (Hab b eq_refl) as [? ?].
    split; [rewrite Hn by (cbn; left) | rewrite Hp by (cbn; left)]; done.
  - apply IH; [done| |].
    + intros x Hx. apply Hn. cbn [sources]. by right.
    + intros x Hx. apply Hp. cbn in *. by right.
Qed.

Lemma adj_link_cons cell a b l :
  adj (link cell) (a :: b :: l) ↔ link cell a b ∧ adj (link cell) (b :: l).
Proof.
  split; [|intros [? ?]; split; [by intros ? [= <-]|done]].
  intros [H ?]. split; [by apply H|done].
Qed.

(** A chain splits at each of its nodes. *)
Lemma adj_link_split cell l1 x l2 :
  adj (link cell) (l1 ++ x :: l2) ↔ adj (link cell) (l1 ++ [x]) ∧ adj (link cell) (x :: l2).
Proof.
  induction l1 as [|a [|b l1] IH]; [cbn; naive_solver| |].
  - cbn [app]. rewrite !adj_link_cons. cbn. naive_solver.
  - cbn [app] in *. rewrite !adj_link_cons, IH. naive_solver.
Qed.

Lemma ring_NoDup (l : list Z) : NoDup l → NoDup (None :: (Some <$> l)).
Proof.
  intros Hl. constructor; [|by apply (NoDup_fmap_2 Some)].
  rewrite list_elem_of_fmap. by intros (? & ? & ?).
Qed.

Lemma ring_split l1 x l2 :
  ring (l1 ++ x :: l2) = (None :: (Some <$> l1)) ++ Some x :: (Some <$> l2) ++ [None].
Proof. unfold ring. rewrite fmap_app, <- app_assoc. done. Qed.

Lemma front_snoc (l : list Z) y :
  None :: (Some <$> (l ++ [y])) = (None :: (Some <$> l)) ++ [Some y].
Proof. by rewrite fmap_app. Qed.

(** The nodes before the end of a list, the root included, end in its last. *)
Lemma front_last (l : list Z) : ∃ f, None :: (Some <$> l) = f ++ [last l].
Proof.
  destruct l as [|y l _] using rev_ind; [by exists []|].
  exists (None :: (Some <$> l)). by rewrite front_snoc, last_snoc.
Qed.

(** The nodes after the start of a list begin with its head. *)
Lemma back_head (l : list Z) : ∃ f, (Some <$> l) ++ [None] = head l :: f.
Proof. destruct l as [|y l]; [by exists []|]. by exists ((Some <$> l) ++ [None]). Qed.

(** The root points at both ends of the list. *)
Lemma queue_at_root cell l :
  queue_at cell l →
  m_next <$> cell None = Some (head l) ∧ m_prev <$> cell None = Some (last l).
Proof.
  intros [_ Hl]. unfold ring in Hl. split.
  - destruct (back_head l) as [f Ef]. rewrite Ef, adj_link_cons in Hl. by destruct Hl as [[? _] _].
  - destruct (front_last l) as [f Ef].
    rewrite app_comm_cons, Ef, <- app_assoc, <- cons_middle, adj_link_split, adj_link_cons in Hl.
    by destruct Hl as [_ [[_ ?] _]].
Qed.

Lemma queue_at_member cell l1 x l2 :
  queue_at cell (l1 ++ x :: l2) → cell (Some x) = Some (MkEntry (last l1) (head l2)).
Proof.
  intros [_ Hl]. rewrite ring_split, adj_link_split in Hl. destruct Hl as [H1 H2].
  destruct (back_head l2) as [f Ef]. rewrite Ef, adj_link_cons in H2. destruct H2 as [[Hn _] _].
  destruct (front_last l1) as [g Eg]. rewrite Eg, <- app_assoc, <- cons_middle, adj_link_split, adj_link_cons in H1.
  destruct H1 as [_ [[_ Hp] _]].
  destruct (cell (Some x)) as [[p n]|]; [|done]. cbn in *. congruence.
Qed.

(** The three changes of a ring. *)
Lemma queue_at_push_back cell cell' l x :
  queue_at cell l → x ∉ l →
  (∀ r, m_next <$> cell' r =
     if decide (r = last l) then Some (Some x)
     else if decide (r = Some x) then Some None else m_next <$> cell r) →
  (∀ r, m_prev <$> cell' r =
     if decide (r = None) then Some (Some x)
     else if decide (r = Some x) then Some (last l) else m_prev <$> cell r) →
  queue_at cell' (l ++ [x]).
Proof.
  intros [Hnd Hl] Hx Hn Hp. split.
  { apply NoDup_app. split_and!; [done|set_solver|apply NoDup_singleton]. }
  unfold ring in *. pose proof (ring_NoDup l Hnd) as Hr.
  destruct (front_last l) as [f Ef].
  rewrite app_comm_cons, front_snoc. rewrite app_comm_cons in Hl.
  assert (Some x ∉ f ++ [last l]) as Hxf.
  { rewrite <- Ef, elem_of_cons, list_elem_of_fmap. naive_solver. }
  assert (tail (f ++ [last l]) = Some <$> l) as Et by (by rewrite <- Ef).
  rewrite Ef in *. rewrite <- !app_assoc. rewrite <- app_assoc, <- cons_middle, adj_link_split in Hl. cbn [app]. destruct Hl as [H1 _].
  assert (last l ≠ Some x) as Htx by set_solver.
  assert (last l ∉ f) as Htf by (apply NoDup_app in Hr; set_solver).
  rewrite adj_link_split. split.
  - eapply adj_frame; [exact H1| |].
    + rewrite sources_snoc. intros a Ha. rewrite Hn, !decide_False; set_solver.
    + rewrite Et. intros a (y & -> & Hy)%list_elem_of_fmap. rewrite Hp, !decide_False; naive_solver.
  - rewrite !adj_link_cons. split_and!; [|split|done].
    + split; [by rewrite Hn, decide_True|]. by rewrite Hp, decide_False, decide_True.
    + rewrite Hn, decide_False, decide_True by done. done.
    + by rewrite Hp, decide_True.
Qed.

Lemma queue_at_push_front cell cell' l x :
  queue_at cell l → x ∉ l →
  (∀ r, m_next <$> cell' r =
     if decide (r = None) then Some (Some x)
     else if decide (r = Some x) then Some (head l) else m_next <$> cell r) →
  (∀ r, m_prev <$> cell' r =
     if decide (r = head l) then Some (Some x)
     else if decide (r = Some x) then Some None else m_prev <$> cell r) →
  queue_at cell' (x :: l).
Proof.
  intros [Hnd Hl] Hx Hn Hp. split; [by constructor|].
  unfold ring in *. destruct (back_head l) as [f Ef].
  assert (sources (head l :: f) = Some <$> l) as Es by (rewrite <- Ef; apply sources_snoc).
  assert (head l ∉ f) as Hhf.
  { destruct l as [|y l]; cbn in Ef; injection Ef as <-; [set_solver|].
    apply NoDup_cons in Hnd as [Hy _]. rewrite elem_of_app, list_elem_of_fmap. set_solver. }
  assert (Some x ∉ head l :: f) as Hxf.
  { rewrite <- Ef, elem_of_app, list_elem_of_fmap. set_solver. }
  cbn [fmap list_fmap app]. change (list_fmap Z (option Z) Some l) with (Some <$> l).
  rewrite Ef in Hl |- *. rewrite adj_link_cons in Hl. rewrite !adj_link_cons.
  destruct Hl as [_ Hl]. split_and!.
  - split; [by rewrite Hn, decide_True|]. rewrite Hp, decide_False, decide_True by set_solver. done.
  - split; [by rewrite Hn, decide_False, decide_True|]. by rewrite Hp, decide_True.
  - eapply adj_frame; [exact Hl| |].
    + rewrite Es. intros a Ha. pose proof Ha as (y & -> & Hy)%list_elem_of_fmap.
      rewrite Hn, !decide_False; naive_solver.
    + cbn [tail]. intros a Ha. rewrite Hp, !decide_False; set_solver.
Qed.

Lemma queue_at_remove cell cell' l1 x l2 :
  queue_at cell (l1 ++ x :: l2) →
  (∀ r, m_next <$> cell' r =
     if decide (r = last l1) then Some (head l2) else m_next <$> cell r) →
  (∀ r, m_prev <$> cell' r =
     if decide (r = head l2) then Some (last l1) else m_prev <$> cell r) →
  queue_at cell' (l1 ++ l2).
Proof.
  intros [Hnd Hl] Hn Hp. pose proof Hnd as (Hnd1 & Hd & [_ Hnd2]%NoDup_cons)%NoDup_app.
  split. { apply NoDup_app. set_solver. }
  rewrite ring_split, adj_link_split in Hl. destruct Hl as [H1 H2].
  unfold ring. rewrite fmap_app, <- app_assoc, app_comm_cons.
  pose proof (ring_NoDup l1 Hnd1) as Hr.
  destruct (front_last l1) as [f Ef]. destruct (back_head l2) as [g Eg].
  assert (sources (head l2 :: g) = Some <$> l2) as Es by (rewrite <- Eg; apply sources_snoc).
  assert (tail (f ++ [last l1]) = Some <$> l1) as Et by (by rewrite <- Ef).
  assert (last l1 ∉ f) as Hlf by (rewrite Ef in Hr; apply NoDup_app in Hr; set_solver).
  assert (last l1 ∉ Some <$> l2) as Hl12.
  { intros (y & Ey & Hy)%list_elem_of_fmap. apply last_Some_elem_of in Ey. set_solver. }
  assert (head l2 ∉ Some <$> l1) as Hh12.
  { intros (y & Ey & Hy)%list_elem_of_fmap. destruct l2; [done|]. simplify_eq/=. set_solver. }
  assert (head l2 ∉ g) as Hhg.
  { destruct l2 as [|y l2]; cbn in Eg; injection Eg as <-; [set_solver|].
    apply NoDup_cons in Hnd2 as [Hy _]. rewrite elem_of_app, list_elem_of_fmap. set_solver. }
  rewrite Eg in H2 |- *. rewrite Ef in H1 |- *.
  rewrite <- app_assoc, <- cons_middle, adj_link_split in H1. destruct H1 as [H1 _].
  rewrite adj_link_cons in H2. destruct H2 as [_ H2].
  rewrite <- app_assoc, <- cons_middle, adj_link_split, adj_link_cons. split_and!.
  - eapply adj_frame; [exact H1| |].
    + rewrite sources_snoc. intros a Ha. rewrite Hn, decide_False; set_solver.
    + rewrite Et. intros a Ha. rewrite Hp, decide_False; [done|]. intros ->. done.
  - split; [by rewrite Hn, decide_True|by rewrite Hp, decide_True].
  - eapply adj_frame; [exact H2| |].
    + rewrite Es. intros a Ha. rewrite Hn, decide_False; [done|]. intros ->. done.
    + cbn [tail]. intros a Ha. rewrite Hp, decide_False; set_solver.
Qed.

(** ** The entries of one queue *)
Definition pcell (core : Z) (q : KPerCoreQueue) (E : Entries) (r : option Z) : option QueueEntry :=
  match r with Some x => E !! (x, core) | None => m_root q !! Z.to_nat core end.

Definition upd (core : Z) (r : option Z) (e : QueueEntry) (s : KPerCoreQueue * Entries)
    : KPerCoreQueue * Entries :=
  match r with
  | Some x => (s.1, <[(x, core) := e]> s.2)
  | None => (MkPerCore (<[Z.to_nat core := e]> (m_root s.1)), s.2)
  end.

Lemma put_entry_run core r f q E e :
  0 ≤ core → pcell core q E r = Some e →
  put_entry core r f q E = Done true (upd core r (f e) (q, E)).
Proof.
  intros Hc He. unfold put_entry, get_entry, GetPriorityQueueEntry, arr_get. destruct r as [x|].
  - cbn [pcell] in He. rewrite He. by pstep.
  - cbn [pcell] in He. rewrite (proj2 (Z.leb_le 0 core) Hc), He. pstep.
    unfold arr_set. apply lookup_lt_Some in He.
    rewrite (proj2 (Z.leb_le 0 core) Hc), (proj2 (Z.ltb_lt _ _)) by lia. cbn [andb]. by pstep.
Qed.

Lemma pcell_upd core r e s r' :
  is_Some (pcell core s.1 s.2 r) →
  pcell core (upd core r e s).1 (upd core r e s).2 r' =
    if decide (r' = r) then Some e else pcell core s.1 s.2 r'.
Proof.
  intros [e0 He]. destruct r as [x|], r' as [y|]; cbn in *.
  - case_decide; simplify_eq. { by rewrite lookup_insert_eq. }
    rewrite lookup_insert_ne; [done|]. congruence.
  - by rewrite decide_False.
  - by rewrite decide_False.
  - rewrite decide_True by done. apply lookup_lt_Some in He. by apply list_lookup_insert_eq.
Qed.

(** What an operation on a core leaves alone: the entries and roots of the other
    cores, and on the core the entries of threads that are not in [l]. *)
Definition frame_at (core : Z) (l : list Z) (q : KPerCoreQueue) (E : Entries)
    (q' : KPerCoreQueue) (E' : Entries) : Prop :=
  length (m_root q') = length (m_root q) ∧
  (∀ c', c' ≠ core → 0 ≤ c' → m_root q' !! Z.to_nat c' = m_root q !! Z.to_nat c') ∧
  (∀ x c', c' ≠ core ∨ x ∉ l → E' !! (x, c') = E !! (x, c')) ∧
  (∀ y, is_Some (E !! y) → is_Some (E' !! y)).

Lemma frame_upd core r e s l q E :
  0 ≤ core → frame_at core l q E s.1 s.2 → (∀ x, r = Some x → x ∈ l) →
  frame_at core l q E (upd core r e s).1 (upd core r e s).2.
Proof.
  intros Hc (H1 & H2 & H3 & H4) Hr. destruct r as [x|]; cbn [upd fst snd m_root].
  - split_and!; [done|done| |].
    + intros y c' Hy. rewrite lookup_insert_ne; [by apply H3|]. intros [= <- <-].
      destruct Hy as [|Hy]; [done|]. apply Hy. by apply Hr.
    + intros y Hy. destruct (decide (y = (x, core))) as [->|]; [by rewrite lookup_insert_eq|].
      rewrite lookup_insert_ne by done. by apply H4.
  - split_and!; cbn [m_root]; [by rewrite length_insert| |done|done].
    intros c' Hne Hc'. rewrite list_lookup_insert_ne by lia. by apply H2.
Qed.

Lemma frame_refl core l q E : frame_at core l q E q E.
Proof. by split_and!. Qed.

(** ** One queue, one operation *)
Inductive qop : Type := OpBack | OpFront | OpRemove.

Definition qop_list (o : qop) (x : Z) (l : list Z) : list Z :=
  match o with
  | OpBack => l ++ [x]
  | OpFront => x :: l
  | OpRemove => filter (λ y, y ≠ x) l
  end.

Definition qop_pre (o : qop) (x : Z) (l : list Z) : Prop :=
  match o with OpRemove => x ∈ l | _ => x ∉ l end.

Definition qop_run (o : qop) : KPerCoreQueue → Z → Z → Entries → prog (bool * KPerCoreQueue * Entries) :=
  match o with
  | OpBack => KPerCoreQueue_PushBack
  | OpFront => KPerCoreQueue_PushFront
  | OpRemove => KPerCoreQueue_Remove
  end.

(** When the operation reports a change of the queue from or to empty. *)
Definition qop_changed (o : qop) (x : Z) (l : list Z) : bool :=
  match o with
  | OpRemove => bool_decide (qop_list o x l = [])
  | _ => bool_decide (l = [])
  end.

Lemma filter_keep (l : list Z) x : x ∉ l → filter (λ y, y ≠ x) l = l.
Proof.
  induction l as [|y l IH]; intros Hx; [done|]. rewrite filter_cons_True by set_solver.
  f_equal. apply IH. set_solver.
Qed.

Lemma filter_remove (l1 l2 : list Z) x :
  NoDup (l1 ++ x :: l2) → filter (λ y, y ≠ x) (l1 ++ x :: l2) = l1 ++ l2.
Proof.
  intros (H1 & Hd & [Hx H2]%NoDup_cons)%NoDup_app.
  rewrite filter_app, filter_cons_False, !filter_keep by set_solver. done.
Qed.

Lemma head_None {A} (l : list A) : head l = None ↔ l = [].
Proof. by destruct l. Qed.

Lemma last_in (l : list Z) x : last l = Some x → x ∈ l.
Proof. apply last_Some_elem_of. Qed.
Lemma head_in (l : list Z) x : head l = Some x → x ∈ l.
Proof. destruct l; [done|]. intros [= ->]. left. Qed.

(** One write to an entry of the ring. *)
Abbreviation nx c q E r := (m_next <$> pcell c q E r).
Abbreviation pv c q E r := (m_prev <$> pcell c q E r).

Section Put.
Context (core : Z) (r : option Z) (v : option Z).
Context (q : KPerCoreQueue) (E : Entries) (l : list Z) (q0 : KPerCoreQueue) (E0 : Entries).
Hypotheses (Hc : 0 ≤ core) (Hcell : is_Some (pcell core q E r)).
Hypotheses (Hf : frame_at core l q0 E0 q E) (Hr : ∀ x, r = Some x → x ∈ l).

Lemma put_step (f : QueueEntry → QueueEntry) : ∃ q1 E1,
  (∀ B (k : KPerCoreQueue → Entries → prog B),
     (put_entry core r f q E ≫= λ '(q, E), k q E) = k q1 E1) ∧
  (∀ r', pcell core q1 E1 r' = if decide (r' = r) then f <$> pcell core q E r else pcell core q E r') ∧
  frame_at core l q0 E0 q1 E1.
Proof.
  destruct Hcell as [e He].
  exists (upd core r (f e) (q, E)).1, (upd core r (f e) (q, E)).2. split_and!.
  - intros B k. rewrite (put_entry_run _ _ _ _ _ e), bind_Done_true by done.
    by destruct (upd core r (f e) (q, E)).
  - intros r'. rewrite He. apply pcell_upd. cbn. by rewrite He.
  - by apply frame_upd.
Qed.

Lemma put_next : ∃ q1 E1,
  (∀ B (k : KPerCoreQueue → Entries → prog B),
     (put_entry core r (QueueEntry_SetNext v) q E ≫= λ '(q, E), k q E) = k q1 E1) ∧
  (∀ r', nx core q1 E1 r' = if decide (r' = r) then Some v else nx core q E r') ∧
  (∀ r', pv core q1 E1 r' = pv core q E r') ∧ frame_at core l q0 E0 q1 E1.
Proof.
  destruct (put_step (QueueEntry_SetNext v)) as (q1 & E1 & Ek & C & F), Hcell as [e He].
  exists q1, E1. split_and!; [done| | |done]; intros r'; rewrite C; case_decide; subst; by rewrite ?He.
Qed.

Lemma put_prev : ∃ q1 E1,
  (∀ B (k : KPerCoreQueue → Entries → prog B),
     (put_entry core r (QueueEntry_SetPrev v) q E ≫= λ '(q, E), k q E) = k q1 E1) ∧
  (∀ r', nx core q1 E1 r' = nx core q E r') ∧
  (∀ r', pv core q1 E1 r' = if decide (r' = r) then Some v else pv core q E r') ∧
  frame_at core l q0 E0 q1 E1.
Proof.
  destruct (put_step (QueueEntry_SetPrev v)) as (q1 & E1 & Ek & C & F), Hcell as [e He].
  exists q1, E1. split_and!; [done| | |done]; intros r'; rewrite C; case_decide; subst; by rewrite ?He.
Qed.
End Put.

Lemma nx_is_Some c q E r : is_Some (nx c q E r) ↔ is_Some (pcell c q E r).
Proof. apply fmap_is_Some. Qed.

Section OneQueue.
Context (q : KPerCoreQueue) (c m : Z) (E : Entries) (l : list Z).
Hypotheses (Hc : 0 ≤ c) (Hl : queue_at (pcell c q E) l).

Lemma root_entry : ∃ root, pcell c q E None = Some root ∧ m_next root = head l ∧
  m_prev root = last l ∧ arr_get (m_root q) c = Done true root.
Proof.
  destruct (queue_at_root _ _ Hl) as [Hn Hp].
  destruct (pcell c q E None) as [root|] eqn:Hroot; [|done]. cbn in Hn, Hp.
  exists root. split_and!; [done|congruence..|].
  unfold arr_get. cbn in Hroot. by rewrite (proj2 (Z.leb_le 0 c)), Hroot.
Qed.

Lemma ring_entry r : (∀ x, r = Some x → x ∈ l) → ∃ e, pcell c q E r = Some e.
Proof.
  intros Hr. destruct r as [x|].
  - destruct (list_elem_of_split l x (Hr x eq_refl)) as (l1 & l2 & El).
    rewrite El in Hl. rewrite (queue_at_member _ _ _ _ Hl). eauto.
  - destruct root_entry as (root & -> & _). eauto.
Qed.

(** Every node of the ring can still be written after some writes. *)
Lemma ring_written q1 E1 l' r :
  frame_at c l' q E q1 E1 → (∀ x, r = Some x → is_Some (E !! (x, c))) → is_Some (pcell c q1 E1 r).
Proof.
  intros (Hlen & _ & _ & HE) Hr. destruct r as [x|]; [by apply HE, Hr|].
  destruct root_entry as (root & Hroot & _). cbn in *. apply lookup_lt_is_Some.
  rewrite Hlen. by apply lookup_lt_Some in Hroot.
Qed.

Lemma in_entry x : x ∈ l → is_Some (E !! (x, c)).
Proof. intros Hx. destruct (ring_entry (Some x)) as [e He]; [by intros ? [= <-]|]. by exists e. Qed.

Lemma PushBack_spec :
  m ∉ l → is_Some (E !! (m, c)) →
  ∃ q' E', KPerCoreQueue_PushBack q c m E = Done true (bool_decide (l = []), q', E') ∧
    queue_at (pcell c q' E') (l ++ [m]) ∧ frame_at c (m :: l) q E q' E'.
Proof.
  intros Hm Hem. destruct root_entry as (root & Hroot & _ & Hp & Hget).
  unfold KPerCoreQueue_PushBack. rewrite Hget. pstep. rewrite Hp.
  pose proof (last_in l). pose proof in_entry.
  assert (last l ≠ Some m) as Hne by naive_solver.
  destruct (put_prev c (Some m) (last l) q E (m :: l) q E) as (q1 & E1 & K & N1 & P1 & F1);
    [done|eapply (ring_written _ _ (m :: l)); [apply frame_refl|naive_solver]|apply frame_refl|set_solver|].
  rewrite K; clear K.
  destruct (put_next c (Some m) None q1 E1 (m :: l) q E) as (q2 & E2 & K & N2 & P2 & F2);
    [done|eapply ring_written; [done|naive_solver]|done|set_solver|].
  rewrite K; clear K.
  destruct (put_next c (last l) (Some m) q2 E2 (m :: l) q E) as (q3 & E3 & K & N3 & P3 & F3);
    [done|eapply ring_written; [done|naive_solver]|done|set_solver|].
  rewrite K; clear K.
  destruct (put_prev c None (Some m) q3 E3 (m :: l) q E) as (q4 & E4 & K & N4 & P4 & F4);
    [done|eapply ring_written; [done|naive_solver]|done|set_solver|].
  rewrite K; clear K.
  exists q4, E4. split_and!; [|eapply queue_at_push_back; [exact Hl|done|..]|done].
  - by rewrite (bool_decide_ext _ _ (last_None l)).
  - intros r. rewrite N4, N3, N2, N1. repeat case_decide; done.
  - intros r. rewrite P4, P3, P2, P1. repeat case_decide; done.
Qed.

Lemma PushFront_spec :
  m ∉ l → is_Some (E !! (m, c)) →
  ∃ q' E', KPerCoreQueue_PushFront q c m E = Done true (bool_decide (l = []), q', E') ∧
    queue_at (pcell c q' E') (m :: l) ∧ frame_at c (m :: l) q E q' E'.
Proof.
  intros Hm Hem. destruct root_entry as (root & Hroot & Hn & _ & Hget).
  unfold KPerCoreQueue_PushFront. rewrite Hget. pstep. rewrite Hn.
  pose proof (head_in l). pose proof in_entry.
  assert (head l ≠ Some m) as Hne by naive_solver.
  destruct (put_prev c (Some m) None q E (m :: l) q E) as (q1 & E1 & K & N1 & P1 & F1);
    [done|eapply (ring_written _ _ (m :: l)); [apply frame_refl|naive_solver]|apply frame_refl|set_solver|].
  rewrite K; clear K.
  destruct (put_next c (Some m) (head l) q1 E1 (m :: l) q E) as (q2 & E2 & K & N2 & P2 & F2);
    [done|eapply ring_written; [done|naive_solver]|done|set_solver|].
  rewrite K; clear K.
  destruct (put_prev c (head l) (Some m) q2 E2 (m :: l) q E) as (q3 & E3 & K & N3 & P3 & F3);
    [done|eapply ring_written; [done|naive_solver]|done|set_solver|].
  rewrite K; clear K.
  destruct (put_next c None (Some m) q3 E3 (m :: l) q E) as (q4 & E4 & K & N4 & P4 & F4);
    [done|eapply ring_written; [done|naive_solver]|done|set_solver|].
  rewrite K; clear K.
  exists q4, E4. split_and!; [|eapply queue_at_push_front; [exact Hl|done|..]|done].
  - by rewrite (bool_decide_ext _ _ (head_None l)).
  - intros r. rewrite N4, N3, N2, N1. repeat case_decide; done.
  - intros r. rewrite P4, P3, P2, P1. repeat case_decide; done.
Qed.
End OneQueue.

Lemma GetFront_run q c E l :
  0 ≤ c → queue_at (pcell c q E) l → KPerCoreQueue_GetFront q c = Done true (head l).
Proof.
  intros Hc Hl. destruct (root_entry q c E l Hc Hl) as (root & _ & Hn & _ & Hget).
  unfold KPerCoreQueue_GetFront. rewrite Hget. pstep. by rewrite Hn.
Qed.

Lemma Remove_spec q c m E l1 l2 :
  0 ≤ c → queue_at (pcell c q E) (l1 ++ m :: l2) →
  ∃ q' E', KPerCoreQueue_Remove q c m E = Done true (bool_decide (l1 ++ l2 = []), q', E') ∧
    queue_at (pcell c q' E') (l1 ++ l2) ∧ frame_at c (l1 ++ m :: l2) q E q' E'.
Proof.
  intros Hc Hl. pose proof (queue_at_member _ _ _ _ Hl) as Hm. cbn [pcell] in Hm.
  unfold KPerCoreQueue_Remove, GetPriorityQueueEntry. rewrite Hm. pstep. cbn [m_next m_prev].
  pose proof (in_entry q c E _ Hc Hl). pose proof (last_in l1). pose proof (head_in l2).
  destruct (put_next c (last l1) (head l2) q E (l1 ++ m :: l2) q E) as (q1 & E1 & K & N1 & P1 & F1);
    [done|eapply (ring_written q c E (l1 ++ m :: l2) Hc Hl _ _ (l1 ++ m :: l2)); [apply frame_refl|set_solver]
    |apply frame_refl|set_solver|].
  rewrite K; clear K.
  destruct (put_prev c (head l2) (last l1) q1 E1 (l1 ++ m :: l2) q E) as (q2 & E2 & K & N2 & P2 & F2);
    [done|eapply (ring_written q c E (l1 ++ m :: l2) Hc Hl); [done|set_solver]|done|set_solver|].
  rewrite K; clear K.
  assert (queue_at (pcell c q2 E2) (l1 ++ l2)) as Hl'.
  { eapply queue_at_remove; [exact Hl|..]; intros r; [rewrite N2, N1|rewrite P2, P1]; repeat case_decide; done. }
  rewrite (GetFront_run _ _ _ _ Hc Hl'). pstep. exists q2, E2. split_and!; [|done|done].
  by rewrite (bool_decide_ext _ _ (head_None (l1 ++ l2))).
Qed.

Lemma qop_run_spec o q c m E l :
  0 ≤ c → queue_at (pcell c q E) l → qop_pre o m l → is_Some (E !! (m, c)) →
  ∃ q' E', qop_run o q c m E = Done true (qop_changed o m l, q', E') ∧
    queue_at (pcell c q' E') (qop_list o m l) ∧ frame_at c (m :: l) q E q' E'.
Proof.
  intros Hc Hl Hpre Hem. destruct o; cbn [qop_run qop_list qop_pre qop_changed] in *.
  - by apply PushBack_spec.
  - by apply PushFront_spec.
  - apply list_elem_of_split in Hpre as (l1 & l2 & ->). pose proof (proj1 Hl) as Hnd.
    rewrite filter_remove by done. destruct (Remove_spec _ _ _ _ _ _ Hc Hl) as (q' & E' & -> & Hl' & HF).
    exists q', E'. split_and!; [done|done|]. destruct HF as (?&?&HF&?). split_and!; [done..| |done].
    intros x c' [?|Hx]; apply HF; [by left|right; set_solver].
Qed.
