(* ===== verification/PriorityQueueTheorems.v ===== *)
(** * The priority queue

    The representation of all queues, the operations on it, and the theorems:
    the queues hold each runnable thread where its priority, active core and
    affinity say, fronts and successors are found in order of priority, and the
    operations for changed threads move them accordingly. *)

From S2P Require Import Prelude Common PageBitmap Thread PriorityQueue PriorityQueueLemmas.

Definition valid_prio (p : Z) : Prop := 0 ≤ p < NumPriority.
Definition valid_core (c : Z) : Prop := 0 ≤ c < NumCores.

(** The lists of threads in the queues. *)
Definition Lists : Type := QueueKind → Z → Z → list Z.

Record rep (Q : KPriorityQueue) (L : Lists) : Prop := MkRep {
  rep_queue k p c : valid_prio p → valid_core c →
    ∃ q, m_queues (pq_impl k Q) !! Z.to_nat p = Some q ∧ queue_at (pcell c q (pq_entries Q)) (L k p c);
  rep_disjoint k p k' p' c x : valid_prio p → valid_prio p' → valid_core c →
    x ∈ L k p c → x ∈ L k' p' c → k = k' ∧ p = p';
  rep_bits k c : valid_core c →
    ∃ bits, m_available_priorities (pq_impl k Q) !! Z.to_nat c = Some bits ∧
      ∀ p, valid_prio p → Z.testbit bits p = bool_decide (L k p c ≠ [])
}.

(** The thread has its entries. *)
Definition known (Q : KPriorityQueue) (x : Z) : Prop :=
  ∀ c, valid_core c → is_Some (pq_entries Q !! (x, c)).

Definition upd_list (k : QueueKind) (p c : Z) (l : list Z) (L : Lists) : Lists := λ k' p' c',
  if decide (k' = k ∧ p' = p ∧ c' = c) then l else L k' p' c'.

Lemma rep_ext Q L L' :
  rep Q L → (∀ k p c, valid_prio p → valid_core c → L' k p c = L k p c) → rep Q L'.
Proof.
  intros [H1 H2 H3] HL. constructor.
  - intros. rewrite HL by done. auto.
  - intros k p k' p' c x ???. rewrite !HL by done. eauto.
  - intros k c Hc. destruct (H3 k c Hc) as (bits & ? & Hb). exists bits. split; [done|].
    intros p Hp. rewrite HL by done. auto.
Qed.

Lemma queue_at_ext cell cell' l :
  queue_at cell l → (∀ r, r ∈ ring l → cell' r = cell r) → queue_at cell' l.
Proof.
  intros [? Hl] Hr. split; [done|]. eapply adj_frame; [done| |].
  - intros a Ha. rewrite Hr; [done|]. by apply sources_cons.
  - intros b Hb. rewrite Hr; [done|]. by right.
Qed.

Lemma bitset_spec (o : qop) bits pos i :
  0 ≤ pos → 0 ≤ i →
  Z.testbit ((match o with OpRemove => bitset_reset | _ => bitset_set end) pos bits) i =
    if decide (i = pos) then (match o with OpRemove => false | _ => true end) else Z.testbit bits i.
Proof.
  intros Hp Hi.
  assert (Z.testbit (Z.shiftl 1 pos) i = bool_decide (i = pos)) as Hs.
  { rewrite Z.shiftl_spec by done. case_bool_decide as Hd.
    - subst. by rewrite Z.sub_diag.
    - destruct (decide (i < pos)); [by rewrite Z.testbit_neg_r by lia|].
      rewrite Z.bits_above_log2; simpl; lia. }
  destruct o; unfold bitset_set, bitset_reset;
    rewrite ?Z.lor_spec, ?Z.ldiff_spec, Hs; case_decide; subst;
    rewrite ?bool_decide_true, ?bool_decide_false by done;
    rewrite ?orb_true_r, ?orb_false_r, ?andb_false_r, ?andb_true_r; done.
Qed.

Lemma arr_get_run {A} (l : list A) i a :
  0 ≤ i → l !! Z.to_nat i = Some a → arr_get l i = Done true a.
Proof. intros Hi Ha. unfold arr_get. by rewrite (proj2 (Z.leb_le 0 i)), Ha. Qed.

Lemma arr_set_some {A} (l : list A) i a b :
  0 ≤ i → l !! Z.to_nat i = Some a → arr_set l i b = Done true (<[Z.to_nat i := b]> l).
Proof.
  intros Hi Ha%lookup_lt_Some. unfold arr_set.
  by rewrite (proj2 (Z.leb_le 0 i)), (proj2 (Z.ltb_lt _ _)) by lia.
Qed.

Definition impl_op (o : qop) : KPriorityQueueImpl → Z → Z → Z → Entries →
    prog (KPriorityQueueImpl * Entries) :=
  match o with
  | OpBack => KPriorityQueueImpl_PushBack
  | OpFront => KPriorityQueueImpl_PushFront
  | OpRemove => KPriorityQueueImpl_Remove
  end.

Definition op_pre (o : qop) (k : QueueKind) (p c x : Z) (L : Lists) : Prop :=
  match o with
  | OpRemove => x ∈ L k p c
  | _ => ∀ k' p', valid_prio p' → x ∉ L k' p' c
  end.

Lemma op_pre_qop o k p c x L : valid_prio p → op_pre o k p c x L → qop_pre o x (L k p c).
Proof. intros Hp Hpre. destruct o; [by apply Hpre..|done]. Qed.

Lemma op_pre_upd o k p c x k0 p0 c0 l L :
  c ≠ c0 → op_pre o k p c x L → op_pre o k p c x (upd_list k0 p0 c0 l L).
Proof.
  intros Hne Hpre. destruct o; cbn in *; unfold upd_list; [intros k' p' ?|intros k' p' ?|];
    (rewrite decide_False by (by intros (_ & _ & ?))); auto.
Qed.

Lemma qop_list_in o x y l : y ≠ x → y ∈ qop_list o x l ↔ y ∈ l.
Proof.
  intros Hne. destruct o; cbn; [set_solver..|]. rewrite list_elem_of_filter. naive_solver.
Qed.

Lemma qop_bits (o : qop) x l b :
  b = bool_decide (l ≠ []) → qop_pre o x l →
  (if qop_changed o x l then (match o with OpRemove => false | _ => true end) else b) =
  bool_decide (qop_list o x l ≠ []).
Proof.
  intros -> Hpre. destruct o; cbn [qop_changed qop_list].
  - rewrite (bool_decide_true (l ++ [x] ≠ [])) by (by destruct l).
    repeat case_bool_decide; naive_solver.
  - rewrite (bool_decide_true (x :: l ≠ [])) by done. repeat case_bool_decide; naive_solver.
  - cbn in Hpre. rewrite (bool_decide_true (l ≠ [])) by (by destruct l; [apply not_elem_of_nil in Hpre|]).
    repeat case_bool_decide; naive_solver.
Qed.

(** ** One operation on one queue *)
Definition with_impl (k : QueueKind) (i : KPriorityQueueImpl) (E : Entries) (Q : KPriorityQueue)
    : KPriorityQueue :=
  match k with
  | Scheduled => MkQueue i (m_suggested_queue Q) E
  | Suggested => MkQueue (m_scheduled_queue Q) i E
  end.

Lemma pq_impl_with k i E Q k' :
  pq_impl k' (with_impl k i E Q) = if decide (k' = k) then i else pq_impl k' Q.
Proof. by destruct k, k'. Qed.

Lemma pq_entries_with k i E Q : pq_entries (with_impl k i E Q) = E.
Proof. by destruct k. Qed.

Section OneOp.
Context (o : qop) (k : QueueKind) (p c x : Z) (Q : KPriorityQueue) (L : Lists).
Hypotheses (HR : rep Q L) (Hx : known Q x) (Hp : valid_prio p) (Hc : valid_core c).
Hypothesis (Hpre : op_pre o k p c x L).

(** The members of the other queues of the core are not touched. *)
Lemma other_queue k' p' y : valid_prio p' → (k' ≠ k ∨ p' ≠ p) → y ∈ L k' p' c → y ∉ x :: L k p c.
Proof.
  intros Hp' Hne Hy [->|Hy']%elem_of_cons.
  - destruct o; cbn in Hpre; [by eapply Hpre..|].
    destruct (rep_disjoint _ _ HR k p k' p' c x) as [-> ->]; naive_solver.
  - destruct (rep_disjoint _ _ HR k p k' p' c y) as [-> ->]; naive_solver.
Qed.

(** After the operation the thread is in no other queue of the core. *)
Lemma only_queue l' k' p' :
  valid_prio p' → x ∈ upd_list k p c l' L k' p' c → k' = k ∧ p' = p.
Proof.
  intros Hp'. unfold upd_list. case_decide as Hd; [naive_solver|]. intros Hin.
  destruct o; cbn in Hpre; [by destruct (Hpre k' p')..|].
  by apply (rep_disjoint _ _ HR k' p' k p c x).
Qed.

Lemma in_upd l' k' p' c' y :
  (y ∈ l' → y ∈ L k p c) → y ∈ upd_list k p c l' L k' p' c' → y ∈ L k' p' c'.
Proof.
  intros Hl'. unfold upd_list. case_decide as Hd; [|done]. destruct Hd as (-> & -> & ->). done.
Qed.

Lemma rep_after l' i' E' q q' :
  m_queues (pq_impl k Q) !! Z.to_nat p = Some q →
  (∀ y, y ≠ x → y ∈ l' → y ∈ L k p c) →
  queue_at (pcell c q' E') l' →
  frame_at c (x :: L k p c) q (pq_entries Q) q' E' →
  m_queues i' = <[Z.to_nat p := q']> (m_queues (pq_impl k Q)) →
  (∀ c', valid_core c' → ∃ bits, m_available_priorities i' !! Z.to_nat c' = Some bits ∧
     ∀ p', valid_prio p' → Z.testbit bits p' = bool_decide (upd_list k p c l' L k p' c' ≠ [])) →
  rep (with_impl k i' E' Q) (upd_list k p c l' L).
Proof.
  intros Hq Hsub Hl' (Hlen & Hroot & HE & HEs) Hi' Hbits. constructor.
  - intros k' p' c' Hp' Hc'. rewrite pq_impl_with, pq_entries_with.
    destruct (rep_queue _ _ HR k' p' c' Hp' Hc') as (q2 & Hq2 & Hl2).
    unfold valid_prio, valid_core in *. unfold upd_list.
    destruct (decide (k' = k ∧ p' = p)) as [[-> ->]|Hkp].
    + rewrite decide_True by done. exists q'. rewrite Hi'. assert (q2 = q) as -> by congruence. split.
      { apply lookup_lt_Some in Hq. by apply list_lookup_insert_eq. }
      destruct (decide (c' = c)) as [->|Hcc]; [by rewrite decide_True|].
      rewrite decide_False by naive_solver. eapply queue_at_ext; [done|].
      intros [y|] _; cbn; [apply HE; by left|apply Hroot; [done|lia]].
    + rewrite (decide_False (P := k' = k ∧ p' = p ∧ c' = c)) by naive_solver.
      exists q2. split.
      { destruct (decide (k' = k)) as [->|]; [|done]. rewrite Hi', list_lookup_insert_ne; [done|].
        intros ?. apply Hkp. split; [done|lia]. }
      eapply queue_at_ext; [done|]. intros [y|] Hy; cbn; [|done]. apply HE.
      destruct (decide (c' = c)) as [->|]; [right|by left].
      apply (other_queue k' p'); [done|by apply not_and_l in Hkp|].
      unfold ring in Hy. rewrite elem_of_cons, elem_of_app, list_elem_of_fmap in Hy.
      set_solver.
  - intros k1 p1 k2 p2 c' y Hp1 Hp2 Hc'. unfold upd_list. intros H1 H2.
    destruct (decide (c' = c)) as [->|].
    2:{ rewrite decide_False in H1 by naive_solver. rewrite decide_False in H2 by naive_solver.
        by eapply (rep_disjoint _ _ HR). }
    destruct (decide (y = x)) as [->|Hyx].
    + destruct (only_queue _ k1 p1 Hp1 H1), (only_queue _ k2 p2 Hp2 H2). split; congruence.
    + apply in_upd in H1, H2; [|by apply Hsub..]. by eapply (rep_disjoint _ _ HR).
  - intros k' c' Hc'. rewrite pq_impl_with. destruct (decide (k' = k)) as [->|Hk]; [by apply Hbits|].
    destruct (rep_bits _ _ HR k' c' Hc') as (bits & ? & Hb). exists bits. split; [done|].
    intros p' Hp'. unfold upd_list. rewrite decide_False by naive_solver. auto.
Qed.

Lemma on_impl_run : ∃ Q', on_impl k (impl_op o) p c x Q = Done true Q' ∧
  rep Q' (upd_list k p c (qop_list o x (L k p c)) L) ∧ (∀ y, known Q y → known Q' y).
Proof.
  destruct (rep_queue _ _ HR k p c Hp Hc) as (q & Hq & Hl).
  destruct (rep_bits _ _ HR k c Hc) as (bits & Hbits & Hb).
  pose proof (op_pre_qop _ _ _ _ _ _ Hp Hpre) as Hqpre.
  destruct (qop_run_spec o q c x (pq_entries Q) (L k p c)) as (q' & E' & Hrun & Hl' & HF);
    [apply Hc|done|done|by apply Hx|].
  set (mark := match o with OpRemove => bitset_reset | _ => bitset_set end).
  set (i' := MkImpl (<[Z.to_nat p := q']> (m_queues (pq_impl k Q)))
    (if qop_changed o x (L k p c)
     then <[Z.to_nat c := mark p bits]> (m_available_priorities (pq_impl k Q))
     else m_available_priorities (pq_impl k Q))).
  exists (with_impl k i' E' Q). split_and!.
  - unfold on_impl. transitivity (Done true (i', E') ≫= λ '(i, E), mret (with_impl k i E Q)); [|by rewrite bind_Done_true].
    assert (impl_op o (pq_impl k Q) p c x (pq_entries Q) =
            update_queue (qop_run o) mark (pq_impl k Q) p c x (pq_entries Q)) as -> by (by destruct o).
    f_equal. unfold update_queue, IsValidCore, IsValidPriority, valid_prio, valid_core in *.
    change HighestPriority with 0. change NumPriority with 64 in *. change LowestPriority with 63.
    rewrite (proj2 (Z.leb_le 0 c)), (proj2 (Z.ltb_lt c _)), (proj2 (Z.leb_le 0 p)),
      (proj2 (Z.leb_le p (63 + 1))), (proj2 (Z.ltb_ge 63 p)) by lia. cbn [andb]. pstep.
    rewrite (arr_get_run _ _ q) by (lia || done). pstep. rewrite Hrun. pstep.
    rewrite (arr_set_some _ _ q) by (lia || done). pstep. subst i'.
    destruct (qop_changed o x (L k p c)); [|done].
    rewrite (arr_get_run _ _ bits), bind_Done_true, (arr_set_some _ _ bits) by (lia || done). by pstep.
  - eapply (rep_after _ i' E' q q'); [done|intros y Hy; by apply qop_list_in|done..|]. intros c' Hc'. subst i'. cbn [m_available_priorities].
    destruct (decide (c' = c)) as [->|Hcc].
    + exists (if qop_changed o x (L k p c) then mark p bits else bits). split.
      { destruct (qop_changed _ _ _); [|done]. apply lookup_lt_Some in Hbits.
        by apply list_lookup_insert_eq. }
      intros p' Hp'. unfold upd_list. destruct (decide (p' = p)) as [->|Hpp].
      * rewrite decide_True, <- (qop_bits o x (L k p c) _ (Hb p Hp) Hqpre) by done.
        destruct (qop_changed _ _ _); [|done]. unfold mark.
        rewrite bitset_spec, decide_True by (apply Hp || done). done.
      * rewrite decide_False by naive_solver. rewrite <- Hb by done.
        destruct (qop_changed _ _ _); [|done]. unfold mark.
        rewrite bitset_spec, decide_False by (apply Hp || apply Hp' || done). done.
    + destruct (rep_bits _ _ HR k c' Hc') as (bits' & Hbits' & Hb'). exists bits'. split.
      { destruct (qop_changed _ _ _); [|done]. rewrite list_lookup_insert_ne; [done|].
        unfold valid_core in *. lia. }
      intros p' Hp'. unfold upd_list. rewrite decide_False by naive_solver. by apply Hb'.
  - intros y Hy c' Hc'. rewrite pq_entries_with. by apply HF, Hy.
Qed.
End OneOp.

(** Priority 64, that of idle threads, has no queue. *)
Lemma on_impl_any o k p c x Q L :
  rep Q L → known Q x → 0 ≤ p ≤ NumPriority → valid_core c →
  (valid_prio p → op_pre o k p c x L) →
  ∃ Q', on_impl k (impl_op o) p c x Q = Done true Q' ∧
    rep Q' (upd_list k p c (qop_list o x (L k p c)) L) ∧ (∀ y, known Q y → known Q' y).
Proof.
  intros HR Hx Hp Hc Hpre. destruct (decide (p < NumPriority)) as [Hlt|Hge].
  { assert (valid_prio p) by (unfold valid_prio; lia). apply on_impl_run; auto. }
  change NumPriority with 64 in *. assert (p = 64) as -> by lia. exists Q. split_and!; [|
    eapply rep_ext; [done|]; intros k' p' c' Hp' _; unfold upd_list; rewrite decide_False; [done|];
    unfold valid_prio in *; change NumPriority with 64 in *; lia | done].
  unfold on_impl.
  assert (impl_op o (pq_impl k Q) 64 c x (pq_entries Q) = Done true (pq_impl k Q, pq_entries Q)) as ->.
  { assert (∀ op mark, update_queue op mark (pq_impl k Q) 64 c x (pq_entries Q) =
                       Done true (pq_impl k Q, pq_entries Q)) as Hu.
    { intros op mark. unfold update_queue, IsValidCore, valid_core in *.
      rewrite (proj2 (Z.leb_le 0 c)), (proj2 (Z.ltb_lt c _)) by lia. done. }
    destruct o; apply Hu. }
  pstep. by destruct k, Q.
Qed.

(** ** Fronts and successors

    The threads of a core in the order of their priorities, and within a
    priority in the order they were queued. *)
Fixpoint flat_from (L : Lists) (k : QueueKind) (c : Z) (n : nat) (p : Z) : list Z :=
  match n with
  | O => []
  | S n => L k p c ++ flat_from L k c n (p + 1)
  end.
Definition flat (L : Lists) (k : QueueKind) (c : Z) : list Z :=
  flat_from L k c (Z.to_nat NumPriority) 0.

Lemma flat_from_split L k c n p q :
  p ≤ q < p + Z.of_nat n →
  flat_from L k c n p =
    flat_from L k c (Z.to_nat (q - p)) p ++ L k q c ++
    flat_from L k c (Z.to_nat (p + Z.of_nat n - q - 1)) (q + 1).
Proof.
  revert p. induction n as [|n IH]; intros p Hq; [lia|]. cbn [flat_from].
  destruct (decide (p = q)) as [<-|Hne].
  - rewrite Z.sub_diag. cbn [Z.to_nat flat_from app].
    by replace (Z.to_nat (p + Z.of_nat (S n) - p - 1)) with n by lia.
  - rewrite (IH (p + 1)) by lia. replace (Z.to_nat (q - p)) with (S (Z.to_nat (q - (p + 1)))) by lia.
    cbn [flat_from]. rewrite <- !app_assoc.
    by replace (p + 1 + Z.of_nat n - q - 1) with (p + Z.of_nat (S n) - q - 1) by lia.
Qed.

Lemma elem_of_flat_from L k c n p x :
  x ∈ flat_from L k c n p ↔ ∃ q, p ≤ q < p + Z.of_nat n ∧ x ∈ L k q c.
Proof.
  revert p. induction n as [|n IH]; intros p; cbn [flat_from].
  - split; [by intros ?%not_elem_of_nil|]. intros (q & ? & _). lia.
  - rewrite elem_of_app, IH. split.
    + intros [?|(q & ? & ?)]; [exists p|exists q]; split; (lia || done).
    + intros (q & ? & ?). destruct (decide (q = p)) as [->|]; [by left|].
      right. exists q. split; [lia|done].
Qed.

Section Search.
Context (Q : KPriorityQueue) (L : Lists) (k : QueueKind) (c : Z).
Hypotheses (HR : rep Q L) (Hc : valid_core c).

Lemma flat_from_NoDup n p : 0 ≤ p → p + Z.of_nat n ≤ NumPriority → NoDup (flat_from L k c n p).
Proof.
  revert p. induction n as [|n IH]; intros p Hp Hn; [constructor|]. cbn [flat_from].
  assert (valid_prio p) as Hv by (unfold valid_prio; lia).
  destruct (rep_queue _ _ HR k p c Hv Hc) as (q & _ & Hl & _).
  apply NoDup_app. split_and!; [done| |apply IH; lia].
  intros x Hx (p' & Hp' & Hx')%elem_of_flat_from.
  destruct (rep_disjoint _ _ HR k p k p' c x); (done || unfold valid_prio in *; lia).
Qed.

Lemma find_set_spec bits n p :
  (∀ p, valid_prio p → Z.testbit bits p = bool_decide (L k p c ≠ [])) →
  0 ≤ p → p + Z.of_nat n = NumPriority →
  let j := find_set n bits p in
  p ≤ j ≤ NumPriority ∧ (j = NumPriority → flat_from L k c n p = []) ∧
  (j < NumPriority → head (flat_from L k c n p) = head (L k j c)).
Proof.
  intros Hb. revert p. induction n as [|n IH]; intros p Hp Hn; cbn [find_set flat_from].
  - split_and!; [lia|lia|done|lia].
  - assert (valid_prio p) as Hv by (unfold valid_prio; lia). rewrite Hb by done.
    case_bool_decide as Hd.
    + split_and!; [lia|lia|lia|]. intros _. by destruct (L k p c).
    + rewrite Hd. cbn [app].
      destruct (IH (p + 1)) as (? & ? & ?); [lia..|]. split_and!; [lia|lia|done|done].
Qed.

(** Taking the front of the first queue that is not empty. *)
Lemma front_from n p bits :
  (∀ p, valid_prio p → Z.testbit bits p = bool_decide (L k p c ≠ [])) →
  0 ≤ p → p + Z.of_nat n = NumPriority →
  (if find_set n bits p <=? LowestPriority
   then q ← arr_get (m_queues (pq_impl k Q)) (find_set n bits p); KPerCoreQueue_GetFront q c
   else mret None) = Done true (head (flat_from L k c n p)).
Proof.
  intros Hb Hp Hn. destruct (find_set_spec bits n p Hb Hp Hn) as (Hj & He & Hf).
  set (j := find_set n bits p) in *. change NumPriority with 64 in *. change LowestPriority with 63.
  destruct (decide (j < 64)).
  - rewrite (proj2 (Z.leb_le j 63)) by lia. rewrite Hf by done.
    assert (valid_prio j) as Hv by (unfold valid_prio; change NumPriority with 64; lia).
    destruct (rep_queue _ _ HR k j c Hv Hc) as (q & Hq & Hl).
    rewrite (arr_get_run _ _ q) by (lia || done). pstep. eapply GetFront_run; [apply Hc|done].
  - rewrite (proj2 (Z.leb_gt j 63)) by lia. rewrite He by lia. done.
Qed.

Lemma impl_GetFront_run :
  KPriorityQueueImpl_GetFront (pq_impl k Q) c = Done true (head (flat L k c)).
Proof.
  destruct (rep_bits _ _ HR k c Hc) as (bits & Hbits & Hb).
  unfold KPriorityQueueImpl_GetFront, IsValidCore. pose proof Hc as [? ?].
  rewrite (proj2 (Z.leb_le 0 c)), (proj2 (Z.ltb_lt c _)) by lia. cbn [andb]. unfold ASSERT. pstep.
  rewrite (arr_get_run _ _ bits) by (lia || done). pstep. by apply front_from.
Qed.

Lemma impl_GetFront_at_run p :
  valid_prio p → KPriorityQueueImpl_GetFront_at (pq_impl k Q) p c = Done true (head (L k p c)).
Proof.
  intros Hp. destruct (rep_queue _ _ HR k p c Hp Hc) as (q & Hq & Hl).
  unfold KPriorityQueueImpl_GetFront_at, IsValidCore, IsValidPriority. pose proof Hc as [? ?].
  unfold valid_prio in Hp. change NumPriority with 64 in Hp. change LowestPriority with 63.
  change HighestPriority with 0.
  rewrite (proj2 (Z.leb_le 0 c)), (proj2 (Z.ltb_lt c _)), (proj2 (Z.leb_le 0 p)),
    (proj2 (Z.leb_le p (63 + 1))), (proj2 (Z.leb_le p 63)) by lia. cbn [andb]. unfold ASSERT. pstep.
  rewrite (arr_get_run _ _ q) by (lia || done). pstep. eapply GetFront_run; [apply Hc|done].
Qed.

Lemma member_entry p x l1 l2 :
  valid_prio p → L k p c = l1 ++ x :: l2 →
  pq_entries Q !! (x, c) = Some (MkEntry (last l1) (head l2)).
Proof.
  intros Hp El. destruct (rep_queue _ _ HR k p c Hp Hc) as (q & Hq & Hl). rewrite El in Hl.
  apply (queue_at_member _ _ _ _ Hl).
Qed.

Lemma impl_GetNext_run p x :
  valid_prio p → x ∈ L k p c →
  ∃ l1 l2, flat L k c = l1 ++ x :: l2 ∧
    KPriorityQueueImpl_GetNext (pq_impl k Q) c x p (pq_entries Q) = Done true (head l2).
Proof.
  intros Hp Hx. pose proof Hp as [Hp0 Hp1]. change NumPriority with 64 in Hp1.
  apply list_elem_of_split in Hx as (l1 & l2 & El).
  exists (flat_from L k c (Z.to_nat p) 0 ++ l1), (l2 ++ flat_from L k c (Z.to_nat (63 - p)) (p + 1)).
  split.
  - unfold flat. rewrite (flat_from_split L k c _ 0 p) by (change NumPriority with 64; lia).
    rewrite El, Z.sub_0_r, <- !app_assoc. cbn [app]. change NumPriority with 64.
    by replace (0 + Z.of_nat (Z.to_nat 64) - p - 1) with (63 - p) by lia.
  - destruct (rep_bits _ _ HR k c Hc) as (bits & Hbits & Hb).
    unfold KPriorityQueueImpl_GetNext, IsValidCore. pose proof Hc as [? ?].
    rewrite (proj2 (Z.leb_le 0 c)), (proj2 (Z.ltb_lt c _)) by lia. cbn [andb]. unfold ASSERT. pstep.
    unfold GetPriorityQueueEntry. rewrite (member_entry p x l1 l2) by done. pstep. cbn [m_next].
    destruct l2 as [|y l2]; [|done]. cbn [head app].
    rewrite (arr_get_run _ _ bits) by (lia || done). pstep. unfold GetNextSet.
    rewrite (u64_id p) by (unfold is_u64; lia). rewrite u64_id by (unfold is_u64; lia).
    change (NumPriority - (p + 1)) with (64 - (p + 1)).
    replace (Z.to_nat (64 - (p + 1))) with (Z.to_nat (63 - p)) by lia.
    apply front_from; [done|lia|]. change NumPriority with 64. lia.
Qed.
End Search.

(** ** One operation on the queues of several cores *)
Fixpoint iter_cores (cs : list Z) (f : Z → KPriorityQueue → prog KPriorityQueue)
    (Q : KPriorityQueue) : prog KPriorityQueue :=
  match cs with
  | [] => mret Q
  | c :: cs => Q ← f c Q; iter_cores cs f Q
  end.

Definition cores_of (affinity : Z) : list Z :=
  filter (λ c, Z.testbit affinity c = true) (seqZ 0 NumCores).

Lemma mask_cases (P : Z → Prop) aff : 0 ≤ aff < 16 → Forall P (seqZ 0 16) → P aff.
Proof. intros Ha HP. rewrite Forall_forall in HP. apply HP, elem_of_seqZ. lia. Qed.

Lemma for_each_core_iter aff f Q :
  0 ≤ aff < 16 → for_each_core 64 aff f Q = iter_cores (cores_of aff) f Q.
Proof.
  intros Ha. apply (mask_cases (λ aff, for_each_core 64 aff f Q = iter_cores (cores_of aff) f Q) aff Ha).
  repeat constructor.
Qed.

Lemma over_affinity_iter op aff active p x Q :
  over_affinity op (seqZ 0 NumCores) aff active p x Q =
  iter_cores (cores_of aff) (λ c, on_impl (if c =? active then Scheduled else Suggested) op p c x) Q.
Proof.
  unfold cores_of. assert (Forall (λ c, 0 ≤ c < NUM_CPU_CORES) (seqZ 0 NumCores)) as Hcs.
  { apply Forall_forall. intros c ?%elem_of_seqZ. unfold NumCores in *. lia. }
  revert Q. induction Hcs as [|c cs Hc Hcs IH]; intros Q; [done|]. cbn [over_affinity].
  rewrite GetAffinity_run by done. pstep. rewrite filter_cons.
  destruct (Z.testbit aff c).
  - rewrite decide_True by done. cbn [iter_cores]. apply bind_ext, IH.
  - rewrite decide_False by done. pstep. apply IH.
Qed.

Lemma elem_of_cores_of aff c : c ∈ cores_of aff ↔ valid_core c ∧ Z.testbit aff c = true.
Proof.
  unfold cores_of, valid_core. rewrite list_elem_of_filter, elem_of_seqZ. naive_solver lia.
Qed.

Lemma cores_of_NoDup aff : NoDup (cores_of aff).
Proof. apply NoDup_filter, NoDup_seqZ. Qed.

Lemma iter_ops o (kf : Z → QueueKind) p x cs : ∀ Q L,
  rep Q L → known Q x → 0 ≤ p ≤ NumPriority → NoDup cs → Forall valid_core cs →
  (∀ c, c ∈ cs → valid_prio p → op_pre o (kf c) p c x L) →
  ∃ Q', iter_cores cs (λ c, on_impl (kf c) (impl_op o) p c x) Q = Done true Q' ∧
    rep Q' (λ k p' c, if decide (p' = p ∧ c ∈ cs ∧ k = kf c) then qop_list o x (L k p' c) else L k p' c) ∧
    (∀ y, known Q y → known Q' y).
Proof.
  induction cs as [|c cs IH]; intros Q L HR Hx Hp Hnd Hcs Hpre.
  - exists Q. split_and!; [done| |done]. eapply rep_ext; [done|]. intros. cbn.
    rewrite decide_False; [done|]. intros (? & ?%not_elem_of_nil & ?). done.
  - apply Forall_cons in Hcs as [Hc Hcs]. apply NoDup_cons in Hnd as [Hnc Hnd].
    destruct (on_impl_any o (kf c) p c x Q L) as (Q1 & E1 & HR1 & HK1); [done..|by apply Hpre; left|].
    destruct (IH Q1 _ HR1 (HK1 x Hx) Hp Hnd Hcs) as (Q2 & E2 & HR2 & HK2).
    { intros c' Hc' Hv. specialize (Hpre c' ltac:(by right) Hv).
      apply op_pre_upd; [by intros ->|done]. }
    exists Q2. split_and!; [|eapply rep_ext; [exact HR2|]|naive_solver].
    + cbn [iter_cores]. by rewrite E1, bind_Done_true.
    + intros k p' c' _ _. unfold upd_list. cbn beta.
      destruct (decide (c' = c)) as [->|Hcc].
      * rewrite (decide_False (P := p' = p ∧ c ∈ cs ∧ k = kf c)) by naive_solver.
        destruct (decide (k = kf c ∧ p' = p)) as [[-> ->]|Hkp].
        -- rewrite !decide_True; [done|naive_solver|set_solver].
        -- rewrite !decide_False; [done|naive_solver|naive_solver].
      * rewrite (decide_False (P := k = kf c ∧ p' = p ∧ c' = c)) by naive_solver.
        repeat case_decide; set_solver.
Qed.

(** ** Where a thread belongs *)
Definition place (p0 core affinity : Z) (k : QueueKind) (p c : Z) : bool :=
  (p =? p0) &&
  match k with
  | Scheduled => c =? core
  | Suggested => Z.testbit affinity c && negb (c =? core)
  end.

Record place_ok (p0 core affinity : Z) : Prop := MkPlaceOk {
  pl_prio : 0 ≤ p0 ≤ NumPriority;
  pl_core : -1 ≤ core < NumCores;
  pl_aff : 0 ≤ affinity < 16;
  pl_active : 0 ≤ core → Z.testbit affinity core = true
}.

(** The thread is in the queues of its place, or in none. *)
Definition at_place (x : Z) (pl : QueueKind → Z → Z → bool) (L : Lists) : Prop :=
  ∀ k p c, valid_prio p → valid_core c → (x ∈ L k p c ↔ pl k p c = true).
Definition nowhere (x : Z) (L : Lists) : Prop :=
  ∀ k p c, valid_prio p → valid_core c → x ∉ L k p c.

Definition add_back (x : Z) (pl : QueueKind → Z → Z → bool) (L : Lists) : Lists := λ k p c,
  if pl k p c then L k p c ++ [x] else L k p c.
Definition add_front (x : Z) (pl : QueueKind → Z → Z → bool) (L : Lists) : Lists := λ k p c,
  if pl k p c then match k with Scheduled => x :: L k p c | Suggested => L k p c ++ [x] end
  else L k p c.
Definition take_out (x : Z) (L : Lists) : Lists := λ k p c, filter (λ y, y ≠ x) (L k p c).

Lemma take_out_nowhere x L : nowhere x (take_out x L).
Proof. intros k p c _ _. unfold take_out. rewrite list_elem_of_filter. naive_solver. Qed.

(** The operations of the scheduled queue and of the suggested queues. *)
Definition kind_op (os og : qop) (k : QueueKind) : qop :=
  match k with Scheduled => os | Suggested => og end.

Lemma ldiff_core aff core i :
  0 ≤ core < 64 → 0 ≤ i →
  Z.testbit (ClearAffinityBit aff core) i = Z.testbit aff i && negb (i =? core).
Proof.
  intros Hc Hi. unfold ClearAffinityBit.
  rewrite u64_id by (unfold is_u64; rewrite Z.shiftl_mul_pow2, Z.mul_1_l by lia;
    split; [apply Z.pow_nonneg; lia|apply Z.pow_lt_mono_r; lia]).
  pose proof (bitset_spec OpRemove aff core i ltac:(lia) Hi) as Hs. unfold bitset_reset in Hs.
  rewrite Hs. case_decide; subst; [by rewrite Z.eqb_refl, andb_false_r|].
  rewrite (proj2 (Z.eqb_neq i core)) by done. by rewrite andb_true_r.
Qed.

Lemma ClearAffinityBit_bound aff core : 0 ≤ aff < 16 → 0 ≤ ClearAffinityBit aff core < 16.
Proof. intros. apply (ldiff_bound 4); lia. Qed.

Lemma IsValidPriority_true p : 0 ≤ p ≤ NumPriority → IsValidPriority p = true.
Proof.
  unfold IsValidPriority. change NumPriority with 64. change HighestPriority with 0.
  change LowestPriority with 63. intros. apply andb_true_iff. rewrite !Z.leb_le. lia.
Qed.

(** The loop over the suggested queues of the cores of a mask. *)
Lemma suggested_run o p x a Q L :
  rep Q L → known Q x → 0 ≤ p ≤ NumPriority → 0 ≤ a < 16 →
  (∀ c, valid_prio p → valid_core c → Z.testbit a c = true → op_pre o Suggested p c x L) →
  ∃ Q', for_each_core 64 a (λ core, on_impl Suggested (impl_op o) p core x) Q = Done true Q' ∧
    rep Q' (λ k p' c, if decide (k = Suggested ∧ p' = p ∧ Z.testbit a c = true)
                      then qop_list o x (L k p' c) else L k p' c) ∧
    (∀ y, known Q y → known Q' y).
Proof.
  intros HR Hx Hp Ha Hpre. rewrite for_each_core_iter by done.
  destruct (iter_ops o (λ _, Suggested) p x (cores_of a) Q L HR)
    as (Q' & E & HR' & HK); [done|done|apply cores_of_NoDup| | |].
  - apply Forall_forall. by intros c [? _]%elem_of_cores_of.
  - intros c [Hc Hb]%elem_of_cores_of Hv. by apply Hpre.
  - exists Q'. split_and!; [done| |done]. eapply rep_ext; [exact HR'|]. intros k p' c _ Hc. cbn beta.
    pose proof (elem_of_cores_of a c). repeat case_decide; naive_solver.
Qed.

(** The private operations on the queues of all cores of a thread. *)
Lemma on_all_cores_run os og p x t Q L :
  let pl := place p (m_core_id t) (m_physical_affinity_mask t) in
  rep Q L → known Q x → place_ok p (m_core_id t) (m_physical_affinity_mask t) →
  (∀ k c, valid_prio p → valid_core c → pl k p c = true → op_pre (kind_op os og k) k p c x L) →
  ∃ Q', on_all_cores (impl_op os) (impl_op og) p x t Q = Done true Q' ∧
    rep Q' (λ k p' c, if pl k p' c then qop_list (kind_op os og k) x (L k p' c) else L k p' c) ∧
    (∀ y, known Q y → known Q' y).
Proof.
  intros pl HR Hx [Hp Hcore Haff Hact] Hpre. unfold on_all_cores.
  rewrite IsValidPriority_true by done. unfold ASSERT. pstep.
  set (core := m_core_id t) in *. set (aff := m_physical_affinity_mask t) in *.
  destruct (decide (0 ≤ core)) as [Hge|Hlt].
  - rewrite (proj2 (Z.leb_le 0 core)) by done.
    assert (valid_core core) as Hvc by (unfold valid_core; lia).
    destruct (on_impl_any os Scheduled p core x Q L) as (Q1 & E1 & HR1 & HK1); [done..| |].
    { intros Hv. apply (Hpre Scheduled core); [done..|]. unfold pl, place. by rewrite !Z.eqb_refl. }
    assert (∀ c, valid_core c → Z.testbit (ClearAffinityBit aff core) c = pl Suggested p c) as Hpl.
    { intros c [? ?]. unfold pl, place. rewrite Z.eqb_refl, ldiff_core; [done|..];
        unfold NumCores, NUM_CPU_CORES in *; lia. }
    rewrite E1. pstep.
    destruct (suggested_run og p x (ClearAffinityBit aff core) Q1 _ HR1) as (Q2 & E2 & HR2 & HK2);
      [by apply HK1|done|by apply ClearAffinityBit_bound| |].
    { intros c Hv Hc Hb. rewrite Hpl in Hb by done. specialize (Hpre Suggested c Hv Hc Hb).
      apply andb_true_iff in Hb as [_ [_ Hne]%andb_true_iff]. apply negb_true_iff, Z.eqb_neq in Hne.
      by apply op_pre_upd. }
    exists Q2. split_and!; [done| |by auto]. eapply rep_ext; [exact HR2|].
    intros k p' c Hp' Hc. cbn beta. rewrite Hpl by done. unfold upd_list, pl, place.
    clear -Hge. destruct k; cbn [kind_op].
    + destruct (p' =? p) eqn:?, (c =? core) eqn:?; bool_prop; repeat case_decide; naive_solver.
    + rewrite Z.eqb_refl. cbn [andb].
      destruct (p' =? p) eqn:?, (Z.testbit aff c && negb (c =? core)); bool_prop;
        repeat case_decide; naive_solver.
  - rewrite (proj2 (Z.leb_gt 0 core)) by lia. pstep.
    assert (∀ c, valid_core c → Z.testbit aff c = pl Suggested p c ∧ c ≠ core) as Hpl.
    { intros c [? ?]. unfold pl, place. rewrite Z.eqb_refl, (proj2 (Z.eqb_neq c core)) by lia.
      split; [by rewrite andb_true_r|lia]. }
    destruct (suggested_run og p x aff Q L HR) as (Q2 & E2 & HR2 & HK2); [done..| |].
    { intros c Hv Hc Hb. apply (Hpre Suggested c Hv Hc). by rewrite <- (proj1 (Hpl c Hc)). }
    exists Q2. split_and!; [done| |done]. eapply rep_ext; [exact HR2|].
    intros k p' c Hp' Hc. cbn beta. destruct (Hpl c Hc) as [-> Hne]. unfold pl, place.
    rewrite (proj2 (Z.eqb_neq c core) Hne), Z.eqb_refl. cbn [andb negb].
    clear. destruct k; cbn [kind_op];
      destruct (p' =? p) eqn:?, (Z.testbit aff c); bool_prop; repeat case_decide; naive_solver.
Qed.

(** ** Removing and pushing again *)
Lemma frame_trans c l l' q E q1 E1 q2 E2 :
  l' ⊆ l → frame_at c l q E q1 E1 → frame_at c l' q1 E1 q2 E2 → frame_at c l q E q2 E2.
Proof.
  intros Hs (A1 & A2 & A3 & A4) (B1 & B2 & B3 & B4). split_and!.
  - by rewrite B1.
  - intros. by rewrite B2, A2.
  - intros x c' [?|Hx]; (rewrite B3, A3; [done|..]); set_solver.
  - auto.
Qed.

Lemma move_run (o : qop) k p c x Q L :
  rep Q L → known Q x → valid_prio p → valid_core c → o ≠ OpRemove → x ∈ L k p c →
  let l' := qop_list o x (filter (λ y, y ≠ x) (L k p c)) in
  ∃ i E, move_in_queue (qop_run o) (pq_impl k Q) p c x (pq_entries Q) = Done true (i, E) ∧
    rep (with_impl k i E Q) (upd_list k p c l' L) ∧
    (∀ y, known Q y → known (with_impl k i E Q) y).
Proof.
  intros HR Hx Hp Hc Ho Hin l'.
  destruct (rep_queue _ _ HR k p c Hp Hc) as (q & Hq & Hl).
  destruct (qop_run_spec OpRemove q c x (pq_entries Q) (L k p c)) as (q1 & E1 & R1 & Hl1 & F1);
    [apply Hc|done|done|by apply Hx|]. cbn [qop_list] in Hl1.
  destruct (qop_run_spec o q1 c x E1 (filter (λ y, y ≠ x) (L k p c))) as (q2 & E2 & R2 & Hl2 & F2);
    [apply Hc|done|destruct o; cbn; rewrite ?list_elem_of_filter; naive_solver|by apply F1, Hx|].
  eexists _, E2. split_and!.
  - unfold move_in_queue. rewrite (arr_get_run _ _ q) by (apply Hp || done). pstep.
    cbn [qop_run] in R1. rewrite R1. pstep. rewrite R2. pstep.
    rewrite (arr_set_some _ _ q) by (apply Hp || done). by pstep.
  - eapply (rep_after OpRemove k p c x); [done..| | |exact Hl2| |done|].
    + exact Hq.
    + intros y Hne Hy%qop_list_in; [|done]. by apply list_elem_of_filter in Hy as [_ ?].
    + eapply frame_trans; [|exact F1|exact F2]. intros y. rewrite !elem_of_cons, list_elem_of_filter. naive_solver.
    + intros c' Hc'. destruct (rep_bits _ _ HR k c' Hc') as (bits & Hbits & Hb). exists bits.
      split; [done|]. intros p' Hp'. rewrite Hb by done. unfold upd_list. case_decide as Hd; [|done].
      destruct Hd as (_ & -> & ->). apply bool_decide_ext. split; intros _.
      * unfold l'. destruct o; [by destruct (filter _ _)|done|done].
      * intros El. rewrite El in Hin. by apply not_elem_of_nil in Hin.
  - intros y Hy c' Hc'. rewrite pq_entries_with. by apply F2, F1, Hy.
Qed.

(** ** The operations of the queue on a thread *)
Definition thread_place (t : KThread) : QueueKind → Z → Z → bool :=
  place (m_priority t) (m_core_id t) (m_physical_affinity_mask t).
Definition thread_ok (t : KThread) : Prop :=
  place_ok (m_priority t) (m_core_id t) (m_physical_affinity_mask t).

Lemma place_prio p0 core aff k p c : place p0 core aff k p c = true → p = p0.
Proof. unfold place. intros [?%Z.eqb_eq _]%andb_true_iff. done. Qed.

Section Run.
Context (x : Z) (t : KThread) (Q : KPriorityQueue) (L : Lists).
Hypotheses (HR : rep Q L) (Hx : known Q x).

Lemma Remove_at_run p :
  place_ok p (m_core_id t) (m_physical_affinity_mask t) →
  at_place x (place p (m_core_id t) (m_physical_affinity_mask t)) L →
  ∃ Q', Remove_at p x t Q = Done true Q' ∧ rep Q' (take_out x L) ∧ (∀ y, known Q y → known Q' y).
Proof.
  intros Hok Hat. destruct (on_all_cores_run OpRemove OpRemove p x t Q L HR Hx Hok) as (Q' & E & HR' & HK).
  { intros k c Hp Hc Hpl. destruct k; by apply Hat. }
  exists Q'. split_and!; [done| |done]. eapply rep_ext; [exact HR'|]. intros k p' c Hp' Hc. cbn beta.
  unfold take_out. destruct (place _ _ _ k p' c) eqn:Hpl; [by destruct k|].
  apply filter_keep. intros Hin. apply Hat in Hin; [congruence|done..].
Qed.

Lemma PushBack_at_run p :
  place_ok p (m_core_id t) (m_physical_affinity_mask t) → nowhere x L →
  ∃ Q', PushBack_at p x t Q = Done true Q' ∧
    rep Q' (add_back x (place p (m_core_id t) (m_physical_affinity_mask t)) L) ∧
    (∀ y, known Q y → known Q' y).
Proof.
  intros Hok Hno. destruct (on_all_cores_run OpBack OpBack p x t Q L HR Hx Hok) as (Q' & E & HR' & HK).
  { intros k c Hp Hc Hpl. destruct k; intros k' p' Hp'; by apply Hno. }
  exists Q'. split_and!; [done| |done]. eapply rep_ext; [exact HR'|]. intros k p' c _ _.
  unfold add_back. by destruct k.
Qed.

Lemma PushFront_at_run p :
  place_ok p (m_core_id t) (m_physical_affinity_mask t) → nowhere x L →
  ∃ Q', PushFront_at p x t Q = Done true Q' ∧
    rep Q' (add_front x (place p (m_core_id t) (m_physical_affinity_mask t)) L) ∧
    (∀ y, known Q y → known Q' y).
Proof.
  intros Hok Hno. destruct (on_all_cores_run OpFront OpBack p x t Q L HR Hx Hok) as (Q' & E & HR' & HK).
  { intros k c Hp Hc Hpl. destruct k; intros k' p' Hp'; by apply Hno. }
  exists Q'. split_and!; [done| |done]. eapply rep_ext; [exact HR'|]. intros k p' c _ _.
  unfold add_front. by destruct k.
Qed.
End Run.

Lemma ChangePriority_run prev is_running x t Q L :
  rep Q L → known Q x → KThread_IsDummyThread t = false → thread_ok t → 0 ≤ prev ≤ NumPriority →
  at_place x (place prev (m_core_id t) (m_physical_affinity_mask t)) L →
  ∃ Q', ChangePriority prev is_running x t Q = Done true Q' ∧
    rep Q' ((if is_running : bool then add_front else add_back) x (thread_place t) (take_out x L)) ∧
    (∀ y, known Q y → known Q' y).
Proof.
  intros HR Hx Hd [? ? ? ?] Hp Hat. unfold ChangePriority.
  rewrite Hd, IsValidPriority_true by done. unfold ASSERT. pstep.
  destruct (Remove_at_run x t Q L HR Hx prev) as (Q1 & E1 & HR1 & HK1); [done|done|]. rewrite E1. pstep.
  destruct is_running.
  - destruct (PushFront_at_run x t Q1 _ HR1 (HK1 x Hx) (m_priority t)) as (Q2 & E2 & HR2 & HK2);
      [done|apply take_out_nowhere|]. exists Q2. auto.
  - destruct (PushBack_at_run x t Q1 _ HR1 (HK1 x Hx) (m_priority t)) as (Q2 & E2 & HR2 & HK2);
      [done|apply take_out_nowhere|]. exists Q2. auto.
Qed.

(** The loop of [ChangeAffinityMask] over the cores of a mask. *)
Lemma affinity_run o core aff p x Q L :
  rep Q L → known Q x → place_ok p core aff →
  (∀ k c, valid_prio p → valid_core c → place p core aff k p c = true → op_pre o k p c x L) →
  ∃ Q', over_affinity (impl_op o) (seqZ 0 NumCores) aff core p x Q = Done true Q' ∧
    rep Q' (λ k p' c, if place p core aff k p' c then qop_list o x (L k p' c) else L k p' c) ∧
    (∀ y, known Q y → known Q' y).
Proof.
  intros HR Hx [Hp Hcore Haff Hact] Hpre. rewrite over_affinity_iter.
  assert (∀ k c, valid_core c → place p core aff k p c = true ↔
    c ∈ cores_of aff ∧ k = if c =? core then Scheduled else Suggested) as Hpl.
  { intros k c Hc. unfold place. rewrite Z.eqb_refl, elem_of_cores_of. cbn [andb].
    destruct (c =? core) eqn:Ec; bool_prop; cbn [negb]; rewrite ?andb_false_r, ?andb_true_r.
    - subst. pose proof Hc as [? ?]. destruct k; naive_solver.
    - destruct k; naive_solver. }
  destruct (iter_ops o (λ c, if c =? core then Scheduled else Suggested) p x (cores_of aff) Q L HR)
    as (Q' & E & HR' & HK); [done|done|apply cores_of_NoDup| | |].
  - apply Forall_forall. by intros c [? _]%elem_of_cores_of.
  - intros c Hc Hv. pose proof Hc as [Hvc _]%elem_of_cores_of. by apply Hpre, Hpl.
  - exists Q'. split_and!; [done| |done]. eapply rep_ext; [exact HR'|]. intros k p' c Hp' Hc. cbn beta.
    destruct (place p core aff k p' c) eqn:E2.
    + pose proof (place_prio _ _ _ _ _ _ E2) as ->. rewrite decide_True; [done|]. apply Hpl in E2; naive_solver.
    + rewrite decide_False; [done|]. intros (-> & Hin). apply Hpl in Hin; [congruence|done].
Qed.

Lemma ChangeAffinityMask_run prev_core prev_aff x t Q L :
  rep Q L → known Q x → KThread_IsDummyThread t = false → thread_ok t →
  place_ok (m_priority t) prev_core prev_aff →
  at_place x (place (m_priority t) prev_core prev_aff) L →
  ∃ Q', ChangeAffinityMask prev_core prev_aff x t Q = Done true Q' ∧
    rep Q' (add_back x (thread_place t) (take_out x L)) ∧ (∀ y, known Q y → known Q' y).
Proof.
  intros HR Hx Hd Hok Hprev Hat. unfold ChangeAffinityMask. rewrite Hd.
  destruct (affinity_run OpRemove prev_core prev_aff (m_priority t) x Q L HR Hx Hprev)
    as (Q1 & E1 & HR1 & HK1).
  { intros k c Hp Hc Hpl. by apply Hat. }
  cbn [impl_op] in E1. rewrite E1. pstep.
  assert (rep Q1 (take_out x L)) as HR1'.
  { eapply rep_ext; [exact HR1|]. intros k p' c Hp' Hc. cbn beta. unfold take_out. case_match eqn:Hpl; [done|].
    apply filter_keep. intros Hin. apply Hat in Hin; [congruence|done..]. }
  destruct (affinity_run OpBack (m_core_id t) (m_physical_affinity_mask t) (m_priority t) x Q1 _ HR1'
    (HK1 x Hx) Hok) as (Q2 & E2 & HR2 & HK2).
  { intros k c Hp Hc Hpl k' p' Hp'. by apply take_out_nowhere. }
  exists Q2. auto.
Qed.

(** ** Changing the core of a thread *)
Definition change_core (x p0 prev new : Z) (front : bool) (L : Lists) : Lists := λ k p c,
  if negb (p =? p0) || (prev =? new) then L k p c
  else
    match k with
    | Scheduled =>
        if c =? new then (if front then x :: L k p c else L k p c ++ [x])
        else if c =? prev then filter (λ y, y ≠ x) (L k p c) else L k p c
    | Suggested =>
        if c =? prev then L k p c ++ [x]
        else if c =? new then filter (λ y, y ≠ x) (L k p c) else L k p c
    end.

(** One operation, with the queues the thread is in before and after. *)
Definition adds (o : qop) : bool := match o with OpRemove => false | _ => true end.
Definition upd_place (k : QueueKind) (p c : Z) (b : bool) (pl : QueueKind → Z → Z → bool)
    : QueueKind → Z → Z → bool := λ k' p' c',
  if decide (k' = k ∧ p' = p ∧ c' = c) then b else pl k' p' c'.

Lemma step_run o k p c x Q L pl :
  rep Q L → known Q x → at_place x pl L → 0 ≤ p ≤ NumPriority → valid_core c →
  (valid_prio p → if adds o then ∀ k' p', valid_prio p' → pl k' p' c = false else pl k p c = true) →
  ∃ Q', on_impl k (impl_op o) p c x Q = Done true Q' ∧
    rep Q' (upd_list k p c (qop_list o x (L k p c)) L) ∧ known Q' x ∧ (∀ y, known Q y → known Q' y) ∧
    at_place x (upd_place k p c (adds o) pl) (upd_list k p c (qop_list o x (L k p c)) L).
Proof.
  intros HR Hx Hat Hp Hc Hpre. destruct (on_impl_any o k p c x Q L) as (Q' & E & HR' & HK); [done..| |].
  { intros Hv. specialize (Hpre Hv). destruct o; cbn in *.
    - intros k' p' Hp' Hin%Hat; [|done..]. by rewrite Hpre in Hin.
    - intros k' p' Hp' Hin%Hat; [|done..]. by rewrite Hpre in Hin.
    - by apply Hat. }
  exists Q'. split_and!; [done|done|by apply HK|done|]. intros k' p' c' Hp' Hc'.
  unfold upd_place, upd_list. case_decide as Hd; [|by apply Hat].
  destruct o; cbn; [set_solver..|]. rewrite list_elem_of_filter. naive_solver.
Qed.

(** The operation under the guard that there is a core. *)
Lemma guarded_run o k p c x Q L pl :
  rep Q L → known Q x → at_place x pl L → 0 ≤ p ≤ NumPriority → -1 ≤ c < NumCores →
  (0 ≤ c → valid_prio p → if adds o then ∀ k' p', valid_prio p' → pl k' p' c = false else pl k p c = true) →
  ∃ Q', (if 0 <=? c then on_impl k (impl_op o) p c x Q else mret Q) = Done true Q' ∧
    rep Q' (upd_list k p c (qop_list o x (L k p c)) L) ∧ known Q' x ∧ (∀ y, known Q y → known Q' y) ∧
    at_place x (upd_place k p c (adds o) pl) (upd_list k p c (qop_list o x (L k p c)) L).
Proof.
  intros HR Hx Hat Hp Hc Hpre. destruct (0 <=? c) eqn:E0; bool_prop.
  { assert (valid_core c) by (unfold valid_core; lia). apply step_run; [done..|]. by apply Hpre. }
  assert (∀ k' p' c', valid_core c' → ¬ (k' = k ∧ p' = p ∧ c' = c)) as Hne.
  { intros k' p' c' [? ?] (_ & _ & ->). lia. }
  exists Q. split_and!; [done| |done|done|].
  - eapply rep_ext; [done|]. intros. unfold upd_list. rewrite decide_False; [done|]. by apply Hne.
  - intros k' p' c' Hp' Hc'. unfold upd_place, upd_list. rewrite !decide_False by (by apply Hne). by apply Hat.
Qed.

Definition push_op (front : bool) : qop := if front then OpFront else OpBack.

Lemma adds_push front : adds (push_op front) = true.
Proof. by destruct front. Qed.

Lemma change_core_steps x p prev new front L k p' c :
  prev ≠ new →
  change_core x p prev new front L k p' c =
  (let L1 := upd_list Scheduled p prev (qop_list OpRemove x (L Scheduled p prev)) L in
   let L2 := upd_list Suggested p new (qop_list OpRemove x (L1 Suggested p new)) L1 in
   let L3 := upd_list Scheduled p new (qop_list (push_op front) x (L2 Scheduled p new)) L2 in
   upd_list Suggested p prev (qop_list OpBack x (L3 Suggested p prev)) L3) k p' c.
Proof.
  intros Hne. cbv zeta. unfold change_core, upd_list. rewrite (proj2 (Z.eqb_neq prev new)), orb_false_r by done.
  destruct (p' =? p) eqn:Ep; bool_prop; cbn [negb]; [subst p'|].
  - destruct k; (destruct (c =? new) eqn:En; [|destruct (c =? prev) eqn:Eo]); bool_prop; subst;
      repeat ((rewrite decide_True by done) || (rewrite decide_False by (by intros (? & ? & ?))));
      rewrite ?(proj2 (Z.eqb_neq new prev)), ?Z.eqb_refl by done; by destruct front.
  - by rewrite !decide_False by (by intros (? & ? & ?)).
Qed.

Lemma ChangeCore_run prev front x t Q L :
  rep Q L → known Q x → KThread_IsDummyThread t = false → thread_ok t →
  place_ok (m_priority t) prev (m_physical_affinity_mask t) →
  at_place x (place (m_priority t) prev (m_physical_affinity_mask t)) L →
  ∃ Q', ChangeCore prev x t front Q = Done true Q' ∧
    rep Q' (change_core x (m_priority t) prev (m_core_id t) front L) ∧ (∀ y, known Q y → known Q' y).
Proof.
  intros HR Hx Hd Hok [Hp Hcp Haff Hap] Hat. destruct Hok as [_ Hcn _ Han]. unfold ChangeCore. rewrite Hd.
  set (p := m_priority t) in *. set (new := m_core_id t) in *. set (aff := m_physical_affinity_mask t) in *.
  destruct (prev =? new) eqn:Epn.
  { exists Q. split_and!; [done| |done]. eapply rep_ext; [done|]. intros. unfold change_core.
    by rewrite Epn, orb_true_r. }
  bool_prop.
  (* leave the scheduled queue of the old core *)
  destruct (guarded_run OpRemove Scheduled p prev x Q L (place p prev aff))
    as (Q1 & E1 & HR1 & Hx1 & HK1 & Hat1); [done..| |].
  { intros _ _. cbn. unfold place. by rewrite !Z.eqb_refl. }
  cbn [impl_op] in E1. rewrite E1. pstep. clear E1.
  (* go from the suggested to the scheduled queue of the new core *)
  destruct (guarded_run OpRemove Suggested p new x Q1 _ _ HR1 Hx1 Hat1 Hp Hcn)
    as (Q2 & E2 & HR2 & Hx2 & HK2 & Hat2).
  { intros Hn _. cbn. unfold upd_place, place. rewrite decide_False by (by intros (? & _)).
    rewrite Z.eqb_refl, Han, (proj2 (Z.eqb_neq new prev)) by done. done. }
  destruct (guarded_run (push_op front) Scheduled p new x Q2 _ _ HR2 Hx2 Hat2 Hp Hcn)
    as (Q3 & E3 & HR3 & Hx3 & HK3 & Hat3).
  { intros Hn _. rewrite adds_push. intros k' p' _. unfold upd_place, place.
    rewrite (proj2 (Z.eqb_neq new prev)) by done.
    destruct (p' =? p) eqn:Epp, k'; bool_prop; cbn [andb negb]; rewrite ?andb_true_r;
      repeat case_decide; naive_solver. }
  assert ((if 0 <=? new then
      Q ← on_impl Suggested KPriorityQueueImpl_Remove p new x Q1;
      on_impl Scheduled (if front then KPriorityQueueImpl_PushFront else KPriorityQueueImpl_PushBack) p new x Q
    else mret Q1) = Done true Q3) as ->.
  { destruct (0 <=? new); [|unfold mret, prog_ret in *; congruence]. cbn [impl_op] in E2. rewrite E2. pstep.
    rewrite <- E3. by destruct front. }
  pstep. clear E2 E3.
  (* and to the suggested queue of the old core *)
  destruct (guarded_run OpBack Suggested p prev x Q3 _ _ HR3 Hx3 Hat3 Hp Hcp)
    as (Q4 & E4 & HR4 & Hx4 & HK4 & Hat4).
  { intros Hn _. cbn [adds]. intros k' p' _. unfold upd_place, place. rewrite Z.eqb_refl, adds_push.
    destruct (p' =? p) eqn:Epp, k'; bool_prop; cbn [andb negb]; rewrite ?andb_false_r;
      repeat case_decide; naive_solver. }
  exists Q4. split_and!; [exact E4| |by auto]. eapply rep_ext; [exact HR4|].
  intros k p' c _ _. by apply change_core_steps.
Qed.
