(* ===== verification/PriorityQueueRefinement.v ===== *)
(** * What KPriorityQueue promises

    The abstract queues are lists of threads; a request changes them in one
    step.  The linked queues refine them: every operation of KPriorityQueue runs
    without a failed assertion and ends in a representation of the changed
    lists, and the fronts and successors walk along the threads of a core in the
    order of priority. *)

From Stdlib Require Import Sorting.Sorted.
From S2P Require Import Prelude Common PageBitmap Thread PriorityQueue PriorityQueueLemmas PriorityQueueTheorems.

(** ** The operations that move a thread within its queue *)
Section Move.
Context (x : Z) (t : KThread) (Q : KPriorityQueue) (L : Lists).
Hypotheses (HR : rep Q L) (Hx : known Q x) (Hd : KThread_IsDummyThread t = false).
Hypotheses (Hp : valid_prio (m_priority t)) (Hc : valid_core (m_core_id t)).
Hypothesis (Hin : x ∈ L Scheduled (m_priority t) (m_core_id t)).

Definition requeue (o : qop) : Lists :=
  upd_list Scheduled (m_priority t) (m_core_id t)
    (qop_list o x (filter (λ y, y ≠ x) (L Scheduled (m_priority t) (m_core_id t)))) L.

Lemma valid_bounds :
  IsValidCore (m_core_id t) = true ∧ IsValidPriority (m_priority t) = true ∧
  (m_priority t <=? LowestPriority) = true.
Proof.
  unfold valid_prio, valid_core in *. unfold IsValidCore. rewrite IsValidPriority_true by lia.
  change NumPriority with 64 in Hp. change LowestPriority with 63.
  rewrite (proj2 (Z.leb_le 0 (m_core_id t))), (proj2 (Z.ltb_lt (m_core_id t) _)),
    (proj2 (Z.leb_le (m_priority t) 63)) by lia. done.
Qed.

Lemma MoveToScheduledFront_run : ∃ Q', MoveToScheduledFront x t Q = Done true Q' ∧
  rep Q' (requeue OpFront) ∧ (∀ y, known Q y → known Q' y).
Proof.
  destruct (move_run OpFront Scheduled _ _ x Q L HR Hx Hp Hc ltac:(done) Hin) as (i & E & Er & HR' & HK).
  cbn [qop_run pq_impl] in Er. exists (with_impl Scheduled i E Q). split_and!; [|done|done].
  unfold MoveToScheduledFront, on_impl, KPriorityQueueImpl_MoveToFront. rewrite Hd.
  destruct valid_bounds as (-> & -> & ->). cbn [pq_impl]. unfold ASSERT. pstep. rewrite Er. by pstep.
Qed.

Lemma MoveToScheduledBack_run : ∃ Q', MoveToScheduledBack x t Q =
    Done true (head (requeue OpBack Scheduled (m_priority t) (m_core_id t)), Q') ∧
  rep Q' (requeue OpBack) ∧ (∀ y, known Q y → known Q' y).
Proof.
  destruct (move_run OpBack Scheduled _ _ x Q L HR Hx Hp Hc ltac:(done) Hin) as (i & E & Er & HR' & HK).
  cbn [qop_run pq_impl] in Er. exists (with_impl Scheduled i E Q). split_and!; [|done|done].
  unfold MoveToScheduledBack, KPriorityQueueImpl_MoveToBack. rewrite Hd.
  destruct valid_bounds as (-> & -> & ->). unfold ASSERT. pstep. rewrite Er. pstep.
  destruct (rep_queue _ _ HR' Scheduled _ _ Hp Hc) as (q & Hq & Hl). cbn [pq_impl with_impl m_scheduled_queue] in Hq.
  rewrite (arr_get_run _ _ q) by (apply Hp || done). pstep.
  erewrite GetFront_run; [|apply Hc|exact Hl]. by pstep.
Qed.
End Move.

(** ** Requests on the abstract queues *)
Inductive queue_request : Type :=
| RqPushBack | RqRemove
| RqMoveToFront | RqMoveToBack
| RqPriority (prev_priority : Z) (is_running : bool)
| RqAffinity (prev_core prev_affinity : Z)
| RqCore (prev_core : Z) (to_front : bool).

#[export] Instance queue_request_eq_dec : EqDecision queue_request.
Proof. solve_decision. Defined.

Definition request_run (r : queue_request) (x : Z) (t : KThread) (Q : KPriorityQueue)
    : prog KPriorityQueue :=
  match r with
  | RqPushBack => KPriorityQueue_PushBack x t Q
  | RqRemove => KPriorityQueue_Remove x t Q
  | RqMoveToFront => MoveToScheduledFront x t Q
  | RqMoveToBack => '(_, Q) ← MoveToScheduledBack x t Q; mret Q
  | RqPriority prev running => ChangePriority prev running x t Q
  | RqAffinity prev_core prev_affinity => ChangeAffinityMask prev_core prev_affinity x t Q
  | RqCore prev_core front => ChangeCore prev_core x t front Q
  end.

(** The thread leaves the queues of its old place and joins those of the place
    it has now; the other threads keep their order. *)
Definition request_lists (r : queue_request) (x : Z) (t : KThread) (L : Lists) : Lists :=
  match r with
  | RqPushBack => add_back x (thread_place t) L
  | RqRemove => take_out x L
  | RqMoveToFront => requeue x t L OpFront
  | RqMoveToBack => requeue x t L OpBack
  | RqPriority _ running =>
      (if running then add_front else add_back) x (thread_place t) (take_out x L)
  | RqAffinity _ _ => add_back x (thread_place t) (take_out x L)
  | RqCore prev_core front => change_core x (m_priority t) prev_core (m_core_id t) front L
  end.

(** What the callers see to: the thread is in the queues of its old place. *)
Definition request_pre (r : queue_request) (x : Z) (t : KThread) (L : Lists) : Prop :=
  match r with
  | RqPushBack => nowhere x L
  | RqRemove => at_place x (thread_place t) L
  | RqMoveToFront | RqMoveToBack =>
      at_place x (thread_place t) L ∧ m_priority t < NumPriority ∧ 0 ≤ m_core_id t
  | RqPriority prev _ =>
      0 ≤ prev ≤ NumPriority ∧ at_place x (place prev (m_core_id t) (m_physical_affinity_mask t)) L
  | RqAffinity prev_core prev_affinity =>
      place_ok (m_priority t) prev_core prev_affinity ∧
      at_place x (place (m_priority t) prev_core prev_affinity) L
  | RqCore prev_core _ =>
      place_ok (m_priority t) prev_core (m_physical_affinity_mask t) ∧
      at_place x (place (m_priority t) prev_core (m_physical_affinity_mask t)) L
  end.

Lemma at_place_scheduled x t L :
  thread_ok t → at_place x (thread_place t) L → m_priority t < NumPriority → 0 ≤ m_core_id t →
  valid_prio (m_priority t) ∧ valid_core (m_core_id t) ∧ x ∈ L Scheduled (m_priority t) (m_core_id t).
Proof.
  intros [? ? _ _] Hat Hp Hc. unfold valid_prio, valid_core. split_and!; try lia.
  apply Hat; unfold valid_prio, valid_core; [lia..|]. unfold thread_place, place. by rewrite !Z.eqb_refl.
Qed.

Lemma request_run_spec r x t Q L :
  rep Q L → known Q x → KThread_IsDummyThread t = false → thread_ok t → request_pre r x t L →
  ∃ Q', request_run r x t Q = Done true Q' ∧ rep Q' (request_lists r x t L) ∧
    (∀ y, known Q y → known Q' y).
Proof.
  intros HR Hx Hd Hok Hpre. destruct r as [| | | |prev running|pc pa|pc front]; cbn in *.
  - unfold KPriorityQueue_PushBack. rewrite Hd. by apply PushBack_at_run.
  - unfold KPriorityQueue_Remove. rewrite Hd. by apply Remove_at_run.
  - destruct Hpre as (Hat & Hp & Hc). destruct (at_place_scheduled x t L) as (? & ? & ?); [done..|].
    by apply MoveToScheduledFront_run.
  - destruct Hpre as (Hat & Hp & Hc). destruct (at_place_scheduled x t L) as (? & ? & ?); [done..|].
    destruct (MoveToScheduledBack_run x t Q L) as (Q' & E & ?); [done..|].
    exists Q'. split; [|done]. rewrite E. by pstep.
  - destruct Hpre. by apply ChangePriority_run.
  - destruct Hpre. by apply ChangeAffinityMask_run.
  - destruct Hpre. by apply ChangeCore_run.
Qed.

(** ** Where the threads are after a request *)
Definition others (x : Z) (L L' : Lists) : Prop :=
  ∀ k p c, filter (λ y, y ≠ x) (L' k p c) = filter (λ y, y ≠ x) (L k p c).

Lemma others_elem x L L' k p c y : others x L L' → y ≠ x → y ∈ L' k p c ↔ y ∈ L k p c.
Proof.
  intros Ho Hy. specialize (Ho k p c).
  assert (∀ l, y ∈ filter (λ z, z ≠ x) l ↔ y ∈ l) as Hl by (intros; rewrite list_elem_of_filter; naive_solver).
  by rewrite <- (Hl (L' k p c)), Ho, Hl.
Qed.

Lemma others_at_place x L L' y pl : others x L L' → y ≠ x → at_place y pl L → at_place y pl L'.
Proof. intros Ho Hy Hat k p c Hp Hc. rewrite (others_elem x L L') by done. by apply Hat. Qed.

Lemma others_nowhere x L L' y : others x L L' → y ≠ x → nowhere y L → nowhere y L'.
Proof. intros Ho Hy Hat k p c Hp Hc. rewrite (others_elem x L L') by done. by apply Hat. Qed.

Lemma filter_idem x (l : list Z) : filter (λ y, y ≠ x) (filter (λ y, y ≠ x) l) = filter (λ y, y ≠ x) l.
Proof. rewrite list_filter_filter. apply list_filter_iff. naive_solver. Qed.

Lemma filter_snoc_same x (l : list Z) : filter (λ y, y ≠ x) (l ++ [x]) = filter (λ y, y ≠ x) l.
Proof. rewrite filter_app, filter_cons_False by naive_solver. by rewrite app_nil_r. Qed.

Lemma filter_cons_same x (l : list Z) : filter (λ y, y ≠ x) (x :: l) = filter (λ y, y ≠ x) l.
Proof. by rewrite filter_cons_False by naive_solver. Qed.

Create Rewrite HintDb kqueue.
#[export] Hint Rewrite filter_idem filter_snoc_same filter_cons_same : kqueue.

Lemma request_others r x t L : others x L (request_lists r x t L).
Proof.
  intros k p c. destruct r; cbn; unfold add_back, take_out, requeue, upd_list, change_core; cbn beta;
    repeat (case_match; unfold add_front, add_back; cbn beta); destruct_and?; subst; cbn [qop_list];
    by autorewrite with kqueue.
Qed.

Lemma request_place r x t L :
  r ≠ RqRemove → request_pre r x t L → at_place x (thread_place t) (request_lists r x t L).
Proof.
  intros Hr Hpre k p c Hp Hc. destruct r as [| | | |prev running|pc pa|pc front]; cbn in *; [| done | | | | |].
  - unfold add_back. specialize (Hpre k p c Hp Hc). destruct (thread_place t k p c); set_solver.
  - destruct Hpre as (Hat & _). specialize (Hat k p c Hp Hc). unfold requeue, upd_list.
    case_decide as Hd; [|done]. destruct Hd as (-> & -> & ->). cbn.
    unfold thread_place, place. rewrite !Z.eqb_refl. set_solver.
  - destruct Hpre as (Hat & _). specialize (Hat k p c Hp Hc). unfold requeue, upd_list.
    case_decide as Hd; [|done]. destruct Hd as (-> & -> & ->). cbn.
    unfold thread_place, place. rewrite !Z.eqb_refl. set_solver.
  - pose proof (take_out_nowhere x L k p c Hp Hc). destruct running; unfold add_front, add_back;
      destruct (thread_place t k p c); destruct k; set_solver.
  - pose proof (take_out_nowhere x L k p c Hp Hc). unfold add_back.
    destruct (thread_place t k p c); set_solver.
  - destruct Hpre as ([_ _ _ Hap] & Hat). specialize (Hat k p c Hp Hc).
    unfold change_core, thread_place, place in *.
    destruct (p =? m_priority t) eqn:Ep; bool_prop; cbn [negb orb andb] in *; [|done].
    destruct (pc =? m_core_id t) eqn:Ec; bool_prop; [by subst|].
    assert (Z.testbit (m_physical_affinity_mask t) pc = true ∨ c ≠ pc) as Hpc.
    { destruct (decide (c = pc)) as [->|]; [left; apply Hap, Hc|by right]. }
    clear Hap. destruct k, (c =? m_core_id t) eqn:En, (c =? pc) eqn:Eo; bool_prop; subst; try done;
      cbn [negb] in *; rewrite ?andb_false_r, ?andb_true_r in *; try (destruct front);
      rewrite ?list_elem_of_filter, ?elem_of_app, ?list_elem_of_singleton, ?elem_of_cons; try tauto.
    all: intuition congruence.
Qed.

Lemma request_gone x t L : nowhere x (request_lists RqRemove x t L).
Proof. apply take_out_nowhere. Qed.

(** ** The order in which a core sees its threads *)
Lemma elem_of_flat L k c x : x ∈ flat L k c ↔ ∃ p, valid_prio p ∧ x ∈ L k p c.
Proof. unfold flat, valid_prio. rewrite elem_of_flat_from. by change NumPriority with 64. Qed.

(** Every thread in the queues of a core is known with its priority. *)
Definition priorities_at (T : gmap Z KThread) (L : Lists) (c : Z) : Prop :=
  ∀ k p x, valid_prio p → x ∈ L k p c → ∃ t, T !! x = Some t ∧ m_priority t = p.

Definition no_later (T : gmap Z KThread) (x y : Z) : Prop :=
  ∀ t u, T !! x = Some t → T !! y = Some u → m_priority t ≤ m_priority u.

Lemma flat_from_sorted T L k c n p :
  priorities_at T L c → 0 ≤ p → p + Z.of_nat n ≤ NumPriority →
  StronglySorted (no_later T) (flat_from L k c n p).
Proof.
  intros HT. revert p. induction n as [|n IH]; intros p Hp Hn; [constructor|]. cbn [flat_from].
  assert (valid_prio p) as Hv by (unfold valid_prio; lia).
  assert (∀ x, x ∈ L k p c → ∀ t, T !! x = Some t → m_priority t = p) as Hx.
  { intros x Hin t Ht. destruct (HT k p x Hv Hin) as (? & ? & ?). congruence. }
  assert (∀ y, y ∈ L k p c ++ flat_from L k c n (p + 1) → ∀ u, T !! y = Some u → p ≤ m_priority u) as Hy.
  { intros y [Hin|(q & Hq & Hin)%elem_of_flat_from]%elem_of_app u Hu; [by rewrite (Hx y Hin u Hu)|].
    destruct (HT k q y) as (? & ? & ?); [unfold valid_prio; lia|done|]. simplify_eq. lia. }
  specialize (IH (p + 1) ltac:(lia) ltac:(lia)). induction (L k p c) as [|x l IHl]; [done|].
  cbn [app]. constructor; [apply IHl; set_solver|]. apply Forall_forall. intros y Hin t u Ht Hu.
  rewrite (Hx x ltac:(left) t Ht). apply (Hy y); [by right|done].
Qed.

Lemma flat_NoDup Q L k c : rep Q L → valid_core c → NoDup (flat L k c).
Proof. intros HR Hc. apply (flat_from_NoDup Q L k c HR Hc); [lia|]. by change NumPriority with 64. Qed.

Lemma NoDup_split_unique (x : Z) l1 l2 m1 m2 :
  NoDup (l1 ++ x :: l2) → l1 ++ x :: l2 = m1 ++ x :: m2 → l1 = m1 ∧ l2 = m2.
Proof.
  revert m1. induction l1 as [|a l1 IH]; intros [|b m1] Hnd He; cbn in *; simplify_eq; [done|..].
  - apply NoDup_cons in Hnd as [? _]. set_solver.
  - apply NoDup_cons in Hnd as [? _]. set_solver.
  - apply NoDup_cons in Hnd as [_ ?]. destruct (IH m1) as [-> ->]; done.
Qed.

Lemma GetNext_run Q L k c x t l1 l2 :
  rep Q L → valid_core c → flat L k c = l1 ++ x :: l2 →
  (∀ p, valid_prio p → x ∈ L k p c → m_priority t = p) →
  KPriorityQueueImpl_GetNext (pq_impl k Q) c x (m_priority t) (pq_entries Q) = Done true (head l2).
Proof.
  intros HR Hc Hf Hp. assert (x ∈ flat L k c) as (p & Hv & Hin)%elem_of_flat by (rewrite Hf; set_solver).
  rewrite (Hp p Hv Hin). destruct (impl_GetNext_run Q L k c HR Hc p x Hv Hin) as (m1 & m2 & Hm & ->).
  pose proof (flat_NoDup Q L k c HR Hc) as Hnd.
  rewrite Hf in Hm, Hnd. by destruct (NoDup_split_unique x l1 l2 m1 m2 Hnd Hm) as [_ ->].
Qed.

(** ** The empty queue *)
Definition KPriorityQueue_new (E : Entries) : KPriorityQueue :=
  MkQueue KPriorityQueueImpl_new KPriorityQueueImpl_new E.

Lemma new_rep E : rep (KPriorityQueue_new E) (λ _ _ _, []).
Proof.
  assert (∀ k, pq_impl k (KPriorityQueue_new E) = KPriorityQueueImpl_new) as Hi by (by intros []).
  constructor.
  - intros k p c Hp Hc. rewrite Hi. exists KPerCoreQueue_new. unfold valid_prio, valid_core in *. split.
    { unfold KPriorityQueueImpl_new, m_queues. apply lookup_replicate. split; [done|lia]. }
    split; [constructor|]. unfold ring. cbn [fmap list_fmap app]. apply adj_link_cons. split; [|done].
    unfold link, pcell, KPerCoreQueue_new, m_root.
    rewrite lookup_replicate_2 by lia. done.
  - intros k p k' p' c x _ _ _ []%not_elem_of_nil.
  - intros k c Hc. rewrite Hi. exists 0. unfold valid_core in *. split.
    { unfold KPriorityQueueImpl_new, m_available_priorities. apply lookup_replicate. split; [done|lia]. }
    intros p _. by rewrite Z.testbit_0_l.
Qed.

(** ** Properties *)

(** C36: KPriorityQueue refines lists of threads.  Every operation (PushBack,
    Remove, MoveToScheduledFront and Back, ChangePriority, ChangeAffinityMask,
    ChangeCore), called for a thread that is in the queues of its old place, runs
    to the end with no failed assertion, and the linked queues then represent
    the changed lists: the thread is in the scheduled queue of its active core
    and the suggested queues of the other cores of its mask at its priority (in
    none after Remove), and every other thread keeps its queues and its order. *)
Theorem KPriorityQueue_refinement r x t Q L :
  rep Q L → known Q x → KThread_IsDummyThread t = false → thread_ok t → request_pre r x t L →
  wp (request_run r x t Q) (λ Q', ∃ L', rep Q' L' ∧ L' = request_lists r x t L ∧ others x L L' ∧
    (if decide (r = RqRemove) then nowhere x L' else at_place x (thread_place t) L')).
Proof.
  intros HR Hx Hd Hok Hpre. destruct (request_run_spec r x t Q L) as (Q' & E & HR' & _); [done..|].
  rewrite E. apply wp_Done. eexists. split_and!; [exact HR'|done|apply request_others|].
  case_decide as Hr; [subst; apply request_gone|by apply request_place].
Qed.

(** GetScheduledFront and GetSuggestedFront, GetScheduledNext and
    GetSuggestedNext walk along all threads queued for a core: each thread
    occurs once, the priorities never go up, and within a priority the threads
    come in the order they were queued. *)
Theorem KPriorityQueue_walk Q L T c k :
  rep Q L → valid_core c → priorities_at T L c →
  let front := match k with Scheduled => GetScheduledFront | Suggested => GetSuggestedFront end in
  let next := match k with Scheduled => GetScheduledNext | Suggested => GetSuggestedNext end in
  NoDup (flat L k c) ∧ (∀ x, x ∈ flat L k c ↔ ∃ p, valid_prio p ∧ x ∈ L k p c) ∧
  StronglySorted (no_later T) (flat L k c) ∧
  (∀ p, valid_prio p → sublist (L k p c) (flat L k c)) ∧
  front Q c = Done true (head (flat L k c)) ∧
  (∀ l1 x l2 t, flat L k c = l1 ++ x :: l2 → T !! x = Some t → next Q c x t = Done true (head l2)).
Proof.
  intros HR Hc HT front next. split_and!.
  - by eapply flat_NoDup.
  - intros x. apply elem_of_flat.
  - apply flat_from_sorted; [done|lia|]. by change NumPriority with 64.
  - intros p [? ?]. unfold flat. rewrite (flat_from_split L k c _ 0 p) by lia.
    apply sublist_inserts_l, sublist_inserts_r. done.
  - pose proof (impl_GetFront_run Q L k c HR Hc) as Hf. by destruct k.
  - intros l1 x l2 t Hl Ht.
    assert (∀ p, valid_prio p → x ∈ L k p c → m_priority t = p) as Hp.
    { intros p Hp Hin. destruct (HT k p x Hp Hin) as (u & ? & <-). congruence. }
    pose proof (GetNext_run Q L k c x t l1 l2 HR Hc Hl Hp) as Hn. by destruct k.
Qed.

(** A queue with thread 7 (priority 44) and thread 8 (priority 20) on core 0,
    both allowed on core 1. *)
Definition ex_thread (p : Z) : KThread := MkThread ThreadType_User p 0 3 ThreadState_Runnable 0 None 0 0 false.
Definition ex_entries : Entries :=
  list_to_map ((λ i, (i, QueueEntry_Initialize)) <$> [(7, 0); (7, 1); (7, 2); (7, 3); (8, 0); (8, 1); (8, 2); (8, 3)]).
Definition ex_new_queue : KPriorityQueue := KPriorityQueue_new ex_entries.
Definition ex_queue : KPriorityQueue :=
  result ex_new_queue (Q ← KPriorityQueue_PushBack 7 (ex_thread 44) ex_new_queue;
                       KPriorityQueue_PushBack 8 (ex_thread 20) Q).
Definition ex_lists1 : Lists := add_back 7 (thread_place (ex_thread 44)) (λ _ _ _, []).
Definition ex_lists : Lists := add_back 8 (thread_place (ex_thread 20)) ex_lists1.
Definition ex_thread_map : gmap Z KThread := {[7 := ex_thread 44; 8 := ex_thread 20]}.

Lemma ex_thread_ok p : 0 ≤ p ≤ 64 → thread_ok (ex_thread p).
Proof.
  intros Hp. constructor; cbn; [done|unfold NumCores, NUM_CPU_CORES; lia|lia|]. intros _. reflexivity.
Qed.

Lemma ex_known x : x = 7 ∨ x = 8 → known ex_new_queue x.
Proof.
  intros Hx c [? ?]. unfold NumCores, NUM_CPU_CORES in *.
  assert (c = 0 ∨ c = 1 ∨ c = 2 ∨ c = 3) as Hc by lia.
  destruct Hx as [-> | ->], Hc as [-> |[-> |[-> | ->]]]; by eexists.
Qed.

Lemma ex_queue_rep : rep ex_queue ex_lists ∧ known ex_queue 7 ∧ known ex_queue 8.
Proof.
  destruct (request_run_spec RqPushBack 7 (ex_thread 44) ex_new_queue (λ _ _ _, []))
    as (Q1 & E1 & R1 & K1); [apply new_rep|apply ex_known; lia|done|by apply ex_thread_ok|
      by intros k p c _ _ []%not_elem_of_nil|].
  destruct (request_run_spec RqPushBack 8 (ex_thread 20) Q1 ex_lists1) as (Q2 & E2 & R2 & K2);
    [exact R1|apply K1, ex_known; lia|done|by apply ex_thread_ok|..].
  { intros k p c _ _. unfold ex_lists1, add_back. case_match; set_solver. }
  assert (ex_queue = Q2) as ->.
  { unfold ex_queue. cbn [request_run] in E1, E2. by rewrite E1, bind_Done_true, E2. }
  split_and!; [exact R2|apply K2, K1, ex_known; lia..].
Qed.

(** Thread 7 gets priority 10 while it is not running. *)
Lemma KPriorityQueue_refinement_witness :
  wp (ChangePriority 44 false 7 (ex_thread 10) ex_queue) (λ Q', ∃ L', rep Q' L' ∧
    L' = request_lists (RqPriority 44 false) 7 (ex_thread 10) ex_lists ∧ others 7 ex_lists L' ∧
    at_place 7 (thread_place (ex_thread 10)) L').
Proof.
  destruct ex_queue_rep as (HR & H7 & _).
  apply (KPriorityQueue_refinement (RqPriority 44 false) 7 (ex_thread 10) ex_queue ex_lists);
    [done|done|done|by apply ex_thread_ok|]. split; [done|].
  apply (others_at_place 8 ex_lists1); [|done|].
  - apply (request_others RqPushBack 8 (ex_thread 20)).
  - apply (request_place RqPushBack 7 (ex_thread 44)); [done|]. by intros k p c _ _ []%not_elem_of_nil.
Defined.

(** Core 1 is suggested thread 8 and then thread 7. *)
Lemma KPriorityQueue_walk_witness :
  flat ex_lists Suggested 1 = [8; 7] ∧
  GetSuggestedFront ex_queue 1 = Done true (Some 8) ∧
  GetSuggestedNext ex_queue 1 8 (ex_thread 20) = Done true (Some 7) ∧
  GetSuggestedNext ex_queue 1 7 (ex_thread 44) = Done true None.
Proof.
  destruct ex_queue_rep as (HR & _ & _).
  assert (flat ex_lists Suggested 1 = [8; 7]) as Hf by reflexivity.
  destruct (KPriorityQueue_walk ex_queue ex_lists ex_thread_map 1 Suggested HR) as (_ & _ & _ & _ & Hh & Hn).
  - by split.
  - intros k p x Hp. unfold ex_lists, ex_lists1, add_back, thread_place, place.
    intros Hin. destruct (p =? m_priority (ex_thread 20)) eqn:E20; bool_prop; cbn [m_priority ex_thread] in E20.
    + subst. cbn in Hin. destruct k; cbn in Hin; [by apply not_elem_of_nil in Hin|].
      apply list_elem_of_singleton in Hin as ->. by eexists.
    + cbn [andb] in Hin. destruct (p =? m_priority (ex_thread 44)) eqn:E44; bool_prop; cbn [m_priority ex_thread] in E44.
      * subst. cbn in Hin. destruct k; cbn in Hin; [by apply not_elem_of_nil in Hin|].
        apply list_elem_of_singleton in Hin as ->. by eexists.
      * by apply not_elem_of_nil in Hin.
  - rewrite Hf in Hh. split_and!; [done|exact Hh|..].
    + by apply (Hn [] 8 [7]).
    + by apply (Hn [8] 7 []).
Defined.
