(* ===== verification/Scheduler.v ===== *)
(** * KScheduler and GlobalSchedulerContext
    (src/src/core/hle/kernel/k_scheduler.h, k_scheduler.cpp,
    global_scheduler_context.h, global_scheduler_context.cpp)

    What the kernel decides under the scheduler lock: which thread is the
    highest priority thread of each core, what a change of a thread does to the
    queues, rotation and yielding.  The context switch itself, between host
    fibers, is not modelled. *)

From S2P Require Import Prelude Common PageBitmap Thread PriorityQueue.

Definition HighestCoreMigrationAllowedPriority : Z := 2.

(** The clock of the emulated system, read by CoreTiming::GetClockTicks. *)
Class Clock (C : Type) : Type := { GetClockTicks : C → Z * C }.
#[export] Instance constant_clock : Clock Z := {| GetClockTicks c := (c, c) |}.

(** ** State *)
Record SchedulingState : Type := MkSched {
  needs_scheduling : bool;
  interrupt_task_runnable : bool;
  should_count_idle : bool;
  idle_count : Z;
  highest_priority_thread : option Z;
  prev_thread : option Z
}.

(** The threads and processes of the kernel, the global scheduler context with
    its queue, the state of the scheduler of each core, and the thread that runs
    this code. *)
Record SchedulerContext (C : Type) : Type := MkContext {
  ctx_threads : gmap Z KThread;
  ctx_processes : gmap Z KProcess;
  m_priority_queue : KPriorityQueue;
  ctx_schedulers : list SchedulingState;
  m_scheduler_update_needed : bool;
  m_woken_dummy_threads : list Z;
  m_thread_list : list Z;
  ctx_locked : bool;                  (* the current thread holds the scheduler lock *)
  ctx_current : Z;                    (* GetCurrentThreadPointer(kernel) *)
  ctx_dispatch_count : Z;             (* its GetDisableDispatchCount() *)
  ctx_clock : C
}.
Arguments MkContext {C}.
Arguments ctx_threads {C}.
Arguments ctx_processes {C}.
Arguments m_priority_queue {C}.
Arguments ctx_schedulers {C}.
Arguments m_scheduler_update_needed {C}.
Arguments m_woken_dummy_threads {C}.
Arguments m_thread_list {C}.
Arguments ctx_locked {C}.
Arguments ctx_current {C}.
Arguments ctx_dispatch_count {C}.
Arguments ctx_clock {C}.

Section Scheduler.
Context {C : Type} `{Clock C}.
Local Abbreviation ctx := (SchedulerContext C).

Definition set_threads (ts : gmap Z KThread) (s : ctx) : ctx :=
  MkContext ts (ctx_processes s) (m_priority_queue s) (ctx_schedulers s)
    (m_scheduler_update_needed s) (m_woken_dummy_threads s) (m_thread_list s) (ctx_locked s)
    (ctx_current s) (ctx_dispatch_count s) (ctx_clock s).
Definition set_processes (ps : gmap Z KProcess) (s : ctx) : ctx :=
  MkContext (ctx_threads s) ps (m_priority_queue s) (ctx_schedulers s)
    (m_scheduler_update_needed s) (m_woken_dummy_threads s) (m_thread_list s) (ctx_locked s)
    (ctx_current s) (ctx_dispatch_count s) (ctx_clock s).
Definition set_queue (Q : KPriorityQueue) (s : ctx) : ctx :=
  MkContext (ctx_threads s) (ctx_processes s) Q (ctx_schedulers s)
    (m_scheduler_update_needed s) (m_woken_dummy_threads s) (m_thread_list s) (ctx_locked s)
    (ctx_current s) (ctx_dispatch_count s) (ctx_clock s).
Definition set_schedulers (l : list SchedulingState) (s : ctx) : ctx :=
  MkContext (ctx_threads s) (ctx_processes s) (m_priority_queue s) l
    (m_scheduler_update_needed s) (m_woken_dummy_threads s) (m_thread_list s) (ctx_locked s)
    (ctx_current s) (ctx_dispatch_count s) (ctx_clock s).
Definition set_update_needed (b : bool) (s : ctx) : ctx :=
  MkContext (ctx_threads s) (ctx_processes s) (m_priority_queue s) (ctx_schedulers s)
    b (m_woken_dummy_threads s) (m_thread_list s) (ctx_locked s) (ctx_current s)
    (ctx_dispatch_count s) (ctx_clock s).
Definition set_woken (l : list Z) (s : ctx) : ctx :=
  MkContext (ctx_threads s) (ctx_processes s) (m_priority_queue s) (ctx_schedulers s)
    (m_scheduler_update_needed s) l (m_thread_list s) (ctx_locked s) (ctx_current s)
    (ctx_dispatch_count s) (ctx_clock s).
Definition set_thread_list (l : list Z) (s : ctx) : ctx :=
  MkContext (ctx_threads s) (ctx_processes s) (m_priority_queue s) (ctx_schedulers s)
    (m_scheduler_update_needed s) (m_woken_dummy_threads s) l (ctx_locked s) (ctx_current s)
    (ctx_dispatch_count s) (ctx_clock s).
Definition set_clock (c : C) (s : ctx) : ctx :=
  MkContext (ctx_threads s) (ctx_processes s) (m_priority_queue s) (ctx_schedulers s)
    (m_scheduler_update_needed s) (m_woken_dummy_threads s) (m_thread_list s) (ctx_locked s)
    (ctx_current s) (ctx_dispatch_count s) c.

(** ** Threads and processes by pointer *)
Definition get_thread (s : ctx) (thread : Z) : prog KThread := deref (ctx_threads s !! thread).

Definition change_thread (thread : Z) (f : KThread → KThread) (s : ctx) : prog ctx :=
  t ← get_thread s thread;
  mret (set_threads (<[thread := f t]> (ctx_threads s)) s).

Definition get_process (s : ctx) (process : Z) : prog KProcess :=
  deref (ctx_processes s !! process).

Definition IncrementScheduledCount (thread : Z) (s : ctx) : prog ctx :=
  t ← get_thread s thread;
  match m_parent t with
  | Some process =>
      p ← get_process s process;
      mret (set_processes (<[process := KProcess_IncrementScheduledCount p]> (ctx_processes s)) s)
  | None => mret s
  end.

Definition IsSchedulerLockedByCurrentThread (s : ctx) : bool := ctx_locked s.
Definition CanSchedule (s : ctx) : bool := ctx_dispatch_count s =? 0.
Definition SetSchedulerUpdateNeeded (s : ctx) : ctx := set_update_needed true s.
Definition ClearSchedulerUpdateNeeded (s : ctx) : ctx := set_update_needed false s.

(** ** GlobalSchedulerContext *)
Definition AddThread (thread : Z) (s : ctx) : ctx :=
  set_thread_list (m_thread_list s ++ [thread]) s.

(** [erase(find(...))]: erasing the end iterator is undefined. *)
Definition RemoveThread (thread : Z) (s : ctx) : prog ctx :=
  match list_find (λ y, y = thread) (m_thread_list s) with
  | Some (i, _) => mret (set_thread_list (delete i (m_thread_list s)) s)
  | None => Stuck
  end.

Definition RegisterDummyThreadForWakeup (thread : Z) (s : ctx) : prog ctx :=
  _ ← ASSERT (ctx_locked s);
  mret (set_woken (m_woken_dummy_threads s ++ [thread]) s).

(** The last element takes the place of the one removed. *)
Definition UnregisterDummyThreadForWakeup (thread : Z) (s : ctx) : prog ctx :=
  _ ← ASSERT (ctx_locked s);
  match list_find (λ y, y = thread) (m_woken_dummy_threads s) with
  | Some (i, _) =>
      back ← deref (last (m_woken_dummy_threads s));
      let l := <[i := back]> (m_woken_dummy_threads s) in
      mret (set_woken (take (length l - 1) l) s)
  | None => mret s
  end.

Definition DummyThreadEndWait (thread : Z) (s : ctx) : prog ctx :=
  _ ← ASSERT (IsSchedulerLockedByCurrentThread s);
  t ← get_thread s thread;
  _ ← ASSERT (KThread_IsDummyThread t);
  change_thread thread (set_dummy_runnable true) s.

Definition RequestDummyThreadWait (thread : Z) (s : ctx) : prog ctx :=
  _ ← ASSERT (IsSchedulerLockedByCurrentThread s);
  t ← get_thread s thread;
  _ ← ASSERT (KThread_IsDummyThread t);
  change_thread thread (set_dummy_runnable false) s.

Fixpoint wake_all (threads : list Z) (s : ctx) : prog ctx :=
  match threads with
  | [] => mret s
  | thread :: threads => s ← DummyThreadEndWait thread s; wake_all threads s
  end.

Definition WakeupWaitingDummyThreads (s : ctx) : prog ctx :=
  _ ← ASSERT (ctx_locked s);
  if (0 <? Z.of_nat (length (m_woken_dummy_threads s)))
  then s ← wake_all (m_woken_dummy_threads s) s; mret (set_woken [] s)
  else mret s.

(** ** Walking along a queue

    [while (x != nullptr) { body; x = next(x); }]: the body breaks with a
    result or goes on.  A queue has no thread twice, so the number of threads is
    fuel enough. *)
Fixpoint walk {A R} (fuel : nat) (next : Z → prog (option Z)) (body : A → Z → prog (A + R))
    (a : A) (x : option Z) : prog (A + R) :=
  match x with
  | None => mret (inl a)
  | Some x =>
      match fuel with
      | O => Stuck
      | S fuel =>
          r ← body a x;
          match r with
          | inr r => mret (inr r)
          | inl a => n ← next x; walk fuel next body a n
          end
      end
  end.

Definition walk_fuel (s : ctx) : nat := size (ctx_threads s).

Definition suggested_next (s : ctx) (core : Z) (x : Z) : prog (option Z) :=
  t ← get_thread s x;
  GetSuggestedNext (m_priority_queue s) core x t.

(** A thread on [core_id] from the core it was active on. *)
Definition migrate (core_id : Z) (suggested : Z) (to_front : bool) (s : ctx) : prog ctx :=
  t ← get_thread s suggested;
  let suggested_core := m_core_id t in
  s ← change_thread suggested (KThread_SetActiveCore core_id) s;
  t ← get_thread s suggested;
  Q ← ChangeCore suggested_core suggested t to_front (m_priority_queue s);
  mret (set_queue Q s).

(** [top != nullptr && top->GetPriority() < HighestCoreMigrationAllowedPriority] *)
Definition too_high (s : ctx) (top : option Z) : prog bool :=
  match top with
  | None => mret false
  | Some top => t ← get_thread s top; mret (m_priority t <? HighestCoreMigrationAllowedPriority)
  end.

(** ** UpdateHighestPriorityThread *)
Definition UpdateHighestPriorityThread (core_id : Z) (highest_thread : option Z) (s : ctx)
    : prog (Z * ctx) :=
  m_state ← arr_get (ctx_schedulers s) core_id;
  let prev_highest_thread := highest_priority_thread m_state in
  if bool_decide (prev_highest_thread = highest_thread) then mret (0, s)
  else
    s ← (match prev_highest_thread with
         | Some prev =>
             s ← IncrementScheduledCount prev s;
             let '(ticks, clock) := GetClockTicks (ctx_clock s) in
             change_thread prev (KThread_SetLastScheduledTick ticks) (set_clock clock s)
         | None => mret s
         end);
    '(count, s) ←
      (if should_count_idle m_state then
         match highest_thread with
         | Some thread =>
             t ← get_thread s thread;
             match m_parent t with
             | Some process =>
                 p ← get_process s process;
                 p ← KProcess_SetRunningThread p core_id highest_thread (idle_count m_state) 0;
                 mret (idle_count m_state, set_processes (<[process := p]> (ctx_processes s)) s)
             | None => mret (idle_count m_state, s)
             end
         | None => mret (u64 (idle_count m_state + 1), s)
         end
       else mret (idle_count m_state, s));
    schedulers ← arr_set (ctx_schedulers s) core_id
      (MkSched true (interrupt_task_runnable m_state) (should_count_idle m_state) count
         highest_thread (prev_thread m_state));
    mret (u64 (Z.shiftl 1 core_id), set_schedulers schedulers s).

(** ** UpdateHighestPriorityThreadsImpl

    The thread a core should run: the front of its scheduled queue, unless its
    process has another thread pinned on the core. *)
Definition top_of_core (core_id : Z) (s : ctx) : prog (option Z * bool) :=
  top_thread ← GetScheduledFront (m_priority_queue s) core_id;
  match top_thread with
  | None => mret (None, true)
  | Some top =>
      t ← get_thread s top;
      match m_parent t with
      | None => mret (Some top, false)
      | Some parent =>
          p ← get_process s parent;
          pinned ← KProcess_GetPinnedThread p core_id;
          match pinned with
          | None => mret (Some top, false)
          | Some pinned =>
              if bool_decide (pinned = top) then mret (Some top, false)
              else if m_num_kernel_waiters t =? 0 then
                tp ← get_thread s pinned;
                mret (if m_thread_state tp =? ThreadState_Runnable then Some pinned else None, false)
              else mret (Some top, false)
          end
      end
  end.

(** The locals of the function, with the kernel. *)
Record update_state : Type := MkUpdate {
  top_threads : list (option Z);
  cores_needing_scheduling : Z;
  up_ctx : ctx
}.

(** [top_threads[core] = x; cores_needing_scheduling |=
    Scheduler(core).UpdateHighestPriorityThread(top_threads[core])] *)
Definition select (core : Z) (x : option Z) (u : update_state) : prog update_state :=
  tops ← arr_set (top_threads u) core x;
  '(mask, s) ← UpdateHighestPriorityThread core x (up_ctx u);
  mret (MkUpdate tops (Z.lor (cores_needing_scheduling u) mask) s).

Fixpoint select_tops (cores : list Z) (idle_cores : Z) (u : update_state)
    : prog (Z * update_state) :=
  match cores with
  | [] => mret (idle_cores, u)
  | core_id :: cores =>
      '(top, idle) ← top_of_core core_id (up_ctx u);
      u ← select core_id top u;
      select_tops cores (if idle : bool then Z.lor idle_cores (u64 (Z.shiftl 1 core_id)) else idle_cores) u
  end.

(** The thread that is selected for the core a suggested thread is active on. *)
Definition top_on_core (u : update_state) (suggested_core : Z) : prog (option Z) :=
  if 0 <=? suggested_core then arr_get (top_threads u) suggested_core else mret None.

(** One turn of the search for a thread to migrate; the accumulator is the list
    of candidate cores, the result is the new state (or the old one, when the
    suggestion must not be migrated). *)
Definition try_suggested (core_id : Z) (u : update_state) (candidates : list Z) (suggested : Z)
    : prog (list Z + update_state) :=
  t ← get_thread (up_ctx u) suggested;
  let suggested_core := m_core_id t in
  top_thread ← top_on_core u suggested_core;
  if bool_decide (top_thread ≠ Some suggested) then
    high ← too_high (up_ctx u) top_thread;
    if high : bool then mret (inr u)
    else
      s ← migrate core_id suggested false (up_ctx u);
      u ← select core_id (Some suggested) (MkUpdate (top_threads u) (cores_needing_scheduling u) s);
      mret (inr u)
  else
    _ ← ASSERT (Z.of_nat (length candidates) <? NUM_CPU_CORES);
    if (Z.of_nat (length candidates) <? NUM_CPU_CORES)
    then mret (inl (candidates ++ [suggested_core])) else Stuck.

(** If no suggestion could be migrated, one candidate core that can run another
    thread gives its top thread up. *)
Fixpoint try_candidates (core_id : Z) (candidates : list Z) (u : update_state)
    : prog update_state :=
  match candidates with
  | [] => mret u
  | candidate_core :: candidates =>
      top ← arr_get (top_threads u) candidate_core;
      suggested ← deref top;
      t ← get_thread (up_ctx u) suggested;
      next ← GetScheduledNext (m_priority_queue (up_ctx u)) candidate_core suggested t;
      match next with
      | Some next =>
          u ← select candidate_core (Some next) u;
          t ← get_thread (up_ctx u) suggested;
          s ← change_thread suggested (KThread_SetActiveCore core_id) (up_ctx u);
          t ← get_thread s suggested;
          Q ← ChangeCore candidate_core suggested t false (m_priority_queue s);
          select core_id (Some suggested)
            (MkUpdate (top_threads u) (cores_needing_scheduling u) (set_queue Q s))
      | None => try_candidates core_id candidates u
      end
  end.

Definition fill_core (core_id : Z) (u : update_state) : prog update_state :=
  suggested ← GetSuggestedFront (m_priority_queue (up_ctx u)) core_id;
  match suggested with
  | None => mret u
  | Some _ =>
      r ← walk (walk_fuel (up_ctx u)) (suggested_next (up_ctx u) core_id)
            (try_suggested core_id u) [] suggested;
      match r with
      | inr u => mret u
      | inl candidates => try_candidates core_id candidates u
      end
  end.

(** [while (idle_cores != 0)], one bit a turn. *)
Fixpoint fill_idle (fuel : nat) (idle_cores : Z) (u : update_state) : prog update_state :=
  if idle_cores =? 0 then mret u
  else
    match fuel with
    | O => Stuck
    | S fuel =>
        let core_id := countr_zero idle_cores in
        u ← fill_core core_id u;
        fill_idle fuel (Z.ldiff idle_cores (u64 (Z.shiftl 1 core_id))) u
    end.

Definition UpdateHighestPriorityThreadsImpl (s : ctx) : prog (Z * ctx) :=
  _ ← ASSERT (IsSchedulerLockedByCurrentThread s);
  let s := ClearSchedulerUpdateNeeded s in
  '(idle_cores, u) ← select_tops (seqZ 0 NUM_CPU_CORES) 0
                       (MkUpdate (replicate (Z.to_nat NUM_CPU_CORES) None) 0 s);
  u ← fill_idle 64 idle_cores u;
  s ← WakeupWaitingDummyThreads (up_ctx u);
  cur ← get_thread s (ctx_current s);
  s ← (if KThread_IsDummyThread cur && negb (KThread_GetState cur =? ThreadState_Runnable)
       then RequestDummyThreadWait (ctx_current s) s else mret s);
  mret (cores_needing_scheduling u, s).

Definition UpdateHighestPriorityThreads (s : ctx) : prog (Z * ctx) :=
  if m_scheduler_update_needed s then UpdateHighestPriorityThreadsImpl s else mret (0, s).

(** ** What a changed thread does to the queues *)
Fixpoint clear_previous (thread : Z) (l : list SchedulingState) : list SchedulingState :=
  match l with
  | [] => []
  | m :: l =>
      (if bool_decide (prev_thread m = Some thread)
       then MkSched (needs_scheduling m) (interrupt_task_runnable m) (should_count_idle m)
              (idle_count m) (highest_priority_thread m) None
       else m) :: clear_previous thread l
  end.

Definition ClearPreviousThread (thread : Z) (s : ctx) : prog ctx :=
  _ ← ASSERT (IsSchedulerLockedByCurrentThread s);
  mret (set_schedulers (clear_previous thread (ctx_schedulers s)) s).

Definition OnThreadStateChanged (thread old_state : Z) (s : ctx) : prog ctx :=
  _ ← ASSERT (IsSchedulerLockedByCurrentThread s);
  t ← get_thread s thread;
  let cur_state := m_thread_state t in
  if cur_state =? old_state then mret s
  else if old_state =? ThreadState_Runnable then
    Q ← KPriorityQueue_Remove thread t (m_priority_queue s);
    s ← IncrementScheduledCount thread (set_queue Q s);
    let s := SetSchedulerUpdateNeeded s in
    if KThread_IsDummyThread t then UnregisterDummyThreadForWakeup thread s else mret s
  else if cur_state =? ThreadState_Runnable then
    Q ← KPriorityQueue_PushBack thread t (m_priority_queue s);
    s ← IncrementScheduledCount thread (set_queue Q s);
    let s := SetSchedulerUpdateNeeded s in
    if KThread_IsDummyThread t then RegisterDummyThreadForWakeup thread s else mret s
  else mret s.

Definition OnThreadPriorityChanged (thread old_priority : Z) (s : ctx) : prog ctx :=
  _ ← ASSERT (IsSchedulerLockedByCurrentThread s);
  t ← get_thread s thread;
  if m_thread_state t =? ThreadState_Runnable then
    Q ← ChangePriority old_priority (thread =? ctx_current s) thread t (m_priority_queue s);
    s ← IncrementScheduledCount thread (set_queue Q s);
    mret (SetSchedulerUpdateNeeded s)
  else mret s.

Definition OnThreadAffinityMaskChanged (thread old_affinity old_core : Z) (s : ctx) : prog ctx :=
  _ ← ASSERT (IsSchedulerLockedByCurrentThread s);
  t ← get_thread s thread;
  if m_thread_state t =? ThreadState_Runnable then
    Q ← ChangeAffinityMask old_core old_affinity thread t (m_priority_queue s);
    s ← IncrementScheduledCount thread (set_queue Q s);
    mret (SetSchedulerUpdateNeeded s)
  else mret s.

(** KThread::SetState under the lock it takes; the wait reason shown to debuggers
    is left out. *)
Definition KThread_SetState (thread state : Z) (s : ctx) : prog ctx :=
  t ← get_thread s thread;
  let old_state := m_thread_state t in
  let new_state := Z.lor (Z.ldiff old_state ThreadState_Mask) (Z.land state ThreadState_Mask) in
  s ← change_thread thread (set_thread_state new_state) s;
  if negb (new_state =? old_state) then OnThreadStateChanged thread old_state s else mret s.

(** ** Rotation and yielding

    [suggested] is migrated unless the top thread of its core is too important. *)
Definition scheduled_top (s : ctx) (suggested_core : Z) : prog (option Z) :=
  if 0 <=? suggested_core then GetScheduledFront (m_priority_queue s) suggested_core else mret None.

Definition migrate_counted (core_id suggested : Z) (to_front : bool) (s : ctx) : prog ctx :=
  s ← migrate core_id suggested to_front s;
  IncrementScheduledCount suggested s.

Definition rotate_suggested (core_id : Z) (top_thread next_thread : option Z) (s : ctx)
    (_ : unit) (suggested : Z) : prog (unit + ctx) :=
  t ← get_thread s suggested;
  top_on_suggested_core ← scheduled_top s (m_core_id t);
  if bool_decide (top_on_suggested_core ≠ Some suggested) then
    prefer_next ←
      (match next_thread with
       | Some next =>
           if bool_decide (top_thread ≠ Some next) then
             tn ← get_thread s next;
             mret (m_last_scheduled_tick tn <? m_last_scheduled_tick t)
           else mret false
       | None => mret false
       end);
    if prefer_next : bool then mret (inr s)
    else
      high ← too_high s top_on_suggested_core;
      if negb high then s ← migrate_counted core_id suggested true s; mret (inr s)
      else mret (inl ())
  else mret (inl ()).

Definition rotate_better (core_id best_priority : Z) (s : ctx) (_ : unit) (suggested : Z)
    : prog (unit + ctx) :=
  t ← get_thread s suggested;
  if best_priority <=? m_priority t then mret (inr s)
  else
    top_on_suggested_core ← scheduled_top s (m_core_id t);
    if bool_decide (top_on_suggested_core ≠ Some suggested) then
      high ← too_high s top_on_suggested_core;
      if negb high then s ← migrate_counted core_id suggested true s; mret (inr s)
      else mret (inl ())
    else mret (inl ()).

(** The state a walk ends with. *)
Definition walked {A} (s : ctx) (r : A + ctx) : ctx :=
  match r with inl _ => s | inr s => s end.

(** The front of the queue of [priority] goes to its back. *)
Definition rotate_front (core_id priority : Z) (s : ctx) : prog (option Z * option Z * ctx) :=
  top_thread ← GetScheduledFront_at (m_priority_queue s) core_id priority;
  match top_thread with
  | None => mret (None, None, s)
  | Some top =>
      t ← get_thread s top;
      '(next_thread, Q) ← MoveToScheduledBack top t (m_priority_queue s);
      let s := set_queue Q s in
      s ← (if bool_decide (next_thread ≠ Some top) then
             s ← IncrementScheduledCount top s;
             next ← deref next_thread;
             IncrementScheduledCount next s
           else mret s);
      mret (Some top, next_thread, s)
  end.

Definition RotateScheduledQueue (core_id priority : Z) (s : ctx) : prog ctx :=
  _ ← ASSERT (IsSchedulerLockedByCurrentThread s);
  '(top_thread, next_thread, s) ← rotate_front core_id priority s;
  suggested ← GetSuggestedFront_at (m_priority_queue s) core_id priority;
  r ← walk (walk_fuel s) (GetSamePriorityNext (m_priority_queue s) core_id)
        (rotate_suggested core_id top_thread next_thread s) () suggested;
  let s := walked s r in
  best_thread ← GetScheduledFront (m_priority_queue s) core_id;
  best_thread ← (if bool_decide (best_thread = Some (ctx_current s)) then
                   t ← get_thread s (ctx_current s);
                   GetScheduledNext (m_priority_queue s) core_id (ctx_current s) t
                 else mret best_thread);
  s ← (match best_thread with
       | None => mret s
       | Some best =>
           t ← get_thread s best;
           if priority <=? m_priority t then
             suggested ← GetSuggestedFront (m_priority_queue s) core_id;
             r ← walk (walk_fuel s) (suggested_next s core_id)
                   (rotate_better core_id (m_priority t) s) () suggested;
             mret (walked s r)
           else mret s
       end);
  mret (SetSchedulerUpdateNeeded s).

Definition preemption_priorities : list Z := [59; 59; 59; 63].

Fixpoint preempt_cores (core_id : Z) (priorities : list Z) (s : ctx) : prog ctx :=
  match priorities with
  | [] => mret s
  | priority :: priorities =>
      s ← RotateScheduledQueue core_id priority s;
      preempt_cores (core_id + 1) priorities s
  end.

Definition PreemptThreads (s : ctx) : prog ctx :=
  _ ← ASSERT (IsSchedulerLockedByCurrentThread s);
  preempt_cores 0 preemption_priorities s.

(** The body of the three yields; [locked] runs under the scheduler lock. *)
Definition yield (locked : Z → KThread → KProcess → ctx → prog ctx) (s : ctx) : prog ctx :=
  _ ← ASSERT (CanSchedule s);
  let cur := ctx_current s in
  cur_thread ← get_thread s cur;
  _ ← ASSERT (bool_decide (m_parent cur_thread ≠ None));
  parent ← deref (m_parent cur_thread);
  cur_process ← get_process s parent;
  if m_yield_schedule_count cur_thread =? m_schedule_count cur_process then mret s
  else if m_thread_state cur_thread =? ThreadState_Runnable
  then locked cur cur_thread cur_process s
  else mret s.

(** [cur_thread.SetYieldScheduleCount(cur_process.GetScheduledCount())] *)
Definition note_yield (cur : Z) (s : ctx) : prog ctx :=
  t ← get_thread s cur;
  parent ← deref (m_parent t);
  p ← get_process s parent;
  change_thread cur (KThread_SetYieldScheduleCount (m_schedule_count p)) s.

Definition YieldWithoutCoreMigration : ctx → prog ctx :=
  yield (λ cur cur_thread _ s,
    '(next_thread, Q) ← MoveToScheduledBack cur cur_thread (m_priority_queue s);
    s ← IncrementScheduledCount cur (set_queue Q s);
    if bool_decide (next_thread ≠ Some cur) then mret (SetSchedulerUpdateNeeded s)
    else note_yield cur s).

(** The accumulator tells whether a later yield should check again; the result
    tells in addition whether a suggestion was migrated. *)
Definition yield_suggested (core_id cur cur_priority : Z) (next_thread : option Z) (s : ctx)
    (recheck : bool) (suggested : Z) : prog (bool + (bool * bool * ctx)) :=
  t ← get_thread s suggested;
  running_on_suggested_core ←
    (if 0 <=? m_core_id t
     then m ← arr_get (ctx_schedulers s) (m_core_id t); mret (highest_priority_thread m)
     else mret None);
  if bool_decide (running_on_suggested_core ≠ Some suggested) then
    prefer_next ←
      (if cur_priority <? m_priority t then mret true
       else if (m_priority t =? cur_priority) && bool_decide (next_thread ≠ Some cur) then
         next ← deref next_thread;
         tn ← get_thread s next;
         mret (m_last_scheduled_tick tn <? m_last_scheduled_tick t)
       else mret false);
    if prefer_next : bool then mret (inr (false, recheck, s))
    else
      high ← too_high s running_on_suggested_core;
      if negb high then s ← migrate_counted core_id suggested true s; mret (inr (true, recheck, s))
      else mret (inl true)
  else mret (inl recheck).

Definition YieldWithCoreMigration : ctx → prog ctx :=
  yield (λ cur cur_thread _ s,
    let core_id := m_core_id cur_thread in
    '(next_thread, Q) ← MoveToScheduledBack cur cur_thread (m_priority_queue s);
    s ← IncrementScheduledCount cur (set_queue Q s);
    suggested ← GetSuggestedFront (m_priority_queue s) core_id;
    r ← walk (walk_fuel s) (suggested_next s core_id)
          (yield_suggested core_id cur (m_priority cur_thread) next_thread s) false suggested;
    let '(migrated, recheck, s) :=
      match r with
      | inr (migrated, recheck, s) => (migrated, recheck, s)
      | inl recheck => (false, recheck, s)
      end in
    if migrated || bool_decide (next_thread ≠ Some cur) then mret (SetSchedulerUpdateNeeded s)
    else if negb recheck then note_yield cur s
    else mret s).

(** The result is the suggestion the loop stopped at. *)
Definition any_suggested (core_id : Z) (s : ctx) (_ : unit) (suggested : Z)
    : prog (unit + (Z * ctx)) :=
  t ← get_thread s suggested;
  top_on_suggested_core ← scheduled_top s (m_core_id t);
  if bool_decide (top_on_suggested_core ≠ Some suggested) then
    high ← too_high s top_on_suggested_core;
    s ← (if negb high then migrate_counted core_id suggested false s else mret s);
    mret (inr (suggested, s))
  else mret (inl ()).

Definition YieldToAnyThread : ctx → prog ctx :=
  yield (λ cur cur_thread _ s,
    let core_id := m_core_id cur_thread in
    s ← change_thread cur (KThread_SetActiveCore (-1)) s;
    t ← get_thread s cur;
    Q ← ChangeCore core_id cur t false (m_priority_queue s);
    s ← IncrementScheduledCount cur (set_queue Q s);
    front ← GetScheduledFront (m_priority_queue s) core_id;
    match front with
    | Some _ => mret (SetSchedulerUpdateNeeded s)
    | None =>
        suggested ← GetSuggestedFront (m_priority_queue s) core_id;
        r ← walk (walk_fuel s) (suggested_next s core_id) (any_suggested core_id s) () suggested;
        let '(suggested, s) :=
          match r with inl _ => (None, s) | inr (x, s) => (Some x, s) end in
        if bool_decide (suggested ≠ Some cur) then mret (SetSchedulerUpdateNeeded s)
        else note_yield cur s
    end).
End Scheduler.
