(* ===== verification/SchedulerLemmas.v ===== *)
(** * The invariant of the scheduler

    [sched_rep s L]: the queues of [s] represent the lists [L], every thread that
    is runnable and not a dummy is in the queues its priority, active core and
    affinity say, no other thread is in a queue, and what the state points to
    exists.  Each elementary change of the state is shown to keep it. *)

From S2P Require Import Prelude Common PageBitmap Thread PriorityQueue PriorityQueueLemmas PriorityQueueTheorems PriorityQueueRefinement Scheduler.

(** What the scheduler decides on of a thread and of a process. *)
Definition thread_view (t : KThread) : KThread :=
  MkThread (m_thread_type t) (m_priority t) (m_core_id t) (m_physical_affinity_mask t)
    (m_thread_state t) (m_num_kernel_waiters t) (m_parent t) 0 0 false.
Definition proc_view (p : KProcess) : list (option Z) * nat * nat * nat :=
  (m_pinned_threads p, length (m_running_threads p), length (m_running_thread_idle_counts p),
   length (m_running_thread_switch_counts p)).

Definition runnable (t : KThread) : bool := m_thread_state t =? ThreadState_Runnable.
Definition cores : nat := Z.to_nat NUM_CPU_CORES.

Section Lemmas.
Context {C : Type} `{Clock C}.
Local Abbreviation ctx := (SchedulerContext C).

Definition in_place (x : Z) (t : KThread) (L : Lists) : Prop :=
  if runnable t then at_place x (thread_place t) L else nowhere x L.

Record sched_rep (s : ctx) (L : Lists) : Prop := MkSchedRep {
  sr_rep : rep (m_priority_queue s) L;
  sr_thread x t : ctx_threads s !! x = Some t → KThread_IsDummyThread t = false →
    known (m_priority_queue s) x ∧ thread_ok t ∧ in_place x t L;
  sr_member k p c x : valid_prio p → valid_core c → x ∈ L k p c →
    ∃ t, ctx_threads s !! x = Some t ∧ KThread_IsDummyThread t = false;
  sr_parent x t q : ctx_threads s !! x = Some t → m_parent t = Some q →
    is_Some (ctx_processes s !! q);
  sr_process q p : ctx_processes s !! q = Some p →
    length (m_pinned_threads p) = cores ∧ length (m_running_threads p) = cores ∧
    length (m_running_thread_idle_counts p) = cores ∧
    length (m_running_thread_switch_counts p) = cores ∧
    ∀ c y, m_pinned_threads p !! c = Some (Some y) →
      ∃ t, ctx_threads s !! y = Some t ∧ KThread_IsDummyThread t = false;
  sr_cores : length (ctx_schedulers s) = cores;
  sr_highest c m x : ctx_schedulers s !! c = Some m → highest_priority_thread m = Some x →
    is_Some (ctx_threads s !! x);
  sr_woken x : x ∈ m_woken_dummy_threads s →
    ∃ t, ctx_threads s !! x = Some t ∧ KThread_IsDummyThread t = true;
  sr_current : is_Some (ctx_threads s !! ctx_current s)
}.

(** ** Changes the scheduler does not see *)
Record quiet (s s' : ctx) : Prop := MkQuiet {
  qt_threads x : thread_view <$> ctx_threads s' !! x = thread_view <$> ctx_threads s !! x;
  qt_processes q : proc_view <$> ctx_processes s' !! q = proc_view <$> ctx_processes s !! q;
  qt_queue : m_priority_queue s' = m_priority_queue s;
  qt_highest : highest_priority_thread <$> ctx_schedulers s' = highest_priority_thread <$> ctx_schedulers s;
  qt_woken : m_woken_dummy_threads s' ⊆ m_woken_dummy_threads s;
  qt_current : ctx_current s' = ctx_current s;
  qt_locked : ctx_locked s' = ctx_locked s;
  qt_dispatch : ctx_dispatch_count s' = ctx_dispatch_count s
}.

#[export] Instance quiet_preorder : PreOrder quiet.
Proof.
  split; [by constructor|]. intros s1 s2 s3 [] []. constructor; try (by congruence); try set_solver;
    intros; etrans; eauto.
Qed.

Lemma view_Some {A B} (f : A → B) (o o' : option A) a :
  f <$> o' = f <$> o → o = Some a → ∃ a', o' = Some a' ∧ f a' = f a.
Proof. intros Hf ->. destruct o' as [a'|]; [|done]. exists a'. split; [done|]. by injection Hf. Qed.

Lemma quiet_thread s s' x t :
  quiet s s' → ctx_threads s !! x = Some t →
  ∃ t', ctx_threads s' !! x = Some t' ∧ thread_view t' = thread_view t.
Proof. intros Hq. apply view_Some, (qt_threads _ _ Hq). Qed.

Lemma quiet_thread_back s s' x t' :
  quiet s s' → ctx_threads s' !! x = Some t' →
  ∃ t, ctx_threads s !! x = Some t ∧ thread_view t' = thread_view t.
Proof.
  intros Hq Ht. destruct (view_Some thread_view (ctx_threads s' !! x) (ctx_threads s !! x) t') as (t & ? & ?); eauto.
  symmetry. apply (qt_threads _ _ Hq).
Qed.

Lemma quiet_process_back s s' q p' :
  quiet s s' → ctx_processes s' !! q = Some p' →
  ∃ p, ctx_processes s !! q = Some p ∧ proc_view p' = proc_view p.
Proof.
  intros Hq Ht. destruct (view_Some proc_view (ctx_processes s' !! q) (ctx_processes s !! q) p') as (t & ? & ?); eauto.
  symmetry. apply (qt_processes _ _ Hq).
Qed.

(** What follows from equal views. *)
Lemma view_facts t t' :
  thread_view t' = thread_view t →
  m_thread_type t' = m_thread_type t ∧ m_priority t' = m_priority t ∧ m_core_id t' = m_core_id t ∧
  m_physical_affinity_mask t' = m_physical_affinity_mask t ∧ m_thread_state t' = m_thread_state t ∧
  m_num_kernel_waiters t' = m_num_kernel_waiters t ∧ m_parent t' = m_parent t.
Proof. unfold thread_view. intros [=]. done. Qed.

Lemma view_dummy t t' : thread_view t' = thread_view t → KThread_IsDummyThread t' = KThread_IsDummyThread t.
Proof. intros (E & _)%view_facts. unfold KThread_IsDummyThread. by rewrite E. Qed.

Lemma view_place t t' : thread_view t' = thread_view t →
  thread_place t' = thread_place t ∧ runnable t' = runnable t ∧ (thread_ok t ↔ thread_ok t').
Proof.
  intros (_ & Ep & Ec & Ea & Es & _)%view_facts. unfold thread_place, runnable, thread_ok.
  by rewrite Ep, Ec, Ea, Es.
Qed.

Lemma quiet_rep s s' L : quiet s s' → sched_rep s L → sched_rep s' L.
Proof.
  intros Hq [H1 H2 H3 H4 H5 H6 H7 H8 H9]. pose proof (quiet_thread s s') as Hf.
  pose proof (quiet_thread_back s s') as Hb. constructor.
  - by rewrite (qt_queue _ _ Hq).
  - intros x t' Ht' Hd. destruct (Hb x t' Hq Ht') as (t & Ht & Hv). rewrite (view_dummy _ _ Hv) in Hd.
    rewrite (qt_queue _ _ Hq). unfold in_place. destruct (view_place _ _ Hv) as (-> & -> & <-).
    by apply H2.
  - intros k p c x Hp Hc Hin. destruct (H3 k p c x Hp Hc Hin) as (t & Ht & Hd).
    destruct (Hf x t Hq Ht) as (t' & Ht' & Hv). exists t'. by rewrite (view_dummy _ _ Hv).
  - intros x t' q Ht' Hpar. destruct (Hb x t' Hq Ht') as (t & Ht & Hv).
    apply view_facts in Hv as (_ & _ & _ & _ & _ & _ & Ep). rewrite Ep in Hpar.
    destruct (H4 x t q Ht Hpar) as [p Hp]. pose proof (qt_processes _ _ Hq q) as Hp'. rewrite Hp in Hp'.
    destruct (ctx_processes s' !! q); [by eexists|done].
  - intros q p' Hp'. destruct (quiet_process_back s s' q p' Hq Hp') as (p & Hp & Hv).
    destruct (H5 q p Hp) as (L1 & L2 & L3 & L4 & Hpin). unfold proc_view in Hv. injection Hv as E1 E2 E3 E4.
    rewrite E1, E2, E3, E4. split_and!; [done..|]. intros c y Hy.
    destruct (Hpin c y Hy) as (t & Ht & Hd). destruct (Hf y t Hq Ht) as (t' & Ht' & Hv).
    exists t'. by rewrite (view_dummy _ _ Hv).
  - rewrite <- H6, <- (length_fmap highest_priority_thread), (qt_highest _ _ Hq). apply length_fmap.
  - intros c m' x Hm' Hh. pose proof (qt_highest _ _ Hq) as Eh.
    apply (f_equal (λ l, l !! c)) in Eh. rewrite !list_lookup_fmap, Hm' in Eh. cbn in Eh.
    destruct (ctx_schedulers s !! c) as [m|] eqn:Em; [|done]. injection Eh as Eh. rewrite Hh in Eh.
    destruct (H7 c m x Em (eq_sym Eh)) as [t Ht]. destruct (Hf x t Hq Ht) as (t' & ? & _). by eexists.
  - intros x Hx. apply (qt_woken _ _ Hq) in Hx. destruct (H8 x Hx) as (t & Ht & Hd).
    destruct (Hf x t Hq Ht) as (t' & Ht' & Hv). exists t'. by rewrite (view_dummy _ _ Hv).
  - rewrite (qt_current _ _ Hq). destruct H9 as [t Ht]. destruct (Hf _ t Hq Ht) as (t' & ? & _). by eexists.
Qed.

Lemma quiet_change_thread s x t f :
  ctx_threads s !! x = Some t → thread_view (f t) = thread_view t →
  quiet s (set_threads (<[x := f t]> (ctx_threads s)) s).
Proof.
  intros Ht Hv. constructor; try done. intros y. cbn [set_threads ctx_threads].
  destruct (decide (y = x)) as [->|]; [|by rewrite lookup_insert_ne].
  rewrite lookup_insert_eq, Ht. cbn. by rewrite Hv.
Qed.

Lemma quiet_set_process s q p p' :
  ctx_processes s !! q = Some p → proc_view p' = proc_view p →
  quiet s (set_processes (<[q := p']> (ctx_processes s)) s).
Proof.
  intros Hp Hv. constructor; try done. intros q'. cbn [set_processes ctx_processes].
  destruct (decide (q' = q)) as [->|]; [|by rewrite lookup_insert_ne].
  rewrite lookup_insert_eq, Hp. cbn. by rewrite Hv.
Qed.

Lemma quiet_update_needed s b : quiet s (set_update_needed b s).
Proof. by constructor. Qed.
Lemma quiet_clock s c : quiet s (set_clock c s).
Proof. by constructor. Qed.

Lemma get_thread_run (s : ctx) x t : ctx_threads s !! x = Some t → get_thread s x = Done true t.
Proof. intros Ht. unfold get_thread, deref. by rewrite Ht. Qed.

Lemma change_thread_run (s : ctx) x t f :
  ctx_threads s !! x = Some t →
  change_thread x f s = Done true (set_threads (<[x := f t]> (ctx_threads s)) s).
Proof. intros Ht. unfold change_thread. rewrite (get_thread_run _ _ t) by done. by pstep. Qed.

Lemma IncrementScheduledCount_run (s : ctx) L x t :
  sched_rep s L → ctx_threads s !! x = Some t →
  ∃ ps, IncrementScheduledCount x s = Done true (set_processes ps s) ∧ quiet s (set_processes ps s).
Proof.
  intros HS Ht. unfold IncrementScheduledCount. rewrite (get_thread_run _ _ t) by done. pstep.
  destruct (m_parent t) as [q|] eqn:Eq.
  - destruct (sr_parent _ _ HS x t q Ht Eq) as [p Hp]. unfold get_process, deref. rewrite Hp. pstep.
    eexists. split; [done|]. by apply quiet_set_process with (p := p).
  - exists (ctx_processes s). split; [by destruct s|by constructor].
Qed.

(** ** A request for a changed thread *)
Definition same_rest (s s' : ctx) : Prop :=
  ctx_processes s' = ctx_processes s ∧
  highest_priority_thread <$> ctx_schedulers s' = highest_priority_thread <$> ctx_schedulers s ∧
  m_woken_dummy_threads s' = m_woken_dummy_threads s ∧ ctx_current s' = ctx_current s.

Lemma others_member x L L' y k p c : others x L L' → y ∈ L' k p c → y = x ∨ y ∈ L k p c.
Proof.
  intros Ho Hy. destruct (decide (y = x)); [by left|right]. by apply (others_elem x L L').
Qed.

Lemma in_place_others x L L' y t : others x L L' → y ≠ x → in_place y t L → in_place y t L'.
Proof.
  intros Ho Hy. unfold in_place. destruct (runnable t).
  - by apply (others_at_place x).
  - by apply (others_nowhere x).
Qed.

Lemma sched_rep_change (s s' : ctx) L L' x t t' :
  sched_rep s L → ctx_threads s !! x = Some t → m_thread_type t' = m_thread_type t →
  m_parent t' = m_parent t → KThread_IsDummyThread t = false →
  ctx_threads s' = <[x := t']> (ctx_threads s) → same_rest s s' →
  rep (m_priority_queue s') L' → (∀ y, known (m_priority_queue s) y → known (m_priority_queue s') y) →
  others x L L' → thread_ok t' → in_place x t' L' → sched_rep s' L'.
Proof.
  intros HS Ht Hty Hpa Hd Hts (Hps & Hsch & Hwk & Hcur) HR HK Ho Hok Hin.
  assert (KThread_IsDummyThread t' = false) as Hd' by (unfold KThread_IsDummyThread; by rewrite Hty).
  assert (∀ y, is_Some (ctx_threads s !! y) → is_Some (ctx_threads s' !! y)) as Hsome.
  { intros y Hy. rewrite Hts. destruct (decide (y = x)) as [->|];
      [rewrite lookup_insert_eq|rewrite lookup_insert_ne]; eauto. }
  assert (∀ y b, (∃ u, ctx_threads s !! y = Some u ∧ KThread_IsDummyThread u = b) →
    ∃ u, ctx_threads s' !! y = Some u ∧ KThread_IsDummyThread u = b) as Hdum.
  { intros y b (u & Hu & Hb). rewrite Hts. destruct (decide (y = x)) as [->|].
    - rewrite lookup_insert_eq. exists t'. split; [done|]. congruence.
    - rewrite lookup_insert_ne by done. eauto. }
  constructor.
  - done.
  - intros y u. rewrite Hts. destruct (decide (y = x)) as [->|].
    + rewrite lookup_insert_eq. intros [= <-] _. split_and!; [|done|done]. by apply HK, (sr_thread _ _ HS x t).
    + rewrite lookup_insert_ne by done. intros Hu Hdu. destruct (sr_thread _ _ HS y u Hu Hdu) as (? & ? & ?).
      split_and!; [by apply HK|done|]. by apply (in_place_others x L).
  - intros k p c y Hp Hc [->|Hy]%(others_member x L L'); [apply Hdum; eauto| |done].
    apply Hdum, (sr_member _ _ HS k p c y Hp Hc Hy).
  - intros y u q. rewrite Hts, Hps. destruct (decide (y = x)) as [->|].
    + rewrite lookup_insert_eq. intros [= <-]. rewrite Hpa. by apply (sr_parent _ _ HS x t).
    + rewrite lookup_insert_ne by done. apply (sr_parent _ _ HS).
  - intros q p. rewrite Hps. intros Hp. destruct (sr_process _ _ HS q p Hp) as (? & ? & ? & ? & Hpin).
    split_and!; [done..|]. intros c y Hy. apply Hdum, (Hpin c y Hy).
  - rewrite <- (sr_cores _ _ HS), <- (length_fmap highest_priority_thread), Hsch. apply length_fmap.
  - intros c m y Hm Hh. apply Hsome. apply (f_equal (λ l, l !! c)) in Hsch.
    rewrite !list_lookup_fmap, Hm in Hsch. cbn in Hsch.
    destruct (ctx_schedulers s !! c) as [m0|] eqn:Em; [|done]. apply (sr_highest _ _ HS c m0 y Em).
    injection Hsch as Hsch. congruence.
  - intros y. rewrite Hwk. intros Hy. apply Hdum, (sr_woken _ _ HS y Hy).
  - rewrite Hcur. apply Hsome, (sr_current _ _ HS).
Qed.

(** The thread [x] becomes [t'], and the queues are told by the request [r]. *)
Lemma request_sched r (s : ctx) L x t t' :
  sched_rep s L → ctx_threads s !! x = Some t → m_thread_type t' = m_thread_type t →
  m_parent t' = m_parent t → KThread_IsDummyThread t = false → thread_ok t' →
  request_pre r x t' L → runnable t' = negb (bool_decide (r = RqRemove)) →
  ∃ Q', request_run r x t' (m_priority_queue s) = Done true Q' ∧
    ∀ s' : ctx, m_priority_queue s' = Q' → ctx_threads s' = <[x := t']> (ctx_threads s) →
      same_rest s s' → sched_rep s' (request_lists r x t' L).
Proof.
  intros HS Ht Hty Hpa Hd Hok Hpre Hrun.
  destruct (request_run_spec r x t' (m_priority_queue s) L) as (Q' & E & HR' & HK).
  - apply (sr_rep _ _ HS).
  - by apply (sr_thread _ _ HS x t).
  - unfold KThread_IsDummyThread. by rewrite Hty.
  - done.
  - done.
  - exists Q'. split; [done|]. intros s' HQ Hts Hrest.
    eapply (sched_rep_change s s' L _ x t t'); [done..|by rewrite HQ|by rewrite HQ|apply request_others|done|].
    unfold in_place. rewrite Hrun. case_bool_decide as Hr; cbn [negb].
    + subst. apply request_gone.
    + by apply request_place.
Qed.

(** ** Threads in the queues *)
Lemma flat_member (s : ctx) L k c x :
  sched_rep s L → valid_core c → x ∈ flat L k c →
  ∃ t, ctx_threads s !! x = Some t ∧ KThread_IsDummyThread t = false ∧ runnable t = true ∧
    thread_ok t ∧ valid_prio (m_priority t) ∧ at_place x (thread_place t) L ∧
    x ∈ L k (m_priority t) c ∧
    match k with
    | Scheduled => m_core_id t = c
    | Suggested => m_core_id t ≠ c ∧ Z.testbit (m_physical_affinity_mask t) c = true
    end.
Proof.
  intros HS Hc (p & Hp & Hin)%elem_of_flat. destruct (sr_member _ _ HS k p c x Hp Hc Hin) as (t & Ht & Hd).
  destruct (sr_thread _ _ HS x t Ht Hd) as (_ & Hok & Hpl). unfold in_place in Hpl. exists t.
  destruct (runnable t) eqn:Er; [|by destruct (Hpl k p c Hp Hc)].
  pose proof (proj1 (Hpl k p c Hp Hc) Hin) as Hplace. pose proof (place_prio _ _ _ _ _ _ Hplace) as ->.
  split_and!; [done..|]. unfold thread_place, place in Hplace. rewrite Z.eqb_refl in Hplace.
  destruct k; cbn [andb] in Hplace; [by apply Z.eqb_eq in Hplace|].
  apply andb_true_iff in Hplace as [? Hne]. apply negb_true_iff, Z.eqb_neq in Hne. done.
Qed.

Lemma flat_fuel (s : ctx) L k c :
  sched_rep s L → valid_core c → (length (flat L k c) ≤ walk_fuel s)%nat.
Proof.
  intros HS Hc. unfold walk_fuel. rewrite <- size_dom.
  pose proof (flat_NoDup _ L k c (sr_rep _ _ HS) Hc) as Hnd.
  rewrite <- (size_list_to_set (C := gset Z)) by done. apply subseteq_size. intros x.
  rewrite elem_of_list_to_set. intros Hin. destruct (flat_member s L k c x HS Hc Hin) as (t & Ht & _).
  by apply elem_of_dom_2 in Ht.
Qed.

Lemma in_place_member s L x t k c :
  sched_rep s L → ctx_threads s !! x = Some t → valid_core c → valid_prio (m_priority t) →
  KThread_IsDummyThread t = false → runnable t = true → thread_place t k (m_priority t) c = true →
  x ∈ flat L k c.
Proof.
  intros HS Ht Hc Hp Hd Hr Hpl. destruct (sr_thread _ _ HS x t Ht Hd) as (_ & _ & Hat).
  unfold in_place in Hat. rewrite Hr in Hat. apply elem_of_flat. exists (m_priority t). split; [done|].
  by apply Hat.
Qed.

(** The successor of a thread in a queue of its core. *)
Lemma sched_next s L k c l1 x l2 t :
  sched_rep s L → valid_core c → flat L k c = l1 ++ x :: l2 → ctx_threads s !! x = Some t →
  KPriorityQueueImpl_GetNext (pq_impl k (m_priority_queue s)) c x (m_priority t)
    (pq_entries (m_priority_queue s)) = Done true (head l2).
Proof.
  intros HS Hc Hf Ht. eapply GetNext_run; [apply (sr_rep _ _ HS)|done..|]. intros p Hp Hin.
  destruct (flat_member s L k c x HS Hc) as (t' & Ht' & _ & _ & _ & _ & Hat & Hin' & _).
  { rewrite Hf. set_solver. }
  assert (t' = t) as -> by congruence. symmetry. eapply place_prio. by apply Hat.
Qed.

Lemma suggested_next_run s L c l1 x l2 :
  sched_rep s L → valid_core c → flat L Suggested c = l1 ++ x :: l2 →
  suggested_next s c x = Done true (head l2).
Proof.
  intros HS Hc Hf. destruct (flat_member s L Suggested c x HS Hc) as (t & Ht & _).
  { rewrite Hf. set_solver. }
  unfold suggested_next, GetSuggestedNext. rewrite (get_thread_run _ _ t) by done. pstep.
  by apply (sched_next s L Suggested c l1 x l2 t).
Qed.

Lemma GetScheduledFront_run s L c :
  sched_rep s L → valid_core c →
  GetScheduledFront (m_priority_queue s) c = Done true (head (flat L Scheduled c)).
Proof. intros HS Hc. apply (impl_GetFront_run _ L Scheduled); [apply (sr_rep _ _ HS)|done]. Qed.

Lemma GetSuggestedFront_run s L c :
  sched_rep s L → valid_core c →
  GetSuggestedFront (m_priority_queue s) c = Done true (head (flat L Suggested c)).
Proof. intros HS Hc. apply (impl_GetFront_run _ L Suggested); [apply (sr_rep _ _ HS)|done]. Qed.
End Lemmas.

(** ** Walking along a list *)
Lemma walk_run {A R} (I : list Z → A → Prop) (P : R → Prop) next body l : ∀ done_ fuel a,
  (length l ≤ fuel)%nat →
  (∀ l1 x l2, done_ ++ l = l1 ++ x :: l2 → length done_ ≤ length l1 → next x = Done true (head l2))%nat →
  (∀ l1 x l2 a, done_ ++ l = l1 ++ x :: l2 → I l1 a →
     wp (body a x) (λ r, match r with inl a => I (l1 ++ [x]) a | inr r => P r end)) →
  I done_ a →
  wp (walk fuel next body a (head l)) (λ r, match r with inl a => I (done_ ++ l) a | inr r => P r end).
Proof.
  induction l as [|x l IH]; intros done_ fuel a Hfuel Hnext Hbody Ha.
  { destruct fuel; cbn; by rewrite app_nil_r. }
  destruct fuel as [|fuel]; cbn in Hfuel; [lia|]. cbn [walk head]. apply wp_bind.
  eapply wp_mono; [by apply (Hbody done_ x l)|]. intros [a'|r] Hr; [|by apply wp_ret].
  rewrite (Hnext done_ x l), bind_Done_true by done.
  specialize (IH (done_ ++ [x]) fuel a'). rewrite <- app_assoc in IH. cbn [app] in IH.
  apply IH; [lia| |done|done]. intros l1 y l2 Hl Hlen. apply (Hnext l1 y l2 Hl).
  rewrite length_app in Hlen. lia.
Qed.
