(* ===== verification/SchedulerSelect.v ===== *)
(** Lemmas about the selection of threads. *)

From S2P Require Import Prelude Common PageBitmap PageBitmapLemmas PageBitmapTheorems Thread PriorityQueue PriorityQueueLemmas PriorityQueueTheorems PriorityQueueRefinement Scheduler SchedulerLemmas.

(** * Choosing the threads to run

    The runs of UpdateHighestPriorityThread, of migrations, and of
    UpdateHighestPriorityThreadsImpl: which thread is selected for each core. *)

Section Update.
Context {C : Type} `{Clock C}.
Local Abbreviation ctx := (SchedulerContext C).

Definition highest_of (s : ctx) : list (option Z) := highest_priority_thread <$> ctx_schedulers s.

(** Quiet, with the schedulers as they were. *)
Definition still (s s' : ctx) : Prop :=
  quiet s s' ∧ ctx_schedulers s' = ctx_schedulers s ∧
  m_scheduler_update_needed s' = m_scheduler_update_needed s.

(** Quiet but for the selected threads. *)
Definition nearly (s s' : ctx) : Prop :=
  quiet s (set_schedulers (ctx_schedulers s) s') ∧
  m_scheduler_update_needed s' = m_scheduler_update_needed s.

Lemma still_refl s : still s s.
Proof. by split_and!. Qed.

Lemma still_trans s1 s2 s3 : still s1 s2 → still s2 s3 → still s1 s3.
Proof. intros (? & ? & ?) (? & ? & ?). split_and!; [by etrans|congruence..]. Qed.

Lemma nearly_rep s s' L :
  nearly s s' → length (ctx_schedulers s') = cores →
  (∀ c m x, ctx_schedulers s' !! c = Some m → highest_priority_thread m = Some x →
     is_Some (ctx_threads s' !! x)) →
  sched_rep s L → sched_rep s' L.
Proof.
  intros [Hq _] Hlen Hh HS. apply (quiet_rep _ _ L Hq) in HS as [H1 H2 H3 H4 H5 _ _ H8 H9]. by constructor.
Qed.

Lemma count_still (s : ctx) L x t :
  sched_rep s L → ctx_threads s !! x = Some t →
  ∃ s', IncrementScheduledCount x s = Done true s' ∧ still s s'.
Proof.
  intros HS Ht. destruct (IncrementScheduledCount_run s L x t HS Ht) as (ps & E & Hq).
  exists (set_processes ps s). by split_and!.
Qed.

Lemma still_rep s s' L : still s s' → sched_rep s L → sched_rep s' L.
Proof. intros (Hq & _). by apply quiet_rep. Qed.

Lemma still_some s s' x : still s s' → is_Some (ctx_threads s !! x) → is_Some (ctx_threads s' !! x).
Proof. intros (Hq & _) [t Ht]. destruct (quiet_thread s s' x t Hq Ht) as (t' & ? & _). by eexists. Qed.

Lemma cores_eq : Z.of_nat cores = NumCores.
Proof. done. Qed.

Lemma SetRunningThread_run (s : ctx) L q p c thread idle switches :
  sched_rep s L → ctx_processes s !! q = Some p → valid_core c →
  ∃ p', KProcess_SetRunningThread p c thread idle switches = Done true p' ∧ proc_view p' = proc_view p.
Proof.
  intros HS Hp [Hc0 Hc]. destruct (sr_process _ _ HS q p Hp) as (_ & E1 & E2 & E3 & _).
  rewrite <- cores_eq in Hc. unfold KProcess_SetRunningThread. rewrite !arr_set_run by lia. pstep.
  eexists. split; [done|]. unfold proc_view. cbn. by rewrite !length_insert.
Qed.

(** The scheduling count and the last tick of the thread that was selected. *)
Lemma leave_run (s : ctx) L prev :
  sched_rep s L → (∀ x, prev = Some x → is_Some (ctx_threads s !! x)) →
  ∃ s', (match prev with
         | Some x =>
             s ← IncrementScheduledCount x s;
             let '(ticks, clock) := GetClockTicks (ctx_clock s) in
             change_thread x (KThread_SetLastScheduledTick ticks) (set_clock clock s)
         | None => mret s
         end) = Done true s' ∧ still s s'.
Proof.
  intros HS Hx. destruct prev as [x|]; [|exists s; split; [done|apply still_refl]].
  destruct (Hx x eq_refl) as [t Ht]. destruct (count_still s L x t HS Ht) as (s1 & -> & Hs1). pstep.
  destruct (GetClockTicks (ctx_clock s1)) as [ticks clock].
  destruct (still_some s s1 x Hs1 ltac:(by eexists)) as [t1 Ht1].
  rewrite (change_thread_run _ x t1) by done. eexists. split; [done|].
  eapply still_trans; [exact Hs1|]. split_and!; [|done|done].
  etrans; [apply (quiet_clock s1 clock)|]. by apply quiet_change_thread.
Qed.

Lemma enter_run (s : ctx) L c m thread :
  sched_rep s L → valid_core c → (∀ x, thread = Some x → is_Some (ctx_threads s !! x)) →
  ∃ count s', (if should_count_idle m then
       match thread with
       | Some x =>
           t ← get_thread s x;
           match m_parent t with
           | Some process =>
               p ← get_process s process;
               p ← KProcess_SetRunningThread p c thread (idle_count m) 0;
               mret (idle_count m, set_processes (<[process := p]> (ctx_processes s)) s)
           | None => mret (idle_count m, s)
           end
       | None => mret (u64 (idle_count m + 1), s)
       end
     else mret (idle_count m, s)) = Done true (count, s') ∧ still s s'.
Proof.
  intros HS Hc Hx. destruct (should_count_idle m); [|eexists _, s; split; [done|apply still_refl]].
  destruct thread as [x|]; [|eexists _, s; split; [done|apply still_refl]].
  destruct (Hx x eq_refl) as [t Ht]. rewrite (get_thread_run _ _ t) by done. pstep.
  destruct (m_parent t) as [q|] eqn:Eq; [|eexists _, s; split; [done|apply still_refl]].
  destruct (sr_parent _ _ HS x t q Ht Eq) as [p Hp]. unfold get_process, deref. rewrite Hp. pstep.
  destruct (SetRunningThread_run s L q p c (Some x) (idle_count m) 0 HS Hp Hc) as (p' & E & Hv).
  rewrite E. pstep. eexists _, _. split; [done|]. split_and!; [|done|done].
  by apply quiet_set_process with (p := p).
Qed.

Lemma UpdateHighestPriorityThread_run (s : ctx) L c thread :
  sched_rep s L → valid_core c → (∀ x, thread = Some x → is_Some (ctx_threads s !! x)) →
  ∃ mask s', UpdateHighestPriorityThread c thread s = Done true (mask, s') ∧
    nearly s s' ∧ highest_of s' = <[Z.to_nat c := thread]> (highest_of s) ∧ sched_rep s' L ∧
    mask = (if decide (highest_of s !! Z.to_nat c = Some thread) then 0 else Z.shiftl 1 c).
Proof.
  intros HS Hc Hx. pose proof Hc as [Hc0 Hc4].
  destruct (lookup_lt_is_Some_2 (ctx_schedulers s) (Z.to_nat c)) as [m Hm].
  { rewrite (sr_cores _ _ HS). rewrite <- cores_eq in Hc4. lia. }
  unfold UpdateHighestPriorityThread. rewrite (arr_get_run _ _ m) by done. pstep.
  unfold highest_of. rewrite list_lookup_fmap, Hm. cbn [fmap option_fmap option_map].
  case_bool_decide as He.
  { exists 0, s. rewrite decide_True by congruence. split_and!; [done| | |done|done].
    - split; [|done]. destruct s. constructor; done.
    - rewrite list_insert_id; [done|]. rewrite list_lookup_fmap, Hm. cbn. congruence. }
  rewrite decide_False by congruence.
  destruct (leave_run s L (highest_priority_thread m) HS) as (s1 & E1 & St1).
  { intros x Hh. by apply (sr_highest _ _ HS (Z.to_nat c) m). }
  rewrite E1. pstep. pose proof (still_rep s s1 L St1 HS) as HS1.
  destruct (enter_run s1 L c m thread HS1 Hc) as (count & s2 & E2 & St2).
  { intros x Ex. by apply (still_some s), Hx. }
  rewrite E2. pstep. pose proof (still_rep s1 s2 L St2 HS1) as HS2.
  pose proof (still_trans _ _ _ St1 St2) as (Hq & Hsch & Hup).
  rewrite (arr_set_some _ _ m) by (done || by rewrite Hsch). pstep. eexists _, _. split; [done|].
  assert (nearly s (set_schedulers
    (<[Z.to_nat c := MkSched true (interrupt_task_runnable m) (should_count_idle m) count thread
        (prev_thread m)]> (ctx_schedulers s2)) s2)) as Hn.
  { split; [|done]. destruct Hq as [Q1 Q2 Q3 Q4 Q5 Q6 Q7 Q8]. by constructor. }
  split_and!; [done| | |].
  - cbn [set_schedulers ctx_schedulers]. by rewrite list_fmap_insert, Hsch.
  - eapply (nearly_rep s); [done| | |done]; cbn [set_schedulers ctx_schedulers ctx_threads].
    + rewrite length_insert, Hsch. apply (sr_cores _ _ HS).
    + intros c' m' x Hm' Hh. apply list_lookup_insert_Some in Hm' as [(<- & <- & _)|(_ & Hm')].
      * cbn in Hh. apply (still_some s); [by eapply still_trans|]. by apply Hx.
      * apply (sr_highest _ _ HS2 c' m' x Hm' Hh).
  - rewrite u64_id; [done|]. unfold is_u64. rewrite Z.shiftl_mul_pow2, Z.mul_1_l by done.
    unfold NumCores, NUM_CPU_CORES in Hc4.
    split; [apply Z.pow_nonneg; lia|apply Z.pow_lt_mono_r; lia].
Qed.

(** ** Moving a thread to another core *)
Lemma filter_flat_from L L' k c (P : Z → Prop) `{!∀ x, Decision (P x)} n p :
  (∀ p, valid_prio p → L' k p c = filter P (L k p c)) → 0 ≤ p → p + Z.of_nat n ≤ NumPriority →
  flat_from L' k c n p = filter P (flat_from L k c n p).
Proof.
  intros HL. revert p. induction n as [|n IH]; intros p Hp Hn; [done|]. cbn [flat_from].
  rewrite filter_app, HL, IH by (unfold valid_prio; lia). done.
Qed.

Lemma filter_flat L L' k c (P : Z → Prop) `{!∀ x, Decision (P x)} :
  (∀ p, valid_prio p → L' k p c = filter P (L k p c)) → flat L' k c = filter P (flat L k c).
Proof. intros HL. by apply filter_flat_from. Qed.

Lemma flat_from_same L L' k c n p :
  (∀ p, valid_prio p → L' k p c = L k p c) → 0 ≤ p → p + Z.of_nat n ≤ NumPriority →
  flat_from L' k c n p = flat_from L k c n p.
Proof.
  intros HL. revert p. induction n as [|n IH]; intros p Hp Hn; [done|]. cbn [flat_from].
  rewrite HL, IH by (unfold valid_prio; lia). done.
Qed.

Lemma flat_same L L' k c : (∀ p, valid_prio p → L' k p c = L k p c) → flat L' k c = flat L k c.
Proof. intros HL. by apply flat_from_same. Qed.

Lemma NoDup_single (x : Z) l : NoDup l → (∀ y, y ∈ l ↔ y = x) → l = [x].
Proof.
  intros Hnd Hl. destruct l as [|a [|b l]].
  - pose proof (proj2 (Hl x) eq_refl) as Hx. by apply not_elem_of_nil in Hx.
  - assert (a = x) as -> by (apply Hl; set_solver). done.
  - assert (a = x) as -> by (apply Hl; set_solver). assert (b = x) as -> by (apply Hl; set_solver).
    apply NoDup_cons in Hnd as [[] _]. left.
Qed.

Lemma head_filter_ne (x : Z) l : head l ≠ Some x → head (filter (λ y, y ≠ x) l) = head l.
Proof. destruct l as [|a l]; [done|]. cbn [head]. intros Hne. rewrite filter_cons_True by congruence. done. Qed.

Section Move.
Context (s : ctx) (L : Lists) (x : Z) (t : KThread) (c : Z) (front : bool).
Hypotheses (HS : sched_rep s L) (Ht : ctx_threads s !! x = Some t) (Hc : valid_core c).
Hypothesis (Hx : x ∈ flat L Suggested c).

Definition moved : Lists := change_core x (m_priority t) (m_core_id t) c front L.
Definition moved_thread : KThread := KThread_SetActiveCore c t.

Lemma moved_facts :
  KThread_IsDummyThread t = false ∧ runnable t = true ∧ thread_ok t ∧ valid_prio (m_priority t) ∧
  at_place x (thread_place t) L ∧ m_core_id t ≠ c ∧ Z.testbit (m_physical_affinity_mask t) c = true.
Proof.
  destruct (flat_member s L Suggested c x HS Hc Hx) as (t' & Ht' & Hd & Hr & Hok & Hp & Hat & _ & Hne & Ha).
  assert (t' = t) as -> by congruence. done.
Qed.

Lemma ChangeCore_sched : ∃ Q',
  ChangeCore (m_core_id t) x moved_thread front (m_priority_queue s) = Done true Q' ∧
  ∀ s', m_priority_queue s' = Q' → ctx_threads s' = <[x := moved_thread]> (ctx_threads s) →
    same_rest s s' → sched_rep s' moved.
Proof.
  destruct moved_facts as (Hd & Hr & [Hp Hcore Ha Hact] & Hpv & Hat & Hne & Hbit).
  destruct Hc as [Hc0 Hc4].
  destruct (request_sched (RqCore (m_core_id t) front) s L x t moved_thread HS Ht)
    as (Q' & E & Hs'); [done..| | |by rewrite bool_decide_false|].
  - constructor; cbn; [done|lia|done|done].
  - split; [by constructor|exact Hat].
  - exists Q'. split; [exact E|exact Hs'].
Qed.

Lemma migrate_run : ∃ s', migrate c x front s = Done true s' ∧ sched_rep s' moved ∧
  s' = set_queue (m_priority_queue s') (set_threads (<[x := moved_thread]> (ctx_threads s)) s).
Proof.
  destruct ChangeCore_sched as (Q' & E & Hs'). unfold migrate.
  rewrite (get_thread_run _ _ t), bind_Done_true, (change_thread_run _ x t), bind_Done_true by done.
  rewrite (get_thread_run _ _ moved_thread), bind_Done_true by apply lookup_insert_eq.
  cbn [set_threads m_priority_queue]. unfold moved_thread in *. rewrite E. pstep. eexists. split; [done|].
  split; [|done]. by apply Hs'.
Qed.

(** The scheduled queues after the move. *)
Lemma moved_other c' : c' ≠ c → c' ≠ m_core_id t → flat moved Scheduled c' = flat L Scheduled c'.
Proof.
  intros H1 H2. apply flat_same. intros p Hp. unfold moved, change_core.
  rewrite (proj2 (Z.eqb_neq c' c)), (proj2 (Z.eqb_neq c' _)) by done. by destruct (_ || _).
Qed.

Lemma moved_prev : valid_core (m_core_id t) →
  flat moved Scheduled (m_core_id t) = filter (λ y, y ≠ x) (flat L Scheduled (m_core_id t)).
Proof.
  destruct moved_facts as (_ & _ & _ & Hpv & Hat & Hne & _). intros Hv. apply filter_flat. intros p Hp.
  unfold moved, change_core. rewrite (proj2 (Z.eqb_neq (m_core_id t) c)), orb_false_r, Z.eqb_refl by done.
  destruct (p =? m_priority t) eqn:Ep; [done|]. cbn [negb]. symmetry. apply filter_keep. intros Hin.
  apply Hat in Hin; [|done..]. unfold thread_place, place in Hin. by rewrite Ep in Hin.
Qed.

Lemma moved_new Q : rep Q moved →
  flat L Scheduled c = [] → flat moved Scheduled c = [x].
Proof.
  destruct moved_facts as (_ & _ & _ & Hpv & _ & Hne & _). intros HR Hempty.
  apply NoDup_single; [by eapply flat_NoDup|]. intros y. rewrite elem_of_flat.
  assert (∀ p, valid_prio p → L Scheduled p c = []) as Hnil.
  { intros p Hp. destruct (L Scheduled p c) as [|z l] eqn:El; [done|].
    assert (z ∈ flat L Scheduled c) as Hz by (apply elem_of_flat; exists p; rewrite El; set_solver).
    rewrite Hempty in Hz. by apply not_elem_of_nil in Hz. }
  split.
  - intros (p & Hp & Hin). revert Hin. unfold moved, change_core. rewrite Hnil, Z.eqb_refl by done.
    destruct (_ || _); [by intros ?%not_elem_of_nil|]. destruct front; cbn; by intros ?%list_elem_of_singleton.
  - intros ->. exists (m_priority t). split; [done|]. unfold moved, change_core.
    rewrite !Z.eqb_refl, (proj2 (Z.eqb_neq (m_core_id t) c)) by done. cbn. destruct front; set_solver.
Qed.
End Move.
End Update.

(** * UpdateHighestPriorityThreadsImpl

    The invariant of its loops: each core has the front of its scheduled queue
    selected, or is held by a pinned thread; no thread is selected twice; the
    cores whose selection changed are marked. *)

Section Select.
Context {C : Type} `{Clock C}.
Local Abbreviation ctx := (SchedulerContext C).

(** A pinned thread is bound to its core (KThread::Pin). *)
Definition pins_ok (s : ctx) : Prop := ∀ q p c y t,
  ctx_processes s !! q = Some p → m_pinned_threads p !! c = Some (Some y) →
  ctx_threads s !! y = Some t → m_physical_affinity_mask t = Z.shiftl 1 (Z.of_nat c).

(** A process has a thread pinned on the core: it runs there, or nothing does. *)
Definition pin_choice (s : ctx) (c : Z) (o : option Z) : Prop := ∃ q p y t,
  ctx_processes s !! q = Some p ∧ m_pinned_threads p !! Z.to_nat c = Some (Some y) ∧
  ctx_threads s !! y = Some t ∧ KThread_IsDummyThread t = false ∧
  o = if runnable t then Some y else None.

Definition top_ok (s : ctx) (L : Lists) (c : Z) (o : option Z) : Prop :=
  o = head (flat L Scheduled c) ∨ pin_choice s c o.

(** A selected thread is runnable, and bound to the core or active on it. *)
Definition selected_ok (t : KThread) (c : Z) : Prop :=
  runnable t = true ∧ KThread_IsDummyThread t = false ∧
  (m_core_id t = c ∨ m_physical_affinity_mask t = Z.shiftl 1 c).

Lemma top_selected (s : ctx) L c x :
  sched_rep s L → pins_ok s → valid_core c → top_ok s L c (Some x) →
  ∃ t, ctx_threads s !! x = Some t ∧ selected_ok t c.
Proof.
  intros HS Hpin Hc [Hh|(q & p & y & t & Hq & Hy & Ht & Hd & Ho)].
  - destruct (flat_member s L Scheduled c x HS Hc) as (t & Ht & Hd & Hr & _ & _ & _ & _ & Hcore).
    { destruct (flat L Scheduled c); [done|]. cbn in Hh. simplify_eq. left. }
    exists t. split; [done|]. split_and!; [done|done|by left].
  - destruct (runnable t) eqn:Er; simplify_eq. exists t. split; [done|]. split_and!; [done|done|right].
    rewrite (Hpin q p (Z.to_nat c) y t) by done. destruct Hc. by rewrite Z2Nat.id.
Qed.

(** No thread is selected for two cores. *)
Lemma selected_core (s : ctx) L x t c c' :
  sched_rep s L → ctx_threads s !! x = Some t → valid_core c → valid_core c' →
  selected_ok t c → selected_ok t c' → c = c'.
Proof.
  intros HS Ht [? ?] [? ?] (_ & Hd & E1) (_ & _ & E2).
  destruct (sr_thread _ _ HS x t Ht Hd) as (_ & [_ _ _ Hact] & _).
  assert (∀ i j, 0 ≤ i → 0 ≤ j → Z.testbit (Z.shiftl 1 i) j = true → j = i) as Hbit.
  { intros i j Hi Hj. rewrite Z.shiftl_spec by done. destruct (decide (j < i)); [by rewrite Z.testbit_neg_r by lia|].
    destruct (decide (j = i)); [done|]. rewrite Z.bits_above_log2; [done|lia|simpl; lia]. }
  destruct E1 as [E1|E1], E2 as [E2|E2].
  - congruence.
  - apply (Hbit c' c); [done..|]. rewrite <- E2, <- E1. apply Hact. lia.
  - symmetry. apply (Hbit c c'); [done..|]. rewrite <- E1, <- E2. apply Hact. lia.
  - apply (Hbit c' c); [done..|]. rewrite <- E2, E1, Z.shiftl_spec, Z.sub_diag by done. done.
Qed.

(** ** Changes that keep the choices *)
Definition keeps (s s' : ctx) : Prop :=
  ctx_current s' = ctx_current s ∧ ctx_locked s' = ctx_locked s ∧
  m_scheduler_update_needed s' = m_scheduler_update_needed s ∧
  m_woken_dummy_threads s' ⊆ m_woken_dummy_threads s ∧
  (∀ x t', ctx_threads s' !! x = Some t' → ∃ t, ctx_threads s !! x = Some t ∧
     KThread_IsDummyThread t' = KThread_IsDummyThread t ∧ runnable t' = runnable t ∧
     m_physical_affinity_mask t' = m_physical_affinity_mask t ∧ m_parent t' = m_parent t) ∧
  (∀ x, is_Some (ctx_threads s !! x) → is_Some (ctx_threads s' !! x)) ∧
  (∀ q, m_pinned_threads <$> ctx_processes s' !! q = m_pinned_threads <$> ctx_processes s !! q).

#[export] Instance keeps_preorder : PreOrder keeps.
Proof.
  split; [intros s; split_and!; try done; eauto 10|].
  intros s1 s2 s3 (A1 & A2 & A3 & A4 & A5 & A6 & A7) (B1 & B2 & B3 & B4 & B5 & B6 & B7).
  split_and!; [congruence..|set_solver| |eauto|congruence].
  intros x t3 Ht3. destruct (B5 x t3 Ht3) as (t2 & Ht2 & ? & ? & ? & ?).
  destruct (A5 x t2 Ht2) as (t1 & Ht1 & ? & ? & ? & ?). exists t1. split_and!; congruence.
Qed.

Lemma nearly_keeps s s' : nearly s s' → keeps s s'.
Proof.
  intros [Hq Hup]. split_and!; [apply Hq|apply Hq|done|apply Hq| | |].
  - intros x t' Ht'. destruct (quiet_thread_back _ _ x t' Hq Ht') as (t & Ht & Hv). exists t.
    rewrite (view_dummy _ _ Hv). destruct (view_place _ _ Hv) as (_ & -> & _).
    by apply view_facts in Hv as (_ & _ & _ & -> & _ & _ & ->).
  - intros x [t Ht]. destruct (quiet_thread _ _ x t Hq Ht) as (t' & ? & _). by eexists.
  - intros q. pose proof (qt_processes _ _ Hq q) as Hp. cbn [set_schedulers ctx_processes] in Hp.
    destruct (ctx_processes s' !! q), (ctx_processes s !! q); cbn in *; try done.
    unfold proc_view in Hp. congruence.
Qed.

Lemma keeps_process (s s' : ctx) q p' : keeps s s' → ctx_processes s' !! q = Some p' →
  ∃ p, ctx_processes s !! q = Some p ∧ m_pinned_threads p' = m_pinned_threads p.
Proof.
  intros (_ & _ & _ & _ & _ & _ & Hq) Hp'. specialize (Hq q). rewrite Hp' in Hq.
  destruct (ctx_processes s !! q) as [p|]; cbn in Hq; [|done]. exists p. split; congruence.
Qed.

Lemma keeps_process' (s s' : ctx) q p : keeps s s' → ctx_processes s !! q = Some p →
  ∃ p', ctx_processes s' !! q = Some p' ∧ m_pinned_threads p' = m_pinned_threads p.
Proof.
  intros (_ & _ & _ & _ & _ & _ & Hq) Hp'. specialize (Hq q). rewrite Hp' in Hq.
  destruct (ctx_processes s' !! q) as [p'|]; cbn in Hq; [|done]. exists p'. split; congruence.
Qed.

Lemma keeps_pins (s s' : ctx) : keeps s s' → pins_ok s → pins_ok s'.
Proof.
  intros Hk Hpin q p' c y t' Hp' Hy Ht'. destruct (keeps_process s s' q p' Hk Hp') as (p & Hp & Ep).
  destruct Hk as (_ & _ & _ & _ & Hth & _). destruct (Hth y t' Ht') as (t & Ht & _ & _ & -> & _).
  apply (Hpin q p c y t Hp); [congruence|done].
Qed.

Lemma keeps_pin_choice s s' c o : keeps s s' → pin_choice s c o → pin_choice s' c o.
Proof.
  intros Hk (q & p & y & t & Hq & Hy & Ht & Hd & ->).
  destruct (keeps_process' s s' q p Hk Hq) as (p' & Hp' & Ep).
  destruct Hk as (_ & _ & _ & _ & Hth & Hsome & _). destruct (Hsome y ltac:(by eexists)) as [t' Ht'].
  destruct (Hth y t' Ht') as (t0 & Ht0 & Hd' & Hr' & _). simplify_eq.
  exists q, p', y, t'. rewrite Hr', Ep, Hd'. done.
Qed.

Lemma keeps_top s s' L c o : keeps s s' → top_ok s L c o → top_ok s' L c o.
Proof. intros Hk [->|Hp]; [by left|right]. by apply (keeps_pin_choice s). Qed.

(** ** The choice for one core *)
Lemma top_of_core_run (s : ctx) L c :
  sched_rep s L → valid_core c →
  ∃ o, top_of_core c s = Done true (o, bool_decide (flat L Scheduled c = [])) ∧ top_ok s L c o ∧
    (flat L Scheduled c = [] → o = None) ∧ (∀ x, o = Some x → is_Some (ctx_threads s !! x)).
Proof.
  intros HS Hc. unfold top_of_core. rewrite (GetScheduledFront_run s L c) by done. pstep.
  destruct (flat L Scheduled c) as [|top l] eqn:Ef; cbn [head].
  { exists None. split_and!; [done|left; by rewrite Ef|done|done]. }
  rewrite bool_decide_false by done.
  destruct (flat_member s L Scheduled c top HS Hc) as (t & Ht & _); [rewrite Ef; left|].
  rewrite (get_thread_run _ _ t) by done. pstep.
  assert (∃ o, Done true (Some top, false) = Done true (o, false) ∧ top_ok s L c o ∧
    (top :: l = [] → o = None) ∧ (∀ x, o = Some x → is_Some (ctx_threads s !! x))) as Htop.
  { exists (Some top). split_and!; [done|left; by rewrite Ef|done|]. intros x [= <-]. by eexists. }
  destruct (m_parent t) as [q|] eqn:Eq; [|exact Htop].
  destruct (sr_parent _ _ HS top t q Ht Eq) as [p Hp]. unfold get_process, deref. rewrite Hp. pstep.
  destruct (sr_process _ _ HS q p Hp) as (Hl & _ & _ & _ & Hpin). unfold KProcess_GetPinnedThread.
  pose proof Hc as [Hc0 Hc4]. change NumCores with NUM_CPU_CORES in Hc4.
  rewrite (proj2 (Z.leb_le 0 c)), (proj2 (Z.ltb_lt c _)) by done. cbn [andb]. unfold ASSERT. pstep.
  destruct (lookup_lt_is_Some_2 (m_pinned_threads p) (Z.to_nat c)) as [o Ho].
  { rewrite Hl. unfold cores. lia. }
  rewrite (arr_get_run _ _ o) by done. pstep. destruct o as [y|]; [|exact Htop].
  case_bool_decide; [exact Htop|]. destruct (m_num_kernel_waiters t =? 0); [|exact Htop].
  destruct (Hpin _ _ Ho) as (ty & Hty & Hdy). rewrite (get_thread_run _ _ ty) by done. pstep.
  eexists. split; [done|]. split_and!; [right; by exists q, p, y, ty|done|].
  intros x Hx. unfold runnable in *. case_match; [|done]. simplify_eq. by eexists.
Qed.

(** ** The invariant of the loops

    [D] are the cores whose choice has been made. *)
Record chosen (s0 : ctx) (D : Z → Prop) (u : update_state) (L : Lists) : Prop := MkChosen {
  ch_rep : sched_rep (up_ctx u) L;
  ch_keeps : keeps s0 (up_ctx u);
  ch_pins : pins_ok (up_ctx u);
  ch_len : length (top_threads u) = cores;
  ch_high c : valid_core c → D c →
    top_threads u !! Z.to_nat c = highest_of (up_ctx u) !! Z.to_nat c;
  ch_top c o : valid_core c → D c → top_threads u !! Z.to_nat c = Some o → top_ok (up_ctx u) L c o;
  ch_mark c : valid_core c →
    highest_of s0 !! Z.to_nat c ≠ highest_of (up_ctx u) !! Z.to_nat c →
    Z.testbit (cores_needing_scheduling u) c = true
}.

Lemma chosen_weaken s0 (D D' : Z → Prop) u L :
  (∀ c, D' c → D c) → chosen s0 D u L → chosen s0 D' u L.
Proof. intros HD []. constructor; eauto. Qed.

Lemma chosen_add s0 (D : Z → Prop) u L c o :
  chosen s0 D u L → top_threads u !! Z.to_nat c = Some o →
  highest_of (up_ctx u) !! Z.to_nat c = Some o → top_ok (up_ctx u) L c o →
  chosen s0 (λ c', D c' ∨ c' = c) u L.
Proof.
  intros [] Ht Hh Hok. constructor; try done.
  - intros c' Hc' [HD| ->]; [eauto|congruence].
  - intros c' o' Hc' [HD| ->] Ho'; [eauto|congruence].
Qed.

Lemma valid_core_ne c c' : valid_core c → valid_core c' → c ≠ c' → Z.to_nat c ≠ Z.to_nat c'.
Proof. unfold valid_core. lia. Qed.

Lemma select_run s0 D u L c o :
  chosen s0 D u L → valid_core c → (∀ x, o = Some x → is_Some (ctx_threads (up_ctx u) !! x)) →
  ∃ u', select c o u = Done true u' ∧ chosen s0 (λ c', D c' ∧ c' ≠ c) u' L ∧
    top_threads u' = <[Z.to_nat c := o]> (top_threads u) ∧
    top_threads u' !! Z.to_nat c = Some o ∧ highest_of (up_ctx u') !! Z.to_nat c = Some o ∧
    nearly (up_ctx u) (up_ctx u').
Proof.
  intros [HS Hk Hpin Hlen Hhigh Htop Hmark] Hc Hx. pose proof Hc as [Hc0 Hc4].
  rewrite <- cores_eq in Hc4. unfold select.
  rewrite arr_set_run by (rewrite Hlen; lia). pstep.
  destruct (UpdateHighestPriorityThread_run (up_ctx u) L c o HS Hc Hx) as (mask & s' & -> & Hn & Hh & HS' & Em).
  pstep. eexists. split; [done|]. cbn [top_threads up_ctx cores_needing_scheduling].
  assert (highest_of s' !! Z.to_nat c = Some o) as Hho.
  { rewrite Hh. apply list_lookup_insert_eq. unfold highest_of. rewrite length_fmap, (sr_cores _ _ HS). lia. }
  split_and!; [|done|apply list_lookup_insert_eq; lia|done|done].
  pose proof (nearly_keeps _ _ Hn) as Hk'. constructor; cbn [top_threads up_ctx cores_needing_scheduling].
  - done.
  - by etrans.
  - by apply (keeps_pins (up_ctx u)).
  - by rewrite length_insert.
  - intros c' Hc' [HD Hne]. pose proof (valid_core_ne c c' Hc Hc' (not_eq_sym Hne)) as Hn'.
    rewrite Hh, !list_lookup_insert_ne by done. by apply Hhigh.
  - intros c' o' Hc' [HD Hne]. pose proof (valid_core_ne c c' Hc Hc' (not_eq_sym Hne)) as Hn'.
    rewrite list_lookup_insert_ne by done. intros Ho'. apply (keeps_top (up_ctx u)); auto.
  - intros c' Hc' Hch. rewrite Z.lor_spec. apply orb_true_iff. destruct (decide (c' = c)) as [->|Hne].
    + rewrite Em. case_decide as He.
      * left. apply Hmark; [done|]. rewrite Hho, <- He in Hch. done.
      * right. destruct Hc. rewrite Z.shiftl_spec, Z.sub_diag by done. done.
    + left. apply Hmark; [done|]. rewrite Hh, list_lookup_insert_ne in Hch; [done|].
      by apply valid_core_ne.
Qed.

(** ** The first loop *)
Definition idle_ok (idle : Z) (u : update_state (C := C)) (L : Lists) : Prop := ∀ c, valid_core c →
  Z.testbit idle c = true → top_threads u !! Z.to_nat c = Some None ∧ flat L Scheduled c = [].

Lemma shiftl_bound c : valid_core c → 0 ≤ Z.shiftl 1 c < 16 ∧ u64 (Z.shiftl 1 c) = Z.shiftl 1 c.
Proof.
  intros [? Hc]. unfold NumCores, NUM_CPU_CORES in Hc.
  assert (c = 0 ∨ c = 1 ∨ c = 2 ∨ c = 3) as [-> |[-> |[-> | ->]]] by lia; done.
Qed.

Lemma select_tops_run s0 cs : ∀ (D : Z → Prop) idle u L,
  chosen s0 D u L → Forall valid_core cs → NoDup cs → (∀ c, c ∈ cs → ¬ D c) →
  0 ≤ idle < 16 → (∀ c, Z.testbit idle c = true → c ∉ cs) → idle_ok idle u L →
  ∃ idle' u', select_tops cs idle u = Done true (idle', u') ∧
    chosen s0 (λ c, D c ∨ c ∈ cs) u' L ∧ 0 ≤ idle' < 16 ∧ idle_ok idle' u' L.
Proof.
  induction cs as [|c cs IH]; intros D idle u L Hch Hcs Hnd HD Hidle Hi Hio.
  { exists idle, u. split_and!; [done| |lia|lia|done]. eapply chosen_weaken; [|exact Hch]. set_solver. }
  apply Forall_cons in Hcs as [Hc Hcs]. apply NoDup_cons in Hnd as [Hnc Hnd]. cbn [select_tops].
  destruct (top_of_core_run (up_ctx u) L c (ch_rep _ _ _ _ Hch) Hc) as (o & -> & Hok & Hempty & Hsome). pstep.
  destruct (select_run s0 D u L c o Hch Hc Hsome) as (u1 & -> & Hch1 & Ht1 & Hto & Hho & Hn). pstep.
  pose proof (keeps_top _ _ L c o (nearly_keeps _ _ Hn) Hok) as Hok1.
  pose proof (chosen_add _ _ _ _ _ _ Hch1 Hto Hho Hok1) as Hch2.
  destruct (shiftl_bound c Hc) as [Hs1 Hs2]. rewrite Hs2.
  set (idle1 := if bool_decide (flat L Scheduled c = []) then Z.lor idle (Z.shiftl 1 c) else idle).
  assert (∀ c', Z.testbit idle1 c' = true → Z.testbit idle c' = true ∨ (c' = c ∧ flat L Scheduled c = [])) as Hb.
  { intros c'. unfold idle1. case_bool_decide; [|by left]. rewrite Z.lor_spec.
    intros [?|Hb]%orb_true_iff; [by left|right]. split; [|done]. destruct Hc.
    destruct (decide (c' < 0)); [by rewrite Z.testbit_neg_r in Hb by lia|].
    rewrite Z.shiftl_spec in Hb by lia. destruct (decide (c' < c)); [by rewrite Z.testbit_neg_r in Hb by lia|].
    destruct (decide (c' = c)); [done|]. rewrite Z.bits_above_log2 in Hb; [done|lia|simpl; lia]. }
  destruct (IH (λ c', (D c' ∧ c' ≠ c) ∨ c' = c) idle1 u1 L Hch2 Hcs Hnd) as (idle' & u' & E & Hch' & Hi' & Hio').
  - intros c' Hc' [[? ?]| ->]; [|done]. apply (HD c'); [by right|done].
  - unfold idle1. case_bool_decide; [by apply (lor_bound 4)|done].
  - intros c' [Hc'|[-> _]]%Hb; [|done]. specialize (Hi c' Hc'). set_solver.
  - intros c' Hc' [Hc1|[-> Hf]]%Hb.
    + destruct (Hio c' Hc' Hc1) as [? ?]. split; [|done]. specialize (Hi c' Hc1). rewrite Ht1.
      rewrite list_lookup_insert_ne; [done|]. apply valid_core_ne; [done..|]. set_solver.
    + split; [|done]. rewrite Hto. by rewrite Hempty.
  - exists idle', u'. split_and!; [exact E| |lia|lia|done]. eapply chosen_weaken; [|exact Hch'].
    intros c' [HDc|[->|?]%elem_of_cons]; [|by left; right|by right].
    destruct (decide (c' = c)); [by left; right|by left; left].
Qed.
End Select.

(** * Migrating threads to idle cores

    The second loop of UpdateHighestPriorityThreadsImpl: it keeps the invariant
    of the selection, ends, and stores no more candidate cores than there is
    room for. *)

Section Fill.
Context {C : Type} `{Clock C}.
Local Abbreviation ctx := (SchedulerContext C).
Local Abbreviation upd := (update_state (C := C)).
Local Abbreviation every := (λ _ : Z, True).

Lemma moved_keeps (s s' : ctx) x t c Q :
  ctx_threads s !! x = Some t →
  s' = set_queue Q (set_threads (<[x := moved_thread t c]> (ctx_threads s)) s) → keeps s s'.
Proof.
  intros Ht ->. split_and!; try done; cbn [set_queue set_threads ctx_threads].
  - intros y t'. destruct (decide (y = x)) as [->|].
    + rewrite lookup_insert_eq. intros [= <-]. by exists t.
    + rewrite lookup_insert_ne by done. eauto 10.
  - intros y [ty Hy]. destruct (decide (y = x)) as [->|];
      [rewrite lookup_insert_eq|rewrite lookup_insert_ne]; eauto.
Qed.

(** A suggested thread of core [c] is moved there. *)
Section Moved.
Context (s0 : ctx) (D : Z → Prop) (u : upd) (L : Lists) (x : Z) (t : KThread) (c : Z) (front : bool).
Hypotheses (Hch : chosen s0 D u L) (Ht : ctx_threads (up_ctx u) !! x = Some t) (Hc : valid_core c).
Hypothesis (Hx : x ∈ flat L Suggested c).

Lemma chosen_move s' Q :
  s' = set_queue Q (set_threads (<[x := moved_thread t c]> (ctx_threads (up_ctx u))) (up_ctx u)) →
  sched_rep s' (moved L x t c front) →
  chosen s0 (λ c', D c' ∧ c' ≠ c ∧ (c' = m_core_id t → 0 ≤ c' → top_threads u !! Z.to_nat c' ≠ Some (Some x)))
    (MkUpdate (top_threads u) (cores_needing_scheduling u) s') (moved L x t c front).
Proof.
  intros Hs' HS'. destruct Hch as [HS Hk Hpin Hlen Hhigh Htop Hmark].
  pose proof (moved_keeps _ _ _ _ _ _ Ht Hs') as Hk'.
  assert (highest_of s' = highest_of (up_ctx u)) as Eh by (by rewrite Hs').
  constructor; cbn [top_threads up_ctx cores_needing_scheduling]; rewrite ?Eh; try done.
  - by etrans.
  - by apply (keeps_pins (up_ctx u)).
  - intros c' Hc' (? & _). auto.
  - intros c' o Hc' (HD & Hne & Hprev) Ho. destruct (Htop c' o Hc' HD Ho) as [Hh|Hp];
      [left|right; by apply (keeps_pin_choice (up_ctx u))].
    rewrite Hh. destruct (decide (c' = m_core_id t)) as [->|Hne'].
    + rewrite (moved_prev _ L x t c front HS Ht Hc Hx Hc'). symmetry. apply head_filter_ne.
      rewrite <- Hh. intros ->. destruct Hc'. by apply Hprev.
    + by rewrite (moved_other L x t c front) by done.
Qed.

Lemma moved_idle idle :
  idle_ok idle u L →
  (∀ c', valid_core c' → c' ≠ c → Z.testbit idle c' = true → flat (moved L x t c front) Scheduled c' = []).
Proof.
  intros Hio c' Hc' Hne Hb. destruct (Hio c' Hc' Hb) as [_ Hf].
  destruct (decide (c' = m_core_id t)) as [->|Hne'].
  - by rewrite (moved_prev _ L x t c front (ch_rep _ _ _ _ Hch) Ht Hc Hx Hc'), Hf.
  - by rewrite (moved_other L x t c front).
Qed.
End Moved.

(** The result of one search: the invariant, for the other idle cores. *)
Definition filled (s0 : ctx) (c idle : Z) (u : upd) : Prop := ∃ L, chosen s0 every u L ∧
  ∀ c', valid_core c' → c' ≠ c → Z.testbit idle c' = true →
    top_threads u !! Z.to_nat c' = Some None ∧ flat L Scheduled c' = [].

Lemma filled_same s0 c idle u L : chosen s0 every u L → idle_ok idle u L → filled s0 c idle u.
Proof. intros Hch Hio. exists L. split; [done|]. intros c' Hc' _. by apply Hio. Qed.

(** The moved thread is selected for its new core. *)
Lemma settle s0 u L c x idle :
  chosen s0 (λ c', c' ≠ c) u L → valid_core c → flat L Scheduled c = [x] →
  (∀ c', valid_core c' → c' ≠ c → Z.testbit idle c' = true →
     top_threads u !! Z.to_nat c' = Some None ∧ flat L Scheduled c' = []) →
  ∃ u', select c (Some x) u = Done true u' ∧ filled s0 c idle u'.
Proof.
  intros Hch Hc Hf Hidle.
  destruct (select_run s0 _ u L c (Some x) Hch Hc) as (u' & E & Hch' & Ht' & Hto & Hho & Hn).
  { intros y [= <-]. destruct (flat_member _ L Scheduled c x (ch_rep _ _ _ _ Hch) Hc) as (t & ? & _);
      [rewrite Hf; left|by eexists]. }
  exists u'. split; [exact E|]. exists L. split.
  - eapply chosen_weaken; [|apply (chosen_add _ _ _ _ c (Some x) Hch' Hto Hho); left; by rewrite Hf].
    intros c' _. destruct (decide (c' = c)); [by right|by left].
  - intros c' Hc' Hne Hb. destruct (Hidle c' Hc' Hne Hb) as [? ?]. split; [|done].
    rewrite Ht', list_lookup_insert_ne; [done|]. by apply valid_core_ne.
Qed.

(** ** A suggestion that is not the top thread of its core *)
Lemma try_move_run s0 u L c x t idle :
  chosen s0 every u L → idle_ok idle u L → valid_core c → flat L Scheduled c = [] →
  x ∈ flat L Suggested c → ctx_threads (up_ctx u) !! x = Some t →
  (0 ≤ m_core_id t → top_threads u !! Z.to_nat (m_core_id t) ≠ Some (Some x)) →
  wp (s ← migrate c x false (up_ctx u);
      select c (Some x) (MkUpdate (top_threads u) (cores_needing_scheduling u) s)) (filled s0 c idle).
Proof.
  intros Hch Hio Hc Hf Hx Ht Hne.
  destruct (migrate_run (up_ctx u) L x t c false (ch_rep _ _ _ _ Hch) Ht Hc Hx) as (s' & -> & HS' & Es').
  pstep. pose proof (chosen_move s0 _ u L x t c false Hch Ht Hc Hx s' _ Es' HS') as Hch1.
  destruct (settle s0 (MkUpdate (top_threads u) (cores_needing_scheduling u) s') (moved L x t c false) c x idle)
    as (u' & E & Hfill); [|done| | |].
  - eapply chosen_weaken; [|exact Hch1]. intros c' Hc'. split_and!; [done|done|].
    by intros ->.
  - eapply moved_new; [apply (ch_rep _ _ _ _ Hch)|done..|apply (sr_rep _ _ HS')|done].
  - intros c' Hc' Hcc Hb. split; [by apply Hio|].
    eapply (moved_idle s0 _ u L x t c false Hch Ht Hc Hx idle Hio); done.
  - rewrite E. by apply wp_Done.
Qed.

(** ** The candidate cores *)
Definition candidate (u : upd) (L : Lists) (c cand x : Z) : Prop :=
  valid_core cand ∧ x ∈ flat L Suggested c ∧ top_threads u !! Z.to_nat cand = Some (Some x) ∧
  ∃ t, ctx_threads (up_ctx u) !! x = Some t ∧ m_core_id t = cand.

(** The top thread of a candidate is the front of its queue. *)
Lemma candidate_front s0 u L c cand x :
  chosen s0 every u L → valid_core c → candidate u L c cand x → head (flat L Scheduled cand) = Some x.
Proof.
  intros Hch Hc (Hv & Hx & Ho & t & Ht & Hcore).
  destruct (ch_top _ _ _ _ Hch cand _ Hv I Ho) as [Hh|(q & p & y & t' & Hq & Hy & Ht' & _ & Hr)]; [done|].
  destruct (runnable t') eqn:Er; [|done]. injection Hr as <-.
  assert (t = t') as -> by congruence. subst cand. rename x into y.
  destruct (moved_facts (up_ctx u) L y t' c (ch_rep _ _ _ _ Hch) Ht Hc Hx) as (Hd & _ & _ & _ & _ & Hne & Hbit).
  pose proof (ch_pins _ _ _ _ Hch q p _ y t' Hq Hy Ht) as Em.
  destruct Hne. symmetry. apply (selected_core (up_ctx u) L y t'); [apply (ch_rep _ _ _ _ Hch)|done..| |].
  - split_and!; [done|done|]. right. rewrite Em in Hbit. rewrite Em. f_equal.
    destruct Hv, Hc. rewrite Z2Nat.id in * by done. rewrite Z.shiftl_spec in Hbit by done.
    destruct (decide (c < m_core_id t')); [by rewrite Z.testbit_neg_r in Hbit by lia|].
    destruct (decide (c = m_core_id t')); [done|]. rewrite Z.bits_above_log2 in Hbit; [done|lia|simpl; lia].
  - split_and!; [done|done|by left].
Qed.

Lemma idle_candidate idle u L c cand x :
  idle_ok idle u L → candidate u L c cand x → Z.testbit idle cand ≠ true.
Proof. intros Hio (Hv & _ & Ho & _) Hb. destruct (Hio cand Hv Hb) as [Hn _]. congruence. Qed.

(** The top thread of a candidate core gives way to the next one there. *)
Lemma swap_run s0 u L c cand x next l idle :
  chosen s0 every u L → idle_ok idle u L → valid_core c → flat L Scheduled c = [] →
  candidate u L c cand x → flat L Scheduled cand = x :: next :: l →
  wp (u ← select cand (Some next) u;
      t ← get_thread (up_ctx u) x;
      s ← change_thread x (KThread_SetActiveCore c) (up_ctx u);
      t ← get_thread s x;
      Q ← ChangeCore cand x t false (m_priority_queue s);
      select c (Some x) (MkUpdate (top_threads u) (cores_needing_scheduling u) (set_queue Q s)))
    (filled s0 c idle).
Proof.
  intros Hch Hio Hc Hf Hcand Hl. pose proof (idle_candidate _ _ _ _ _ _ Hio Hcand) as Hni.
  destruct Hcand as (Hv & Hx & Ho & t & Ht & Hcore). pose proof (ch_rep _ _ _ _ Hch) as HS.
  destruct (select_run s0 _ u L cand (Some next) Hch Hv) as (u1 & E1 & Hch1 & Ht1 & Hto & Hho & Hn).
  { intros y [= <-]. destruct (flat_member _ L Scheduled cand next HS Hv) as (tn & ? & _);
      [rewrite Hl; right; left|by eexists]. }
  rewrite E1. pstep. clear E1. pose proof (ch_rep _ _ _ _ Hch1) as HS1.
  destruct (quiet_thread _ _ x t (proj1 Hn) Ht) as (t1 & Hx1 & Hview). cbn [set_schedulers ctx_threads] in Hx1.
  apply view_facts in Hview as (_ & _ & Ecore & _). rewrite Hcore in Ecore. clear t Ht Hcore.
  rewrite (get_thread_run _ _ t1), bind_Done_true, (change_thread_run _ x t1), bind_Done_true by done.
  rewrite (get_thread_run _ _ (moved_thread t1 c)), bind_Done_true by apply lookup_insert_eq.
  destruct (ChangeCore_sched (up_ctx u1) L x t1 c false HS1 Hx1 Hc Hx) as (Q & EQ & HQ).
  rewrite Ecore in EQ. cbn [set_threads m_priority_queue]. rewrite EQ. pstep. clear EQ.
  set (s2 := set_queue Q _). assert (sched_rep s2 (moved L x t1 c false)) as HS2 by (by apply HQ).
  pose proof (chosen_move s0 _ u1 L x t1 c false Hch1 Hx1 Hc Hx s2 Q eq_refl HS2) as Hch2.
  assert (cand ≠ c) as Hcc.
  { intros ->. rewrite Hf in Hl. done. }
  pose proof (flat_NoDup _ L Scheduled cand (sr_rep _ _ HS) Hv) as Hnd. rewrite Hl in Hnd.
  assert (flat (moved L x t1 c false) Scheduled cand = next :: l) as Hl2.
  { rewrite <- Ecore. rewrite (moved_prev (up_ctx u1) L x t1 c false HS1 Hx1 Hc Hx) by (by rewrite Ecore).
    rewrite Ecore, Hl, filter_cons_False by naive_solver. apply filter_keep. by apply NoDup_cons in Hnd as [? _]. }
  destruct (settle s0 (MkUpdate (top_threads u1) (cores_needing_scheduling u1) s2) (moved L x t1 c false) c x idle)
    as (u' & E & Hfill); [|done| | |].
  - eapply chosen_weaken; [|eapply (chosen_add _ _ _ _ cand (Some next) Hch2); [done|done|left; by rewrite Hl2]].
    intros c' Hc'. destruct (decide (c' = cand)) as [->|Hne]; [by right|left].
    split_and!; [done|done|done|]. rewrite Ecore. done.
  - eapply moved_new; [apply HS1|done..|apply (sr_rep _ _ HS2)|done].
  - intros c' Hc' Hne Hb. assert (c' ≠ cand) as Hne2 by (by intros ->). cbn [top_threads].
    split; [rewrite Ht1, list_lookup_insert_ne by (by apply valid_core_ne); by apply Hio|].
    rewrite (moved_other L x t1 c false) by (done || by rewrite Ecore). by apply Hio.
  - rewrite E. by apply wp_Done.
Qed.

Lemma try_candidates_run s0 u L c idle cands :
  chosen s0 every u L → idle_ok idle u L → valid_core c → flat L Scheduled c = [] →
  Forall (λ cand, ∃ x, candidate u L c cand x) cands →
  wp (try_candidates c cands u) (filled s0 c idle).
Proof.
  intros Hch Hio Hc Hf Hcands. induction Hcands as [|cand cands (x & Hcand) Hcands IH]; cbn [try_candidates].
  { apply wp_ret. by apply (filled_same s0 c idle u L). }
  pose proof (candidate_front s0 u L c cand x Hch Hc Hcand) as Hh. pose proof (ch_rep _ _ _ _ Hch) as HS.
  pose proof Hcand as (Hv & Hx & Ho & t & Ht & Hcore).
  rewrite (arr_get_run _ _ (Some x)) by (apply Hv || done). unfold deref. pstep.
  rewrite (get_thread_run _ _ t) by done. pstep.
  destruct (flat L Scheduled cand) as [|y l] eqn:El; [done|]. cbn in Hh. simplify_eq.
  pose proof (sched_next (up_ctx u) L Scheduled (m_core_id t) [] x l t HS Hv El Ht) as En.
  unfold GetScheduledNext. cbn [pq_impl] in En. rewrite En. pstep.
  destruct l as [|next l]; cbn [head]; [exact IH|]. by apply (swap_run s0 u L c (m_core_id t) x next l).
Qed.

(** ** The search for a suggestion *)
Definition visited (u : upd) (L : Lists) (c : Z) (xs cands : list Z) : Prop :=
  NoDup cands ∧ Forall (λ cand, ∃ x, x ∈ xs ∧ candidate u L c cand x) cands.

Lemma valid_cores_length cs : NoDup cs → Forall valid_core cs → Z.of_nat (length cs) ≤ NUM_CPU_CORES.
Proof.
  intros Hnd Hcs. assert (length cs ≤ length (seqZ 0 NumCores))%nat as Hle.
  { apply submseteq_length, NoDup_submseteq; [done|]. intros c Hc. rewrite Forall_forall in Hcs.
    destruct (Hcs c Hc). apply elem_of_seqZ. lia. }
  rewrite length_seqZ in Hle. unfold NumCores in Hle. unfold NUM_CPU_CORES in *. lia.
Qed.

Lemma visited_snoc u L c xs cands cand x :
  visited u L c xs cands → x ∉ xs → candidate u L c cand x → visited u L c (xs ++ [x]) (cands ++ [cand]).
Proof.
  intros [Hnd Hv] Hx Hc. split.
  - apply NoDup_app. split_and!; [done| |apply NoDup_singleton].
    intros c' Hin ->%list_elem_of_singleton. rewrite Forall_forall in Hv.
    destruct (Hv cand Hin) as (y & Hy & _ & _ & Hty & _). destruct Hc as (_ & _ & Htx & _). congruence.
  - apply Forall_app. split.
    + eapply Forall_impl; [exact Hv|]. intros c' (y & ? & ?). exists y. set_solver.
    + apply Forall_singleton. exists x. set_solver.
Qed.

Lemma too_high_run (s : ctx) o :
  (∀ x, o = Some x → is_Some (ctx_threads s !! x)) → ∃ b, too_high s o = Done true b.
Proof.
  intros Hx. destruct o as [x|]; [|by exists false]. destruct (Hx x eq_refl) as [t Ht]. cbn.
  rewrite (get_thread_run _ _ t) by done. pstep. by eexists.
Qed.

Lemma try_suggested_run s0 u L c idle xs x cands :
  chosen s0 every u L → idle_ok idle u L → valid_core c → flat L Scheduled c = [] →
  x ∈ flat L Suggested c → x ∉ xs → visited u L c xs cands →
  wp (try_suggested c u cands x) (λ r,
    match r with inl cands => visited u L c (xs ++ [x]) cands | inr u => filled s0 c idle u end).
Proof.
  intros Hch Hio Hc Hf Hx Hxs Hvis. pose proof (ch_rep _ _ _ _ Hch) as HS.
  destruct (flat_member (up_ctx u) L Suggested c x HS Hc Hx) as (t & Ht & _ & _ & [_ Hcore _ _] & _).
  unfold try_suggested. rewrite (get_thread_run _ _ t) by done. pstep.
  assert (∃ o, top_on_core u (m_core_id t) = Done true o ∧ (∀ y, o = Some y → is_Some (ctx_threads (up_ctx u) !! y)) ∧
    (o = Some x → candidate u L c (m_core_id t) x) ∧
    (o ≠ Some x → 0 ≤ m_core_id t → top_threads u !! Z.to_nat (m_core_id t) ≠ Some (Some x))) as (o & -> & Ho & Ho1 & Ho2).
  { unfold top_on_core. destruct (0 <=? m_core_id t) eqn:E0; bool_prop; [|exists None; split_and!; (done || lia)].
    assert (valid_core (m_core_id t)) as Hv by (split; lia).
    destruct (lookup_lt_is_Some_2 (top_threads u) (Z.to_nat (m_core_id t))) as [o Ho].
    { rewrite (ch_len _ _ _ _ Hch). unfold cores, NumCores in *. lia. }
    exists o. rewrite (arr_get_run _ _ o) by done. split_and!; [done| | |].
    - intros y ->. destruct (top_selected (up_ctx u) L (m_core_id t) y) as (ty & ? & _);
        [done|apply (ch_pins _ _ _ _ Hch)|done|by apply (ch_top _ _ _ _ Hch)|by eexists].
    - intros ->. split_and!; [done|done|done|by exists t].
    - congruence. }
  pstep. case_bool_decide as Hne.
  - destruct (too_high_run (up_ctx u) o Ho) as [b ->]. pstep. destruct b.
    { apply wp_ret. by apply (filled_same s0 c idle u L). }
    pose proof (try_move_run s0 u L c x t idle Hch Hio Hc Hf Hx Ht (Ho2 Hne)) as Hw.
    rewrite !wp_bind in Hw. rewrite wp_bind. eapply wp_mono; [exact Hw|]. intros s' Hs'.
    rewrite wp_bind. eapply wp_mono; [exact Hs'|]. intros u' Hu'. by apply wp_ret.
  - assert (o = Some x) as Eo by (by destruct (decide (o = Some x))). specialize (Ho1 Eo).
    pose proof (visited_snoc u L c xs cands _ x Hvis Hxs Ho1) as Hvis'.
    assert ((Z.of_nat (length cands) <? NUM_CPU_CORES) = true) as ->.
    { apply Z.ltb_lt. destruct Hvis' as [Hnd Hall].
      apply valid_cores_length in Hnd; [rewrite length_app in Hnd; cbn in Hnd; lia|].
      eapply Forall_impl; [exact Hall|]. by intros c' (y & _ & ? & _). }
    unfold ASSERT. pstep. by apply wp_ret.
Qed.

Lemma fill_core_run s0 u L c idle :
  chosen s0 every u L → idle_ok idle u L → valid_core c → flat L Scheduled c = [] →
  wp (fill_core c u) (filled s0 c idle).
Proof.
  intros Hch Hio Hc Hf. pose proof (ch_rep _ _ _ _ Hch) as HS. unfold fill_core.
  rewrite (GetSuggestedFront_run (up_ctx u) L c HS Hc). pstep.
  destruct (head (flat L Suggested c)) as [x0|] eqn:Eh; [rewrite <- Eh|by apply wp_ret, (filled_same s0 c idle u L)].
  pose proof (flat_NoDup _ L Suggested c (sr_rep _ _ HS) Hc) as Hnd. rewrite wp_bind.
  eapply wp_mono; [apply (walk_run (visited u L c) (filled s0 c idle) _ _ (flat L Suggested c) [])|].
  - by apply flat_fuel.
  - intros l1 x l2 Hl _. by apply (suggested_next_run (up_ctx u) L c l1 x l2).
  - cbn [app]. intros l1 x l2 cands Hl Hvis. rewrite Hl in Hnd. apply try_suggested_run with (L := L); try done.
    + rewrite Hl. set_solver.
    + apply NoDup_app in Hnd as (_ & Hd & _). intros Hin. apply (Hd x Hin). left.
  - by split; [apply NoDup_nil_2|].
  - cbn [app]. intros [cands|u'] Hr; [|by apply wp_ret]. apply try_candidates_run with (L := L); try done.
    destruct Hr as [_ Hr]. eapply Forall_impl; [exact Hr|]. intros cand (y & _ & ?). by exists y.
Qed.

(** ** All idle cores *)
Lemma ldiff_bit idle c i : valid_core c → 0 ≤ i →
  Z.testbit (Z.ldiff idle (u64 (Z.shiftl 1 c))) i = Z.testbit idle i && negb (i =? c).
Proof.
  intros [? Hc] Hi. apply ldiff_core; [|done]. unfold NumCores, NUM_CPU_CORES in Hc. lia.
Qed.

Lemma fill_idle_run s0 fuel : ∀ idle u L,
  chosen s0 every u L → idle_ok idle u L → 0 ≤ idle < 16 → (length (cores_of idle) ≤ fuel)%nat →
  wp (fill_idle fuel idle u) (λ u', ∃ L', chosen s0 every u' L').
Proof.
  induction fuel as [|fuel IH]; intros idle u L Hch Hio Hidle Hlen; cbn [fill_idle];
    (destruct (idle =? 0) eqn:E0; bool_prop; [by apply wp_ret; exists L|]);
    (destruct (countr_zero_spec idle) as (Hr & Hb & _); [unfold is_u64; lia|done|]);
    (assert (valid_core (countr_zero idle)) as Hc by
      (split; [lia|]; destruct (decide (countr_zero idle < 4)); [done|];
       rewrite (Z.bits_above_log2 idle) in Hb; [done|lia|]; apply Z.log2_lt_pow2; [lia|];
       eapply Z.lt_le_trans; [apply Hidle|]; change 16 with (2 ^ 4); apply Z.pow_le_mono_r; lia)).
  { assert (countr_zero idle ∈ cores_of idle) as Hin by (by apply elem_of_cores_of).
    destruct (cores_of idle); [by apply not_elem_of_nil in Hin|cbn in Hlen; lia]. }
  set (c := countr_zero idle) in *. destruct (Hio c Hc Hb) as [_ Hf]. rewrite wp_bind.
  eapply wp_mono; [by apply (fill_core_run s0 u L c idle)|]. intros u' (L' & Hch' & Hrest).
  apply (IH _ u' L'); [done| |by apply (ldiff_bound 4)|].
  - intros c' Hc' Hb'. rewrite ldiff_bit in Hb' by (done || apply Hc').
    apply andb_true_iff in Hb' as [? Hne]. apply negb_true_iff, Z.eqb_neq in Hne. by apply Hrest.
  - assert (c :: cores_of (Z.ldiff idle (u64 (Z.shiftl 1 c))) ⊆+ cores_of idle) as Hs%submseteq_length;
      [|cbn in Hs; lia].
    apply NoDup_submseteq.
    + apply NoDup_cons. split; [|apply cores_of_NoDup]. rewrite elem_of_cores_of. intros [_ Hx].
      rewrite ldiff_bit, Z.eqb_refl, andb_false_r in Hx by (done || apply Hc). done.
    + intros c' [->|[Hc' Hb']%elem_of_cores_of]%elem_of_cons; apply elem_of_cores_of; [done|].
      rewrite ldiff_bit in Hb' by (done || apply Hc'). by apply andb_true_iff in Hb' as [? _].
Qed.

Lemma cores_of_length idle : (length (cores_of idle) ≤ 64)%nat.
Proof. unfold cores_of. etrans; [apply length_filter|]. rewrite length_seqZ. unfold NumCores, NUM_CPU_CORES. lia. Qed.

(** ** Dummy threads *)
Lemma dummy_runnable_quiet (s : ctx) x t b :
  ctx_threads s !! x = Some t → quiet s (set_threads (<[x := set_dummy_runnable b t]> (ctx_threads s)) s).
Proof. intros Ht. by apply quiet_change_thread. Qed.

Lemma wake_all_run (s : ctx) ts :
  ctx_locked s = true →
  (∀ x, x ∈ ts → ∃ t, ctx_threads s !! x = Some t ∧ KThread_IsDummyThread t = true) →
  ∃ s', wake_all ts s = Done true s' ∧ still s s'.
Proof.
  revert s. induction ts as [|x ts IH]; intros s Hl Hts; [exists s; split; [done|apply still_refl]|].
  destruct (Hts x ltac:(left)) as (t & Ht & Hd). cbn [wake_all]. unfold DummyThreadEndWait, IsSchedulerLockedByCurrentThread, ASSERT.
  rewrite Hl. pstep. rewrite (get_thread_run _ _ t) by done. pstep. rewrite Hd. pstep.
  rewrite (change_thread_run _ x t) by done. pstep.
  pose proof (dummy_runnable_quiet s x t true Ht) as Hq. set (s1 := set_threads _ _) in *.
  destruct (IH s1) as (s' & E & Hst); [done| |].
  - intros y Hy. destruct (Hts y ltac:(by right)) as (ty & Hty & Hdy).
    destruct (quiet_thread s s1 y ty Hq Hty) as (ty' & ? & Hv). exists ty'. by rewrite (view_dummy _ _ Hv).
  - exists s'. split; [exact E|]. eapply still_trans; [|exact Hst]. by split_and!.
Qed.

Lemma WakeupWaitingDummyThreads_run (s : ctx) L :
  sched_rep s L → ctx_locked s = true →
  ∃ s', WakeupWaitingDummyThreads s = Done true s' ∧ still s s'.
Proof.
  intros HS Hl. unfold WakeupWaitingDummyThreads, ASSERT. rewrite Hl. pstep.
  destruct (0 <? _); [|exists s; split; [done|apply still_refl]].
  destruct (wake_all_run s (m_woken_dummy_threads s) Hl (sr_woken _ _ HS)) as (s1 & -> & Hq & Hs & Hu).
  pstep. eexists. split; [done|]. split_and!; [|done|done].
  destruct Hq. constructor; try done. cbn. set_solver.
Qed.

(** ** UpdateHighestPriorityThreads *)
Lemma still_nearly (s s' : ctx) : still s s' → nearly s s'.
Proof. intros (Hq & Hs & Hu). split; [|done]. destruct Hq. by constructor. Qed.

Lemma still_highest (s s' : ctx) : still s s' → highest_of s' = highest_of s.
Proof. intros (_ & Hs & _). unfold highest_of. by rewrite Hs. Qed.

Lemma sleep_run (s : ctx) L :
  sched_rep s L → ctx_locked s = true →
  ∃ s', (cur ← get_thread s (ctx_current s);
         if KThread_IsDummyThread cur && negb (KThread_GetState cur =? ThreadState_Runnable)
         then RequestDummyThreadWait (ctx_current s) s else mret s) = Done true s' ∧ still s s'.
Proof.
  intros HS Hl. destruct (sr_current _ _ HS) as [t Ht]. rewrite (get_thread_run _ _ t) by done. pstep.
  destruct (KThread_IsDummyThread t) eqn:Hd; [|exists s; split; [done|apply still_refl]].
  destruct (negb _); [|exists s; split; [done|apply still_refl]]. cbn [andb].
  unfold RequestDummyThreadWait, IsSchedulerLockedByCurrentThread, ASSERT. rewrite Hl. pstep.
  rewrite (get_thread_run _ _ t) by done. pstep. rewrite Hd. pstep. rewrite (change_thread_run _ _ t) by done.
  eexists. split; [done|]. split_and!; [|done|done]. by apply dummy_runnable_quiet.
Qed.

(** What the function leaves: the selection for every core, and the marks. *)
Definition updated (s : ctx) (mask : Z) (s' : ctx) : Prop := ∃ L',
  sched_rep s' L' ∧ keeps (ClearSchedulerUpdateNeeded s) s' ∧ pins_ok s' ∧
  (∀ c o, valid_core c → highest_of s' !! Z.to_nat c = Some o → top_ok s' L' c o) ∧
  (∀ c, valid_core c → highest_of s' !! Z.to_nat c ≠ highest_of s !! Z.to_nat c → Z.testbit mask c = true).

Lemma Impl_run (s : ctx) L :
  sched_rep s L → pins_ok s → ctx_locked s = true →
  wp (UpdateHighestPriorityThreadsImpl s) (λ '(mask, s'), updated s mask s').
Proof.
  intros HS Hpin Hl. unfold UpdateHighestPriorityThreadsImpl, IsSchedulerLockedByCurrentThread, ASSERT.
  rewrite Hl. pstep. set (s0 := ClearSchedulerUpdateNeeded s).
  assert (sched_rep s0 L) as HS0 by (apply (quiet_rep s); [apply quiet_update_needed|done]).
  destruct (select_tops_run s0 (seqZ 0 NUM_CPU_CORES) (λ _, False) 0
    (MkUpdate (replicate (Z.to_nat NUM_CPU_CORES) None) 0 s0) L) as (idle & u & E & Hch & Hidle & Hio).
  - constructor; cbn [up_ctx top_threads]; try done.
  - apply Forall_forall. intros c ?%elem_of_seqZ. unfold valid_core, NumCores. lia.
  - apply NoDup_seqZ.
  - naive_solver.
  - lia.
  - intros c. by rewrite Z.testbit_0_l.
  - intros c _. by rewrite Z.testbit_0_l.
  - rewrite E. pstep. rewrite wp_bind.
    assert (∀ u' L', chosen s0 (λ c, False ∨ c ∈ seqZ 0 NUM_CPU_CORES) u' L' → chosen s0 every u' L') as Hall.
    { intros u' L' []. assert (∀ c, valid_core c → False ∨ c ∈ seqZ 0 NUM_CPU_CORES) as Hd.
      { intros c [? ?]. right. apply elem_of_seqZ. unfold NumCores in *. lia. }
      constructor; eauto. }
    eapply wp_mono; [apply (fill_idle_run s0 64 idle u L); auto using cores_of_length|].
    clear u idle E Hch Hidle Hio. intros u (L' & Hch). pose proof (ch_keeps _ _ _ _ Hch) as Hk.
    assert (ctx_locked (up_ctx u) = true) as Hl1 by (destruct Hk as (_ & -> & _); done).
    destruct (WakeupWaitingDummyThreads_run (up_ctx u) L' (ch_rep _ _ _ _ Hch) Hl1) as (s1 & -> & Hs1). pstep.
    pose proof (still_rep _ _ _ Hs1 (ch_rep _ _ _ _ Hch)) as HS1.
    assert (ctx_locked s1 = true) as Hl2 by (destruct Hs1 as (Hq & _); by rewrite (qt_locked _ _ Hq)).
    destruct (sleep_run s1 L' HS1 Hl2) as (s2 & Es2 & Hs2).
    pose proof (still_rep _ _ _ Hs2 HS1) as HS2. pose proof (still_trans _ _ _ Hs1 Hs2) as Hs12.
    pose proof (nearly_keeps _ _ (still_nearly _ _ Hs12)) as Hk2.
    destruct (sr_current _ _ HS1) as [cur Hcur].
    rewrite (get_thread_run _ _ cur), bind_Done_true in Es2 by done.
    rewrite (get_thread_run _ _ cur), bind_Done_true, Es2 by done. pstep. apply wp_ret. exists L'. split_and!.
    + done.
    + by etrans.
    + apply (keeps_pins (up_ctx u)); [done|apply (ch_pins _ _ _ _ Hch)].
    + intros c o Hc Ho. apply (keeps_top (up_ctx u)); [done|]. apply (ch_top _ _ _ _ Hch); [done|done|].
      rewrite (ch_high _ _ _ _ Hch) by done. by rewrite <- (still_highest _ _ Hs12).
    + intros c Hc Hne. rewrite (still_highest _ _ Hs12) in Hne. apply (ch_mark _ _ _ _ Hch c Hc).
      by apply not_eq_sym.
Qed.
End Fill.
