(* ===== verification/SchedulerOperations.v ===== *)
(** * The operations on the queues of runnable threads

    State, priority and affinity changes, rotation and the three yields: they
    run without a failed assertion and keep the invariant of the scheduler. *)

From S2P Require Import Prelude Common PageBitmap PageBitmapLemmas Thread PriorityQueue PriorityQueueLemmas PriorityQueueTheorems PriorityQueueRefinement Scheduler SchedulerLemmas SchedulerSelect.

Section Operations.
Context {C : Type} `{Clock C}.
Local Abbreviation ctx := (SchedulerContext C).

Definition sched_inv (s : ctx) : Prop := (∃ L, sched_rep s L) ∧ pins_ok s.

(** The current thread and its hold on the lock stay. *)
Definition same_core (s s' : ctx) : Prop :=
  ctx_current s' = ctx_current s ∧ ctx_locked s' = ctx_locked s.

(** ** Changes of a dummy thread, and of a thread that stays out of the queues *)
Lemma sched_rep_dummy (s s' : ctx) L x t t' :
  sched_rep s L → ctx_threads s !! x = Some t → m_thread_type t' = m_thread_type t →
  m_parent t' = m_parent t → KThread_IsDummyThread t = true →
  ctx_threads s' = <[x := t']> (ctx_threads s) → m_priority_queue s' = m_priority_queue s →
  ctx_processes s' = ctx_processes s → ctx_schedulers s' = ctx_schedulers s →
  m_woken_dummy_threads s' ⊆ x :: m_woken_dummy_threads s → ctx_current s' = ctx_current s →
  sched_rep s' L.
Proof.
  intros HS Ht Hty Hpa Hd Hts HQ Hps Hsch Hwk Hcur.
  assert (KThread_IsDummyThread t' = true) as Hd' by (unfold KThread_IsDummyThread; by rewrite Hty).
  assert (∀ y, is_Some (ctx_threads s !! y) → is_Some (ctx_threads s' !! y)) as Hsome.
  { intros y Hy. rewrite Hts. destruct (decide (y = x)) as [->|];
      [rewrite lookup_insert_eq|rewrite lookup_insert_ne]; eauto. }
  assert (∀ y b, (∃ u, ctx_threads s !! y = Some u ∧ KThread_IsDummyThread u = b) →
    ∃ u, ctx_threads s' !! y = Some u ∧ KThread_IsDummyThread u = b) as Hdum.
  { intros y b (u & Hu & Hb). rewrite Hts. destruct (decide (y = x)) as [->|].
    - rewrite lookup_insert_eq. exists t'. split; [done|]. congruence.
    - rewrite lookup_insert_ne by done. eauto. }
  constructor.
  - rewrite HQ. apply (sr_rep _ _ HS).
  - intros y u. rewrite Hts, HQ. destruct (decide (y = x)) as [->|].
    + rewrite lookup_insert_eq. intros [= <-]. congruence.
    + rewrite lookup_insert_ne by done. apply (sr_thread _ _ HS).
  - intros k p c y Hp Hc Hy. apply Hdum, (sr_member _ _ HS k p c y Hp Hc Hy).
  - intros y u q. rewrite Hts, Hps. destruct (decide (y = x)) as [->|].
    + rewrite lookup_insert_eq. intros [= <-]. rewrite Hpa. by apply (sr_parent _ _ HS x t).
    + rewrite lookup_insert_ne by done. apply (sr_parent _ _ HS).
  - intros q p. rewrite Hps. intros Hp. destruct (sr_process _ _ HS q p Hp) as (? & ? & ? & ? & Hpin).
    split_and!; [done..|]. intros c y Hy. apply Hdum, (Hpin c y Hy).
  - rewrite Hsch. apply (sr_cores _ _ HS).
  - intros c m y. rewrite Hsch. intros Hm Hh. apply Hsome, (sr_highest _ _ HS c m y Hm Hh).
  - intros y Hy%Hwk. apply Hdum. apply elem_of_cons in Hy as [->|Hy]; [by exists t|].
    apply (sr_woken _ _ HS y Hy).
  - rewrite Hcur. apply Hsome, (sr_current _ _ HS).
Qed.

Lemma sched_rep_out (s : ctx) L x t t' :
  sched_rep s L → ctx_threads s !! x = Some t → m_thread_type t' = m_thread_type t →
  m_parent t' = m_parent t → (KThread_IsDummyThread t = false → thread_ok t' ∧ runnable t = false ∧ runnable t' = false) →
  sched_rep (set_threads (<[x := t']> (ctx_threads s)) s) L.
Proof.
  intros HS Ht Hty Hpa Hout. destruct (KThread_IsDummyThread t) eqn:Hd.
  { eapply (sched_rep_dummy s _ L x t t'); try done. cbn. set_solver. }
  destruct (Hout eq_refl) as (Hok & Hr & Hr'). destruct (sr_thread _ _ HS x t Ht Hd) as (_ & _ & Hin).
  eapply (sched_rep_change s _ L L x t t'); try done; [apply (sr_rep _ _ HS)|].
  unfold in_place in *. by rewrite Hr in Hin; rewrite Hr'.
Qed.

(** What the pins need of a changed thread: its mask. *)
Lemma pins_change (s s' : ctx) x t t' :
  pins_ok s → ctx_threads s !! x = Some t →
  m_physical_affinity_mask t' = m_physical_affinity_mask t →
  ctx_threads s' = <[x := t']> (ctx_threads s) → ctx_processes s' = ctx_processes s → pins_ok s'.
Proof.
  intros Hpin Ht Hm Hts Hps q p c y u. rewrite Hps, Hts. intros Hq Hy.
  destruct (decide (y = x)) as [->|].
  - rewrite lookup_insert_eq. intros [= <-]. rewrite Hm. by apply (Hpin q p c x).
  - rewrite lookup_insert_ne by done. by apply (Hpin q p c y).
Qed.

Lemma pins_quiet (s s' : ctx) : quiet s s' → pins_ok s → pins_ok s'.
Proof.
  intros Hq. assert (keeps s (set_update_needed (m_scheduler_update_needed s) s')) as Hk.
  { apply nearly_keeps. split; [|done]. destruct Hq. by constructor. }
  intros Hpin. apply (keeps_pins _ _ Hk Hpin).
Qed.

(** The end of the three notifications: count, and ask for an update. *)
Lemma notify_run (s : ctx) L x t :
  sched_rep s L → pins_ok s → ctx_threads s !! x = Some t →
  ∃ s', IncrementScheduledCount x s = Done true s' ∧ quiet s s' ∧
    quiet s (SetSchedulerUpdateNeeded s') ∧ sched_rep (SetSchedulerUpdateNeeded s') L ∧
    pins_ok (SetSchedulerUpdateNeeded s').
Proof.
  intros HS Hpin Ht. destruct (count_still s L x t HS Ht) as (s1 & E & Hq & _). exists s1.
  assert (quiet s (SetSchedulerUpdateNeeded s1)) as Hq' by (etrans; [exact Hq|apply quiet_update_needed]).
  split_and!; [done..|by apply (quiet_rep s)|by apply (pins_quiet s)].
Qed.

Lemma quiet_same_core (s s' : ctx) : quiet s s' → same_core s s'.
Proof. intros []. done. Qed.

Lemma same_core_trans (s1 s2 s3 : ctx) : same_core s1 s2 → same_core s2 s3 → same_core s1 s3.
Proof. unfold same_core. intros (? & ?) (? & ?). split_and!; congruence. Qed.

(** ** KThread::SetState *)
Lemma Unregister_subset (l : list Z) i back :
  last l = Some back →
  take (length (<[i := back]> l) - 1) (<[i := back]> l) ⊆ l.
Proof.
  intros Hb y Hy. apply elem_of_take in Hy as (j & Hj & _).
  apply list_lookup_insert_Some in Hj as [(_ & <- & _)|(_ & Hj)].
  - by apply last_Some_elem_of.
  - by apply list_elem_of_lookup_2 in Hj.
Qed.

Lemma Unregister_run (s : ctx) x : ctx_locked s = true →
  ∃ l, UnregisterDummyThreadForWakeup x s = Done true (set_woken l s) ∧ l ⊆ m_woken_dummy_threads s.
Proof.
  intros Hl. unfold UnregisterDummyThreadForWakeup, ASSERT. rewrite Hl. pstep.
  destruct (list_find _ _) as [[i y]|] eqn:Ef.
  - destruct (last (m_woken_dummy_threads s)) as [back|] eqn:Eb.
    + unfold deref. pstep. eexists. split; [done|]. by apply Unregister_subset.
    + apply last_None in Eb. rewrite Eb in Ef. done.
  - exists (m_woken_dummy_threads s). split; [by destruct s|done].
Qed.

Lemma woken_rep (s : ctx) L l :
  sched_rep s L →
  (∀ x, x ∈ l → ∃ t, ctx_threads s !! x = Some t ∧ KThread_IsDummyThread t = true) →
  sched_rep (set_woken l s) L.
Proof. intros [] Hl. by constructor. Qed.

(** The queues and threads after a request; pins and the rest as before. *)
Definition requested (s : ctx) (x : Z) (t' : KThread) (Q' : KPriorityQueue) : ctx :=
  set_queue Q' (set_threads (<[x := t']> (ctx_threads s)) s).

Lemma request_dummy r x t Q : KThread_IsDummyThread t = true → request_run r x t Q = Done true Q.
Proof.
  intros Hd. destruct r; cbn; unfold KPriorityQueue_PushBack, KPriorityQueue_Remove, MoveToScheduledFront,
    MoveToScheduledBack, ChangePriority, ChangeAffinityMask, ChangeCore; by rewrite Hd.
Qed.

Lemma requested_run (s : ctx) r L x t t' :
  sched_rep s L → ctx_threads s !! x = Some t → m_thread_type t' = m_thread_type t →
  m_parent t' = m_parent t →
  (KThread_IsDummyThread t = false →
     thread_ok t' ∧ request_pre r x t' L ∧ runnable t' = negb (bool_decide (r = RqRemove))) →
  ∃ Q' L', request_run r x t' (m_priority_queue s) = Done true Q' ∧ sched_rep (requested s x t' Q') L'.
Proof.
  intros HS Ht Hty Hpa Hm. destruct (KThread_IsDummyThread t) eqn:Hd.
  - exists (m_priority_queue s), L. split.
    + apply request_dummy. unfold KThread_IsDummyThread in *. by rewrite Hty.
    + eapply (sched_rep_dummy s _ L x t t'); try done. cbn. set_solver.
  - destruct (Hm eq_refl) as (? & ? & ?).
    destruct (request_sched r s L x t t' HS Ht) as (Q' & E & Hs'); [done..|].
    exists Q', (request_lists r x t' L). split; [done|]. by apply Hs'.
Qed.

Lemma requested_pins (s : ctx) x t t' Q' :
  pins_ok s → ctx_threads s !! x = Some t →
  m_physical_affinity_mask t' = m_physical_affinity_mask t → pins_ok (requested s x t' Q').
Proof. intros. by eapply (pins_change s). Qed.

(** What is done with the list of woken threads when a dummy thread changes. *)
Definition wake_op (x : Z) (f : ctx → prog ctx) : Prop := ∀ (s : ctx) L,
  sched_rep s L → ctx_locked s = true →
  (∃ t, ctx_threads s !! x = Some t ∧ KThread_IsDummyThread t = true) →
  ∃ l, f s = Done true (set_woken l s) ∧ sched_rep (set_woken l s) L.

Lemma Unregister_wake x : wake_op x (UnregisterDummyThreadForWakeup x).
Proof.
  intros s L HS Hl _. destruct (Unregister_run s x Hl) as (l & -> & Hsub).
  exists l. split; [done|]. apply woken_rep; [done|]. intros y Hy. apply (sr_woken _ _ HS), Hsub, Hy.
Qed.

Lemma Register_wake x : wake_op x (RegisterDummyThreadForWakeup x).
Proof.
  intros s L HS Hl Hx. unfold RegisterDummyThreadForWakeup, ASSERT. rewrite Hl. pstep. eexists. split; [done|].
  apply woken_rep; [done|]. intros y [Hy| ->%list_elem_of_singleton]%elem_of_app; [|done].
  apply (sr_woken _ _ HS y Hy).
Qed.

(** After a request: count, ask for an update, and see to a dummy thread. *)
Lemma finish_run (s : ctx) L x t' Q' (f : ctx → prog ctx) :
  sched_rep (requested s x t' Q') L → pins_ok (requested s x t' Q') → ctx_locked s = true →
  wake_op x f →
  wp (s1 ← IncrementScheduledCount x (requested s x t' Q');
      let s1 := SetSchedulerUpdateNeeded s1 in
      if KThread_IsDummyThread t' then f s1 else mret s1)
    (λ s', sched_inv s' ∧ same_core s s').
Proof.
  intros HS Hpin Hl Hf. assert (ctx_threads (requested s x t' Q') !! x = Some t') as Ht' by apply lookup_insert_eq.
  destruct (notify_run _ L x t' HS Hpin Ht') as (s1 & E & _ & Hq & HS1 & Hpin1). rewrite E. pstep.
  pose proof (quiet_same_core _ _ Hq) as Hsc. destruct (KThread_IsDummyThread t') eqn:Hd.
  - destruct (quiet_thread _ _ x t' Hq Ht') as (u & Hu & Hv).
    destruct (Hf _ L HS1) as (l & -> & HS2).
    + by destruct Hsc as (_ & ->).
    + exists u. by rewrite (view_dummy _ _ Hv).
    + apply wp_Done. split; [|exact Hsc]. split; [by exists L|exact Hpin1].
  - apply wp_ret. split; [|exact Hsc]. split; [by exists L|exact Hpin1].
Qed.

Lemma finish_plain (s : ctx) L x t' Q' :
  sched_rep (requested s x t' Q') L → pins_ok (requested s x t' Q') →
  wp (s1 ← IncrementScheduledCount x (requested s x t' Q'); mret (SetSchedulerUpdateNeeded s1))
    (λ s', sched_inv s' ∧ same_core s s').
Proof.
  intros HS Hpin. assert (ctx_threads (requested s x t' Q') !! x = Some t') as Ht' by apply lookup_insert_eq.
  destruct (notify_run _ L x t' HS Hpin Ht') as (s1 & E & _ & Hq & HS1 & Hpin1). rewrite E. pstep.
  apply wp_ret. split; [|apply (quiet_same_core _ _ Hq)]. split; [by exists L|done].
Qed.

Lemma same_place t t' L x :
  m_priority t' = m_priority t → m_core_id t' = m_core_id t →
  m_physical_affinity_mask t' = m_physical_affinity_mask t →
  at_place x (thread_place t) L → at_place x (thread_place t') L.
Proof. unfold thread_place. by intros -> -> ->. Qed.

Lemma SetState_run (s : ctx) x t state :
  sched_inv s → ctx_locked s = true → ctx_threads s !! x = Some t →
  wp (KThread_SetState x state s) (λ s', sched_inv s' ∧ same_core s s').
Proof.
  intros ([L HS] & Hpin) Hl Ht. unfold KThread_SetState. rewrite (get_thread_run _ _ t) by done. pstep.
  set (new := Z.lor _ _). rewrite (change_thread_run _ x t) by done. pstep.
  set (t' := set_thread_state new t). set (s1 := set_threads _ s).
  destruct (new =? m_thread_state t) eqn:En; bool_prop; cbn [negb].
  { assert (quiet s s1) as Hq by (apply quiet_change_thread; [done|]; unfold thread_view; cbn; congruence).
    apply wp_ret. split; [|by apply quiet_same_core].
    split; [exists L; by apply (quiet_rep s)|by apply (pins_quiet s)]. }
  unfold OnThreadStateChanged, IsSchedulerLockedByCurrentThread, ASSERT. cbn [s1 set_threads ctx_locked].
  rewrite Hl. pstep. rewrite (get_thread_run _ _ t') by apply lookup_insert_eq. pstep.
  cbn [t' set_thread_state m_thread_state]. rewrite (proj2 (Z.eqb_neq _ _) En).
  pose proof (sr_thread _ _ HS x t Ht) as Hth. unfold in_place in Hth. fold (runnable t).
  change (new =? ThreadState_Runnable) with (runnable t').
  destruct (runnable t) eqn:Er; [|destruct (runnable t') eqn:Er'].
  - destruct (requested_run s RqRemove L x t t' HS Ht) as (Q' & L' & E & HS'); [done|done| |].
    { intros Hd. destruct (Hth Hd) as (_ & Hok & Hat). split_and!; [done|done|].
      unfold runnable in *. bool_prop. cbn. apply Z.eqb_neq. congruence. }
    cbn [request_run] in E. change (m_priority_queue s1) with (m_priority_queue s).
    fold t'. rewrite E. pstep.
    eapply (finish_run s L' x t' Q'); [done|by eapply requested_pins|done|apply Unregister_wake].
  - destruct (requested_run s RqPushBack L x t t' HS Ht) as (Q' & L' & E & HS'); [done|done| |].
    { intros Hd. destruct (Hth Hd) as (_ & Hok & Hat). split_and!; [done|done|done]. }
    cbn [request_run] in E. change (m_priority_queue s1) with (m_priority_queue s).
    fold t'. rewrite E. pstep.
    eapply (finish_run s L' x t' Q'); [done|by eapply requested_pins|done|apply Register_wake].
  - apply wp_ret. split; [|done]. split; [exists L|by apply (pins_change s s1 x t t')].
    apply (sched_rep_out s L x t t'); try done. intros Hd. destruct (Hth Hd) as (_ & Hok & _). done.
Qed.

(** ** A changed priority or affinity *)
Lemma place_view t L x p :
  runnable t = true → in_place x t L → m_priority t = p →
  at_place x (place p (m_core_id t) (m_physical_affinity_mask t)) L.
Proof. unfold in_place. intros -> ? <-. done. Qed.

Lemma PriorityChanged_run (s : ctx) x t p :
  sched_inv s → ctx_locked s = true → ctx_threads s !! x = Some t → 0 ≤ p ≤ NumPriority →
  wp (s1 ← change_thread x (KThread_SetPriority p) s; OnThreadPriorityChanged x (m_priority t) s1)
    (λ s', sched_inv s' ∧ same_core s s').
Proof.
  intros ([L HS] & Hpin) Hl Ht Hp. rewrite (change_thread_run _ x t) by done. pstep.
  set (t' := KThread_SetPriority p t). set (s1 := set_threads _ s).
  unfold OnThreadPriorityChanged, IsSchedulerLockedByCurrentThread, ASSERT. cbn [s1 set_threads ctx_locked].
  rewrite Hl. pstep. rewrite (get_thread_run _ _ t') by apply lookup_insert_eq. pstep.
  pose proof (sr_thread _ _ HS x t Ht) as Hth. change (_ =? ThreadState_Runnable) with (runnable t).
  destruct (runnable t) eqn:Er.
  - destruct (requested_run s (RqPriority (m_priority t) (x =? ctx_current s)) L x t t' HS Ht)
      as (Q' & L' & E & HS'); [done|done| |].
    { intros Hd. destruct (Hth Hd) as (_ & [H1 H2 H3 H4] & Hat). split_and!; [by constructor| |done].
      split; [done|]. by apply (place_view t). }
    cbn [request_run] in E. change (m_priority_queue s1) with (m_priority_queue s).
    change (ctx_current s1) with (ctx_current s). rewrite E. pstep.
    eapply (finish_plain s L' x t' Q'); [done|by eapply requested_pins].
  - apply wp_ret. split; [|done]. split; [exists L|by apply (pins_change s s1 x t t')].
    apply (sched_rep_out s L x t t'); try done. intros Hd. destruct (Hth Hd) as (_ & [H1 H2 H3 H4] & _).
    split_and!; [by constructor|done|done].
Qed.

(** The thread is not pinned, or keeps its mask. *)
Definition unpinned (s : ctx) (x : Z) : Prop := ∀ q p c,
  ctx_processes s !! q = Some p → m_pinned_threads p !! c ≠ Some (Some x).

Lemma AffinityChanged_run (s : ctx) x t core mask :
  sched_inv s → ctx_locked s = true → ctx_threads s !! x = Some t → unpinned s x →
  place_ok (m_priority t) core mask →
  wp (s1 ← change_thread x (set_core_mask core mask) s;
      OnThreadAffinityMaskChanged x (m_physical_affinity_mask t) (m_core_id t) s1)
    (λ s', sched_inv s' ∧ same_core s s').
Proof.
  intros ([L HS] & Hpin) Hl Ht Hun Hp. rewrite (change_thread_run _ x t) by done. pstep.
  set (t' := set_core_mask core mask t). set (s1 := set_threads _ s).
  assert (∀ s' : ctx, ctx_threads s' = ctx_threads s1 → ctx_processes s' = ctx_processes s → pins_ok s') as Hpins.
  { intros s' Hts Hps q p c y u. rewrite Hts, Hps. intros Hq Hy. cbn [s1 set_threads ctx_threads].
    destruct (decide (y = x)) as [->|]; [by destruct (Hun q p c Hq)|].
    rewrite lookup_insert_ne by done. by apply (Hpin q p c y). }
  unfold OnThreadAffinityMaskChanged, IsSchedulerLockedByCurrentThread, ASSERT. cbn [s1 set_threads ctx_locked].
  rewrite Hl. pstep. rewrite (get_thread_run _ _ t') by apply lookup_insert_eq. pstep.
  pose proof (sr_thread _ _ HS x t Ht) as Hth. change (_ =? ThreadState_Runnable) with (runnable t).
  destruct (runnable t) eqn:Er.
  - destruct (requested_run s (RqAffinity (m_core_id t) (m_physical_affinity_mask t)) L x t t' HS Ht)
      as (Q' & L' & E & HS'); [done|done| |].
    { intros Hd. destruct (Hth Hd) as (_ & Hok & Hat). split_and!; [done| |done].
      split; [done|]. by apply (place_view t). }
    cbn [request_run] in E. change (m_priority_queue s1) with (m_priority_queue s). rewrite E. pstep.
    eapply (finish_plain s L' x t' Q'); [done|by apply Hpins].
  - apply wp_ret. split; [|done]. split; [exists L|by apply Hpins].
    by apply (sched_rep_out s L x t t').
Qed.

(** ** Rotation *)
Definition good (s s' : ctx) : Prop := (∃ L, sched_rep s' L) ∧ keeps s s'.

Lemma good_refl (s : ctx) L : sched_rep s L → good s s.
Proof. intros HS. split; [by exists L|done]. Qed.

Lemma good_trans (s1 s2 s3 : ctx) : good s1 s2 → good s2 s3 → good s1 s3.
Proof. intros (_ & ?) (? & ?). split; [done|by etrans]. Qed.

Lemma still_good (s s' : ctx) L : sched_rep s L → still s s' → good s s'.
Proof.
  intros HS Hst. split; [exists L; by apply (still_rep s)|]. by apply nearly_keeps, still_nearly.
Qed.

Lemma migrate_counted_run (s : ctx) L c x front :
  sched_rep s L → valid_core c → x ∈ flat L Suggested c →
  wp (migrate_counted c x front s) (good s).
Proof.
  intros HS Hc Hx. destruct (flat_member s L Suggested c x HS Hc Hx) as (t & Ht & _).
  unfold migrate_counted. destruct (migrate_run s L x t c front HS Ht Hc Hx) as (s1 & -> & HS1 & E1). pstep.
  pose proof (moved_keeps s s1 x t c _ Ht E1) as Hk.
  assert (is_Some (ctx_threads s1 !! x)) as [t1 Ht1] by (apply Hk; by eexists).
  destruct (count_still s1 _ x t1 HS1 Ht1) as (s2 & -> & Hst). apply wp_Done.
  eapply good_trans; [split; [by eexists|exact Hk]|by eapply still_good].
Qed.

Lemma scheduled_top_run (s : ctx) L c :
  sched_rep s L → c < NumCores →
  ∃ o, scheduled_top s c = Done true o ∧ (∀ x, o = Some x → is_Some (ctx_threads s !! x)).
Proof.
  intros HS Hc. unfold scheduled_top. destruct (0 <=? c) eqn:E0; bool_prop; [|by exists None].
  assert (valid_core c) as Hv by (split; lia). rewrite (GetScheduledFront_run s L c HS Hv).
  eexists. split; [done|]. intros x Hh.
  destruct (flat_member s L Scheduled c x HS Hv) as (t & ? & _); [|by eexists].
  destruct (flat L Scheduled c); [done|]. cbn in Hh. simplify_eq. left.
Qed.

Lemma rotate_suggested_run (s : ctx) L c top next x :
  sched_rep s L → valid_core c → x ∈ flat L Suggested c →
  (∀ y, next = Some y → is_Some (ctx_threads s !! y)) →
  wp (rotate_suggested c top next s () x) (λ r, match r with inl _ => True | inr s' => good s s' end).
Proof.
  intros HS Hc Hx Hnext. destruct (flat_member s L Suggested c x HS Hc Hx) as (t & Ht & _ & _ & [_ Hcore _ _] & _).
  unfold rotate_suggested. rewrite (get_thread_run _ _ t) by done. pstep.
  destruct (scheduled_top_run s L (m_core_id t) HS) as (o & -> & Ho); [lia|]. pstep.
  case_bool_decide; [|by apply wp_ret].
  assert (∃ b, match next with
    | Some y => if bool_decide (top ≠ Some y)
        then tn ← get_thread s y; mret (m_last_scheduled_tick tn <? m_last_scheduled_tick t)
        else mret false
    | None => mret false end = Done true b) as [b ->].
  { destruct next as [y|]; [|by eexists]. destruct (bool_decide _); [|by eexists].
    destruct (Hnext y eq_refl) as [ty Hty]. rewrite (get_thread_run _ _ ty) by done. pstep. by eexists. }
  pstep. destruct b; [apply wp_ret; by eapply good_refl|].
  destruct (too_high_run s o Ho) as [b ->]. pstep. destruct b; cbn [negb]; [by apply wp_ret|].
  rewrite wp_bind. eapply wp_mono; [by apply (migrate_counted_run s L)|]. intros s' Hs'. by apply wp_ret.
Qed.

Lemma rotate_better_run (s : ctx) L c best x :
  sched_rep s L → valid_core c → x ∈ flat L Suggested c →
  wp (rotate_better c best s () x) (λ r, match r with inl _ => True | inr s' => good s s' end).
Proof.
  intros HS Hc Hx. destruct (flat_member s L Suggested c x HS Hc Hx) as (t & Ht & _ & _ & [_ Hcore _ _] & _).
  unfold rotate_better. rewrite (get_thread_run _ _ t) by done. pstep.
  destruct (best <=? m_priority t); [apply wp_ret; by eapply good_refl|].
  destruct (scheduled_top_run s L (m_core_id t) HS) as (o & -> & Ho); [lia|]. pstep.
  case_bool_decide; [|by apply wp_ret].
  destruct (too_high_run s o Ho) as [b ->]. pstep. destruct b; cbn [negb]; [by apply wp_ret|].
  rewrite wp_bind. eapply wp_mono; [by apply (migrate_counted_run s L)|]. intros s' Hs'. by apply wp_ret.
Qed.

(** A walk whose body ends in a good state. *)
Lemma walk_good {A R} (s : ctx) (next : Z → prog (option Z)) (body : A → Z → prog (A + R)) (P : R → Prop) l fuel a :
  (length l ≤ fuel)%nat →
  (∀ l1 x l2, l = l1 ++ x :: l2 → next x = Done true (head l2)) →
  (∀ x a, x ∈ l → wp (body a x) (λ r, match r with inl _ => True | inr r => P r end)) →
  wp (walk fuel next body a (head l)) (λ r, match r with inl _ => True | inr r => P r end).
Proof.
  intros Hf Hn Hb. apply (walk_run (λ _ _, True) P next body l []); [done|eauto| |done].
  intros l1 x l2 a' Hl _. apply Hb. cbn [app] in Hl. rewrite Hl. set_solver.
Qed.
End Operations.
