(* ===== verification/SchedulerTheorems.v ===== *)
(** * Rotation, yielding, and the properties of the scheduler *)

From S2P Require Import Prelude Common PageBitmap PageBitmapLemmas Thread PriorityQueue PriorityQueueLemmas PriorityQueueTheorems PriorityQueueRefinement Scheduler SchedulerLemmas SchedulerSelect SchedulerOperations.

Section Rotate.
Context {C : Type} `{Clock C}.
Local Abbreviation ctx := (SchedulerContext C).

Lemma keeps_queue (s : ctx) Q : keeps s (set_queue Q s).
Proof. split_and!; try done; eauto 10. Qed.

(** The thread goes to the back of its scheduled queue. *)
Lemma MoveBack_sched (s : ctx) L x t :
  sched_rep s L → ctx_threads s !! x = Some t → KThread_IsDummyThread t = false →
  runnable t = true → valid_prio (m_priority t) → 0 ≤ m_core_id t →
  ∃ Q', MoveToScheduledBack x t (m_priority_queue s) =
      Done true (head (requeue x t L OpBack Scheduled (m_priority t) (m_core_id t)), Q') ∧
    sched_rep (set_queue Q' s) (requeue x t L OpBack) ∧ valid_core (m_core_id t).
Proof.
  intros HS Ht Hd Hr Hp Hc. destruct (sr_thread _ _ HS x t Ht Hd) as (Hk & Hok & Hat).
  unfold in_place in Hat. rewrite Hr in Hat.
  destruct (at_place_scheduled x t L Hok Hat) as (_ & Hv & Hin); [apply Hp|done|].
  destruct (MoveToScheduledBack_run x t (m_priority_queue s) L (sr_rep _ _ HS) Hk Hd Hp Hv Hin) as (Q1 & E1 & _).
  destruct (request_sched RqMoveToBack s L x t t HS Ht) as (Q2 & E2 & Hs'); [done..| |done|].
  { split_and!; [done|apply Hp|done]. }
  cbn [request_run] in E2. rewrite E1, bind_Done_true in E2. injection E2 as <-.
  exists Q1. split_and!; [done| |done..]. apply Hs'; [done| |done]. symmetry. by apply insert_id.
Qed.

Lemma head_member (s : ctx) L k p c x :
  sched_rep s L → valid_prio p → valid_core c → head (L k p c) = Some x → is_Some (ctx_threads s !! x).
Proof.
  intros HS Hp Hc Hh. destruct (sr_member _ _ HS k p c x Hp Hc) as (t & Ht & _); [|by eexists].
  destruct (L k p c); [done|]. cbn in Hh. simplify_eq. left.
Qed.

Lemma head_flat_some (s : ctx) L k c x :
  sched_rep s L → valid_core c → head (flat L k c) = Some x → x ∈ flat L k c ∧ is_Some (ctx_threads s !! x).
Proof.
  intros HS Hc Hh. assert (x ∈ flat L k c) as Hin.
  { destruct (flat L k c); [done|]. cbn in Hh. simplify_eq. left. }
  split; [done|]. destruct (flat_member s L k c x HS Hc Hin) as (t & ? & _). by eexists.
Qed.

Lemma good_some (s s' : ctx) x : good s s' → is_Some (ctx_threads s !! x) → is_Some (ctx_threads s' !! x).
Proof. intros (_ & (_ & _ & _ & _ & _ & Hs & _)). apply Hs. Qed.

(** Counting keeps the state good. *)
Lemma count_good (s : ctx) L x :
  sched_rep s L → is_Some (ctx_threads s !! x) →
  ∃ s', IncrementScheduledCount x s = Done true s' ∧ good s s' ∧ sched_rep s' L.
Proof.
  intros HS [t Ht]. destruct (count_still s L x t HS Ht) as (s' & E & Hst). exists s'.
  split_and!; [done|by eapply still_good|by apply (still_rep s)].
Qed.

Lemma GetScheduledFront_at_run (s : ctx) L c p :
  sched_rep s L → valid_core c → valid_prio p →
  GetScheduledFront_at (m_priority_queue s) c p = Done true (head (L Scheduled p c)).
Proof. intros HS Hc Hp. apply (impl_GetFront_at_run _ L Scheduled c (sr_rep _ _ HS) Hc p Hp). Qed.

Lemma GetSuggestedFront_at_run (s : ctx) L c p :
  sched_rep s L → valid_core c → valid_prio p →
  GetSuggestedFront_at (m_priority_queue s) c p = Done true (head (L Suggested p c)).
Proof. intros HS Hc Hp. apply (impl_GetFront_at_run _ L Suggested c (sr_rep _ _ HS) Hc p Hp). Qed.

Lemma rotate_front_run (s : ctx) L c p :
  sched_rep s L → valid_core c → valid_prio p →
  ∃ top next s', rotate_front c p s = Done true (top, next, s') ∧ good s s' ∧
    (∀ y, next = Some y → is_Some (ctx_threads s' !! y)).
Proof.
  intros HS Hc Hp. unfold rotate_front. rewrite (GetScheduledFront_at_run s L c p HS Hc Hp). pstep.
  destruct (head (L Scheduled p c)) as [top|] eqn:Eh.
  2:{ exists None, None, s. split_and!; [done|by eapply good_refl|done]. }
  assert (top ∈ L Scheduled p c) as Hin by (destruct (L Scheduled p c); [done|]; cbn in Eh; simplify_eq; left).
  destruct (flat_member s L Scheduled c top HS Hc) as (t & Ht & Hd & Hr & _ & _ & Hat & _ & Hcore).
  { apply elem_of_flat. by exists p. }
  assert (p = m_priority t) as -> by (eapply place_prio; by apply Hat).
  rewrite (get_thread_run _ _ t) by done. pstep. subst c.
  destruct (MoveBack_sched s L top t HS Ht Hd Hr Hp) as (Q' & -> & HS' & _); [apply Hc|]. pstep.
  set (next := head _). set (s1 := set_queue Q' s) in *.
  assert (∀ y, next = Some y → is_Some (ctx_threads s1 !! y)) as Hn by (intros y; by apply (head_member s1)).
  assert (good s s1) as Hg by (split; [by eexists|apply keeps_queue]).
  case_bool_decide as Hne.
  - destruct (count_good s1 _ top HS') as (s2 & -> & Hg2 & HS2); [by eexists|]. pstep.
    assert (∃ y, next = Some y) as [y Ey].
    { unfold next, requeue, upd_list. rewrite decide_True by done. cbn [qop_list].
      destruct (filter _ _); by eexists. }
    rewrite Ey. unfold deref. pstep.
    destruct (count_good s2 _ y HS2) as (s3 & -> & Hg3 & HS3); [eapply good_some; [exact Hg2|by apply Hn]|]. pstep.
    exists (Some top), (Some y), s3. split_and!; [done|eauto using good_trans|].
    intros z [= <-]. eapply good_some; [exact Hg3|]. eapply good_some; [exact Hg2|]. by apply Hn.
  - exists (Some top), next, s1. pstep. by split_and!.
Qed.

Lemma GetSamePriorityNext_run (s : ctx) L k p c l1 x l2 :
  sched_rep s L → valid_core c → valid_prio p → L k p c = l1 ++ x :: l2 →
  GetSamePriorityNext (m_priority_queue s) c x = Done true (head l2).
Proof.
  intros HS Hc Hp Hl. unfold GetSamePriorityNext, GetPriorityQueueEntry, deref.
  rewrite (member_entry _ L k c (sr_rep _ _ HS) Hc p x l1 l2 Hp Hl). by pstep.
Qed.

Lemma queue_fuel (s : ctx) L k p c :
  sched_rep s L → valid_core c → valid_prio p → (length (L k p c) ≤ walk_fuel s)%nat.
Proof.
  intros HS Hc Hp. etrans; [|by apply (flat_fuel s L k c)]. unfold flat.
  rewrite (flat_from_split L k c _ 0 p) by (destruct Hp; lia). rewrite !length_app. lia.
Qed.

Definition good_end {A} (s : ctx) (r : A + ctx) : Prop :=
  match r with inl _ => True | inr s' => good s s' end.

Lemma walked_good {A} (s : ctx) L (r : A + ctx) : sched_rep s L → good_end s r → good s (walked s r).
Proof. intros HS Hr. destruct r; cbn; [by eapply good_refl|done]. Qed.

Lemma rotate_best_run (s : ctx) L c priority :
  sched_rep s L → valid_core c →
  wp (best_thread ← GetScheduledFront (m_priority_queue s) c;
      best_thread ← (if bool_decide (best_thread = Some (ctx_current s)) then
                       t ← get_thread s (ctx_current s);
                       GetScheduledNext (m_priority_queue s) c (ctx_current s) t
                     else mret best_thread);
      s ← (match best_thread with
           | None => mret s
           | Some best =>
               t ← get_thread s best;
               if priority <=? m_priority t then
                 suggested ← GetSuggestedFront (m_priority_queue s) c;
                 r ← walk (walk_fuel s) (suggested_next s c)
                       (rotate_better c (m_priority t) s) () suggested;
                 mret (walked s r)
               else mret s
           end);
      mret (SetSchedulerUpdateNeeded s)) (λ s', ∃ s1, good s s1 ∧ s' = SetSchedulerUpdateNeeded s1).
Proof.
  intros HS Hc. rewrite (GetScheduledFront_run s L c HS Hc). pstep.
  set (P := λ s', ∃ s1, good s s1 ∧ s' = SetSchedulerUpdateNeeded s1).
  set (m := if bool_decide _ then _ else _).
  assert (∃ o, m = Done true o ∧ ∀ x, o = Some x → is_Some (ctx_threads s !! x)) as (o & -> & Ho).
  { unfold m. case_bool_decide as Hh; [|eexists; split; [done|]; intros x Hx; by eapply head_flat_some].
    destruct (head_flat_some s L Scheduled c _ HS Hc Hh) as (Hin & t & Ht).
    rewrite (get_thread_run _ _ t) by done. pstep.
    destruct (flat L Scheduled c) as [|y l] eqn:El; [done|]. cbn in Hh. injection Hh as ->.
    pose proof (sched_next s L Scheduled c [] _ l t HS Hc El Ht) as En. cbn [pq_impl] in En.
    unfold GetScheduledNext. rewrite En. eexists. split; [done|]. intros x Hx.
    destruct (flat_member s L Scheduled c x HS Hc) as (tx & ? & _); [|by eexists].
    rewrite El. right. destruct l; [done|]. cbn in Hx. simplify_eq. left. }
  pstep. rewrite wp_bind. apply (wp_mono _ (good s)); [|intros s' Hs'; apply wp_ret; by exists s'].
  destruct o as [best|]; [|apply wp_ret; by eapply good_refl].
  destruct (Ho best eq_refl) as [t Ht]. rewrite (get_thread_run _ _ t) by done. pstep.
  destruct (priority <=? m_priority t); [|apply wp_ret; by eapply good_refl].
  rewrite (GetSuggestedFront_run s L c HS Hc). pstep. rewrite wp_bind.
  eapply wp_mono; [apply (walk_good s _ _ (good s) (flat L Suggested c))|].
  - by apply flat_fuel.
  - intros l1 x l2 Hl. by apply (suggested_next_run s L c l1).
  - intros x [] Hx. by apply (rotate_better_run s L).
  - intros r Hr. apply wp_ret. by eapply walked_good.
Qed.

Lemma Rotate_run (s : ctx) c p :
  sched_inv s → ctx_locked s = true → valid_core c → valid_prio p →
  wp (RotateScheduledQueue c p s) (λ s', ∃ s1, good s s1 ∧ s' = SetSchedulerUpdateNeeded s1).
Proof.
  intros ([L HS] & _) Hl Hc Hp. unfold RotateScheduledQueue, IsSchedulerLockedByCurrentThread, ASSERT.
  rewrite Hl. pstep. destruct (rotate_front_run s L c p HS Hc Hp) as (top & next & s1 & -> & Hg & Hn). pstep.
  destruct Hg as ([L1 HS1] & Hk1).
  rewrite (GetSuggestedFront_at_run s1 L1 c p HS1 Hc Hp). pstep. rewrite wp_bind.
  eapply wp_mono; [apply (walk_good s1 _ _ (good s1) (L1 Suggested p c))|].
  - by apply queue_fuel.
  - intros l1 x l2 Hl1. by apply (GetSamePriorityNext_run s1 L1 Suggested p c l1).
  - intros x [] Hx. apply (rotate_suggested_run s1 L1); [done|done| |done]. apply elem_of_flat. by exists p.
  - intros r Hr. pose proof (walked_good s1 L1 r HS1 Hr) as Hg2. pose proof Hg2 as ([L2 HS2] & Hk2).
    eapply wp_mono; [by apply (rotate_best_run (walked s1 r) L2)|]. intros s' (s3 & Hg3 & ->).
    exists s3. split; [|done]. eapply good_trans; [|exact Hg3]. eapply good_trans; [|exact Hg2].
    split; [by exists L1|done].
Qed.

Lemma good_inv (s s' : ctx) : pins_ok s → good s s' → sched_inv s' ∧ same_core s s'.
Proof.
  intros Hpin (HL & Hk). split; [split; [done|by apply (keeps_pins s)]|].
  by destruct Hk as (? & ? & _).
Qed.

Lemma needed_inv (s s' : ctx) : sched_inv s' ∧ same_core s s' →
  sched_inv (SetSchedulerUpdateNeeded s') ∧ same_core s (SetSchedulerUpdateNeeded s').
Proof.
  intros (([L HS] & Hpin) & Hsc). split; [|exact Hsc]. split.
  - exists L. apply (quiet_rep s'); [apply quiet_update_needed|done].
  - apply (pins_quiet s'); [apply quiet_update_needed|done].
Qed.

Lemma Rotate_inv (s : ctx) c p :
  sched_inv s → ctx_locked s = true → valid_core c → valid_prio p →
  wp (RotateScheduledQueue c p s) (λ s', sched_inv s' ∧ same_core s s').
Proof.
  intros HI Hl Hc Hp. eapply wp_mono; [by apply Rotate_run|]. intros s' (s1 & Hg & ->).
  apply needed_inv, good_inv; [apply HI|done].
Qed.

Lemma preempt_cores_inv ps : ∀ (s : ctx) c,
  sched_inv s → ctx_locked s = true → 0 ≤ c → c + Z.of_nat (length ps) ≤ NumCores → Forall valid_prio ps →
  wp (preempt_cores c ps s) (λ s', sched_inv s' ∧ same_core s s').
Proof.
  induction ps as [|p ps IH]; intros s c HI Hl Hc Hn Hps; cbn [preempt_cores]; [by apply wp_ret|].
  apply Forall_cons in Hps as [Hp Hps]. cbn in Hn. rewrite wp_bind.
  eapply wp_mono; [apply Rotate_inv; [done|done|split; lia|done]|]. intros s1 (HI1 & Hsc).
  eapply wp_mono; [apply IH; [done| |lia|lia|done]|].
  - by destruct Hsc as (_ & ->).
  - intros s2 (HI2 & Hsc2). split; [done|]. by eapply same_core_trans.
Qed.

Lemma PreemptThreads_inv (s : ctx) :
  sched_inv s → ctx_locked s = true → wp (PreemptThreads s) (λ s', sched_inv s' ∧ same_core s s').
Proof.
  intros HI Hl. unfold PreemptThreads, IsSchedulerLockedByCurrentThread, ASSERT. rewrite Hl. pstep.
  apply preempt_cores_inv; [done|done|lia|done|]. repeat constructor; done.
Qed.

(** ** Yields *)
Record can_yield (s : ctx) (t : KThread) (q : Z) : Prop := MkCanYield {
  cy_schedule : CanSchedule s = true;
  cy_current : ctx_threads s !! ctx_current s = Some t;
  cy_parent : m_parent t = Some q;
  cy_dummy : KThread_IsDummyThread t = false;
  cy_prio : valid_prio (m_priority t);
  cy_core : 0 ≤ m_core_id t
}.

(** A thread that has yielded since its process was last scheduled, or that is
    no longer runnable, does not yield. *)
Definition skips_yield (t : KThread) (p : KProcess) : bool :=
  (m_yield_schedule_count t =? m_schedule_count p) || negb (runnable t).

Lemma yield_run (s : ctx) L t q f P :
  sched_rep s L → can_yield s t q →
  (∀ p, ctx_processes s !! q = Some p → skips_yield t p = true → P s) →
  (∀ p, ctx_processes s !! q = Some p → skips_yield t p = false → runnable t = true →
     wp (f (ctx_current s) t p s) P) →
  wp (yield f s) P.
Proof.
  intros HS [Hcs Ht Hq Hd Hp Hc] HP Hf. unfold yield, ASSERT. rewrite Hcs. pstep.
  rewrite (get_thread_run _ _ t) by done. pstep. rewrite Hq, bool_decide_true by done. pstep.
  destruct (sr_parent _ _ HS _ t q Ht Hq) as [p Hpr].
  unfold get_process, deref. rewrite Hpr. pstep. specialize (HP p Hpr). specialize (Hf p Hpr).
  unfold skips_yield in *.
  destruct (_ =? m_schedule_count p); [apply wp_ret; auto|]. fold (runnable t).
  destruct (runnable t) eqn:Er; [|apply wp_ret; auto]. by apply Hf.
Qed.

Lemma note_yield_run (s : ctx) L x t q :
  sched_rep s L → ctx_threads s !! x = Some t → m_parent t = Some q →
  ∃ s', note_yield x s = Done true s' ∧ still s s'.
Proof.
  intros HS Ht Hq. unfold note_yield. rewrite (get_thread_run _ _ t) by done. pstep. rewrite Hq. unfold deref at 1. pstep.
  destruct (sr_parent _ _ HS x t q Ht Hq) as [p Hp].
  unfold get_process, deref. rewrite Hp. pstep. rewrite (change_thread_run _ x t) by done.
  eexists. split; [done|]. split_and!; [|done|done]. by apply quiet_change_thread.
Qed.

(** The parent of a thread stays. *)
Lemma keeps_parent (s s' : ctx) x t q :
  keeps s s' → ctx_threads s !! x = Some t → m_parent t = Some q →
  ∃ t', ctx_threads s' !! x = Some t' ∧ m_parent t' = Some q.
Proof.
  intros (_ & _ & _ & _ & Hth & Hs & _) Ht Hq. destruct (Hs x ltac:(by eexists)) as [t' Ht'].
  exists t'. split; [done|]. destruct (Hth x t' Ht') as (t0 & Ht0 & _ & _ & _ & ->). congruence.
Qed.

Lemma note_good (s s1 : ctx) x t q :
  good s s1 → ctx_threads s !! x = Some t → m_parent t = Some q →
  wp (note_yield x s1) (good s).
Proof.
  intros ([L HS] & Hk) Ht Hq. destruct (keeps_parent s s1 x t q Hk Ht Hq) as (t1 & Ht1 & Hq1).
  destruct (note_yield_run s1 L x t1 q HS Ht1 Hq1) as (s2 & -> & Hst). apply wp_Done.
  eapply good_trans; [split; [by exists L|exact Hk]|by eapply still_good].
Qed.

(** A good state, up to the flag that asks for an update. *)
Definition fine (s s' : ctx) : Prop := ∃ s1, good s s1 ∧ (s' = s1 ∨ s' = SetSchedulerUpdateNeeded s1).

Lemma fine_inv (s s' : ctx) : pins_ok s → fine s s' → sched_inv s' ∧ same_core s s'.
Proof.
  intros Hpin (s1 & Hg & [->| ->]); [by apply good_inv|]. by apply needed_inv, good_inv.
Qed.

(** The current thread at the back of its queue. *)
Lemma to_back_run (s : ctx) L t q :
  sched_rep s L → can_yield s t q → runnable t = true →
  ∃ next Q s1, MoveToScheduledBack (ctx_current s) t (m_priority_queue s) = Done true (next, Q) ∧
    IncrementScheduledCount (ctx_current s) (set_queue Q s) = Done true s1 ∧
    next = head (requeue (ctx_current s) t L OpBack Scheduled (m_priority t) (m_core_id t)) ∧
    sched_rep s1 (requeue (ctx_current s) t L OpBack) ∧ good s s1 ∧
    valid_core (m_core_id t) ∧ (∀ y, next = Some y → is_Some (ctx_threads s1 !! y)) ∧ next ≠ None.
Proof.
  intros HS [Hcs Ht Hq Hd Hp Hc] Hr.
  destruct (MoveBack_sched s L _ t HS Ht Hd Hr Hp Hc) as (Q & E & HS1 & Hv).
  destruct (count_good (set_queue Q s) _ (ctx_current s) HS1) as (s1 & E1 & Hg & HS2); [by eexists|].
  eexists _, Q, s1. do 4 (split; [done|]). split; [|split; [exact Hv|split]].
  - eapply good_trans; [|exact Hg]. split; [by eexists|apply keeps_queue].
  - intros y Hy. eapply head_member; [exact HS2|done..|exact Hy].
  - unfold requeue, upd_list. rewrite decide_True by done. cbn [qop_list]. by destruct (filter _ _).
Qed.

Lemma same_queue_only x t L (l := filter (λ y, y ≠ x) (L Scheduled (m_priority t) (m_core_id t))) :
  head (requeue x t L OpBack Scheduled (m_priority t) (m_core_id t)) = Some x ↔ l = [].
Proof.
  unfold requeue, upd_list. rewrite decide_True by done. cbn [qop_list]. fold l.
  assert (x ∉ l) as Hx by (unfold l; rewrite list_elem_of_filter; naive_solver).
  destruct l as [|y l']; cbn; [done|]. split; [|done]. intros [= ->]. set_solver.
Qed.

(** What a yield that stays on its core does: the thread goes to the back of its
    queue, and an update is asked for when another thread is in the queue. *)
Definition yielded (s : ctx) (L : Lists) (t : KThread) (p : KProcess) (s' : ctx) : Prop :=
  if skips_yield t p then s' = s
  else
    sched_rep s' (requeue (ctx_current s) t L OpBack) ∧
    m_scheduler_update_needed s' =
      (m_scheduler_update_needed s ||
       bool_decide (filter (λ y, y ≠ ctx_current s) (L Scheduled (m_priority t) (m_core_id t)) ≠ [])).

Lemma YieldWithoutCoreMigration_run (s : ctx) L t q :
  sched_rep s L → can_yield s t q →
  wp (YieldWithoutCoreMigration s) (λ s', fine s s' ∧ ∃ p, ctx_processes s !! q = Some p ∧ yielded s L t p s').
Proof.
  intros HS Hcy. unfold yielded. eapply yield_run; [done|done| |].
  { intros p Hp Hsk. split; [exists s; split; [by eapply good_refl|by left]|]. exists p. by rewrite Hsk. }
  intros p Hp Hsk Hr. destruct (to_back_run s L t q HS Hcy Hr) as (next & Q & s1 & -> & E1 & En & HS1 & Hg & Hv & Hn & _).
  pstep. rewrite E1. pstep. pose proof Hg as (_ & (_ & _ & Hup & _)).
  pose proof (same_queue_only (ctx_current s) t L) as Honly. rewrite <- En in Honly.
  case_bool_decide as Hne.
  - apply wp_ret. split; [exists s1; auto|]. exists p. rewrite Hsk. split_and!; [done| |].
    + apply (quiet_rep s1); [apply quiet_update_needed|done].
    + rewrite bool_decide_true by (by rewrite <- Honly). by rewrite orb_true_r.
  - destruct Hcy as [_ Ht Hq _ _ _]. destruct (keeps_parent s s1 _ t q (proj2 Hg) Ht Hq) as (t1 & Ht1 & Hq1).
    destruct (note_yield_run s1 _ _ t1 q HS1 Ht1 Hq1) as (s2 & -> & Hst). apply wp_Done. split.
    + exists s2. split; [|by left]. eapply good_trans; [exact Hg|by eapply still_good].
    + exists p. rewrite Hsk. split_and!; [done|by apply (still_rep s1)|]. destruct Hst as (_ & _ & ->). rewrite Hup.
      rewrite bool_decide_false; [by rewrite orb_false_r|]. intros Hl. by apply Hl, Honly.
Qed.

Lemma highest_run (s : ctx) L c :
  sched_rep s L → c < NumCores →
  ∃ o, (if 0 <=? c then m ← arr_get (ctx_schedulers s) c; mret (highest_priority_thread m)
        else mret None) = Done true o ∧ (∀ x, o = Some x → is_Some (ctx_threads s !! x)).
Proof.
  intros HS Hc. destruct (0 <=? c) eqn:E0; bool_prop; [|by exists None].
  destruct (lookup_lt_is_Some_2 (ctx_schedulers s) (Z.to_nat c)) as [m Hm].
  { rewrite (sr_cores _ _ HS). rewrite <- cores_eq in Hc. lia. }
  rewrite (arr_get_run _ _ m) by done. pstep. eexists. split; [done|]. intros x Hx. by apply (sr_highest _ _ HS (Z.to_nat c) m).
Qed.

Lemma yield_suggested_run (s : ctx) L c cur prio next recheck x :
  sched_rep s L → valid_core c → x ∈ flat L Suggested c → next ≠ None →
  (∀ y, next = Some y → is_Some (ctx_threads s !! y)) →
  wp (yield_suggested c cur prio next s recheck x)
    (λ r, match r with inl _ => True | inr (_, _, s') => good s s' end).
Proof.
  intros HS Hc Hx Hn Hnext. destruct (flat_member s L Suggested c x HS Hc Hx) as (t & Ht & _ & _ & [_ Hcore _ _] & _).
  unfold yield_suggested. rewrite (get_thread_run _ _ t) by done. pstep.
  destruct (highest_run s L (m_core_id t) HS) as (o & -> & Ho); [lia|]. pstep.
  case_bool_decide; [|by apply wp_ret].
  set (m := if prio <? m_priority t then _ else _).
  assert (∃ b, m = Done true b) as [b ->].
  { unfold m. destruct (prio <? _); [by eexists|]. destruct (_ && _); [|by eexists].
    destruct next as [y|]; [|done]. unfold deref. pstep.
    destruct (Hnext y eq_refl) as [ty Hty]. rewrite (get_thread_run _ _ ty) by done. pstep. by eexists. }
  pstep. destruct b; [apply wp_ret; by eapply good_refl|].
  destruct (too_high_run s o Ho) as [b ->]. pstep. destruct b; cbn [negb]; [by apply wp_ret|].
  rewrite wp_bind. eapply wp_mono; [by apply (migrate_counted_run s L)|]. intros s' Hs'. by apply wp_ret.
Qed.

Lemma YieldWithCoreMigration_run (s : ctx) L t q :
  sched_rep s L → can_yield s t q → wp (YieldWithCoreMigration s) (fine s).
Proof.
  intros HS Hcy. eapply yield_run; [done|done|intros; exists s; split; [by eapply good_refl|by left]|].
  intros p Hp _ Hr. destruct (to_back_run s L t q HS Hcy Hr) as (next & Q & s1 & -> & E1 & En & HS1 & Hg & Hv & Hn & Hnn).
  pstep. rewrite E1. pstep. rewrite (GetSuggestedFront_run s1 _ (m_core_id t) HS1 Hv). pstep. rewrite wp_bind.
  eapply wp_mono; [apply (walk_good s1 _ _ (λ '(_, _, s'), good s1 s') (flat _ Suggested (m_core_id t)))|].
  - by apply flat_fuel.
  - intros l1 x l2 Hl. by eapply (suggested_next_run s1).
  - intros x b Hx. eapply wp_mono; [by eapply yield_suggested_run|]. by intros [?|[[? ?] ?]].
  - cbn beta. destruct Hcy as [_ Ht Hq _ _ _]. intros [recheck|[[migrated recheck] s2]] Hr2; cbn [orb].
    + case_bool_decide; [apply wp_ret; exists s1; auto|].
      destruct recheck; cbn [negb]; [apply wp_ret; exists s1; auto|].
      eapply wp_mono; [by eapply (note_good s s1)|]. intros s3 Hs3. exists s3. auto.
    + pose proof (good_trans _ _ _ Hg Hr2) as Hg2.
      destruct (migrated || _); [apply wp_ret; exists s2; auto|].
      destruct recheck; cbn [negb]; [apply wp_ret; exists s2; auto|].
      eapply wp_mono; [by eapply (note_good s s2)|]. intros s3 Hs3. exists s3. auto.
Qed.

Lemma any_suggested_run (s : ctx) L c x :
  sched_rep s L → valid_core c → x ∈ flat L Suggested c →
  wp (any_suggested c s () x) (λ r, match r with inl _ => True | inr (_, s') => good s s' end).
Proof.
  intros HS Hc Hx. destruct (flat_member s L Suggested c x HS Hc Hx) as (t & Ht & _ & _ & [_ Hcore _ _] & _).
  unfold any_suggested. rewrite (get_thread_run _ _ t) by done. pstep.
  destruct (scheduled_top_run s L (m_core_id t) HS) as (o & -> & Ho); [lia|]. pstep.
  case_bool_decide; [|by apply wp_ret].
  destruct (too_high_run s o Ho) as [b ->]. pstep. rewrite wp_bind.
  apply (wp_mono _ (good s)); [|intros s' Hs'; by apply wp_ret].
  destruct b; cbn [negb]; [apply wp_ret; by eapply good_refl|]. by apply (migrate_counted_run s L).
Qed.

Lemma leave_core_run (s : ctx) L t q :
  sched_rep s L → can_yield s t q → runnable t = true →
  ∃ Q, ChangeCore (m_core_id t) (ctx_current s) (KThread_SetActiveCore (-1) t) false (m_priority_queue s) = Done true Q ∧
    good s (requested s (ctx_current s) (KThread_SetActiveCore (-1) t) Q) ∧ valid_core (m_core_id t).
Proof.
  intros HS [Hcs Ht Hq Hd Hp Hc] Hr. destruct (sr_thread _ _ HS _ t Ht Hd) as (_ & Hok & Hat).
  destruct (requested_run s (RqCore (m_core_id t) false) L _ t (KThread_SetActiveCore (-1) t) HS Ht)
    as (Q & L' & E & HS'); [done|done| |].
  { intros _. pose proof Hok as [? ? ? ?]. split_and!; [constructor; cbn; (done || lia)| |done].
    split; [done|]. by apply (place_view t). }
  exists Q. split; [done|]. split; [|destruct Hok; split; lia]. split; [by exists L'|].
  apply (moved_keeps s _ (ctx_current s) t (-1) Q Ht). done.
Qed.

Lemma YieldToAnyThread_run (s : ctx) L t q :
  sched_rep s L → can_yield s t q → wp (YieldToAnyThread s) (fine s).
Proof.
  intros HS Hcy. eapply yield_run; [done|done|intros; exists s; split; [by eapply good_refl|by left]|].
  intros p Hp _ Hr. destruct (leave_core_run s L t q HS Hcy Hr) as (Q & EQ & Hg & Hv).
  pose proof Hcy as [_ Ht Hq _ _ _].
  rewrite (change_thread_run _ _ t), bind_Done_true by done.
  rewrite (get_thread_run _ _ (KThread_SetActiveCore (-1) t)), bind_Done_true by apply lookup_insert_eq.
  cbn [set_threads m_priority_queue]. rewrite EQ. pstep. clear EQ.
  change (set_queue Q _) with (requested s (ctx_current s) (KThread_SetActiveCore (-1) t) Q).
  set (s1 := requested _ _ _ _) in *. pose proof Hg as ([L1 HS1] & _).
  destruct (count_good s1 L1 (ctx_current s) HS1) as (s2 & -> & Hg2 & HS2).
  { by eexists; apply lookup_insert_eq. }
  pose proof (good_trans _ _ _ Hg Hg2) as Hg12. pstep.
  rewrite (GetScheduledFront_run s2 L1 (m_core_id t) HS2 Hv). pstep.
  destruct (head (flat L1 Scheduled (m_core_id t))); [apply wp_ret; exists s2; auto|].
  rewrite (GetSuggestedFront_run s2 L1 (m_core_id t) HS2 Hv). pstep. rewrite wp_bind.
  eapply wp_mono; [apply (walk_good s2 _ _ (λ '(_, s'), good s2 s') (flat L1 Suggested (m_core_id t)))|].
  - by apply flat_fuel.
  - intros l1 x l2 Hl. by eapply (suggested_next_run s2).
  - intros x [] Hx. eapply wp_mono; [by eapply any_suggested_run|]. by intros [?|[? ?]].
  - cbn beta. intros [[]|[x s3]] Hr3.
    + apply wp_ret. exists s2. auto.
    + pose proof (good_trans _ _ _ Hg12 Hr3) as Hg3.
      case_bool_decide; [apply wp_ret; exists s3; auto|].
      eapply wp_mono; [by eapply (note_good s s3)|]. intros s4 Hs4. exists s4. auto.
Qed.
End Rotate.
