(* ===== verification/SchedulerProperties.v ===== *)
(** * What the scheduler promises

    The operations on the queues as requests, the properties, and an example
    with two threads. *)

From S2P Require Import Prelude Common PageBitmap PageBitmapLemmas Thread PriorityQueue PriorityQueueLemmas PriorityQueueTheorems PriorityQueueRefinement Scheduler SchedulerLemmas SchedulerSelect SchedulerOperations SchedulerTheorems.

(** ** Requests *)
Inductive sched_request : Type :=
| SqSetState (thread state : Z)
| SqPriority (thread priority : Z)
| SqAffinity (thread core mask : Z)
| SqRotate (core priority : Z)
| SqPreempt
| SqYieldWithoutCoreMigration
| SqYieldWithCoreMigration
| SqYieldToAnyThread
| SqUpdate.

Section Properties.
Context {C : Type} `{Clock C}.
Local Abbreviation ctx := (SchedulerContext C).

(** For a new priority or affinity: the field is changed and the scheduler is
    told of the old value, as the callers in k_thread.cpp do. *)
Definition sched_run (r : sched_request) (s : ctx) : prog ctx :=
  match r with
  | SqSetState thread state => KThread_SetState thread state s
  | SqPriority thread priority =>
      t ← get_thread s thread;
      s ← change_thread thread (KThread_SetPriority priority) s;
      OnThreadPriorityChanged thread (m_priority t) s
  | SqAffinity thread core mask =>
      t ← get_thread s thread;
      s ← change_thread thread (set_core_mask core mask) s;
      OnThreadAffinityMaskChanged thread (m_physical_affinity_mask t) (m_core_id t) s
  | SqRotate core priority => RotateScheduledQueue core priority s
  | SqPreempt => PreemptThreads s
  | SqYieldWithoutCoreMigration => YieldWithoutCoreMigration s
  | SqYieldWithCoreMigration => YieldWithCoreMigration s
  | SqYieldToAnyThread => YieldToAnyThread s
  | SqUpdate => '(_, s) ← UpdateHighestPriorityThreads s; mret s
  end.

Definition sched_pre (r : sched_request) (s : ctx) : Prop :=
  match r with
  | SqSetState thread _ => is_Some (ctx_threads s !! thread)
  | SqPriority thread priority => is_Some (ctx_threads s !! thread) ∧ 0 ≤ priority ≤ NumPriority
  | SqAffinity thread core mask => ∃ t, ctx_threads s !! thread = Some t ∧ unpinned s thread ∧
      place_ok (m_priority t) core mask
  | SqRotate core priority => valid_core core ∧ valid_prio priority
  | SqPreempt | SqUpdate => True
  | _ => ∃ t q, can_yield s t q
  end.

Fixpoint sched_runs (rs : list sched_request) (s : ctx) : prog ctx :=
  match rs with
  | [] => mret s
  | r :: rs => s ← sched_run r s; sched_runs rs s
  end.

(** The requests are made in states that allow them. *)
Fixpoint sched_allowed (rs : list sched_request) (s : ctx) : Prop :=
  match rs with
  | [] => True
  | r :: rs => sched_pre r s ∧ ∀ s', sched_run r s = Done true s' → sched_allowed rs s'
  end.

Lemma UpdateHighestPriorityThreads_run (s : ctx) :
  sched_inv s → ctx_locked s = true →
  wp (UpdateHighestPriorityThreads s) (λ '(mask, s'), if m_scheduler_update_needed s then updated s mask s' else mask = 0 ∧ s' = s).
Proof.
  intros ([L HS] & Hpin) Hl. unfold UpdateHighestPriorityThreads.
  destruct (m_scheduler_update_needed s); [by apply (Impl_run s L)|]. by apply wp_ret.
Qed.

Lemma updated_inv (s : ctx) mask s' : updated s mask s' → sched_inv s' ∧ same_core s s'.
Proof.
  intros (L' & HS' & Hk & Hpin & _). split; [split; [by exists L'|done]|]. by destruct Hk as (? & ? & _).
Qed.

Lemma sched_step (r : sched_request) (s : ctx) :
  sched_inv s → ctx_locked s = true → sched_pre r s →
  wp (sched_run r s) (λ s', sched_inv s' ∧ same_core s s').
Proof.
  intros HI Hl Hpre. pose proof HI as ([L HS] & Hpin).
  destruct r as [x st|x p|x core mask|c p| | | | |]; cbn [sched_run sched_pre] in *.
  - destruct Hpre as [t Ht]. by apply (SetState_run s x t).
  - destruct Hpre as ([t Ht] & Hp). rewrite (get_thread_run _ _ t), bind_Done_true by done.
    by apply (PriorityChanged_run s x t).
  - destruct Hpre as (t & Ht & Hun & Hp). rewrite (get_thread_run _ _ t), bind_Done_true by done.
    by apply (AffinityChanged_run s x t).
  - destruct Hpre. by apply Rotate_inv.
  - by apply PreemptThreads_inv.
  - destruct Hpre as (t & q & Hcy). eapply wp_mono; [by apply (YieldWithoutCoreMigration_run s L t q)|].
    intros s' (Hf & _). by apply fine_inv.
  - destruct Hpre as (t & q & Hcy). eapply wp_mono; [by apply (YieldWithCoreMigration_run s L t q)|].
    intros s' Hf. by apply fine_inv.
  - destruct Hpre as (t & q & Hcy). eapply wp_mono; [by apply (YieldToAnyThread_run s L t q)|].
    intros s' Hf. by apply fine_inv.
  - rewrite wp_bind. eapply wp_mono; [by apply UpdateHighestPriorityThreads_run|]. intros [mask s'] Hs'. apply wp_ret.
    destruct (m_scheduler_update_needed s); [by eapply updated_inv|]. destruct Hs' as (_ & ->). done.
Qed.

(** C37: Under the scheduler lock, every sequence of state, priority and
    affinity changes, rotations, preemptions, yields and updates that is made in
    states that allow it runs to the end with no failed assertion and no access
    outside an array or through a null pointer, and keeps the invariant: the
    queues hold exactly the threads that are runnable and not dummies, each in
    the scheduled queue of its active core and the suggested queues of the other
    cores of its affinity mask, at its priority. *)
Theorem scheduler_invariant (rs : list sched_request) (s : ctx) :
  sched_inv s → ctx_locked s = true → sched_allowed rs s →
  wp (sched_runs rs s) (λ s', sched_inv s' ∧ ctx_locked s' = true).
Proof.
  revert s. induction rs as [|r rs IH]; intros s HI Hl Hall; cbn [sched_runs]; [by apply wp_ret|].
  destruct Hall as (Hpre & Hall). pose proof (sched_step r s HI Hl Hpre) as Hw.
  apply wp_exists in Hw as (s1 & E & HI1 & _ & Hl1). rewrite E, bind_Done_true.
  apply IH; [done|congruence|by apply Hall].
Qed.

(** C38: UpdateHighestPriorityThreads leaves for every core the front of its
    scheduled queue selected, or, where a process has a thread pinned on the
    core, that thread if it is runnable and else none.  Every selected thread is
    runnable, not a dummy and allowed on its core, no thread is selected for two
    cores, every core whose selection changed is marked in the returned mask, and
    the flag that asks for an update is cleared. *)
Theorem UpdateHighestPriorityThreads_correct (s : ctx) :
  sched_inv s → ctx_locked s = true → m_scheduler_update_needed s = true →
  wp (UpdateHighestPriorityThreads s) (λ '(mask, s'), ∃ L', sched_rep s' L' ∧
    m_scheduler_update_needed s' = false ∧
    (∀ c, valid_core c → ∃ o, highest_of s' !! Z.to_nat c = Some o ∧
       (o = head (flat L' Scheduled c) ∨ pin_choice s' c o) ∧
       (∀ x, o = Some x → ∃ t, ctx_threads s' !! x = Some t ∧ runnable t = true ∧
          KThread_IsDummyThread t = false ∧ Z.testbit (m_physical_affinity_mask t) c = true) ∧
       (Some o ≠ highest_of s !! Z.to_nat c → Z.testbit mask c = true)) ∧
    (∀ c c' x, valid_core c → valid_core c' → highest_of s' !! Z.to_nat c = Some (Some x) →
       highest_of s' !! Z.to_nat c' = Some (Some x) → c = c')).
Proof.
  intros HI Hl Hneed. eapply wp_mono; [by apply UpdateHighestPriorityThreads_run|]. rewrite Hneed.
  intros [mask s'] (L' & HS' & Hk & Hpin & Htop & Hmark). exists L'.
  assert (∀ c x, valid_core c → highest_of s' !! Z.to_nat c = Some (Some x) →
    ∃ t, ctx_threads s' !! x = Some t ∧ selected_ok t c) as Hsel.
  { intros c x Hc Ho. apply (top_selected s' L'); [done|done|done|]. by apply Htop. }
  split_and!; [done|by destruct Hk as (_ & _ & -> & _)| |].
  - intros c Hc. destruct (lookup_lt_is_Some_2 (highest_of s') (Z.to_nat c)) as [o Ho].
    { unfold highest_of. rewrite length_fmap, (sr_cores _ _ HS'). destruct Hc. unfold cores, NumCores in *. lia. }
    exists o. split_and!; [done|by apply Htop| |].
    + intros x ->. destruct (Hsel c x Hc Ho) as (t & Ht & Hr & Hd & Hcore). exists t. split_and!; [done..|].
      destruct (sr_thread _ _ HS' x t Ht Hd) as (_ & [_ _ _ Hact] & _). destruct Hc. destruct Hcore as [Ec|Em].
      * subst c. by apply Hact.
      * rewrite Em, Z.shiftl_spec, Z.sub_diag by done. done.
    + rewrite <- Ho. by apply Hmark.
  - intros c c' x Hc Hc' Hx Hx'. destruct (Hsel c x Hc Hx) as (t & Ht & Hs).
    destruct (Hsel c' x Hc' Hx') as (t' & Ht' & Hs'). assert (t' = t) as -> by congruence.
    by apply (selected_core s' L' x t).
Qed.

(** YieldWithoutCoreMigration puts the current thread at the back of its
    queue and leaves every other thread where it was; it asks for an update of
    the selection if and only if another thread waits in that queue.  A thread
    that has already yielded since its process was last scheduled, or that is
    not runnable, leaves everything unchanged. *)
Theorem YieldWithoutCoreMigration_correct (s : ctx) L t q :
  sched_rep s L → can_yield s t q →
  wp (YieldWithoutCoreMigration s)
    (λ s', ∃ p, ctx_processes s !! q = Some p ∧
       if skips_yield t p then s' = s
       else
         sched_rep s' (requeue (ctx_current s) t L OpBack) ∧
         m_scheduler_update_needed s' =
           (m_scheduler_update_needed s ||
            bool_decide (filter (λ y, y ≠ ctx_current s) (L Scheduled (m_priority t) (m_core_id t)) ≠ []))).
Proof.
  intros HS Hcy. eapply wp_mono; [by apply (YieldWithoutCoreMigration_run s L t q)|].
  intros s' (_ & p & ? & ?). by exists p.
Qed.
End Properties.

(** ** An example

    Threads 7 and 8 of process 1, both of priority 44 on core 0 and allowed on
    core 1, become runnable. *)
Definition ex_waiting : KThread := MkThread ThreadType_User 44 0 3 ThreadState_Waiting 0 (Some 1) 0 0 false.
Definition ex_process : KProcess :=
  MkProcess 0 (replicate 4 None) (replicate 4 None) (replicate 4 0) (replicate 4 0).
Definition ex_scheduler : SchedulingState := MkSched false false false 0 None None.
Definition ex_start : SchedulerContext Z :=
  MkContext {[7 := ex_waiting; 8 := ex_waiting]} {[1 := ex_process]} ex_new_queue
    (replicate 4 ex_scheduler) false [] [7; 8] true 7 0 0.
Definition ex_wake : list sched_request :=
  [SqSetState 7 ThreadState_Runnable; SqSetState 8 ThreadState_Runnable].
Definition ex_ready : SchedulerContext Z := result ex_start (sched_runs ex_wake ex_start).

Lemma ex_start_rep : sched_rep ex_start (λ _ _ _, []).
Proof.
  assert (∀ x t, ctx_threads ex_start !! x = Some t → (x = 7 ∨ x = 8) ∧ t = ex_waiting) as Hth.
  { intros x t Ht. cbn in Ht. apply lookup_insert_Some in Ht as [(<- & <-)|(_ & Ht)]; [auto|].
    apply lookup_singleton_Some in Ht as (<- & <-). auto. }
  assert (∀ q p, ctx_processes ex_start !! q = Some p → p = ex_process) as Hpr.
  { intros q p Hp. cbn in Hp. apply lookup_singleton_Some in Hp as (_ & <-). done. }
  constructor.
  - apply new_rep.
  - intros x t (Hx & ->)%Hth _. split_and!; [by apply ex_known|by apply (ex_thread_ok 44)|].
    intros k p c _ _ []%not_elem_of_nil.
  - intros k p c x _ _ []%not_elem_of_nil.
  - intros x t q (_ & ->)%Hth [= <-]. by eexists.
  - intros q p ->%Hpr. split_and!; [done..|]. intros c y Hc. cbn in Hc.
    by apply (lookup_replicate_1 4 None) in Hc as [? _].
  - done.
  - intros c m x Hm. cbn in Hm. apply (lookup_replicate_1 4 ex_scheduler) in Hm as [-> _]. done.
  - intros x []%not_elem_of_nil.
  - by eexists.
Qed.

Lemma ex_start_inv : sched_inv ex_start.
Proof.
  split; [eexists; apply ex_start_rep|]. intros q p c y t Hq Hy _. cbn in Hq.
  apply lookup_singleton_Some in Hq as (_ & <-). cbn in Hy.
  by apply (lookup_replicate_1 4 None) in Hy as [? _].
Qed.

Lemma ex_thread8 s : sched_run (SqSetState 7 ThreadState_Runnable) ex_start = Done true s →
  is_Some (ctx_threads s !! 8).
Proof. vm_compute. intros [= <-]. by eexists. Qed.

Lemma ex_ready_inv : sched_inv ex_ready ∧ ctx_locked ex_ready = true.
Proof.
  unfold ex_ready. apply wp_result. unfold ex_wake. cbn [sched_runs].
  assert (wp (sched_run (SqSetState 7 ThreadState_Runnable) ex_start) (λ s', sched_inv s' ∧ same_core ex_start s'))
    as Hw by (apply sched_step; [apply ex_start_inv|done|by eexists]).
  apply wp_exists in Hw as (s1 & E1 & HI1 & _ & Hl1). rewrite E1, bind_Done_true. rewrite wp_bind.
  eapply wp_mono; [apply sched_step; [done|by rewrite Hl1|by apply ex_thread8]|].
  intros s2 (HI2 & _ & Hl2). apply wp_ret. split; [done|]. by rewrite Hl2, Hl1.
Qed.

Lemma ex_ready_needed : m_scheduler_update_needed ex_ready = true.
Proof. vm_compute. reflexivity. Qed.

(** Both threads wake, the selection is updated, the queues are rotated. *)
Lemma scheduler_invariant_witness :
  wp (sched_runs (ex_wake ++ [SqUpdate; SqRotate 0 44; SqPreempt]) ex_start)
    (λ s', sched_inv s' ∧ ctx_locked s' = true).
Proof.
  apply (scheduler_invariant (ex_wake ++ [SqUpdate; SqRotate 0 44; SqPreempt]) ex_start);
    [apply ex_start_inv|done|]. cbn [sched_allowed ex_wake app sched_pre].
  split; [by eexists|]. intros s1 Hs1. split; [by apply ex_thread8|]. intros s2 _.
  split; [done|]. intros s3 _. split; [by split|]. done.
Defined.

(** Core 0 keeps thread 7, core 1 gets thread 8. *)
Lemma UpdateHighestPriorityThreads_correct_witness :
  ∃ mask s' L', UpdateHighestPriorityThreads ex_ready = Done true (mask, s') ∧ sched_rep s' L' ∧
    highest_of s' = [Some 7; Some 8; None; None] ∧ mask = 3 ∧
    (∀ c c' x, valid_core c → valid_core c' → highest_of s' !! Z.to_nat c = Some (Some x) →
       highest_of s' !! Z.to_nat c' = Some (Some x) → c = c').
Proof.
  destruct ex_ready_inv as (HI & Hl).
  pose proof (UpdateHighestPriorityThreads_correct ex_ready HI Hl ex_ready_needed) as Hw.
  destruct (proj1 (wp_exists _ _) Hw) as ([mask s'] & E & L' & HS' & _ & _ & Huniq). exists mask, s', L'.
  assert ((λ r : prog (Z * SchedulerContext Z), match r with Done _ (m, s) => (m, highest_of s) | Stuck => (0, []) end)
    (UpdateHighestPriorityThreads ex_ready) = (3, [Some 7; Some 8; None; None])) as Ec by (vm_compute; done).
  rewrite E in Ec. cbn beta iota in Ec. injection Ec as -> Eh. by split_and!.
Defined.

Lemma ex_ready_rep : ∃ L, sched_rep ex_ready L.
Proof. apply ex_ready_inv. Qed.

Definition ex_ready_thread : KThread :=
  MkThread ThreadType_User 44 0 3 ThreadState_Runnable 0 (Some 1) 0 0 false.

Lemma ex_can_yield : can_yield ex_ready ex_ready_thread 1.
Proof.
  assert (CanSchedule ex_ready = true) as H1 by (vm_compute; reflexivity).
  assert (ctx_threads ex_ready !! ctx_current ex_ready = Some ex_ready_thread) as H2 by (vm_compute; reflexivity).
  by constructor.
Qed.

Lemma ex_ready_process :
  ctx_processes ex_ready !! 1 =
  Some (MkProcess 2 (replicate 4 None) (replicate 4 None) (replicate 4 0) (replicate 4 0)).
Proof. vm_compute. reflexivity. Qed.

(** Thread 7 yields to thread 8. *)
Lemma YieldWithoutCoreMigration_correct_witness :
  wp (YieldWithoutCoreMigration ex_ready)
    (λ s', m_scheduler_update_needed s' = true ∧ ∃ L, sched_rep s' (requeue (ctx_current ex_ready) ex_ready_thread L OpBack)).
Proof.
  destruct ex_ready_rep as [L HS].
  eapply wp_mono; [apply (YieldWithoutCoreMigration_correct ex_ready L ex_ready_thread 1 HS ex_can_yield)|].
  intros s' (p & Hp & Hs'). rewrite ex_ready_process in Hp. injection Hp as <-.
  change (skips_yield _ _) with false in Hs'. cbn iota in Hs'. destruct Hs' as (HS' & ->).
  rewrite ex_ready_needed. split; [done|by exists L].
Defined.
