(* ===== verification/Locks.v ===== *)
(** * Locks with priority inheritance (src/src/core/hle/kernel/k_thread.h, k_thread.cpp)

    A thread that others wait for keeps a list of lock infos, one for each
    address, each with the threads that wait there ordered by priority.  The
    thread inherits the highest priority of its waiters, and passes it on to the
    thread it waits for itself.  The threads of the scheduler are those of
    Scheduler.v; here is what the locks add to them. *)

From S2P Require Import Prelude Common OrderedTree Thread PriorityQueue Scheduler.

(** ** State *)
Record LockInfo : Type := MkInfo {
  li_tree : list Z;                    (* the waiters in the order of the tree *)
  li_address_key : Z;
  li_owner : option Z;
  li_waiter_count : Z;
  li_is_kernel_address_key : bool
}.

Record ThreadLocks : Type := MkLocks {
  m_base_priority : Z;
  m_held_lock_info_list : list Z;
  m_waiting_lock_info : option Z;
  m_address_key : Z;
  m_is_kernel_address_key : bool;
  m_condvar_tree : option Z;
  m_condvar_key : Z;
  is_pinned : bool;                    (* of the stack parameters *)
  m_address_key_value : Z
}.

(** The kernel: the scheduler with its threads, what they have of locks, the
    lock infos in use, the free ones of their slab heap, and the trees of
    threads that wait on condition variables. *)
Record LockContext (C : Type) : Type := MkLockContext {
  lc_sched : SchedulerContext C;
  lc_locks : gmap Z ThreadLocks;
  lc_infos : gmap Z LockInfo;
  lc_slab : list Z;
  lc_cv_trees : gmap Z (list Z)
}.
Arguments MkLockContext {C}.
Arguments lc_sched {C}.
Arguments lc_locks {C}.
Arguments lc_infos {C}.
Arguments lc_slab {C}.
Arguments lc_cv_trees {C}.

Definition set_held (l : list Z) (k : ThreadLocks) : ThreadLocks :=
  MkLocks (m_base_priority k) l (m_waiting_lock_info k) (m_address_key k)
    (m_is_kernel_address_key k) (m_condvar_tree k) (m_condvar_key k) (is_pinned k)
    (m_address_key_value k).
Definition SetWaitingLockInfo (lock : option Z) (k : ThreadLocks) : ThreadLocks :=
  MkLocks (m_base_priority k) (m_held_lock_info_list k) lock (m_address_key k)
    (m_is_kernel_address_key k) (m_condvar_tree k) (m_condvar_key k) (is_pinned k)
    (m_address_key_value k).
Definition set_base_priority (p : Z) (k : ThreadLocks) : ThreadLocks :=
  MkLocks p (m_held_lock_info_list k) (m_waiting_lock_info k) (m_address_key k)
    (m_is_kernel_address_key k) (m_condvar_tree k) (m_condvar_key k) (is_pinned k)
    (m_address_key_value k).

Definition set_num_kernel_waiters (n : Z) (t : KThread) : KThread :=
  MkThread (m_thread_type t) (m_priority t) (m_core_id t) (m_physical_affinity_mask t)
    (m_thread_state t) n (m_parent t) (m_last_scheduled_tick t) (m_yield_schedule_count t)
    (m_dummy_thread_runnable t).

Section Locks.
Context {C : Type} `{Clock C}.
Local Abbreviation lctx := (LockContext C).

Definition set_sched (c : SchedulerContext C) (s : lctx) : lctx :=
  MkLockContext c (lc_locks s) (lc_infos s) (lc_slab s) (lc_cv_trees s).
Definition set_locks (m : gmap Z ThreadLocks) (s : lctx) : lctx :=
  MkLockContext (lc_sched s) m (lc_infos s) (lc_slab s) (lc_cv_trees s).
Definition set_infos (m : gmap Z LockInfo) (s : lctx) : lctx :=
  MkLockContext (lc_sched s) (lc_locks s) m (lc_slab s) (lc_cv_trees s).
Definition set_slab (l : list Z) (s : lctx) : lctx :=
  MkLockContext (lc_sched s) (lc_locks s) (lc_infos s) l (lc_cv_trees s).
Definition set_cv_trees (m : gmap Z (list Z)) (s : lctx) : lctx :=
  MkLockContext (lc_sched s) (lc_locks s) (lc_infos s) (lc_slab s) m.

(** ** By pointer *)
Definition get_locks (s : lctx) (thread : Z) : prog ThreadLocks := deref (lc_locks s !! thread).
Definition change_locks (thread : Z) (f : ThreadLocks → ThreadLocks) (s : lctx) : prog lctx :=
  k ← get_locks s thread;
  mret (set_locks (<[thread := f k]> (lc_locks s)) s).
Definition get_info (s : lctx) (lock : Z) : prog LockInfo := deref (lc_infos s !! lock).
Definition change_info (lock : Z) (f : LockInfo → LockInfo) (s : lctx) : prog lctx :=
  i ← get_info s lock;
  mret (set_infos (<[lock := f i]> (lc_infos s)) s).

Definition on_sched (f : SchedulerContext C → prog (SchedulerContext C)) (s : lctx) : prog lctx :=
  c ← f (lc_sched s);
  mret (set_sched c s).

Definition GetPriority (s : lctx) (thread : Z) : prog Z :=
  t ← get_thread (lc_sched s) thread;
  mret (m_priority t).

(** ** The slab heap of the lock infos: a list of free objects *)
Definition Slab_Allocate (s : lctx) : prog (Z * lctx) :=
  _ ← ASSERT (bool_decide (lc_slab s ≠ []));
  match lc_slab s with
  | lock :: free =>
      mret (lock, set_infos (<[lock := MkInfo [] 0 None 0 false]> (lc_infos s)) (set_slab free s))
  | [] => Stuck
  end.

Definition Slab_Free (lock : Z) (s : lctx) : lctx :=
  set_infos (delete lock (lc_infos s)) (set_slab (lock :: lc_slab s) s).

(** ** LockWithPriorityInheritanceInfo *)
Definition Info_Create (address_key : Z) (is_kernel_address_key : bool) (s : lctx)
    : prog (Z * lctx) :=
  '(lock, s) ← Slab_Allocate s;
  s ← change_info lock (λ i, MkInfo (li_tree i) address_key (li_owner i) (li_waiter_count i)
                               is_kernel_address_key) s;
  mret (lock, s).

Definition Info_SetOwner (new_owner : Z) (i : LockInfo) : LockInfo :=
  MkInfo (li_tree i) (li_address_key i) (Some new_owner) (li_waiter_count i)
    (li_is_kernel_address_key i).

(** LockWithPriorityInheritanceComparator::Compare of a thread of priority [p]
    with the threads of a tree, whose priorities are read once. *)
Fixpoint priorities_of (s : lctx) (threads : list Z) : prog (list (Z * Z)) :=
  match threads with
  | [] => mret []
  | y :: threads =>
      p ← GetPriority s y;
      r ← priorities_of s threads;
      mret ((y, p) :: r)
  end.

Definition lock_compare (p : Z) (rhs : Z * Z) : Z := if p <? rhs.2 then -1 else 1.

Definition Info_AddWaiter (lock waiter : Z) (s : lctx) : prog lctx :=
  i ← get_info s lock;
  p ← GetPriority s waiter;
  others ← priorities_of s (li_tree i);
  '(tree, _) ← tree_insert (lock_compare p) (waiter, p) others;
  s ← change_info lock (λ i, MkInfo (tree.*1) (li_address_key i) (li_owner i)
                               (u32 (li_waiter_count i + 1)) (li_is_kernel_address_key i)) s;
  change_locks waiter (SetWaitingLockInfo (Some lock)) s.

(** [erase(iterator_to(x))] *)
Definition erase_from (tree : list Z) (x : Z) : prog (list Z) :=
  match list_find (λ y, y = x) tree with
  | Some (it, _) => '(tree, _) ← tree_erase tree it; mret tree
  | None => Stuck
  end.

Definition Info_RemoveWaiter (lock waiter : Z) (s : lctx) : prog (bool * lctx) :=
  i ← get_info s lock;
  tree ← erase_from (li_tree i) waiter;
  let count := u32 (li_waiter_count i - 1) in
  s ← change_info lock (λ i, MkInfo tree (li_address_key i) (li_owner i) count
                               (li_is_kernel_address_key i)) s;
  s ← change_locks waiter (SetWaitingLockInfo None) s;
  mret (count =? 0, s).

Definition Info_GetHighestPriorityWaiter (s : lctx) (lock : Z) : prog Z :=
  i ← get_info s lock;
  deref (head (li_tree i)).

(** ** KThread *)
Definition AddHeldLock (owner lock : Z) (s : lctx) : prog lctx :=
  _ ← ASSERT (IsSchedulerLockedByCurrentThread (lc_sched s));
  s ← change_info lock (Info_SetOwner owner) s;
  change_locks owner (λ k, set_held (lock :: m_held_lock_info_list k) k) s.

Fixpoint find_held (s : lctx) (address_key : Z) (is_kernel : bool) (held : list Z)
    : prog (option Z) :=
  match held with
  | [] => mret None
  | lock :: held =>
      i ← get_info s lock;
      if (li_address_key i =? address_key) && eqb (li_is_kernel_address_key i) is_kernel
      then mret (Some lock)
      else find_held s address_key is_kernel held
  end.

Definition FindHeldLock (owner address_key : Z) (is_kernel : bool) (s : lctx) : prog (option Z) :=
  _ ← ASSERT (IsSchedulerLockedByCurrentThread (lc_sched s));
  k ← get_locks s owner;
  find_held s address_key is_kernel (m_held_lock_info_list k).

(** A change of [m_num_kernel_waiters], an [s32] that must not overflow. *)
Definition add_kernel_waiters (thread n : Z) (s : lctx) : prog lctx :=
  t ← get_thread (lc_sched s) thread;
  let m := m_num_kernel_waiters t + n in
  if (-2 ^ 31 <=? m) && (m <? 2 ^ 31)
  then on_sched (change_thread thread (set_num_kernel_waiters m)) s else Stuck.

Definition need_update (s : lctx) : lctx := set_sched (SetSchedulerUpdateNeeded (lc_sched s)) s.

(** [this] is [owner]. *)
Definition AddWaiterImpl (owner thread : Z) (s : lctx) : prog lctx :=
  _ ← ASSERT (IsSchedulerLockedByCurrentThread (lc_sched s));
  k ← get_locks s thread;
  _ ← ASSERT (bool_decide (m_condvar_tree k = None));
  s ← (if m_is_kernel_address_key k then
         t ← get_thread (lc_sched s) owner;
         s ← add_kernel_waiters owner 1 s;
         _ ← ASSERT (0 <=? m_num_kernel_waiters t);
         mret (need_update s)
       else mret s);
  lock_info ← FindHeldLock owner (m_address_key k) (m_is_kernel_address_key k) s;
  '(lock_info, s) ←
    (match lock_info with
     | Some lock_info => mret (lock_info, s)
     | None =>
         '(lock_info, s) ← Info_Create (m_address_key k) (m_is_kernel_address_key k) s;
         s ← AddHeldLock owner lock_info s;
         mret (lock_info, s)
     end);
  Info_AddWaiter lock_info thread s.

(** [m_held_lock_info_list.erase(iterator_to(lock))] *)
Definition drop_held (owner lock : Z) (s : lctx) : prog lctx :=
  k ← get_locks s owner;
  held ← erase_from (m_held_lock_info_list k) lock;
  change_locks owner (set_held held) s.

Definition RemoveWaiterImpl (owner thread : Z) (s : lctx) : prog lctx :=
  _ ← ASSERT (IsSchedulerLockedByCurrentThread (lc_sched s));
  k ← get_locks s thread;
  s ← (if m_is_kernel_address_key k then
         t ← get_thread (lc_sched s) owner;
         s ← add_kernel_waiters owner (-1) s;
         _ ← ASSERT (0 <? m_num_kernel_waiters t);
         mret (need_update s)
       else mret s);
  lock_info ← deref (m_waiting_lock_info k);
  i ← get_info s lock_info;
  _ ← ASSERT (bool_decide (li_owner i = Some owner));
  '(last, s) ← Info_RemoveWaiter lock_info thread s;
  if last : bool then
    s ← drop_held owner lock_info s;
    mret (Slab_Free lock_info s)
  else mret s.

Definition GetLockOwner (thread : Z) (s : lctx) : prog (option Z) :=
  k ← get_locks s thread;
  match m_waiting_lock_info k with
  | Some lock => i ← get_info s lock; mret (li_owner i)
  | None => mret None
  end.

(** ** RestorePriority *)
Fixpoint min_priority (s : lctx) (held : list Z) (p : Z) : prog Z :=
  match held with
  | [] => mret p
  | lock :: held =>
      waiter ← Info_GetHighestPriorityWaiter s lock;
      q ← GetPriority s waiter;
      min_priority s held (Z.min p q)
  end.

(** ConditionVariableComparator::Compare *)
Fixpoint cv_keys_of (s : lctx) (threads : list Z) : prog (list (Z * (Z * Z))) :=
  match threads with
  | [] => mret []
  | y :: threads =>
      p ← GetPriority s y;
      k ← get_locks s y;
      r ← cv_keys_of s threads;
      mret ((y, (m_condvar_key k, p)) :: r)
  end.

Definition cv_compare (l_key p : Z) (rhs : Z * (Z * Z)) : Z :=
  let '(r_key, q) := rhs.2 in
  if l_key <? r_key then -1
  else if (l_key =? r_key) && (p <? q) then -1
  else 1.

Definition BeforeUpdatePriority (cv_tree thread : Z) (s : lctx) : prog lctx :=
  _ ← ASSERT (IsSchedulerLockedByCurrentThread (lc_sched s));
  tree ← deref (lc_cv_trees s !! cv_tree);
  tree ← erase_from tree thread;
  mret (set_cv_trees (<[cv_tree := tree]> (lc_cv_trees s)) s).

Definition AfterUpdatePriority (cv_tree thread : Z) (s : lctx) : prog lctx :=
  _ ← ASSERT (IsSchedulerLockedByCurrentThread (lc_sched s));
  tree ← deref (lc_cv_trees s !! cv_tree);
  p ← GetPriority s thread;
  k ← get_locks s thread;
  others ← cv_keys_of s tree;
  '(tree, _) ← tree_insert (cv_compare (m_condvar_key k) p) (thread, (m_condvar_key k, p)) others;
  mret (set_cv_trees (<[cv_tree := tree.*1]> (lc_cv_trees s)) s).

Definition in_cv_tree (thread : Z) (f : Z → lctx → prog lctx) (s : lctx) : prog lctx :=
  k ← get_locks s thread;
  match m_condvar_tree k with
  | Some cv_tree => f cv_tree s
  | None => mret s
  end.

(** One turn of the loop: the thread to go on with, if any. *)
Definition restore_turn (thread : Z) (s : lctx) : prog (option Z * lctx) :=
  k ← get_locks s thread;
  new_priority ← min_priority s (m_held_lock_info_list k) (m_base_priority k);
  old_priority ← GetPriority s thread;
  if new_priority =? old_priority then mret (None, s)
  else
    lock_owner ← GetLockOwner thread s;
    s ← (match lock_owner with Some owner => RemoveWaiterImpl owner thread s | None => mret s end);
    s ← in_cv_tree thread (λ cv_tree, BeforeUpdatePriority cv_tree thread) s;
    old_priority ← GetPriority s thread;
    s ← on_sched (change_thread thread (KThread_SetPriority new_priority)) s;
    s ← in_cv_tree thread (λ cv_tree, AfterUpdatePriority cv_tree thread) s;
    s ← (match lock_owner with Some owner => AddWaiterImpl owner thread s | None => mret s end);
    s ← on_sched (OnThreadPriorityChanged thread old_priority) s;
    mret (lock_owner, s).

(** [while (thread != nullptr)]; no turn but the last is for a thread that had
    one before. *)
Fixpoint restore_loop (fuel : nat) (thread : option Z) (s : lctx) : prog lctx :=
  match thread with
  | None => mret s
  | Some thread =>
      match fuel with
      | O => Stuck
      | S fuel => '(next, s) ← restore_turn thread s; restore_loop fuel next s
      end
  end.

Definition RestorePriority (thread : Z) (s : lctx) : prog lctx :=
  _ ← ASSERT (IsSchedulerLockedByCurrentThread (lc_sched s));
  restore_loop (S (size (lc_locks s))) (Some thread) s.

(** ** The operations on waiters *)
Definition AddWaiter (owner thread : Z) (s : lctx) : prog lctx :=
  s ← AddWaiterImpl owner thread s;
  p ← GetPriority s thread;
  q ← GetPriority s owner;
  if p <? q then RestorePriority owner s else mret s.

(** [GetPriority() == thread->GetPriority() && GetPriority() < GetBasePriority()] *)
Definition may_restore (owner thread : Z) (s : lctx) : prog bool :=
  q ← GetPriority s owner;
  p ← GetPriority s thread;
  k ← get_locks s owner;
  mret ((q =? p) && (q <? m_base_priority k)).

Definition RemoveWaiter (owner thread : Z) (s : lctx) : prog lctx :=
  s ← RemoveWaiterImpl owner thread s;
  b ← may_restore owner thread s;
  if b : bool then RestorePriority owner s else mret s.

(** The thread that gets the lock, and whether others still wait for it. *)
Definition RemoveWaiterByKey (owner key : Z) (is_kernel : bool) (s : lctx)
    : prog (option Z * bool * lctx) :=
  _ ← ASSERT (IsSchedulerLockedByCurrentThread (lc_sched s));
  lock_info ← FindHeldLock owner key is_kernel s;
  match lock_info with
  | None => mret (None, false, s)
  | Some lock_info =>
      s ← drop_held owner lock_info s;
      i ← get_info s lock_info;
      s ← (if li_is_kernel_address_key i then
             t ← get_thread (lc_sched s) owner;
             let n := s32 (m_num_kernel_waiters t - li_waiter_count i) in
             s ← on_sched (change_thread owner (set_num_kernel_waiters n)) s;
             _ ← ASSERT (0 <=? n);
             mret (need_update s)
           else mret s);
      _ ← ASSERT (0 <? li_waiter_count i);
      next ← Info_GetHighestPriorityWaiter s lock_info;
      '(last, s) ← Info_RemoveWaiter lock_info next s;
      s ← (if last : bool then mret (Slab_Free lock_info s)
           else
             s ← AddHeldLock next lock_info s;
             i ← get_info s lock_info;
             if li_is_kernel_address_key i then
               t ← get_thread (lc_sched s) next;
               let n := s32 (m_num_kernel_waiters t + li_waiter_count i) in
               s ← on_sched (change_thread next (set_num_kernel_waiters n)) s;
               _ ← ASSERT (0 <? n);
               mret s
             else mret s);
      b ← may_restore owner next s;
      s ← (if b : bool then RestorePriority owner s else mret s);
      mret (Some next, negb last, s)
  end.

(** ** Base priorities *)
Definition valid_base (value : Z) : bool :=
  (HighestThreadPriority <=? value) && (value <=? LowestThreadPriority).

Definition SetBasePriority (thread value : Z) (s : lctx) : prog lctx :=
  _ ← ASSERT (valid_base value);
  s ← change_locks thread (set_base_priority value) s;
  RestorePriority thread s.

Definition IncreaseBasePriority (thread priority : Z) (s : lctx) : prog lctx :=
  _ ← ASSERT (valid_base priority);
  _ ← ASSERT (IsSchedulerLockedByCurrentThread (lc_sched s));
  k ← get_locks s thread;
  _ ← ASSERT (negb (is_pinned k));
  if priority <? m_base_priority k then
    s ← change_locks thread (set_base_priority priority) s;
    RestorePriority thread s
  else mret s.

(** ** Address keys *)
Definition set_address_key (key value : Z) (is_kernel : bool) (k : ThreadLocks) : ThreadLocks :=
  MkLocks (m_base_priority k) (m_held_lock_info_list k) (m_waiting_lock_info k) key is_kernel
    (m_condvar_tree k) (m_condvar_key k) (is_pinned k) value.

Definition SetUserAddressKey (thread key val : Z) (s : lctx) : prog lctx :=
  k ← get_locks s thread;
  _ ← ASSERT (bool_decide (m_waiting_lock_info k = None));
  change_locks thread (set_address_key key val false) s.

Definition SetKernelAddressKey (thread key : Z) (s : lctx) : prog lctx :=
  k ← get_locks s thread;
  _ ← ASSERT (bool_decide (m_waiting_lock_info k = None));
  change_locks thread (set_address_key key (m_address_key_value k) true) s.
End Locks.
