(* ===== verification/LocksLemmas.v ===== *)
(** * The invariant of the locks

    What a thread waits for and how the waiters are ordered; the slab and the
    counts agree with it.  Each elementary operation is shown to keep it. *)

From Stdlib Require Import Sorting.Sorted.
From S2P Require Import Prelude Common OrderedTree Thread PriorityQueue PriorityQueueTheorems PriorityQueueRefinement Scheduler SchedulerLemmas SchedulerSelect SchedulerOperations Locks.

(** ** Insertion into a sorted tree *)
Section Insert.
Context {A B : Type} (lt : A → A → bool).
Hypothesis lt_trans : ∀ x y z, lt x y = true → lt z y = false → lt x z = true.
Hypothesis lt_asym : ∀ x y, lt x y = true → lt y x = false.

Definition sorted_by : list A → Prop := StronglySorted (λ y z, lt z y = false).

Lemma insert_sorted (cmp : B → Z) (g : A → B) x l :
  (∀ y, cmp (g y) = if lt x y then -1 else 1) → sorted_by l →
  ∃ l1 l2 n, l = l1 ++ l2 ∧ tree_insert cmp (g x) (g <$> l) = Done true (g <$> (l1 ++ x :: l2), n) ∧
    sorted_by (l1 ++ x :: l2) ∧ (∀ y, y ∈ l1 → lt x y = false) ∧ (∀ y, head l2 = Some y → lt x y = true).
Proof.
  intros Hcmp. induction 1 as [|y l Hl IH Hy].
  { exists [], [], 0%nat. split_and!; [done|done| |by intros y ?%not_elem_of_nil|done]. repeat constructor. }
  cbn [fmap list_fmap tree_insert]. rewrite Hcmp. destruct (lt x y) eqn:Elt.
  - exists [], (y :: l), 0%nat. split_and!; [done|done| |by intros z ?%not_elem_of_nil|by intros z [= <-]].
    cbn [app]. constructor; [by constructor|].
    constructor; [by apply lt_asym|]. eapply Forall_impl; [exact Hy|]. intros z Hz. apply lt_asym.
    by eapply lt_trans.
  - destruct IH as (l1 & l2 & n & -> & E & Hs & Hb & Ha). exists (y :: l1), l2, (S n).
    split_and!; [done| | |by intros z [->|?]%elem_of_cons; [|apply Hb]|done].
    + change (tree_insert cmp (g x) (list_fmap _ _ g (l1 ++ l2))) with (tree_insert cmp (g x) (g <$> (l1 ++ l2))).
      rewrite E. by pstep.
    + cbn [app]. constructor; [done|]. apply Forall_app in Hy as [H1 H2].
      apply Forall_app. split; [done|]. by constructor.
Qed.

Lemma sorted_by_ext (lt' : A → A → bool) l :
  (∀ y z, y ∈ l → z ∈ l → lt' z y = lt z y) → sorted_by l → StronglySorted (λ y z, lt' z y = false) l.
Proof.
  intros Hext. induction 1 as [|y l Hl IH Hy]; [constructor|]. constructor.
  - apply IH. intros. apply Hext; by right.
  - rewrite Forall_forall in *. intros z Hz. rewrite Hext; [by apply Hy|by left|by right].
Qed.

Lemma sorted_by_remove l1 x l2 : sorted_by (l1 ++ x :: l2) → sorted_by (l1 ++ l2).
Proof.
  induction l1 as [|y l1 IH]; cbn [app]; intros [Hs Hy]%StronglySorted_inv; [done|].
  constructor; [by apply IH|]. apply Forall_app in Hy as [? [_ ?]%Forall_cons]. by apply Forall_app.
Qed.

Lemma sorted_by_head y l z : sorted_by (y :: l) → z ∈ y :: l → z = y ∨ lt z y = false.
Proof.
  intros [_ Hy]%StronglySorted_inv [->|Hz]%elem_of_cons; [by left|right].
  rewrite Forall_forall in Hy. by apply Hy.
Qed.
End Insert.

(** ** Filtering *)
Lemma filter_id (P : Z → Prop) `{∀ x, Decision (P x)} (l : list Z) : Forall P l → filter P l = l.
Proof. induction 1 as [|x l Hx _ IH]; [done|]. by rewrite filter_cons_True, IH. Qed.

Lemma filter_nil (P : Z → Prop) `{∀ x, Decision (P x)} (l : list Z) : Forall (λ x, ¬ P x) l → filter P l = [].
Proof. induction 1 as [|x l Hx _ IH]; [done|]. by rewrite filter_cons_False. Qed.

(** ** Erasing *)
Lemma tree_erase_at (x : Z) l1 l2 : tree_erase (l1 ++ x :: l2) (length l1) = Done true (l1 ++ l2, length l1).
Proof.
  unfold tree_erase. rewrite decide_True by (rewrite length_app; cbn; lia). by rewrite delete_middle.
Qed.

Lemma list_find_eq (x : Z) l1 l2 : x ∉ l1 → list_find (λ y, y = x) (l1 ++ x :: l2) = Some (length l1, x).
Proof.
  intros H1. apply list_find_Some. split_and!; [by rewrite lookup_app_r, Nat.sub_diag by lia|done|].
  intros j y Hj Hlt ->. apply H1. rewrite lookup_app_l in Hj by done. by eapply list_elem_of_lookup_2.
Qed.

Lemma erase_from_run l1 (x : Z) l2 :
  x ∉ l1 → erase_from (l1 ++ x :: l2) x = Done true (l1 ++ l2).
Proof.
  intros Hx. unfold erase_from. rewrite list_find_eq, tree_erase_at by done. by pstep.
Qed.

Lemma split_at (x : Z) l : x ∈ l → NoDup l →
  ∃ l1 l2, l = l1 ++ x :: l2 ∧ (x ∉ l1) ∧ (x ∉ l2) ∧ NoDup (l1 ++ l2).
Proof.
  intros (l1 & l2 & ->)%list_elem_of_split (H1 & Hd & [Hx H2]%NoDup_cons)%NoDup_app.
  exists l1, l2. split_and!; [done|set_solver|done|]. apply NoDup_app. set_solver.
Qed.

(** ** The invariant *)
Section Locks.
Context {C : Type} `{Clock C}.
Local Abbreviation lctx := (LockContext C).

Definition prio (s : lctx) (x : Z) : Z := default 0 (m_priority <$> ctx_threads (lc_sched s) !! x).
Definition base (s : lctx) (x : Z) : Z := default 0 (m_base_priority <$> lc_locks s !! x).
Definition ckey (s : lctx) (x : Z) : Z := default 0 (m_condvar_key <$> lc_locks s !! x).

Definition prio_lt (s : lctx) (x y : Z) : bool := prio s x <? prio s y.
Definition cv_lt (s : lctx) (x y : Z) : bool :=
  (ckey s x <? ckey s y) || (ckey s x =? ckey s y) && (prio s x <? prio s y).

(** The thread that [y] waits for. *)
Definition owner_of (s : lctx) (y : Z) : option Z :=
  match lc_locks s !! y with
  | Some k =>
      match m_waiting_lock_info k with
      | Some l => match lc_infos s !! l with Some i => li_owner i | None => None end
      | None => None
      end
  | None => None
  end.

(** The kernel waiters that a lock info counts for. *)
Definition weight (infos : gmap Z LockInfo) (l : Z) : nat :=
  match infos !! l with
  | Some i => if li_is_kernel_address_key i then length (li_tree i) else 0
  | None => 0
  end.

Record info_ok (s : lctx) (l : Z) (i : LockInfo) : Prop := MkInfoOk {
  io_owner : ∃ x k, li_owner i = Some x ∧ lc_locks s !! x = Some k ∧ l ∈ m_held_lock_info_list k ∧ x ∉ li_tree i;
  io_some : li_tree i ≠ [];
  io_NoDup : NoDup (li_tree i);
  io_sorted : sorted_by (prio_lt s) (li_tree i);
  io_count : li_waiter_count i = Z.of_nat (length (li_tree i));
  io_waits y : y ∈ li_tree i → ∃ k, lc_locks s !! y = Some k ∧ m_waiting_lock_info k = Some l ∧
    m_address_key k = li_address_key i ∧ m_is_kernel_address_key k = li_is_kernel_address_key i ∧
    m_condvar_tree k = None
}.

Record held_ok (s : lctx) (x : Z) (k : ThreadLocks) : Prop := MkHeldOk {
  ho_NoDup : NoDup (m_held_lock_info_list k);
  ho_info l : l ∈ m_held_lock_info_list k → ∃ i, lc_infos s !! l = Some i ∧ li_owner i = Some x;
  ho_count t : ctx_threads (lc_sched s) !! x = Some t →
    m_num_kernel_waiters t = Z.of_nat (sum_list_with (weight (lc_infos s)) (m_held_lock_info_list k));
  ho_wait l : m_waiting_lock_info k = Some l → ∃ i, lc_infos s !! l = Some i ∧ x ∈ li_tree i
}.

Record cv_ok (s : lctx) (c : Z) (tree : list Z) : Prop := MkCvOk {
  co_NoDup : NoDup tree;
  co_sorted : sorted_by (cv_lt s) tree;
  co_in y : y ∈ tree → ∃ k, lc_locks s !! y = Some k ∧ m_condvar_tree k = Some c
}.

Record lk_wf (s : lctx) : Prop := MkLkWf {
  wf_dom x : is_Some (lc_locks s !! x) ↔ is_Some (ctx_threads (lc_sched s) !! x);
  wf_info l i : lc_infos s !! l = Some i → info_ok s l i;
  wf_held x k : lc_locks s !! x = Some k → held_ok s x k;
  wf_base x k : lc_locks s !! x = Some k → 0 ≤ m_base_priority k ≤ NumPriority;
  wf_cvin x k c : lc_locks s !! x = Some k → m_condvar_tree k = Some c →
    ∃ tree, lc_cv_trees s !! c = Some tree ∧ x ∈ tree;
  wf_slab : NoDup (lc_slab s) ∧ ∀ l, l ∈ lc_slab s → lc_infos s !! l = None;
  wf_cv c tree : lc_cv_trees s !! c = Some tree → cv_ok s c tree;
  wf_prio x t : ctx_threads (lc_sched s) !! x = Some t → 0 ≤ m_priority t ≤ NumPriority;
  wf_size : Z.of_nat (size (lc_locks s)) < 2 ^ 31;
  wf_room : (size (lc_locks s) ≤ size (lc_infos s) + length (lc_slab s))%nat
}.

(** ** Reading *)
Lemma GetPriority_run (s : lctx) x :
  is_Some (ctx_threads (lc_sched s) !! x) → GetPriority s x = Done true (prio s x).
Proof.
  intros [t Ht]. unfold GetPriority, prio. rewrite (get_thread_run _ _ t) by done. pstep. by rewrite Ht.
Qed.

Lemma get_locks_run (s : lctx) x k : lc_locks s !! x = Some k → get_locks s x = Done true k.
Proof. intros Hk. unfold get_locks, deref. by rewrite Hk. Qed.

Lemma change_locks_run (s : lctx) x k f :
  lc_locks s !! x = Some k → change_locks x f s = Done true (set_locks (<[x := f k]> (lc_locks s)) s).
Proof. intros Hk. unfold change_locks. rewrite (get_locks_run _ _ k) by done. by pstep. Qed.

Lemma get_info_run (s : lctx) l i : lc_infos s !! l = Some i → get_info s l = Done true i.
Proof. intros Hi. unfold get_info, deref. by rewrite Hi. Qed.

Lemma change_info_run (s : lctx) l i f :
  lc_infos s !! l = Some i → change_info l f s = Done true (set_infos (<[l := f i]> (lc_infos s)) s).
Proof. intros Hi. unfold change_info. rewrite (get_info_run _ _ i) by done. by pstep. Qed.

Lemma on_sched_run (s : lctx) f c : f (lc_sched s) = Done true c → on_sched f s = Done true (set_sched c s).
Proof. intros Ef. unfold on_sched. rewrite Ef. by pstep. Qed.

Lemma priorities_of_run (s : lctx) ys :
  (∀ y, y ∈ ys → is_Some (ctx_threads (lc_sched s) !! y)) →
  priorities_of s ys = Done true ((λ y, (y, prio s y)) <$> ys).
Proof.
  induction ys as [|y ys IH]; intros Hys; [done|]. cbn [priorities_of fmap list_fmap].
  rewrite GetPriority_run by (apply Hys; left). pstep. rewrite IH by (intros; apply Hys; by right). by pstep.
Qed.

Lemma cv_keys_of_run (s : lctx) ys :
  (∀ y, y ∈ ys → is_Some (ctx_threads (lc_sched s) !! y) ∧ is_Some (lc_locks s !! y)) →
  cv_keys_of s ys = Done true ((λ y, (y, (ckey s y, prio s y))) <$> ys).
Proof.
  induction ys as [|y ys IH]; intros Hys; [done|]. cbn [cv_keys_of fmap list_fmap].
  destruct (Hys y ltac:(left)) as [Ht [k Hk]]. rewrite GetPriority_run by done. pstep.
  rewrite (get_locks_run _ _ k) by done. pstep. rewrite IH by (intros; apply Hys; by right). pstep.
  unfold ckey. by rewrite Hk.
Qed.

Definition key_of (i : LockInfo) (key : Z) (kern : bool) : Prop :=
  li_address_key i = key ∧ li_is_kernel_address_key i = kern.

Lemma find_held_run (s : lctx) key kern held :
  (∀ l, l ∈ held → is_Some (lc_infos s !! l)) →
  ∃ o, find_held s key kern held = Done true o ∧
    match o with
    | Some l => l ∈ held ∧ ∃ i, lc_infos s !! l = Some i ∧ key_of i key kern
    | None => ∀ l i, l ∈ held → lc_infos s !! l = Some i → ¬ key_of i key kern
    end.
Proof.
  induction held as [|l held IH]; intros Hi; cbn [find_held].
  { exists None. split; [done|]. intros l i []%not_elem_of_nil. }
  destruct (Hi l ltac:(left)) as [i Hl]. rewrite (get_info_run _ _ i) by done. pstep.
  destruct ((li_address_key i =? key) && eqb (li_is_kernel_address_key i) kern) eqn:Ek.
  - exists (Some l). split; [done|]. split; [by left|]. exists i. split; [done|].
    apply andb_true_iff in Ek as [?%Z.eqb_eq ?%eqb_prop]. done.
  - destruct IH as (o & -> & Ho); [intros; apply Hi; by right|]. exists o. split; [done|]. destruct o as [l'|].
    + destruct Ho as [? ?]. split; [by right|done].
    + intros l' i' [->|Hl']%elem_of_cons Hi' [K1 K2]; [|by apply (Ho l' i')].
      assert (i' = i) as -> by congruence.
      rewrite K1, K2, Z.eqb_refl, eqb_reflx in Ek. done.
Qed.

(** ** Counting kernel waiters *)
Lemma sum_list_with_same (f g : Z → nat) l :
  (∀ x, x ∈ l → f x = g x) → sum_list_with f l = sum_list_with g l.
Proof.
  induction l as [|x l IH]; intros Hfg; [done|]. cbn. rewrite Hfg by left.
  rewrite IH; [done|]. intros. apply Hfg. by right.
Qed.

(** The waiters of the locks a thread holds are different threads. *)
Lemma waiters_NoDup (s : lctx) ls :
  (∀ l i, lc_infos s !! l = Some i → info_ok s l i) → NoDup ls →
  ∃ ys, NoDup ys ∧ length ys = sum_list_with (weight (lc_infos s)) ls ∧
    ∀ y, y ∈ ys → ∃ l k, l ∈ ls ∧ lc_locks s !! y = Some k ∧ m_waiting_lock_info k = Some l.
Proof.
  intros Hinfo. induction 1 as [|l ls Hl Hls (ys & Hnd & Hlen & Hys)].
  { exists []. split_and!; [constructor|done|]. by intros y ?%not_elem_of_nil. }
  destruct (lc_infos s !! l) as [i|] eqn:Ei; [destruct (li_is_kernel_address_key i) eqn:Ek|].
  - destruct (Hinfo l i Ei) as [_ _ Hnd' _ _ Hw]. exists (li_tree i ++ ys). split_and!.
    + apply NoDup_app. split_and!; [done| |done]. intros y Hy Hy'.
      destruct (Hw y Hy) as (k & Hk & Hkl & _). destruct (Hys y Hy') as (l' & k' & Hl' & Hk' & Hkl'). congruence.
    + rewrite length_app, Hlen. cbn. unfold weight at 2. by rewrite Ei, Ek.
    + intros y [Hy|Hy]%elem_of_app.
      * destruct (Hw y Hy) as (k & Hk & Hkl & _). exists l, k. split_and!; [by left|done..].
      * destruct (Hys y Hy) as (l' & k' & ? & ? & ?). exists l', k'. split_and!; [by right|done..].
  - exists ys. split_and!; [done| |].
    + cbn. unfold weight at 1. by rewrite Ei, Ek.
    + intros y Hy. destruct (Hys y Hy) as (l' & k' & ? & ? & ?). exists l', k'. split_and!; [by right|done..].
  - exists ys. split_and!; [done| |].
    + cbn. unfold weight at 1. by rewrite Ei.
    + intros y Hy. destruct (Hys y Hy) as (l' & k' & ? & ? & ?). exists l', k'. split_and!; [by right|done..].
Qed.

Lemma waiters_bound (s : lctx) ls xs :
  (∀ l i, lc_infos s !! l = Some i → info_ok s l i) → NoDup ls → NoDup xs →
  (∀ x, x ∈ xs → ∃ k, lc_locks s !! x = Some k ∧ ∀ l, m_waiting_lock_info k = Some l → l ∉ ls) →
  (sum_list_with (weight (lc_infos s)) ls + length xs ≤ size (lc_locks s))%nat.
Proof.
  intros Hinfo Hls Hxs Hx. destruct (waiters_NoDup s ls Hinfo Hls) as (ys & Hnd & Hlen & Hys).
  assert (NoDup (ys ++ xs)) as Hall.
  { apply NoDup_app. split_and!; [done| |done]. intros y Hy Hin. destruct (Hys y Hy) as (l & k & Hl & Hk & Hkl).
    destruct (Hx y Hin) as (k' & Hk' & Hn). simplify_eq. by apply (Hn l). }
  rewrite <- Hlen, <- length_app, <- size_dom, <- (size_list_to_set (C := gset Z)) by done.
  apply subseteq_size. intros y. rewrite elem_of_list_to_set, elem_of_app, elem_of_dom. intros [Hy|Hy].
  - destruct (Hys y Hy) as (_ & k & _ & Hk & _). by eexists.
  - destruct (Hx y Hy) as (k & Hk & _). by eexists.
Qed.

(** ** Changes of who waits for what *)
Definition core_locks (k : ThreadLocks) : Z * Z * bool * option Z * Z * bool * Z :=
  (m_base_priority k, m_address_key k, m_is_kernel_address_key k, m_condvar_tree k, m_condvar_key k,
   is_pinned k, m_address_key_value k).
Definition waitless (t : KThread) : KThread := set_num_kernel_waiters 0 t.

Record frame (s s' : lctx) : Prop := MkFrame {
  fr_locks y : core_locks <$> lc_locks s' !! y = core_locks <$> lc_locks s !! y;
  fr_threads y : waitless <$> ctx_threads (lc_sched s') !! y = waitless <$> ctx_threads (lc_sched s) !! y;
  fr_cv : lc_cv_trees s' = lc_cv_trees s;
  fr_current : ctx_current (lc_sched s') = ctx_current (lc_sched s)
}.

#[export] Instance frame_preorder : PreOrder frame.
Proof. split; [done|]. intros s1 s2 s3 [] []. constructor; intros; etrans; eauto. Qed.

(** What the locks leave alone of a thread: all but its base priority, what it
    holds and waits for, its priority and its count of kernel waiters; and the
    condition variables and the current thread. *)
Definition still_locks (k : ThreadLocks) : Z * bool * option Z * Z * bool * Z :=
  (m_address_key k, m_is_kernel_address_key k, m_condvar_tree k, m_condvar_key k, is_pinned k,
   m_address_key_value k).
Definition still_thread (t : KThread) : KThread := set_num_kernel_waiters 0 (KThread_SetPriority 0 t).

Record unmoved (s s' : lctx) : Prop := MkUnmoved {
  um_locks y : still_locks <$> lc_locks s' !! y = still_locks <$> lc_locks s !! y;
  um_threads y : still_thread <$> ctx_threads (lc_sched s') !! y = still_thread <$> ctx_threads (lc_sched s) !! y;
  um_trees c : is_Some (lc_cv_trees s' !! c) ↔ is_Some (lc_cv_trees s !! c);
  um_current : ctx_current (lc_sched s') = ctx_current (lc_sched s)
}.

#[export] Instance unmoved_preorder : PreOrder unmoved.
Proof. split; [done|]. intros s1 s2 s3 [] []. constructor; intros; etrans; eauto. Qed.

Lemma fmap_via {A B D} (f : A → B) (g : B → D) (h : A → D) (o o' : option A) :
  (∀ a, h a = g (f a)) → f <$> o' = f <$> o → h <$> o' = h <$> o.
Proof.
  intros Hh E. transitivity (g <$> (f <$> o')); [destruct o'; cbn; by rewrite ?Hh|].
  rewrite E. destruct o; cbn; by rewrite ?Hh.
Qed.

Lemma frame_unmoved s s' : frame s s' → unmoved s s'.
Proof.
  intros [H1 H2 H3 H4]. constructor; [| |by rewrite H3|done]; intros y.
  - apply (fmap_via core_locks (λ '(b, a, kk, ct, ck, p, v), (a, kk, ct, ck, p, v))); [done|apply H1].
  - apply (fmap_via waitless (KThread_SetPriority 0)); [done|apply H2].
Qed.

Lemma unmoved_dom s s' y : unmoved s s' → is_Some (lc_locks s' !! y) ↔ is_Some (lc_locks s !! y).
Proof. intros Hu. by rewrite <- (fmap_is_Some still_locks), (um_locks _ _ Hu), fmap_is_Some. Qed.

Lemma frame_prio s s' y : frame s s' → prio s' y = prio s y.
Proof.
  intros Hf. pose proof (fr_threads _ _ Hf y) as Ht. unfold prio.
  unfold waitless, set_num_kernel_waiters in Ht.
  destruct (ctx_threads (lc_sched s') !! y), (ctx_threads (lc_sched s) !! y); cbn in *; congruence.
Qed.

Lemma frame_locks s s' y k' : frame s s' → lc_locks s' !! y = Some k' →
  ∃ k, lc_locks s !! y = Some k ∧ core_locks k' = core_locks k.
Proof.
  intros Hf Hk. pose proof (fr_locks _ _ Hf y) as Hl. rewrite Hk in Hl.
  destruct (lc_locks s !! y) as [k|]; cbn in Hl; [|done]. exists k. split; [done|congruence].
Qed.

Lemma frame_locks' s s' y k : frame s s' → lc_locks s !! y = Some k →
  ∃ k', lc_locks s' !! y = Some k' ∧ core_locks k' = core_locks k.
Proof.
  intros Hf Hk. pose proof (fr_locks _ _ Hf y) as Hl. rewrite Hk in Hl.
  destruct (lc_locks s' !! y) as [k'|]; cbn in Hl; [|done]. exists k'. split; [done|congruence].
Qed.

Lemma frame_some s s' y : frame s s' →
  (is_Some (lc_locks s' !! y) ↔ is_Some (lc_locks s !! y)) ∧
  (is_Some (ctx_threads (lc_sched s') !! y) ↔ is_Some (ctx_threads (lc_sched s) !! y)).
Proof.
  intros Hf. pose proof (fr_locks _ _ Hf y) as Hl. pose proof (fr_threads _ _ Hf y) as Ht.
  rewrite <- (fmap_is_Some core_locks (lc_locks s' !! y)), Hl, fmap_is_Some.
  rewrite <- (fmap_is_Some waitless (ctx_threads (lc_sched s') !! y)), Ht, fmap_is_Some. done.
Qed.

Lemma frame_keys s s' y : frame s s' → base s' y = base s y ∧ ckey s' y = ckey s y.
Proof.
  intros Hf. pose proof (fr_locks _ _ Hf y) as Hl. unfold base, ckey, core_locks in *.
  destruct (lc_locks s' !! y), (lc_locks s !! y); cbn in *; split; congruence.
Qed.

Lemma wf_frame (s s' : lctx) :
  lk_wf s → frame s s' →
  (∀ l i, lc_infos s' !! l = Some i → info_ok s' l i) →
  (∀ x k, lc_locks s' !! x = Some k → held_ok s' x k) →
  NoDup (lc_slab s') ∧ (∀ l, l ∈ lc_slab s' → lc_infos s' !! l = None) →
  (size (lc_infos s) + length (lc_slab s) = size (lc_infos s') + length (lc_slab s'))%nat → lk_wf s'.
Proof.
  intros Hwf Hf Hi Hh Hs Hn. assert (size (lc_locks s') = size (lc_locks s)) as Hsz.
  { rewrite <- !size_dom. f_equal. apply leibniz_equiv. intros y. rewrite !elem_of_dom. apply (frame_some s s' y Hf). }
  constructor; try done.
  - intros x. destruct (frame_some s s' x Hf) as [-> ->]. apply (wf_dom _ Hwf).
  - intros x k' Hk'. destruct (frame_locks s s' x k' Hf Hk') as (k & Hk & [= E _ _ _ _ _ _]). rewrite E.
    apply (wf_base _ Hwf x k Hk).
  - intros x k' c Hk'. destruct (frame_locks s s' x k' Hf Hk') as (k & Hk & [= _ _ _ E _ _ _]).
    rewrite E, (fr_cv _ _ Hf). apply (wf_cvin _ Hwf x k c Hk).
  - intros c tree. rewrite (fr_cv _ _ Hf). intros Hc. destruct (wf_cv _ Hwf c tree Hc) as [H1 H2 H3].
    constructor; [done| |].
    + apply (sorted_by_ext (cv_lt s)); [|done]. intros y z _ _. unfold cv_lt.
      rewrite !(frame_prio s s') by done.
      destruct (frame_keys s s' y Hf) as [_ ->], (frame_keys s s' z Hf) as [_ ->]. done.
    + intros y Hy. destruct (H3 y Hy) as (k & Hk & Hkc).
      destruct (frame_locks' s s' y k Hf Hk) as (k' & Hk' & [= _ _ _ E _ _ _]). exists k'. split; congruence.
  - intros x t' Ht'. pose proof (fr_threads _ _ Hf x) as E. rewrite Ht' in E.
    destruct (ctx_threads (lc_sched s) !! x) as [t|] eqn:Et; cbn in E; [|done].
    pose proof (wf_prio _ Hwf x t Et). injection E as _ -> _. done.
  - rewrite Hsz. apply (wf_size _ Hwf).
  - rewrite Hsz, <- Hn. apply (wf_room _ Hwf).
Qed.

Lemma frame_sorted s s' tree : frame s s' → sorted_by (prio_lt s) tree → sorted_by (prio_lt s') tree.
Proof.
  intros Hf. apply sorted_by_ext. intros y z _ _. unfold prio_lt. by rewrite !(frame_prio s s').
Qed.

(** ** The count of kernel waiters and the flag *)
Definition waiters_sched (d x : Z) (kern : bool) (c : SchedulerContext C) : SchedulerContext C :=
  if kern then
    match ctx_threads c !! x with
    | Some t => SetSchedulerUpdateNeeded
        (set_threads (<[x := set_num_kernel_waiters (m_num_kernel_waiters t + d) t]> (ctx_threads c)) c)
    | None => c
    end
  else c.

Lemma waiters_lookup d x kern c y :
  ctx_threads (waiters_sched d x kern c) !! y =
    if decide (y = x) then
      (λ t, set_num_kernel_waiters (m_num_kernel_waiters t + if kern then d else 0) t) <$> ctx_threads c !! x
    else ctx_threads c !! y.
Proof.
  unfold waiters_sched. destruct kern.
  - destruct (ctx_threads c !! x) as [t|] eqn:Et; cbn; case_decide as Hd; subst.
    + by rewrite lookup_insert_eq.
    + by rewrite lookup_insert_ne.
    + done.
    + done.
  - case_decide as Hd; [subst|done]. destruct (ctx_threads c !! x) as [t|]; [|done]. cbn.
    rewrite Z.add_0_r. by destruct t.
Qed.

Lemma count_waiter_run (s : lctx) d x kern t (old : Z → bool) :
  ctx_threads (lc_sched s) !! x = Some t →
  (kern = true → -2 ^ 31 ≤ m_num_kernel_waiters t + d < 2 ^ 31 ∧ old (m_num_kernel_waiters t) = true) →
  (if kern then
     t ← get_thread (lc_sched s) x;
     s ← add_kernel_waiters x d s;
     _ ← ASSERT (old (m_num_kernel_waiters t));
     mret (need_update s)
   else mret s) = Done true (set_sched (waiters_sched d x kern (lc_sched s)) s).
Proof.
  intros Ht Hb. unfold waiters_sched. destruct kern; [|by destruct s]. destruct (Hb eq_refl) as [[H1 H2] Ho].
  rewrite (get_thread_run _ _ t), bind_Done_true by done. unfold add_kernel_waiters.
  rewrite (get_thread_run _ _ t), bind_Done_true by done.
  rewrite (proj2 (Z.leb_le _ _) H1), (proj2 (Z.ltb_lt _ _) H2). cbn [andb].
  rewrite (on_sched_run s _ _ (change_thread_run _ x t _ Ht)). pstep. rewrite Ho. unfold ASSERT. pstep. by rewrite Ht.
Qed.
End Locks.
