(* ===== verification/LocksOperations.v ===== *)
(** * A waiter leaves, a waiter comes *)

From Stdlib Require Import Sorting.Sorted.
From S2P Require Import Prelude Common OrderedTree Thread PriorityQueue PriorityQueueTheorems PriorityQueueRefinement Scheduler SchedulerLemmas SchedulerSelect SchedulerOperations Locks LocksLemmas.

Section Locks.
Context {C : Type} `{Clock C}.
Local Abbreviation lctx := (LockContext C).

Lemma waiters_frame (s : lctx) d x kern m infos slab :
  (∀ y, core_locks <$> m !! y = core_locks <$> lc_locks s !! y) →
  frame s (MkLockContext (waiters_sched d x kern (lc_sched s)) m infos slab (lc_cv_trees s)).
Proof.
  intros Hm. constructor; [exact Hm| |done|].
  2:{ cbn. unfold waiters_sched. destruct kern; [|done]. by destruct (ctx_threads (lc_sched s) !! x). }
  intros y. cbn [lc_sched]. rewrite waiters_lookup.
  case_decide as Hd; [subst|done]. by destruct (ctx_threads (lc_sched s) !! x).
Qed.

Lemma insert_core (m : gmap Z ThreadLocks) x k k' y :
  m !! x = Some k → core_locks k' = core_locks k →
  core_locks <$> <[x := k']> m !! y = core_locks <$> m !! y.
Proof.
  intros Hk Hc. destruct (decide (y = x)) as [->|]; [|by rewrite lookup_insert_ne].
  rewrite lookup_insert_eq, Hk. cbn. by rewrite Hc.
Qed.

Lemma NoDup_middle (a b : list Z) z : NoDup (a ++ z :: b) → (z ∉ a) ∧ (z ∉ b) ∧ NoDup (a ++ b).
Proof.
  intros (H1 & Hd & [Hz H2]%NoDup_cons)%NoDup_app. split_and!; [|done|].
  - intros Hin. apply (Hd z Hin). left.
  - apply NoDup_app. split_and!; [done| |done]. intros y Hy Hin. apply (Hd y Hy). by right.
Qed.

(** ** RemoveWaiterImpl *)
Section Remove.
Context (s : lctx) (x t l : Z) (kt kx : ThreadLocks) (i : LockInfo) (l1 l2 h1 h2 : list Z).
Hypotheses (Hwf : lk_wf s) (Hlock : ctx_locked (lc_sched s) = true).
Hypotheses (Hkt : lc_locks s !! t = Some kt) (Hw : m_waiting_lock_info kt = Some l).
Hypotheses (Hi : lc_infos s !! l = Some i) (Hx : li_owner i = Some x) (Hkx : lc_locks s !! x = Some kx).
Hypotheses (Htree : li_tree i = l1 ++ t :: l2) (Hheld : m_held_lock_info_list kx = h1 ++ l :: h2).

Definition rem_info : LockInfo :=
  MkInfo (l1 ++ l2) (li_address_key i) (li_owner i) (li_waiter_count i - 1) (li_is_kernel_address_key i).
Definition rem_locks : gmap Z ThreadLocks :=
  let m := <[t := SetWaitingLockInfo None kt]> (lc_locks s) in
  match l1 ++ l2 with [] => <[x := set_held (h1 ++ h2) kx]> m | _ => m end.
Definition rem_infos : gmap Z LockInfo :=
  match l1 ++ l2 with [] => delete l (lc_infos s) | _ => <[l := rem_info]> (lc_infos s) end.
Definition rem_slab : list Z := match l1 ++ l2 with [] => l :: lc_slab s | _ => lc_slab s end.
Definition rem_state : lctx :=
  MkLockContext (waiters_sched (-1) x (li_is_kernel_address_key i) (lc_sched s)) rem_locks rem_infos
    rem_slab (lc_cv_trees s).

Lemma rem_facts :
  info_ok s l i ∧ held_ok s x kx ∧ x ≠ t ∧ m_is_kernel_address_key kt = li_is_kernel_address_key i ∧
  (t ∉ l1) ∧ (t ∉ l2) ∧ NoDup (l1 ++ l2) ∧ (l ∉ h1) ∧ (l ∉ h2) ∧ NoDup (h1 ++ h2).
Proof.
  pose proof (wf_info _ Hwf l i Hi) as Hio. pose proof (wf_held _ Hwf x kx Hkx) as Hho.
  destruct (io_waits _ _ _ Hio t) as (k & Hk & _ & _ & Hkern & _); [rewrite Htree; set_solver|].
  assert (k = kt) as -> by congruence.
  pose proof (io_NoDup _ _ _ Hio) as Hnd. rewrite Htree in Hnd.
  pose proof (ho_NoDup _ _ _ Hho) as Hnh. rewrite Hheld in Hnh.
  destruct (io_owner _ _ _ Hio) as (x' & k' & Hx' & _ & _ & Hnx). rewrite Htree in Hnx.
  assert (x ≠ t) as Hne by (intros ->; assert (x' = t) as -> by congruence; apply Hnx; set_solver).
  destruct (NoDup_middle _ _ _ Hnd) as (? & ? & ?), (NoDup_middle _ _ _ Hnh) as (? & ? & ?). by split_and!.
Qed.

Lemma rem_kern_count tx :
  ctx_threads (lc_sched s) !! x = Some tx → li_is_kernel_address_key i = true →
  0 < m_num_kernel_waiters tx < 2 ^ 31.
Proof.
  intros Htx Hk. destruct rem_facts as (Hio & Hho & _).
  rewrite (ho_count _ _ _ Hho tx Htx).
  pose proof (waiters_bound s (m_held_lock_info_list kx) [] (wf_info _ Hwf) (ho_NoDup _ _ _ Hho) (NoDup_nil_2)) as Hb.
  pose proof (wf_size _ Hwf). split.
  - rewrite Hheld, sum_list_with_app. cbn. unfold weight at 2. rewrite Hi, Hk, Htree, length_app. cbn. lia.
  - assert (∀ y, y ∈ [] → ∃ k, lc_locks s !! y = Some k ∧ ∀ l0, m_waiting_lock_info k = Some l0 → l0 ∉ m_held_lock_info_list kx) as Hn
      by (intros y []%not_elem_of_nil). specialize (Hb Hn). cbn in Hb. lia.
Qed.

Lemma rem_count_u32 : u32 (li_waiter_count i - 1) = li_waiter_count i - 1 ∧
  (li_waiter_count i - 1 =? 0) = match l1 ++ l2 with [] => true | _ => false end.
Proof.
  destruct rem_facts as (Hio & _). pose proof (io_count _ _ _ Hio) as Hc. rewrite Htree, length_app in Hc. cbn in Hc.
  assert (length (l1 ++ t :: l2) ≤ size (lc_locks s))%nat as Hle.
  { rewrite <- Htree, <- size_dom, <- (size_list_to_set (C := gset Z)) by apply (io_NoDup _ _ _ Hio).
    apply subseteq_size. intros y. rewrite elem_of_list_to_set, elem_of_dom. intros Hy.
    destruct (io_waits _ _ _ Hio y Hy) as (k & ? & _). by eexists. }
  rewrite length_app in Hle. cbn in Hle. pose proof (wf_size _ Hwf). split.
  - apply u32_id. unfold is_u32. lia.
  - rewrite Hc. destruct (l1 ++ l2) as [|y r] eqn:E.
    + apply app_eq_nil in E as [-> ->]. done.
    + apply (f_equal length) in E. rewrite length_app in E. cbn in E. apply Z.eqb_neq. lia.
Qed.

Lemma RemoveWaiterImpl_eq : RemoveWaiterImpl x t s = Done true rem_state.
Proof.
  destruct rem_facts as (Hio & Hho & Hne & Hkern & Ht1 & _ & _ & Hl1 & _).
  assert (is_Some (ctx_threads (lc_sched s) !! x)) as [tx Htx] by (apply (wf_dom _ Hwf); by eexists).
  unfold RemoveWaiterImpl, IsSchedulerLockedByCurrentThread. rewrite Hlock. unfold ASSERT at 1. pstep.
  rewrite (get_locks_run _ _ kt), bind_Done_true by done. rewrite Hkern.
  rewrite (count_waiter_run s (-1) x _ tx (λ n, 0 <? n) Htx).
  2:{ intros Hk. pose proof (rem_kern_count tx Htx Hk). split; [lia|apply Z.ltb_lt; lia]. }
  pstep. rewrite Hw. cbn [deref]. pstep. set (s1 := set_sched _ s).
  rewrite (get_info_run s1 l i), bind_Done_true by done. rewrite Hx, bool_decide_true by done.
  unfold ASSERT. pstep. unfold Info_RemoveWaiter.
  rewrite (get_info_run s1 l i), bind_Done_true by done. rewrite Htree, erase_from_run, bind_Done_true by done.
  destruct rem_count_u32 as [-> Ez]. rewrite (change_info_run s1 l i), bind_Done_true by done.
  rewrite (change_locks_run _ t kt), bind_Done_true by done. pstep. rewrite Ez.
  unfold rem_state, rem_locks, rem_infos, rem_slab. destruct (l1 ++ l2) as [|y r] eqn:E.
  - unfold drop_held. rewrite (get_locks_run _ x kx) by (cbn; by rewrite lookup_insert_ne). pstep.
    rewrite Hheld, erase_from_run, bind_Done_true by done.
    rewrite (change_locks_run _ x kx) by (cbn; by rewrite lookup_insert_ne). pstep.
    unfold Slab_Free. cbn. by rewrite delete_insert_eq.
  - unfold rem_info. by rewrite E.
Qed.

Lemma rem_frame : frame s rem_state.
Proof.
  apply waiters_frame. intros y. unfold rem_locks. destruct rem_facts as (_ & _ & Hne & _).
  assert (∀ y, core_locks <$> <[t := SetWaitingLockInfo None kt]> (lc_locks s) !! y = core_locks <$> lc_locks s !! y) as Hc
    by (intros; by eapply insert_core).
  destruct (l1 ++ l2); [|apply Hc]. rewrite <- Hc. apply (insert_core _ x kx); [|done].
  by rewrite lookup_insert_ne by done.
Qed.

Lemma rem_infos_other l' : l' ≠ l → rem_infos !! l' = lc_infos s !! l'.
Proof.
  intros Hl. unfold rem_infos. destruct (l1 ++ l2); [by rewrite lookup_delete_ne|by rewrite lookup_insert_ne].
Qed.

Lemma rem_infos_same j : rem_infos !! l = Some j → j = rem_info ∧ l1 ++ l2 ≠ [].
Proof.
  unfold rem_infos, rem_info. destruct (l1 ++ l2) eqn:E; [by rewrite lookup_delete_eq|].
  rewrite lookup_insert_eq. intros [= <-]. done.
Qed.

Lemma rem_infos_some : l1 ++ l2 ≠ [] → rem_infos !! l = Some rem_info.
Proof. unfold rem_infos, rem_info. destruct (l1 ++ l2) eqn:E; [done|]. intros _. apply lookup_insert_eq. Qed.

(** What the threads hold and wait for. *)
Lemma rem_locks_spec y k' : rem_locks !! y = Some k' →
  ∃ k, lc_locks s !! y = Some k ∧
    m_held_lock_info_list k' = (if decide (y = x ∧ l1 ++ l2 = []) then h1 ++ h2 else m_held_lock_info_list k) ∧
    m_waiting_lock_info k' = (if decide (y = t) then None else m_waiting_lock_info k).
Proof.
  destruct rem_facts as (_ & _ & Hne & _). unfold rem_locks.
  assert (∀ k', <[t := SetWaitingLockInfo None kt]> (lc_locks s) !! y = Some k' →
    ∃ k, lc_locks s !! y = Some k ∧ m_held_lock_info_list k' = m_held_lock_info_list k ∧
      m_waiting_lock_info k' = if decide (y = t) then None else m_waiting_lock_info k) as Hm.
  { intros k0. destruct (decide (y = t)) as [->|].
    - rewrite lookup_insert_eq. intros [= <-]. by exists kt.
    - rewrite lookup_insert_ne by done. eauto. }
  destruct (l1 ++ l2).
  - destruct (decide (y = x)) as [->|Hyx].
    + rewrite lookup_insert_eq. intros [= <-]. exists kx. rewrite (decide_True (P := x = x ∧ _)) by done.
      rewrite decide_False by done. done.
    + rewrite lookup_insert_ne by done. intros Hk. destruct (Hm k' Hk) as (k & ? & ? & ?). exists k.
      rewrite (decide_False (P := y = x ∧ _)) by naive_solver. done.
  - intros Hk. destruct (Hm k' Hk) as (k & ? & ? & ?). exists k.
    rewrite (decide_False (P := y = x ∧ _)) by naive_solver. done.
Qed.

Lemma rem_locks_spec' y k : lc_locks s !! y = Some k → ∃ k', rem_locks !! y = Some k'.
Proof. intros Hk. destruct (frame_locks' s rem_state y k rem_frame Hk) as (k' & ? & _). by exists k'. Qed.

Lemma rem_weight l' :
  weight rem_infos l' = if decide (l' = l) then (weight (lc_infos s) l - if li_is_kernel_address_key i then 1 else 0)%nat
                        else weight (lc_infos s) l'.
Proof.
  case_decide as Hd; [subst|unfold weight; by rewrite rem_infos_other].
  unfold weight. rewrite Hi, Htree. unfold rem_infos. destruct (l1 ++ l2) eqn:E.
  - rewrite lookup_delete_eq. apply app_eq_nil in E as [-> ->]. by destruct (li_is_kernel_address_key i).
  - rewrite lookup_insert_eq. unfold rem_info. cbn [li_is_kernel_address_key li_tree].
    destruct (li_is_kernel_address_key i); [|done]. rewrite !length_app. cbn. lia.
Qed.

Lemma rem_info_ok l' j : rem_infos !! l' = Some j → info_ok rem_state l' j.
Proof.
  destruct rem_facts as (Hio & Hho & Hne & Hkern & Ht1 & Ht2 & Hnd & Hl1 & Hl2 & Hnh).
  pose proof rem_frame as Hf. intros Hj. destruct (decide (l' = l)) as [->|Hl].
  - apply rem_infos_same in Hj as [-> Hsome]. destruct Hio as [Hown _ _ Hsort Hcnt Hwait].
    constructor; cbn [rem_info li_tree li_owner li_waiter_count li_address_key li_is_kernel_address_key].
    + destruct Hown as (x' & k' & Hx' & Hk' & Hin & Hnx). destruct (rem_locks_spec' x' k' Hk') as [k2 Hk2].
      exists x', k2. destruct (rem_locks_spec x' k2 Hk2) as (k3 & Hk3 & Hheld2 & _).
      rewrite (decide_False (P := x' = x ∧ _)) in Hheld2 by naive_solver.
      split_and!; [done|done|rewrite Hheld2; congruence|]. rewrite Htree in Hnx. set_solver.
    + done.
    + done.
    + apply (frame_sorted s); [done|]. apply (sorted_by_remove _ _ t). by rewrite <- Htree.
    + rewrite Hcnt, Htree, !length_app. cbn. lia.
    + intros y Hy. destruct (Hwait y) as (k & Hk & Hkl & K1 & K2 & K3); [rewrite Htree; set_solver|].
      destruct (frame_locks' s rem_state y k Hf Hk) as (k' & Hk' & [= _ E1 E2 E3 _ _ _]).
      destruct (rem_locks_spec y k' Hk') as (k0 & Hk0 & _ & Hwt). exists k'.
      rewrite decide_False in Hwt by set_solver. split_and!; [done|congruence..].
  - rewrite rem_infos_other in Hj by done. destruct (wf_info _ Hwf l' j Hj) as [Hown Hs Hnd' Hsort Hcnt Hwait].
    constructor; try done.
    + destruct Hown as (x' & k' & Hx' & Hk' & Hin & Hnx). destruct (rem_locks_spec' x' k' Hk') as [k2 Hk2].
      exists x', k2. destruct (rem_locks_spec x' k2 Hk2) as (k3 & Hk3 & Hheld2 & _).
      split_and!; [done|done| |done]. rewrite Hheld2. assert (k3 = k') as -> by congruence.
      case_decide as Hd; [|done]. destruct Hd as [-> _]. assert (k' = kx) as -> by congruence.
      rewrite Hheld in Hin. set_solver.
    + by apply (frame_sorted s).
    + intros y Hy. destruct (Hwait y Hy) as (k & Hk & Hkl & K1 & K2 & K3).
      destruct (frame_locks' s rem_state y k Hf Hk) as (k' & Hk' & [= _ E1 E2 E3 _ _ _]).
      destruct (rem_locks_spec y k' Hk') as (k0 & Hk0 & _ & Hwt). exists k'.
      rewrite decide_False in Hwt by (intros ->; congruence). split_and!; [done|congruence..].
Qed.

Lemma rem_held_ok y k' : rem_locks !! y = Some k' → held_ok rem_state y k'.
Proof.
  destruct rem_facts as (Hio & Hho & Hne & Hkern & Ht1 & Ht2 & Hnd & Hl1 & Hl2 & Hnh).
  pose proof rem_frame as Hf. intros Hk'. destruct (rem_locks_spec y k' Hk') as (k & Hk & Hh & Hwt).
  pose proof (wf_held _ Hwf y k Hk) as [G1 G2 G4 G5].
  assert (∀ l', l' ∈ m_held_lock_info_list k' → l' ∈ m_held_lock_info_list k ∧ (l' = l → l1 ++ l2 ≠ [])) as Hsub.
  { intros l'. rewrite Hh. clear Hwt Hh. case_decide as Hd; [|intros Hin; split; [exact Hin|]].
    - destruct Hd as [-> _]. assert (k = kx) as -> by congruence. rewrite Hheld. intros Hin. split; [set_solver|].
      intros ->. set_solver.
    - intros -> Hemp. apply Hd. split; [|done]. destruct (G2 l Hin) as (j & Hj & Hjo). congruence. }
  constructor.
  - rewrite Hh. clear Hwt Hh. by case_decide.
  - intros l' Hl'. destruct (Hsub l' Hl') as [Hl0 Hsome]. destruct (G2 l' Hl0) as (j & Hj & Hjo).
    destruct (decide (l' = l)) as [->|Hl].
    + exists rem_info. split; [by apply rem_infos_some, Hsome|]. cbn. congruence.
    + exists j. by rewrite rem_infos_other.
  - intros ty Hty. cbn [rem_state lc_sched] in Hty. rewrite waiters_lookup in Hty. rewrite Hh. clear Hwt Hh.
    case_decide as Hyx; [subst y|].
    + assert (k = kx) as -> by congruence.
      destruct (ctx_threads (lc_sched s) !! x) as [tx|] eqn:Etx; [|done]. cbn in Hty. injection Hty as <-.
      cbn [set_num_kernel_waiters m_num_kernel_waiters]. rewrite (G4 tx eq_refl), Hheld, sum_list_with_app. cbn [sum_list_with].
      assert (∀ a, l ∉ a → sum_list_with (weight rem_infos) a = sum_list_with (weight (lc_infos s)) a) as Hsame.
      { intros a Ha. apply sum_list_with_same. intros z Hz. rewrite rem_weight, decide_False by (by intros ->). done. }
      assert (weight (lc_infos s) l ≥ if li_is_kernel_address_key i then 1 else 0)%nat as Hge.
      { unfold weight. rewrite Hi, Htree, length_app. cbn. destruct (li_is_kernel_address_key i); lia. }
      case_decide as Hd.
      * destruct Hd as [_ Hd]. rewrite sum_list_with_app, !Hsame by done.
         assert (weight (lc_infos s) l = if li_is_kernel_address_key i then 1 else 0)%nat as ->.
         { unfold weight. rewrite Hi, Htree. apply app_eq_nil in Hd as [-> ->]. done. }
         destruct (li_is_kernel_address_key i); lia.
      * rewrite sum_list_with_app. cbn [sum_list_with]. rewrite !Hsame, rem_weight, decide_True by done.
         destruct (li_is_kernel_address_key i); lia.
    + rewrite decide_False by naive_solver. rewrite (G4 ty Hty). f_equal. apply sum_list_with_same.
      intros z Hz. rewrite rem_weight, decide_False; [done|]. intros ->.
      destruct (G2 l Hz) as (j & Hj & Hjo). congruence.
  - intros l' Hl'. rewrite Hwt in Hl'. clear Hwt Hh. case_decide as Hyt; [done|]. destruct (G5 l' Hl') as (j & Hj & Hyj).
    destruct (decide (l' = l)) as [->|Hl]; [|exists j; by rewrite rem_infos_other].
    assert (j = i) as -> by congruence. rewrite Htree in Hyj.
    assert (y ∈ l1 ++ l2) as Hin by set_solver. exists rem_info. split; [|done]. apply rem_infos_some.
    intros E. rewrite E in Hin. by apply not_elem_of_nil in Hin.
Qed.

Lemma rem_slab_ok : NoDup rem_slab ∧ ∀ l', l' ∈ rem_slab → rem_infos !! l' = None.
Proof.
  destruct (wf_slab _ Hwf) as [Hs1 Hs2]. unfold rem_slab. destruct (l1 ++ l2) eqn:E.
  - split.
    + constructor; [|done]. intros Hin. specialize (Hs2 l Hin). congruence.
    + intros l' [->|Hl']%elem_of_cons; unfold rem_infos; rewrite E; [apply lookup_delete_eq|].
      destruct (decide (l' = l)) as [->|]; [apply lookup_delete_eq|rewrite lookup_delete_ne by done; auto].
  - split; [done|]. intros l' Hl'. rewrite rem_infos_other; [auto|]. intros ->. specialize (Hs2 l Hl'). congruence.
Qed.

Lemma rem_room : (size (lc_infos s) + length (lc_slab s) = size rem_infos + length rem_slab)%nat.
Proof.
  unfold rem_infos, rem_slab. destruct (l1 ++ l2); [|by rewrite map_size_insert_Some by (by eexists)].
  rewrite map_size_delete_Some by (by eexists). assert (size (lc_infos s) ≠ 0%nat); [|cbn; lia].
  intros E%map_size_empty_inv. rewrite E in Hi. done.
Qed.

Lemma rem_wf : lk_wf rem_state.
Proof.
  apply (wf_frame s); [done|apply rem_frame|apply rem_info_ok|apply rem_held_ok|apply rem_slab_ok|apply rem_room].
Qed.

Lemma rem_owner y : owner_of rem_state y = if decide (y = t) then None else owner_of s y.
Proof.
  unfold owner_of. cbn [rem_state lc_locks lc_infos].
  destruct (rem_locks !! y) as [k'|] eqn:Ek'.
  - destruct (rem_locks_spec y k' Ek') as (k & Hk & _ & ->). rewrite Hk. case_decide; [done|].
    destruct (m_waiting_lock_info k) as [l'|] eqn:El'; [|done].
    destruct (decide (l' = l)) as [->|Hl]; [|by rewrite rem_infos_other].
    destruct (ho_wait _ _ _ (rem_held_ok y k' Ek') l) as (j & Hj & _).
    { destruct (rem_locks_spec y k' Ek') as (k2 & Hk2 & _ & ->). rewrite decide_False by done. congruence. }
    cbn in Hj. rewrite Hj, Hi. apply rem_infos_same in Hj as [-> _]. done.
  - destruct (lc_locks s !! y) as [k|] eqn:Ek; [|by case_decide].
    destruct (rem_locks_spec' y k Ek). congruence.
Qed.
End Remove.
(** ** AddWaiterImpl

    [tree] are the waiters that the lock info [l] has before, none when it is new. *)
Section Add.
Context (s : lctx) (x t l : Z) (kt kx : ThreadLocks) (held' slab' : list Z) (tree l1 l2 : list Z).
Let key : Z := m_address_key kt.
Let kern : bool := m_is_kernel_address_key kt.
Hypotheses (Hwf : lk_wf s) (Hlock : ctx_locked (lc_sched s) = true).
Hypotheses (Hkt : lc_locks s !! t = Some kt) (Hw : m_waiting_lock_info kt = None).
Hypotheses (Hcv : m_condvar_tree kt = None) (Hkx : lc_locks s !! x = Some kx) (Hne : x ≠ t).
Hypothesis (Hold : match lc_infos s !! l with
  | Some i => i = MkInfo tree key (Some x) (Z.of_nat (length tree)) kern ∧ l ∈ m_held_lock_info_list kx ∧
      held' = m_held_lock_info_list kx ∧ slab' = lc_slab s
  | None => tree = [] ∧ held' = l :: m_held_lock_info_list kx ∧ lc_slab s = l :: slab'
  end).
Hypotheses (Htree : tree = l1 ++ l2) (Hsort : sorted_by (prio_lt s) (l1 ++ t :: l2)).

Definition add_info : LockInfo := MkInfo (l1 ++ t :: l2) key (Some x) (Z.of_nat (length tree) + 1) kern.
Definition add_locks : gmap Z ThreadLocks :=
  <[t := SetWaitingLockInfo (Some l) kt]> (<[x := set_held held' kx]> (lc_locks s)).
Definition add_state : lctx :=
  MkLockContext (waiters_sched 1 x kern (lc_sched s)) add_locks (<[l := add_info]> (lc_infos s)) slab'
    (lc_cv_trees s).

Lemma add_frame : frame s add_state.
Proof.
  apply waiters_frame. intros y. unfold add_locks. rewrite (insert_core _ t kt).
  - by apply (insert_core _ x kx).
  - by rewrite lookup_insert_ne.
  - done.
Qed.

Lemma add_locks_spec y k' : add_locks !! y = Some k' →
  ∃ k, lc_locks s !! y = Some k ∧
    m_held_lock_info_list k' = (if decide (y = x) then held' else m_held_lock_info_list k) ∧
    m_waiting_lock_info k' = (if decide (y = t) then Some l else m_waiting_lock_info k).
Proof.
  unfold add_locks. destruct (decide (y = t)) as [->|Hyt].
  - rewrite lookup_insert_eq. intros [= <-]. exists kt. rewrite (decide_False (P := t = x)) by done. done.
  - rewrite lookup_insert_ne by done. destruct (decide (y = x)) as [->|Hyx].
    + rewrite lookup_insert_eq. intros [= <-]. exists kx. done.
    + rewrite lookup_insert_ne by done. intros Hk. by exists k'.
Qed.

(** The lock info was held by [x], or it is new and held by nobody. *)
Lemma add_facts :
  (l ∈ held') ∧ NoDup held' ∧ (∀ l', l' ∈ held' ↔ l' = l ∨ l' ∈ m_held_lock_info_list kx) ∧
  (∀ y k, lc_locks s !! y = Some k → l ∈ m_held_lock_info_list k → y = x) ∧
  NoDup tree ∧ (t ∉ tree) ∧ (x ∉ tree) ∧
  (∀ y, y ∈ tree → ∃ k, lc_locks s !! y = Some k ∧ m_waiting_lock_info k = Some l ∧
     m_address_key k = key ∧ m_is_kernel_address_key k = kern ∧ m_condvar_tree k = None) ∧
  (sum_list_with (weight (lc_infos s)) held' = sum_list_with (weight (lc_infos s)) (m_held_lock_info_list kx)) ∧
  weight (lc_infos s) l = if kern then length tree else 0%nat.
Proof.
  pose proof (wf_held _ Hwf x kx Hkx) as [G1 G2 G4 G5].
  assert (∀ y k, lc_locks s !! y = Some k → l ∈ m_held_lock_info_list k → ∃ i, lc_infos s !! l = Some i ∧ li_owner i = Some y) as Hown.
  { intros y k Hk. apply (ho_info _ _ _ (wf_held _ Hwf y k Hk)). }
  unfold weight at 3. destruct (lc_infos s !! l) as [i|] eqn:Ei.
  - destruct Hold as (-> & Hin & -> & _). destruct (wf_info _ Hwf l _ Ei) as [Ho _ Hnd _ _ Hwt]. cbn in *.
    split_and!; try done.
    + intros l'. split; [by right|]. by intros [->|?].
    + intros y k Hk Hl. destruct (Hown y k Hk Hl) as (i & [= <-] & Hy). cbn in Hy. congruence.
    + intros Hin'. destruct (Hwt t Hin') as (k & Hk & Hkl & _). congruence.
    + destruct Ho as (x' & _ & [= <-] & _ & _ & ?). done.
  - destruct Hold as (-> & -> & Hslab).
    assert (l ∉ m_held_lock_info_list kx) as Hn by (intros Hin; destruct (G2 l Hin); naive_solver).
    split; [left|]. split; [by constructor|]. split; [intros l'; apply elem_of_cons|].
    split; [intros y k Hk Hl; by destruct (Hown y k Hk Hl) as (i & ? & _)|].
    split; [constructor|]. split; [apply not_elem_of_nil|]. split; [apply not_elem_of_nil|].
    split; [by intros y []%not_elem_of_nil|]. split; [|by destruct kern].
    cbn. unfold weight at 1. by rewrite Ei.
Qed.

Lemma add_NoDup : NoDup (l1 ++ t :: l2).
Proof.
  destruct add_facts as (_ & _ & _ & _ & Hnd & Ht & _). rewrite Htree in Hnd, Ht.
  apply NoDup_app in Hnd as (H1 & Hd & H2). rewrite elem_of_app in Ht. apply NoDup_app. split_and!; [done| |].
  - intros y Hy [->|Hy2]%elem_of_cons; [naive_solver|]. by apply (Hd y).
  - constructor; [naive_solver|done].
Qed.

Lemma add_info_ok l' j : <[l := add_info]> (lc_infos s) !! l' = Some j → info_ok add_state l' j.
Proof.
  destruct add_facts as (Hl & Hnh & Hheld & Hown & Hnd & Ht & Hxt & Hwt & _). pose proof add_frame as Hf.
  destruct (decide (l' = l)) as [->|Hll].
  - rewrite lookup_insert_eq. intros [= <-]. constructor; cbn [add_info li_tree li_owner li_waiter_count li_address_key li_is_kernel_address_key].
    + exists x, (set_held held' kx). split_and!; [done| |done|].
      * cbn. unfold add_locks. rewrite lookup_insert_ne by done. apply lookup_insert_eq.
      * rewrite Htree in Hxt. set_solver.
    + by destruct l1.
    + apply add_NoDup.
    + by apply (frame_sorted s).
    + rewrite Htree, !length_app. cbn. lia.
    + intros y Hy. destruct (decide (y = t)) as [->|Hyt].
      * exists (SetWaitingLockInfo (Some l) kt). split; [apply lookup_insert_eq|done].
      * destruct (Hwt y) as (k & Hk & Hkl & K1 & K2 & K3); [rewrite Htree; set_solver|].
        destruct (frame_locks' s add_state y k Hf Hk) as (k' & Hk' & [= _ E1 E2 E3 _ _ _]).
        destruct (add_locks_spec y k' Hk') as (k0 & Hk0 & _ & Hwt2). rewrite decide_False in Hwt2 by done.
        exists k'. split_and!; [done|congruence..].
  - rewrite lookup_insert_ne by done. intros Hj. destruct (wf_info _ Hwf l' j Hj) as [Ho Hs Hnd' Hsort' Hcnt Hwait].
    constructor; try done.
    + destruct Ho as (x' & k' & Hx' & Hk' & Hin & Hnx). destruct (frame_locks' s add_state x' k' Hf Hk') as (k2 & Hk2 & _).
      exists x', k2. destruct (add_locks_spec x' k2 Hk2) as (k3 & Hk3 & Hheld2 & _).
      split_and!; [done|done| |done]. rewrite Hheld2. clear Hheld2. case_decide as Hd; [|congruence].
      apply Hheld. right. congruence.
    + by apply (frame_sorted s).
    + intros y Hy. destruct (Hwait y Hy) as (k & Hk & Hkl & K1 & K2 & K3).
      destruct (frame_locks' s add_state y k Hf Hk) as (k' & Hk' & [= _ E1 E2 E3 _ _ _]).
      destruct (add_locks_spec y k' Hk') as (k0 & Hk0 & _ & Hwt2). exists k'.
      rewrite decide_False in Hwt2 by (intros ->; congruence). split_and!; [done|congruence..].
Qed.

Lemma add_weight l' : weight (<[l := add_info]> (lc_infos s)) l' =
  (weight (lc_infos s) l' + if decide (l' = l) then (if kern then 1 else 0) else 0)%nat.
Proof.
  destruct add_facts as (_ & _ & _ & _ & _ & _ & _ & _ & _ & Hwl). case_decide as Hd.
  - subst l'. rewrite Hwl. unfold weight. rewrite lookup_insert_eq. cbn. destruct kern; [|done].
    rewrite Htree, !length_app. cbn. lia.
  - unfold weight. rewrite lookup_insert_ne by done. lia.
Qed.

Lemma add_sum held : NoDup held →
  sum_list_with (weight (<[l := add_info]> (lc_infos s))) held =
  (sum_list_with (weight (lc_infos s)) held + if decide (l ∈ held) then (if kern then 1 else 0) else 0)%nat.
Proof.
  induction 1 as [|l' held Hl' Hnd IH]; [done|]. cbn. rewrite IH, add_weight.
  repeat case_decide; set_solver by lia.
Qed.

Lemma add_held_ok y k' : add_locks !! y = Some k' → held_ok add_state y k'.
Proof.
  destruct add_facts as (Hl & Hnh & Hheld & Hown & _ & _ & _ & _ & Hsum & _). pose proof add_frame as Hf.
  intros Hk'. destruct (add_locks_spec y k' Hk') as (k & Hk & Hh & Hwt).
  pose proof (wf_held _ Hwf y k Hk) as [G1 G2 G4 G5].
  assert (∀ l', l' ∈ m_held_lock_info_list k' → l' ≠ l → l' ∈ m_held_lock_info_list k) as Hsub.
  { intros l'. rewrite Hh. clear Hwt Hh. case_decide as Hd; [subst y|done]. intros [?|?]%Hheld Hn; [done|congruence]. }
  assert (∀ l', l' ∈ m_held_lock_info_list k' → l' = l → y = x) as Hlx.
  { intros l' Hl' ->. rewrite Hh in Hl'. clear Hwt Hh. case_decide as Hd; [done|]. by apply (Hown y k). }
  constructor; cbn [add_state lc_infos].
  - rewrite Hh. clear Hwt Hh. by case_decide.
  - intros l' Hl'. destruct (decide (l' = l)) as [->|Hll].
    + exists add_info. split; [apply lookup_insert_eq|]. cbn. f_equal. symmetry. by apply (Hlx l).
    + rewrite lookup_insert_ne by done. apply G2. by apply Hsub.
  - intros ty Hty. cbn [add_state lc_sched] in Hty. rewrite waiters_lookup in Hty. rewrite Hh. clear Hwt Hh.
    destruct (decide (y = x)) as [->|Hyx].
    + rewrite add_sum, (decide_True (P := l ∈ held')), Hsum by done.
      destruct (ctx_threads (lc_sched s) !! x) as [tx|] eqn:Etx; [|done]. cbn in Hty. injection Hty as <-.
      assert (k = kx) as -> by congruence. cbn. rewrite (G4 tx eq_refl). destruct kern; lia.
    + rewrite add_sum, decide_False by (done || (intros Hin; apply Hyx, (Hown y k Hk Hin))).
      rewrite (G4 ty Hty). f_equal. lia.
  - intros l' Hl'. rewrite Hwt in Hl'. clear Hwt Hh. case_decide as Hyt.
    + injection Hl' as <-. subst y. exists add_info. split; [apply lookup_insert_eq|]. cbn. set_solver.
    + destruct (G5 l' Hl') as (j & Hj & Hyj). destruct (decide (l' = l)) as [->|Hll].
      * exists add_info. split; [apply lookup_insert_eq|]. rewrite Hj in Hold. destruct Hold as (-> & _).
        cbn in Hyj |- *. rewrite Htree in Hyj. set_solver.
      * exists j. by rewrite lookup_insert_ne.
Qed.

Lemma add_slab_ok : NoDup slab' ∧ ∀ l', l' ∈ slab' → <[l := add_info]> (lc_infos s) !! l' = None.
Proof.
  destruct (wf_slab _ Hwf) as [Hs1 Hs2]. destruct (lc_infos s !! l) as [i|] eqn:Ei.
  - destruct Hold as (_ & _ & _ & ->). split; [done|]. intros l' Hl'. rewrite lookup_insert_ne; [auto|].
    intros ->. specialize (Hs2 l' Hl'). congruence.
  - destruct Hold as (_ & _ & E). rewrite E in Hs1, Hs2. apply NoDup_cons in Hs1 as [Hn Hs1]. split; [done|].
    intros l' Hl'. rewrite lookup_insert_ne by (by intros ->). apply Hs2. by right.
Qed.

Lemma add_room : (size (lc_infos s) + length (lc_slab s) = size (<[l := add_info]> (lc_infos s)) + length slab')%nat.
Proof.
  destruct (lc_infos s !! l) as [i|] eqn:Ei.
  - destruct Hold as (_ & _ & _ & ->). by rewrite map_size_insert_Some by (by eexists).
  - destruct Hold as (_ & _ & E). rewrite map_size_insert_None, E by done. cbn. lia.
Qed.

Lemma add_wf : lk_wf add_state.
Proof.
  apply (wf_frame s); [done|apply add_frame|apply add_info_ok|apply add_held_ok|apply add_slab_ok|apply add_room].
Qed.

Lemma add_owner y : owner_of add_state y = if decide (y = t) then Some x else owner_of s y.
Proof.
  unfold owner_of. cbn [add_state lc_locks lc_infos]. destruct (add_locks !! y) as [k'|] eqn:Ek'.
  - destruct (add_locks_spec y k' Ek') as (k & Hk & _ & ->). rewrite Hk. case_decide as Hd.
    + by rewrite lookup_insert_eq.
    + destruct (m_waiting_lock_info k) as [l'|] eqn:El'; [|done].
      destruct (decide (l' = l)) as [->|Hl]; [|by rewrite lookup_insert_ne].
      rewrite lookup_insert_eq. cbn. destruct (ho_wait _ _ _ (wf_held _ Hwf y k Hk) l El') as (j & Hj & _).
      rewrite Hj in Hold |- *. destruct Hold as (-> & _). done.
  - destruct (lc_locks s !! y) as [k|] eqn:Ek.
    + destruct (frame_locks' s add_state y k add_frame Ek) as (k' & Hk' & _). cbn in Hk'. congruence.
    + case_decide as Hd; [subst; congruence|done].
Qed.
End Add.

(** ** Both, from what the threads wait for *)
Definition waits_kern (s : lctx) (t : Z) : bool :=
  default false (m_is_kernel_address_key <$> lc_locks s !! t).

(** The owner has a lock info for the address of the thread, or there is a free one. *)
Definition can_add (s : lctx) (x t : Z) : Prop := ∃ kt kx,
  lc_locks s !! t = Some kt ∧ lc_locks s !! x = Some kx ∧
  (lc_slab s ≠ [] ∨ ∃ l i, l ∈ m_held_lock_info_list kx ∧ lc_infos s !! l = Some i ∧
     key_of i (m_address_key kt) (m_is_kernel_address_key kt)).

Lemma owner_of_inv (s : lctx) t x : lk_wf s → owner_of s t = Some x →
  ∃ kt kx l i, lc_locks s !! t = Some kt ∧ m_waiting_lock_info kt = Some l ∧ lc_infos s !! l = Some i ∧
    li_owner i = Some x ∧ lc_locks s !! x = Some kx ∧ t ∈ li_tree i ∧ l ∈ m_held_lock_info_list kx.
Proof.
  intros Hwf. unfold owner_of. destruct (lc_locks s !! t) as [kt|] eqn:Ekt; [|done].
  destruct (m_waiting_lock_info kt) as [l|] eqn:El; [|done].
  destruct (lc_infos s !! l) as [i|] eqn:Ei; [|done]. intros Ho.
  destruct (io_owner _ _ _ (wf_info _ Hwf l i Ei)) as (x' & kx & Hx' & Hkx & Hin & _).
  assert (x' = x) as -> by congruence. destruct (ho_wait _ _ _ (wf_held _ Hwf t kt Ekt) l El) as (j & Hj & Ht).
  assert (j = i) as -> by congruence. by exists kt, kx, l, i.
Qed.

Lemma RemoveWaiterImpl_run (s : lctx) x t :
  lk_wf s → ctx_locked (lc_sched s) = true → owner_of s t = Some x →
  ∃ s', RemoveWaiterImpl x t s = Done true s' ∧ lk_wf s' ∧ frame s s' ∧
    (∀ y, owner_of s' y = if decide (y = t) then None else owner_of s y) ∧
    lc_sched s' = waiters_sched (-1) x (waits_kern s t) (lc_sched s) ∧ can_add s' x t ∧ x ≠ t.
Proof.
  intros Hwf Hl Ho. destruct (owner_of_inv s t x Hwf Ho) as (kt & kx & l & i & Hkt & Hw & Hi & Hx & Hkx & Ht & Hh).
  destruct (split_at t (li_tree i) Ht (io_NoDup _ _ _ (wf_info _ Hwf l i Hi))) as (l1 & l2 & Htree & _).
  destruct (split_at l _ Hh (ho_NoDup _ _ _ (wf_held _ Hwf x kx Hkx))) as (h1 & h2 & Hheld & _).
  destruct (rem_facts s x t l kt kx i l1 l2 h1 h2) as (Hio & _ & Hne & Hkern & _); [done..|].
  exists (rem_state s x t l kt kx i l1 l2 h1 h2). split; [by apply RemoveWaiterImpl_eq|].
  split; [by apply rem_wf|]. split; [by apply rem_frame|]. split; [intros y; by apply rem_owner|].
  split; [|split; [|done]].
  { unfold waits_kern. rewrite Hkt. cbn. by rewrite Hkern. }
  exists (SetWaitingLockInfo None kt).
  destruct (l1 ++ l2) as [|z r] eqn:E.
  - exists (set_held (h1 ++ h2) kx). cbn [rem_state lc_locks lc_slab]. unfold rem_locks, rem_slab. rewrite E.
    rewrite lookup_insert_ne, !lookup_insert_eq by done. split_and!; [done|done|by left].
  - exists kx. cbn [rem_state lc_locks lc_infos]. unfold rem_locks, rem_infos. rewrite E.
    rewrite lookup_insert_eq, lookup_insert_ne by done. split_and!; [done|done|]. right.
    exists l, (rem_info i l1 l2). rewrite lookup_insert_eq. split_and!; [done|done|]. cbn.
    destruct (io_waits _ _ _ Hio t Ht) as (k & Hk & _ & K1 & K2 & _). assert (k = kt) as -> by congruence. done.
Qed.

Lemma prio_lt_trans (s : lctx) x y z : prio_lt s x y = true → prio_lt s z y = false → prio_lt s x z = true.
Proof. unfold prio_lt. rewrite !Z.ltb_lt, Z.ltb_ge. lia. Qed.

Lemma prio_lt_asym (s : lctx) x y : prio_lt s x y = true → prio_lt s y x = false.
Proof. unfold prio_lt. rewrite Z.ltb_lt, Z.ltb_ge. lia. Qed.

Lemma AddWaiter_insert (s : lctx) l i t kt :
  lc_infos s !! l = Some i → sorted_by (prio_lt s) (li_tree i) →
  (∀ y, y ∈ li_tree i → is_Some (ctx_threads (lc_sched s) !! y)) →
  is_Some (ctx_threads (lc_sched s) !! t) → lc_locks s !! t = Some kt →
  Z.of_nat (length (li_tree i)) < 2 ^ 31 → li_waiter_count i = Z.of_nat (length (li_tree i)) →
  ∃ l1 l2, li_tree i = l1 ++ l2 ∧ sorted_by (prio_lt s) (l1 ++ t :: l2) ∧
    Info_AddWaiter l t s = Done true (set_locks (<[t := SetWaitingLockInfo (Some l) kt]> (lc_locks s))
      (set_infos (<[l := MkInfo (l1 ++ t :: l2) (li_address_key i) (li_owner i)
                           (Z.of_nat (length (li_tree i)) + 1) (li_is_kernel_address_key i)]> (lc_infos s)) s)).
Proof.
  intros Hi Hsort Hy Ht Hkt Hlen Hcnt.
  destruct (insert_sorted (prio_lt s) (prio_lt_trans s) (prio_lt_asym s) (lock_compare (prio s t))
    (λ y, (y, prio s y)) t (li_tree i)) as (l1 & l2 & n & E & Hins & Hs & _); [done|done|].
  exists l1, l2. split; [done|]. split; [done|]. unfold Info_AddWaiter.
  rewrite (get_info_run _ _ i), bind_Done_true by done. rewrite GetPriority_run, bind_Done_true by done.
  rewrite priorities_of_run, bind_Done_true by done. rewrite Hins. pstep.
  rewrite (change_info_run _ _ i), bind_Done_true by done.
  rewrite (change_locks_run _ _ kt) by done. rewrite <- list_fmap_compose.
  unfold compose. cbn [fst]. rewrite list_fmap_id. rewrite u32_id, Hcnt by (unfold is_u32; lia). done.
Qed.

Lemma frame_sorted_back (s s' : lctx) tree :
  frame s s' → sorted_by (prio_lt s') tree → sorted_by (prio_lt s) tree.
Proof. intros Hf. apply sorted_by_ext. intros y z _ _. unfold prio_lt. by rewrite !(frame_prio s s'). Qed.

Lemma add_kern_count (s : lctx) x t kt kx tx :
  lk_wf s → lc_locks s !! t = Some kt → m_waiting_lock_info kt = None → lc_locks s !! x = Some kx →
  ctx_threads (lc_sched s) !! x = Some tx → 0 ≤ m_num_kernel_waiters tx < 2 ^ 31 - 1.
Proof.
  intros Hwf Hkt Hw Hkx Htx. pose proof (wf_held _ Hwf x kx Hkx) as Hho. rewrite (ho_count _ _ _ Hho tx Htx).
  assert (sum_list_with (weight (lc_infos s)) (m_held_lock_info_list kx) + length [t] ≤ size (lc_locks s))%nat as Hb.
  { apply waiters_bound; [apply (wf_info _ Hwf)|apply (ho_NoDup _ _ _ Hho)|apply NoDup_singleton|].
    intros y ->%list_elem_of_singleton. exists kt. split; [done|]. intros l. by rewrite Hw. }
  pose proof (wf_size _ Hwf). cbn in Hb. lia.
Qed.

Lemma tree_bound (s : lctx) l i : lk_wf s → lc_infos s !! l = Some i →
  Z.of_nat (length (li_tree i)) < 2 ^ 31 ∧ ∀ y, y ∈ li_tree i → is_Some (ctx_threads (lc_sched s) !! y).
Proof.
  intros Hwf Hi. pose proof (wf_info _ Hwf l i Hi) as Hio.
  assert (∀ y, y ∈ li_tree i → is_Some (lc_locks s !! y)) as Hy.
  { intros y Hy. destruct (io_waits _ _ _ Hio y Hy) as (k & ? & _). by eexists. }
  split; [|intros y Hin; by apply (wf_dom _ Hwf), Hy]. pose proof (wf_size _ Hwf).
  assert (length (li_tree i) ≤ size (lc_locks s))%nat; [|lia].
  rewrite <- size_dom, <- (size_list_to_set (C := gset Z)) by apply (io_NoDup _ _ _ Hio).
  apply subseteq_size. intros y. rewrite elem_of_list_to_set, elem_of_dom. apply Hy.
Qed.

Lemma new_lock_run (s : lctx) x kx key kern l slab' :
  ctx_locked (lc_sched s) = true → lc_slab s = l :: slab' → lc_locks s !! x = Some kx →
  ('(lock_info, s) ← Info_Create key kern s; s ← AddHeldLock x lock_info s; mret (lock_info, s)) =
  Done true (l, MkLockContext (lc_sched s) (<[x := set_held (l :: m_held_lock_info_list kx) kx]> (lc_locks s))
    (<[l := MkInfo [] key (Some x) 0 kern]> (lc_infos s)) slab' (lc_cv_trees s)).
Proof.
  intros Hl Hslab Hkx. unfold Info_Create, Slab_Allocate. rewrite Hslab, bool_decide_true by done.
  unfold ASSERT at 1. pstep. rewrite (change_info_run _ l (MkInfo [] 0 None 0 false)), bind_Done_true
    by (cbn; apply lookup_insert_eq). pstep. unfold AddHeldLock, IsSchedulerLockedByCurrentThread.
  cbn [set_infos set_slab lc_sched]. rewrite Hl. unfold ASSERT at 1. pstep.
  erewrite change_info_run by (cbn; apply lookup_insert_eq). pstep.
  rewrite (change_locks_run _ x kx) by done. pstep.
  unfold set_locks, set_infos, set_slab, Info_SetOwner. cbn. by rewrite !insert_insert_eq.
Qed.

(** Every lock info has a waiter, and there are as many as threads: a thread that
    waits for nothing finds a free one. *)
Lemma free_info (s : lctx) t kt : lk_wf s → lc_locks s !! t = Some kt → m_waiting_lock_info kt = None → lc_slab s ≠ [].
Proof.
  intros Hwf Hkt Hw Hslab. pose proof (wf_room _ Hwf) as Hroom. rewrite Hslab in Hroom. cbn in Hroom.
  set (first l := default 0 (lc_infos s !! l ≫= λ i, head (li_tree i))).
  assert (∀ l, l ∈ dom (lc_infos s) → ∃ k, lc_locks s !! first l = Some k ∧ m_waiting_lock_info k = Some l) as Hfirst.
  { intros l [i Hi]%elem_of_dom. pose proof (wf_info _ Hwf l i Hi) as Hio. unfold first. rewrite Hi. cbn.
    destruct (li_tree i) as [|y r] eqn:Et; [by destruct (io_some _ _ _ Hio)|]. cbn.
    destruct (io_waits _ _ _ Hio y) as (k & Hk & Hkl & _); [rewrite Et; left|]. by exists k. }
  assert (size (lc_infos s) < size (lc_locks s))%nat; [|lia].
  assert (NoDup (t :: (first <$> elements (dom (lc_infos s))))) as Hnd.
  { constructor.
    - intros (l & -> & Hl%elem_of_elements)%list_elem_of_fmap. destruct (Hfirst l Hl) as (k & ? & ?). congruence.
    - apply NoDup_fmap_2_strong; [|apply NoDup_elements]. intros l l' Hl%elem_of_elements Hl'%elem_of_elements E.
      destruct (Hfirst l Hl) as (k & Hk & ?), (Hfirst l' Hl') as (k' & Hk' & ?). rewrite E in Hk. congruence. }
  apply (Nat.lt_le_trans _ (length (t :: (first <$> elements (dom (lc_infos s)))))).
  { cbn. rewrite length_fmap. change (length (elements (dom (lc_infos s)))) with (size (dom (lc_infos s))). rewrite size_dom. lia. }
  rewrite <- (size_dom (lc_locks s)), <- (size_list_to_set (C := gset Z)) by done.
  apply subseteq_size. intros y. rewrite elem_of_list_to_set, elem_of_dom. intros [->|Hy]%elem_of_cons; [by eexists|].
  apply list_elem_of_fmap in Hy as (l & -> & Hl%elem_of_elements). destruct (Hfirst l Hl) as (k & ? & _). by eexists.
Qed.

Lemma can_add_free (s : lctx) x t kt : lk_wf s → lc_locks s !! t = Some kt → m_waiting_lock_info kt = None →
  is_Some (lc_locks s !! x) → can_add s x t.
Proof. intros Hwf Hkt Hw [kx Hkx]. exists kt, kx. do 2 (split; [done|]). left. by apply (free_info s t kt). Qed.

Lemma AddWaiterImpl_run (s : lctx) x t kt :
  lk_wf s → ctx_locked (lc_sched s) = true → lc_locks s !! t = Some kt →
  m_waiting_lock_info kt = None → m_condvar_tree kt = None → x ≠ t → can_add s x t →
  ∃ s', AddWaiterImpl x t s = Done true s' ∧ lk_wf s' ∧ frame s s' ∧
    (∀ y, owner_of s' y = if decide (y = t) then Some x else owner_of s y) ∧
    lc_sched s' = waiters_sched 1 x (waits_kern s t) (lc_sched s).
Proof.
  intros Hwf Hl Hkt Hw Hcv Hne (kt' & kx & Hkt' & Hkx & Hcan). assert (kt' = kt) as -> by congruence.
  assert (waits_kern s t = m_is_kernel_address_key kt) as -> by (unfold waits_kern; by rewrite Hkt).
  assert (is_Some (ctx_threads (lc_sched s) !! x)) as [tx Htx] by (apply (wf_dom _ Hwf); by eexists).
  assert (is_Some (ctx_threads (lc_sched s) !! t)) as Htt by (apply (wf_dom _ Hwf); by eexists).
  unfold AddWaiterImpl, IsSchedulerLockedByCurrentThread. rewrite Hl. unfold ASSERT at 1. pstep.
  rewrite (get_locks_run _ _ kt), bind_Done_true by done. rewrite Hcv, bool_decide_true by done. unfold ASSERT at 1. pstep.
  rewrite (count_waiter_run s 1 x _ tx (λ n, 0 <=? n) Htx).
  2:{ intros _. pose proof (add_kern_count s x t kt kx tx Hwf Hkt Hw Hkx Htx). split; [lia|apply Z.leb_le; lia]. }
  pstep. set (kern := m_is_kernel_address_key kt). set (s1 := set_sched _ s).
  assert (frame s s1) as Hf1 by (by apply (waiters_frame s)).
  assert (∀ y, is_Some (ctx_threads (lc_sched s) !! y) → is_Some (ctx_threads (lc_sched s1) !! y)) as Hth
    by (intros y; apply (frame_some s s1 y Hf1)).
  unfold FindHeldLock, IsSchedulerLockedByCurrentThread.
  assert (ctx_locked (lc_sched s1) = true) as Hl1
    by (cbn; unfold waiters_sched; destruct kern; [rewrite Htx|]; done).
  rewrite Hl1. unfold ASSERT at 1. pstep. rewrite (get_locks_run s1 x kx), bind_Done_true by done.
  destruct (find_held_run s1 (m_address_key kt) kern (m_held_lock_info_list kx)) as (o & -> & Ho).
  { intros l Hin. destruct (ho_info _ _ _ (wf_held _ Hwf x kx Hkx) l Hin) as (i & ? & _). by eexists. }
  pstep. destruct o as [l|].
  - destruct Ho as (Hin & i & Hi & K1 & K2). cbn in Hi. pose proof (wf_info _ Hwf l i Hi) as Hio.
    destruct (tree_bound s l i Hwf Hi) as [Hlen Hty].
    destruct (ho_info _ _ _ (wf_held _ Hwf x kx Hkx) l Hin) as (j & Hj & Hjx). assert (j = i) as -> by congruence.
    destruct (AddWaiter_insert s1 l i t kt) as (l1 & l2 & Htree & Hsort & E); try done; [| |by apply Hth|apply Hio|].
    { apply (frame_sorted s), Hio. done. }
    { intros y Hy. by apply Hth, Hty. }
    pstep. rewrite E. apply (frame_sorted_back s) in Hsort; [|done].
    assert (match lc_infos s !! l with
      | Some i0 => i0 = MkInfo (li_tree i) (m_address_key kt) (Some x) (Z.of_nat (length (li_tree i))) (m_is_kernel_address_key kt) ∧ l ∈ m_held_lock_info_list kx ∧
          m_held_lock_info_list kx = m_held_lock_info_list kx ∧ lc_slab s = lc_slab s
      | None => li_tree i = [] ∧ m_held_lock_info_list kx = l :: m_held_lock_info_list kx ∧ lc_slab s = l :: lc_slab s end) as Hold.
    { rewrite Hi. split; [|done]. pose proof (io_count _ _ _ Hio). destruct i. cbn in *. subst. done. }
    exists (add_state s x t l kt kx (m_held_lock_info_list kx) (lc_slab s) (li_tree i) l1 l2). split.
    { unfold add_state, add_locks, add_info, set_locks, set_infos, s1. cbn. rewrite K1, K2, Hjx.
      rewrite (insert_id _ x); [done|]. rewrite Hkx. by destruct kx. }
    split; [by apply add_wf|]. split; [by apply add_frame|].
    split; [intros y; by apply add_owner|done].
  - assert (∃ l slab', lc_slab s = l :: slab') as (l & slab' & Hslab).
    { destruct (lc_slab s) as [|l slab'] eqn:E; [|by exists l, slab']. destruct Hcan as [?|(l & i & Hin & Hi & Hk)]; [done|].
      by destruct (Ho l i Hin Hi). }
    assert (lc_infos s !! l = None) as Hi by (apply (wf_slab _ Hwf); rewrite Hslab; left).
    rewrite (new_lock_run s1 x kx _ _ l slab') by done. pstep. set (s2 := MkLockContext _ _ _ _ _).
    assert (lc_infos s2 !! l = Some (MkInfo [] (m_address_key kt) (Some x) 0 kern)) as Hi2 by apply lookup_insert_eq.
    destruct (AddWaiter_insert s2 l _ t kt Hi2) as (l1 & l2 & Htree & Hsort & E); try done.
    { constructor. } { by intros y []%not_elem_of_nil. } { by apply Hth. } { cbn. by rewrite lookup_insert_ne. }
    rewrite E. cbn in Htree. symmetry in Htree. apply app_eq_nil in Htree as [-> ->].
    assert (match lc_infos s !! l with
      | Some i0 => i0 = MkInfo [] (m_address_key kt) (Some x) 0 (m_is_kernel_address_key kt) ∧ l ∈ m_held_lock_info_list kx ∧
          l :: m_held_lock_info_list kx = m_held_lock_info_list kx ∧ slab' = lc_slab s
      | None => [] = ([] : list Z) ∧ l :: m_held_lock_info_list kx = l :: m_held_lock_info_list kx ∧ lc_slab s = l :: slab' end) as Hold
      by (by rewrite Hi).
    assert (sorted_by (prio_lt s) ([] ++ t :: [])) by (repeat constructor).
    exists (add_state s x t l kt kx (l :: m_held_lock_info_list kx) slab' [] [] []). split.
    { unfold add_state, add_locks, add_info, set_locks, set_infos, s2. cbn. by rewrite insert_insert_eq. }
    split; [by apply add_wf|]. split; [by apply add_frame|].
    split; [intros y; by apply add_owner|done].
Qed.
End Locks.

(** * RestorePriority

    A thread has the priority it should when that is the least of its base
    priority and of those of its waiters (the highest priority is 0).  When this
    holds of all threads but one, RestorePriority makes it hold of all of them,
    also when threads wait for each other in a circle. *)

Section Restore.
Context {C : Type} `{Clock C}.
Local Abbreviation lctx := (LockContext C).

(** The priority [x] should have. *)
Record inherited (s : lctx) (x q : Z) : Prop := MkInherited {
  ih_base : q ≤ base s x;
  ih_waiters y : owner_of s y = Some x → q ≤ prio s y;
  ih_one : q = base s x ∨ ∃ y, owner_of s y = Some x ∧ q = prio s y
}.
Definition steady (s : lctx) (x : Z) : Prop := inherited s x (prio s x).

Lemma inherited_unique (s : lctx) x p q : inherited s x p → inherited s x q → p = q.
Proof.
  intros [A1 A2 A3] [B1 B2 B3]. apply Z.le_antisymm.
  - destruct B3 as [->|(y & Hy & ->)]; auto.
  - destruct A3 as [->|(y & Hy & ->)]; auto.
Qed.

(** ** Reading what others wait for *)
Lemma GetLockOwner_run (s : lctx) t kt : lk_wf s → lc_locks s !! t = Some kt →
  GetLockOwner t s = Done true (owner_of s t).
Proof.
  intros Hwf Hkt. unfold GetLockOwner, owner_of. rewrite (get_locks_run _ _ kt), Hkt by done. pstep.
  destruct (m_waiting_lock_info kt) as [l|] eqn:El; [|done].
  destruct (ho_wait _ _ _ (wf_held _ Hwf t kt Hkt) l El) as (i & Hi & _). rewrite (get_info_run _ _ i), Hi by done.
  by pstep.
Qed.

Lemma waiters_of (s : lctx) x kx y : lk_wf s → lc_locks s !! x = Some kx →
  owner_of s y = Some x ↔ ∃ l i, l ∈ m_held_lock_info_list kx ∧ lc_infos s !! l = Some i ∧ y ∈ li_tree i.
Proof.
  intros Hwf Hkx. split.
  - intros Ho. destruct (owner_of_inv s y x Hwf Ho) as (ky & kx' & l & i & _ & _ & Hi & _ & Hkx' & Hy & Hin).
    exists l, i. split_and!; [congruence|done|done].
  - intros (l & i & Hin & Hi & Hy). destruct (io_waits _ _ _ (wf_info _ Hwf l i Hi) y Hy) as (ky & Hky & Hw & _).
    destruct (ho_info _ _ _ (wf_held _ Hwf x kx Hkx) l Hin) as (j & Hj & Ho).
    unfold owner_of. rewrite Hky, Hw, Hi. congruence.
Qed.

Lemma min_priority_run (s : lctx) held p : lk_wf s → (∀ l, l ∈ held → is_Some (lc_infos s !! l)) →
  ∃ q, min_priority s held p = Done true q ∧ q ≤ p ∧
    (∀ l i y, l ∈ held → lc_infos s !! l = Some i → y ∈ li_tree i → q ≤ prio s y) ∧
    (q = p ∨ ∃ l i y, l ∈ held ∧ lc_infos s !! l = Some i ∧ y ∈ li_tree i ∧ q = prio s y).
Proof.
  intros Hwf. revert p. induction held as [|l held IH]; intros p Hh; cbn [min_priority].
  { exists p. split_and!; [done|lia| |by left]. by intros l i y []%not_elem_of_nil. }
  destruct (Hh l ltac:(left)) as [i Hi]. pose proof (wf_info _ Hwf l i Hi) as Hio.
  destruct (li_tree i) as [|z r] eqn:Et; [by destruct (io_some _ _ _ Hio)|].
  assert (∀ y, y ∈ li_tree i → prio s z ≤ prio s y) as Hz.
  { intros y Hy. pose proof (io_sorted _ _ _ Hio) as Hs. rewrite Et in Hs, Hy.
    destruct (sorted_by_head _ z r y Hs Hy) as [->|Hlt]; [lia|]. unfold prio_lt in Hlt. apply Z.ltb_ge in Hlt. lia. }
  unfold Info_GetHighestPriorityWaiter. rewrite (get_info_run _ _ i), bind_Done_true by done. rewrite Et. cbn [head deref].
  pstep. destruct (tree_bound s l i Hwf Hi) as [_ Hth]. rewrite GetPriority_run by (apply Hth; rewrite Et; left). pstep.
  destruct (IH (Z.min p (prio s z))) as (q & E & Hq & Hall & Hone); [intros; apply Hh; by right|].
  exists q. split_and!; [done|lia| |].
  - intros l' i' y [->|Hl']%elem_of_cons Hi' Hy; [|by apply (Hall l' i')].
    assert (i' = i) as -> by congruence. specialize (Hz y Hy). lia.
  - destruct Hone as [->|(l' & i' & y & ? & ?)]; [|right; exists l', i', y; split; [by right|done]].
    destruct (Z.min_spec p (prio s z)) as [[_ ->]|[_ ->]]; [by left|right]. exists l, i, z. rewrite Et.
    split_and!; [left|done|left|done].
Qed.

Lemma new_priority_run (s : lctx) x kx : lk_wf s → lc_locks s !! x = Some kx →
  ∃ q, min_priority s (m_held_lock_info_list kx) (m_base_priority kx) = Done true q ∧ inherited s x q.
Proof.
  intros Hwf Hkx. destruct (min_priority_run s (m_held_lock_info_list kx) (m_base_priority kx) Hwf) as (q & E & Hb & Hall & Hone).
  { intros l Hl. destruct (ho_info _ _ _ (wf_held _ Hwf x kx Hkx) l Hl) as (i & ? & _). by eexists. }
  exists q. split; [done|]. assert (base s x = m_base_priority kx) as Eb by (unfold base; by rewrite Hkx).
  constructor.
  - by rewrite Eb.
  - intros y (l & i & ? & ? & ?)%(waiters_of s x kx y Hwf Hkx). by apply (Hall l i).
  - rewrite Eb. destruct Hone as [->|(l & i & y & ? & ? & ? & ->)]; [by left|right]. exists y. split; [|done].
    apply (waiters_of s x kx y Hwf Hkx). by exists l, i.
Qed.

(** Priorities stay within those of the threads. *)
Lemma inherited_bound (s : lctx) x q kx : lk_wf s → lc_locks s !! x = Some kx → inherited s x q → 0 ≤ q ≤ NumPriority.
Proof.
  intros Hwf Hkx [_ _ [->|(y & Hy & ->)]].
  - unfold base. rewrite Hkx. apply (wf_base _ Hwf x kx Hkx).
  - destruct (owner_of_inv s y x Hwf Hy) as (ky & _ & _ & _ & Hky & _).
    assert (is_Some (ctx_threads (lc_sched s) !! y)) as [ty Hty] by (apply (wf_dom _ Hwf); by eexists).
    unfold prio. rewrite Hty. apply (wf_prio _ Hwf y ty Hty).
Qed.

(** ** The change of one priority *)
Lemma cv_lt_trans (s : lctx) x y z : cv_lt s x y = true → cv_lt s z y = false → cv_lt s x z = true.
Proof.
  unfold cv_lt. rewrite !orb_true_iff, orb_false_iff, !andb_true_iff, andb_false_iff, !Z.ltb_lt, !Z.eqb_eq, !Z.ltb_ge, Z.eqb_neq.
  lia.
Qed.

Lemma cv_lt_asym (s : lctx) x y : cv_lt s x y = true → cv_lt s y x = false.
Proof.
  unfold cv_lt. rewrite orb_true_iff, orb_false_iff, andb_true_iff, andb_false_iff, !Z.ltb_lt, Z.eqb_eq, !Z.ltb_ge, Z.eqb_neq.
  lia.
Qed.

Section Change.
Context (s : lctx) (x p : Z) (tx : KThread) (k : ThreadLocks).
Hypotheses (Hwf : lk_wf s) (Htx : ctx_threads (lc_sched s) !! x = Some tx) (Hk : lc_locks s !! x = Some k).
Hypotheses (Hw : m_waiting_lock_info k = None) (Hp : 0 ≤ p ≤ NumPriority).

Definition prio_sched : SchedulerContext C :=
  set_threads (<[x := KThread_SetPriority p tx]> (ctx_threads (lc_sched s))) (lc_sched s).
Definition prio_state (m : gmap Z (list Z)) : lctx :=
  MkLockContext prio_sched (lc_locks s) (lc_infos s) (lc_slab s) m.

Lemma prio_changed m y : prio (prio_state m) y = if decide (y = x) then p else prio s y.
Proof.
  unfold prio. cbn. case_decide as Hd; [subst; by rewrite lookup_insert_eq|by rewrite lookup_insert_ne].
Qed.

Lemma prio_threads m y ty : ctx_threads (lc_sched (prio_state m)) !! y = Some ty →
  ∃ ty0, ctx_threads (lc_sched s) !! y = Some ty0 ∧ m_num_kernel_waiters ty = m_num_kernel_waiters ty0 ∧
    (m_priority ty = p ∨ m_priority ty = m_priority ty0).
Proof.
  cbn. destruct (decide (y = x)) as [->|].
  - rewrite lookup_insert_eq. intros [= <-]. exists tx. split_and!; [done|done|by left].
  - rewrite lookup_insert_ne by done. intros Hy. exists ty. split_and!; [done|done|by right].
Qed.

Lemma prio_wf m :
  (∀ c tree, m !! c = Some tree → cv_ok (prio_state m) c tree) →
  (∀ y ky c, lc_locks s !! y = Some ky → m_condvar_tree ky = Some c → ∃ tree, m !! c = Some tree ∧ y ∈ tree) →
  lk_wf (prio_state m).
Proof.
  intros Hcv Hin. constructor; try done.
  - intros y. cbn [prio_state lc_locks lc_sched prio_sched set_threads ctx_threads]. rewrite (wf_dom _ Hwf).
    destruct (decide (y = x)) as [->|]; [|by rewrite lookup_insert_ne]. rewrite lookup_insert_eq, Htx. by split; eexists.
  - intros l i Hi. destruct (wf_info _ Hwf l i Hi) as [H1 H2 H3 H4 H5 H6]. constructor; try done.
    revert H4. apply sorted_by_ext. intros y z Hy Hz. unfold prio_lt. rewrite !prio_changed.
    assert (x ∉ li_tree i) as Hx by (intros Hx; destruct (H6 x Hx) as (k' & ? & ? & _); congruence).
    rewrite !decide_False by (by intros ->). done.
  - intros y ky Hky. destruct (wf_held _ Hwf y ky Hky) as [H1 H2 H3 H4]. constructor; try done.
    intros ty Hty. destruct (prio_threads m y ty Hty) as (ty0 & Hty0 & -> & _). by apply H3.
  - apply (wf_base _ Hwf).
  - apply (wf_slab _ Hwf).
  - intros y ty Hty. destruct (prio_threads m y ty Hty) as (ty0 & Hty0 & _ & [->| ->]); [done|].
    apply (wf_prio _ Hwf y ty0 Hty0).
  - apply (wf_size _ Hwf).
  - apply (wf_room _ Hwf).
Qed.

Lemma prio_cv_other m c tree : cv_ok s c tree → x ∉ tree → cv_ok (prio_state m) c tree.
Proof.
  intros [H1 H2 H3] Hx. constructor; [done| |done]. revert H2. apply sorted_by_ext. intros y z Hy Hz. unfold cv_lt.
  rewrite !prio_changed, !decide_False by (by intros ->). done.
Qed.
End Change.

(** The thread leaves the tree of its condition variable and comes back. *)
Section Move.
Context (s : lctx) (x p c : Z) (tx : KThread) (k : ThreadLocks) (l1 l2 r1 r2 : list Z).
Hypotheses (Hwf : lk_wf s) (Hl : ctx_locked (lc_sched s) = true).
Hypotheses (Htx : ctx_threads (lc_sched s) !! x = Some tx) (Hk : lc_locks s !! x = Some k).
Hypotheses (Hw : m_waiting_lock_info k = None) (Hp : 0 ≤ p ≤ NumPriority).
Hypotheses (Hc : lc_cv_trees s !! c = Some (l1 ++ x :: l2)) (Hkc : m_condvar_tree k = Some c).
Hypotheses (Hr : l1 ++ l2 = r1 ++ r2).

Definition cv_without : gmap Z (list Z) := <[c := l1 ++ l2]> (lc_cv_trees s).
Definition cv_with : gmap Z (list Z) := <[c := r1 ++ x :: r2]> (lc_cv_trees s).

Lemma move_facts : (x ∉ l1) ∧ (x ∉ l2) ∧ NoDup (l1 ++ l2) ∧ sorted_by (cv_lt s) (l1 ++ l2) ∧
  NoDup (r1 ++ x :: r2) ∧ ∀ y, y ∈ r1 ++ x :: r2 ↔ y ∈ l1 ++ x :: l2.
Proof.
  destruct (wf_cv _ Hwf c _ Hc) as [Hnd Hsort _]. destruct (NoDup_middle _ _ _ Hnd) as (H1 & H2 & H12).
  assert (r1 ++ x :: r2 ≡ₚ l1 ++ x :: l2) as Hperm by (by rewrite <- !Permutation_middle, Hr).
  split_and!; [done|done|done|by eapply sorted_by_remove|by rewrite Hperm|]. intros y. by rewrite Hperm.
Qed.

Lemma Before_run : in_cv_tree x (λ c, BeforeUpdatePriority c x) s = Done true (set_cv_trees cv_without s).
Proof.
  destruct move_facts as (Hx1 & _). unfold in_cv_tree. rewrite (get_locks_run s x k) by done. pstep. rewrite Hkc.
  unfold BeforeUpdatePriority, IsSchedulerLockedByCurrentThread, ASSERT. rewrite Hl. pstep.
  unfold deref. rewrite Hc. pstep. rewrite erase_from_run by done. by pstep.
Qed.

Lemma cv_without_ok : sorted_by (cv_lt (prio_state s x p tx cv_without)) (l1 ++ l2).
Proof.
  destruct move_facts as (H1 & H2 & _ & Hs & _). revert Hs. apply sorted_by_ext. intros y z Hy Hz. unfold cv_lt.
  rewrite elem_of_app in Hy, Hz. rewrite !prio_changed, !decide_False; [done|..]; intros ->; tauto.
Qed.

Lemma After_run n :
  tree_insert (cv_compare (m_condvar_key k) p) (x, (m_condvar_key k, p))
    ((λ y, (y, (ckey (prio_state s x p tx cv_without) y, prio (prio_state s x p tx cv_without) y))) <$> (l1 ++ l2)) =
  Done true ((λ y, (y, (ckey (prio_state s x p tx cv_without) y, prio (prio_state s x p tx cv_without) y))) <$> (r1 ++ x :: r2), n) →
  in_cv_tree x (λ c, AfterUpdatePriority c x) (prio_state s x p tx cv_without) = Done true (prio_state s x p tx cv_with).
Proof.
  intros Eins. unfold in_cv_tree. rewrite (get_locks_run _ x k) by done. pstep. rewrite Hkc.
  assert (deref (lc_cv_trees (prio_state s x p tx cv_without) !! c) = Done true (l1 ++ l2)) as Ed
    by (cbn; unfold cv_without; by rewrite lookup_insert_eq).
  unfold AfterUpdatePriority, IsSchedulerLockedByCurrentThread, ASSERT. rewrite Ed.
  change (ctx_locked (lc_sched (prio_state s x p tx cv_without))) with (ctx_locked (lc_sched s)). rewrite Hl. pstep.
  rewrite GetPriority_run by (cbn; rewrite lookup_insert_eq; by eexists). pstep.
  rewrite (get_locks_run _ x k) by done. pstep. rewrite cv_keys_of_run.
  2:{ intros y Hy. destruct (co_in _ _ _ (wf_cv _ Hwf c _ Hc) y) as (ky & Hky & _).
      { rewrite elem_of_app in *. rewrite elem_of_cons. tauto. }
      split; [|by eexists]. cbn. destruct (decide (y = x)) as [->|]; [rewrite lookup_insert_eq; by eexists|].
      rewrite lookup_insert_ne by done. apply (wf_dom _ Hwf). by eexists. }
  pstep. rewrite (prio_changed s x p tx cv_without x), decide_True by done. rewrite Eins. pstep.
  rewrite <- list_fmap_compose. unfold compose. cbn [fst]. rewrite list_fmap_id.
  unfold set_cv_trees, prio_state, cv_with, cv_without. cbn. by rewrite insert_insert_eq.
Qed.

Lemma move_wf : sorted_by (cv_lt (prio_state s x p tx cv_without)) (r1 ++ x :: r2) → lk_wf (prio_state s x p tx cv_with).
Proof.
  intros Hs1. destruct move_facts as (_ & _ & _ & _ & Hnd & Hmem). apply prio_wf with (k := k); try done.
  - intros c' tree' Hc'. unfold cv_with in Hc'. destruct (decide (c' = c)) as [->|Hne].
    + rewrite lookup_insert_eq in Hc'. injection Hc' as <-. constructor; [done|done|].
      intros y Hy%Hmem. by apply (wf_cv _ Hwf c _ Hc).
    + rewrite lookup_insert_ne in Hc' by done. apply prio_cv_other; [by apply (wf_cv _ Hwf)|]. intros Hx'.
      destruct (co_in _ _ _ (wf_cv _ Hwf c' tree' Hc') x Hx') as (k' & ? & ?). congruence.
  - intros y ky c' Hky Hkc'. destruct (wf_cvin _ Hwf y ky c' Hky Hkc') as (tree' & Ht' & Hy'). unfold cv_with.
    destruct (decide (c' = c)) as [->|Hne].
    + exists (r1 ++ x :: r2). split; [apply lookup_insert_eq|]. apply Hmem. congruence.
    + exists tree'. by rewrite lookup_insert_ne.
Qed.
End Move.

Lemma change_priority_run (s : lctx) x p tx k :
  lk_wf s → ctx_locked (lc_sched s) = true → ctx_threads (lc_sched s) !! x = Some tx →
  lc_locks s !! x = Some k → m_waiting_lock_info k = None → 0 ≤ p ≤ NumPriority →
  ∃ m0 m1, in_cv_tree x (λ c, BeforeUpdatePriority c x) s = Done true (set_cv_trees m0 s) ∧
    in_cv_tree x (λ c, AfterUpdatePriority c x) (prio_state s x p tx m0) = Done true (prio_state s x p tx m1) ∧
    lk_wf (prio_state s x p tx m1) ∧ ∀ c, is_Some (m1 !! c) ↔ is_Some (lc_cv_trees s !! c).
Proof.
  intros Hwf Hl Htx Hk Hw Hp. destruct (m_condvar_tree k) as [c|] eqn:Ec.
  - destruct (wf_cvin _ Hwf x k c Hk Ec) as (tree & Hc & Hx).
    destruct (split_at x tree Hx (co_NoDup _ _ _ (wf_cv _ Hwf c tree Hc))) as (l1 & l2 & -> & _).
    set (s0 := prio_state s x p tx (cv_without s c l1 l2)).
    assert (prio s0 x = p) as Ep by (unfold s0; by rewrite prio_changed, decide_True).
    assert (ckey s0 x = m_condvar_key k) as Eck by (unfold ckey; cbn; by rewrite Hk).
    destruct (insert_sorted (cv_lt s0) (cv_lt_trans _) (cv_lt_asym _) (cv_compare (m_condvar_key k) p)
      (λ y, (y, (ckey s0 y, prio s0 y))) x (l1 ++ l2)) as (r1 & r2 & n & E12 & Eins & Hs1 & _).
    { intros y. unfold cv_compare, cv_lt. cbn [snd]. rewrite Ep, Eck.
      by destruct (m_condvar_key k <? _), (m_condvar_key k =? _), (p <? _). }
    { by apply (cv_without_ok s x p c tx l1 l2 l1 l2). }
    exists (cv_without s c l1 l2), (cv_with s x c r1 r2). split; [by eapply (Before_run s x c k l1 l2 l1 l2)|]. split.
    + rewrite Ep, Eck in Eins. by eapply (After_run s x p c tx k l1 l2 r1 r2).
    + split; [by apply (move_wf s x p c tx k l1 l2 r1 r2)|]. intros c'. unfold cv_with.
      destruct (decide (c' = c)) as [->|]; [|by rewrite lookup_insert_ne]. rewrite lookup_insert_eq, Hc. by split; eexists.
  - exists (lc_cv_trees s), (lc_cv_trees s). unfold in_cv_tree. rewrite (get_locks_run s x k) by done.
    rewrite (get_locks_run _ x k) by done. pstep. rewrite Ec. split; [by destruct s|]. split; [done|]. split; [|done].
    apply prio_wf with (k := k); try done; [|apply (wf_cvin _ Hwf)]. intros c tree Hc. apply prio_cv_other; [by apply (wf_cv _ Hwf)|].
    intros Hx. destruct (co_in _ _ _ (wf_cv _ Hwf c tree Hc) x Hx) as (k' & ? & ?). congruence.
Qed.

(** ** One turn of the loop *)
Lemma OnThreadPriorityChanged_threads (c c' : SchedulerContext C) x old ok :
  OnThreadPriorityChanged x old c = Done ok c' → ctx_threads c' = ctx_threads c.
Proof.
  unfold OnThreadPriorityChanged, IncrementScheduledCount. intros E. prog_inv; try done.
  repeat (case_match; prog_inv); done.
Qed.

(** ** Changes of the scheduler that the locks do not see *)
Definition lock_view (t : KThread) : Z * Z := (m_priority t, m_num_kernel_waiters t).
Definition same_view (c c' : SchedulerContext C) : Prop :=
  ∀ y, lock_view <$> ctx_threads c' !! y = lock_view <$> ctx_threads c !! y.

Lemma same_view_prio (s : lctx) c y : same_view (lc_sched s) c → prio (set_sched c s) y = prio s y.
Proof.
  intros Hv. specialize (Hv y). unfold prio. cbn [set_sched lc_sched]. unfold lock_view in Hv.
  destruct (ctx_threads c !! y), (ctx_threads (lc_sched s) !! y); cbn in *; congruence.
Qed.

Lemma same_view_Some (c c' : SchedulerContext C) y t' : same_view c c' → ctx_threads c' !! y = Some t' →
  ∃ t, ctx_threads c !! y = Some t ∧ m_priority t' = m_priority t ∧ m_num_kernel_waiters t' = m_num_kernel_waiters t.
Proof.
  intros Hv Ht. specialize (Hv y). rewrite Ht in Hv. destruct (ctx_threads c !! y) as [t|]; cbn in Hv; [|done].
  injection Hv as ? ?. by exists t.
Qed.

Lemma view_wf (s : lctx) c : lk_wf s → same_view (lc_sched s) c → lk_wf (set_sched c s).
Proof.
  intros Hwf Hv. constructor; try apply Hwf.
  - intros y. cbn [set_sched lc_sched lc_locks]. rewrite (wf_dom _ Hwf), <- (fmap_is_Some lock_view (ctx_threads c !! y)), Hv.
    by rewrite fmap_is_Some.
  - intros l i Hi. destruct (wf_info _ Hwf l i Hi) as [H1 H2 H3 H4 H5 H6]. constructor; try done.
    revert H4. apply sorted_by_ext. intros y z _ _. unfold prio_lt. by rewrite !same_view_prio.
  - intros x k Hk. destruct (wf_held _ Hwf x k Hk) as [H1 H2 H3 H4]. constructor; try done.
    intros t' Ht'. destruct (same_view_Some _ _ x t' Hv Ht') as (t & Ht & _ & ->). by apply H3.
  - intros cv tree Hc. destruct (wf_cv _ Hwf cv tree Hc) as [H1 H2 H3]. constructor; try done.
    revert H2. apply sorted_by_ext. intros y z _ _. unfold cv_lt. by rewrite !same_view_prio.
  - intros y t' Ht'. destruct (same_view_Some _ _ y t' Hv Ht') as (t & Ht & -> & _). apply (wf_prio _ Hwf y t Ht).
Qed.

Lemma not_waiting (s : lctx) x k :
  lk_wf s → lc_locks s !! x = Some k → owner_of s x = None → m_waiting_lock_info k = None.
Proof.
  intros Hwf Hk Ho. destruct (m_waiting_lock_info k) as [l|] eqn:El; [|done].
  destruct (ho_wait _ _ _ (wf_held _ Hwf x k Hk) l El) as (i & Hi & _).
  destruct (io_owner _ _ _ (wf_info _ Hwf l i Hi)) as (z & _ & Hz & _). unfold owner_of in Ho. rewrite Hk, El, Hi, Hz in Ho. done.
Qed.

(** Everything under the scheduler lock. *)
Definition lk_ok (s : lctx) : Prop := lk_wf s ∧ sched_inv (lc_sched s) ∧ ctx_locked (lc_sched s) = true.

(** Who waits for whom, the base priorities and all else but priorities stay. *)
Record same_waits (s s' : lctx) : Prop := MkSameWaits {
  sw_owner y : owner_of s' y = owner_of s y;
  sw_base y : base s' y = base s y;
  sw_unmoved : unmoved s s'
}.

Lemma sw_dom (s s' : lctx) y : same_waits s s' → is_Some (lc_locks s' !! y) ↔ is_Some (lc_locks s !! y).
Proof. intros Hsw. apply unmoved_dom, (sw_unmoved _ _ Hsw). Qed.

#[export] Instance same_waits_preorder : PreOrder same_waits.
Proof. split; [done|]. intros s1 s2 s3 [] []. constructor; intros; etrans; eauto. Qed.

Lemma flag_inv (c : SchedulerContext C) b : sched_inv c → sched_inv (set_update_needed b c).
Proof.
  intros ([L HS] & Hpin). assert (quiet c (set_update_needed b c)) as Hq by (by constructor).
  split; [exists L; by apply (quiet_rep c)|by apply (pins_quiet c)].
Qed.

(** The scheduler is told of a new priority. *)
Lemma tell_scheduler (s : lctx) (c : SchedulerContext C) x p tx :
  sched_inv c → ctx_locked c = true → ctx_threads c !! x = Some tx → 0 ≤ p ≤ NumPriority → lk_wf s →
  lc_sched s = set_threads (<[x := KThread_SetPriority p tx]> (ctx_threads c)) c →
  ∃ c', on_sched (OnThreadPriorityChanged x (m_priority tx)) s = Done true (set_sched c' s) ∧
    lk_ok (set_sched c' s) ∧ ctx_threads c' = ctx_threads (lc_sched s) ∧ ctx_current c' = ctx_current (lc_sched s).
Proof.
  intros HI Hl Htx Hp Hwf Es. pose proof (PriorityChanged_run c x tx p HI Hl Htx Hp) as Hw.
  rewrite (change_thread_run _ x tx), bind_Done_true, <- Es in Hw by done.
  destruct (proj1 (wp_exists _ _) Hw) as (c' & E & HI' & Hcur & Hl').
  pose proof (OnThreadPriorityChanged_threads _ _ _ _ _ E) as Ht.
  assert (ctx_current c' = ctx_current (lc_sched s)) as Hcur' by (by rewrite Es).
  exists c'. split; [by apply on_sched_run|]. split; [|done]. split; [apply view_wf; [done|intros y; by rewrite Ht]|].
  split; [done|]. cbn. by rewrite Hl'.
Qed.

Definition flagged (b : bool) (c : SchedulerContext C) : SchedulerContext C :=
  if b then SetSchedulerUpdateNeeded c else c.

Lemma flagged_facts b (c : SchedulerContext C) :
  ctx_threads (flagged b c) = ctx_threads c ∧ ctx_locked (flagged b c) = ctx_locked c ∧
  (sched_inv c → sched_inv (flagged b c)).
Proof. destruct b; split_and!; try done. apply flag_inv. Qed.

(** The owner's count of kernel waiters is what it was. *)
Lemma waiters_there_and_back (c : SchedulerContext C) o x b to t' :
  o ≠ x → ctx_threads c !! o = Some to →
  waiters_sched 1 o b (set_threads (<[x := t']> (ctx_threads (waiters_sched (-1) o b c))) (waiters_sched (-1) o b c)) =
  set_threads (<[x := t']> (ctx_threads (flagged b c))) (flagged b c).
Proof.
  intros Hne Ho. unfold waiters_sched, flagged. destruct b; [|done]. rewrite Ho.
  cbn [set_threads SetSchedulerUpdateNeeded set_update_needed ctx_threads]. rewrite lookup_insert_ne, lookup_insert_eq by done.
  unfold set_threads, SetSchedulerUpdateNeeded, set_update_needed. cbn. f_equal.
  apply map_eq. intros y. destruct (decide (y = o)) as [->|Hyo].
  - rewrite lookup_insert_eq, lookup_insert_ne, Ho by done. cbn [set_num_kernel_waiters m_num_kernel_waiters].
    replace (m_num_kernel_waiters to + -1 + 1) with (m_num_kernel_waiters to) by lia. by destruct to.
  - rewrite lookup_insert_ne by done. destruct (decide (y = x)) as [->|Hyx]; [by rewrite !lookup_insert_eq|].
    by rewrite !lookup_insert_ne.
Qed.

Definition turned (s s' : lctx) (x q : Z) : Prop :=
  lk_ok s' ∧ same_waits s s' ∧ ∀ y, prio s' y = if decide (y = x) then q else prio s y.

Lemma prio_unmoved (s : lctx) x p tx m :
  ctx_threads (lc_sched s) !! x = Some tx → (∀ c, is_Some (m !! c) ↔ is_Some (lc_cv_trees s !! c)) →
  unmoved s (prio_state s x p tx m).
Proof.
  intros Htx Hm. constructor; try done. intros y. cbn. destruct (decide (y = x)) as [->|]; [|by rewrite lookup_insert_ne].
  by rewrite lookup_insert_eq, Htx.
Qed.

Lemma sched_unmoved (s : lctx) c :
  ctx_threads c = ctx_threads (lc_sched s) → ctx_current c = ctx_current (lc_sched s) → unmoved s (set_sched c s).
Proof. intros Ht Hcur. constructor; try done. intros y. cbn. by rewrite Ht. Qed.

Lemma restored_waits (s s1 s2 s3 : lctx) x o :
  frame s s1 → (∀ y, owner_of s1 y = if decide (y = x) then None else owner_of s y) →
  lc_locks s2 = lc_locks s1 → lc_infos s2 = lc_infos s1 → unmoved s1 s2 →
  frame s2 s3 → (∀ y, owner_of s3 y = if decide (y = x) then Some o else owner_of s2 y) →
  owner_of s x = Some o → same_waits s s3.
Proof.
  intros Hf1 Ho1 El Ei Hu Hf3 Ho3 Hox. constructor; [intros y..|].
  - rewrite Ho3. case_decide as Hd; [by subst|].
    transitivity (owner_of s1 y); [unfold owner_of; by rewrite El, Ei|]. by rewrite Ho1, decide_False.
  - destruct (frame_keys s2 s3 y Hf3) as [-> _]. unfold base at 1. rewrite El. apply (frame_keys s s1 y Hf1).
  - etrans; [by apply frame_unmoved|]. etrans; [exact Hu|by apply frame_unmoved].
Qed.

(** A thread that waits: it leaves the lock and comes back with its new priority. *)
Lemma turn_waiting (s : lctx) x o q tx :
  lk_ok s → ctx_threads (lc_sched s) !! x = Some tx → owner_of s x = Some o → 0 ≤ q ≤ NumPriority →
  ∃ s', (s ← RemoveWaiterImpl o x s;
         s ← in_cv_tree x (λ cv_tree, BeforeUpdatePriority cv_tree x) s;
         old_priority ← GetPriority s x;
         s ← on_sched (change_thread x (KThread_SetPriority q)) s;
         s ← in_cv_tree x (λ cv_tree, AfterUpdatePriority cv_tree x) s;
         s ← AddWaiterImpl o x s;
         s ← on_sched (OnThreadPriorityChanged x old_priority) s;
         mret (Some o, s)) = Done true (Some o, s') ∧ turned s s' x q.
Proof.
  intros (Hwf & HI & Hl) Htx Ho Hq.
  destruct (owner_of_inv s x o Hwf Ho) as (k & ko & l & i & Hk & Hkl & Hi & _ & Hko & Hxi & _).
  assert (is_Some (ctx_threads (lc_sched s) !! o)) as [to Hto] by (apply (wf_dom _ Hwf); by eexists).
  destruct (RemoveWaiterImpl_run s o x Hwf Hl Ho) as (s1 & E1 & Hwf1 & Hf1 & Ho1 & Ec1 & Hcan & Hne).
  rewrite E1. clear E1. pstep. set (b := waits_kern s x) in *.
  assert (ctx_threads (lc_sched s1) !! x = Some tx) as Htx1 by (by rewrite Ec1, waiters_lookup, decide_False).
  assert (ctx_locked (lc_sched s1) = true) as Hl1
    by (rewrite Ec1; unfold waiters_sched; destruct b; [rewrite Hto|]; done).
  destruct (frame_locks' s s1 x k Hf1 Hk) as (k1 & Hk1 & [= _ _ Ekern Ecv _ _ _]).
  assert (m_waiting_lock_info k1 = None) as Hw1
    by (apply (not_waiting s1 x); [done|done|]; by rewrite Ho1, decide_True).
  destruct (change_priority_run s1 x q tx k1 Hwf1 Hl1 Htx1 Hk1 Hw1 Hq) as (m0 & m1 & -> & E2 & Hwf2 & Hm1). pstep.
  rewrite GetPriority_run by (by eexists). pstep.
  erewrite on_sched_run by (apply change_thread_run; exact Htx1). pstep.
  change (set_sched _ (set_cv_trees m0 s1)) with (prio_state s1 x q tx m0). rewrite E2. clear E2. pstep.
  set (s2 := prio_state s1 x q tx m1) in *.
  destruct (AddWaiterImpl_run s2 o x k1) as (s3 & E3 & Hwf3 & Hf3 & Ho3 & Ec3); try done.
  { rewrite Ecv. destruct (io_waits _ _ _ (wf_info _ Hwf l i Hi) x Hxi) as (k' & ? & _ & _ & _ & ?). congruence. }
  rewrite E3. clear E3. pstep.
  assert (waits_kern s2 x = b) as Eb by (unfold waits_kern, b; cbn; rewrite Hk1; unfold waits_kern; rewrite Hk; cbn; done).
  rewrite Eb in Ec3. cbn [s2 prio_state lc_sched] in Ec3. unfold prio_sched in Ec3. rewrite Ec1 in Ec3.
  rewrite (waiters_there_and_back _ o x b to) in Ec3 by done.
  destruct (flagged_facts b (lc_sched s)) as (Ft & Fl & Fi).
  destruct (tell_scheduler s3 (flagged b (lc_sched s)) x q tx) as (c' & E4 & Hok & Et & Ecur); try done;
    [by apply Fi|by rewrite Fl|by rewrite Ft|].
  replace (prio (set_cv_trees m0 s1) x) with (m_priority tx) by (unfold prio; cbn; by rewrite Htx1).
  rewrite E4. pstep. eexists. split; [done|]. split; [done|].
  assert (same_waits s s3) as [W1 W2 W3].
  { apply (restored_waits s s1 s2 s3 x o); try done. by apply prio_unmoved. }
  split; [constructor; [done|done|]; etrans; [exact W3|by apply sched_unmoved]|]. intros y. transitivity (prio s3 y); [unfold prio; cbn; by rewrite Et|].
  rewrite (frame_prio s2 s3 y Hf3). unfold s2. rewrite prio_changed. case_decide; [done|]. by apply frame_prio.
Qed.

(** A thread that waits for nobody. *)
Lemma turn_free (s : lctx) x q tx k :
  lk_ok s → ctx_threads (lc_sched s) !! x = Some tx → lc_locks s !! x = Some k → owner_of s x = None →
  0 ≤ q ≤ NumPriority →
  ∃ s', (s ← mret s;
         s ← in_cv_tree x (λ cv_tree, BeforeUpdatePriority cv_tree x) s;
         old_priority ← GetPriority s x;
         s ← on_sched (change_thread x (KThread_SetPriority q)) s;
         s ← in_cv_tree x (λ cv_tree, AfterUpdatePriority cv_tree x) s;
         s ← mret s;
         s ← on_sched (OnThreadPriorityChanged x old_priority) s;
         mret (None, s)) = Done true (None : option Z, s') ∧ turned s s' x q.
Proof.
  intros (Hwf & HI & Hl) Htx Hk Ho Hq. pose proof (not_waiting s x k Hwf Hk Ho) as Hw.
  pstep. destruct (change_priority_run s x q tx k Hwf Hl Htx Hk Hw Hq) as (m0 & m1 & -> & E2 & Hwf2 & Hm1). pstep.
  rewrite GetPriority_run by (by eexists). pstep.
  erewrite on_sched_run by (apply change_thread_run; exact Htx). pstep.
  change (set_sched _ (set_cv_trees m0 s)) with (prio_state s x q tx m0). rewrite E2. pstep.
  destruct (tell_scheduler (prio_state s x q tx m1) (lc_sched s) x q tx) as (c' & E4 & Hok & Et & Ecur); try done.
  replace (prio (set_cv_trees m0 s) x) with (m_priority tx) by (unfold prio; cbn; by rewrite Htx).
  rewrite E4. pstep. eexists. split; [done|]. split; [done|]. split.
  { constructor; [done|done|]. etrans; [by apply (prio_unmoved s x q tx m1)|by apply sched_unmoved]. }
  intros y. rewrite <- (prio_changed s x q tx m1 y). unfold prio. by rewrite <- Et.
Qed.

Lemma restore_turn_run (s : lctx) x :
  lk_ok s → is_Some (lc_locks s !! x) →
  ∃ q, inherited s x q ∧
    (q = prio s x ∧ restore_turn x s = Done true (None, s) ∨
     q ≠ prio s x ∧ ∃ s', restore_turn x s = Done true (owner_of s x, s') ∧ turned s s' x q).
Proof.
  intros Hok [k Hk]. pose proof Hok as (Hwf & _).
  destruct (new_priority_run s x k Hwf Hk) as (q & Eq & Hq). exists q. split; [done|].
  assert (is_Some (ctx_threads (lc_sched s) !! x)) as [tx Htx] by (apply (wf_dom _ Hwf); by eexists).
  unfold restore_turn. rewrite (get_locks_run s x k) by done. pstep. rewrite Eq. pstep.
  rewrite GetPriority_run by (by eexists). pstep.
  destruct (q =? prio s x) eqn:Ez; bool_prop; [by left|right]. split; [done|].
  rewrite (GetLockOwner_run s x k) by done. pstep.
  pose proof (inherited_bound s x q k Hwf Hk Hq) as Hb.
  destruct (owner_of s x) as [o|] eqn:Eo.
  - by apply (turn_waiting s x o q tx).
  - by apply (turn_free s x q tx k).
Qed.

(** ** The loop *)
Lemma inherited_waits (s s' : lctx) x q : same_waits s s' →
  (∀ y, owner_of s y = Some x → prio s' y = prio s y) → inherited s x q → inherited s' x q.
Proof.
  intros Hsw Hp [A1 A2 A3]. constructor.
  - by rewrite (sw_base _ _ Hsw).
  - intros y. rewrite (sw_owner _ _ Hsw). intros Hy. rewrite Hp by done. auto.
  - rewrite (sw_base _ _ Hsw). destruct A3 as [?|(y & Hy & ?)]; [by left|right]. exists y.
    rewrite (sw_owner _ _ Hsw), Hp by done. done.
Qed.

(** The threads on the way from [x] along the owners. *)
Inductive reaches (s : lctx) : Z → Z → Prop :=
| reaches_one x y : owner_of s x = Some y → reaches s x y
| reaches_step x y z : owner_of s x = Some y → reaches s y z → reaches s x z.

Lemma reaches_last (s : lctx) x y z : reaches s x y → owner_of s y = Some z → reaches s x z.
Proof.
  induction 1 as [x y Hxy|x y w Hxy Hyw IH]; intros Hz.
  - eapply reaches_step; [exact Hxy|]. by apply reaches_one.
  - eapply reaches_step; [exact Hxy|]. auto.
Qed.

Lemma reaches_waits (s s' : lctx) x y : same_waits s s' → reaches s x y → reaches s' x y.
Proof.
  intros Hsw. induction 1 as [x y Hxy|x y z Hxy Hyz IH].
  - apply reaches_one. by rewrite (sw_owner _ _ Hsw).
  - apply (reaches_step s' x y z); [by rewrite (sw_owner _ _ Hsw)|done].
Qed.

(** The priorities do not get worse along the owners. *)
Lemma reaches_prio (s : lctx) x y : lk_wf s → (∀ w, is_Some (lc_locks s !! w) → w ≠ x → steady s w) →
  reaches s y x → ∃ w, owner_of s w = Some x ∧ prio s w ≤ prio s y.
Proof.
  intros Hwf Hst Hr. induction Hr as [y x Hyx|y u x Hyu Hux IH].
  - exists y. split; [done|lia].
  - destruct (decide (u = x)) as [->|Hne]; [exists y; split; [done|lia]|].
    destruct (IH Hst) as (w & Hw & Hle). exists w. split; [done|].
    destruct (owner_of_inv s y u Hwf Hyu) as (_ & ku & _ & _ & _ & _ & _ & _ & Hku & _).
    pose proof (ih_waiters _ _ _ (Hst u ltac:(by eexists) Hne) y Hyu). lia.
Qed.

Lemma owner_irrefl (s : lctx) x : lk_wf s → owner_of s x ≠ Some x.
Proof.
  intros Hwf Ho. destruct (owner_of_inv s x x Hwf Ho) as (k & k' & l & i & _ & _ & Hi & Hx & _ & Hin & _).
  destruct (io_owner _ _ _ (wf_info _ Hwf l i Hi)) as (z & _ & Hz & _ & _ & Hn). congruence.
Qed.

(** What is known of the thread the loop is at: the threads seen have got the
    priority [p] that it is to get if it is better, or they all have got a worse
    one and so may this one. *)
Definition pending (s : lctx) (x : Z) (seen : list Z) : Prop :=
  (∃ p, (∀ w, w ∈ seen → prio s w = p) ∧ inherited s x (Z.min (prio s x) p)) ∨
  (∀ w, w ∈ seen → reaches s w x) ∧ ∀ q, inherited s x q → prio s x ≤ q.

Definition all_but (s : lctx) (x : Z) : Prop := ∀ w, is_Some (lc_locks s !! w) → w ≠ x → steady s w.

Lemma turned_steady (s s' : lctx) x q w :
  turned s s' x q → owner_of s x ≠ Some w → w ≠ x → steady s w → steady s' w.
Proof.
  intros (_ & Hsw & Hp) Hx Hw Hst. unfold steady. rewrite Hp, decide_False by done.
  apply (inherited_waits s); [done| |exact Hst]. intros y Hy. rewrite Hp, decide_False; [done|]. by intros ->.
Qed.

Lemma turned_self (s s' : lctx) x q : lk_wf s → turned s s' x q → inherited s x q → steady s' x.
Proof.
  intros Hwf (_ & Hsw & Hp) Hq. unfold steady. rewrite Hp, decide_True by done. apply (inherited_waits s); [done| |done].
  intros y Hy. rewrite Hp, decide_False; [done|]. intros ->. by apply (owner_irrefl s x).
Qed.

Lemma pending_next (s s' : lctx) x o q seen :
  lk_wf s → turned s s' x q → inherited s x q → q ≠ prio s x → owner_of s x = Some o → steady s o → all_but s x →
  pending s x seen → (x ∉ seen) ∧ pending s' o (x :: seen).
Proof.
  intros Hwf (_ & Hsw & Hp) Hq Hne Ho [S1 S2 S3] Hall Hpend.
  assert (o ≠ x) as Hox by (intros ->; by apply (owner_irrefl s x)).
  assert (prio s' o = prio s o ∧ prio s' x = q) as [Epo Epx] by (rewrite !Hp, (decide_True (P := x = x)), decide_False by done; done).
  pose proof (S2 x Ho) as Hxo.
  destruct Hpend as [(p & Hseen & Hx)|(Hseen & Hx)].
  - pose proof (inherited_unique s x _ _ Hq Hx) as Eq. assert (q = p ∧ p < prio s x) as [-> Hlt] by lia.
    split; [intros Hin; specialize (Hseen x Hin); lia|]. left. exists p. split.
    + intros w [->|Hw]%elem_of_cons; [done|]. rewrite Hp. case_decide; [done|by apply Hseen].
    + rewrite Epo. constructor.
      * rewrite (sw_base _ _ Hsw). lia.
      * intros y. rewrite (sw_owner _ _ Hsw), Hp. intros Hy. case_decide; [lia|]. specialize (S2 y Hy). lia.
      * destruct (decide (p < prio s o)).
        -- right. exists x. rewrite (sw_owner _ _ Hsw), Epx. split; [done|lia].
        -- rewrite Z.min_l by lia. rewrite (sw_base _ _ Hsw). destruct S3 as [?|(y & Hy & Ey)]; [by left|right].
           exists y. rewrite (sw_owner _ _ Hsw), Hp, decide_False; [done|]. intros ->. lia.
  - pose proof (Hx q Hq) as Hle. split.
    + intros Hin. destruct (reaches_prio s x x Hwf Hall (Hseen x Hin)) as (w & Hw & Hpw).
      pose proof (ih_waiters _ _ _ Hq w Hw). lia.
    + right. split.
      * intros w [->|Hw]%elem_of_cons; apply (reaches_waits s); try done; [by apply reaches_one|].
        by apply (reaches_last s w x o), Ho; auto.
      * intros q' [_ _ [->|(y & Hy & ->)]]; rewrite Epo; [by rewrite (sw_base _ _ Hsw)|].
        rewrite (sw_owner _ _ Hsw) in Hy. rewrite Hp. case_decide; [lia|by apply S2].
Qed.

Lemma seen_bound (s : lctx) seen : NoDup seen → (∀ w, w ∈ seen → is_Some (lc_locks s !! w)) →
  (length seen ≤ size (lc_locks s))%nat.
Proof.
  intros Hnd Hin. rewrite <- size_dom, <- (size_list_to_set (C := gset Z)) by done.
  apply subseteq_size. intros y. rewrite elem_of_list_to_set, elem_of_dom. apply Hin.
Qed.

Lemma same_waits_size (s s' : lctx) : same_waits s s' → size (lc_locks s') = size (lc_locks s).
Proof.
  intros Hsw. rewrite <- !size_dom. f_equal. apply leibniz_equiv. intros y. rewrite !elem_of_dom. apply (sw_dom _ _ _ Hsw).
Qed.

Lemma restore_loop_run fuel (s : lctx) x seen :
  lk_ok s → is_Some (lc_locks s !! x) → all_but s x → pending s x seen →
  NoDup seen → (∀ w, w ∈ seen → is_Some (lc_locks s !! w)) → (size (lc_locks s) < fuel + length seen)%nat →
  ∃ s', restore_loop fuel (Some x) s = Done true s' ∧ lk_ok s' ∧ same_waits s s' ∧
    ∀ w, is_Some (lc_locks s' !! w) → steady s' w.
Proof.
  revert s x seen. induction fuel as [|fuel IH]; intros s x seen Hok Hx Hall Hpend Hnd Hdom Hsize.
  { pose proof (seen_bound s seen Hnd Hdom). lia. }
  cbn [restore_loop]. pose proof Hok as (Hwf & _).
  destruct (restore_turn_run s x Hok Hx) as (q & Hq & [(Eq & E)|(Hne & s1 & E & Ht)]); rewrite E, bind_Done_true.
  - exists s. split; [by destruct fuel|]. split; [done|]. split; [done|]. intros w Hw.
    destruct (decide (w = x)) as [->|]; [|by apply Hall]. unfold steady. by rewrite <- Eq.
  - pose proof (turned_self s s1 x q Hwf Ht Hq) as Hself. pose proof Ht as (Hok1 & Hsw & _).
    destruct (owner_of s x) as [o|] eqn:Eo.
    + assert (o ≠ x) as Hox by (intros ->; by apply (owner_irrefl s x)).
      destruct (owner_of_inv s x o Hwf Eo) as (_ & ko & _ & _ & _ & _ & _ & _ & Hko & _).
      destruct (pending_next s s1 x o q seen) as [Hxs Hpend']; try done; [apply Hall; [by eexists|done]|].
      destruct (IH s1 o (x :: seen)) as (s' & E' & Hok' & Hsw' & Hst'); try done.
      * apply (sw_dom _ _ _ Hsw). by eexists.
      * intros w Hw Hwo. destruct (decide (w = x)) as [->|]; [done|].
        apply (turned_steady s s1 x q); [done|congruence|done|]. apply Hall; [by apply (sw_dom _ _ _ Hsw)|done].
      * by constructor.
      * intros w [->|Hw]%elem_of_cons; apply (sw_dom _ _ _ Hsw); auto.
      * rewrite (same_waits_size s s1 Hsw). cbn. lia.
      * exists s'. split; [done|]. split; [done|]. split; [by etrans|done].
    + exists s1. split; [by destruct fuel|]. split; [done|]. split; [done|]. intros w Hw.
      destruct (decide (w = x)) as [->|]; [done|].
      apply (turned_steady s s1 x q); [done|congruence|done|]. apply Hall; [by apply (sw_dom _ _ _ Hsw)|done].
Qed.

Lemma RestorePriority_run (s : lctx) x :
  lk_ok s → is_Some (lc_locks s !! x) → all_but s x →
  ∃ s', RestorePriority x s = Done true s' ∧ lk_ok s' ∧ same_waits s s' ∧
    ∀ w, is_Some (lc_locks s' !! w) → steady s' w.
Proof.
  intros Hok [k Hk] Hall. pose proof Hok as (Hwf & _ & Hl). unfold RestorePriority, IsSchedulerLockedByCurrentThread.
  rewrite Hl. unfold ASSERT. pstep. apply (restore_loop_run _ s x []); [done|by eexists|done| |constructor| |].
  - destruct (new_priority_run s x k Hwf Hk) as (q & _ & Hq). destruct (decide (q ≤ prio s x)).
    + left. exists q. split; [by intros w []%not_elem_of_nil|]. by rewrite Z.min_r.
    + right. split; [by intros w []%not_elem_of_nil|]. intros q' Hq'. rewrite (inherited_unique s x q' q Hq' Hq). lia.
  - by intros w []%not_elem_of_nil.
  - cbn. lia.
Qed.
End Restore.
