(* ===== verification/LocksTransfer.v ===== *)
(** * RemoveWaiterByKey: a lock goes to its first waiter *)

From Stdlib Require Import Sorting.Sorted.
From S2P Require Import Prelude Common OrderedTree Thread PriorityQueue PriorityQueueTheorems PriorityQueueRefinement Scheduler SchedulerLemmas SchedulerSelect SchedulerOperations Locks LocksLemmas LocksOperations.

Section Transfer.
Context {C : Type} `{Clock C}.
Local Abbreviation lctx := (LockContext C).

(** The kernel waiters of a thread are counted anew. *)
Definition count_sched (x n : Z) (c : SchedulerContext C) : SchedulerContext C :=
  match ctx_threads c !! x with
  | Some t => set_threads (<[x := set_num_kernel_waiters n t]> (ctx_threads c)) c
  | None => c
  end.

Lemma count_lookup x n (c : SchedulerContext C) y :
  ctx_threads (count_sched x n c) !! y =
    if decide (y = x) then set_num_kernel_waiters n <$> ctx_threads c !! x else ctx_threads c !! y.
Proof.
  unfold count_sched. destruct (ctx_threads c !! x) as [t|] eqn:Et; cbn; case_decide as Hd; subst; try done.
  - by rewrite lookup_insert_eq.
  - by rewrite lookup_insert_ne.
Qed.

Lemma count_run (s : lctx) x t n : ctx_threads (lc_sched s) !! x = Some t →
  on_sched (change_thread x (set_num_kernel_waiters n)) s = Done true (set_sched (count_sched x n (lc_sched s)) s).
Proof. intros Ht. apply on_sched_run. rewrite (change_thread_run _ x t) by done. unfold count_sched. by rewrite Ht. Qed.

Lemma count_inv (c : SchedulerContext C) x n : sched_inv c → sched_inv (count_sched x n c).
Proof.
  unfold count_sched. destruct (ctx_threads c !! x) as [t|] eqn:Et; [|done]. intros ([L HS] & Hpin).
  set (t' := set_num_kernel_waiters n t). split.
  - exists L. destruct (KThread_IsDummyThread t) eqn:Hd.
    { eapply (sched_rep_dummy c _ L x t t'); try done. cbn. intros y ?. by right. }
    destruct (sr_thread _ _ HS x t Et Hd) as (_ & Hok & Hin). apply (sched_rep_change c _ L L x t t'); try done.
    apply (sr_rep _ _ HS).
  - by apply (pins_change c _ x t t').
Qed.

Lemma waiters_inv d x kern (c : SchedulerContext C) : sched_inv c → sched_inv (waiters_sched d x kern c).
Proof.
  intros HI. unfold waiters_sched. destruct kern; [|done]. destruct (ctx_threads c !! x) as [t|] eqn:Et; [|done].
  apply flag_inv. pose proof (count_inv c x (m_num_kernel_waiters t + d) HI) as Hc. unfold count_sched in Hc.
  by rewrite Et in Hc.
Qed.

Lemma s32_id z : -2 ^ 31 ≤ z < 2 ^ 31 → s32 z = z.
Proof. unfold s32. intros. rewrite Z.mod_small; lia. Qed.

(** The new owner takes over the lock info and its waiters. *)
Lemma take_over_run (s : lctx) n l k i tn :
  ctx_locked (lc_sched s) = true → lc_locks s !! n = Some k → lc_infos s !! l = Some i →
  ctx_threads (lc_sched s) !! n = Some tn → 0 ≤ m_num_kernel_waiters tn → 0 < li_waiter_count i →
  m_num_kernel_waiters tn + li_waiter_count i < 2 ^ 31 →
  (s ← AddHeldLock n l s;
   i ← get_info s l;
   if li_is_kernel_address_key i then
     t ← get_thread (lc_sched s) n;
     s ← on_sched (change_thread n (set_num_kernel_waiters (s32 (m_num_kernel_waiters t + li_waiter_count i)))) s;
     _ ← ASSERT (0 <? s32 (m_num_kernel_waiters t + li_waiter_count i));
     mret s
   else mret s) =
  Done true (MkLockContext
    (if li_is_kernel_address_key i then count_sched n (m_num_kernel_waiters tn + li_waiter_count i) (lc_sched s)
     else lc_sched s) (<[n := set_held (l :: m_held_lock_info_list k) k]> (lc_locks s))
    (<[l := Info_SetOwner n i]> (lc_infos s)) (lc_slab s) (lc_cv_trees s)).
Proof.
  intros Hl Hk Hi Htn H1 H2 H3. unfold AddHeldLock, IsSchedulerLockedByCurrentThread. rewrite Hl.
  change (ASSERT true) with (Done true tt). pstep. rewrite (change_info_run _ l i) by done. pstep.
  rewrite (change_locks_run _ n k) by done. pstep. rewrite (get_info_run _ l (Info_SetOwner n i)) by apply lookup_insert_eq. pstep.
  cbn [Info_SetOwner li_is_kernel_address_key li_waiter_count]. destruct (li_is_kernel_address_key i) eqn:Ek; [|done].
  rewrite (get_thread_run _ _ tn) by done. pstep. rewrite s32_id by lia. rewrite (count_run _ n tn) by done. pstep.
  unfold ASSERT. rewrite (proj2 (Z.ltb_lt _ _)) by lia. by pstep.
Qed.

Section Pass.
Context (s : lctx) (x n l : Z) (kx kn : ThreadLocks) (tx tn : KThread) (i : LockInfo) (r h1 h2 : list Z).
Hypotheses (Hwf : lk_wf s) (Hlock : ctx_locked (lc_sched s) = true).
Hypotheses (Hkx : lc_locks s !! x = Some kx) (Hkn : lc_locks s !! n = Some kn).
Hypotheses (Htx : ctx_threads (lc_sched s) !! x = Some tx) (Htn : ctx_threads (lc_sched s) !! n = Some tn).
Hypotheses (Hi : lc_infos s !! l = Some i) (Htree : li_tree i = n :: r).
Hypotheses (Hheld : m_held_lock_info_list kx = h1 ++ l :: h2).
Let kern : bool := li_is_kernel_address_key i.
Local Abbreviation len := (Z.of_nat (length r)).

Definition pass_sched : SchedulerContext C :=
  if li_is_kernel_address_key i then
    let c := SetSchedulerUpdateNeeded (count_sched x (m_num_kernel_waiters tx - (len + 1)) (lc_sched s)) in
    match r with [] => c | _ => count_sched n (m_num_kernel_waiters tn + len) c end
  else lc_sched s.
Definition pass_info : LockInfo := MkInfo r (li_address_key i) (Some n) len (li_is_kernel_address_key i).
Definition pass_held : list Z := match r with [] => m_held_lock_info_list kn | _ => l :: m_held_lock_info_list kn end.
Definition pass_locks : gmap Z ThreadLocks :=
  <[n := set_held pass_held (SetWaitingLockInfo None kn)]> (<[x := set_held (h1 ++ h2) kx]> (lc_locks s)).
Definition pass_infos : gmap Z LockInfo :=
  match r with [] => delete l (lc_infos s) | _ => <[l := pass_info]> (lc_infos s) end.
Definition pass_slab : list Z := match r with [] => l :: lc_slab s | _ => lc_slab s end.
Definition pass_state : lctx := MkLockContext pass_sched pass_locks pass_infos pass_slab (lc_cv_trees s).

Lemma pass_facts :
  info_ok s l i ∧ held_ok s x kx ∧ held_ok s n kn ∧ li_owner i = Some x ∧ x ≠ n ∧ (x ∉ r) ∧ (n ∉ r) ∧ NoDup r ∧
  (l ∉ h1) ∧ (l ∉ h2) ∧ NoDup (h1 ++ h2) ∧ m_waiting_lock_info kn = Some l ∧ li_waiter_count i = len + 1 ∧
  (l ∉ m_held_lock_info_list kn).
Proof.
  pose proof (wf_info _ Hwf l i Hi) as Hio. pose proof (wf_held _ Hwf x kx Hkx) as Hx. pose proof (wf_held _ Hwf n kn Hkn) as Hn.
  destruct (ho_info _ _ _ Hx l) as (j & Hj & Ho); [rewrite Hheld; apply elem_of_app; right; left|].
  assert (j = i) as -> by congruence.
  destruct (io_owner _ _ _ Hio) as (x' & _ & Hx' & _ & _ & Hnx). assert (x' = x) as -> by congruence.
  rewrite Htree, not_elem_of_cons in Hnx. destruct Hnx as [Hne Hxr].
  pose proof (io_NoDup _ _ _ Hio) as Hnd. rewrite Htree in Hnd. apply NoDup_cons in Hnd as [Hnr Hnd].
  pose proof (ho_NoDup _ _ _ Hx) as Hnh. rewrite Hheld in Hnh. destruct (NoDup_middle _ _ _ Hnh) as (Hl1 & Hl2 & Hh).
  destruct (io_waits _ _ _ Hio n) as (k & Hk & Hkl & _); [rewrite Htree; left|]. assert (k = kn) as -> by congruence.
  pose proof (io_count _ _ _ Hio) as Hc. rewrite Htree in Hc. cbn [length] in Hc.
  assert (l ∉ m_held_lock_info_list kn) as Hln.
  { intros Hin. destruct (ho_info _ _ _ Hn l Hin) as (j & ? & ?). congruence. }
  split_and!; try done. lia.
Qed.

(** The counts stay in their range. *)
Lemma pass_counts :
  (kern = true → len + 1 ≤ m_num_kernel_waiters tx) ∧ 0 ≤ m_num_kernel_waiters tn ∧
  m_num_kernel_waiters tx < 2 ^ 31 ∧ m_num_kernel_waiters tn + len + 1 < 2 ^ 31 ∧ 0 ≤ len.
Proof.
  destruct pass_facts as (Hio & Hx & Hn & Ho & Hne & _ & _ & _ & _ & _ & _ & Hw & _ & Hln).
  rewrite (ho_count _ _ _ Hx tx Htx), (ho_count _ _ _ Hn tn Htn). pose proof (wf_size _ Hwf) as Hs.
  assert (sum_list_with (weight (lc_infos s)) (m_held_lock_info_list kx) + length ([] : list Z) ≤ size (lc_locks s))%nat as Hb.
  { apply waiters_bound; [apply (wf_info _ Hwf)|apply (ho_NoDup _ _ _ Hx)|constructor|by intros y []%not_elem_of_nil]. }
  assert (sum_list_with (weight (lc_infos s)) (m_held_lock_info_list kn) + length (n :: r) ≤ size (lc_locks s))%nat as Hb2.
  { rewrite <- Htree. apply waiters_bound; [apply (wf_info _ Hwf)|apply (ho_NoDup _ _ _ Hn)|apply (io_NoDup _ _ _ Hio)|].
    intros y Hy. destruct (io_waits _ _ _ Hio y Hy) as (k & Hk & Hkl & _). exists k. split; [done|]. intros l' Hl'. congruence. }
  cbn [length] in Hb. cbn [length] in Hb2. split_and!; [|lia..].
  intros Hk. rewrite Hheld, sum_list_with_app. cbn. unfold weight at 2. rewrite Hi. fold kern. rewrite Hk, Htree. cbn. lia.
Qed.

Lemma pass_lookup y : ctx_threads pass_sched !! y =
  (λ t, set_num_kernel_waiters (m_num_kernel_waiters t +
     if kern then if decide (y = x) then - (len + 1) else if decide (y = n) then len else 0 else 0) t)
    <$> ctx_threads (lc_sched s) !! y.
Proof.
  destruct pass_facts as (_ & _ & _ & _ & Hne & _).
  assert (∀ t, set_num_kernel_waiters (m_num_kernel_waiters t + 0) t = t) as Hid
    by (intros t; rewrite Z.add_0_r; by destruct t).
  assert (∀ o : option KThread, (λ t, set_num_kernel_waiters (m_num_kernel_waiters t + 0) t) <$> o = o) as Hido
    by (intros [t|]; cbn; [by rewrite Hid|done]).
  unfold pass_sched, kern. destruct (li_is_kernel_address_key i); [|by rewrite Hido].
  assert (ctx_threads (match r with [] => SetSchedulerUpdateNeeded (count_sched x (m_num_kernel_waiters tx - (len + 1)) (lc_sched s))
    | _ => count_sched n (m_num_kernel_waiters tn + len) (SetSchedulerUpdateNeeded (count_sched x (m_num_kernel_waiters tx - (len + 1)) (lc_sched s))) end) !! y =
    if decide (y = x) then Some (set_num_kernel_waiters (m_num_kernel_waiters tx - (len + 1)) tx)
    else if decide (y = n) then Some (set_num_kernel_waiters (m_num_kernel_waiters tn + len) tn) else ctx_threads (lc_sched s) !! y) as E.
  { destruct r as [|z r']; [|rewrite count_lookup]; cbn [SetSchedulerUpdateNeeded set_update_needed ctx_threads]; rewrite !count_lookup, Htx.
    - cbn. rewrite Hid. repeat case_decide; try done. by subst.
    - rewrite (decide_False (P := n = x)), Htn by done. repeat case_decide; subst; done. }
  transitivity (if decide (y = x) then Some (set_num_kernel_waiters (m_num_kernel_waiters tx - (len + 1)) tx)
    else if decide (y = n) then Some (set_num_kernel_waiters (m_num_kernel_waiters tn + len) tn) else ctx_threads (lc_sched s) !! y);
    [destruct r; exact E|]. repeat case_decide; subst.
  - by rewrite Htx.
  - by rewrite Htn.
  - by rewrite Hido.
Qed.

Lemma pass_frame : frame s pass_state.
Proof.
  destruct pass_facts as (_ & _ & _ & _ & Hne & _).
  assert (ctx_current pass_sched = ctx_current (lc_sched s)) as Hcur.
  { assert (∀ z m (c : SchedulerContext C), ctx_current (count_sched z m c) = ctx_current c) as Hcl
      by (intros; unfold count_sched; by destruct (ctx_threads c !! z)).
    unfold pass_sched. destruct (li_is_kernel_address_key i); [|done]. destruct r; rewrite ?Hcl; cbn; by rewrite Hcl. }
  constructor; [| |done|exact Hcur]; intros y; cbn [pass_state lc_locks lc_sched].
  - unfold pass_locks. rewrite (insert_core _ n kn); [by apply (insert_core _ x kx)|by rewrite lookup_insert_ne|done].
  - rewrite pass_lookup. by destruct (ctx_threads (lc_sched s) !! y).
Qed.

Lemma pass_infos_other l' : l' ≠ l → pass_infos !! l' = lc_infos s !! l'.
Proof. intros Hl. unfold pass_infos. destruct r; [by rewrite lookup_delete_ne|by rewrite lookup_insert_ne]. Qed.

Lemma pass_infos_same : pass_infos !! l = if decide (r = []) then None else Some pass_info.
Proof. unfold pass_infos, pass_info. destruct r; [apply lookup_delete_eq|apply lookup_insert_eq]. Qed.

Lemma pass_locks_spec y k' : pass_locks !! y = Some k' →
  ∃ k, lc_locks s !! y = Some k ∧
    m_held_lock_info_list k' = (if decide (y = n) then pass_held else if decide (y = x) then h1 ++ h2 else m_held_lock_info_list k) ∧
    m_waiting_lock_info k' = (if decide (y = n) then None else m_waiting_lock_info k).
Proof.
  unfold pass_locks. destruct (decide (y = n)) as [->|Hyn].
  - rewrite lookup_insert_eq. intros [= <-]. by exists kn.
  - rewrite lookup_insert_ne by done. destruct (decide (y = x)) as [->|Hyx].
    + rewrite lookup_insert_eq. intros [= <-]. by exists kx.
    + rewrite lookup_insert_ne by done. intros Hk. by exists k'.
Qed.

Lemma pass_locks_spec' y k : lc_locks s !! y = Some k → ∃ k', pass_locks !! y = Some k' ∧ core_locks k' = core_locks k.
Proof. intros Hk. by apply (frame_locks' s pass_state y k pass_frame). Qed.

(** A thread that waited keeps its lock, [n] waits for nothing. *)
Lemma pass_waits y k l' : lc_locks s !! y = Some k → m_waiting_lock_info k = Some l' → y ≠ n →
  ∃ k', pass_locks !! y = Some k' ∧ m_waiting_lock_info k' = Some l' ∧ core_locks k' = core_locks k.
Proof.
  intros Hk Hl' Hy. destruct (pass_locks_spec' y k Hk) as (k' & Hk' & Ec). exists k'.
  destruct (pass_locks_spec y k' Hk') as (k0 & Hk0 & _ & Hw). rewrite decide_False in Hw by done.
  split_and!; [done|congruence|done].
Qed.

Lemma pass_info_ok l' j : pass_infos !! l' = Some j → info_ok pass_state l' j.
Proof.
  destruct pass_facts as (Hio & _ & _ & Ho & Hne & Hxr & Hnr & Hnd & _ & _ & _ & Hw & _ & Hln). pose proof pass_frame as Hf.
  assert (∀ j y, y ≠ n → (∃ k, lc_locks s !! y = Some k ∧ m_waiting_lock_info k = Some l' ∧
    m_address_key k = li_address_key j ∧ m_is_kernel_address_key k = li_is_kernel_address_key j ∧ m_condvar_tree k = None) →
    ∃ k, lc_locks pass_state !! y = Some k ∧ m_waiting_lock_info k = Some l' ∧
    m_address_key k = li_address_key j ∧ m_is_kernel_address_key k = li_is_kernel_address_key j ∧ m_condvar_tree k = None) as Hwt.
  { intros j' y Hy (k & Hk & Hkl & K1 & K2 & K3). destruct (pass_waits y k l' Hk Hkl Hy) as (k' & Hk' & Hkl' & [= _ E1 E2 E3 _ _ _]).
    exists k'. cbn [pass_state lc_locks]. split_and!; congruence. }
  destruct (decide (l' = l)) as [->|Hl].
  - rewrite pass_infos_same. case_decide as Hr; [done|]. intros [= <-]. destruct Hio as [_ _ _ Hsort _ Hwait]. rewrite Htree in Hsort.
    constructor; cbn [pass_info li_tree li_owner li_waiter_count li_address_key li_is_kernel_address_key]; try done.
    + exists n, (set_held pass_held (SetWaitingLockInfo None kn)). split_and!; [done|apply lookup_insert_eq| |done].
      cbn. unfold pass_held. destruct r; [done|left].
    + apply (frame_sorted s); [done|]. by apply (sorted_by_remove _ [] n).
    + intros y Hy. apply (Hwt i); [by intros ->|]. apply Hwait. rewrite Htree. by right.
  - rewrite pass_infos_other by done. intros Hj. destruct (wf_info _ Hwf l' j Hj) as [Hown Hs Hnd' Hsort Hcnt Hwait].
    constructor; try done.
    + destruct Hown as (x' & k' & Hx' & Hk' & Hin & Hnx). destruct (pass_locks_spec' x' k' Hk') as (k2 & Hk2 & _).
      exists x', k2. destruct (pass_locks_spec x' k2 Hk2) as (k3 & Hk3 & Hheld2 & _). assert (k3 = k') as -> by congruence.
      split_and!; [done|done| |done]. rewrite Hheld2. clear Hheld2. repeat case_decide; subst; try done.
      * assert (k' = kn) as -> by congruence. unfold pass_held. destruct r; [done|by right].
      * assert (k' = kx) as -> by congruence. rewrite Hheld in Hin. rewrite elem_of_app, elem_of_cons in Hin. rewrite elem_of_app. naive_solver.
    + by apply (frame_sorted s).
    + intros y Hy. apply Hwt; [|by apply Hwait]. intros ->. destruct (Hwait n Hy) as (k & ? & ? & _). congruence.
Qed.

Lemma pass_weight l' : l' ≠ l → weight pass_infos l' = weight (lc_infos s) l'.
Proof. intros Hl. unfold weight. by rewrite pass_infos_other. Qed.

Lemma pass_sum a : l ∉ a → sum_list_with (weight pass_infos) a = sum_list_with (weight (lc_infos s)) a.
Proof. intros Ha. apply sum_list_with_same. intros z Hz. apply pass_weight. by intros ->. Qed.

Lemma pass_held_sum : sum_list_with (weight pass_infos) pass_held =
  (sum_list_with (weight (lc_infos s)) (m_held_lock_info_list kn) + if kern then length r else 0)%nat.
Proof.
  destruct pass_facts as (_ & _ & _ & _ & _ & _ & _ & _ & _ & _ & _ & _ & _ & Hln).
  assert (pass_held = if decide (r = []) then m_held_lock_info_list kn else l :: m_held_lock_info_list kn) as ->
    by (unfold pass_held; by destruct r).
  destruct (decide (r = [])) as [Er|Er]; cbn; rewrite pass_sum by done.
  - rewrite Er. cbn. destruct kern; lia.
  - unfold weight at 1. rewrite pass_infos_same, decide_False by done. cbn. fold kern. lia.
Qed.

Lemma pass_held_ok y k' : pass_locks !! y = Some k' → held_ok pass_state y k'.
Proof.
  destruct pass_facts as (Hio & Hx & Hn & Ho & Hne & Hxr & Hnr & Hnd & Hl1 & Hl2 & Hh & Hw & Hcnt & Hln).
  intros Hk'. destruct (pass_locks_spec y k' Hk') as (k & Hk & Hheld' & Hwt).
  pose proof (wf_held _ Hwf y k Hk) as [G1 G2 G4 G5].
  assert (∀ l', l' ∈ m_held_lock_info_list k' → l' = l ∧ y = n ∧ r ≠ [] ∨ l' ≠ l ∧ l' ∈ m_held_lock_info_list k) as Hsub.
  { intros l'. rewrite Hheld'. clear Hheld' Hwt. repeat case_decide; subst.
    - assert (k = kn) as -> by congruence. unfold pass_held. destruct r.
      + intros Hin. right. split; [by intros ->|done].
      + intros [->|Hin]%elem_of_cons; [by left|right]. split; [by intros ->|done].
    - assert (k = kx) as -> by congruence. rewrite Hheld, !elem_of_app, elem_of_cons. intros Hin. right.
      split; [intros ->; tauto|tauto].
    - intros Hin. right. split; [|done]. intros ->. destruct (G2 l Hin) as (j & Hj & Hjo). congruence. }
  constructor; cbn [pass_state lc_infos].
  - rewrite Hheld'. clear Hheld' Hwt. repeat case_decide; try done. unfold pass_held. destruct r; [apply Hn|].
    constructor; [done|apply Hn].
  - intros l' [(-> & -> & Hr)|(Hl' & Hin)]%Hsub.
    + exists pass_info. by rewrite pass_infos_same, decide_False.
    + rewrite pass_infos_other by done. by apply G2.
  - intros ty Hty. cbn [pass_state lc_sched] in Hty. rewrite pass_lookup in Hty.
    destruct (ctx_threads (lc_sched s) !! y) as [ty0|] eqn:Ety; [|done]. cbn in Hty. injection Hty as <-.
    cbn [set_num_kernel_waiters m_num_kernel_waiters]. rewrite (G4 ty0 eq_refl), Hheld'. clear Hheld' Hwt.
    destruct (decide (y = x)) as [->|Hyx]; [|destruct (decide (y = n)) as [->|Hyn]].
    + rewrite (decide_False (P := x = n)) by done. assert (k = kx) as -> by congruence.
      rewrite Hheld, pass_sum by (rewrite not_elem_of_app; tauto). rewrite !sum_list_with_app. cbn. unfold weight at 2. rewrite Hi, Htree.
      fold kern. destruct kern; cbn; lia.
    + assert (k = kn) as -> by congruence. rewrite pass_held_sum. destruct kern; lia.
    + rewrite pass_sum; [destruct kern; lia|]. intros Hin. destruct (G2 l Hin) as (j & Hj & Hjo). congruence.
  - intros l' Hl'. rewrite Hwt in Hl'. clear Hwt Hheld'. case_decide as Hyn; [done|]. destruct (G5 l' Hl') as (j & Hj & Hyj).
    destruct (decide (l' = l)) as [->|Hl]; [|exists j; by rewrite pass_infos_other].
    assert (j = i) as -> by congruence. rewrite Htree, elem_of_cons in Hyj. destruct Hyj as [?|Hyj]; [done|].
    exists pass_info. rewrite pass_infos_same, decide_False; [done|]. intros Er. rewrite Er in Hyj. by apply not_elem_of_nil in Hyj.
Qed.

Lemma pass_slab_ok : NoDup pass_slab ∧ ∀ l', l' ∈ pass_slab → pass_infos !! l' = None.
Proof.
  destruct (wf_slab _ Hwf) as [Hs1 Hs2]. assert (l ∉ lc_slab s) as Hl by (intros Hin; specialize (Hs2 l Hin); congruence).
  unfold pass_slab, pass_infos. destruct r.
  - split; [by constructor|]. intros l' [->|Hl']%elem_of_cons; [apply lookup_delete_eq|]. rewrite lookup_delete_ne by (by intros ->). auto.
  - split; [done|]. intros l' Hl'. rewrite lookup_insert_ne by (by intros ->). auto.
Qed.

Lemma pass_room : (size (lc_infos s) + length (lc_slab s) = size pass_infos + length pass_slab)%nat.
Proof.
  unfold pass_infos, pass_slab. destruct r; [|by rewrite map_size_insert_Some by (by eexists)].
  rewrite map_size_delete_Some by (by eexists). assert (size (lc_infos s) ≠ 0%nat); [|cbn; lia].
  intros E%map_size_empty_inv. rewrite E in Hi. done.
Qed.

Lemma pass_wf : lk_wf pass_state.
Proof.
  apply (wf_frame s); [done|apply pass_frame|apply pass_info_ok|apply pass_held_ok|apply pass_slab_ok|apply pass_room].
Qed.

Lemma pass_owner y : owner_of pass_state y =
  if decide (y = n) then None else if decide (y ∈ r) then Some n else owner_of s y.
Proof.
  destruct pass_facts as (Hio & _). unfold owner_of. cbn [pass_state lc_locks lc_infos].
  destruct (pass_locks !! y) as [k'|] eqn:Ek'.
  - destruct (pass_locks_spec y k' Ek') as (k & Hk & _ & ->). rewrite Hk. destruct (decide (y = n)) as [|Hyn]; [done|].
    destruct (decide (y ∈ r)) as [Hr|Hr].
    + destruct (io_waits _ _ _ Hio y) as (k0 & Hk0 & Hkl & _); [rewrite Htree; by right|]. assert (k0 = k) as -> by congruence.
      rewrite Hkl, pass_infos_same, decide_False; [done|]. intros Er. rewrite Er in Hr. by apply not_elem_of_nil in Hr.
    + destruct (m_waiting_lock_info k) as [l'|] eqn:El'; [|done]. rewrite pass_infos_other; [done|]. intros ->.
      destruct (ho_wait _ _ _ (wf_held _ Hwf y k Hk) l El') as (j & Hj & Hyj). assert (j = i) as -> by congruence.
      rewrite Htree, elem_of_cons in Hyj. tauto.
  - assert (lc_locks s !! y = None) as Ek.
    { destruct (lc_locks s !! y) as [k|] eqn:Ek; [|done]. destruct (pass_locks_spec' y k Ek) as (k' & ? & _). congruence. }
    rewrite Ek. destruct (decide (y = n)); [done|]. rewrite decide_False; [done|]. intros Hr.
    destruct (io_waits _ _ _ Hio y) as (k0 & Hk0 & _); [rewrite Htree; by right|]. congruence.
Qed.

Lemma RemoveWaiterByKey_eq key b :
  find_held s key b (m_held_lock_info_list kx) = Done true (Some l) →
  RemoveWaiterByKey x key b s =
    (b ← may_restore x n pass_state;
     s ← (if b : bool then RestorePriority x pass_state else mret pass_state);
     mret (Some n, negb (bool_decide (r = [])), s)).
Proof.
  destruct pass_facts as (Hio & Hx & Hn & Ho & Hne & Hxr & Hnr & Hnd & Hl1 & Hl2 & Hh & Hw & Hcnt & Hln).
  destruct pass_counts as (C1 & C2 & C3 & C4 & C5). intros Hfind.
  unfold RemoveWaiterByKey, FindHeldLock, IsSchedulerLockedByCurrentThread. rewrite Hlock. change (ASSERT true) with (Done true tt). pstep.
  rewrite (get_locks_run _ _ kx), bind_Done_true by done. rewrite Hfind. pstep.
  unfold drop_held. rewrite (get_locks_run _ _ kx), bind_Done_true by done. rewrite Hheld, erase_from_run, bind_Done_true by done.
  rewrite (change_locks_run _ _ kx) by done. pstep. set (s1 := set_locks _ s).
  rewrite (get_info_run s1 l i), bind_Done_true by done.
  set (c2 := if kern then SetSchedulerUpdateNeeded (count_sched x (m_num_kernel_waiters tx - (len + 1)) (lc_sched s)) else lc_sched s).
  assert ((if li_is_kernel_address_key i then
             t ← get_thread (lc_sched s1) x;
             s ← on_sched (change_thread x (set_num_kernel_waiters (s32 (m_num_kernel_waiters t - li_waiter_count i)))) s1;
             _ ← ASSERT (0 <=? s32 (m_num_kernel_waiters t - li_waiter_count i));
             mret (need_update s)
           else mret s1) = Done true (set_sched c2 s1)) as ->.
  { unfold c2. fold kern. destruct kern eqn:Ek; [|by destruct s]. rewrite (get_thread_run _ _ tx) by done. pstep.
    specialize (C1 eq_refl). rewrite Hcnt, s32_id by lia. erewrite count_run by done. pstep.
    unfold ASSERT. rewrite (proj2 (Z.leb_le _ _)) by lia. by pstep. }
  pstep. rewrite Hcnt, (proj2 (Z.ltb_lt 0 (len + 1))) by lia. change (ASSERT true) with (Done true tt). pstep.
  unfold Info_GetHighestPriorityWaiter. rewrite (get_info_run _ l i), bind_Done_true by done. rewrite Htree. cbn [head deref]. pstep.
  unfold Info_RemoveWaiter. rewrite (get_info_run _ l i), bind_Done_true by done. rewrite Htree, Hcnt.
  rewrite (erase_from_run [] n r (not_elem_of_nil n) : erase_from (n :: r) n = Done true r). pstep.
  replace (len + 1 - 1) with len by lia. rewrite u32_id by (unfold is_u32; lia).
  rewrite (change_info_run _ l i), bind_Done_true by done.
  rewrite (change_locks_run _ n kn) by (cbn; by rewrite lookup_insert_ne). pstep.
  set (s3 := set_locks _ _).
  assert ((if len =? 0 then mret (Slab_Free l s3)
           else
             s ← AddHeldLock n l s3;
             i ← get_info s l;
             if li_is_kernel_address_key i then
               t ← get_thread (lc_sched s) n;
               s ← on_sched (change_thread n (set_num_kernel_waiters (s32 (m_num_kernel_waiters t + li_waiter_count i)))) s;
               _ ← ASSERT (0 <? s32 (m_num_kernel_waiters t + li_waiter_count i));
               mret s
             else mret s) = Done true pass_state) as ->.
  { assert (ctx_threads c2 !! n = Some tn ∧ ctx_locked c2 = true) as [Hn2 Hlock2].
    { subst c2. destruct kern; [|done]. split; [|unfold count_sched; by rewrite Htx].
      cbn [SetSchedulerUpdateNeeded set_update_needed ctx_threads]. by rewrite count_lookup, decide_False. }
    destruct (len =? 0) eqn:El; bool_prop.
    - unfold pass_state, pass_sched, pass_locks, pass_infos, pass_slab, pass_held, pass_info. subst c2 s1 s3. fold kern.
      clear -El. destruct r as [|z r']; [|done]. unfold Slab_Free, set_infos, set_slab, set_locks, set_sched. cbn.
      by rewrite delete_insert_eq.
    - rewrite (take_over_run s3 n l (SetWaitingLockInfo None kn) (MkInfo r (li_address_key i) (li_owner i) len kern) tn);
        try done; [|apply lookup_insert_eq|apply lookup_insert_eq|cbn; lia|cbn; lia].
      unfold pass_state, pass_sched, pass_locks, pass_infos, pass_slab, pass_held, pass_info. subst c2 s1 s3. fold kern.
      clear -El. destruct r as [|z r']; [done|]. cbn. rewrite !insert_insert_eq. by destruct kern. }
  pstep. assert ((len =? 0) = bool_decide (r = [])) as -> by (by destruct r). done.
Qed.
End Pass.
End Transfer.
