(* ===== verification/LocksTheorems.v ===== *)
(** Lemmas about the remaining operations on locks, and about threads in the tree
    of a condition variable. *)

From Stdlib Require Import Sorting.Sorted.
From S2P Require Import Prelude Common OrderedTree Thread PriorityQueue PriorityQueueTheorems PriorityQueueRefinement Scheduler SchedulerLemmas SchedulerSelect SchedulerOperations Locks LocksLemmas LocksOperations LocksTransfer.

(** * What the locks promise

    Every operation on waiters and base priorities runs to its end and leaves
    every thread with the priority it should have. *)

Section Theorems.
Context {C : Type} `{Clock C}.
Local Abbreviation lctx := (LockContext C).

(** The state is consistent and every thread has the priority it should have. *)
Definition lk_inv (s : lctx) : Prop := lk_ok s ∧ ∀ w, is_Some (lc_locks s !! w) → steady s w.

Lemma waiters_ok (s s' : lctx) d x kern :
  lk_ok s → lk_wf s' → lc_sched s' = waiters_sched d x kern (lc_sched s) → lk_ok s'.
Proof.
  intros (_ & HI & Hl) Hwf' E. split; [done|]. rewrite E. split; [by apply waiters_inv|].
  unfold waiters_sched. destruct kern; [|done]. by destruct (ctx_threads (lc_sched s) !! x).
Qed.

(** A thread whose waiters did not change is steady as before. *)
Lemma steady_frame (s s' : lctx) w : frame s s' →
  (∀ y, owner_of s' y = Some w ↔ owner_of s y = Some w) → steady s w → steady s' w.
Proof.
  intros Hf Ho [A1 A2 A3]. unfold steady. rewrite (frame_prio s s' w Hf).
  destruct (frame_keys s s' w Hf) as [Eb _]. constructor.
  - by rewrite Eb.
  - intros y Hy%Ho. rewrite (frame_prio s s' y Hf). auto.
  - rewrite Eb. destruct A3 as [?|(y & Hy & Ey)]; [by left|right]. exists y.
    rewrite (frame_prio s s' y Hf), Ho. done.
Qed.

Lemma frame_bases (s s' : lctx) y : frame s s' → base s' y = base s y.
Proof. intros Hf. apply (frame_keys s s' y Hf). Qed.

(** What an operation does to who waits for whom. *)
Definition owners_become (s s' : lctx) (f : Z → option Z) : Prop :=
  (∀ y, owner_of s' y = f y) ∧ (∀ y, base s' y = base s y) ∧ unmoved s s'.

Lemma owners_frame (s s1 : lctx) f : frame s s1 → (∀ y, owner_of s1 y = f y) → owners_become s s1 f.
Proof.
  intros Hf Ho. split; [done|]. split; [intros y; by apply frame_bases|by apply frame_unmoved].
Qed.

Lemma owners_restored (s s1 s' : lctx) f : owners_become s s1 f → same_waits s1 s' → owners_become s s' f.
Proof.
  intros (H1 & H2 & H3) [W1 W2 W3]. split; [|split]; [intros y; by rewrite W1|intros y; by rewrite W2|by etrans].
Qed.

(** After a change of the waiters of [x] alone, [x] is steady or restored. *)
Lemma restore_if (s s1 : lctx) x (b : bool) f :
  lk_ok s1 → is_Some (lc_locks s1 !! x) → all_but s1 x → owners_become s s1 f → (b = false → steady s1 x) →
  ∃ s', (if b then RestorePriority x s1 else mret s1) = Done true s' ∧ lk_inv s' ∧ owners_become s s' f.
Proof.
  intros Hok Hx Hall Hf Hb. destruct b.
  - destruct (RestorePriority_run s1 x Hok Hx Hall) as (s' & E & Hok' & Hsw & Hst). exists s'.
    split; [done|]. split; [done|]. by apply (owners_restored s s1).
  - exists s1. split; [done|]. split; [|done]. split; [done|]. intros w Hw.
    destruct (decide (w = x)) as [->|]; [by apply Hb|by apply Hall].
Qed.

(** ** AddWaiter *)
Lemma AddWaiter_run (s : lctx) x t kt :
  lk_inv s → lc_locks s !! t = Some kt → m_waiting_lock_info kt = None → m_condvar_tree kt = None →
  x ≠ t → is_Some (lc_locks s !! x) →
  ∃ s', AddWaiter x t s = Done true s' ∧ lk_inv s' ∧
    owners_become s s' (λ y, if decide (y = t) then Some x else owner_of s y).
Proof.
  intros (Hok & Hst) Hkt Hw Hcv Hne Hx. pose proof Hok as (Hwf & _ & Hl).
  pose proof (can_add_free s x t kt Hwf Hkt Hw Hx) as Hcan.
  destruct (AddWaiterImpl_run s x t kt) as (s1 & E & Hwf1 & Hf & Ho & Ec); try done.
  assert (owner_of s t = None) as Hot by (unfold owner_of; by rewrite Hkt, Hw).
  pose proof (waiters_ok s s1 1 x _ Hok Hwf1 Ec) as Hok1.
  assert (∀ y, is_Some (lc_locks s1 !! y) ↔ is_Some (lc_locks s !! y)) as Hdom by (intros y; apply (frame_some s s1 y Hf)).
  assert (∀ y, is_Some (lc_locks s !! y) → GetPriority s1 y = Done true (prio s y)) as Hgp.
  { intros y Hy. rewrite GetPriority_run by (apply (wf_dom _ Hwf1), Hdom, Hy). by rewrite (frame_prio s s1 y Hf). }
  unfold AddWaiter. rewrite E. pstep. rewrite !Hgp by (done || by eexists). pstep.
  apply (restore_if s s1); [done|by apply Hdom| |by apply owners_frame|].
  - intros w Hw' Hwx. apply (steady_frame s s1 w Hf); [|by apply Hst, Hdom]. intros y. rewrite Ho. case_decide; [|done].
    subst y. rewrite Hot. naive_solver.
  - intros Hge. apply Z.ltb_ge in Hge. destruct (Hst x Hx) as [A1 A2 A3]. unfold steady. rewrite (frame_prio s s1 x Hf).
    constructor; rewrite ?(frame_bases s s1 x Hf); [done| |].
    + intros y. rewrite Ho, (frame_prio s s1 y Hf). case_decide; [by subst|apply A2].
    + destruct A3 as [?|(y & Hy & Ey)]; [by left|right]. exists y. rewrite Ho, (frame_prio s s1 y Hf).
      rewrite decide_False by congruence. done.
Qed.

(** ** RemoveWaiter *)
Lemma may_restore_run (s : lctx) x t kx :
  lk_wf s → lc_locks s !! x = Some kx → is_Some (lc_locks s !! t) →
  may_restore x t s = Done true ((prio s x =? prio s t) && (prio s x <? base s x)).
Proof.
  intros Hwf Hkx Ht. unfold may_restore. rewrite !GetPriority_run by (apply (wf_dom _ Hwf); (done || by eexists)). pstep.
  rewrite (get_locks_run _ x kx) by done. pstep. unfold base. by rewrite Hkx.
Qed.

(** Waiters go away, [t] the best of them: [x] may have inherited from [t] only. *)
Lemma lose_waiters (s s1 : lctx) x t :
  frame s s1 → steady s x → owner_of s t = Some x →
  (∀ y, owner_of s1 y = Some x → owner_of s y = Some x) →
  (∀ y, owner_of s y = Some x → owner_of s1 y = Some x ∨ prio s t ≤ prio s y) →
  (prio s1 x =? prio s1 t) && (prio s1 x <? base s1 x) = false → steady s1 x.
Proof.
  intros Hf [A1 A2 A3] Ht Hsub Hgone Hb. unfold steady.
  rewrite !(frame_prio s s1 _ Hf), (frame_bases s s1 x Hf) in *. pose proof (A2 t Ht) as Hxt.
  constructor; rewrite ?(frame_bases s s1 x Hf); [done| |].
  - intros y Hy. rewrite (frame_prio s s1 y Hf). auto.
  - destruct A3 as [?|(y & Hy & Ey)]; [by left|]. destruct (Hgone y Hy) as [Hy1|Hle].
    + right. exists y. by rewrite (frame_prio s s1 y Hf).
    + left. apply andb_false_iff in Hb as [?%Z.eqb_neq|?%Z.ltb_ge]; lia.
Qed.

Lemma RemoveWaiter_run (s : lctx) x t :
  lk_inv s → owner_of s t = Some x →
  ∃ s', RemoveWaiter x t s = Done true s' ∧ lk_inv s' ∧
    owners_become s s' (λ y, if decide (y = t) then None else owner_of s y).
Proof.
  intros (Hok & Hst) Hot. pose proof Hok as (Hwf & _ & Hl).
  destruct (RemoveWaiterImpl_run s x t Hwf Hl Hot) as (s1 & E & Hwf1 & Hf & Ho & Ec & Hcan & Hne).
  pose proof (waiters_ok s s1 (-1) x _ Hok Hwf1 Ec) as Hok1. destruct Hcan as (kt & kx & Hkt & Hkx & _).
  assert (∀ y, is_Some (lc_locks s1 !! y) ↔ is_Some (lc_locks s !! y)) as Hdom by (intros y; apply (frame_some s s1 y Hf)).
  unfold RemoveWaiter. rewrite E. pstep. rewrite (may_restore_run s1 x t kx) by (done || by eexists). pstep.
  apply (restore_if s s1); [done|by eexists| |by apply owners_frame|].
  - intros w Hw' Hwx. apply (steady_frame s s1 w Hf); [|by apply Hst, Hdom]. intros y. rewrite Ho. case_decide; [|done].
    subst y. rewrite Hot. naive_solver.
  - apply (lose_waiters s s1 x t); [done| |done| |].
    + apply Hst, Hdom. by eexists.
    + intros y. rewrite Ho. by case_decide.
    + intros y Hy. rewrite Ho. case_decide; [right; subst; lia|by left].
Qed.

(** ** RemoveWaiterByKey *)
Definition lock_of (s : lctx) (y : Z) : option Z := lc_locks s !! y ≫= m_waiting_lock_info.
Definition address_of (s : lctx) (y : Z) : option (Z * bool) :=
  (λ k, (m_address_key k, m_is_kernel_address_key k)) <$> lc_locks s !! y.

Lemma lock_of_tree (s : lctx) l i y : lk_wf s → lc_infos s !! l = Some i → lock_of s y = Some l ↔ y ∈ li_tree i.
Proof.
  intros Hwf Hi. unfold lock_of. split.
  - destruct (lc_locks s !! y) as [k|] eqn:Ek; [|done]. cbn. intros Hl.
    destruct (ho_wait _ _ _ (wf_held _ Hwf y k Ek) l Hl) as (j & ? & ?). congruence.
  - intros Hy. destruct (io_waits _ _ _ (wf_info _ Hwf l i Hi) y Hy) as (k & -> & ? & _). done.
Qed.

(** No thread waits for [x] at the address. *)
Definition no_waiter (s : lctx) (x key : Z) (b : bool) : Prop :=
  ∀ y, owner_of s y = Some x → address_of s y ≠ Some (key, b).

(** The lock [l] of [x] at the address goes to [n], the best of its waiters. *)
Record handed_over (s s' : lctx) (x key : Z) (b : bool) (l n : Z) (has_waiters : bool) : Prop := MkHanded {
  hd_next : owner_of s n = Some x ∧ lock_of s n = Some l ∧ address_of s n = Some (key, b);
  hd_best y : lock_of s y = Some l → prio s n ≤ prio s y;
  hd_more : has_waiters = true ↔ ∃ y, y ≠ n ∧ lock_of s y = Some l;
  hd_owners : owners_become s s' (λ y, if decide (y = n) then None
    else if decide (lock_of s y = Some l) then Some n else owner_of s y)
}.

Lemma lock_address (s : lctx) l i y : lk_wf s → lc_infos s !! l = Some i → y ∈ li_tree i →
  address_of s y = Some (li_address_key i, li_is_kernel_address_key i).
Proof.
  intros Hwf Hi Hy. destruct (io_waits _ _ _ (wf_info _ Hwf l i Hi) y Hy) as (k & Hk & _ & E1 & E2 & _).
  unfold address_of. rewrite Hk. cbn. by rewrite E1, E2.
Qed.

Section Hand.
Context (s : lctx) (x n l : Z) (kx kn : ThreadLocks) (tx tn : KThread) (i : LockInfo) (r h1 h2 : list Z).
Hypotheses (Hinv : lk_inv s) (Hkx : lc_locks s !! x = Some kx) (Hkn : lc_locks s !! n = Some kn).
Hypotheses (Htx : ctx_threads (lc_sched s) !! x = Some tx) (Htn : ctx_threads (lc_sched s) !! n = Some tn).
Hypotheses (Hi : lc_infos s !! l = Some i) (Htree : li_tree i = n :: r).
Hypotheses (Hheld : m_held_lock_info_list kx = h1 ++ l :: h2).
Local Abbreviation s1 := (pass_state s x n l kx kn tx tn i r h1 h2).

Lemma hand_facts :
  lk_wf s ∧ lk_ok s1 ∧ frame s s1 ∧
  (∀ y, owner_of s1 y = if decide (y = n) then None else if decide (y ∈ r) then Some n else owner_of s y) ∧
  (∀ y, y ∈ n :: r → owner_of s y = Some x ∧ prio s n ≤ prio s y) ∧ x ≠ n ∧ (n ∉ r).
Proof.
  destruct Hinv as ((Hwf & HI & Hl) & _).
  destruct (pass_facts s x n l kx kn i r h1 h2) as (Hio & _ & _ & Ho & Hne & _ & Hnr & _); try done.
  split; [done|]. split; [split; [by apply pass_wf|split]|].
  - cbn. unfold pass_sched. destruct (li_is_kernel_address_key i); [|done]. destruct r; repeat (apply count_inv || apply flag_inv); done.
  - cbn. unfold pass_sched. destruct (li_is_kernel_address_key i); [|done].
    assert (∀ z m (c : SchedulerContext C), ctx_locked (count_sched z m c) = ctx_locked c) as Hcl
      by (intros; unfold count_sched; by destruct (ctx_threads c !! z)).
    destruct r; rewrite ?Hcl; cbn; by rewrite Hcl.
  - split; [by apply pass_frame|]. split; [intros y; by apply pass_owner|]. split_and!; [|done|done].
    intros y Hy. rewrite <- Htree in Hy. split.
    + destruct (io_waits _ _ _ Hio y Hy) as (k & Hk & Hkl & _). unfold owner_of. by rewrite Hk, Hkl, Hi.
    + pose proof (io_sorted _ _ _ Hio) as Hs. rewrite Htree in Hs, Hy.
      destruct (sorted_by_head _ n r y Hs Hy) as [->|Hlt]; [lia|]. unfold prio_lt in Hlt. apply Z.ltb_ge in Hlt. lia.
Qed.

(** The new owner is not above the waiters it takes over. *)
Lemma hand_steady w : is_Some (lc_locks s !! w) → w ≠ x → steady s1 w.
Proof.
  destruct hand_facts as (Hwf & _ & Hf & Ho & Hr & Hne & Hnr). destruct Hinv as (_ & Hst). intros Hw Hwx.
  destruct (decide (w = n)) as [->|Hwn].
  - destruct (Hst n Hw) as [A1 A2 A3]. unfold steady. rewrite (frame_prio s s1 n Hf).
    constructor; rewrite ?(frame_bases s s1 n Hf); [done| |].
    + intros y. rewrite Ho, (frame_prio s s1 y Hf). repeat case_decide; [done| |apply A2].
      intros _. apply Hr. by right.
    + destruct A3 as [?|(y & Hy & Ey)]; [by left|right]. exists y. rewrite Ho, (frame_prio s s1 y Hf).
      rewrite decide_False by (intros ->; by apply (owner_irrefl s n)).
      rewrite decide_False; [done|]. intros Hin. destruct (Hr y) as [? _]; [by right|]. congruence.
  - apply (steady_frame s s1 w Hf); [|by apply Hst]. intros y. rewrite Ho. repeat case_decide; subst.
    + destruct (Hr n) as [-> _]; [left|]. naive_solver.
    + destruct (Hr y) as [-> _]; [by right|]. naive_solver.
    + done.
Qed.

Lemma hand_over_run : ∃ s',
  (b ← may_restore x n s1;
   s ← (if b : bool then RestorePriority x s1 else mret s1);
   mret (Some n, negb (bool_decide (r = [])), s)) = Done true (Some n, negb (bool_decide (r = [])), s') ∧
  lk_inv s' ∧ handed_over s s' x (li_address_key i) (li_is_kernel_address_key i) l n (negb (bool_decide (r = []))).
Proof.
  destruct hand_facts as (Hwf & Hok1 & Hf & Ho & Hr & Hne & Hnr). pose proof Hinv as (_ & Hst). pose proof Hok1 as (Hwf1 & _).
  assert (∀ y, is_Some (lc_locks s1 !! y) ↔ is_Some (lc_locks s !! y)) as Hdom by (intros y; apply (frame_some s s1 y Hf)).
  assert (∀ y, lock_of s y = Some l ↔ y ∈ n :: r) as Hlk by (intros y; rewrite (lock_of_tree s l i y Hwf Hi); by rewrite Htree).
  destruct (proj2 (Hdom x) ltac:(by eexists)) as [kx1 Hkx1].
  rewrite (may_restore_run s1 x n kx1) by (done || (apply Hdom; by eexists)). pstep.
  destruct (restore_if s s1 x ((prio s1 x =? prio s1 n) && (prio s1 x <? base s1 x))
    (λ y, if decide (y = n) then None else if decide (lock_of s y = Some l) then Some n else owner_of s y))
    as (s' & E & Hinv' & Hown); [done|by eexists| | | |].
  - intros w Hw Hwx. apply hand_steady; [by apply Hdom|done].
  - apply owners_frame; [done|]. intros y. rewrite Ho. case_decide as Hyn; [done|].
    assert (y ∈ r ↔ lock_of s y = Some l) as Hiff by (rewrite Hlk, elem_of_cons; naive_solver).
    repeat case_decide; naive_solver.
  - apply (lose_waiters s s1 x n); [done|apply Hst; by eexists|apply Hr; left| |].
    + intros y. rewrite Ho. repeat case_decide; [done| |done]. intros [= ->]. done.
    + intros y Hy. rewrite Ho. repeat case_decide; [right; subst; lia|right; apply Hr; by right|by left].
  - exists s'. rewrite E. pstep. split; [done|]. split; [done|]. constructor; [| | |done].
    + split; [apply Hr; left|]. split; [apply Hlk; left|]. apply (lock_address s l i n Hwf Hi). rewrite Htree. left.
    + intros y Hy%Hlk. by apply Hr.
    + rewrite negb_true_iff, bool_decide_eq_false. split.
      * intros Hne'. destruct r as [|z r'] eqn:Er; [done|]. exists z. split; [|apply Hlk; right; left].
        intros ->. apply Hnr. left.
      * intros (y & Hyn & Hy%Hlk) Er. rewrite Er in Hy. apply elem_of_cons in Hy as [?|[]%not_elem_of_nil]. done.
Qed.
End Hand.

Lemma RemoveWaiterByKey_run (s : lctx) x kx key b :
  lk_inv s → lc_locks s !! x = Some kx →
  RemoveWaiterByKey x key b s = Done true (None, false, s) ∧ no_waiter s x key b ∨
  ∃ n l has s', RemoveWaiterByKey x key b s = Done true (Some n, has, s') ∧ lk_inv s' ∧ handed_over s s' x key b l n has.
Proof.
  intros Hinv Hkx. pose proof Hinv as ((Hwf & _ & Hl) & _).
  destruct (find_held_run s key b (m_held_lock_info_list kx)) as (o & E & Ho).
  { intros l Hin. destruct (ho_info _ _ _ (wf_held _ Hwf x kx Hkx) l Hin) as (i & ? & _). by eexists. }
  destruct o as [l|].
  - right. destruct Ho as (Hin & i & Hi & K1 & K2). pose proof (wf_info _ Hwf l i Hi) as Hio.
    destruct (split_at l _ Hin (ho_NoDup _ _ _ (wf_held _ Hwf x kx Hkx))) as (h1 & h2 & Hheld & _).
    destruct (li_tree i) as [|n r] eqn:Htree; [by destruct (io_some _ _ _ Hio)|].
    destruct (io_waits _ _ _ Hio n) as (kn & Hkn & _); [rewrite Htree; left|].
    assert (∀ z, is_Some (lc_locks s !! z) → is_Some (ctx_threads (lc_sched s) !! z)) as Hth by (intros z; apply (wf_dom _ Hwf)).
    destruct (Hth x ltac:(by eexists)) as [tx Htx], (Hth n ltac:(by eexists)) as [tn Htn].
    destruct (hand_over_run s x n l kx kn tx tn i r h1 h2) as (s' & Er & Hinv' & Hh); try done.
    exists n, l, (negb (bool_decide (r = []))), s'. rewrite K1, K2 in Hh. split; [|done].
    rewrite <- Er. by apply RemoveWaiterByKey_eq.
  - left. split.
    + unfold RemoveWaiterByKey, FindHeldLock, IsSchedulerLockedByCurrentThread. rewrite Hl.
      change (ASSERT true) with (Done true tt). pstep. rewrite (get_locks_run _ _ kx) by done. pstep. rewrite E. by pstep.
    + intros y Hy Ha. apply (waiters_of s x kx y Hwf Hkx) in Hy as (l & i & Hin & Hi & Hy).
      rewrite (lock_address s l i y Hwf Hi Hy) in Ha. injection Ha as K1 K2. by apply (Ho l i Hin Hi).
Qed.

(** ** Base priorities and address keys *)
Section Fields.
Context (s : lctx) (x : Z) (k k' : ThreadLocks).
Hypotheses (Hwf : lk_wf s) (Hk : lc_locks s !! x = Some k).
Hypotheses (Hb : 0 ≤ m_base_priority k' ≤ NumPriority).
Hypotheses (Eh : m_held_lock_info_list k' = m_held_lock_info_list k) (Ew : m_waiting_lock_info k' = m_waiting_lock_info k).
Hypotheses (Et : m_condvar_tree k' = m_condvar_tree k) (Ec : m_condvar_key k' = m_condvar_key k).
Hypotheses (Ea : m_waiting_lock_info k ≠ None →
  m_address_key k' = m_address_key k ∧ m_is_kernel_address_key k' = m_is_kernel_address_key k).
Local Abbreviation s1 := (set_locks (<[x := k']> (lc_locks s)) s).

Lemma field_lookup y ky : lc_locks s1 !! y = Some ky →
  ∃ k0, lc_locks s !! y = Some k0 ∧ m_held_lock_info_list ky = m_held_lock_info_list k0 ∧
    m_waiting_lock_info ky = m_waiting_lock_info k0 ∧ m_condvar_tree ky = m_condvar_tree k0 ∧
    m_condvar_key ky = m_condvar_key k0 ∧ 0 ≤ m_base_priority ky ≤ NumPriority.
Proof.
  cbn. destruct (decide (y = x)) as [->|].
  - rewrite lookup_insert_eq. intros [= <-]. exists k. done.
  - rewrite lookup_insert_ne by done. intros Hy. exists ky. split_and!; try done; by apply (wf_base _ Hwf y).
Qed.

Lemma field_lookup' y k0 : lc_locks s !! y = Some k0 → ∃ ky, lc_locks s1 !! y = Some ky ∧
    m_held_lock_info_list ky = m_held_lock_info_list k0 ∧ m_waiting_lock_info ky = m_waiting_lock_info k0 ∧
    m_condvar_tree ky = m_condvar_tree k0 ∧ (m_waiting_lock_info k0 ≠ None →
      m_address_key ky = m_address_key k0 ∧ m_is_kernel_address_key ky = m_is_kernel_address_key k0).
Proof.
  cbn. intros Hy. destruct (decide (y = x)) as [->|].
  - rewrite lookup_insert_eq. assert (k0 = k) as -> by congruence. by exists k'.
  - rewrite lookup_insert_ne by done. by exists k0.
Qed.

Lemma field_owner y : owner_of s1 y = owner_of s y.
Proof.
  unfold owner_of. cbn. destruct (decide (y = x)) as [->|]; [|by rewrite lookup_insert_ne].
  rewrite lookup_insert_eq, Hk. by rewrite Ew.
Qed.

Lemma field_ckey y : ckey s1 y = ckey s y.
Proof.
  unfold ckey. cbn. destruct (decide (y = x)) as [->|]; [|by rewrite lookup_insert_ne].
  rewrite lookup_insert_eq, Hk. cbn. by rewrite Ec.
Qed.

Lemma field_base y : base s1 y = if decide (y = x) then m_base_priority k' else base s y.
Proof. unfold base. cbn. case_decide as Hd; [subst; by rewrite lookup_insert_eq|by rewrite lookup_insert_ne]. Qed.

Lemma field_dom y : is_Some (lc_locks s1 !! y) ↔ is_Some (lc_locks s !! y).
Proof.
  cbn. destruct (decide (y = x)) as [->|]; [|by rewrite lookup_insert_ne].
  rewrite lookup_insert_eq, Hk. by split; eexists.
Qed.

Lemma field_wf : lk_wf s1.
Proof.
  constructor.
  - intros y. rewrite field_dom. apply (wf_dom _ Hwf).
  - intros l i Hi. destruct (wf_info _ Hwf l i Hi) as [H1 H2 H3 H4 H5 H6]. constructor; try done.
    + destruct H1 as (z & kz & Hz & Hkz & Hin & Hn). destruct (field_lookup' z kz Hkz) as (ky & Hky & E & _).
      exists z, ky. rewrite E. done.
    + intros y Hy. destruct (H6 y Hy) as (k0 & Hk0 & Hl0 & K1 & K2 & K3).
      destruct (field_lookup' y k0 Hk0) as (ky & Hky & _ & E2 & E3 & E4). destruct E4 as [E4 E5]; [by rewrite Hl0|].
      exists ky. split_and!; congruence.
  - intros y ky Hky. destruct (field_lookup y ky Hky) as (k0 & Hk0 & E1 & E2 & _).
    destruct (wf_held _ Hwf y k0 Hk0) as [H1 H2 H3 H4]. constructor; rewrite ?E1, ?E2; done.
  - intros y ky Hky. destruct (field_lookup y ky Hky) as (k0 & _ & _ & _ & _ & _ & ?). done.
  - intros y ky c Hky Hc. destruct (field_lookup y ky Hky) as (k0 & Hk0 & _ & _ & E & _).
    apply (wf_cvin _ Hwf y k0 c Hk0). congruence.
  - apply (wf_slab _ Hwf).
  - intros c tree Hc. destruct (wf_cv _ Hwf c tree Hc) as [H1 H2 H3]. constructor; [done| |].
    + revert H2. apply sorted_by_ext. intros y z _ _. unfold cv_lt. by rewrite !field_ckey.
    + intros y Hy. destruct (H3 y Hy) as (k0 & Hk0 & Hc0). destruct (field_lookup' y k0 Hk0) as (ky & Hky & _ & _ & E & _).
      exists ky. split; congruence.
  - apply (wf_prio _ Hwf).
  - cbn. rewrite map_size_insert_Some by (by eexists). apply (wf_size _ Hwf).
  - cbn. rewrite map_size_insert_Some by (by eexists). apply (wf_room _ Hwf).
Qed.
End Fields.

Lemma steady_field (s s1 : lctx) w : (∀ y, owner_of s1 y = owner_of s y) → (∀ y, prio s1 y = prio s y) →
  base s1 w = base s w → steady s w → steady s1 w.
Proof.
  intros Ho Hp Eb [A1 A2 A3]. unfold steady. rewrite Hp. constructor; rewrite ?Eb; [done| |].
  - intros y. rewrite Ho, Hp. apply A2.
  - destruct A3 as [?|(y & Hy & Ey)]; [by left|right]. exists y. by rewrite Ho, Hp.
Qed.

(** A new base priority, and what it does to the others. *)
Lemma new_base_run (s : lctx) x k v :
  lk_inv s → lc_locks s !! x = Some k → 0 ≤ v ≤ LowestThreadPriority →
  ∃ s', (s ← change_locks x (set_base_priority v) s; RestorePriority x s) = Done true s' ∧ lk_inv s' ∧
    (∀ y, owner_of s' y = owner_of s y) ∧ (∀ y, base s' y = if decide (y = x) then v else base s y) ∧
    unmoved s s'.
Proof.
  intros ((Hwf & HI & Hl) & Hst) Hk Hv. rewrite (change_locks_run _ x k) by done. pstep.
  set (s1 := set_locks _ s).
  assert (lk_wf s1) as Hwf1.
  { apply (field_wf s x k); try done. cbn [set_base_priority m_base_priority]. change NumPriority with 64. change LowestThreadPriority with 63 in Hv. lia. }
  pose proof (field_owner s x k (set_base_priority v k) Hk eq_refl) as Ho.
  pose proof (field_base s x (set_base_priority v k)) as Hb. pose proof (field_dom s x k (set_base_priority v k) Hk) as Hd.
  destruct (RestorePriority_run s1 x) as (s' & E & Hok' & Hsw & Hst'); [done|apply Hd; by eexists| |].
  - intros w Hw Hwx. apply (steady_field s s1); [done|done| |by apply Hst, Hd]. etrans; [apply Hb|by rewrite decide_False].
  - exists s'. split; [done|]. split; [done|]. split; [|split].
    + intros y. rewrite (sw_owner _ _ Hsw). apply Ho.
    + intros y. rewrite (sw_base _ _ Hsw). apply Hb.
    + etrans; [|apply (sw_unmoved _ _ Hsw)]. constructor; try done. intros y. cbn.
      destruct (decide (y = x)) as [->|]; [by rewrite lookup_insert_eq, Hk|by rewrite lookup_insert_ne].
Qed.

Lemma new_key_run (s : lctx) x k key v b :
  lk_inv s → lc_locks s !! x = Some k → m_waiting_lock_info k = None →
  ∃ s', change_locks x (set_address_key key v b) s = Done true s' ∧ lk_inv s' ∧
    (∀ y, owner_of s' y = owner_of s y) ∧ (∀ y, base s' y = base s y) ∧
    s' = set_locks (<[x := set_address_key key v b k]> (lc_locks s)) s.
Proof.
  intros ((Hwf & HI & Hl) & Hst) Hk Hw. rewrite (change_locks_run _ x k) by done. set (s1 := set_locks _ s). exists s1.
  split; [done|].
  assert (lk_wf s1) as Hwf1 by (apply (field_wf s x k); try done; by apply (wf_base _ Hwf x k)).
  pose proof (field_owner s x k (set_address_key key v b k) Hk eq_refl) as Ho.
  assert (∀ y, base s1 y = base s y) as Hb.
  { intros y. unfold s1. rewrite (field_base s x (set_address_key key v b k) y). case_decide; [subst|done]. unfold base. by rewrite Hk. }
  pose proof (field_dom s x k (set_address_key key v b k) Hk) as Hd.
  split; [split|].
  - done.
  - intros w Hw'. apply (steady_field s s1); [done|done|done|]. by apply Hst, Hd.
  - done.
Qed.
End Theorems.

(** * Threads that come to a condition variable and leave it, and changes of
    their state: the locks stay as they are *)

Section Trees.
Context {C : Type} `{Clock C}.
Local Abbreviation lctx := (LockContext C).

(** ** Changes of the scheduler that the locks do not see *)
Lemma view_inv (s : lctx) c : lk_inv s → same_view (lc_sched s) c → sched_inv c → ctx_locked c = true →
  lk_inv (set_sched c s).
Proof.
  intros ((Hwf & _) & Hst) Hv HI Hl. split; [split; [by apply view_wf|done]|].
  intros w Hw. apply (steady_field s); [done| |done|by apply Hst]. intros y. by apply same_view_prio.
Qed.

(** ** KThread::SetState *)
Lemma OnThreadStateChanged_threads (c c' : SchedulerContext C) x old ok :
  OnThreadStateChanged x old c = Done ok c' → ctx_threads c' = ctx_threads c.
Proof.
  unfold OnThreadStateChanged, IncrementScheduledCount, RegisterDummyThreadForWakeup, UnregisterDummyThreadForWakeup.
  intros E. prog_inv; try done; repeat (case_match; prog_inv; try done).
Qed.

Definition new_state (old state : Z) : Z := Z.lor (Z.ldiff old ThreadState_Mask) (Z.land state ThreadState_Mask).

Lemma new_state_get t state : KThread_GetState (set_thread_state (new_state (m_thread_state t) state) t) = Z.land state ThreadState_Mask.
Proof.
  unfold KThread_GetState, new_state. cbn [set_thread_state m_thread_state]. apply Z.bits_inj'. intros n _.
  rewrite !Z.land_spec, Z.lor_spec, Z.ldiff_spec, Z.land_spec. destruct (Z.testbit ThreadState_Mask n); cbn.
  - by rewrite andb_false_r, !andb_true_r.
  - by rewrite !andb_false_r.
Qed.

Lemma set_state_run (s : lctx) x t state :
  lk_inv s → ctx_threads (lc_sched s) !! x = Some t →
  ∃ c, on_sched (KThread_SetState x state) s = Done true (set_sched c s) ∧ lk_inv (set_sched c s) ∧
    ctx_threads c = <[x := set_thread_state (new_state (m_thread_state t) state) t]> (ctx_threads (lc_sched s)) ∧
    ctx_current c = ctx_current (lc_sched s).
Proof.
  intros HI Ht. pose proof HI as ((Hwf & Hs & Hl) & _).
  destruct (proj1 (wp_exists _ _) (SetState_run (lc_sched s) x t state Hs Hl Ht)) as (c & E & Hc & Hcur & Hlc).
  exists c. assert (ctx_threads c = <[x := set_thread_state (new_state (m_thread_state t) state) t]> (ctx_threads (lc_sched s))) as Ec.
  { unfold KThread_SetState in E. rewrite (get_thread_run _ _ t), bind_Done_true in E by done.
    rewrite (change_thread_run _ x t), bind_Done_true in E by done. fold (new_state (m_thread_state t) state) in E.
    destruct (negb _) in E; [|by injection E as <-]. by rewrite (OnThreadStateChanged_threads _ _ _ _ _ E). }
  split; [by apply on_sched_run|]. split; [|done]. apply view_inv; [done| |done|congruence].
  intros y. rewrite Ec. destruct (decide (y = x)) as [->|]; [by rewrite lookup_insert_eq, Ht|by rewrite lookup_insert_ne].
Qed.

(** ** The trees of condition variables *)
Section Retree.
Context (s : lctx) (x : Z) (k k' : ThreadLocks) (m : gmap Z (list Z)).
Hypotheses (Hk : lc_locks s !! x = Some k) (Hw : m_waiting_lock_info k = None).
Hypotheses (Eb : m_base_priority k' = m_base_priority k) (Eh : m_held_lock_info_list k' = m_held_lock_info_list k).
Hypothesis (Ew : m_waiting_lock_info k' = m_waiting_lock_info k).

Definition retree_state : lctx :=
  MkLockContext (lc_sched s) (<[x := k']> (lc_locks s)) (lc_infos s) (lc_slab s) m.

Lemma retree_lookup y ky : <[x := k']> (lc_locks s) !! y = Some ky → ∃ k0, lc_locks s !! y = Some k0 ∧
  m_base_priority ky = m_base_priority k0 ∧ m_held_lock_info_list ky = m_held_lock_info_list k0 ∧
  m_waiting_lock_info ky = m_waiting_lock_info k0.
Proof.
  destruct (decide (y = x)) as [->|].
  - rewrite lookup_insert_eq. intros [= <-]. by exists k.
  - rewrite lookup_insert_ne by done. intros Hy. by exists ky.
Qed.

Lemma retree_dom y : is_Some (<[x := k']> (lc_locks s) !! y) ↔ is_Some (lc_locks s !! y).
Proof.
  destruct (decide (y = x)) as [->|]; [|by rewrite lookup_insert_ne]. rewrite lookup_insert_eq, Hk. by split; eexists.
Qed.

Lemma retree_owner y : owner_of retree_state y = owner_of s y.
Proof.
  unfold owner_of. cbn. destruct (decide (y = x)) as [->|]; [|by rewrite lookup_insert_ne].
  by rewrite lookup_insert_eq, Hk, Ew.
Qed.

Lemma retree_base y : base retree_state y = base s y.
Proof.
  unfold base. cbn. destruct (decide (y = x)) as [->|]; [|by rewrite lookup_insert_ne].
  rewrite lookup_insert_eq, Hk. cbn. by rewrite Eb.
Qed.

Lemma retree_wf : lk_wf s → (∀ c tree, m !! c = Some tree → cv_ok retree_state c tree) →
  (∀ y ky c, <[x := k']> (lc_locks s) !! y = Some ky → m_condvar_tree ky = Some c → ∃ tree, m !! c = Some tree ∧ y ∈ tree) →
  lk_wf retree_state.
Proof.
  intros Hwf Hcv Hin. constructor; try done; cbn [retree_state lc_locks lc_infos lc_sched lc_slab lc_cv_trees].
  - intros y. rewrite retree_dom. apply (wf_dom _ Hwf).
  - intros l i Hi. destruct (wf_info _ Hwf l i Hi) as [H1 H2 H3 H4 H5 H6]. constructor; try done.
    + destruct H1 as (z & kz & Hz & Hkz & Hl & Hn). destruct (proj2 (retree_dom z) ltac:(by eexists)) as [ky Hky].
      exists z, ky. destruct (retree_lookup z ky Hky) as (k0 & Hk0 & _ & E & _). rewrite E. split_and!; [done|done|congruence|done].
    + intros y Hy. destruct (H6 y Hy) as (k0 & Hk0 & Hl0 & K). exists k0. split; [|done]. cbn [retree_state lc_locks].
      rewrite lookup_insert_ne; [done|]. intros <-. congruence.
  - intros y ky Hky. destruct (retree_lookup y ky Hky) as (k0 & Hk0 & _ & E1 & E2).
    destruct (wf_held _ Hwf y k0 Hk0) as [H1 H2 H3 H4]. constructor; rewrite ?E1, ?E2; done.
  - intros y ky Hky. destruct (retree_lookup y ky Hky) as (k0 & Hk0 & E & _). rewrite E. apply (wf_base _ Hwf y k0 Hk0).
  - apply (wf_slab _ Hwf).
  - apply (wf_prio _ Hwf).
  - rewrite map_size_insert_Some by (by eexists). apply (wf_size _ Hwf).
  - rewrite map_size_insert_Some by (by eexists). apply (wf_room _ Hwf).
Qed.

Lemma retree_ckey y : y ≠ x → ckey retree_state y = ckey s y.
Proof. clear Hk Hw Eb Eh Ew. intros Hy. unfold ckey. cbn. by rewrite lookup_insert_ne. Qed.

(** A tree without the thread. *)
Lemma retree_cv_other c tree : cv_ok s c tree → x ∉ tree → cv_ok retree_state c tree.
Proof.
  clear Hk Hw Eb Eh Ew. intros [H1 H2 H3] Hx. constructor; [done| |].
  - revert H2. apply sorted_by_ext. intros y z Hy Hz. unfold cv_lt. change (prio retree_state) with (prio s).
    rewrite !retree_ckey by (by intros ->). done.
  - intros y Hy. destruct (H3 y Hy) as (k0 & Hk0 & Hc). exists k0. split; [|done]. cbn. rewrite lookup_insert_ne; [done|].
    by intros ->.
Qed.

Lemma retree_inv : lk_inv s → lk_wf retree_state → lk_inv retree_state.
Proof.
  intros ((_ & HI & Hl) & Hst) Hwf. split; [done|]. intros w Hw'. apply (steady_field s); [apply retree_owner|done|apply retree_base|].
  by apply Hst, retree_dom.
Qed.
End Retree.

Lemma in_one_tree (s : lctx) x k c tree : lk_wf s → lc_locks s !! x = Some k → lc_cv_trees s !! c = Some tree →
  x ∈ tree ↔ m_condvar_tree k = Some c.
Proof.
  intros Hwf Hk Hc. split.
  - intros Hx. destruct (co_in _ _ _ (wf_cv _ Hwf c tree Hc) x Hx) as (k' & ? & ?). congruence.
  - intros Hkc. destruct (wf_cvin _ Hwf x k c Hk Hkc) as (tree' & ? & ?). congruence.
Qed.

(** A thread in the tree of a condition variable waits for no lock. *)
Lemma in_tree_free (s : lctx) x k c : lk_wf s → lc_locks s !! x = Some k → m_condvar_tree k = Some c →
  m_waiting_lock_info k = None ∧ owner_of s x = None.
Proof.
  intros Hwf Hk Hc. assert (m_waiting_lock_info k = None) as Hw.
  { destruct (m_waiting_lock_info k) as [l|] eqn:El; [|done].
    destruct (ho_wait _ _ _ (wf_held _ Hwf x k Hk) l El) as (i & Hi & Hx).
    destruct (io_waits _ _ _ (wf_info _ Hwf l i Hi) x Hx) as (k' & ? & _ & _ & _ & ?). congruence. }
  split; [done|]. unfold owner_of. by rewrite Hk, Hw.
Qed.

Lemma leave_inv (s : lctx) x k k' c tree : lk_inv s → lc_locks s !! x = Some k → m_condvar_tree k = Some c →
  lc_cv_trees s !! c = Some tree →
  m_base_priority k' = m_base_priority k → m_held_lock_info_list k' = m_held_lock_info_list k →
  m_waiting_lock_info k' = m_waiting_lock_info k → m_condvar_tree k' = None →
  ∃ l1 l2, tree = l1 ++ x :: l2 ∧ (x ∉ l1) ∧ (x ∉ l2) ∧
    lk_inv (retree_state s x k' (<[c := l1 ++ l2]> (lc_cv_trees s))).
Proof.
  intros HI Hk Hkc Hc Eb Eh Ew Ek'. pose proof HI as ((Hwf & _) & _).
  destruct (in_tree_free s x k c Hwf Hk Hkc) as [Hw _].
  assert (x ∈ tree) as Hx by (by apply (in_one_tree s x k c)).
  destruct (split_at x tree Hx (co_NoDup _ _ _ (wf_cv _ Hwf c tree Hc))) as (l1 & l2 & -> & H1 & H2 & Hnd).
  exists l1, l2. split_and!; [done..|]. apply (retree_inv s x k); try done. apply (retree_wf s x k); try done.
  - intros c' tree' Hc'. destruct (decide (c' = c)) as [->|Hne].
    + rewrite lookup_insert_eq in Hc'. injection Hc' as <-. apply retree_cv_other.
      * destruct (wf_cv _ Hwf c _ Hc) as [_ Hs Hin]. constructor; [done|by eapply sorted_by_remove|].
        intros y Hy. apply Hin. rewrite elem_of_app in *. rewrite elem_of_cons. tauto.
      * rewrite elem_of_app. tauto.
    + rewrite lookup_insert_ne in Hc' by done. apply retree_cv_other; [by apply (wf_cv _ Hwf)|].
      rewrite (in_one_tree s x k c' tree' Hwf Hk Hc'). congruence.
  - intros y ky c' Hky Hkc'. destruct (decide (y = x)) as [->|Hyx]; [rewrite lookup_insert_eq in Hky; congruence|].
    rewrite lookup_insert_ne in Hky by done. destruct (wf_cvin _ Hwf y ky c' Hky Hkc') as (tree' & Ht' & Hy').
    destruct (decide (c' = c)) as [->|Hne].
    + exists (l1 ++ l2). rewrite lookup_insert_eq. split; [done|]. assert (tree' = l1 ++ x :: l2) as -> by congruence.
      rewrite elem_of_app, elem_of_cons in *. tauto.
    + exists tree'. by rewrite lookup_insert_ne.
Qed.

(** The keys of a tree as the comparison reads them. *)
Definition keyed (s : lctx) (y : Z) : Z * (Z * Z) := (y, (ckey s y, prio s y)).

Lemma cv_compare_lt (s : lctx) x y :
  cv_compare (ckey s x) (prio s x) (keyed s y) = if cv_lt s x y then -1 else 1.
Proof. unfold cv_compare, cv_lt, keyed. cbn [snd]. by destruct (ckey s x <? _), (ckey s x =? _), (prio s x <? _). Qed.

Lemma enter_inv (s : lctx) x k k' c tree : lk_inv s → lc_locks s !! x = Some k → m_waiting_lock_info k = None →
  m_condvar_tree k = None → lc_cv_trees s !! c = Some tree →
  m_base_priority k' = m_base_priority k → m_held_lock_info_list k' = m_held_lock_info_list k →
  m_waiting_lock_info k' = m_waiting_lock_info k → m_condvar_tree k' = Some c →
  ∃ l1 l2 n, tree = l1 ++ l2 ∧
    tree_insert (cv_compare (m_condvar_key k') (prio s x)) (x, (m_condvar_key k', prio s x)) (keyed s <$> tree) =
      Done true ((λ y, if decide (y = x) then (x, (m_condvar_key k', prio s x)) else keyed s y) <$> (l1 ++ x :: l2), n) ∧
    lk_inv (retree_state s x k' (<[c := l1 ++ x :: l2]> (lc_cv_trees s))).
Proof.
  intros HI Hk Hw Hkc Hc Eb Eh Ew Ek'. pose proof HI as ((Hwf & _) & _).
  assert (x ∉ tree) as Hx by (rewrite (in_one_tree s x k c tree Hwf Hk Hc); congruence).
  set (s1 := retree_state s x k' (lc_cv_trees s)).
  assert (ckey s1 x = m_condvar_key k') as Eck by (unfold ckey; cbn; by rewrite lookup_insert_eq).
  assert (∀ y, y ≠ x → keyed s1 y = keyed s y) as Hkey.
  { intros y Hy. unfold keyed, s1. rewrite retree_ckey by done. done. }
  assert (cv_ok s1 c tree) as Hok by (apply retree_cv_other; [by apply (wf_cv _ Hwf)|done]).
  destruct (insert_sorted (cv_lt s1) (cv_lt_trans _) (cv_lt_asym _) (cv_compare (ckey s1 x) (prio s1 x)) (keyed s1) x tree)
    as (l1 & l2 & n & -> & E & Hs & _); [intros y; apply cv_compare_lt|apply Hok|].
  exists l1, l2, n. split; [done|].
  assert (∀ l : list Z, x ∉ l → keyed s1 <$> l = keyed s <$> l) as Hmap.
  { intros l Hl. apply list_fmap_ext. intros i y Hy. apply Hkey. intros ->. apply Hl. by eapply list_elem_of_lookup_2. }
  split.
  - rewrite Hmap in E by done. rewrite Eck in E. change (prio s1 x) with (prio s x) in E.
    change (keyed s1 x) with (x, (ckey s1 x, prio s x)) in E. rewrite Eck in E. rewrite E. do 2 f_equal.
    apply list_fmap_ext. intros i y _. case_decide as Hd; [subst; unfold keyed; by rewrite Eck|by apply Hkey].
  - assert (NoDup (l1 ++ x :: l2)) as Hnd.
    { rewrite <- Permutation_middle. constructor; [done|apply Hok]. }
    apply (retree_inv s x k); try done. apply (retree_wf s x k); try done.
    + intros c' tree' Hc'. destruct (decide (c' = c)) as [->|Hne].
      * rewrite lookup_insert_eq in Hc'. injection Hc' as <-. constructor; [done|exact Hs|]. intros y Hy. cbn.
        destruct (decide (y = x)) as [->|Hyx]; [rewrite lookup_insert_eq; by exists k'|].
        rewrite lookup_insert_ne by done. apply (co_in _ _ _ (wf_cv _ Hwf c _ Hc)).
        rewrite elem_of_app, elem_of_cons in *. tauto.
      * rewrite lookup_insert_ne in Hc' by done. apply retree_cv_other; [by apply (wf_cv _ Hwf)|].
        rewrite (in_one_tree s x k c' tree' Hwf Hk Hc'). congruence.
    + intros y ky c' Hky Hkc'. destruct (decide (y = x)) as [->|Hyx].
      * rewrite lookup_insert_eq in Hky. injection Hky as <-. assert (c' = c) as -> by congruence.
        exists (l1 ++ x :: l2). rewrite lookup_insert_eq. split; [done|]. rewrite elem_of_app, elem_of_cons. tauto.
      * rewrite lookup_insert_ne in Hky by done. destruct (wf_cvin _ Hwf y ky c' Hky Hkc') as (tree' & Ht' & Hy').
        destruct (decide (c' = c)) as [->|Hne]; [|exists tree'; by rewrite lookup_insert_ne].
        exists (l1 ++ x :: l2). rewrite lookup_insert_eq. split; [done|]. assert (tree' = l1 ++ l2) as -> by congruence.
        rewrite elem_of_app, elem_of_cons in *. tauto.
Qed.
End Trees.
