(* ===== verification/LocksProperties.v ===== *)
(** * The properties of the locks, and an example *)

From S2P Require Import Prelude Common OrderedTree Thread PriorityQueue PriorityQueueTheorems PriorityQueueRefinement Scheduler SchedulerLemmas SchedulerOperations SchedulerProperties Locks LocksLemmas LocksOperations LocksTransfer LocksTheorems.

(** ** Requests *)
Inductive lock_request : Type :=
| LqAddWaiter (owner thread : Z)
| LqRemoveWaiter (owner thread : Z)
| LqRemoveWaiterByKey (owner key : Z) (is_kernel : bool)
| LqSetBasePriority (thread value : Z)
| LqIncreaseBasePriority (thread priority : Z)
| LqSetUserAddressKey (thread key val : Z)
| LqSetKernelAddressKey (thread key : Z).

Section Properties.
Context {C : Type} `{Clock C}.
Local Abbreviation lctx := (LockContext C).

Definition lock_run (r : lock_request) (s : lctx) : prog lctx :=
  match r with
  | LqAddWaiter owner thread => AddWaiter owner thread s
  | LqRemoveWaiter owner thread => RemoveWaiter owner thread s
  | LqRemoveWaiterByKey owner key is_kernel =>
      '(_, _, s) ← RemoveWaiterByKey owner key is_kernel s; mret s
  | LqSetBasePriority thread value => SetBasePriority thread value s
  | LqIncreaseBasePriority thread priority => IncreaseBasePriority thread priority s
  | LqSetUserAddressKey thread key val => SetUserAddressKey thread key val s
  | LqSetKernelAddressKey thread key => SetKernelAddressKey thread key s
  end.

Definition waits_not (s : lctx) (x : Z) : Prop :=
  ∃ k, lc_locks s !! x = Some k ∧ m_waiting_lock_info k = None.

(** What the callers see to. *)
Definition lock_pre (r : lock_request) (s : lctx) : Prop :=
  match r with
  | LqAddWaiter owner thread => owner ≠ thread ∧ is_Some (lc_locks s !! owner) ∧
      ∃ k, lc_locks s !! thread = Some k ∧ m_waiting_lock_info k = None ∧ m_condvar_tree k = None
  | LqRemoveWaiter owner thread => owner_of s thread = Some owner
  | LqRemoveWaiterByKey owner _ _ => is_Some (lc_locks s !! owner)
  | LqSetBasePriority thread value => is_Some (lc_locks s !! thread) ∧ 0 ≤ value ≤ LowestThreadPriority
  | LqIncreaseBasePriority thread priority => 0 ≤ priority ≤ LowestThreadPriority ∧
      ∃ k, lc_locks s !! thread = Some k ∧ is_pinned k = false
  | LqSetUserAddressKey thread _ _ | LqSetKernelAddressKey thread _ => waits_not s thread
  end.

Fixpoint lock_runs (rs : list lock_request) (s : lctx) : prog lctx :=
  match rs with
  | [] => mret s
  | r :: rs => s ← lock_run r s; lock_runs rs s
  end.

Fixpoint lock_allowed (rs : list lock_request) (s : lctx) : Prop :=
  match rs with
  | [] => True
  | r :: rs => lock_pre r s ∧ ∀ s', lock_run r s = Done true s' → lock_allowed rs s'
  end.

Lemma valid_base_run v : 0 ≤ v ≤ LowestThreadPriority → valid_base v = true.
Proof. intros [? ?]. unfold valid_base. apply andb_true_iff. by rewrite !Z.leb_le. Qed.

Lemma set_key_step (s : lctx) x k key (v : ThreadLocks → Z) b :
  lk_inv s → lc_locks s !! x = Some k → m_waiting_lock_info k = None →
  ∃ s', (k ← get_locks s x; _ ← ASSERT (bool_decide (m_waiting_lock_info k = None));
         change_locks x (set_address_key key (v k) b) s) = Done true s' ∧ lk_inv s'.
Proof.
  intros HI Hk Hw. destruct (new_key_run s x k key (v k) b HI Hk Hw) as (s' & E & HI' & _). exists s'. split; [|done].
  rewrite (get_locks_run _ x k) by done. pstep. rewrite Hw, bool_decide_true by done.
  change (ASSERT true) with (Done true tt). by pstep.
Qed.

Lemma lock_step (r : lock_request) (s : lctx) :
  lk_inv s → lock_pre r s → ∃ s', lock_run r s = Done true s' ∧ lk_inv s'.
Proof.
  intros HI Hpre. pose proof HI as ((_ & _ & Hl) & _). destruct r as [x t|x t|x key b|x v|x v|x key v|x key]; cbn [lock_run lock_pre] in *.
  - destruct Hpre as (Hne & Hx & k & Hk & Hw & Hcv).
    destruct (AddWaiter_run s x t k) as (s' & E & ? & _); try done. by exists s'.
  - destruct (RemoveWaiter_run s x t HI Hpre) as (s' & E & ? & _). by exists s'.
  - destruct Hpre as [k Hk]. destruct (RemoveWaiterByKey_run s x k key b HI Hk) as [(E & _)|(n & l & has & s' & E & ? & _)].
    + exists s. rewrite E. by pstep.
    + exists s'. rewrite E. by pstep.
  - destruct Hpre as ([k Hk] & Hv). destruct (new_base_run s x k v HI Hk Hv) as (s' & E & ? & _). exists s'. split; [|done].
    unfold SetBasePriority. rewrite valid_base_run by done. change (ASSERT true) with (Done true tt). by pstep.
  - destruct Hpre as (Hv & k & Hk & Hp). unfold IncreaseBasePriority, IsSchedulerLockedByCurrentThread.
    rewrite valid_base_run, Hl by done. change (ASSERT true) with (Done true tt). pstep.
    rewrite (get_locks_run _ x k), bind_Done_true, Hp by done. change (ASSERT (negb false)) with (Done true tt). pstep.
    destruct (v <? m_base_priority k); [|by exists s].
    destruct (new_base_run s x k v HI Hk Hv) as (s' & E & ? & _). by exists s'.
  - destruct Hpre as (k & Hk & Hw). by apply (set_key_step s x k key (λ _, v)).
  - destruct Hpre as (k & Hk & Hw). by apply (set_key_step s x k key m_address_key_value).
Qed.

Lemma reaches_le (s : lctx) y z : lk_inv s → reaches s y z → prio s z ≤ prio s y.
Proof.
  intros ((Hwf & _) & Hst). assert (∀ a b, owner_of s a = Some b → prio s b ≤ prio s a) as Hone.
  { intros a b Hab. destruct (owner_of_inv s a b Hwf Hab) as (_ & kb & _ & _ & _ & _ & _ & _ & Hkb & _).
    apply (ih_waiters _ _ _ (Hst b ltac:(by eexists))). done. }
  induction 1 as [y z Hyz|y u z Hyu Huz IH]; [by apply Hone|]. etrans; [exact IH|by apply Hone].
Qed.

(** C19: Under the scheduler lock, every sequence of waiters added and removed,
    locks handed over and base priorities and address keys changed, made in
    states that allow it, runs to the end with no failed assertion.  After it
    the trees of waiters are in order, the counts of kernel waiters are those of
    the waiters, the scheduler's queues hold every thread at its priority, every
    thread's priority is the best of its base priority and of those of its
    waiters, and so no thread has a worse priority than one that waits for it,
    directly or through others. *)
Theorem locks_invariant (rs : list lock_request) (s : lctx) :
  lk_inv s → lock_allowed rs s →
  wp (lock_runs rs s) (λ s', lk_inv s' ∧ ∀ y z, reaches s' y z → prio s' z ≤ prio s' y).
Proof.
  revert s. induction rs as [|r rs IH]; intros s HI Hall; cbn [lock_runs].
  { apply wp_ret. split; [done|]. intros y z. by apply reaches_le. }
  destruct Hall as (Hpre & Hall). destruct (lock_step r s HI Hpre) as (s1 & E & HI1). rewrite E, bind_Done_true.
  apply IH; [done|by apply Hall].
Qed.

(** C26: When every thread but [x] has the priority it should have, whatever [x]
    has, RestorePriority ends, also when threads wait for each other in a circle,
    with every thread at the best of its base priority and those of its waiters;
    who waits for whom and the base priorities are as before. *)
Theorem RestorePriority_correct (s : lctx) (x : Z) :
  lk_ok s → is_Some (lc_locks s !! x) → all_but s x →
  wp (RestorePriority x s) (λ s', lk_inv s' ∧ same_waits s s').
Proof.
  intros Hok Hx Hall. destruct (RestorePriority_run s x Hok Hx Hall) as (s' & -> & Hok' & Hsw & Hst).
  apply wp_Done. by split.
Qed.

(** RemoveWaiterByKey gives the lock at the address to the waiter with the
    best priority: it waits no more, the other waiters of the lock wait for it
    now, nobody else's owner changes, and every thread has the priority it should
    have.  It says whether others still wait.  With no waiter at the address it
    returns null and changes nothing. *)
Theorem RemoveWaiterByKey_correct (s : lctx) (x key : Z) (is_kernel : bool) :
  lk_inv s → is_Some (lc_locks s !! x) →
  wp (RemoveWaiterByKey x key is_kernel s) (λ '(next, has_waiters, s'), lk_inv s' ∧
    match next with
    | None => no_waiter s x key is_kernel ∧ has_waiters = false ∧ s' = s
    | Some n => ∃ l, handed_over s s' x key is_kernel l n has_waiters
    end).
Proof.
  intros HI [k Hk]. destruct (RemoveWaiterByKey_run s x k key is_kernel HI Hk) as [(-> & Hn)|(n & l & has & s' & -> & HI' & Hh)];
    apply wp_Done; [by split|]. split; [done|]. by exists l.
Qed.
End Properties.

(** ** An example

    Threads 7 and 8 of the scheduler's example, of base priority 44. *)
Definition ex_locks0 : ThreadLocks := MkLocks 44 [] None 0 false None 0 false 0.
Definition ex_unlocked : LockContext Z :=
  MkLockContext ex_start {[7 := ex_locks0; 8 := ex_locks0]} ∅ [100; 101] {[50 := []; 60 := []]}.

(** Thread 8 gets priority 30 and waits for thread 7 at an address. *)
Definition ex_wait : list lock_request :=
  [LqSetUserAddressKey 8 4096 3; LqSetBasePriority 8 30; LqAddWaiter 7 8].
Definition ex_locked : LockContext Z := result ex_unlocked (lock_runs ex_wait ex_unlocked).

Lemma ex_locked_prio : (prio ex_locked 7, prio ex_locked 8, base ex_locked 7, owner_of ex_locked 8) = (30, 30, 44, Some 7).
Proof. vm_compute. reflexivity. Qed.

Lemma ex_unlocked_locks x k : lc_locks ex_unlocked !! x = Some k → (x = 7 ∨ x = 8) ∧ k = ex_locks0.
Proof.
  intros Hk. cbn in Hk. apply lookup_insert_Some in Hk as [(<- & <-)|(_ & Hk)]; [auto|].
  apply lookup_singleton_Some in Hk as (<- & <-). auto.
Qed.

Lemma ex_unlocked_owner x : owner_of ex_unlocked x = None.
Proof.
  unfold owner_of. destruct (lc_locks ex_unlocked !! x) as [k|] eqn:Ek; [|done].
  by apply ex_unlocked_locks in Ek as (_ & ->).
Qed.

Lemma ex_unlocked_wf : lk_wf ex_unlocked.
Proof.
  assert (∀ x t, ctx_threads ex_start !! x = Some t → t = ex_waiting) as Hth.
  { intros x t Ht. cbn in Ht. apply lookup_insert_Some in Ht as [(_ & <-)|(_ & Ht)]; [done|].
    by apply lookup_singleton_Some in Ht as (_ & <-). }
  constructor.
  - intros x. cbn. rewrite !lookup_insert_is_Some. rewrite !lookup_singleton_is_Some. done.
  - done.
  - intros x k (_ & ->)%ex_unlocked_locks. constructor; cbn [ex_locks0 m_held_lock_info_list m_waiting_lock_info].
    + constructor.
    + intros l []%not_elem_of_nil.
    + by intros t ->%Hth.
    + done.
  - by intros x k (_ & ->)%ex_unlocked_locks.
  - by intros x k c (_ & ->)%ex_unlocked_locks.
  - split; [|done]. apply NoDup_cons. split; [|apply NoDup_singleton]. rewrite list_elem_of_singleton. done.
  - intros c tree Hc. assert (tree = []) as ->.
    { cbn in Hc. apply lookup_insert_Some in Hc as [(_ & <-)|(_ & Hc)]; [done|].
      by apply lookup_singleton_Some in Hc as (_ & <-). }
    constructor; [constructor|constructor|]. intros y []%not_elem_of_nil.
  - by intros x t ->%Hth.
  - done.
  - vm_compute. lia.
Qed.

Lemma ex_unlocked_inv : lk_inv ex_unlocked.
Proof.
  split; [split; [apply ex_unlocked_wf|split; [apply ex_start_inv|done]]|].
  intros x [k Hk]. destruct (ex_unlocked_locks x k Hk) as ([-> | ->] & _); constructor;
    [done| |by left|done| |by left]; intros y; by rewrite ex_unlocked_owner.
Qed.

(** The states on the way. *)
Definition ex_keyed : LockContext Z := result ex_unlocked (lock_run (LqSetUserAddressKey 8 4096 3) ex_unlocked).
Definition ex_raised : LockContext Z := result ex_unlocked (lock_run (LqSetBasePriority 8 30) ex_keyed).

Lemma ex_raised_pre : lock_pre (LqAddWaiter 7 8) ex_raised.
Proof.
  assert (lc_locks ex_raised !! 8 = Some (MkLocks 30 [] None 4096 false None 0 false 3)) as E8 by (vm_compute; reflexivity).
  assert (lc_locks ex_raised !! 7 = Some ex_locks0) as E7 by (vm_compute; reflexivity).
  split; [done|]. split; [by rewrite E7; eexists|by eexists].
Qed.

Lemma ex_wait_allowed : lock_allowed ex_wait ex_unlocked.
Proof.
  unfold ex_wait. cbn [lock_allowed lock_pre]. split; [by exists ex_locks0|]. intros s1 E1.
  assert (s1 = ex_keyed) as -> by (unfold ex_keyed; by rewrite E1).
  assert (is_Some (lc_locks ex_keyed !! 8)) as Hk by (vm_compute; by eexists).
  split; [split; [exact Hk|done]|]. intros s2 E2.
  assert (s2 = ex_raised) as -> by (unfold ex_raised; by rewrite E2). split; [apply ex_raised_pre|done].
Qed.

Lemma ex_locked_inv : lk_inv ex_locked.
Proof.
  unfold ex_locked, ex_wait. cbn [lock_runs]. pose proof ex_wait_allowed as (P1 & A1).
  destruct (lock_step _ ex_unlocked ex_unlocked_inv P1) as (s1 & E1 & I1). rewrite E1, bind_Done_true.
  destruct (A1 s1 E1) as (P2 & A2). destruct (lock_step _ s1 I1 P2) as (s2 & E2 & I2). rewrite E2, bind_Done_true.
  destruct (A2 s2 E2) as (P3 & _). destruct (lock_step _ s2 I2 P3) as (s3 & E3 & I3). rewrite E3, bind_Done_true. done.
Qed.

Lemma locks_invariant_witness :
  wp (lock_runs ex_wait ex_unlocked) (λ s', lk_inv s' ∧ ∀ y z, reaches s' y z → prio s' z ≤ prio s' y).
Proof. apply (locks_invariant ex_wait ex_unlocked); [apply ex_unlocked_inv|apply ex_wait_allowed]. Defined.

(** The base priority of thread 8 has just been changed. *)
Definition ex_changed : LockContext Z :=
  set_locks (<[8 := set_base_priority 30 ex_locks0]> (lc_locks ex_unlocked)) ex_unlocked.

Lemma RestorePriority_correct_witness :
  wp (RestorePriority 8 ex_changed) (λ s', lk_inv s' ∧ prio s' 8 = 30).
Proof.
  pose proof ex_unlocked_inv as ((Hwf & HI & Hl) & Hst).
  eapply wp_mono; [apply (RestorePriority_correct ex_changed 8)|].
  - split; [|split; [exact HI|exact Hl]]. by apply (field_wf ex_unlocked 8 ex_locks0).
  - by eexists.
  - intros w Hw Hne. apply (steady_field ex_unlocked).
    + by apply (field_owner ex_unlocked 8 ex_locks0).
    + done.
    + etrans; [apply (field_base ex_unlocked 8 (set_base_priority 30 ex_locks0))|by rewrite decide_False].
    + apply Hst. by apply (field_dom ex_unlocked 8 ex_locks0 (set_base_priority 30 ex_locks0)).
  - intros s' (HI' & Hsw). split; [done|]. destruct (proj2 HI' 8) as [_ _ [->|(y & Hy & _)]].
    + apply (sw_dom _ _ _ Hsw). by eexists.
    + by rewrite (sw_base _ _ Hsw).
    + rewrite (sw_owner _ _ Hsw) in Hy. unfold ex_changed in Hy. rewrite (field_owner ex_unlocked 8 ex_locks0), ex_unlocked_owner in Hy; done.
Defined.

(** Thread 7 gives the lock to thread 8 and is back at its base priority. *)
Lemma RemoveWaiterByKey_correct_witness :
  wp (RemoveWaiterByKey 7 4096 false ex_locked) (λ '(next, has_waiters, s'), lk_inv s' ∧ prio s' 7 = 44 ∧
    next = Some 8 ∧ has_waiters = false).
Proof.
  pose proof (RemoveWaiterByKey_correct ex_locked 7 4096 false ex_locked_inv) as Hw.
  assert (is_Some (lc_locks ex_locked !! 7)) as Hs by (vm_compute; by eexists).
  destruct (proj1 (wp_exists _ _) (Hw Hs)) as ([[next has] s'] & E & HI' & _).
  assert ((λ r : prog (option Z * bool * LockContext Z),
    match r with Done _ (n, b, s) => Some (n, b, prio s 7) | Stuck => None end)
    (RemoveWaiterByKey 7 4096 false ex_locked) = Some (Some 8, false, 44)) as Ec by (vm_compute; done).
  rewrite E in Ec |- *. cbn beta iota in Ec. injection Ec as -> -> Ep. apply wp_Done.
  split; [exact HI'|]. split; [exact Ep|]. split; reflexivity.
Defined.
