(* ===== verification/SynchronizationObject.v ===== *)
(** * Synchronization objects: the lists of waiting threads
    (src/src/core/hle/kernel/k_synchronization_object.h,
    k_synchronization_object.cpp)

    Each object has a singly linked list of nodes.  The nodes of a thread that
    waits are an array on its stack: a node is the thread and its index there. *)

From S2P Require Import Prelude Common.

Definition NodeId : Type := Z * nat.

Record ThreadListNode : Type := MkNode {
  node_next : option NodeId;
  node_thread : Z
}.

(** An object of a class derived from KSynchronizationObject: the list, what
    IsSignaled says, which is [m_is_signaled] of a KReadableEvent, and the flag that
    the KEvent around a readable event has. *)
Record KSynchronizationObject : Type := MkObject {
  m_thread_list_head : option NodeId;
  m_thread_list_tail : option NodeId;
  m_is_signaled : bool;
  m_readable_event_destroyed : bool
}.

(** What a thread has for these waits. *)
Record SyncThread : Type := MkSyncThread {
  m_synced_index : Z;
  m_wait_cancelled : bool;
  m_cancellable : bool
}.

Record SyncState : Type := MkSync {
  sy_objects : gmap Z KSynchronizationObject;
  sy_nodes : gmap NodeId ThreadListNode;
  sy_threads : gmap Z SyncThread
}.
Implicit Types (y : SyncState) (n node : NodeId).

Definition set_list (head tail : option NodeId) (ob : KSynchronizationObject) : KSynchronizationObject :=
  MkObject head tail (m_is_signaled ob) (m_readable_event_destroyed ob).
Definition set_signaled (b : bool) (ob : KSynchronizationObject) : KSynchronizationObject :=
  MkObject (m_thread_list_head ob) (m_thread_list_tail ob) b (m_readable_event_destroyed ob).

Definition get_object y (o : Z) : prog KSynchronizationObject := deref (sy_objects y !! o).
Definition put_object (o : Z) (ob : KSynchronizationObject) y : SyncState :=
  MkSync (<[o := ob]> (sy_objects y)) (sy_nodes y) (sy_threads y).
Definition get_node y n : prog ThreadListNode := deref (sy_nodes y !! n).
Definition put_node n (d : ThreadListNode) y : SyncState :=
  MkSync (sy_objects y) (<[n := d]> (sy_nodes y)) (sy_threads y).
Definition set_next n (next : option NodeId) y : prog SyncState :=
  d ← get_node y n;
  mret (put_node n (MkNode next (node_thread d)) y).

Definition get_sync y (x : Z) : prog SyncThread := deref (sy_threads y !! x).
Definition change_sync (x : Z) (f : SyncThread → SyncThread) y : prog SyncState :=
  t ← get_sync y x;
  mret (MkSync (sy_objects y) (sy_nodes y) (<[x := f t]> (sy_threads y))).

Definition SetSyncedIndex (index : Z) (t : SyncThread) : SyncThread :=
  MkSyncThread index (m_wait_cancelled t) (m_cancellable t).
Definition set_wait_cancelled (b : bool) (t : SyncThread) : SyncThread :=
  MkSyncThread (m_synced_index t) b (m_cancellable t).
Definition ClearWaitCancelled : SyncThread → SyncThread := set_wait_cancelled false.
Definition SetCancellable (t : SyncThread) : SyncThread :=
  MkSyncThread (m_synced_index t) (m_wait_cancelled t) true.
Definition ClearCancellable (t : SyncThread) : SyncThread :=
  MkSyncThread (m_synced_index t) (m_wait_cancelled t) false.

(** ** LinkNode and UnlinkNode *)
Definition LinkNode (o : Z) node y : prog SyncState :=
  ob ← get_object y o;
  '(y, head) ←
    (match m_thread_list_tail ob with
     | None => mret (y, Some node)
     | Some tail => y ← set_next tail (Some node) y; mret (y, m_thread_list_head ob)
     end);
  mret (put_object o (set_list head (Some node) ob) y).

(** [prev_ptr] is a node, or [None] for the head of the object taken as one;
    [prev_val] is a node or null.  The list has fewer nodes than there are. *)
Definition next_of y (ob : KSynchronizationObject) (prev_ptr : option NodeId) : prog (option NodeId) :=
  match prev_ptr with
  | None => mret (m_thread_list_head ob)
  | Some p => d ← get_node y p; mret (node_next d)
  end.

Fixpoint unlink_loop (fuel : nat) y (ob : KSynchronizationObject) (prev_ptr prev_val : option NodeId) node
    : prog (option NodeId * option NodeId) :=
  match fuel with
  | O => Stuck
  | S fuel =>
      next ← next_of y ob prev_ptr;
      if bool_decide (next = Some node) then mret (prev_ptr, prev_val)
      else
        p ← deref next;
        unlink_loop fuel y ob (Some p) (Some p) node
  end.

Definition UnlinkNode (o : Z) node y : prog SyncState :=
  ob ← get_object y o;
  '(prev, tail_prev) ← unlink_loop (S (size (sy_nodes y))) y ob None None node;
  let tail :=
    if bool_decide (m_thread_list_tail ob = Some node) then tail_prev else m_thread_list_tail ob in
  d ← get_node y node;
  match prev with
  | None => mret (put_object o (set_list (node_next d) tail ob) y)
  | Some p =>
      y ← set_next p (node_next d) y;
      mret (put_object o (set_list (m_thread_list_head ob) tail ob) y)
  end.

(** ** The loops over the objects of a wait *)
Fixpoint unlink_all (thread : Z) (objects : list Z) (i : nat) y : prog SyncState :=
  match objects with
  | [] => mret y
  | o :: objects =>
      y ← UnlinkNode o (thread, i) y;
      unlink_all thread objects (S i) y
  end.

Fixpoint link_all (thread : Z) (objects : list Z) (i : nat) y : prog SyncState :=
  match objects with
  | [] => mret y
  | o :: objects =>
      y ← LinkNode o (thread, i) (put_node (thread, i) (MkNode None thread) y);
      link_all thread objects (S i) y
  end.

(** The index of the first object that is signaled. *)
Fixpoint first_signaled (objects : list Z) (i : nat) y : prog (option nat) :=
  match objects with
  | [] => mret None
  | o :: objects =>
      ob ← get_object y o;
      if m_is_signaled ob then mret (Some i) else first_signaled objects (S i) y
  end.

(** The index of the object that was signaled, while all nodes are unlinked. *)
Fixpoint notify_loop (thread signaled_object : Z) (objects : list Z) (i : nat) (sync_index : Z) y
    : prog (Z * SyncState) :=
  match objects with
  | [] => mret (sync_index, y)
  | o :: objects =>
      let sync_index :=
        if (o =? signaled_object) && (sync_index =? -1) then Z.of_nat i else sync_index in
      y ← UnlinkNode o (thread, i) y;
      notify_loop thread signaled_object objects (S i) sync_index y
  end.
