(* ===== verification/Waiting.v ===== *)
(** * Threads that wait
    (src/src/core/hle/kernel/k_thread_queue.h, k_thread_queue.cpp, k_thread.h,
    k_thread.cpp, k_timer_task.h, k_hardware_timer_base.h, k_hardware_timer.h,
    k_hardware_timer.cpp, k_scoped_scheduler_lock_and_sleep.h)

    A thread begins to wait on a queue, which says what is to be done when the
    wait ends or is cancelled, and may register a task with the hardware timer
    that cancels it.  The functions are what is done under the scheduler lock
    that they take. *)

From S2P Require Import Prelude Common OrderedTree Thread PriorityQueue Scheduler Locks SynchronizationObject.

(** ** The memory of the guest

    Other cores run guest code, so that every access may find the memory
    changed; an exclusive store fails when it was.  [exclusive_tries] bounds how
    often it fails in a row. *)
Class GuestMemory (M : Type) : Type := {
  Read32 : Z → M → Z * M;
  Write32 : Z → Z → M → M;
  ExclusiveRead32 : Z → M → Z * M;
  ExclusiveWrite32 : Z → Z → M → bool * M;
  ClearExclusive : M → M;
  exclusive_tries : M → nat
}.

(** ** Threads by handle: the table of the current process.  A thread found is
    open until it is closed. *)
Class ThreadHandles (H : Type) : Type := {
  GetThread : Z → H → option Z * H;
  CloseThread : Z → H → H
}.

(** ** State *)

(** The classes derived from KThreadQueue, with the tree or the objects they have. *)
Inductive WaitQueueKind : Type :=
| ThreadQueueImplForKConditionVariableWaitForAddress
| ThreadQueueImplForKConditionVariableWaitConditionVariable (m_tree : Z)
| ThreadQueueImplForKAddressArbiter (m_tree : Z)
| ThreadQueueImplForKThreadSleep
| ThreadQueueImplForKSynchronizationObjectWait (m_objects : list Z).

Record KThreadQueue : Type := MkThreadQueue {
  queue_kind : WaitQueueKind;
  m_hardware_timer : bool              (* the timer, or null *)
}.

Record ThreadWaits : Type := MkWaits {
  m_wait_queue : option KThreadQueue;
  m_wait_result : Z;
  m_termination_requested : bool;
  m_time : Z                           (* of the timer task *)
}.

Record KHardwareTimer : Type := MkTimer {
  m_task_tree : list Z;
  m_next_task : option Z;
  m_wakeup_time : Z
}.

Record WaitContext (C H M : Type) : Type := MkWaitContext {
  wc_locks : LockContext C;
  wc_waits : gmap Z ThreadWaits;
  wc_timer : KHardwareTimer;
  wc_sync : SyncState;
  wc_handles : H;
  wc_memory : M
}.
Arguments MkWaitContext {C H M}.
Arguments wc_locks {C H M}.
Arguments wc_waits {C H M}.
Arguments wc_timer {C H M}.
Arguments wc_sync {C H M}.
Arguments wc_handles {C H M}.
Arguments wc_memory {C H M}.

Definition SetWaitResult (wait_result : Z) (w : ThreadWaits) : ThreadWaits :=
  MkWaits (m_wait_queue w) wait_result (m_termination_requested w) (m_time w).
Definition set_wait_queue (queue : option KThreadQueue) (w : ThreadWaits) : ThreadWaits :=
  MkWaits queue (m_wait_result w) (m_termination_requested w) (m_time w).
Definition ClearWaitQueue (w : ThreadWaits) : ThreadWaits := set_wait_queue None w.
Definition KTimerTask_SetTime (t : Z) (w : ThreadWaits) : ThreadWaits :=
  MkWaits (m_wait_queue w) (m_wait_result w) (m_termination_requested w) t.

Definition S64_MAX : Z := 2 ^ 63 - 1.

Section Waiting.
Context {C H M : Type} `{Clock C} `{ThreadHandles H} `{GuestMemory M}.
Local Abbreviation wctx := (WaitContext C H M).

Definition set_lock_state (l : LockContext C) (s : wctx) : wctx :=
  MkWaitContext l (wc_waits s) (wc_timer s) (wc_sync s) (wc_handles s) (wc_memory s).
Definition set_waits (m : gmap Z ThreadWaits) (s : wctx) : wctx :=
  MkWaitContext (wc_locks s) m (wc_timer s) (wc_sync s) (wc_handles s) (wc_memory s).
Definition set_timer (t : KHardwareTimer) (s : wctx) : wctx :=
  MkWaitContext (wc_locks s) (wc_waits s) t (wc_sync s) (wc_handles s) (wc_memory s).
Definition set_handles (h : H) (s : wctx) : wctx :=
  MkWaitContext (wc_locks s) (wc_waits s) (wc_timer s) (wc_sync s) h (wc_memory s).
Definition set_memory (m : M) (s : wctx) : wctx :=
  MkWaitContext (wc_locks s) (wc_waits s) (wc_timer s) (wc_sync s) (wc_handles s) m.
Definition set_sync (y : SyncState) (s : wctx) : wctx :=
  MkWaitContext (wc_locks s) (wc_waits s) (wc_timer s) y (wc_handles s) (wc_memory s).

Definition get_waits (s : wctx) (thread : Z) : prog ThreadWaits := deref (wc_waits s !! thread).
Definition change_waits (thread : Z) (f : ThreadWaits → ThreadWaits) (s : wctx) : prog wctx :=
  w ← get_waits s thread;
  mret (set_waits (<[thread := f w]> (wc_waits s)) s).
Definition on_locks (f : LockContext C → prog (LockContext C)) (s : wctx) : prog wctx :=
  l ← f (wc_locks s);
  mret (set_lock_state l s).

Definition on_sync (f : SyncState → prog SyncState) (s : wctx) : prog wctx :=
  y ← f (wc_sync s);
  mret (set_sync y s).

Definition thread_state (s : wctx) (thread : Z) : prog Z :=
  t ← get_thread (lc_sched (wc_locks s)) thread;
  mret (KThread_GetState t).
Definition SetState (thread state : Z) (s : wctx) : prog wctx :=
  on_locks (on_sched (KThread_SetState thread state)) s.
Definition current_thread (s : wctx) : Z := ctx_current (lc_sched (wc_locks s)).
Definition IsTerminationRequested (s : wctx) (thread : Z) : prog bool :=
  w ← get_waits s thread;
  t ← get_thread (lc_sched (wc_locks s)) thread;
  mret (m_termination_requested w || (m_thread_state t =? ThreadState_Terminated)).

(** ** KTimerTask and KHardwareTimerBase *)
Fixpoint times_of (s : wctx) (tasks : list Z) : prog (list (Z * Z)) :=
  match tasks with
  | [] => mret []
  | y :: tasks =>
      w ← get_waits s y;
      r ← times_of s tasks;
      mret ((y, m_time w) :: r)
  end.

Definition KTimerTask_Compare (time : Z) (rhs : Z * Z) : Z := if time <? rhs.2 then -1 else 1.

Definition RemoveTaskFromTree (task : Z) (s : wctx) : prog wctx :=
  let t := wc_timer s in
  match list_find (λ y, y = task) (m_task_tree t) with
  | Some (i, _) =>
      '(tree, it) ← tree_erase (m_task_tree t) i;
      s ← change_waits task (KTimerTask_SetTime 0) s;
      mret (set_timer (MkTimer tree
        (if bool_decide (m_next_task t = Some task) then tree !! it else m_next_task t)
        (m_wakeup_time t)) s)
  | None => Stuck
  end.

Definition CancelTask (task : Z) (s : wctx) : prog wctx :=
  w ← get_waits s task;
  if 0 <? m_time w then RemoveTaskFromTree task s else mret s.

Definition RegisterAbsoluteTaskImpl (task task_time : Z) (s : wctx) : prog (bool * wctx) :=
  _ ← ASSERT (0 <? task_time);
  s ← change_waits task (KTimerTask_SetTime task_time) s;
  let t := wc_timer s in
  others ← times_of s (m_task_tree t);
  '(tree, _) ← tree_insert (KTimerTask_Compare task_time) (task, task_time) others;
  let s := set_timer (MkTimer (tree.*1) (m_next_task t) (m_wakeup_time t)) s in
  later ← (match m_next_task t with
           | Some next => w ← get_waits s next; mret (m_time w <=? task_time)
           | None => mret false
           end);
  if later : bool then mret (false, s)
  else mret (true, set_timer (MkTimer (tree.*1) (Some task) (m_wakeup_time t)) s).

(** ** KHardwareTimer; the event that calls DoTask at the wake-up time is outside *)
Definition DisableInterrupt (s : wctx) : wctx :=
  set_timer (MkTimer (m_task_tree (wc_timer s)) (m_next_task (wc_timer s)) S64_MAX) s.
Definition EnableInterrupt (wakeup_time : Z) (s : wctx) : wctx :=
  let s := DisableInterrupt s in
  set_timer (MkTimer (m_task_tree (wc_timer s)) (m_next_task (wc_timer s)) wakeup_time) s.
Definition GetInterruptEnabled (s : wctx) : bool := negb (m_wakeup_time (wc_timer s) =? S64_MAX).

Definition RegisterAbsoluteTask (task task_time : Z) (s : wctx) : prog wctx :=
  '(first, s) ← RegisterAbsoluteTaskImpl task task_time s;
  if first : bool then
    if task_time <=? m_wakeup_time (wc_timer s) then mret (EnableInterrupt task_time s) else mret s
  else mret s.

(** ** KThreadQueue *)
Definition end_of_wait (waiting_thread wait_result : Z) (cancel_timer_task : bool) (s : wctx)
    : prog wctx :=
  s ← change_waits waiting_thread (SetWaitResult wait_result) s;
  s ← SetState waiting_thread ThreadState_Runnable s;
  s ← change_waits waiting_thread ClearWaitQueue s;
  if cancel_timer_task then CancelTask waiting_thread s else mret s.

Definition KThreadQueue_EndWait (queue : KThreadQueue) (waiting_thread wait_result : Z) (s : wctx)
    : prog wctx :=
  match queue_kind queue with
  | ThreadQueueImplForKThreadSleep | ThreadQueueImplForKSynchronizationObjectWait _ =>
      Stuck                                (* KThreadQueueWithoutEndWait: UNREACHABLE *)
  | _ => end_of_wait waiting_thread wait_result (m_hardware_timer queue) s
  end.

(** The thread is erased from the tree by its own node. *)
Definition erase_from_cv (cv_tree thread : Z) (s : wctx) : prog wctx :=
  on_locks (λ l,
    tree ← deref (lc_cv_trees l !! cv_tree);
    tree ← erase_from tree thread;
    mret (set_cv_trees (<[cv_tree := tree]> (lc_cv_trees l)) l)) s.

Definition set_condvar_tree (tree : option Z) (k : ThreadLocks) : ThreadLocks :=
  MkLocks (m_base_priority k) (m_held_lock_info_list k) (m_waiting_lock_info k) (m_address_key k)
    (m_is_kernel_address_key k) tree (m_condvar_key k) (is_pinned k) (m_address_key_value k).
Definition ClearConditionVariable (thread : Z) (s : wctx) : prog wctx :=
  on_locks (change_locks thread (set_condvar_tree None)) s.
Definition ClearAddressArbiter (thread : Z) (s : wctx) : prog wctx :=
  on_locks (change_locks thread (set_condvar_tree None)) s.
Definition IsWaitingForConditionVariable (s : wctx) (thread : Z) : prog bool :=
  k ← get_locks (wc_locks s) thread;
  mret (bool_decide (m_condvar_tree k ≠ None)).
Definition IsWaitingForAddressArbiter (s : wctx) (thread : Z) : prog bool :=
  k ← get_locks (wc_locks s) thread;
  mret (bool_decide (m_condvar_tree k ≠ None)).

(** The CancelWait of each class, which ends with that of KThreadQueue. *)
Definition cancel_kind (kind : WaitQueueKind) (waiting_thread : Z) (s : wctx) : prog wctx :=
  match kind with
  | ThreadQueueImplForKConditionVariableWaitForAddress =>
      owner ← GetLockOwner waiting_thread (wc_locks s);
      owner ← deref owner;
      on_locks (RemoveWaiter owner waiting_thread) s
  | ThreadQueueImplForKConditionVariableWaitConditionVariable m_tree =>
      owner ← GetLockOwner waiting_thread (wc_locks s);
      s ← (match owner with
           | Some owner => on_locks (RemoveWaiter owner waiting_thread) s
           | None => mret s
           end);
      waiting ← IsWaitingForConditionVariable s waiting_thread;
      if waiting : bool then
        s ← erase_from_cv m_tree waiting_thread s;
        ClearConditionVariable waiting_thread s
      else mret s
  | ThreadQueueImplForKAddressArbiter m_tree =>
      waiting ← IsWaitingForAddressArbiter s waiting_thread;
      if waiting : bool then
        s ← erase_from_cv m_tree waiting_thread s;
        ClearAddressArbiter waiting_thread s
      else mret s
  | ThreadQueueImplForKThreadSleep => mret s
  | ThreadQueueImplForKSynchronizationObjectWait m_objects =>
      s ← on_sync (unlink_all waiting_thread m_objects 0) s;
      on_sync (change_sync waiting_thread ClearCancellable) s
  end.

Definition KThreadQueue_CancelWait (queue : KThreadQueue) (waiting_thread wait_result : Z)
    (cancel_timer_task : bool) (s : wctx) : prog wctx :=
  s ← cancel_kind (queue_kind queue) waiting_thread s;
  end_of_wait waiting_thread wait_result (cancel_timer_task && m_hardware_timer queue) s.

(** ** KThread *)
Definition BeginWait (thread : Z) (queue : KThreadQueue) (s : wctx) : prog wctx :=
  s ← SetState thread ThreadState_Waiting s;
  change_waits thread (set_wait_queue (Some queue)) s.

Definition EndWait (thread wait_result : Z) (s : wctx) : prog wctx :=
  state ← thread_state s thread;
  if state =? ThreadState_Waiting then
    w ← get_waits s thread;
    match m_wait_queue w with
    | None => _ ← ASSERT false; mret s
    | Some queue => KThreadQueue_EndWait queue thread wait_result s
    end
  else mret s.

Definition CancelWait (thread wait_result : Z) (cancel_timer_task : bool) (s : wctx) : prog wctx :=
  state ← thread_state s thread;
  if state =? ThreadState_Waiting then
    w ← get_waits s thread;
    queue ← deref (m_wait_queue w);
    KThreadQueue_CancelWait queue thread wait_result cancel_timer_task s
  else mret s.

Definition OnTimer (thread : Z) (s : wctx) : prog wctx :=
  _ ← ASSERT (IsSchedulerLockedByCurrentThread (lc_sched (wc_locks s)));
  state ← thread_state s thread;
  if state =? ThreadState_Waiting then
    w ← get_waits s thread;
    queue ← deref (m_wait_queue w);
    KThreadQueue_CancelWait queue thread ResultTimedOut false s
  else mret s.

(** ** The interrupt of the timer *)
Fixpoint interrupt_loop (fuel : nat) (cur_time : Z) (s : wctx) : prog (Z * wctx) :=
  match m_next_task (wc_timer s) with
  | None => mret (0, s)
  | Some task =>
      w ← get_waits s task;
      if cur_time <? m_time w then mret (m_time w, s)
      else
        match fuel with
        | O => Stuck
        | S fuel =>
            s ← RemoveTaskFromTree task s;
            s ← OnTimer task s;
            interrupt_loop fuel cur_time s
        end
  end.

Definition DoInterruptTaskImpl (cur_time : Z) (s : wctx) : prog (Z * wctx) :=
  interrupt_loop (length (m_task_tree (wc_timer s))) cur_time s.

(** [cur_time] is what GetTick reads. *)
Definition DoTask (cur_time : Z) (s : wctx) : prog wctx :=
  if negb (GetInterruptEnabled s) then mret s
  else
    let s := set_timer (MkTimer (m_task_tree (wc_timer s)) (m_next_task (wc_timer s)) S64_MAX) s in
    '(next_time, s) ← DoInterruptTaskImpl cur_time s;
    if (0 <? next_time) && (next_time <=? m_wakeup_time (wc_timer s))
    then mret (EnableInterrupt next_time s) else mret s.

(** ** Waiting with a timeout: the end of KScopedSchedulerLockAndSleep.  [None]
    is a call that waits, [Some r] one that returns [r] at once. *)
Definition begin_wait_with_timeout (thread : Z) (kind : WaitQueueKind) (timeout : Z) (s : wctx)
    : prog (option Z * wctx) :=
  s ← BeginWait thread (MkThreadQueue kind (0 <? timeout)) s;
  s ← (if 0 <? timeout then RegisterAbsoluteTask thread timeout s else mret s);
  mret (None, s).

Definition Sleep (timeout : Z) (s : wctx) : prog (option Z * wctx) :=
  let thread := current_thread s in
  _ ← ASSERT (0 <? timeout);
  terminating ← IsTerminationRequested s thread;
  if terminating : bool then mret (Some ResultTerminationRequested, s)
  else begin_wait_with_timeout thread ThreadQueueImplForKThreadSleep timeout s.

(** What a call that waited returns when the thread runs again. *)
Definition GetWaitResult (s : wctx) (thread : Z) : prog Z :=
  w ← get_waits s thread;
  mret (m_wait_result w).
End Waiting.
