(* ===== verification/ConditionVariable.v ===== *)
(** * KConditionVariable and KAddressArbiter
    (src/src/core/hle/kernel/k_condition_variable.cpp, k_address_arbiter.cpp,
    svc_common.h)

    Locks and condition variables of the guest, and its address arbiter.  Each
    condition variable and each arbiter is the tree of its waiting threads, by
    key and then by priority.  The trace of locks for debugging is left out. *)

From S2P Require Import Prelude Common OrderedTree Thread PriorityQueue Scheduler Locks SynchronizationObject Waiting.

Definition HandleWaitMask : Z := Z.shiftl 1 30.
Definition InvalidHandle : Z := 0.

Section ConditionVariable.
Context {C H M : Type} `{Clock C} `{ThreadHandles H} `{GuestMemory M}.
Local Abbreviation wctx := (WaitContext C H M).

(** ** Access to user memory *)
Definition ReadFromUser (address : Z) (s : wctx) : Z * wctx :=
  let '(v, m) := Read32 address (wc_memory s) in (v, set_memory m s).
Definition ReadFromUser_s32 (address : Z) (s : wctx) : Z * wctx :=
  let '(v, m) := Read32 address (wc_memory s) in (s32 v, set_memory m s).
Definition WriteToUser (address val : Z) (s : wctx) : wctx :=
  set_memory (Write32 address val (wc_memory s)) s.

Fixpoint update_lock_loop (fuel : nat) (address if_zero new_orr_mask : Z) (m : M) : prog (Z * M) :=
  match fuel with
  | O => Stuck
  | S fuel =>
      let '(expected, m) := ExclusiveRead32 address m in
      let value := if expected =? 0 then if_zero else Z.lor expected new_orr_mask in
      let '(stored, m) := ExclusiveWrite32 address value m in
      if stored : bool then mret (expected, m)
      else update_lock_loop fuel address if_zero new_orr_mask m
  end.
Definition UpdateLockAtomic (address if_zero new_orr_mask : Z) (s : wctx) : prog (Z * wctx) :=
  '(expected, m) ← update_lock_loop (S (exclusive_tries (wc_memory s))) address if_zero new_orr_mask
    (wc_memory s);
  mret (expected, set_memory m s).

(** A result of an [s32] operation; overflow is undefined. *)
Definition s32_checked (z : Z) : prog Z :=
  if (-2 ^ 31 <=? z) && (z <? 2 ^ 31) then mret z else Stuck.

Fixpoint decrement_loop (fuel : nat) (address value : Z) (m : M) : prog (Z * M) :=
  match fuel with
  | O => Stuck
  | S fuel =>
      let '(v, m) := ExclusiveRead32 address m in
      let current_value := s32 v in
      if current_value <? value then
        decrement_value ← s32_checked (current_value - 1);
        let '(stored, m) := ExclusiveWrite32 address (u32 decrement_value) m in
        if stored : bool then mret (current_value, m) else decrement_loop fuel address value m
      else mret (current_value, ClearExclusive m)
  end.
Definition DecrementIfLessThan (address value : Z) (s : wctx) : prog (Z * wctx) :=
  '(current_value, m) ← decrement_loop (S (exclusive_tries (wc_memory s))) address value (wc_memory s);
  mret (current_value, set_memory m s).

Fixpoint update_equal_loop (fuel : nat) (address value new_value : Z) (m : M) : prog (Z * M) :=
  match fuel with
  | O => Stuck
  | S fuel =>
      let '(v, m) := ExclusiveRead32 address m in
      let current_value := s32 v in
      if current_value =? value then
        let '(stored, m) := ExclusiveWrite32 address (u32 new_value) m in
        if stored : bool then mret (current_value, m) else update_equal_loop fuel address value new_value m
      else mret (current_value, ClearExclusive m)
  end.
Definition UpdateIfEqual (address value new_value : Z) (s : wctx) : prog (Z * wctx) :=
  '(current_value, m) ← update_equal_loop (S (exclusive_tries (wc_memory s))) address value new_value
    (wc_memory s);
  mret (current_value, set_memory m s).

(** ** Locks of the guest *)
Definition GetAddressKeyValue (s : wctx) (thread : Z) : prog Z :=
  k ← get_locks (wc_locks s) thread;
  mret (m_address_key_value k).

Definition RemoveUserWaiterByKey (owner key : Z) (s : wctx) : prog (option Z * bool * wctx) :=
  '(next, has_waiters, l) ← RemoveWaiterByKey owner key false (wc_locks s);
  mret (next, has_waiters, set_lock_state l s).

(** The value that the lock word gets: the tag of the next owner. *)
Definition next_tag (next : option Z) (has_waiters : bool) (s : wctx) : prog Z :=
  match next with
  | None => mret 0
  | Some next =>
      v ← GetAddressKeyValue s next;
      mret (if has_waiters then Z.lor v HandleWaitMask else v)
  end.

Definition end_wait_of (next : option Z) (result : Z) (s : wctx) : prog wctx :=
  match next with Some next => EndWait next result s | None => mret s end.

Definition KConditionVariable_SignalToAddress (addr : Z) (s : wctx) : prog (Z * wctx) :=
  let owner_thread := current_thread s in
  '(next_owner_thread, has_waiters, s) ← RemoveUserWaiterByKey owner_thread addr s;
  next_value ← next_tag next_owner_thread has_waiters s;
  let s := WriteToUser addr next_value s in
  s ← end_wait_of next_owner_thread ResultSuccess s;
  mret (ResultSuccess, s).

(** The owner stays open until the wait is over, when the caller closes it. *)
Definition KConditionVariable_WaitForAddress (handle addr value : Z) (s : wctx)
    : prog (option Z * wctx) :=
  let cur_thread := current_thread s in
  terminating ← IsTerminationRequested s cur_thread;
  if terminating : bool then mret (Some ResultTerminationRequested, s)
  else
    let '(test_tag, s) := ReadFromUser addr s in
    if negb (test_tag =? Z.lor handle HandleWaitMask) then mret (Some ResultSuccess, s)
    else
      let '(owner_thread, h) := GetThread handle (wc_handles s) in
      let s := set_handles h s in
      match owner_thread with
      | None => mret (Some ResultInvalidHandle, s)
      | Some owner_thread =>
          s ← on_locks (SetUserAddressKey cur_thread addr value) s;
          s ← on_locks (AddWaiter owner_thread cur_thread) s;
          s ← BeginWait cur_thread
                (MkThreadQueue ThreadQueueImplForKConditionVariableWaitForAddress false) s;
          mret (None, s)
      end.

Definition WaitForAddress_finish (thread owner_thread : Z) (s : wctx) : prog (Z * wctx) :=
  let s := set_handles (CloseThread owner_thread (wc_handles s)) s in
  r ← GetWaitResult s thread;
  mret (r, s).

(** ** Condition variables *)
Definition SignalImpl (thread : Z) (s : wctx) : prog wctx :=
  _ ← ASSERT (IsSchedulerLockedByCurrentThread (lc_sched (wc_locks s)));
  k ← get_locks (wc_locks s) thread;
  '(prev_tag, s) ← UpdateLockAtomic (m_address_key k) (m_address_key_value k) HandleWaitMask s;
  if prev_tag =? InvalidHandle then EndWait thread ResultSuccess s
  else
    let '(owner_thread, h) := GetThread (Z.ldiff prev_tag HandleWaitMask) (wc_handles s) in
    let s := set_handles h s in
    match owner_thread with
    | Some owner_thread =>
        s ← on_locks (AddWaiter owner_thread thread) s;
        mret (set_handles (CloseThread owner_thread (wc_handles s)) s)
    | None => EndWait thread ResultInvalidState s
    end.

(** An iterator of the tree is the thread of its node. *)
Definition cv_tree_of (cv_tree : Z) (s : wctx) : prog (list Z) :=
  deref (lc_cv_trees (wc_locks s) !! cv_tree).

Definition cv_nfind (cv_tree key : Z) (s : wctx) : prog (option Z) :=
  tree ← cv_tree_of cv_tree s;
  keys ← cv_keys_of (wc_locks s) tree;
  mret (tree !! tree_nfind (cv_compare key (-1)) keys).

(** [++it] *)
Definition cv_next (cv_tree thread : Z) (s : wctx) : prog (option Z) :=
  tree ← cv_tree_of cv_tree s;
  match list_find (λ y, y = thread) tree with
  | Some (i, _) => mret (tree !! S i)
  | None => Stuck
  end.

(** [it = m_tree.erase(it)] *)
Definition cv_erase (cv_tree thread : Z) (s : wctx) : prog (option Z * wctx) :=
  next ← cv_next cv_tree thread s;
  s ← erase_from_cv cv_tree thread s;
  mret (next, s).

(** [it != m_tree.end() && it->Get...Key() == key] *)
Definition at_key (it : option Z) (key : Z) (s : wctx) : prog bool :=
  match it with
  | None => mret false
  | Some x => k ← get_locks (wc_locks s) x; mret (m_condvar_key k =? key)
  end.

(** [count <= 0 || num_waiters < count] *)
Definition more (count num_waiters : Z) : bool := (count <=? 0) || (num_waiters <? count).

Fixpoint signal_loop (fuel : nat) (m_tree cv_key count num_waiters : Z) (it : option Z) (s : wctx)
    : prog (option Z * wctx) :=
  here ← at_key it cv_key s;
  match it with
  | Some target_thread =>
      if more count num_waiters && here then
        match fuel with
        | O => Stuck
        | S fuel =>
            '(it, s) ← cv_erase m_tree target_thread s;
            s ← ClearConditionVariable target_thread s;
            s ← SignalImpl target_thread s;
            n ← s32_checked (num_waiters + 1);
            signal_loop fuel m_tree cv_key count n it s
        end
      else mret (it, s)
  | None => mret (it, s)
  end.

Definition KConditionVariable_Signal (m_tree cv_key count : Z) (s : wctx) : prog wctx :=
  it ← cv_nfind m_tree cv_key s;
  tree ← cv_tree_of m_tree s;
  '(it, s) ← signal_loop (length tree) m_tree cv_key count 0 it s;
  here ← at_key it cv_key s;
  mret (if here : bool then s else WriteToUser cv_key 0 s).

Definition SetConditionVariable (thread tree address cv_key value : Z) (s : wctx) : prog wctx :=
  k ← get_locks (wc_locks s) thread;
  _ ← ASSERT (bool_decide (m_waiting_lock_info k = None));
  on_locks (change_locks thread (λ k,
    MkLocks (m_base_priority k) (m_held_lock_info_list k) (m_waiting_lock_info k) address false
      (Some tree) cv_key (is_pinned k) value)) s.

(** [m_tree.insert(thread)] *)
Definition cv_insert (m_tree thread : Z) (s : wctx) : prog wctx :=
  on_locks (λ l,
    tree ← deref (lc_cv_trees l !! m_tree);
    p ← GetPriority l thread;
    k ← get_locks l thread;
    others ← cv_keys_of l tree;
    '(tree, _) ← tree_insert (cv_compare (m_condvar_key k) p) (thread, (m_condvar_key k, p)) others;
    mret (set_cv_trees (<[m_tree := tree.*1]> (lc_cv_trees l)) l)) s.

Definition KConditionVariable_Wait (m_tree addr key value timeout : Z) (s : wctx)
    : prog (option Z * wctx) :=
  let cur_thread := current_thread s in
  terminating ← IsTerminationRequested s cur_thread;
  if terminating : bool then mret (Some ResultTerminationRequested, s)
  else
    '(next_owner_thread, has_waiters, s) ← RemoveUserWaiterByKey cur_thread addr s;
    next_value ← next_tag next_owner_thread has_waiters s;
    s ← end_wait_of next_owner_thread ResultSuccess s;
    let s := WriteToUser key 1 s in
    let s := WriteToUser addr next_value s in
    if timeout =? 0 then mret (Some ResultTimedOut, s)
    else
      s ← SetConditionVariable cur_thread m_tree addr key value s;
      s ← cv_insert m_tree cur_thread s;
      begin_wait_with_timeout cur_thread
        (ThreadQueueImplForKConditionVariableWaitConditionVariable m_tree) timeout s.

(** ** The address arbiter *)
Fixpoint wake_loop (fuel : nat) (m_tree addr count num_waiters : Z) (it : option Z) (s : wctx)
    : prog wctx :=
  here ← at_key it addr s;
  match it with
  | Some target_thread =>
      if more count num_waiters && here then
        match fuel with
        | O => Stuck
        | S fuel =>
            s ← EndWait target_thread ResultSuccess s;
            waiting ← IsWaitingForAddressArbiter s target_thread;
            _ ← ASSERT waiting;
            s ← ClearAddressArbiter target_thread s;
            '(it, s) ← cv_erase m_tree target_thread s;
            n ← s32_checked (num_waiters + 1);
            wake_loop fuel m_tree addr count n it s
        end
      else mret s
  | None => mret s
  end.

Definition wake (m_tree addr count : Z) (it : option Z) (s : wctx) : prog wctx :=
  tree ← cv_tree_of m_tree s;
  wake_loop (length tree) m_tree addr count 0 it s.

Definition KAddressArbiter_Signal (m_tree addr count : Z) (s : wctx) : prog (Z * wctx) :=
  it ← cv_nfind m_tree addr s;
  s ← wake m_tree addr count it s;
  mret (ResultSuccess, s).

Definition SignalAndIncrementIfEqual (m_tree addr value count : Z) (s : wctx) : prog (Z * wctx) :=
  new_value ← s32_checked (value + 1);
  '(user_value, s) ← UpdateIfEqual addr value new_value s;
  if negb (user_value =? value) then mret (ResultInvalidState, s)
  else
    it ← cv_nfind m_tree addr s;
    s ← wake m_tree addr count it s;
    mret (ResultSuccess, s).

(** [while (++tmp_it != end && key == addr) if (tmp_num_waiters++ >= count) break;] *)
Fixpoint count_waiters (fuel : nat) (m_tree addr count tmp_num_waiters tmp_it : Z) (s : wctx)
    : prog Z :=
  next ← cv_next m_tree tmp_it s;
  here ← at_key next addr s;
  match next with
  | Some next =>
      if here : bool then
        n ← s32_checked (tmp_num_waiters + 1);
        if count <=? tmp_num_waiters then mret n
        else match fuel with O => Stuck | S fuel => count_waiters fuel m_tree addr count n next s end
      else mret tmp_num_waiters
  | None => mret tmp_num_waiters
  end.

Definition modified_value (m_tree addr value count : Z) (it : option Z) (s : wctx) : prog Z :=
  here ← at_key it addr s;
  if count <=? 0 then
    if here : bool then s32_checked (value - 2) else s32_checked (value + 1)
  else
    match it with
    | Some first =>
        if here : bool then
          tree ← cv_tree_of m_tree s;
          n ← count_waiters (length tree) m_tree addr count 0 first s;
          if n <? count then s32_checked (value - 1) else mret value
        else s32_checked (value + 1)
    | None => s32_checked (value + 1)
    end.

Definition SignalAndModifyByWaitingCountIfEqual (m_tree addr value count : Z) (s : wctx)
    : prog (Z * wctx) :=
  it ← cv_nfind m_tree addr s;
  new_value ← modified_value m_tree addr value count it s;
  '(user_value, s) ←
    (if negb (value =? new_value) then UpdateIfEqual addr value new_value s
     else mret (ReadFromUser_s32 addr s));
  if negb (user_value =? value) then mret (ResultInvalidState, s)
  else
    s ← wake m_tree addr count it s;
    mret (ResultSuccess, s).

Definition SetAddressArbiter (thread tree address : Z) (s : wctx) : prog wctx :=
  k ← get_locks (wc_locks s) thread;
  _ ← ASSERT (bool_decide (m_waiting_lock_info k = None));
  on_locks (change_locks thread (λ k,
    MkLocks (m_base_priority k) (m_held_lock_info_list k) (m_waiting_lock_info k) (m_address_key k)
      (m_is_kernel_address_key k) (Some tree) address (is_pinned k) (m_address_key_value k))) s.

Definition wait_arbiter (m_tree addr timeout : Z) (s : wctx) : prog (option Z * wctx) :=
  let cur_thread := current_thread s in
  if timeout =? 0 then mret (Some ResultTimedOut, s)
  else
    s ← SetAddressArbiter cur_thread m_tree addr s;
    s ← cv_insert m_tree cur_thread s;
    begin_wait_with_timeout cur_thread (ThreadQueueImplForKAddressArbiter m_tree) timeout s.

Definition WaitIfLessThan (m_tree addr value : Z) (decrement : bool) (timeout : Z) (s : wctx)
    : prog (option Z * wctx) :=
  terminating ← IsTerminationRequested s (current_thread s);
  if terminating : bool then mret (Some ResultTerminationRequested, s)
  else
    '(user_value, s) ← (if decrement then DecrementIfLessThan addr value s
                        else mret (ReadFromUser_s32 addr s));
    if value <=? user_value then mret (Some ResultInvalidState, s)
    else wait_arbiter m_tree addr timeout s.

Definition WaitIfEqual (m_tree addr value timeout : Z) (s : wctx) : prog (option Z * wctx) :=
  terminating ← IsTerminationRequested s (current_thread s);
  if terminating : bool then mret (Some ResultTerminationRequested, s)
  else
    let '(user_value, s) := ReadFromUser_s32 addr s in
    if negb (value =? user_value) then mret (Some ResultInvalidState, s)
    else wait_arbiter m_tree addr timeout s.
End ConditionVariable.
