(* ===== verification/Synchronization.v ===== *)
(** * Waiting for synchronization objects, and events
    (src/src/core/hle/kernel/k_synchronization_object.cpp, k_readable_event.cpp,
    k_event.cpp, k_thread.cpp)

    A thread waits until one of several objects is signaled.  The functions are
    what is done under the scheduler lock that they take; opening and closing of
    the objects is left out. *)

From S2P Require Import Prelude Common OrderedTree Thread PriorityQueue Scheduler Locks SynchronizationObject Waiting.

Section Synchronization.
Context {C H M : Type} `{Clock C} `{ThreadHandles H} `{GuestMemory M}.
Local Abbreviation wctx := (WaitContext C H M).

(** ** Objects that become available *)

(** Only the queue of a wait for objects has this function. *)
Definition KThreadQueue_NotifyAvailable (queue : KThreadQueue) (waiting_thread signaled_object wait_result : Z)
    (s : wctx) : prog wctx :=
  match queue_kind queue with
  | ThreadQueueImplForKSynchronizationObjectWait m_objects =>
      '(sync_index, y) ← notify_loop waiting_thread signaled_object m_objects 0 (-1) (wc_sync s);
      s ← on_sync (change_sync waiting_thread (SetSyncedIndex sync_index)) (set_sync y s);
      s ← on_sync (change_sync waiting_thread ClearCancellable) s;
      end_of_wait waiting_thread wait_result (m_hardware_timer queue) s
  | _ => Stuck                             (* KThreadQueue: UNREACHABLE *)
  end.

Definition KThread_NotifyAvailable (thread signaled_object wait_result : Z) (s : wctx) : prog wctx :=
  state ← thread_state s thread;
  if state =? ThreadState_Waiting then
    w ← get_waits s thread;
    queue ← deref (m_wait_queue w);
    KThreadQueue_NotifyAvailable queue thread signaled_object wait_result s
  else mret s.

(** The list changes under the loop; it has fewer nodes than there are. *)
Fixpoint notify_threads (fuel : nat) (cur_node : option NodeId) (object result : Z) (s : wctx) : prog wctx :=
  match cur_node with
  | None => mret s
  | Some n =>
      match fuel with
      | O => Stuck
      | S fuel =>
          d ← get_node (wc_sync s) n;
          s ← KThread_NotifyAvailable (node_thread d) object result s;
          d ← get_node (wc_sync s) n;
          notify_threads fuel (node_next d) object result s
      end
  end.

Definition KSynchronizationObject_NotifyAvailable (object result : Z) (s : wctx) : prog wctx :=
  ob ← get_object (wc_sync s) object;
  if negb (m_is_signaled ob) then mret s
  else notify_threads (size (sy_nodes (wc_sync s))) (m_thread_list_head ob) object result s.

(** ** Wait: [None] is a call that waits.  The index is that of an object that was
    signaled already. *)
Definition KSynchronizationObject_Wait (objects : list Z) (timeout : Z) (s : wctx)
    : prog (option (Z * option nat) * wctx) :=
  let thread := current_thread s in
  terminating ← IsTerminationRequested s thread;
  if terminating : bool then mret (Some (ResultTerminationRequested, None), s)
  else
    found ← first_signaled objects 0 (wc_sync s);
    match found with
    | Some i => mret (Some (ResultSuccess, Some i), s)
    | None =>
        if timeout =? 0 then mret (Some (ResultTimedOut, None), s)
        else
          t ← get_sync (wc_sync s) thread;
          if m_wait_cancelled t then
            s ← on_sync (change_sync thread ClearWaitCancelled) s;
            mret (Some (ResultCancelled, None), s)
          else
            s ← on_sync (link_all thread objects 0) s;
            s ← on_sync (change_sync thread SetCancellable) s;
            s ← on_sync (change_sync thread (SetSyncedIndex (-1))) s;
            '(_, s) ← begin_wait_with_timeout thread (ThreadQueueImplForKSynchronizationObjectWait objects)
                        timeout s;
            mret (None, s)
    end.

(** What a call that waited returns. *)
Definition KSynchronizationObject_Wait_finish (thread : Z) (s : wctx) : prog (Z * Z) :=
  t ← get_sync (wc_sync s) thread;
  r ← GetWaitResult s thread;
  mret (r, m_synced_index t).

Definition WaitCancel (thread : Z) (s : wctx) : prog wctx :=
  state ← thread_state s thread;
  t ← get_sync (wc_sync s) thread;
  if (state =? ThreadState_Waiting) && m_cancellable t then
    s ← on_sync (change_sync thread (set_wait_cancelled false)) s;
    w ← get_waits s thread;
    queue ← deref (m_wait_queue w);
    KThreadQueue_CancelWait queue thread ResultCancelled true s
  else on_sync (change_sync thread (set_wait_cancelled true)) s.

(** ** KReadableEvent and KEvent *)
Definition change_object (object : Z) (f : KSynchronizationObject → KSynchronizationObject) (s : wctx) : prog wctx :=
  on_sync (λ y, ob ← get_object y object; mret (put_object object (f ob) y)) s.

Definition KReadableEvent_Signal (event : Z) (s : wctx) : prog (Z * wctx) :=
  ob ← get_object (wc_sync s) event;
  s ← (if negb (m_is_signaled ob) then
         s ← change_object event (set_signaled true) s;
         KSynchronizationObject_NotifyAvailable event ResultSuccess s
       else mret s);
  mret (ResultSuccess, s).

Definition KReadableEvent_Reset (event : Z) (s : wctx) : prog (Z * wctx) :=
  ob ← get_object (wc_sync s) event;
  if negb (m_is_signaled ob) then mret (ResultInvalidState, s)
  else
    s ← change_object event (set_signaled false) s;
    mret (ResultSuccess, s).

Definition KReadableEvent_Clear (event : Z) (s : wctx) : prog (Z * wctx) :=
  '(_, s) ← KReadableEvent_Reset event s;
  mret (ResultSuccess, s).

(** A KEvent goes by its readable event. *)
Definition OnReadableEventDestroyed (event : Z) (s : wctx) : prog wctx :=
  change_object event (λ ob, MkObject (m_thread_list_head ob) (m_thread_list_tail ob) (m_is_signaled ob) true) s.

Definition KEvent_Signal (event : Z) (s : wctx) : prog (Z * wctx) :=
  ob ← get_object (wc_sync s) event;
  if m_readable_event_destroyed ob then mret (ResultSuccess, s) else KReadableEvent_Signal event s.

Definition KEvent_Clear (event : Z) (s : wctx) : prog (Z * wctx) :=
  ob ← get_object (wc_sync s) event;
  if m_readable_event_destroyed ob then mret (ResultSuccess, s) else KReadableEvent_Clear event s.
End Synchronization.
