(* ===== verification/SynchronizationLemmas.v ===== *)
(** * The lists of waiting threads: what LinkNode and UnlinkNode do *)

From S2P Require Import Prelude Common SynchronizationObject.
Implicit Types (y : SyncState) (n node : NodeId) (l : list NodeId) (N : gmap NodeId ThreadListNode).

(** ** Lists *)
Lemma keep_all {A} (P : A → Prop) `{∀ x, Decision (P x)} (l : list A) : (∀ x, x ∈ l → P x) → filter P l = l.
Proof.
  induction l as [|x l IH]; [done|]. intros HP. rewrite filter_cons_True by (apply HP; left). f_equal. apply IH.
  intros; apply HP; by right.
Qed.

(** The nodes from [cur] on. *)
Fixpoint walk_nodes (fuel : nat) N (cur : option NodeId) : list NodeId :=
  match fuel, cur with
  | S fuel, Some n => n :: walk_nodes fuel N (N !! n ≫= node_next)
  | _, _ => []
  end.

(** The nodes in the list of an object, in order. *)
Definition waiters y (o : Z) : list NodeId :=
  walk_nodes (size (sy_nodes y)) (sy_nodes y) (sy_objects y !! o ≫= m_thread_list_head).

Fixpoint chain N l : Prop :=
  match l with
  | [] => True
  | n :: l => N !! n = Some (MkNode (head l) n.1) ∧ chain N l
  end.

Record list_ok N (ob : KSynchronizationObject) l : Prop := MkListOk {
  li_head : m_thread_list_head ob = head l;
  li_tail : m_thread_list_tail ob = last l;
  li_chain : chain N l;
  li_NoDup : NoDup l
}.

(** The list of every object is well formed, and a node is in one list only. *)
Record lists_ok y : Prop := MkListsOk {
  ls_list o ob : sy_objects y !! o = Some ob → list_ok (sy_nodes y) ob (waiters y o);
  ls_one o o' n : n ∈ waiters y o → n ∈ waiters y o' → o = o'
}.

Lemma chain_lookup N l n : chain N l → n ∈ l → ∃ next, N !! n = Some (MkNode next n.1).
Proof.
  induction l as [|m l IH]; [by intros _ ?%not_elem_of_nil|]. intros [E Hc] [->|Hn]%elem_of_cons; [by eexists|by apply IH].
Qed.

Lemma chain_ext N N' l : (∀ n, n ∈ l → N' !! n = N !! n) → chain N l → chain N' l.
Proof.
  induction l as [|m l IH]; [done|]. intros E [E1 Hc]. split; [rewrite E by left; done|]. apply IH; [|done]. intros n Hn. apply E. by right.
Qed.

Lemma chain_app N l1 l2 : chain N (l1 ++ l2) → chain N l2.
Proof. induction l1 as [|m l1 IH]; [done|]. intros [_ Hc]. by apply IH. Qed.

Lemma chain_size N l : chain N l → NoDup l → (length l ≤ size N)%nat.
Proof.
  intros Hc Hn. replace (length l) with (size (list_to_set l : gset NodeId)) by (by apply size_list_to_set).
  rewrite <- size_dom. apply subseteq_size. intros n Hn'%elem_of_list_to_set.
  destruct (chain_lookup _ _ _ Hc Hn') as (next & E). apply elem_of_dom. by eexists.
Qed.

Lemma walk_chain fuel N l : chain N l → (length l ≤ fuel)%nat → walk_nodes fuel N (head l) = l.
Proof.
  revert fuel. induction l as [|n l IH]; intros [|fuel] Hc Hf; cbn in Hf |- *; [done..|lia|].
  destruct Hc as [-> Hc]. cbn. f_equal. apply IH; [done|lia].
Qed.

Lemma walk_none fuel N : walk_nodes fuel N None = [].
Proof. by destruct fuel. Qed.

(** Lists that fit the pointers are the lists. *)
Lemma waiters_eq y o ob l : sy_objects y !! o = Some ob → list_ok (sy_nodes y) ob l → waiters y o = l.
Proof.
  intros Ho [Eh _ Hc Hn]. unfold waiters. rewrite Ho. cbn. rewrite Eh. apply walk_chain; [done|]. by apply chain_size.
Qed.

Lemma waiters_none y o : sy_objects y !! o = None → waiters y o = [].
Proof. intros Ho. unfold waiters. rewrite Ho. apply walk_none. Qed.

Lemma waiters_object y o n : n ∈ waiters y o → is_Some (sy_objects y !! o).
Proof.
  intros Hn. destruct (sy_objects y !! o) as [ob|] eqn:E; [by eexists|]. rewrite waiters_none in Hn by done. by apply not_elem_of_nil in Hn.
Qed.

Lemma lists_intro y (L : Z → list NodeId) :
  (∀ o ob, sy_objects y !! o = Some ob → list_ok (sy_nodes y) ob (L o)) →
  (∀ o, sy_objects y !! o = None → L o = []) → (∀ o o' n, n ∈ L o → n ∈ L o' → o = o') →
  lists_ok y ∧ ∀ o, waiters y o = L o.
Proof.
  intros HL Hnone Hone. assert (∀ o, waiters y o = L o) as E.
  { intros o. destruct (sy_objects y !! o) as [ob|] eqn:Eo; [by eapply waiters_eq; [|apply HL]|].
    by rewrite waiters_none, Hnone. }
  split; [|done]. constructor.
  - intros o ob Ho. rewrite E. by apply HL.
  - intros o o' n. rewrite !E. apply Hone.
Qed.

(** The other parts of the state: what a list operation leaves alone. *)
Record same_flags y y' : Prop := MkSameFlags {
  sf_threads : sy_threads y' = sy_threads y;
  sf_objects o : (λ ob, (m_is_signaled ob, m_readable_event_destroyed ob)) <$> sy_objects y' !! o =
    (λ ob, (m_is_signaled ob, m_readable_event_destroyed ob)) <$> sy_objects y !! o
}.

#[export] Instance same_flags_preorder : PreOrder same_flags.
Proof.
  split; [by constructor|]. intros y1 y2 y3 [A1 A2] [B1 B2]. constructor; [congruence|]. intros o. by rewrite B2, A2.
Qed.

Lemma same_flags_object y y' o : same_flags y y' → is_Some (sy_objects y' !! o) ↔ is_Some (sy_objects y !! o).
Proof. intros [_ E]. specialize (E o). by destruct (sy_objects y' !! o), (sy_objects y !! o). Qed.

(** ** UnlinkNode *)
Lemma get_object_run y o ob : sy_objects y !! o = Some ob → get_object y o = Done true ob.
Proof. intros E. unfold get_object. by rewrite E. Qed.
Lemma get_node_run y n d : sy_nodes y !! n = Some d → get_node y n = Done true d.
Proof. intros E. unfold get_node. by rewrite E. Qed.
Lemma set_next_run y n d next : sy_nodes y !! n = Some d →
  set_next n next y = Done true (put_node n (MkNode next (node_thread d)) y).
Proof. intros E. unfold set_next. rewrite (get_node_run _ _ d) by done. by pstep. Qed.

(** The node before the end of a list. *)
Definition before (pv : option NodeId) l : option NodeId := match last l with Some p => Some p | None => pv end.

Lemma unlink_loop_run fuel y ob pre node post : ∀ prev, 
  (next_of y ob prev = Done true (head (pre ++ node :: post))) →
  chain (sy_nodes y) (pre ++ node :: post) → node ∉ pre → (length pre < fuel)%nat →
  unlink_loop fuel y ob prev prev node = Done true (before prev pre, before prev pre).
Proof.
  revert fuel. induction pre as [|p pre IH]; intros [|fuel] prev Hnext Hc Hn Hf; cbn [length] in Hf; [lia| |lia|].
  - cbn [unlink_loop]. rewrite Hnext. pstep. cbn. by rewrite bool_decide_true.
  - cbn [unlink_loop]. rewrite Hnext. pstep. cbn [app head].
    apply not_elem_of_cons in Hn as [Hne Hn]. rewrite bool_decide_false by congruence. cbn [deref]. pstep.
    destruct Hc as [E Hc]. rewrite (IH fuel (Some p)); [|cbn; rewrite (get_node_run _ _ _ E); by pstep|done|done|lia].
    unfold before. rewrite last_cons. by destruct (last pre).
Qed.

Lemma chain_relink N pre p node post : chain N (pre ++ p :: node :: post) → NoDup (pre ++ p :: node :: post) →
  chain (<[p := MkNode (head post) p.1]> N) (pre ++ p :: post).
Proof.
  intros Hc Hn. induction pre as [|m pre IH]; cbn [app] in *.
  - destruct Hc as [_ [E Hc]]. apply NoDup_cons in Hn as [Hp _]. apply not_elem_of_cons in Hp as [_ Hp]. split; [by rewrite lookup_insert_eq|].
    eapply chain_ext; [|exact Hc]. intros n Hn'. rewrite lookup_insert_ne; [done|]. by intros ->.
  - destruct Hc as [E Hc]. apply NoDup_cons in Hn as [Hm Hn]. split; [|by apply IH].
    rewrite lookup_insert_ne by (intros ->; apply Hm; set_solver). rewrite E. do 2 f_equal. by destruct pre.
Qed.

Record unlinked y y' (o : Z) node : Prop := MkUnlinked {
  ul_ok : lists_ok y';
  ul_lists o' : waiters y' o' = filter (λ n, n ≠ node) (waiters y o');
  ul_flags : same_flags y y';
  ul_nodes n : n ∉ waiters y o ∨ n = node → sy_nodes y' !! n = sy_nodes y !! n;
  ul_dom : dom (sy_nodes y') = dom (sy_nodes y)
}.

Lemma filter_node node pre post : NoDup (pre ++ node :: post) → filter (λ n, n ≠ node) (pre ++ node :: post) = pre ++ post.
Proof.
  intros (_ & Hd & [Hp _]%NoDup_cons)%NoDup_app. rewrite filter_app, filter_cons_False by tauto.
  rewrite !keep_all; [done|..]; intros m Hm ->; [done|]. apply (Hd node); [done|left].
Qed.

Lemma filter_absent node l : node ∉ l → filter (λ n, n ≠ node) l = l.
Proof. intros Hn. apply keep_all. by intros m Hm ->. Qed.

(** The last node, when one in the middle is taken out. *)
Lemma last_without pre node post : NoDup (pre ++ node :: post) →
  (if bool_decide (last (pre ++ node :: post) = Some node) then last pre else last (pre ++ node :: post)) =
  last (pre ++ post).
Proof.
  intros Hn. destruct post as [|q post _] using rev_ind.
  - rewrite app_nil_r, last_snoc. by rewrite bool_decide_true.
  - rewrite app_comm_cons, !(app_assoc pre), !last_snoc, bool_decide_false; [done|]. intros [= ->].
    apply NoDup_app in Hn as (_ & _ & [Hn _]%NoDup_cons). apply Hn. set_solver.
Qed.

Lemma before_None l : before None l = last l.
Proof. unfold before. by destruct (last l). Qed.

(** One list is replaced; the nodes of the others are as they were. *)
Lemma lists_replace y y' o ob' l : lists_ok y → sy_objects y' = <[o := ob']> (sy_objects y) →
  is_Some (sy_objects y !! o) → list_ok (sy_nodes y') ob' l →
  (∀ o' n, o' ≠ o → n ∈ waiters y o' → sy_nodes y' !! n = sy_nodes y !! n) →
  (∀ o' n, o' ≠ o → n ∈ waiters y o' → n ∉ l) →
  lists_ok y' ∧ ∀ o', waiters y' o' = if decide (o' = o) then l else waiters y o'.
Proof.
  intros Hy Eo Hob Hl Hn Hd. apply (lists_intro y' (λ o', if decide (o' = o) then l else waiters y o')).
  - intros o' ob. rewrite Eo. case_decide as E; [subst; rewrite lookup_insert_eq; by intros [= <-]|].
    rewrite lookup_insert_ne by done. intros Ho'. destruct (ls_list _ Hy _ _ Ho') as [A1 A2 A3 A4]. constructor; try done.
    eapply chain_ext; [|exact A3]. intros n Hn'. by apply (Hn o').
  - intros o'. rewrite Eo. case_decide as E; [subst; by rewrite lookup_insert_eq|]. rewrite lookup_insert_ne by done.
    apply waiters_none.
  - intros o1 o2 n. repeat case_decide; subst; try done.
    + intros H1 H2. by destruct (Hd o2 n).
    + intros H1 H2. by destruct (Hd o1 n).
    + apply (ls_one _ Hy).
Qed.

Lemma UnlinkNode_run y o node : lists_ok y → node ∈ waiters y o → ∃ y', UnlinkNode o node y = Done true y' ∧ unlinked y y' o node.
Proof.
  intros Hy Hin. destruct (waiters_object _ _ _ Hin) as [ob Hob]. destruct (ls_list _ Hy o ob Hob) as [Eh Et Hc Hn].
  apply list_elem_of_split in Hin as (pre & post & E). rewrite E in Eh, Et, Hc, Hn.
  assert (node ∉ pre) as Hpre by (apply NoDup_app in Hn as (_ & Hd & _); intros ?; apply (Hd node); [done|left]).
  pose proof (chain_app _ pre _ Hc) as [Enode Hpost].
  assert (∀ o' n, o' ≠ o → n ∈ waiters y o' → n ∉ pre ++ post) as Hdis.
  { intros o' n Hne H1 H2. apply Hne, (ls_one _ Hy o' o n); [done|]. rewrite E. set_solver. }
  unfold UnlinkNode. rewrite (get_object_run _ _ ob), bind_Done_true by done.
  rewrite (unlink_loop_run _ y ob pre node post), bind_Done_true;
    [|cbn; by rewrite Eh|done|done|pose proof (chain_size _ _ Hc Hn) as Hl; rewrite length_app in Hl; lia].
  rewrite (get_node_run _ _ _ Enode), bind_Done_true. rewrite before_None, Et, last_without by done. cbn [node_next].
  assert (∀ y', (∀ o', waiters y' o' = if decide (o' = o) then pre ++ post else waiters y o') →
    ∀ o', waiters y' o' = filter (λ n, n ≠ node) (waiters y o')) as Hfil.
  { intros y' Hw o'. rewrite Hw. case_decide; [subst; by rewrite E, filter_node|]. rewrite filter_absent; [done|].
    intros Hi. apply H, (ls_one _ Hy o' o node); [done|]. rewrite E. set_solver. }
  destruct pre as [|p pre _] using rev_ind.
  - cbn [last]. eexists. split; [done|]. match goal with |- unlinked _ ?y' _ _ => match y' with put_object _ ?ob' _ =>
      edestruct (lists_replace y y' o ob' post Hy) as [Hok Hw]; [reflexivity|by eexists| | |exact Hdis|] end end; [|intros; reflexivity|].
    + cbn. apply NoDup_cons in Hn as [_ Hn]. by constructor.
    + constructor; try done; [by apply Hfil|]. constructor; [done|]. intros o'. cbn.
      destruct (decide (o' = o)) as [->|]; [by rewrite lookup_insert_eq, Hob|by rewrite lookup_insert_ne].
  - rewrite <- (app_assoc pre [p]) in Hc, Hn, Hdis, Hfil, Eh |- *. cbn [app] in Hc, Hn, Hdis, Hfil, Eh |- *.
    rewrite last_snoc. pose proof (chain_app _ pre _ Hc) as [Ep _]. rewrite (set_next_run _ _ _ _ Ep), bind_Done_true. cbn [node_thread].
    eexists. split; [done|]. match goal with |- unlinked _ ?y' _ _ => match y' with put_object _ ?ob' _ =>
      edestruct (lists_replace y y' o ob' (pre ++ p :: post) Hy) as [Hok Hw]; [reflexivity|by eexists| | |exact Hdis|] end end.
    + cbn. constructor; cbn; [rewrite Eh; by destruct pre|done|by eapply chain_relink|].
      eapply sublist_NoDup; [exact Hn|]. apply sublist_app; [done|]. do 2 constructor. done.
    + intros o' n Hne Hn'. cbn. rewrite lookup_insert_ne; [done|]. intros <-. apply (Hdis o' p); [done|done|]. set_solver.
    + constructor; try done; [by apply Hfil|..].
      * constructor; [done|]. intros o'. cbn.
        destruct (decide (o' = o)) as [->|]; [by rewrite lookup_insert_eq, Hob|by rewrite lookup_insert_ne].
      * intros n Hn'. cbn. apply lookup_insert_ne. intros <-. rewrite E in Hn'.
        destruct Hn' as [Hn'| ->]; [apply Hn'; set_solver|]. apply Hpre. set_solver.
      * cbn. rewrite dom_insert_lookup_L; [done|]. by eexists.
Qed.

(** ** Nodes that were taken out

    A thread that walks over a list while nodes are taken out of it follows the
    nodes [ds] that are in no list any more to the first that is. *)
Fixpoint leads N (cur : option NodeId) (ds : list NodeId) (next : option NodeId) : Prop :=
  match ds with
  | [] => cur = next
  | d :: ds => cur = Some d ∧ ∃ nx, N !! d = Some (MkNode nx d.1) ∧ leads N nx ds next
  end.

Record trail y (o : Z) (cur : option NodeId) (ds : list NodeId) : Prop := MkTrail {
  tr_leads : leads (sy_nodes y) cur ds (head (waiters y o));
  tr_out d o' : d ∈ ds → d ∉ waiters y o'
}.

Lemma leads_ext N N' cur ds next : (∀ d, d ∈ ds → N' !! d = N !! d) → leads N cur ds next → leads N' cur ds next.
Proof.
  revert cur. induction ds as [|d ds IH]; [done|]. intros cur E (-> & nx & Ed & Hl). split; [done|]. exists nx.
  rewrite E by left. split; [done|]. apply IH; [|done]. intros; apply E; by right.
Qed.

Lemma leads_snoc N cur ds n nx : leads N cur ds (Some n) → N !! n = Some (MkNode nx n.1) → leads N cur (ds ++ [n]) nx.
Proof.
  revert cur. induction ds as [|d ds IH]; intros cur; cbn.
  - intros -> En. split; [done|]. by exists nx.
  - intros (-> & nx' & Ed & Hl) En. split; [done|]. exists nx'. split; [done|by apply IH].
Qed.

Lemma unlinked_trail y y' o node o1 cur ds : lists_ok y → node ∈ waiters y o → unlinked y y' o node → trail y o1 cur ds →
  ∃ ds', trail y' o1 cur ds' ∧ (∀ d, d ∈ ds' → d ∈ ds ∨ d = node) ∧
    (length ds' + length (waiters y' o1) ≤ length ds + length (waiters y o1))%nat.
Proof.
  intros Hy Hin [_ Ew _ En _] [Hl Ho].
  assert (∀ d, d ∈ ds → sy_nodes y' !! d = sy_nodes y !! d) as Eds by (intros d Hd; apply En; left; by apply Ho).
  assert (∀ d o', d ∈ ds → d ∉ waiters y' o') as Ho' by (intros d o' Hd; rewrite Ew, list_elem_of_filter; intros [_ ?]; by eapply Ho).
  destruct (decide (head (waiters y o1) = Some node)) as [Eh|Eh].
  - destruct (waiters y o1) as [|m post] eqn:E1; [done|]. injection Eh as ->. exists (ds ++ [node]).
    assert (is_Some (sy_objects y !! o1)) as [ob Hob] by (apply (waiters_object y o1 node); rewrite E1; left).
    destruct (ls_list _ Hy _ _ Hob) as [_ _ Hc Hn]. rewrite E1 in Hc, Hn. destruct Hc as [Enode _]. apply NoDup_cons in Hn as [Hn _].
    assert (waiters y' o1 = post) as E1'.
    { rewrite Ew, E1, filter_cons_False by tauto. by apply filter_absent. }
    split; [constructor|split].
    + rewrite E1'. eapply leads_snoc; [eapply leads_ext; [exact Eds|exact Hl]|]. rewrite En by (by right). exact Enode.
    + intros d o' [Hd|Hd]%elem_of_app; [by apply Ho'|]. apply list_elem_of_singleton in Hd as ->. rewrite Ew, list_elem_of_filter. tauto.
    + intros d [Hd|Hd]%elem_of_app; [by left|right; by apply list_elem_of_singleton in Hd].
    + rewrite E1', length_app. cbn. lia.
  - exists ds. split; [constructor; [|done]|split; [by left|]].
    + assert (head (waiters y' o1) = head (waiters y o1)) as ->.
      { rewrite Ew. destruct (waiters y o1) as [|m post]; [done|]. rewrite filter_cons_True; [done|]. intros ->. by apply Eh. }
      by eapply leads_ext.
    + rewrite Ew. pose proof (length_filter (λ n, n ≠ node) (waiters y o1)). lia.
Qed.

(** ** All nodes of a wait *)
Definition nodes_from (x : Z) (i k : nat) n : Prop := n.1 = x ∧ (i ≤ n.2 < i + k)%nat.
#[export] Instance nodes_from_dec x i k n : Decision (nodes_from x i k n).
Proof. unfold nodes_from. apply _. Defined.

Record all_unlinked y y' (x : Z) (i k : nat) : Prop := MkAllUnlinked {
  au_ok : lists_ok y';
  au_lists o : waiters y' o = filter (λ n, ¬ nodes_from x i k n) (waiters y o);
  au_flags : same_flags y y';
  au_trail o cur ds : trail y o cur ds → ∃ ds', trail y' o cur ds' ∧ (∀ d, d ∈ ds' → d ∈ ds ∨ nodes_from x i k d) ∧
    (length ds' + length (waiters y' o) ≤ length ds + length (waiters y o))%nat
}.

Lemma unlink_all_run x objs : ∀ i y, lists_ok y → (∀ j o, objs !! j = Some o → (x, i + j)%nat ∈ waiters y o) →
  ∃ y', unlink_all x objs i y = Done true y' ∧ all_unlinked y y' x i (length objs).
Proof.
  induction objs as [|o objs IH]; intros i y Hy Hin; cbn [unlink_all].
  - exists y. split; [done|]. constructor; [done| |done|].
    + intros o. rewrite keep_all; [done|]. intros n _ [_ ?]. cbn in *. lia.
    + intros o cur ds Ht. exists ds. split; [done|]. split; [by left|lia].
  - assert ((x, i) ∈ waiters y o) as H0 by (rewrite <- (Nat.add_0_r i); by apply (Hin 0%nat)).
    destruct (UnlinkNode_run y o (x, i) Hy H0) as (y1 & -> & U). rewrite bind_Done_true. pose proof U as [Hy1 Ew1 F1 _ _].
    destruct (IH (S i) y1 Hy1) as (y' & E & [A1 A2 A3 A4]).
    { intros j o' Hj. rewrite Ew1, list_elem_of_filter. replace (S i + j)%nat with (i + S j)%nat by lia.
      split; [intros [=]; lia|]. by apply (Hin (S j)). }
    exists y'. split; [done|]. constructor; [done| |by transitivity y1|].
    + intros o'. rewrite A2, Ew1, list_filter_filter. apply list_filter_iff. intros [a b]. unfold nodes_from. cbn.
      split; [intros [Hn Hne] [-> Hb]; destruct (decide (b = i)) as [->|]; [done|apply Hn; split; [done|lia]]|].
      intros Hn. split; [intros [-> Hb]; apply Hn; split; [done|lia]|]. intros [= -> ->]. apply Hn. split; [done|lia].
    + intros o1 cur ds Ht. destruct (unlinked_trail y y1 o (x, i) o1 cur ds Hy H0 U Ht) as (ds1 & Ht1 & Hd1 & Hl1).
      destruct (A4 o1 cur ds1 Ht1) as (ds2 & Ht2 & Hd2 & Hl2). exists ds2. split; [done|]. split; [|lia].
      intros d [Hd|[? ?]]%Hd2; [|right; split; [done|cbn; lia]]. apply Hd1 in Hd as [?| ->]; [by left|right]. split; [done|cbn; lia].
Qed.

(** The index that a thread gets: that of the first object that is the one
    signaled. *)
Fixpoint sync_index_of (signaled_object : Z) (objs : list Z) (i : nat) : Z :=
  match objs with
  | [] => -1
  | o :: objs => if o =? signaled_object then Z.of_nat i else sync_index_of signaled_object objs (S i)
  end.

Lemma notify_loop_eq x sg objs : ∀ i index y,
  notify_loop x sg objs i index y =
  (y ← unlink_all x objs i y; mret (if index =? -1 then sync_index_of sg objs i else index, y)).
Proof.
  induction objs as [|o objs IH]; intros i index y; cbn [notify_loop unlink_all sync_index_of].
  - pstep. destruct (index =? -1) eqn:E; bool_prop; by subst.
  - rewrite bind_assoc. apply bind_ext. intros y1. rewrite IH. apply bind_ext. intros y2. do 2 f_equal.
    destruct (o =? sg); [|done]. cbn. destruct (index =? -1) eqn:Ei; cbn; [|by rewrite Ei].
    by rewrite (proj2 (Z.eqb_neq _ _)) by lia.
Qed.

(** ** LinkNode *)
Lemma put_node_lists y n d : lists_ok y → (∀ o, n ∉ waiters y o) →
  lists_ok (put_node n d y) ∧ ∀ o, waiters (put_node n d y) o = waiters y o.
Proof.
  intros Hy Hn. apply lists_intro; [|by intros; apply waiters_none|apply (ls_one _ Hy)].
  intros o ob Ho. destruct (ls_list _ Hy o ob Ho) as [A1 A2 A3 A4]. constructor; try done.
  eapply chain_ext; [|exact A3]. intros m Hm. cbn. rewrite lookup_insert_ne; [done|]. intros <-. by apply (Hn o).
Qed.

Lemma chain_snoc N l n : chain N l → NoDup l → n ∉ l → N !! n = Some (MkNode None n.1) →
  chain (match last l with Some t => <[t := MkNode (Some n) t.1]> N | None => N end) (l ++ [n]).
Proof.
  induction l as [|m l IH]; intros Hc Hn Hnl En; [by split|]. destruct Hc as [Em Hc]. apply NoDup_cons in Hn as [Hm Hn].
  apply not_elem_of_cons in Hnl as [Hne Hnl]. specialize (IH Hc Hn Hnl En). rewrite last_cons. destruct (last l) as [t|] eqn:El.
  - apply last_Some_elem_of in El as Ht. cbn [app chain]. split; [|exact IH]. rewrite lookup_insert_ne by (intros ->; done). rewrite Em.
    by destruct l.
  - apply last_None in El as ->. cbn. split; [by rewrite lookup_insert_eq|]. split; [|done]. by rewrite lookup_insert_ne by done.
Qed.

Lemma LinkNode_run y o n : lists_ok y → is_Some (sy_objects y !! o) → (∀ o', n ∉ waiters y o') →
  sy_nodes y !! n = Some (MkNode None n.1) → ∃ y', LinkNode o n y = Done true y' ∧ lists_ok y' ∧ same_flags y y' ∧
  ∀ o', waiters y' o' = waiters y o' ++ (if decide (o' = o) then [n] else []).
Proof.
  intros Hy [ob Hob] Hn En. destruct (ls_list _ Hy o ob Hob) as [Eh Et Hc Hnd].
  pose proof (chain_snoc _ _ _ Hc Hnd (Hn o) En) as Hc'.
  unfold LinkNode. rewrite (get_object_run _ _ ob), bind_Done_true by done.
  assert (∀ N hd, m_thread_list_tail ob = last (waiters y o) → N = (match last (waiters y o) with Some t => <[t := MkNode (Some n) t.1]> (sy_nodes y) | None => sy_nodes y end) →
    hd = head (waiters y o ++ [n]) →
    let y' := put_object o (set_list hd (Some n) ob) (MkSync (sy_objects y) N (sy_threads y)) in
    lists_ok y' ∧ same_flags y y' ∧ ∀ o', waiters y' o' = waiters y o' ++ (if decide (o' = o) then [n] else [])) as Hdone.
  { intros N hd _ EN Ehd y'.
    destruct (lists_replace y y' o (set_list hd (Some n) ob) (waiters y o ++ [n]) Hy) as [Hok Hw]; [done|by eexists| | | |].
    - constructor; cbn; [done|by rewrite last_snoc|by rewrite EN|]. apply NoDup_app. split; [done|]. split; [|apply NoDup_singleton].
      intros m Hm ->%list_elem_of_singleton. by apply (Hn o).
    - intros o' m Hne Hm. cbn. rewrite EN. destruct (last (waiters y o)) as [t|] eqn:El; [|done].
      rewrite lookup_insert_ne; [done|]. intros <-. apply Hne, (ls_one _ Hy o' o t); [done|]. by apply last_Some_elem_of.
    - intros o' m Hne Hm [Hi| ->%list_elem_of_singleton]%elem_of_app; [by apply Hne, (ls_one _ Hy o' o m)|]. by apply (Hn o').
    - split; [done|]. split; [|].
      + constructor; [done|]. intros o'. cbn. destruct (decide (o' = o)) as [->|]; [by rewrite lookup_insert_eq, Hob|by rewrite lookup_insert_ne].
      + intros o'. rewrite Hw. case_decide; [by subst|]. by rewrite app_nil_r. }
  rewrite Et. destruct (last (waiters y o)) as [t|] eqn:El.
  - destruct (chain_lookup _ _ t Hc) as (nx & E); [by apply last_Some_elem_of|]. rewrite (set_next_run _ _ _ _ E). pstep.
    eexists. split; [done|]. apply (Hdone _ _ Et); [done|]. rewrite Eh. by destruct (waiters y o).
  - apply last_None in El as E0. pstep. eexists. split; [done|]. destruct y as [a b c]. apply (Hdone _ _ Et); [done|]. by rewrite E0.
Qed.

(** The nodes of a wait for [objs] that are in the list of [o]. *)
Fixpoint my_nodes (x : Z) (objs : list Z) (i : nat) (o : Z) : list NodeId :=
  match objs with
  | [] => []
  | o' :: objs => (if decide (o = o') then [(x, i)] else []) ++ my_nodes x objs (S i) o
  end.

Lemma elem_of_my_nodes x objs : ∀ i o n, n ∈ my_nodes x objs i o ↔ n.1 = x ∧ (i ≤ n.2)%nat ∧ objs !! (n.2 - i)%nat = Some o.
Proof.
  induction objs as [|o' objs IH]; intros i o n; cbn [my_nodes].
  - rewrite elem_of_nil. split; [done|]. by intros (_ & _ & ?).
  - rewrite elem_of_app, IH. destruct n as [a b]. cbn. split.
    + intros [Hi|(-> & Hb & E)].
      * case_decide as Ho; [|by apply elem_of_nil in Hi]. apply list_elem_of_singleton in Hi as [= -> ->]. subst.
        rewrite Nat.sub_diag. done.
      * split; [done|]. split; [lia|]. by replace (b - i)%nat with (S (b - S i)) by lia.
    + intros (-> & Hb & E). destruct (decide (b = i)) as [->|].
      * rewrite Nat.sub_diag in E. injection E as ->. left. rewrite decide_True by done. by apply list_elem_of_singleton.
      * right. split; [done|]. split; [lia|]. by replace (b - i)%nat with (S (b - S i)) in E by lia.
Qed.

Lemma link_all_run x objs : ∀ i y, lists_ok y → (∀ o, o ∈ objs → is_Some (sy_objects y !! o)) →
  (∀ o n, n ∈ waiters y o → n.1 = x → (n.2 < i)%nat) → ∃ y', link_all x objs i y = Done true y' ∧ lists_ok y' ∧ same_flags y y' ∧
  ∀ o, waiters y' o = waiters y o ++ my_nodes x objs i o.
Proof.
  induction objs as [|o objs IH]; intros i y Hy Hobj Hold; cbn [link_all my_nodes].
  - exists y. split_and!; try done. intros o. by rewrite app_nil_r.
  - assert (∀ o', (x, i) ∉ waiters y o') as Hfresh by (intros o' Hi; specialize (Hold _ _ Hi eq_refl); cbn in Hold; lia).
    destruct (put_node_lists y (x, i) (MkNode None x) Hy Hfresh) as [Hy0 Ew0].
    destruct (LinkNode_run (put_node (x, i) (MkNode None x) y) o (x, i) Hy0) as (y1 & -> & Hy1 & F1 & Ew1).
    + apply Hobj. left.
    + intros o'. rewrite Ew0. apply Hfresh.
    + cbn. by rewrite lookup_insert_eq.
    + rewrite bind_Done_true. assert (same_flags y y1) as F by (transitivity (put_node (x, i) (MkNode None x) y); [by constructor|done]).
      destruct (IH (S i) y1 Hy1) as (y' & E & Hy' & F' & Ew').
      * intros o' Ho'. apply (same_flags_object y y1 o' F), Hobj. by right.
      * intros o' n. rewrite Ew1, Ew0, elem_of_app. intros [Hn|Hn] Hx; [specialize (Hold _ _ Hn Hx); lia|].
        case_decide; [|by apply elem_of_nil in Hn]. apply list_elem_of_singleton in Hn as ->. cbn. lia.
      * exists y'. split_and!; try done; [by transitivity y1|]. intros o'. rewrite Ew', Ew1, Ew0, <- app_assoc. done.
Qed.
