(* ===== verification/WaitingLemmas.v ===== *)
(** Lemmas about the hardware timer and about threads that wait. *)

From Stdlib Require Import Sorting.Sorted.
From S2P Require Import Prelude Common OrderedTree Thread PriorityQueue PriorityQueueTheorems PriorityQueueRefinement Scheduler SchedulerLemmas SchedulerOperations Locks LocksLemmas LocksOperations LocksTransfer LocksTheorems SynchronizationObject Waiting SynchronizationLemmas.

(** * The tasks of the hardware timer

    The tree of tasks is ordered by time, the next task is its first one, and the
    wake-up time is not after it. *)

Definition time_of (W : gmap Z ThreadWaits) (x : Z) : Z := default 0 (m_time <$> W !! x).
Definition time_lt (W : gmap Z ThreadWaits) (x y : Z) : bool := time_of W x <? time_of W y.

Record tasks_ok (T : KHardwareTimer) (W : gmap Z ThreadWaits) : Prop := MkTasksOk {
  tk_NoDup : NoDup (m_task_tree T);
  tk_sorted : sorted_by (time_lt W) (m_task_tree T);
  tk_task x : x ∈ m_task_tree T ↔ 0 < time_of W x;
  tk_next : m_next_task T = head (m_task_tree T);
  tk_range x : 0 ≤ time_of W x ≤ S64_MAX
}.

(** The interrupt comes in time for the next task. *)
Definition wakes_up (T : KHardwareTimer) (W : gmap Z ThreadWaits) : Prop :=
  ∀ x, m_next_task T = Some x → m_wakeup_time T ≤ time_of W x.

Lemma time_of_some W x w : W !! x = Some w → time_of W x = m_time w.
Proof. unfold time_of. by intros ->. Qed.

Lemma time_of_insert W x w y : time_of (<[x := w]> W) y = if decide (y = x) then m_time w else time_of W y.
Proof. unfold time_of. case_decide as Hd; [subst; by rewrite lookup_insert_eq|by rewrite lookup_insert_ne]. Qed.

(** Only the times count. *)
Lemma tasks_ext T W W' : (∀ x, time_of W' x = time_of W x) → tasks_ok T W → tasks_ok T W'.
Proof.
  intros Hw [H1 H2 H3 H4 H5]. constructor; try done.
  - revert H2. apply sorted_by_ext. intros y z _ _. unfold time_lt. by rewrite !Hw.
  - intros x. by rewrite H3, Hw.
  - intros x. by rewrite Hw.
Qed.

Lemma tasks_wakeup T W t : tasks_ok T W → tasks_ok (MkTimer (m_task_tree T) (m_next_task T) t) W.
Proof. by intros []. Qed.

Lemma time_lt_trans W x y z : time_lt W x y = true → time_lt W z y = false → time_lt W x z = true.
Proof. unfold time_lt. rewrite !Z.ltb_lt, Z.ltb_ge. lia. Qed.
Lemma time_lt_asym W x y : time_lt W x y = true → time_lt W y x = false.
Proof. unfold time_lt. rewrite Z.ltb_lt, Z.ltb_ge. lia. Qed.

Lemma tasks_first T W x y : tasks_ok T W → m_next_task T = Some x → y ∈ m_task_tree T → time_of W x ≤ time_of W y.
Proof.
  intros HT Hx Hy. rewrite (tk_next _ _ HT) in Hx. pose proof (tk_sorted _ _ HT) as Hs.
  destruct (m_task_tree T) as [|z r]; [done|]. cbn in Hx. injection Hx as ->.
  destruct (sorted_by_head _ x r y Hs Hy) as [->|Hlt]; [lia|]. unfold time_lt in Hlt. apply Z.ltb_ge in Hlt. lia.
Qed.

(** ** Removal *)
Section Remove.
Context (T : KHardwareTimer) (W : gmap Z ThreadWaits) (x : Z) (w : ThreadWaits) (l1 l2 : list Z).
Hypotheses (HT : tasks_ok T W) (Hw : W !! x = Some w) (Htree : m_task_tree T = l1 ++ x :: l2).

Definition removed_waits : gmap Z ThreadWaits := <[x := KTimerTask_SetTime 0 w]> W.
Definition removed_timer : KHardwareTimer :=
  MkTimer (l1 ++ l2) (if bool_decide (m_next_task T = Some x) then (l1 ++ l2) !! length l1 else m_next_task T)
    (m_wakeup_time T).

Lemma removed_facts : (x ∉ l1) ∧ (x ∉ l2) ∧ NoDup (l1 ++ l2).
Proof.
  pose proof (tk_NoDup _ _ HT) as Hnd. rewrite Htree in Hnd.
  apply NoDup_app in Hnd as (H1 & Hd & [Hz H2]%NoDup_cons). split_and!; [|done|].
  - intros Hin. apply (Hd x Hin). left.
  - apply NoDup_app. split_and!; [done| |done]. intros y Hy Hin. apply (Hd y Hy). by right.
Qed.

Lemma removed_ok : tasks_ok removed_timer removed_waits.
Proof.
  destruct removed_facts as (H1 & H2 & Hnd). destruct HT as [_ Hs Htask Hnext Hrange]. rewrite Htree in Hs, Htask, Hnext.
  assert (∀ y, time_of removed_waits y = if decide (y = x) then 0 else time_of W y) as Ht.
  { intros y. unfold removed_waits. by rewrite time_of_insert. }
  constructor; cbn [removed_timer m_task_tree m_next_task]; [done| | | |].
  - apply (sorted_by_ext (time_lt W)); [|by eapply sorted_by_remove]. intros y z Hy Hz. unfold time_lt.
    rewrite !Ht, !decide_False; [done|..]; intros ->; rewrite elem_of_app in *; tauto.
  - intros y. rewrite Ht. destruct (decide (y = x)) as [->|Hyx].
    + rewrite elem_of_app. split; [tauto|lia].
    + rewrite <- Htask, !elem_of_app, elem_of_cons. tauto.
  - rewrite Hnext. destruct l1 as [|z r]; cbn [app head].
    + rewrite bool_decide_true by done. by destruct l2.
    + rewrite bool_decide_false; [done|]. intros [= ->]. apply H1. left.
  - intros y. rewrite Ht. case_decide; [unfold S64_MAX; lia|apply Hrange].
Qed.

Lemma removed_wakes : wakes_up T W → wakes_up removed_timer removed_waits.
Proof.
  intros Hwk y Hy. destruct removed_facts as (H1 & H2 & _). rewrite (tk_next _ _ removed_ok) in Hy. cbn in Hy.
  destruct (head (m_task_tree T)) as [z|] eqn:Ez; [|rewrite Htree in Ez; by destruct l1].
  pose proof (tk_next _ _ HT) as Hn. rewrite Ez in Hn. specialize (Hwk z Hn). cbn [removed_timer m_wakeup_time].
  assert (y ∈ l1 ++ l2) as Hin by (destruct (l1 ++ l2); [done|]; injection Hy as ->; left).
  unfold removed_waits. rewrite time_of_insert, decide_False by (intros ->; rewrite elem_of_app in Hin; tauto).
  etrans; [exact Hwk|]. apply (tasks_first T W z y HT Hn). rewrite Htree, elem_of_app, elem_of_cons in *. tauto.
Qed.
End Remove.

(** ** Insertion *)
Section Insert.
Context (T : KHardwareTimer) (W : gmap Z ThreadWaits) (x : Z) (w : ThreadWaits) (t : Z).
Hypotheses (HT : tasks_ok T W) (Hw : W !! x = Some w) (Hfree : m_time w = 0) (Ht : 0 < t ≤ S64_MAX).

Definition added_waits : gmap Z ThreadWaits := <[x := KTimerTask_SetTime t w]> W.

Lemma added_time y : time_of added_waits y = if decide (y = x) then t else time_of W y.
Proof. unfold added_waits. by rewrite time_of_insert. Qed.

Lemma added_fresh : x ∉ m_task_tree T.
Proof. rewrite (tk_task _ _ HT), (time_of_some W x w Hw). lia. Qed.

Definition added_next : option Z :=
  match m_next_task T with
  | Some next => if time_of W next <=? t then Some next else Some x
  | None => Some x
  end.

Lemma added_ok : ∃ l1 l2 n, m_task_tree T = l1 ++ l2 ∧
  tree_insert (KTimerTask_Compare t) (x, t) ((λ y, (y, time_of added_waits y)) <$> m_task_tree T) =
    Done true ((λ y, (y, time_of added_waits y)) <$> (l1 ++ x :: l2), n) ∧
  tasks_ok (MkTimer (l1 ++ x :: l2) added_next (m_wakeup_time T)) added_waits.
Proof.
  pose proof added_fresh as Hx. destruct HT as [Hnd Hs Htask Hnext Hrange].
  assert (∀ y, y ∈ m_task_tree T → time_of added_waits y = time_of W y) as Hold.
  { intros y Hy. rewrite added_time, decide_False; [done|]. by intros ->. }
  assert (∀ y, y ∈ m_task_tree T → time_lt added_waits x y = (t <? time_of W y)) as Hlt.
  { intros y Hy. unfold time_lt. by rewrite (added_time x), decide_True, Hold. }
  destruct (insert_sorted (time_lt added_waits) (time_lt_trans _) (time_lt_asym _) (KTimerTask_Compare t)
    (λ y, (y, time_of added_waits y)) x (m_task_tree T)) as (l1 & l2 & n & E & Hins & Hs2 & Hb & Ha).
  { intros y. unfold KTimerTask_Compare, time_lt. cbn. by rewrite (added_time x), decide_True. }
  { revert Hs. apply sorted_by_ext. intros y z Hy Hz. unfold time_lt. by rewrite !Hold. }
  exists l1, l2, n. split; [done|].
  rewrite (added_time x), decide_True in Hins by done. split; [exact Hins|].
  constructor; cbn [m_task_tree m_next_task].
  - rewrite <- Permutation_middle, <- E. by constructor.
  - exact Hs2.
  - intros y. rewrite added_time. specialize (Htask y). rewrite E, elem_of_app in Htask.
    rewrite elem_of_app, elem_of_cons. destruct (decide (y = x)) as [->|Hyx]; [split; [lia|tauto]|tauto].
  - unfold added_next. rewrite Hnext, E. destruct l1 as [|z r]; cbn [app head].
    + destruct l2 as [|z r]; [done|]. cbn. specialize (Ha z eq_refl). rewrite Hlt in Ha by (rewrite E; left).
      apply Z.ltb_lt in Ha. by rewrite (proj2 (Z.leb_gt _ _)) by lia.
    + specialize (Hb z ltac:(left)). rewrite Hlt in Hb by (rewrite E; left). apply Z.ltb_ge in Hb.
      by rewrite (proj2 (Z.leb_le _ _)) by lia.
  - intros y. rewrite added_time. case_decide; [lia|apply Hrange].
Qed.
End Insert.

(** ** What the operations do *)
Section Runs.
Context {C H M : Type}.
Local Abbreviation wctx := (WaitContext C H M).

Lemma get_waits_run (s : wctx) x w : wc_waits s !! x = Some w → get_waits s x = Done true w.
Proof. intros Hw. unfold get_waits, deref. by rewrite Hw. Qed.

Lemma change_waits_run (s : wctx) x w f :
  wc_waits s !! x = Some w → change_waits x f s = Done true (set_waits (<[x := f w]> (wc_waits s)) s).
Proof. intros Hw. unfold change_waits. rewrite (get_waits_run _ _ w) by done. by pstep. Qed.

Lemma times_of_run (s : wctx) ys : (∀ y, y ∈ ys → is_Some (wc_waits s !! y)) →
  times_of s ys = Done true ((λ y, (y, time_of (wc_waits s) y)) <$> ys).
Proof.
  induction ys as [|y ys IH]; intros Hys; [done|]. cbn [times_of fmap list_fmap].
  destruct (Hys y ltac:(left)) as [w Hw]. rewrite (get_waits_run _ _ w) by done. pstep.
  rewrite IH by (intros; apply Hys; by right). pstep. by rewrite (time_of_some _ y w).
Qed.

Lemma task_waits T W x : tasks_ok T W → x ∈ m_task_tree T → is_Some (W !! x).
Proof.
  intros HT Hx%(tk_task _ _ HT). unfold time_of in Hx. destruct (W !! x); [by eexists|]. cbn in Hx. lia.
Qed.

(** What becomes of the timer when a thread's task is gone. *)
Record task_gone (T T' : KHardwareTimer) (x : Z) : Prop := MkTaskGone {
  tg_tree : m_task_tree T' = filter (λ y, y ≠ x) (m_task_tree T);
  tg_wakeup : m_wakeup_time T' = m_wakeup_time T
}.

Lemma filter_ne (x : Z) (l : list Z) : x ∉ l → filter (λ y, y ≠ x) l = l.
Proof.
  intros Hx. apply filter_id, Forall_forall. intros y Hy ->. done.
Qed.

Lemma filter_out (x : Z) (l1 l2 : list Z) : x ∉ l1 → x ∉ l2 → filter (λ y, y ≠ x) (l1 ++ x :: l2) = l1 ++ l2.
Proof. intros H1 H2. rewrite filter_app, filter_cons_False by tauto. by rewrite !filter_ne. Qed.

Lemma RemoveTaskFromTree_run (s : wctx) x w : tasks_ok (wc_timer s) (wc_waits s) → x ∈ m_task_tree (wc_timer s) →
  wc_waits s !! x = Some w → ∃ T', 
    RemoveTaskFromTree x s = Done true (set_timer T' (set_waits (removed_waits (wc_waits s) x w) s)) ∧
    tasks_ok T' (removed_waits (wc_waits s) x w) ∧ task_gone (wc_timer s) T' x ∧
    (wakes_up (wc_timer s) (wc_waits s) → wakes_up T' (removed_waits (wc_waits s) x w)).
Proof.
  intros HT Hx Hw. destruct (split_at x _ Hx (tk_NoDup _ _ HT)) as (l1 & l2 & E & H1 & H2 & _).
  exists (removed_timer (wc_timer s) x l1 l2). split; [|split; [by eapply removed_ok|split; [|by eapply removed_wakes]]].
  - unfold RemoveTaskFromTree. rewrite E, list_find_eq, tree_erase_at by done. pstep.
    rewrite (change_waits_run _ _ w) by done. by pstep.
  - constructor; [|done]. by rewrite E, filter_out.
Qed.

Lemma CancelTask_run (s : wctx) x w : tasks_ok (wc_timer s) (wc_waits s) → wc_waits s !! x = Some w → ∃ T',
    CancelTask x s = Done true (set_timer T' (set_waits (removed_waits (wc_waits s) x w) s)) ∧
    tasks_ok T' (removed_waits (wc_waits s) x w) ∧ task_gone (wc_timer s) T' x ∧
    (wakes_up (wc_timer s) (wc_waits s) → wakes_up T' (removed_waits (wc_waits s) x w)).
Proof.
  intros HT Hw. unfold CancelTask. rewrite (get_waits_run _ _ w) by done. pstep.
  pose proof (tk_task _ _ HT x) as Hx. pose proof (tk_range _ _ HT x) as Hr. rewrite (time_of_some _ x w) in Hx, Hr by done.
  destruct (0 <? m_time w) eqn:Et; bool_prop.
  - apply RemoveTaskFromTree_run; [done|by apply Hx|done].
  - exists (wc_timer s). replace (removed_waits (wc_waits s) x w) with (wc_waits s).
    + split; [by destruct s|]. split; [done|]. split; [|done]. constructor; [|done]. rewrite filter_ne; [done|]. rewrite Hx. lia.
    + unfold removed_waits. symmetry. apply insert_id. rewrite Hw. f_equal. destruct w as [q r te ti]. cbn in *.
      unfold KTimerTask_SetTime. cbn. f_equal. lia.
Qed.

(** The interrupt for the first task. *)
Lemma arm_run (s : wctx) x t : tasks_ok (wc_timer s) (wc_waits s) → m_next_task (wc_timer s) = Some x →
  time_of (wc_waits s) x = t → ∃ T',
    (if t <=? m_wakeup_time (wc_timer s) then mret (EnableInterrupt t s) else mret s) = Done true (set_timer T' s) ∧
    m_task_tree T' = m_task_tree (wc_timer s) ∧ tasks_ok T' (wc_waits s) ∧ wakes_up T' (wc_waits s).
Proof.
  intros HT Hn Ht. destruct (t <=? m_wakeup_time (wc_timer s)) eqn:Ele; bool_prop.
  - eexists. split; [done|]. split; [done|]. split; [by apply (tasks_wakeup (wc_timer s))|]. intros y Hy. cbn in *. simplify_eq. lia.
  - exists (wc_timer s). split; [by destruct s|]. do 2 (split; [done|]). intros y Hy. simplify_eq. lia.
Qed.

Lemma RegisterAbsoluteTask_run (s : wctx) x w t : tasks_ok (wc_timer s) (wc_waits s) → wc_waits s !! x = Some w →
  m_time w = 0 → 0 < t ≤ S64_MAX → ∃ l1 l2 T',
    RegisterAbsoluteTask x t s = Done true (set_timer T' (set_waits (added_waits (wc_waits s) x w t) s)) ∧
    m_task_tree (wc_timer s) = l1 ++ l2 ∧ m_task_tree T' = l1 ++ x :: l2 ∧
    tasks_ok T' (added_waits (wc_waits s) x w t) ∧
    (wakes_up (wc_timer s) (wc_waits s) → wakes_up T' (added_waits (wc_waits s) x w t)).
Proof.
  intros HT Hw H0 Ht. destruct (added_ok (wc_timer s) (wc_waits s) x w t HT Hw H0 Ht) as (l1 & l2 & n & E & Eins & Hok).
  pose proof (added_fresh _ _ _ _ HT Hw H0) as Hfresh. exists l1, l2.
  unfold RegisterAbsoluteTask, RegisterAbsoluteTaskImpl. rewrite (proj2 (Z.ltb_lt _ _)) by lia.
  change (ASSERT true) with (Done true tt). pstep. rewrite (change_waits_run _ _ w), bind_Done_true by done.
  cbn [set_waits wc_timer wc_waits]. fold (added_waits (wc_waits s) x w t).
  rewrite times_of_run, bind_Done_true.
  2:{ intros y Hy. cbn. unfold added_waits. destruct (decide (y = x)) as [->|]; [rewrite lookup_insert_eq; by eexists|].
      rewrite lookup_insert_ne by done. by apply (task_waits _ _ _ HT). }
  cbn [set_waits wc_waits]. rewrite Eins, bind_Done_true. rewrite <- list_fmap_compose, list_fmap_id.
  cbn [set_timer set_waits wc_timer wc_waits]. pose proof (tk_next _ _ Hok) as Hn. unfold added_next in Hok.
  assert (∀ y, y ∈ m_task_tree (wc_timer s) → time_of (added_waits (wc_waits s) x w t) y = time_of (wc_waits s) y) as Hold.
  { intros y Hy. rewrite added_time, decide_False; [done|]. by intros ->. }
  destruct (m_next_task (wc_timer s)) as [next|] eqn:Enext; unfold wakes_up; rewrite ?Enext.
  - assert (next ∈ m_task_tree (wc_timer s)) as Hin.
    { pose proof (tk_next _ _ HT) as E'. rewrite Enext in E'. destruct (m_task_tree _); [done|]. injection E' as ->. left. }
    destruct (task_waits _ _ _ HT Hin) as [wn Hwn]. rewrite (get_waits_run _ _ wn), bind_Done_true.
    2:{ cbn. unfold added_waits. rewrite lookup_insert_ne; [done|]. by intros ->. }
    pstep. rewrite (time_of_some _ next wn Hwn) in Hok. destruct (m_time wn <=? t) eqn:Ele; pstep.
    + eexists. split; [done|]. split; [done|]. split; [done|]. split; [done|]. cbn [m_next_task m_wakeup_time].
      intros Hwk y [= <-]. rewrite Hold by done. by apply Hwk.
    + apply (arm_run (set_timer _ (set_waits _ s)) x t) in Hok as (T' & E' & Et' & Hok' & Hwk');
        [|done|etrans; [apply added_time|by rewrite decide_True]]. exists T'. rewrite Et'. split; [exact E'|done].
  - pstep. apply (arm_run (set_timer _ (set_waits _ s)) x t) in Hok as (T' & E' & Et' & Hok' & Hwk');
      [|done|etrans; [apply added_time|by rewrite decide_True]]. exists T'. rewrite Et'. split; [exact E'|done].
Qed.
End Runs.

(** * The invariant of the waits

    A thread is waiting exactly when it has a wait queue, the queue says what it
    waits for, and only a thread whose queue knows the timer has a task. *)

(** The trees of address arbiters; the others are those of condition variables. *)
Class TreeKinds : Type := is_arbiter : Z → bool.

Section Lemmas.
Context {C H M : Type} `{Clock C} `{ThreadHandles H} `{GuestMemory M} `{TreeKinds}.
Local Abbreviation wctx := (WaitContext C H M).
Local Abbreviation lctx := (LockContext C).

(** ** What is seen of a thread *)
Definition state_of (l : lctx) (x : Z) : Z :=
  default ThreadState_Initialized (KThread_GetState <$> ctx_threads (lc_sched l) !! x).
Definition tree_of (l : lctx) (x : Z) : option Z := lc_locks l !! x ≫= m_condvar_tree.
Definition queue_of (W : gmap Z ThreadWaits) (x : Z) : option KThreadQueue := W !! x ≫= m_wait_queue.

(** What a thread waits for, by the queue it waits on. *)
Definition kind_ok (queue : option KThreadQueue) (owner tree : option Z) : Prop :=
  match queue_kind <$> queue with
  | None | Some ThreadQueueImplForKThreadSleep | Some (ThreadQueueImplForKSynchronizationObjectWait _) =>
      owner = None ∧ tree = None
  | Some ThreadQueueImplForKConditionVariableWaitForAddress => owner ≠ None ∧ tree = None
  | Some (ThreadQueueImplForKConditionVariableWaitConditionVariable c) =>
      is_arbiter c = false ∧ (owner = None ∧ tree = Some c ∨ owner ≠ None ∧ tree = None)
  | Some (ThreadQueueImplForKAddressArbiter c) => is_arbiter c = true ∧ owner = None ∧ tree = Some c
  end.

(** The objects a thread waits for, and its nodes in their lists. *)
Definition objects_of (queue : option KThreadQueue) : list Z :=
  match queue_kind <$> queue with
  | Some (ThreadQueueImplForKSynchronizationObjectWait objects) => objects
  | _ => []
  end.
Definition nodes_ok (y : SyncState) (x : Z) (queue : option KThreadQueue) : Prop :=
  ∀ o i, (x, i) ∈ waiters y o ↔ objects_of queue !! i = Some o.

Record waiter_ok (s : wctx) (x : Z) : Prop := MkWaiterOk {
  th_state : state_of (wc_locks s) x = ThreadState_Waiting ↔ queue_of (wc_waits s) x ≠ None;
  th_kind : kind_ok (queue_of (wc_waits s) x) (owner_of (wc_locks s) x) (tree_of (wc_locks s) x);
  th_timer : 0 < time_of (wc_waits s) x →
    ∃ q, queue_of (wc_waits s) x = Some q ∧ m_hardware_timer q = true;
  th_nodes : nodes_ok (wc_sync s) x (queue_of (wc_waits s) x)
}.

Record wait_base (s : wctx) : Prop := MkWaitBase {
  wb_locks : lk_inv (wc_locks s);
  wb_dom x : is_Some (wc_waits s !! x) ↔ is_Some (lc_locks (wc_locks s) !! x);
  wb_tasks : tasks_ok (wc_timer s) (wc_waits s);
  wb_lists : lists_ok (wc_sync s);
  wb_sync x : is_Some (wc_waits s !! x) → is_Some (sy_threads (wc_sync s) !! x)
}.

Record wait_ok (s : wctx) : Prop := MkWaitOk {
  wo_base : wait_base s;
  wo_thread x : waiter_ok s x
}.

Definition wait_inv (s : wctx) : Prop := wait_ok s ∧ wakes_up (wc_timer s) (wc_waits s).

(** A step that keeps the threads and the lists of objects. *)
Lemma base_step_to (s s' : wctx) : wait_base s → lk_inv (wc_locks s') →
  (∀ y, is_Some (lc_locks (wc_locks s') !! y) ↔ is_Some (lc_locks (wc_locks s) !! y)) →
  (∀ y, is_Some (wc_waits s' !! y) ↔ is_Some (wc_waits s !! y)) →
  tasks_ok (wc_timer s') (wc_waits s') → wc_sync s' = wc_sync s → wait_base s'.
Proof.
  intros [A1 A2 A3 A4 A5] HI Hl Hw HT E. constructor; [done| |done|by rewrite E|].
  - intros x. by rewrite Hl, Hw.
  - intros x. rewrite E, Hw. apply A5.
Qed.

Lemma base_waits (s : wctx) x : wait_base s → is_Some (lc_locks (wc_locks s) !! x) → ∃ w, wc_waits s !! x = Some w.
Proof. intros HB Hx. by apply (wb_dom _ HB). Qed.

Lemma base_thread (s : wctx) x : wait_base s → is_Some (wc_waits s !! x) →
  ∃ k t, lc_locks (wc_locks s) !! x = Some k ∧ ctx_threads (lc_sched (wc_locks s)) !! x = Some t.
Proof.
  intros HB Hx%(wb_dom _ HB). pose proof (wb_locks _ HB) as ((Hwf & _) & _).
  destruct Hx as [k Hk]. destruct (proj1 (wf_dom _ Hwf x) ltac:(by eexists)) as [t Ht]. by exists k, t.
Qed.

Lemma queue_of_insert W x w y : queue_of (<[x := w]> W) y = if decide (y = x) then m_wait_queue w else queue_of W y.
Proof. unfold queue_of. case_decide as Hd; [subst; by rewrite lookup_insert_eq|by rewrite lookup_insert_ne]. Qed.

Lemma dom_insert_same (W : gmap Z ThreadWaits) x w : is_Some (W !! x) → ∀ y, is_Some (<[x := w]> W !! y) ↔ is_Some (W !! y).
Proof.
  intros Hx y. destruct (decide (y = x)) as [->|]; [rewrite lookup_insert_eq|by rewrite lookup_insert_ne].
  split; [done|by eexists].
Qed.

(** ** SetState *)
Lemma SetState_wait_run (s : wctx) x state : wait_base s → is_Some (wc_waits s !! x) → Z.land state ThreadState_Mask = state → ∃ c,
  SetState x state s = Done true (set_lock_state (set_sched c (wc_locks s)) s) ∧ lk_inv (set_sched c (wc_locks s)) ∧
  (∀ y, state_of (set_sched c (wc_locks s)) y = if decide (y = x) then state else state_of (wc_locks s) y) ∧
  same_view (lc_sched (wc_locks s)) c ∧ ctx_current c = ctx_current (lc_sched (wc_locks s)).
Proof.
  intros HB Hx Hst. destruct (base_thread s x HB Hx) as (k & t & Hk & Ht).
  destruct (set_state_run (wc_locks s) x t state (wb_locks _ HB) Ht) as (c & E & HI & Ec & Hcur). exists c.
  split_and!; [|done| | |done].
  - unfold SetState, on_locks. rewrite E. by pstep.
  - intros y. unfold state_of. cbn [set_sched lc_sched]. rewrite Ec. case_decide as Hd.
    + subst. rewrite lookup_insert_eq. cbn [fmap option_fmap option_map default from_option id]. by rewrite new_state_get.
    + by rewrite lookup_insert_ne.
  - intros y. rewrite Ec. destruct (decide (y = x)) as [->|]; [by rewrite lookup_insert_eq, Ht|by rewrite lookup_insert_ne].
Qed.

(** ** The end of a wait *)
Record woken (s s' : wctx) (x r : Z) : Prop := MkWoken {
  wk_waits : ∃ w, wc_waits s !! x = Some w ∧
    wc_waits s' = <[x := MkWaits None r (m_termination_requested w) 0]> (wc_waits s);
  wk_sched : ∃ c, wc_locks s' = set_sched c (wc_locks s) ∧ same_view (lc_sched (wc_locks s)) c ∧
    ctx_current c = ctx_current (lc_sched (wc_locks s));
  wk_state y : state_of (wc_locks s') y = if decide (y = x) then ThreadState_Runnable else state_of (wc_locks s) y;
  wk_timer : task_gone (wc_timer s) (wc_timer s') x;
  wk_handles : wc_handles s' = wc_handles s;
  wk_memory : wc_memory s' = wc_memory s;
  wk_sync : wc_sync s' = wc_sync s
}.

Lemma time_gone T W x w w' : tasks_ok T W → W !! x = Some w → m_time w' = m_time w → tasks_ok T (<[x := w']> W).
Proof.
  intros HT Hw E. apply (tasks_ext T W); [|done]. intros y. rewrite time_of_insert. case_decide; [subst|done].
  by rewrite (time_of_some W x w), E.
Qed.

Lemma end_of_wait_run (s : wctx) x r (b : bool) : wait_base s → is_Some (wc_waits s !! x) →
  (b = false → time_of (wc_waits s) x = 0) → ∃ s',
  end_of_wait x r b s = Done true s' ∧ wait_base s' ∧ woken s s' x r ∧
  (wakes_up (wc_timer s) (wc_waits s) → wakes_up (wc_timer s') (wc_waits s')).
Proof.
  intros HB Hx Hb. destruct Hx as [w Hw].
  unfold end_of_wait. rewrite (change_waits_run _ x w), bind_Done_true by done. set (s1 := set_waits _ s).
  assert (tasks_ok (wc_timer s1) (wc_waits s1)) as HT1 by (by apply (time_gone _ _ x w); [apply HB| |]).
  assert (∀ y, is_Some (wc_waits s1 !! y) ↔ is_Some (wc_waits s !! y)) as Hd1 by (apply dom_insert_same; by eexists).
  assert (wait_base s1) as HB1.
  { apply (base_step_to s); [done|apply HB|done|done|done|done]. }
  destruct (SetState_wait_run s1 x ThreadState_Runnable) as (c & E & HI & Hst & Hv & Hcur); [done|apply Hd1; by eexists|done|].
  rewrite E, bind_Done_true. set (s2 := set_lock_state _ s1).
  rewrite (change_waits_run s2 x (SetWaitResult r w)), bind_Done_true by (cbn; by rewrite lookup_insert_eq).
  set (s3 := set_waits _ s2). set (w3 := ClearWaitQueue (SetWaitResult r w)).
  assert (wc_waits s3 !! x = Some w3) as Hw3 by (cbn; by rewrite lookup_insert_eq).
  assert (tasks_ok (wc_timer s3) (wc_waits s3)) as HT3.
  { apply (time_gone _ _ x (SetWaitResult r w)); [exact HT1| |done]. cbn. by rewrite lookup_insert_eq. }
  assert (wc_waits s3 = <[x := w3]> (wc_waits s)) as E3 by (cbn; by rewrite insert_insert_eq).
  assert (∃ T', (if b then CancelTask x s3 else mret s3) = Done true (set_timer T' (set_waits (removed_waits (wc_waits s3) x w3) s3)) ∧
    tasks_ok T' (removed_waits (wc_waits s3) x w3) ∧ task_gone (wc_timer s3) T' x ∧
    (wakes_up (wc_timer s3) (wc_waits s3) → wakes_up T' (removed_waits (wc_waits s3) x w3))) as (T' & -> & HT' & Hg & Hwk).
  { destruct b; [by apply CancelTask_run|]. specialize (Hb eq_refl). rewrite (time_of_some _ x w Hw) in Hb.
    exists (wc_timer s3). assert (removed_waits (wc_waits s3) x w3 = wc_waits s3) as ->.
    { apply insert_id. rewrite Hw3. f_equal. cbn. unfold KTimerTask_SetTime. cbn. by rewrite <- Hb. }
    do 2 (split; [done|]). split; [|done]. constructor; [|done]. cbn. rewrite filter_ne; [done|].
    rewrite (tk_task _ _ (wb_tasks _ HB)), (time_of_some _ x w Hw). lia. }
  eexists. split; [done|].
  assert (removed_waits (wc_waits s3) x w3 = <[x := MkWaits None r (m_termination_requested w) 0]> (wc_waits s)) as EW.
  { unfold removed_waits. by rewrite E3, insert_insert_eq. }
  assert (∀ y, is_Some (removed_waits (wc_waits s3) x w3 !! y) ↔ is_Some (wc_waits s !! y)) as Hd
    by (rewrite EW; apply dom_insert_same; by eexists).
  split; [|split].
  - apply (base_step_to s); [done|exact HI|done|exact Hd|exact HT'|done].
  - constructor; try done; [by exists w|]. by exists c.
  - intros Hwk0. apply Hwk. intros y Hy. rewrite E3, time_of_insert. specialize (Hwk0 y Hy).
    case_decide; [subst y|done]. by rewrite (time_of_some _ x w Hw) in Hwk0.
Qed.

(** A thread woken no longer waits; the others are as they were. *)
Lemma woken_other (s s' : wctx) x r y : woken s s' x r → y ≠ x → waiter_ok s y → waiter_ok s' y.
Proof.
  intros [(w & Hw & EW) (c & EL & _) Hst _ _ _ Es] Hyx [A1 A2 A3 A4]. constructor.
  - by rewrite Hst, EW, queue_of_insert, !decide_False.
  - rewrite EL, EW, queue_of_insert, decide_False by done. exact A2.
  - rewrite EW, queue_of_insert, time_of_insert, !decide_False by done. exact A3.
  - rewrite Es, EW, queue_of_insert, decide_False by done. exact A4.
Qed.

Lemma woken_self (s s' : wctx) x r : woken s s' x r → owner_of (wc_locks s) x = None → tree_of (wc_locks s) x = None →
  nodes_ok (wc_sync s) x None → waiter_ok s' x.
Proof.
  intros [(w & Hw & EW) (c & EL & _) Hst _ _ _ Es] Ho Ht Hnd. constructor.
  - rewrite Hst, EW, queue_of_insert, !decide_True by done. cbn. split; [done|by intros []].
  - rewrite EL, EW, queue_of_insert, decide_True by done. done.
  - rewrite EW, time_of_insert, decide_True by done. cbn. lia.
  - by rewrite Es, EW, queue_of_insert, decide_True.
Qed.

(** ** What a thread waits for is taken back *)
Record let_go (s s' : wctx) (x : Z) : Prop := MkLetGo {
  lg_owner y : owner_of (wc_locks s') y = if decide (y = x) then None else owner_of (wc_locks s) y;
  lg_tree y : tree_of (wc_locks s') y = if decide (y = x) then None else tree_of (wc_locks s) y;
  lg_state y : state_of (wc_locks s') y = state_of (wc_locks s) y;
  lg_rest : s' = set_lock_state (wc_locks s') s;
  lg_current : current_thread s' = current_thread s
}.

Lemma unmoved_state (l l' : lctx) y : unmoved l l' → state_of l' y = state_of l y.
Proof.
  intros Hu. pose proof (um_threads _ _ Hu y) as E. unfold state_of. f_equal.
  by apply (fmap_via still_thread KThread_GetState).
Qed.

Lemma unmoved_tree (l l' : lctx) y : unmoved l l' → tree_of l' y = tree_of l y.
Proof.
  intros Hu. pose proof (um_locks _ _ Hu y) as E. unfold tree_of.
  destruct (lc_locks l' !! y) as [k'|], (lc_locks l !! y) as [k|]; cbn in *; try done. unfold still_locks in E. congruence.
Qed.

Lemma locks_base (s : wctx) l : wait_base s → lk_inv l → (∀ y, is_Some (lc_locks l !! y) ↔ is_Some (lc_locks (wc_locks s) !! y)) →
  wait_base (set_lock_state l s).
Proof. intros HB HI Hd. by apply (base_step_to s); [|done|done|done|apply HB|]. Qed.

Lemma on_locks_run (s : wctx) f l : f (wc_locks s) = Done true l → on_locks f s = Done true (set_lock_state l s).
Proof. intros E. unfold on_locks. rewrite E. by pstep. Qed.

Lemma tree_of_some (l : lctx) x k : lc_locks l !! x = Some k → tree_of l x = m_condvar_tree k.
Proof. intros Hk. unfold tree_of. by rewrite Hk. Qed.

Lemma RemoveWaiter_let_go (s : wctx) x owner : wait_base s → owner_of (wc_locks s) x = Some owner → tree_of (wc_locks s) x = None →
  ∃ s', on_locks (RemoveWaiter owner x) s = Done true s' ∧ wait_base s' ∧ let_go s s' x.
Proof.
  intros HB Ho Ht. destruct (RemoveWaiter_run (wc_locks s) owner x (wb_locks _ HB) Ho) as (l & E & HI & Hown & Hb & Hu).
  eexists. split; [by apply on_locks_run|]. split; [apply locks_base; [done|done|]; intros y; by apply unmoved_dom|].
  constructor; cbn [set_lock_state wc_locks]; try done.
  - intros y. rewrite (unmoved_tree _ _ y Hu). case_decide; [by subst|done].
  - intros y. by apply unmoved_state.
  - apply (um_current _ _ Hu).
Qed.

(** The state after the thread has left the tree [c]. *)
Definition left_tree (l : lctx) (x : Z) (k : ThreadLocks) (c : Z) (tree : list Z) : lctx :=
  retree_state l x (set_condvar_tree None k) (<[c := tree]> (lc_cv_trees l)).

Lemma leave_facts (s : wctx) x k c : wait_base s → lc_locks (wc_locks s) !! x = Some k → m_condvar_tree k = Some c →
  ∃ l1 l2, lc_cv_trees (wc_locks s) !! c = Some (l1 ++ x :: l2) ∧ (x ∉ l1) ∧ (x ∉ l2) ∧
    wait_base (set_lock_state (left_tree (wc_locks s) x k c (l1 ++ l2)) s) ∧
    let_go s (set_lock_state (left_tree (wc_locks s) x k c (l1 ++ l2)) s) x.
Proof.
  intros HB Hk Hc. pose proof (wb_locks _ HB) as HI. pose proof HI as ((Hwf & _) & _).
  destruct (wf_cvin _ Hwf x k c Hk Hc) as (tree & Htree & _).
  destruct (leave_inv (wc_locks s) x k (set_condvar_tree None k) c tree) as (l1 & l2 & -> & N1 & N2 & HI'); try done.
  exists l1, l2. split_and!; try done.
  - apply locks_base; [done|done|]. intros y. by apply (retree_dom _ x k).
  - constructor; cbn [set_lock_state wc_locks]; try done.
    + intros y. unfold left_tree. rewrite (retree_owner (wc_locks s) x k) by done. case_decide; [subst|done].
      by apply (in_tree_free _ x k c Hwf).
    + intros y. unfold tree_of. cbn. case_decide; [subst; by rewrite lookup_insert_eq|by rewrite lookup_insert_ne].
Qed.

Lemma erase_from_cv_run (s : wctx) x c l1 l2 : lc_cv_trees (wc_locks s) !! c = Some (l1 ++ x :: l2) → x ∉ l1 →
  erase_from_cv c x s = Done true (set_lock_state (set_cv_trees (<[c := l1 ++ l2]> (lc_cv_trees (wc_locks s))) (wc_locks s)) s).
Proof.
  intros Hc Hx. unfold erase_from_cv. apply on_locks_run. unfold deref. rewrite Hc. pstep.
  rewrite erase_from_run by done. by pstep.
Qed.

(** The end of CancelWait for a thread that may be in the tree. *)
Lemma leave_tree_run (s : wctx) x k c : wait_base s → lc_locks (wc_locks s) !! x = Some k →
  m_condvar_tree k = Some c ∨ m_condvar_tree k = None ∧ owner_of (wc_locks s) x = None → ∃ s',
  (waiting ← IsWaitingForConditionVariable s x;
   if waiting : bool then
     s ← erase_from_cv c x s;
     ClearConditionVariable x s
   else mret s) = Done true s' ∧ wait_base s' ∧ let_go s s' x.
Proof.
  intros HB Hk Hc. unfold IsWaitingForConditionVariable. rewrite (get_locks_run _ _ k) by done. pstep.
  destruct Hc as [Hc|[Hc Ho]]; rewrite Hc.
  - destruct (leave_facts s x k c HB Hk Hc) as (l1 & l2 & Htree & N1 & N2 & HB' & Hg). eexists. split; [|by split].
    rewrite bool_decide_true by done. rewrite (erase_from_cv_run s x c l1 l2), bind_Done_true by done.
    unfold ClearConditionVariable. set (s1 := set_lock_state _ s). etrans; [apply (on_locks_run s1); by apply (change_locks_run _ x k)|done].
  - exists s. split; [done|]. split; [done|]. constructor; try done; [| |by destruct s].
    + intros y. case_decide; [by subst|done].
    + intros y. case_decide; [subst; by rewrite (tree_of_some _ _ k)|done].
Qed.

Lemma let_go_trans (s s1 s2 : wctx) x : let_go s s1 x → let_go s1 s2 x → let_go s s2 x.
Proof.
  intros [A1 A2 A3 A4 A5] [B1 B2 B3 B4 B5]. constructor.
  - intros y. rewrite B1, A1. by case_decide.
  - intros y. rewrite B2, A2. by case_decide.
  - intros y. by rewrite B3.
  - rewrite B4, A4. done.
  - congruence.
Qed.

Lemma let_go_id (s : wctx) x : owner_of (wc_locks s) x = None → tree_of (wc_locks s) x = None → let_go s s x.
Proof. intros Ho Ht. constructor; try done; [| |by destruct s]; intros y; case_decide; by subst. Qed.

Lemma cancel_kind_run (s : wctx) x q : wait_base s → queue_of (wc_waits s) x = Some q → 
  kind_ok (Some q) (owner_of (wc_locks s) x) (tree_of (wc_locks s) x) →
  (∀ objs, queue_kind q ≠ ThreadQueueImplForKSynchronizationObjectWait objs) →
  ∃ s', cancel_kind (queue_kind q) x s = Done true s' ∧ wait_base s' ∧ let_go s s' x.
Proof.
  intros HB Hq Hk Hns. assert (∃ w, wc_waits s !! x = Some w) as [w Hw].
  { unfold queue_of in Hq. destruct (wc_waits s !! x) as [w|]; [by eexists|done]. }
  destruct (base_thread s x HB ltac:(by eexists)) as (k & t & Hkx & Ht).
  pose proof (GetLockOwner_run (wc_locks s) x k (proj1 (proj1 (wb_locks _ HB))) Hkx) as Eo.
  pose proof (tree_of_some _ _ _ Hkx) as Etr.
  unfold kind_ok in Hk. cbn in Hk, Hns. destruct (queue_kind q) as [|c|c| |objs]; cbn [cancel_kind]; [..|by destruct (Hns objs)].
  - rewrite Eo, bind_Done_true. destruct Hk as [Ho Htr].
    destruct (owner_of (wc_locks s) x) as [o|] eqn:Eow; [|by destruct Ho]. cbn [deref]. pstep. by apply RemoveWaiter_let_go.
  - rewrite Eo, bind_Done_true. destruct Hk as [_ [[Ho Htr]|[Ho Htr]]].
    + rewrite Ho. pstep. apply (leave_tree_run s x k c HB Hkx). left. congruence.
    + destruct (owner_of (wc_locks s) x) as [o|] eqn:Eow; [|by destruct Ho].
      destruct (RemoveWaiter_let_go s x o HB Eow Htr) as (s1 & E & HB1 & Hg). rewrite E, bind_Done_true.
      destruct (wb_dom _ HB1 x) as [Hd _]. rewrite (lg_rest _ _ _ Hg) in Hd at 1. destruct Hd as [k1 Hk1]; [by eexists|].
      destruct (leave_tree_run s1 x k1 c HB1 Hk1) as (s2 & E2 & HB2 & Hg2).
      { right. rewrite <- (tree_of_some _ _ _ Hk1), (lg_tree _ _ _ Hg), (lg_owner _ _ _ Hg), !decide_True by done. done. }
      exists s2. split; [done|]. split; [done|]. by apply (let_go_trans s s1).
  - apply (leave_tree_run s x k c HB Hkx). left. destruct Hk as (_ & _ & Htr). congruence.
  - exists s. split; [done|]. split; [done|]. destruct Hk as [Ho Htr]. by apply let_go_id.
Qed.
End Lemmas.

(** * How waits begin and end *)

Section Operations.
Context {C H M : Type} `{Clock C} `{ThreadHandles H} `{GuestMemory M} `{TreeKinds}.
Local Abbreviation wctx := (WaitContext C H M).
Local Abbreviation lctx := (LockContext C).

(** ** Threads that stop waiting *)

(** The threads [xs] are in no list of a synchronization object any more; the
    lists keep the order of the others. *)
Record sync_left (xs : list Z) (y y' : SyncState) : Prop := MkSyncLeft {
  sl_lists o : waiters y' o = filter (λ n, n.1 ∉ xs) (waiters y o);
  sl_threads z : z ∉ xs → sy_threads y' !! z = sy_threads y !! z;
  sl_objects o : (λ ob, (m_is_signaled ob, m_readable_event_destroyed ob)) <$> sy_objects y' !! o =
    (λ ob, (m_is_signaled ob, m_readable_event_destroyed ob)) <$> sy_objects y !! o
}.

Lemma sync_left_id xs (y : SyncState) : (∀ x, x ∈ xs → nodes_ok y x None) → sync_left xs y y.
Proof.
  intros Hx. constructor; [|done|done]. intros o. rewrite keep_all; [done|]. intros [x i] Hn Hin. cbn in Hin.
  apply (Hx x Hin o i) in Hn. done.
Qed.

Lemma sync_left_trans xs ys (y y1 y2 : SyncState) : sync_left xs y y1 → sync_left ys y1 y2 → sync_left (xs ++ ys) y y2.
Proof.
  intros [A1 A2 A3] [B1 B2 B3]. constructor.
  - intros o. rewrite B1, A1, list_filter_filter. apply list_filter_iff. intros n. rewrite elem_of_app. tauto.
  - intros z [? ?]%not_elem_of_app. by rewrite B2, A2.
  - intros o. by rewrite B3, A3.
Qed.

Lemma sync_left_nodes xs (y y' : SyncState) z queue : sync_left xs y y' → z ∉ xs → nodes_ok y z queue → nodes_ok y' z queue.
Proof. intros L Hz Hn o i. rewrite (sl_lists _ _ _ L), list_elem_of_filter, (Hn o i). cbn. tauto. Qed.

Lemma sync_left_none xs (y y' : SyncState) x : sync_left xs y y' → x ∈ xs → nodes_ok y' x None.
Proof. intros L Hx o i. rewrite (sl_lists _ _ _ L), list_elem_of_filter. cbn. split; [by intros [? _]|done]. Qed.

(** The threads [xs] wait for nothing any more, with the result [r]; the others keep
    their states, what they wait for and their timer tasks. *)
Record released (s s' : wctx) (xs : list Z) (r : Z) : Prop := MkReleased {
  rl_self x : x ∈ xs → state_of (wc_locks s') x = ThreadState_Runnable ∧ owner_of (wc_locks s') x = None ∧
    tree_of (wc_locks s') x = None ∧
    ∃ w, wc_waits s !! x = Some w ∧ wc_waits s' !! x = Some (MkWaits None r (m_termination_requested w) 0);
  rl_state y : y ∉ xs → state_of (wc_locks s') y = state_of (wc_locks s) y;
  rl_owner y : y ∉ xs → owner_of (wc_locks s') y = owner_of (wc_locks s) y;
  rl_tree y : y ∉ xs → tree_of (wc_locks s') y = tree_of (wc_locks s) y;
  rl_waits y : y ∉ xs → wc_waits s' !! y = wc_waits s !! y;
  rl_tasks : m_task_tree (wc_timer s') = filter (λ y, y ∉ xs) (m_task_tree (wc_timer s));
  rl_handles : wc_handles s' = wc_handles s;
  rl_memory : wc_memory s' = wc_memory s;
  rl_current : current_thread s' = current_thread s;
  rl_sync : sync_left xs (wc_sync s) (wc_sync s')
}.

Lemma released_nil (s : wctx) r : released s s [] r.
Proof.
  constructor; try done; [by intros x ?%not_elem_of_nil| |by apply sync_left_id; intros x ?%elem_of_nil].
  induction (m_task_tree (wc_timer s)) as [|y l IH]; [done|].
  rewrite filter_cons_True by apply not_elem_of_nil. by rewrite <- IH.
Qed.

Lemma released_trans (s s1 s2 : wctx) xs ys r : released s s1 xs r → released s1 s2 ys r → released s s2 (xs ++ ys) r.
Proof.
  intros A B. constructor.
  - intros x Hx. destruct (decide (x ∈ ys)) as [Hy|Hy].
    + destruct (rl_self _ _ _ _ B x Hy) as (B1 & B2 & B3 & w1 & Hw1 & B4). split_and!; [done..|].
      destruct (decide (x ∈ xs)) as [Hx'|Hx'].
      * destruct (rl_self _ _ _ _ A x Hx') as (_ & _ & _ & w & Hw & A4). exists w. split; [done|]. rewrite B4. do 2 f_equal.
        rewrite A4 in Hw1. by injection Hw1 as <-.
      * exists w1. split; [|done]. by rewrite <- (rl_waits _ _ _ _ A x Hx').
    + apply elem_of_app in Hx as [Hx|?]; [|done]. destruct (rl_self _ _ _ _ A x Hx) as (A1 & A2 & A3 & A4).
      rewrite (rl_state _ _ _ _ B), (rl_owner _ _ _ _ B), (rl_tree _ _ _ _ B), (rl_waits _ _ _ _ B) by done. done.
  - intros y [? ?]%not_elem_of_app. by rewrite (rl_state _ _ _ _ B), (rl_state _ _ _ _ A).
  - intros y [? ?]%not_elem_of_app. by rewrite (rl_owner _ _ _ _ B), (rl_owner _ _ _ _ A).
  - intros y [? ?]%not_elem_of_app. by rewrite (rl_tree _ _ _ _ B), (rl_tree _ _ _ _ A).
  - intros y [? ?]%not_elem_of_app. by rewrite (rl_waits _ _ _ _ B), (rl_waits _ _ _ _ A).
  - rewrite (rl_tasks _ _ _ _ B), (rl_tasks _ _ _ _ A), list_filter_filter. apply list_filter_iff.
    intros y. rewrite elem_of_app. tauto.
  - by rewrite (rl_handles _ _ _ _ B), (rl_handles _ _ _ _ A).
  - by rewrite (rl_memory _ _ _ _ B), (rl_memory _ _ _ _ A).
  - by rewrite (rl_current _ _ _ _ B), (rl_current _ _ _ _ A).
  - by eapply sync_left_trans; [apply A|apply B].
Qed.

Lemma let_go_released (s s1 s' : wctx) x r : let_go s s1 x → nodes_ok (wc_sync s) x None → woken s1 s' x r → released s s' [x] r.
Proof.
  intros [A1 A2 A3 A4 A5] Hnd [(w & Hw & EW) (c & EL & _ & Hcur) Hst [Ht Htw] Hh Hm Es].
  rewrite A4 in Hw, EW, Ht, Htw, Hh, Hm, Es. cbn [set_lock_state wc_waits wc_timer wc_handles wc_memory wc_sync] in Hw, EW, Ht, Htw, Hh, Hm, Es.
  constructor; try done.
  - intros y ->%list_elem_of_singleton. rewrite Hst, decide_True by done. rewrite EL.
    change (owner_of (set_sched c (wc_locks s1)) x) with (owner_of (wc_locks s1) x).
    change (tree_of (set_sched c (wc_locks s1)) x) with (tree_of (wc_locks s1) x).
    rewrite A1, A2, !decide_True by done. split_and!; [done..|]. exists w. split; [done|]. by rewrite EW, lookup_insert_eq.
  - intros y Hy%not_elem_of_cons. rewrite Hst, A3, decide_False by tauto. done.
  - intros y Hy%not_elem_of_cons. rewrite EL. etrans; [apply A1|]. by rewrite decide_False by tauto.
  - intros y Hy%not_elem_of_cons. rewrite EL. etrans; [apply A2|]. by rewrite decide_False by tauto.
  - intros y Hy%not_elem_of_cons. rewrite EW, lookup_insert_ne by naive_solver. done.
  - rewrite Ht. apply list_filter_iff. intros y. by rewrite list_elem_of_singleton.
  - rewrite <- A5. unfold current_thread. rewrite EL. exact Hcur.
  - rewrite Es. apply sync_left_id. by intros z ->%list_elem_of_singleton.
Qed.

Lemma woken_released (s s1 s' : wctx) x r : woken s s1 x r → nodes_ok (wc_sync s) x None → let_go s1 s' x → released s s' [x] r.
Proof.
  intros [(w & Hw & EW) (c & EL & _ & Hcur) Hst [Ht Htw] Hh Hm Es] Hnd [A1 A2 A3 A4 A5].
  rewrite EL in A1, A2. constructor; try (rewrite A4; done).
  - intros y ->%list_elem_of_singleton. rewrite A1, A2, A3, Hst, !decide_True by done. split_and!; [done..|].
    exists w. split; [done|]. by rewrite A4; cbn; rewrite EW, lookup_insert_eq.
  - intros y Hy%not_elem_of_cons. rewrite A3, Hst, decide_False by tauto. done.
  - intros y Hy%not_elem_of_cons. rewrite A1, decide_False by tauto. done.
  - intros y Hy%not_elem_of_cons. rewrite A2, decide_False by tauto. done.
  - intros y Hy%not_elem_of_cons. rewrite A4. cbn. rewrite EW, lookup_insert_ne by naive_solver. done.
  - rewrite A4. cbn. rewrite Ht. apply list_filter_iff. intros y. by rewrite list_elem_of_singleton.
  - rewrite A5. unfold current_thread. by rewrite EL.
  - rewrite A4. cbn [set_lock_state wc_sync]. rewrite Es. apply sync_left_id. by intros z ->%list_elem_of_singleton.
Qed.

Lemma released_ok (s s' : wctx) xs r : (∀ y, y ∉ xs → waiter_ok s y) → released s s' xs r → wait_base s' → wait_ok s'.
Proof.
  intros Hth R HB. constructor; [done|]. intros y. destruct (decide (y ∈ xs)) as [Hy|Hy].
  - destruct (rl_self _ _ _ _ R y Hy) as (E1 & E2 & E3 & w & _ & E4). constructor.
    + rewrite E1. unfold queue_of. rewrite E4. cbn. split; [done|by intros []].
    + rewrite E2, E3. unfold queue_of. by rewrite E4.
    + rewrite (time_of_some _ _ _ E4). cbn. lia.
    + unfold queue_of. rewrite E4. by eapply sync_left_none; [apply R|].
  - destruct (Hth y Hy) as [A1 A2 A3 A4]. unfold queue_of, time_of in *. constructor; unfold queue_of, time_of.
    + by rewrite (rl_state _ _ _ _ R), (rl_waits _ _ _ _ R).
    + by rewrite (rl_owner _ _ _ _ R), (rl_tree _ _ _ _ R), (rl_waits _ _ _ _ R).
    + by rewrite (rl_waits _ _ _ _ R).
    + rewrite (rl_waits _ _ _ _ R) by done. by eapply sync_left_nodes; [apply R|done|].
Qed.

(** ** EndWait *)
Lemma thread_state_run (s : wctx) x : wait_base s → is_Some (wc_waits s !! x) →
  thread_state s x = Done true (state_of (wc_locks s) x).
Proof.
  intros HB Hx. destruct (base_thread s x HB Hx) as (k & t & _ & Ht). unfold thread_state, state_of.
  rewrite (get_thread_run _ _ t) by done. pstep. by rewrite Ht.
Qed.

Lemma queue_some (W : gmap Z ThreadWaits) x q : queue_of W x = Some q → ∃ w, W !! x = Some w ∧ m_wait_queue w = Some q.
Proof. unfold queue_of. destruct (W !! x) as [w|]; [|done]. intros E. by exists w. Qed.

Lemma EndWait_run (s : wctx) x q r : wait_base s → state_of (wc_locks s) x = ThreadState_Waiting →
  queue_of (wc_waits s) x = Some q → queue_kind q ≠ ThreadQueueImplForKThreadSleep →
  (∀ objs, queue_kind q ≠ ThreadQueueImplForKSynchronizationObjectWait objs) →
  (0 < time_of (wc_waits s) x → m_hardware_timer q = true) → ∃ s',
  EndWait x r s = Done true s' ∧ wait_base s' ∧ woken s s' x r ∧
  (wakes_up (wc_timer s) (wc_waits s) → wakes_up (wc_timer s') (wc_waits s')).
Proof.
  intros HB Hst Hq Hk Hns Ht. destruct (queue_some _ _ _ Hq) as (w & Hw & Hwq).
  unfold EndWait. rewrite thread_state_run, Hst by (done || by eexists). pstep. change (ThreadState_Waiting =? ThreadState_Waiting) with true.
  cbv iota. rewrite (get_waits_run _ _ w), bind_Done_true, Hwq by done. unfold KThreadQueue_EndWait.
  destruct (queue_kind q) as [|c|c| |objs] eqn:Ek; [..|done|by destruct (Hns objs)]; (apply end_of_wait_run; [done|by eexists|]; intros Hf;
    pose proof (tk_range _ _ (wb_tasks _ HB) x); destruct (decide (0 < time_of (wc_waits s) x)) as [Hp|]; [|lia];
    by rewrite (Ht Hp) in Hf).
Qed.

(** ** A wait for synchronization objects ends: its nodes are taken out *)
Lemma filter_members {A} (P Q : A → Prop) `{∀ n, Decision (P n)} `{∀ n, Decision (Q n)} (l : list A) :
  (∀ n, n ∈ l → P n ↔ Q n) → filter P l = filter Q l.
Proof.
  induction l as [|m l IH]; [done|]. intros E. pose proof (E m ltac:(left)) as Em. rewrite !filter_cons.
  rewrite IH by (intros; apply E; by right). by destruct (decide (P m)), (decide (Q m)); try tauto.
Qed.

Lemma all_unlinked_left (y y' : SyncState) x queue : nodes_ok y x queue →
  all_unlinked y y' x 0 (length (objects_of queue)) → sync_left [x] y y'.
Proof.
  intros Hn [_ Ew [F1 F2] _]. constructor; [|by rewrite F1|done]. intros o. rewrite Ew. apply filter_members.
  intros [z i] Hz. rewrite list_elem_of_singleton. unfold nodes_from. cbn. split; [|tauto]. intros H' ->. apply H'. split; [done|].
  apply Hn, lookup_lt_Some in Hz. lia.
Qed.

Lemma lists_threads (y : SyncState) T : lists_ok y → lists_ok (MkSync (sy_objects y) (sy_nodes y) T).
Proof. intros [A1 A2]. by constructor. Qed.

Lemma change_sync_run (y : SyncState) x t f : sy_threads y !! x = Some t →
  change_sync x f y = Done true (MkSync (sy_objects y) (sy_nodes y) (<[x := f t]> (sy_threads y))).
Proof. intros E. unfold change_sync, get_sync. rewrite E. cbn [deref]. by pstep. Qed.

Lemma on_sync_run (s : wctx) f y : f (wc_sync s) = Done true y → on_sync f s = Done true (set_sync y s).
Proof. intros E. unfold on_sync. rewrite E. by pstep. Qed.

Lemma sync_base (s : wctx) y : wait_base s → lists_ok y → (∀ x, is_Some (sy_threads (wc_sync s) !! x) → is_Some (sy_threads y !! x)) →
  wait_base (set_sync y s).
Proof. intros [A1 A2 A3 A4 A5] Hl Hd. constructor; try done. intros x Hx. by apply Hd, A5. Qed.

Lemma unsynced_released (s s' : wctx) y x r : owner_of (wc_locks s) x = None → tree_of (wc_locks s) x = None →
  sync_left [x] (wc_sync s) y → woken (set_sync y s) s' x r → released s s' [x] r.
Proof.
  intros Ho Htr L W. destruct (let_go_released (set_sync y s) (set_sync y s) s' x r) as [R1 R2 R3 R4 R5 R6 R7 R8 R9 R10].
  - by apply let_go_id.
  - by eapply sync_left_none; [apply L|left].
  - done.
  - constructor; try done. rewrite (wk_sync _ _ _ _ W). exact L.
Qed.

(** The nodes of a wait are taken out and the thread's flags are changed. *)
Lemma unsync_run (s : wctx) x q objs f : wait_base s → queue_of (wc_waits s) x = Some q → queue_kind q = ThreadQueueImplForKSynchronizationObjectWait objs →
  nodes_ok (wc_sync s) x (Some q) → ∃ t y1 y,
  sy_threads (wc_sync s) !! x = Some t ∧ unlink_all x objs 0 (wc_sync s) = Done true y1 ∧ all_unlinked (wc_sync s) y1 x 0 (length objs) ∧
  change_sync x f y1 = Done true y ∧ y = MkSync (sy_objects y1) (sy_nodes y1) (<[x := f t]> (sy_threads (wc_sync s))) ∧
  wait_base (set_sync y s) ∧ sync_left [x] (wc_sync s) y.
Proof.
  intros HB Hq Ek Hn. assert (objects_of (Some q) = objs) as Eo by (unfold objects_of; cbn; by rewrite Ek).
  destruct (queue_some _ _ _ Hq) as (w & Hw & _). destruct (wb_sync _ HB x) as [t Ht]; [by eexists|].
  destruct (unlink_all_run x objs 0 (wc_sync s) (wb_lists _ HB)) as (y1 & E & U).
  { intros j o Hj. apply Hn. by rewrite Eo. }
  pose proof (au_flags _ _ _ _ _ U) as [Et _]. exists t, y1. eexists. split; [done|]. split; [done|]. split; [done|].
  split; [by apply change_sync_run; rewrite Et|]. split; [by rewrite Et|]. rewrite <- Eo in U.
  destruct (all_unlinked_left _ _ _ _ Hn U) as [L1 L2 L3]. split.
  - apply sync_base; [done|apply lists_threads, U|]. intros z Hz. cbn. rewrite Et.
    destruct (decide (z = x)) as [->|]; [rewrite lookup_insert_eq; by eexists|by rewrite lookup_insert_ne].
  - constructor; [done| |done]. intros z Hz%not_elem_of_cons. cbn. rewrite lookup_insert_ne by naive_solver. by rewrite Et.
Qed.

Lemma kind_cases q : (∃ objs, queue_kind q = ThreadQueueImplForKSynchronizationObjectWait objs) ∨
  (∀ objs, queue_kind q ≠ ThreadQueueImplForKSynchronizationObjectWait objs) ∧ objects_of (Some q) = [].
Proof. unfold objects_of. cbn. destruct (queue_kind q) as [| | | |objs]; [right; done..|left; by exists objs]. Qed.

(** A thread with no wait for objects has no nodes. *)
Lemma no_objects (s : wctx) x q q' : waiter_ok s x → queue_of (wc_waits s) x = q → objects_of q = [] → objects_of q' = [] →
  nodes_ok (wc_sync s) x q'.
Proof. intros Hx <- E E' o i. rewrite (th_nodes _ _ Hx o i), E, E'. done. Qed.

(** ** CancelWait *)
Lemma cancel_run (s : wctx) x q r b : wait_base s → (∀ y, y ≠ x → waiter_ok s y) →
  queue_of (wc_waits s) x = Some q → kind_ok (Some q) (owner_of (wc_locks s) x) (tree_of (wc_locks s) x) →
  nodes_ok (wc_sync s) x (Some q) →
  (b && m_hardware_timer q = false → time_of (wc_waits s) x = 0) → ∃ s',
  KThreadQueue_CancelWait q x r b s = Done true s' ∧ wait_ok s' ∧ released s s' [x] r ∧
  m_wakeup_time (wc_timer s') = m_wakeup_time (wc_timer s) ∧
  (wakes_up (wc_timer s) (wc_waits s) → wakes_up (wc_timer s') (wc_waits s')).
Proof.
  intros HB Hth Hq Hk Hn Ht. destruct (queue_some _ _ _ Hq) as (w & Hw & _).
  assert (∃ s1, cancel_kind (queue_kind q) x s = Done true s1 ∧ wait_base s1 ∧ wc_waits s1 = wc_waits s ∧ wc_timer s1 = wc_timer s ∧
    ∀ s', woken s1 s' x r → released s s' [x] r) as (s1 & E & HB1 & EW & ET & HR).
  { destruct (kind_cases q) as [[objs Ek]|[Hns Eo]].
    - destruct (unsync_run s x q objs ClearCancellable HB Hq Ek Hn) as (t & y1 & y & _ & E1 & _ & E2 & _ & HB1 & L).
      exists (set_sync y s). rewrite Ek. cbn [cancel_kind]. rewrite (on_sync_run _ _ y1), bind_Done_true by done.
      rewrite (on_sync_run (set_sync y1 s) _ y) by done. split_and!; try done. intros s' W.
      unfold kind_ok in Hk. cbn in Hk. rewrite Ek in Hk. destruct Hk. by apply (unsynced_released s s' y).
    - destruct (cancel_kind_run s x q HB Hq Hk Hns) as (s1 & E & HB1 & Hg). exists s1.
      assert (wc_waits s1 = wc_waits s ∧ wc_timer s1 = wc_timer s) as [EW ET] by (by rewrite (lg_rest _ _ _ Hg)).
      split_and!; try done. intros s' W. apply (let_go_released s s1 s'); [done| |done].
      intros o i. rewrite (Hn o i), Eo. done. }
  unfold KThreadQueue_CancelWait. rewrite E, bind_Done_true.
  destruct (end_of_wait_run s1 x r (b && m_hardware_timer q)) as (s' & E' & HB' & Hwk & Hwu); [done|rewrite EW; by eexists|by rewrite EW|].
  rewrite EW, ET in Hwu. pose proof (HR s' Hwk) as R.
  exists s'. split_and!; [done| |done| |done].
  2:{ rewrite <- ET. apply (tg_wakeup _ _ _ (wk_timer _ _ _ _ Hwk)). }
  apply (released_ok s s' [x] r); [|done|done].
  intros y Hy%not_elem_of_cons. apply Hth. tauto.
Qed.

(** A wait is cancelled, by another thread or the timer. *)
Lemma CancelWait_run (s : wctx) x r : wait_ok s → is_Some (wc_waits s !! x) →
  state_of (wc_locks s) x ≠ ThreadState_Waiting ∧ CancelWait x r true s = Done true s ∨
  state_of (wc_locks s) x = ThreadState_Waiting ∧ ∃ s', CancelWait x r true s = Done true s' ∧ wait_ok s' ∧ released s s' [x] r ∧
    m_wakeup_time (wc_timer s') = m_wakeup_time (wc_timer s) ∧
    (wakes_up (wc_timer s) (wc_waits s) → wakes_up (wc_timer s') (wc_waits s')).
Proof.
  intros [HB Hth] Hx. unfold CancelWait. rewrite thread_state_run, bind_Done_true by done.
  destruct (decide (state_of (wc_locks s) x = ThreadState_Waiting)) as [Hst|Hst].
  2:{ left. split; [done|]. by rewrite (proj2 (Z.eqb_neq _ _)). }
  right. split; [done|]. rewrite (proj2 (Z.eqb_eq _ _) Hst). destruct (Hth x) as [A1 A2 A3 A4].
  destruct (queue_of (wc_waits s) x) as [q|] eqn:Eq; [|by apply A1 in Hst].
  destruct (queue_some _ _ _ Eq) as (w & Hw & Hwq). rewrite (get_waits_run _ _ w), bind_Done_true, Hwq by done. cbn [deref].
  pstep. apply cancel_run; try done. cbn. intros Hf. pose proof (tk_range _ _ (wb_tasks _ HB) x).
  destruct (decide (0 < time_of (wc_waits s) x)) as [Hp|]; [|lia]. destruct (A3 Hp) as (q' & [= <-] & ?). congruence.
Qed.

(** ** The timer *)

(** A task that is due is removed and its thread is told. *)
Lemma fire_run (s : wctx) x : wait_ok s → x ∈ m_task_tree (wc_timer s) → ∃ s1 s',
  RemoveTaskFromTree x s = Done true s1 ∧ OnTimer x s1 = Done true s' ∧ wait_ok s' ∧ released s s' [x] ResultTimedOut ∧
  m_wakeup_time (wc_timer s') = m_wakeup_time (wc_timer s).
Proof.
  intros [HB Hth] Hx. destruct (task_waits _ _ _ (wb_tasks _ HB) Hx) as [w Hw].
  destruct (RemoveTaskFromTree_run s x w (wb_tasks _ HB) Hx Hw) as (T' & E & HT' & [Hg Hgw] & _).
  set (W' := removed_waits (wc_waits s) x w) in *. set (s1 := set_timer T' (set_waits W' s)) in *.
  assert (∀ y, queue_of W' y = queue_of (wc_waits s) y) as HQ.
  { intros y. unfold W', removed_waits. rewrite queue_of_insert. case_decide; [subst; unfold queue_of; by rewrite Hw|done]. }
  assert (∀ y, y ≠ x → W' !! y = wc_waits s !! y) as HW by (intros y Hy; unfold W', removed_waits; by rewrite lookup_insert_ne).
  assert (wait_base s1) as HB1.
  { apply (base_step_to s); [done|apply HB|done|apply dom_insert_same; by eexists|done|done]. }
  assert (∀ y, y ≠ x → waiter_ok s1 y) as Hth1.
  { intros y Hy. destruct (Hth y) as [A1 A2 A3 A4]. constructor; cbn [s1 set_timer set_waits wc_waits]; rewrite ?HQ; try done.
    unfold time_of in *. rewrite HW by done. done. }
  destruct (Hth x) as [A1 A2 A3 A4]. destruct A3 as (q & Hq & _); [by apply (tk_task _ _ (wb_tasks _ HB))|].
  rewrite Hq in A1, A2, A4. destruct (queue_some W' x q) as (w' & Hw' & Hwq); [by rewrite HQ|].
  destruct (cancel_run s1 x q ResultTimedOut false) as (s' & E' & Hok & R & Ewk & _); try done; [by rewrite <- Hq; apply HQ| |].
  { intros _. cbn. unfold W', removed_waits. by rewrite time_of_insert, decide_True. }
  exists s1, s'. split; [done|]. split; [|split; [done|split]].
  3:{ rewrite Ewk. exact Hgw. }
  - unfold OnTimer, IsSchedulerLockedByCurrentThread. pose proof (wb_locks _ HB) as ((_ & _ & Hl) & _).
    cbn [s1 set_timer set_waits wc_locks]. rewrite Hl. change (ASSERT true) with (Done true tt). pstep.
    rewrite thread_state_run, bind_Done_true by (done || by eexists).
    assert (state_of (wc_locks s1) x = ThreadState_Waiting) as -> by (by apply A1).
    rewrite Z.eqb_refl. rewrite (get_waits_run s1 x w'), bind_Done_true, Hwq by done. cbn [deref]. by pstep.
  - constructor; try apply R.
    + intros y Hy. destruct (rl_self _ _ _ _ R y Hy) as (B1 & B2 & B3 & w1 & Hw1 & B4). split_and!; try done.
      apply list_elem_of_singleton in Hy as ->. exists w. split; [done|]. rewrite B4. do 2 f_equal.
      cbn in Hw1. unfold W', removed_waits in Hw1. rewrite lookup_insert_eq in Hw1. by injection Hw1 as <-.
    + intros y Hy. rewrite (rl_waits _ _ _ _ R) by done. apply HW. by intros ->; apply Hy; left.
    + rewrite (rl_tasks _ _ _ _ R). cbn. rewrite Hg, list_filter_filter. apply list_filter_iff.
      intros y. rewrite list_elem_of_singleton. tauto.
Qed.

(** The time of the first task that is left, or 0. *)
Definition next_time (s : wctx) : Z := default 0 (time_of (wc_waits s) <$> m_next_task (wc_timer s)).

Lemma nothing_due n now (s : wctx) : wait_ok s → m_task_tree (wc_timer s) = [] → interrupt_loop n now s = Done true (next_time s, s).
Proof.
  intros Hok El. assert (m_next_task (wc_timer s) = None) as Hn by (rewrite (tk_next _ _ (wb_tasks _ (wo_base _ Hok))); by rewrite El).
  unfold next_time. destruct n; cbn [interrupt_loop]; by rewrite Hn.
Qed.

Lemma interrupt_run n now (s : wctx) : wait_ok s → (length (m_task_tree (wc_timer s)) ≤ n)%nat → ∃ s' xs,
  interrupt_loop n now s = Done true (next_time s', s') ∧ wait_ok s' ∧ released s s' xs ResultTimedOut ∧
  m_wakeup_time (wc_timer s') = m_wakeup_time (wc_timer s) ∧
  m_task_tree (wc_timer s) = xs ++ m_task_tree (wc_timer s') ∧
  Forall (λ x, time_of (wc_waits s) x ≤ now) xs ∧ Forall (λ x, now < time_of (wc_waits s) x) (m_task_tree (wc_timer s')).
Proof.
  revert s. induction n as [|n IH]; intros s Hok Hlen; pose proof (wb_tasks _ (wo_base _ Hok)) as HT.
  { exists s, []. rewrite nothing_due by (destruct (m_task_tree _); [done|cbn in Hlen; lia]). split_and!; try done.
    - apply released_nil.
    - destruct (m_task_tree _); [constructor|cbn in Hlen; lia]. }
  destruct (m_task_tree (wc_timer s)) as [|x l] eqn:El.
  { exists s, []. rewrite nothing_due by done. rewrite El. split_and!; try done; apply released_nil. }
  assert (x ∈ m_task_tree (wc_timer s)) as Hx by (rewrite El; left).
  destruct (task_waits _ _ _ HT Hx) as [w Hw]. pose proof (time_of_some _ _ _ Hw) as Etime.
  assert (m_next_task (wc_timer s) = Some x) as Hn by (rewrite (tk_next _ _ HT); by rewrite El).
  cbn [interrupt_loop]. rewrite Hn, (get_waits_run _ x w), bind_Done_true by done. destruct (now <? m_time w) eqn:Edue; bool_prop.
  - exists s, []. split_and!; [|done|apply released_nil|done|by rewrite El|constructor|].
    + unfold next_time. rewrite Hn. cbn. by rewrite Etime.
    + apply Forall_forall. intros y Hy. pose proof (tasks_first _ _ _ _ HT Hn Hy). lia.
  - destruct (fire_run s x Hok Hx) as (s1 & s2 & -> & E2 & Hok2 & R & Ewk). rewrite bind_Done_true, E2, bind_Done_true.
    assert (m_task_tree (wc_timer s2) = l) as El2.
    { pose proof (tk_NoDup _ _ HT) as Hnd. rewrite El in Hnd. apply NoDup_cons in Hnd as [Hxl _].
      rewrite (rl_tasks _ _ _ _ R), El, filter_cons_False by (rewrite list_elem_of_singleton; naive_solver).
      rewrite (list_filter_iff _ (λ y, y ≠ x)); [by apply filter_ne|]. intros y. by rewrite list_elem_of_singleton. }
    destruct (IH s2 Hok2) as (s' & xs & E & Hok' & R' & Ewk' & Et & F1 & F2); [rewrite El2; cbn in Hlen; lia|].
    rewrite El2 in Et. exists s', (x :: xs). assert (∀ y, y ∈ l → time_of (wc_waits s2) y = time_of (wc_waits s) y) as Hsame.
    { intros y Hy. unfold time_of. rewrite (rl_waits _ _ _ _ R); [done|]. rewrite list_elem_of_singleton. intros ->.
      pose proof (tk_NoDup _ _ HT) as Hnd. rewrite El in Hnd. by apply NoDup_cons in Hnd as [? _]. }
    split_and!; [done|done|by apply (released_trans s s2 s' [x] xs)|congruence|by rewrite Et| |].
    + constructor; [lia|]. rewrite Forall_forall in *. intros y Hy. rewrite <- Hsame; [by apply F1|]. rewrite Et, elem_of_app. by left.
    + rewrite Forall_forall in *. intros y Hy. rewrite <- Hsame; [by apply F2|]. rewrite Et, elem_of_app. by right.
Qed.

Lemma wakeup_ok (s : wctx) t : wait_ok s →
  wait_ok (set_timer (MkTimer (m_task_tree (wc_timer s)) (m_next_task (wc_timer s)) t) s).
Proof.
  intros [HB Hth]. constructor; [|intros y; destruct (Hth y); by constructor]. destruct HB. constructor; try done.
  by apply tasks_wakeup.
Qed.

Lemma split_filter (P : Z → Prop) `{∀ x, Decision (P x)} (xs ys : list Z) : Forall P xs → Forall (λ x, ¬ P x) ys →
  filter P (xs ++ ys) = xs.
Proof.
  intros Hx Hy. by rewrite filter_app, filter_id, filter_nil, app_nil_r.
Qed.

Lemma DoTask_run now (s : wctx) : wait_inv s →
  m_wakeup_time (wc_timer s) = S64_MAX ∧ DoTask now s = Done true s ∨
  ∃ s', DoTask now s = Done true s' ∧ wait_inv s' ∧
    released s s' (filter (λ x, time_of (wc_waits s) x ≤ now) (m_task_tree (wc_timer s))) ResultTimedOut ∧
    m_wakeup_time (wc_timer s') = default S64_MAX (time_of (wc_waits s') <$> m_next_task (wc_timer s')).
Proof.
  intros [Hok Hwk]. unfold DoTask, GetInterruptEnabled. rewrite negb_involutive.
  destruct (m_wakeup_time (wc_timer s) =? S64_MAX) eqn:Ewk; bool_prop; [by left|right].
  set (s0 := set_timer _ s). destruct (interrupt_run (length (m_task_tree (wc_timer s0))) now s0) as (s1 & xs & E & Hok1 & R & Ew & Et & F1 & F2);
    [by apply wakeup_ok|done|].
  assert (filter (λ x, time_of (wc_waits s) x ≤ now) (m_task_tree (wc_timer s)) = xs) as ->.
  { change (m_task_tree (wc_timer s)) with (m_task_tree (wc_timer s0)). rewrite Et. apply split_filter; [done|].
    eapply Forall_impl; [exact F2|]. intros y Hy. cbn in Hy. lia. }
  unfold DoInterruptTaskImpl. rewrite E. pstep. cbn in Ew. rewrite Ew.
  pose proof (wb_tasks _ (wo_base _ Hok1)) as HT1. unfold next_time.
  destruct (m_next_task (wc_timer s1)) as [y|] eqn:Ey; cbn [fmap option_fmap option_map default from_option id].
  - assert (0 < time_of (wc_waits s1) y ≤ S64_MAX) as [Hy1 Hy2].
    { split; [|apply (tk_range _ _ HT1)]. apply (tk_task _ _ HT1). pose proof (tk_next _ _ HT1) as Hn. rewrite Ey in Hn.
      destruct (m_task_tree (wc_timer s1)); [done|]. injection Hn as ->. left. }
    rewrite (proj2 (Z.ltb_lt _ _) Hy1), (proj2 (Z.leb_le _ _) Hy2). eexists. split; [done|]. split; [split|split].
    + by apply (wakeup_ok s1).
    + intros z Hz. cbn in Hz |- *. rewrite Ey in Hz. injection Hz as <-. lia.
    + destruct R as [R1 R2 R3 R4 R5 R6 R7 R8 R9]. by constructor.
    + cbn. by rewrite Ey.
  - eexists. split; [done|]. split; [split; [done|]|split].
    + intros z Hz. congruence.
    + destruct R as [R1 R2 R3 R4 R5 R6 R7 R8 R9]. by constructor.
    + by rewrite Ey.
Qed.

(** ** The begin of a wait *)
Record began (s s' : wctx) (x : Z) (q : KThreadQueue) (t : Z) : Prop := MkBegan {
  bg_waits : ∃ w, wc_waits s !! x = Some w ∧
    wc_waits s' = <[x := MkWaits (Some q) (m_wait_result w) (m_termination_requested w) t]> (wc_waits s);
  bg_sched : ∃ c, wc_locks s' = set_sched c (wc_locks s) ∧ same_view (lc_sched (wc_locks s)) c ∧
    ctx_current c = ctx_current (lc_sched (wc_locks s));
  bg_state y : state_of (wc_locks s') y = if decide (y = x) then ThreadState_Waiting else state_of (wc_locks s) y;
  bg_tasks : m_task_tree (wc_timer s') ≡ₚ (if 0 <? t then [x] else []) ++ m_task_tree (wc_timer s);
  bg_handles : wc_handles s' = wc_handles s;
  bg_memory : wc_memory s' = wc_memory s;
  bg_sync : wc_sync s' = wc_sync s
}.

Lemma began_ok (s s' : wctx) x q t : (∀ y, y ≠ x → waiter_ok s y) → began s s' x q t → wait_base s' →
  kind_ok (Some q) (owner_of (wc_locks s) x) (tree_of (wc_locks s) x) → nodes_ok (wc_sync s) x (Some q) →
  (0 < t → m_hardware_timer q = true) → wait_ok s'.
Proof.
  intros Hth [(w & Hw & EW) (c & EL & _) Hst _ _ _ Es] HB Hk Hn Ht. constructor; [done|]. intros y.
  constructor; rewrite ?Es, EW, ?Hst, ?queue_of_insert, ?time_of_insert; try rewrite EL; case_decide; subst; try by apply Hth.
  - cbn. by split.
  - done.
  - cbn. intros Hp. exists q. split; [done|by apply Ht].
  - done.
Qed.

Lemma BeginWait_run (s : wctx) x q w : wait_base s → wc_waits s !! x = Some w → m_time w = 0 → ∃ s',
  BeginWait x q s = Done true s' ∧ wait_base s' ∧ began s s' x q 0 ∧ wc_timer s' = wc_timer s ∧
  (wakes_up (wc_timer s) (wc_waits s) → wakes_up (wc_timer s') (wc_waits s')).
Proof.
  intros HB Hw H0w. destruct (SetState_wait_run s x ThreadState_Waiting HB) as (c & E & HI & Hst & Hv & Hcur); [by eexists|done|].
  unfold BeginWait. rewrite E, bind_Done_true, (change_waits_run _ x w) by done. eexists. split; [done|]. split_and!.
  - apply (base_step_to s); cbn; [done|exact HI|done| |by apply (time_gone _ _ x w); [apply HB| |]|done].
    apply dom_insert_same. by eexists.
  - constructor; cbn; try done; [|by exists c]. exists w. split; [done|]. do 2 f_equal. unfold set_wait_queue. by rewrite H0w.
  - done.
  - intros Hwk y Hy. cbn. rewrite time_of_insert. specialize (Hwk y Hy). case_decide; [subst y|done].
    by rewrite (time_of_some _ x w) in Hwk.
Qed.

Lemma begin_run (s : wctx) x kind timeout w : wait_base s → (∀ y, y ≠ x → waiter_ok s y) → wc_waits s !! x = Some w →
  m_time w = 0 → timeout ≤ S64_MAX →
  kind_ok (Some (MkThreadQueue kind (0 <? timeout))) (owner_of (wc_locks s) x) (tree_of (wc_locks s) x) →
  nodes_ok (wc_sync s) x (Some (MkThreadQueue kind (0 <? timeout))) → ∃ s',
  begin_wait_with_timeout x kind timeout s = Done true (None, s') ∧ wait_ok s' ∧
  began s s' x (MkThreadQueue kind (0 <? timeout)) (Z.max 0 timeout) ∧
  (wakes_up (wc_timer s) (wc_waits s) → wakes_up (wc_timer s') (wc_waits s')).
Proof.
  intros HB Hth Hw Hw0 Hto Hk Hn. set (q := MkThreadQueue kind (0 <? timeout)) in *.
  destruct (BeginWait_run s x q w HB Hw Hw0) as (s1 & E & HB1 & Hbg & ET & Hwk).
  unfold begin_wait_with_timeout. fold q. rewrite E, bind_Done_true. destruct (0 <? timeout) eqn:Et; bool_prop.
  - destruct (bg_waits _ _ _ _ _ Hbg) as (w' & Hw' & EW). assert (w' = w) as -> by congruence.
    destruct (RegisterAbsoluteTask_run s1 x (MkWaits (Some q) (m_wait_result w) (m_termination_requested w) 0) timeout)
      as (l1 & l2 & T' & E2 & Etr & Etr' & HT' & Hwk'); [apply HB1|by rewrite EW, lookup_insert_eq|done|lia|].
    rewrite E2. pstep. eexists. split; [done|]. set (s2 := set_timer _ _).
    assert (wait_base s2) as HB2.
    { apply (base_step_to s1); [done|apply HB1|done| |done|done]. apply dom_insert_same.
      rewrite EW, lookup_insert_eq. by eexists. }
    assert (began s s2 x q (Z.max 0 timeout)) as Hbg2.
    { destruct Hbg as [_ B2 B3 B4 B5 B6 B7]. constructor; try done; cbn.
      - exists w. split; [done|]. unfold added_waits. rewrite EW, insert_insert_eq. do 2 f_equal.
        unfold KTimerTask_SetTime. cbn. f_equal. lia.
      - rewrite (proj2 (Z.ltb_lt _ _)) by lia. cbn. rewrite Etr', <- Permutation_middle, <- Etr, ET. done. }
    split; [|split; [done|]].
    + apply (began_ok s s2 x q (Z.max 0 timeout)); try done.
    + intros H'. by apply Hwk', Hwk.
  - pstep. exists s1. split; [done|]. replace (Z.max 0 timeout) with 0 by lia. split; [|by split].
    apply (began_ok s s1 x q 0); done.
Qed.
End Operations.
