(* ===== verification/AddressArbiterLemmas.v ===== *)
(** Lemmas about the address arbiter. *)

From Stdlib Require Import Sorting.Sorted.
From S2P Require Import Prelude Common OrderedTree Thread PriorityQueue PriorityQueueTheorems PriorityQueueRefinement Scheduler SchedulerLemmas SchedulerOperations Locks LocksLemmas LocksOperations LocksTransfer LocksTheorems SynchronizationObject Waiting SynchronizationLemmas ConditionVariable WaitingLemmas.

(** * Waking the threads that wait at an address *)

Section Arbiter.
Context {C H M : Type} `{Clock C} `{ThreadHandles H} `{GuestMemory M} `{TreeKinds}.
Local Abbreviation wctx := (WaitContext C H M).
Local Abbreviation lctx := (LockContext C).

(** ** The waiters at an address *)
Definition cv_tree (s : wctx) (c : Z) : list Z := default [] (lc_cv_trees (wc_locks s) !! c).
Definition waiters_at (s : wctx) (c key : Z) : list Z := filter (λ y, ckey (wc_locks s) y = key) (cv_tree s c).

Lemma cv_tree_some (s : wctx) c tree : lc_cv_trees (wc_locks s) !! c = Some tree → cv_tree s c = tree.
Proof. unfold cv_tree. by intros ->. Qed.

Lemma nfind_split {A} (cmp : A → Z) (lt : A → A → Prop) l : StronglySorted lt l →
  (∀ y z, lt y z → cmp y ≤ 0 → cmp z ≤ 0) →
  ∃ l1 l2, l = l1 ++ l2 ∧ tree_nfind cmp l = length l1 ∧ Forall (λ y, 0 < cmp y) l1 ∧ Forall (λ y, cmp y ≤ 0) l2.
Proof.
  intros Hs Hmono. induction Hs as [|y l Hl IH Hy]; [by exists [], []|]. cbn [tree_nfind]. destruct (cmp y <=? 0) eqn:E; bool_prop.
  - exists [], (y :: l). split_and!; try done. constructor; [done|]. eapply Forall_impl; [exact Hy|]. intros z Hz. by eapply Hmono.
  - destruct IH as (l1 & l2 & -> & E' & F1 & F2). exists (y :: l1), l2. cbn. rewrite E'. split_and!; try done. constructor; [lia|done].
Qed.

(** The members of a tree are threads. *)
Lemma tree_members (s : wctx) c tree : wait_base s → lc_cv_trees (wc_locks s) !! c = Some tree → ∀ y, y ∈ tree →
  ∃ k, lc_locks (wc_locks s) !! y = Some k ∧ m_condvar_tree k = Some c ∧ is_Some (ctx_threads (lc_sched (wc_locks s)) !! y) ∧
    0 ≤ prio (wc_locks s) y.
Proof.
  intros HB Hc y Hy. pose proof (wb_locks _ HB) as ((Hwf & _) & _).
  destruct (co_in _ _ _ (wf_cv _ Hwf c tree Hc) y Hy) as (k & Hk & Hkc). exists k. split_and!; try done.
  - apply (wf_dom _ Hwf). by eexists.
  - destruct (proj1 (wf_dom _ Hwf y) ltac:(by eexists)) as [t Ht]. unfold prio. rewrite Ht. cbn. by apply (wf_prio _ Hwf y t).
Qed.

(** The iterator is at the first waiter with the key, if there is one. *)
Lemma cv_nfind_run (s : wctx) c tree key : wait_base s → lc_cv_trees (wc_locks s) !! c = Some tree → ∃ l1 l2,
  cv_nfind c key s = Done true (head l2) ∧ tree = l1 ++ l2 ∧
  Forall (λ y, ckey (wc_locks s) y < key) l1 ∧ Forall (λ y, key ≤ ckey (wc_locks s) y) l2.
Proof.
  intros HB Hc. pose proof (tree_members s c tree HB Hc) as Hm. pose proof (wb_locks _ HB) as ((Hwf & _) & _).
  pose proof (co_sorted _ _ _ (wf_cv _ Hwf c tree Hc)) as Hs.
  assert (∀ y, y ∈ tree → cv_compare key (-1) (keyed (wc_locks s) y) ≤ 0 ↔ key ≤ ckey (wc_locks s) y) as Hcmp.
  { intros y Hy. destruct (Hm y Hy) as (_ & _ & _ & _ & Hp). unfold cv_compare, keyed. cbn [snd].
    destruct (key <? _) eqn:E1; bool_prop; [lia|]. destruct (key =? _) eqn:E2, (-1 <? _) eqn:E3; bool_prop; cbn; lia. }
  destruct (nfind_split (λ y, cv_compare key (-1) (keyed (wc_locks s) y)) (λ y z, cv_lt (wc_locks s) z y = false ∧ y ∈ tree ∧ z ∈ tree) tree)
    as (l1 & l2 & -> & E & F1 & F2).
  { clear -Hs. assert (∀ l, (∀ y, y ∈ l → y ∈ tree) → sorted_by (cv_lt (wc_locks s)) l →
      StronglySorted (λ y z, cv_lt (wc_locks s) z y = false ∧ y ∈ tree ∧ z ∈ tree) l) as Hgen; [|by apply Hgen].
    intros l Hin. induction 1 as [|y l Hl IH Hy]; [constructor|]. constructor; [apply IH; intros; apply Hin; by right|].
    rewrite Forall_forall in *. intros z Hz. split; [by apply Hy|]. split; apply Hin; [by left|by right]. }
  { intros y z (Hlt & Hy & Hz). rewrite !Hcmp by done. unfold cv_lt in Hlt. apply orb_false_iff in Hlt as [?%Z.ltb_ge _]. lia. }
  exists l1, l2. split_and!; [|done| |].
  - unfold cv_nfind, cv_tree_of, deref. rewrite Hc. pstep. rewrite cv_keys_of_run.
    2:{ intros y Hy. destruct (Hm y Hy) as (k & ? & _ & ? & _). split; [done|by eexists]. }
    pstep. assert (∀ l, tree_nfind (cv_compare key (-1)) (keyed (wc_locks s) <$> l) =
      tree_nfind (λ y, cv_compare key (-1) (keyed (wc_locks s) y)) l) as Hmap.
    { induction l as [|y l IH]; [done|]. cbn [fmap list_fmap tree_nfind]. case_match; [done|]. f_equal. exact IH. }
    change (λ y, (y, (ckey (wc_locks s) y, prio (wc_locks s) y))) with (keyed (wc_locks s)). rewrite Hmap, E, lookup_app_r, Nat.sub_diag by done. by destruct l2.
  - rewrite Forall_forall in *. intros y Hy. specialize (F1 y Hy). cbv beta in F1. destruct (Hcmp y) as [_ Hc2]; [set_solver|]. lia.
  - rewrite Forall_forall in *. intros y Hy. apply Hcmp; [set_solver|]. by apply F2.
Qed.

(** The waiters with the key stand together. *)
Lemma group_split (s : wctx) key l2 : sorted_by (cv_lt (wc_locks s)) l2 → Forall (λ y, key ≤ ckey (wc_locks s) y) l2 →
  ∃ xs l3, l2 = xs ++ l3 ∧ Forall (λ y, ckey (wc_locks s) y = key) xs ∧ Forall (λ y, key < ckey (wc_locks s) y) l3.
Proof.
  induction 1 as [|y l Hl IH Hy]; intros Hk; [by exists [], []|]. apply Forall_cons in Hk as [Hyk Hk].
  destruct (decide (ckey (wc_locks s) y = key)) as [E|E].
  - destruct (IH Hk) as (xs & l3 & -> & F1 & F2). exists (y :: xs), l3. split_and!; try done. by constructor.
  - exists [], (y :: l). split_and!; try done. constructor; [lia|]. eapply Forall_impl; [exact Hy|]. intros z Hz. cbn in Hz.
    unfold cv_lt in Hz. apply orb_false_iff in Hz as [?%Z.ltb_ge _]. lia.
Qed.

(** ** Waking one of them *)
Lemma split_unique (x : Z) l1 l2 r1 r2 : l1 ++ x :: l2 = r1 ++ x :: r2 → x ∉ l1 → x ∉ r1 → l1 = r1 ∧ l2 = r2.
Proof.
  revert r1. induction l1 as [|y l1 IH]; intros [|z r1] E N1 N2; cbn in E; simplify_eq; try done.
  - by destruct N2; left.
  - by destruct N1; left.
  - destruct (IH r1) as [-> ->]; try done; intros Hx; [apply N1|apply N2]; by right.
Qed.

(** What a thread in a tree waits on. *)
Lemma tree_queue (s : wctx) x c : wait_ok s → tree_of (wc_locks s) x = Some c → ∃ q,
  queue_of (wc_waits s) x = Some q ∧ state_of (wc_locks s) x = ThreadState_Waiting ∧ owner_of (wc_locks s) x = None ∧
  queue_kind q = (if is_arbiter c then ThreadQueueImplForKAddressArbiter c
                  else ThreadQueueImplForKConditionVariableWaitConditionVariable c) ∧
  (0 < time_of (wc_waits s) x → m_hardware_timer q = true).
Proof.
  intros [_ Hth] Htr. destruct (Hth x) as [A1 A2 A3]. rewrite Htr in A2. unfold kind_ok in A2.
  destruct (queue_of (wc_waits s) x) as [q|]; cbn in A2; [|by destruct A2]. exists q. split; [done|]. split; [by apply A1|].
  split; [|split; [|intros Hp; by destruct (A3 Hp) as (q' & [= <-] & ?)]];
    destruct (queue_kind q) as [|c'|c'| |objs]; try by destruct A2 as (? & ?).
  - by destruct A2 as (_ & [[? _]|[_ ?]]).
  - by destruct A2 as (_ & ? & _).
  - destruct A2 as (E & [[_ [= <-]]|[_ ?]]); [|done]. by rewrite E.
  - destruct A2 as (E & _ & [= <-]). by rewrite E.
Qed.

Lemma tree_kind_objects q c : queue_kind q = (if is_arbiter c then ThreadQueueImplForKAddressArbiter c
    else ThreadQueueImplForKConditionVariableWaitConditionVariable c) →
  objects_of (Some q) = [] ∧ ∀ objs, queue_kind q ≠ ThreadQueueImplForKSynchronizationObjectWait objs.
Proof. intros E. unfold objects_of. cbn. rewrite E. by destruct (is_arbiter c). Qed.

(** The trees and the keys and priorities of their members. *)
Record same_trees (s s' : wctx) (c : Z) (tree : list Z) : Prop := MkSameTrees {
  st_trees : lc_cv_trees (wc_locks s') = <[c := tree]> (lc_cv_trees (wc_locks s));
  st_ckey y : ckey (wc_locks s') y = ckey (wc_locks s) y;
  st_prio y : prio (wc_locks s') y = prio (wc_locks s) y
}.

Lemma wake_step (s : wctx) c x pre post : wait_ok s → lc_cv_trees (wc_locks s) !! c = Some (pre ++ x :: post) → ∃ s1 s2 s',
  EndWait x ResultSuccess s = Done true s1 ∧ IsWaitingForAddressArbiter s1 x = Done true true ∧
  ClearAddressArbiter x s1 = Done true s2 ∧ cv_erase c x s2 = Done true (head post, s') ∧
  wait_ok s' ∧ released s s' [x] ResultSuccess ∧ same_trees s s' c (pre ++ post) ∧
  (wakes_up (wc_timer s) (wc_waits s) → wakes_up (wc_timer s') (wc_waits s')).
Proof.
  intros Hok Hc. pose proof Hok as [HB Hth]. pose proof (wb_locks _ HB) as ((Hwf & _) & _).
  destruct (tree_members s c _ HB Hc x) as (k & Hk & Hkc & _); [set_solver|].
  assert (tree_of (wc_locks s) x = Some c) as Htr by (by rewrite (tree_of_some _ _ _ Hk)).
  destruct (tree_queue s x c Hok Htr) as (q & Hq & Hst & Ho & Eq & Ht).
  destruct (tree_kind_objects q c Eq) as [Eobj Hns].
  destruct (EndWait_run s x q ResultSuccess HB Hst Hq) as (s1 & E1 & HB1 & Hwk & Hwu); [rewrite Eq; by destruct (is_arbiter c)|done|done|].
  destruct (wk_sched _ _ _ _ Hwk) as (cc & EL & Hv & Hcur).
  assert (lc_locks (wc_locks s1) !! x = Some k) as Hk1 by (by rewrite EL).
  destruct (leave_facts s1 x k c HB1 Hk1 Hkc) as (l1 & l2 & Hc1 & N1 & N2 & HB' & Hg).
  assert (l1 = pre ∧ l2 = post) as [-> ->].
  { rewrite EL in Hc1. cbn in Hc1. rewrite Hc in Hc1. injection Hc1 as E. pose proof (co_NoDup _ _ _ (wf_cv _ Hwf c _ Hc)) as Hnd.
    destruct (split_unique x l1 l2 pre post); try done. apply NoDup_app in Hnd as (_ & Hd & _). intros Hx. apply (Hd x Hx). left. }
  set (s' := set_lock_state (left_tree (wc_locks s1) x k c (pre ++ post)) s1) in *.
  pose proof (woken_released _ _ _ _ _ Hwk (no_objects s x (Some q) None (Hth x) Hq Eobj eq_refl) Hg) as R.
  exists s1, (set_lock_state (set_locks (<[x := set_condvar_tree None k]> (lc_locks (wc_locks s1))) (wc_locks s1)) s1), s'.
  split_and!; [done| | | | |done| |].
  - unfold IsWaitingForAddressArbiter. rewrite (get_locks_run _ _ k) by done. pstep. by rewrite Hkc, bool_decide_true.
  - unfold ClearAddressArbiter. apply on_locks_run. by rewrite (change_locks_run _ x k).
  - unfold cv_erase, cv_next, cv_tree_of, deref. cbn [set_lock_state set_locks wc_locks lc_cv_trees]. rewrite Hc1. pstep.
    rewrite list_find_eq by done. pstep. rewrite (erase_from_cv_run _ x c pre post) by done. pstep. do 2 f_equal.
    rewrite lookup_app_r by lia. replace (S (length pre) - length pre)%nat with 1%nat by lia. by destruct post.
  - apply (released_ok s s' [x] ResultSuccess); [by intros y _|done|done].
  - constructor; cbn.
    + by rewrite EL.
    + intros y. unfold ckey. cbn. rewrite EL. cbn. destruct (decide (y = x)) as [->|]; [by rewrite lookup_insert_eq, Hk|by rewrite lookup_insert_ne].
    + intros y. change (prio (wc_locks s1) y = prio (wc_locks s) y). rewrite EL. by apply same_view_prio.
  - done.
Qed.

(** ** Waking as many as asked for *)
Lemma at_key_run (s : wctx) c tree it key : wait_base s → lc_cv_trees (wc_locks s) !! c = Some tree →
  (∀ y, it = Some y → y ∈ tree) →
  at_key it key s = Done true (match it with Some y => ckey (wc_locks s) y =? key | None => false end).
Proof.
  intros HB Hc Hin. destruct it as [y|]; [|done]. destruct (tree_members s c tree HB Hc y (Hin y eq_refl)) as (k & Hk & _).
  unfold at_key. rewrite (get_locks_run _ _ k) by done. pstep. unfold ckey. by rewrite Hk.
Qed.

Lemma same_trees_nil (s : wctx) c tree : lc_cv_trees (wc_locks s) !! c = Some tree → same_trees s s c tree.
Proof. intros Hc. constructor; try done. by rewrite insert_id. Qed.

Lemma same_trees_trans (s s1 s2 : wctx) c t1 t2 : same_trees s s1 c t1 → same_trees s1 s2 c t2 → same_trees s s2 c t2.
Proof.
  intros [A1 A2 A3] [B1 B2 B3]. constructor; [by rewrite B1, A1, insert_insert_eq|intros y; by rewrite B2|intros y; by rewrite B3].
Qed.

(** The first [count] of them, or all when [count] is not positive. *)
Definition first_of (count : Z) (xs : list Z) : list Z := if count <=? 0 then xs else take (Z.to_nat count) xs.

Definition still_to_wake (count n : Z) (xs : list Z) : list Z := if count <=? 0 then xs else take (Z.to_nat (count - n)) xs.

Lemma still_cons count n x xs : 0 ≤ n → more count n = true →
  still_to_wake count n (x :: xs) = x :: still_to_wake count (n + 1) xs.
Proof.
  unfold still_to_wake, more. intros Hn Hm. destruct (count <=? 0) eqn:E; [done|]. cbn in Hm. bool_prop.
  replace (Z.to_nat (count - n)) with (S (Z.to_nat (count - (n + 1)))) by lia. done.
Qed.

Lemma still_none count n xs : 0 ≤ n → more count n = false → still_to_wake count n xs = [].
Proof.
  unfold still_to_wake, more. intros Hn Hm. destruct (count <=? 0) eqn:E; [done|]. cbn in Hm. bool_prop.
  by replace (Z.to_nat (count - n)) with 0%nat by lia.
Qed.

Lemma still_nil count n : still_to_wake count n [] = [].
Proof. unfold still_to_wake. case_match; [done|]. by rewrite take_nil. Qed.

Lemma s32_checked_run z : -2 ^ 31 ≤ z < 2 ^ 31 → s32_checked z = Done true z.
Proof. intros Hz. unfold s32_checked. by rewrite (proj2 (Z.leb_le _ _)), (proj2 (Z.ltb_lt _ _)) by lia. Qed.

(** The loop at its end: no more are asked for, or no more have the key. *)
Lemma wake_stop fuel (s : wctx) c key count n it tree : wait_base s → lc_cv_trees (wc_locks s) !! c = Some tree →
  (∀ y, it = Some y → y ∈ tree ∧ (more count n = true → ckey (wc_locks s) y ≠ key)) →
  wake_loop fuel c key count n it s = Done true s.
Proof.
  intros HB Hc Hit. destruct fuel; cbn [wake_loop]; rewrite (at_key_run s c tree) by (done || (intros; by apply Hit)); pstep;
    (destruct it as [y|]; [|done]; destruct (Hit y eq_refl) as [_ Hne]; destruct (more count n); [|done];
     by rewrite (proj2 (Z.eqb_neq _ _) (Hne eq_refl))).
Qed.

Lemma wake_loop_run xs : ∀ fuel (s : wctx) c key count n pre rest,
  wait_ok s → lc_cv_trees (wc_locks s) !! c = Some (pre ++ xs ++ rest) →
  Forall (λ y, ckey (wc_locks s) y = key) xs → (∀ y, head rest = Some y → ckey (wc_locks s) y ≠ key) →
  (length xs ≤ fuel)%nat → 0 ≤ n → n + Z.of_nat (length xs) < 2 ^ 31 → ∃ s',
  wake_loop fuel c key count n (head (xs ++ rest)) s = Done true s' ∧ wait_ok s' ∧
  released s s' (still_to_wake count n xs) ResultSuccess ∧
  same_trees s s' c (pre ++ drop (length (still_to_wake count n xs)) xs ++ rest) ∧
  (wakes_up (wc_timer s) (wc_waits s) → wakes_up (wc_timer s') (wc_waits s')).
Proof.
  induction xs as [|x xs IH]; intros fuel s c key count n pre rest Hok Hc Hxs Hrest Hfuel Hn Hlen.
  { exists s. rewrite still_nil. split_and!; [|done|apply released_nil|by apply same_trees_nil|done].
    apply (wake_stop _ _ _ _ _ _ _ _ (wo_base _ Hok) Hc). intros y Hy. cbn [app] in Hy. split; [|intros _; by apply Hrest].
    destruct rest; [done|]. injection Hy as ->. set_solver. }
  apply Forall_cons in Hxs as [Hx Hxs]. destruct (more count n) eqn:Em.
  2:{ exists s. rewrite still_none by done. split_and!; [|done|apply released_nil|by apply same_trees_nil|done].
      apply (wake_stop _ _ _ _ _ _ _ _ (wo_base _ Hok) Hc). intros y [= <-]. split; [set_solver|congruence]. }
  cbn [length] in Hfuel, Hlen. destruct fuel as [|fuel]; [lia|]. cbn [app head wake_loop].
  rewrite (at_key_run s c _ _ key (wo_base _ Hok) Hc) by (intros y [= <-]; set_solver). pstep.
  rewrite Em, (proj2 (Z.eqb_eq _ _) Hx). cbn [andb].
  destruct (wake_step s c x pre (xs ++ rest) Hok Hc) as (s1 & s2 & s3 & E1 & E2 & E3 & E4 & Hok3 & R & St & Hwu).
  rewrite E1, bind_Done_true, E2, bind_Done_true. change (ASSERT true) with (Done true tt). pstep.
  rewrite E3, bind_Done_true, E4. pstep. rewrite s32_checked_run by lia. pstep.
  destruct (IH fuel s3 c key count (n + 1) pre rest) as (s' & E' & Hok' & R' & St' & Hwu'); try done; [| | |lia|lia|lia|].
  - rewrite (st_trees _ _ _ _ St). apply lookup_insert_eq.
  - eapply Forall_impl; [exact Hxs|]. intros y. by rewrite (st_ckey _ _ _ _ St).
  - intros y Hy. rewrite (st_ckey _ _ _ _ St). by apply Hrest.
  - exists s'. rewrite still_cons by done. split_and!; [done|done| | |auto].
    + by apply (released_trans s s3 s' [x]).
    + by apply (same_trees_trans s s3 s' c (pre ++ xs ++ rest)).
Qed.

Lemma still_first count xs : still_to_wake count 0 xs = first_of count xs.
Proof. unfold still_to_wake, first_of. by rewrite Z.sub_0_r. Qed.

Lemma tree_size (s : wctx) c tree : wait_base s → lc_cv_trees (wc_locks s) !! c = Some tree → Z.of_nat (length tree) < 2 ^ 31.
Proof.
  intros HB Hc. pose proof (wb_locks _ HB) as ((Hwf & _) & _). pose proof (wf_size _ Hwf).
  assert (length tree ≤ size (lc_locks (wc_locks s)))%nat; [|lia].
  rewrite <- size_dom, <- (size_list_to_set (C := gset Z)) by apply (co_NoDup _ _ _ (wf_cv _ Hwf c tree Hc)).
  apply subseteq_size. intros y. rewrite elem_of_list_to_set, elem_of_dom. intros Hy.
  destruct (tree_members s c tree HB Hc y Hy) as (k & ? & _). by eexists.
Qed.

(** ** All of it: the waiters are found and the first of them woken *)
Record woke (s s' : wctx) (c key count : Z) : Prop := MkWoke {
  wk_released : released s s' (first_of count (waiters_at s c key)) ResultSuccess;
  wk_tree : same_trees s s' c (filter (λ y, y ∉ first_of count (waiters_at s c key)) (cv_tree s c))
}.

Lemma filter_without (l1 ys zs l3 : list Z) : NoDup (l1 ++ (ys ++ zs) ++ l3) →
  filter (λ y, y ∉ ys) (l1 ++ (ys ++ zs) ++ l3) = l1 ++ zs ++ l3.
Proof.
  intros (N1 & D1 & (N2 & D2 & N3)%NoDup_app)%NoDup_app. apply NoDup_app in N2 as (N4 & D4 & N5).
  rewrite !filter_app, (filter_nil _ ys) by (apply Forall_forall; tauto).
  rewrite !filter_id; [done|..]; apply Forall_forall; intros y Hy Hin.
  - apply (D2 y); [set_solver|done].
  - by apply (D4 y).
  - apply (D1 y); set_solver.
Qed.

Lemma first_split count xs : first_of count xs ++ drop (length (first_of count xs)) xs = xs.
Proof.
  unfold first_of. case_match; [by rewrite drop_all, app_nil_r|]. rewrite length_take.
  destruct (decide (Z.to_nat count ≤ length xs)%nat); [rewrite Nat.min_l by done; apply take_drop|].
  by rewrite Nat.min_r, take_ge, drop_all, app_nil_r by lia.
Qed.

Lemma memory_ok (s : wctx) m : wait_ok s → wait_ok (set_memory m s).
Proof. intros [HB Hth]. constructor; [by destruct HB|]. intros y. destruct (Hth y). by constructor. Qed.

(** The tree is in three parts: before the key, with the key, after it. *)
Record groups (s : wctx) (c key : Z) (l1 xs l3 : list Z) : Prop := MkGroups {
  gr_tree : lc_cv_trees (wc_locks s) !! c = Some (l1 ++ xs ++ l3);
  gr_waiters : waiters_at s c key = xs;
  gr_key : Forall (λ y, ckey (wc_locks s) y = key) xs;
  gr_after y : head l3 = Some y → ckey (wc_locks s) y ≠ key;
  gr_find : cv_nfind c key s = Done true (head (xs ++ l3))
}.

Lemma groups_exist (s : wctx) c tree key : wait_base s → lc_cv_trees (wc_locks s) !! c = Some tree →
  ∃ l1 xs l3, groups s c key l1 xs l3.
Proof.
  intros HB Hc. pose proof (wb_locks _ HB) as ((Hwf & _) & _).
  destruct (cv_nfind_run s c tree key HB Hc) as (l1 & l2 & E & -> & F1 & F2).
  pose proof (wf_cv _ Hwf c _ Hc) as [Hnd Hs _]. assert (sorted_by (cv_lt (wc_locks s)) l2) as Hs2.
  { clear -Hs. induction l1 as [|y l1 IH]; [done|]. apply IH. by apply StronglySorted_inv in Hs as [? _]. }
  destruct (group_split s key l2 Hs2 F2) as (xs & l3 & -> & F3 & F4). exists l1, xs, l3. constructor; try done.
  - unfold waiters_at. rewrite (cv_tree_some s c _ Hc).
    rewrite !filter_app, (filter_nil _ l1), (filter_id _ xs), (filter_nil _ l3), app_nil_r; [done| |done|];
      (eapply Forall_impl; [eassumption|]; cbn; lia).
  - intros y Hy. destruct l3 as [|z l3]; [done|]. injection Hy as ->. apply Forall_cons in F4 as [? _]. lia.
Qed.

Lemma wake_run (s : wctx) c tree key count : wait_ok s → lc_cv_trees (wc_locks s) !! c = Some tree → ∃ it,
  cv_nfind c key s = Done true it ∧
  ∀ m, ∃ s', wake c key count it (set_memory m s) = Done true s' ∧ wait_ok s' ∧ woke (set_memory m s) s' c key count ∧
  (wakes_up (wc_timer s) (wc_waits s) → wakes_up (wc_timer s') (wc_waits s')).
Proof.
  intros Hok Hc0. pose proof Hok as [HB _]. pose proof (wb_locks _ HB) as ((Hwf & _) & _).
  destruct (groups_exist s c tree key HB Hc0) as (l1 & xs & l3 & [Hc Ew0 Hkey Hafter E]). exists (head (xs ++ l3)). split; [done|].
  intros m. set (s0 := set_memory m s). assert (waiters_at s0 c key = xs) as Ew by done.
  pose proof (co_NoDup _ _ _ (wf_cv _ Hwf c _ Hc)) as Hnd.
  pose proof (tree_size s c _ HB Hc) as Hsz. rewrite !length_app in Hsz.
  destruct (wake_loop_run xs (length (l1 ++ xs ++ l3)) s0 c key count 0 l1 l3) as (s' & E' & Hok' & R & St & Hwu);
    [by apply memory_ok|done|done|done|rewrite !length_app; lia|lia|lia|].
  rewrite still_first in R, St. exists s'. split; [|split; [done|split; [|done]]].
  - unfold wake, cv_tree_of, deref. cbn [s0 set_memory wc_locks]. rewrite Hc. by pstep.
  - constructor; rewrite Ew; [done|]. rewrite (cv_tree_some s0 c _ Hc).
    pose proof (first_split count xs) as Exs. clear -St Hnd Exs. set (ys := first_of count xs) in *.
    set (zs := drop (length ys) xs) in *. clearbody zs. clearbody ys. subst xs. by rewrite filter_without.
Qed.
End Arbiter.

(** * What the address arbiter does *)

(** Each exclusive store that fails uses up one of the tries. *)
Class GuestMemoryLaws (M : Type) `{GuestMemory M} : Prop :=
  exclusive_fails a v v' (m m1 m2 : M) : ExclusiveRead32 a m = (v, m1) → ExclusiveWrite32 a v' m1 = (false, m2) →
    (exclusive_tries m2 < exclusive_tries m)%nat.

Section Memory.
Context {M : Type} `{GuestMemoryLaws M}.

(** The word at the address was [v] when it was replaced by [f v] in one exclusive
    access; the accesses before that failed. *)
Inductive word_replaced (f : Z → Z) (a : Z) : M → Z → M → Prop :=
| replaced_now m v m1 m2 : ExclusiveRead32 a m = (v, m1) → ExclusiveWrite32 a (f v) m1 = (true, m2) →
    word_replaced f a m v m2
| replaced_later m v m1 m2 v' m' : ExclusiveRead32 a m = (v, m1) → ExclusiveWrite32 a (f v) m1 = (false, m2) →
    word_replaced f a m2 v' m' → word_replaced f a m v' m'.

(** A lock that is free gets the tag of its new owner, and one that is owned gets the
    flag that others wait. *)
Definition wanted_word (tag v : Z) : Z := if decide (v = InvalidHandle) then tag else Z.lor v HandleWaitMask.

Lemma update_lock_run a z n (m : M) : (exclusive_tries m < n)%nat →
  ∃ v m', update_lock_loop n a z HandleWaitMask m = Done true (v, m') ∧ word_replaced (wanted_word z) a m v m'.
Proof.
  revert m. induction n as [|n IH]; intros m Hn; [lia|]. cbn [update_lock_loop].
  destruct (ExclusiveRead32 a m) as [v m1] eqn:E1.
  assert ((if v =? 0 then z else Z.lor v HandleWaitMask) = wanted_word z v) as ->
    by (unfold wanted_word; case_decide as Hv; destruct (Z.eqb_spec v 0); done).
  destruct (ExclusiveWrite32 a _ m1) as [[] m2] eqn:E2; [eexists _, _; split; [done|by eapply replaced_now]|].
  destruct (IH m2) as (v' & m' & -> & Hr); [pose proof (exclusive_fails _ _ _ _ _ _ E1 E2); lia|].
  eexists _, _. split; [done|]. by eapply replaced_later.
Qed.

Lemma update_equal_run a value nv n (m : M) : (exclusive_tries m < n)%nat →
  ∃ v m', update_equal_loop n a value nv m = Done true (v, m').
Proof.
  revert m. induction n as [|n IH]; intros m Hn; [lia|]. cbn [update_equal_loop].
  destruct (ExclusiveRead32 a m) as [v m1] eqn:E1. destruct (s32 v =? value); [|by eexists _, _].
  destruct (ExclusiveWrite32 a _ m1) as [[] m2] eqn:E2; [by eexists _, _|].
  apply IH. pose proof (exclusive_fails _ _ _ _ _ _ E1 E2). lia.
Qed.
End Memory.

Section Arbiter.
Context {C H M : Type} `{Clock C} `{ThreadHandles H} `{GuestMemoryLaws M} `{TreeKinds}.
Local Abbreviation wctx := (WaitContext C H M).

Lemma UpdateIfEqual_run a value nv (s : wctx) : ∃ v m, UpdateIfEqual a value nv s = Done true (v, set_memory m s).
Proof.
  unfold UpdateIfEqual. destruct (update_equal_run a value nv (S (exclusive_tries (wc_memory s))) (wc_memory s)) as (v & m & ->); [lia|].
  exists v, m. by pstep.
Qed.

(** ** The value that says how many wait *)
Lemma cv_next_run (s : wctx) c x pre post : wait_base s → lc_cv_trees (wc_locks s) !! c = Some (pre ++ x :: post) →
  cv_next c x s = Done true (head post).
Proof.
  intros HB Hc. pose proof (wb_locks _ HB) as ((Hwf & _) & _). pose proof (co_NoDup _ _ _ (wf_cv _ Hwf c _ Hc)) as Hnd.
  unfold cv_next, cv_tree_of, deref. rewrite Hc. pstep. rewrite list_find_eq.
  - rewrite lookup_app_r by lia. replace (S (length pre) - length pre)%nat with 1%nat by lia. by destruct post.
  - apply NoDup_app in Hnd as (_ & Hd & _). intros Hx. apply (Hd x Hx). left.
Qed.

Lemma count_waiters_run ys : ∀ fuel (s : wctx) c key count n x pre rest,
  wait_base s → lc_cv_trees (wc_locks s) !! c = Some (pre ++ x :: ys ++ rest) →
  Forall (λ y, ckey (wc_locks s) y = key) ys → (∀ y, head rest = Some y → ckey (wc_locks s) y ≠ key) →
  (length ys ≤ fuel)%nat → 0 ≤ n ≤ count → n + Z.of_nat (length ys) < 2 ^ 31 →
  count_waiters fuel c key count n x s = Done true (n + Z.min (Z.of_nat (length ys)) (count - n + 1)).
Proof.
  induction ys as [|y ys IH]; intros fuel s c key count n x pre rest HB Hc Hys Hrest Hfuel Hn Hlen.
  - assert (∀ y, head rest = Some y → y ∈ pre ++ x :: [] ++ rest) as Hin.
    { intros y Hy. destruct rest; [done|]. injection Hy as ->. set_solver. }
    replace (n + Z.min (Z.of_nat (length (@nil Z))) (count - n + 1)) with n by (cbn; lia).
    destruct fuel; cbn [count_waiters]; rewrite (cv_next_run s c x pre ([] ++ rest)) by done; cbn [app] in *; pstep;
      rewrite (at_key_run s c _ _ key HB Hc) by done; pstep;
      (destruct (head rest) as [y|] eqn:Ey; [|done]); by rewrite (proj2 (Z.eqb_neq _ _) (Hrest y eq_refl)).
  - apply Forall_cons in Hys as [Hy Hys]. cbn [length] in Hfuel, Hlen. destruct fuel as [|fuel]; [lia|]. cbn [count_waiters].
    rewrite (cv_next_run s c x pre ((y :: ys) ++ rest)) by done. cbn [app head] in *. pstep.
    rewrite (at_key_run s c _ _ key HB Hc) by (intros z [= <-]; set_solver). pstep. rewrite (proj2 (Z.eqb_eq _ _) Hy).
    rewrite s32_checked_run by lia. pstep. destruct (count <=? n) eqn:Ec; bool_prop.
    + pstep. f_equal. cbn [length]. lia.
    + rewrite (IH fuel s c key count (n + 1) y (pre ++ [x]) rest); try done; [|by rewrite <- app_assoc|lia|lia|lia].
      f_equal. cbn [length]. lia.
Qed.

(** The new value, by the number [w] of threads that wait. *)
Definition value_by_waiters (value count w : Z) : Z :=
  if w =? 0 then value + 1 else if count <=? 0 then value - 2 else if w <=? count then value - 1 else value.

Lemma modified_value_run (s : wctx) c tree key value count : wait_base s → lc_cv_trees (wc_locks s) !! c = Some tree →
  -2 ^ 31 + 2 ≤ value < 2 ^ 31 - 1 → ∃ it, cv_nfind c key s = Done true it ∧ 
  modified_value c key value count it s =
    Done true (value_by_waiters value count (Z.of_nat (length (waiters_at s c key)))).
Proof.
  intros HB Hc0 Hv. destruct (groups_exist s c tree key HB Hc0) as (l1 & xs & l3 & [Hc -> Hkey Hafter E]).
  exists (head (xs ++ l3)). split; [done|]. pose proof (tree_size s c _ HB Hc) as Hsz. rewrite !length_app in Hsz.
  unfold modified_value. rewrite (at_key_run s c _ _ key HB Hc), bind_Done_true.
  2:{ intros y Hy. destruct xs; cbn in Hy; [destruct l3|]; simplify_eq; set_solver. }
  unfold value_by_waiters. destruct xs as [|x xs]; cbn [app head].
  - assert (match head l3 with Some y => ckey (wc_locks s) y =? key | None => false end = false) as ->.
    { destruct (head l3) as [y|]; [|done]. by apply Z.eqb_neq, Hafter. }
    destruct (count <=? 0), (head l3); by apply (s32_checked_run (value + 1)); lia.
  - apply Forall_cons in Hkey as [Hx Hkey]. rewrite (proj2 (Z.eqb_eq _ _) Hx). rewrite (proj2 (Z.eqb_neq (Z.of_nat (length (x :: xs))) 0)) by (cbn; lia).
    destruct (count <=? 0) eqn:Ec; bool_prop; [apply (s32_checked_run (value - 2)); lia|].
    unfold cv_tree_of, deref. rewrite Hc. pstep. cbn [length] in Hsz.
    rewrite (count_waiters_run xs _ s c key count 0 x l1 l3 HB Hc) by (done || lia || (rewrite !length_app; cbn; lia)). pstep.
    cbn [length]. rewrite Z.add_0_l, Z.sub_0_r. destruct (Z.of_nat (S (length xs)) <=? count) eqn:Ew; bool_prop.
    + rewrite (proj2 (Z.ltb_lt _ _)) by lia. apply s32_checked_run. lia.
    + by rewrite (proj2 (Z.ltb_ge _ _)) by lia.
Qed.

(** ** Signals *)
Lemma set_memory_id (s : wctx) : set_memory (wc_memory s) s = s.
Proof. by destruct s. Qed.

(** The word had another value and nothing was done, or the first waiters were woken. *)
Definition signalled (s s' : wctx) (r c key count : Z) : Prop := ∃ m,
  r = ResultInvalidState ∧ s' = set_memory m s ∨ r = ResultSuccess ∧ woke (set_memory m s) s' c key count.

Lemma KAddressArbiter_Signal_run (s : wctx) c tree key count : wait_ok s → lc_cv_trees (wc_locks s) !! c = Some tree → ∃ s',
  KAddressArbiter_Signal c key count s = Done true (ResultSuccess, s') ∧ wait_ok s' ∧ woke s s' c key count ∧
  (wakes_up (wc_timer s) (wc_waits s) → wakes_up (wc_timer s') (wc_waits s')).
Proof.
  intros Hok Hc. destruct (wake_run s c tree key count Hok Hc) as (it & E & Hw).
  destruct (Hw (wc_memory s)) as (s' & E' & Hok' & Hwk & Hwu). rewrite set_memory_id in E', Hwk.
  exists s'. split; [|done]. unfold KAddressArbiter_Signal. rewrite E. pstep. rewrite E'. by pstep.
Qed.

(** What follows the access to the word. *)
Lemma signal_tail (s : wctx) c tree key count value v m it : wait_ok s → lc_cv_trees (wc_locks s) !! c = Some tree →
  cv_nfind c key s = Done true it → ∃ r s',
  (if negb (v =? value) then mret (ResultInvalidState, set_memory m s)
   else s ← wake c key count it (set_memory m s); mret (ResultSuccess, s)) = Done true (r, s') ∧ wait_ok s' ∧
  signalled s s' r c key count ∧ (wakes_up (wc_timer s) (wc_waits s) → wakes_up (wc_timer s') (wc_waits s')).
Proof.
  intros Hok Hc Eit. destruct (wake_run s c tree key count Hok Hc) as (it' & E & Hw). assert (it' = it) as -> by congruence.
  destruct (v =? value); cbn [negb].
  - destruct (Hw m) as (s' & E' & Hok' & Hwk & Hwu). exists ResultSuccess, s'. rewrite E'. pstep. split_and!; try done.
    exists m. by right.
  - eexists _, _. split; [done|]. split; [by apply memory_ok|]. split; [|done]. exists m. by left.
Qed.

Lemma SignalAndIncrementIfEqual_run (s : wctx) c tree key value count : wait_ok s → lc_cv_trees (wc_locks s) !! c = Some tree →
  -2 ^ 31 ≤ value < 2 ^ 31 - 1 → ∃ r s',
  SignalAndIncrementIfEqual c key value count s = Done true (r, s') ∧ wait_ok s' ∧
  signalled s s' r c key count ∧ (wakes_up (wc_timer s) (wc_waits s) → wakes_up (wc_timer s') (wc_waits s')).
Proof.
  intros Hok Hc Hv. unfold SignalAndIncrementIfEqual. rewrite s32_checked_run by lia. pstep.
  destruct (UpdateIfEqual_run key value (value + 1) s) as (v & m & ->). pstep.
  destruct (wake_run s c tree key count Hok Hc) as (it & E & _).
  destruct (signal_tail s c tree key count value v m it Hok Hc E) as (r & s' & Et & Hrest). exists r, s'. split; [|done].
  rewrite <- Et. destruct (negb (v =? value)); [done|]. change (cv_nfind c key (set_memory m s)) with (cv_nfind c key s).
  rewrite E. by pstep.
Qed.

Lemma SignalAndModify_run (s : wctx) c tree key value count : wait_ok s → lc_cv_trees (wc_locks s) !! c = Some tree →
  -2 ^ 31 + 2 ≤ value < 2 ^ 31 - 1 → ∃ r s',
  SignalAndModifyByWaitingCountIfEqual c key value count s = Done true (r, s') ∧ wait_ok s' ∧
  signalled s s' r c key count ∧ (wakes_up (wc_timer s) (wc_waits s) → wakes_up (wc_timer s') (wc_waits s')).
Proof.
  intros Hok Hc Hv. unfold SignalAndModifyByWaitingCountIfEqual.
  destruct (modified_value_run s c tree key value count (wo_base _ Hok) Hc Hv) as (it & E & Em).
  rewrite E, bind_Done_true, Em, bind_Done_true. set (nv := value_by_waiters _ _ _).
  assert (∃ v m, (if negb (value =? nv) then UpdateIfEqual key value nv s else mret (ReadFromUser_s32 key s)) =
    Done true (v, set_memory m s)) as (v & m & ->).
  { destruct (negb (value =? nv)); [apply UpdateIfEqual_run|]. unfold ReadFromUser_s32.
    destruct (Read32 key (wc_memory s)) as [v m]. by exists (s32 v), m. }
  pstep. by apply (signal_tail s c tree).
Qed.

(** ** Waits *)
Lemma no_owner_free (l : LockContext C) x k : lk_wf l → lc_locks l !! x = Some k → owner_of l x = None → m_waiting_lock_info k = None.
Proof.
  intros Hwf Hk Ho. destruct (m_waiting_lock_info k) as [i|] eqn:Ei; [|done].
  destruct (ho_wait _ _ _ (wf_held _ Hwf x k Hk) i Ei) as (j & Hj & _).
  destruct (io_owner _ _ _ (wf_info _ Hwf i j Hj)) as (z & _ & Hz & _). unfold owner_of in Ho. rewrite Hk, Ei, Hj in Ho. congruence.
Qed.

(** A thread that runs waits for nothing. *)
Lemma runs_free (s : wctx) x : wait_ok s → is_Some (wc_waits s !! x) → queue_of (wc_waits s) x = None → ∃ k w,
  lc_locks (wc_locks s) !! x = Some k ∧ wc_waits s !! x = Some w ∧ m_waiting_lock_info k = None ∧
  m_condvar_tree k = None ∧ m_time w = 0 ∧ owner_of (wc_locks s) x = None.
Proof.
  intros [HB Hth] [w Hw] Hq. destruct (base_thread s x HB ltac:(by eexists)) as (k & t & Hk & _). destruct (Hth x) as [_ A2 A3 _].
  rewrite Hq in A2, A3. destruct A2 as [Ho Htr]. exists k, w. pose proof (wb_locks _ HB) as ((Hwf & _) & _). split_and!; try done.
  - by apply (no_owner_free (wc_locks s) x).
  - by rewrite <- (tree_of_some _ _ _ Hk).
  - pose proof (tk_range _ _ (wb_tasks _ HB) x) as Hr. rewrite (time_of_some _ _ _ Hw) in A3, Hr.
    destruct (decide (0 < m_time w)) as [Hp|]; [|lia]. by destruct (A3 Hp) as (q & ? & _).
Qed.

(** It goes into a tree. *)
Definition entered (s : wctx) (x : Z) (k' : ThreadLocks) (c : Z) (tree : list Z) : wctx :=
  set_lock_state (retree_state (wc_locks s) x k' (<[c := tree]> (lc_cv_trees (wc_locks s)))) s.

Lemma enter_tree_run (s : wctx) x k k' c tree : wait_base s → lc_locks (wc_locks s) !! x = Some k → m_waiting_lock_info k = None →
  m_condvar_tree k = None → lc_cv_trees (wc_locks s) !! c = Some tree →
  m_base_priority k' = m_base_priority k → m_held_lock_info_list k' = m_held_lock_info_list k →
  m_waiting_lock_info k' = m_waiting_lock_info k → m_condvar_tree k' = Some c → ∃ l1 l2,
  tree = l1 ++ l2 ∧
  cv_insert c x (set_lock_state (set_locks (<[x := k']> (lc_locks (wc_locks s))) (wc_locks s)) s) =
    Done true (entered s x k' c (l1 ++ x :: l2)) ∧ wait_base (entered s x k' c (l1 ++ x :: l2)).
Proof.
  intros HB Hk Hw Hcv Hc Eb Eh Ew Ecv. pose proof (wb_locks _ HB) as HI. pose proof HI as ((Hwf & _) & _).
  destruct (enter_inv (wc_locks s) x k k' c tree) as (l1 & l2 & n & -> & Eins & HI'); try done. exists l1, l2. split; [done|].
  pose proof (tree_members s c _ HB Hc) as Hm.
  assert (x ∉ l1 ++ l2) as Hx by (intros Hx; destruct (Hm x Hx) as (k0 & ? & ? & _); congruence).
  destruct (proj1 (wf_dom _ Hwf x) ltac:(by eexists)) as [t Ht]. split.
  - unfold cv_insert, on_locks, deref. cbn [set_lock_state set_locks wc_locks lc_cv_trees]. rewrite Hc. pstep.
    rewrite GetPriority_run, bind_Done_true by (by eexists).
    rewrite (get_locks_run _ x k'), bind_Done_true by (cbn; by rewrite lookup_insert_eq).
    rewrite cv_keys_of_run, bind_Done_true.
    2:{ intros y Hy. destruct (Hm y Hy) as (k0 & ? & _ & ? & _). split; [done|]. cbn. rewrite lookup_insert_ne by (by intros ->). by eexists. }
    set (l := set_locks _ _). assert ((λ y, (y, (ckey l y, prio l y))) <$> l1 ++ l2 = keyed (wc_locks s) <$> l1 ++ l2) as ->.
    { apply list_fmap_ext. intros i y Hy. unfold keyed, ckey, l. cbn. rewrite lookup_insert_ne; [done|].
      intros ->. apply Hx. by eapply list_elem_of_lookup_2. }
    change (prio l x) with (prio (wc_locks s) x). rewrite Eins. pstep. unfold entered, retree_state, set_lock_state, set_cv_trees. cbn.
    do 4 f_equal. rewrite <- list_fmap_compose. rewrite <- (list_fmap_id (l1 ++ x :: l2)) at 2. apply list_fmap_ext.
    intros i y _. cbn. by case_decide.
  - apply locks_base; [done|done|]. intros y. by apply (retree_dom _ x k).
Qed.

(** The thread [x] waits on [kind], with its lock data [k'], in the tree [c]. *)
Definition queued (s s' : wctx) (x : Z) (k' : ThreadLocks) (c : Z) (kind : WaitQueueKind) (timeout : Z) : Prop := ∃ l1 l2,
  cv_tree s c = l1 ++ l2 ∧
  began (entered s x k' c (l1 ++ x :: l2)) s' x (MkThreadQueue kind (0 <? timeout)) (Z.max 0 timeout).

Lemma queue_run (s : wctx) x k k' c tree kind timeout : wait_ok s → lc_locks (wc_locks s) !! x = Some k →
  queue_of (wc_waits s) x = None → lc_cv_trees (wc_locks s) !! c = Some tree →
  m_base_priority k' = m_base_priority k → m_held_lock_info_list k' = m_held_lock_info_list k →
  m_waiting_lock_info k' = m_waiting_lock_info k → m_condvar_tree k' = Some c → timeout ≤ S64_MAX →
  kind = (if is_arbiter c then ThreadQueueImplForKAddressArbiter c
          else ThreadQueueImplForKConditionVariableWaitConditionVariable c) → ∃ s',
  (s ← cv_insert c x (set_lock_state (set_locks (<[x := k']> (lc_locks (wc_locks s))) (wc_locks s)) s);
   begin_wait_with_timeout x kind timeout s) = Done true (None, s') ∧ wait_ok s' ∧
  queued s s' x k' c kind timeout ∧ (wakes_up (wc_timer s) (wc_waits s) → wakes_up (wc_timer s') (wc_waits s')).
Proof.
  intros Hok Hk Hq Hc Eb Eh Ew Ecv Hto Hkind. pose proof Hok as [HB Hth].
  destruct (runs_free s x Hok) as (k0 & w & Hk0 & Hw & Hwl & Hcv & Hw0 & Ho); [apply (wb_dom _ HB); by eexists|done|].
  assert (k0 = k) as -> by congruence.
  destruct (enter_tree_run s x k k' c tree) as (l1 & l2 & -> & E & HB1); try done. rewrite E, bind_Done_true.
  set (s1 := entered s x k' c (l1 ++ x :: l2)) in *.
  assert (∀ y, owner_of (wc_locks s1) y = owner_of (wc_locks s) y) as HO by (intros y; by apply (retree_owner (wc_locks s) x k)).
  assert (∀ y, tree_of (wc_locks s1) y = if decide (y = x) then Some c else tree_of (wc_locks s) y) as HTr.
  { intros y. unfold tree_of. cbn. case_decide; [subst; by rewrite lookup_insert_eq|by rewrite lookup_insert_ne]. }
  destruct (begin_run s1 x kind timeout w) as (s' & E' & Hok' & Hbg & Hwu); try done.
  - intros y Hy. destruct (Hth y) as [A1 A2 A3 A4]. constructor; [done| |done|done]. rewrite HO, HTr, decide_False by done. done.
  - rewrite HO, HTr, Ho, decide_True by done. unfold kind_ok. cbn. rewrite Hkind. destruct (is_arbiter c) eqn:Ea; cbn; [done|].
    split; [done|by left].
  - apply (no_objects s x None); [apply Hth|done|done|]. by destruct (tree_kind_objects (MkThreadQueue kind (0 <? timeout)) c Hkind).
  - exists s'. split_and!; try done. exists l1, l2. split; [by rewrite (cv_tree_some _ _ _ Hc)|done].
Qed.

(** The lock data of a thread that waits at an arbiter. *)
Definition arbiter_locks (c key : Z) (k : ThreadLocks) : ThreadLocks :=
  MkLocks (m_base_priority k) (m_held_lock_info_list k) (m_waiting_lock_info k) (m_address_key k)
    (m_is_kernel_address_key k) (Some c) key (is_pinned k) (m_address_key_value k).

(** The call returns at once, or the thread waits for the address. *)
Definition arbiter_waits (s s' : wctx) (o : option Z) (c key timeout : Z) : Prop := ∃ m,
  match o with
  | Some r => s' = set_memory m s
  | None => ∃ k, lc_locks (wc_locks s) !! current_thread s = Some k ∧
      queued (set_memory m s) s' (current_thread s) (arbiter_locks c key k) c (ThreadQueueImplForKAddressArbiter c) timeout
  end.

Lemma wait_arbiter_run (s : wctx) m c tree key timeout : wait_ok s → is_Some (wc_waits s !! current_thread s) →
  queue_of (wc_waits s) (current_thread s) = None → lc_cv_trees (wc_locks s) !! c = Some tree → is_arbiter c = true →
  timeout ≤ S64_MAX → ∃ o s', wait_arbiter c key timeout (set_memory m s) = Done true (o, s') ∧ wait_ok s' ∧
  arbiter_waits s s' o c key timeout ∧ (wakes_up (wc_timer s) (wc_waits s) → wakes_up (wc_timer s') (wc_waits s')).
Proof.
  intros Hok Hx Hq Hc Ha Hto. unfold wait_arbiter. change (current_thread (set_memory m s)) with (current_thread s).
  destruct (timeout =? 0).
  { eexists _, _. split; [done|]. split; [by apply memory_ok|]. split; [by exists m|done]. }
  destruct (runs_free s _ Hok Hx Hq) as (k & w & Hk & Hw & Hwl & Hcv & Hw0 & Ho).
  unfold SetAddressArbiter. cbn [set_memory wc_locks]. rewrite (get_locks_run _ _ k), bind_Done_true, Hwl, bool_decide_true by done.
  change (ASSERT true) with (Done true tt). pstep.
  erewrite on_locks_run by (by apply (change_locks_run _ _ k)). rewrite bind_Done_true.
  destruct (queue_run (set_memory m s) (current_thread s) k (arbiter_locks c key k) c tree (ThreadQueueImplForKAddressArbiter c) timeout)
    as (s' & E & Hok' & Hqd & Hwu); try done; [by apply memory_ok|by rewrite Ha|].
  exists None, s'. split; [exact E|]. split; [done|]. split; [|done]. exists m, k. done.
Qed.

Lemma IsTerminationRequested_run (s : wctx) x : wait_base s → is_Some (wc_waits s !! x) →
  ∃ b, IsTerminationRequested s x = Done true b.
Proof.
  intros HB [w Hw]. destruct (base_thread s x HB ltac:(by eexists)) as (k & t & _ & Ht). unfold IsTerminationRequested.
  rewrite (get_waits_run _ _ w), bind_Done_true, (get_thread_run _ _ t) by done. pstep. by eexists.
Qed.

Lemma terminating_returns (s : wctx) r c key timeout : wait_ok s → arbiter_waits s s (Some r) c key timeout.
Proof. intros Hok. exists (wc_memory s). by rewrite set_memory_id. Qed.

Lemma WaitIfEqual_run (s : wctx) c tree key value timeout : wait_ok s → is_Some (wc_waits s !! current_thread s) →
  queue_of (wc_waits s) (current_thread s) = None → lc_cv_trees (wc_locks s) !! c = Some tree → is_arbiter c = true →
  timeout ≤ S64_MAX → ∃ o s', WaitIfEqual c key value timeout s = Done true (o, s') ∧ wait_ok s' ∧
  arbiter_waits s s' o c key timeout ∧ (wakes_up (wc_timer s) (wc_waits s) → wakes_up (wc_timer s') (wc_waits s')).
Proof.
  intros Hok Hx Hq Hc Ha Hto. unfold WaitIfEqual. destruct (IsTerminationRequested_run s _ (wo_base _ Hok) Hx) as (b & ->). pstep.
  destruct b. { exists (Some ResultTerminationRequested), s. split_and!; try done. by apply terminating_returns. }
  unfold ReadFromUser_s32. destruct (Read32 key (wc_memory s)) as [v m]. destruct (negb (value =? s32 v)).
  - eexists _, _. split; [done|]. split; [by apply memory_ok|]. split; [by exists m|done].
  - by apply (wait_arbiter_run s m c tree).
Qed.

Lemma WaitIfLessThan_run (s : wctx) c tree key value (decrement : bool) timeout : wait_ok s → is_Some (wc_waits s !! current_thread s) →
  queue_of (wc_waits s) (current_thread s) = None → lc_cv_trees (wc_locks s) !! c = Some tree → is_arbiter c = true →
  timeout ≤ S64_MAX → (decrement = true → ∃ v m, DecrementIfLessThan key value s = Done true (v, set_memory m s)) →
  ∃ o s', WaitIfLessThan c key value decrement timeout s = Done true (o, s') ∧ wait_ok s' ∧
  arbiter_waits s s' o c key timeout ∧ (wakes_up (wc_timer s) (wc_waits s) → wakes_up (wc_timer s') (wc_waits s')).
Proof.
  intros Hok Hx Hq Hc Ha Hto Hdec. unfold WaitIfLessThan. destruct (IsTerminationRequested_run s _ (wo_base _ Hok) Hx) as (b & ->). pstep.
  destruct b. { exists (Some ResultTerminationRequested), s. split_and!; try done. by apply terminating_returns. }
  assert (∃ v m, (if decrement then DecrementIfLessThan key value s else mret (ReadFromUser_s32 key s)) = Done true (v, set_memory m s))
    as (v & m & ->).
  { destruct decrement; [by apply Hdec|]. unfold ReadFromUser_s32. destruct (Read32 key (wc_memory s)) as [v m]. by exists (s32 v), m. }
  pstep. destruct (value <=? v).
  - eexists _, _. split; [done|]. split; [by apply memory_ok|]. split; [by exists m|done].
  - by apply (wait_arbiter_run s m c tree).
Qed.
End Arbiter.
