(* ===== verification/ConditionVariableLemmas.v ===== *)
(** * What the locks and the condition variables of the guest do *)

From Stdlib Require Import Sorting.Sorted.
From S2P Require Import Prelude Common OrderedTree Thread PriorityQueue PriorityQueueTheorems PriorityQueueRefinement Scheduler SchedulerLemmas SchedulerOperations Locks LocksLemmas LocksOperations LocksTransfer LocksTheorems SynchronizationObject Waiting SynchronizationLemmas ConditionVariable WaitingLemmas AddressArbiterLemmas.

(** What a handle names; taking and dropping references does not change it. *)
Class ThreadHandlesLaws (H : Type) `{ThreadHandles H} : Type := {
  handle_names : H → Z → option Z;
  GetThread_names h t : (GetThread h t).1 = handle_names t h;
  GetThread_keeps h t h' : handle_names (GetThread h t).2 h' = handle_names t h';
  CloseThread_keeps x t h' : handle_names (CloseThread x t) h' = handle_names t h'
}.

Section CondVar.
Context {C H M : Type} `{Clock C} `{ThreadHandlesLaws H} `{GuestMemoryLaws M} `{TreeKinds}.
Local Abbreviation wctx := (WaitContext C H M).
Local Abbreviation lctx := (LockContext C).

Definition handles_ok (s : wctx) : Prop := ∀ h o, handle_names (wc_handles s) h = Some o → is_Some (wc_waits s !! o).

Definition same_names (s s' : wctx) : Prop := ∀ h, handle_names (wc_handles s') h = handle_names (wc_handles s) h.

(** ** Who owns what may change while the rest stays *)
Lemma kind_ok_owner q o o' t : (o = None ↔ o' = None) → kind_ok q o t → kind_ok q o' t.
Proof. unfold kind_ok. destruct (queue_kind <$> q) as [[]|]; naive_solver. Qed.

Lemma unmoved_thread (s : wctx) l y : unmoved (wc_locks s) l → (owner_of (wc_locks s) y = None ↔ owner_of l y = None) →
  waiter_ok s y → waiter_ok (set_lock_state l s) y.
Proof.
  intros Hu Ho [A1 A2 A3 A4]. constructor; cbn [set_lock_state wc_locks wc_waits]; rewrite ?(unmoved_state _ _ y Hu), ?(unmoved_tree _ _ y Hu); try done.
  by apply (kind_ok_owner _ (owner_of (wc_locks s) y)).
Qed.

Lemma unmoved_base (s : wctx) l : wait_base s → lk_inv l → unmoved (wc_locks s) l → wait_base (set_lock_state l s).
Proof. intros HB HI Hu. apply locks_base; [done|done|]. intros y. by apply unmoved_dom. Qed.

(** ** A lock is handed over *)

(** What a thread with an owner waits on. *)
Lemma owner_queue (s : wctx) x o : wait_ok s → owner_of (wc_locks s) x = Some o → ∃ q,
  queue_of (wc_waits s) x = Some q ∧ state_of (wc_locks s) x = ThreadState_Waiting ∧ tree_of (wc_locks s) x = None ∧
  queue_kind q ≠ ThreadQueueImplForKThreadSleep ∧
  (objects_of (Some q) = [] ∧ ∀ objs, queue_kind q ≠ ThreadQueueImplForKSynchronizationObjectWait objs) ∧
  (0 < time_of (wc_waits s) x → m_hardware_timer q = true).
Proof.
  intros [_ Hth] Ho. destruct (Hth x) as [A1 A2 A3 _]. rewrite Ho in A2. unfold kind_ok in A2.
  destruct (queue_of (wc_waits s) x) as [q|]; cbn in A2; [|by destruct A2]. exists q. split; [done|]. split; [by apply A1|].
  unfold objects_of. cbn.
  split; [|split; [|split; [|intros Hp; by destruct (A3 Hp) as (q' & [= <-] & ?)]]]; destruct (queue_kind q) as [|c'|c'| |objs]; try by destruct A2 as (? & ?).
  - by destruct A2 as (_ & [[? _]|[_ ?]]).
  - by destruct A2 as (_ & ? & _).
Qed.

Lemma memory_base (s : wctx) m : wait_base s → wait_base (set_memory m s).
Proof. intros []. by constructor. Qed.
Lemma memory_thread (s : wctx) m y : waiter_ok s y → waiter_ok (set_memory m s) y.
Proof. intros []. by constructor. Qed.

Lemma give_lock_run (s : wctx) x key : wait_ok s → is_Some (wc_waits s !! x) →
  RemoveUserWaiterByKey x key s = Done true (None, false, s) ∧ no_waiter (wc_locks s) x key false ∨
  ∃ n i has l', RemoveUserWaiterByKey x key s = Done true (Some n, has, set_lock_state l' s) ∧
    handed_over (wc_locks s) l' x key false i n has ∧ n ≠ x ∧
    ∀ m r, ∃ s', EndWait n r (set_memory m (set_lock_state l' s)) = Done true s' ∧ wait_ok s' ∧
      woken (set_memory m (set_lock_state l' s)) s' n r ∧
      (wakes_up (wc_timer s) (wc_waits s) → wakes_up (wc_timer s') (wc_waits s')).
Proof.
  intros Hok Hx. pose proof Hok as [HB Hth]. destruct (base_thread s x HB Hx) as (kx & tx & Hkx & _).
  pose proof (wb_locks _ HB) as ((Hwf & _) & _). unfold RemoveUserWaiterByKey.
  destruct (RemoveWaiterByKey_run (wc_locks s) x kx key false (wb_locks _ HB) Hkx) as [(-> & Hn)|(n & i & has & l' & -> & HI' & Hh)].
  { left. split; [|done]. pstep. by destruct s. }
  right. exists n, i, has, l'. pose proof Hh as [(Hon & Hin & _) _ _ (Hown & _ & Hu)].
  assert (n ≠ x) as Hnx by (intros ->; by apply (owner_irrefl (wc_locks s) x)).
  split; [by pstep|]. split; [done|]. split; [done|]. intros m r. set (s1 := set_memory m (set_lock_state l' s)).
  destruct (owner_queue s n x Hok Hon) as (q & Hq & Hst & Htr & Hk & (Eobj & Hns) & Ht).
  assert (wait_base s1) as HB1 by (by apply memory_base, unmoved_base).
  assert (owner_of l' n = None) as Hn' by (by rewrite Hown, decide_True).
  assert (state_of (wc_locks s1) n = ThreadState_Waiting) as Hst1 by (etrans; [by apply (unmoved_state (wc_locks s))|done]).
  destruct (EndWait_run s1 n q r HB1 Hst1 Hq Hk Hns Ht) as (s' & E & HB' & Hw & Hwu). exists s'. split_and!; try done.
  constructor; [done|]. intros y. destruct (decide (y = n)) as [->|Hy].
  - apply (woken_self s1 s' n r); [done|done| |by apply (no_objects s n (Some q))]. cbn. by rewrite (unmoved_tree (wc_locks s) l').
  - apply (woken_other s1 s' n r); [done|done|]. apply memory_thread, unmoved_thread; [done| |done].
    rewrite Hown, decide_False by done. case_decide as Hl; [|done]. split; [|done]. intros Ho.
    assert (is_Some (lc_locks (wc_locks s) !! y)) as [ky Hky] by (unfold lock_of in Hl; destruct (lc_locks (wc_locks s) !! y); [by eexists|done]).
    unfold lock_of in Hl. rewrite Hky in Hl. cbn in Hl. by rewrite (no_owner_free _ y ky Hwf Hky Ho) in Hl.
Qed.

(** The tag a thread puts into the lock word. *)
Definition address_value (l : lctx) (x : Z) : Z := default 0 (m_address_key_value <$> lc_locks l !! x).

Lemma next_tag_run (s : wctx) n l' has : is_Some (lc_locks (wc_locks s) !! n) → unmoved (wc_locks s) l' →
  next_tag (Some n) has (set_lock_state l' s) =
    Done true (if has then Z.lor (address_value (wc_locks s) n) HandleWaitMask else address_value (wc_locks s) n).
Proof.
  intros [k Hk] Hu. pose proof (um_locks _ _ Hu n) as E. rewrite Hk in E.
  destruct (lc_locks l' !! n) as [k'|] eqn:Ek'; [|done]. cbn in E. unfold next_tag, GetAddressKeyValue.
  cbn [set_lock_state wc_locks]. rewrite (get_locks_run _ _ k') by done. pstep. unfold address_value. rewrite Hk. cbn.
  unfold still_locks in E. by replace (m_address_key_value k') with (m_address_key_value k) by congruence.
Qed.

(** The current thread gives up the lock at the address: nobody wanted it and the
    word becomes 0, or the best waiter gets it and is woken. *)
Definition gave_lock (s s' : wctx) (key : Z) : Prop :=
  no_waiter (wc_locks s) (current_thread s) key false ∧ s' = WriteToUser key 0 s ∨
  ∃ n i has l', handed_over (wc_locks s) l' (current_thread s) key false i n has ∧
    woken (WriteToUser key (if has : bool then Z.lor (address_value (wc_locks s) n) HandleWaitMask
                            else address_value (wc_locks s) n) (set_lock_state l' s)) s' n ResultSuccess.

Lemma SignalToAddress_run (s : wctx) key : wait_ok s → is_Some (wc_waits s !! current_thread s) → ∃ s',
  KConditionVariable_SignalToAddress key s = Done true (ResultSuccess, s') ∧ wait_ok s' ∧ gave_lock s s' key ∧
  (wakes_up (wc_timer s) (wc_waits s) → wakes_up (wc_timer s') (wc_waits s')).
Proof.
  intros Hok Hx. unfold KConditionVariable_SignalToAddress.
  destruct (give_lock_run s (current_thread s) key Hok Hx) as [(-> & Hn)|(n & i & has & l' & -> & Hh & Hnx & Hend)].
  - pstep. eexists. split; [done|]. split; [by apply memory_ok|]. split; [by left|done].
  - pstep. pose proof Hh as [(Hon & _) _ _ (_ & _ & Hu)].
    destruct (owner_of_inv _ _ _ (proj1 (proj1 (wb_locks _ (wo_base _ Hok)))) Hon) as (kn & _ & _ & _ & Hkn & _).
    rewrite (next_tag_run s n l' has) by (done || by eexists). pstep. unfold WriteToUser. cbn [end_wait_of].
    set (v := if has then _ else _). destruct (Hend (Write32 key v (wc_memory s)) ResultSuccess) as (s' & E & Hok' & Hw & Hwu).
    cbn [set_lock_state wc_memory]. fold v. change (MkWaitContext l' _ _ _ _ _) with (set_lock_state l' s). rewrite E. pstep. exists s'. split_and!; try done. right. exists n, i, has, l'. done.
Qed.

(** ** Waiting for a lock *)
Lemma add_wait_run (s : wctx) x o k : wait_base s → (∀ y, y ≠ x → waiter_ok s y) → lc_locks (wc_locks s) !! x = Some k →
  m_waiting_lock_info k = None → m_condvar_tree k = None → o ≠ x → is_Some (wc_waits s !! o) → ∃ l',
  on_locks (AddWaiter o x) s = Done true (set_lock_state l' s) ∧ wait_base (set_lock_state l' s) ∧
  (∀ y, y ≠ x → waiter_ok (set_lock_state l' s) y) ∧
  owners_become (wc_locks s) l' (λ y, if decide (y = x) then Some o else owner_of (wc_locks s) y).
Proof.
  intros HB Hth Hk Hw Hcv Hne Ho. destruct (AddWaiter_run (wc_locks s) o x k) as (l' & E & HI & Hown); try done;
    [apply HB|by apply (wb_dom _ HB)|]. pose proof Hown as (Ho' & _ & Hu). exists l'. split_and!; try done.
  - by apply on_locks_run.
  - by apply unmoved_base.
  - intros y Hy. apply unmoved_thread; [done| |by apply Hth]. by rewrite Ho', decide_False.
Qed.

(** The call returns at once, or the current thread waits for the thread that the
    handle names to give up the lock at the address. *)
Definition lock_waits (s s' : wctx) (res : option Z) (handle key value : Z) : Prop :=
  match res with
  | Some _ => wc_locks s' = wc_locks s ∧ wc_waits s' = wc_waits s ∧ wc_timer s' = wc_timer s
  | None => ∃ o, handle_names (wc_handles s) handle = Some o ∧
      (∀ y, owner_of (wc_locks s') y = if decide (y = current_thread s) then Some o else owner_of (wc_locks s) y) ∧
      address_of (wc_locks s') (current_thread s) = Some (key, false) ∧
      address_value (wc_locks s') (current_thread s) = value ∧
      state_of (wc_locks s') (current_thread s) = ThreadState_Waiting
  end.

Lemma unmoved_address (l l' : lctx) y : unmoved l l' → address_of l' y = address_of l y ∧ address_value l' y = address_value l y.
Proof.
  intros Hu. pose proof (um_locks _ _ Hu y) as E. unfold address_of, address_value, still_locks in *.
  destruct (lc_locks l' !! y), (lc_locks l !! y); cbn in *; split; congruence.
Qed.

Lemma WaitForAddress_run (s : wctx) handle key value : wait_ok s → handles_ok s → is_Some (wc_waits s !! current_thread s) →
  queue_of (wc_waits s) (current_thread s) = None → handle_names (wc_handles s) handle ≠ Some (current_thread s) → ∃ res s',
  KConditionVariable_WaitForAddress handle key value s = Done true (res, s') ∧ wait_ok s' ∧ same_names s s' ∧
  (∀ y, is_Some (wc_waits s' !! y) ↔ is_Some (wc_waits s !! y)) ∧ wc_sync s' = wc_sync s ∧ lock_waits s s' res handle key value ∧ (wakes_up (wc_timer s) (wc_waits s) → wakes_up (wc_timer s') (wc_waits s')).
Proof.
  intros Hok Hh Hx Hq Hself. unfold KConditionVariable_WaitForAddress.
  destruct (IsTerminationRequested_run s _ (wo_base _ Hok) Hx) as (b & ->). pstep.
  destruct b; [by eexists _, _|]. unfold ReadFromUser. destruct (Read32 key (wc_memory s)) as [tag m].
  destruct (negb (tag =? Z.lor handle HandleWaitMask)).
  { eexists _, _. split; [done|]. split; [by apply memory_ok|done]. }
  cbn [set_memory wc_handles]. destruct (GetThread handle (wc_handles s)) as [o h'] eqn:Eg.
  pose proof (GetThread_names handle (wc_handles s)) as Hn. pose proof (GetThread_keeps handle (wc_handles s)) as Hkp.
  rewrite Eg in Hn, Hkp. cbn in Hn, Hkp. set (s1 := set_handles h' (set_memory m s)).
  assert (wait_ok s1) as Hok1 by (destruct Hok as [[] Hth]; constructor; [by constructor|]; intros y; destruct (Hth y); by constructor).
  destruct o as [o|]; [|by eexists _, _].
  destruct (runs_free s1 _ Hok1 Hx Hq) as (k & w & Hk & Hw & Hwl & Hcv & Hw0 & Ho).
  set (x := current_thread s) in *. destruct Hok1 as [HB1 Hth1].
  destruct (new_key_run (wc_locks s1) x k key value false (wb_locks _ HB1) Hk Hwl) as (l2 & E2 & HI2 & Ho2 & _ & El2).
  unfold SetUserAddressKey. erewrite on_locks_run; last first.
  { rewrite (get_locks_run _ x k) by done. pstep. rewrite Hwl, bool_decide_true by done. change (ASSERT true) with (Done true tt). pstep. exact E2. }
  rewrite bind_Done_true. set (s2 := set_lock_state l2 s1). set (k2 := set_address_key key value false k).
  assert (lc_locks (wc_locks s2) !! x = Some k2) as Hk2 by (cbn; rewrite El2; cbn; by rewrite lookup_insert_eq).
  assert (wait_base s2) as HB2.
  { apply locks_base; [done|done|]. intros y. rewrite El2. by apply (field_dom (wc_locks s1) x k). }
  assert (∀ y, y ≠ x → waiter_ok s2 y) as Hth2.
  { intros y Hy. destruct (Hth1 y) as [A1 A2 A3 A4]. constructor; cbn; [by rewrite El2| |done|done]. rewrite Ho2.
    unfold tree_of. rewrite El2. cbn. by rewrite lookup_insert_ne. }
  destruct (add_wait_run s2 x o k2) as (l3 & E3 & HB3 & Hth3 & Ho3 & _ & Hu3); try done; [by intros ->|by apply (Hh handle o)|].
  rewrite E3, bind_Done_true.
  destruct (BeginWait_run (set_lock_state l3 s2) x (MkThreadQueue ThreadQueueImplForKConditionVariableWaitForAddress false) w)
    as (s4 & E4 & HB4 & Hbg & _ & Hwu); try done.
  rewrite E4. pstep. exists None, s4. split; [done|]. destruct (bg_sched _ _ _ _ _ Hbg) as (cc & EL & _).
  split_and!; [|by intros h; rewrite (bg_handles _ _ _ _ _ Hbg)| |by rewrite (bg_sync _ _ _ _ _ Hbg)| |done].
  - apply (began_ok (set_lock_state l3 s2) s4 x _ 0 Hth3 Hbg HB4); [|by apply (no_objects s1 x None)|lia]. cbn [set_lock_state wc_locks].
    rewrite Ho3, decide_True by done. split; [done|]. rewrite (unmoved_tree _ _ x Hu3), (tree_of_some _ _ _ Hk2). done.
  - destruct (bg_waits _ _ _ _ _ Hbg) as (w' & Hw' & ->). apply dom_insert_same. by eexists.
  - exists o. rewrite EL. destruct (unmoved_address _ _ x Hu3) as [Ea Ev]. split_and!; [done| | | |].
    + intros y. etrans; [apply Ho3|]. fold x. case_decide; [done|]. apply Ho2.
    + etrans; [exact Ea|]. unfold address_of. by rewrite Hk2.
    + etrans; [exact Ev|]. unfold address_value. by rewrite Hk2.
    + rewrite <- EL, (bg_state _ _ _ _ _ Hbg), decide_True by done. done.
Qed.

(** ** A thread of a condition variable is signalled *)

(** The lock word of the thread was [tag], and is replaced: by the thread's own tag
    when the lock was free, and else by the word with the flag that others wait. *)
Definition lock_word (s : wctx) (k : ThreadLocks) (tag : Z) (m : M) : Prop :=
  word_replaced (wanted_word (m_address_key_value k)) (m_address_key k) (wc_memory s) tag m.

(** The lock that the thread wants back is named as its own. *)
Definition wants_own (s : wctx) (x : Z) : Prop := ∃ k tag m,
  lc_locks (wc_locks s) !! x = Some k ∧ lock_word s k tag m ∧
  handle_names (wc_handles s) (Z.ldiff tag HandleWaitMask) = Some x.

(** The lock was free and the thread runs; or it waits for the owner of the lock;
    or the lock has no valid owner and the thread runs with an error. *)
Definition thread_signalled (s s' : wctx) (x : Z) : Prop := ∃ k tag m h,
  lc_locks (wc_locks s) !! x = Some k ∧ lock_word s k tag m ∧
  if tag =? InvalidHandle then woken (set_memory m s) s' x ResultSuccess
  else match handle_names (wc_handles s) (Z.ldiff tag HandleWaitMask) with
       | Some o => ∃ l', s' = set_handles h (set_lock_state l' (set_memory m s)) ∧
           owners_become (wc_locks s) l' (λ y, if decide (y = x) then Some o else owner_of (wc_locks s) y)
       | None => woken (set_handles h (set_memory m s)) s' x ResultInvalidState
       end.

(** What a signal leaves alone. *)
Record undisturbed (s s' : wctx) : Prop := MkUndisturbed {
  ud_names : same_names s s';
  ud_dom y : is_Some (wc_waits s' !! y) ↔ is_Some (wc_waits s !! y);
  ud_tree y : tree_of (wc_locks s') y = tree_of (wc_locks s) y;
  ud_ckey y : ckey (wc_locks s') y = ckey (wc_locks s) y;
  ud_trees c : is_Some (lc_cv_trees (wc_locks s') !! c) ↔ is_Some (lc_cv_trees (wc_locks s) !! c);
  ud_current : current_thread s' = current_thread s;
  ud_sync : wc_sync s' = wc_sync s
}.

Lemma unmoved_ckey (l l' : lctx) y : unmoved l l' → ckey l' y = ckey l y.
Proof.
  intros Hu. pose proof (um_locks _ _ Hu y) as E. unfold ckey, still_locks in *.
  destruct (lc_locks l' !! y), (lc_locks l !! y); cbn in *; congruence.
Qed.

Lemma woken_undisturbed (s s' : wctx) x r : woken s s' x r → undisturbed s s'.
Proof.
  intros [(w & Hw & EW) (c & EL & _ & Hcur) _ _ Hh _ Es]. constructor; try (rewrite EL; done); try done.
  - intros h. by rewrite Hh.
  - rewrite EW. apply dom_insert_same. by eexists.
  - unfold current_thread. by rewrite EL.
Qed.

Lemma other_undisturbed (s s' : wctx) m h : same_names s (set_handles h s) →
  undisturbed (set_handles h (set_memory m s)) s' → undisturbed s s'.
Proof. intros Hn [A1 A2 A3 A4 A5 A6 A7]. constructor; try done. intros k. etrans; [apply A1|apply Hn]. Qed.

Lemma SignalImpl_run (s : wctx) x k q c : wait_base s → (∀ y, y ≠ x → waiter_ok s y) → handles_ok s →
  lc_locks (wc_locks s) !! x = Some k → m_waiting_lock_info k = None → m_condvar_tree k = None →
  state_of (wc_locks s) x = ThreadState_Waiting → queue_of (wc_waits s) x = Some q →
  queue_kind q = ThreadQueueImplForKConditionVariableWaitConditionVariable c → is_arbiter c = false →
  nodes_ok (wc_sync s) x (Some q) → (0 < time_of (wc_waits s) x → m_hardware_timer q = true) → ¬ wants_own s x → ∃ s',
  SignalImpl x s = Done true s' ∧ wait_ok s' ∧ thread_signalled s s' x ∧ undisturbed s s' ∧
  (wakes_up (wc_timer s) (wc_waits s) → wakes_up (wc_timer s') (wc_waits s')).
Proof.
  intros HB Hth Hh Hk Hw Hcv Hst Hq Hkind Harb Hnd Ht Hself. pose proof (wb_locks _ HB) as ((Hwf & _ & Hl) & _).
  assert (owner_of (wc_locks s) x = None) as Ho by (unfold owner_of; by rewrite Hk, Hw).
  assert (tree_of (wc_locks s) x = None) as Htr by (by rewrite (tree_of_some _ _ _ Hk)).
  assert (∀ m h s1, s1 = set_handles h (set_memory m s) → same_names s (set_handles h s) → ∀ r, ∃ s',
    EndWait x r s1 = Done true s' ∧ wait_ok s' ∧ woken s1 s' x r ∧ undisturbed s s' ∧
    (wakes_up (wc_timer s) (wc_waits s) → wakes_up (wc_timer s') (wc_waits s'))) as Hend.
  { intros m h s1 -> Hn r. set (s1 := set_handles h (set_memory m s)). assert (wait_base s1) as HB1 by (destruct HB; by constructor).
    destruct (EndWait_run s1 x q r HB1 Hst Hq) as (s' & E & HB' & Hwk & Hwu); [by rewrite Hkind|by rewrite Hkind|done|].
    exists s'. split_and!; try done; [|by apply (other_undisturbed s s' m h Hn), (woken_undisturbed s1 s' x r)].
    constructor; [done|]. intros y. destruct (decide (y = x)) as [->|Hy].
    { apply (woken_self s1 s' x r); [done|done|done|]. intros o i. etrans; [apply Hnd|]. unfold objects_of. cbn. by rewrite Hkind. }
    apply (woken_other s1 s' x r); [done|done|]. destruct (Hth y Hy). by constructor. }
  unfold SignalImpl, IsSchedulerLockedByCurrentThread. rewrite Hl. change (ASSERT true) with (Done true tt). pstep.
  rewrite (get_locks_run _ _ k), bind_Done_true by done. unfold UpdateLockAtomic.
  destruct (update_lock_run (m_address_key k) (m_address_key_value k) (S (exclusive_tries (wc_memory s))) (wc_memory s))
    as (tag & m & -> & Etag); [lia|]. pstep. change (lock_word s k tag m) in Etag.
  destruct (tag =? InvalidHandle) eqn:E0.
  { destruct (Hend m (wc_handles s) (set_memory m s)) with (r := ResultSuccess) as (s' & E & Hok' & Hwk & Hud & Hwu); [done|done|].
    exists s'. split_and!; try done. exists k, tag, m, (wc_handles s). by rewrite E0. }
  cbn [set_memory wc_handles]. destruct (GetThread (Z.ldiff tag HandleWaitMask) (wc_handles s)) as [o h'] eqn:Eg.
  pose proof (GetThread_names (Z.ldiff tag HandleWaitMask) (wc_handles s)) as Hn.
  pose proof (GetThread_keeps (Z.ldiff tag HandleWaitMask) (wc_handles s)) as Hkp. rewrite Eg in Hn, Hkp. cbn in Hn, Hkp.
  destruct o as [o|].
  - assert (o ≠ x) as Hox by (intros ->; apply Hself; by exists k, tag, m).
    set (s1 := set_handles h' (set_memory m s)). assert (wait_base s1) as HB1 by (destruct HB; by constructor).
    destruct (add_wait_run s1 x o k HB1) as (l' & E & HB2 & Hth2 & Hown); try done.
    { intros y Hy. destruct (Hth y Hy). by constructor. }
    { by apply (Hh (Z.ldiff tag HandleWaitMask)). }
    rewrite E. pstep. eexists. split; [done|]. pose proof Hown as (Ho' & _ & Hu). split_and!; [| | |done].
    + constructor; [by destruct HB2|]. intros y. destruct (decide (y = x)) as [->|Hy]; [|destruct (Hth2 y Hy); by constructor].
      constructor; cbn [set_handles set_lock_state wc_locks wc_waits].
      * rewrite (unmoved_state _ _ x Hu). cbn. by rewrite Hst, Hq.
      * rewrite (unmoved_tree _ _ x Hu), Ho', decide_True by done. cbn. rewrite Hq, Htr. unfold kind_ok. cbn. rewrite Hkind.
        split; [done|by right].
      * intros Hp. exists q. split; [done|by apply Ht].
      * rewrite <- Hq in Hnd. exact Hnd.
    + exists k, tag, m, (CloseThread o h'). rewrite E0, <- Hn. split_and!; try done. by exists l'.
    + constructor; cbn [set_handles set_lock_state wc_locks wc_waits wc_handles]; try done.
      * intros h. cbn. by rewrite CloseThread_keeps.
      * intros y. apply (unmoved_tree _ _ y Hu).
      * intros y. apply (unmoved_ckey _ _ y Hu).
      * apply (um_trees _ _ Hu).
      * apply (um_current _ _ Hu).
  - destruct (Hend m h' (set_handles h' (set_memory m s))) with (r := ResultInvalidState) as (s' & E & Hok' & Hwk & Hud & Hwu); [done|done|].
    exists s'. split_and!; try done. exists k, tag, m, h'. by rewrite E0, <- Hn.
Qed.

(** ** The loop over the waiters *)
Lemma in_tree (s : wctx) c tree y : wait_base s → lc_cv_trees (wc_locks s) !! c = Some tree → y ∈ tree ↔ tree_of (wc_locks s) y = Some c.
Proof.
  intros HB Hc. pose proof (wb_locks _ HB) as ((Hwf & _) & _). unfold tree_of.
  destruct (lc_locks (wc_locks s) !! y) as [k|] eqn:Ek; [by apply (in_one_tree (wc_locks s) y k c tree)|].
  split; [|done]. intros Hy. destruct (tree_members s c tree HB Hc y Hy) as (k & ? & _). congruence.
Qed.

Lemma tree_NoDup (s : wctx) c tree : wait_base s → lc_cv_trees (wc_locks s) !! c = Some tree → NoDup tree.
Proof. intros HB Hc. pose proof (wb_locks _ HB) as ((Hwf & _) & _). by apply (co_NoDup _ _ _ (wf_cv _ Hwf c tree Hc)). Qed.

Definition signal_step (c x : Z) (s : wctx) : prog (option Z * wctx) :=
  '(it, s) ← cv_erase c x s;
  s ← ClearConditionVariable x s;
  s ← SignalImpl x s;
  mret (it, s).

(** The thread is out of the tree and was signalled. *)
Record step_done (s s' : wctx) (c x : Z) (rest : list Z) : Prop := MkStepDone {
  sd_signalled : ∃ s1, let_go s s1 x ∧ (∀ y, ckey (wc_locks s1) y = ckey (wc_locks s) y) ∧ thread_signalled s1 s' x;
  sd_tree : ∃ tree, lc_cv_trees (wc_locks s') !! c = Some tree ∧ tree ≡ₚ rest;
  sd_trees c' : is_Some (lc_cv_trees (wc_locks s') !! c') ↔ is_Some (lc_cv_trees (wc_locks s) !! c');
  sd_ckey y : ckey (wc_locks s') y = ckey (wc_locks s) y;
  sd_names : same_names s s';
  sd_dom y : is_Some (wc_waits s' !! y) ↔ is_Some (wc_waits s !! y);
  sd_current : current_thread s' = current_thread s;
  sd_sync : wc_sync s' = wc_sync s
}.

Lemma signal_step_run (s : wctx) c x pre post : wait_ok s → handles_ok s → is_arbiter c = false →
  lc_cv_trees (wc_locks s) !! c = Some (pre ++ x :: post) → ¬ wants_own s x → ∃ s',
  signal_step c x s = Done true (head post, s') ∧ wait_ok s' ∧ step_done s s' c x (pre ++ post) ∧
  (wakes_up (wc_timer s) (wc_waits s) → wakes_up (wc_timer s') (wc_waits s')).
Proof.
  intros Hok Hh Harb Hc Hself. pose proof Hok as [HB Hth].
  destruct (tree_members s c _ HB Hc x) as (k & Hk & Hkc & _); [set_solver|].
  assert (tree_of (wc_locks s) x = Some c) as Htr by (by rewrite (tree_of_some _ _ _ Hk)).
  destruct (tree_queue s x c Hok Htr) as (q & Hq & Hst & Ho & Eq & Ht). rewrite Harb in Eq.
  destruct (leave_facts s x k c HB Hk Hkc) as (l1 & l2 & Hc1 & N1 & N2 & HB1 & Hg).
  assert (l1 = pre ∧ l2 = post) as [-> ->].
  { rewrite Hc in Hc1. injection Hc1 as E. pose proof (tree_NoDup s c _ HB Hc) as Hnd.
    destruct (split_unique x l1 l2 pre post); try done. apply NoDup_app in Hnd as (_ & Hd & _). intros Hx. apply (Hd x Hx). left. }
  set (s1 := set_lock_state (left_tree (wc_locks s) x k c (pre ++ post)) s) in *. set (k1 := set_condvar_tree None k).
  assert (lc_locks (wc_locks s1) !! x = Some k1) as Hk1 by (cbn; by rewrite lookup_insert_eq).
  assert (∀ y, ckey (wc_locks s1) y = ckey (wc_locks s) y) as Hck.
  { intros y. unfold ckey. cbn. destruct (decide (y = x)) as [->|]; [by rewrite lookup_insert_eq, Hk|by rewrite lookup_insert_ne]. }
  assert (m_waiting_lock_info k1 = None) as Hw1.
  { pose proof (wb_locks _ HB) as ((Hwf & _) & _). by destruct (in_tree_free _ x k c Hwf Hk Hkc). }
  destruct (SignalImpl_run s1 x k1 q c) as (s' & E & Hok' & Hsig & Hud & Hwu); try done.
  { intros y Hy. destruct (Hth y) as [A1 A2 A3 A4]. constructor; [done| |done|done].
    rewrite (lg_owner _ _ _ Hg), (lg_tree _ _ _ Hg), !decide_False by done. done. }
  { rewrite <- Hq. exact (th_nodes _ _ (Hth x)). }
  { intros (k' & tag & m & Hk' & Hlw & Hn). apply Hself. exists k, tag, m. assert (k' = k1) as -> by congruence. done. }
  exists s'. split_and!; try done.
  - unfold signal_step, cv_erase. rewrite (cv_next_run s c x pre post HB Hc), bind_Done_true, (erase_from_cv_run s x c pre post) by done. pstep.
    unfold ClearConditionVariable. erewrite on_locks_run by (by apply (change_locks_run _ x k)). rewrite bind_Done_true.
    fold k1. change (set_lock_state (set_locks _ _) _) with s1. rewrite E. by pstep.
  - destruct Hud as [U1 U2 U3 U4 U5 U6 U7]. assert (lc_cv_trees (wc_locks s1) !! c = Some (pre ++ post)) as Hc1' by (cbn; by rewrite lookup_insert_eq).
    destruct (proj2 (U5 c)) as [tree' Htree']; [by eexists|]. constructor; try done.
    + exists s1. done.
    + exists tree'. split; [done|]. apply NoDup_Permutation; [by apply (tree_NoDup s' c); [apply Hok'|]|by apply (tree_NoDup s1 c)|].
      intros y. by rewrite (in_tree s' c tree' y (wo_base _ Hok') Htree'), (in_tree s1 c _ y HB1 Hc1'), U3.
    + intros c'. rewrite U5. cbn. destruct (decide (c' = c)) as [->|]; [by rewrite lookup_insert_eq, Hc; split; eexists|by rewrite lookup_insert_ne].
    + intros y. by rewrite U4.
Qed.

Lemma signal_step_eq {A} (c x : Z) (s : wctx) (f : option Z → wctx → prog A) :
  ('(it, s) ← cv_erase c x s; s ← ClearConditionVariable x s; s ← SignalImpl x s; f it s) =
  ('(it, s) ← signal_step c x s; f it s).
Proof.
  unfold signal_step. rewrite bind_assoc. apply bind_ext. intros [it s1]. rewrite bind_assoc. apply bind_ext. intros s2.
  rewrite bind_assoc. apply bind_ext. intros s3. by pstep.
Qed.

(** No thread that is reached wants a lock that is named as its own. *)
Fixpoint no_self (fuel : nat) (c key count n : Z) (it : option Z) (s : wctx) : Prop :=
  match it with
  | None => True
  | Some x => more count n = true → ckey (wc_locks s) x = key → ¬ wants_own s x ∧
      match fuel with
      | O => True
      | S fuel => ∀ it' s', signal_step c x s = Done true (it', s') → no_self fuel c key count (n + 1) it' s'
      end
  end.

(** What the loop leaves. *)
Record loop_done (s s' : wctx) (it : option Z) (c : Z) : Prop := MkLoopDone {
  ld_it y : it = Some y → tree_of (wc_locks s') y = Some c;
  ld_trees c' : is_Some (lc_cv_trees (wc_locks s') !! c') ↔ is_Some (lc_cv_trees (wc_locks s) !! c');
  ld_names : same_names s s';
  ld_dom y : is_Some (wc_waits s' !! y) ↔ is_Some (wc_waits s !! y);
  ld_current : current_thread s' = current_thread s;
  ld_sync : wc_sync s' = wc_sync s
}.

Lemma signal_loop_run fuel : ∀ (s : wctx) c key count n it tree, wait_ok s → handles_ok s → is_arbiter c = false →
  lc_cv_trees (wc_locks s) !! c = Some tree → (∀ y, it = Some y → y ∈ tree) → (length tree ≤ fuel)%nat → 0 ≤ n →
  n + Z.of_nat (length tree) < 2 ^ 31 → no_self fuel c key count n it s → ∃ it' s',
  signal_loop fuel c key count n it s = Done true (it', s') ∧ wait_ok s' ∧ loop_done s s' it' c ∧
  (wakes_up (wc_timer s) (wc_waits s) → wakes_up (wc_timer s') (wc_waits s')).
Proof.
  induction fuel as [|fuel IH]; intros s c key count n it tree Hok Hh Harb Hc Hit Hlen Hn Hb Hns; cbn [signal_loop];
    rewrite (at_key_run s c tree it key (wo_base _ Hok) Hc Hit); pstep.
  { assert (tree = []) as -> by (destruct tree; [done|cbn in Hlen; lia]).
    destruct it as [y|]; [by specialize (Hit y eq_refl); apply not_elem_of_nil in Hit|].
    by exists None, s. }
  assert (loop_done s s it c) as Hstop by (constructor; try done; intros y Hy; by apply (in_tree s c tree y (wo_base _ Hok) Hc), Hit).
  destruct it as [x|]; [|by exists None, s]. destruct (more count n && (ckey (wc_locks s) x =? key)) eqn:Em; [|by exists (Some x), s].
  apply andb_true_iff in Em as [Em Ek%Z.eqb_eq]. destruct (Hns Em Ek) as [Hself Hnext].
  destruct (split_at x tree (Hit x eq_refl) (tree_NoDup s c tree (wo_base _ Hok) Hc)) as (l1 & l2 & -> & _).
  destruct (signal_step_run s c x l1 l2 Hok Hh Harb Hc Hself) as (s1 & E & Hok1 & [_ (tree1 & Hc1 & Hp) S3 S4 S5 S6 S7 S8] & Hwu).
  rewrite length_app in Hlen, Hb. cbn [length] in Hlen, Hb.
  rewrite signal_step_eq, E, bind_Done_true. rewrite s32_checked_run by lia. pstep.
  assert (length tree1 = length (l1 ++ l2)) as Hlen1 by (by rewrite Hp). rewrite length_app in Hlen1.
  destruct (IH s1 c key count (n + 1) (head l2) tree1) as (it' & s' & E2 & Hok2 & [L1 L2 L3 L4 L5 L6] & Hwu2); try done.
  - intros h o. rewrite S5, S6. apply Hh.
  - intros y Hy. rewrite Hp. destruct l2; [done|]. injection Hy as ->. set_solver.
  - lia.
  - lia.
  - lia.
  - by apply Hnext.
  - exists it', s'. split_and!; try done; [|auto]. constructor; try done.
    + intros c'. by rewrite L2.
    + intros h. by rewrite L3.
    + intros y. by rewrite L4.
    + congruence.
    + congruence.
Qed.

Lemma Signal_run (s : wctx) c key count : wait_ok s → handles_ok s → is_arbiter c = false →
  is_Some (lc_cv_trees (wc_locks s) !! c) →
  (∀ it, cv_nfind c key s = Done true it → no_self (length (cv_tree s c)) c key count 0 it s) → ∃ it s1,
  KConditionVariable_Signal c key count s = Done true (if it : bool then s1 else WriteToUser key 0 s1) ∧ wait_ok s1 ∧
  same_names s s1 ∧ (∀ y, is_Some (wc_waits s1 !! y) ↔ is_Some (wc_waits s !! y)) ∧ wc_sync s1 = wc_sync s ∧
  (wakes_up (wc_timer s) (wc_waits s) → wakes_up (wc_timer s1) (wc_waits s1)).
Proof.
  intros Hok Hh Harb [tree Hc] Hns. rewrite (cv_tree_some _ _ _ Hc) in Hns.
  destruct (groups_exist s c tree key (wo_base _ Hok) Hc) as (l1 & xs & l3 & [Hc' _ _ _ E]).
  assert (tree = l1 ++ xs ++ l3) as Et by congruence. pose proof (tree_size s c tree (wo_base _ Hok) Hc).
  destruct (signal_loop_run (length tree) s c key count 0 (head (xs ++ l3)) tree) as (it & s1 & E1 & Hok1 & [L1 L2 L3 L4 L5 L6] & Hwu);
    try done; [|by apply Hns|].
  { intros y Hy. rewrite Et. destruct (xs ++ l3) as [|z r]; [done|]. injection Hy as ->. set_solver. }
  destruct (proj2 (L2 c)) as [tree1 Hc1]; [by eexists|]. exists (match it with Some y => ckey (wc_locks s1) y =? key | None => false end), s1.
  split_and!; try done. unfold KConditionVariable_Signal. rewrite E. pstep. unfold cv_tree_of, deref. rewrite Hc. pstep.
  rewrite E1. pstep. rewrite (at_key_run s1 c tree1 it key (wo_base _ Hok1) Hc1); [by pstep|].
  intros y Hy. by apply (in_tree s1 c tree1 y (wo_base _ Hok1) Hc1), L1.
Qed.

(** One thread is signalled: the first of the waiters. *)
Definition one_signalled (s s' : wctx) (c key : Z) : Prop :=
  match waiters_at s c key with
  | [] => s' = WriteToUser key 0 s
  | x :: rest => ∃ s1 s2, let_go s s1 x ∧ thread_signalled s1 s2 x ∧
      s' = if bool_decide (rest = []) then WriteToUser key 0 s2 else s2
  end.

Lemma Signal_one_run (s : wctx) c key : wait_ok s → handles_ok s → is_arbiter c = false →
  is_Some (lc_cv_trees (wc_locks s) !! c) → (∀ x, head (waiters_at s c key) = Some x → ¬ wants_own s x) → ∃ s',
  KConditionVariable_Signal c key 1 s = Done true s' ∧ wait_ok s' ∧ one_signalled s s' c key ∧
  (wakes_up (wc_timer s) (wc_waits s) → wakes_up (wc_timer s') (wc_waits s')).
Proof.
  intros Hok Hh Harb [tree Hc] Hself. pose proof Hok as [HB _]. unfold one_signalled.
  destruct (groups_exist s c tree key HB Hc) as (l1 & xs & l3 & [Hc' Ew Hkey Hafter E]). rewrite Ew in *.
  assert (tree = l1 ++ xs ++ l3) as -> by congruence.
  unfold KConditionVariable_Signal. rewrite E. pstep. unfold cv_tree_of, deref. rewrite Hc'. pstep.
  assert (∀ y, head (xs ++ l3) = Some y → y ∈ l1 ++ xs ++ l3) as Hit.
  { intros y Hy. destruct (xs ++ l3) as [|z r]; [done|]. injection Hy as ->. set_solver. }
  destruct xs as [|x rest].
  - eexists. cbn [app] in *. split; [|split; [by apply memory_ok|done]].
    assert (match head l3 with Some y => ckey (wc_locks s) y =? key | None => false end = false) as Ef.
    { destruct (head l3) as [y|]; [|done]. apply Z.eqb_neq. by apply Hafter. }
    destruct (length (l1 ++ l3)); cbn [signal_loop]; rewrite (at_key_run s c _ _ key HB Hc' Hit); pstep; rewrite Ef, andb_false_r;
      (destruct (head l3) as [y|] eqn:Ey; pstep; rewrite (at_key_run s c _ _ key HB Hc'); by (pstep; rewrite ?Ef) || done).
  - apply Forall_cons in Hkey as [Hx Hkey]. cbn [app head] in *. pose proof (Hself x eq_refl) as Hsx. clear Hself.
    destruct (signal_step_run s c x l1 (rest ++ l3) Hok Hh Harb Hc' Hsx) as (s2 & E2 & Hok2 & [(s1 & Hg & Hck1 & Hsig) (tree2 & Hc2 & Hp) S3 S4 S5 S6 S7 S8] & Hwu).
    assert (∀ y, head (rest ++ l3) = Some y → y ∈ tree2) as Hit2.
    { intros y Hy. rewrite Hp. destruct (rest ++ l3) as [|z r]; [done|]. injection Hy as ->. set_solver. }
    assert (match head (rest ++ l3) with Some y => ckey (wc_locks s2) y =? key | None => false end = negb (bool_decide (rest = []))) as Ef.
    { destruct rest as [|z r]; cbn [app head].
      - destruct (head l3) as [y|] eqn:Ey; [|done]. rewrite S4, (proj2 (Z.eqb_neq _ _)) by (by apply Hafter). done.
      - apply Forall_cons in Hkey as [Hz _]. rewrite S4, (proj2 (Z.eqb_eq _ _) Hz). done. }
    exists (if bool_decide (rest = []) then WriteToUser key 0 s2 else s2).
    split; [|split; [by destruct (bool_decide (rest = [])); [apply memory_ok|]|split; [by exists s1, s2|by destruct (bool_decide (rest = []))]]].
    replace (length (l1 ++ x :: rest ++ l3)) with (S (length (l1 ++ rest ++ l3))) by (rewrite !length_app; cbn; rewrite length_app; lia).
    cbn [signal_loop]. rewrite (at_key_run s c _ _ key HB Hc' Hit). pstep. rewrite (proj2 (Z.eqb_eq _ _) Hx). change (more 1 0) with true. cbn [andb].
    rewrite signal_step_eq, E2. pstep. rewrite s32_checked_run by lia. pstep.
    assert (∀ n, signal_loop n c key 1 (0 + 1) (head (rest ++ l3)) s2 = Done true (head (rest ++ l3), s2)) as Hloop.
    { intros n. destruct n; cbn [signal_loop]; rewrite (at_key_run s2 c tree2 _ key (wo_base _ Hok2) Hc2 Hit2); pstep;
        by destruct (head (rest ++ l3)). }
    rewrite Hloop. pstep. rewrite (at_key_run s2 c tree2 _ key (wo_base _ Hok2) Hc2 Hit2). pstep. rewrite Ef. by destruct (bool_decide (rest = [])).
Qed.

(** ** Waiting on a condition variable *)

(** The lock at the address goes to the best waiter, who is woken; [v] is the word. *)
Definition passed_on (s s0 : wctx) (addr v : Z) : Prop :=
  no_waiter (wc_locks s) (current_thread s) addr false ∧ s0 = s ∧ v = 0 ∨
  ∃ n i has l', handed_over (wc_locks s) l' (current_thread s) addr false i n has ∧
    woken (set_lock_state l' s) s0 n ResultSuccess ∧
    v = if has : bool then Z.lor (address_value (wc_locks s) n) HandleWaitMask else address_value (wc_locks s) n.

Definition pass_on (addr : Z) (s : wctx) : prog (Z * wctx) :=
  '(next_owner_thread, has_waiters, s) ← RemoveUserWaiterByKey (current_thread s) addr s;
  next_value ← next_tag next_owner_thread has_waiters s;
  s ← end_wait_of next_owner_thread ResultSuccess s;
  mret (next_value, s).

Lemma pass_on_eq {A} addr (s : wctx) (f : Z → wctx → prog A) :
  ('(next, has, s) ← RemoveUserWaiterByKey (current_thread s) addr s; v ← next_tag next has s;
   s ← end_wait_of next ResultSuccess s; f v s) = ('(v, s) ← pass_on addr s; f v s).
Proof.
  unfold pass_on. rewrite bind_assoc. apply bind_ext. intros [[next has] s1]. rewrite bind_assoc. apply bind_ext. intros v.
  rewrite bind_assoc. apply bind_ext. intros s2. by pstep.
Qed.

Lemma pass_on_run (s : wctx) addr : wait_ok s → is_Some (wc_waits s !! current_thread s) →
  queue_of (wc_waits s) (current_thread s) = None → ∃ s0 v,
  pass_on addr s = Done true (v, s0) ∧ wait_ok s0 ∧ passed_on s s0 addr v ∧
  is_Some (wc_waits s0 !! current_thread s) ∧ queue_of (wc_waits s0) (current_thread s) = None ∧ undisturbed s s0 ∧
  (wakes_up (wc_timer s) (wc_waits s) → wakes_up (wc_timer s0) (wc_waits s0)).
Proof.
  intros Hok Hx Hq. unfold pass_on. destruct (give_lock_run s (current_thread s) addr Hok Hx) as [(-> & Hn)|(n & i & has & l' & -> & Hh & Hnx & Hend)].
  { pstep. exists s, 0. split_and!; try done. by left. }
  pstep. pose proof Hh as [(Hon & _) _ _ (_ & _ & Hu)].
  destruct (owner_of_inv _ _ _ (proj1 (proj1 (wb_locks _ (wo_base _ Hok)))) Hon) as (kn & _ & _ & _ & Hkn & _).
  rewrite (next_tag_run s n l' has) by (done || by eexists). pstep. set (v := if has then _ else _).
  destruct (Hend (wc_memory s) ResultSuccess) as (s0 & E & Hok0 & Hw & Hwu).
  change (set_memory (wc_memory s) (set_lock_state l' s)) with (set_lock_state l' s) in E, Hw. cbn [end_wait_of].
  rewrite E. pstep. pose proof (woken_undisturbed _ _ _ _ Hw) as [U1 U2 U3 U4 U5 U6 U7].
  pose proof (wk_waits _ _ _ _ Hw) as (w & _ & EW). cbn in EW. exists s0, v. split_and!; try done.
  - right. by exists n, i, has, l'.
  - by apply U2.
  - by rewrite EW, queue_of_insert, decide_False.
  - constructor; try done.
    + intros y. rewrite U3. by apply unmoved_tree.
    + intros y. rewrite U4. by apply unmoved_ckey.
    + intros c. rewrite U5. apply (um_trees _ _ Hu).
    + rewrite U6. apply (um_current _ _ Hu).
Qed.

(** The lock data of a thread that waits on a condition variable. *)
Definition condvar_locks (c addr key value : Z) (k : ThreadLocks) : ThreadLocks :=
  MkLocks (m_base_priority k) (m_held_lock_info_list k) (m_waiting_lock_info k) addr false (Some c) key (is_pinned k) value.

Definition condvar_waits (s s' : wctx) (res : option Z) (c addr key value timeout : Z) : Prop :=
  res = Some ResultTerminationRequested ∧ s' = s ∨
  ∃ s0 v, passed_on s s0 addr v ∧
    if timeout =? 0 then res = Some ResultTimedOut ∧ s' = WriteToUser addr v (WriteToUser key 1 s0)
    else res = None ∧ ∃ k, lc_locks (wc_locks s0) !! current_thread s = Some k ∧
      queued (WriteToUser addr v (WriteToUser key 1 s0)) s' (current_thread s) (condvar_locks c addr key value k) c
        (ThreadQueueImplForKConditionVariableWaitConditionVariable c) timeout.

Lemma Wait_run (s : wctx) c addr key value timeout : wait_ok s → is_Some (wc_waits s !! current_thread s) →
  queue_of (wc_waits s) (current_thread s) = None → is_Some (lc_cv_trees (wc_locks s) !! c) → is_arbiter c = false →
  timeout ≤ S64_MAX → ∃ res s', KConditionVariable_Wait c addr key value timeout s = Done true (res, s') ∧ wait_ok s' ∧
  condvar_waits s s' res c addr key value timeout ∧ same_names s s' ∧ (∀ y, is_Some (wc_waits s' !! y) ↔ is_Some (wc_waits s !! y)) ∧ wc_sync s' = wc_sync s ∧
  (wakes_up (wc_timer s) (wc_waits s) → wakes_up (wc_timer s') (wc_waits s')).
Proof.
  intros Hok Hx Hq Hc Harb Hto. unfold KConditionVariable_Wait.
  destruct (IsTerminationRequested_run s _ (wo_base _ Hok) Hx) as (b & ->). pstep.
  destruct b; [exists (Some ResultTerminationRequested), s; split_and!; try done; by left|].
  destruct (pass_on_run s addr Hok Hx Hq) as (s0 & v & E & Hok0 & Hp & Hx0 & Hq0 & [U1 U2 U3 U4 U5 U6 U7] & Hwu).
  rewrite pass_on_eq, E. pstep. set (s1 := WriteToUser addr v (WriteToUser key 1 s0)).
  assert (wait_ok s1) as Hok1 by (by do 2 apply memory_ok). destruct (timeout =? 0) eqn:Et.
  { eexists _, _. split; [done|]. split_and!; try done. right. exists s0, v. by rewrite Et. }
  destruct (runs_free s1 (current_thread s) Hok1 Hx0 Hq0) as (k & w & Hk & Hw & Hwl & _).
  unfold SetConditionVariable. rewrite (get_locks_run _ _ k), bind_Done_true, Hwl, bool_decide_true by done.
  change (ASSERT true) with (Done true tt). pstep. erewrite on_locks_run by (by apply (change_locks_run _ _ k)). rewrite bind_Done_true.
  destruct (proj2 (U5 c) Hc) as [tree Htree].
  destruct (queue_run s1 (current_thread s) k (condvar_locks c addr key value k) c tree
    (ThreadQueueImplForKConditionVariableWaitConditionVariable c) timeout) as (s' & E' & Hok' & Hqd & Hwu'); try done; [by rewrite Harb|].
  exists None, s'. split; [exact E'|]. split_and!; try done.
  - right. exists s0, v. rewrite Et. split; [done|]. split; [done|]. exists k. done.
  - destruct Hqd as (r1 & r2 & _ & Hbg). intros h. rewrite (bg_handles _ _ _ _ _ Hbg). cbn. apply U1.
  - destruct Hqd as (r1 & r2 & _ & Hbg). destruct (bg_waits _ _ _ _ _ Hbg) as (w' & Hw' & EW). intros y. rewrite EW.
    etrans; [apply dom_insert_same; by eexists|]. apply U2.
  - destruct Hqd as (r1 & r2 & _ & Hbg). rewrite (bg_sync _ _ _ _ _ Hbg). exact U7.
  - auto.
Qed.

(** ** Sleep *)
Lemma Sleep_run (s : wctx) timeout : wait_ok s → is_Some (wc_waits s !! current_thread s) →
  queue_of (wc_waits s) (current_thread s) = None → 0 < timeout ≤ S64_MAX → ∃ res s',
  Sleep timeout s = Done true (res, s') ∧ wait_ok s' ∧
  match res with
  | Some r => r = ResultTerminationRequested ∧ s' = s
  | None => began s s' (current_thread s) (MkThreadQueue ThreadQueueImplForKThreadSleep true) timeout
  end ∧ (wakes_up (wc_timer s) (wc_waits s) → wakes_up (wc_timer s') (wc_waits s')).
Proof.
  intros Hok Hx Hq Hto. unfold Sleep. assert ((0 <? timeout) = true) as Et by (apply Z.ltb_lt; lia). rewrite Et.
  change (ASSERT true) with (Done true tt). pstep. destruct (IsTerminationRequested_run s _ (wo_base _ Hok) Hx) as (b & ->). pstep.
  destruct b; [by exists (Some ResultTerminationRequested), s|].
  destruct (runs_free s _ Hok Hx Hq) as (k & w & Hk & Hw & Hwl & Hcv & Hw0 & Ho).
  destruct (begin_run s (current_thread s) ThreadQueueImplForKThreadSleep timeout w) as (s' & E & Hok' & Hbg & Hwu); try done.
  - apply Hok.
  - intros y _. by apply Hok.
  - lia.
  - unfold kind_ok. cbn. by rewrite Ho, (tree_of_some _ _ _ Hk).
  - by apply (no_objects s _ None); [apply Hok|..].
  - exists None, s'. rewrite Et in Hbg. replace (Z.max 0 timeout) with timeout in Hbg by lia. done.
Qed.
End CondVar.
