(* ===== verification/SynchronizationTheorems.v ===== *)
(** * Waiting for synchronization objects: what the operations do *)

From S2P Require Import Prelude Common OrderedTree Thread PriorityQueue PriorityQueueTheorems PriorityQueueRefinement Scheduler SchedulerLemmas SchedulerOperations Locks LocksLemmas LocksOperations LocksTransfer LocksTheorems SynchronizationObject Waiting ConditionVariable Synchronization SynchronizationLemmas WaitingLemmas AddressArbiterLemmas ConditionVariableLemmas.

(** Threads in the order of their first node. *)
Fixpoint once (l : list Z) : list Z :=
  match l with
  | [] => []
  | x :: l => x :: filter (λ z, z ≠ x) (once l)
  end.

Lemma once_filter x l : once (filter (λ z, z ≠ x) l) = filter (λ z, z ≠ x) (once l).
Proof.
  induction l as [|z l IH]; [done|]. cbn [once]. rewrite !filter_cons. destruct (decide (z ≠ x)) as [Hz|Hz].
  - cbn [once]. rewrite IH. f_equal. rewrite !list_filter_filter. apply list_filter_iff. tauto.
  - rewrite IH. apply dec_stable in Hz as ->. rewrite list_filter_filter. apply list_filter_iff. tauto.
Qed.

Lemma elem_of_once x l : x ∈ once l ↔ x ∈ l.
Proof.
  induction l as [|z l IH]; [done|]. cbn. rewrite !elem_of_cons, list_elem_of_filter, IH. destruct (decide (x = z)); tauto.
Qed.

Section Theorems.
Context {C H M : Type} `{Clock C} `{ThreadHandles H} `{GuestMemory M} `{TreeKinds}.
Local Abbreviation wctx := (WaitContext C H M).
Local Abbreviation sync s := (wc_sync s).

(** What the thread has when the object was signaled. *)
Definition notified (s s' : wctx) (o x : Z) : Prop := ∃ t,
  sy_threads (sync s) !! x = Some t ∧
  sy_threads (sync s') !! x =
    Some (MkSyncThread (sync_index_of o (objects_of (queue_of (wc_waits s) x)) 0) (m_wait_cancelled t) false).

Lemma notify_one_run (s : wctx) x q objs o r : wait_ok s → queue_of (wc_waits s) x = Some q →
  queue_kind q = ThreadQueueImplForKSynchronizationObjectWait objs → ∃ s',
  KThread_NotifyAvailable x o r s = Done true s' ∧ wait_ok s' ∧ released s s' [x] r ∧ notified s s' o x ∧
  (∀ o1 cur ds, trail (sync s) o1 cur ds → ∃ ds', trail (sync s') o1 cur ds' ∧ (∀ d, d ∈ ds' → d ∈ ds ∨ d.1 = x) ∧
     (length ds' + length (waiters (sync s') o1) ≤ length ds + length (waiters (sync s) o1))%nat) ∧
  (wakes_up (wc_timer s) (wc_waits s) → wakes_up (wc_timer s') (wc_waits s')).
Proof.
  intros [HB Hth] Hq Ek. destruct (Hth x) as [A1 A2 A3 A4]. rewrite Hq in A1, A2, A3, A4.
  destruct (queue_some _ _ _ Hq) as (w & Hw & Hwq).
  set (f := λ t, ClearCancellable (SetSyncedIndex (sync_index_of o objs 0) t)).
  destruct (unsync_run s x q objs f HB Hq Ek A4) as (t & y1 & y & Ht & E1 & U & _ & Ey & HB1 & L).
  unfold KThread_NotifyAvailable. rewrite thread_state_run, bind_Done_true by (done || by eexists).
  rewrite (proj2 A1) by done. rewrite Z.eqb_refl, (get_waits_run _ _ w), bind_Done_true, Hwq by done. cbn [deref]. pstep.
  unfold KThreadQueue_NotifyAvailable. rewrite Ek, notify_loop_eq, E1. pstep. change (-1 =? -1) with true. cbv iota.
  pose proof (sf_threads _ _ (au_flags _ _ _ _ _ U)) as Et.
  rewrite (on_sync_run (set_sync y1 s) _ (MkSync (sy_objects y1) (sy_nodes y1) (<[x := SetSyncedIndex (sync_index_of o objs 0) t]> (sy_threads (sync s))))),
    bind_Done_true by (cbn [set_sync wc_sync]; rewrite (change_sync_run _ _ t) by (by rewrite Et); by rewrite Et).
  rewrite (on_sync_run _ _ y), bind_Done_true.
  2:{ cbn [set_sync wc_sync]. rewrite (change_sync_run _ _ (SetSyncedIndex (sync_index_of o objs 0) t)) by (cbn; by rewrite lookup_insert_eq).
      cbn. rewrite insert_insert_eq. by rewrite Ey. }
  change (set_sync y (set_sync _ (set_sync y1 s))) with (set_sync y s).
  destruct (end_of_wait_run (set_sync y s) x r (m_hardware_timer q)) as (s' & E' & HB' & Hwk & Hwu); [done|by eexists| |].
  { intros Hf. pose proof (tk_range _ _ (wb_tasks _ HB) x). cbn. destruct (decide (0 < time_of (wc_waits s) x)) as [Hp|]; [|lia].
    destruct (A3 Hp) as (q' & [= <-] & ?). congruence. }
  unfold kind_ok in A2. cbn in A2. rewrite Ek in A2. destruct A2 as [Ho Htr].
  pose proof (unsynced_released s s' y x r Ho Htr L Hwk) as R. exists s'. split_and!; try done.
  - apply (released_ok s s' [x] r); [by intros z _|done|done].
  - exists t. split; [done|]. rewrite (wk_sync _ _ _ _ Hwk), Hq. cbn. rewrite Ey. cbn. rewrite lookup_insert_eq. unfold objects_of. cbn. by rewrite Ek.
  - intros o1 cur ds Htr1. destruct (au_trail _ _ _ _ _ U o1 cur ds Htr1) as (ds' & [T1 T2] & Hd & Hl). exists ds'.
    rewrite (wk_sync _ _ _ _ Hwk), Ey. split; [by constructor|]. split; [|done]. intros d [?|[? _]]%Hd; tauto.
Qed.

(** A thread that has a node waits for the object. *)
Lemma node_queue (s : wctx) o n : wait_ok s → n ∈ waiters (sync s) o → ∃ q objs,
  queue_of (wc_waits s) n.1 = Some q ∧ queue_kind q = ThreadQueueImplForKSynchronizationObjectWait objs ∧ objs !! n.2 = Some o.
Proof.
  intros [_ Hth] Hn. destruct n as [x i]. cbn [fst snd]. apply (th_nodes _ _ (Hth x)) in Hn. unfold objects_of in Hn.
  destruct (queue_of (wc_waits s) x) as [q|]; [|done]. cbn in Hn. destruct (queue_kind q) as [| | | |objs] eqn:E; try done. by exists q, objs.
Qed.

Lemma queue_unchanged (s s' : wctx) xs r x : released s s' xs r → x ∉ xs → queue_of (wc_waits s') x = queue_of (wc_waits s) x.
Proof. intros R Hx. unfold queue_of. by rewrite (rl_waits _ _ _ _ R). Qed.

Lemma idle_notify (s : wctx) x o r : wait_base s → is_Some (wc_waits s !! x) → state_of (wc_locks s) x ≠ ThreadState_Waiting →
  KThread_NotifyAvailable x o r s = Done true s.
Proof.
  intros HB Hx Hst. unfold KThread_NotifyAvailable. rewrite thread_state_run, bind_Done_true by done. by rewrite (proj2 (Z.eqb_neq _ _)).
Qed.

Lemma notify_threads_run fuel : ∀ (s : wctx) cur ds o r, wait_ok s → trail (sync s) o cur ds →
  (∀ d, d ∈ ds → is_Some (wc_waits s !! d.1) ∧ state_of (wc_locks s) d.1 ≠ ThreadState_Waiting) →
  (length ds + length (waiters (sync s) o) ≤ fuel)%nat → ∃ s',
  notify_threads fuel cur o r s = Done true s' ∧ wait_ok s' ∧
  released s s' (once (waiters (sync s) o).*1) r ∧ waiters (sync s') o = [] ∧
  (∀ x, x ∈ (waiters (sync s) o).*1 → notified s s' o x) ∧
  (wakes_up (wc_timer s) (wc_waits s) → wakes_up (wc_timer s') (wc_waits s')).
Proof.
  induction fuel as [|fuel IH]; intros s cur ds o r Hok [Htr Hout] Hds Hlen.
  all: destruct ds as [|d ds]; cbn [leads] in Htr.
  - destruct (waiters (sync s) o) as [|n l] eqn:Ew; [|cbn in Hlen; lia]. cbn in Htr. subst cur. exists s. cbn.
    split_and!; try done; [apply released_nil|]. by intros x ?%elem_of_nil.
  - cbn in Hlen. lia.
  - destruct (waiters (sync s) o) as [|n l] eqn:Ew; cbn in Htr; subst cur.
    { exists s. cbn. split_and!; try done; [apply released_nil|]. by intros x ?%elem_of_nil. }
    assert (n ∈ waiters (sync s) o) as Hn by (rewrite Ew; left).
    destruct (node_queue s o n Hok Hn) as (q & objs & Hq & Ek & Ei).
    destruct (waiters_object _ _ _ Hn) as [ob Hob]. pose proof (wb_lists _ (wo_base _ Hok)) as Hl.
    destruct (ls_list _ Hl o ob Hob) as [_ _ Hc _]. rewrite Ew in Hc. destruct Hc as [En _].
    cbn [notify_threads]. rewrite (get_node_run _ _ _ En), bind_Done_true. cbn [node_thread].
    destruct (notify_one_run s n.1 q objs o r Hok Hq Ek) as (s1 & E1 & Hok1 & R1 & N1 & HT & Hwu1). rewrite E1, bind_Done_true.
    destruct (HT o (Some n) []) as (ds1 & [T1 T2] & Hd1 & Hl1).
    { constructor; [by rewrite Ew|]. by intros d o' ?%elem_of_nil. }
    pose proof (sl_lists _ _ _ (rl_sync _ _ _ _ R1)) as Ew1.
    assert (n ∉ waiters (sync s1) o) as Hn1 by (rewrite Ew1, list_elem_of_filter, list_elem_of_singleton; tauto).
    destruct ds1 as [|d1 ds1]; cbn [leads] in T1.
    { exfalso. apply Hn1. destruct (waiters (sync s1) o) as [|m l1]; [done|]. injection T1 as ->. left. }
    destruct T1 as ([= <-] & nx & En1 & T1). rewrite (get_node_run _ _ _ En1), bind_Done_true. cbn [node_next].
    rewrite Ew in Hl1. cbn [length] in Hl1. cbn [length] in Hlen.
    destruct (IH s1 nx ds1 o r Hok1) as (s' & E' & Hok' & R' & Ew' & N' & Hwu').
    { constructor; [done|]. intros d o' Hd. apply T2. by right. }
    { intros d Hd. destruct (Hd1 d) as [?%elem_of_nil| ->]; [by right|done|].
      destruct (rl_self _ _ _ _ R1 n.1) as (Est & _ & _ & w & _ & Ew2); [left|]. rewrite Est, Ew2. split; [by eexists|done]. }
    { lia. }
    exists s'. split_and!; try done; [| |auto].
    + assert (once (n :: l).*1 = [n.1] ++ once (waiters (sync s1) o).*1) as ->; [|by eapply released_trans].
      cbn [fmap list_fmap once app]. f_equal. rewrite Ew1, Ew, filter_cons_False by (rewrite list_elem_of_singleton; tauto).
      rewrite <- once_filter. f_equal. clear. induction l as [|m l IHl]; [done|]. cbn [fmap list_fmap]. rewrite !filter_cons, IHl.
      destruct (decide (m.1 ≠ n.1)), (decide (m.1 ∉ [n.1])); rewrite ?list_elem_of_singleton in *; done.
    + intros x Hx. destruct (decide (x = n.1)) as [->|Hne].
      * destruct N1 as (t & Ht & Et). exists t. split; [done|]. rewrite <- Et. apply (sl_threads _ _ _ (rl_sync _ _ _ _ R')).
        rewrite elem_of_once, Ew1. intros (m & Em & [Hm _]%list_elem_of_filter)%list_elem_of_fmap. apply Hm. rewrite <- Em. left.
      * destruct (N' x) as (t & Ht & Et).
        { cbn in Hx. apply elem_of_cons in Hx as [?|(m & -> & Hm)%list_elem_of_fmap]; [done|]. apply list_elem_of_fmap_2. rewrite Ew1, Ew.
          apply list_elem_of_filter. rewrite list_elem_of_singleton. split; [done|by right]. }
        assert (x ∉ [n.1]) as Hx1 by (by rewrite list_elem_of_singleton).
        exists t. rewrite <- (sl_threads _ _ _ (rl_sync _ _ _ _ R1) x Hx1). split; [done|]. by rewrite Et, (queue_unchanged s s1 [n.1] r x).
  - destruct Htr as (-> & nx & En & Htr). cbn [notify_threads]. rewrite (get_node_run _ _ _ En), bind_Done_true. cbn [node_thread].
    destruct (Hds d) as [Hd Hst]; [left|]. rewrite (idle_notify s d.1 o r (wo_base _ Hok) Hd Hst), bind_Done_true, (get_node_run _ _ _ En), bind_Done_true.
    apply (IH s nx ds o r Hok); [constructor; [done|]; intros d' o' Hd'; apply Hout; by right| |cbn in Hlen; lia].
    intros d' Hd'. apply Hds. by right.
Qed.

(** ** Flags *)
Definition is_signaled (y : SyncState) (o : Z) : bool := default false (m_is_signaled <$> sy_objects y !! o).

(** The state of objects and threads changes, but no list does. *)
Lemma flags_ok (s : wctx) y : wait_ok s → sy_nodes y = sy_nodes (sync s) →
  (∀ o, m_thread_list_head <$> sy_objects y !! o = m_thread_list_head <$> sy_objects (sync s) !! o) →
  (∀ o, m_thread_list_tail <$> sy_objects y !! o = m_thread_list_tail <$> sy_objects (sync s) !! o) →
  (∀ x, is_Some (sy_threads (sync s) !! x) → is_Some (sy_threads y !! x)) →
  wait_ok (set_sync y s) ∧ ∀ o, waiters y o = waiters (sync s) o.
Proof.
  intros [HB Hth] En Eh Et Hd. assert (∀ o, waiters y o = waiters (sync s) o) as Ew.
  { intros o. unfold waiters. rewrite En. f_equal. specialize (Eh o).
    destruct (sy_objects y !! o), (sy_objects (sync s) !! o); cbn in *; congruence. }
  split; [|done]. constructor.
  - apply sync_base; [done| |done]. pose proof (wb_lists _ HB) as [L1 L2]. constructor.
    + intros o ob Ho. rewrite En, Ew. specialize (Eh o). specialize (Et o). rewrite Ho in Eh, Et.
      destruct (sy_objects (sync s) !! o) as [ob'|] eqn:Eo; [|done]. destruct (L1 o ob' Eo) as [A1 A2 A3 A4]. cbn in *. constructor; congruence.
    + intros o o' n. rewrite !Ew. apply L2.
  - intros x. destruct (Hth x) as [A1 A2 A3 A4]. constructor; try done. intros o i. cbn. rewrite Ew. apply A4.
Qed.

Lemma change_sync_ok (s : wctx) x f : wait_ok s → is_Some (wc_waits s !! x) → ∃ t,
  sy_threads (sync s) !! x = Some t ∧
  on_sync (change_sync x f) s = Done true (set_sync (MkSync (sy_objects (sync s)) (sy_nodes (sync s)) (<[x := f t]> (sy_threads (sync s)))) s) ∧
  wait_ok (set_sync (MkSync (sy_objects (sync s)) (sy_nodes (sync s)) (<[x := f t]> (sy_threads (sync s)))) s).
Proof.
  intros Hok Hx. destruct (wb_sync _ (wo_base _ Hok) x Hx) as [t Ht]. exists t. split; [done|]. split.
  - apply on_sync_run. by rewrite (change_sync_run _ _ t).
  - apply flags_ok; [done|done|done|done|]. intros z Hz. cbn.
    destruct (decide (z = x)) as [->|]; [rewrite lookup_insert_eq; by eexists|by rewrite lookup_insert_ne].
Qed.

(** The object's flag after a change. *)
Definition flagged (s : wctx) (o : Z) (ob : KSynchronizationObject) : wctx := set_sync (put_object o ob (sync s)) s.

Lemma flag_ok (s : wctx) o ob ob' : wait_ok s → sy_objects (sync s) !! o = Some ob →
  m_thread_list_head ob' = m_thread_list_head ob → m_thread_list_tail ob' = m_thread_list_tail ob →
  wait_ok (flagged s o ob') ∧ ∀ o', waiters (sync (flagged s o ob')) o' = waiters (sync s) o'.
Proof.
  intros Hok Ho Eh Et. apply flags_ok; [done|done|..|done]; intros o'; cbn;
    (destruct (decide (o' = o)) as [->|]; [by rewrite lookup_insert_eq, Ho; cbn; congruence|by rewrite lookup_insert_ne]).
Qed.

Lemma change_object_run (s : wctx) o ob f : sy_objects (sync s) !! o = Some ob →
  change_object o f s = Done true (flagged s o (f ob)).
Proof. intros Ho. unfold change_object. apply on_sync_run. rewrite (get_object_run _ _ ob) by done. by pstep. Qed.

(** ** NotifyAvailable *)

(** All threads that wait for the object are released, in the order of the list. *)
Record object_notified (s s' : wctx) (o r : Z) : Prop := MkObjectNotified {
  on_released : released s s' (once (waiters (sync s) o).*1) r;
  on_empty : waiters (sync s') o = [];
  on_threads x : x ∈ (waiters (sync s) o).*1 → notified s s' o x
}.

Lemma NotifyAvailable_run (s : wctx) o ob r : wait_ok s → sy_objects (sync s) !! o = Some ob →
  if m_is_signaled ob then ∃ s', KSynchronizationObject_NotifyAvailable o r s = Done true s' ∧ wait_ok s' ∧ object_notified s s' o r ∧
    (wakes_up (wc_timer s) (wc_waits s) → wakes_up (wc_timer s') (wc_waits s'))
  else KSynchronizationObject_NotifyAvailable o r s = Done true s.
Proof.
  intros Hok Ho. unfold KSynchronizationObject_NotifyAvailable. rewrite (get_object_run _ _ ob), bind_Done_true by done.
  destruct (m_is_signaled ob); cbn [negb]; [|done]. pose proof (ls_list _ (wb_lists _ (wo_base _ Hok)) o ob Ho) as [Eh _ Hc Hn].
  destruct (notify_threads_run (size (sy_nodes (sync s))) s (m_thread_list_head ob) [] o r Hok) as (s' & E & Hok' & R & Ew & N & Hwu).
  - constructor; [done|]. by intros d o' ?%elem_of_nil.
  - by intros d ?%elem_of_nil.
  - cbn. by apply chain_size.
  - exists s'. split; [done|]. split; [done|]. split; [by constructor|done].
Qed.

(** ** Wait *)
Lemma first_signaled_run (y : SyncState) objs : ∀ i, (∀ o, o ∈ objs → is_Some (sy_objects y !! o)) → ∃ res,
  first_signaled objs i y = Done true res ∧
  match res with
  | Some k => ∃ j o, k = (i + j)%nat ∧ objs !! j = Some o ∧ is_signaled y o = true ∧
      ∀ j' o', (j' < j)%nat → objs !! j' = Some o' → is_signaled y o' = false
  | None => ∀ o, o ∈ objs → is_signaled y o = false
  end.
Proof.
  induction objs as [|o objs IH]; intros i Hobj; cbn [first_signaled].
  - exists None. split; [done|]. by intros o ?%elem_of_nil.
  - destruct (Hobj o) as [ob Ho]; [left|]. rewrite (get_object_run _ _ ob), bind_Done_true by done.
    assert (is_signaled y o = m_is_signaled ob) as Es by (unfold is_signaled; by rewrite Ho). destruct (m_is_signaled ob).
    + exists (Some i). split; [done|]. exists 0%nat, o. split; [lia|]. split; [done|]. split; [done|]. lia.
    + destruct (IH (S i)) as (res & E & Hres); [intros; apply Hobj; by right|]. exists res. split; [done|]. destruct res as [k|].
      * destruct Hres as (j & o1 & -> & Hj & Hs & Hb). exists (S j), o1. split; [lia|]. split; [done|]. split; [done|].
        intros [|j'] o' Hlt Hj'; [by injection Hj' as <-|]. eapply Hb; [|exact Hj']. lia.
      * intros o' [->|Ho']%elem_of_cons; [done|by apply Hres].
Qed.

(** The thread waits for the objects: its nodes are at the ends of their lists. *)
Record sync_waits (s s' : wctx) (x : Z) (objs : list Z) (timeout : Z) : Prop := MkSyncWaits {
  sw_state : state_of (wc_locks s') x = ThreadState_Waiting;
  sw_queue : queue_of (wc_waits s') x = Some (MkThreadQueue (ThreadQueueImplForKSynchronizationObjectWait objs) (0 <? timeout));
  sw_lists o : waiters (sync s') o = waiters (sync s) o ++ my_nodes x objs 0 o;
  sw_thread : ∃ t, sy_threads (sync s) !! x = Some t ∧ sy_threads (sync s') !! x = Some (MkSyncThread (-1) (m_wait_cancelled t) true);
  sw_others z : z ≠ x → wc_waits s' !! z = wc_waits s !! z ∧ sy_threads (sync s') !! z = sy_threads (sync s) !! z;
  sw_dom : is_Some (wc_waits s' !! x);
  sw_signaled o : is_signaled (sync s') o = is_signaled (sync s) o;
  sw_handles : wc_handles s' = wc_handles s
}.

(** What a call returns at once, or that it waits. *)
Definition sync_outcome (s s' : wctx) (res : option (Z * option nat)) (objs : list Z) (timeout : Z) : Prop :=
  match res with
  | Some (r, Some i) => r = ResultSuccess ∧ s' = s ∧ ∃ o, objs !! i = Some o ∧ is_signaled (sync s) o = true ∧
      ∀ j o', (j < i)%nat → objs !! j = Some o' → is_signaled (sync s) o' = false
  | Some (r, None) =>
      r = ResultTerminationRequested ∧ s' = s ∨
      (∀ o, o ∈ objs → is_signaled (sync s) o = false) ∧
      (timeout = 0 ∧ r = ResultTimedOut ∧ s' = s ∨
       timeout ≠ 0 ∧ r = ResultCancelled ∧ ∃ t, sy_threads (sync s) !! current_thread s = Some t ∧ m_wait_cancelled t = true ∧
         s' = set_sync (MkSync (sy_objects (sync s)) (sy_nodes (sync s)) (<[current_thread s := ClearWaitCancelled t]> (sy_threads (sync s)))) s)
  | None => timeout ≠ 0 ∧ (∀ o, o ∈ objs → is_signaled (sync s) o = false) ∧ sync_waits s s' (current_thread s) objs timeout
  end.

Lemma same_flags_signaled (y y' : SyncState) o : same_flags y y' → is_signaled y' o = is_signaled y o.
Proof.
  intros [_ E]. specialize (E o). unfold is_signaled. destruct (sy_objects y' !! o), (sy_objects y !! o); cbn in *; congruence.
Qed.

Lemma SyncWait_run (s : wctx) objs timeout : wait_ok s → is_Some (wc_waits s !! current_thread s) →
  queue_of (wc_waits s) (current_thread s) = None → (∀ o, o ∈ objs → is_Some (sy_objects (sync s) !! o)) → timeout ≤ S64_MAX → ∃ res s',
  KSynchronizationObject_Wait objs timeout s = Done true (res, s') ∧ wait_ok s' ∧ sync_outcome s s' res objs timeout ∧
  (wakes_up (wc_timer s) (wc_waits s) → wakes_up (wc_timer s') (wc_waits s')).
Proof.
  intros Hok Hx Hq Hobj Hto. pose proof Hok as [HB Hth]. unfold KSynchronizationObject_Wait. set (x := current_thread s) in *.
  destruct (IsTerminationRequested_run s _ HB Hx) as (b & ->). pstep.
  destruct b; [eexists _, s; split; [done|]; split; [done|]; split; [by left|done]|].
  destruct (first_signaled_run (sync s) objs 0 Hobj) as (res & -> & Hres). pstep. destruct res as [i|].
  { eexists _, s. split; [done|]. split; [done|]. split; [|done]. destruct Hres as (j & o & -> & Hj & Hs & Hb). cbn. split; [done|]. split; [done|]. by exists o. }
  destruct (timeout =? 0) eqn:Et; bool_prop.
  { eexists _, s. split; [done|]. split; [done|]. split; [right; split; [done|by left]|done]. }
  destruct (wb_sync _ HB x Hx) as [t Ht]. unfold get_sync at 1. rewrite Ht. cbn [deref]. pstep. destruct (m_wait_cancelled t) eqn:Ec.
  { destruct (change_sync_ok s x ClearWaitCancelled Hok Hx) as (t' & Ht' & E & Hok'). rewrite Ht in Ht'. injection Ht' as <-. rewrite E. pstep.
    eexists _, _. split; [done|]. split; [done|]. split; [|done]. right. split; [done|]. right. split; [done|]. split; [done|]. by exists t. }
  destruct (link_all_run x objs 0 (sync s) (wb_lists _ HB) Hobj) as (y1 & E1 & L1 & F1 & Ew1).
  { intros o [z i] Hn Hz. cbn in Hz. subst z. apply (th_nodes _ _ (Hth x)) in Hn. by rewrite Hq in Hn. }
  rewrite (on_sync_run _ _ y1), bind_Done_true by done. pose proof (sf_threads _ _ F1) as Et1.
  rewrite (on_sync_run (set_sync y1 s) _ _ (change_sync_run y1 x t SetCancellable ltac:(by rewrite Et1))), bind_Done_true.
  set (y2 := MkSync _ _ _). change (set_sync y2 (set_sync y1 s)) with (set_sync y2 s). rewrite (on_sync_run (set_sync y2 s) _ _ (change_sync_run y2 x (SetCancellable t) (SetSyncedIndex (-1)) (lookup_insert_eq _ _ _))), bind_Done_true.
  set (y3 := MkSync _ _ _). change (set_sync y3 (set_sync y2 s)) with (set_sync y3 s).
  assert (y3 = MkSync (sy_objects y1) (sy_nodes y1) (<[x := MkSyncThread (-1) (m_wait_cancelled t) true]> (sy_threads (sync s)))) as E3.
  { unfold y3, y2. cbn. rewrite insert_insert_eq, Et1. done. }
  assert (∀ o, waiters y3 o = waiters (sync s) o ++ my_nodes x objs 0 o) as Ew3 by (intros o; rewrite E3; apply Ew1).
  assert (wait_base (set_sync y3 s)) as HB3.
  { apply sync_base; [done|rewrite E3; by apply lists_threads|]. intros z Hz. rewrite E3. cbn.
    destruct (decide (z = x)) as [->|]; [rewrite lookup_insert_eq; by eexists|by rewrite lookup_insert_ne]. }
  destruct (runs_free s x Hok Hx Hq) as (k & w & Hk & Hw & Hwl & Hcv & Hw0 & Ho).
  destruct (begin_run (set_sync y3 s) x (ThreadQueueImplForKSynchronizationObjectWait objs) timeout w) as (s' & E & Hok' & Hbg & Hwu); try done.
  - intros z Hz. destruct (Hth z) as [A1 A2 A3 A4]. constructor; try done. intros o i. cbn. rewrite Ew3, elem_of_app, elem_of_my_nodes, (A4 o i). cbn. naive_solver.
  - unfold kind_ok. cbn. rewrite Ho, (tree_of_some _ _ _ Hk). done.
  - intros o i. cbn [set_sync wc_sync]. rewrite Ew3, elem_of_app, elem_of_my_nodes, Nat.sub_0_r. cbn. rewrite (th_nodes _ _ (Hth x) o i), Hq. cbn.
    split; [intros [?|(_ & _ & ?)]; done|]. intros Hi. right. split; [done|]. split; [lia|done].
  - rewrite E. pstep. eexists _, s'. split; [done|]. split; [done|]. split; [|done]. split; [done|]. split; [done|].
    destruct (bg_waits _ _ _ _ _ Hbg) as (w' & Hw' & EW). pose proof (bg_sync _ _ _ _ _ Hbg) as ES. constructor.
    + by rewrite (bg_state _ _ _ _ _ Hbg), decide_True.
    + by rewrite EW, queue_of_insert, decide_True.
    + intros o. rewrite ES. apply Ew3.
    + exists t. split; [done|]. rewrite ES. cbn [set_sync wc_sync]. rewrite E3. cbn. apply lookup_insert_eq.
    + intros z Hz. rewrite EW, ES. cbn [set_sync wc_sync wc_waits]. rewrite E3. cbn. by rewrite !lookup_insert_ne.
    + rewrite EW, lookup_insert_eq. by eexists.
    + intros o. rewrite ES. cbn [set_sync wc_sync]. rewrite E3. exact (same_flags_signaled _ _ o F1).
    + by rewrite (bg_handles _ _ _ _ _ Hbg).
Qed.

(** ** WaitCancel *)
Definition cancel_outcome (s s' : wctx) (x : Z) : Prop := ∃ t, sy_threads (sync s) !! x = Some t ∧
  let with_flag b := set_sync (MkSync (sy_objects (sync s)) (sy_nodes (sync s)) (<[x := set_wait_cancelled b t]> (sy_threads (sync s)))) s in
  if bool_decide (state_of (wc_locks s) x = ThreadState_Waiting) && m_cancellable t
  then released (with_flag false) s' [x] ResultCancelled else s' = with_flag true.

Lemma WaitCancel_run (s : wctx) x : wait_ok s → is_Some (wc_waits s !! x) → ∃ s',
  WaitCancel x s = Done true s' ∧ wait_ok s' ∧ cancel_outcome s s' x ∧
  (wakes_up (wc_timer s) (wc_waits s) → wakes_up (wc_timer s') (wc_waits s')).
Proof.
  intros Hok Hx. unfold WaitCancel. rewrite thread_state_run, bind_Done_true by (done || apply Hok).
  destruct (wb_sync _ (wo_base _ Hok) x Hx) as [t Ht]. unfold get_sync at 1. rewrite Ht. cbn [deref]. pstep.
  assert ((state_of (wc_locks s) x =? ThreadState_Waiting) = bool_decide (state_of (wc_locks s) x = ThreadState_Waiting)) as ->.
  { destruct (state_of (wc_locks s) x =? ThreadState_Waiting) eqn:E; bool_prop; [by rewrite bool_decide_true|by rewrite bool_decide_false]. }
  destruct (bool_decide (state_of (wc_locks s) x = ThreadState_Waiting) && m_cancellable t) eqn:Eb.
  - destruct (change_sync_ok s x (set_wait_cancelled false) Hok Hx) as (t' & Ht' & E & Hok1). rewrite Ht in Ht'. injection Ht' as <-.
    rewrite E, bind_Done_true. set (s1 := set_sync _ s) in *. apply andb_true_iff in Eb as [Est%bool_decide_eq_true Ec].
    pose proof Hok1 as [HB1 Hth1]. destruct (Hth1 x) as [A1 A2 A3 A4]. change (wc_waits s1) with (wc_waits s) in *.
    destruct (queue_of (wc_waits s) x) as [q|] eqn:Eq; [|by apply A1 in Est].
    destruct (queue_some _ _ _ Eq) as (w & Hw & Hwq). rewrite (get_waits_run s1 _ w), bind_Done_true, Hwq by done. cbn [deref]. pstep.
    destruct (cancel_run s1 x q ResultCancelled true) as (s' & E' & Hok' & R & _ & Hwu); try done.
    { cbn. intros Hf. pose proof (tk_range _ _ (wb_tasks _ HB1) x) as Hr. change (wc_waits s1) with (wc_waits s) in Hr.
      destruct (decide (0 < time_of (wc_waits s) x)) as [Hp|]; [|lia]. destruct (A3 Hp) as (q' & [= <-] & ?). congruence. }
    exists s'. split_and!; try done. exists t. split; [done|]. by rewrite (bool_decide_true _ Est), Ec.
  - destruct (change_sync_ok s x (set_wait_cancelled true) Hok Hx) as (t' & Ht' & E & Hok1). rewrite Ht in Ht'. injection Ht' as <-.
    rewrite E. eexists. split; [done|]. split; [done|]. split; [|done]. exists t. split; [done|]. by rewrite Eb.
Qed.

(** ** Events *)
Lemma Signal_event_run (s : wctx) e ob : wait_ok s → sy_objects (sync s) !! e = Some ob → ∃ s',
  KReadableEvent_Signal e s = Done true (ResultSuccess, s') ∧ wait_ok s' ∧
  (if m_is_signaled ob then s' = s else object_notified (flagged s e (set_signaled true ob)) s' e ResultSuccess) ∧
  (wakes_up (wc_timer s) (wc_waits s) → wakes_up (wc_timer s') (wc_waits s')).
Proof.
  intros Hok Ho. unfold KReadableEvent_Signal. rewrite (get_object_run _ _ ob), bind_Done_true by done.
  destruct (m_is_signaled ob) eqn:Es; cbn [negb]; [pstep; by exists s|].
  rewrite (change_object_run s e ob) by done. pstep. destruct (flag_ok s e ob (set_signaled true ob) Hok Ho eq_refl eq_refl) as [Hok1 Ew].
  pose proof (NotifyAvailable_run (flagged s e (set_signaled true ob)) e (set_signaled true ob) ResultSuccess Hok1) as Hn.
  destruct Hn as (s' & E & Hok' & N & Hwu); [cbn; apply lookup_insert_eq|]. rewrite E. pstep. by exists s'.
Qed.

Lemma Reset_run (s : wctx) e ob : wait_ok s → sy_objects (sync s) !! e = Some ob → ∃ s',
  KReadableEvent_Reset e s = Done true (if m_is_signaled ob then ResultSuccess else ResultInvalidState, s') ∧ wait_ok s' ∧
  s' = (if m_is_signaled ob then flagged s e (set_signaled false ob) else s).
Proof.
  intros Hok Ho. unfold KReadableEvent_Reset. rewrite (get_object_run _ _ ob), bind_Done_true by done.
  destruct (m_is_signaled ob); cbn [negb]; [|by exists s]. rewrite (change_object_run s e ob) by done. pstep.
  eexists. split; [done|]. split; [|done]. by apply (flag_ok s e ob).
Qed.

(** ** No wakeup is lost: nobody waits for an object that is signaled. *)
Definition no_lost (s : wctx) : Prop := ∀ o, is_signaled (sync s) o = true → waiters (sync s) o = [].

(** A step after which fewer wait and no object is signaled that was not. *)
Definition sync_shrinks (s s' : wctx) : Prop := ∀ o,
  (∀ n, n ∈ waiters (sync s') o → n ∈ waiters (sync s) o) ∧ is_signaled (sync s') o = is_signaled (sync s) o ∧
  (is_Some (sy_objects (sync s') !! o) ↔ is_Some (sy_objects (sync s) !! o)).

Lemma shrinks_no_lost (s s' : wctx) : sync_shrinks s s' → no_lost s → no_lost s'.
Proof.
  intros Hs Hn o Ho. destruct (Hs o) as (Hw & Es & _). rewrite Es in Ho. specialize (Hn o Ho). rewrite Hn in Hw.
  destruct (waiters (sync s') o) as [|n l]; [done|]. by destruct (not_elem_of_nil n); apply Hw; left.
Qed.

Lemma same_shrinks (s s' : wctx) : sync s' = sync s → sync_shrinks s s'.
Proof. intros E o. by rewrite E. Qed.

Lemma released_shrinks (s s' : wctx) xs r : released s s' xs r → sync_shrinks s s'.
Proof.
  intros R o. destruct (rl_sync _ _ _ _ R) as [Ew _ Eo]. split; [|split].
  - intros n. rewrite Ew, list_elem_of_filter. tauto.
  - specialize (Eo o). unfold is_signaled. destruct (sy_objects (sync s') !! o), (sy_objects (sync s) !! o); cbn in *; congruence.
  - specialize (Eo o). by destruct (sy_objects (sync s') !! o), (sy_objects (sync s) !! o).
Qed.

Lemma empty_waiters (y : SyncState) o : (∀ n, n ∉ waiters y o) → waiters y o = [].
Proof. intros Hn. destruct (waiters y o) as [|n l]; [done|]. by destruct (Hn n); left. Qed.

Lemma flagged_signaled (s : wctx) o ob o' : is_signaled (sync (flagged s o ob)) o' =
  if decide (o' = o) then m_is_signaled ob else is_signaled (sync s) o'.
Proof. unfold is_signaled. cbn. case_decide; [subst; by rewrite lookup_insert_eq|by rewrite lookup_insert_ne]. Qed.

Lemma notified_no_lost (s s' : wctx) e ob r : wait_ok s → sy_objects (sync s) !! e = Some ob → no_lost s →
  object_notified (flagged s e (set_signaled true ob)) s' e r → no_lost s'.
Proof.
  intros Hok Ho Hn [R Ee _] o Hs. destruct (decide (o = e)) as [->|Hne]; [done|].
  destruct (released_shrinks _ _ _ _ R o) as (Hw & Es & _). rewrite Es, flagged_signaled, decide_False in Hs by done.
  apply empty_waiters. intros n Hi%Hw. destruct (flag_ok s e ob (set_signaled true ob) Hok Ho eq_refl eq_refl) as [_ Ew].
  rewrite Ew, (Hn o Hs) in Hi. by apply not_elem_of_nil in Hi.
Qed.

Lemma outcome_no_lost (s s' : wctx) res objs timeout : no_lost s → sync_outcome s s' res objs timeout → no_lost s'.
Proof.
  intros Hn Ho. destruct res as [[r [i|]]|]; cbn in Ho.
  - by destruct Ho as (_ & -> & _).
  - destruct Ho as [(_ & ->)|(_ & [(_ & _ & ->)|(_ & _ & t & _ & _ & ->)])]; done.
  - destruct Ho as (_ & Hu & W). intros o Hs. rewrite (sw_signaled _ _ _ _ _ W) in Hs. apply empty_waiters. intros n.
    rewrite (sw_lists _ _ _ _ _ W), (Hn o Hs). cbn [app]. intros (_ & _ & Hj)%elem_of_my_nodes. apply list_elem_of_lookup_2, Hu in Hj. congruence.
Qed.

Lemma flag_no_lost (s : wctx) o ob : wait_ok s → sy_objects (sync s) !! o = Some ob → no_lost s →
  no_lost (flagged s o (set_signaled false ob)).
Proof.
  intros Hok Ho Hn o' Hs. destruct (flag_ok s o ob (set_signaled false ob) Hok Ho eq_refl eq_refl) as [_ Ew]. rewrite Ew.
  rewrite flagged_signaled in Hs. by case_decide; [|apply Hn].
Qed.
End Theorems.
