(* ===== verification/WaitingProperties.v ===== *)
(** * The properties of waiting threads, condition variables and the address
    arbiter, and an example *)

From S2P Require Import Prelude Common OrderedTree Thread PriorityQueue PriorityQueueTheorems PriorityQueueRefinement Scheduler SchedulerLemmas SchedulerOperations SchedulerProperties Locks LocksLemmas LocksOperations LocksTransfer LocksTheorems LocksProperties SynchronizationObject Waiting ConditionVariable Synchronization SynchronizationLemmas WaitingLemmas AddressArbiterLemmas ConditionVariableLemmas SynchronizationTheorems.

(** ** Requests *)
Inductive wait_request : Type :=
| WqSwitch (thread : Z)
| WqSleep (timeout : Z)
| WqCancelWait (thread wait_result : Z)
| WqDoTask (cur_time : Z)
| WqSetBasePriority (thread value : Z)
| WqSignalToAddress (addr : Z)
| WqWaitForAddress (handle addr value : Z)
| WqSignal (tree cv_key count : Z)
| WqWait (tree addr key value timeout : Z)
| WqArbiterSignal (tree addr count : Z)
| WqSignalAndIncrementIfEqual (tree addr value count : Z)
| WqSignalAndModifyByWaitingCountIfEqual (tree addr value count : Z)
| WqWaitIfLessThan (tree addr value : Z) (decrement : bool) (timeout : Z)
| WqWaitIfEqual (tree addr value timeout : Z)
| WqSynchronization (objects : list Z) (timeout : Z)
| WqWaitCancel (thread : Z)
| WqReadableEventSignal (event : Z)
| WqReadableEventReset (event : Z)
| WqEventSignal (event : Z)
| WqEventClear (event : Z)
| WqReadableEventDestroyed (event : Z).

Section Properties.
Context {C H M : Type} `{Clock C} `{ThreadHandlesLaws H} `{GuestMemoryLaws M} `{TreeKinds}.
Local Abbreviation wctx := (WaitContext C H M).

(** Another thread makes the next call. *)
Definition switch_sched (x : Z) (c : SchedulerContext C) : SchedulerContext C :=
  MkContext (ctx_threads c) (ctx_processes c) (m_priority_queue c) (ctx_schedulers c) (m_scheduler_update_needed c)
    (m_woken_dummy_threads c) (m_thread_list c) (ctx_locked c) x (ctx_dispatch_count c) (ctx_clock c).
Definition switch_to (x : Z) (s : wctx) : wctx :=
  set_lock_state (set_sched (switch_sched x (lc_sched (wc_locks s))) (wc_locks s)) s.

Definition wait_request_run (r : wait_request) (s : wctx) : prog wctx :=
  match r with
  | WqSwitch thread => mret (switch_to thread s)
  | WqSleep timeout => '(_, s) ← Sleep timeout s; mret s
  | WqCancelWait thread wait_result => CancelWait thread wait_result true s
  | WqDoTask cur_time => DoTask cur_time s
  | WqSetBasePriority thread value => on_locks (SetBasePriority thread value) s
  | WqSignalToAddress addr => '(_, s) ← KConditionVariable_SignalToAddress addr s; mret s
  | WqWaitForAddress handle addr value => '(_, s) ← KConditionVariable_WaitForAddress handle addr value s; mret s
  | WqSignal tree cv_key count => KConditionVariable_Signal tree cv_key count s
  | WqWait tree addr key value timeout => '(_, s) ← KConditionVariable_Wait tree addr key value timeout s; mret s
  | WqArbiterSignal tree addr count => '(_, s) ← KAddressArbiter_Signal tree addr count s; mret s
  | WqSignalAndIncrementIfEqual tree addr value count => '(_, s) ← SignalAndIncrementIfEqual tree addr value count s; mret s
  | WqSignalAndModifyByWaitingCountIfEqual tree addr value count =>
      '(_, s) ← SignalAndModifyByWaitingCountIfEqual tree addr value count s; mret s
  | WqWaitIfLessThan tree addr value decrement timeout =>
      '(_, s) ← WaitIfLessThan tree addr value decrement timeout s; mret s
  | WqWaitIfEqual tree addr value timeout => '(_, s) ← WaitIfEqual tree addr value timeout s; mret s
  | WqSynchronization objects timeout => '(_, s) ← KSynchronizationObject_Wait objects timeout s; mret s
  | WqWaitCancel thread => WaitCancel thread s
  | WqReadableEventSignal event => '(_, s) ← KReadableEvent_Signal event s; mret s
  | WqReadableEventReset event => '(_, s) ← KReadableEvent_Reset event s; mret s
  | WqEventSignal event => '(_, s) ← KEvent_Signal event s; mret s
  | WqEventClear event => '(_, s) ← KEvent_Clear event s; mret s
  | WqReadableEventDestroyed event => OnReadableEventDestroyed event s
  end.

Definition tree_exists (s : wctx) (c : Z) (arbiter : bool) : Prop :=
  is_Some (lc_cv_trees (wc_locks s) !! c) ∧ is_arbiter c = arbiter.

Definition object_exists (s : wctx) (o : Z) : Prop := is_Some (sy_objects (wc_sync s) !! o).

Definition runs (s : wctx) (x : Z) : Prop := is_Some (wc_waits s !! x) ∧ queue_of (wc_waits s) x = None.

(** When a request is allowed.  The callers see to it that the thread that waits is
    one that runs, that timeouts are 64-bit and that the trees and the objects exist.
    The rest depends on the guest: the values of the arbiter do not overflow; a
    thread does not wait for a lock with its own handle, which ArbitrateLock does not
    refuse; and no waiter that a signal reaches has a lock word that names the waiter
    itself ([no_self]).  In the last two cases the kernel would make the thread wait
    for itself. *)
Definition wait_pre (r : wait_request) (s : wctx) : Prop :=
  match r with
  | WqSwitch thread => runs s thread
  | WqSleep timeout => runs s (current_thread s) ∧ 0 < timeout ≤ S64_MAX
  | WqCancelWait thread _ => is_Some (wc_waits s !! thread)
  | WqDoTask _ => True
  | WqSetBasePriority thread value => is_Some (wc_waits s !! thread) ∧ 0 ≤ value ≤ LowestThreadPriority
  | WqSignalToAddress _ => runs s (current_thread s)
  | WqWaitForAddress handle _ _ => runs s (current_thread s) ∧
      handle_names (wc_handles s) handle ≠ Some (current_thread s)
  | WqSignal tree cv_key count => tree_exists s tree false ∧
      ∀ it, cv_nfind tree cv_key s = Done true it → no_self (length (cv_tree s tree)) tree cv_key count 0 it s
  | WqWait tree _ _ _ timeout => runs s (current_thread s) ∧ tree_exists s tree false ∧ timeout ≤ S64_MAX
  | WqArbiterSignal tree _ _ => tree_exists s tree true
  | WqSignalAndIncrementIfEqual tree _ value _ => tree_exists s tree true ∧ -2 ^ 31 ≤ value < 2 ^ 31 - 1
  | WqSignalAndModifyByWaitingCountIfEqual tree _ value _ => tree_exists s tree true ∧ -2 ^ 31 + 2 ≤ value < 2 ^ 31 - 1
  | WqWaitIfLessThan tree addr value decrement timeout => runs s (current_thread s) ∧ tree_exists s tree true ∧
      timeout ≤ S64_MAX ∧ (decrement = true → ∃ v m, DecrementIfLessThan addr value s = Done true (v, set_memory m s))
  | WqWaitIfEqual tree _ _ timeout => runs s (current_thread s) ∧ tree_exists s tree true ∧ timeout ≤ S64_MAX
  | WqSynchronization objects timeout => runs s (current_thread s) ∧ (∀ o, o ∈ objects → object_exists s o) ∧ timeout ≤ S64_MAX
  | WqWaitCancel thread => is_Some (wc_waits s !! thread)
  | WqReadableEventSignal event | WqReadableEventReset event | WqEventSignal event | WqEventClear event
  | WqReadableEventDestroyed event => object_exists s event
  end.

Fixpoint wait_runs (rs : list wait_request) (s : wctx) : prog wctx :=
  match rs with
  | [] => mret s
  | r :: rs => s ← wait_request_run r s; wait_runs rs s
  end.

Fixpoint wait_allowed (rs : list wait_request) (s : wctx) : Prop :=
  match rs with
  | [] => True
  | r :: rs => wait_pre r s ∧ ∀ s', wait_request_run r s = Done true s' → wait_allowed rs s'
  end.

(** ** What the requests leave alone *)
Definition keeps (s s' : wctx) : Prop :=
  same_names s s' ∧ (∀ y, is_Some (wc_waits s' !! y) ↔ is_Some (wc_waits s !! y)) ∧ sync_shrinks s s'.

Lemma keeps_handles (s s' : wctx) : keeps s s' → handles_ok s → handles_ok s'.
Proof. intros (Hn & Hd & _) Hh h o. rewrite Hn, Hd. apply Hh. Qed.

Lemma released_keeps (s s' : wctx) xs r : released s s' xs r → keeps s s'.
Proof.
  intros R. split; [intros h; by rewrite (rl_handles _ _ _ _ R)|]. split; [|by eapply released_shrinks]. intros y. destruct (decide (y ∈ xs)) as [Hy|Hy].
  - destruct (rl_self _ _ _ _ R y Hy) as (_ & _ & _ & w & -> & ->). by split; eexists.
  - by rewrite (rl_waits _ _ _ _ R).
Qed.

Lemma began_keeps (s s' : wctx) x q t : began s s' x q t → keeps s s'.
Proof.
  intros [(w & Hw & EW) _ _ _ Hh _ Es]. split; [intros h; by rewrite Hh|]. split; [|by apply same_shrinks]. rewrite EW. apply dom_insert_same. by eexists.
Qed.

Lemma signalled_keeps (s s' : wctx) r c key count : signalled s s' r c key count → keeps s s'.
Proof. intros (m & [[_ ->]|[_ Hw]]); [by split; [|split]|]. exact (released_keeps _ _ _ _ (wk_released _ _ _ _ _ Hw)). Qed.

Lemma arbiter_keeps (s s' : wctx) o c key timeout : arbiter_waits s s' o c key timeout → keeps s s'.
Proof.
  intros (m & Hm). destruct o; [subst; by split; [|split]|]. destruct Hm as (k & _ & l1 & l2 & _ & Hbg). exact (began_keeps _ _ _ _ _ Hbg).
Qed.

Lemma gave_keeps (s s' : wctx) key : gave_lock s s' key → keeps s s'.
Proof.
  intros [(_ & ->)|(n & i & has & l' & _ & Hw)]; [by split; [|split]|]. destruct (woken_undisturbed _ _ _ _ Hw) as [U1 U2 _ _ _ _ U7].
  split; [done|]. split; [done|]. by apply same_shrinks.
Qed.

(** ** Every request keeps the invariant *)
Definition kernel_ok (s : wctx) : Prop := wait_inv s ∧ handles_ok s ∧ no_lost s.

Lemma kernel_step (s s' : wctx) : kernel_ok s → wait_ok s' → keeps s s' →
  (wakes_up (wc_timer s) (wc_waits s) → wakes_up (wc_timer s') (wc_waits s')) → kernel_ok s'.
Proof.
  intros ([_ Hw] & Hh & Hn) Hok' Hk Hwu. split; [split; [done|auto]|]. split; [by apply (keeps_handles s s')|].
  eapply shrinks_no_lost; [|done]. apply Hk.
Qed.

Lemma switch_inv (s : wctx) x : kernel_ok s → is_Some (wc_waits s !! x) → kernel_ok (switch_to x s).
Proof.
  intros ([[HB Hth] Hw] & Hh & Hnl) Hx. pose proof (wb_locks _ HB) as HI. pose proof HI as ((_ & ((L & HL) & HP) & Hl) & _).
  destruct (base_thread s x HB Hx) as (k & t & _ & Ht). split; [split; [|done]|done].
  constructor; [|intros y; destruct (Hth y); by constructor]. destruct HB as [_ A2 A3 A4 A5]. constructor; [|done..].
  apply (view_inv (wc_locks s)); [done|done| |done]. split; [|done]. exists L. destruct HL. constructor; try done.
Qed.

Lemma base_step (s : wctx) x v : kernel_ok s → is_Some (wc_waits s !! x) → 0 ≤ v ≤ LowestThreadPriority → ∃ s',
  on_locks (SetBasePriority x v) s = Done true s' ∧ kernel_ok s'.
Proof.
  intros ([[HB Hth] Hw] & Hh & Hnl) Hx Hv. destruct (base_thread s x HB Hx) as (k & t & Hk & _).
  destruct (new_base_run (wc_locks s) x k v (wb_locks _ HB) Hk Hv) as (l & E & HI & Ho & _ & Hu).
  eexists. split; [apply on_locks_run; unfold SetBasePriority; rewrite valid_base_run by done;
    change (ASSERT true) with (Done true tt); pstep; exact E|].
  split; [split; [|done]|done]. constructor; [by apply unmoved_base|]. intros y. apply unmoved_thread; [done|by rewrite Ho|done].
Qed.

(** ** The requests that change the lists of objects *)
Lemma sync_step (s s' : wctx) res objs timeout : kernel_ok s → wait_ok s' → sync_outcome s s' res objs timeout →
  is_Some (wc_waits s !! current_thread s) →
  (wakes_up (wc_timer s) (wc_waits s) → wakes_up (wc_timer s') (wc_waits s')) → kernel_ok s'.
Proof.
  intros ([_ Hw] & Hh & Hnl) Hok' Ho Hx Hwu. split; [split; [done|auto]|]. split; [|by eapply outcome_no_lost].
  destruct res as [[r [i|]]|]; cbn in Ho.
  - by destruct Ho as (_ & -> & _).
  - destruct Ho as [(_ & ->)|(_ & [(_ & _ & ->)|(_ & _ & t & _ & _ & ->)])]; done.
  - destruct Ho as (_ & _ & W). intros h o Hho. rewrite (sw_handles _ _ _ _ _ W) in Hho. specialize (Hh h o Hho).
    destruct (decide (o = current_thread s)) as [->|Hne]; [apply (sw_dom _ _ _ _ _ W)|by rewrite (proj1 (sw_others _ _ _ _ _ W o Hne))].
Qed.

Lemma event_signal_step (s : wctx) e : kernel_ok s → object_exists s e → ∃ s',
  ('(_, s') ← KReadableEvent_Signal e s; mret s') = Done true s' ∧ kernel_ok s'.
Proof.
  intros HK [ob Ho]. pose proof HK as ([Hok Hw] & Hh & Hnl). destruct (Signal_event_run s e ob Hok Ho) as (s' & E & Hok' & Hout & Hwu).
  rewrite E. pstep. exists s'. split; [done|]. destruct (m_is_signaled ob); [by subst|].
  split; [split; [done|auto]|]. split; [|exact (notified_no_lost s s' e ob ResultSuccess Hok Ho Hnl Hout)].
  destruct (released_keeps _ _ _ _ (on_released _ _ _ _ Hout)) as (K1 & K2 & _). intros h o. rewrite (K1 h), (K2 o). apply Hh.
Qed.

Lemma event_reset_step (s : wctx) e : kernel_ok s → object_exists s e → ∃ s',
  ('(_, s') ← KReadableEvent_Reset e s; mret s') = Done true s' ∧ kernel_ok s'.
Proof.
  intros HK [ob Ho]. pose proof HK as ([Hok Hw] & Hh & Hnl). destruct (Reset_run s e ob Hok Ho) as (s' & E & Hok' & Es').
  rewrite E. pstep. exists s'. split; [done|]. destruct (m_is_signaled ob); subst s'; [|done].
  split; [by split|]. split; [done|]. by apply flag_no_lost.
Qed.

Ltac step_with E := rewrite E; pstep; eexists; split; [done|]; eapply kernel_step; try done.

Lemma wait_step (r : wait_request) (s : wctx) : kernel_ok s → wait_pre r s → ∃ s', wait_request_run r s = Done true s' ∧ kernel_ok s'.
Proof.
  intros HK Hpre. pose proof HK as ([Hok Hw] & Hh & Hnl). destruct r; cbn [wait_request_run wait_pre] in *.
  - destruct Hpre as [Hx _]. eexists. split; [done|]. by apply switch_inv.
  - destruct Hpre as ((Hx & Hq) & Hto). destruct (Sleep_run s timeout Hok Hx Hq Hto) as (res & s' & E & Hok' & Hres & Hwu).
    step_with E. destruct res; [destruct Hres as [_ ->]; by split; [|split]|by eapply began_keeps].
  - destruct (CancelWait_run s thread wait_result Hok Hpre) as [(_ & E)|(_ & s' & E & Hok' & R & _ & Hwu)]; [by exists s|].
    exists s'. split; [done|]. apply (kernel_step s s'); try done. by eapply released_keeps.
  - destruct (DoTask_run cur_time s (conj Hok Hw)) as [(_ & E)|(s' & E & [Hok' Hw'] & R & _)]; [by exists s|].
    exists s'. split; [done|]. apply (kernel_step s s'); try done. by eapply released_keeps.
  - destruct Hpre. by apply base_step.
  - destruct Hpre as (Hx & Hq). destruct (SignalToAddress_run s addr Hok Hx) as (s' & E & Hok' & Hg & Hwu).
    step_with E. by eapply gave_keeps.
  - destruct Hpre as ((Hx & Hq) & Hself).
    destruct (WaitForAddress_run s handle addr value Hok Hh Hx Hq Hself) as (res & s' & E & Hok' & Hn & Hd & Hsy & _ & Hwu).
    step_with E. split; [done|]. split; [done|]. by apply same_shrinks.
  - destruct Hpre as ((Hc & Ha) & Hns). destruct (Signal_run s tree cv_key count Hok Hh Ha Hc Hns) as (it & s1 & E & Hok1 & Hn & Hd & Hsy & Hwu).
    eexists. split; [exact E|]. apply (kernel_step s); [done|by destruct it; [|apply memory_ok]| |by destruct it].
    destruct it; (split; [done|]; split; [done|]; by apply same_shrinks).
  - destruct Hpre as ((Hx & Hq) & (Hc & Ha) & Hto).
    destruct (Wait_run s tree addr key value timeout Hok Hx Hq Hc Ha Hto) as (res & s' & E & Hok' & _ & Hn & Hd & Hsy & Hwu).
    step_with E. split; [done|]. split; [done|]. by apply same_shrinks.
  - destruct Hpre as ([t Hc] & Ha). destruct (KAddressArbiter_Signal_run s tree t addr count Hok Hc) as (s' & E & Hok' & Hwk & Hwu).
    step_with E. exact (released_keeps _ _ _ _ (wk_released _ _ _ _ _ Hwk)).
  - destruct Hpre as (([t Hc] & Ha) & Hv).
    destruct (SignalAndIncrementIfEqual_run s tree t addr value count Hok Hc Hv) as (res & s' & E & Hok' & Hs & Hwu).
    step_with E. by eapply signalled_keeps.
  - destruct Hpre as (([t Hc] & Ha) & Hv).
    destruct (SignalAndModify_run s tree t addr value count Hok Hc Hv) as (res & s' & E & Hok' & Hs & Hwu).
    step_with E. by eapply signalled_keeps.
  - destruct Hpre as ((Hx & Hq) & ([t Hc] & Ha) & Hto & Hdec).
    destruct (WaitIfLessThan_run s tree t addr value decrement timeout Hok Hx Hq Hc Ha Hto Hdec) as (res & s' & E & Hok' & Haw & Hwu).
    step_with E. by eapply arbiter_keeps.
  - destruct Hpre as ((Hx & Hq) & ([t Hc] & Ha) & Hto).
    destruct (WaitIfEqual_run s tree t addr value timeout Hok Hx Hq Hc Ha Hto) as (res & s' & E & Hok' & Haw & Hwu).
    step_with E. by eapply arbiter_keeps.
  - destruct Hpre as ((Hx & Hq) & Ho & Hto). destruct (SyncWait_run s objects timeout Hok Hx Hq Ho Hto) as (res & s' & E & Hok' & Hout & Hwu).
    rewrite E. pstep. eexists. split; [done|]. by eapply sync_step.
  - destruct (WaitCancel_run s thread Hok Hpre) as (s' & E & Hok' & (t & Ht & Hout) & Hwu). exists s'. split; [done|].
    apply (kernel_step s s'); try done. cbv zeta in Hout.
    destruct (bool_decide (state_of (wc_locks s) thread = ThreadState_Waiting) && m_cancellable t); [|rewrite Hout; by split; [|split]].
    destruct (released_keeps _ _ _ _ Hout) as (K1 & K2 & K3). by split; [|split].
  - by apply event_signal_step.
  - by apply event_reset_step.
  - destruct Hpre as [ob Ho]. unfold KEvent_Signal. rewrite (get_object_run _ _ ob), bind_Done_true by done.
    destruct (m_readable_event_destroyed ob); [pstep; by exists s|]. apply event_signal_step; [done|by exists ob].
  - destruct Hpre as [ob Ho]. unfold KEvent_Clear. rewrite (get_object_run _ _ ob), bind_Done_true by done.
    destruct (m_readable_event_destroyed ob); [pstep; by exists s|]. unfold KReadableEvent_Clear.
    destruct (event_reset_step s event HK) as (s' & E & HK'); [by exists ob|]. exists s'. split; [|done].
    destruct (KReadableEvent_Reset event s) as [|[] [r s1]]; cbn in E |- *; done.
  - destruct Hpre as [ob Ho]. unfold OnReadableEventDestroyed. rewrite (change_object_run s event ob) by done. eexists. split; [done|].
    destruct (flag_ok s event ob (MkObject (m_thread_list_head ob) (m_thread_list_tail ob) (m_is_signaled ob) true) Hok Ho eq_refl eq_refl) as [Hok' Ew].
    split; [by split|]. split; [done|]. intros o. rewrite flagged_signaled, Ew. intros Hs. apply Hnl. case_decide; [subst|done].
    unfold is_signaled. rewrite Ho. exact Hs.
Qed.

Lemma waits_run (rs : list wait_request) (s : wctx) :
  kernel_ok s → wait_allowed rs s → ∃ s', wait_runs rs s = Done true s' ∧ kernel_ok s'.
Proof.
  revert s. induction rs as [|r rs IH]; intros s HK Hall; cbn [wait_runs]; [by exists s|].
  destruct Hall as (Hpre & Hall). destruct (wait_step r s HK Hpre) as (s1 & E & HK1). rewrite E, bind_Done_true.
  apply IH; [done|by apply Hall].
Qed.

(** C20: Every sequence of sleeps, waits for locks, condition variables, addresses
    and synchronization objects, signals, cancelled waits, timer interrupts and
    priority changes that is allowed ([wait_pre]) runs to its end with no failed
    assertion.  Allowed are requests by threads that run, on trees and objects that
    exist, with 64-bit timeouts and arbiter values that do not overflow, in which no
    thread waits for a lock with its own handle and no waiter that is signalled has a
    lock word that names the waiter itself; a guest can make the last two, and they
    are not covered.  It is also assumed that exclusive stores to guest memory do not
    fail for ever ([GuestMemoryLaws]).  After the sequence a thread is waiting exactly
    when it is on a wait queue, and then it waits for what the queue stands for and
    nothing else: it has a node in the list of each object it waits for and in no
    other.  No wakeup is lost: nobody waits for an object that is signaled.  The
    timer has the tasks of waiting threads with a timeout, in order, and its next
    interrupt is not after the first of them; and the locks and the scheduler are
    consistent. *)
Theorem waiting_invariant (rs : list wait_request) (s : wctx) :
  kernel_ok s → wait_allowed rs s → wp (wait_runs rs s) kernel_ok.
Proof.
  intros HK Hall. destruct (waits_run rs s HK Hall) as (s' & -> & HK'). by apply wp_Done.
Qed.

(** C29: A timer interrupt ends the waits of exactly the threads whose time has
    come, with the result "timed out": they run and wait for no lock, condition
    variable, address or object any more.  Every other thread keeps its state, its wait queue
    and timer task, the lock owner it waits for and the tree it is in; its priority
    may fall when a waiter of its locks timed out.  The next interrupt is set to the
    first task that is left.  While the interrupt is off nothing is done. *)
Theorem DoTask_correct (now : Z) (s : wctx) :
  wait_inv s →
  wp (DoTask now s) (λ s', wait_inv s' ∧
    if GetInterruptEnabled s
    then released s s' (filter (λ x, time_of (wc_waits s) x ≤ now) (m_task_tree (wc_timer s))) ResultTimedOut ∧
         m_wakeup_time (wc_timer s') = default S64_MAX (time_of (wc_waits s') <$> m_next_task (wc_timer s'))
    else s' = s).
Proof.
  intros HI. unfold GetInterruptEnabled. destruct (DoTask_run now s HI) as [(E1 & ->)|(s' & E & HI' & R & Hwk)].
  - apply wp_Done. rewrite E1, Z.eqb_refl. done.
  - destruct (m_wakeup_time (wc_timer s) =? S64_MAX) eqn:Ew; [|rewrite E; by apply wp_Done].
    unfold DoTask, GetInterruptEnabled. rewrite Ew. by apply wp_Done.
Qed.

(** KAddressArbiter::Signal wakes the threads that wait at the address, the
    first [count] of them in the order of the tree, best priority first, or all when
    [count] is not positive, with success; it leaves all other threads and the
    order of the waiters that stay as they were. *)
Theorem KAddressArbiter_Signal_correct (s : wctx) (c key count : Z) :
  wait_inv s → is_Some (lc_cv_trees (wc_locks s) !! c) →
  wp (KAddressArbiter_Signal c key count s) (λ '(r, s'), r = ResultSuccess ∧ wait_inv s' ∧
    released s s' (first_of count (waiters_at s c key)) ResultSuccess ∧
    cv_tree s' c = filter (λ y, y ∉ first_of count (waiters_at s c key)) (cv_tree s c)).
Proof.
  intros [Hok Hw] [tree Hc]. destruct (KAddressArbiter_Signal_run s c tree key count Hok Hc) as (s' & -> & Hok' & [R St] & Hwu).
  apply wp_Done. split; [done|]. split; [split; [done|auto]|]. split; [done|].
  apply cv_tree_some. rewrite (st_trees _ _ _ _ St). apply lookup_insert_eq.
Qed.

(** SignalAndModifyByWaitingCountIfEqual asks for the value plus 1 when nobody
    waits at the address; less 2 when somebody does and all are to be woken; less 1
    when no more wait than are to be woken; and else for the value as it is.  When
    the word had another value it returns an error and wakes nobody; else the first
    [count] waiters are woken. *)
Theorem SignalAndModifyByWaitingCountIfEqual_correct (s : wctx) (c key value count : Z) :
  wait_inv s → is_Some (lc_cv_trees (wc_locks s) !! c) → -2 ^ 31 + 2 ≤ value < 2 ^ 31 - 1 →
  (∃ it, cv_nfind c key s = Done true it ∧
     modified_value c key value count it s =
       Done true (value_by_waiters value count (Z.of_nat (length (waiters_at s c key))))) ∧
  wp (SignalAndModifyByWaitingCountIfEqual c key value count s) (λ '(r, s'), wait_inv s' ∧ ∃ m,
    r = ResultInvalidState ∧ s' = set_memory m s ∨
    r = ResultSuccess ∧ released (set_memory m s) s' (first_of count (waiters_at s c key)) ResultSuccess).
Proof.
  intros [Hok Hw] [tree Hc] Hv. split; [by apply (modified_value_run s c tree); [apply Hok| |]|].
  destruct (SignalAndModify_run s c tree key value count Hok Hc Hv) as (r & s' & -> & Hok' & (m & Hs) & Hwu).
  apply wp_Done. split; [split; [done|auto]|]. exists m. destruct Hs as [?|[? Hwk]]; [by left|right].
  split; [done|]. exact (wk_released _ _ _ _ _ Hwk).
Qed.

(** C27: KConditionVariable::Signal of one thread takes the first waiter at the key,
    which is one with the best priority, and replaces the word of its lock in one
    exclusive access, repeated while the store fails (not for ever, by
    [GuestMemoryLaws]).  When the word was 0, so that the lock was free, the waiter's
    own tag is stored and the waiter runs; otherwise the word is stored with
    the flag that others wait, and the waiter waits for the thread the word names, or
    runs with an error when it names none.  The word at the key, which says that
    there are waiters, is cleared exactly when no other thread waits there.  Assumed is
    that the lock word does not name the waiter itself, which a guest could write. *)
Theorem KConditionVariable_Signal_correct (s : wctx) (c key : Z) :
  kernel_ok s → tree_exists s c false → (∀ x, head (waiters_at s c key) = Some x → ¬ wants_own s x) →
  wp (KConditionVariable_Signal c key 1 s) (λ s', wait_inv s' ∧ one_signalled s s' c key).
Proof.
  intros ([Hok Hw] & Hh & _) [Hc Ha] Hself. destruct (Signal_one_run s c key Hok Hh Ha Hc Hself) as (s' & -> & Hok' & Hs & Hwu).
  apply wp_Done. split; [split; [done|auto]|done].
Qed.

(** C28: SignalToAddress gives the current thread's lock at the address to the
    waiter with the best priority: it is woken with success, the other waiters wait
    for it now, and the word gets its tag, with the flag that others wait exactly
    when they do.  With no waiter the word becomes 0. *)
Theorem SignalToAddress_correct (s : wctx) (addr : Z) :
  wait_inv s → is_Some (wc_waits s !! current_thread s) →
  wp (KConditionVariable_SignalToAddress addr s) (λ '(r, s'), r = ResultSuccess ∧ wait_inv s' ∧ gave_lock s s' addr).
Proof.
  intros [Hok Hw] Hx. destruct (SignalToAddress_run s addr Hok Hx) as (s' & -> & Hok' & Hg & Hwu).
  apply wp_Done. split; [done|]. split; [split; [done|auto]|done].
Qed.

(** KSynchronizationObject::Wait returns at once, with the first object that
    is signaled, or with an error when the thread is to terminate, the timeout is
    zero or its wait was cancelled.  Otherwise none of the objects is signaled and
    the thread waits: it has a node at the end of the list of each object, one for
    each place the object has in the array, and all other threads and the order of
    the lists are as they were. *)
Theorem KSynchronizationObject_Wait_correct (s : wctx) (objects : list Z) (timeout : Z) :
  wait_inv s → runs s (current_thread s) → (∀ o, o ∈ objects → object_exists s o) → timeout ≤ S64_MAX →
  wp (KSynchronizationObject_Wait objects timeout s) (λ '(res, s'), wait_inv s' ∧ sync_outcome s s' res objects timeout).
Proof.
  intros [Hok Hw] [Hx Hq] Ho Hto. destruct (SyncWait_run s objects timeout Hok Hx Hq Ho Hto) as (res & s' & -> & Hok' & Hout & Hwu).
  apply wp_Done. split; [split; [done|auto]|done].
Qed.

(** KReadableEvent::Signal walks over a list that changes while it does, and
    wakes every thread that waits for the event, and no other, in the order in which
    they came and with success.  Each gets the index of the first place the event has
    among the objects it waits for, and its nodes are taken out of the lists of all
    its objects, which keep the order of the others.  An event that is signaled
    already is left as it is. *)
Theorem KReadableEvent_Signal_correct (s : wctx) (event : Z) (ob : KSynchronizationObject) :
  wait_inv s → sy_objects (wc_sync s) !! event = Some ob →
  wp (KReadableEvent_Signal event s) (λ '(r, s'), r = ResultSuccess ∧ wait_inv s' ∧ is_signaled (wc_sync s') event = true ∧
    if m_is_signaled ob then s' = s
    else released (flagged s event (set_signaled true ob)) s' (once (waiters (wc_sync s) event).*1) ResultSuccess ∧
         waiters (wc_sync s') event = [] ∧
         ∀ x, x ∈ (waiters (wc_sync s) event).*1 → notified s s' event x).
Proof.
  intros [Hok Hw] Ho. destruct (Signal_event_run s event ob Hok Ho) as (s' & -> & Hok' & Hout & Hwu). apply wp_Done.
  split; [done|]. split; [split; [done|auto]|]. destruct (m_is_signaled ob) eqn:Es; [subst s'; split; [|done]; unfold is_signaled; by rewrite Ho|].
  destruct Hout as [R Ee N]. destruct (flag_ok s event ob (set_signaled true ob) Hok Ho eq_refl eq_refl) as [_ Ew]. rewrite Ew in R, N.
  split; [|done]. destruct (released_shrinks _ _ _ _ R event) as (_ & -> & _). by rewrite flagged_signaled, decide_True.
Qed.
End Properties.

(** ** An example

    Threads 7 and 8 run and have the handles 3 and 4; the tree 50 is that of a
    condition variable, the tree 60 that of an address arbiter. *)
#[local] Instance ex_memory : GuestMemory (gmap Z Z) := {|
  Read32 a m := (default 0 (m !! a), m);
  Write32 a v m := <[a := v]> m;
  ExclusiveRead32 a m := (default 0 (m !! a), m);
  ExclusiveWrite32 a v m := (true, <[a := v]> m);
  ClearExclusive m := m;
  exclusive_tries m := 0%nat
|}.
#[local] Instance ex_memory_laws : GuestMemoryLaws (gmap Z Z).
Proof. by intros a v v' m m1 m2 _ E. Qed.

#[local] Instance ex_handles : ThreadHandles (gmap Z Z) := {| GetThread h t := (t !! h, t); CloseThread x t := t |}.
#[local] Program Instance ex_handles_laws : ThreadHandlesLaws (gmap Z Z) := {| handle_names t h := t !! h |}.
Solve All Obligations with done.

#[local] Instance ex_trees : TreeKinds := λ c, c =? 60.

(** Two events, the second of them signaled. *)
Definition ex_sync : SyncState :=
  MkSync {[70 := MkObject None None false false; 71 := MkObject None None true false]} ∅
    {[7 := MkSyncThread 0 false false; 8 := MkSyncThread 0 false false]}.

Lemma ex_sync_lists : lists_ok ex_sync ∧ ∀ o, waiters ex_sync o = [].
Proof.
  apply (lists_intro ex_sync (λ _, [])); [|done|by intros o o' n ?%elem_of_nil].
  intros o ob Ho. cbn [ex_sync sy_objects] in Ho. apply lookup_insert_Some in Ho as [(_ & <-)|(_ & Ho)]; [by constructor; [..|constructor]|].
  apply lookup_singleton_Some in Ho as (_ & <-). by constructor; [..|constructor].
Qed.

(** Thread 7 holds the lock at address 4096, and others want it. *)
Definition ex_idle : WaitContext Z (gmap Z Z) (gmap Z Z) :=
  MkWaitContext (set_sched ex_ready ex_unlocked) {[7 := MkWaits None 0 false 0; 8 := MkWaits None 0 false 0]}
    (MkTimer [] None S64_MAX) ex_sync {[3 := 7; 4 := 8]} {[4096 := Z.lor 3 HandleWaitMask]}.

Lemma ex_ready_threads : ctx_threads ex_ready = {[7 := ex_ready_thread; 8 := ex_ready_thread]}.
Proof. vm_compute. reflexivity. Qed.

Lemma ex_two_lookup {A} (a : A) (x : Z) : ({[7 := a; 8 := a]} : gmap Z A) !! x = if decide (x = 7 ∨ x = 8) then Some a else None.
Proof.
  case_decide as Hd; [destruct Hd as [-> | ->]; [by rewrite lookup_insert_eq|]|].
  - rewrite lookup_insert_ne by done. by rewrite lookup_singleton_eq.
  - rewrite lookup_insert_ne, lookup_singleton_ne by naive_solver. done.
Qed.

Lemma ex_idle_ok : kernel_ok ex_idle.
Proof.
  assert (∀ x, wc_waits ex_idle !! x = if decide (x = 7 ∨ x = 8) then Some (MkWaits None 0 false 0) else None) as HW
    by (intros x; apply ex_two_lookup).
  split; [split; [split|]|split].
  - constructor.
    + apply view_inv; [apply ex_unlocked_inv| |apply ex_ready_inv|apply ex_ready_inv].
      intros x. rewrite ex_ready_threads. change (lc_sched ex_unlocked) with ex_start.
      change (ctx_threads ex_start) with ({[7 := ex_waiting; 8 := ex_waiting]} : gmap Z KThread).
      rewrite !ex_two_lookup. by case_decide.
    + intros x. rewrite HW. change (lc_locks (wc_locks ex_idle)) with ({[7 := ex_locks0; 8 := ex_locks0]} : gmap Z ThreadLocks).
      rewrite ex_two_lookup. case_decide; split; intros [? ?]; (done || by eexists).
    + constructor; cbn [ex_idle wc_timer m_task_tree m_next_task]; [constructor|constructor| |done|];
        intros x; unfold time_of; rewrite HW; case_decide; cbn; try (split; [intros []%not_elem_of_nil|lia]); unfold S64_MAX; lia.
    + apply ex_sync_lists.
    + intros x. rewrite HW. cbn [ex_idle wc_sync ex_sync sy_threads]. rewrite ex_two_lookup. by case_decide; intros [? ?]; [eexists|].
  - intros x. constructor.
    + unfold state_of, queue_of. rewrite HW. change (lc_sched (wc_locks ex_idle)) with ex_ready. rewrite ex_ready_threads, ex_two_lookup.
      case_decide; cbn; split; (done || by intros []).
    + unfold queue_of. rewrite HW. change (owner_of (wc_locks ex_idle) x) with (owner_of ex_unlocked x). rewrite ex_unlocked_owner.
      unfold tree_of. change (lc_locks (wc_locks ex_idle)) with ({[7 := ex_locks0; 8 := ex_locks0]} : gmap Z ThreadLocks).
      rewrite ex_two_lookup. by case_decide.
    + unfold time_of. rewrite HW. case_decide; cbn; lia.
    + intros o i. cbn [ex_idle wc_sync]. rewrite (proj2 ex_sync_lists). unfold queue_of. rewrite HW, elem_of_nil. by case_decide.
  - intros x. done.
  - intros h o Ho. change (({[3 := 7; 4 := 8]} : gmap Z Z) !! h = Some o) in Ho. rewrite HW.
    apply lookup_insert_Some in Ho as [(_ & <-)|(_ & Ho)]; [by eexists|]. apply lookup_singleton_Some in Ho as (_ & <-). by eexists.
  - intros o _. apply ex_sync_lists.
Qed.

Local Abbreviation ex_context := (WaitContext Z (gmap Z Z) (gmap Z Z)).

(** The state after some requests. *)
Definition after (rs : list wait_request) (s : ex_context) : ex_context := result s (wait_runs rs s).

Lemma after_ok rs (s : ex_context) : kernel_ok s → wait_allowed rs s → kernel_ok (after rs s).
Proof. intros HK Hall. unfold after. by destruct (waits_run rs s HK Hall) as (s' & -> & HK'). Qed.

Lemma allowed_cons r rs (s s' : ex_context) : wait_pre r s → wait_request_run r s = Done true s' → wait_allowed rs s' → wait_allowed (r :: rs) s.
Proof. intros Hpre E Hrs. split; [done|]. intros s1 E1. congruence. Qed.

Lemma runs_by (s : ex_context) x w : wc_waits s !! x = Some w → m_wait_queue w = None → runs s x.
Proof. intros Hw Hq. split; [by eexists|]. unfold queue_of. by rewrite Hw. Qed.

(** Thread 7 waits at an address until time 1000; then thread 8 makes the calls. *)
Definition ex_wait_at : list wait_request := [WqWaitIfEqual 60 8192 0 1000; WqSwitch 8].
Definition ex_at_address : ex_context := after ex_wait_at ex_idle.

Lemma ex_wait_at_allowed : wait_allowed ex_wait_at ex_idle.
Proof.
  eapply allowed_cons; [|vm_compute; reflexivity|].
  - split; [|split; [split; [by eexists|done]|done]]. by apply (runs_by _ _ (MkWaits None 0 false 0)).
  - split; [|done]. by apply (runs_by _ _ (MkWaits None 0 false 0)).
Qed.

Lemma ex_at_address_ok : kernel_ok ex_at_address.
Proof. apply after_ok; [apply ex_idle_ok|apply ex_wait_at_allowed]. Qed.

Lemma waiting_invariant_witness : wp (wait_runs (ex_wait_at ++ [WqDoTask 2000]) ex_idle) kernel_ok.
Proof.
  apply (waiting_invariant (ex_wait_at ++ [WqDoTask 2000]) ex_idle); [apply ex_idle_ok|].
  eapply allowed_cons; [apply ex_wait_at_allowed|vm_compute; reflexivity|].
  eapply allowed_cons; [by apply (runs_by _ _ (MkWaits None 0 false 0))|vm_compute; reflexivity|done].
Defined.

Lemma DoTask_correct_witness : wp (DoTask 2000 ex_at_address) (λ s', wait_inv s' ∧ released ex_at_address s' [7] ResultTimedOut).
Proof.
  eapply wp_mono; [apply (DoTask_correct 2000 ex_at_address); apply ex_at_address_ok|]. intros s' (HI & Hs).
  assert (GetInterruptEnabled ex_at_address = true) as E1 by (vm_compute; reflexivity). rewrite E1 in Hs. destruct Hs as [R _].
  assert (filter (λ x, time_of (wc_waits ex_at_address) x ≤ 2000) (m_task_tree (wc_timer ex_at_address)) = [7]) as E2
    by (vm_compute; reflexivity).
  rewrite E2 in R. split; [exact HI|exact R].
Defined.

Lemma ex_waiters : waiters_at ex_at_address 60 8192 = [7] ∧ cv_tree ex_at_address 60 = [7].
Proof. vm_compute. split; reflexivity. Qed.

Lemma ex_arbiter_tree : is_Some (lc_cv_trees (wc_locks ex_at_address) !! 60).
Proof. vm_compute. by eexists. Qed.

Lemma KAddressArbiter_Signal_correct_witness :
  wp (KAddressArbiter_Signal 60 8192 1 ex_at_address) (λ '(r, s'), r = ResultSuccess ∧ released ex_at_address s' [7] ResultSuccess ∧
    cv_tree s' 60 = []).
Proof.
  eapply wp_mono; [apply (KAddressArbiter_Signal_correct ex_at_address 60 8192 1); [apply ex_at_address_ok|apply ex_arbiter_tree]|].
  intros [r s'] (Hr & _ & R & Ht). destruct ex_waiters as [E1 E2]. rewrite E1 in R, Ht. rewrite E2 in Ht.
  split; [exact Hr|]. split; [exact R|exact Ht].
Defined.

(** One thread waits and one is to be woken: the value goes from 0 to -1. *)
Lemma SignalAndModifyByWaitingCountIfEqual_correct_witness :
  (∃ it, modified_value 60 8192 0 1 it ex_at_address = Done true (-1)) ∧
  wp (SignalAndModifyByWaitingCountIfEqual 60 8192 0 1 ex_at_address) (λ '(r, s'), wait_inv s').
Proof.
  destruct (SignalAndModifyByWaitingCountIfEqual_correct ex_at_address 60 8192 0 1) as [(it & _ & E) Hw];
    [apply ex_at_address_ok|apply ex_arbiter_tree|lia|]. destruct ex_waiters as [E1 _]. rewrite E1 in E.
  split; [by exists it|]. eapply wp_mono; [exact Hw|]. by intros [r s'] [HI _].
Defined.

(** Thread 7 gives up its lock and waits on the condition variable. *)
Definition ex_cv_wait : list wait_request := [WqWait 50 4096 8192 3 (-1); WqSwitch 8].
Definition ex_on_condvar : ex_context := after ex_cv_wait ex_idle.

Lemma ex_on_condvar_ok : kernel_ok ex_on_condvar.
Proof.
  apply after_ok; [apply ex_idle_ok|]. eapply allowed_cons; [|vm_compute; reflexivity|].
  - split; [by apply (runs_by _ _ (MkWaits None 0 false 0))|]. split; [split; [by eexists|done]|done].
  - split; [|done]. by apply (runs_by _ _ (MkWaits None 0 false 0)).
Qed.

Lemma ex_replaced g a (m m' : gmap Z Z) v : word_replaced g a m v m' → v = default 0 (m !! a).
Proof. by destruct 1 as [m v m1 m2 [= <- _] _|m v m1 m2 v' m' _ E _]. Qed.

Lemma KConditionVariable_Signal_correct_witness :
  wp (KConditionVariable_Signal 50 8192 1 ex_on_condvar) (λ s', wait_inv s' ∧ one_signalled ex_on_condvar s' 50 8192).
Proof.
  apply (KConditionVariable_Signal_correct ex_on_condvar 50 8192); [apply ex_on_condvar_ok| |].
  - split; [vm_compute; by eexists|done].
  - assert (head (waiters_at ex_on_condvar 50 8192) = Some 7) as E by (vm_compute; reflexivity). rewrite E.
    intros x [= <-] (k & tag & m & Hk & Hw & Hn).
    assert (lc_locks (wc_locks ex_on_condvar) !! 7 = Some (MkLocks 44 [] None 4096 false (Some 50) 8192 false 3)) as Ek by (vm_compute; reflexivity).
    rewrite Ek in Hk. injection Hk as <-. apply ex_replaced in Hw. rewrite Hw in Hn. vm_compute in Hn. discriminate Hn.
Defined.

(** Thread 8 waits for the lock that thread 7 holds. *)
Definition ex_contend : list wait_request := [WqSwitch 8; WqWaitForAddress 3 4096 4; WqSwitch 7].
Definition ex_contended : ex_context := after ex_contend ex_idle.

Lemma ex_contended_ok : kernel_ok ex_contended.
Proof.
  apply after_ok; [apply ex_idle_ok|].
  eapply allowed_cons; [by apply (runs_by _ _ (MkWaits None 0 false 0))|vm_compute; reflexivity|].
  eapply allowed_cons; [|vm_compute; reflexivity|].
  - split; [by apply (runs_by _ _ (MkWaits None 0 false 0))|done].
  - split; [|done]. by apply (runs_by _ _ (MkWaits None 0 false 0)).
Qed.

Lemma SignalToAddress_correct_witness :
  wp (KConditionVariable_SignalToAddress 4096 ex_contended) (λ '(r, s'), r = ResultSuccess ∧ wait_inv s' ∧ gave_lock ex_contended s' 4096).
Proof.
  apply (SignalToAddress_correct ex_contended 4096); [apply ex_contended_ok|]. vm_compute. by eexists.
Defined.

(** What they compute: thread 8 waits for 7, and then runs with the lock. *)
Lemma ex_lock_passes :
  owner_of (wc_locks ex_contended) 8 = Some 7 ∧
  let s' := result ex_contended ('(_, s) ← KConditionVariable_SignalToAddress 4096 ex_contended; mret s) in
  owner_of (wc_locks s') 8 = None ∧ state_of (wc_locks s') 8 = ThreadState_Runnable ∧ wc_memory s' !! 4096 = Some 4.
Proof. vm_compute. done. Qed.

(** Thread 7 waits for an event that is in its array twice, then thread 8 signals it. *)
Definition ex_event_wait : list wait_request := [WqSynchronization [70; 70] 1000; WqSwitch 8].
Definition ex_on_event : ex_context := after ex_event_wait ex_idle.

Lemma ex_object_70 : object_exists ex_idle 70.
Proof. by eexists. Qed.

Lemma ex_on_event_ok : kernel_ok ex_on_event.
Proof.
  apply after_ok; [apply ex_idle_ok|]. eapply allowed_cons; [|vm_compute; reflexivity|].
  - split; [by apply (runs_by _ _ (MkWaits None 0 false 0))|]. split; [|done].
    intros o [->|[->|[]%not_elem_of_nil]%elem_of_cons]%elem_of_cons; exact ex_object_70.
  - split; [|done]. by apply (runs_by _ _ (MkWaits None 0 false 0)).
Qed.

Lemma KSynchronizationObject_Wait_correct_witness :
  wp (KSynchronizationObject_Wait [70; 70] 1000 ex_idle) (λ '(res, s'), wait_inv s' ∧ sync_outcome ex_idle s' res [70; 70] 1000).
Proof.
  apply (KSynchronizationObject_Wait_correct ex_idle [70; 70] 1000);
    [apply ex_idle_ok|by apply (runs_by _ _ (MkWaits None 0 false 0))| |done].
  intros o [->|[->|[]%not_elem_of_nil]%elem_of_cons]%elem_of_cons; exact ex_object_70.
Defined.

Lemma KReadableEvent_Signal_correct_witness :
  waiters (wc_sync ex_on_event) 70 = [(7, 0%nat); (7, 1%nat)] ∧
  wp (KReadableEvent_Signal 70 ex_on_event) (λ '(r, s'), r = ResultSuccess ∧ wait_inv s' ∧
    waiters (wc_sync s') 70 = [] ∧ notified ex_on_event s' 70 7).
Proof.
  assert (Ew : waiters (wc_sync ex_on_event) 70 = [(7, 0%nat); (7, 1%nat)]) by (vm_compute; reflexivity).
  split; [exact Ew|].
  assert (Eo : sy_objects (wc_sync ex_on_event) !! 70 = Some (MkObject (Some (7, 0%nat)) (Some (7, 1%nat)) false false))
    by (vm_compute; reflexivity).
  eapply wp_mono; [apply (KReadableEvent_Signal_correct ex_on_event 70 _ (proj1 ex_on_event_ok) Eo)|].
  intros [r s'] (Hr & HI & _ & Hs). cbn in Hs. rewrite Ew in Hs. destruct Hs as (_ & Ee & Hn).
  split; [exact Hr|]. split; [exact HI|]. split; [exact Ee|]. apply Hn. left.
Defined.

(** What they compute: the thread runs, with the index of the first place, and its
    timer task is gone; the other event is found at once. *)
Lemma ex_event_wakes :
  let s' := result ex_on_event ('(_, s) ← KReadableEvent_Signal 70 ex_on_event; mret s) in
  state_of (wc_locks ex_on_event) 7 = ThreadState_Waiting ∧ state_of (wc_locks s') 7 = ThreadState_Runnable ∧
  sy_threads (wc_sync s') !! 7 = Some (MkSyncThread 0 false false) ∧ m_task_tree (wc_timer s') = [] ∧
  KSynchronizationObject_Wait [70; 71] 0 s' = Done true (Some (ResultSuccess, Some 0%nat), s') ∧
  KSynchronizationObject_Wait [70; 71] 0 ex_idle = Done true (Some (ResultSuccess, Some 1%nat), ex_idle).
Proof. vm_compute. done. Qed.

(** * A waiter that is missed

    KConditionVariable::Signal goes through the tree with an iterator while it
    adds the threads it takes out to the waiters of their locks' owners.  An owner
    that gets a better priority by it, and is itself in the tree, is put to a new
    place, and that may be before the iterator. *)

(** Four threads that run, with the handles 1 to 4. *)
Definition ex_four : list Z := [11; 12; 13; 14].
Definition ex_four_entries : Entries :=
  list_to_map ((λ i, (i, QueueEntry_Initialize)) <$> (ex_four ≫= λ x, (λ c, (x, c)) <$> [0; 1; 2; 3])).
Definition ex_four_sched : SchedulerContext Z :=
  result ex_start (sched_runs ((λ x, SqSetState x ThreadState_Runnable) <$> ex_four)
    (MkContext (list_to_map ((λ x, (x, ex_waiting)) <$> ex_four)) {[1 := ex_process]} (KPriorityQueue_new ex_four_entries)
      (replicate 4 ex_scheduler) false [] ex_four true 11 0 0)).
Definition ex_four_idle : WaitContext Z (gmap Z Z) (gmap Z Z) :=
  MkWaitContext
    (MkLockContext ex_four_sched (list_to_map ((λ x, (x, ex_locks0)) <$> ex_four)) ∅ [100; 101; 102; 103] {[50 := []]})
    (list_to_map ((λ x, (x, MkWaits None 0 false 0)) <$> ex_four)) (MkTimer [] None S64_MAX) (MkSync ∅ ∅ ∅)
    {[1 := 11; 2 := 12; 3 := 13; 4 := 14]} ∅.

#[local] Existing Instance ex_memory.
#[local] Existing Instance ex_handles.

Definition requests_then (rs : list wait_request) (s : WaitContext Z (gmap Z Z) (gmap Z Z)) : WaitContext Z (gmap Z Z) (gmap Z Z) :=
  result s (wait_runs rs s).

(** Threads 11 and 12, of priorities 20 and 30, wait on the condition variable at
    8192, with locks at 4096 and 4100.  Thread 13, of priority 40, takes both locks
    and waits there too; thread 14 goes on. *)
Definition ex_two_wait : WaitContext Z (gmap Z Z) (gmap Z Z) :=
  requests_then [WqSetBasePriority 11 20; WqSetBasePriority 12 30; WqSetBasePriority 13 40;
    WqSwitch 11; WqWait 50 4096 8192 1 (-1); WqSwitch 12; WqWait 50 4100 8192 2 (-1)] ex_four_idle.
Definition ex_locks_taken : WaitContext Z (gmap Z Z) (gmap Z Z) :=
  set_memory (<[4096 := 3]> (<[4100 := 3]> (wc_memory ex_two_wait))) ex_two_wait.
Definition ex_three_wait : WaitContext Z (gmap Z Z) (gmap Z Z) :=
  requests_then [WqSwitch 13; WqWait 50 4104 8192 3 (-1); WqSwitch 14] ex_locks_taken.

(** C39: A signal to all threads may miss one.  Three threads wait on a condition
    variable, the one with the worst priority holds the locks that the two others
    want back.  After KConditionVariable::Signal with a count of -1 it still waits
    there, while the word of the condition variable says that nobody does. *)
Theorem Signal_all_misses_a_waiter :
  let s' := result ex_three_wait (KConditionVariable_Signal 50 8192 (-1) ex_three_wait) in
  cv_tree ex_three_wait 50 = [11; 12; 13] ∧ wc_memory ex_three_wait !! 8192 = Some 1 ∧
  cv_tree s' 50 = [13] ∧ state_of (wc_locks s') 13 = ThreadState_Waiting ∧ wc_memory s' !! 8192 = Some 0 ∧
  owner_of (wc_locks s') 11 = Some 13 ∧ owner_of (wc_locks s') 12 = Some 13.
Proof. vm_compute. done. Qed.
